(* ===== verification/_CoqProject ===== *)
-Q . S2P
Prelude.v
GoStrings.v
Ns.v
Ranges.v
Utf8.v
Backoff.v
Glob.v
Listing.v
Precond.v
Blocks.v
Crc.v
Chunked.v
Pieces.v
Reader.v
BlockCache.v
Window.v
Body.v
Ids.v
Tables.v
Objects.v
CacheTables.v
Conditions.v
Multipart.v
ObjectSpec.v
CacheSpec.v
Machine.v
ObjectRep.v
ObjectRefine.v
ObjectRead.v
CacheRefine.v
ObjectComplete.v
ObjectStore.v
LateRead.v
Names.v
CacheValues.v
ReadMany.v
Outbox.v
FillLeases.v
Jobs.v
JobLife.v
JobFetch.v
Streams.v
StreamDelivery.v
StreamProgress.v
Resp.v
RespReplies.v
RespSim.v
RespPipeline.v
RespStore.v
RespRefine.v
RespScan.v
RespServer.v
Origin.v
LocalOrigin.v
Spool.v
Tier.v
TierMachine.v
TierLogic.v
TierKeys.v
TierReads.v
TierWrites.v
TierFits.v
TierSafe.v
TierRuns.v
Buckets.v
Http.v
S3Request.v
S3Text.v
S3Server.v
S3List.v
S3Safe.v
