(* ===== verification/Prelude.v ===== *)
(** * Verification of pgvs3, PostgreSQL as an object data plane

    pgvs3 stores objects, caches, job queues and streams in PostgreSQL and
    serves them over S3, RESP and HTTP.  This library models the parts of its
    Go code ([internal/...]) and of its SQL functions
    ([internal/store/schema.sql]) that decide what is stored and what is
    returned, and proves them correct.  Each file names the code it models;
    definitions keep the names of the code.

    ** The program and the files

    Text and names.  [GoStrings] has the string functions of Go the code uses;
    [Ns] ([ns/ns.go], [reqguard/presign.go]) names, schema identifiers and the
    texts of advisory locks; [Utf8] runes and the upper end of a prefix.

    Reading.  [Ranges] ([store/object.go], [s3/request.go]) has metadata, multipart
    manifests, ranges and part numbers.  An object is one or more files; a file
    is a sequence of rows of at most 8,120 bytes.  [Pieces] cuts a byte range
    into pieces of rows, [Reader] turns the rows of a piece into chunks,
    [Window] is the pool of workers and the merger that deliver the pieces in
    order, [BlockCache] ([store/blockcache.go]) the cache of blocks of rows,
    [Body] the response body with its pool of buffers.

    Writing.  [Blocks] compresses rows and frames the COPY stream, [Ids]
    ([store/store.go]) hands out file identifiers, [Precond] and [Conditions]
    ([store/write.go], [s3/object.go]) are the conditional headers, [Tables]
    ([schema.sql]) the tables of a namespace with the SQL functions on them and
    a monad of transactions, [Objects] ([store/write.go], [store/object.go],
    [store/store.go]) the operations: writes, uploads, parts, completion,
    copies, deletion, eviction and the reaper.  [Multipart] is about planning
    a completion.

    What the store promises.  [ObjectSpec] is an abstract store: a map from
    keys to attributes and bytes, and a map of uploads.  [ObjectRep] relates
    tables to it, [ObjectRefine] and [ObjectComplete] show that each operation
    implements its specification, [ObjectStore] that every run does.  [Machine]
    puts the operations of objects and caches together, [ObjectRead] reads
    what the tables represent, [LateRead] is about readers that hold metadata
    while the tables change, and [Names] about entity tags and types.

    Caches ([store/cache.go]).  [CacheTables] has the operations on tables:
    expiry, batches, flushing, fill leases, the queue of uploads to an origin,
    origin metadata and retirement; [CacheSpec] and [CacheRefine] specify them
    and show the refinement.  [CacheValues] has the value operations and the
    compare-and-swap loop against other clients, [ReadMany] bulk reads,
    [Outbox] the uploads that are owed, [FillLeases] the leases.

    RESP ([resp/resp.go]).  [Glob] is Go's [path.Match].  [Resp] has the
    commands, sessions, coalescing and the serving loop over an interface to
    the store ([StoreOps]); [RespStore] implements the interface by the tables
    and by maps.  [RespSim] and [RespPipeline] say what it takes for one
    implementation to follow another ([Simulates], [Batches]), [RespRefine]
    discharges it, [RespReplies] counts replies, [RespScan] is about [KEYS]
    and [SCAN] and [RespServer] has the theorems about connections.

    Origins ([objcache/origin.go], [objcache/registry.go]).  [Origin] has what
    lies in front of a driver - capabilities, keys, versions, classes of
    errors - and the driver as a class ([OriginDriver]) with its laws
    ([OriginLaws]); [LocalOrigin] is the driver over a directory, with its file
    tree, and discharges the laws.

    The read-through cache over an origin ([objcache/cache.go]).  [Spool] puts
    bodies aside under a budget of bytes.  [Tier] has every operation as a
    program: a tree of actions on the clock, the store, the origin and the
    process.  [TierMachine] says what the actions do and runs any number of
    processes with a tier, action by action, with faults.  [TierLogic] is a
    logic of what a program may rely on and must promise at each action;
    [TierKeys], [TierReads] and [TierWrites] prove the operations in it.
    [TierFits] and [TierSafe] have the invariant of the caches and the origin
    and show that the machine keeps the promises, [TierRuns] the theorems
    about runs.

    Buckets ([store/store.go], [schema.sql]).  [Buckets] has the catalog of
    namespaces, and drops and clones them.

    S3.  [Listing] ([s3/object.go], [store/object.go]) lists keys and uploads
    page by page, [Chunked] ([s3/request.go]) decodes aws-chunked bodies, [Crc]
    is CRC-64/NVME.  [Http] has requests and responses, [S3Request]
    ([s3/request.go]) metadata, headers, paths, errors and bodies with their
    checksums, [S3Text] the theorems about names and metadata.  [S3Server]
    ([s3/object.go], [s3/server.go]) has every handler and the routes, as
    programs over the calls to the store and the tiers; [S3Safe] shows what
    these programs call whatever is answered, [S3List] that listings are those
    of [Listing].

    Jobs.  [Backoff] ([work/work.go]) computes retry delays in binary64; [Jobs]
    ([store/ojs.go]) has the state machine, the tables and all operations;
    [JobLife] and [JobFetch] the theorems.

    Streams.  [Streams] ([store/stream.go], [schema.sql]) has the event log with
    transactions and snapshots, ticks, subscriptions, batches, retries, dead
    letters, pruning and rotation; [StreamDelivery] and [StreamProgress] the
    theorems.

    ** What is proved

    - Objects.  Any run of operations by any number of processes has the
      results of the abstract store, and every reader gets the bytes and
      metadata of it ([store_refines]); no row is lost or left over
      ([store_rows_kept]) and the reaper ends with exactly the rows referred
      to ([reaper_drains]).  A reader that is overtaken by writers and the
      reaper gets the bytes of the object it has seen or an error
      ([late_read]).  Bytes written in any chunks are read back by any
      range ([write_then_read], [streamed_object]); the parallel reader never
      deadlocks and ends ([window_completes]); the cache never returns wrong
      bytes ([cache_run_safe]).  Planning, framing, ranges, manifests,
      checksums and conditions have their own functional theorems.
    - Caches.  An update takes effect at one moment whatever others do
      ([mutate_atomic]) and ends when undisturbed ([mutate_progress]); reads
      show the stored values ([cache_reads], [read_many]); no upload to the
      origin is lost ([uploads_owed]); fills exclude each other
      ([fill_exclusive]).  Entity tags name their contents
      ([etag_names_content]) and rows satisfy the constraints of their tables
      ([tables_well_typed]).
    - Read-through cache.  Whatever processes, requests and writers do, a read
      returns a range of one content that was sent to its key ([tier_reads]),
      every content of the origin was sent to its key as a whole
      ([origin_intact]), and an acknowledged upload is at the origin or owed to
      it ([tier_uploads]).
    - RESP.  A connection answers its pipelines as maps would, command by
      command, though reads and writes are coalesced ([resp_refines]); every
      command gets one complete reply ([resp_replies]); [KEYS] and the cursors
      of [SCAN] give every key that matches ([keys_exact], [scan_complete]).
    - S3.  Pages of a listing cover every key once ([list_pages]), and the
      handler answers them ([listing_served]); aws-chunked bodies round-trip
      ([chunked_round_trip]) and never exceed their declared length
      ([chunked_length]).  A request changes only what its path names
      ([requests_confined]); an upload publishes only a body that has the
      checksums it declares ([uploads_verified]); user metadata come back as
      they were given ([metadata_round_trip]).
    - Buckets.  A drop erases the objects of a namespace
      ([DropNamespace_rep]), and a clone has those of its source when nothing
      is queued or uploaded there ([clone_rep]).
    - Jobs.  Every job lives by the lease protocol ([job_lives]), the SQL
      statements follow the state machine ([statements_follow_machine]), and a
      fetch returns the best claimable jobs ([fetch_best]).
    - Streams.  An exclusive consumer gets every event exactly once
      ([stream_exactly_once]), catches up in three rounds
      ([stream_catches_up]), and retention is a minimum
      ([retention_minimum]).
    - Theorems that exhibit flaws: [alignPieces_overrun],
      [swap_lock_text_differs], [foldList_start_after],
      [listMultipartUploads_stuck], [chunked_truncated], [members_lose_event],
      [failure_not_recorded], [open_truncates], [clone_leaks],
      [copy_source_named].

    ** Conventions, bounds and fuel

    Go integers are [Z] with [wrap32] and [wrap64] written where a value can
    leave its range.  Object bodies are lists of 8-bit characters, the same
    Go strings are made of.  Errors are values of [result] or [option]; a
    panic is an outcome of its own where the code could have one.  Loops that
    are not structural take fuel computed from their input, and theorems show
    that this fuel is enough: the bytes left for the readers and decoders, the
    number of rows for the reaper, the number of batches for [chain], 64
    steps for [Pow], one for each bit of its exponent.  SQL statements of
    one transaction run as one step, transactions are serial, and what
    concurrency can still change is an argument: the rows other transactions
    lock, the ticks not yet visible to a receive, the transactions running
    when a snapshot is taken, the order of a map iteration, the blocks a
    sequence returns.  A pipeline of the RESP server reads the clock once and
    runs undisturbed; its scans have as many pages as the server is given,
    which [scan_complete] bounds by the number of keys.  In the runs of tiers
    there is one clock, which moves on with every action, a body is read at one
    moment, bodies read from the store have up to 2^30 rows, and no key contains
    the infix of the keys of range chunks ([plain]).  A request of the S3 server
    reads its body before it writes, and lists at most as many pages as it is
    given.  The zstd codec, the digests of [crypto], JSON and the
    collation of the database are parameters with the laws they need
    ([Zstd], [ZstdLaws], [Digests]), instantiated in the witnesses.

    ** Not modelled

    Connections, contexts, cancellation, timeouts, telemetry and logging;
    command line and configuration ([cmd/pgvs3], [gateway]); the test programs
    ([test], [testutil]); the text of XML documents ([s3/xml.go]), and the
    admission, health and metrics of the S3 server ([s3/server.go]); the job API
    ([ojs]); the S3 client and its signatures ([s3client]); the drivers of origins over S3 and HTTP, which
    enter through the laws of [OriginLaws], the parsing of their configuration,
    and listings through a tier ([objcache]); the network library, metrics and semaphore of the RESP server;
    schema creation and adoption, quotas and the maintenance loop of
    [store/store.go]; snapshots of readers
    ([store/readguard.go], but for the reaper's choice).  They are mostly
    I/O around the parts above; the manifest gives the reason for each. *)

From Stdlib Require Export ZArith Lia Ascii.
From Stdlib Require String.
From stdpp Require Export base list gmap strings numbers sorting.

(** ** Notation scope *)

Declare Scope go_scope.
Delimit Scope go_scope with go.
#[global] Open Scope Z_scope.
#[global] Open Scope go_scope.

(** Object bodies, rows and network buffers are lists of 8-bit characters, the
    same characters Go strings are made of. *)
Abbreviation bytes := (list ascii).

(** ** Fallible computations *)

Inductive result (E A : Type) : Type :=
| Ok (a : A)
| Err (e : E).
Arguments Ok {E A} a.
Arguments Err {E A} e.

Definition rbind {E A B} (c : result E A) (k : A -> result E B) : result E B :=
  match c with
  | Ok a => k a
  | Err e => Err e
  end.

Notation "'let*' x ':=' c 'in' k" := (rbind c (fun x => k))
  (at level 10, x pattern, c at level 100, k at level 200) : go_scope.

Lemma rbind_Ok {E A B} (c : result E A) (k : A -> result E B) (b : B) :
  rbind c k = Ok b <-> exists a, c = Ok a /\ k a = Ok b.
Proof. destruct c; simpl; split; [eauto | intros (? & [= ->] & ?) | | intros (? & ? & ?)]; done. Qed.

(** ** Fixed-width integers

    Values of Go types [int32], [int64], [uint64] are integers; conversions
    and arithmetic that can leave the type's range go through the wrap-around
    functions below. *)

Definition wrap32 (z : Z) : Z := (z + 2 ^ 31) mod 2 ^ 32 - 2 ^ 31.
Definition wrap64 (z : Z) : Z := (z + 2 ^ 63) mod 2 ^ 64 - 2 ^ 63.
Definition u64 (z : Z) : Z := z mod 2 ^ 64.
Definition max_int64 : Z := 2 ^ 63 - 1.
Definition min_int64 : Z := - 2 ^ 63.

Lemma wrap32_small z : - 2 ^ 31 <= z < 2 ^ 31 -> wrap32 z = z.
Proof. intros H. unfold wrap32. rewrite Z.mod_small; lia. Qed.

Lemma wrap64_small z : - 2 ^ 63 <= z < 2 ^ 63 -> wrap64 z = z.
Proof. intros H. unfold wrap64. rewrite Z.mod_small; lia. Qed.

Lemma wrap32_range z : - 2 ^ 31 <= wrap32 z < 2 ^ 31.
Proof. unfold wrap32. pose proof (Z.mod_pos_bound (z + 2 ^ 31) (2 ^ 32)). lia. Qed.

(** Go's [/] and [%] truncate; on the non-negative values the code divides
    they are the floor operations the arithmetic solvers know. *)
Lemma quot_div_nonneg a b : 0 <= a -> 0 < b -> Z.quot a b = a / b.
Proof. intros. apply Z.quot_div_nonneg; lia. Qed.

Lemma rem_mod_nonneg a b : 0 <= a -> 0 < b -> Z.rem a b = a mod b.
Proof. intros. apply Z.rem_mod_nonneg; lia. Qed.

(** ** Lists indexed by integers *)

Definition zlen {A} (l : list A) : Z := Z.of_nat (length l).

(** [slice l a b] is Go's [l[a:b]] for [0 <= a <= b <= len(l)]; outside that
    range Go panics and [slice] truncates, so each use is accompanied by the
    bounds under which it is the Go expression. *)
Definition slice {A} (l : list A) (a b : Z) : list A :=
  take (Z.to_nat (b - a)) (drop (Z.to_nat a) l).

Definition slice_ok {A} (l : list A) (a b : Z) : Prop := 0 <= a <= b /\ b <= zlen l.

(** The part of the byte interval [[a, b)] that lies in the window [[s, e)]. *)
Definition clip {A} (l : list A) (s e a b : Z) : list A := slice l (Z.max a s) (Z.min b e).

(** [znth l i] is [l[i]] when [0 <= i < len(l)]. *)
Definition znth {A} (l : list A) (i : Z) : option A :=
  if decide (i < 0) then None else l !! Z.to_nat i.

(** ** Automation *)

Create HintDb go.
Create Rewrite HintDb go.

Ltac go_unfold := unfold zlen, slice_ok in *.

(** Case analysis on every boolean test and decision of the goal. *)
Ltac case_tests :=
  repeat match goal with
  | |- context [if decide ?P then _ else _] => destruct (decide P)
  | |- context [if Z.ltb ?a ?b then _ else _] => destruct (Z.ltb_spec a b)
  | |- context [if Z.leb ?a ?b then _ else _] => destruct (Z.leb_spec a b)
  | |- context [if Z.eqb ?a ?b then _ else _] => destruct (Z.eqb_spec a b)
  end.

Ltac case_tests_in H :=
  repeat match type of H with
  | context [if decide ?P then _ else _] => destruct (decide P)
  | context [if Z.ltb ?a ?b then _ else _] => destruct (Z.ltb_spec a b)
  | context [if Z.leb ?a ?b then _ else _] => destruct (Z.leb_spec a b)
  | context [if Z.eqb ?a ?b then _ else _] => destruct (Z.eqb_spec a b)
  end.

(** Linear arithmetic over [/] and [mod] by constants. *)
Ltac div_lia := Z.to_euclidean_division_equations; lia.

(** Evaluate the decisions on closed propositions. *)
Ltac eval_decides :=
  repeat match goal with
  | |- context [bool_decide ?P] =>
      let b := eval vm_compute in (bool_decide P) in
      match b with
      | true => change (bool_decide P) with true
      | false => change (bool_decide P) with false
      end
  | H : context [bool_decide ?P] |- _ =>
      let b := eval vm_compute in (bool_decide P) in
      match b with
      | true => change (bool_decide P) with true in H
      | false => change (bool_decide P) with false in H
      end
  end.

(** ** Lemmas on integer-indexed lists *)

Section ZLists.
Context {A : Type}.
Implicit Types l k : list A.

Lemma zlen_nonneg l : 0 <= zlen l.
Proof. unfold zlen. lia. Qed.

Lemma zlen_nil : zlen (@nil A) = 0.
Proof. reflexivity. Qed.

Lemma zlen_cons x l : zlen (x :: l) = zlen l + 1.
Proof. unfold zlen. simpl. lia. Qed.

Lemma zlen_app l k : zlen (l ++ k) = zlen l + zlen k.
Proof. unfold zlen. rewrite length_app. lia. Qed.

Lemma zlen_0_nil l : zlen l = 0 -> l = [].
Proof. unfold zlen. destruct l; simpl; [done | lia]. Qed.

Lemma zlen_pos l : l <> [] -> 0 < zlen l.
Proof. destruct l; [done |]. rewrite zlen_cons. pose proof (zlen_nonneg l). lia. Qed.

Lemma zlen_slice l a b :
  0 <= a -> a <= b -> zlen (slice l a b) = Z.min b (zlen l) - Z.min a (zlen l).
Proof. intros. unfold zlen, slice. rewrite length_take, length_drop. lia. Qed.

Lemma zlen_slice_le l a b : zlen (slice l a b) <= Z.max 0 (b - a).
Proof. unfold zlen, slice. rewrite length_take. lia. Qed.

Lemma zlen_slice_ok l a b : slice_ok l a b -> zlen (slice l a b) = b - a.
Proof. unfold slice_ok. intros [? ?]. rewrite zlen_slice; lia. Qed.

Lemma slice_nil_ge l a b : b <= a -> slice l a b = [].
Proof. intros. unfold slice. by replace (Z.to_nat (b - a)) with 0%nat by lia. Qed.

Lemma slice_past l a b : zlen l <= a -> slice l a b = [].
Proof. unfold zlen, slice. intros. rewrite drop_ge by lia. apply take_nil. Qed.

Lemma slice_full l b : zlen l <= b -> slice l 0 b = l.
Proof. unfold zlen, slice. intros. rewrite drop_0. apply take_ge. lia. Qed.

Lemma slice_to_end l a b : 0 <= a -> zlen l <= b -> slice l a b = drop (Z.to_nat a) l.
Proof. unfold zlen, slice. intros. apply take_ge. rewrite length_drop. lia. Qed.

Lemma slice_clamp l a b : 0 <= a -> slice l a b = slice l a (Z.min b (zlen l)).
Proof.
  intros. destruct (Z.le_gt_cases b (zlen l)); [by rewrite Z.min_l |].
  rewrite Z.min_r by lia. rewrite !slice_to_end by lia. done.
Qed.

(** Adjacent slices concatenate. *)
Lemma slice_cat l a b c :
  0 <= a -> a <= b -> b <= c -> slice l a b ++ slice l b c = slice l a c.
Proof.
  intros. unfold slice.
  replace (drop (Z.to_nat b) l) with (drop (Z.to_nat (b - a)) (drop (Z.to_nat a) l))
    by (rewrite drop_drop; f_equal; lia).
  rewrite take_take_drop. f_equal. lia.
Qed.

(** Slicing a slice. *)
Lemma slice_slice l a b c d :
  0 <= a -> 0 <= c -> a + d <= b -> slice (slice l a b) c d = slice l (a + c) (a + d).
Proof.
  intros. unfold slice.
  destruct (Z.le_gt_cases d c).
  { replace (Z.to_nat (d - c)) with 0%nat by lia.
    by replace (Z.to_nat (a + d - (a + c))) with 0%nat by lia. }
  rewrite skipn_firstn_comm, take_take, drop_drop. f_equal; [lia |]. f_equal. lia.
Qed.

Lemma slice_app_l l k a b : b <= zlen l -> 0 <= a -> slice (l ++ k) a b = slice l a b.
Proof.
  unfold zlen, slice. intros. destruct (Z.le_gt_cases b a).
  { by replace (Z.to_nat (b - a)) with 0%nat by lia. }
  rewrite drop_app_le by lia. apply take_app_le. rewrite length_drop. lia.
Qed.

Lemma slice_app_r l k a b :
  zlen l <= a -> slice (l ++ k) a b = slice k (a - zlen l) (b - zlen l).
Proof.
  unfold zlen, slice. intros. rewrite drop_app_ge by lia. f_equal; [lia |]. f_equal. lia.
Qed.

(** Slicing across a concatenation. *)
Lemma slice_app l k a b :
  0 <= a ->
  slice (l ++ k) a b = slice l a b ++ slice k (Z.max (a - zlen l) 0) (b - zlen l).
Proof.
  intros. unfold slice, zlen. rewrite drop_app, take_app, length_drop. f_equal.
  replace (Z.to_nat (Z.max (a - Z.of_nat (length l)) 0)) with (Z.to_nat a - length l)%nat by lia.
  destruct (Z.le_gt_cases (Z.of_nat (length l)) a) as [Hle|Hgt]; [f_equal; lia |].
  f_equal. lia.
Qed.

(** Clipping distributes over adjacent intervals: this is why reading rows,
    blocks and pieces one after the other yields a contiguous response. *)
Lemma clip_cat l s e a b c :
  0 <= s -> a <= b -> b <= c -> clip l s e a b ++ clip l s e b c = clip l s e a c.
Proof.
  intros. unfold clip.
  destruct (Z.le_gt_cases b s).
  { rewrite (slice_nil_ge l (Z.max a s)) by lia. simpl. f_equal; lia. }
  destruct (Z.le_gt_cases e b).
  { rewrite (slice_nil_ge l (Z.max b s)) by lia. rewrite app_nil_r. f_equal; lia. }
  rewrite (Z.max_l b s), (Z.min_l b e) by lia.
  destruct (Z.le_gt_cases (Z.max a s) b); [| lia]. apply slice_cat; lia.
Qed.

Lemma clip_inside l s e a b : a <= s -> e <= b -> clip l s e a b = slice l s e.
Proof. intros. unfold clip. f_equal; lia. Qed.

Lemma clip_empty l s e a b : b <= a -> clip l s e a b = [].
Proof. intros. unfold clip. apply slice_nil_ge. lia. Qed.

Lemma znth_Some l i : 0 <= i < zlen l -> exists x, znth l i = Some x.
Proof.
  unfold zlen, znth. intros. case_tests; [lia |]. apply lookup_lt_is_Some. lia.
Qed.

Lemma znth_None l i : i < 0 \/ zlen l <= i -> znth l i = None.
Proof. unfold zlen, znth. intros. case_tests; [done |]. apply lookup_ge_None. lia. Qed.

Lemma znth_lookup l i x : znth l i = Some x -> 0 <= i < zlen l.
Proof.
  unfold zlen, znth. case_tests; [done |]. intros ?%lookup_lt_Some. lia.
Qed.

End ZLists.

(** *** Lists in general *)

Lemma filter_same {A} (P Q : A -> Prop) `{!forall x, Decision (P x), !forall x, Decision (Q x)} (l : list A) :
  (forall x, x ∈ l -> P x <-> Q x) -> filter P l = filter Q l.
Proof.
  induction l as [|x l IH]; intros Hpq; [done |]. rewrite !filter_cons, IH by (intros y Hy; apply Hpq; by right).
  pose proof (Hpq x ltac:(left)). do 2 case_decide; tauto.
Qed.

Lemma filter_sublist {A} (P : A -> bool) l : List.filter P l `sublist_of` l.
Proof. induction l as [|x l IH]; cbn; [done |]. destruct (P x); by constructor. Qed.

Lemma fold_left_map {A B C} (f : C -> B -> C) (g : A -> B) l c : fold_left f (g <$> l) c = fold_left (fun c x => f c (g x)) l c.
Proof. revert c. induction l as [|x l IH]; intros c; [done |]. apply IH. Qed.

Lemma fold_left_concat {A B} (f : A -> B -> A) (ls : list (list B)) a : fold_left f (concat ls) a = fold_left (fun a l => fold_left f l a) ls a.
Proof. revert a. induction ls as [|l ls IH]; intros a; cbn; [done |]. by rewrite fold_left_app, IH. Qed.

Lemma fold_left_ext {A B} (f g : A -> B -> A) l a : (forall a x, x ∈ l -> f a x = g a x) -> fold_left f l a = fold_left g l a.
Proof.
  revert a. induction l as [|x l IH]; intros a H; cbn; [done |]. rewrite H by left. apply IH. intros b y Hy. apply H. by right.
Qed.

Lemma elem_of_lfilter {A} (P : A -> bool) x l : x ∈ List.filter P l <-> x ∈ l /\ P x = true.
Proof. rewrite !list_elem_of_In. apply filter_In. Qed.

Lemma find_spec {A} (P : A -> bool) l x : find P l = Some x -> x ∈ l /\ P x = true.
Proof. intros H%find_some. by rewrite list_elem_of_In. Qed.

Lemma existsb_elem {A} (P : A -> bool) l x : x ∈ l -> P x = true -> existsb P l = true.
Proof. intros Hx Hp. apply existsb_exists. exists x. by rewrite <- list_elem_of_In. Qed.

Lemma only_one {A} (l : list A) x : NoDup l -> x ∈ l -> (forall y, y ∈ l -> y = x) -> l = [x].
Proof.
  intros Hnd Hx Hall. destruct l as [|y [|z l]]; [by apply elem_of_nil in Hx | f_equal; apply Hall; left |].
  pose proof (Hall y ltac:(left)). pose proof (Hall z ltac:(right; left)). subst. apply NoDup_cons in Hnd as [Hn _]. by contradiction Hn; left.
Qed.

Lemma take_short {A} (l : list A) n : (length (take (S n) l) <= n)%nat -> take (S n) l = l.
Proof. rewrite length_take. intros. apply take_ge. lia. Qed.

Lemma fold_min_start l m : fold_left Z.min l m <= m.
Proof. revert m. induction l as [|y l IH]; intros m; cbn; [done |]. specialize (IH (Z.min m y)). lia. Qed.

Lemma fold_min_le l m x : x ∈ l -> fold_left Z.min l m <= x.
Proof.
  revert m. induction l as [|y l IH]; intros m; cbn; [by intros ?%elem_of_nil |].
  intros [-> | Hx]%elem_of_cons; [| by apply IH]. pose proof (fold_min_start l (Z.min m y)). lia.
Qed.

Lemma fold_max_elem l m : fold_left Z.max l m = m \/ fold_left Z.max l m ∈ l.
Proof.
  revert m. induction l as [|x l IH]; intros m; cbn; [by left |]. destruct (IH (Z.max m x)) as [-> | Hin]; [| by right; right].
  destruct (Z.max_spec m x) as [[_ ->]|[_ ->]]; [right; left | by left].
Qed.

Lemma fold_min_elem l m : fold_left Z.min l m = m \/ fold_left Z.min l m ∈ l.
Proof.
  revert m. induction l as [|x l IH]; intros m; cbn; [by left |]. destruct (IH (Z.min m x)) as [-> | Hin]; [| by right; right].
  destruct (Z.min_spec m x) as [[_ ->]|[_ ->]]; [by left | right; left].
Qed.

(** *** Filters that keep nothing or everything *)

Section Filters.
Context {A : Type} (P : A -> Prop) `{!forall x, Decision (P x)}.

Lemma filter_none (l : list A) : (forall x, x ∈ l -> ~ P x) -> filter P l = [].
Proof.
  induction l as [|x l IH]; intros Hall; [done |]. rewrite filter_cons_False by (apply Hall; by left).
  apply IH. intros y Hy. apply Hall. by right.
Qed.

Lemma filter_all (l : list A) : (forall x, x ∈ l -> P x) -> filter P l = l.
Proof.
  induction l as [|x l IH]; intros Hall; [done |]. rewrite filter_cons_True by (apply Hall; by left).
  f_equal. apply IH. intros y Hy. apply Hall. by right.
Qed.

End Filters.

#[export] Hint Resolve zlen_nonneg : go.
#[export] Hint Rewrite @zlen_nil @zlen_cons @zlen_app : go.

Ltac len_simpl := autorewrite with go in *.
Ltac len_lia := len_simpl; repeat match goal with
  | |- context [zlen ?l] => lazymatch goal with
      | _ : 0 <= zlen l |- _ => fail | _ => pose proof (zlen_nonneg l) end
  | _ : context [zlen ?l] |- _ => lazymatch goal with
      | _ : 0 <= zlen l |- _ => fail | _ => pose proof (zlen_nonneg l) end
  end; lia.
