(* ===== verification/GoStrings.v ===== *)
(** * Go string operations

    The functions of Go's [strings] and [strconv] packages that pgvs3 uses, on
    byte strings.  [TrimSpace] trims the Unicode white space Go trims, by its
    UTF-8 encodings; [EqualFold] is modelled for comparison with an ASCII
    literal, where Go's simple case folding adds exactly two non-ASCII
    characters (U+017F for [s] and U+212A for [k]). *)

From S2P Require Import Prelude.

(** ** Definitions *)

Definition slen (s : string) : Z := Z.of_nat (String.length s).

(** [code c] is the numeric value of a byte. *)
Definition code (c : ascii) : Z := Z.of_N (N_of_ascii c).
Definition chr (z : Z) : ascii := ascii_of_N (Z.to_N z).

Fixpoint sdrop (n : nat) (s : string) : string :=
  match n, s with
  | O, _ => s
  | S n', String _ s' => sdrop n' s'
  | S _, EmptyString => EmptyString
  end.

Fixpoint stake (n : nat) (s : string) : string :=
  match n, s with
  | S n', String c s' => String c (stake n' s')
  | _, _ => EmptyString
  end.

Definition HasPrefix (s p : string) : bool := String.prefix p s.

Definition CutPrefix (s p : string) : option string :=
  if HasPrefix s p then Some (sdrop (String.length p) s) else None.

Definition TrimPrefix (s p : string) : string :=
  match CutPrefix s p with Some r => r | None => s end.

(** [strings.Cut(s, sep)] for a one-byte separator: [None] when absent. *)
Fixpoint Cut (s : string) (sep : ascii) : option (string * string) :=
  match s with
  | EmptyString => None
  | String c s' =>
      if decide (c = sep) then Some (EmptyString, s')
      else match Cut s' sep with
           | Some (a, b) => Some (String c a, b)
           | None => None
           end
  end.

(** [strings.SplitSeq(s, sep)] for a one-byte separator; never empty. *)
Fixpoint Split (s : string) (sep : ascii) : list string :=
  match s with
  | EmptyString => [EmptyString]
  | String c s' =>
      if decide (c = sep) then EmptyString :: Split s' sep
      else match Split s' sep with
           | t :: ts => String c t :: ts
           | [] => [String c EmptyString]
           end
  end.

Fixpoint all_bytes (f : ascii -> bool) (s : string) : bool :=
  match s with
  | EmptyString => true
  | String c s' => f c && all_bytes f s'
  end.

Definition srev (s : string) : string :=
  String.string_of_list_ascii (rev (String.list_ascii_of_string s)).

Fixpoint trim_left_char (c : ascii) (s : string) : string :=
  match s with
  | String c' s' => if decide (c' = c) then trim_left_char c s' else s
  | EmptyString => EmptyString
  end.

(** [strings.Trim(s, string(c))]. *)
Definition TrimChar (c : ascii) (s : string) : string :=
  srev (trim_left_char c (srev (trim_left_char c s))).

Definition is_space_byte (c : ascii) : bool :=
  let z := code c in
  (z =? 32) || ((9 <=? z) && (z <=? 13)).

Definition bstr (l : list Z) : string := String.string_of_list_ascii (chr <$> l).

(** UTF-8 encodings of the non-ASCII characters of [unicode.IsSpace]. *)
Definition wide_spaces : list string :=
  [bstr [194; 133]; bstr [194; 160]; bstr [225; 154; 128]; bstr [226; 128; 168];
   bstr [226; 128; 169]; bstr [226; 128; 175]; bstr [226; 129; 159]; bstr [227; 128; 128]]
  ++ ((fun z => bstr [226; 128; z]) <$> [128; 129; 130; 131; 132; 133; 134; 135; 136; 137; 138]).

(** Length in bytes of the space character at the front of [s], 0 if none;
    [ws] are the encodings to look for besides the ASCII spaces. *)
Definition space_at (ws : list string) (s : string) : nat :=
  match s with
  | EmptyString => 0
  | String c _ =>
      if is_space_byte c then 1
      else match list_find (fun w => HasPrefix s w = true) ws with
           | Some (_, w) => String.length w
           | None => 0
           end
  end.

Fixpoint trim_left_space (ws : list string) (fuel : nat) (s : string) : string :=
  match fuel with
  | O => s
  | S f => match space_at ws s with
           | O => s
           | n => trim_left_space ws f (sdrop n s)
           end
  end.

(** [strings.TrimSpace]: every round removes at least one byte, so the length
    bounds the number of rounds. *)
Definition TrimSpace (s : string) : string :=
  let l := trim_left_space wide_spaces (String.length s) s in
  srev (trim_left_space (srev <$> wide_spaces) (String.length l) (srev l)).

Definition lower_byte (c : ascii) : ascii :=
  let z := code c in
  if (65 <=? z) && (z <=? 90) then chr (z + 32) else c.

Definition upper_byte (c : ascii) : ascii :=
  let z := code c in
  if (97 <=? z) && (z <=? 122) then chr (z - 32) else c.

Fixpoint smap (f : ascii -> ascii) (s : string) : string :=
  match s with
  | EmptyString => EmptyString
  | String c s' => String (f c) (smap f s')
  end.

Definition ToLower (s : string) : string := smap lower_byte s.
Definition ToUpper (s : string) : string := smap upper_byte s.

(** Case folding towards ASCII: the long s (C5 BF) folds to [s] and the Kelvin
    sign (E2 84 AA) to [k]. *)
Fixpoint fold_ascii (s : string) : string :=
  match s with
  | String a ((String b s2) as s1) =>
      if decide (code a = 197 /\ code b = 191) then String (chr 115) (fold_ascii s2)
      else match s2 with
           | String c s3 =>
               if decide (code a = 226 /\ code b = 132 /\ code c = 170)
               then String (chr 107) (fold_ascii s3)
               else String (lower_byte a) (fold_ascii s1)
           | EmptyString => String (lower_byte a) (fold_ascii s1)
           end
  | String a EmptyString => String (lower_byte a) EmptyString
  | EmptyString => EmptyString
  end.

(** [strings.EqualFold(s, lit)] for an ASCII literal [lit]. *)
Definition EqualFold (s lit : string) : bool := bool_decide (fold_ascii s = ToLower lit).

(** *** Decimal numbers *)

Definition is_digit (c : ascii) : bool := (48 <=? code c) && (code c <=? 57).

Fixpoint parse_digits (acc : Z) (s : string) : option Z :=
  match s with
  | EmptyString => Some acc
  | String c s' =>
      if is_digit c then parse_digits (acc * 10 + (code c - 48)) s' else None
  end.

Definition parse_udec (s : string) : option Z :=
  match s with
  | EmptyString => None
  | _ => parse_digits 0 s
  end.

Definition in_int64 (z : Z) : bool := (min_int64 <=? z) && (z <=? max_int64).

Definition check_int64 (o : option Z) : option Z :=
  match o with
  | Some z => if in_int64 z then Some z else None
  | None => None
  end.

(** [strconv.ParseInt(s, 10, 64)]: an optional sign, at least one digit and
    nothing else; values outside [int64] are errors. *)
Definition ParseInt (s : string) : option Z :=
  check_int64
    match s with
    | String c s' =>
        if decide (c = "-"%char) then Z.opp <$> parse_udec s'
        else if decide (c = "+"%char) then parse_udec s'
        else parse_udec s
    | EmptyString => None
    end.

(** [strconv.Atoi] on a 64-bit platform. *)
Definition Atoi (s : string) : option Z := ParseInt s.

Fixpoint dec_digits (fuel : nat) (n : Z) (acc : string) : string :=
  let acc' := String (chr (48 + n mod 10)) acc in
  match fuel with
  | O => acc'
  | S f => if n <? 10 then acc' else dec_digits f (n / 10) acc'
  end.

(** [strconv.FormatInt(n, 10)]: 20 digits hold every 64-bit magnitude. *)
Definition FormatInt (n : Z) : string :=
  if n <? 0 then String "-" (dec_digits 20 (- n) EmptyString)
  else dec_digits 20 n EmptyString.

(** ** Lemmas *)

Lemma code_chr z : 0 <= z < 256 -> code (chr z) = z.
Proof.
  intros. unfold code, chr. rewrite N_ascii_embedding; lia.
Qed.

Lemma chr_code c : chr (code c) = c.
Proof. unfold code, chr. rewrite N2Z.id. apply ascii_N_embedding. Qed.

Lemma code_range c : 0 <= code c < 256.
Proof. unfold code. pose proof (N_ascii_bounded c). lia. Qed.

Lemma sapp_cons c s t : String c s +:+ t = String c (s +:+ t).
Proof. reflexivity. Qed.

Lemma sapp_nil_l t : "" +:+ t = t.
Proof. reflexivity. Qed.

Lemma sapp_assoc s t u : (s +:+ t) +:+ u = s +:+ (t +:+ u).
Proof. induction s as [|c s IH]; [done |]. rewrite !sapp_cons. by f_equal. Qed.

Lemma sapp_nil_r s : s +:+ "" = s.
Proof. induction s as [|c s IH]; [done |]. rewrite !sapp_cons. by f_equal. Qed.

Lemma sapp_inj_l s t u : s +:+ t = s +:+ u -> t = u.
Proof. induction s as [|c s IH]; [done |]. rewrite !sapp_cons. intros [= H]. auto. Qed.

Lemma slen_app s t : slen (s +:+ t) = slen s + slen t.
Proof.
  unfold slen. rewrite <- Nat2Z.inj_add. f_equal.
  induction s as [|c s IH]; [done |]. rewrite sapp_cons. simpl. by rewrite IH.
Qed.

Lemma HasPrefix_app p s : HasPrefix (p +:+ s) p = true.
Proof.
  unfold HasPrefix. induction p as [|c p IH]; simpl; [by destruct s |].
  destruct (ascii_dec c c); [done | congruence].
Qed.

Lemma HasPrefix_inv p s : HasPrefix s p = true -> exists r, s = p +:+ r.
Proof.
  unfold HasPrefix. revert s. induction p as [|c p IH]; intros s H; [by exists s |].
  destruct s as [|d s]; [done |]. simpl in H.
  destruct (ascii_dec c d) as [->|]; [| done].
  destruct (IH s H) as [r ->]. by exists r.
Qed.

Lemma sdrop_app p s : sdrop (String.length p) (p +:+ s) = s.
Proof. by induction p. Qed.

Lemma CutPrefix_app p s : CutPrefix (p +:+ s) p = Some s.
Proof. unfold CutPrefix. by rewrite HasPrefix_app, sdrop_app. Qed.

Lemma CutPrefix_Some s p r : CutPrefix s p = Some r <-> s = p +:+ r.
Proof.
  split.
  - unfold CutPrefix. destruct (HasPrefix s p) eqn:E; [| done].
    apply HasPrefix_inv in E as [r' ->]. rewrite sdrop_app. by intros [= ->].
  - intros ->. apply CutPrefix_app.
Qed.

Lemma CutPrefix_None s p : CutPrefix s p = None <-> ~ exists r, s = p +:+ r.
Proof.
  destruct (CutPrefix s p) eqn:E.
  - apply CutPrefix_Some in E. naive_solver.
  - split; [| done]. intros _ [r Hr%CutPrefix_Some]. congruence.
Qed.

Lemma parse_digits_snoc acc n s :
  0 <= n < 10 ->
  parse_digits acc (String (chr (48 + n)) s) = parse_digits (acc * 10 + n) s.
Proof.
  intros. simpl. unfold is_digit. rewrite code_chr by lia.
  replace (48 <=? 48 + n) with true by (symmetry; apply Z.leb_le; lia).
  replace (48 + n <=? 57) with true by (symmetry; apply Z.leb_le; lia).
  simpl. f_equal. lia.
Qed.

(** Digits written before [acc] multiply what was parsed so far by a power of
    ten that only depends on how many there are. *)
Lemma dec_digits_parse fuel n acc :
  0 <= n < 10 ^ (Z.of_nat fuel + 1) ->
  forall z, exists k, 0 <= k /\
    parse_digits z (dec_digits fuel n acc) = parse_digits (z * 10 ^ k + n) acc /\ n < 10 ^ k.
Proof.
  revert n acc. induction fuel as [|f IH]; intros n acc Hn z.
  - simpl dec_digits. change (10 ^ (Z.of_nat 0 + 1)) with 10 in Hn.
    exists 1. rewrite parse_digits_snoc by (apply Z.mod_pos_bound; lia).
    rewrite Z.mod_small by lia. split; [lia |]. split; [f_equal; lia | lia].
  - cbn [dec_digits]. destruct (Z.ltb_spec n 10) as [Hs|Hs].
    + exists 1. rewrite parse_digits_snoc by (apply Z.mod_pos_bound; lia).
      rewrite Z.mod_small by lia. split; [lia |]. split; [f_equal; lia | lia].
    + assert (0 <= n / 10 < 10 ^ (Z.of_nat f + 1)) as Hd.
      { split; [apply Z.div_pos; lia |]. apply Z.div_lt_upper_bound; [lia |].
        replace (Z.of_nat (S f) + 1) with (Z.succ (Z.of_nat f + 1)) in Hn by lia.
        rewrite Z.pow_succ_r in Hn by lia. lia. }
      destruct (IH (n / 10) (String (chr (48 + n mod 10)) acc) Hd z) as (k & Hk & Hp & Hlt).
      exists (Z.succ k). rewrite Hp, parse_digits_snoc by (apply Z.mod_pos_bound; lia).
      rewrite Z.pow_succ_r by lia. pose proof (Z.div_mod n 10).
      split; [lia |]. split; [f_equal; lia |].
      pose proof (Z.mod_pos_bound n 10). lia.
Qed.

Lemma dec_digits_cons fuel n acc : exists c s, dec_digits fuel n acc = String c s /\ is_digit c = true.
Proof.
  revert n acc. induction fuel as [|f IH]; intros n acc; cbn [dec_digits].
  - eexists _, _. split; [reflexivity |].
    unfold is_digit. pose proof (Z.mod_pos_bound n 10).
    rewrite code_chr by lia. apply andb_true_iff. split; apply Z.leb_le; lia.
  - case_tests; [| apply IH]. eexists _, _. split; [reflexivity |].
    unfold is_digit. pose proof (Z.mod_pos_bound n 10).
    rewrite code_chr by lia. apply andb_true_iff. split; apply Z.leb_le; lia.
Qed.

Lemma parse_udec_digits n : 0 <= n < 10 ^ 21 -> parse_udec (dec_digits 20 n EmptyString) = Some n.
Proof.
  intros Hn. destruct (dec_digits_cons 20 n EmptyString) as (c & s & E & _).
  destruct (dec_digits_parse 20 n EmptyString Hn 0) as (k & _ & Hp & _).
  rewrite E in *. cbn [parse_udec]. rewrite Hp. simpl. f_equal; lia.
Qed.

(** Printing and parsing a 64-bit integer round trips. *)
Lemma ParseInt_FormatInt n : min_int64 <= n <= max_int64 -> ParseInt (FormatInt n) = Some n.
Proof.
  unfold min_int64, max_int64. intros Hn. unfold ParseInt, FormatInt.
  assert (in_int64 n = true) as Hr
    by (unfold in_int64, min_int64, max_int64; apply andb_true_iff; split; apply Z.leb_le; lia).
  destruct (Z.ltb_spec n 0).
  - destruct (decide _); [| done]. rewrite parse_udec_digits by lia. simpl.
    rewrite Z.opp_involutive, Hr. done.
  - destruct (dec_digits_cons 20 n EmptyString) as (c & s & E & Hc). rewrite E.
    destruct (decide (c = "-"%char)) as [->|]; [done |].
    destruct (decide (c = "+"%char)) as [->|]; [done |].
    rewrite <- E, parse_udec_digits by lia. simpl. by rewrite Hr.
Qed.

(** *** Reversal and trimming *)

Lemma list_ascii_app s t :
  String.list_ascii_of_string (s +:+ t) =
  String.list_ascii_of_string s ++ String.list_ascii_of_string t.
Proof. induction s as [|c s IH]; [done |]. rewrite sapp_cons. simpl. by rewrite IH. Qed.

Lemma srev_snoc s c : srev (s +:+ String c EmptyString) = String c (srev s).
Proof. unfold srev. rewrite list_ascii_app, rev_app_distr. reflexivity. Qed.

Lemma srev_involutive s : srev (srev s) = s.
Proof.
  unfold srev. rewrite String.list_ascii_of_string_of_list_ascii, rev_involutive.
  apply String.string_of_list_ascii_of_string.
Qed.

Lemma trim_left_char_eq c s : trim_left_char c (String c s) = trim_left_char c s.
Proof. simpl. by case_decide. Qed.

Lemma trim_left_char_absent c s :
  c ∉ (String.list_ascii_of_string s) -> trim_left_char c s = s.
Proof.
  destruct s as [|d s]; [done |]. simpl. case_decide; [| done]. subst. set_solver.
Qed.

(** Removing the quotes put around a string that contains none. *)
Lemma TrimChar_quoted c s :
  c ∉ (String.list_ascii_of_string s) ->
  TrimChar c (String c s +:+ String c EmptyString) = s.
Proof.
  intros Hs. unfold TrimChar. rewrite sapp_cons, trim_left_char_eq.
  assert (trim_left_char c (s +:+ String c EmptyString) = EmptyString /\ s = EmptyString \/
          trim_left_char c (s +:+ String c EmptyString) = s +:+ String c EmptyString) as [[-> ->] | ->].
  { destruct s as [|d s]; [left; simpl; by case_decide |]. right. rewrite sapp_cons. simpl.
    case_decide; [subst; set_solver | done]. }
  { reflexivity. }
  rewrite srev_snoc, trim_left_char_eq, trim_left_char_absent; [apply srev_involutive |].
  unfold srev. rewrite String.list_ascii_of_string_of_list_ascii.
  by rewrite list_elem_of_In, <- in_rev, <- list_elem_of_In.
Qed.

Lemma all_bytes_app f s t : all_bytes f (s +:+ t) = all_bytes f s && all_bytes f t.
Proof. induction s as [|c s IH]; [done |]. rewrite sapp_cons. simpl. by rewrite IH, andb_assoc. Qed.

Lemma all_bytes_impl (f h : ascii -> bool) s :
  (forall c, f c = true -> h c = true) -> all_bytes f s = true -> all_bytes h s = true.
Proof.
  intros Himp. induction s as [|c s IH]; [done |]. cbn. rewrite !andb_true_iff. intuition.
Qed.

Lemma all_bytes_list f s :
  all_bytes f s = forallb f (String.list_ascii_of_string s).
Proof. induction s as [|c s IH]; [done |]. cbn. by rewrite IH. Qed.

Lemma all_bytes_srev f s : all_bytes f s = true -> all_bytes f (srev s) = true.
Proof.
  unfold srev. rewrite !all_bytes_list, String.list_ascii_of_string_of_list_ascii, !forallb_forall.
  intros H x Hx%in_rev. auto.
Qed.

(** *** Strings without white space *)

Definition plain_byte (c : ascii) : bool := (code c <? 128) && negb (is_space_byte c).

Lemma space_at_plain ws c s :
  forallb (fun w => match w with String d _ => 128 <=? code d | EmptyString => false end) ws = true ->
  plain_byte c = true -> space_at ws (String c s) = 0%nat.
Proof.
  intros Hws [Hc%Z.ltb_lt Hs%negb_true_iff]%andb_true_iff. unfold space_at. rewrite Hs.
  destruct (list_find _ ws) as [[i w]|] eqn:E; [| done].
  apply list_find_Some in E as (Hw & Hp & _). rewrite forallb_forall in Hws.
  apply list_elem_of_lookup_2, list_elem_of_In, Hws in Hw.
  destruct w as [|d w]; [done |]. apply Z.leb_le in Hw. unfold HasPrefix in Hp. cbn in Hp.
  destruct (ascii_dec d c); [subst; lia | done].
Qed.

Lemma trim_left_space_plain ws fuel s :
  forallb (fun w => match w with String d _ => 128 <=? code d | EmptyString => false end) ws = true ->
  all_bytes plain_byte s = true -> trim_left_space ws fuel s = s.
Proof.
  intros Hws H. destruct fuel as [|fuel]; [done |]. destruct s as [|c s]; [done |].
  apply andb_true_iff in H as [H1 H2]. cbn [trim_left_space]. by rewrite space_at_plain.
Qed.

Lemma TrimSpace_plain s : all_bytes plain_byte s = true -> TrimSpace s = s.
Proof.
  intros H. unfold TrimSpace. rewrite (trim_left_space_plain wide_spaces) by done.
  rewrite trim_left_space_plain by (done || by apply all_bytes_srev). apply srev_involutive.
Qed.

Lemma dec_digits_all fuel n acc :
  all_bytes is_digit acc = true -> all_bytes is_digit (dec_digits fuel n acc) = true.
Proof.
  assert (forall m, is_digit (chr (48 + m mod 10)) = true) as Hd.
  { intros m. unfold is_digit. pose proof (Z.mod_pos_bound m 10). rewrite code_chr by lia.
    apply andb_true_iff. rewrite !Z.leb_le. lia. }
  revert n acc. induction fuel as [|fuel IH]; intros n acc Hacc; cbn [dec_digits].
  - cbn. by rewrite Hd.
  - destruct (n <? 10); [| apply IH]; cbn; by rewrite Hd.
Qed.

Lemma FormatInt_digits n : 0 <= n -> all_bytes is_digit (FormatInt n) = true.
Proof.
  intros. unfold FormatInt. rewrite (proj2 (Z.ltb_ge n 0)) by lia. by apply dec_digits_all.
Qed.

Lemma digit_plain c : is_digit c = true -> plain_byte c = true.
Proof.
  unfold is_digit, plain_byte, is_space_byte. rewrite !andb_true_iff, !Z.leb_le, Z.ltb_lt.
  intros [? ?]. split; [lia |]. apply negb_true_iff, orb_false_iff. rewrite Z.eqb_neq, andb_false_iff, !Z.leb_gt. lia.
Qed.

Lemma TrimSpace_FormatInt n : 0 <= n -> TrimSpace (FormatInt n) = FormatInt n.
Proof.
  intros. apply TrimSpace_plain. eapply all_bytes_impl; [apply digit_plain |]. by apply FormatInt_digits.
Qed.

Lemma FormatInt_nonempty n : FormatInt n <> EmptyString.
Proof.
  unfold FormatInt. destruct (n <? 0); [done |].
  by destruct (dec_digits_cons 20 n EmptyString) as (c & s & -> & _).
Qed.

(** *** Cutting at a separator *)

Lemma Cut_app sep a b :
  all_bytes (fun c => negb (bool_decide (c = sep))) a = true ->
  Cut (a +:+ String sep b) sep = Some (a, b).
Proof.
  induction a as [|c a IH].
  - intros _. simpl. by case_decide.
  - cbn [all_bytes]. intros [H1%negb_true_iff%bool_decide_eq_false H2]%andb_true_iff.
    rewrite sapp_cons. cbn [Cut]. case_decide; [done |]. by rewrite IH.
Qed.

Lemma Cut_Some sep s a b : Cut s sep = Some (a, b) -> s = a +:+ String sep b.
Proof.
  revert a b. induction s as [|c s IH]; intros a b; cbn [Cut]; [done |].
  case_decide; [by intros [= <- <-]; subst |].
  destruct (Cut s sep) as [[a' b']|]; [| done]. intros [= <- <-]. rewrite sapp_cons. f_equal. auto.
Qed.
