(* ===== verification/Ns.v ===== *)
(** * Namespaces: kinds, names, schema identifiers and object references

    Models [internal/ns/ns.go], [internal/reqguard/presign.go], the identifier
    helpers of [internal/store/store.go] and [ObjectRef] of
    [internal/store/object.go].  A namespace kind is a Go string type, so any
    string is a value of it; [Kind_Valid] recognises the four kinds in use. *)

From S2P Require Import Prelude GoStrings.

(** ** Kinds and names *)

Abbreviation Kind := string.

Definition Bucket : Kind := "bucket".
Definition Cache : Kind := "cache".
Definition WriteBack : Kind := "writeback".
Definition Queue : Kind := "queue".

Inductive ns_error :=
| ErrInvalidName
| ErrUnknownKind
| ErrInvalidBucket.

Definition Kind_Valid (k : Kind) : bool :=
  bool_decide (k = Bucket) || bool_decide (k = Cache) ||
  bool_decide (k = WriteBack) || bool_decide (k = Queue).

Definition Kind_Prefix (k : Kind) : string :=
  if decide (k = Cache) then "s3c_"
  else if decide (k = WriteBack) then "s3w_"
  else if decide (k = Queue) then "s3q_"
  else "s3b_".

Definition MaxNameLen : Z := 58.

Definition name_byte (c : ascii) : bool :=
  let z := code c in
  ((97 <=? z) && (z <=? 122)) || ((48 <=? z) && (z <=? 57)) ||
  bool_decide (c = "-"%char) || bool_decide (c = "_"%char) || bool_decide (c = "."%char).

Definition ValidName (name : string) : bool :=
  if (slen name =? 0) || (MaxNameLen <? slen name) then false
  else all_bytes name_byte name.

Definition Kind_Schema (k : Kind) (name : string) : result ns_error string :=
  if negb (Kind_Valid k) then Err ErrUnknownKind
  else if negb (ValidName name) then Err ErrInvalidName
  else Ok (Kind_Prefix k +:+ name).

Definition ParseSchema (schema : string) : option (Kind * string) :=
  let pick p := (4 <? slen schema) && bool_decide (stake 4 schema = p) in
  let found :=
    if pick "s3b_" then Some Bucket
    else if pick "s3c_" then Some Cache
    else if pick "s3w_" then Some WriteBack
    else if pick "s3q_" then Some Queue
    else None in
  match found with
  | None => None
  | Some k =>
      let name := sdrop 4 schema in
      if negb (ValidName name) then None else Some (k, name)
  end.

Definition InlineMax (k : Kind) : Z :=
  if decide (k = Bucket \/ k = WriteBack) then 65536 else 8120.

Definition MaxKeyLen (k : Kind) : Z :=
  if decide (k = Bucket) then 1024 else 2048.

Record Ref := mkRef { ref_kind : Kind; ref_name : string }.

#[global] Instance Ref_eq_dec : EqDecision Ref.
Proof. solve_decision. Defined.

Definition BucketRef (name : string) : Ref := mkRef Bucket name.
Definition CacheRef (name : string) : Ref := mkRef Cache name.
Definition WriteBackRef (name : string) : Ref := mkRef WriteBack name.
Definition QueueRef (name : string) : Ref := mkRef Queue name.

Definition Ref_Schema (r : Ref) : result ns_error string := Kind_Schema (ref_kind r) (ref_name r).

(** Separator bytes: NUL between kind and name, US between schema and key. *)
Definition NUL : string := String (chr 0) EmptyString.
Definition US : string := String (chr 31) EmptyString.
Definition dquote : ascii := chr 34.

Definition Ref_Key (r : Ref) : string := ref_kind r +:+ NUL +:+ ref_name r.

(** ** Identifiers of the store package *)

Definition NewNamespaceRef (k : Kind) (name : string) : result ns_error Ref :=
  if negb (Kind_Valid k) then Err ErrUnknownKind
  else if negb (ValidName name) then Err ErrInvalidBucket
  else Ok (mkRef k name).

(** [strings.ReplaceAll] of one double quote by two. *)
Fixpoint double_quotes (s : string) : string :=
  match s with
  | EmptyString => EmptyString
  | String c s' =>
      if decide (c = dquote) then String dquote (String dquote (double_quotes s'))
      else String c (double_quotes s')
  end.

Definition quoteIdent (ident : string) : string :=
  String dquote (double_quotes ident) +:+ String dquote EmptyString.

Definition nsSQLIdent (k : Kind) (name : string) : result ns_error string :=
  let* sc := Kind_Schema k name in Ok (quoteIdent sc).

Record ObjectRef := mkObjectRef { or_ns : Ref; or_key : string }.

#[global] Instance ObjectRef_eq_dec : EqDecision ObjectRef.
Proof. solve_decision. Defined.

Definition ObjectRef_Validate (r : ObjectRef) : result ns_error unit :=
  let* _ := Ref_Schema (or_ns r) in
  if (slen (or_key r) =? 0) || (MaxKeyLen (ref_kind (or_ns r)) <? slen (or_key r))
  then Err ErrInvalidBucket
  else Ok tt.

Definition NewObjectRef (k : Kind) (namespace key : string) : result ns_error ObjectRef :=
  let ref := mkObjectRef (mkRef k namespace) key in
  let* _ := ObjectRef_Validate ref in Ok ref.

Definition ObjectRef_Schema (r : ObjectRef) : result ns_error string :=
  nsSQLIdent (ref_kind (or_ns r)) (ref_name (or_ns r)).

Definition ObjectRef_String (r : ObjectRef) : string :=
  ref_kind (or_ns r) +:+ ":" +:+ ref_name (or_ns r) +:+ "/" +:+ or_key r.

(** ** Per-object advisory locks

    The text whose hash is the advisory lock key.  [lockObjectKey] hashes the
    schema argument its caller passes; [lock_text] is that text. *)

Definition lock_text (schema key : string) : string := schema +:+ US +:+ key.

(** [DeleteMany], [DeleteExpected], [GetDel] and [cacheMSet] strip the quotes
    of the SQL identifier first, with [strings.Trim]. *)
Definition delete_lock_text (sc key : string) : string := lock_text (TrimChar dquote sc) key.

(** [LockCacheKey] builds the text from the unquoted schema. *)
Definition LockCacheKey_text (k : Kind) (namespace key : string) : result ns_error string :=
  let* schema := Kind_Schema k namespace in Ok (lock_text schema key).

(** [completeUploadRef] passes [ref.Schema()], the quoted identifier, down to
    [swapObjectParts] and [lockObjectKey]; [copyObject] does the same. *)
Definition swap_lock_text (ref : ObjectRef) : result ns_error string :=
  let* sc := ObjectRef_Schema ref in Ok (lock_text sc (or_key ref)).

(** [strings] order of two byte strings: [a > b]. *)
Definition string_gt (a b : string) : bool :=
  match String.compare a b with Gt => true | _ => false end.

(** [lockTwo]: the lock texts taken, in order. *)
Definition lockTwo (b1 k1 b2 k2 : string) : list string :=
  let '(b1, k1, b2, k2) :=
    if string_gt (b1 +:+ NUL +:+ k1) (b2 +:+ NUL +:+ k2) then (b2, k2, b1, k1)
    else (b1, k1, b2, k2) in
  if decide (b1 = b2 /\ k1 = k2) then [lock_text b1 k1]
  else [lock_text b1 k1; lock_text b2 k2].

(** ** Presigned requests *)

Record presign_flags := mkFlags {
  sigv4Algorithm : bool; sigv4Credential : bool; sigv4Signature : bool;
  legacyKey : bool; legacySignature : bool
}.

Definition presign_flag (f : presign_flags) (k : string) : presign_flags :=
  let 'mkFlags a c s lk ls := f in
  if EqualFold k "X-Amz-Algorithm" then mkFlags true c s lk ls
  else if EqualFold k "X-Amz-Credential" then mkFlags a true s lk ls
  else if EqualFold k "X-Amz-Signature" then mkFlags a c true lk ls
  else if EqualFold k "AWSAccessKeyId" then mkFlags a c s true ls
  else if EqualFold k "Signature" then mkFlags a c s lk true
  else f.

(** The order in which Go ranges over the query map is a parameter: any list
    of the keys. *)
Definition Presigned (keys : list string) : bool :=
  let f := fold_left presign_flag keys (mkFlags false false false false false) in
  sigv4Signature f || sigv4Algorithm f || sigv4Credential f ||
  (legacyKey f && legacySignature f).

(** ** Lemmas *)

Lemma name_byte_no_quote : name_byte dquote = false.
Proof. reflexivity. Qed.

Lemma Kind_Valid_cases k :
  Kind_Valid k = true <-> k = Bucket \/ k = Cache \/ k = WriteBack \/ k = Queue.
Proof.
  unfold Kind_Valid. rewrite !orb_true_iff, !bool_decide_eq_true. tauto.
Qed.

Lemma Kind_Schema_Ok k n sc :
  Kind_Schema k n = Ok sc <->
  Kind_Valid k = true /\ ValidName n = true /\ sc = Kind_Prefix k +:+ n.
Proof.
  unfold Kind_Schema. destruct (Kind_Valid k), (ValidName n); naive_solver.
Qed.

Lemma ValidName_inv n :
  ValidName n = true -> 1 <= slen n <= MaxNameLen /\ all_bytes name_byte n = true.
Proof.
  unfold ValidName. destruct (_ || _) eqn:E; [done |]. intros ->.
  apply orb_false_iff in E as [E1%Z.eqb_neq E2%Z.ltb_ge]. unfold slen in *. split; lia || done.
Qed.

Lemma slen_Prefix k : slen (Kind_Prefix k) = 4.
Proof. unfold Kind_Prefix. by repeat case_decide. Qed.

Lemma Prefix_inj k k' :
  Kind_Valid k = true -> Kind_Valid k' = true -> Kind_Prefix k = Kind_Prefix k' -> k = k'.
Proof.
  rewrite !Kind_Valid_cases.
  by intros [->|[->|[->| ->]]] [->|[->|[->| ->]]].
Qed.

Lemma stake_app4 p n : String.length p = 4%nat -> stake 4 (p +:+ n) = p /\ sdrop 4 (p +:+ n) = n.
Proof.
  do 4 (destruct p as [|? p]; [done |]). destruct p; [| done]. intros _. by destruct n.
Qed.

Lemma ParseSchema_prefix k n :
  Kind_Valid k = true -> ValidName n = true ->
  ParseSchema (Kind_Prefix k +:+ n) = Some (k, n).
Proof.
  intros Hk Hn. unfold ParseSchema.
  pose proof (ValidName_inv n Hn) as [Hl _].
  assert ((4 <? slen (Kind_Prefix k +:+ n)) = true) as ->
    by (apply Z.ltb_lt; rewrite slen_app, slen_Prefix; lia).
  assert (String.length (Kind_Prefix k) = 4%nat) as Hp
    by (pose proof (slen_Prefix k); unfold slen in *; lia).
  destruct (stake_app4 (Kind_Prefix k) n Hp) as [-> ->]. rewrite Hn.
  apply Kind_Valid_cases in Hk as [->|[->|[->| ->]]]; reflexivity.
Qed.

Lemma ParseSchema_inv sc k n :
  ParseSchema sc = Some (k, n) ->
  Kind_Valid k = true /\ ValidName n = true /\ sc = Kind_Prefix k +:+ n.
Proof.
  unfold ParseSchema. intros H.
  assert (forall p, stake 4 sc = p -> sc = p +:+ sdrop 4 sc) as Hsplit.
  { intros p <-. clear H. do 4 (destruct sc as [|? sc]; [done |]). done. }
  repeat match type of H with
  | context [if (4 <? slen sc) && bool_decide (stake 4 sc = ?p) then _ else _] =>
      destruct ((4 <? slen sc) && bool_decide (stake 4 sc = p)) eqn:?
  end; try done;
  match goal with
  | E : _ && bool_decide _ = true |- _ =>
      apply andb_true_iff in E as [_ E%bool_decide_eq_true]; apply Hsplit in E
  end; destruct (ValidName (sdrop 4 sc)) eqn:?; simpl in H; try done;
  injection H as <- <-; auto.
Qed.

Lemma double_quotes_id s : all_bytes (fun c => negb (bool_decide (c = dquote))) s = true -> double_quotes s = s.
Proof.
  induction s as [|c s IH]; [done |]. cbn. intros [H1%negb_true_iff%bool_decide_eq_false H2]%andb_true_iff.
  case_decide; [done |]. f_equal. auto.
Qed.

Lemma schema_no_quote k n :
  ValidName n = true ->
  all_bytes (fun c => negb (bool_decide (c = dquote))) (Kind_Prefix k +:+ n) = true.
Proof.
  intros [_ Hb]%ValidName_inv. rewrite all_bytes_app. apply andb_true_iff. split.
  - unfold Kind_Prefix. by repeat case_decide.
  - induction n as [|c n IH]; [done |]. cbn in *. apply andb_true_iff in Hb as [H1 H2].
    apply andb_true_iff. split; [| auto]. apply negb_true_iff, bool_decide_eq_false.
    intros ->. done.
Qed.

Lemma quoteIdent_schema k n :
  ValidName n = true ->
  quoteIdent (Kind_Prefix k +:+ n) =
  String dquote (Kind_Prefix k +:+ n) +:+ String dquote EmptyString.
Proof. intros H. unfold quoteIdent. rewrite double_quotes_id; [done |]. by apply schema_no_quote. Qed.

Lemma schema_no_quote_elem k n :
  ValidName n = true ->
  dquote ∉ String.list_ascii_of_string (Kind_Prefix k +:+ n).
Proof.
  intros H%(schema_no_quote k). induction (Kind_Prefix k +:+ n) as [|c s IH]; [set_solver |].
  cbn in *. apply andb_true_iff in H as [H1%negb_true_iff%bool_decide_eq_false H2].
  rewrite not_elem_of_cons. split; [congruence | auto].
Qed.

(** ** Properties *)

(** [Schema] and [ParseSchema] are inverse to each other: a schema name is
    produced from a kind and a name exactly when it parses back to them.  In
    particular two namespaces never share a schema, and every schema the
    parser accepts belongs to exactly one namespace. *)
Theorem schema_round_trip (k : Kind) (n sc : string) :
  Kind_Schema k n = Ok sc <-> ParseSchema sc = Some (k, n).
Proof.
  rewrite Kind_Schema_Ok. split.
  - intros (Hk & Hn & ->). by apply ParseSchema_prefix.
  - apply ParseSchema_inv.
Qed.

(** The lock text of every writer that strips the quotes of its SQL
    identifier ([DeleteMany], [DeleteExpected], [GetDel], [cacheMSet]) is the
    text of [LockCacheKey] and of the SQL functions, the unquoted schema and
    the key, and the identifier is at most PostgreSQL's 63 bytes long. *)
Theorem trimmed_lock_text (k : Kind) (n key schema : string)
    (H : Kind_Schema k n = Ok schema) :
  exists sc, nsSQLIdent k n = Ok sc /\
    delete_lock_text sc key = lock_text schema key /\
    LockCacheKey_text k n key = Ok (lock_text schema key) /\
    slen schema <= 63.
Proof.
  unfold nsSQLIdent, LockCacheKey_text. rewrite H.
  apply Kind_Schema_Ok in H as (Hk & Hn & ->). simpl. eexists. split; [reflexivity |].
  unfold delete_lock_text. rewrite quoteIdent_schema, TrimChar_quoted by auto using schema_no_quote_elem.
  repeat split. rewrite slen_app, slen_Prefix. pose proof (ValidName_inv n Hn) as [Hl _].
  unfold MaxNameLen in Hl. lia.
Qed.

Lemma trimmed_lock_text_witness :
  exists sc, nsSQLIdent Bucket "lake" = Ok sc /\
    delete_lock_text sc "a/b" = lock_text "s3b_lake" "a/b" /\
    LockCacheKey_text Bucket "lake" "a/b" = Ok (lock_text "s3b_lake" "a/b") /\
    slen "s3b_lake" <= 63.
Proof. apply (trimmed_lock_text Bucket "lake" "a/b" "s3b_lake"). reflexivity. Defined.

(** Completing a multipart upload and copying an object lock a different
    text: they hash the quoted identifier, so for every object their advisory
    lock text differs from the one all other writers of that object take. *)
Theorem swap_lock_text_differs (ref : ObjectRef) (schema t : string)
    (Hs : Ref_Schema (or_ns ref) = Ok schema) (Ht : swap_lock_text ref = Ok t) :
  t <> lock_text schema (or_key ref).
Proof.
  unfold swap_lock_text, ObjectRef_Schema, nsSQLIdent in Ht.
  change (Kind_Schema _ _) with (Ref_Schema (or_ns ref)) in Ht. rewrite Hs in Ht. simpl in Ht.
  injection Ht as <-. unfold Ref_Schema in Hs. apply Kind_Schema_Ok in Hs as (Hk & Hn & ->).
  unfold lock_text, quoteIdent. intros E%(f_equal (stake 1)). revert E.
  unfold Kind_Prefix. by repeat case_decide.
Qed.

Lemma swap_lock_text_differs_witness :
  lock_text (quoteIdent "s3b_lake") "a" <> lock_text "s3b_lake" "a".
Proof.
  apply (swap_lock_text_differs (mkObjectRef (BucketRef "lake") "a")
           "s3b_lake" (lock_text (quoteIdent "s3b_lake") "a")); reflexivity.
Defined.
