(* ===== verification/Ranges.v ===== *)
(** * Object metadata, manifests and byte ranges

    Models the metadata types of [internal/store/object.go] ([ObjectInfo],
    [Meta], [Segment], [ByteRange], [Span], [SliceMeta], [ReadResult]) with
    their methods, and the range and part helpers of [internal/s3/request.go]
    ([parseRange], [partsCount], [partBounds], [parsePartNumber]).  Times are
    integers (nanoseconds); the zero [time.Time] and nil pointers are [None];
    a nil slice is [None] and differs from the empty slice. *)

From S2P Require Import Prelude GoStrings.

(** ** Metadata *)

Record ObjectInfo := mkInfo {
  oi_Size : Z;
  oi_ETag : string;
  oi_OriginETag : string;
  oi_ContentType : string;
  oi_ContentEncoding : string;
  oi_ChecksumName : string;
  oi_ChecksumValue : string;
  oi_ChecksumType : string;
  oi_UserMetadata : list string;
  oi_CreatedAt : Z;
  oi_OriginModified : option Z
}.

Definition LastModified (i : ObjectInfo) : Z :=
  match oi_OriginModified i with
  | Some t => t
  | None => oi_CreatedAt i
  end.

(** [ReadResult] without its body reader. *)
Record ReadResult := mkReadResult {
  rr_Info : ObjectInfo;
  rr_Start : Z;
  rr_End : Z;
  rr_Ranged : bool;
  rr_Hit : bool
}.

Definition ContentLength (r : ReadResult) : Z :=
  if oi_Size (rr_Info r) =? 0 then 0 else rr_End r - rr_Start r + 1.

Record Meta := mkMeta {
  m_Info : ObjectInfo;
  m_SHA256 : bytes;
  m_ExpiresAt : option Z;
  m_FileID : Z;
  m_Parts : option (list Z);
  m_PartEnds : option (list Z);
  m_Inline : option bytes;
  m_table : Z
}.

Definition m_Size (m : Meta) : Z := oi_Size (m_Info m).

Record Segment := mkSegment { sg_FileID : Z; sg_Base : Z; sg_Length : Z }.

Inductive manifest_error := IncompleteManifest | InvalidManifest | InvalidOffsets.

(** The loop of [Segments] over the part ids; [prev] is the previous end. *)
Fixpoint segment_loop (prev : Z) (ids ends : list Z) : result manifest_error (list Segment) :=
  match ids, ends with
  | id :: ids', e :: ends' =>
      if e <? prev then Err InvalidOffsets
      else let* out := segment_loop e ids' ends' in
           Ok (mkSegment id prev (e - prev) :: out)
  | _, _ => Ok []
  end.

Definition Segments (m : Meta) : result manifest_error (list Segment) :=
  match m_Parts m, m_PartEnds m with
  | None, None => Ok [mkSegment (m_FileID m) 0 (m_Size m)]
  | None, Some _ | Some _, None => Err IncompleteManifest
  | Some parts, Some ends =>
      match parts with
      | [] => Err InvalidManifest
      | p0 :: _ =>
          if negb (bool_decide (length parts = length ends)) then Err InvalidManifest
          else if negb (p0 =? m_FileID m) then Err InvalidManifest
          else if negb (bool_decide (last ends = Some (m_Size m))) then Err InvalidManifest
          else segment_loop 0 parts ends
      end
  end.

Definition Live (m : Meta) (now : Z) : bool :=
  match m_ExpiresAt m with
  | None => true
  | Some t => now <? t
  end.

(** ** Byte ranges *)

Record ByteRange := mkByteRange {
  br_First : Z; br_Last : Z; br_Suffix : Z; br_Requested : bool
}.

Definition WholeObjectRange : ByteRange := mkByteRange 0 (-1) (-1) false.
Definition Range (first last suffix : Z) : ByteRange := mkByteRange first last suffix true.

Record Span := mkSpan { sp_Start : Z; sp_End : Z; sp_Ranged : bool }.

Inductive range_error := ErrInvalidRange.

Definition Resolve (r : ByteRange) (size : Z) : result range_error Span :=
  if negb (br_Requested r) then Ok (mkSpan 0 (size - 1) false)
  else if size <=? 0 then Ok (mkSpan 0 (-1) true)
  else if 0 <=? br_Suffix r then
    if br_Suffix r =? 0 then Err ErrInvalidRange
    else Ok (mkSpan (Z.max (size - br_Suffix r) 0) (size - 1) true)
  else
    let start := Z.max (br_First r) 0 in
    if size <=? start then Err ErrInvalidRange
    else if 0 <=? br_Last r then
      if br_Last r <? start then Err ErrInvalidRange
      else Ok (mkSpan start (Z.min (br_Last r) (size - 1)) true)
    else Ok (mkSpan start (size - 1) true).

Record SliceMeta := mkSliceMeta {
  sm_Info : ObjectInfo;
  sm_FileID : Z;
  sm_Parts : option (list Z);
  sm_PartEnds : option (list Z);
  sm_Start : Z;
  sm_End : Z
}.

Definition SliceMeta_Len (m : SliceMeta) : Z :=
  if sm_End m <? sm_Start m then 0 else sm_End m - sm_Start m + 1.

(** ** The Range header and part numbers *)

Inductive range_header_error :=
| UnsupportedRangeUnit | MultipleRanges | MalformedRange | MalformedSuffixRange
| EmptySuffixRange | MalformedRangeStart | MalformedRangeEnd.

Definition contains_byte (s : string) (c : ascii) : bool :=
  negb (all_bytes (fun d => negb (bool_decide (d = c))) s).

Definition parseRange (h : string) : result range_header_error ByteRange :=
  if decide (h = "") then Ok WholeObjectRange
  else if negb (HasPrefix h "bytes=") then Err UnsupportedRangeUnit
  else
    let spec := TrimPrefix h "bytes=" in
    if contains_byte spec "," then Err MultipleRanges
    else match Cut spec "-" with
    | None => Err MalformedRange
    | Some (start, stop) =>
        let start := TrimSpace start in
        let stop := TrimSpace stop in
        if decide (start = "") then
          match ParseInt stop with
          | None => Err MalformedSuffixRange
          | Some n =>
              if n <? 0 then Err MalformedSuffixRange
              else if n =? 0 then Err EmptySuffixRange
              else Ok (Range 0 (-1) n)
          end
        else
          match ParseInt start with
          | None => Err MalformedRangeStart
          | Some first =>
              if first <? 0 then Err MalformedRangeStart
              else if decide (stop = "") then Ok (Range first (-1) (-1))
              else match ParseInt stop with
                   | None => Err MalformedRangeEnd
                   | Some last =>
                       if last <? first then Err MalformedRangeEnd
                       else Ok (Range first last (-1))
                   end
          end
    end.

Definition partsCount (m : Meta) : Z :=
  match m_Parts m with
  | Some parts => zlen parts
  | None => 1
  end.

(** [partBounds] indexes [PartEnds]: the outer [None] is Go's index panic, the
    inner one the [false] result. *)
Definition partBounds (m : Meta) (n : Z) : option (option (Z * Z)) :=
  if (n <? 1) || (partsCount m <? n) then Some None
  else match m_Parts m with
  | None => Some (Some (0, m_Size m - 1))
  | Some _ =>
      let ends := default [] (m_PartEnds m) in
      start ← (if 1 <? n then znth ends (n - 2) else Some 0);
      stop ← znth ends (n - 1);
      Some (Some (start, stop - 1))
  end.

(** [parsePartNumber]: the argument is the value of the [partNumber] query
    parameter when the query has it. *)
Definition parsePartNumber (q : option string) : result unit (Z * bool) :=
  match q with
  | None => Ok (0, false)
  | Some v =>
      match Atoi v with
      | None => Err tt
      | Some n => if (n <? 1) || (10000 <? n) then Err tt else Ok (n, true)
      end
  end.

(** ** Specifications *)

(** [tiles b e segs]: the segments cover [[b, e)] one after the other. *)
Fixpoint tiles (b e : Z) (segs : list Segment) : Prop :=
  match segs with
  | [] => b = e
  | s :: rest => sg_Base s = b /\ 0 <= sg_Length s /\ tiles (b + sg_Length s) e rest
  end.

Definition sg_End (s : Segment) : Z := sg_Base s + sg_Length s.

(** The bytes of an object of the given size that a range request selects. *)
Definition selects (r : ByteRange) (size i : Z) : Prop :=
  0 <= i < size /\
  (br_Requested r = true ->
   if decide (0 <= br_Suffix r) then size - br_Suffix r <= i
   else br_First r <= i /\ (0 <= br_Last r -> i <= br_Last r)).

(** ** Lemmas *)

Lemma segment_loop_tiles prev ids ends segs :
  length ids = length ends -> segment_loop prev ids ends = Ok segs ->
  tiles prev (default prev (last ends)) segs /\ sg_FileID <$> segs = ids /\ sg_End <$> segs = ends.
Proof.
  revert prev ends segs. induction ids as [|id ids IH]; intros prev [|e ends] segs; try done.
  - by intros _ [= <-].
  - intros [= Hl]. cbn [segment_loop]. destruct (Z.ltb_spec e prev); [done |].
    rewrite rbind_Ok. intros (out & Hout & [= <-]). destruct (IH _ _ _ Hl Hout) as (Ht & Hi & He).
    split; [| rewrite !fmap_cons, Hi, He; split; [done |]; f_equal; unfold sg_End; cbn; lia].
    cbn. split; [done |]. split; [lia |]. replace (prev + (e - prev)) with e by lia.
    rewrite last_cons. by destruct (last ends).
Qed.

Lemma segment_loop_of_tiles prev e segs :
  tiles prev e segs -> segment_loop prev (sg_FileID <$> segs) (sg_End <$> segs) = Ok segs.
Proof.
  revert prev. induction segs as [|[id b len] segs IH]; intros prev; [done |].
  intros (Hb & Hlen & Ht). cbn in Hb, Hlen, Ht. subst b. rewrite !fmap_cons. cbn [segment_loop].
  unfold sg_End at 1 2 3. cbn [sg_Base sg_Length sg_FileID].
  destruct (Z.ltb_spec (prev + len) prev); [lia |]. rewrite IH by done. cbn. do 3 f_equal. unfold sg_End. cbn. lia.
Qed.

Lemma tiles_last b e segs : tiles b e segs -> segs <> [] -> last (sg_End <$> segs) = Some e.
Proof.
  revert b. induction segs as [|s [|s' segs] IH]; intros b; [done | |].
  - cbn. intros (<- & _ & <-) _. done.
  - intros (Hb & _ & Ht) _. rewrite fmap_cons, last_cons. rewrite (IH _ Ht); done.
Qed.

Lemma tiles_le b e segs : tiles b e segs -> b <= e.
Proof. revert b. induction segs as [|s segs IH]; intros b; cbn; [lia |]. intros (? & ? & ?%IH). lia. Qed.

Lemma tiles_app b e s1 s2 : tiles b e (s1 ++ s2) <-> exists m, tiles b m s1 /\ tiles m e s2.
Proof.
  revert b. induction s1 as [|s s1 IH]; intros b; cbn.
  - split; [eauto | by intros (m & -> & ?)].
  - rewrite IH. naive_solver.
Qed.

(** What [Segments] returns, in one statement. *)
Lemma Segments_inv m segs :
  0 <= m_Size m -> Segments m = Ok segs ->
  tiles 0 (m_Size m) segs /\ sg_FileID <$> segs = default [m_FileID m] (m_Parts m) /\
  sg_End <$> segs = default [m_Size m] (m_PartEnds m) /\ head (sg_FileID <$> segs) = Some (m_FileID m).
Proof.
  intros Hsz. unfold Segments. destruct (m_Parts m) as [parts|], (m_PartEnds m) as [ends|]; try done.
  - destruct parts as [|p0 parts]; [done |].
    destruct (bool_decide _) eqn:El; [| done]. apply bool_decide_eq_true in El. cbn [negb].
    destruct (Z.eqb_spec p0 (m_FileID m)) as [->|]; [| done]. cbn [negb].
    destruct (bool_decide (last _ = _)) eqn:Ela; [| done]. apply bool_decide_eq_true in Ela. cbn [negb].
    intros (Ht & Hi & He)%segment_loop_tiles; [| done]. rewrite Ela in Ht. cbn in *. rewrite Hi, He. done.
  - intros [= <-]. cbn. repeat split; lia.
Qed.

Lemma Resolve_within r size sp :
  Resolve r size = Ok sp -> 0 <= sp_Start sp /\ (sp_Start sp <= sp_End sp -> sp_End sp < size).
Proof.
  unfold Resolve. destruct (br_Requested r); cbn; case_tests; intros [= <-]; cbn; lia.
Qed.

(** The position of a segment in the tiling. *)
Lemma tiles_base b e segs k s :
  tiles b e segs -> segs !! k = Some s ->
  sg_Base s = match k with O => b | S k' => default b ((sg_End <$> segs) !! k') end /\
  b <= sg_Base s /\ 0 <= sg_Length s /\ sg_End s <= e.
Proof.
  revert b k. induction segs as [|s0 segs IH]; intros b k; [done |].
  intros (Hb & Hlen & Ht) Hk. destruct k as [|k].
  - injection Hk as <-. pose proof (tiles_le _ _ _ Ht). unfold sg_End. repeat split; lia.
  - pose proof (tiles_le _ _ _ Ht). destruct (IH _ _ Ht Hk) as (H1 & H2 & H3 & H4).
    split; [| repeat split; lia]. rewrite H1. destruct k as [|k]; cbn; [unfold sg_End; lia |].
    destruct ((sg_End <$> segs) !! k) eqn:E; [done |]. exfalso.
    apply lookup_ge_None in E. rewrite length_fmap in E. apply lookup_lt_Some in Hk. cbn in Hk. lia.
Qed.

(** Manifest entries by index: the end of segment [i] and, after the first
    segment, its base, which is the previous end. *)
Lemma tiles_znth b e segs i s :
  tiles b e segs -> znth segs i = Some s ->
  znth (sg_End <$> segs) i = Some (sg_Base s + sg_Length s) /\
  (0 < i -> znth (sg_End <$> segs) (i - 1) = Some (sg_Base s)).
Proof.
  intros Ht. unfold znth. destruct (decide (i < 0)); [done |]. intros Hs. rewrite list_lookup_fmap, Hs. split; [done |].
  intros. destruct (tiles_base _ _ _ _ _ Ht Hs) as (Hb & _). case_tests; [lia |].
  replace (Z.to_nat i) with (S (Z.to_nat (i - 1))) in Hb, Hs by lia. apply lookup_lt_Some in Hs.
  destruct (lookup_lt_is_Some_2 (sg_End <$> segs) (Z.to_nat (i - 1))) as [x Hx];
    [rewrite length_fmap; lia |]. rewrite Hx in *. cbn in Hb. by subst.
Qed.

Lemma tiles_base_first b e segs s : tiles b e segs -> znth segs 0 = Some s -> sg_Base s = b.
Proof. destruct segs; cbn; [done |]. by intros (<- & _) [= <-]. Qed.

Lemma parse_header_number n s : 0 <= n <= max_int64 -> s = FormatInt n ->
  TrimSpace s = s /\ s <> "" /\ ParseInt s = Some n.
Proof.
  intros Hn ->. rewrite TrimSpace_FormatInt, ParseInt_FormatInt by (unfold min_int64; lia).
  auto using FormatInt_nonempty.
Qed.

Lemma digits_avoid c n :
  0 <= n -> is_digit c = false -> all_bytes (fun d => negb (bool_decide (d = c))) (FormatInt n) = true.
Proof.
  intros Hn Hc. eapply all_bytes_impl; [| by apply FormatInt_digits].
  intros d Hd. cbn. apply negb_true_iff, bool_decide_eq_false. congruence.
Qed.

Lemma contains_byte_app s t c : contains_byte (s +:+ t) c = contains_byte s c || contains_byte t c.
Proof. unfold contains_byte. rewrite all_bytes_app. apply negb_andb. Qed.

Lemma contains_digits c n : 0 <= n -> is_digit c = false -> contains_byte (FormatInt n) c = false.
Proof. intros. unfold contains_byte. by rewrite digits_avoid. Qed.

(** The header [bytes=] followed by [a], a dash and [b], where each of the two
    is a number or empty, reaches the numeric checks. *)
Lemma parseRange_split a b :
  contains_byte a "," = false -> contains_byte b "," = false ->
  contains_byte a "-" = false ->
  parseRange ("bytes=" +:+ a +:+ String "-" b) =
    let start := TrimSpace a in
    let stop := TrimSpace b in
    if decide (start = "") then
      match ParseInt stop with
      | None => Err MalformedSuffixRange
      | Some n => if n <? 0 then Err MalformedSuffixRange
                  else if n =? 0 then Err EmptySuffixRange else Ok (Range 0 (-1) n)
      end
    else match ParseInt start with
    | None => Err MalformedRangeStart
    | Some first =>
        if first <? 0 then Err MalformedRangeStart
        else if decide (stop = "") then Ok (Range first (-1) (-1))
        else match ParseInt stop with
             | None => Err MalformedRangeEnd
             | Some last => if last <? first then Err MalformedRangeEnd else Ok (Range first last (-1))
             end
    end.
Proof.
  intros Ha Hb Hd. unfold parseRange. rewrite decide_False by done. rewrite HasPrefix_app. unfold TrimPrefix. rewrite CutPrefix_app.
  rewrite contains_byte_app, Ha. change (String "-" b) with ("-" +:+ b) at 1.
  rewrite contains_byte_app, Hb. change (contains_byte "-" ",") with false. cbn [orb negb].
  rewrite Cut_app by (unfold contains_byte in Hd; by apply negb_false_iff in Hd). done.
Qed.

(** ** Properties *)

(** A manifest that [Segments] accepts tiles the object: the segments
    follow each other without gap or overlap from byte 0 to the object size,
    they carry the part file ids in order (the object's file id first), and
    reading the manifest of such a tiling gives the tiling back. *)
Theorem Segments_tile (m : Meta) (segs : list Segment) (Hsize : 0 <= m_Size m)
    (Hne : segs <> []) (Hp : is_Some (m_Parts m)) :
  Segments m = Ok segs <->
  tiles 0 (m_Size m) segs /\ m_Parts m = Some (sg_FileID <$> segs) /\
  m_PartEnds m = Some (sg_End <$> segs) /\ head (sg_FileID <$> segs) = Some (m_FileID m).
Proof.
  split.
  - intros H. destruct (Segments_inv m segs Hsize H) as (Ht & Hi & He & Hh).
    destruct Hp as [ps Hp]. rewrite Hp in *. unfold Segments in H. rewrite Hp in H.
    destruct (m_PartEnds m); [| done]. cbn in *. by rewrite Hi, He in *.
  - intros (Ht & Hp' & He & Hh). unfold Segments. rewrite Hp', He.
    assert (exists p0 ps, sg_FileID <$> segs = p0 :: ps) as (p0 & ps & Hps)
      by (destruct segs; [done | eauto]).
    rewrite Hps in Hh |- *. injection Hh as ->. rewrite <- Hps, !length_fmap, bool_decide_true by done.
    rewrite Z.eqb_refl, bool_decide_true by (by eapply tiles_last). cbn [negb].
    by apply segment_loop_of_tiles with (e := m_Size m).
Qed.

(** [Resolve] selects exactly the requested bytes.  A returned span
    contains byte [i] if and only if the request selects byte [i] of the
    object, and the error is returned only when nothing is selected. *)
Theorem Resolve_selects (r : ByteRange) (size : Z) :
  match Resolve r size with
  | Ok sp => forall i, sp_Start sp <= i <= sp_End sp <-> selects r size i
  | Err _ => 0 < size /\ br_Requested r = true /\ forall i, ~ selects r size i
  end.
Proof.
  unfold Resolve, selects. destruct (br_Requested r); cbn; case_tests; cbn;
    repeat match goal with |- _ /\ _ => split; [done || lia |] end; intros i; intuition lia.
Qed.

(** The three forms of the Range header reach the selection they ask for:
    [bytes=a-b], [bytes=a-] and [bytes=-n] parse to the range whose resolution
    on an object of [size] bytes is the requested span, cut at the end. *)
Theorem range_header_span (a b n size : Z)
    (Ha : 0 <= a <= b) (Hb : b <= max_int64) (Hn : 0 < n <= max_int64) (Hs : a < size) :
  (let* r := parseRange ("bytes=" +:+ FormatInt a +:+ "-" +:+ FormatInt b) in Ok (Resolve r size)) =
    Ok (Ok (mkSpan a (Z.min b (size - 1)) true)) /\
  (let* r := parseRange ("bytes=" +:+ FormatInt a +:+ "-") in Ok (Resolve r size)) =
    Ok (Ok (mkSpan a (size - 1) true)) /\
  (let* r := parseRange ("bytes=-" +:+ FormatInt n) in Ok (Resolve r size)) =
    Ok (Ok (mkSpan (Z.max (size - n) 0) (size - 1) true)).
Proof.
  destruct (parse_header_number a (FormatInt a)) as (Ta & Na & Pa); [lia | done |].
  destruct (parse_header_number b (FormatInt b)) as (Tb & Nb & Pb); [lia | done |].
  destruct (parse_header_number n (FormatInt n)) as (Tn & Nn & Pn); [lia | done |].
  change ("bytes=-" +:+ FormatInt n) with ("bytes=" +:+ "" +:+ String "-" (FormatInt n)).
  change ("-" +:+ FormatInt b) with (String "-" (FormatInt b)).
  rewrite !parseRange_split by (done || (apply contains_digits; [lia | done])). cbn zeta.
  change (TrimSpace "") with "". rewrite Ta, Tb, Tn, Pa, Pb, Pn. cbn [decide].
  repeat split; case_tests; try done; try lia; cbn; unfold Resolve; cbn; case_tests; try lia;
    do 3 f_equal; lia.
Qed.

Lemma range_header_span_witness :
  (let* r := parseRange "bytes=5-9" in Ok (Resolve r 8)) = Ok (Ok (mkSpan 5 7 true)).
Proof. apply (range_header_span 5 9 1 8); unfold max_int64; lia. Defined.

(** Part numbers address the segments: on a readable manifest
    [partBounds] never indexes out of range, and part [n] is the [n]-th
    segment, from its first to its last byte, when there is one. *)
Theorem partBounds_segment (m : Meta) (segs : list Segment) (n : Z)
    (Hsize : 0 <= m_Size m) (Hseg : Segments m = Ok segs) :
  partBounds m n =
    Some (s ← znth segs (n - 1); Some (sg_Base s, sg_Base s + sg_Length s - 1)).
Proof.
  destruct (Segments_inv m segs Hsize Hseg) as (Ht & Hi & He & _).
  assert (partsCount m = zlen segs) as Hc.
  { unfold partsCount, zlen. rewrite <- (length_fmap sg_FileID segs), Hi.
    by destruct (m_Parts m). }
  unfold partBounds. rewrite Hc.
  destruct ((n <? 1) || (zlen segs <? n)) eqn:Eb.
  { rewrite znth_None; [done |]. apply orb_true_iff in Eb as [?%Z.ltb_lt|?%Z.ltb_lt]; lia. }
  apply orb_false_iff in Eb as [?%Z.ltb_ge ?%Z.ltb_ge].
  destruct (znth_Some segs (n - 1)) as [s Hs]; [lia |]. rewrite Hs. cbn.
  destruct (tiles_znth _ _ _ _ _ Ht Hs) as [Hstop Hstart]. rewrite He in *.
  destruct (m_Parts m) as [ps|] eqn:Ep; unfold Segments in Hseg; rewrite Ep in Hseg.
  - destruct (m_PartEnds m) as [ends|]; [| by destruct ps]. cbn in *. rewrite Hstop.
    replace (n - 2) with (n - 1 - 1) by lia.
    case_tests; [rewrite Hstart by lia | destruct (Z.eq_dec n 1) as [->|]; [| lia]]; cbn; do 3 f_equal.
    by rewrite (tiles_base_first _ _ _ _ Ht Hs).
  - destruct (m_PartEnds m); [done |]. injection Hseg as <-. cbn in *.
    unfold zlen in *. cbn in *. assert (n = 1) as -> by lia. by injection Hs as <-.
Qed.

Definition sample_info (size : Z) : ObjectInfo := mkInfo size "" "" "" "" "" "" "" [] 0 None.

Definition sample_manifest : Meta :=
  mkMeta (sample_info 30) [] None 7 (Some [7; 9]) (Some [10; 30]) None 0.

Lemma Segments_tile_witness :
  Segments sample_manifest = Ok [mkSegment 7 0 10; mkSegment 9 10 20].
Proof. apply Segments_tile; [by vm_compute | done | by eexists | by vm_compute]. Defined.

Lemma partBounds_segment_witness : partBounds sample_manifest 2 = Some (Some (10, 29)).
Proof.
  apply (partBounds_segment sample_manifest [mkSegment 7 0 10; mkSegment 9 10 20] 2);
    [by vm_compute | reflexivity].
Defined.
