(* ===== verification/Utf8.v ===== *)
(** * Runes and prefix ranges

    Go's conversions between strings and runes ([[]rune(s)], [string(r)]), the
    bytewise order of PostgreSQL's C collation, and [prefixEnd] of
    [internal/s3/request.go], the upper bound of the key range of a prefix. *)

From S2P Require Import Prelude GoStrings.

(** ** Definitions *)

Fixpoint slt (a b : string) : bool :=
  match a, b with
  | _, EmptyString => false
  | EmptyString, String _ _ => true
  | String x a', String y b' => (code x <? code y) || ((code x =? code y) && slt a' b')
  end.

Definition MaxRune : Z := 1114111.
Definition RuneError : Z := 65533.

Definition surrogate (r : Z) : bool := (55296 <=? r) && (r <=? 57343).

(** [utf8.AppendRune]: surrogates and values out of range become U+FFFD. *)
Definition encode_rune (r : Z) : list Z :=
  if (0 <=? r) && (r <=? 127) then [r]
  else if (0 <=? r) && (r <=? 2047) then [192 + r / 64; 128 + r mod 64]
  else if (r <? 0) || (MaxRune <? r) || surrogate r then [239; 191; 189]
  else if r <=? 65535 then [224 + r / 4096; 128 + r / 64 mod 64; 128 + r mod 64]
  else [240 + r / 262144; 128 + r / 4096 mod 64; 128 + r / 64 mod 64; 128 + r mod 64].

Definition cont (b : Z) : bool := (128 <=? b) && (b <=? 191).

(** The range of the second byte for a first byte of a three- or four-byte
    sequence. *)
Definition second_ok (b0 b1 : Z) : bool :=
  if b0 =? 224 then (160 <=? b1) && (b1 <=? 191)
  else if b0 =? 237 then (128 <=? b1) && (b1 <=? 159)
  else if b0 =? 240 then (144 <=? b1) && (b1 <=? 191)
  else if b0 =? 244 then (128 <=? b1) && (b1 <=? 143)
  else cont b1.

(** [utf8.DecodeRune] on a non-empty input: the rune and the rest; an invalid
    sequence gives [RuneError] and skips one byte. *)
Definition decode_rune (b0 : Z) (l : list Z) : Z * list Z :=
  if b0 <=? 127 then (b0, l)
  else if (194 <=? b0) && (b0 <=? 223) then
    match l with
    | b1 :: l1 => if cont b1 then ((b0 - 192) * 64 + (b1 - 128), l1) else (RuneError, l)
    | _ => (RuneError, l)
    end
  else if (224 <=? b0) && (b0 <=? 239) then
    match l with
    | b1 :: b2 :: l2 =>
        if second_ok b0 b1 && cont b2 then ((b0 - 224) * 4096 + (b1 - 128) * 64 + (b2 - 128), l2) else (RuneError, l)
    | _ => (RuneError, l)
    end
  else if (240 <=? b0) && (b0 <=? 244) then
    match l with
    | b1 :: b2 :: b3 :: l3 =>
        if second_ok b0 b1 && cont b2 && cont b3
        then ((b0 - 240) * 262144 + (b1 - 128) * 4096 + (b2 - 128) * 64 + (b3 - 128), l3) else (RuneError, l)
    | _ => (RuneError, l)
    end
  else (RuneError, l).

(** Every rune takes at least one byte, so the length bounds the rounds. *)
Fixpoint decode_runes (fuel : nat) (l : list Z) : list Z :=
  match fuel, l with
  | S fuel', b0 :: l' => let '(r, rest) := decode_rune b0 l' in r :: decode_runes fuel' rest
  | _, _ => []
  end.

Definition codes (s : string) : list Z := code <$> String.list_ascii_of_string s.

(** [[]rune(s)] and [string(rs)]. *)
Definition runes (s : string) : list Z := decode_runes (String.length s) (codes s).
Definition encode_runes (rs : list Z) : list Z := concat (encode_rune <$> rs).
Definition text (rs : list Z) : string := bstr (encode_runes rs).

(** The loop of [prefixEnd], on the runes from the last to the first. *)
Fixpoint bump (rev_rs : list Z) : option (list Z) :=
  match rev_rs with
  | [] => None
  | r :: rest => if r <? MaxRune then Some (rev (r + 1 :: rest)) else bump rest
  end.

Definition prefixEnd (prefix : string) : string :=
  match bump (rev (runes prefix)) with
  | Some rs => text rs
  | None => text [MaxRune]
  end.

(** ** Lemmas *)

(** A Unicode scalar value, what PostgreSQL's UTF-8 text is made of. *)
Definition scalar (r : Z) : Prop := 0 <= r <= MaxRune /\ surrogate r = false.

Lemma scalar_cases r :
  scalar r ->
  (0 <= r <= 127 /\ encode_rune r = [r]) \/
  (128 <= r <= 2047 /\ encode_rune r = [192 + r / 64; 128 + r mod 64]) \/
  (2048 <= r <= 65535 /\ ~ (55296 <= r <= 57343) /\ encode_rune r = [224 + r / 4096; 128 + r / 64 mod 64; 128 + r mod 64]) \/
  (65536 <= r <= 1114111 /\ encode_rune r = [240 + r / 262144; 128 + r / 4096 mod 64; 128 + r / 64 mod 64; 128 + r mod 64]).
Proof.
  unfold scalar, surrogate, MaxRune. intros [Hr Hs]. unfold encode_rune, surrogate, MaxRune.
  repeat match goal with |- context [if ?b then _ else _] => destruct b eqn:? end; try (exfalso; lia).
  - left. split; [lia | done].
  - right; left. split; [lia | done].
  - right; right; left. split; [lia |]. split; [lia | done].
  - right; right; right. split; [lia | done].
Qed.

(** The encodings of two runes first differ in the order of the runes. *)
Lemma encode_diff a b :
  scalar a -> scalar b -> a < b ->
  exists c x y u v, encode_rune a = c ++ x :: u /\ encode_rune b = c ++ y :: v /\ x < y.
Proof.
  intros Ha Hb Hlt.
  destruct (scalar_cases a Ha) as [(Ra & ->)|[(Ra & ->)|[(Ra & Sa & ->)|(Ra & ->)]]];
    destruct (scalar_cases b Hb) as [(Rb & ->)|[(Rb & ->)|[(Rb & Sb & ->)|(Rb & ->)]]];
    try (exfalso; lia); try (eexists [], _, _, _, _; cbn; split; [reflexivity |]; split; [reflexivity |]; div_lia).
  - destruct (decide (a / 64 = b / 64)) as [E1|E1].
    + rewrite E1. eexists [_], _, _, _, _. cbn. split; [reflexivity |]. split; [reflexivity |]. div_lia.
    + eexists [], _, _, _, _. cbn. split; [reflexivity |]. split; [reflexivity |]. div_lia.
  - destruct (decide (a / 4096 = b / 4096)) as [E1|E1]; [rewrite E1; destruct (decide (a / 64 mod 64 = b / 64 mod 64)) as [E2|E2] |].
    + rewrite E2. eexists [_; _], _, _, _, _. cbn. split; [reflexivity |]. split; [reflexivity |]. div_lia.
    + eexists [_], _, _, _, _. cbn. split; [reflexivity |]. split; [reflexivity |]. div_lia.
    + eexists [], _, _, _, _. cbn. split; [reflexivity |]. split; [reflexivity |]. div_lia.
  - destruct (decide (a / 262144 = b / 262144)) as [E0|E0]; [rewrite E0;
      destruct (decide (a / 4096 mod 64 = b / 4096 mod 64)) as [E1|E1]; [rewrite E1;
        destruct (decide (a / 64 mod 64 = b / 64 mod 64)) as [E2|E2] |] |].
    + rewrite E2. eexists [_; _; _], _, _, _, _. cbn. split; [reflexivity |]. split; [reflexivity |]. div_lia.
    + eexists [_; _], _, _, _, _. cbn. split; [reflexivity |]. split; [reflexivity |]. div_lia.
    + eexists [_], _, _, _, _. cbn. split; [reflexivity |]. split; [reflexivity |]. div_lia.
    + eexists [], _, _, _, _. cbn. split; [reflexivity |]. split; [reflexivity |]. div_lia.
Qed.

(** Lexicographic order of number lists. *)
Fixpoint llt (a b : list Z) : bool :=
  match a, b with
  | _, [] => false
  | [], _ :: _ => true
  | x :: a', y :: b' => (x <? y) || ((x =? y) && llt a' b')
  end.

Lemma slt_codes s t : slt s t = llt (codes s) (codes t).
Proof. revert t. induction s as [|c s IH]; intros [|d t]; cbn; [done.. |]. by rewrite IH. Qed.

Lemma llt_app c a b : llt (c ++ a) (c ++ b) = llt a b.
Proof. induction c as [|x c IH]; cbn; [done |]. rewrite Z.ltb_irrefl, Z.eqb_refl. exact IH. Qed.

Lemma llt_diff c x y u v : x <> y -> llt (c ++ x :: u) (c ++ y :: v) = (x <? y).
Proof. intros H. rewrite llt_app. cbn. rewrite (proj2 (Z.eqb_neq x y) H). by rewrite orb_false_r. Qed.

Lemma encode_order_lt a b x y :
  scalar a -> scalar b -> a < b ->
  llt (encode_rune a ++ x) (encode_rune b ++ y) = true /\ llt (encode_rune b ++ y) (encode_rune a ++ x) = false.
Proof.
  intros Ha Hb Hlt. destruct (encode_diff a b Ha Hb Hlt) as (c & p & q & u & v & -> & -> & Hpq).
  rewrite <- !app_assoc. cbn [app]. rewrite !llt_diff by lia. lia.
Qed.

(** UTF-8 keeps the order of the runes. *)
Lemma encode_order rs ts :
  Forall scalar rs -> Forall scalar ts -> llt (encode_runes rs) (encode_runes ts) = llt rs ts.
Proof.
  intros Hr. revert ts. induction Hr as [|a rs Ha Hrs IH]; intros ts Ht; inversion_clear Ht as [|b ts' Hb Hts]; [done | | |].
  - cbn. destruct (scalar_cases b Hb) as [(_ & ->)|[(_ & ->)|[(_ & _ & ->)|(_ & ->)]]]; done.
  - cbn. by destruct (encode_rune a ++ _).
  - unfold encode_runes in *. cbn. destruct (Z.lt_total a b) as [H|[->|H]].
    + destruct (encode_order_lt a b (concat (encode_rune <$> rs)) (concat (encode_rune <$> ts')) Ha Hb H) as [-> _].
      symmetry. apply orb_true_iff. lia.
    + rewrite llt_app, IH by done. rewrite Z.ltb_irrefl, Z.eqb_refl. done.
    + destruct (encode_order_lt b a (concat (encode_rune <$> ts')) (concat (encode_rune <$> rs)) Hb Ha H) as [_ ->].
      symmetry. apply orb_false_iff. split; [lia |]. apply andb_false_iff. left. lia.
Qed.

Lemma encode_bytes r : scalar r -> Forall (fun z => 0 <= z < 256) (encode_rune r).
Proof.
  intros Hr. destruct (scalar_cases r Hr) as [(R & ->)|[(R & ->)|[(R & _ & ->)|(R & ->)]]];
    repeat constructor; div_lia.
Qed.

Lemma codes_bstr l : Forall (fun z => 0 <= z < 256) l -> codes (bstr l) = l.
Proof.
  intros Hl. unfold codes, bstr. rewrite String.list_ascii_of_string_of_list_ascii, <- list_fmap_compose.
  induction Hl as [|z l Hz Hl IH]; [done |]. cbn. rewrite IH, code_chr by done. done.
Qed.

Lemma codes_text rs : Forall scalar rs -> codes (text rs) = encode_runes rs.
Proof.
  intros Hr. apply codes_bstr. unfold encode_runes. induction Hr as [|r rs Hr Hrs IH]; [constructor |].
  cbn. apply Forall_app. split; [by apply encode_bytes | done].
Qed.

Lemma slt_text rs ts : Forall scalar rs -> Forall scalar ts -> slt (text rs) (text ts) = llt rs ts.
Proof. intros Hr Ht. rewrite slt_codes, !codes_text by done. by apply encode_order. Qed.

Lemma second_ok_encode r :
  (2048 <= r <= 65535 -> ~ (55296 <= r <= 57343) -> second_ok (224 + r / 4096) (128 + r / 64 mod 64) = true) /\
  (65536 <= r <= 1114111 -> second_ok (240 + r / 262144) (128 + r / 4096 mod 64) = true).
Proof.
  split; intros; unfold second_ok, cont; repeat match goal with |- context [if ?b then _ else _] => destruct b eqn:? end; div_lia.
Qed.

Lemma decode_encode r l :
  scalar r -> exists b0 l', encode_rune r ++ l = b0 :: l' /\ decode_rune b0 l' = (r, l).
Proof.
  intros Hr. destruct (second_ok_encode r) as [H3 H4].
  destruct (scalar_cases r Hr) as [(R & ->)|[(R & ->)|[(R & Hsur & ->)|(R & ->)]]];
    eexists _, _; (split; [reflexivity |]); unfold decode_rune, cont; cbn [app]; rewrite ?H3, ?H4 by done; clear H3 H4; cbn [andb].
  all: repeat match goal with |- context [if ?b then _ else _] =>
    first [replace b with true by (symmetry; div_lia) | replace b with false by (symmetry; div_lia)] end.
  all: f_equal; div_lia.
Qed.

Lemma decode_runes_encode fuel rs :
  Forall scalar rs -> (length (encode_runes rs) <= fuel)%nat -> decode_runes fuel (encode_runes rs) = rs.
Proof.
  intros Hr. revert fuel. induction Hr as [|r rs Hr Hrs IH]; intros fuel Hf; [by destruct fuel |].
  unfold encode_runes in *. cbn [fmap list_fmap concat] in *.
  destruct (decode_encode r (concat (encode_rune <$> rs)) Hr) as (b0 & l' & E & Hd).
  assert (0 < length (encode_rune r))%nat by (destruct (scalar_cases r Hr) as [(_ & ->)|[(_ & ->)|[(_ & _ & ->)|(_ & ->)]]]; cbn; lia).
  rewrite length_app in Hf. rewrite E. destruct fuel as [|fuel]; [lia |]. cbn. rewrite Hd, IH by lia. done.
Qed.

(** Converting a text to runes and back is the identity. *)
Lemma runes_text rs : Forall scalar rs -> runes (text rs) = rs.
Proof.
  intros Hr. unfold runes. rewrite codes_text by done. apply decode_runes_encode; [done |].
  rewrite <- (codes_text rs Hr). unfold codes. rewrite length_fmap.
  clear. induction (text rs) as [|c s IH]; cbn; lia.
Qed.

Lemma text_app rs ts : text (rs ++ ts) = text rs +:+ text ts.
Proof.
  unfold text, encode_runes, bstr. rewrite fmap_app, concat_app, fmap_app.
  generalize (chr <$> concat (encode_rune <$> ts)). generalize (chr <$> concat (encode_rune <$> rs)).
  intros l k. induction l as [|c l IH]; [done |]. cbn. by rewrite IH.
Qed.

(** A text has the prefix of another exactly when its runes do. *)
Lemma HasPrefix_text rs ts :
  Forall scalar rs -> Forall scalar ts -> HasPrefix (text ts) (text rs) = true <-> rs `prefix_of` ts.
Proof.
  intros Hr Ht. split; [| intros [k ->]; rewrite text_app; apply HasPrefix_app].
  intros (r & E)%HasPrefix_inv. revert ts Ht r E. induction Hr as [|a rs Ha Hrs IH]; intros ts Ht r E; [by exists ts |].
  assert (encode_runes ts = encode_runes (a :: rs) ++ codes r) as E'.
  { rewrite <- !codes_text by (done || by constructor). rewrite E. unfold codes. rewrite list_ascii_app. by rewrite fmap_app. }
  destruct Ht as [|b ts Hb Hts].
  { unfold encode_runes in E'. cbn in E'. by destruct (scalar_cases a Ha) as [(_ & Ea)|[(_ & Ea)|[(_ & _ & Ea)|(_ & Ea)]]]; rewrite Ea in E'. }
  assert (a = b) as ->.
  { unfold encode_runes in E'. cbn in E'. rewrite <- app_assoc in E'.
    destruct (decode_encode a (concat (encode_rune <$> rs) ++ codes r) Ha) as (x & l1 & E1 & D1).
    destruct (decode_encode b (concat (encode_rune <$> ts)) Hb) as (y & l2 & E2 & D2). congruence. }
  apply prefix_cons. apply (IH ts Hts r). change (b :: ts) with ([b] ++ ts) in E. change (b :: rs) with ([b] ++ rs) in E.
  rewrite !text_app, sapp_assoc in E. by apply sapp_inj_l in E.
Qed.

(** *** The range of a prefix *)

Lemma llt_last r ks : negb (llt ks [r]) && llt ks [r + 1] = true <-> [r] `prefix_of` ks.
Proof.
  split.
  - destruct ks as [|k ks]; cbn; [done |]. intros H. assert (k = r) as -> by (destruct ks; cbn in H; lia).
    by exists ks.
  - intros [k ->]. cbn. destruct k; cbn; lia.
Qed.

Lemma llt_top n ks :
  Forall (fun k => k <= MaxRune) ks -> negb (llt ks (replicate n MaxRune)) = true <-> replicate n MaxRune `prefix_of` ks.
Proof.
  revert ks. induction n as [|n IH]; intros ks Hk; cbn [replicate].
  { split; [intros _; apply prefix_nil | intros _; by destruct ks]. }
  destruct Hk as [|k ks Hk Hks]; cbn; [split; [done | intros [? [=]]] |].
  rewrite negb_orb, negb_andb, andb_true_iff, orb_true_iff, IH by done. split.
  - intros [H1 [H2|H2]]; [lia |]. assert (k = MaxRune) as -> by lia. by apply prefix_cons.
  - intros [l [= -> ->]]. split; [lia |]. right. by exists l.
Qed.

Lemma llt_range q r n ks :
  Forall (fun k => k <= MaxRune) ks ->
  negb (llt ks (q ++ r :: replicate n MaxRune)) && llt ks (q ++ [r + 1]) = true <->
  (q ++ r :: replicate n MaxRune) `prefix_of` ks.
Proof.
  revert ks. induction q as [|a q IH]; intros ks Hk; cbn [app].
  - destruct Hk as [|k ks Hk Hks]; cbn; [split; [done | intros [? [=]]] |].
    pose proof (llt_top n ks Hks) as Ht. split.
    + rewrite andb_true_iff, !orb_true_iff, negb_true_iff, orb_false_iff, andb_false_iff. intros [[H1 H2] H3].
      assert (k = r) as -> by (destruct ks; cbn in *; lia). apply prefix_cons. apply Ht. apply negb_true_iff. by destruct H2; [lia |].
    + intros [l [= -> E]]. rewrite Z.ltb_irrefl, Z.eqb_refl. cbn. rewrite (proj2 Ht) by (by exists l). cbn. lia.
  - destruct Hk as [|k ks Hk Hks]; cbn; [split; [done | intros [? [=]]] |]. specialize (IH ks Hks). split.
    + intros H. destruct (Z.lt_total k a) as [Hlt|[->|Hlt]]; [lia | | lia].
      rewrite Z.ltb_irrefl, Z.eqb_refl in H. cbn in H. by apply prefix_cons, IH.
    + intros [l [= -> E]]. rewrite Z.ltb_irrefl, Z.eqb_refl. cbn. apply IH. by exists l.
Qed.

Lemma bump_split l e : bump l = Some e -> Forall (fun k => k <= MaxRune) l ->
  exists n r q, l = replicate n MaxRune ++ r :: q /\ e = rev q ++ [r + 1].
Proof.
  intros E Hl. induction Hl as [|k l Hk Hl IH]; cbn in E; [done |]. destruct (k <? MaxRune) eqn:Ek.
  - injection E as <-. by exists O, k, l.
  - destruct (IH E) as (n & r & q & -> & ->). exists (S n), r, q. split; [| done]. cbn. f_equal. lia.
Qed.

Lemma rev_replicate {A} n (x : A) : rev (replicate n x) = replicate n x.
Proof. rewrite rev_alt. exact (reverse_replicate n x). Qed.

Lemma scalar_le rs : Forall scalar rs -> Forall (fun k => k <= MaxRune) rs.
Proof. intros H. induction H as [|r rs [Hr _] _ IH]; constructor; [lia | done]. Qed.

(** When the range is exact: the incremented rune is a scalar value; for the
    empty prefix, the key does not start with the last code point. *)
Definition range_exact (rs ks : list Z) : Prop :=
  match bump (rev rs) with
  | Some e => Forall scalar e
  | None => rs = [] /\ head ks <> Some MaxRune
  end.

Lemma prefix_range rs ks :
  Forall scalar rs -> Forall scalar ks -> range_exact rs ks ->
  negb (slt (text ks) (text rs)) && slt (text ks) (prefixEnd (text rs)) = HasPrefix (text ks) (text rs).
Proof.
  intros Hr Hk Hx. unfold prefixEnd, range_exact in *. rewrite runes_text by done. rewrite slt_text by done.
  destruct (bump (rev rs)) as [e|] eqn:Eb.
  - rewrite slt_text by done. apply eq_true_iff_eq. rewrite HasPrefix_text by done.
    destruct (bump_split _ _ Eb) as (n & r & q & Er & ->); [apply Forall_rev; by apply scalar_le |].
    apply (f_equal (@rev Z)) in Er. rewrite rev_involutive, rev_app_distr in Er. cbn in Er. rewrite rev_replicate, <- app_assoc in Er.
    rewrite Er. apply llt_range. by apply scalar_le.
  - destruct Hx as [-> Hh]. rewrite slt_text by (done || (constructor; [by unfold scalar | constructor])).
    assert (HasPrefix (text ks) (text []) = true) as -> by apply (HasPrefix_app "").
    destruct ks as [|k ks]; [done |]. cbn [llt negb andb]. inversion_clear Hk as [|?? Hk0 _]. unfold scalar in Hk0.
    assert (k <> MaxRune) by (intros ->; done). lia.
Qed.

(** ** Properties *)

(** The key range of a prefix is exact.  For text keys, a key lies in the
    range from the prefix to [prefixEnd] in byte order exactly when it has the
    prefix, provided the rune that [prefixEnd] increments is not U+D7FF, whose
    successor is no character (for the empty prefix: the key does not start
    with U+10FFFF). *)
Theorem prefixEnd_range (rs ks : list Z) (Hr : Forall scalar rs) (Hk : Forall scalar ks) (Hx : range_exact rs ks) :
  negb (slt (text ks) (text rs)) && slt (text ks) (prefixEnd (text rs)) = HasPrefix (text ks) (text rs).
Proof. by apply prefix_range. Qed.

Lemma prefixEnd_range_witness :
  negb (slt (text [97; 233; 47; 120]) (text [97; 233])) && slt (text [97; 233; 47; 120]) (prefixEnd (text [97; 233])) =
  HasPrefix (text [97; 233; 47; 120]) (text [97; 233]).
Proof.
  assert (forall r, 0 <= r <= 55295 -> scalar r) as Hs by (unfold scalar, surrogate, MaxRune; lia).
  apply (prefixEnd_range [97; 233] [97; 233; 47; 120]); [| | change (Forall scalar [97; 234])];
    repeat (apply Forall_cons; split; [apply Hs; lia |]); apply Forall_nil; done.
Defined.

(** The excluded rune: the bound of a prefix that ends with U+D7FF is U+FFFD,
    so a key that starts with U+E000 is in the range without having the prefix. *)
Lemma prefixEnd_surrogate :
  let p := text [55295] in
  let k := text [57344] in
  slt k p = false /\ slt k (prefixEnd p) = true /\ HasPrefix k p = false.
Proof. by vm_compute. Qed.
