(* ===== verification/Backoff.v ===== *)
(** * Retry delays

    [Backoff.Delay] of [internal/work/work.go], in IEEE double precision: the
    floating-point operations are those of the Standard Library's
    specification of binary64, and [math.Pow] is Go's for the integral exponents
    used here. *)

From Stdlib Require Import SpecFloat.
From S2P Require Import Prelude.

Abbreviation float64 := spec_float.

Definition prec : Z := 53.
Definition emax : Z := 1024.

(** [float64(n)] *)
Definition of_int (n : Z) : float64 := binary_normalize prec emax n 0 false.

Definition fmul (x y : float64) : float64 := SFmul prec emax x y.

Definition is_nan (x : float64) : bool := match x with S754_nan => true | _ => false end.

Definition fone : float64 := of_int 1.
Definition fhalf : float64 := SFldexp prec emax fone (-1).

(** The squaring loop of [math.Pow] on a mantissa and an exponent. *)
Fixpoint pow_loop (fuel : nat) (i : Z) (a1 : float64) (ae : Z) (x1 : float64) (xe : Z) : float64 * Z :=
  match fuel with
  | O => (a1, ae)
  | S f =>
      if i =? 0 then (a1, ae)
      else if (xe <? - 4096) || (4096 <? xe) then (a1, ae + xe)
      else
        let '(a1, ae) := if Z.odd i then (fmul a1 x1, ae + xe) else (a1, ae) in
        let x1 := fmul x1 x1 in
        let xe := 2 * xe in
        let '(x1, xe) := if SFltb x1 fhalf then (SFadd prec emax x1 x1, xe - 1) else (x1, xe) in
        pow_loop f (Z.shiftr i 1) a1 ae x1 xe
  end.

(** [math.Pow(x, float64(n))] for an integer [n] between 0 and 2^53. *)
Definition Pow (x : float64) (n : Z) : float64 :=
  if n =? 0 then fone
  else if SFeqb x fone then fone
  else if n =? 1 then x
  else match x with
       | S754_nan => S754_nan
       | S754_zero s => S754_zero (s && Z.odd n)
       | S754_infinity s => S754_infinity (s && Z.odd n)
       | _ =>
           let '(x1, xe) := SFfrexp prec emax x in
           let '(a1, ae) := pow_loop 64 n fone 0 x1 xe in
           SFldexp prec emax a1 ae
       end.

(** [time.Duration(math.Round(x))]: half away from zero; what does not fit 64
    bits becomes the smallest value, as on amd64. *)
Definition round_to_int (x : float64) : Z :=
  match x with
  | S754_zero _ => 0
  | S754_nan | S754_infinity _ => min_int64
  | S754_finite s m e =>
      let n := if 0 <=? e then Z.pos m * 2 ^ e else (2 * Z.pos m + 2 ^ (- e)) / (2 * 2 ^ (- e)) in
      let n := if s then - n else n in
      if (min_int64 <=? n) && (n <=? max_int64) then n else min_int64
  end.

(** [time.Duration]s are nanoseconds. *)
Record Backoff := mkBackoff { bo_Initial : Z; bo_Factor : float64; bo_Max : Z }.

Definition Delay (b : Backoff) (attempt : Z) : Z :=
  if bo_Initial b <=? 0 then 0
  else
    let attempt := if attempt <? 1 then 1 else attempt in
    let factor := if SFleb (bo_Factor b) (S754_zero false) then of_int 2 else bo_Factor b in
    let delay := fmul (of_int (bo_Initial b)) (Pow factor (attempt - 1)) in
    let delay := if (0 <? bo_Max b) && SFltb (of_int (bo_Max b)) delay then of_int (bo_Max b) else delay in
    if SFltb (of_int max_int64) delay then max_int64 else round_to_int delay.

(** ** Examples: the default policy doubles from a second to a minute *)

Definition millisecond : Z := 1000000.

Definition default_backoff : Backoff := mkBackoff (1000 * millisecond) (of_int 2) (60000 * millisecond).

Example default_delays :
  (fun n => Delay default_backoff n / millisecond) <$> [0; 1; 2; 3; 4; 5; 6; 7; 8; 60; 5000; 2147483647] =
  [1000; 1000; 2000; 4000; 8000; 16000; 32000; 60000; 60000; 60000; 60000; 60000].
Proof. vm_compute. reflexivity. Qed.
