(* ===== verification/Glob.v ===== *)
(** * Patterns of keys

    Go's [path.Match], which [KEYS] and [SCAN] of [internal/resp/resp.go] use,
    on the bytes of a pattern and a name, with [literalPrefix] and
    [prefixUpper], the range of keys a scan reads for a pattern.  A key that
    matches has the literal prefix of the pattern. *)

From S2P Require Import Prelude GoStrings Utf8.

(** ** [path.Match] *)

Definition star : Z := 42.
Definition question : Z := 63.
Definition lbracket : Z := 91.
Definition backslash : Z := 92.
Definition rbracket : Z := 93.
Definition caret : Z := 94.
Definition hyphen : Z := 45.
Definition slash : Z := 47.

Fixpoint strip_stars (pattern : list Z) : bool * list Z :=
  match pattern with
  | c :: rest => if c =? star then (true, (strip_stars rest).2) else (false, pattern)
  | [] => (false, [])
  end.

Fixpoint scan_chunk (inrange : bool) (pattern : list Z) : list Z * list Z :=
  match pattern with
  | [] => ([], [])
  | c :: rest =>
      if c =? backslash then
        match rest with
        | [] => ([c], [])
        | d :: rest => let '(chunk, tail) := scan_chunk inrange rest in (c :: d :: chunk, tail)
        end
      else if (c =? star) && negb inrange then ([], pattern)
      else
        let inrange := if c =? lbracket then true else if c =? rbracket then false else inrange in
        let '(chunk, tail) := scan_chunk inrange rest in (c :: chunk, tail)
  end.

(** Whether the chunk comes after stars, the chunk, and the rest. *)
Definition scanChunk (pattern : list Z) : bool * list Z * list Z :=
  let '(st, pattern) := strip_stars pattern in
  let '(chunk, rest) := scan_chunk false pattern in
  (st, chunk, rest).

(** A possibly escaped character of a class; [None] is [ErrBadPattern]. *)
Definition getEsc (chunk : list Z) : option (Z * list Z) :=
  match chunk with
  | [] => None
  | c :: l =>
      if (c =? hyphen) || (c =? rbracket) then None
      else match (if c =? backslash then l else chunk) with
           | [] => None
           | b :: l =>
               let '(r, rest) := decode_rune b l in
               if (r =? RuneError) && (zlen rest =? zlen l) then None
               else match rest with [] => None | _ => Some (r, rest) end
           end
  end.

(** The ranges of a class, against rune [r]; each takes at least a byte, and
    nothing left is an error. *)
Fixpoint class_ranges (fuel : nat) (r : Z) (chunk : list Z) (some matched : bool) : option (bool * list Z) :=
  match fuel with
  | O => None
  | S fuel =>
      match chunk with
      | c :: rest =>
          if (c =? rbracket) && some then Some (matched, rest)
          else
            match getEsc chunk with
            | Some (lo, chunk) =>
                match chunk with
                | d :: rest =>
                    if d =? hyphen then
                      match getEsc rest with
                      | Some (hi, chunk) => class_ranges fuel r chunk true (matched || ((lo <=? r) && (r <=? hi)))
                      | None => None
                      end
                    else class_ranges fuel r chunk true (matched || ((lo <=? r) && (r <=? lo)))
                | [] => None
                end
            | None => None
            end
      | [] => None
      end
  end.

Definition next_rune (s : list Z) : Z * list Z := match s with [] => (RuneError, []) | b :: l => decode_rune b l end.

(** [None] is [ErrBadPattern]; [Some None] is no match.  [s] is [None] once the
    match has failed.  Every step takes at least a byte of the chunk. *)
Fixpoint match_chunk (fuel : nat) (chunk : list Z) (s : option (list Z)) : option (option (list Z)) :=
  match chunk with
  | [] => Some s
  | c :: rest =>
      match fuel with
      | O => None
      | S fuel =>
          let s := match s with Some [] => None | _ => s end in
          if c =? lbracket then
            let '(r, after) := from_option next_rune (0, []) s in
            let '(negated, rest) := match rest with d :: rest' => if d =? caret then (true, rest') else (false, rest) | [] => (false, []) end in
            match class_ranges (length rest) r rest false false with
            | Some (matched, rest) => match_chunk fuel rest (if eqb matched negated then None else (fun _ => after) <$> s)
            | None => None
            end
          else if c =? question then
            match_chunk fuel rest (match s with
              | Some (b :: l) => if b =? slash then None else Some (decode_rune b l).2
              | _ => None
              end)
          else
            let lit := if c =? backslash then match rest with d :: rest => Some (d, rest) | [] => None end else Some (c, rest) in
            match lit with
            | Some (d, rest) =>
                match_chunk fuel rest (match s with
                  | Some (b :: l) => if b =? d then Some l else None
                  | _ => None
                  end)
            | None => None
            end
      end
  end.

Definition matchChunk (chunk s : list Z) : option (option (list Z)) := match_chunk (length chunk) chunk (Some s).

(** A match of a chunk further on, past no slash; for the last chunk it must
    take the whole name. *)
Fixpoint skip_match (chunk : list Z) (final : bool) (name : list Z) : option (option (list Z)) :=
  match name with
  | [] => Some None
  | c :: rest =>
      if c =? slash then Some None
      else match matchChunk chunk rest with
           | Some (Some t) => if final && negb (zlen t =? 0) then skip_match chunk final rest else Some (Some t)
           | Some None => skip_match chunk final rest
           | None => None
           end
  end.

(** Whether the rest of a pattern is well formed. *)
Fixpoint check_rest (fuel : nat) (pattern : list Z) : bool :=
  match pattern with
  | [] => true
  | _ =>
      match fuel with
      | O => false
      | S fuel =>
          let '(_, chunk, rest) := scanChunk pattern in
          match matchChunk chunk [] with Some _ => check_rest fuel rest | None => false end
      end
  end.

(** Every round takes at least a byte of the pattern. *)
Fixpoint match_loop (fuel : nat) (pattern name : list Z) : option bool :=
  match pattern with
  | [] => Some (bool_decide (name = []))
  | _ =>
      match fuel with
      | O => None
      | S fuel =>
          let '(st, chunk, rest) := scanChunk pattern in
          if st && bool_decide (chunk = []) then Some (forallb (fun c => negb (c =? slash)) name)
          else
            let final := bool_decide (rest = []) in
            let failed := if check_rest (length rest) rest then Some false else None in
            let later := if st then skip_match chunk final name else Some None in
            let found := match matchChunk chunk name with
              | Some (Some t) => if bool_decide (t = []) || negb final then Some (Some t) else later
              | Some None => later
              | None => None
              end in
            match found with
            | Some (Some t) => match_loop fuel rest t
            | Some None => failed
            | None => None
            end
      end
  end.

(** [path.Match]; [None] is [ErrBadPattern]. *)
Definition Match (pattern name : string) : option bool := match_loop (String.length pattern) (codes pattern) (codes name).

(** ** The range of a pattern *)

Definition special (c : ascii) : bool := bool_decide (c ∈ ["*"; "?"; "["; "\"]%char).

Fixpoint literalPrefix (pat : string) : string :=
  match pat with
  | EmptyString => EmptyString
  | String c rest => if special c then EmptyString else String c (literalPrefix rest)
  end.

Definition prefixUpper (prefix : string) : string := prefix +:+ text [MaxRune].

Definition row_matches (pattern key : string) : bool := bool_decide (pattern = "*") || bool_decide (Match pattern key = Some true).

Example match_examples :
  (fun p => Match p.1 p.2) <$>
    [("a*c", "abc"); ("a*", "a/b"); ("a*/b", "ax/b"); ("[a-c]?", "bx"); ("[^a-c]?", "bx"); ("\*", "*"); ("a[", "a"); ("a*b*c", "aXbYbZc"); ("*/*", "x/y"); ("[]a]", "]")] =
    [Some true; Some false; Some true; Some true; Some false; Some true; None; Some true; Some true; None].
Proof. vm_compute. reflexivity. Qed.

(** ** Literal prefixes *)

Definition plain (c : Z) : Prop := c <> star /\ c <> question /\ c <> lbracket /\ c <> backslash.

Lemma match_chunk_failed fuel chunk t : match_chunk fuel chunk None <> Some (Some t).
Proof.
  revert chunk. induction fuel as [|fuel IH]; intros [|c rest]; try done. cbn [match_chunk].
  destruct (c =? lbracket); [| destruct (c =? question); [by apply IH |]].
  - cbn [from_option]. destruct (match rest with [] => _ | _ :: _ => _ end) as [neg rest']. destruct (class_ranges _ _ _ _ _) as [[b r]|]; [| done].
    cbn. destruct (eqb b neg); by apply IH.
  - destruct (if c =? backslash then _ else _) as [[d r]|]; [by apply IH | done].
Qed.

Lemma match_literal fuel p c s t : Forall plain p -> match_chunk fuel (p ++ c) (Some s) = Some (Some t) -> p `prefix_of` s.
Proof.
  intros Hp. revert fuel s. induction Hp as [|x p (_ & Hq & Hl & Hb) Hp IH]; intros fuel s; [intros _; apply prefix_nil |].
  destruct fuel as [|fuel]; [done |]. cbn [app match_chunk].
  rewrite (proj2 (Z.eqb_neq _ _) Hl), (proj2 (Z.eqb_neq _ _) Hq), (proj2 (Z.eqb_neq _ _) Hb).
  destruct s as [|b s]; [intros H; by apply match_chunk_failed in H |]. destruct (Z.eqb_spec b x) as [->|]; [| intros H; by apply match_chunk_failed in H].
  intros H. apply prefix_cons. by eapply IH.
Qed.

Lemma scan_literal p rest : Forall plain p -> exists chunk tail, scan_chunk false (p ++ rest) = (p ++ chunk, tail).
Proof.
  induction 1 as [|x p (Hs & _ & Hl & Hb) Hp (chunk & tail & IH)]; cbn [app]; [by destruct (scan_chunk false rest); eauto |].
  cbn [scan_chunk]. rewrite (proj2 (Z.eqb_neq _ _) Hs), (proj2 (Z.eqb_neq _ _) Hl), (proj2 (Z.eqb_neq _ _) Hb). cbn [andb].
  assert ((if x =? rbracket then false else false) = false) as -> by (by destruct (x =? rbracket)). rewrite IH. eauto.
Qed.

Lemma loop_literal fuel p rest name : Forall plain p -> match_loop fuel (p ++ rest) name = Some true -> p `prefix_of` name.
Proof.
  intros Hp. destruct Hp as [|x p Hx Hp]; [intros _; apply prefix_nil |]. destruct fuel as [|fuel]; [done |]. cbn [app match_loop].
  assert (scanChunk (x :: p ++ rest) = (false, (scan_chunk false ((x :: p) ++ rest)).1, (scan_chunk false ((x :: p) ++ rest)).2)) as ->.
  { unfold scanChunk. cbn [strip_stars]. rewrite (proj2 (Z.eqb_neq _ _) (proj1 Hx)). by destruct (scan_chunk _ _). }
  destruct (scan_literal (x :: p) rest) as (chunk & tail & ->); [by constructor |]. cbn [fst snd andb].
  destruct (matchChunk ((x :: p) ++ chunk) name) as [[t|]|] eqn:E; [intros _ | by destruct (check_rest _ _) | done].
  by eapply match_literal; [constructor |].
Qed.

Lemma codes_cons c s : codes (String c s) = code c :: codes s.
Proof. done. Qed.

Lemma literal_split pat : exists rest, codes pat = codes (literalPrefix pat) ++ rest /\ Forall plain (codes (literalPrefix pat)).
Proof.
  induction pat as [|c pat (rest & E & Hp)]; [by exists [] |]. cbn [literalPrefix]. destruct (special c) eqn:Hc; [by eexists; split; [| constructor] |].
  exists rest. rewrite !codes_cons, E. split; [done |]. constructor; [| done]. unfold special in Hc. apply bool_decide_eq_false in Hc.
  assert (forall d, d ∈ ["*"; "?"; "["; "\"]%char -> code c <> code d) as Hne.
  { intros d Hd Hcd. apply Hc. replace c with d; [done |]. rewrite <- (chr_code c), Hcd. symmetry. apply chr_code. }
  repeat split; [apply (Hne "*"%char) | apply (Hne "?"%char) | apply (Hne "["%char) | apply (Hne "\"%char)]; set_solver.
Qed.

Lemma codes_prefix p s : codes p `prefix_of` codes s -> HasPrefix s p = true.
Proof.
  revert s. induction p as [|c p IH]; intros s; [by destruct s |]. rewrite codes_cons. destruct s as [|d s]; [by intros [k E] |]. rewrite codes_cons.
  intros H. pose proof (prefix_cons_inv_1 _ _ _ _ H) as Hcd. apply prefix_cons_inv_2 in H. unfold HasPrefix. cbn.
  assert (c = d) as -> by (rewrite <- (chr_code c), Hcd; apply chr_code). destruct (ascii_dec d d); [by apply IH | done].
Qed.

(** A key that matches has the literal prefix of the pattern. *)
Lemma matches_prefix pat key : row_matches pat key = true -> HasPrefix key (literalPrefix pat) = true.
Proof.
  unfold row_matches. intros [->%bool_decide_eq_true|H%bool_decide_eq_true]%orb_true_iff; [by destruct key |].
  apply codes_prefix. unfold Match in H. destruct (literal_split pat) as (rest & E & Hp). rewrite E in H. by eapply loop_literal.
Qed.

(** ** The range loses no text key *)

(** A text without the last code point. *)
Definition ordinary (s : string) : Prop := exists ks, Forall scalar ks /\ Forall (fun k => k < MaxRune) ks /\ s = text ks.

Lemma encode_tail k l x r : scalar k -> encode_rune k = l ++ x :: r -> l <> [] -> 128 <= x <= 191.
Proof.
  intros Hk E Hl. destruct l as [|y l]; [done |].
  assert (x ∈ tail (encode_rune k)) as Hx by (rewrite E; cbn; apply elem_of_app; right; left).
  destruct (scalar_cases k Hk) as [(R & Ek)|[(R & Ek)|[(R & _ & Ek)|(R & Ek)]]]; rewrite Ek in Hx; cbn in Hx; rewrite ?elem_of_cons, elem_of_nil in Hx;
    intuition subst; div_lia.
Qed.

Lemma below_top ks l r : Forall scalar ks -> Forall (fun k => k < MaxRune) ks -> encode_runes ks = l ++ r -> llt r (encode_runes [MaxRune]) = true.
Proof.
  intros Hs. revert l. induction Hs as [|k ks Hk Hs IH]; intros l Hm E; [symmetry in E; apply app_eq_nil in E as [_ ->]; done |].
  inversion_clear Hm as [|? ? Hkm Hm']. destruct (decide (l = [])) as [->|Hl].
  { rewrite app_nil_l in E. rewrite <- E, encode_order; [cbn; lia | by constructor |]. constructor; [| done]. unfold scalar, surrogate, MaxRune. lia. }
  unfold encode_runes in E. cbn [fmap list_fmap concat] in E. fold (encode_runes ks) in E.
  apply app_eq_inv in E as [(k' & El & Er)|(k' & El & Er)]; [| by eapply IH].
  destruct k' as [|x k']; [cbn in Er; subst r; by eapply (IH []) |]. pose proof (encode_tail _ _ _ _ Hk El Hl). subst r. cbn.
  change (240 + MaxRune / 262144) with 244. lia.
Qed.

Lemma codes_append s t : codes (s +:+ t) = codes s ++ codes t.
Proof. induction s as [|c s IH]; [done |]. rewrite sapp_cons. by rewrite !codes_cons, IH. Qed.

Lemma prefix_not_below p key : HasPrefix key p = true -> slt key p = false.
Proof. intros [r ->]%HasPrefix_inv. rewrite slt_codes, codes_append. induction (codes p); cbn; [by destruct (codes r) | by rewrite Z.ltb_irrefl, Z.eqb_refl]. Qed.

Lemma ordinary_below p key : ordinary key -> HasPrefix key p = true -> slt key (prefixUpper p) = true.
Proof.
  intros (ks & Hs & Hm & E) [r Er]%HasPrefix_inv. unfold prefixUpper. rewrite slt_codes, Er, !codes_append, llt_app.
  assert (Forall scalar [MaxRune]) as Htop by (constructor; [unfold scalar, surrogate, MaxRune; lia | done]). rewrite codes_text by done.
  apply (below_top ks (codes p)); [done | done |]. by rewrite <- codes_text, <- E, Er, codes_append by done.
Qed.
