(* ===== verification/Listing.v ===== *)
(** * Listing objects page by page

    Models [Store.List] of [internal/store/object.go] and the listing handlers
    of [internal/s3/object.go]: [parseListRequest], [iterListed],
    [virtualPrefix], [foldList], [listView], the version listing and the
    listing of multipart uploads, with [awsEncode] of [internal/s3/request.go].
    Keys are compared bytewise, as PostgreSQL's C collation does.  A table is
    the list of its rows in key order. *)

From S2P Require Import Prelude GoStrings Utf8 Ranges.

(** ** Definitions *)

(** [strings.Index(s, sub)]. *)
Fixpoint Index (s sub : string) : option nat :=
  if HasPrefix s sub then Some O
  else match s with
       | EmptyString => None
       | String _ s' => S <$> Index s' sub
       end.

(** *** The store *)

Record Listed := mkListed { ls_Key : string; ls_Info : ObjectInfo }.

(** A row of [objects]: its listing columns and [expires_at]. *)
Record object_row := mkRow { ro_listed : Listed; ro_expires : option Z }.

Definition ro_key (r : object_row) : string := ls_Key (ro_listed r).

Definition visible (now : Z) (r : object_row) : bool :=
  match ro_expires r with None => true | Some t => now <? t end &&
  negb (HasPrefix (oi_OriginETag (ls_Info (ro_listed r))) "deleted:").

Definition in_range (prefix prefixEnd after : string) (r : object_row) : bool :=
  negb (slt (ro_key r) prefix) && slt (ro_key r) prefixEnd && slt after (ro_key r).

(** [Store.List]. *)
Definition Store_List (now : Z) (table : list object_row) (prefix prefixEnd after : string) (limit : Z) : list Listed :=
  ro_listed <$> take (Z.to_nat limit)
    (List.filter (fun r => in_range prefix prefixEnd after r && visible now r) table).

(** *** Requests *)

Definition listPageSize : Z := 1024.

Record listRequest := mkListRequest {
  lq_prefix : string;
  lq_delimiter : string;
  lq_maxKeys : Z;
  lq_startAfter : string;
  lq_continuationToken : string;
  lq_after : string;
  lq_encodeURL : bool
}.

Record listEntry := mkListEntry { le_key : string; le_lastModified : Z; le_etag : string; le_size : Z }.

Record listPage := mkListPage {
  lp_contents : list listEntry;
  lp_commonPrefixes : list string;
  lp_truncated : bool;
  lp_nextToken : string
}.

Inductive list_error := BadMaxKeys | BadEncoding | SourceFailed.

(** [max-keys]: at most 1000, and 1000 when absent. *)
Definition page_limit (v : string) : result list_error Z :=
  if bool_decide (v = "") then Ok 1000
  else match Atoi v with
       | Some n => if n <? 0 then Err BadMaxKeys else Ok (Z.min n 1000)
       | None => Err BadMaxKeys
       end.

(** [parseListRequest]; [q] is [url.Values.Get]. *)
Definition parseListRequest (q : string -> string) : result list_error listRequest :=
  let* maxKeys := page_limit (q "max-keys") in
  let enc := q "encoding-type" in
  if bool_decide (enc <> "" /\ enc <> "url") then Err BadEncoding
  else
    let token := q "continuation-token" in
    Ok (mkListRequest (q "prefix") (q "delimiter") maxKeys (q "start-after") token
          (if bool_decide (token = "") then q "start-after" else token) (bool_decide (enc = "url"))).

Definition listSource := string -> Z -> result list_error (list Listed).

(** [iterListed]: the sequence it yields; each further page is asked for after
    the last key seen. *)
Fixpoint iterListed (fuel : nat) (source : listSource) (after : string) : option (list (result list_error Listed)) :=
  match fuel with
  | O => None
  | S fuel' =>
      match source after listPageSize with
      | Err e => Some [Err e]
      | Ok rows =>
          match last rows with
          | None => Some []
          | Some row =>
              if zlen rows <? listPageSize then Some (Ok <$> rows)
              else rest ← iterListed fuel' source (ls_Key row); Some ((Ok <$> rows) ++ rest)
          end
      end
  end.

Definition virtualPrefix (key prefix delimiter : string) : option string :=
  if bool_decide (delimiter = "") then None
  else
    let rest := TrimPrefix key prefix in
    match Index rest delimiter with
    | None => None
    | Some idx => Some (prefix +:+ stake (idx + String.length delimiter) rest)
    end.

Definition entry_of (row : Listed) : listEntry :=
  mkListEntry (ls_Key row) (oi_CreatedAt (ls_Info row)) (oi_ETag (ls_Info row)) (oi_Size (ls_Info row)).

Definition page_count (page : listPage) : Z := zlen (lp_contents page) + zlen (lp_commonPrefixes page).
Definition add_prefix (page : listPage) (cp : string) : listPage :=
  mkListPage (lp_contents page) (lp_commonPrefixes page ++ [cp]) (lp_truncated page) (lp_nextToken page).
Definition add_entry (page : listPage) (e : listEntry) : listPage :=
  mkListPage (lp_contents page ++ [e]) (lp_commonPrefixes page) (lp_truncated page) (lp_nextToken page).
Definition truncate (page : listPage) : listPage :=
  mkListPage (lp_contents page) (lp_commonPrefixes page) true (lp_nextToken page).

(** The loop of [foldList]. *)
Fixpoint fold_rows (req : listRequest) (seen : gset string) (after : string) (page : listPage)
    (rows : list (result list_error Listed)) : result list_error (listPage * string) :=
  match rows with
  | [] => Ok (page, after)
  | Err e :: _ => Err e
  | Ok row :: rows' =>
      match virtualPrefix (ls_Key row) (lq_prefix req) (lq_delimiter req) with
      | Some cp =>
          if bool_decide (cp ∈ seen) then fold_rows req seen (ls_Key row) page rows'
          else if lq_maxKeys req <=? page_count page then Ok (truncate page, after)
          else fold_rows req ({[cp]} ∪ seen) (ls_Key row) (add_prefix page cp) rows'
      | None =>
          if lq_maxKeys req <=? page_count page then Ok (truncate page, after)
          else fold_rows req seen (ls_Key row) (add_entry page (entry_of row)) rows'
      end
  end.

Definition empty_page : listPage := mkListPage [] [] false "".

Definition seen_before (req : listRequest) : gset string :=
  match virtualPrefix (lq_after req) (lq_prefix req) (lq_delimiter req) with
  | Some cp => {[cp]}
  | None => ∅
  end.

Definition foldList (req : listRequest) (rows : list (result list_error Listed)) : result list_error listPage :=
  if lq_maxKeys req <=? 0 then Ok empty_page
  else
    let* (page, after) := fold_rows req (seen_before req) (lq_after req) empty_page rows in
    Ok (if lp_truncated page then mkListPage (lp_contents page) (lp_commonPrefixes page) true after else page).

(** *** The response *)

Definition unreserved (c : ascii) : bool :=
  let z := code c in
  ((65 <=? z) && (z <=? 90)) || ((97 <=? z) && (z <=? 122)) || ((48 <=? z) && (z <=? 57)) ||
  (z =? 45) || (z =? 46) || (z =? 95) || (z =? 126).

Definition hexChars : string := "0123456789ABCDEF".
Definition hex_char (d : Z) : ascii := default "000"%char (String.get (Z.to_nat d) hexChars).

Fixpoint awsEncode (s : string) (encodeSlash : bool) : string :=
  match s with
  | EmptyString => EmptyString
  | String c s' =>
      let rest := awsEncode s' encodeSlash in
      if unreserved c then String c rest
      else if (code c =? 47) && negb encodeSlash then String c rest
      else String "%" (String (hex_char (Z.shiftr (code c) 4)) (String (hex_char (Z.land (code c) 15)) rest))
  end.

Definition display (req : listRequest) (s : string) : string :=
  if lq_encodeURL req then awsEncode s true else s.

(** [listBucketResult]: the values [listView] sets. *)
Record listBucketResult := mkListResult {
  lb_Name : string;
  lb_Prefix : string;
  lb_KeyCount : Z;
  lb_MaxKeys : Z;
  lb_IsTruncated : bool;
  lb_ContinuationToken : string;
  lb_StartAfter : string;
  lb_Delimiter : string;
  lb_EncodingType : string;
  lb_NextContinuationToken : string;
  lb_Contents : list listEntry;
  lb_CommonPrefixes : list string
}.

Definition listView (req : listRequest) (bucket : string) (page : listPage) : listBucketResult :=
  mkListResult bucket (display req (lq_prefix req)) (page_count page) (lq_maxKeys req) (lp_truncated page)
    (lq_continuationToken req) (display req (lq_startAfter req))
    (if bool_decide (lq_delimiter req <> "") then display req (lq_delimiter req) else "")
    (if lq_encodeURL req then "url" else "")
    (if lp_truncated page then lp_nextToken page else "")
    ((fun e => mkListEntry (display req (le_key e)) (le_lastModified e) (le_etag e) (le_size e)) <$> lp_contents page)
    (display req <$> lp_commonPrefixes page).

(** [listObjectsV2] over a source; the fuel is the number of pages
    [iterListed] may fetch. *)
Definition listObjectsV2 (fuel : nat) (source : string -> listSource) (bucket : string) (q : string -> string)
    : option (result list_error listBucketResult) :=
  match parseListRequest q with
  | Err e => Some (Err e)
  | Ok req =>
      rows ← iterListed fuel (source (lq_prefix req)) (lq_after req);
      Some (let* page := foldList req rows in Ok (listView req bucket page))
  end.

(** *** Listing multipart uploads *)

Record UploadInfo := mkUpload { ui_Key : string; ui_UploadID : string; ui_Initiated : Z }.

Definition upload_after (keyMarker uploadMarker : string) (u : UploadInfo) : bool :=
  slt keyMarker (ui_Key u) || (bool_decide (ui_Key u = keyMarker) && slt uploadMarker (ui_UploadID u)).

(** [Store.ListUploads] over the uploads in key and id order. *)
Definition ListUploads (uploads : list UploadInfo) (prefix bound keyMarker uploadMarker : string) (max : Z)
    : list UploadInfo * bool :=
  let rows := take (Z.to_nat (max + 1))
    (List.filter (fun u => negb (slt (ui_Key u) prefix) && slt (ui_Key u) bound && upload_after keyMarker uploadMarker u) uploads) in
  let truncated := max <? zlen rows in
  (if truncated then take (Z.to_nat max) rows else rows, truncated).

Record uploadsPage := mkUploadsPage {
  up_Uploads : list UploadInfo;
  up_CommonPrefixes : list string;
  up_IsTruncated : bool;
  up_NextKeyMarker : string;
  up_NextUploadIDMarker : string
}.

(** The loop of [listMultipartUploads]: uploads, prefixes, truncation and the
    last key and id. *)
Fixpoint fold_uploads (prefix delimiter : string) (max : Z) (seen : gset string) (ups : list UploadInfo)
    (cps : list string) (trunc : bool) (lastKey lastID : string) (rows : list UploadInfo)
    : list UploadInfo * list string * bool * string * string :=
  match rows with
  | [] => (ups, cps, trunc, lastKey, lastID)
  | u :: rows' =>
      let full := max <=? zlen ups + zlen cps in
      match virtualPrefix (ui_Key u) prefix delimiter with
      | Some cp =>
          if bool_decide (cp ∈ seen) then fold_uploads prefix delimiter max seen ups cps trunc lastKey lastID rows'
          else if full then (ups, cps, true, lastKey, lastID)
          else fold_uploads prefix delimiter max ({[cp]} ∪ seen) ups (cps ++ [cp]) trunc (ui_Key u) (ui_UploadID u) rows'
      | None =>
          if full then (ups, cps, true, lastKey, lastID)
          else fold_uploads prefix delimiter max seen (ups ++ [u]) cps trunc (ui_Key u) (ui_UploadID u) rows'
      end
  end.

(** [listMultipartUploads] after its parameters are parsed. *)
Definition listMultipartUploads (uploads : list UploadInfo) (prefix bound delimiter keyMarker uploadMarker : string)
    (max : Z) : uploadsPage :=
  let '(rows, truncated) := ListUploads uploads prefix bound keyMarker uploadMarker max in
  let seen : gset string :=
    if bool_decide (delimiter <> "") then
      match CutPrefix keyMarker prefix with
      | Some rest =>
          match Index rest delimiter with
          | Some idx => {[prefix +:+ stake (idx + String.length delimiter) rest]}
          | None => ∅
          end
      | None => ∅
      end
    else ∅ in
  let '(ups, cps, trunc, lastKey, lastID) :=
    fold_uploads prefix delimiter max seen [] [] truncated keyMarker uploadMarker rows in
  mkUploadsPage ups cps trunc (if trunc then lastKey else "") (if trunc then lastID else "").

(** ** Lemmas *)

(** *** Byte order *)

Lemma slt_irrefl a : slt a a = false.
Proof. induction a as [|c a IH]; cbn; [done |]. by rewrite Z.ltb_irrefl, IH, andb_false_r. Qed.

Lemma slt_trans a b c : slt a b = true -> slt b c = true -> slt a c = true.
Proof.
  revert b c. induction a as [|x a IH]; intros [|y b] [|z c]; cbn; try done.
  rewrite !orb_true_iff, !andb_true_iff, !Z.ltb_lt, !Z.eqb_eq. intros [H1|[H1 H1']] [H2|[H2 H2']]; [left; lia.. |].
  right. split; [lia |]. eauto.
Qed.

Lemma code_inj x y : code x = code y -> x = y.
Proof. intros H. rewrite <- (chr_code x), <- (chr_code y). by rewrite H. Qed.

Lemma slt_total a b : slt a b = true \/ a = b \/ slt b a = true.
Proof.
  revert b. induction a as [|x a IH]; intros [|y b]; cbn; auto.
  destruct (Z.lt_total (code x) (code y)) as [H|[H|H]]; [left; lia | | right; right; lia].
  apply code_inj in H as ->. rewrite Z.ltb_irrefl, Z.eqb_refl. cbn. destruct (IH b) as [?|[->|?]]; auto.
Qed.

Lemma slt_asym a b : slt a b = true -> slt b a = false.
Proof. intros H. destruct (slt b a) eqn:E; [| done]. pose proof (slt_trans _ _ _ H E) as E2. by rewrite slt_irrefl in E2. Qed.

Lemma slt_app_l p a b : slt (p +:+ a) (p +:+ b) = slt a b.
Proof. induction p as [|c p IH]; [by rewrite !sapp_nil_l |]. rewrite !sapp_cons. cbn. by rewrite Z.ltb_irrefl, Z.eqb_refl, IH. Qed.

(** The keys with a prefix are an interval. *)
Lemma prefix_convex p a b c :
  HasPrefix a p = true -> HasPrefix c p = true -> slt a b = true -> slt b c = true -> HasPrefix b p = true.
Proof.
  intros (x & ->)%HasPrefix_inv (y & ->)%HasPrefix_inv. revert b. induction p as [|k p IH]; intros b; [intros _ _; apply (HasPrefix_app "") |].
  rewrite !sapp_cons. destruct b as [|m b]; cbn; [done |].
  rewrite !orb_true_iff, !andb_true_iff, !Z.ltb_lt, !Z.eqb_eq. intros [H1|[H1 H1']] [H2|[H2 H2']]; [lia.. |].
  apply code_inj in H1 as ->. unfold HasPrefix. cbn. destruct (ascii_dec m m); [eauto | done].
Qed.

(** *** Virtual prefixes *)

Lemma HasPrefix_stake n s x sub :
  (String.length sub <= n)%nat -> (n <= String.length s)%nat -> HasPrefix (stake n s +:+ x) sub = HasPrefix s sub.
Proof.
  revert s sub. induction n as [|n IH]; intros s sub Hs Hn.
  { destruct sub; [| cbn in Hs; lia]. by destruct (stake 0 s +:+ x), s. }
  destruct s as [|c s]; [cbn in Hn; lia |]. cbn [stake]. rewrite sapp_cons. destruct sub as [|d sub]; [done |]. cbn in Hs, Hn.
  unfold HasPrefix in *. cbn. destruct (ascii_dec d c); [apply IH; lia | done].
Qed.

Lemma Index_some s sub i :
  Index s sub = Some i ->
  (i + String.length sub <= String.length s)%nat /\
  forall x, Index (stake (i + String.length sub) s +:+ x) sub = Some i.
Proof.
  revert i. induction s as [|c s IH]; intros i E.
  - cbn [Index] in E. destruct (HasPrefix "" sub) eqn:Hp; [| done]. injection E as <-. destruct sub; [| by destruct (HasPrefix_inv _ _ Hp)].
    split; [cbn; lia |]. intros x. by destruct x.
  - cbn [Index] in E. destruct (HasPrefix (String c s) sub) eqn:Hp.
    + injection E as <-. apply HasPrefix_inv in Hp as [r Hr].
      assert (String.length sub <= String.length (String c s))%nat as Hl.
      { pose proof (f_equal slen Hr) as Hl. rewrite slen_app in Hl. unfold slen in Hl. lia. }
      split; [cbn [Nat.add]; lia |]. intros x. cbn [Nat.add].
      assert (HasPrefix (stake (String.length sub) (String c s) +:+ x) sub = true) as Hx
        by (rewrite HasPrefix_stake by lia; rewrite Hr; apply HasPrefix_app).
      by destruct (stake (String.length sub) (String c s) +:+ x); cbn [Index]; rewrite Hx.
    + destruct (Index s sub) as [j|] eqn:Ej; [| done]. injection E as <-. destruct (IH j eq_refl) as [Hl Hx].
      split; [cbn; lia |]. intros x. cbn [Nat.add stake]. rewrite sapp_cons. cbn [Index].
      pose proof (HasPrefix_stake (S (j + String.length sub)) (String c s) x sub ltac:(lia) ltac:(cbn; lia)) as Hpp.
      cbn [stake] in Hpp. rewrite sapp_cons in Hpp. rewrite Hpp, Hp, Hx. done.
Qed.

Lemma stake_app n s : exists r, s = stake n s +:+ r.
Proof. revert s. induction n as [|n IH]; intros [|c s]; cbn; [by eexists.. |]. destruct (IH s) as [r Hr]. exists r. by rewrite sapp_cons, <- Hr. Qed.

Lemma TrimPrefix_app p s : TrimPrefix (p +:+ s) p = s.
Proof. unfold TrimPrefix. by rewrite CutPrefix_app. Qed.

(** A virtual prefix is a prefix of its key, and all keys that start with it
    have it. *)
Lemma virtualPrefix_some key p d cp :
  HasPrefix key p = true -> virtualPrefix key p d = Some cp ->
  HasPrefix key cp = true /\ forall key', HasPrefix key' cp = true -> virtualPrefix key' p d = Some cp.
Proof.
  intros (rest & ->)%HasPrefix_inv. unfold virtualPrefix. case_bool_decide; [done |]. rewrite TrimPrefix_app.
  destruct (Index rest d) as [i|] eqn:Ei; [| done]. intros [= <-]. destruct (Index_some _ _ _ Ei) as [_ Hx].
  destruct (stake_app (i + String.length d) rest) as [r Hr]. split.
  - rewrite Hr at 1. rewrite <- sapp_assoc. apply HasPrefix_app.
  - intros key' (y & ->)%HasPrefix_inv. rewrite sapp_assoc, TrimPrefix_app, Hx. do 2 f_equal.
    clear -Ei. apply Index_some in Ei as [Hl _]. revert Hl. generalize (i + String.length d)%nat. intros n. revert rest.
    induction n as [|n IH]; intros [|c rest] Hl; cbn in *; try done; try lia.
    rewrite sapp_cons. f_equal. apply IH. lia.
Qed.

Lemma virtualPrefix_between p d a b c cp :
  HasPrefix a p = true -> HasPrefix c p = true -> slt a b = true -> slt b c = true ->
  virtualPrefix a p d = Some cp -> virtualPrefix c p d = Some cp -> virtualPrefix b p d = Some cp.
Proof.
  intros Ha Hc Hab Hbc Ea Ec. destruct (virtualPrefix_some _ _ _ _ Ha Ea) as [Hap Hall].
  destruct (virtualPrefix_some _ _ _ _ Hc Ec) as [Hcp _]. apply Hall. by apply (prefix_convex cp a b c).
Qed.

(** *** Folding one page *)

Section Fold.
Context (req : listRequest).

Definition row_prefix (r : Listed) : option string := virtualPrefix (ls_Key r) (lq_prefix req) (lq_delimiter req).

(** The entries of the rows without a virtual prefix, and the virtual prefixes
    of the others, each where it first occurs. *)
Definition entries (rows : list Listed) : list listEntry :=
  entry_of <$> List.filter (fun r => bool_decide (row_prefix r = None)) rows.

Fixpoint new_prefixes (seen : gset string) (rows : list Listed) : list string :=
  match rows with
  | [] => []
  | r :: rows' =>
      match row_prefix r with
      | Some cp => if bool_decide (cp ∈ seen) then new_prefixes seen rows' else cp :: new_prefixes ({[cp]} ∪ seen) rows'
      | None => new_prefixes seen rows'
      end
  end.

Definition last_key (after : string) (rows : list Listed) : string :=
  match last rows with Some r => ls_Key r | None => after end.

Lemma last_key_cons after r rows : last_key after (r :: rows) = last_key (ls_Key r) rows.
Proof. unfold last_key. rewrite last_cons. by destruct (last rows). Qed.

Lemma fold_rows_spec rows seen after page :
  lp_truncated page = false ->
  exists dn rest page',
    rows = dn ++ rest /\ fold_rows req seen after page (Ok <$> rows) = Ok (page', last_key after dn) /\
    lp_contents page' = lp_contents page ++ entries dn /\
    lp_commonPrefixes page' = lp_commonPrefixes page ++ new_prefixes seen dn /\
    lp_truncated page' = negb (bool_decide (rest = [])) /\
    (rest <> [] -> lq_maxKeys req <= page_count page') /\ page_count page' <= Z.max (page_count page) (lq_maxKeys req).
Proof.
  revert seen after page. induction rows as [|r rows IH]; intros seen after page Ht; cbn [fmap list_fmap fold_rows].
  { exists [], [], page. rewrite !app_nil_r. repeat split; try done. lia. }
  assert (lq_maxKeys req <= page_count page -> exists dn rest page',
    r :: rows = dn ++ rest /\ Ok (truncate page, after) = Ok (E := list_error) (page', last_key after dn) /\
    lp_contents page' = lp_contents page ++ entries dn /\
    lp_commonPrefixes page' = lp_commonPrefixes page ++ new_prefixes seen dn /\
    lp_truncated page' = negb (bool_decide (rest = [])) /\
    (rest <> [] -> lq_maxKeys req <= page_count page') /\ page_count page' <= Z.max (page_count page) (lq_maxKeys req)) as Hstop.
  { intros Hc. exists [], (r :: rows), (truncate page). rewrite !app_nil_r. repeat split; try done; unfold page_count in *; cbn; lia. }
  fold (row_prefix r). destruct (row_prefix r) as [cp|] eqn:Ev.
  - case_bool_decide as Hs.
    + destruct (IH seen (ls_Key r) page Ht) as (dn & rest & page' & -> & -> & H1 & H2 & H3).
      exists (r :: dn), rest, page'. rewrite last_key_cons. split; [done |]. split; [done |].
      unfold entries in *. cbn. rewrite Ev. cbn. rewrite bool_decide_true by done. auto.
    + destruct (lq_maxKeys req <=? page_count page) eqn:Hc; [apply Hstop; lia |].
      destruct (IH ({[cp]} ∪ seen) (ls_Key r) (add_prefix page cp) Ht) as (dn & rest & page' & -> & -> & H1 & H2 & H3 & H4 & H5).
      exists (r :: dn), rest, page'. rewrite last_key_cons. split; [done |]. split; [done |].
      unfold entries in *. cbn. rewrite Ev. cbn. rewrite bool_decide_false by done. rewrite H2. cbn. rewrite <- app_assoc.
      repeat split; try done. unfold page_count in *. cbn in H5. rewrite zlen_app in H5. cbn in H5. change (zlen [cp]) with 1 in H5. lia.
  - destruct (lq_maxKeys req <=? page_count page) eqn:Hc; [apply Hstop; lia |].
    destruct (IH seen (ls_Key r) (add_entry page (entry_of r)) Ht) as (dn & rest & page' & -> & -> & H1 & H2 & H3 & H4 & H5).
    exists (r :: dn), rest, page'. rewrite last_key_cons. split; [done |]. split; [done |].
    unfold entries in *. cbn. rewrite Ev. cbn. rewrite H1. cbn. rewrite <- app_assoc.
    repeat split; try done. unfold page_count in *. cbn in H5. rewrite zlen_app in H5. change (zlen [entry_of r]) with 1 in H5. lia.
Qed.

(** *** Prefixes across pages *)

Definition key_order (a b : Listed) : Prop := slt (ls_Key a) (ls_Key b) = true.

Lemma new_prefixes_ext s1 s2 rows :
  (forall r cp, r ∈ rows -> row_prefix r = Some cp -> cp ∈ s1 <-> cp ∈ s2) ->
  new_prefixes s1 rows = new_prefixes s2 rows.
Proof.
  revert s1 s2. induction rows as [|r rows IH]; intros s1 s2 H; cbn; [done |].
  destruct (row_prefix r) as [cp|] eqn:Ev; [| apply IH; set_solver].
  rewrite (bool_decide_ext (cp ∈ s1) (cp ∈ s2)) by (apply (H r); [left | done]).
  case_bool_decide; [apply IH; set_solver |]. f_equal. apply IH. intros r' cp' Hr' Hp'.
  pose proof (H r' cp' ltac:(by right) Hp'). set_solver.
Qed.

(** What the rows of a page add to the seen prefixes. *)
Fixpoint seen_after (seen : gset string) (rows : list Listed) : gset string :=
  match rows with
  | [] => seen
  | r :: rows' => seen_after (match row_prefix r with Some cp => {[cp]} ∪ seen | None => seen end) rows'
  end.

Lemma new_prefixes_app seen a b : new_prefixes seen (a ++ b) = new_prefixes seen a ++ new_prefixes (seen_after seen a) b.
Proof.
  revert seen. induction a as [|r a IH]; intros seen; cbn; [done |]. destruct (row_prefix r) as [cp|]; [| apply IH].
  case_bool_decide as Hs; cbn; rewrite IH; [| done]. f_equal. by replace ({[cp]} ∪ seen) with seen by set_solver.
Qed.

Lemma seen_after_spec seen rows cp : cp ∈ seen_after seen rows <-> cp ∈ seen \/ exists r, r ∈ rows /\ row_prefix r = Some cp.
Proof.
  revert seen. induction rows as [|r rows IH]; intros seen; cbn; [set_solver |]. rewrite IH.
  setoid_rewrite elem_of_cons. destruct (row_prefix r) as [c|] eqn:E; set_solver.
Qed.

Lemma new_prefixes_spec seen rows :
  NoDup (new_prefixes seen rows) /\
  forall cp, cp ∈ new_prefixes seen rows <-> cp ∉ seen /\ exists r, r ∈ rows /\ row_prefix r = Some cp.
Proof.
  revert seen. induction rows as [|r rows IH]; intros seen; cbn; [split; [constructor | set_solver] |].
  destruct (row_prefix r) as [cp|] eqn:Ev.
  - case_bool_decide as Hs.
    + destruct (IH seen) as [H1 H2]. split; [done |]. intros c. rewrite H2. setoid_rewrite elem_of_cons. naive_solver.
    + destruct (IH ({[cp]} ∪ seen)) as [H1 H2]. split.
      * constructor; [| done]. rewrite H2. set_solver.
      * intros c. rewrite elem_of_cons, H2. setoid_rewrite elem_of_cons. destruct (decide (c = cp)) as [->|]; set_solver.
  - destruct (IH seen) as [H1 H2]. split; [done |]. intros c. rewrite H2. setoid_rewrite elem_of_cons. naive_solver.
Qed.
End Fold.

(** ** Listing a whole bucket *)

(** A client that follows the continuation tokens. *)
Definition next_request (req : listRequest) (token : string) : listRequest :=
  mkListRequest (lq_prefix req) (lq_delimiter req) (lq_maxKeys req) (lq_startAfter req) token
    (if bool_decide (token = "") then lq_startAfter req else token) (lq_encodeURL req).

Fixpoint list_all (fuel pages : nat) (source : listSource) (req : listRequest) : option (list listPage) :=
  match fuel with
  | O => None
  | S fuel' =>
      rows ← iterListed pages source (lq_after req);
      match foldList req rows with
      | Err _ => None
      | Ok page =>
          if lp_truncated page
          then rest ← list_all fuel' pages source (next_request req (lp_nextToken page)); Some (page :: rest)
          else Some [page]
      end
  end.

Definition above (a : string) (l : list Listed) : list Listed := List.filter (fun r => slt a (ls_Key r)) l.

Lemma above_all r l : Forall (key_order r) l -> above (ls_Key r) l = l.
Proof. intros H. unfold above. induction H as [|x l Hx _ IH]; cbn; [done |]. by rewrite Hx, IH. Qed.

Lemma above_here l1 r l2 : StronglySorted key_order (l1 ++ r :: l2) -> above (ls_Key r) (l1 ++ r :: l2) = l2.
Proof.
  induction l1 as [|x l1 IH]; cbn; intros Hs; inversion_clear Hs as [|?? Hs' Hall]; unfold above in *; cbn.
  - rewrite slt_irrefl. by apply above_all.
  - rewrite (slt_asym (ls_Key x) (ls_Key r)); [by apply IH |]. rewrite Forall_forall in Hall. apply Hall. set_solver.
Qed.

Lemma above_above a b l : slt a b = true -> above b (above a l) = above b l.
Proof.
  intros Hab. unfold above. induction l as [|x l IH]; cbn; [done |]. destruct (slt a (ls_Key x)) eqn:E1; cbn; [by rewrite IH |].
  destruct (slt b (ls_Key x)) eqn:E2; [| done]. by rewrite (slt_trans _ _ _ Hab E2) in E1.
Qed.

Lemma above_sorted a l : StronglySorted key_order l -> StronglySorted key_order (above a l).
Proof.
  intros Hs. induction Hs as [|x l Hs IH Hx]; cbn; [constructor |]. destruct (slt a (ls_Key x)); [| done].
  constructor; [done |]. rewrite Forall_forall in *. intros y Hy%list_elem_of_In. apply filter_In in Hy as [Hy _]. apply Hx. by apply list_elem_of_In.
Qed.

Lemma above_elem a l r : r ∈ above a l <-> r ∈ l /\ slt a (ls_Key r) = true.
Proof. unfold above. by rewrite list_elem_of_In, filter_In, <- list_elem_of_In. Qed.

(** Continuing after a row of the rest leaves what follows it. *)
Lemma above_rest a l dn r rest :
  StronglySorted key_order l -> above a l = dn ++ r :: rest -> above (ls_Key r) l = rest.
Proof.
  intros Hs E. assert (r ∈ above a l) as Hin by (rewrite E; set_solver). apply above_elem in Hin as [_ Hr].
  rewrite <- (above_above a (ls_Key r) l Hr), E. apply above_here. rewrite <- E. by apply above_sorted.
Qed.

(** *** The pages of the store *)

Section Pages.
(** A source that answers from a fixed sequence of rows. *)
Context (rows : list Listed) (Hsorted : StronglySorted key_order rows) (source : listSource)
  (Hsource : forall after limit, source after limit = Ok (take (Z.to_nat limit) (above after rows))).

Lemma iterListed_rows fuel after :
  (length (above after rows) < fuel)%nat -> iterListed fuel source after = Some (Ok <$> above after rows).
Proof.
  revert after. induction fuel as [|fuel IH]; intros after Hf; [lia |]. cbn [iterListed]. rewrite Hsource.
  destruct (last (take (Z.to_nat listPageSize) (above after rows))) as [r|] eqn:El.
  - apply last_Some in El as [l' El]. pose proof (take_drop (Z.to_nat listPageSize) (above after rows)) as Htd.
    rewrite El in Htd. destruct (zlen (take (Z.to_nat listPageSize) (above after rows)) <? listPageSize) eqn:Ez.
    + rewrite take_ge; [done |]. unfold zlen in Ez. rewrite length_take in Ez. unfold listPageSize in *. apply Z.ltb_lt in Ez. destruct (Nat.min_spec (Z.to_nat 1024) (length (above after rows))) as [[? Em]|[? Em]]; rewrite Em in Ez; lia.
    + rewrite <- app_assoc in Htd. cbn in Htd. pose proof (above_rest _ _ _ _ _ Hsorted (eq_sym Htd)) as Hr.
      rewrite IH, Hr.
      * cbn [mbind option_bind]. rewrite El, <- fmap_app, <- app_assoc. cbn. by rewrite Htd.
      * rewrite Hr. rewrite <- Htd in Hf. rewrite length_app in Hf. cbn in Hf. lia.
  - apply last_None in El. destruct (above after rows); [done |]. by vm_compute in El.
Qed.

Context (req0 : listRequest) (Hprefix : forall r, r ∈ rows -> HasPrefix (ls_Key r) (lq_prefix req0) = true)
  (Hkeys : forall r, r ∈ rows -> ls_Key r <> "").

(** The requests of one listing differ in their position only. *)
Definition same_listing (req : listRequest) : Prop :=
  lq_prefix req = lq_prefix req0 /\ lq_delimiter req = lq_delimiter req0 /\ lq_maxKeys req = lq_maxKeys req0.

Definition position_ok (req : listRequest) : Prop :=
  HasPrefix (lq_after req) (lq_prefix req) = true \/ seen_before req = ∅.

(** The prefixes seen in a page that may occur again are that of its last row. *)
Lemma seen_at_token req dn r rest :
  same_listing req -> position_ok req -> above (lq_after req) rows = dn ++ r :: rest ->
  forall x cp, x ∈ rest -> row_prefix req x = Some cp ->
  cp ∈ seen_after req (seen_before req) (dn ++ [r]) <-> cp ∈ seen_before (next_request req (ls_Key r)).
Proof.
  intros (Ep & Ed & _) Hpos E x cp Hx Hcp.
  assert (forall y, y ∈ dn ++ r :: rest -> y ∈ rows /\ slt (lq_after req) (ls_Key y) = true) as Hin
    by (intros y; rewrite <- E; apply above_elem).
  destruct (Hin r ltac:(set_solver)) as [Hr Har]. destruct (Hin x ltac:(set_solver)) as [Hxr _].
  assert (StronglySorted key_order (dn ++ r :: rest)) as Hs by (rewrite <- E; by apply above_sorted).
  apply StronglySorted_app in Hs as (Hs1 & _ & Hs2). apply StronglySorted_inv in Hs2 as [_ Hs2]. rewrite Forall_forall in Hs2.
  assert (forall k, HasPrefix k (lq_prefix req) = true -> virtualPrefix k (lq_prefix req) (lq_delimiter req) = Some cp ->
    slt k (ls_Key r) = true -> row_prefix req r = Some cp) as Hbetween.
  { intros k Hk Hv Hlt. eapply (virtualPrefix_between _ _ k _ (ls_Key x)); try done; [rewrite Ep; by apply Hprefix | by apply Hs2]. }
  assert (seen_before (next_request req (ls_Key r)) = match row_prefix req r with Some c => {[c]} | None => ∅ end) as ->.
  { unfold seen_before, next_request, row_prefix. cbn. rewrite bool_decide_false by (by apply Hkeys). done. }
  rewrite seen_after_spec. split.
  - intros [Hsn|(y & Hy & Hyp)].
    + destruct Hpos as [Hpos|Hpos]; [| set_solver]. unfold seen_before in Hsn.
      destruct (virtualPrefix (lq_after req) (lq_prefix req) (lq_delimiter req)) as [c|] eqn:Ev; [| set_solver].
      apply elem_of_singleton in Hsn as <-. rewrite (Hbetween (lq_after req)) by done. set_solver.
    + apply elem_of_app in Hy as [Hy|Hy%list_elem_of_singleton]; [| subst y; rewrite Hyp; set_solver].
      rewrite (Hbetween (ls_Key y)); [set_solver | rewrite Ep; apply Hprefix; destruct (Hin y); set_solver | done |].
      apply (Hs1 y r); set_solver.
  - intros Hc. right. exists r. split; [set_solver |]. destruct (row_prefix req r); [| set_solver]. set_solver.
Qed.

Lemma above_length a b : slt a b = true -> (length (above b rows) <= length (above a rows))%nat.
Proof. intros H. rewrite <- (above_above a b rows H). unfold above. apply filter_length_le. Qed.

Lemma list_all_spec fuel pages req :
  same_listing req -> position_ok req -> 1 <= lq_maxKeys req ->
  (length (above (lq_after req) rows) < fuel)%nat -> (length rows < pages)%nat ->
  exists ps, list_all fuel pages source req = Some ps /\
    concat (lp_contents <$> ps) = entries req (above (lq_after req) rows) /\
    concat (lp_commonPrefixes <$> ps) = new_prefixes req (seen_before req) (above (lq_after req) rows) /\
    Forall (fun p => page_count p <= lq_maxKeys req) ps.
Proof.
  revert req. induction fuel as [|fuel IH]; intros req Hsame Hpos Hmax Hf Hp; [lia |]. cbn [list_all].
  assert (length (above (lq_after req) rows) <= length rows)%nat by (unfold above; apply filter_length_le).
  rewrite iterListed_rows by lia. cbn [mbind option_bind]. unfold foldList. destruct (lq_maxKeys req <=? 0) eqn:Em; [lia |].
  destruct (fold_rows_spec req (above (lq_after req) rows) (seen_before req) (lq_after req) empty_page eq_refl)
    as (dn & rest & page & E & -> & H1 & H2 & H3 & H4 & H5). cbn [rbind]. rewrite H3. cbn in H1, H2. change (page_count empty_page) with 0 in H5.
  case_bool_decide as Hr; cbn [negb lp_truncated lp_nextToken].
  - rewrite H3. cbn. subst rest. rewrite app_nil_r in E. eexists. split; [reflexivity |]. cbn. rewrite !app_nil_r, H1, H2, E.
    split; [done |]. split; [done |]. constructor; [lia | constructor].
  - specialize (H4 Hr). destruct dn as [|r dn _] using rev_ind.
    { exfalso. unfold page_count in H4. rewrite H1, H2 in H4. cbn in H4. change (zlen []) with 0 in H4. lia. }
    unfold last_key. rewrite last_snoc. rewrite <- app_assoc in E. cbn in E.
    pose proof (above_rest _ _ _ _ _ Hsorted E) as Hrest.
    assert (r ∈ rows) as Hin by (apply (above_elem (lq_after req)); rewrite E; set_solver).
    assert (lq_after (next_request req (ls_Key r)) = ls_Key r) as Ea
      by (unfold next_request; cbn; by rewrite bool_decide_false by (by apply Hkeys)).
    destruct (IH (next_request req (ls_Key r))) as (ps & -> & C1 & C2 & C3); try done.
    + left. rewrite Ea. destruct Hsame as (Ep & _). cbn. rewrite Ep. by apply Hprefix.
    + rewrite Ea, Hrest. rewrite E, length_app in Hf. cbn in Hf. lia.
    + cbn [mbind option_bind]. eexists. split; [reflexivity |]. rewrite !fmap_cons. cbn [concat lp_contents lp_commonPrefixes].
      rewrite C1, C2, H1, H2, Ea, Hrest, E. replace (dn ++ r :: rest) with ((dn ++ [r]) ++ rest) by (by rewrite <- app_assoc).
      split; [| split].
      * change (entries (next_request req (ls_Key r))) with (entries req). unfold entries. by rewrite !List.filter_app, !fmap_app.
      * rewrite (new_prefixes_app req _ (dn ++ [r]) rest). f_equal. change (new_prefixes (next_request req (ls_Key r))) with (new_prefixes req).
        symmetry. apply new_prefixes_ext. by eapply seen_at_token.
      * constructor; [unfold page_count in *; rewrite H1, H2 in H5; cbn [lp_contents lp_commonPrefixes]; lia | done].
Qed.
End Pages.

(** *** The rows of the table *)

Definition listing_rows (now : Z) (table : list object_row) (prefix prefixEnd : string) : list Listed :=
  ro_listed <$> List.filter (fun r => negb (slt (ro_key r) prefix) && slt (ro_key r) prefixEnd && visible now r) table.

Lemma Store_List_above now table prefix pend after limit :
  Store_List now table prefix pend after limit = take (Z.to_nat limit) (above after (listing_rows now table prefix pend)).
Proof.
  unfold Store_List, listing_rows. rewrite fmap_take. f_equal. unfold above. induction table as [|r table IH]; cbn; [done |].
  unfold in_range, ro_key in *. destruct (negb (slt (ls_Key (ro_listed r)) prefix) && slt (ls_Key (ro_listed r)) pend); cbn; [| exact IH].
  destruct (visible now r); cbn; [| by rewrite andb_false_r]. rewrite andb_true_r.
  destruct (slt after (ls_Key (ro_listed r))); cbn; [by rewrite IH | exact IH].
Qed.

Lemma listing_rows_sorted now table prefix pend :
  StronglySorted key_order (ro_listed <$> table) -> StronglySorted key_order (listing_rows now table prefix pend).
Proof.
  unfold listing_rows. generalize (fun r => negb (slt (ro_key r) prefix) && slt (ro_key r) pend && visible now r). intros f.
  induction table as [|r table IH]; cbn; intros Hs; [constructor |]. apply StronglySorted_inv in Hs as [Hs Hr].
  destruct (f r); [| by apply IH]. cbn. constructor; [by apply IH |]. rewrite Forall_forall in *. intros x Hx. apply Hr.
  apply list_elem_of_fmap in Hx as (y & -> & Hy). apply list_elem_of_fmap. exists y. split; [done |].
  apply list_elem_of_In, filter_In in Hy as [Hy _]. by apply list_elem_of_In.
Qed.

Lemma listing_rows_elem now table prefix pend x :
  x ∈ listing_rows now table prefix pend <->
  exists r, r ∈ table /\ x = ro_listed r /\ slt (ro_key r) prefix = false /\ slt (ro_key r) pend = true /\ visible now r = true.
Proof.
  unfold listing_rows. rewrite list_elem_of_fmap. split.
  - intros (r & -> & Hr). apply list_elem_of_In, filter_In in Hr as [Hr Hf]. exists r. rewrite list_elem_of_In.
    rewrite !andb_true_iff, negb_true_iff in Hf. naive_solver.
  - intros (r & Hr & -> & H1 & H2 & H3). exists r. split; [done |]. apply list_elem_of_In, filter_In. split; [by apply list_elem_of_In |].
    by rewrite H1, H2, H3.
Qed.

(** The keys of a table are texts for which the range of the prefix is exact. *)
Definition text_keys (prefix : string) (table : list object_row) : Prop :=
  exists rs, Forall scalar rs /\ prefix = text rs /\
    Forall (fun r => exists ks, Forall scalar ks /\ ks <> [] /\ ro_key r = text ks /\ range_exact rs ks) table.

Lemma text_nonempty ks : Forall scalar ks -> ks <> [] -> text ks <> "".
Proof.
  intros Hs Hne E. destruct Hs as [|k ks Hk Hks]; [done |]. assert (codes (text (k :: ks)) = codes "") as Ec by (by rewrite E).
  rewrite codes_text in Ec by (by constructor). unfold encode_runes in Ec. cbn in Ec.
  destruct (scalar_cases k Hk) as [(_ & E1)|[(_ & E1)|[(_ & _ & E1)|(_ & E1)]]]; by rewrite E1 in Ec.
Qed.

(** ** Properties *)

(** C33: Listing a bucket page by page returns everything exactly once.  For
    text keys and any page size, a client that follows the continuation tokens
    gets, in order, an entry for every visible object with the prefix whose
    key is not rolled up by the delimiter, and every common prefix of the
    others once, whatever the position it starts from; every page respects the
    page size and the listing ends.  The start position either has the prefix
    or selects no common prefix. *)
Theorem list_pages (now : Z) (table : list object_row) (req : listRequest)
    (Hsorted : StronglySorted key_order (ro_listed <$> table)) (Htext : text_keys (lq_prefix req) table)
    (Hmax : 1 <= lq_maxKeys req) (Hpos : position_ok req) :
  let source := fun after limit => Ok (Store_List now table (lq_prefix req) (prefixEnd (lq_prefix req)) after limit) in
  let rows := above (lq_after req)
    (ro_listed <$> List.filter (fun r => HasPrefix (ro_key r) (lq_prefix req) && visible now r) table) in
  exists pages, list_all (S (length table)) (S (length table)) source req = Some pages /\
    concat (lp_contents <$> pages) = entries req rows /\
    NoDup (concat (lp_commonPrefixes <$> pages)) /\
    (forall cp, cp ∈ concat (lp_commonPrefixes <$> pages) <->
       cp ∉ seen_before req /\ exists r, r ∈ rows /\ row_prefix req r = Some cp) /\
    Forall (fun p => page_count p <= lq_maxKeys req) pages.
Proof.
  intros source rows. destruct Htext as (rs & Hrs & Ep & Htab).
  set (all := listing_rows now table (lq_prefix req) (prefixEnd (lq_prefix req))).
  assert (rows = above (lq_after req) all) as Hrows.
  { unfold rows, all, listing_rows. do 2 f_equal. clear -Hrs Ep Htab. induction Htab as [|r table (ks & Hks & _ & Ek & Hx) _ IH]; [done |].
    cbn. rewrite Ek, Ep, (prefix_range rs ks) by done. by destruct (HasPrefix (text ks) (text rs) && visible now r); rewrite Ep in IH; rewrite IH. }
  assert (length all <= length table)%nat as Hlen by (unfold all, listing_rows; rewrite length_fmap; apply filter_length_le).
  assert (forall x, x ∈ all -> exists r ks, r ∈ table /\ x = ro_listed r /\ ro_key r = text ks /\ Forall scalar ks /\ ks <> [] /\ HasPrefix (ls_Key x) (lq_prefix req) = true) as Hall.
  { intros x Hx. apply listing_rows_elem in Hx as (r & Hr & -> & H1 & H2 & _). rewrite Forall_forall in Htab.
    destruct (Htab r Hr) as (ks & Hks & Hne & Ek & Hxx). exists r, ks. repeat split; try done.
    change (ls_Key (ro_listed r)) with (ro_key r). rewrite Ek, Ep in *. rewrite <- prefix_range, H1, H2 by done. done. }
  destruct (list_all_spec all (listing_rows_sorted _ _ _ _ Hsorted) source (fun a l => f_equal Ok (Store_List_above _ _ _ _ _ _)) req)
    with (fuel := S (length table)) (pages := S (length table)) (req := req) as (ps & E & C1 & C2 & C3); try done.
  - intros x Hx. by destruct (Hall x Hx) as (r & ks & _ & _ & _ & _ & _ & ?).
  - intros x Hx. destruct (Hall x Hx) as (r & ks & _ & -> & Ek & Hks & Hne & _). change (ls_Key (ro_listed r)) with (ro_key r).
    rewrite Ek. by apply text_nonempty.
  - assert (length (above (lq_after req) all) <= length all)%nat by (unfold above; apply filter_length_le). lia.
  - lia.
  - exists ps. rewrite C1, C2, <- Hrows. destruct (new_prefixes_spec req (seen_before req) rows) as [N1 N2]. auto.
Qed.

Definition demo_listed (k : string) : object_row := mkRow (mkListed k (sample_info 10)) None.
Definition demo_table : list object_row :=
  demo_listed <$> [text [97; 47; 49]; text [97; 47; 50]; text [98]; text [99; 47; 49]; text [100]].
Definition demo_request : listRequest := mkListRequest (text []) "/" 2 "" "" "" false.

Lemma demo_text_keys : text_keys (lq_prefix demo_request) demo_table.
Proof.
  exists []. split; [constructor |]. split; [done |].
  assert (forall r, 0 <= r <= 55295 -> scalar r) as Hs by (unfold scalar, surrogate, MaxRune; lia).
  assert (forall ks, Forall (fun r => 0 <= r <= 55295) ks -> ks <> [] ->
    exists ks', Forall scalar ks' /\ ks' <> [] /\ ro_key (demo_listed (text ks)) = text ks' /\ range_exact [] ks') as H.
  { intros ks Hk Hne. exists ks. split; [by eapply Forall_impl |]. split; [done |]. split; [done |]. split; [done |].
    destruct Hk as [|k ks Hk _]; [done |]. cbn. intros [= ->]. unfold MaxRune in Hk. lia. }
  unfold demo_table. cbn [fmap list_fmap].
  repeat (apply Forall_cons; split; [apply H; [repeat (apply Forall_cons; split; [lia |]); apply Forall_nil; done | done] |]). constructor.
Qed.

Lemma list_pages_witness :
  let source := fun after limit => Ok (Store_List 0 demo_table (lq_prefix demo_request) (prefixEnd (lq_prefix demo_request)) after limit) in
  exists pages, list_all (S (length demo_table)) (S (length demo_table)) source demo_request = Some pages /\
    length pages = 2%nat /\ (le_key <$> concat (lp_contents <$> pages)) = [text [98]; text [100]] /\
    concat (lp_commonPrefixes <$> pages) = [text [97; 47]; text [99; 47]].
Proof.
  assert (StronglySorted key_order (ro_listed <$> demo_table)) as Hs
    by (unfold demo_table; repeat constructor; vm_compute; reflexivity).
  destruct (list_pages 0 demo_table demo_request Hs demo_text_keys) as (pages & E & _); [cbn; lia | by right |].
  exists pages. split; [exact E |]. vm_compute in E. injection E as <-. done.
Defined.

(** A start position outside the prefix can hide a common prefix.  With the
    prefix [p/] and the delimiter [/], starting after [a/x] rolls the position
    up into [p/a/], and the only object, [p/a/1], is not reported at all. *)
Theorem foldList_start_after :
  let req := mkListRequest "p/" "/" 1000 "a/x" "" "a/x" false in
  let row := demo_listed "p/a/1" in
  let rows := Store_List 0 [row] "p/" (prefixEnd "p/") "a/x" listPageSize in
  slt "a/x" (ro_key row) = true /\ rows = [ro_listed row] /\ foldList req (Ok <$> rows) = Ok empty_page.
Proof. by vm_compute. Qed.

(** Listing uploads with a delimiter can stop making progress.  Whenever
    the next [max] uploads after the marker all roll up into the marker's own
    common prefix and more follow, the page is empty, is reported as truncated,
    and its next markers are the markers of the request: a client that follows
    them asks for the same page for ever. *)
Theorem listMultipartUploads_stuck (uploads : list UploadInfo) (prefix bound delimiter keyMarker uploadMarker cp : string) (max : Z)
    (Hmax : 0 <= max) (Hd : delimiter <> "") (Hm : HasPrefix keyMarker prefix = true)
    (Hcp : virtualPrefix keyMarker prefix delimiter = Some cp)
    (Hmore : snd (ListUploads uploads prefix bound keyMarker uploadMarker max) = true)
    (Hroll : Forall (fun u => virtualPrefix (ui_Key u) prefix delimiter = Some cp)
               (fst (ListUploads uploads prefix bound keyMarker uploadMarker max))) :
  listMultipartUploads uploads prefix bound delimiter keyMarker uploadMarker max =
  mkUploadsPage [] [] true keyMarker uploadMarker.
Proof.
  unfold listMultipartUploads. destruct (ListUploads uploads prefix bound keyMarker uploadMarker max) as [rows truncated].
  cbn in Hmore, Hroll. subst truncated. rewrite bool_decide_true by done. apply HasPrefix_inv in Hm as [rest ->].
  unfold virtualPrefix in Hcp. rewrite bool_decide_false, TrimPrefix_app in Hcp by done. rewrite CutPrefix_app.
  destruct (Index rest delimiter) as [i|]; [| done]. injection Hcp as <-.
  assert (forall seen, prefix +:+ stake (i + String.length delimiter) rest ∈ seen ->
    fold_uploads prefix delimiter max seen [] [] true (prefix +:+ rest) uploadMarker rows =
    ([], [], true, prefix +:+ rest, uploadMarker)) as Hf.
  { intros seen Hs. induction Hroll as [|u rows Hu _ IH]; [done |]. cbn. rewrite Hu, bool_decide_true by done. exact IH. }
  rewrite Hf by set_solver. done.
Qed.

(** Three uploads under [a/] and one elsewhere, one upload per page. *)
Definition demo_uploads : list UploadInfo :=
  [mkUpload "a/1" "u1" 0; mkUpload "a/2" "u2" 0; mkUpload "a/3" "u3" 0; mkUpload "b" "u4" 0].

Lemma listMultipartUploads_stuck_witness :
  listMultipartUploads demo_uploads "" (prefixEnd "") "/" "" "" 1 = mkUploadsPage [] ["a/"] true "a/1" "u1" /\
  listMultipartUploads demo_uploads "" (prefixEnd "") "/" "a/1" "u1" 1 = mkUploadsPage [] [] true "a/1" "u1".
Proof.
  split; [by vm_compute |].
  apply (listMultipartUploads_stuck demo_uploads "" (prefixEnd "") "/" "a/1" "u1" "a/" 1);
    [lia | done | reflexivity | reflexivity | by vm_compute |].
  vm_compute. repeat constructor.
Defined.

(** *** URL encoding *)

Definition hex_val (c : ascii) : option Z :=
  if (48 <=? code c) && (code c <=? 57) then Some (code c - 48)
  else if (65 <=? code c) && (code c <=? 70) then Some (code c - 55) else None.

(** Percent decoding, as a client undoes [encoding-type=url]. *)
Fixpoint unescape (s : string) : option string :=
  match s with
  | EmptyString => Some EmptyString
  | String c s' =>
      if decide (c = "%"%char) then
        match s' with
        | String h (String l rest) =>
            a ← hex_val h; b ← hex_val l; r ← unescape rest; Some (String (chr (16 * a + b)) r)
        | _ => None
        end
      else r ← unescape s'; Some (String c r)
  end.

Lemma hex_char_val d : 0 <= d < 16 -> hex_val (hex_char d) = Some d.
Proof.
  intros Hd. assert (d ∈ seqZ 0 16) as Hin by (apply elem_of_seqZ; lia). revert d Hd Hin.
  assert (Forall (fun d => hex_val (hex_char d) = Some d) (seqZ 0 16)) as H by (vm_compute; repeat constructor).
  intros d _ Hin. rewrite Forall_forall in H. auto.
Qed.

(** URL-encoded names in responses decode to the name, and contain only
    unreserved characters, percent signs and, if asked, slashes. *)
Theorem awsEncode_decodes (s : string) (encodeSlash : bool) :
  unescape (awsEncode s encodeSlash) = Some s /\
  all_bytes (fun c => unreserved c || (code c =? 37) || (negb encodeSlash && (code c =? 47))) (awsEncode s encodeSlash) = true.
Proof.
  induction s as [|c s [IH1 IH2]]; [done |]. cbn [awsEncode].
  assert (forall d, 0 <= d < 16 -> unreserved (hex_char d) = true) as Hhex.
  { intros d Hd. assert (Forall (fun d => unreserved (hex_char d) = true) (seqZ 0 16)) as H by (vm_compute; repeat constructor).
    rewrite Forall_forall in H. apply H, elem_of_seqZ. lia. }
  pose proof (code_range c) as Hc.
  assert (unreserved c = true \/ (code c =? 47) && negb encodeSlash = true -> c <> "%"%char) as Hne.
  { intros [H|H] ->; [by vm_compute in H |]. by destruct encodeSlash; vm_compute in H. }
  destruct (unreserved c) eqn:Eu; [| destruct ((code c =? 47) && negb encodeSlash) eqn:Es].
  - cbn [unescape all_bytes]. rewrite decide_False by auto. rewrite IH1, IH2, Eu. done.
  - cbn [unescape all_bytes]. rewrite decide_False by auto. rewrite IH1, IH2. split; [done |].
    apply andb_true_iff in Es as [E1 E2]. by rewrite Eu, E1, E2, orb_true_r.
  - change 15 with (Z.ones 4). rewrite Z.shiftr_div_pow2, Z.land_ones by lia. change (2 ^ 4) with 16.
    cbn [unescape all_bytes]. rewrite decide_True by done. rewrite !hex_char_val by div_lia. cbn [mbind option_bind]. rewrite IH1.
    cbn [mbind option_bind]. split.
    + do 2 f_equal. rewrite <- (chr_code c) at 3. f_equal. div_lia.
    + rewrite !Hhex, IH2 by div_lia. done.
Qed.
