(* ===== verification/Precond.v ===== *)
(** * Conditions, publications and write options

    Models the conditions and write options of [internal/store/object.go]
    ([Precondition], [ReadCondition], [etagMatches], [Publication],
    [WriteOptions], [prepareWrite]), the cache versions of
    [internal/store/cache.go], and the conditional headers of
    [internal/s3/request.go] ([stripETag], [validETag], [putCondition],
    [readCondition]). *)

From S2P Require Import Prelude GoStrings Ns Ranges.

(** ** Entity tags *)

Definition quote : ascii := chr 34.

Definition stripETag (v : string) : string := TrimChar quote (TrimPrefix (TrimSpace v) "W/").

(** The loop of [etagMatches] over the comma-separated tokens. *)
Fixpoint token_matches (tokens : list string) (want : string) : bool :=
  match tokens with
  | [] => false
  | token :: rest =>
      let t := TrimSpace token in
      if bool_decide (t = "*") then true
      else
        let t := TrimChar quote (TrimPrefix t "W/") in
        if bool_decide (t <> "") && bool_decide (t = want) then true else token_matches rest want
  end.

Definition etagMatches (header etag : string) : bool :=
  token_matches (Split header ","%char) (TrimChar quote (TrimPrefix (TrimSpace etag) "W/")).

Definition is_hex (c : ascii) : bool :=
  ((48 <=? code c) && (code c <=? 57)) || ((97 <=? code c) && (code c <=? 102)) || ((65 <=? code c) && (code c <=? 70)).

(** [hex.DecodeString] accepts pairs of hex digits. *)
Definition hex_decodes (s : string) : bool := all_bytes is_hex s && Z.even (slen s).

Definition validETag (v : string) : bool :=
  let '(digest, count, hasCount) :=
    match Cut (stripETag v) "-"%char with
    | Some (a, b) => (a, b, true)
    | None => (stripETag v, "", false)
    end in
  if negb (hex_decodes digest) || negb (slen digest =? 32) then false
  else if negb hasCount then true
  else match Atoi count with
       | Some n => (1 <=? n) && (n <=? 10000)
       | None => false
       end.

(** ** Conditions *)

Inductive Condition := Unconditional | IfAbsent | IfPresent | IfMatch.
#[global] Instance Condition_eq_dec : EqDecision Condition.
Proof. solve_decision. Defined.

Record Precondition := mkPrecondition { pc_Mode : Condition; pc_ETag : string }.

(** [Precondition.SQL]: the text and the parameter of the SQL functions. *)
Definition Precondition_SQL (p : Precondition) : string * option string :=
  match pc_Mode p with
  | IfAbsent => ("if_absent", None)
  | IfPresent => ("if_present", None)
  | IfMatch => ("if_match", Some (pc_ETag p))
  | Unconditional => ("none", None)
  end.

Definition Precondition_Allows (p : Precondition) (exists_ : bool) (etag : string) : bool :=
  match pc_Mode p with
  | IfAbsent => negb exists_
  | IfPresent => exists_
  | IfMatch => exists_ && bool_decide (pc_ETag p <> "") && etagMatches (pc_ETag p) etag
  | Unconditional => true
  end.

Inductive cond_error := ErrPrecondition | ErrNotModified | UnsupportedConditionalPut.

Record ReadCondition := mkReadCondition { rc_IfMatch : string; rc_IfNoneMatch : string }.

Definition ReadCondition_Check (c : ReadCondition) (exists_ : bool) (etag : string) : option cond_error :=
  if bool_decide (rc_IfMatch c <> "") && (negb exists_ || negb (etagMatches (rc_IfMatch c) etag)) then Some ErrPrecondition
  else if bool_decide (rc_IfNoneMatch c <> "") && exists_ && etagMatches (rc_IfNoneMatch c) etag then Some ErrNotModified
  else None.

Definition ReadCondition_Allows (c : ReadCondition) (exists_ : bool) (etag : string) : bool :=
  match ReadCondition_Check c exists_ etag with None => true | Some _ => false end.

(** The conditional headers; [h] is [http.Header.Get]. *)
Definition putCondition (h : string -> string) : result cond_error Precondition :=
  let ifMatch := h "If-Match" in
  let ifNone := h "If-None-Match" in
  if bool_decide (ifMatch = "") && bool_decide (ifNone = "") then Ok (mkPrecondition Unconditional "")
  else if bool_decide (ifMatch = "") && bool_decide (TrimSpace ifNone = "*") then Ok (mkPrecondition IfAbsent "")
  else if bool_decide (ifMatch <> "") && bool_decide (ifNone = "") && validETag ifMatch
  then Ok (mkPrecondition IfMatch (stripETag ifMatch))
  else Err UnsupportedConditionalPut.

Definition headerReadCondition (h : string -> string) : ReadCondition :=
  mkReadCondition (h "If-Match") (h "If-None-Match").

Definition copySourceCondition (h : string -> string) : ReadCondition :=
  mkReadCondition (h "x-amz-copy-source-if-match") (h "x-amz-copy-source-if-none-match").

Definition readCondition (h : string -> string) (etag : string) : option cond_error :=
  ReadCondition_Check (headerReadCondition h) true etag.

(** ** Cache versions *)

Inductive CacheState := CacheLive | CachePending | CacheDeleted.
#[global] Instance CacheState_eq_dec : EqDecision CacheState.
Proof. solve_decision. Defined.

Record CacheVersion := mkCacheVersion { cv_State : CacheState; cv_Origin : string; cv_Token : string }.

Definition pendingOriginPrefix : string := "pending:".
Definition deletedOriginPrefix : string := "deleted:".

Definition ParseCacheVersion (raw : string) : CacheVersion :=
  match CutPrefix raw pendingOriginPrefix with
  | Some token => mkCacheVersion CachePending "" token
  | None =>
      match CutPrefix raw deletedOriginPrefix with
      | Some token => mkCacheVersion CacheDeleted "" token
      | None => mkCacheVersion CacheLive raw ""
      end
  end.

Definition LiveCacheVersion (origin : string) : CacheVersion := mkCacheVersion CacheLive origin "".
Definition PendingCacheVersion (token : string) : CacheVersion := mkCacheVersion CachePending "" token.
Definition DeletedCacheVersion (token : string) : CacheVersion := mkCacheVersion CacheDeleted "" token.

Definition CacheVersion_String (v : CacheVersion) : string :=
  match cv_State v with
  | CachePending => pendingOriginPrefix +:+ cv_Token v
  | CacheDeleted => deletedOriginPrefix +:+ cv_Token v
  | CacheLive => cv_Origin v
  end.

Definition IsLive (v : CacheVersion) : bool := bool_decide (cv_State v = CacheLive).
Definition IsPending (v : CacheVersion) : bool := bool_decide (cv_State v = CachePending).
Definition IsDeleted (v : CacheVersion) : bool := bool_decide (cv_State v = CacheDeleted).

(** ** Publications *)

Record PendingOrigin := mkPendingOrigin { po_Token : string; po_BaseETag : string; po_BaseMissing : bool }.
Record FillLease := mkFillLease { fl_Namespace : string; fl_Key : string; fl_Owner : string }.

Inductive publicationKind := publicationNormal | publicationFill | publicationPending | publicationTombstone.

Record Publication := mkPublication {
  pb_kind : publicationKind;
  pb_origin : string;
  pb_expected : string;
  pb_lease : option FillLease;
  pb_pending : PendingOrigin
}.

Definition no_pending : PendingOrigin := mkPendingOrigin "" "" false.

Definition NormalPublication (origin : string) : Publication :=
  mkPublication publicationNormal origin "" None no_pending.
Definition FillPublication (origin expected : string) (lease : option FillLease) : Publication :=
  mkPublication publicationFill origin expected lease no_pending.
Definition WriteBackPublication (pending : PendingOrigin) : Publication :=
  mkPublication publicationPending (po_Token pending) "" None pending.

(** ** Write options *)

Record Checksum := mkChecksum { cs_Name : string; cs_Value : string }.

(** A held object lock: the store it belongs to ([None] for nil), whether it
    has a release function, its object, and whether it was released. *)
Record LockedObject := mkLocked {
  lo_store : option Z;
  lo_release : bool;
  lo_ref : ObjectRef;
  lo_released : bool
}.

Record WriteOptions := mkWriteOptions {
  wo_Precondition : Precondition;
  wo_UserMetadata : option (list string);
  wo_ContentType : string;
  wo_ContentEncoding : string;
  wo_OriginModified : option Z;
  wo_Checksum : option Checksum;
  wo_ChecksumType : string;
  wo_ExpiresAt : option Z;
  wo_KeepTTL : bool;
  wo_Publication : Publication;
  wo_lock : option LockedObject;
  wo_ExpectedSize : Z
}.

Definition skipLock (o : WriteOptions) : bool := match wo_lock o with Some _ => true | None => false end.

Inductive write_error := ErrInvalidPublication.

Definition validateLock (o : WriteOptions) (ref : ObjectRef) : result write_error unit :=
  match wo_lock o with
  | Some l =>
      if bool_decide (lo_store l = None) || negb (lo_release l) || bool_decide (lo_ref l <> ref) || lo_released l
      then Err ErrInvalidPublication else Ok tt
  | None => Ok tt
  end.

Definition drop_expiry (o : WriteOptions) : WriteOptions :=
  mkWriteOptions (wo_Precondition o) (wo_UserMetadata o) (wo_ContentType o) (wo_ContentEncoding o) (wo_OriginModified o)
    (wo_Checksum o) (wo_ChecksumType o) None false (wo_Publication o) (wo_lock o) (wo_ExpectedSize o).

(** [prepareWrite] of store [s]. *)
Definition prepareWrite (s : Z) (ref : ObjectRef) (o : WriteOptions) (inline : bool) : result write_error WriteOptions :=
  let* _ := validateLock o ref in
  if match wo_lock o with Some l => bool_decide (lo_store l <> Some s) | None => false end then Err ErrInvalidPublication
  else
    let p := wo_Publication o in
    let kind := ref_kind (or_ns ref) in
    let cached := bool_decide (kind = Cache) || bool_decide (kind = WriteBack) in
    match pb_kind p with
    | publicationNormal =>
        if negb (IsLive (ParseCacheVersion (pb_origin p))) then Err ErrInvalidPublication else Ok o
    | publicationFill =>
        if bool_decide (kind <> Cache) || negb (IsLive (ParseCacheVersion (pb_origin p))) ||
           negb (IsLive (ParseCacheVersion (pb_expected p))) ||
           match pb_lease p with
           | Some l => bool_decide (fl_Namespace l <> ref_name (or_ns ref)) || bool_decide (fl_Key l = "") || bool_decide (fl_Owner l = "")
           | None => false
           end
        then Err ErrInvalidPublication else Ok o
    | publicationPending =>
        let v := ParseCacheVersion (po_Token (pb_pending p)) in
        if inline || negb cached || negb (IsPending v) || bool_decide (cv_Token v = "") ||
           (po_BaseMissing (pb_pending p) && bool_decide (po_BaseETag (pb_pending p) <> "")) ||
           match pc_Mode (wo_Precondition o) with Unconditional => false | _ => true end
        then Err ErrInvalidPublication else Ok (drop_expiry o)
    | publicationTombstone =>
        if negb cached || negb (IsDeleted (ParseCacheVersion (pb_origin p))) || bool_decide (wo_ExpiresAt o = None)
        then Err ErrInvalidPublication else Ok o
    end.

(** [s3MetaJSON]: the entries of the JSON object, absent ones as [None].  The
    three checksum entries and the three of the fill lease come together. *)
Record s3meta := mkS3Meta {
  sm_content_encoding : option string;
  sm_origin_modified : option Z;
  sm_checksum : option (string * string * string);
  sm_fill : option FillLease
}.

Definition s3MetaJSON (o : WriteOptions) : s3meta :=
  mkS3Meta
    (if bool_decide (wo_ContentEncoding o <> "") then Some (wo_ContentEncoding o) else None)
    (wo_OriginModified o)
    (match wo_Checksum o with
     | Some c =>
         if bool_decide (cs_Name c <> "") && bool_decide (cs_Value c <> "")
         then Some (cs_Name c, cs_Value c, wo_ChecksumType o) else None
     | None => None
     end)
    (pb_lease (wo_Publication o)).

(** ** Lemmas *)

Lemma ParseCacheVersion_String raw : CacheVersion_String (ParseCacheVersion raw) = raw.
Proof.
  unfold ParseCacheVersion. destruct (CutPrefix raw pendingOriginPrefix) as [t|] eqn:E1; [by apply CutPrefix_Some in E1 as -> |].
  destruct (CutPrefix raw deletedOriginPrefix) as [t|] eqn:E2; [by apply CutPrefix_Some in E2 as -> | done].
Qed.

(** Characters of entity tags that pass [validETag]. *)
Definition etag_byte (c : ascii) : bool := is_hex c || (code c =? 45) || (code c =? 43).

Lemma etag_byte_plain c :
  etag_byte c = true -> plain_byte c = true /\ c <> quote /\ c <> ","%char /\ c <> "*"%char /\ c <> "W"%char.
Proof.
  unfold etag_byte, is_hex, plain_byte, is_space_byte. intros H. split; [lia |].
  repeat split; intros ->; by vm_compute in H.
Qed.

Lemma Split_single c s : all_bytes (fun x => negb (bool_decide (x = c))) s = true -> Split s c = [s].
Proof.
  induction s as [|x s IH]; [done |]. cbn [all_bytes Split]. intros [H1%negb_true_iff%bool_decide_eq_false H2]%andb_true_iff.
  rewrite decide_False, IH by done. done.
Qed.

Lemma TrimChar_absent c s : all_bytes (fun x => negb (bool_decide (x = c))) s = true -> TrimChar c s = s.
Proof.
  intros H. assert (c ∉ String.list_ascii_of_string s) as Hn.
  { rewrite all_bytes_list, forallb_forall in H. intros Hin. specialize (H c (proj1 (list_elem_of_In _ _) Hin)).
    apply negb_true_iff, bool_decide_eq_false in H. done. }
  assert (c ∉ String.list_ascii_of_string (srev s)) as Hr.
  { unfold srev. rewrite String.list_ascii_of_string_of_list_ascii, list_elem_of_In, <- in_rev, <- list_elem_of_In. done. }
  unfold TrimChar. rewrite (trim_left_char_absent c s), (trim_left_char_absent c (srev s)) by done. apply srev_involutive.
Qed.

(** On a tag of such characters the normalisations do nothing. *)
Lemma etag_clean s :
  all_bytes etag_byte s = true ->
  TrimSpace s = s /\ TrimPrefix s "W/" = s /\ TrimChar quote s = s /\ Split s ","%char = [s] /\ s <> "*".
Proof.
  intros H. assert (forall f, (forall c, etag_byte c = true -> f c = true) -> all_bytes f s = true) as Hf
    by (intros f Hf; eapply all_bytes_impl; eauto).
  split; [apply TrimSpace_plain, Hf; intros c Hc; by apply etag_byte_plain |].
  split. { unfold TrimPrefix. destruct (CutPrefix s "W/") as [r|] eqn:E; [| done]. apply CutPrefix_Some in E as ->.
    by vm_compute in H. }
  split; [apply TrimChar_absent, Hf; intros c Hc; rewrite bool_decide_false; [done | by apply etag_byte_plain] |].
  split; [apply Split_single, Hf; intros c Hc; rewrite bool_decide_false; [done | by apply etag_byte_plain] |].
  intros ->. by vm_compute in H.
Qed.

Lemma etagMatches_clean p e :
  all_bytes etag_byte p = true -> all_bytes etag_byte e = true -> p <> "" -> etagMatches p e = bool_decide (p = e).
Proof.
  intros Hp He Hne. destruct (etag_clean p Hp) as (P1 & P2 & P3 & P4 & P5). destruct (etag_clean e He) as (E1 & E2 & E3 & _).
  unfold etagMatches. rewrite P4, E1, E2, E3. cbn [token_matches]. rewrite P1, P2, P3.
  rewrite (bool_decide_false (p = "*")), (bool_decide_true (p <> "")) by done. cbn. by case_bool_decide.
Qed.
