(* ===== verification/Blocks.v ===== *)
(** * Rows: block compression and COPY framing

    Models the write side of a body in [internal/store]: [compressBlock],
    [likelyIncompressible] and [decompressBlock] of [object.go], and
    [rowFramer] of [write.go], which cuts the bytes of successive [Write]
    calls into 8,120-byte rows and encodes them for a binary [COPY].

    The zstd library is a parameter ([Zstd]) with its documented round trip
    ([ZstdLaws]).  The two digests run over the bytes written to them; their
    state is that byte string. *)

From S2P Require Import Prelude GoStrings.

(** ** Constants *)

Definition RowBytes : Z := 8120.
Definition MaxInlineBytes : Z := 65536.
Definition sendBatch : Z := 4 * 2 ^ 20.

(** ** Compression *)

Class Zstd := {
  EncodeAll : bytes -> bytes;
  DecodeAll : bytes -> option bytes
}.

(** Decoding a frame gives the block back, and a frame is never empty (it
    starts with its magic number). *)
Class ZstdLaws (Z : Zstd) : Prop := {
  DecodeAll_EncodeAll : forall src, DecodeAll (EncodeAll src) = Some src;
  EncodeAll_nonempty : forall src, src <> [] -> EncodeAll src <> []
}.

(** The set of byte values seen in the sample. *)
Definition likelyIncompressible (src : bytes) : bool :=
  let n := Z.min (zlen src) 512 in
  let '(_, distinct) :=
    fold_left (fun '(seen, distinct) b =>
      if bool_decide (b ∈ (seen : list ascii)) then (seen, distinct)
      else (b :: seen, distinct + 1)) (slice src 0 n) ([], 0) in
  200 <? distinct.

Section Codec.
Context `{Zstd}.

Definition compressBlock (src : bytes) : bytes :=
  let n := zlen src in
  if (n <? 16) || (MaxInlineBytes <? n) then src
  else if likelyIncompressible src then src
  else
    let dst := EncodeAll src in
    if n <=? zlen dst then src else dst.

Inductive block_error := CorruptStored | CorruptZstd | CorruptLength.

Definition decompressBlock (src : bytes) (wantLen : Z) : result block_error bytes :=
  if wantLen =? 0 then Ok []
  else if zlen src =? wantLen then Ok src
  else if wantLen <? zlen src then Err CorruptStored
  else match DecodeAll src with
       | None => Err CorruptZstd
       | Some out => if negb (zlen out =? wantLen) then Err CorruptLength else Ok out
       end.

End Codec.

(** ** Binary COPY *)

(** [binary.BigEndian.PutUint32] and [PutUint64]: [n] bytes, two's complement. *)
Fixpoint be (n : nat) (z : Z) : bytes :=
  match n with
  | O => []
  | S n' => chr ((z / 256 ^ Z.of_nat n') mod 256) :: be n' z
  end.

Definition bytes_of (l : list Z) : bytes := chr <$> l.

Definition copyHeader : bytes :=
  bytes_of [80; 71; 67; 79; 80; 89; 10; 255; 13; 10; 0; 0; 0; 0; 0; 0; 0; 0; 0].
Definition copyTrailer : bytes := bytes_of [255; 255].

Record rowFramer := mkFramer {
  rf_fileID : Z;
  rf_no : Z;
  rf_pending : bytes;
  rf_buf : bytes;
  rf_hashed : bytes;
  rf_size : Z
}.

Definition newRowFramer (fileID : Z) : rowFramer := mkFramer fileID 0 [] copyHeader [] 0.

Inductive framer_error := ErrRowCount.

Section Framer.
Context `{Zstd}.

(** One iteration of the [frameRows] loop. *)
Definition frame_row (f : rowFramer) (data : bytes) : rowFramer :=
  let payload := compressBlock data in
  mkFramer (rf_fileID f) (wrap32 (rf_no f + 1)) (rf_pending f)
    (rf_buf f ++ bytes_of [0; 3] ++ bytes_of [0; 0; 0; 8] ++ be 8 (rf_fileID f) ++
     bytes_of [0; 0; 0; 4] ++ be 4 (rf_no f) ++ be 4 (zlen payload) ++ payload)
    (rf_hashed f) (rf_size f).

Fixpoint frameRows_loop (fuel : nat) (f : rowFramer) (data : bytes) (start : Z) : rowFramer :=
  match fuel with
  | O => f
  | S fuel' =>
      if start <? zlen data then
        let stop := Z.min (start + RowBytes) (zlen data) in
        frameRows_loop fuel' (frame_row f (slice data start stop)) data (start + RowBytes)
      else f
  end.

(** Each iteration advances [start], so [length data] rounds reach the end. *)
Definition frameRows (f : rowFramer) (data : bytes) : rowFramer :=
  frameRows_loop (length data) f data 0.

Definition set_pending (f : rowFramer) (p : bytes) : rowFramer :=
  mkFramer (rf_fileID f) (rf_no f) p (rf_buf f) (rf_hashed f) (rf_size f).
Definition set_buf (f : rowFramer) (b : bytes) : rowFramer :=
  mkFramer (rf_fileID f) (rf_no f) (rf_pending f) b (rf_hashed f) (rf_size f).

(** The second half of [push]: whole rows of [src], the rest pending, and the
    filled buffer to send when it reached [sendBatch]. *)
Definition push_rows (f : rowFramer) (src : bytes) : rowFramer * option bytes :=
  let whole := zlen src - Z.rem (zlen src) RowBytes in
  let '(f, src) :=
    if 0 <? whole then (frameRows f (slice src 0 whole), slice src whole (zlen src))
    else (f, src) in
  let f := set_pending f (rf_pending f ++ src) in
  if zlen (rf_buf f) <? sendBatch then (f, None)
  else (set_buf f [], Some (rf_buf f)).

Definition push (f : rowFramer) (src : bytes) : result framer_error (rowFramer * option bytes) :=
  let limit := 2 ^ 31 * RowBytes in
  if limit - rf_size f <? zlen src then Err ErrRowCount
  else
    let f := mkFramer (rf_fileID f) (rf_no f) (rf_pending f) (rf_buf f)
               (rf_hashed f ++ src) (rf_size f + zlen src) in
    if 0 <? zlen (rf_pending f) then
      let need := RowBytes - zlen (rf_pending f) in
      if zlen src <? need then Ok (set_pending f (rf_pending f ++ src), None)
      else
        let f := set_pending f (rf_pending f ++ slice src 0 need) in
        let f := set_pending (frameRows f (rf_pending f)) [] in
        Ok (push_rows f (slice src need (zlen src)))
    else Ok (push_rows f src).

Definition framer_finish (f : rowFramer) : rowFramer * bytes :=
  let f :=
    if 0 <? zlen (rf_pending f) then set_pending (frameRows f (rf_pending f)) []
    else f in
  (set_buf f [], rf_buf f ++ copyTrailer).

Definition digests (sha256 md5 : bytes -> bytes) (f : rowFramer) : Z * bytes * bytes :=
  (rf_size f, sha256 (rf_hashed f), md5 (rf_hashed f)).

(** [ChunkWriter.Write] on each chunk: what [push] returns goes into the pipe. *)
Fixpoint write_chunks (f : rowFramer) (sent : bytes) (srcs : list bytes)
    : result framer_error (rowFramer * bytes) :=
  match srcs with
  | [] => Ok (f, sent)
  | src :: srcs' =>
      let* (f', out) := push f src in
      write_chunks f' (sent ++ default [] out) srcs'
  end.

(** A whole ingest: the [Write] calls, then the end of the stream that
    [ChunkWriter.Finish] sends. *)
Definition ingest (fileID : Z) (srcs : list bytes) : result framer_error (rowFramer * bytes) :=
  let* (f, sent) := write_chunks (newRowFramer fileID) [] srcs in
  let '(f, out) := framer_finish f in
  Ok (f, sent ++ out).

End Framer.

(** ** Specification of a stored body

    Row [i] of a body is its [i]-th group of [RowBytes] bytes. *)

Definition row_count (len : Z) : Z := (len + RowBytes - 1) / RowBytes.

Definition row_bytes (body : bytes) (i : Z) : bytes :=
  slice body (i * RowBytes) (Z.min ((i + 1) * RowBytes) (zlen body)).

(** A tuple of the [chunks] table: file id, row number, data. *)
Record chunk_row := mkRow { cr_file : Z; cr_no : Z; cr_data : bytes }.

Section StoredRows.
Context `{Zstd}.

(** The rows with numbers in [[a, b)] of a body. *)
Definition stored_rows (fid : Z) (body : bytes) (a b : Z) : list chunk_row :=
  (fun i => mkRow fid i (compressBlock (row_bytes body i))) <$> seqZ a (b - a).

Definition stored_body (fid : Z) (body : bytes) : list chunk_row :=
  stored_rows fid body 0 (row_count (zlen body)).

End StoredRows.

(** *** The documented binary COPY format

    A signature, flags and header extension; for each tuple a 16-bit field
    count followed by length-prefixed fields; a field count of -1 ends the
    stream.  [parse_copy] reads it for the three columns of [chunks]. *)

Definition be_val (l : bytes) : Z := fold_left (fun acc c => acc * 256 + code c) l 0.
Definition signed (bits z : Z) : Z := if z <? 2 ^ (bits - 1) then z else z - 2 ^ bits.

Definition split_at (n : Z) (l : bytes) : option (bytes * bytes) :=
  if (0 <=? n) && (n <=? zlen l) then Some (take (Z.to_nat n) l, drop (Z.to_nat n) l) else None.

Definition parse_field (l : bytes) : option (bytes * bytes) :=
  '(n, l) ← split_at 4 l; split_at (signed 32 (be_val n)) l.

Definition parse_row (l : bytes) : option (chunk_row * bytes) :=
  '(fid, l) ← parse_field l;
  '(no, l) ← parse_field l;
  '(data, l) ← parse_field l;
  if (zlen fid =? 8) && (zlen no =? 4) then
    Some (mkRow (signed 64 (be_val fid)) (signed 32 (be_val no)) data, l)
  else None.

Fixpoint parse_rows (fuel : nat) (l : bytes) : option (list chunk_row) :=
  match fuel with
  | O => None
  | S fuel' =>
      '(n, l) ← split_at 2 l;
      if be_val n =? 65535 then (if decide (l = []) then Some [] else None)
      else if be_val n =? 3 then
        '(r, l) ← parse_row l;
        rows ← parse_rows fuel' l;
        Some (r :: rows)
      else None
  end.

Definition parse_copy (stream : bytes) : option (list chunk_row) :=
  '(h, l) ← split_at 19 stream;
  if decide (h = copyHeader) then parse_rows (S (length l)) l else None.

(** ** Lemmas *)

Section CodecLemmas.
Context `{ZL : ZstdLaws}.

Lemma compressBlock_cases src :
  compressBlock src = src \/ (compressBlock src = EncodeAll src /\ zlen (EncodeAll src) < zlen src).
Proof.
  unfold compressBlock. destruct (_ || _); [by left |]. destruct (likelyIncompressible src); [by left |].
  destruct (Z.leb_spec (zlen src) (zlen (EncodeAll src))); [by left | by right].
Qed.

Lemma zlen_compressBlock src : zlen (compressBlock src) <= zlen src.
Proof. destruct (compressBlock_cases src) as [-> | [-> ?]]; lia. Qed.

Lemma compressBlock_nonempty src : src <> [] -> compressBlock src <> [].
Proof. intros. destruct (compressBlock_cases src) as [-> | [-> _]]; auto using EncodeAll_nonempty. Qed.

Lemma decompress_compress src : decompressBlock (compressBlock src) (zlen src) = Ok src.
Proof.
  unfold decompressBlock. destruct (Z.eqb_spec (zlen src) 0) as [Hz|Hz].
  { by rewrite (zlen_0_nil src Hz). }
  destruct (compressBlock_cases src) as [-> | [-> Hlt]]; [by rewrite Z.eqb_refl |].
  destruct (Z.eqb_spec (zlen (EncodeAll src)) (zlen src)); [lia |].
  destruct (Z.ltb_spec (zlen src) (zlen (EncodeAll src))); [lia |].
  by rewrite DecodeAll_EncodeAll, Z.eqb_refl.
Qed.

(** Whatever the stored bytes are, success yields the wanted length. *)
Lemma decompressBlock_length src n out :
  0 <= n -> decompressBlock src n = Ok out -> zlen out = n.
Proof.
  intros Hn. unfold decompressBlock. destruct (Z.eqb_spec n 0) as [->|]; [by intros [= <-] |].
  destruct (Z.eqb_spec (zlen src) n); [by intros [= <-] |]. destruct (n <? zlen src); [done |].
  destruct (DecodeAll src) as [o|]; [| done]. destruct (Z.eqb_spec (zlen o) n); [| done].
  by intros [= <-].
Qed.

End CodecLemmas.

Lemma zlen_be n z : zlen (be n z) = Z.of_nat n.
Proof. induction n as [|n IH]; [done |]. cbn [be]. rewrite zlen_cons. lia. Qed.

Lemma be_val_acc l acc :
  fold_left (fun acc c => acc * 256 + code c) l acc = acc * 256 ^ zlen l + be_val l.
Proof.
  unfold be_val. revert acc. induction l as [|c l IH]; intros acc; [rewrite zlen_nil; cbn; lia |].
  cbn [fold_left]. rewrite IH, (IH (0 * 256 + code c)), zlen_cons, Z.pow_add_r by len_lia. ring.
Qed.

Lemma be_val_be n z : be_val (be n z) = z mod 256 ^ Z.of_nat n.
Proof.
  induction n as [|n IH]; [by rewrite Z.mod_1_r |]. cbn [be]. unfold be_val. cbn [fold_left].
  rewrite be_val_acc, IH, zlen_be, code_chr by (apply Z.mod_pos_bound; lia).
  rewrite Nat2Z.inj_succ, Z.pow_succ_r by lia.
  rewrite (Z.mul_comm 256), Z.rem_mul_r by lia. lia.
Qed.

Lemma signed_mod bits z : 0 < bits -> - 2 ^ (bits - 1) <= z < 2 ^ (bits - 1) -> signed bits (z mod 2 ^ bits) = z.
Proof.
  intros Hb Hz. assert (2 ^ bits = 2 * 2 ^ (bits - 1)) as Hp
    by (rewrite <- Z.pow_succ_r by lia; f_equal; lia).
  unfold signed. destruct (Z.le_gt_cases 0 z).
  - rewrite Z.mod_small by lia. case_tests; lia.
  - replace (z mod 2 ^ bits) with (z + 2 ^ bits); [case_tests; lia |].
    rewrite <- (Z.mod_add z 1) by lia. rewrite Z.mod_small; lia.
Qed.

Lemma split_at_app n l k : zlen l = n -> split_at n (l ++ k) = Some (l, k).
Proof.
  intros <-. unfold split_at. pose proof (zlen_nonneg l).
  rewrite zlen_app, (proj2 (Z.leb_le 0 _)), (proj2 (Z.leb_le _ _)) by len_lia. cbn [andb].
  unfold zlen. by rewrite Nat2Z.id, take_app_length, drop_app_length.
Qed.

Lemma parse_field_app l k : zlen l < 2 ^ 31 -> parse_field (be 4 (zlen l) ++ l ++ k) = Some (l, k).
Proof.
  intros. unfold parse_field. rewrite (split_at_app 4) by apply zlen_be. cbn [mbind option_bind].
  rewrite be_val_be. change (256 ^ Z.of_nat 4) with (2 ^ 32).
  rewrite signed_mod by len_lia. by apply split_at_app.
Qed.

(** *** Encoding and parsing tuples *)

Definition copy_tuple (r : chunk_row) : bytes :=
  bytes_of [0; 3] ++ bytes_of [0; 0; 0; 8] ++ be 8 (cr_file r) ++
  bytes_of [0; 0; 0; 4] ++ be 4 (cr_no r) ++ be 4 (zlen (cr_data r)) ++ cr_data r.

Definition row_encodable (r : chunk_row) : Prop :=
  - 2 ^ 63 <= cr_file r < 2 ^ 63 /\ - 2 ^ 31 <= cr_no r < 2 ^ 31 /\ zlen (cr_data r) < 2 ^ 31.

Lemma parse_row_tuple r k :
  row_encodable r ->
  split_at 2 (copy_tuple r ++ k) = Some (bytes_of [0; 3], drop 2 (copy_tuple r) ++ k) /\
  parse_row (drop 2 (copy_tuple r) ++ k) = Some (r, k).
Proof.
  intros (Hf & Hn & Hd). split.
  - unfold copy_tuple. rewrite <- app_assoc. by apply split_at_app.
  - change (drop 2 (copy_tuple r)) with (be 4 8 ++ be 8 (cr_file r) ++ be 4 4 ++ be 4 (cr_no r) ++
      be 4 (zlen (cr_data r)) ++ cr_data r).
    unfold parse_row. rewrite <- !app_assoc.
    rewrite <- (zlen_be 8 (cr_file r)) at 1. rewrite parse_field_app by (by rewrite zlen_be).
    cbn [mbind option_bind].
    rewrite <- (zlen_be 4 (cr_no r)) at 1. rewrite parse_field_app by (by rewrite zlen_be).
    cbn [mbind option_bind]. rewrite parse_field_app by done. cbn [mbind option_bind].
    rewrite !zlen_be, !be_val_be.
    change (256 ^ Z.of_nat 8) with (2 ^ 64). change (256 ^ Z.of_nat 4) with (2 ^ 32).
    rewrite (signed_mod 64), (signed_mod 32) by lia. by destruct r.
Qed.

Lemma parse_rows_tuples rows fuel :
  Forall row_encodable rows -> (length rows < fuel)%nat ->
  parse_rows fuel (concat (copy_tuple <$> rows) ++ copyTrailer) = Some rows.
Proof.
  revert fuel. induction rows as [|r rows IH]; intros [|fuel] Hr Hf; try (cbn in Hf; lia).
  { reflexivity. }
  inversion_clear Hr as [|?? H1 H2]. rewrite fmap_cons. cbn [concat parse_rows]. rewrite <- app_assoc.
  destruct (parse_row_tuple r (concat (copy_tuple <$> rows) ++ copyTrailer) H1) as [-> Hp].
  cbn [mbind option_bind]. change (be_val (bytes_of [0; 3])) with 3. cbn [Z.eqb Pos.eqb].
  rewrite Hp. cbn [mbind option_bind]. rewrite IH by (done || (cbn in Hf; lia)). done.
Qed.

Lemma length_tuples rows : (length rows <= length (concat (copy_tuple <$> rows)))%nat.
Proof.
  induction rows as [|r rows IH]; [done |]. rewrite fmap_cons. cbn [concat length].
  rewrite length_app.
  assert (1 <= length (copy_tuple r))%nat by (cbn; lia). lia.
Qed.

Lemma parse_copy_rows rows :
  Forall row_encodable rows ->
  parse_copy (copyHeader ++ concat (copy_tuple <$> rows) ++ copyTrailer) = Some rows.
Proof.
  intros. unfold parse_copy. rewrite (split_at_app 19) by done. cbn [mbind option_bind].
  rewrite decide_True by done. apply parse_rows_tuples; [done |].
  rewrite length_app. pose proof (length_tuples rows). lia.
Qed.

(** *** Rows of a body *)

Section RowLemmas.
Context `{Zstd}.

Lemma row_count_exact k : row_count (k * RowBytes) = k.
Proof. unfold row_count, RowBytes. div_lia. Qed.

Lemma row_count_bounds len : 0 <= len ->
  0 <= row_count len /\ (row_count len - 1) * RowBytes < len <= row_count len * RowBytes \/ len = 0 /\ row_count len = 0.
Proof. unfold row_count, RowBytes. intros. destruct (Z.eq_dec len 0); [right | left]; subst; [done | div_lia]. Qed.

Lemma row_bytes_app body more i :
  0 <= i -> (i + 1) * RowBytes <= zlen body -> row_bytes (body ++ more) i = row_bytes body i.
Proof.
  unfold row_bytes, RowBytes. intros. rewrite zlen_app.
  rewrite !Z.min_l by len_lia. apply slice_app_l; lia.
Qed.

Lemma row_bytes_app_r body more k i :
  0 <= k -> 0 <= i -> zlen body = k * RowBytes -> row_bytes (body ++ more) (k + i) = row_bytes more i.
Proof.
  unfold row_bytes, RowBytes. intros. rewrite zlen_app, slice_app_r by lia. f_equal; lia.
Qed.

Lemma stored_rows_cat fid body a b c :
  a <= b -> b <= c -> stored_rows fid body a b ++ stored_rows fid body b c = stored_rows fid body a c.
Proof.
  intros. unfold stored_rows. rewrite <- fmap_app. f_equal.
  replace (c - a) with ((b - a) + (c - b)) by lia. rewrite seqZ_app by lia.
  by replace (a + (b - a)) with b by lia.
Qed.

Lemma stored_rows_ext fid body body' a b :
  (forall i, a <= i < b -> row_bytes body i = row_bytes body' i) ->
  stored_rows fid body a b = stored_rows fid body' a b.
Proof.
  intros Hext. unfold stored_rows. apply list_fmap_ext. intros k i Hk.
  apply lookup_seqZ in Hk as [-> ?]. by rewrite Hext by lia.
Qed.

Lemma stored_rows_shift fid body more k n :
  0 <= k -> zlen body = k * RowBytes ->
  (fun r => mkRow fid (k + cr_no r) (cr_data r)) <$> stored_rows fid more 0 n =
  stored_rows fid (body ++ more) k (k + n).
Proof.
  intros Hk Hl. unfold stored_rows. replace (k + n - k) with n by lia. rewrite Z.sub_0_r.
  rewrite <- list_fmap_compose. unfold seqZ. rewrite <- !list_fmap_compose.
  apply list_fmap_ext. intros j i _. unfold compose. cbn [cr_no cr_data].
  replace (Z.of_nat i + k) with (k + Z.of_nat i) by lia. rewrite (row_bytes_app_r body) by lia.
  by replace (Z.of_nat i + 0) with (Z.of_nat i) by lia.
Qed.

Lemma stored_rows_encodable fid body a b :
  - 2 ^ 63 <= fid < 2 ^ 63 -> 0 <= a -> b <= 2 ^ 31 -> Forall row_encodable (stored_rows fid body a b).
Proof.
  intros. unfold stored_rows. apply Forall_fmap, Forall_forall. intros i [? ?]%elem_of_seqZ.
  unfold row_encodable. cbn. split; [done |]. split; [lia |].
  pose proof (zlen_compressBlock (row_bytes body i)). unfold row_bytes in *.
  pose proof (zlen_slice_le body (i * RowBytes) (Z.min ((i + 1) * RowBytes) (zlen body))).
  unfold RowBytes in *. lia.
Qed.

End RowLemmas.

(** *** The framer *)

Section FramerLemmas.
Context `{Zstd}.

Lemma stored_rows_one fid body i :
  stored_rows fid body i (i + 1) = [mkRow fid i (compressBlock (row_bytes body i))].
Proof. unfold stored_rows. by replace (i + 1 - i) with 1 by lia. Qed.

Lemma stored_rows_empty fid body a b : b <= a -> stored_rows fid body a b = [].
Proof. intros. unfold stored_rows. by rewrite seqZ_nil by lia. Qed.

Lemma frame_row_buf f data :
  rf_buf (frame_row f data) = rf_buf f ++ copy_tuple (mkRow (rf_fileID f) (rf_no f) (compressBlock data)).
Proof. reflexivity. Qed.

(** [frameRows] appends the rows of [data], numbered from [k], when the bytes
    framed before it are [k] full rows [d0]. *)
Lemma frameRows_loop_spec fuel f d0 data k j :
  0 <= k -> zlen d0 = k * RowBytes -> 0 <= j <= row_count (zlen data) ->
  k + row_count (zlen data) <= 2 ^ 31 ->
  rf_no f = wrap32 (k + j) -> row_count (zlen data) - j <= Z.of_nat fuel ->
  frameRows_loop fuel f data (j * RowBytes) =
  mkFramer (rf_fileID f) (wrap32 (k + row_count (zlen data))) (rf_pending f)
    (rf_buf f ++ concat (copy_tuple <$>
       stored_rows (rf_fileID f) (d0 ++ data) (k + j) (k + row_count (zlen data))))
    (rf_hashed f) (rf_size f).
Proof.
  intros Hk Hd0. revert f j. induction fuel as [|fuel IH]; intros f j Hj Hmax Hno Hfuel.
  - assert (j = row_count (zlen data)) as -> by lia. rewrite stored_rows_empty by lia.
    cbn. rewrite app_nil_r, <- Hno. by destruct f.
  - cbn [frameRows_loop].
    destruct (Z.ltb_spec (j * RowBytes) (zlen data)) as [Hlt|Hge].
    + assert (j < row_count (zlen data)) as Hjr
        by (unfold row_count, RowBytes in *; div_lia).
      replace (j * RowBytes + RowBytes) with ((j + 1) * RowBytes) by lia.
      change (slice data (j * RowBytes) (Z.min ((j + 1) * RowBytes) (zlen data))) with (row_bytes data j).
      rewrite IH; try lia.
      2: { cbn [frame_row rf_no]. rewrite Hno, (wrap32_small (k + j)) by lia. f_equal. lia. }
      rewrite <- (stored_rows_cat _ _ (k + j) (k + j + 1)) by lia.
      rewrite stored_rows_one, (row_bytes_app_r d0) by lia. replace (k + (j + 1)) with (k + j + 1) by lia.
      rewrite frame_row_buf, Hno, (wrap32_small (k + j)) by lia.
      cbn [frame_row rf_fileID rf_pending rf_hashed rf_size]. f_equal.
      rewrite fmap_app, concat_app, app_assoc. f_equal. rewrite list_fmap_singleton. cbn [concat].
      by rewrite app_nil_r.
    + assert (j = row_count (zlen data)) as ->
        by (unfold row_count, RowBytes in *; div_lia).
      rewrite stored_rows_empty by lia. cbn. rewrite app_nil_r, <- Hno. by destruct f.
Qed.

Lemma row_count_le_length (l : bytes) : row_count (zlen l) <= zlen l.
Proof. pose proof (zlen_nonneg l). unfold row_count, RowBytes. div_lia. Qed.

Lemma frameRows_spec f d0 data k :
  0 <= k -> zlen d0 = k * RowBytes -> k + row_count (zlen data) <= 2 ^ 31 -> rf_no f = wrap32 k ->
  frameRows f data =
  mkFramer (rf_fileID f) (wrap32 (k + row_count (zlen data))) (rf_pending f)
    (rf_buf f ++ concat (copy_tuple <$>
       stored_rows (rf_fileID f) (d0 ++ data) k (k + row_count (zlen data))))
    (rf_hashed f) (rf_size f).
Proof.
  intros. unfold frameRows. pose proof (row_count_le_length data).
  assert (0 <= row_count (zlen data)) by (pose proof (zlen_nonneg data); unfold row_count, RowBytes; div_lia).
  replace 0 with (0 * RowBytes) by lia. rewrite (frameRows_loop_spec _ f d0 data k 0); rewrite ?Z.add_0_r; try done.
  all: unfold zlen in *; lia.
Qed.

(** What the framer has done after the bytes [d]: the full rows are encoded,
    the incomplete row is pending. *)
Record framer_inv (fid : Z) (f : rowFramer) (sent d : bytes) : Prop := {
  fi_file : rf_fileID f = fid;
  fi_no : rf_no f = wrap32 (zlen d / RowBytes);
  fi_pending : rf_pending f = slice d (zlen d / RowBytes * RowBytes) (zlen d);
  fi_sent : sent ++ rf_buf f =
    copyHeader ++ concat (copy_tuple <$> stored_rows fid d 0 (zlen d / RowBytes));
  fi_hashed : rf_hashed f = d;
  fi_size : rf_size f = zlen d;
  fi_limit : zlen d <= 2 ^ 31 * RowBytes
}.

Lemma new_framer_inv fid : framer_inv fid (newRowFramer fid) [] [].
Proof. split; try done. Qed.

(** Encoding [data] after [k] full rows [d0] extends the encoded prefix. *)
Lemma framed_prefix fid d0 data k :
  0 <= k -> zlen d0 = k * RowBytes ->
  concat (copy_tuple <$> stored_rows fid d0 0 k) ++
  concat (copy_tuple <$> stored_rows fid (d0 ++ data) k (k + row_count (zlen data))) =
  concat (copy_tuple <$> stored_rows fid (d0 ++ data) 0 (k + row_count (zlen data))).
Proof.
  intros Hk Hl. assert (0 <= row_count (zlen data))
    by (pose proof (zlen_nonneg data); unfold row_count, RowBytes; div_lia).
  rewrite (stored_rows_ext fid d0 (d0 ++ data)) by
    (intros i ?; symmetry; apply row_bytes_app; unfold RowBytes in *; lia).
  rewrite <- concat_app, <- fmap_app, stored_rows_cat by lia. done.
Qed.

(** The framer between rows: exactly the [k] full rows [d0] are encoded. *)
Record framed (fid : Z) (f : rowFramer) (sent d0 : bytes) (k : Z) : Prop := {
  fr_file : rf_fileID f = fid;
  fr_no : rf_no f = wrap32 k;
  fr_pos : 0 <= k;
  fr_len : zlen d0 = k * RowBytes;
  fr_sent : sent ++ rf_buf f = copyHeader ++ concat (copy_tuple <$> stored_rows fid d0 0 k)
}.

Lemma frameRows_framed fid f sent d0 k data n :
  framed fid f sent d0 k -> 0 <= n -> zlen data = n * RowBytes -> k + n <= 2 ^ 31 ->
  framed fid (frameRows f data) sent (d0 ++ data) (k + n) /\
  rf_pending (frameRows f data) = rf_pending f /\ rf_hashed (frameRows f data) = rf_hashed f /\
  rf_size (frameRows f data) = rf_size f.
Proof.
  intros [Hfile Hno Hk Hlen Hsent] Hn Hdata Hmax.
  assert (row_count (zlen data) = n) as Hrc by (rewrite Hdata; apply row_count_exact).
  rewrite (frameRows_spec f d0 data k) by (rewrite ?Hrc; done). rewrite Hrc. split; [| done].
  split; cbn [rf_fileID rf_no rf_buf]; try done; [lia | rewrite zlen_app; lia |].
  rewrite app_assoc, Hsent, Hfile, <- app_assoc. f_equal. rewrite <- Hrc. by apply framed_prefix.
Qed.

(** Full rows plus an incomplete pending row are the state after their bytes. *)
Lemma framed_inv fid f sent d0 k p :
  framed fid f sent d0 k -> rf_pending f = p -> zlen p < RowBytes ->
  rf_hashed f = d0 ++ p -> rf_size f = zlen (d0 ++ p) -> zlen (d0 ++ p) <= 2 ^ 31 * RowBytes ->
  framer_inv fid f sent (d0 ++ p).
Proof.
  intros [Hfile Hno Hk Hlen Hsent] Hp Hpl Hh Hs Hmax.
  assert (zlen (d0 ++ p) / RowBytes = k) as Hdiv
    by (rewrite zlen_app, Hlen; pose proof (zlen_nonneg p); unfold RowBytes in *; div_lia).
  split; rewrite ?Hdiv; try done.
  - rewrite Hp, slice_app_r, Hlen, Z.sub_diag, slice_full by (rewrite ?zlen_app; lia). done.
  - rewrite Hsent. do 3 f_equal. apply stored_rows_ext. intros i ?. symmetry.
    apply row_bytes_app; unfold RowBytes in *; lia.
Qed.

Lemma inv_framed fid f sent d :
  framer_inv fid f sent d ->
  exists d0 p, d = d0 ++ p /\ framed fid f sent d0 (zlen d / RowBytes) /\ rf_pending f = p /\
    zlen p < RowBytes.
Proof.
  intros [Hfile Hno Hp Hsent Hh Hs Hmax]. pose proof (zlen_nonneg d).
  assert (0 <= zlen d / RowBytes * RowBytes <= zlen d /\ zlen d < zlen d / RowBytes * RowBytes + RowBytes)
    as Hd by (unfold RowBytes; div_lia).
  exists (slice d 0 (zlen d / RowBytes * RowBytes)), (rf_pending f).
  assert (d = slice d 0 (zlen d / RowBytes * RowBytes) ++ rf_pending f) as Hsplit
    by (rewrite Hp, slice_cat, slice_full by lia; done).
  assert (zlen (slice d 0 (zlen d / RowBytes * RowBytes)) = zlen d / RowBytes * RowBytes) as Hl0
    by (rewrite zlen_slice; lia).
  split; [done |]. split; [| split; [done |]].
  - split; try done; [unfold RowBytes; div_lia |]. rewrite Hsent. do 3 f_equal.
    apply stored_rows_ext. intros i ?. rewrite Hsplit at 1. apply row_bytes_app; unfold RowBytes in *; lia.
  - rewrite Hp, zlen_slice; lia.
Qed.

Lemma framed_set_pending fid f sent d0 k p :
  framed fid f sent d0 k -> framed fid (set_pending f p) sent d0 k.
Proof. by intros []. Qed.

(** Sending the buffer does not change the stream. *)
Lemma inv_send fid f sent d : framer_inv fid f sent d -> framer_inv fid (set_buf f []) (sent ++ rf_buf f) d.
Proof. intros []. split; cbn; rewrite ?app_nil_r; done. Qed.

(** [push_rows] between rows. *)
Lemma push_rows_inv fid f sent d0 k src f' out :
  framed fid f sent d0 k -> rf_pending f = [] -> rf_hashed f = d0 ++ src ->
  rf_size f = zlen (d0 ++ src) -> zlen (d0 ++ src) <= 2 ^ 31 * RowBytes ->
  push_rows f src = (f', out) -> framer_inv fid f' (sent ++ default [] out) (d0 ++ src).
Proof.
  intros Hfr Hp Hh Hs Hmax. pose proof (zlen_nonneg src). unfold push_rows.
  rewrite rem_mod_nonneg by (unfold RowBytes; lia).
  set (whole := zlen src - zlen src mod RowBytes).
  assert (whole = zlen src / RowBytes * RowBytes /\ 0 <= zlen src - whole < RowBytes) as [Hw Hr]
    by (unfold whole, RowBytes; div_lia).
  assert (forall g q, (exists d k, framed fid g sent d k /\ d ++ q = d0 ++ src) ->
    rf_pending g = [] -> rf_hashed g = d0 ++ src -> rf_size g = zlen (d0 ++ src) -> zlen q < RowBytes ->
    (let g' := set_pending g (rf_pending g ++ q) in
     if zlen (rf_buf g') <? sendBatch then (g', None) else (set_buf g' [], Some (rf_buf g'))) = (f', out) ->
    framer_inv fid f' (sent ++ default [] out) (d0 ++ src)) as Hend.
  { intros g q (d & j & Hd & Eq) Hgp Hgh Hgs Hql. cbv zeta. rewrite Hgp, app_nil_l.
    assert (framer_inv fid (set_pending g q) sent (d0 ++ src)) as Hinv.
    { rewrite <- Eq in *. by apply (framed_inv fid _ sent d j q); [apply framed_set_pending | ..]. }
    destruct (_ <? _); intros [= <- <-]; cbn [default]; [by rewrite app_nil_r | by apply inv_send]. }
  pose proof (fr_len _ _ _ _ _ Hfr). pose proof (fr_pos _ _ _ _ _ Hfr). rewrite zlen_app in *.
  destruct (Z.ltb_spec 0 whole).
  - destruct (frameRows_framed fid f sent d0 k (slice src 0 whole) (zlen src / RowBytes) Hfr)
      as (Hfr' & Hp' & Hh' & Hs');
      [unfold RowBytes; div_lia | rewrite zlen_slice; lia | unfold RowBytes in *; lia |].
    intros E. refine (Hend _ _ _ _ _ _ _ E);
      rewrite ?Hp', ?Hh', ?Hs', ?zlen_app, ?zlen_slice by lia; try (done || lia).
    exists (d0 ++ slice src 0 whole), (k + zlen src / RowBytes). split; [done |].
    by rewrite <- app_assoc, slice_cat, slice_full by lia.
  - intros E. refine (Hend _ _ _ _ _ _ _ E); rewrite ?zlen_app; try (done || lia). by exists d0, k.
Qed.

(** Every accepted [push] extends the stream by the bytes of [src]. *)
Lemma push_inv fid f sent d src :
  framer_inv fid f sent d -> zlen (d ++ src) <= 2 ^ 31 * RowBytes ->
  exists f' out, push f src = Ok (f', out) /\ framer_inv fid f' (sent ++ default [] out) (d ++ src).
Proof.
  intros Hinv Hmax. destruct (inv_framed _ _ _ _ Hinv) as (d0 & p & Hd & Hfr & Hp & Hpl).
  pose proof (fi_size _ _ _ _ Hinv) as Hs. pose proof (fi_hashed _ _ _ _ Hinv) as Hh.
  pose proof (zlen_nonneg src). pose proof (fr_len _ _ _ _ _ Hfr) as Hl0. pose proof (fr_pos _ _ _ _ _ Hfr).
  unfold push. rewrite Hs. rewrite zlen_app in Hmax. destruct (Z.ltb_spec (2 ^ 31 * RowBytes - zlen d) (zlen src)); [lia |].
  set (f1 := mkFramer _ _ _ _ _ _).
  assert (framed fid f1 sent d0 (zlen d / RowBytes)) as Hfr1 by (by destruct Hfr).
  change (rf_pending f1) with (rf_pending f). rewrite Hp. destruct (Z.ltb_spec 0 (zlen p)) as [Hpos|Hz].
  - destruct (Z.ltb_spec (zlen src) (RowBytes - zlen p)).
    + eexists _, _. split; [reflexivity |]. cbn [default]. rewrite app_nil_r, Hd, <- app_assoc.
      apply (framed_inv _ _ _ d0 (zlen d / RowBytes) (p ++ src)); cbn [rf_pending rf_hashed rf_size set_pending f1];
        rewrite ?Hh, ?Hs; try done; [by apply framed_set_pending | | by rewrite Hd, <- app_assoc | |];
        rewrite ?Hd, ?zlen_app in *; lia.
    + set (need := RowBytes - zlen p) in *. set (data := p ++ slice src 0 need).
      destruct (frameRows_framed fid (set_pending f1 data) sent d0 (zlen d / RowBytes) data 1)
        as (Hfr2 & _ & Hh2 & Hs2);
        [by apply framed_set_pending | lia | unfold data, need; rewrite zlen_app, zlen_slice; lia
        | rewrite Hd, zlen_app in *; unfold RowBytes in *; div_lia |].
      eexists _, _. split; [by rewrite <- surjective_pairing |].
      cbn [rf_pending set_pending]. fold data.
      assert (d ++ src = (d0 ++ data) ++ slice src need (zlen src)) as ->.
      { unfold data. rewrite Hd, <- !app_assoc. by rewrite slice_cat, slice_full by lia. }
      eapply push_rows_inv; [by apply framed_set_pending | done | .. | apply surjective_pairing];
        cbn [set_pending rf_hashed rf_size]; rewrite ?Hh2, ?Hs2; cbn [set_pending f1 rf_hashed rf_size];
        unfold data; rewrite <- ?app_assoc, ?slice_cat, ?slice_full by lia;
        rewrite ?Hh, ?Hs, ?Hd, <- ?app_assoc, ?zlen_app in *; try done; lia.
  - assert (p = []) as -> by (apply zlen_0_nil; pose proof (zlen_nonneg p); lia).
    rewrite app_nil_r in Hd. subst d0. eexists _, _. split; [by rewrite <- surjective_pairing |].
    eapply push_rows_inv; [exact Hfr1 | done | .. | apply surjective_pairing];
      cbn [f1 rf_hashed rf_size]; rewrite ?Hh, ?Hs, ?zlen_app; done || lia.
Qed.

Lemma push_error fid f sent d src :
  framer_inv fid f sent d -> 2 ^ 31 * RowBytes < zlen (d ++ src) -> push f src = Err ErrRowCount.
Proof.
  intros Hinv Hmax. unfold push. rewrite (fi_size _ _ _ _ Hinv). rewrite zlen_app in Hmax.
  destruct (Z.ltb_spec (2 ^ 31 * RowBytes - zlen d) (zlen src)); [done | lia].
Qed.

Lemma write_chunks_inv fid srcs f sent d :
  framer_inv fid f sent d -> zlen (d ++ concat srcs) <= 2 ^ 31 * RowBytes ->
  exists f' sent', write_chunks f sent srcs = Ok (f', sent') /\ framer_inv fid f' sent' (d ++ concat srcs).
Proof.
  revert f sent d. induction srcs as [|src srcs IH]; intros f sent d Hinv Hmax; cbn [concat write_chunks] in *.
  - rewrite app_nil_r. eauto.
  - rewrite app_assoc in *. rewrite zlen_app in Hmax. pose proof (zlen_nonneg (concat srcs)).
    destruct (push_inv fid f sent d src Hinv) as (f' & out & -> & Hinv'); [lia |]. cbn [rbind].
    apply IH; [done |]. by rewrite zlen_app.
Qed.

Lemma write_chunks_error fid srcs f sent d :
  framer_inv fid f sent d -> 2 ^ 31 * RowBytes < zlen (d ++ concat srcs) ->
  write_chunks f sent srcs = Err ErrRowCount.
Proof.
  revert f sent d. induction srcs as [|src srcs IH]; intros f sent d Hinv Hmax; cbn [concat write_chunks] in *.
  - rewrite app_nil_r in Hmax. pose proof (fi_limit _ _ _ _ Hinv). lia.
  - destruct (Z.le_gt_cases (zlen (d ++ src)) (2 ^ 31 * RowBytes)) as [Hle|Hgt].
    + destruct (push_inv fid f sent d src Hinv Hle) as (f' & out & -> & Hinv'). cbn [rbind].
      apply (IH _ _ (d ++ src)); [done |]. by rewrite <- app_assoc.
    + by rewrite (push_error fid f sent d src Hinv) by lia.
Qed.

Lemma framer_finish_stream fid f sent d f' out :
  framer_inv fid f sent d -> framer_finish f = (f', out) ->
  sent ++ out = copyHeader ++ concat (copy_tuple <$> stored_body fid d) ++ copyTrailer /\
  rf_hashed f' = d /\ rf_size f' = zlen d /\ rf_fileID f' = fid.
Proof.
  intros Hinv. destruct (inv_framed _ _ _ _ Hinv) as (d0 & p & Hd & Hfr & Hp & Hpl).
  pose proof (fi_limit _ _ _ _ Hinv) as Hmax. pose proof (fr_len _ _ _ _ _ Hfr) as Hl0.
  pose proof (fr_pos _ _ _ _ _ Hfr). pose proof (zlen_nonneg p).
  unfold framer_finish, stored_body. rewrite Hp. destruct (Z.ltb_spec 0 (zlen p)) as [Hpos|Hz].
  - assert (row_count (zlen p) = 1) as Hrc by (unfold row_count, RowBytes in *; div_lia).
    assert (row_count (zlen d) = zlen d / RowBytes + 1) as Hrd
      by (rewrite Hd, zlen_app in *; unfold row_count, RowBytes in *; div_lia).
    rewrite (frameRows_spec f d0 p (zlen d / RowBytes)); try done;
      [| rewrite Hrc, Hd, zlen_app in *; unfold RowBytes in *; div_lia | apply Hfr].
    intros [= <- <-]. cbn [set_buf set_pending rf_buf rf_hashed rf_size rf_fileID].
    split; [| split; [| split]; apply Hinv]. rewrite !app_assoc. f_equal.
    rewrite (fr_sent _ _ _ _ _ Hfr), (fr_file _ _ _ _ _ Hfr), <- app_assoc. f_equal.
    rewrite Hrd, <- Hrc. rewrite Hd at 4. by apply framed_prefix.
  - assert (row_count (zlen d) = zlen d / RowBytes) as ->
      by (rewrite Hd, zlen_app in *; unfold row_count, RowBytes in *; div_lia).
    intros [= <- <-]. cbn [set_buf rf_buf rf_hashed rf_size rf_fileID]. split; [| split; [| split]; apply Hinv].
    rewrite !app_assoc. f_equal. apply Hinv.
Qed.

End FramerLemmas.

(** The result of an ingest within the limit, and beyond it. *)
Lemma ingest_file `{Zstd} fid srcs :
  - 2 ^ 63 <= fid < 2 ^ 63 -> zlen (concat srcs) <= 2 ^ 31 * RowBytes ->
  exists f stream, ingest fid srcs = Ok (f, stream) /\
    parse_copy stream = Some (stored_body fid (concat srcs)) /\
    rf_hashed f = concat srcs /\ rf_size f = zlen (concat srcs) /\ rf_fileID f = fid.
Proof.
  intros Hf Hle. unfold ingest.
  destruct (write_chunks_inv fid srcs (newRowFramer fid) [] []) as (f & sent & -> & Hinv);
    [apply new_framer_inv | done |]. cbn [rbind app] in *.
  destruct (framer_finish f) as [f' out] eqn:Ef.
  destruct (framer_finish_stream _ _ _ _ _ _ Hinv Ef) as (Hout & Hh & Hs).
  exists f', (sent ++ out). split; [done |]. rewrite Hout. split; [| done].
  apply parse_copy_rows, stored_rows_encodable; [done | lia |].
  pose proof (zlen_nonneg (concat srcs)). unfold row_count, RowBytes in *. div_lia.
Qed.

Lemma ingest_too_large `{Zstd} fid srcs : 2 ^ 31 * RowBytes < zlen (concat srcs) -> ingest fid srcs = Err ErrRowCount.
Proof.
  intros Hgt. unfold ingest.
  by rewrite (write_chunks_error fid srcs (newRowFramer fid) [] []) by (apply new_framer_inv || done).
Qed.

Lemma ingest_rows_ok `{Zstd} fid srcs :
  - 2 ^ 63 <= fid < 2 ^ 63 -> zlen (concat srcs) <= 2 ^ 31 * RowBytes ->
  exists f stream, ingest fid srcs = Ok (f, stream) /\
    parse_copy stream = Some (stored_body fid (concat srcs)) /\
    rf_hashed f = concat srcs /\ rf_size f = zlen (concat srcs).
Proof. intros Hf Hle. destruct (ingest_file fid srcs Hf Hle) as (f & stream & E & Hp & Hh & Hs & _). by exists f, stream. Qed.

(** ** Properties *)

(** A block survives storage: decompressing what [compressBlock] stored
    with the original length gives the block back, and the stored bytes never
    exceed the block. *)
Theorem block_round_trip `{ZL : ZstdLaws} (src : bytes) :
  decompressBlock (compressBlock src) (zlen src) = Ok src /\ zlen (compressBlock src) <= zlen src.
Proof. split; [apply decompress_compress | apply zlen_compressBlock]. Qed.

(** An ingest writes the body, whatever the sizes of the [Write] calls:
    the COPY stream parses to the rows of the concatenated chunks, numbered
    from 0 without wrap-around, the digests cover exactly those bytes, and the
    only error is a body beyond the row numbers of an [int32]. *)
Theorem ingest_rows `{Zstd} (fid : Z) (srcs : list bytes) (Hf : - 2 ^ 63 <= fid < 2 ^ 63) :
  if zlen (concat srcs) <=? 2 ^ 31 * RowBytes then
    exists f stream, ingest fid srcs = Ok (f, stream) /\
      parse_copy stream = Some (stored_body fid (concat srcs)) /\
      rf_hashed f = concat srcs /\ rf_size f = zlen (concat srcs)
  else ingest fid srcs = Err ErrRowCount.
Proof.
  destruct (Z.leb_spec (zlen (concat srcs)) (2 ^ 31 * RowBytes)) as [Hle|Hgt]; [by apply ingest_rows_ok | by apply ingest_too_large].
Qed.

(** A run-length coder standing for zstd in the examples: a block of one
    repeated byte is stored as the byte and a four-byte length. *)
Definition toy_encode (src : bytes) : bytes :=
  match src with
  | c :: _ => if decide (src = replicate (length src) c /\ zlen src < 2 ^ 32)
              then chr 1 :: c :: be 4 (zlen src) else chr 0 :: src
  | [] => chr 0 :: src
  end.

Definition toy_decode (src : bytes) : option bytes :=
  match src with
  | t :: rest =>
      if decide (t = chr 0) then Some rest
      else match rest with
           | c :: n => Some (replicate (Z.to_nat (be_val n)) c)
           | [] => None
           end
  | [] => None
  end.

#[export] Instance toy_zstd : Zstd := { EncodeAll := toy_encode; DecodeAll := toy_decode }.

#[export] Instance toy_zstd_laws : ZstdLaws toy_zstd.
Proof.
  split; [| intros [|c src]; [done |]; cbn; by case_decide].
  intros [|c src]; [done |]. cbn [EncodeAll DecodeAll toy_zstd toy_encode].
  destruct (decide _) as [[E Hl]|]; [| done]. cbn [toy_decode]. rewrite decide_False by done.
  rewrite be_val_be. change (256 ^ Z.of_nat 4) with (2 ^ 32). rewrite Z.mod_small by len_lia.
  unfold zlen. by rewrite Nat2Z.id, <- E.
Qed.

Lemma block_round_trip_witness :
  let src := replicate 100 (chr 65) in
  decompressBlock (compressBlock src) (zlen src) = Ok src /\ zlen (compressBlock src) <= zlen src.
Proof. apply (block_round_trip (ZL := toy_zstd_laws)). Defined.

Lemma ingest_rows_witness :
  exists f stream, ingest 7 [replicate 20 (chr 65); [chr 66]] = Ok (f, stream) /\
    parse_copy stream = Some (stored_body 7 (replicate 20 (chr 65) ++ [chr 66])) /\
    rf_hashed f = replicate 20 (chr 65) ++ [chr 66] /\ rf_size f = 21.
Proof. apply (ingest_rows 7 [replicate 20 (chr 65); [chr 66]]). lia. Defined.
