(* ===== verification/Crc.v ===== *)
(** * CRC-64/NVME

    Models [crc64NVME] of [internal/s3/request.go]: the lookup tables, [Write]
    with eight bytes per step, [Sum64] and [Sum], and proves it equal to the
    bit-by-bit definition of the checksum. *)

From S2P Require Import Prelude GoStrings Blocks.

(** ** Definitions *)

Definition poly : Z := 0x9a6c9329ac4bc9b5.
Definition all_ones : Z := 2 ^ 64 - 1.

(** One round of the inner loop that fills [tables[0]]. *)
Definition crc_bit (crc : Z) : Z :=
  if negb (Z.land crc 1 =? 0) then Z.lxor (Z.shiftr crc 1) poly else Z.shiftr crc 1.

Definition table_0 : list Z := (fun i => Nat.iter 8 crc_bit i) <$> seqZ 0 256.

Definition entry (t : list Z) (i : Z) : Z := default 0 (t !! Z.to_nat i).

Definition next_table (t : list Z) : list Z :=
  (fun crc => Z.lxor (entry table_0 (Z.land crc 255)) (Z.shiftr crc 8)) <$> t.

(** [crc64NVMETables[k]]. *)
Definition crc64NVMETables (k : nat) : list Z := Nat.iter k next_table table_0.

Definition newCRC64NVME : Z := all_ones.

(** [binary.LittleEndian.Uint64]. *)
Fixpoint le_val (p : list Z) : Z :=
  match p with
  | [] => 0
  | b :: p' => Z.lor b (Z.shiftl (le_val p') 8)
  end.

Definition byte_at (crc k : Z) : Z := Z.land (Z.shiftr crc (8 * k)) 255.

(** The body of the loop over eight bytes. *)
Definition crc_block (crc : Z) (p : list Z) : Z :=
  let crc := Z.lxor crc (le_val p) in
  let t k i := entry (crc64NVMETables k) (byte_at crc i) in
  Z.lxor (Z.lxor (Z.lxor (Z.lxor (Z.lxor (Z.lxor (Z.lxor (t 7%nat 0) (t 6%nat 1)) (t 5%nat 2)) (t 4%nat 3))
    (t 3%nat 4)) (t 2%nat 5)) (t 1%nat 6)) (t 0%nat 7).

(** The body of the loop over single bytes. *)
Definition crc_byte (crc b : Z) : Z := Z.lxor (entry table_0 (Z.lxor (Z.land crc 255) b)) (Z.shiftr crc 8).

(** [Write]. *)
Fixpoint crc_write (crc : Z) (p : list Z) : Z :=
  match p with
  | b0 :: b1 :: b2 :: b3 :: b4 :: b5 :: b6 :: b7 :: rest => crc_write (crc_block crc [b0; b1; b2; b3; b4; b5; b6; b7]) rest
  | _ => fold_left crc_byte p crc
  end.

Definition Sum64 (crc : Z) : Z := Z.lxor crc all_ones.
Definition crc_Sum (crc : Z) : bytes := be 8 (Sum64 crc).

(** ** Specification *)

(** The checksum one bit at a time. *)
Definition crc_bits (crc : Z) (p : list Z) : Z := fold_left (fun c b => Nat.iter 8 crc_bit (Z.lxor c b)) p crc.

(** ** Lemmas *)

Abbreviation rounds n := (Nat.iter n crc_bit).

Lemma crc_bit_alt c : crc_bit c = Z.lxor (Z.shiftr c 1) (if Z.odd c then poly else 0).
Proof.
  unfold crc_bit. change 1 with (Z.ones 1) at 1. rewrite Z.land_ones by lia. change (2 ^ 1) with 2.
  rewrite Zmod_odd. destruct (Z.odd c); cbn [negb Z.eqb]; [done | by rewrite Z.lxor_0_r].
Qed.

Lemma crc_bit_lxor a b : crc_bit (Z.lxor a b) = Z.lxor (crc_bit a) (crc_bit b).
Proof.
  rewrite !crc_bit_alt, Z.shiftr_lxor, <- !Z.bit0_odd, Z.lxor_spec, !Z.bit0_odd.
  apply Z.bits_inj. intros n. rewrite !Z.lxor_spec.
  destruct (Z.odd a), (Z.odd b); cbn [xorb]; rewrite ?Z.bits_0;
    destruct (Z.testbit (Z.shiftr a 1) n), (Z.testbit (Z.shiftr b 1) n), (Z.testbit poly n); done.
Qed.

Lemma rounds_lxor n a b : rounds n (Z.lxor a b) = Z.lxor (rounds n a) (rounds n b).
Proof. induction n as [|n IH]; [done |]. by rewrite !Nat.iter_succ, IH, crc_bit_lxor. Qed.

Lemma rounds_add n m c : rounds (n + m) c = rounds n (rounds m c).
Proof. apply Nat.iter_add. Qed.

(** The low zero bits are shifted out without touching the polynomial. *)
Lemma rounds_shiftl (n : nat) c : rounds n (Z.shiftl c (Z.of_nat n)) = c.
Proof.
  revert c. induction n as [|n IH]; intros c; [apply Z.shiftl_0_r |].
  replace (S n) with (n + 1)%nat by lia. rewrite rounds_add, Nat.iter_succ. cbn [Nat.iter nat_rect]. rewrite crc_bit_alt.
  replace (Z.of_nat (n + 1)) with (Z.of_nat n + 1) by lia. rewrite <- Z.shiftl_shiftl by lia.
  rewrite <- (Z.bit0_odd (Z.shiftl _ 1)), Z.shiftl_spec, Z.testbit_neg_r, Z.lxor_0_r by lia.
  rewrite Z.shiftr_shiftl_l by lia. change (1 - 1) with 0. by rewrite Z.shiftl_0_r, IH.
Qed.

Lemma entry_table_0 i : 0 <= i < 256 -> entry table_0 i = rounds 8 i.
Proof.
  intros Hi. unfold entry, table_0. rewrite list_lookup_fmap, lookup_seqZ_lt by lia. cbn [fmap option_fmap option_map default].
  by rewrite Z2Nat.id by lia.
Qed.

Lemma land_255 c : 0 <= Z.land c 255 < 256.
Proof. change 255 with (Z.ones 8). rewrite Z.land_ones by lia. apply Z.mod_pos_bound. lia. Qed.

Lemma low_high c : c = Z.lxor (Z.land c 255) (Z.shiftl (Z.shiftr c 8) 8).
Proof.
  change 255 with (Z.ones 8). apply Z.bits_inj'. intros n Hn. rewrite Z.lxor_spec, Z.land_spec, Z.shiftl_spec by lia.
  destruct (Z.ltb_spec n 8).
  - rewrite Z.ones_spec_low, andb_true_r, (Z.testbit_neg_r _ (n - 8)), xorb_false_r by lia. done.
  - rewrite Z.ones_spec_high, andb_false_r, Z.shiftr_spec by lia. cbn. f_equal. lia.
Qed.

(** Eight rounds at once. *)
Lemma rounds_8 c : Z.lxor (entry table_0 (Z.land c 255)) (Z.shiftr c 8) = rounds 8 c.
Proof.
  rewrite entry_table_0 by apply land_255. rewrite (low_high c) at 3. rewrite rounds_lxor. f_equal.
  symmetry. exact (rounds_shiftl 8 (Z.shiftr c 8)).
Qed.

Lemma entry_table k i : 0 <= i < 256 -> entry (crc64NVMETables k) i = rounds (8 * (k + 1)) i.
Proof.
  intros Hi. unfold crc64NVMETables. induction k as [|k IH]; [by apply entry_table_0 |].
  replace (8 * (S k + 1))%nat with (8 + 8 * (k + 1))%nat by lia. rewrite rounds_add, <- IH, Nat.iter_succ.
  assert (forall t, length t = 256%nat -> entry (next_table t) i = rounds 8 (entry t i)) as H.
  { intros t Ht. unfold entry at 1, next_table. rewrite list_lookup_fmap.
    destruct (lookup_lt_is_Some_2 t (Z.to_nat i)) as [x Hx]; [lia |]. rewrite Hx. cbn. rewrite rounds_8.
    unfold entry. by rewrite Hx. }
  apply H. clear. induction k as [|k IH]; [done |]. rewrite Nat.iter_succ. unfold next_table. by rewrite length_fmap.
Qed.

Definition byte_ok (b : Z) : Prop := 0 <= b < 256.

Lemma byte_land b : byte_ok b -> Z.land b 255 = b.
Proof. intros Hb. change 255 with (Z.ones 8). rewrite Z.land_ones by lia. apply Z.mod_small. exact Hb. Qed.

Lemma byte_shiftr b : byte_ok b -> Z.shiftr b 8 = 0.
Proof. intros Hb. rewrite Z.shiftr_div_pow2 by lia. apply Z.div_small. exact Hb. Qed.

Lemma land_lxor a b m : Z.land (Z.lxor a b) m = Z.lxor (Z.land a m) (Z.land b m).
Proof.
  apply Z.bits_inj. intros n. rewrite !Z.lxor_spec, !Z.land_spec, Z.lxor_spec.
  destruct (Z.testbit a n), (Z.testbit b n), (Z.testbit m n); done.
Qed.

Lemma crc_byte_bits crc b : byte_ok b -> crc_byte crc b = rounds 8 (Z.lxor crc b).
Proof.
  intros Hb. rewrite <- rounds_8, land_lxor, Z.shiftr_lxor, (byte_land b), (byte_shiftr b), Z.lxor_0_r by done. done.
Qed.

Lemma byte_disjoint b c : byte_ok b -> Z.land b (Z.shiftl c 8) = 0.
Proof.
  intros Hb. apply Z.bits_inj'. intros n Hn. rewrite Z.land_spec, Z.shiftl_spec, Z.bits_0 by lia.
  destruct (Z.ltb_spec n 8); [by rewrite (Z.testbit_neg_r _ (n - 8)), andb_false_r by lia |].
  rewrite <- (byte_land b Hb). change 255 with (Z.ones 8). rewrite Z.land_spec, Z.ones_spec_high, andb_false_r by lia. done.
Qed.

Lemma lor_byte b c : byte_ok b -> Z.lor b (Z.shiftl c 8) = Z.lxor b (Z.shiftl c 8).
Proof. intros Hb. symmetry. by apply Z.lxor_lor, byte_disjoint. Qed.

(** Feeding bytes one after the other is feeding the number they form. *)
Lemma crc_bits_le crc p : Forall byte_ok p -> crc_bits crc p = rounds (8 * length p) (Z.lxor crc (le_val p)).
Proof.
  intros Hp. revert crc. induction Hp as [|b p Hb Hp IH]; intros crc; [by rewrite Z.lxor_0_r |].
  unfold crc_bits in *. cbn [fold_left]. rewrite IH. cbn [le_val length]. rewrite lor_byte by done.
  replace (8 * S (length p))%nat with (8 * length p + 8)%nat by lia. rewrite rounds_add, <- Z.lxor_assoc.
  rewrite (rounds_lxor 8 (Z.lxor crc b)). f_equal. f_equal. symmetry. exact (rounds_shiftl 8 (le_val p)).
Qed.

Lemma rounds_split n c :
  rounds (8 * S n) c = Z.lxor (entry (crc64NVMETables n) (Z.land c 255)) (rounds (8 * n) (Z.shiftr c 8)).
Proof.
  rewrite (low_high c) at 1. rewrite rounds_lxor, entry_table by apply land_255.
  replace (8 * (n + 1))%nat with (8 * S n)%nat by lia. f_equal.
  replace (8 * S n)%nat with (8 * n + 8)%nat by lia. rewrite rounds_add. f_equal. exact (rounds_shiftl 8 (Z.shiftr c 8)).
Qed.

Definition crc_ok (c : Z) : Prop := 0 <= c < 2 ^ 64.

Lemma crc_ok_bits c : crc_ok c <-> 0 <= c /\ forall n, 64 <= n -> Z.testbit c n = false.
Proof.
  unfold crc_ok. split.
  - intros [H0 H]. split; [done |]. intros n Hn. destruct (decide (c = 0)) as [->|]; [apply Z.bits_0 |].
    apply Z.bits_above_log2; [done |]. apply Z.log2_lt_pow2 in H; lia.
  - intros [H0 H]. split; [done |]. destruct (decide (c = 0)) as [->|]; [lia |]. apply Z.log2_lt_pow2; [lia |].
    destruct (Z.ltb_spec (Z.log2 c) 64); [done |]. specialize (H (Z.log2 c) ltac:(lia)). rewrite Z.bit_log2 in H by lia. done.
Qed.

Lemma lxor_ok a b : crc_ok a -> crc_ok b -> crc_ok (Z.lxor a b).
Proof.
  rewrite !crc_ok_bits. intros [Ha1 Ha2] [Hb1 Hb2]. split; [apply Z.lxor_nonneg; tauto |].
  intros n Hn. by rewrite Z.lxor_spec, Ha2, Hb2 by done.
Qed.

Lemma rounds_ok n c : crc_ok c -> crc_ok (rounds n c).
Proof.
  intros Hc. induction n as [|n IH]; [done |]. rewrite Nat.iter_succ, crc_bit_alt. apply lxor_ok.
  - unfold crc_ok in *. rewrite Z.shiftr_div_pow2 by lia. change (2 ^ 1) with 2. div_lia.
  - destruct (Z.odd _); unfold crc_ok, poly; lia.
Qed.

Lemma le_val_ok p : Forall byte_ok p -> (length p <= 8)%nat -> crc_ok (le_val p).
Proof.
  intros Hp Hl. assert (0 <= le_val p < 2 ^ (8 * Z.of_nat (length p))) as H.
  { clear Hl. induction Hp as [|b p Hb Hp IH]; [done |]. cbn [le_val length]. rewrite lor_byte by done.
    rewrite <- Z.add_nocarry_lxor by (by apply byte_disjoint). rewrite Z.shiftl_mul_pow2 by lia.
    replace (8 * Z.of_nat (S (length p))) with (8 * Z.of_nat (length p) + 8) by lia. rewrite Z.pow_add_r by lia.
    unfold byte_ok in Hb. change (2 ^ 8) with 256. nia. }
  unfold crc_ok. assert (2 ^ (8 * Z.of_nat (length p)) <= 2 ^ 64) by (apply Z.pow_le_mono_r; lia). lia.
Qed.

Lemma crc_block_bits crc p :
  crc_ok crc -> Forall byte_ok p -> length p = 8%nat -> crc_block crc p = crc_bits crc p.
Proof.
  intros Hc Hp Hl. rewrite crc_bits_le, Hl by done. unfold crc_block.
  pose proof (lxor_ok crc (le_val p) Hc (le_val_ok p Hp ltac:(lia))) as Hx. revert Hx. generalize (Z.lxor crc (le_val p)). intros x Hx.
  unfold byte_at. change (8 * 8)%nat with (8 * S (S (S (S (S (S (S (S O))))))))%nat. rewrite !rounds_split, !Z.shiftr_shiftr by lia.
  assert (rounds (8 * 0) (Z.shiftr x (8 + 8 + 8 + 8 + 8 + 8 + 8 + 8)) = 0) as ->.
  { unfold crc_ok in Hx. rewrite Z.shiftr_div_pow2 by lia. apply Z.div_small. exact Hx. }
  cbn [Z.mul Z.add Pos.mul Pos.add]. rewrite Z.shiftr_0_r, Z.lxor_0_r, !Z.lxor_assoc. done.
Qed.

Lemma crc_bits_app crc p q : crc_bits crc (p ++ q) = crc_bits (crc_bits crc p) q.
Proof. apply fold_left_app. Qed.

Lemma crc_bits_ok crc p : crc_ok crc -> Forall byte_ok p -> crc_ok (crc_bits crc p).
Proof.
  intros Hc Hp. revert crc Hc. induction Hp as [|b p Hb Hp IH]; intros crc Hc; [done |]. apply IH.
  apply rounds_ok, lxor_ok; [done |]. unfold crc_ok, byte_ok in *. lia.
Qed.

Lemma crc_tail_bits crc p : Forall byte_ok p -> fold_left crc_byte p crc = crc_bits crc p.
Proof.
  intros Hp. revert crc. induction Hp as [|b p Hb Hp IH]; intros crc; [done |]. cbn. rewrite IH, crc_byte_bits by done. done.
Qed.

Lemma crc_write_bits crc p : crc_ok crc -> Forall byte_ok p -> crc_write crc p = crc_bits crc p.
Proof.
  remember (length p) as n eqn:Hn. revert crc p Hn. induction n as [n IH] using lt_wf_ind. intros crc p Hn Hc Hp.
  do 8 (destruct p as [|? p]; [by rewrite <- crc_tail_bits by done |]). cbn [crc_write].
  assert (Forall byte_ok [z; z0; z1; z2; z3; z4; z5; z6]) as Hb by exact (Forall_take _ 8 _ Hp).
  assert (Forall byte_ok p) as Hr by exact (Forall_drop _ 8 _ Hp).
  rewrite crc_block_bits by done. rewrite (IH (length p)) by (done || (cbn in Hn; lia) || by apply crc_bits_ok).
  by rewrite <- crc_bits_app.
Qed.

(** ** Properties *)

(** C35: The table-driven checksum is CRC-64/NVME.  Hashing a body in any
    sequence of [Write] calls, eight bytes at a time through the tables, gives
    the checksum defined bit by bit over the whole body. *)
Theorem crc64_tables (writes : list bytes) :
  Sum64 (fold_left (fun crc p => crc_write crc (code <$> p)) writes newCRC64NVME) =
  Z.lxor (crc_bits newCRC64NVME (code <$> concat writes)) all_ones.
Proof.
  unfold Sum64. f_equal. assert (crc_ok newCRC64NVME) as Hc by (unfold crc_ok, newCRC64NVME, all_ones; lia).
  revert Hc. generalize newCRC64NVME. induction writes as [|p ps IH]; intros crc Hc; [done |].
  assert (Forall byte_ok (code <$> p)) as Hp by (apply Forall_fmap, Forall_true; intros c; apply code_range).
  cbn [fold_left concat]. rewrite crc_write_bits, fmap_app, crc_bits_app by done. apply IH. by apply crc_bits_ok.
Qed.

(** The published check value of CRC-64/NVME. *)
Example crc64_check : Sum64 (crc_write newCRC64NVME (code <$> String.list_ascii_of_string "123456789")) = 0xae8b14860a799888.
Proof. by vm_compute. Qed.
