(* ===== verification/Chunked.v ===== *)
(** * The aws-chunked request body

    Models [chunkedBody] of [internal/s3/request.go]: [Read], [fail],
    [readChunkLine], [parseChunkHeader], [readTrailers] and [isHex], over a
    buffered reader given by the bytes that will arrive.  How many bytes one
    call of the buffered reader hands over is chosen by its environment; a
    request for at least a whole buffer may return its data together with the
    end of the input ([bufio.Reader.Read] passes such reads through). *)

From S2P Require Import Prelude GoStrings.

(** ** Definitions *)

Definition maxChunkHeader : Z := 128.
Definition maxChunkSize : Z := 8 * 2 ^ 20.
Definition maxTrailerBytes : Z := 64 * 2 ^ 10.
Definition bufSize : Z := 64 * 2 ^ 10.

(** The errors of a body: the clean end, the API errors of the code, and the
    raw end of input that [Read] stores when it comes together with data. *)
Inductive chunk_err :=
| EndOfBody | IncompleteBody | BadDelimiter | LengthMismatch | ExceedsLength | LineTooLong
| BadChunkSize | BadChunkHeader | ChunkTooLarge | TrailersTooLong | BadTrailer.

Record chunkedBody := mkChunked {
  cb_r : bytes;
  cb_eager : bool;                       (* the source reports its end with the last bytes *)
  cb_trailer : list (string * string);
  cb_decodedLen : Z;
  cb_total : Z;
  cb_remaining : Z;
  cb_needCRLF : bool;
  cb_done : bool;
  cb_err : option chunk_err
}.

Definition set_r (c : chunkedBody) (r : bytes) : chunkedBody :=
  mkChunked r (cb_eager c) (cb_trailer c) (cb_decodedLen c) (cb_total c) (cb_remaining c) (cb_needCRLF c) (cb_done c) (cb_err c).
Definition set_remaining (c : chunkedBody) (n : Z) : chunkedBody :=
  mkChunked (cb_r c) (cb_eager c) (cb_trailer c) (cb_decodedLen c) (cb_total c) n (cb_needCRLF c) (cb_done c) (cb_err c).
Definition set_crlf (c : chunkedBody) (b : bool) : chunkedBody :=
  mkChunked (cb_r c) (cb_eager c) (cb_trailer c) (cb_decodedLen c) (cb_total c) (cb_remaining c) b (cb_done c) (cb_err c).
Definition set_done (c : chunkedBody) : chunkedBody :=
  mkChunked (cb_r c) (cb_eager c) (cb_trailer c) (cb_decodedLen c) (cb_total c) (cb_remaining c) (cb_needCRLF c) true (cb_err c).
Definition add_trailer (c : chunkedBody) (k v : string) : chunkedBody :=
  mkChunked (cb_r c) (cb_eager c) (cb_trailer c ++ [(k, v)]) (cb_decodedLen c) (cb_total c) (cb_remaining c) (cb_needCRLF c) (cb_done c) (cb_err c).
Definition set_err (c : chunkedBody) (e : option chunk_err) : chunkedBody :=
  mkChunked (cb_r c) (cb_eager c) (cb_trailer c) (cb_decodedLen c) (cb_total c) (cb_remaining c) (cb_needCRLF c) (cb_done c) e.

Definition is_hex_byte (c : ascii) : bool :=
  ((48 <=? code c) && (code c <=? 57)) || ((97 <=? code c) && (code c <=? 102)) || ((65 <=? code c) && (code c <=? 70)).

Definition isHex (s : string) : bool :=
  if bool_decide (s = "") then false else all_bytes is_hex_byte s.

Definition hex_digit (c : ascii) : Z :=
  if code c <=? 57 then code c - 48 else if code c <=? 70 then code c - 55 else code c - 87.

(** [strconv.ParseUint(s, 16, 63)] of a string of hex digits. *)
Fixpoint parse_hex (acc : Z) (s : string) : Z :=
  match s with
  | EmptyString => acc
  | String c s' => parse_hex (16 * acc + hex_digit c) s'
  end.

(** [readChunkLine]: the line without its end, and the rest of the input. *)
Fixpoint read_line (max : Z) (b : bytes) (input : bytes) : result chunk_err (bytes * bytes) :=
  match input with
  | [] => Err IncompleteBody
  | c :: rest =>
      if code c =? 10 then
        Ok (match last b with
            | Some d => if code d =? 13 then take (length b - 1) b else b
            | None => b
            end, rest)
      else if max <=? zlen b then Err LineTooLong
      else read_line max (b ++ [c]) rest
  end.

Definition readChunkLine (max : Z) (input : bytes) : result chunk_err (string * bytes) :=
  let* (line, rest) := read_line max [] input in
  Ok (String.string_of_list_ascii line, rest).

Definition parseChunkHeader (line : string) : result chunk_err Z :=
  let '(sizePart, params) := default (line, "") (Cut line ";"%char) in
  let sizePart := TrimSpace sizePart in
  if bool_decide (sizePart = "") || (16 <? slen sizePart) || negb (isHex sizePart) then Err BadChunkSize
  else if bool_decide (params <> "") &&
    match Cut params "="%char with
    | None => true
    | Some (key, val) =>
        negb (EqualFold (TrimSpace key) "chunk-signature") || negb (slen (TrimSpace val) =? 64) || negb (isHex (TrimSpace val))
    end then Err BadChunkHeader
  else
    let size := parse_hex 0 sizePart in
    if 2 ^ 63 <=? size then Err BadChunkSize
    else if maxChunkSize <? size then Err ChunkTooLarge
    else Ok size.

(** [readTrailers]; [total] counts the lines so far. *)
Fixpoint readTrailers (fuel : nat) (c : chunkedBody) (total : Z) : option (result chunk_err unit * chunkedBody) :=
  match fuel with
  | O => None
  | S fuel' =>
      match readChunkLine (8 * 2 ^ 10) (cb_r c) with
      | Err e => Some (Err e, c)
      | Ok (line, rest) =>
          let c := set_r c rest in
          if bool_decide (line = "") then Some (Ok tt, c)
          else
            let total := total + slen line + 2 in
            if maxTrailerBytes <? total then Some (Err TrailersTooLong, c)
            else match Cut line ":"%char with
                 | Some (k, v) =>
                     if bool_decide (TrimSpace k = "") then Some (Err BadTrailer, c)
                     else readTrailers fuel' (add_trailer c (TrimSpace k) (TrimSpace v)) total
                 | None => Some (Err BadTrailer, c)
                 end
      end
  end.

(** [fail]: the error becomes sticky. *)
Definition fail (c : chunkedBody) (e : chunk_err) : (bytes + chunk_err) * chunkedBody := (inr e, set_err c (Some e)).

(** One call of the buffered reader for at most [want] bytes, of which it hands
    over at most [m]: the bytes and whether the end came with them. *)
Definition buf_read (c : chunkedBody) (want m : Z) : bytes * bytes * bool :=
  let n := Z.min (Z.min want m) (zlen (cb_r c)) in
  let rest := slice (cb_r c) n (zlen (cb_r c)) in
  (slice (cb_r c) 0 n, rest, cb_eager c && (bufSize <=? want) && bool_decide (rest = [])).

(** The loop of [Read] for a buffer of [k] bytes. *)
Fixpoint read_loop (fuel : nat) (c : chunkedBody) (k m : Z) : option ((bytes + chunk_err) * chunkedBody) :=
  match fuel with
  | O => None
  | S fuel' =>
      match cb_err c with
      | Some e => Some (inr e, c)
      | None =>
          if 0 <? cb_remaining c then
            let '(got, rest, ended) := buf_read c (Z.min k (cb_remaining c)) m in
            if 0 <? zlen got then
              let left := cb_remaining c - zlen got in
              Some (inl got,
                mkChunked rest (cb_eager c) (cb_trailer c) (cb_decodedLen c) (cb_total c + zlen got) left
                  ((left =? 0) || cb_needCRLF c) (cb_done c) (if ended then Some EndOfBody else None))
            else Some (fail c IncompleteBody)
          else if cb_needCRLF c then
            match cb_r c with
            | a :: b :: rest =>
                if (code a =? 13) && (code b =? 10) then read_loop fuel' (set_crlf (set_r c rest) false) k m
                else Some (fail (set_r c rest) BadDelimiter)
            | _ => Some (fail (set_r c []) IncompleteBody)
            end
          else if cb_done c then
            if (0 <=? cb_decodedLen c) && negb (cb_total c =? cb_decodedLen c) then Some (fail c LengthMismatch)
            else Some (inr EndOfBody, c)
          else
            match readChunkLine maxChunkHeader (cb_r c) with
            | Err e => Some (fail c e)
            | Ok (line, rest) =>
                let c := set_r c rest in
                match parseChunkHeader line with
                | Err e => Some (fail c e)
                | Ok size =>
                    if size =? 0 then
                      match readTrailers (S (length rest)) (set_done c) 0 with
                      | None => None
                      | Some (Err e, c) => Some (fail c e)
                      | Some (Ok _, c) => read_loop fuel' c k m
                      end
                    else if (0 <=? cb_decodedLen c) && (cb_decodedLen c <? cb_total c + size) then Some (fail c ExceedsLength)
                    else read_loop fuel' (set_remaining c size) k m
                end
            end
      end
  end.

(** [Read]: every round but the last consumes input, except the one that finds
    the body complete. *)
Definition chunked_read (c : chunkedBody) (k m : Z) : option ((bytes + chunk_err) * chunkedBody) :=
  if k =? 0 then Some (inl [], c) else read_loop (length (cb_r c) + 2) c k m.

(** A client that reads until an error; each read is given its buffer size and
    the number of bytes the buffered reader has at hand. *)
Fixpoint chunked_read_all (c : chunkedBody) (reads : list (Z * Z)) : option (bytes * option chunk_err * chunkedBody) :=
  match reads with
  | [] => Some ([], None, c)
  | (k, m) :: reads' =>
      match chunked_read c k m with
      | None => None
      | Some (inr e, c) => Some ([], Some e, c)
      | Some (inl got, c) =>
          '(rest, e, c) ← chunked_read_all c reads';
          Some (got ++ rest, e, c)
      end
  end.

(** The body [prepareBody] installs. *)
Definition new_chunked (input : bytes) (eager : bool) (decodedLen : Z) : chunkedBody :=
  mkChunked input eager [] decodedLen 0 0 false false None.

(** ** Specification: the aws-chunked encoding *)

Definition hex_of (d : Z) : ascii := chr (if d <? 10 then 48 + d else 87 + d).

Fixpoint hex_digits (fuel : nat) (n : Z) (acc : string) : string :=
  match fuel with
  | O => acc
  | S f => let acc := String (hex_of (n mod 16)) acc in if n / 16 =? 0 then acc else hex_digits f (n / 16) acc
  end.

Definition hex (n : Z) : string := hex_digits 16 n "".

Definition crlf : bytes := [chr 13; chr 10].
Definition bytes_of_string (s : string) : bytes := String.list_ascii_of_string s.

(** A chunk extension: nothing or a signature. *)
Definition extension (sig : option string) : string :=
  match sig with Some s => ";chunk-signature=" +:+ s | None => "" end.

Definition encode_header (size : Z) (sig : option string) : bytes :=
  bytes_of_string (hex size +:+ extension sig) ++ crlf.

Definition encode_chunk (ch : bytes * option string) : bytes :=
  encode_header (zlen (fst ch)) (snd ch) ++ fst ch ++ crlf.

Definition encode_trailer (t : string * string) : bytes :=
  bytes_of_string (fst t +:+ ":" +:+ snd t) ++ crlf.

Definition encode_body (chunks : list (bytes * option string)) (final : option string) (trailers : list (string * string)) : bytes :=
  concat (encode_chunk <$> chunks) ++ encode_header 0 final ++ concat (encode_trailer <$> trailers) ++ crlf.

Definition sig_ok (sig : option string) : Prop :=
  match sig with Some s => slen s = 64 /\ all_bytes is_hex_byte s = true | None => True end.

Definition chunk_ok (ch : bytes * option string) : Prop := 1 <= zlen (fst ch) <= maxChunkSize /\ sig_ok (snd ch).

(** Names and values of printable characters without spaces or colons. *)
Definition token_byte (c : ascii) : bool := (33 <=? code c) && (code c <=? 126) && negb (code c =? 58).

Definition trailer_ok (t : string * string) : Prop :=
  fst t <> "" /\ all_bytes token_byte (fst t) = true /\ all_bytes token_byte (snd t) = true.

Definition trailer_size (t : string * string) : Z := slen (fst t) + slen (snd t) + 3.

(** ** Lemmas *)

Definition no_newline (l : bytes) : Prop := Forall (fun c => code c <> 10) l.

Lemma read_line_crlf max b l rest :
  no_newline l -> zlen b + zlen l + 1 <= max -> read_line max b (l ++ crlf ++ rest) = Ok (b ++ l, rest).
Proof.
  intros Hl. revert b. induction Hl as [|c l Hc Hl IH]; intros b Hm.
  - rewrite app_nil_r. change (zlen []) with 0 in Hm. unfold crlf. cbn [app read_line].
    change (code (chr 13) =? 10) with false. cbn iota. destruct (max <=? zlen b) eqn:E; [lia |]. cbn [read_line].
    change (code (chr 10) =? 10) with true. cbn iota. rewrite last_snoc. change (code (chr 13) =? 13) with true. cbn iota.
    rewrite length_app. cbn [length]. replace (length b + 1 - 1)%nat with (length b) by lia. by rewrite take_app_length.
  - cbn [app read_line]. rewrite zlen_cons in Hm. pose proof (zlen_nonneg l). destruct (code c =? 10) eqn:E; [lia |].
    destruct (max <=? zlen b) eqn:E2; [lia |]. rewrite IH by (rewrite zlen_app; change (zlen [c]) with 1; lia).
    by rewrite <- app_assoc.
Qed.

Lemma readChunkLine_crlf max s rest :
  no_newline (bytes_of_string s) -> slen s + 1 <= max ->
  readChunkLine max (bytes_of_string s ++ crlf ++ rest) = Ok (s, rest).
Proof.
  intros Hs Hm. unfold readChunkLine. rewrite read_line_crlf; [| done |].
  - cbn [rbind app]. unfold bytes_of_string. by rewrite String.string_of_list_ascii_of_string.
  - change (zlen []) with 0. unfold zlen, bytes_of_string, slen in *.
    assert (length (String.list_ascii_of_string s) = String.length s) as -> by (clear; induction s; cbn; auto). lia.
Qed.

Lemma all_bytes_no_newline f s :
  (forall c, f c = true -> code c <> 10) -> all_bytes f s = true -> no_newline (bytes_of_string s).
Proof.
  intros Hf. induction s as [|c s IH]; cbn; [constructor |]. rewrite andb_true_iff. intros [Hc Hs].
  constructor; [by apply Hf | by apply IH].
Qed.

Lemma bytes_of_string_app s t : bytes_of_string (s +:+ t) = bytes_of_string s ++ bytes_of_string t.
Proof. apply list_ascii_app. Qed.

(** *** Chunk headers *)

Lemma hex_of_spec d : 0 <= d < 16 -> is_hex_byte (hex_of d) = true /\ hex_digit (hex_of d) = d.
Proof.
  intros Hd. assert (forallb (fun d => is_hex_byte (hex_of d) && (hex_digit (hex_of d) =? d)) (seqZ 0 16) = true) as H by (by vm_compute).
  rewrite forallb_forall in H. specialize (H d). rewrite andb_true_iff, Z.eqb_eq in H. apply H, list_elem_of_In, elem_of_seqZ. lia.
Qed.

Lemma hex_digits_spec fuel n acc :
  0 <= n < 16 ^ Z.of_nat fuel -> all_bytes is_hex_byte acc = true ->
  all_bytes is_hex_byte (hex_digits fuel n acc) = true /\
  slen (hex_digits fuel n acc) <= Z.of_nat fuel + slen acc /\
  (fuel <> O -> hex_digits fuel n acc <> "") /\
  (fuel <> O -> forall a, exists b, parse_hex a (hex_digits fuel n acc) = parse_hex (b * a + n) acc).
Proof.
  revert n acc. induction fuel as [|fuel IH]; intros n acc Hn Ha; [cbn; repeat split; try done; lia |].
  destruct (hex_of_spec (n mod 16)) as [Hh Hd]; [div_lia |]. cbn [hex_digits].
  assert (all_bytes is_hex_byte (String (hex_of (n mod 16)) acc) = true) as Ha' by (cbn; by rewrite Hh, Ha).
  assert (slen (String (hex_of (n mod 16)) acc) = 1 + slen acc) as Hl by (unfold slen; cbn [String.length]; lia).
  destruct (n / 16 =? 0) eqn:E.
  - split; [done |]. split; [lia |]. split; [done |]. intros _ a. exists 16. cbn [parse_hex]. rewrite Hd. f_equal. div_lia.
  - replace (Z.of_nat (S fuel)) with (Z.of_nat fuel + 1) in * by lia. rewrite Z.pow_add_r in Hn by lia. change (16 ^ 1) with 16 in Hn.
    assert (0 <= n / 16 < 16 ^ Z.of_nat fuel) as Hn' by div_lia.
    assert (fuel <> O) as Hf by (intros ->; cbn in Hn'; lia).
    destruct (IH (n / 16) (String (hex_of (n mod 16)) acc) Hn' Ha') as (H1 & H2 & H3 & H4).
    split; [done |]. split; [lia |]. split; [auto |]. intros _ a. destruct (H4 Hf a) as [b Hb].
    exists (16 * b). rewrite Hb. cbn [parse_hex]. rewrite Hd. f_equal. div_lia.
Qed.

Lemma hex_spec n : 0 <= n <= maxChunkSize ->
  all_bytes is_hex_byte (hex n) = true /\ slen (hex n) <= 16 /\ hex n <> "" /\ parse_hex 0 (hex n) = n.
Proof.
  intros Hn. unfold hex. destruct (hex_digits_spec 16 n "") as (H1 & H2 & H3 & H4);
    [unfold maxChunkSize in Hn; change (16 ^ Z.of_nat 16) with (2 ^ 64); lia | done |].
  split; [done |]. split; [exact H2 |]. split; [by apply H3 |]. destruct (H4 ltac:(done) 0) as [b ->]. cbn. lia.
Qed.

Lemma hex_plain c : is_hex_byte c = true -> plain_byte c = true /\ code c <> 10 /\ c <> ";"%char.
Proof.
  unfold is_hex_byte, plain_byte, is_space_byte. intros H. split; [lia |]. split; [lia |]. intros ->. by vm_compute in H.
Qed.

Lemma Cut_absent sep a : all_bytes (fun c => negb (bool_decide (c = sep))) a = true -> Cut a sep = None.
Proof.
  induction a as [|c a IH]; [done |]. cbn [all_bytes Cut]. intros [H1%negb_true_iff%bool_decide_eq_false H2]%andb_true_iff.
  rewrite decide_False, IH by done. done.
Qed.

Lemma isHex_bytes s : s <> "" -> all_bytes is_hex_byte s = true -> isHex s = true.
Proof. intros Hs Ha. unfold isHex. by rewrite bool_decide_false. Qed.

Lemma hex_trim s : all_bytes is_hex_byte s = true -> TrimSpace s = s.
Proof. intros H. apply TrimSpace_plain. eapply all_bytes_impl; [| exact H]. intros c Hc. by apply hex_plain. Qed.

Lemma parseChunkHeader_hex n sig :
  0 <= n <= maxChunkSize -> sig_ok sig -> parseChunkHeader (hex n +:+ extension sig) = Ok n.
Proof.
  intros Hn Hsig. destruct (hex_spec n Hn) as (Ha & Hl & Hne & Hp). unfold parseChunkHeader.
  assert (all_bytes (fun c => negb (bool_decide (c = ";"%char))) (hex n) = true) as Hsemi.
  { eapply all_bytes_impl; [| exact Ha]. intros c Hc. rewrite bool_decide_false by (by apply hex_plain). done. }
  assert (2 ^ 63 <=? n = false /\ maxChunkSize <? n = false) as [Hb1 Hb2] by (unfold maxChunkSize in *; lia).
  assert (bool_decide (hex n = "") || (16 <? slen (hex n)) || negb (isHex (hex n)) = false) as Hok.
  { rewrite bool_decide_false, isHex_bytes by done. cbn [orb negb]. rewrite orb_false_r. lia. }
  destruct sig as [s|]; cbn [extension].
  - change (";chunk-signature=" +:+ s) with (String ";" ("chunk-signature=" +:+ s)). rewrite Cut_app by done. cbn [from_option id].
    rewrite hex_trim by done. rewrite Hok. destruct Hsig as [Hs1 Hs2].
    change ("chunk-signature=" +:+ s) with ("chunk-signature" +:+ String "=" s). rewrite Cut_app by (by vm_compute).
    rewrite (hex_trim s Hs2), Hs1, isHex_bytes by (done || (intros ->; done)).
    assert (EqualFold (TrimSpace "chunk-signature") "chunk-signature" = true) as -> by (by vm_compute).
    rewrite andb_false_r, Hp, Hb1, Hb2. done.
  - rewrite sapp_nil_r, Cut_absent by done. cbn [from_option id]. rewrite hex_trim by done. rewrite Hok, bool_decide_false by auto.
    cbn [andb]. by rewrite Hp, Hb1, Hb2.
Qed.

Lemma header_line n sig : 0 <= n <= maxChunkSize -> sig_ok sig ->
  no_newline (bytes_of_string (hex n +:+ extension sig)) /\ slen (hex n +:+ extension sig) + 1 <= maxChunkHeader.
Proof.
  intros Hn Hs. destruct (hex_spec n Hn) as (Ha & Hl & _). rewrite bytes_of_string_app, slen_app. split.
  - apply Forall_app. split; [eapply all_bytes_no_newline; [| exact Ha]; intros c Hc; by apply hex_plain |].
    destruct sig as [s|]; cbn [extension]; [| constructor]. rewrite bytes_of_string_app. apply Forall_app.
    split; [vm_compute; repeat constructor; discriminate | eapply all_bytes_no_newline; [| apply Hs]; intros c Hc; by apply hex_plain].
  - unfold maxChunkHeader. destruct sig as [s|]; cbn [extension]; [| change (slen "") with 0; lia].
    destruct Hs as [Hs _]. rewrite slen_app, Hs. change (slen ";chunk-signature=") with 17. lia.
Qed.

(** *** Trailers *)

Lemma token_plain c : token_byte c = true -> plain_byte c = true /\ code c <> 10 /\ c <> ":"%char.
Proof.
  unfold token_byte, plain_byte, is_space_byte. intros H. split; [lia |]. split; [lia |]. intros ->. by vm_compute in H.
Qed.

Lemma readTrailers_encoded fuel c trailers total tail :
  Forall trailer_ok trailers -> cb_r c = concat (encode_trailer <$> trailers) ++ crlf ++ tail ->
  (length trailers < fuel)%nat -> 0 <= total -> Forall (fun t => trailer_size t <= 8 * 2 ^ 10) trailers ->
  total + foldr Z.add 0 (trailer_size <$> trailers) <= maxTrailerBytes ->
  readTrailers fuel c total =
  Some (Ok tt, mkChunked tail (cb_eager c) (cb_trailer c ++ trailers) (cb_decodedLen c) (cb_total c) (cb_remaining c)
    (cb_needCRLF c) (cb_done c) (cb_err c)).
Proof.
  intros Ht. revert fuel c total. induction Ht as [|[k v] ts (Hk1 & Hk2 & Hv) Hts IH]; intros fuel c total Hr Hf H0 Hlen Hmax;
    (destruct fuel as [|fuel]; [cbn in Hf; lia |]); cbn [readTrailers].
  - rewrite Hr. cbn [fmap list_fmap concat app].
    rewrite (readChunkLine_crlf _ "" tail) by (constructor || done). by rewrite app_nil_r.
  - cbn [fst snd] in *. apply Forall_cons_1 in Hlen as [Hlen1 Hlen]. change (total + (trailer_size (k, v) + foldr Z.add 0 (trailer_size <$> ts)) <= maxTrailerBytes) in Hmax.
    assert (slen (k +:+ ":" +:+ v) + 2 = trailer_size (k, v)) as Hsz by (unfold trailer_size; rewrite !slen_app; change (slen ":") with 1; cbn; lia).
    assert (0 <= foldr Z.add 0 (trailer_size <$> ts)) as Hnn.
    { clear. induction ts as [|t ts IH]; cbn; [lia |]. unfold trailer_size at 1, slen. lia. }
    rewrite Hr. cbn [fmap list_fmap concat]. unfold encode_trailer at 1. cbn [fst snd]. rewrite <- !app_assoc.
    rewrite readChunkLine_crlf; [| | lia].
    2:{ rewrite !bytes_of_string_app. repeat (apply Forall_app; split); try (vm_compute; repeat constructor; discriminate);
          (eapply all_bytes_no_newline; [| eassumption]; intros c' Hc; by apply token_plain). }
    rewrite bool_decide_false by (intros E; apply (f_equal slen) in E; rewrite slen_app in E; unfold slen in E; destruct k; [done | cbn in E; lia]).
    destruct (maxTrailerBytes <? total + slen (k +:+ ":" +:+ v) + 2) eqn:E; [lia |].
    change (":" +:+ v) with (String ":" v) in *. rewrite Cut_app.
    2:{ eapply all_bytes_impl; [| exact Hk2]. intros c' Hc. rewrite bool_decide_false by (by apply token_plain). done. }
    rewrite !TrimSpace_plain by (eapply all_bytes_impl; [| eassumption]; intros c' Hc; by apply token_plain).
    rewrite bool_decide_false by done. rewrite IH; [| done | cbn in Hf; lia | unfold slen; lia | done | lia].
    cbn. by rewrite <- app_assoc.
Qed.

(** *** Reading an encoded body *)

Section Encoded.
Context (final : option string) (trailers : list (string * string)) (tail : bytes).
Context (Hfinal : sig_ok final) (Htrailers : Forall trailer_ok trailers)
  (Hlen : Forall (fun t => trailer_size t <= 8 * 2 ^ 10) trailers)
  (Hmax : foldr Z.add 0 (trailer_size <$> trailers) <= maxTrailerBytes).

Definition wire (chunks : list (bytes * option string)) : bytes := encode_body chunks final trailers ++ tail.

(** The states of a reader that follows an encoded body with [left] still to
    be delivered: inside a chunk, between chunks, and after the last. *)
Inductive follows (c : chunkedBody) : bytes -> Prop :=
| in_chunk data chunks :
    0 < cb_remaining c -> cb_remaining c = zlen data -> cb_needCRLF c = false -> cb_done c = false -> cb_trailer c = [] ->
    Forall chunk_ok chunks -> cb_r c = data ++ crlf ++ wire chunks -> follows c (data ++ concat (fst <$> chunks))
| between chunks :
    cb_remaining c = 0 -> cb_done c = false -> cb_trailer c = [] -> Forall chunk_ok chunks ->
    cb_r c = (if cb_needCRLF c then crlf else []) ++ wire chunks -> follows c (concat (fst <$> chunks))
| finished :
    cb_remaining c = 0 -> cb_needCRLF c = false -> cb_done c = true -> cb_trailer c = trailers -> follows c [].

Definition on_track (c : chunkedBody) (left : bytes) : Prop :=
  cb_err c = None /\ (cb_decodedLen c < 0 \/ cb_total c + zlen left = cb_decodedLen c) /\ follows c left.

(** What a read returns: the next bytes of the body, or its end with the
    trailers. *)
Definition track_post (k : Z) (left : bytes) (res : (bytes + chunk_err) * chunkedBody) : Prop :=
  match res with
  | (inl got, c') => got <> [] /\ zlen got <= k /\ exists left', left = got ++ left' /\ on_track c' left'
  | (inr e, c') => left = [] /\ e = EndOfBody /\ cb_trailer c' = trailers
  end.

Lemma read_in_chunk fuel c k m data chunks :
  1 <= k -> 1 <= m -> on_track c (data ++ concat (fst <$> chunks)) ->
  0 < cb_remaining c -> cb_remaining c = zlen data -> cb_needCRLF c = false -> cb_done c = false -> cb_trailer c = [] ->
  Forall chunk_ok chunks -> cb_r c = data ++ crlf ++ wire chunks ->
  exists res, read_loop (S fuel) c k m = Some res /\ track_post k (data ++ concat (fst <$> chunks)) res.
Proof.
  intros Hk Hm (He & Hd & _) Hr Hrd Hn Hdn Htr Hch Hin. cbn [read_loop]. rewrite He.
  destruct (0 <? cb_remaining c) eqn:E; [| lia]. unfold buf_read.
  set (n := Z.min (Z.min (Z.min k (cb_remaining c)) m) (zlen (cb_r c))).
  assert (zlen (cb_r c) = zlen data + zlen (crlf ++ wire chunks)) as Hlr by (by rewrite Hin, zlen_app).
  pose proof (zlen_nonneg (crlf ++ wire chunks)) as Hw.
  assert (1 <= n <= zlen data) as Hn1 by lia.
  assert (slice (cb_r c) 0 n = slice data 0 n) as -> by (rewrite Hin; apply slice_app_l; lia).
  assert (slice (cb_r c) n (zlen (cb_r c)) = slice data n (zlen data) ++ crlf ++ wire chunks) as ->.
  { rewrite slice_to_end, Hin, drop_app_le by (unfold zlen in *; lia). f_equal. by rewrite slice_to_end by lia. }
  assert (zlen (slice data 0 n) = n) as Hz by (rewrite zlen_slice by lia; lia). rewrite Hz.
  destruct (0 <? n) eqn:E0; [| lia]. rewrite (bool_decide_false (_ = [])) by (by destruct (slice data n (zlen data))). rewrite andb_false_r.
  eexists. split; [reflexivity |]. cbn [track_post]. split; [intros Ez; rewrite Ez in Hz; change (zlen []) with 0 in Hz; lia |]. split; [lia |].
  exists (slice data n (zlen data) ++ concat (fst <$> chunks)). split.
  { rewrite app_assoc, slice_cat by lia. by rewrite slice_full by lia. }
  split; [done |]. split.
  { cbn. rewrite zlen_app in *. rewrite zlen_slice by lia. lia. }
  assert (zlen (slice data n (zlen data)) = zlen data - n) as Hz2 by (rewrite zlen_slice by lia; lia).
  destruct (decide (n = zlen data)) as [En|En].
  - assert (slice data n (zlen data) = []) as -> by (by rewrite En, slice_nil_ge by lia). cbn [app].
    apply between; cbn; try done; [lia |]. rewrite Hn, orb_false_r. replace (cb_remaining c - n =? 0) with true by lia. done.
  - apply in_chunk; cbn; try done; [lia | lia |]. rewrite Hn, orb_false_r. lia.
Qed.

Lemma wire_cons ch chunks :
  wire (ch :: chunks) = encode_header (zlen (fst ch)) (snd ch) ++ fst ch ++ crlf ++ wire chunks.
Proof. unfold wire, encode_body. cbn [fmap list_fmap concat]. unfold encode_chunk at 1. by rewrite <- !app_assoc. Qed.

Lemma read_header fuel c k m chunks :
  1 <= k -> 1 <= m -> on_track c (concat (fst <$> chunks)) ->
  cb_remaining c = 0 -> cb_needCRLF c = false -> cb_done c = false -> cb_trailer c = [] ->
  Forall chunk_ok chunks -> cb_r c = wire chunks ->
  exists res, read_loop (S (S fuel)) c k m = Some res /\ track_post k (concat (fst <$> chunks)) res.
Proof.
  intros Hk Hm (He & Hd & _) Hr Hn Hdn Htr Hch Hin. remember (S fuel) as fuel1 eqn:Ef. cbn [read_loop].
  rewrite He, Hr, Hn, Hdn, Hin. cbn [Z.ltb Z.compare]. destruct Hch as [|[data sig] chunks [Hdata Hsig] Hch]; cbn [fst snd] in *.
  - destruct (header_line 0 final) as [Hnl Hsl]; [unfold maxChunkSize; lia | done |].
    unfold wire, encode_body. cbn [fmap list_fmap concat app]. unfold encode_header. rewrite <- !app_assoc.
    rewrite readChunkLine_crlf by done. rewrite parseChunkHeader_hex by (done || (unfold maxChunkSize; lia)). cbn [Z.eqb].
    rewrite (readTrailers_encoded _ _ trailers 0 tail); [| done | done | | lia | done | lia].
    2:{ rewrite !length_app. assert (length trailers <= length (concat (encode_trailer <$> trailers)))%nat; [| lia].
        clear. induction trailers as [|t ts IH]; cbn; [lia |]. rewrite length_app. unfold encode_trailer at 1. rewrite length_app. cbn. lia. }
    subst fuel1. cbn [read_loop cb_err cb_remaining cb_needCRLF cb_done set_done set_r]. rewrite He, Hr, Hn. cbn [Z.ltb Z.compare cb_decodedLen cb_total set_done set_r].
    change (zlen (concat (fst <$> []))) with 0 in Hd.
    replace ((0 <=? cb_decodedLen c) && negb (cb_total c =? cb_decodedLen c)) with false by lia.
    eexists. split; [reflexivity |]. cbn. by rewrite Htr.
  - rewrite wire_cons. cbn [fst snd]. destruct (header_line (zlen data) sig) as [Hnl Hsl]; [lia | done |].
    unfold encode_header. rewrite <- !app_assoc. rewrite readChunkLine_crlf by done. rewrite parseChunkHeader_hex by (done || lia).
    destruct (zlen data =? 0) eqn:Ez; [lia |]. cbn [cb_decodedLen cb_total set_r].
    cbn [fmap list_fmap concat fst] in Hd. rewrite zlen_app in Hd. pose proof (zlen_nonneg (concat (fst <$> chunks))).
    unfold fmap in *.
    replace ((0 <=? cb_decodedLen c) && (cb_decodedLen c <? cb_total c + zlen data)) with false by lia.
    subst fuel1. cbn [fmap list_fmap concat fst]. apply read_in_chunk; cbn; try done; [| lia].
    split; [done |]. split; [cbn; rewrite zlen_app; unfold fmap in *; lia |]. apply in_chunk; cbn; try done. lia.
Qed.

Lemma chunked_read_track c k m left :
  1 <= k -> 1 <= m -> on_track c left -> exists res, chunked_read c k m = Some res /\ track_post k left res.
Proof.
  intros Hk Hm Ht. unfold chunked_read. destruct (k =? 0) eqn:Ek; [lia |]. pose proof Ht as (He & Hd & Hf).
  destruct Hf as [data chunks Hr Hrd Hn Hdn Htr Hch Hin|chunks Hr Hdn Htr Hch Hin|Hr Hn Hdn Htr].
  - replace (length (cb_r c) + 2)%nat with (S (length (cb_r c) + 1)) by lia. by apply read_in_chunk.
  - destruct (cb_needCRLF c) eqn:En.
    + rewrite Hin, length_app. change (length crlf) with 2%nat. cbn [Nat.add read_loop]. rewrite He, Hr, En. cbn [Z.ltb Z.compare].
      rewrite Hin. cbn [app crlf]. change ((code (chr 13) =? 13) && (code (chr 10) =? 10)) with true. cbn iota.
      replace (length (wire chunks) + 2)%nat with (S (S (length (wire chunks)))) by lia.
      apply read_header; cbn; try done. split; [done |]. split; [done |]. by apply between.
    + replace (length (cb_r c) + 2)%nat with (S (S (length (cb_r c)))) by lia. by apply read_header.
  - replace (length (cb_r c) + 2)%nat with (S (length (cb_r c) + 1)) by lia. cbn [read_loop]. rewrite He, Hr, Hn, Hdn. cbn [Z.ltb Z.compare].
    change (zlen []) with 0 in Hd.
    replace ((0 <=? cb_decodedLen c) && negb (cb_total c =? cb_decodedLen c)) with false by lia.
    eexists. split; [reflexivity |]. done.
Qed.

Lemma chunked_read_all_track c reads left :
  Forall (fun r => 1 <= fst r /\ 1 <= snd r) reads -> on_track c left ->
  exists got e c', chunked_read_all c reads = Some (got, e, c') /\
    match e with
    | None => (exists left', left = got ++ left') /\ (length reads <= length got)%nat
    | Some e => got = left /\ e = EndOfBody /\ cb_trailer c' = trailers
    end.
Proof.
  intros Hreads. revert c left. induction Hreads as [|[k m] reads [Hk Hm] _ IH]; intros c left Ht; cbn [chunked_read_all].
  { eexists _, _, _. split; [reflexivity |]. cbn. split; [by exists left | lia]. }
  destruct (chunked_read_track c k m left Hk Hm Ht) as ([[got|e] c1] & -> & Hpost).
  - destruct Hpost as (Hne & _ & left' & -> & Ht'). destruct (IH c1 left' Ht') as (rest & e & c2 & -> & Hrest).
    cbn [mbind option_bind]. eexists _, _, _. split; [reflexivity |]. destruct e as [e|].
    + destruct Hrest as (-> & -> & ->). done.
    + destruct Hrest as ((l2 & ->) & Hl). split; [exists l2; by rewrite app_assoc |]. rewrite length_app. destruct got; [done |]. cbn. lia.
  - destruct Hpost as (-> & -> & Htr). eexists _, _, _. split; [reflexivity |]. done.
Qed.
End Encoded.

(** *** Arbitrary input *)

Lemma readChunkLine_shrinks max input :
  match readChunkLine max input with
  | Ok (_, rest) => (length rest < length input)%nat
  | Err e => e <> EndOfBody
  end.
Proof.
  unfold readChunkLine. assert (forall b, match read_line max b input with
    | Ok (_, rest) => (length rest < length input)%nat | Err e => e <> EndOfBody end) as H.
  { induction input as [|c input IH]; intros b; cbn [read_line]; [done |].
    destruct (code c =? 10); [cbn; lia |]. destruct (max <=? zlen b); [done |].
    specialize (IH (b ++ [c])). destruct (read_line max (b ++ [c]) input) as [[l r]|e]; [cbn; lia | done]. }
  specialize (H []). by destruct (read_line max [] input) as [[l r]|e].
Qed.

Lemma hex_digit_nonneg c : is_hex_byte c = true -> 0 <= hex_digit c.
Proof. unfold is_hex_byte, hex_digit. intros H. repeat case_match; lia. Qed.

Lemma parse_hex_nonneg acc s : 0 <= acc -> all_bytes is_hex_byte s = true -> 0 <= parse_hex acc s.
Proof.
  revert acc. induction s as [|c s IH]; intros acc Ha H; cbn; [done |]. apply andb_true_iff in H as [Hc Hs].
  apply IH; [| done]. apply hex_digit_nonneg in Hc. lia.
Qed.

Lemma parseChunkHeader_bounds line :
  match parseChunkHeader line with Ok n => 0 <= n <= maxChunkSize | Err e => e <> EndOfBody end.
Proof.
  unfold parseChunkHeader. destruct (default (line, "") (Cut line ";"%char)) as [sizePart params].
  destruct (bool_decide (TrimSpace sizePart = "") || _ || _) eqn:E; [done |].
  destruct (bool_decide (params <> "") && _); [done |]. destruct (2 ^ 63 <=? _); [done |].
  destruct (maxChunkSize <? _) eqn:E2; [done |]. apply orb_false_iff in E as [_ E%negb_false_iff].
  unfold isHex in E. case_bool_decide; [done |]. pose proof (parse_hex_nonneg 0 _ ltac:(lia) E). lia.
Qed.

(** The fields [readTrailers] leaves alone. *)
Definition same_counts (c c' : chunkedBody) : Prop :=
  cb_total c' = cb_total c /\ cb_remaining c' = cb_remaining c /\ cb_decodedLen c' = cb_decodedLen c /\
  cb_eager c' = cb_eager c /\ cb_needCRLF c' = cb_needCRLF c /\ cb_done c' = cb_done c /\ cb_err c' = cb_err c.

Lemma readTrailers_total fuel c total :
  (length (cb_r c) < fuel)%nat ->
  exists res c', readTrailers fuel c total = Some (res, c') /\ same_counts c c' /\ (length (cb_r c') <= length (cb_r c))%nat /\
    res <> Err EndOfBody.
Proof.
  revert c total. induction fuel as [|fuel IH]; intros c total Hf; [lia |]. cbn [readTrailers].
  pose proof (readChunkLine_shrinks (8 * 2 ^ 10) (cb_r c)) as Hs.
  destruct (readChunkLine (8 * 2 ^ 10) (cb_r c)) as [[line rest]|e].
  2:{ eexists _, _. split; [reflexivity |]. split; [done |]. split; [done |]. congruence. }
  case_bool_decide; [eexists _, _; split; [reflexivity |]; cbn; repeat split; try done; lia |].
  destruct (maxTrailerBytes <? _); [eexists _, _; split; [reflexivity |]; cbn; repeat split; try done; lia |].
  destruct (Cut line ":"%char) as [[k v]|]; [| eexists _, _; split; [reflexivity |]; cbn; repeat split; try done; lia].
  case_bool_decide; [eexists _, _; split; [reflexivity |]; cbn; repeat split; try done; lia |].
  destruct (IH (add_trailer (set_r c rest) (TrimSpace k) (TrimSpace v)) (total + slen line + 2)) as (res & c' & E & Hc & Hl & Hr); [cbn; lia |].
  eexists _, _. split; [exact E |]. split; [exact Hc |]. split; [cbn in Hl; lia | done].
Qed.

(** The counters never run past the announced length, and the end of the body
    is only remembered when the source forced it. *)
Definition counts_ok (c : chunkedBody) : Prop :=
  0 <= cb_total c /\ 0 <= cb_remaining c /\ (0 <= cb_decodedLen c -> cb_total c + cb_remaining c <= cb_decodedLen c) /\
  (cb_eager c = false -> cb_err c <> Some EndOfBody).

Definition counts_post (k : Z) (c : chunkedBody) (res : (bytes + chunk_err) * chunkedBody) : Prop :=
  let c' := snd res in
  counts_ok c' /\ cb_decodedLen c' = cb_decodedLen c /\ cb_eager c' = cb_eager c /\
  match fst res with
  | inl got => cb_total c' = cb_total c + zlen got /\ got <> [] /\ zlen got <= k
  | inr e => cb_total c' = cb_total c /\ (e = EndOfBody -> cb_eager c = false -> 0 <= cb_decodedLen c -> cb_total c = cb_decodedLen c)
  end.

Lemma fail_counts k c e c0 :
  counts_ok c -> e <> EndOfBody -> cb_total c = cb_total c0 -> cb_decodedLen c = cb_decodedLen c0 -> cb_eager c = cb_eager c0 ->
  counts_post k c0 (fail c e).
Proof.
  intros (H1 & H2 & H3 & H4) He E1 E2 E3. unfold counts_post, fail, counts_ok. cbn. repeat split; try done; congruence.
Qed.

Lemma read_data_counts c k m :
  1 <= k -> 1 <= m -> counts_ok c -> cb_err c = None -> 0 < cb_remaining c ->
  exists res, read_loop 1 c k m = Some res /\ counts_post k c res.
Proof.
  intros Hk Hm Hc He Hr. cbn [read_loop]. rewrite He. destruct (0 <? cb_remaining c) eqn:E; [| lia]. unfold buf_read.
  set (n := Z.min (Z.min (Z.min k (cb_remaining c)) m) (zlen (cb_r c))). pose proof (zlen_nonneg (cb_r c)).
  assert (zlen (slice (cb_r c) 0 n) = n) as Hz by (rewrite zlen_slice by lia; lia). rewrite Hz.
  destruct (0 <? n) eqn:En; [| eexists; split; [reflexivity |]; by apply fail_counts].
  eexists. split; [reflexivity |]. destruct Hc as (H1 & H2 & H3 & H4). unfold counts_post, counts_ok. cbn [fst snd cb_total cb_remaining cb_decodedLen cb_eager cb_err].
  rewrite Hz. repeat split; try done; try lia.
  - intros ->. cbn. done.
  - intros Ez. rewrite Ez in Hz. change (zlen []) with 0 in Hz. lia.
Qed.

Lemma read_loop_data fuel c k m :
  cb_err c = None -> 0 < cb_remaining c -> read_loop (S fuel) c k m = read_loop 1 c k m.
Proof. intros He Hr. cbn [read_loop]. rewrite He. destruct (0 <? cb_remaining c) eqn:E; [done | lia]. Qed.

Lemma read_loop_counts fuel c k m :
  1 <= k -> 1 <= m -> counts_ok c -> (length (cb_r c) + (if cb_done c then 1 else 2) <= fuel)%nat ->
  exists res, read_loop fuel c k m = Some res /\ counts_post k c res.
Proof.
  intros Hk Hm. revert c. induction fuel as [|fuel IH]; intros c Hc Hf; [destruct (cb_done c); lia |].
  destruct (cb_err c) as [e|] eqn:He.
  { cbn [read_loop]. rewrite He. eexists. split; [reflexivity |]. unfold counts_post. cbn. repeat split; try apply Hc.
    intros -> Hea _. destruct Hc as (_ & _ & _ & H4). by destruct (H4 Hea). }
  destruct (decide (0 < cb_remaining c)) as [Hr|Hr]; [rewrite read_loop_data by done; by apply read_data_counts |].
  assert (cb_remaining c = 0) as Hr0 by (destruct Hc; lia). cbn [read_loop]. rewrite He, Hr0. cbn [Z.ltb Z.compare].
  destruct (cb_needCRLF c).
  { destruct (cb_r c) as [|a [|b rest]] eqn:Er; try (eexists; split; [reflexivity |]; by apply fail_counts).
    destruct ((code a =? 13) && (code b =? 10)); [| eexists; split; [reflexivity |]; by apply fail_counts].
    destruct (IH (set_crlf (set_r c rest) false)) as (res & E & Hp); [done | cbn in *; destruct (cb_done c); lia |]. by exists res. }
  destruct (cb_done c) eqn:Hdone.
  { destruct (_ && _) eqn:E; eexists; (split; [reflexivity |]); [by apply fail_counts |].
    unfold counts_post. cbn. repeat split; try apply Hc. intros _ _ Hd. lia. }
  pose proof (readChunkLine_shrinks maxChunkHeader (cb_r c)) as Hs.
  destruct (readChunkLine maxChunkHeader (cb_r c)) as [[line rest]|e]; [| eexists; split; [reflexivity |]; by apply fail_counts].
  pose proof (parseChunkHeader_bounds line) as Hb.
  destruct (parseChunkHeader line) as [size|e]; [| eexists; split; [reflexivity |]; by apply fail_counts].
  destruct (size =? 0) eqn:Ez.
  - destruct (readTrailers_total (S (length rest)) (set_done (set_r c rest)) 0) as (res & c' & -> & Hsame & Hl & Hne); [cbn; lia |].
    assert (counts_ok c' /\ cb_total c' = cb_total c /\ cb_decodedLen c' = cb_decodedLen c /\ cb_eager c' = cb_eager c /\ cb_done c' = true)
      as (Hc' & E1 & E2 & E3 & E4).
    { destruct Hsame as (S1 & S2 & S3 & S4 & S5 & S6 & S7). cbn in *. destruct Hc as (C1 & C2 & C3 & C4). unfold counts_ok.
      rewrite S1, S2, S3, S4, S7. auto. }
    destruct res as [[]|e]; [| eexists; split; [reflexivity |]; apply fail_counts; congruence].
    destruct (IH c' Hc') as (res & E & Hp); [rewrite E4; cbn in Hl; lia |]. exists res. split; [done |].
    unfold counts_post in *. by rewrite E1, E2, E3 in Hp.
  - destruct ((0 <=? cb_decodedLen (set_r c rest)) && _) eqn:Ex; [eexists; split; [reflexivity |]; by apply fail_counts |].
    destruct (IH (set_remaining (set_r c rest) size)) as (res & E & Hp); [| cbn; rewrite Hdone; lia | by exists res].
    destruct Hc as (C1 & C2 & C3 & C4). cbn in Ex. unfold counts_ok. cbn. repeat split; try done; lia.
Qed.

Lemma chunked_read_all_counts c reads :
  Forall (fun r => 1 <= fst r /\ 1 <= snd r) reads -> counts_ok c ->
  exists got e c', chunked_read_all c reads = Some (got, e, c') /\ cb_total c' = cb_total c + zlen got /\ counts_ok c' /\
    cb_decodedLen c' = cb_decodedLen c /\
    (e = Some EndOfBody -> cb_eager c = false -> 0 <= cb_decodedLen c -> cb_total c + zlen got = cb_decodedLen c).
Proof.
  intros Hreads. revert c. induction Hreads as [|[k m] reads [Hk Hm] _ IH]; intros c Hc; cbn [chunked_read_all].
  { eexists _, _, _. split; [reflexivity |]. change (zlen []) with 0. repeat split; try apply Hc; [lia | done]. }
  unfold chunked_read. destruct (k =? 0) eqn:Ek; [cbn in Hk; lia |].
  destruct (read_loop_counts (length (cb_r c) + 2) c k m Hk Hm Hc) as ([[got|e] c1] & -> & Hc1 & Hd1 & He1 & Hp); [destruct (cb_done c); lia | |];
    cbn [fst snd] in *.
  - destruct Hp as (Ht & _ & _). destruct (IH c1 Hc1) as (rest & e & c2 & -> & Ht2 & Hc2 & Hd2 & He2). cbn [mbind option_bind].
    eexists _, _, _. split; [reflexivity |]. rewrite zlen_app. split; [lia |]. split; [done |]. split; [congruence |].
    intros Ee Hea Hd. rewrite <- Hd1, <- (He2 Ee) by congruence. lia.
  - destruct Hp as (Ht & Hend). eexists _, _, _. split; [reflexivity |]. change (zlen []) with 0. split; [lia |]. split; [done |].
    split; [congruence |]. intros [= ->] Hea Hd. rewrite (Hend eq_refl Hea Hd). lia.
Qed.

(** ** Properties *)

(** C36: An aws-chunked body is decoded exactly.  For any chunks up to 8 MiB,
    signed or not, any trailers within the limits and any way the bytes arrive
    and are asked for, reading the encoded body returns the concatenation of
    the chunks, then the end, with the trailers recorded. *)
Theorem chunked_round_trip (chunks : list (bytes * option string)) (final : option string) (trailers : list (string * string))
    (tail : bytes) (eager : bool) (decodedLen : Z) (reads : list (Z * Z))
    (Hchunks : Forall chunk_ok chunks) (Hfinal : sig_ok final) (Htrailers : Forall trailer_ok trailers)
    (Hline : Forall (fun t => trailer_size t <= 8 * 2 ^ 10) trailers)
    (Hmax : foldr Z.add 0 (trailer_size <$> trailers) <= maxTrailerBytes)
    (Hdec : decodedLen < 0 \/ decodedLen = zlen (concat (fst <$> chunks)))
    (Hreads : Forall (fun r => 1 <= fst r /\ 1 <= snd r) reads)
    (Hmany : zlen (concat (fst <$> chunks)) < zlen reads) :
  exists c', chunked_read_all (new_chunked (encode_body chunks final trailers ++ tail) eager decodedLen) reads =
    Some (concat (fst <$> chunks), Some EndOfBody, c') /\ cb_trailer c' = trailers.
Proof.
  destruct (chunked_read_all_track final trailers tail Hfinal Htrailers Hline Hmax
    (new_chunked (encode_body chunks final trailers ++ tail) eager decodedLen) reads (concat (fst <$> chunks)) Hreads) as (got & e & c' & E & Hp).
  - split; [done |]. split; [cbn; lia |]. by apply between.
  - destruct e as [e|]; [destruct Hp as (-> & -> & Ht); by exists c' |].
    destruct Hp as ((l & El) & Hl). exfalso. apply (f_equal zlen) in El. rewrite zlen_app in El. unfold zlen in *. lia.
Qed.

Lemma chunked_round_trip_witness :
  exists c', chunked_read_all (new_chunked (encode_body [(bytes_of_string "hello ", None); (bytes_of_string "world", None)] None
      [("x-amz-checksum-crc32", "AAAAAA==")] ++ []) false 11) (replicate 12 (4, 3)) =
    Some (bytes_of_string "hello world", Some EndOfBody, c') /\ cb_trailer c' = [("x-amz-checksum-crc32", "AAAAAA==")].
Proof.
  apply (chunked_round_trip [(bytes_of_string "hello ", None); (bytes_of_string "world", None)] None
    [("x-amz-checksum-crc32", "AAAAAA==")] [] false 11 (replicate 12 (4, 3))).
  - assert (forall d, 1 <= zlen d <= 100 -> chunk_ok (d, None)) as H by (intros d Hd; split; [unfold maxChunkSize; cbn; lia | done]).
    apply Forall_cons. split; [apply H; by vm_compute |]. apply Forall_cons. split; [apply H; by vm_compute |]. by apply Forall_nil.
  - done.
  - apply Forall_singleton. by repeat split.
  - apply Forall_singleton. by vm_compute.
  - by vm_compute.
  - right. by vm_compute.
  - apply Forall_replicate. cbn. lia.
  - by vm_compute.
Defined.

(** Whatever bytes a client sends, the decoder ends every read, never
    delivers more than the announced length, and reports the end of the body
    only when exactly the announced length was delivered, provided the source
    does not report its end together with data. *)
Theorem chunked_length (input : bytes) (eager : bool) (decodedLen : Z) (reads : list (Z * Z))
    (Hdec : 0 <= decodedLen) (Hreads : Forall (fun r => 1 <= fst r /\ 1 <= snd r) reads) :
  exists got e c', chunked_read_all (new_chunked input eager decodedLen) reads = Some (got, e, c') /\
    zlen got <= decodedLen /\ (e = Some EndOfBody -> eager = false -> zlen got = decodedLen).
Proof.
  destruct (chunked_read_all_counts (new_chunked input eager decodedLen) reads Hreads) as (got & e & c' & E & Ht & Hc & Hd & He);
    [unfold counts_ok; cbn; lia || (repeat split; try done; lia) |].
  exists got, e, c'. split; [done |]. cbn in *. destruct Hc as (_ & H2 & H3 & _). rewrite Hd in H3. split; [lia |].
  intros -> ->. rewrite <- (He eq_refl eq_refl Hdec). lia.
Qed.

Lemma chunked_length_witness :
  exists got e c', chunked_read_all (new_chunked (bytes_of_string "3;x") false 5) [(4, 4)] = Some (got, e, c') /\
    zlen got <= 5 /\ (e = Some EndOfBody -> false = false -> zlen got = 5).
Proof. apply (chunked_length (bytes_of_string "3;x") false 5 [(4, 4)]); [lia | by repeat constructor]. Defined.

(** One read inside a chunk that takes the first [zlen a] bytes. *)
Lemma read_piece fuel c k a b :
  cb_err c = None -> cb_r c = a ++ b -> 1 <= zlen a <= Z.min k (cb_remaining c) ->
  read_loop (S fuel) c k (zlen a) =
  Some (inl a, mkChunked b (cb_eager c) (cb_trailer c) (cb_decodedLen c) (cb_total c + zlen a) (cb_remaining c - zlen a)
    ((cb_remaining c - zlen a =? 0) || cb_needCRLF c) (cb_done c)
    (if cb_eager c && (bufSize <=? Z.min k (cb_remaining c)) && bool_decide (b = []) then Some EndOfBody else None)).
Proof.
  intros He Hr Ha. cbn [read_loop]. rewrite He. destruct (0 <? cb_remaining c) eqn:E; [| lia]. unfold buf_read.
  rewrite Hr, zlen_app. pose proof (zlen_nonneg b).
  replace (Z.min (Z.min (Z.min k (cb_remaining c)) (zlen a)) (zlen a + zlen b)) with (zlen a) by lia.
  rewrite (slice_app_l a b 0 (zlen a)), slice_full by lia.
  assert (slice (a ++ b) (zlen a) (zlen a + zlen b) = b) as ->.
  { rewrite slice_to_end by (rewrite ?zlen_app; lia). unfold zlen. rewrite Nat2Z.id. apply drop_app_length. }
  destruct (0 <? zlen a) eqn:E0; [done | lia].
Qed.

(** A body cut short inside a chunk can be taken for complete.  When the
    source hands over the last bytes of a large read together with its end, the
    decoder stores that end and reports it on the next read: the client sees a
    clean end of the body after fewer bytes than the chunk and the request
    announced. *)
Theorem chunked_truncated (a b : bytes) (size : Z)
    (Ha : 1 <= zlen a) (Hb : 1 <= zlen b) (Hcut : zlen a + zlen b < size) (Hsize : size <= maxChunkSize)
    (Hbuf : bufSize <= size - zlen a) :
  exists c', chunked_read_all (new_chunked (encode_header size None ++ a ++ b) true size) [(size, zlen a); (size, zlen b); (1, 1)] =
    Some (a ++ b, Some EndOfBody, c').
Proof.
  assert (size =? 0 = false) as Ez by lia. destruct (header_line size None ltac:(lia) I) as [Hnl Hsl].
  cbn [chunked_read_all]. unfold chunked_read at 1. rewrite Ez.
  replace (length (cb_r (new_chunked (encode_header size None ++ a ++ b) true size)) + 2)%nat
    with (S (S (length (encode_header size None ++ a ++ b)))) by (cbn [new_chunked cb_r]; lia).
  remember (S (length (encode_header size None ++ a ++ b))) as fuel. cbn [read_loop]. subst fuel.
  cbn [new_chunked cb_r cb_err cb_remaining cb_needCRLF cb_done Z.ltb Z.compare]. unfold encode_header. rewrite <- !app_assoc.
  rewrite readChunkLine_crlf by done. rewrite parseChunkHeader_hex by (done || lia). rewrite Ez. cbn [new_chunked set_r cb_decodedLen cb_total set_remaining].
  replace ((0 <=? size) && (size <? 0 + size)) with false by lia.
  rewrite (read_piece _ _ size a b) by (done || (cbn; lia)). cbn [new_chunked set_remaining set_r cb_eager cb_trailer cb_decodedLen cb_total cb_remaining cb_needCRLF cb_done].
  rewrite (bool_decide_false (b = [])), andb_false_r by (intros ->; change (zlen []) with 0 in Hb; lia). cbn [mbind option_bind].
  unfold chunked_read at 1. rewrite Ez. cbn [cb_r].
  replace (length b + 2)%nat with (S (length b + 1)) by lia.
  rewrite (read_piece _ _ size b []) by (cbn; done || rewrite ?app_nil_r; done || lia).
  cbn [cb_eager cb_remaining andb]. rewrite bool_decide_true by done. replace (bufSize <=? Z.min size (size - zlen a)) with true by lia. cbn [andb].
  cbn. rewrite app_nil_r. by eexists.
Qed.

Lemma chunked_truncated_witness :
  exists c', chunked_read_all (new_chunked (encode_header 70000 None ++ bytes_of_string "ab") true 70000) [(70000, 1); (70000, 1); (1, 1)] =
    Some (bytes_of_string "ab", Some EndOfBody, c').
Proof. apply (chunked_truncated (bytes_of_string "a") (bytes_of_string "b") 70000); by vm_compute. Defined.
