(* ===== verification/Pieces.v ===== *)
(** * Read planning: pieces of rows

    Models the planning half of a read in [internal/store]: [planPieces] and
    [readWorkersFor] of [object.go], [alignPieces], [segmentLastRow],
    [blockLastRow] and [clipBlock] of [blockcache.go] and [appendRow] of
    [object.go].  Row numbers are [int32]: every conversion and addition on
    them wraps. *)

From S2P Require Import Prelude GoStrings Ranges Blocks.

(** ** Definitions *)

Record piece := mkPiece {
  p_fileID : Z;
  p_base : Z;
  p_segLen : Z;
  p_lo : Z;
  p_hi : Z
}.

#[global] Instance piece_eq_dec : EqDecision piece.
Proof. solve_decision. Defined.

Definition readPieceBytes : Z := 8 * 2 ^ 20.
Definition minReadPieceBytes : Z := 2 ^ 20.
Definition oneQueryReadBytes : Z := 2 ^ 20.
Definition maxParallelPieces : Z := 8.

Inductive plan_error := BadManifest (e : manifest_error) | RangeOutside.

Definition overlaps (start stop : Z) (seg : Segment) : bool :=
  (0 <? sg_Length seg) && (start <=? sg_Base seg + sg_Length seg - 1) && (sg_Base seg <=? stop).

(** Number of pieces a segment of [rows] rows is cut into. *)
Definition piece_count (span parallel overlapping rows : Z) : Z :=
  let share := Z.max (Z.quot parallel overlapping) 1 in
  if (span <=? oneQueryReadBytes) || (parallel <=? 1) then 1
  else if span <=? maxParallelPieces * readPieceBytes then
    if overlapping =? 1 then
      let target := Z.max (Z.quot (span + parallel - 1) parallel) minReadPieceBytes in
      Z.min rows (Z.quot (span + target - 1) target)
    else Z.min rows share
  else Z.min rows (Z.max (Z.quot (rows * RowBytes) readPieceBytes) 1).

(** The innermost loop; [None] when the fuel runs out before [r] passes [hi]. *)
Fixpoint piece_loop (fuel : nat) (seg : Segment) (r hi step : Z) : option (list piece) :=
  if r <=? hi then
    match fuel with
    | O => None
    | S fuel' =>
        let p := mkPiece (sg_FileID seg) (sg_Base seg) (sg_Length seg) r
                   (Z.min (wrap32 (r + step - 1)) hi) in
        rest ← piece_loop fuel' seg (wrap32 (r + step)) hi step;
        Some (p :: rest)
    end
  else Some [].

Definition segment_pieces (start stop parallel overlapping : Z) (seg : Segment) : option (list piece) :=
  let span := stop - start + 1 in
  let lo := wrap32 (Z.quot (Z.max start (sg_Base seg) - sg_Base seg) RowBytes) in
  let hi := wrap32 (Z.quot (Z.min stop (sg_Base seg + sg_Length seg - 1) - sg_Base seg) RowBytes) in
  let rows := wrap32 (hi - lo) + 1 in
  let count := piece_count span parallel overlapping rows in
  let step := wrap32 (Z.quot (rows + count - 1) count) in
  piece_loop (Z.to_nat rows) seg lo hi step.

Fixpoint all_pieces (start stop parallel overlapping : Z) (segs : list Segment) : option (list piece) :=
  match segs with
  | [] => Some []
  | seg :: segs' =>
      ps ← segment_pieces start stop parallel overlapping seg;
      rest ← all_pieces start stop parallel overlapping segs';
      Some (ps ++ rest)
  end.

(** [planPieces]; the outer [None] is a loop that does not end in the number
    of rounds its row count allows. *)
Definition planPieces (m : Meta) (start stop parallel : Z) : option (result plan_error (list piece)) :=
  match Segments m with
  | Err e => Some (Err (BadManifest e))
  | Ok segments =>
      let parallel := Z.max parallel 1 in
      let overlapping := List.filter (overlaps start stop) segments in
      if bool_decide (overlapping = []) then Some (Err RangeOutside)
      else Ok <$> all_pieces start stop parallel (zlen overlapping) overlapping
  end.

Definition readWorkersFor (maxConns inflight : Z) : Z :=
  let inflight := Z.max inflight 1 in
  let budget := Z.max (Z.quot maxConns 2) 1 in
  let available := Z.max (budget - inflight) 0 in
  Z.min (Z.max (Z.quot available inflight) 1) maxParallelPieces.

(** ** Blocks of rows *)

Definition blockRows : Z := 32.

Definition segmentLastRow (segLen : Z) : Z := wrap32 (Z.quot (segLen - 1) RowBytes).

Definition blockLastRow (block segLen : Z) : Z :=
  Z.min (wrap32 (block * blockRows + blockRows - 1)) (segmentLastRow segLen).

Definition clipBlock (base block : Z) (data : bytes) (start stop : Z) : option bytes :=
  let off := block * blockRows * RowBytes in
  let lo := Z.max (start - base) off in
  let hi := Z.min (stop - base) (off + zlen data - 1) in
  let a := Z.max (lo - off) 0 in
  let z := Z.min (hi - off + 1) (zlen data) in
  if z <=? a then None else Some (slice data a z).

Definition appendRow (out : bytes) (base no : Z) (data : bytes) (start stop : Z) : bytes :=
  let rowStart := base + no * RowBytes in
  let lo := Z.max start rowStart - rowStart in
  let hi := Z.min stop (rowStart + zlen data - 1) - rowStart in
  if lo <=? hi then out ++ slice data lo (hi + 1) else out.

(** The pieces of one segment, as [alignPieces] walks them: [lo] is where the
    previous aligned piece ended. *)
Fixpoint align_group (lastRow lo : Z) (seg : list piece) : list piece :=
  match seg with
  | [] => []
  | p :: rest =>
      let hi :=
        match rest with
        | [] => Z.min (wrap32 (wrap32 ((Z.quot (p_hi p) blockRows + 1) * blockRows) - 1)) lastRow
        | next :: _ => wrap32 (Z.quot (wrap32 (p_lo next + Z.quot blockRows 2)) blockRows * blockRows - 1)
        end in
      if lo <=? hi then
        mkPiece (p_fileID p) (p_base p) (p_segLen p) lo hi :: align_group lastRow (wrap32 (hi + 1)) rest
      else align_group lastRow lo rest
  end.

Definition same_segment (p q : piece) : bool := (p_fileID q =? p_fileID p) && (p_base q =? p_base p).

(** The maximal run of pieces of the same segment at the front. *)
Fixpoint span_segment (p : piece) (l : list piece) : list piece * list piece :=
  match l with
  | q :: l' => if same_segment p q then let '(a, b) := span_segment p l' in (q :: a, b) else ([], l)
  | [] => ([], [])
  end.

Fixpoint align_groups (fuel : nat) (l : list piece) : list piece :=
  match fuel, l with
  | S fuel', p :: l' =>
      let '(a, b) := span_segment p l' in
      let lastRow := segmentLastRow (p_segLen p) in
      let lo := Z.quot (p_lo p) blockRows * blockRows in
      align_group lastRow lo (p :: a) ++ align_groups fuel' b
  | _, _ => []
  end.

(** Every round removes at least one piece, so their number bounds the rounds. *)
Definition alignPieces (pieces : list piece) : list piece := align_groups (length pieces) pieces.

(** ** Specification

    [files] gives the content of every file; a piece stands for the bytes of
    its rows that lie in the span [start..stop] of the object. *)

Definition piece_bytes (files : Z -> bytes) (start stop : Z) (p : piece) : bytes :=
  clip (files (p_fileID p)) (Z.max (start - p_base p) 0) (stop + 1 - p_base p)
    (p_lo p * RowBytes) ((p_hi p + 1) * RowBytes).

Definition seg_body (files : Z -> bytes) (seg : Segment) : bytes := files (sg_FileID seg).

(** The object a manifest describes. *)
Definition object_bytes (files : Z -> bytes) (segs : list Segment) : bytes :=
  concat (seg_body files <$> segs).

(** A file of a manifest: its content has the recorded length, and its row
    numbers stay far enough below the [int32] limit for the planning loop. *)
Definition file_ok (files : Z -> bytes) (seg : Segment) : Prop :=
  zlen (seg_body files seg) = sg_Length seg /\ sg_Length seg <= 2 ^ 30 * RowBytes.

Definition seg_part (files : Z -> bytes) (start stop : Z) (seg : Segment) : bytes :=
  slice (seg_body files seg) (Z.max (start - sg_Base seg) 0) (stop + 1 - sg_Base seg).

(** [chain seg r hi ps]: the pieces cover the rows [r..hi] in order. *)
Fixpoint chain (seg : Segment) (r hi : Z) (ps : list piece) : Prop :=
  match ps with
  | [] => r = hi + 1
  | p :: ps' =>
      p = mkPiece (sg_FileID seg) (sg_Base seg) (sg_Length seg) r (p_hi p) /\
      r <= p_hi p <= hi /\ chain seg (p_hi p + 1) hi ps'
  end.

(** ** Lemmas *)

Lemma chain_bytes files start stop seg r hi ps :
  0 <= r -> chain seg r hi ps ->
  concat (piece_bytes files start stop <$> ps) =
  clip (seg_body files seg) (Z.max (start - sg_Base seg) 0) (stop + 1 - sg_Base seg)
    (r * RowBytes) ((hi + 1) * RowBytes).
Proof.
  intros Hr. revert r Hr. induction ps as [|p ps IH]; intros r Hr; cbn [chain].
  - intros ->. by rewrite clip_empty by lia.
  - intros (Hp & Hb & Hc). rewrite fmap_cons. cbn [concat]. rewrite (IH (p_hi p + 1)) by (done || lia).
    unfold piece_bytes at 1. rewrite Hp. cbn [p_fileID p_base p_lo p_hi].
    apply clip_cat; unfold RowBytes; lia.
Qed.

Lemma chain_le seg r hi ps : chain seg r hi ps -> r <= hi + 1.
Proof. revert r. induction ps as [|p ps IH]; intros r; cbn; [lia |]. intros (_ & ? & ?%IH). lia. Qed.

Lemma chain_Forall seg r hi ps :
  chain seg r hi ps -> Forall (fun p => r <= p_lo p <= p_hi p /\ p_hi p <= hi /\
    p_fileID p = sg_FileID seg /\ p_base p = sg_Base seg /\ p_segLen p = sg_Length seg) ps.
Proof.
  revert r. induction ps as [|[fid base len lo h] ps IH]; intros r; cbn; [constructor |].
  intros ([= -> -> -> ->] & Hb & Hc). constructor; [cbn; repeat split; lia |].
  eapply Forall_impl; [by apply IH |]. cbn. intros q. intuition lia.
Qed.

Lemma piece_loop_chain fuel seg r hi step :
  0 <= r -> r <= hi + 1 -> 1 <= step -> hi + step < 2 ^ 31 -> hi - r + 1 <= Z.of_nat fuel ->
  exists ps, piece_loop fuel seg r hi step = Some ps /\ chain seg r hi ps.
Proof.
  intros Hr Hle Hs Hmax. revert r Hr Hle.
  assert (forall fuel r, hi < r -> piece_loop fuel seg r hi step = Some []) as Hend.
  { intros [|n] r Hr; cbn; destruct (Z.leb_spec r hi); done || lia. }
  induction fuel as [|fuel IH]; intros r Hr Hle Hf.
  - rewrite Hend by lia. exists []. split; [done |]. cbn. lia.
  - destruct (Z.le_gt_cases r hi) as [Hrh|Hrh].
    2: { rewrite Hend by lia. exists []. split; [done |]. cbn. lia. }
    cbn [piece_loop]. destruct (Z.leb_spec r hi); [| lia].
    rewrite !wrap32_small by lia.
    destruct (Z.le_gt_cases (r + step) hi).
    + destruct (IH (r + step)) as (ps & -> & Hc); [lia..|]. cbn [mbind option_bind].
      eexists. split; [reflexivity |]. cbn. split; [done |]. split; [lia |].
      by replace (Z.min (r + step - 1) hi + 1) with (r + step) by lia.
    + rewrite Hend by lia. cbn [mbind option_bind]. eexists. split; [reflexivity |].
      cbn. split; [done |]. split; lia.
Qed.

Lemma piece_count_pos span parallel n rows : 1 <= rows -> 1 <= span -> 1 <= parallel -> 1 <= n ->
  1 <= piece_count span parallel n rows.
Proof.
  intros. unfold piece_count, minReadPieceBytes. case_tests; try lia;
    repeat match goal with |- context [if ?b then _ else _] => destruct b end; try lia.
  apply Z.min_glb; [lia |]. rewrite quot_div_nonneg by lia.
  apply Z.div_le_lower_bound; lia.
Qed.

(** First and last row of a segment that a span touches. *)
Definition first_row (start : Z) (seg : Segment) : Z :=
  (Z.max start (sg_Base seg) - sg_Base seg) / RowBytes.
Definition last_row (stop : Z) (seg : Segment) : Z :=
  (Z.min stop (sg_Base seg + sg_Length seg - 1) - sg_Base seg) / RowBytes.

Lemma overlaps_true start stop seg :
  overlaps start stop seg = true <->
  0 < sg_Length seg /\ start <= sg_Base seg + sg_Length seg - 1 /\ sg_Base seg <= stop.
Proof. unfold overlaps. rewrite !andb_true_iff, Z.ltb_lt, !Z.leb_le. tauto. Qed.

Lemma touched_rows start stop seg :
  overlaps start stop seg = true -> 0 <= start <= stop -> 0 <= sg_Base seg ->
  sg_Length seg <= 2 ^ 30 * RowBytes ->
  0 <= first_row start seg <= last_row stop seg /\ last_row stop seg < 2 ^ 30 /\
  last_row stop seg <= (sg_Length seg - 1) / RowBytes /\
  first_row start seg * RowBytes <= Z.max (start - sg_Base seg) 0 /\
  Z.min (stop + 1 - sg_Base seg) (sg_Length seg) <= (last_row stop seg + 1) * RowBytes.
Proof.
  rewrite overlaps_true. intros (? & ? & ?) ? ? ?. unfold first_row, last_row, RowBytes in *. div_lia.
Qed.

Lemma segment_pieces_chain start stop parallel n seg :
  overlaps start stop seg = true -> 0 <= start <= stop -> 0 <= sg_Base seg ->
  sg_Length seg <= 2 ^ 30 * RowBytes -> 1 <= parallel -> 1 <= n ->
  exists ps, segment_pieces start stop parallel n seg = Some ps /\
    chain seg (first_row start seg) (last_row stop seg) ps.
Proof.
  intros Ho Hs Hb Hl Hp Hn. destruct (touched_rows start stop seg Ho Hs Hb Hl) as (H1 & H2 & H3 & _).
  apply overlaps_true in Ho as (Ho1 & Ho2 & Ho3). unfold segment_pieces.
  rewrite !quot_div_nonneg by (unfold RowBytes; lia).
  fold (first_row start seg) (last_row stop seg). rewrite (wrap32_small (first_row start seg)), (wrap32_small (last_row stop seg)), (wrap32_small (_ - _)) by lia.
  set (rows := last_row stop seg - first_row start seg + 1).
  pose proof (piece_count_pos (stop - start + 1) parallel n rows) as Hc.
  set (c := piece_count _ _ _ _) in *. assert (1 <= c) by (apply Hc; unfold rows; lia).
  assert (1 <= rows <= 2 ^ 30) by (unfold rows; lia).
  assert (1 <= (rows + c - 1) / c <= rows) as Hstep.
  { clearbody rows c. split; [apply Z.div_le_lower_bound; lia |].
    transitivity ((rows * c) / c); [apply Z.div_le_mono; nia | by rewrite Z.div_mul by lia]. }
  rewrite quot_div_nonneg by lia. rewrite wrap32_small by lia.
  apply piece_loop_chain; unfold rows in *; lia.
Qed.

Lemma segment_pieces_bytes files start stop seg ps :
  overlaps start stop seg = true -> 0 <= start <= stop -> 0 <= sg_Base seg -> file_ok files seg ->
  chain seg (first_row start seg) (last_row stop seg) ps ->
  concat (piece_bytes files start stop <$> ps) = seg_part files start stop seg.
Proof.
  intros Ho Hs Hb [Hlen Hl] Hc. destruct (touched_rows start stop seg Ho Hs Hb Hl) as (H1 & H2 & _ & H3 & H4).
  rewrite (chain_bytes files start stop seg (first_row start seg) (last_row stop seg)) by (done || lia). unfold clip, seg_part.
  rewrite Z.max_r by lia. rewrite slice_clamp by lia.
  rewrite (slice_clamp _ _ (stop + 1 - sg_Base seg)) by lia. f_equal. lia.
Qed.

(** A span of the object is the concatenation of its parts of the segments. *)
Lemma object_slice files start stop b e segs :
  tiles b e segs -> Forall (fun seg => zlen (seg_body files seg) = sg_Length seg) segs ->
  slice (object_bytes files segs) (Z.max (start - b) 0) (stop + 1 - b) =
  concat (seg_part files start stop <$> segs).
Proof.
  unfold object_bytes. revert b. induction segs as [|seg segs IH]; intros b; cbn [tiles].
  - intros _ _. apply slice_past. unfold zlen. cbn. lia.
  - intros (Hb & Hlen & Ht) Hf. inversion_clear Hf as [|?? Hz Hf']. rewrite !fmap_cons. cbn [concat].
    rewrite slice_app, Hz by lia. unfold seg_part at 1. rewrite Hb. f_equal.
    rewrite <- (IH (b + sg_Length seg)) by done. f_equal; lia.
Qed.

Lemma seg_part_outside files start stop seg :
  overlaps start stop seg = false -> 0 <= start -> 0 <= sg_Length seg ->
  zlen (seg_body files seg) = sg_Length seg -> seg_part files start stop seg = [].
Proof.
  intros Ho Hs Hl Hz. unfold seg_part.
  destruct (Z.le_gt_cases (stop + 1) (sg_Base seg)); [apply slice_nil_ge; lia |].
  destruct (Z.le_gt_cases (sg_Base seg + sg_Length seg) start); [apply slice_past; lia |].
  destruct (Z.eq_dec (sg_Length seg) 0); [apply slice_past; lia |].
  rewrite (proj2 (overlaps_true start stop seg)) in Ho; [done | lia].
Qed.

Lemma overlapping_parts files start stop b e segs :
  tiles b e segs -> 0 <= start -> Forall (fun seg => zlen (seg_body files seg) = sg_Length seg) segs ->
  concat (seg_part files start stop <$> List.filter (overlaps start stop) segs) =
  concat (seg_part files start stop <$> segs).
Proof.
  intros Ht Hs. revert b Ht. induction segs as [|seg segs IH]; intros b; [done |].
  intros (Hb & Hlen & Ht) Hf. inversion_clear Hf as [|?? Hz Hf']. cbn [List.filter].
  destruct (overlaps start stop seg) eqn:Ho; rewrite !fmap_cons; cbn [concat]; rewrite (IH _ Ht Hf'); [done |].
  by rewrite (seg_part_outside files start stop seg) by done.
Qed.

(** A piece as the reader needs it. *)
Definition piece_ok (files : Z -> bytes) (p : piece) : Prop :=
  0 <= p_lo p <= p_hi p /\ p_hi p <= (p_segLen p - 1) / RowBytes < 2 ^ 30 /\
  0 <= p_base p /\ zlen (files (p_fileID p)) = p_segLen p.

(** The pieces of the overlapping segments, one chain per segment. *)
Definition plan_of (start stop : Z) (segs : list Segment) (pss : list (list piece)) : Prop :=
  Forall2 (fun seg ps => chain seg (first_row start seg) (last_row stop seg) ps) segs pss.

Definition touched (files : Z -> bytes) (start stop : Z) (seg : Segment) : Prop :=
  overlaps start stop seg = true /\ 0 <= sg_Base seg /\ file_ok files seg.

Lemma all_pieces_chains files start stop parallel n segs :
  0 <= start <= stop -> 1 <= parallel -> 1 <= n -> Forall (touched files start stop) segs ->
  exists pss, all_pieces start stop parallel n segs = Some (concat pss) /\ plan_of start stop segs pss.
Proof.
  intros Hs Hp Hn. induction segs as [|seg segs IH]; intros Hf.
  { exists []. by repeat constructor. }
  inversion_clear Hf as [|?? (Ho & Hb & Hok) Hf']. destruct (IH Hf') as (pss & Hr & Hc'). destruct Hok as [Hlen Hl].
  destruct (segment_pieces_chain start stop parallel n seg Ho Hs Hb Hl Hp Hn) as (ps & Hps & Hc).
  exists (ps :: pss). cbn [all_pieces concat]. rewrite Hps, Hr. by repeat constructor.
Qed.

Lemma chain_pieces_ok files start stop seg ps lo hi :
  touched files start stop seg -> 0 <= lo -> hi <= (sg_Length seg - 1) / RowBytes ->
  chain seg lo hi ps -> Forall (piece_ok files) ps.
Proof.
  intros (Ho & Hb & Hlen & Hl) Hlo Hhi Hc.
  eapply Forall_impl; [by apply chain_Forall |]. cbn. intros p (Hp & Hp' & Ef & Eb & El).
  assert ((sg_Length seg - 1) / RowBytes < 2 ^ 30) by (unfold RowBytes in *; div_lia).
  unfold piece_ok. rewrite Ef, Eb, El. unfold seg_body in Hlen. repeat split; lia.
Qed.

Lemma plan_bytes files start stop segs pss :
  0 <= start <= stop -> Forall (touched files start stop) segs -> plan_of start stop segs pss ->
  Forall (piece_ok files) (concat pss) /\
  concat (piece_bytes files start stop <$> concat pss) = concat (seg_part files start stop <$> segs).
Proof.
  intros Hs Hf Hp. induction Hp as [|seg ps segs pss Hc Hp IH]; [split; constructor |].
  inversion_clear Hf as [|?? Ht Hf']. destruct (IH Hf') as [IH1 IH2]. pose proof Ht as (Ho & Hb & Hok).
  cbn [concat]. rewrite fmap_cons, fmap_app, concat_app, IH2. cbn [concat].
  rewrite (segment_pieces_bytes files start stop seg ps) by done. split; [| done].
  apply Forall_app. split; [| done].
  destruct (touched_rows start stop seg Ho Hs Hb (proj2 Hok)) as (H1 & H2 & H3 & _).
  apply (chain_pieces_ok files start stop seg ps (first_row start seg) (last_row stop seg)); done || lia.
Qed.

(** What holds of the file ids of the segments holds of those of the pieces. *)
Lemma plan_pieces_file (P : Z -> Prop) start stop segs pss :
  plan_of start stop segs pss -> Forall (fun seg => P (sg_FileID seg)) segs ->
  Forall (fun p => P (p_fileID p)) (concat pss).
Proof.
  intros Hp. induction Hp as [|seg ps segs pss Hc Hp IH]; intros Hf; [constructor |].
  inversion_clear Hf. apply Forall_app. split; [| auto].
  eapply Forall_impl; [by eapply chain_Forall |]. cbn. intros q (_ & _ & -> & _). done.
Qed.

Lemma tiles_bounds b e segs :
  tiles b e segs -> Forall (fun seg => b <= sg_Base seg /\ 0 <= sg_Length seg /\ sg_Base seg + sg_Length seg <= e) segs.
Proof.
  revert b. induction segs as [|seg segs IH]; intros b; [constructor |]. intros (Hb & Hl & Ht).
  pose proof (tiles_le _ _ _ Ht). constructor; [lia |].
  eapply Forall_impl; [by apply IH |]. cbn. lia.
Qed.

(** Some segment holds the first byte of the span. *)
Lemma tiles_overlap b e segs start stop :
  tiles b e segs -> b <= start < e -> start <= stop -> List.filter (overlaps start stop) segs <> [].
Proof.
  revert b. induction segs as [|seg segs IH]; intros b; cbn [tiles List.filter]; [lia |].
  intros (Hb & Hl & Ht) Hs Hle. destruct (overlaps start stop seg) eqn:Ho; [done |].
  apply (IH _ Ht); [| done]. split; [| lia].
  destruct (Z.le_gt_cases (b + sg_Length seg) start); [done |].
  rewrite (proj2 (overlaps_true start stop seg)) in Ho; [done | lia].
Qed.

Lemma overlapping_touched files start stop e segs :
  tiles 0 e segs -> Forall (file_ok files) segs ->
  Forall (touched files start stop) (List.filter (overlaps start stop) segs).
Proof.
  intros Ht%tiles_bounds Hf. apply Forall_forall. intros seg [Hin Ho]%list_elem_of_In%filter_In.
  apply list_elem_of_In in Hin. rewrite Forall_forall in Ht, Hf. specialize (Ht _ Hin). specialize (Hf _ Hin).
  repeat split; [done | lia | apply Hf ..].
Qed.

Lemma file_ok_len files segs :
  Forall (file_ok files) segs -> Forall (fun seg => zlen (seg_body files seg) = sg_Length seg) segs.
Proof. intros H. eapply Forall_impl; [exact H |]. by intros ? []. Qed.

(** [planPieces] on a readable manifest. *)
Lemma planPieces_chains files m segs start stop parallel :
  Segments m = Ok segs -> Forall (file_ok files) segs -> 0 <= start <= stop -> stop < m_Size m ->
  exists pss, planPieces m start stop parallel = Some (Ok (concat pss)) /\
    plan_of start stop (List.filter (overlaps start stop) segs) pss /\
    Forall (touched files start stop) (List.filter (overlaps start stop) segs) /\
    concat (seg_part files start stop <$> List.filter (overlaps start stop) segs) =
      slice (object_bytes files segs) start (stop + 1).
Proof.
  intros Hseg Hf Hs Hsize. destruct (Segments_inv m segs ltac:(lia) Hseg) as (Ht & _).
  pose proof (overlapping_touched files start stop _ _ Ht Hf) as Htouch.
  assert (List.filter (overlaps start stop) segs <> []) as Hne by (eapply tiles_overlap; [done | lia..]).
  destruct (all_pieces_chains files start stop (Z.max parallel 1)
    (zlen (List.filter (overlaps start stop) segs)) _ ltac:(lia) ltac:(lia)
    ltac:(pose proof (zlen_pos _ Hne); lia) Htouch) as (pss & Hall & Hplan).
  exists pss. unfold planPieces. rewrite Hseg, bool_decide_false by done. rewrite Hall.
  split; [done |]. split; [done |]. split; [done |].
  rewrite (overlapping_parts files start stop 0 (m_Size m)) by (done || lia || by apply file_ok_len).
  rewrite <- (object_slice files start stop 0 (m_Size m)) by (done || by apply file_ok_len).
  f_equal; lia.
Qed.

(** *** Alignment to blocks *)

(** The internal boundaries of a segment stay inside the file after rounding. *)
Definition align_safe (lastRow : Z) (ps : list piece) : Prop :=
  Forall (fun p => (p_lo p + 16) / 32 * 32 <= lastRow + 1) (tail ps).

Definition block_aligned (p : piece) : Prop :=
  p_lo p mod 32 = 0 /\ ((p_hi p + 1) mod 32 = 0 \/ p_hi p = (p_segLen p - 1) / RowBytes).

Definition aligned_last (lastRow hi : Z) : Z := Z.min ((hi / 32 + 1) * 32 - 1) lastRow.

Lemma align_group_chain seg lastRow lo r hi ps :
  chain seg r hi ps -> ps <> [] -> 0 <= r -> hi <= lastRow < 2 ^ 30 -> align_safe lastRow ps ->
  0 <= lo -> lo mod 32 = 0 -> lo <= aligned_last lastRow hi + 1 ->
  lastRow = (sg_Length seg - 1) / RowBytes ->
  chain seg lo (aligned_last lastRow hi) (align_group lastRow lo ps) /\
  Forall block_aligned (align_group lastRow lo ps).
Proof.
  intros Hc Hne Hr Hhi Hsafe Hlo Hmod Hle Hlast. revert r lo Hc Hr Hlo Hmod Hle.
  induction ps as [|[fid base len plo phi] ps IH]; [done |]. intros r lo (Hp & Hb & Hc) Hr Hlo Hmod Hle.
  cbn in Hp, Hb. injection Hp as -> -> -> ->. cbn [p_hi] in Hc. cbn [align_group p_hi p_fileID p_base p_segLen].
  destruct ps as [|q ps].
  - cbn in Hc. assert (phi = hi) as -> by (cbn in *; lia). unfold blockRows.
    assert (Z.min (wrap32 (wrap32 ((Z.quot hi 32 + 1) * 32) - 1)) lastRow = aligned_last lastRow hi) as ->.
    { unfold aligned_last. rewrite quot_div_nonneg by lia.
      rewrite (wrap32_small ((hi / 32 + 1) * 32)), wrap32_small by div_lia. done. }
    destruct (Z.leb_spec lo (aligned_last lastRow hi)); cbn [chain align_group].
    + split; [repeat split; cbn; lia |]. constructor; [| constructor].
      split; cbn [p_lo p_hi p_segLen]; [done |].
      unfold aligned_last in *. rewrite <- Hlast. destruct (Z.min_spec ((hi / 32 + 1) * 32 - 1) lastRow) as [[_ ->]|[_ ->]];
        [left; div_lia | right; done].
    + split; [lia | constructor].
  - inversion Hsafe as [|?? Hq Hsafe']; subst. assert (phi + 1 <= p_lo q <= p_hi q /\ p_hi q <= hi) as Hqb.
    { pose proof (chain_Forall _ _ _ _ Hc) as Hall. inversion Hall; subst. lia. }
    unfold blockRows. change (Z.quot 32 2) with 16. rewrite (wrap32_small (p_lo q + 16)) by lia.
    rewrite quot_div_nonneg by lia. rewrite (wrap32_small (_ * 32 - 1)) by div_lia.
    set (h := (p_lo q + 16) / 32 * 32 - 1) in *.
    assert (h <= aligned_last (( sg_Length seg - 1) / RowBytes) hi) as Hh by (unfold aligned_last, h in *; div_lia).
    assert ((h + 1) mod 32 = 0) as Hhm by (unfold h; div_lia).
    assert (align_safe ((sg_Length seg - 1) / RowBytes) (q :: ps)) as Hsafe2 by done.
    destruct (Z.leb_spec lo h).
    + destruct (IH ltac:(done) Hsafe2 (phi + 1) (h + 1) Hc) as [IH1 IH2]; [lia.. |].
      rewrite wrap32_small by lia. cbn [chain]. split; [repeat split; cbn; (lia || done) |].
      constructor; [| done]. split; cbn; [done | by left].
    + apply (IH ltac:(done) Hsafe2 (phi + 1)); done || lia.
Qed.

Lemma span_segment_app p ps rest :
  Forall (fun q => same_segment p q = true) ps ->
  match rest with q :: _ => same_segment p q = false | [] => True end ->
  span_segment p (ps ++ rest) = (ps, rest).
Proof.
  induction ps as [|q ps IH]; intros Hps Hrest.
  - destruct rest as [|q rest]; [done |]. cbn. by rewrite Hrest.
  - inversion_clear Hps. cbn. rewrite H. by rewrite IH.
Qed.

Lemma chain_nonempty seg r hi ps : chain seg r hi ps -> r <= hi -> ps <> [].
Proof. destruct ps; cbn; [lia | done]. Qed.

Lemma tiles_increasing b e start stop segs :
  tiles b e segs ->
  StronglySorted (fun x y => sg_Base x < sg_Base y) (List.filter (overlaps start stop) segs).
Proof.
  revert b. induction segs as [|seg segs IH]; intros b; cbn [tiles List.filter]; [constructor |].
  intros (Hb & Hl & Ht). destruct (overlaps start stop seg) eqn:Ho; [| by eapply IH].
  constructor; [by eapply IH |]. apply overlaps_true in Ho as [Ho _].
  apply Forall_forall. intros y [Hy _]%list_elem_of_In%filter_In. apply list_elem_of_In in Hy.
  pose proof (tiles_bounds _ _ _ Ht) as Hbd. rewrite Forall_forall in Hbd. specialize (Hbd _ Hy). lia.
Qed.

(** One segment after alignment: it still stands for its part of the span. *)
Lemma align_segment files start stop seg p ps :
  touched files start stop seg -> 0 <= start <= stop ->
  chain seg (first_row start seg) (last_row stop seg) (p :: ps) ->
  align_safe ((sg_Length seg - 1) / RowBytes) (p :: ps) ->
  let out := align_group (segmentLastRow (p_segLen p)) (Z.quot (p_lo p) blockRows * blockRows) (p :: ps) in
  Forall (piece_ok files) out /\ Forall block_aligned out /\
  concat (piece_bytes files start stop <$> out) = seg_part files start stop seg.
Proof.
  intros Ht Hs Hc Hsafe. pose proof Ht as (Ho & Hb & Hlen & Hl).
  destruct (touched_rows start stop seg Ho Hs Hb Hl) as (H1 & H2 & H3 & H4 & H5).
  assert (p_segLen p = sg_Length seg /\ p_lo p = first_row start seg) as [-> ->]
    by (destruct Hc as (-> & _); done).
  apply overlaps_true in Ho as (Ho & _).
  set (lastRow := (sg_Length seg - 1) / RowBytes) in *.
  assert (segmentLastRow (sg_Length seg) = lastRow) as Elast.
  { unfold segmentLastRow. rewrite quot_div_nonneg by (unfold RowBytes; lia).
    apply wrap32_small. unfold lastRow, RowBytes in *; div_lia. }
  assert (lastRow < 2 ^ 30) by (unfold lastRow, RowBytes in *; div_lia).
  rewrite Elast, quot_div_nonneg by (unfold blockRows; lia). unfold blockRows. cbv zeta.
  destruct (align_group_chain seg lastRow (first_row start seg / 32 * 32) _ _ _ Hc) as [Hc' Ha];
    try done; try lia; [div_lia | apply Z_mod_mult | unfold aligned_last; div_lia |].
  assert (last_row stop seg <= aligned_last lastRow (last_row stop seg) <= lastRow) as Hal
    by (unfold aligned_last; div_lia).
  split; [| split; [done |]].
  - eapply (chain_pieces_ok files start stop seg _ (first_row start seg / 32 * 32)); [done | div_lia | | done]. lia.
  - rewrite (chain_bytes files start stop seg (first_row start seg / 32 * 32)
      (aligned_last lastRow (last_row stop seg))) by (done || div_lia). unfold clip, seg_part.
    rewrite Z.max_r by (unfold RowBytes in *; div_lia). rewrite slice_clamp by lia.
    rewrite (slice_clamp _ _ (stop + 1 - sg_Base seg)) by lia. f_equal. unfold RowBytes in *. lia.
Qed.

Lemma align_groups_plan files start stop segs pss fuel :
  0 <= start <= stop -> Forall (touched files start stop) segs -> plan_of start stop segs pss ->
  StronglySorted (fun x y => sg_Base x < sg_Base y) segs ->
  Forall2 (fun seg ps => align_safe ((sg_Length seg - 1) / RowBytes) ps) segs pss ->
  (length (concat pss) <= fuel)%nat ->
  let out := align_groups fuel (concat pss) in
  Forall (piece_ok files) out /\ Forall block_aligned out /\
  concat (piece_bytes files start stop <$> out) = concat (seg_part files start stop <$> segs).
Proof.
  intros Hs Hf Hp Hsort Hsafe. revert fuel Hf Hsort Hsafe.
  induction Hp as [|seg ps segs pss Hc Hp IH]; intros fuel Hf Hsort Hsafe Hfuel.
  { destruct fuel; repeat split; constructor. }
  inversion_clear Hf as [|?? Ht Hf']. inversion_clear Hsort as [|?? Hsort' Hlt].
  inversion_clear Hsafe as [|???? Hsafe1 Hsafe']. pose proof Ht as (Ho & Hb & Hlen & Hl).
  destruct (touched_rows start stop seg Ho Hs Hb Hl) as (H1 & _).
  destruct ps as [|p ps]; [cbn in Hc; lia |]. cbn [concat app] in *.
  destruct fuel as [|fuel]; [cbn in Hfuel; lia |]. cbn [align_groups].
  assert (span_segment p (ps ++ concat pss) = (ps, concat pss)) as ->.
  { pose proof (chain_Forall _ _ _ _ Hc) as Hall. apply Forall_cons in Hall as [(_ & _ & Ef & Eb & _) Hall].
    apply span_segment_app.
    - eapply Forall_impl; [exact Hall |]. cbn. intros q (_ & _ & Eqf & Eqb & _).
      unfold same_segment. by rewrite Ef, Eb, Eqf, Eqb, !Z.eqb_refl.
    - destruct Hp as [|seg' ps' segs pss Hc' Hp]; [done |]. cbn [concat].
      apply Forall_cons in Hlt as [Hlt _]. apply Forall_cons in Hf' as [(Ho' & Hb' & Hlen' & Hl') _].
      destruct (touched_rows start stop seg' Ho' Hs Hb' Hl') as (H1' & _).
      destruct ps' as [|q ps']; [cbn in Hc'; lia |]. cbn [app]. destruct Hc' as (-> & _).
      unfold same_segment. cbn. rewrite Eb. apply andb_false_iff. right. apply Z.eqb_neq. lia. }
  destruct (align_segment files start stop seg p ps Ht Hs Hc Hsafe1) as (A1 & A2 & A3).
  destruct (IH fuel Hf' Hsort' Hsafe') as (B1 & B2 & B3).
  { rewrite length_cons, length_app in Hfuel. lia. }
  split; [by apply Forall_app |]. split; [by apply Forall_app |].
  rewrite fmap_app, concat_app, fmap_cons, A3, B3. done.
Qed.

(** Where the pieces of a segment start. *)
Lemma piece_loop_lows fuel seg r hi step ps :
  0 <= r -> 1 <= step -> hi + step < 2 ^ 31 -> piece_loop fuel seg r hi step = Some ps ->
  Forall (fun p => exists k, 0 <= k /\ p_lo p = r + k * step /\ p_lo p <= hi) ps.
Proof.
  intros Hr Hs Hmax. revert r ps Hr. induction fuel as [|fuel IH]; intros r ps Hr; cbn [piece_loop];
    destruct (Z.leb_spec r hi); try done; try (intros [= <-]; constructor).
  rewrite (wrap32_small (r + step)) by lia.
  destruct (piece_loop fuel seg (r + step) hi step) as [rest|] eqn:E; [| done]. cbn.
  intros [= <-]. constructor; [exists 0; cbn; lia |].
  eapply Forall_impl; [apply (IH (r + step)); [lia | done] |].
  cbn. intros p (k & ? & ? & ?). exists (k + 1). lia.
Qed.

(** Arithmetic of an even division: with at least 129 rows per piece but one,
    the last piece keeps 16 rows. *)
Lemma even_share R c step k :
  1 <= R -> 1 <= c <= 64 -> 129 * (c - 1) <= R -> step = (R + c - 1) / c -> 0 <= k -> k * step <= R - 1 ->
  k = 0 \/ k * step + 16 <= R.
Proof.
  intros HR Hc Hrows Hstep Hk Hks.
  assert (R <= c * step /\ c * step <= R + c - 1) as [H1 H2].
  { subst step. pose proof (Z.div_mod (R + c - 1) c ltac:(lia)). pose proof (Z.mod_pos_bound (R + c - 1) c ltac:(lia)). lia. }
  clear Hstep. destruct (Z.eq_dec k 0) as [|Hk0]; [by left | right].
  assert (k <= c - 1) by nia. assert (2 <= c) by lia.
  assert (c + 15 <= step) by nia. nia.
Qed.

(** The shares of a single file of [R] rows and at most 64 MiB. *)
Lemma single_count_bounds span parallel R :
  1 <= span <= maxParallelPieces * readPieceBytes -> span <= R * RowBytes -> 1 <= parallel ->
  let c := piece_count span parallel 1 R in 1 <= R /\ 1 <= c <= 64 /\ 129 * (c - 1) <= R.
Proof.
  intros Hspan HR Hp c. assert (1 <= R) as HR1 by (unfold RowBytes in *; lia).
  pose proof (piece_count_pos span parallel 1 R HR1 ltac:(lia) Hp ltac:(lia)) as Hc. fold c in Hc.
  split; [done |]. split; [split; [done |] |]; revert Hc; unfold c, piece_count;
    (destruct (_ || _); [lia |]); rewrite (proj2 (Z.leb_le _ _) (proj2 Hspan)); cbn [Z.eqb Pos.eqb];
    unfold minReadPieceBytes, maxParallelPieces, readPieceBytes, RowBytes in *;
    set (target := Z.max _ _); assert (2 ^ 20 <= target) by (unfold target; lia);
    rewrite (quot_div_nonneg (_ + target - 1)) by lia; set (q := _ / target); intros Hq;
    assert (q * target <= span + target - 1) by (unfold q; rewrite Z.mul_comm; apply Z.mul_div_le; lia);
    assert ((q - 1) * 2 ^ 20 <= span - 1) by nia; lia.
Qed.

Definition single_file (m : Meta) : Prop := m_Parts m = None /\ m_PartEnds m = None.

(** One file and at most 64 MiB: rounding stays inside the file. *)
Lemma plan_align_safe seg start stop parallel ps :
  sg_Base seg = 0 -> 0 <= start <= stop -> stop < sg_Length seg <= 2 ^ 30 * RowBytes ->
  stop - start + 1 <= maxParallelPieces * readPieceBytes -> 1 <= parallel ->
  segment_pieces start stop parallel 1 seg = Some ps ->
  align_safe ((sg_Length seg - 1) / RowBytes) ps.
Proof.
  intros Hb Hs Hsize Hspan Hpar.
  assert (overlaps start stop seg = true) as Ho by (apply overlaps_true; lia).
  destruct (touched_rows start stop seg Ho Hs) as (H1 & H2 & H3 & H4 & H5); [lia.. |].
  destruct (segment_pieces_chain start stop parallel 1 seg Ho Hs) as (ps' & Hps' & Hch); [lia.. |].
  intros Hps. rewrite Hps in Hps'. injection Hps' as <-. revert Hps.
  unfold segment_pieces. rewrite !quot_div_nonneg by (unfold RowBytes; lia).
  fold (first_row start seg) (last_row stop seg).
  rewrite (wrap32_small (first_row start seg)), (wrap32_small (last_row stop seg)), (wrap32_small (_ - _)) by lia.
  remember (last_row stop seg - first_row start seg + 1) as R eqn:ER.
  destruct (single_count_bounds (stop - start + 1) parallel R) as (HR & Hc & Hc2);
    [lia | unfold RowBytes in *; lia | done |].
  remember (piece_count _ _ _ _) as c eqn:Ec. rewrite quot_div_nonneg by lia.
  remember ((R + c - 1) / c) as step eqn:Est.
  assert (1 <= step <= R) as Hst.
  { subst step. split; [apply Z.div_le_lower_bound; lia |].
    transitivity ((R * c) / c); [apply Z.div_le_mono; nia | by rewrite Z.div_mul by lia]. }
  rewrite wrap32_small by lia. intros Hps%piece_loop_lows; [| lia..]. unfold align_safe.
  destruct ps as [|p ps]; [constructor |]. cbn [tail]. apply Forall_cons in Hps as [_ Hps].
  destruct Hch as (Hp & Hpb & Hch). pose proof (chain_Forall _ _ _ _ Hch) as Hlo.
  apply Forall_forall. intros q Hq. rewrite Forall_forall in Hps, Hlo.
  destruct (Hps q Hq) as (k & Hk & Eq & Hle). destruct (Hlo q Hq) as (Hq1 & _).
  destruct (even_share R c step k HR Hc Hc2 Est Hk) as [-> | Hks]; [lia | lia |]. div_lia.
Qed.

(** The aligned plan of a manifest, for boundaries that stay inside. *)
Lemma align_plan_cover files m segs start stop parallel pss :
  Segments m = Ok segs -> Forall (file_ok files) segs -> 0 <= start <= stop -> stop < m_Size m ->
  planPieces m start stop parallel = Some (Ok (concat pss)) ->
  plan_of start stop (List.filter (overlaps start stop) segs) pss ->
  Forall2 (fun seg ps => align_safe ((sg_Length seg - 1) / RowBytes) ps)
    (List.filter (overlaps start stop) segs) pss ->
  Forall (piece_ok files) (alignPieces (concat pss)) /\ Forall block_aligned (alignPieces (concat pss)) /\
  concat (piece_bytes files start stop <$> alignPieces (concat pss)) =
    slice (object_bytes files segs) start (stop + 1).
Proof.
  intros Hseg Hf Hs Hsize Hp Hplan Hsafe.
  destruct (planPieces_chains files m segs start stop parallel Hseg Hf Hs Hsize) as (_ & _ & _ & Ht & <-).
  destruct (Segments_inv m segs ltac:(lia) Hseg) as (Htiles & _).
  apply (align_groups_plan files start stop _ pss); try done. by eapply tiles_increasing.
Qed.

(** *** Rows and blocks in the window *)

(** The bytes of the window [s, e) inside the stored group [off, off + w). *)
Lemma window_slice (body : bytes) s e off w :
  0 <= s -> 0 <= off <= zlen body -> 0 <= w ->
  let data := slice body off (Z.min (off + w) (zlen body)) in
  let a := Z.max s off - off in
  let z := Z.min e (off + zlen data) - off in
  (if z <=? a then [] else slice data a z) = clip body s e off (off + w).
Proof.
  intros Hs Hoff Hw data a z. assert (zlen data = Z.min (off + w) (zlen body) - off) as Hd
    by (unfold data; rewrite zlen_slice; lia).
  unfold clip. destruct (Z.leb_spec z a).
  - symmetry. destruct (Z.le_gt_cases (zlen body) (Z.max off s)); [by apply slice_past |].
    apply slice_nil_ge. lia.
  - unfold data. rewrite slice_slice by lia. rewrite (slice_clamp _ (Z.max off s)) by lia. f_equal; lia.
Qed.

(** Block [b] of a body: 32 consecutive rows. *)
Definition block_bytes (body : bytes) (b : Z) : bytes :=
  slice body (b * blockRows * RowBytes) (Z.min ((b + 1) * blockRows * RowBytes) (zlen body)).

Lemma clipBlock_window body base b start stop :
  0 <= b -> b * blockRows * RowBytes <= zlen body ->
  default [] (clipBlock base b (block_bytes body b) start stop) =
  clip body (Z.max (start - base) 0) (stop + 1 - base) (b * blockRows * RowBytes) ((b + 1) * blockRows * RowBytes).
Proof.
  intros Hb Hlen. assert (0 <= b * blockRows * RowBytes) by (unfold blockRows, RowBytes; lia).
  replace ((b + 1) * blockRows * RowBytes) with (b * blockRows * RowBytes + blockRows * RowBytes) by lia.
  rewrite <- window_slice by (unfold blockRows, RowBytes in *; lia). cbv zeta. unfold clipBlock, block_bytes.
  replace ((b + 1) * blockRows * RowBytes) with (b * blockRows * RowBytes + blockRows * RowBytes) by lia.
  set (data := slice body _ _). set (off := b * blockRows * RowBytes) in *.
  replace (Z.max (Z.max (start - base) off - off) 0) with (Z.max (Z.max (start - base) 0) off - off) by lia.
  replace (Z.min (Z.min (stop - base) (off + zlen data - 1) - off + 1) (zlen data))
    with (Z.min (stop + 1 - base) (off + zlen data) - off) by lia.
  by destruct (_ <=? _).
Qed.

Lemma appendRow_window body out base no start stop :
  0 <= no -> no * RowBytes <= zlen body ->
  appendRow out base no (row_bytes body no) start stop =
  out ++ clip body (Z.max (start - base) 0) (stop + 1 - base) (no * RowBytes) ((no + 1) * RowBytes).
Proof.
  intros Hn Hlen. assert (0 <= no * RowBytes) by (unfold RowBytes; lia).
  replace ((no + 1) * RowBytes) with (no * RowBytes + RowBytes) by lia.
  rewrite <- window_slice by (unfold RowBytes in *; lia). cbv zeta. unfold appendRow, row_bytes.
  replace ((no + 1) * RowBytes) with (no * RowBytes + RowBytes) by lia.
  set (data := slice body _ _). set (off := no * RowBytes) in *.
  replace (Z.max start (base + off) - (base + off)) with (Z.max (Z.max (start - base) 0) off - off) by lia.
  replace (Z.min stop (base + off + zlen data - 1) - (base + off) + 1)
    with (Z.min (stop + 1 - base) (off + zlen data) - off) by lia.
  destruct (Z.leb_spec (Z.max (Z.max (start - base) 0) off - off)
              (Z.min stop (base + off + zlen data - 1) - (base + off)));
  destruct (Z.leb_spec (Z.min (stop + 1 - base) (off + zlen data) - off)
              (Z.max (Z.max (start - base) 0) off - off)); try lia; [done | by rewrite app_nil_r].
Qed.

(** ** Properties *)

(** The plan of a read covers the span.  For every readable manifest, any
    span inside the object and any number of readers, [planPieces] returns
    pieces with valid row ranges whose bytes, in order, are exactly the bytes
    [start..stop] of the object; its loop ends. *)
Theorem planPieces_cover (files : Z -> bytes) (m : Meta) (segs : list Segment) (start stop parallel : Z)
    (Hseg : Segments m = Ok segs) (Hf : Forall (file_ok files) segs)
    (Hs : 0 <= start <= stop) (Hsize : stop < m_Size m) :
  exists ps, planPieces m start stop parallel = Some (Ok ps) /\ Forall (piece_ok files) ps /\
    concat (piece_bytes files start stop <$> ps) = slice (object_bytes files segs) start (stop + 1).
Proof.
  destruct (planPieces_chains files m segs start stop parallel Hseg Hf Hs Hsize)
    as (pss & Hp & Hplan & Ht & Hbytes).
  exists (concat pss). split; [done |]. rewrite <- Hbytes. by apply plan_bytes.
Qed.

Definition sample_files (id : Z) : bytes :=
  if id =? 7 then replicate 10 (chr 65) else replicate 20 (chr 66).

Lemma planPieces_cover_witness :
  exists ps, planPieces sample_manifest 5 12 4 = Some (Ok ps) /\ Forall (piece_ok sample_files) ps /\
    concat (piece_bytes sample_files 5 12 <$> ps) = replicate 5 (chr 65) ++ replicate 3 (chr 66).
Proof.
  apply (planPieces_cover sample_files sample_manifest [mkSegment 7 0 10; mkSegment 9 10 20] 5 12 4).
  - reflexivity.
  - repeat constructor; vm_compute; congruence.
  - lia.
  - by vm_compute.
Defined.

(** Block alignment keeps the plan of a single-file object: for spans of
    at most 64 MiB the aligned pieces start on a block, end on a block or on
    the last row, stay inside the file, and still stand for exactly the
    requested bytes. *)
Theorem alignPieces_cover (files : Z -> bytes) (m : Meta) (start stop parallel : Z)
    (Hm : single_file m) (Hlen : zlen (files (m_FileID m)) = m_Size m)
    (Hmax : m_Size m <= 2 ^ 30 * RowBytes) (Hs : 0 <= start <= stop) (Hsize : stop < m_Size m)
    (Hspan : stop - start + 1 <= maxParallelPieces * readPieceBytes) :
  exists ps, planPieces m start stop parallel = Some (Ok ps) /\
    Forall (piece_ok files) (alignPieces ps) /\ Forall block_aligned (alignPieces ps) /\
    concat (piece_bytes files start stop <$> alignPieces ps) = slice (files (m_FileID m)) start (stop + 1).
Proof.
  set (seg := mkSegment (m_FileID m) 0 (m_Size m)). destruct Hm as [Hp He].
  assert (Segments m = Ok [seg]) as Hseg by (unfold Segments; by rewrite Hp, He).
  assert (Forall (file_ok files) [seg]) as Hf by (by repeat constructor).
  assert (List.filter (overlaps start stop) [seg] = [seg]) as Hfil
    by (cbn; by rewrite (proj2 (overlaps_true start stop seg)) by (cbn; lia)).
  destruct (planPieces_chains files m [seg] start stop parallel Hseg Hf Hs Hsize)
    as (pss & Hplan & Hch & _). exists (concat pss). split; [done |].
  assert (object_bytes files [seg] = files (m_FileID m)) as <- by (cbn; apply app_nil_r).
  apply (align_plan_cover files m [seg] start stop parallel pss); try done.
  rewrite Hfil in *. inversion Hch as [|? ps ? pss' Hc Hn]; subst. inversion Hn; subst.
  repeat constructor. apply (plan_align_safe seg start stop (Z.max parallel 1)); try (cbn; lia).
  unfold planPieces in Hplan. rewrite Hseg, Hfil in Hplan. cbn [bool_decide] in Hplan.
  rewrite bool_decide_false in Hplan by done. change (zlen [seg]) with 1 in Hplan. cbn [all_pieces] in Hplan.
  destruct (segment_pieces _ _ _ _ _) as [ps'|]; [| done]. cbn in Hplan. by rewrite !app_nil_r in Hplan; injection Hplan as ->.
Qed.

Lemma alignPieces_cover_witness :
  let m := mkMeta (sample_info 10) [] None 7 None None None 1 in
  exists ps, planPieces m 2 6 4 = Some (Ok ps) /\
    Forall (piece_ok sample_files) (alignPieces ps) /\ Forall block_aligned (alignPieces ps) /\
    concat (piece_bytes sample_files 2 6 <$> alignPieces ps) = replicate 5 (chr 65).
Proof.
  apply (alignPieces_cover sample_files (mkMeta (sample_info 10) [] None 7 None None None 1) 2 6 4);
    [done | reflexivity | by vm_compute | lia | cbn; lia | by vm_compute].
Defined.

(** An object of two parts, 8 MiB and 200,000 bytes. *)
Definition two_part_object : Meta :=
  mkMeta (sample_info 8588608) [] None 7 (Some [7; 9]) (Some [8388608; 8588608]) None 1.

(** With several segments the rounding can leave the file.  For a whole
    read of a two-part object with eight readers, [alignPieces] asks for rows
    0..31 of a file whose last row is 24: a row that does not exist, on which
    the row reader reports an error. *)
Theorem alignPieces_overrun :
  exists ps, planPieces two_part_object 0 8588607 8 = Some (Ok ps) /\
    mkPiece 9 8388608 200000 0 31 ∈ alignPieces ps /\ segmentLastRow 200000 = 24.
Proof.
  eexists. split; [vm_compute; reflexivity |]. split; [| reflexivity].
  apply list_elem_of_lookup_2 with (i := 4%nat). vm_compute. reflexivity.
Qed.

(** Reads share the chunk pool: a read uses between one and eight
    workers, and as long as two connections per read fit into half the pool,
    all reads together with their guard connections stay within that half. *)
Theorem readWorkersFor_budget (maxConns inflight : Z) (Hi : 1 <= inflight) (Hm : 0 <= maxConns) :
  1 <= readWorkersFor maxConns inflight <= maxParallelPieces /\
  (2 * inflight <= maxConns / 2 -> inflight * (1 + readWorkersFor maxConns inflight) <= maxConns / 2).
Proof.
  unfold readWorkersFor, maxParallelPieces. rewrite (Z.max_l inflight 1), !quot_div_nonneg by lia.
  split; [lia |]. intros H. rewrite (Z.max_l (maxConns / 2) 1), (Z.max_l (_ - _) 0) by lia.
  pose proof (Z.mul_div_le (maxConns / 2 - inflight) inflight ltac:(lia)).
  assert (1 <= (maxConns / 2 - inflight) / inflight) by (apply Z.div_le_lower_bound; lia).
  rewrite Z.max_l by lia. nia.
Qed.

Lemma readWorkersFor_budget_witness :
  1 <= readWorkersFor 40 4 <= maxParallelPieces /\
  (2 * 4 <= 40 / 2 -> 4 * (1 + readWorkersFor 40 4) <= 40 / 2).
Proof. apply (readWorkersFor_budget 40 4); lia. Defined.
