(* ===== verification/Reader.v ===== *)
(** * The row reader of a piece

    Models [decodeRow], [chunkRowReader.next], [chunkRowReader.nextChunk] and
    [streamRows] of [internal/store/object.go] and [blockFill.add] of
    [blockcache.go].  A query returns raw rows in any order (the SQL has no
    ORDER BY); the reader delivers response chunks in row order and assembles
    complete blocks for the block cache on the way.

    The cache is shared with other requests: what [contains] answers when a
    block starts is a parameter, and the blocks handed to [put] are recorded
    in the reader state. *)

From S2P Require Import Prelude GoStrings Ranges Blocks Pieces.

(** ** Definitions *)

(** A row as [RawValues] gives it: its columns, [None] for NULL. *)
Abbreviation raw_row := (list (option bytes)).

Inductive read_error :=
| RowBeyondSegment (no : Z)
| CorruptBlock (e : block_error)
| UnexpectedRowShape
| RowsFailed
| RowMissing (no : Z).

Record blockFill := mkFill {
  bf_segLen : Z;
  bf_hi : Z;
  bf_block : Z;
  bf_buf : option bytes
}.

Definition new_fill (p : piece) : blockFill := mkFill (p_segLen p) (p_hi p) (-1) None.

Record chunk := mkChunk { ck_b : bytes; ck_shared : bool }.

Record chunkRowReader := mkReader {
  rd_rows : list raw_row;
  rd_rowsErr : bool;
  rd_nextNo : Z;
  rd_early : option (list (option bytes));
  rd_pending : option bytes;
  rd_fill : option blockFill;
  rd_puts : list (Z * bytes)
}.

Definition chunkSize : Z := 256 * 1024.

Inductive next_res :=
| NextRow (no : Z) (row : bytes)
| NextEOF
| NextErr (e : read_error).

Inductive chunk_res :=
| GotChunk (c : chunk)
| ChunkEOF
| ChunkErr (e : read_error).

(** [blockFill.add]: the new state, the completed block, [inBlock], and the
    block stored in the cache. *)
Definition fill_add (contains : Z -> bool) (fill : option blockFill) (no : Z) (data : bytes)
    : option blockFill * option bytes * bool * list (Z * bytes) :=
  match fill with
  | None => (None, None, false, [])
  | Some f =>
      let b := Z.quot no blockRows in
      let last := blockLastRow b (bf_segLen f) in
      let f :=
        if Z.rem no blockRows =? 0 then
          if (last <=? bf_hi f) && negb (contains b) then mkFill (bf_segLen f) (bf_hi f) b (Some [])
          else mkFill (bf_segLen f) (bf_hi f) (-1) None
        else f in
      match bf_buf f with
      | Some buf =>
          if negb (bf_block f =? b) then (Some f, None, false, [])
          else
            let buf := buf ++ data in
            if no =? last then
              (Some (mkFill (bf_segLen f) (bf_hi f) (-1) None), Some buf, true, [(b, buf)])
            else (Some (mkFill (bf_segLen f) (bf_hi f) b (Some buf)), None, true, [])
      | None => (Some f, None, false, [])
      end
  end.

Section Reader.
Context `{Zstd} (p : piece) (start stop : Z) (contains : Z -> bool).

Definition decodeRow (no : Z) (stored : bytes) : result read_error bytes :=
  let want := Z.min RowBytes (p_segLen p - no * RowBytes) in
  if want <? 0 then Err (RowBeyondSegment no)
  else match decompressBlock stored want with
       | Ok b => Ok b
       | Err e => Err (CorruptBlock e)
       end.

Definition newChunkRowReader (rows : list raw_row) (rowsErr : bool) (fill : option blockFill) : chunkRowReader :=
  mkReader rows rowsErr (p_lo p) None None fill [].

Definition with_rows (r : chunkRowReader) (rows : list raw_row) : chunkRowReader :=
  mkReader rows (rd_rowsErr r) (rd_nextNo r) (rd_early r) (rd_pending r) (rd_fill r) (rd_puts r).
Definition with_early (r : chunkRowReader) (early : option (list (option bytes))) : chunkRowReader :=
  mkReader (rd_rows r) (rd_rowsErr r) (rd_nextNo r) early (rd_pending r) (rd_fill r) (rd_puts r).
Definition with_next (r : chunkRowReader) : chunkRowReader :=
  mkReader (rd_rows r) (rd_rowsErr r) (wrap32 (rd_nextNo r + 1)) (rd_early r) (rd_pending r) (rd_fill r) (rd_puts r).
Definition with_pending (r : chunkRowReader) (b : option bytes) : chunkRowReader :=
  mkReader (rd_rows r) (rd_rowsErr r) (rd_nextNo r) (rd_early r) b (rd_fill r) (rd_puts r).
Definition with_fill (r : chunkRowReader) (f : option blockFill) (puts : list (Z * bytes)) : chunkRowReader :=
  mkReader (rd_rows r) (rd_rowsErr r) (rd_nextNo r) (rd_early r) (rd_pending r) f (rd_puts r ++ puts).

(** Decoding the row [no] and advancing. *)
Definition deliver (r : chunkRowReader) (no : Z) (stored : bytes) : next_res * chunkRowReader :=
  match decodeRow no stored with
  | Err e => (NextErr e, r)
  | Ok row => (NextRow no row, with_next r)
  end.

(** The row number of a raw row: two columns, four bytes, data not NULL. *)
Definition row_shape (raw : raw_row) : option (Z * bytes) :=
  match raw with
  | [Some n; Some d] => if zlen n =? 4 then Some (wrap32 (be_val n), d) else None
  | _ => None
  end.

(** An empty copy is a nil slice. *)
Definition copy_of (d : bytes) : option bytes := match d with [] => None | _ => Some d end.

(** The [for r.rows.Next()] loop of [next]. *)
Fixpoint next_rows (rows : list raw_row) (r : chunkRowReader) : next_res * chunkRowReader :=
  match rows with
  | [] =>
      let r := with_rows r [] in
      if rd_rowsErr r then (NextErr RowsFailed, r)
      else if rd_nextNo r <=? p_hi p then (NextErr (RowMissing (rd_nextNo r)), r)
      else (NextEOF, r)
  | raw :: rows' =>
      match row_shape raw with
      | None => (NextErr UnexpectedRowShape, with_rows r rows')
      | Some (no, d) =>
          if (no <? rd_nextNo r) || (p_hi p <? no) then next_rows rows' r
          else if rd_nextNo r <? no then
            let early := default (replicate (Z.to_nat (p_hi p - p_lo p + 1)) None) (rd_early r) in
            next_rows rows' (with_early r (Some (<[Z.to_nat (no - p_lo p) := copy_of d]> early)))
          else deliver (with_rows r rows') no d
      end
  end.

Definition next (r : chunkRowReader) : next_res * chunkRowReader :=
  let idx := rd_nextNo r - p_lo p in
  match rd_early r ≫= (fun early => if 0 <=? idx then early !! Z.to_nat idx else None) with
  | Some (Some data) =>
      let r := with_early r (<[Z.to_nat idx := None]> <$> rd_early r) in
      deliver r (rd_nextNo r) data
  | _ => next_rows (rd_rows r) r
  end.

(** The loop of [nextChunk]; [out] is the buffer being filled, [None] for nil. *)
Fixpoint chunk_loop (fuel : nat) (r : chunkRowReader) (out : option bytes)
    : option (chunk_res * chunkRowReader) :=
  match fuel with
  | O => None
  | S fuel' =>
      match next r with
      | (NextEOF, r) =>
          match out with
          | Some ((_ :: _) as o) => Some (GotChunk (mkChunk o false), r)
          | _ => Some (ChunkEOF, r)
          end
      | (NextErr e, r) => Some (ChunkErr e, r)
      | (NextRow no data, r) =>
          let '(f, blockBuf, inBlock, puts) := fill_add contains (rd_fill r) no data in
          let r := with_fill r f puts in
          if inBlock then
            match blockBuf ≫= (fun blk => clipBlock (p_base p) (Z.quot no blockRows) blk start stop) with
            | Some clipped =>
                match out with
                | Some ((_ :: _) as o) => Some (GotChunk (mkChunk o false), with_pending r (Some clipped))
                | _ => Some (GotChunk (mkChunk clipped true), r)
                end
            | None => chunk_loop fuel' r out
            end
          else
            let o := appendRow (default [] out) (p_base p) no data start stop in
            if chunkSize <=? zlen o then Some (GotChunk (mkChunk o false), r)
            else chunk_loop fuel' r (Some o)
      end
  end.

Definition nextChunk (fuel : nat) (r : chunkRowReader) : option (chunk_res * chunkRowReader) :=
  match rd_pending r with
  | Some b => Some (GotChunk (mkChunk b true), with_pending r None)
  | None => chunk_loop fuel r None
  end.

(** [streamRows]: the chunks sent until the rows end; [send] succeeds. *)
Fixpoint stream_loop (fuel : nat) (inner : nat) (r : chunkRowReader)
    : option (list chunk * option read_error * chunkRowReader) :=
  match fuel with
  | O => None
  | S fuel' =>
      match nextChunk inner r with
      | None => None
      | Some (ChunkEOF, r) => Some ([], None, r)
      | Some (ChunkErr e, r) => Some ([], Some e, r)
      | Some (GotChunk c, r) =>
          '(cs, e, r) ← stream_loop fuel' inner r;
          Some (c :: cs, e, r)
      end
  end.

(** Every call of [next] but the last delivers a row, so the number of rows
    bounds the rounds of [nextChunk]; every chunk but the blocks' second
    halves ends with a new row, so twice that number bounds the calls. *)
Definition stream_rounds : nat := Z.to_nat (p_hi p - p_lo p + 2).

Definition streamRows (rows : list raw_row) (rowsErr : bool) (fill : option blockFill)
    : option (list chunk * option read_error * chunkRowReader) :=
  stream_loop (2 * stream_rounds) stream_rounds (newChunkRowReader rows rowsErr fill).

End Reader.

(** ** Specification *)

Definition stored `{Zstd} (body : bytes) (no : Z) : bytes := compressBlock (row_bytes body no).

Definition raw_of `{Zstd} (body : bytes) (no : Z) : raw_row := [Some (be 4 no); Some (stored body no)].

(** The bytes of the rows [a..b-1] that lie in the span. *)
Definition window (p : piece) (start stop : Z) (body : bytes) (a b : Z) : bytes :=
  clip body (Z.max (start - p_base p) 0) (stop + 1 - p_base p) (a * RowBytes) (b * RowBytes).

(** ** Lemmas *)

Section ReaderLemmas.
Context `{ZL : ZstdLaws} (p : piece) (start stop : Z) (contains : Z -> bool) (body : bytes).
Context (Hlo : 0 <= p_lo p <= p_hi p) (Hhi : p_hi p <= (p_segLen p - 1) / RowBytes)
  (Hmax : p_hi p < 2 ^ 30) (Hbody : zlen body = p_segLen p).

Abbreviation lo := (p_lo p).
Abbreviation hi := (p_hi p).
Abbreviation W := (window p start stop body).

Lemma row_in_body no : lo <= no <= hi -> 0 <= no * RowBytes < zlen body.
Proof. rewrite Hbody. intros. unfold RowBytes in *. div_lia. Qed.

Lemma zlen_row no : lo <= no <= hi -> zlen (row_bytes body no) = Z.min RowBytes (p_segLen p - no * RowBytes).
Proof.
  intros Hn. pose proof (row_in_body no Hn). unfold row_bytes. rewrite zlen_slice by (unfold RowBytes in *; lia).
  unfold RowBytes in *. lia.
Qed.

Lemma stored_nonempty no : lo <= no <= hi -> stored body no <> [].
Proof.
  intros Hn. apply compressBlock_nonempty. intros E%(f_equal zlen). rewrite zlen_row in E by done.
  pose proof (row_in_body no Hn). change (zlen (@nil ascii)) with 0 in E. unfold RowBytes in *. lia.
Qed.

Lemma decodeRow_stored no : lo <= no <= hi -> decodeRow p no (stored body no) = Ok (row_bytes body no).
Proof.
  intros Hn. unfold decodeRow. rewrite <- zlen_row by done. pose proof (zlen_nonneg (row_bytes body no)).
  destruct (Z.ltb_spec (zlen (row_bytes body no)) 0); [lia |]. unfold stored. by rewrite decompress_compress.
Qed.

Lemma row_shape_raw no : lo <= no <= hi -> row_shape (raw_of body no) = Some (no, stored body no).
Proof.
  intros Hn. unfold row_shape, raw_of. rewrite zlen_be. change (Z.of_nat 4 =? 4) with true. cbv iota.
  rewrite be_val_be. change (256 ^ Z.of_nat 4) with (2 ^ 32). rewrite Z.mod_small, wrap32_small by lia. done.
Qed.

(** The state of the two row buffers: [early] holds only correct rows, and
    every row still to be delivered is there or still to come. *)
Record rows_inv (rows : list raw_row) (nextNo : Z) (early : option (list (option bytes))) : Prop := {
  ri_next : lo <= nextNo <= hi + 1;
  ri_rows : Forall (fun raw => exists no, lo <= no <= hi /\ raw = raw_of body no) rows;
  ri_early : forall e, early = Some e -> length e = Z.to_nat (hi - lo + 1) /\
    forall i d, e !! i = Some (Some d) -> d = stored body (lo + Z.of_nat i);
  ri_cover : forall no, nextNo <= no <= hi ->
    (exists e, early = Some e /\ e !! Z.to_nat (no - lo) = Some (Some (stored body no))) \/ raw_of body no ∈ rows
}.

(** What [next] leaves alone. *)
Definition same_rest (r r' : chunkRowReader) : Prop :=
  rd_pending r' = rd_pending r /\ rd_fill r' = rd_fill r /\ rd_puts r' = rd_puts r /\ rd_rowsErr r' = rd_rowsErr r.

Definition reader_inv (r : chunkRowReader) : Prop :=
  rows_inv (rd_rows r) (rd_nextNo r) (rd_early r) /\ rd_rowsErr r = false.

Lemma raw_of_inj a b : lo <= a <= hi -> lo <= b <= hi -> raw_of body a = raw_of body b -> a = b.
Proof. intros Ha Hb E%(f_equal row_shape). rewrite !row_shape_raw in E by done. congruence. Qed.

(** Delivering the next row. *)
Lemma deliver_next r :
  rows_inv (rd_rows r) (rd_nextNo r + 1) (rd_early r) -> lo <= rd_nextNo r <= hi -> rd_rowsErr r = false ->
  exists r', deliver p r (rd_nextNo r) (stored body (rd_nextNo r)) =
      (NextRow (rd_nextNo r) (row_bytes body (rd_nextNo r)), r') /\
    reader_inv r' /\ rd_nextNo r' = rd_nextNo r + 1 /\ same_rest r r'.
Proof.
  intros Hinv Hle He. unfold deliver. rewrite decodeRow_stored by lia. eexists. split; [reflexivity |].
  unfold reader_inv, with_next. cbn. rewrite wrap32_small by lia. done.
Qed.

(** Dropping a row that is no longer needed. *)
Lemma rows_inv_tail no rows nextNo next' early :
  rows_inv (raw_of body no :: rows) nextNo early -> lo <= no <= hi ->
  nextNo <= next' <= hi + 1 -> no < next' -> rows_inv rows next' early.
Proof.
  intros [H1 H2 H3 H4] Hno Hn Hlt. apply Forall_cons in H2 as [_ H2]. split; try done; [lia |].
  intros no' Hno'. destruct (H4 no' ltac:(lia)) as [?|[E|?]%elem_of_cons]; [by left | | by right].
  apply raw_of_inj in E; lia.
Qed.

(** Keeping a row that comes too early. *)
Lemma rows_inv_early no rows nextNo early :
  rows_inv (raw_of body no :: rows) nextNo early -> lo <= no <= hi -> nextNo < no ->
  rows_inv rows nextNo (Some (<[Z.to_nat (no - lo) := copy_of (stored body no)]>
    (default (replicate (Z.to_nat (hi - lo + 1)) None) early))).
Proof.
  intros [H1 H2 H3 H4] Hno Hlt. apply Forall_cons in H2 as [_ H2].
  set (e0 := default _ early).
  assert (copy_of (stored body no) = Some (stored body no)) as Hcopy
    by (pose proof (stored_nonempty no Hno); by destruct (stored body no)).
  assert (length e0 = Z.to_nat (hi - lo + 1) /\
    forall i d, e0 !! i = Some (Some d) -> d = stored body (lo + Z.of_nat i)) as [Hlen He0].
  { unfold e0. destruct early as [e|]; [by apply H3 |]. cbn. split; [apply length_replicate |].
    intros i d [? ?]%lookup_replicate. done. }
  rewrite Hcopy. split; try done.
  - intros e [= <-]. rewrite length_insert. split; [done |]. intros i d.
    intros [(<- & [= <-] & _) | [_ Hi]]%list_lookup_insert_Some; [| auto].
    f_equal. lia.
  - intros no' Hno'. destruct (Z.eq_dec no' no) as [->|Hne].
    { left. eexists. split; [done |]. rewrite list_lookup_insert_eq by lia. done. }
    destruct (H4 no' Hno') as [(e & -> & He)|[E|?]%elem_of_cons].
    + left. eexists. split; [done |]. rewrite list_lookup_insert_ne by lia. done.
    + apply raw_of_inj in E; lia.
    + by right.
Qed.

Lemma next_rows_row rows r :
  rows_inv rows (rd_nextNo r) (rd_early r) -> rd_nextNo r <= hi -> rd_rowsErr r = false ->
  (forall e, rd_early r = Some e -> e !! Z.to_nat (rd_nextNo r - lo) <> Some (Some (stored body (rd_nextNo r)))) ->
  exists r', next_rows p rows r = (NextRow (rd_nextNo r) (row_bytes body (rd_nextNo r)), r') /\
    reader_inv r' /\ rd_nextNo r' = rd_nextNo r + 1 /\ same_rest r r'.
Proof.
  revert r. induction rows as [|raw rows IH]; intros r Hinv Hle Herr Hno.
  { destruct (ri_cover _ _ _ Hinv (rd_nextNo r)) as [(e & He & Hi)|Hin]; [lia | by destruct (Hno e) | by apply not_elem_of_nil in Hin]. }
  pose proof (ri_rows _ _ _ Hinv) as Hrows. apply Forall_cons in Hrows as [(no & Hnor & ->) _].
  pose proof (ri_next _ _ _ Hinv). cbn [next_rows]. rewrite row_shape_raw by done.
  destruct (Z.ltb_spec no (rd_nextNo r)) as [Hlt|Hge]; cbn [orb].
  { apply IH; [by apply (rows_inv_tail no rows (rd_nextNo r)); [| | lia |] | done..]. }
  destruct (Z.ltb_spec hi no); [lia |]. destruct (Z.ltb_spec (rd_nextNo r) no) as [Hlt|Heq].
  - destruct (IH (with_early r (Some (<[Z.to_nat (no - lo) := copy_of (stored body no)]>
      (default (replicate (Z.to_nat (hi - lo + 1)) None) (rd_early r))))) (rows_inv_early no rows _ _ Hinv Hnor Hlt) Hle Herr)
      as (r' & E & Hr'); [| by exists r'].
    cbn. intros e [= <-]. rewrite list_lookup_insert_ne by lia.
    destruct (rd_early r) as [e|]; [by apply Hno |]. cbn. by intros [? _]%lookup_replicate.
  - assert (no = rd_nextNo r) as -> by lia.
    apply (deliver_next (with_rows r rows)); cbn; [| lia | done].
    by apply (rows_inv_tail (rd_nextNo r) rows (rd_nextNo r)); [| | lia | lia].
Qed.

Lemma next_rows_eof rows r :
  rows_inv rows (rd_nextNo r) (rd_early r) -> rd_nextNo r = hi + 1 -> rd_rowsErr r = false ->
  exists r', next_rows p rows r = (NextEOF, r') /\ reader_inv r' /\ rd_nextNo r' = rd_nextNo r /\ same_rest r r'.
Proof.
  induction rows as [|raw rows IH]; intros Hinv Hn Herr.
  - exists (with_rows r []). cbn [next_rows]. cbn. rewrite Herr, (proj2 (Z.leb_gt _ _)) by lia. done.
  - pose proof (ri_rows _ _ _ Hinv) as Hrows. apply Forall_cons in Hrows as [(no & Hnor & ->) _].
    cbn [next_rows]. rewrite row_shape_raw by done. rewrite (proj2 (Z.ltb_lt no (rd_nextNo r))) by lia. cbn [orb].
    apply IH; [by apply (rows_inv_tail no rows (rd_nextNo r)); [| | lia | lia] | done..].
Qed.

(** [next] delivers the rows in order, then reports the end. *)
Lemma next_spec r :
  reader_inv r ->
  exists r', next p r =
      (if rd_nextNo r <=? hi then NextRow (rd_nextNo r) (row_bytes body (rd_nextNo r)) else NextEOF, r') /\
    reader_inv r' /\ rd_nextNo r' = (if rd_nextNo r <=? hi then rd_nextNo r + 1 else rd_nextNo r) /\
    same_rest r r'.
Proof.
  intros [Hinv Herr]. pose proof (ri_next _ _ _ Hinv) as Hn. unfold next.
  rewrite (proj2 (Z.leb_le 0 (rd_nextNo r - lo))) by lia.
  destruct (Z.leb_spec (rd_nextNo r) hi) as [Hle|Hgt].
  - destruct (rd_early r ≫= _) as [[d|]|] eqn:Ee.
    1: { apply bind_Some in Ee as (e & He & Hd). destruct (ri_early _ _ _ Hinv e He) as [Hlen Hok].
      pose proof (Hok _ _ Hd) as ->. replace (lo + Z.of_nat (Z.to_nat (rd_nextNo r - lo))) with (rd_nextNo r) by lia.
      apply (deliver_next (with_early r (<[Z.to_nat (rd_nextNo r - lo) := None]> <$> rd_early r))); cbn; [| lia | done].
      rewrite He. cbn. destruct Hinv as [H1 H2 H3 H4]. split; try done; [lia | |].
      - intros e' [= <-]. rewrite length_insert. split; [done |]. intros i d.
        intros [(_ & ? & _) | [_ Hi]]%list_lookup_insert_Some; [done | auto].
      - intros no Hno. destruct (H4 no) as [(e1 & He1 & Hi)|?]; [lia | | by right]. left.
        rewrite He in He1. injection He1 as <-. eexists. split; [done |]. by rewrite list_lookup_insert_ne by lia. }
    all: apply next_rows_row; try done; intros e He Hi; rewrite He in Ee; cbn in Ee; congruence.
  - assert (rd_nextNo r = hi + 1) as Hend by lia. destruct (rd_early r ≫= _) as [[d|]|] eqn:Ee.
    1: { apply bind_Some in Ee as (e & He & Hd). destruct (ri_early _ _ _ Hinv e He) as [Hlen Hok].
      apply lookup_lt_Some in Hd. lia. }
    all: by apply next_rows_eof.
Qed.

(** *** Windows of rows *)

Lemma window_cat a b c : a <= b -> b <= c -> W a b ++ W b c = W a c.
Proof. intros. apply clip_cat; unfold RowBytes; lia. Qed.

Lemma window_empty a b : b <= a -> W a b = [].
Proof. intros. apply clip_empty. unfold RowBytes. lia. Qed.

(** Beyond the last byte all windows end alike. *)
Lemma window_end a b b' : 0 <= a -> zlen body <= b * RowBytes -> zlen body <= b' * RowBytes -> W a b = W a b'.
Proof.
  intros. unfold window, clip. rewrite slice_clamp by (unfold RowBytes; lia).
  rewrite (slice_clamp _ _ (Z.min (b' * RowBytes) _)) by (unfold RowBytes; lia). f_equal. lia.
Qed.

Lemma appendRow_row out no :
  lo <= no <= hi -> appendRow out (p_base p) no (row_bytes body no) start stop = out ++ W no (no + 1).
Proof. intros Hn. pose proof (row_in_body no Hn). apply appendRow_window; lia. Qed.

(** *** Assembling blocks *)

Lemma segmentLastRow_body : segmentLastRow (p_segLen p) = (p_segLen p - 1) / RowBytes \/
  2 ^ 31 <= (p_segLen p - 1) / RowBytes.
Proof.
  assert (0 < zlen body) by (pose proof (row_in_body lo ltac:(lia)); lia).
  unfold segmentLastRow. rewrite quot_div_nonneg by (unfold RowBytes; lia).
  destruct (Z.le_gt_cases (2 ^ 31) ((p_segLen p - 1) / RowBytes)); [by right | left].
  apply wrap32_small. unfold RowBytes in *. div_lia.
Qed.

Context (Hseg : (p_segLen p - 1) / RowBytes < 2 ^ 30).

Lemma blockLastRow_body b :
  0 <= b -> b * 32 <= hi -> blockLastRow b (p_segLen p) = Z.min (b * 32 + 31) ((p_segLen p - 1) / RowBytes).
Proof.
  intros. unfold blockLastRow, blockRows. destruct segmentLastRow_body as [-> | ?]; [| lia].
  rewrite wrap32_small by lia. f_equal. lia.
Qed.

(** The block being assembled: its rows so far. *)
Definition fill_inv (nextNo : Z) (fill : option blockFill) : Prop :=
  match fill with
  | None => True
  | Some f =>
      bf_segLen f = p_segLen p /\ bf_hi f = hi /\
      match bf_buf f with
      | None => True
      | Some buf =>
          let b := bf_block f in
          lo <= b * 32 < nextNo /\ nextNo <= blockLastRow b (p_segLen p) <= hi /\
          buf = slice body (b * 32 * RowBytes) (nextNo * RowBytes)
      end
  end.

(** The first row whose bytes are not yet in a response chunk. *)
Definition accounted (nextNo : Z) (fill : option blockFill) : Z :=
  match fill with
  | Some f => match bf_buf f with Some _ => bf_block f * 32 | None => nextNo end
  | None => nextNo
  end.

Definition puts_ok (puts : list (Z * bytes)) : Prop :=
  Forall (fun '(b, data) => data = block_bytes body b /\ lo <= b * 32 /\ 0 <= b) puts.

Lemma slice_row a no :
  0 <= a -> a * RowBytes <= no * RowBytes -> lo <= no <= hi ->
  slice body (a * RowBytes) (no * RowBytes) ++ row_bytes body no = slice body (a * RowBytes) ((no + 1) * RowBytes).
Proof.
  intros Ha Hle Hn. pose proof (row_in_body no Hn). unfold row_bytes.
  rewrite <- (slice_clamp body (no * RowBytes)) by lia. apply slice_cat; unfold RowBytes in *; lia.
Qed.

(** A complete block: it is the block's content, and its clipped bytes are the
    window of its rows. *)
Lemma block_complete b last :
  0 <= b -> lo <= b * 32 <= hi -> last = Z.min (b * 32 + 31) ((p_segLen p - 1) / RowBytes) ->
  slice body (b * 32 * RowBytes) ((last + 1) * RowBytes) = block_bytes body b /\
  default [] (clipBlock (p_base p) b (block_bytes body b) start stop) = W (b * 32) (last + 1).
Proof.
  intros Hb Hl ->. pose proof (row_in_body (b * 32) Hl). split.
  - unfold block_bytes, blockRows. rewrite slice_clamp by lia. f_equal. rewrite Hbody. unfold RowBytes in *. div_lia.
  - rewrite clipBlock_window by (unfold blockRows; lia). unfold blockRows.
    replace ((b + 1) * 32) with (b * 32 + 32) by lia. change (clip body _ _ _ _) with (W (b * 32) (b * 32 + 32)).
    destruct (Z.le_gt_cases (b * 32 + 31) ((p_segLen p - 1) / RowBytes)).
    + f_equal. lia.
    + apply window_end; [lia | |]; rewrite Hbody; unfold RowBytes in *; div_lia.
Qed.

(** What one [add] of row [no] achieves, with [k] the first row not yet in a
    chunk: the row is to be copied, or it is in a block, complete or not. *)
Definition add_ok (k no : Z) (res : option blockFill * option bytes * bool * list (Z * bytes)) : Prop :=
  let '(fill', blk, inb, puts) := res in
  fill_inv (no + 1) fill' /\ puts_ok puts /\
  match inb, blk with
  | false, _ => k = no /\ accounted (no + 1) fill' = no + 1
  | true, None => accounted (no + 1) fill' = k
  | true, Some data => accounted (no + 1) fill' = no + 1 /\ k <= no /\
      default [] (clipBlock (p_base p) (no / 32) data start stop) = W k (no + 1)
  end.

(** Adding a row to the block being assembled. *)
Lemma fill_step no buf :
  let b := no / 32 in
  let last := blockLastRow b (p_segLen p) in
  lo <= no <= hi -> lo <= b * 32 -> last <= hi -> buf = slice body (b * 32 * RowBytes) (no * RowBytes) ->
  add_ok (b * 32) no
    (if no =? last then
       (Some (mkFill (p_segLen p) hi (-1) None), Some (buf ++ row_bytes body no), true, [(b, buf ++ row_bytes body no)])
     else (Some (mkFill (p_segLen p) hi b (Some (buf ++ row_bytes body no))), None, true, [])).
Proof.
  intros b last Hn Hlob Hlh ->. assert (0 <= b /\ b * 32 <= no < b * 32 + 32) as Hb by (unfold b; div_lia).
  assert (last = Z.min (b * 32 + 31) ((p_segLen p - 1) / RowBytes)) as Hlast by (apply blockLastRow_body; lia).
  rewrite slice_row by (unfold RowBytes; lia). destruct (Z.eqb_spec no last) as [El|Hne].
  - destruct (block_complete b last) as [E1 E2]; [lia.. | done |]. rewrite <- El in E1, E2. rewrite E1.
    split; [done |]. split; [constructor; [repeat split; lia | constructor] |]. cbn [accounted bf_buf].
    fold b. rewrite E2. repeat split; lia.
  - split; [| split; [constructor | done]]. cbn. fold last. repeat split; lia.
Qed.

(** A row that belongs to no block being assembled. *)
Lemma fill_copy no f :
  bf_segLen f = p_segLen p -> bf_hi f = hi -> bf_buf f = None -> add_ok no no (Some f, None, false, []).
Proof. intros Hs Hh Hb. unfold add_ok, fill_inv, accounted. rewrite Hs, Hh, Hb. by repeat split; try constructor. Qed.

Lemma fill_add_spec fill no :
  fill_inv no fill -> lo <= no <= hi ->
  add_ok (accounted no fill) no (fill_add contains fill no (row_bytes body no)).
Proof.
  intros Hf Hn. destruct fill as [f|]; [| by repeat split; try constructor].
  destruct Hf as (Hsl & Hfh & Hbuf). unfold fill_add. rewrite quot_div_nonneg, rem_mod_nonneg by (unfold blockRows; lia).
  unfold blockRows. rewrite Hsl, Hfh. pose proof (fill_step no) as Hin. cbv zeta in Hin.
  destruct (Z.eqb_spec (no mod 32) 0) as [Hz|Hnz].
  - assert (no / 32 * 32 = no) as Hbn by div_lia. rewrite Hbn in Hin.
    assert (accounted no (Some f) = no) as ->.
    { cbn. destruct (bf_buf f); [| done]. destruct Hbuf as (H1 & H2 & _). rewrite blockLastRow_body in H2 by lia.
      exfalso. clear -H1 H2 Hz. div_lia. }
    destruct (Z.leb_spec (blockLastRow (no / 32) (p_segLen p)) hi) as [Hlh|Hlh]; cbn [andb]; [| by apply fill_copy].
    destruct (contains (no / 32)); cbn [negb bf_buf bf_block bf_segLen bf_hi]; [by apply fill_copy |].
    rewrite Z.eqb_refl. apply (Hin []); [done | lia | done | by rewrite slice_nil_ge by lia].
  - unfold accounted. destruct (bf_buf f) as [buf|] eqn:Ebuf; [| by apply fill_copy].
    destruct Hbuf as (H1 & H2 & H3). pose proof H2 as H2'. rewrite blockLastRow_body in H2 by lia.
    assert (bf_block f = no / 32) as Eb by (clear -H1 H2; div_lia). rewrite Eb in *.
    rewrite Z.eqb_refl. cbn [negb]. rewrite Hsl, Hfh. apply Hin; (done || lia).
Qed.

(** *** Chunks *)

Definition state_ok (r : chunkRowReader) : Prop :=
  reader_inv r /\ fill_inv (rd_nextNo r) (rd_fill r) /\ puts_ok (rd_puts r).

(** The bytes of the piece that are not yet in a chunk. *)
Definition remaining (r : chunkRowReader) : bytes := W (accounted (rd_nextNo r) (rd_fill r)) (hi + 1).

Lemma fill_inv_end fill : fill_inv (hi + 1) fill -> accounted (hi + 1) fill = hi + 1.
Proof.
  destruct fill as [f|]; [| done]. intros (_ & _ & Hb). unfold accounted.
  destruct (bf_buf f); [| done]. cbv zeta in Hb. destruct Hb as (_ & Hb & _). lia.
Qed.

(** A chunk keeps the balance: buffered and remaining bytes before are the
    chunk, the pending block and the remaining bytes after. *)
Definition chunk_ok (r : chunkRowReader) (out : bytes) (res : chunk_res) (r' : chunkRowReader) : Prop :=
  match res with
  | GotChunk c =>
      out ++ remaining r = ck_b c ++ default [] (rd_pending r') ++ remaining r' /\
      rd_nextNo r <= rd_nextNo r' /\ (out = [] -> rd_nextNo r < rd_nextNo r') /\
      (ck_shared c = false -> zlen (ck_b c) < chunkSize + RowBytes)
  | ChunkEOF => out ++ remaining r = []
  | ChunkErr _ => False
  end.

Lemma state_ok_fill r r1 fill' puts no :
  state_ok r -> reader_inv r1 -> same_rest r r1 -> rd_nextNo r1 = no + 1 -> fill_inv (no + 1) fill' ->
  puts_ok puts -> state_ok (with_fill r1 fill' puts).
Proof.
  intros (_ & _ & Hp) [Hr1 He1] (_ & _ & Hputs & _) Hn Hf Hps. split; [done |]. cbn. rewrite Hn, Hputs.
  split; [done |]. by apply Forall_app.
Qed.

Lemma chunk_loop_spec fuel r out :
  state_ok r -> rd_pending r = None -> zlen (default [] out) < chunkSize ->
  hi - rd_nextNo r + 1 < Z.of_nat fuel ->
  exists res r', chunk_loop p start stop contains fuel r out = Some (res, r') /\ state_ok r' /\
    chunk_ok r (default [] out) res r'.
Proof.
  revert r out. induction fuel as [|fuel IH]; intros r out Hok Hpend Hout Hfuel.
  { destruct Hok as ([Hr _] & _). pose proof (ri_next _ _ _ Hr). lia. }
  pose proof Hok as (Hinv & Hf & Hps). pose proof (ri_next _ _ _ (proj1 Hinv)) as Hn.
  destruct (next_spec r Hinv) as (r1 & Hnext & Hinv1 & Hno1 & Hrest). pose proof Hrest as (Hpe & Hfi & Hpu & _).
  cbn [chunk_loop]. rewrite Hnext. destruct (Z.leb_spec (rd_nextNo r) hi) as [Hle|Hgt].
  - pose proof (fill_add_spec (rd_fill r) (rd_nextNo r) Hf ltac:(lia)) as Hadd.
    rewrite Hfi. destruct (fill_add _ _ _ _) as [[[f' blk] inb] puts]. destruct Hadd as (Hf' & Hps' & Hres).
    pose proof (state_ok_fill r r1 f' puts _ Hok Hinv1 Hrest Hno1 Hf' Hps') as Hok1.
    set (r2 := with_fill r1 f' puts) in *.
    assert (rd_nextNo r2 = rd_nextNo r + 1) as Hno2 by done.
    assert (remaining r2 = W (accounted (rd_nextNo r + 1) f') (hi + 1)) as Hrem2 by (unfold remaining; cbn; by rewrite Hno1).
    assert (rd_pending r2 = None) as Hpend2 by (cbn; by rewrite Hpe).
    rewrite quot_div_nonneg by (unfold blockRows; lia). unfold blockRows. destruct inb.
    + destruct blk as [data|]; cbn [mbind option_bind].
      * destruct Hres as (Hacc & Hle' & Hclip).
        assert (remaining r = W (accounted (rd_nextNo r) (rd_fill r)) (rd_nextNo r + 1) ++ remaining r2) as Hrem
          by (rewrite Hrem2, Hacc, window_cat by lia; done).
        destruct (clipBlock _ _ data start stop) as [clipped|] eqn:Ecl; cbn in Hclip.
        { destruct out as [[|c o]|]; cbn [default] in *; eexists _, _; (split; [reflexivity |]); (split; [done |]);
            unfold chunk_ok; rewrite Hrem, <- Hclip; cbn [ck_b ck_shared default]; rewrite ?Hpend2; cbn [default app];
            cbn; repeat split; try done; rewrite ?Hno1; cbn in Hout; unfold RowBytes; lia. }
        destruct (IH r2 out Hok1 Hpend2 Hout ltac:(lia)) as (res & r' & E & Hok' & Hch).
        exists res, r'. split; [done |]. split; [done |]. unfold chunk_ok in *.
        rewrite Hrem, <- Hclip. destruct res; [| done..]. cbn in *. naive_solver lia.
      * assert (remaining r2 = remaining r) as Hrem by (by rewrite Hrem2, Hres).
        destruct (IH r2 out Hok1 Hpend2 Hout ltac:(lia)) as (res & r' & E & Hok' & Hch).
        exists res, r'. split; [done |]. split; [done |]. unfold chunk_ok in *. rewrite <- Hrem.
        destruct res; [| done..]. naive_solver lia.
    + destruct Hres as (Hacc & Hacc'). rewrite appendRow_row by lia. set (o := default [] out ++ _).
      assert (default [] out ++ remaining r = o ++ remaining r2) as Hrem.
      { unfold o. rewrite <- app_assoc, Hrem2, Hacc'. f_equal. unfold remaining. rewrite Hacc. by rewrite window_cat by lia. }
      assert (zlen o < chunkSize + RowBytes) as Hlen.
      { unfold o, window, clip. rewrite zlen_app.
        pose proof (zlen_slice_le body (Z.max (rd_nextNo r * RowBytes) (Z.max (start - p_base p) 0))
          (Z.min ((rd_nextNo r + 1) * RowBytes) (stop + 1 - p_base p))). unfold RowBytes in *. lia. }
      destruct (Z.leb_spec chunkSize (zlen o)).
      * eexists _, _. split; [reflexivity |]. split; [done |]. unfold chunk_ok. rewrite Hpend2, Hrem. cbn.
        repeat split; try done; lia.
      * destruct (IH r2 (Some o) Hok1 Hpend2 ltac:(done) ltac:(lia)) as (res & r' & E & Hok' & Hch).
        exists res, r'. split; [done |]. split; [done |]. unfold chunk_ok in *. rewrite Hrem.
        destruct res; [| done..]. cbn in *. naive_solver lia.
  - assert (rd_nextNo r = hi + 1) as Hend by lia.
    assert (remaining r = []) as Hrem
      by (unfold remaining; rewrite Hend in *; rewrite fill_inv_end by done; by apply window_empty).
    assert (state_ok r1) as Hok1 by (split; [done |]; rewrite Hno1, Hfi, Hpu; done).
    assert (remaining r1 = []) as Hrem1 by (unfold remaining in *; by rewrite Hno1, Hfi).
    destruct out as [[|c o]|]; eexists _, _; (split; [reflexivity |]); (split; [done |]); unfold chunk_ok;
      cbn [default] in *; rewrite ?Hrem, ?Hrem1, ?Hpe, ?Hpend; try done.
    cbn. repeat split; try done; [lia |]. cbn in Hout. unfold RowBytes. lia.
Qed.

Definition pending_count (r : chunkRowReader) : Z := match rd_pending r with Some _ => 1 | None => 0 end.

Definition chunk_bounded (c : chunk) : Prop := ck_shared c = false -> zlen (ck_b c) < chunkSize + RowBytes.

Lemma stream_loop_spec fuel inner r :
  state_ok r -> 2 * (hi + 1 - rd_nextNo r) + pending_count r < Z.of_nat fuel ->
  hi - lo + 1 < Z.of_nat inner ->
  exists cs r', stream_loop p start stop contains fuel inner r = Some (cs, None, r') /\
    concat (ck_b <$> cs) = default [] (rd_pending r) ++ remaining r /\
    Forall chunk_bounded cs /\ puts_ok (rd_puts r').
Proof.
  revert r. induction fuel as [|fuel IH]; intros r Hok Hfuel Hin;
    pose proof (ri_next _ _ _ (proj1 (proj1 Hok))) as Hn; unfold pending_count in *.
  { destruct (rd_pending r); lia. }
  cbn [stream_loop]. unfold nextChunk. destruct (rd_pending r) as [b|] eqn:Ep.
  - destruct (IH (with_pending r None)) as (cs & r' & -> & Hcat & Hb & Hps); [done | cbn; lia | done |].
    eexists _, _. cbn [mbind option_bind]. split; [reflexivity |]. rewrite fmap_cons. cbn [concat]. rewrite Hcat.
    split; [done |]. split; [| done]. constructor; [done | done].
  - destruct (chunk_loop_spec inner r None Hok Ep) as (res & r1 & -> & Hok1 & Hch); [by vm_compute | lia |].
    cbn [default] in Hch. destruct res as [c| |e]; [| | done].
    2: { exists [], r1. split; [done |]. split; [done |]. split; [constructor | apply Hok1]. }
    destruct Hch as (Hbal & Hle & Hlt & Hb). specialize (Hlt eq_refl).
    destruct (IH r1 Hok1) as (cs & r' & -> & Hcat & Hbs & Hps); [destruct (rd_pending r1); lia | done |].
    eexists _, _. cbn [mbind option_bind]. split; [reflexivity |]. rewrite fmap_cons. cbn [concat]. rewrite Hcat.
    split; [done |]. split; [| done]. by constructor.
Qed.

(** The whole piece, whatever the order of its rows. *)
Lemma streamRows_cover rows fill :
  Forall (fun raw => exists no, lo <= no <= hi /\ raw = raw_of body no) rows -> (forall no, lo <= no <= hi -> raw_of body no ∈ rows) ->
  fill_inv lo fill -> accounted lo fill = lo ->
  exists cs r', streamRows p start stop contains rows false fill = Some (cs, None, r') /\
    concat (ck_b <$> cs) = W lo (hi + 1) /\ Forall chunk_bounded cs /\ puts_ok (rd_puts r').
Proof.
  intros Hrows Hcover Hf Hacc. unfold streamRows.
  destruct (stream_loop_spec (2 * stream_rounds p) (stream_rounds p) (newChunkRowReader p rows false fill))
    as (cs & r' & E & Hcat & HH).
  - split; [| split; [done | constructor]]. split; [| done]. cbn. split; [lia | done | done |]. intros no Hno. right. by apply Hcover.
  - cbn. unfold stream_rounds. lia.
  - unfold stream_rounds. lia.
  - exists cs, r'. rewrite E, Hcat. unfold remaining. cbn. by rewrite Hacc.
Qed.

Lemma streamRows_spec rows fill :
  rows ≡ₚ raw_of body <$> seqZ lo (hi - lo + 1) -> fill_inv lo fill -> accounted lo fill = lo ->
  exists cs r', streamRows p start stop contains rows false fill = Some (cs, None, r') /\
    concat (ck_b <$> cs) = W lo (hi + 1) /\ Forall chunk_bounded cs /\ puts_ok (rd_puts r').
Proof.
  intros Hperm. apply streamRows_cover.
  - rewrite Hperm. apply Forall_fmap, Forall_forall. intros no Hno%elem_of_seqZ. exists no. split; [lia | done].
  - intros no Hno. rewrite Hperm. apply list_elem_of_fmap. exists no. split; [done |]. apply elem_of_seqZ. lia.
Qed.

(** *** Missing rows *)

(** The row [no] is neither delivered nor kept nor still to come. *)
Record misses (no : Z) (r : chunkRowReader) : Prop := {
  ms_range : lo <= rd_nextNo r <= no;
  ms_rows : Forall (fun raw => exists i, lo <= i <= hi /\ i <> no /\ raw = raw_of body i) (rd_rows r);
  ms_early : forall e, rd_early r = Some e -> e !! Z.to_nat (no - lo) <> None -> e !! Z.to_nat (no - lo) = Some None
}.

Definition next_missing (no : Z) (res : next_res * chunkRowReader) : Prop :=
  match res with
  | (NextRow _ _, r') => misses no r'
  | (NextErr _, _) => True
  | (NextEOF, _) => False
  end.

Lemma deliver_misses no r row : misses no r -> rd_nextNo r <> no -> no <= hi -> next_missing no (deliver p r (rd_nextNo r) row).
Proof.
  intros [H1 H2 H3] Hne Hle. unfold deliver. destruct (decodeRow _ _ _); [| done]. split; cbn; [rewrite wrap32_small by lia; lia | done | done].
Qed.

Lemma next_rows_misses no rows r : no <= hi -> misses no (with_rows r rows) -> next_missing no (next_rows p rows r).
Proof.
  intros Hle. revert r. induction rows as [|raw rows IH]; intros r Hm; cbn [next_rows].
  - destruct (rd_rowsErr _); [done |]. cbn. destruct Hm as [Hr _ _]. cbn in Hr. by rewrite (proj2 (Z.leb_le _ _)) by lia.
  - destruct Hm as [H1 H2 H3]. cbn in *. apply Forall_cons in H2 as [(i & Hi & Hne & ->) H2]. rewrite row_shape_raw by done.
    destruct (Z.ltb_spec i (rd_nextNo r)); cbn [orb]; [apply IH; by split |]. destruct (Z.ltb_spec hi i); [lia |].
    destruct (Z.ltb_spec (rd_nextNo r) i).
    + apply IH. split; cbn; [done | done |]. intros e [= <-]. rewrite list_lookup_insert_ne by lia.
      destruct (rd_early r) as [e|]; [by apply H3 |]. cbn. destruct (replicate _ _ !! _) eqn:E; [| done]. by apply lookup_replicate in E as [-> _].
    + assert (i = rd_nextNo r) as -> by lia. by apply (deliver_misses no (with_rows r rows)).
Qed.

Lemma next_misses no r : no <= hi -> misses no r -> next_missing no (next p r).
Proof.
  intros Hle Hm. unfold next. destruct (_ ≫= _) as [[d|]|] eqn:E; [| by apply next_rows_misses; [| destruct r]..].
  apply bind_Some in E as (e & He & E). pose proof Hm as [H1 H2 H3]. destruct (0 <=? _) eqn:Hi; [| done].
  apply (deliver_misses no (with_early r (<[Z.to_nat (rd_nextNo r - lo) := None]> <$> rd_early r))); [| | done]; cbn.
  - split; cbn; [done | done |]. rewrite He. cbn. intros e' [= <-]. destruct (decide (Z.to_nat (rd_nextNo r - lo) = Z.to_nat (no - lo))) as [->|Hne].
    + intros Hn. destruct (decide (Z.to_nat (no - lo) < length e)%nat); [by rewrite list_lookup_insert_eq |]. rewrite list_insert_ge in * by lia. by apply H3.
    + rewrite list_lookup_insert_ne by done. by apply H3.
  - intros Hno. rewrite Hno in E. specialize (H3 e He). rewrite E in H3. by specialize (H3 ltac:(done)).
Qed.

Lemma chunk_loop_misses no fuel r out res r' : no <= hi -> misses no r ->
  chunk_loop p start stop contains fuel r out = Some (res, r') -> match res with GotChunk _ => misses no r' | ChunkEOF => False | ChunkErr _ => True end.
Proof.
  intros Hle. revert r out. induction fuel as [|fuel IH]; intros r out Hm; [done |]. cbn [chunk_loop].
  pose proof (next_misses no r Hle Hm) as Hn. destruct (next p r) as [[i row| |e] r1]; cbn in Hn; [| done | by intros [= <- _]].
  destruct (fill_add _ _ _ _) as [[[f blk] inb] puts]. assert (misses no (with_fill r1 f puts)) as Hf by (destruct Hn; by split).
  destruct inb.
  - destruct (blk ≫= _); [| by apply IH]. destruct out as [[|]|]; intros [= <- <-]; (done || destruct Hf; by split).
  - destruct (_ <=? _); [by intros [= <- <-] | by apply IH].
Qed.

Lemma stream_loop_misses no fuel inner r cs e r' : no <= hi -> misses no r ->
  stream_loop p start stop contains fuel inner r = Some (cs, e, r') -> is_Some e.
Proof.
  intros Hle. revert r cs. induction fuel as [|fuel IH]; intros r cs Hm; [done |]. cbn [stream_loop]. unfold nextChunk.
  destruct (rd_pending r) as [b|].
  - destruct (stream_loop _ _ _ _ fuel _ _) as [[[cs' e'] r1]|] eqn:E; [| done]. cbn. intros [= _ <- <-]. eapply IH; [| exact E]. destruct Hm; by split.
  - destruct (chunk_loop _ _ _ _ _ _ _) as [[res r1]|] eqn:E; [| done]. apply (chunk_loop_misses no) in E; [| done | done].
    destruct res as [c| |e1]; [| done | by intros [= _ <- _]].
    destruct (stream_loop _ _ _ _ fuel _ _) as [[[cs' e'] r2]|] eqn:E'; [| done]. cbn. intros [= _ <- <-]. by eapply IH.
Qed.

(** A reader that ends without error has had every row. *)
Lemma streamRows_only rows fill cs r' :
  Forall (fun raw => exists no, lo <= no <= hi /\ raw = raw_of body no) rows -> fill_inv lo fill -> accounted lo fill = lo ->
  streamRows p start stop contains rows false fill = Some (cs, None, r') -> concat (ck_b <$> cs) = W lo (hi + 1).
Proof.
  intros Hrows Hf Hacc E. destruct (decide (Forall (fun no => raw_of body no ∈ rows) (seqZ lo (hi - lo + 1)))) as [Hall|Hno].
  - rewrite Forall_forall in Hall. destruct (streamRows_cover rows fill Hrows) as (cs' & r1 & E' & Hcat & _); [| done | done | congruence].
    intros no Hno. apply Hall, elem_of_seqZ. lia.
  - apply not_Forall_Exists in Hno; [| apply _]. apply Exists_exists in Hno as (no & Hin%elem_of_seqZ & Hmiss). exfalso.
    apply (stream_loop_misses no) in E; [by destruct E | lia |]. split; cbn; [lia | | done].
    rewrite Forall_forall in *. intros raw Hraw. destruct (Hrows raw Hraw) as (i & Hi & ->). exists i. split; [done |]. split; [by intros -> | done].
Qed.

End ReaderLemmas.

(** ** From the chunks table *)

(** [getRangeSQL]: the rows of a file in a row range, as binary columns; the
    server may return them in any order. *)
Definition row_raw (r : chunk_row) : raw_row := [Some (be 4 (cr_no r)); Some (cr_data r)].

Definition getRange (table : list chunk_row) (fid lo hi : Z) : list raw_row :=
  row_raw <$> filter (fun r => cr_file r = fid /\ lo <= cr_no r <= hi) table.

(** The table holds exactly the rows of [body] under [fid]. *)
Definition file_stored `{Zstd} (table : list chunk_row) (fid : Z) (body : bytes) : Prop :=
  filter (fun r => cr_file r = fid) table ≡ₚ stored_body fid body.

(** The fill of a piece, when the cache is in use. *)
Definition piece_fill (p : piece) (caching : bool) : option blockFill :=
  if caching then Some (new_fill p) else None.

(** [piece_read table start stop p cs]: some run of [streamRows] on the rows
    the query returned sends the chunks [cs] and ends without error. *)
Definition piece_read `{Zstd} (table : list chunk_row) (start stop : Z) (p : piece) (cs : list chunk) : Prop :=
  exists rows contains caching r',
    rows ≡ₚ getRange table (p_fileID p) (p_lo p) (p_hi p) /\
    streamRows p start stop contains rows false (piece_fill p caching) = Some (cs, None, r').

Section TableLemmas.
Context `{ZL : ZstdLaws}.

Lemma filter_stored_rows fid body a b lo hi :
  a <= lo -> hi < b -> lo <= hi + 1 ->
  filter (fun r => lo <= cr_no r <= hi) (stored_rows fid body a b) = stored_rows fid body lo (hi + 1).
Proof.
  intros Ha Hb Hle. rewrite <- (stored_rows_cat fid body a lo b), <- (stored_rows_cat fid body lo (hi + 1) b) by lia.
  rewrite !filter_app. assert (forall x y, (forall i, x <= i < y -> i < lo \/ hi < i) ->
    filter (fun r => lo <= cr_no r <= hi) (stored_rows fid body x y) = []) as Hnone.
  { intros x y Hxy. unfold stored_rows. apply filter_none. intros r Hin.
    apply list_elem_of_fmap in Hin as (i & -> & Hi%elem_of_seqZ). cbn in *. specialize (Hxy i). lia. }
  rewrite (Hnone a lo), (Hnone (hi + 1) b) by lia. rewrite app_nil_r. cbn.
  unfold stored_rows. rewrite filter_all; [done |]. intros r Hin.
  apply list_elem_of_fmap in Hin as (i & -> & Hi%elem_of_seqZ). cbn. lia.
Qed.

Lemma getRange_stored table fid body lo hi :
  file_stored table fid body -> 0 <= lo -> lo <= hi + 1 -> hi < row_count (zlen body) ->
  getRange table fid lo hi ≡ₚ raw_of body <$> seqZ lo (hi - lo + 1).
Proof.
  intros Hst Hlo Hle Hhi. unfold getRange.
  assert (filter (fun r => cr_file r = fid /\ lo <= cr_no r <= hi) table =
          filter (fun r => lo <= cr_no r <= hi) (filter (fun r => cr_file r = fid) table)) as ->.
  { rewrite list_filter_filter. apply list_filter_iff. tauto. }
  rewrite Hst. unfold stored_body. rewrite filter_stored_rows by lia. unfold stored_rows.
  rewrite <- list_fmap_compose. by replace (hi + 1 - lo) with (hi - lo + 1) by lia.
Qed.

(** A valid piece of a stored file is read completely. *)
Lemma streamRows_stored table files p start stop contains rows caching :
  piece_ok files p -> file_stored table (p_fileID p) (files (p_fileID p)) ->
  rows ≡ₚ getRange table (p_fileID p) (p_lo p) (p_hi p) ->
  exists cs r', streamRows p start stop contains rows false (piece_fill p caching) = Some (cs, None, r') /\
    concat (ck_b <$> cs) = piece_bytes files start stop p /\ Forall chunk_bounded cs /\
    puts_ok p (files (p_fileID p)) (rd_puts r').
Proof.
  intros (Hlo & [Hhi Hmax] & Hb & Hlen) Hst Hrows.
  apply streamRows_spec; (lia || (by destruct caching) || idtac). rewrite Hrows. apply getRange_stored; try done; [lia | lia |].
  rewrite Hlen. unfold row_count, RowBytes in *. div_lia.
Qed.

Lemma piece_read_bytes table files p start stop cs :
  piece_ok files p -> file_stored table (p_fileID p) (files (p_fileID p)) ->
  piece_read table start stop p cs -> concat (ck_b <$> cs) = piece_bytes files start stop p.
Proof.
  intros Hok Hst (rows & contains & caching & r' & Hrows & E).
  destruct (streamRows_stored table files p start stop contains rows caching Hok Hst Hrows) as (cs' & r'' & E' & Hcat & _).
  congruence.
Qed.

Lemma pieces_read_bytes table files ps start stop css :
  Forall (piece_ok files) ps ->
  Forall (fun p => file_stored table (p_fileID p) (files (p_fileID p))) ps ->
  Forall2 (piece_read table start stop) ps css ->
  concat (ck_b <$> concat css) = concat (piece_bytes files start stop <$> ps).
Proof.
  intros Hok Hst Hr. induction Hr as [|p cs ps css Hp Hr IH]; [done |].
  inversion_clear Hok. inversion_clear Hst. cbn [concat]. rewrite fmap_app, concat_app, fmap_cons. cbn [concat].
  rewrite IH by done. f_equal. by eapply piece_read_bytes.
Qed.

(** A planned read of an object whose files are stored. *)
Lemma planned_read table files m segs start stop parallel :
  Segments m = Ok segs -> Forall (file_ok files) segs ->
  Forall (fun seg => file_stored table (sg_FileID seg) (files (sg_FileID seg))) segs -> 0 <= start <= stop -> stop < m_Size m ->
  exists ps, planPieces m start stop parallel = Some (Ok ps) /\
    Forall (fun p => forall rws contains caching, rws ≡ₚ getRange table (p_fileID p) (p_lo p) (p_hi p) ->
      exists cs r', streamRows p start stop contains rws false (piece_fill p caching) = Some (cs, None, r')) ps /\
    forall css, Forall2 (piece_read table start stop) ps css ->
      concat (ck_b <$> concat css) = slice (object_bytes files segs) start (stop + 1).
Proof.
  intros Hseg Hfiles Hstored Hs Hstop.
  destruct (planPieces_chains files m segs start stop parallel Hseg Hfiles Hs Hstop) as (pss & Hplan & Hpo & Ht & Hb).
  destruct (plan_bytes files start stop _ pss Hs Ht Hpo) as [Hok Hbytes].
  assert (Forall (fun p => file_stored table (p_fileID p) (files (p_fileID p))) (concat pss)) as Hst.
  { eapply (plan_pieces_file (fun id => file_stored table id (files id))); [exact Hpo |].
    apply Forall_forall. intros seg [Hin _]%list_elem_of_In%filter_In. rewrite Forall_forall in Hstored. by apply Hstored, list_elem_of_In. }
  exists (concat pss). split; [done |]. split.
  - apply Forall_forall. intros p Hpin rws contains caching Hrws. rewrite Forall_forall in Hok, Hst.
    destruct (streamRows_stored table files p start stop contains rws caching) as (cs & r' & E & _); eauto.
  - intros css Hcss. by rewrite (pieces_read_bytes table files (concat pss) start stop), Hbytes, Hb.
Qed.

End TableLemmas.

(** ** Properties *)

(** Reading a piece does not depend on the order in which the server
    returns its rows: for every permutation of the piece's rows, whatever the
    block cache contains, the reader ends without error, its chunks
    concatenate to exactly the requested bytes of the piece, pooled chunks fit
    the pool's buffers, and every block handed to the cache is the block of
    the file. *)
Theorem piece_stream `{ZL : ZstdLaws} (table : list chunk_row) (files : Z -> bytes) (p : piece)
    (start stop : Z) (contains : Z -> bool) (rows : list raw_row) (caching : bool)
    (Hp : piece_ok files p) (Hst : file_stored table (p_fileID p) (files (p_fileID p)))
    (Hrows : rows ≡ₚ getRange table (p_fileID p) (p_lo p) (p_hi p)) :
  exists cs r', streamRows p start stop contains rows false (piece_fill p caching) = Some (cs, None, r') /\
    concat (ck_b <$> cs) = piece_bytes files start stop p /\
    Forall (fun c => ck_shared c = false -> zlen (ck_b c) < chunkSize + RowBytes) cs /\
    Forall (fun '(b, data) => data = block_bytes (files (p_fileID p)) b) (rd_puts r').
Proof.
  destruct (streamRows_stored table files p start stop contains rows caching Hp Hst Hrows)
    as (cs & r' & E & Hcat & Hb & Hps).
  exists cs, r'. repeat split; try done. eapply Forall_impl; [exact Hps |]. by intros [b d] [].
Qed.

(** C29: what was written is what is read.  After an ingest of any sequence of
    [Write] calls, a read of any valid span of the object plans pieces that
    can all be read, and however the server orders the rows of each piece the
    chunks in piece order are exactly the bytes of the span. *)
Theorem write_then_read `{ZL : ZstdLaws} (fid : Z) (srcs : list bytes) (f : rowFramer) (stream : bytes)
    (rows table : list chunk_row) (m : Meta) (r : ByteRange) (sp : Span) (parallel : Z)
    (Hf : - 2 ^ 63 <= fid < 2 ^ 63) (Hlen : zlen (concat srcs) <= 2 ^ 30 * RowBytes)
    (Hin : ingest fid srcs = Ok (f, stream)) (Hcopy : parse_copy stream = Some rows)
    (Htab : filter (fun r => cr_file r = fid) table ≡ₚ rows)
    (Hm : single_file m) (Hid : m_FileID m = fid) (Hsize : m_Size m = rf_size f)
    (Hr : Resolve r (m_Size m) = Ok sp) (Hne : sp_Start sp <= sp_End sp) :
  exists ps, planPieces m (sp_Start sp) (sp_End sp) parallel = Some (Ok ps) /\
    Forall (fun p => forall rws contains caching, rws ≡ₚ getRange table (p_fileID p) (p_lo p) (p_hi p) ->
      exists cs r', streamRows p (sp_Start sp) (sp_End sp) contains rws false (piece_fill p caching) = Some (cs, None, r')) ps /\
    forall css, Forall2 (piece_read table (sp_Start sp) (sp_End sp)) ps css ->
      concat (ck_b <$> concat css) = slice (concat srcs) (sp_Start sp) (sp_End sp + 1).
Proof.
  pose proof (ingest_rows_ok fid srcs Hf ltac:(unfold RowBytes in *; lia)) as (f' & stream' & E & Hp & _ & Hs).
  rewrite Hin in E. injection E as <- <-. rewrite Hcopy in Hp. injection Hp as ->.
  set (files := fun _ : Z => concat srcs). destruct Hm as [Hpa Hpe].
  assert (Segments m = Ok [mkSegment fid 0 (m_Size m)]) as Hseg by (unfold Segments; by rewrite Hpa, Hpe, Hid).
  pose proof (Resolve_within r (m_Size m) sp Hr) as Hw.
  destruct (planned_read table files m [mkSegment fid 0 (m_Size m)] (sp_Start sp) (sp_End sp) parallel Hseg) as (ps & Hp & Hst & Hread);
    [constructor; [| constructor]; split; cbn; unfold seg_body, files; lia | by constructor; [| constructor] | lia | lia |].
  exists ps. split; [done |]. split; [done |]. intros css Hcss. rewrite (Hread css Hcss). unfold object_bytes. cbn. by rewrite app_nil_r.
Qed.

Definition demo_srcs : list bytes := [replicate 20 (chr 65); replicate 5 (chr 66)].
Definition demo_rows : list chunk_row := stored_body 7 (concat demo_srcs).
Definition demo_files (_ : Z) : bytes := concat demo_srcs.
Definition demo_ingest : rowFramer * bytes :=
  match ingest 7 demo_srcs with Ok r => r | Err _ => (newRowFramer 7, []) end.
Definition demo_meta : Meta := mkMeta (sample_info 25) [] None 7 None None None 1.

Lemma piece_stream_witness :
  exists cs r', streamRows (mkPiece 7 0 25 0 0) 18 22 (fun _ => false) (row_raw <$> demo_rows) false
      (piece_fill (mkPiece 7 0 25 0 0) true) = Some (cs, None, r') /\
    concat (ck_b <$> cs) = piece_bytes demo_files 18 22 (mkPiece 7 0 25 0 0) /\
    Forall (fun c => ck_shared c = false -> zlen (ck_b c) < chunkSize + RowBytes) cs /\
    Forall (fun '(b, data) => data = block_bytes (demo_files 7) b) (rd_puts r').
Proof.
  apply (piece_stream demo_rows demo_files (mkPiece 7 0 25 0 0) 18 22 (fun _ => false) _ true).
  - by vm_compute.
  - unfold file_stored. vm_compute. reflexivity.
  - vm_compute. reflexivity.
Defined.

Lemma write_then_read_witness :
  exists ps, planPieces demo_meta 18 24 4 = Some (Ok ps) /\
    Forall (fun p => forall rws contains caching, rws ≡ₚ getRange demo_rows (p_fileID p) (p_lo p) (p_hi p) ->
      exists cs r', streamRows p 18 24 contains rws false (piece_fill p caching) = Some (cs, None, r')) ps /\
    forall css, Forall2 (piece_read demo_rows 18 24) ps css ->
      concat (ck_b <$> concat css) = [chr 65; chr 65; chr 66; chr 66; chr 66; chr 66; chr 66].
Proof.
  apply (write_then_read 7 demo_srcs (fst demo_ingest) (snd demo_ingest) demo_rows demo_rows demo_meta
           (Range 18 (-1) (-1)) (mkSpan 18 24 true) 4).
  - lia.
  - by vm_compute.
  - vm_compute. reflexivity.
  - vm_compute. reflexivity.
  - reflexivity.
  - done.
  - reflexivity.
  - vm_compute. reflexivity.
  - reflexivity.
  - cbn. lia.
Defined.
