(* ===== verification/BlockCache.v ===== *)
(** * The gateway block cache

    Models [blockCache] of [internal/store/blockcache.go]: sixteen shards, each
    running S3-FIFO over a small and a main queue with a ghost table, and the
    operations built on it ([pieceParts], [cachedFile], [cacheFile]).

    Entries live in a heap and are named by pointers; the queues and the
    [items] map hold pointers, so that the agreement of map and queues is an
    invariant to be proved rather than a property of the representation.  A
    list element is identified with the entry it carries: every entry is
    removed from its queue before it is pushed again. *)

From S2P Require Import Prelude GoStrings Ranges Blocks Pieces.

(** ** Definitions *)

Definition blockShards : Z := 16.

Record blockKey := mkKey { bk_table : Z; bk_file : Z; bk_block : Z }.

#[global] Instance blockKey_eq_dec : EqDecision blockKey.
Proof. solve_decision. Defined.

#[global] Instance blockKey_countable : Countable blockKey.
Proof.
  refine (inj_countable' (fun k => (bk_table k, bk_file k, bk_block k))
            (fun '(t, f, b) => mkKey t f b) _).
  by intros [].
Defined.

Record blockEntry := mkEntry { en_key : blockKey; en_data : bytes; en_freq : Z; en_main : bool }.

(** A queue: entry pointers from front to back, and their total size. *)
Record fifo := mkFifo { ff_l : list Z; ff_bytes : Z }.

Record blockShard := mkShard {
  sh_max : Z;
  sh_small : fifo;
  sh_main : fifo;
  sh_items : gmap blockKey Z;
  sh_ghost : gset blockKey;
  sh_ghostQ : list blockKey;
  sh_ghostAt : Z;
  sh_heap : gmap Z blockEntry;
  sh_next : Z
}.

Record blockCache := mkCache {
  bc_shards : list blockShard;
  bc_hits : Z; bc_hitBytes : Z; bc_fills : Z; bc_evictions : Z
}.

Definition zero_key : blockKey := mkKey 0 0 0.

Definition newShard (per ghost : Z) : blockShard :=
  mkShard per (mkFifo [] 0) (mkFifo [] 0) ∅ ∅ (replicate (Z.to_nat ghost) zero_key) 0 ∅ 0.

Definition newBlockCache (maxBytes : Z) : option blockCache :=
  if maxBytes <=? 0 then None
  else
    let per := Z.max (Z.quot maxBytes blockShards) 1 in
    let ghost := Z.max (Z.quot per (blockRows * RowBytes)) 8 in
    Some (mkCache (replicate (Z.to_nat blockShards) (newShard per ghost)) 0 0 0 0).

(** The multiplicative hash of a key picks the shard. *)
Definition shard_index (k : blockKey) : Z :=
  let h := Z.lxor (Z.lxor (u64 (u64 (bk_table k) * 0x9e3779b97f4a7c15))
                          (u64 (u64 (bk_file k) * 0xbf58476d1ce4e5b9)))
                  (u64 (u64 (bk_block k) * 0x94d049bb133111eb)) in
  Z.rem (Z.shiftr h 59) blockShards.

(** *** One shard *)

Definition set_small (sh : blockShard) (q : fifo) : blockShard :=
  mkShard (sh_max sh) q (sh_main sh) (sh_items sh) (sh_ghost sh) (sh_ghostQ sh) (sh_ghostAt sh) (sh_heap sh) (sh_next sh).
Definition set_main (sh : blockShard) (q : fifo) : blockShard :=
  mkShard (sh_max sh) (sh_small sh) q (sh_items sh) (sh_ghost sh) (sh_ghostQ sh) (sh_ghostAt sh) (sh_heap sh) (sh_next sh).
Definition set_items (sh : blockShard) (m : gmap blockKey Z) : blockShard :=
  mkShard (sh_max sh) (sh_small sh) (sh_main sh) m (sh_ghost sh) (sh_ghostQ sh) (sh_ghostAt sh) (sh_heap sh) (sh_next sh).
Definition set_ghost (sh : blockShard) (g : gset blockKey) (q : list blockKey) (at_ : Z) : blockShard :=
  mkShard (sh_max sh) (sh_small sh) (sh_main sh) (sh_items sh) g q at_ (sh_heap sh) (sh_next sh).
Definition set_heap (sh : blockShard) (h : gmap Z blockEntry) (n : Z) : blockShard :=
  mkShard (sh_max sh) (sh_small sh) (sh_main sh) (sh_items sh) (sh_ghost sh) (sh_ghostQ sh) (sh_ghostAt sh) h n.

Definition push_front (q : fifo) (e : Z) : fifo := mkFifo (e :: ff_l q) (ff_bytes q).
Definition add_bytes (q : fifo) (n : Z) : fifo := mkFifo (ff_l q) (ff_bytes q + n).
Definition list_remove_ptr (e : Z) (l : list Z) : list Z := List.filter (fun x => negb (x =? e)) l.
Definition remove (q : fifo) (e : Z) : fifo := mkFifo (list_remove_ptr e (ff_l q)) (ff_bytes q).

Definition shard_get (sh : blockShard) (k : blockKey) : option (bytes * blockShard) :=
  el ← sh_items sh !! k;
  e ← sh_heap sh !! el;
  let e' := mkEntry (en_key e) (en_data e) (Z.min (en_freq e + 1) 3) (en_main e) in
  Some (en_data e, set_heap sh (<[el := e']> (sh_heap sh)) (sh_next sh)).

Definition remember (sh : blockShard) (k : blockKey) : blockShard :=
  let i := Z.to_nat (sh_ghostAt sh) in
  let old := default zero_key (sh_ghostQ sh !! i) in
  set_ghost sh ({[k]} ∪ (sh_ghost sh ∖ {[old]})) (<[i := k]> (sh_ghostQ sh))
    (Z.rem (sh_ghostAt sh + 1) (zlen (sh_ghostQ sh))).

(** [evictOne]: the shard and whether a block was evicted; [None] is the nil
    dereference of an empty queue's [Back]. *)
Definition evictOne (sh : blockShard) : option (blockShard * bool) :=
  if (Z.quot (sh_max sh) 10 <? ff_bytes (sh_small sh)) || (zlen (ff_l (sh_main sh)) =? 0) then
    el ← last (ff_l (sh_small sh));
    e ← sh_heap sh !! el;
    let size := zlen (en_data e) in
    let sh := set_small sh (add_bytes (remove (sh_small sh) el) (- size)) in
    if 0 <? en_freq e then
      let sh := set_heap sh (<[el := mkEntry (en_key e) (en_data e) 0 true]> (sh_heap sh)) (sh_next sh) in
      let sh := set_items sh (<[en_key e := el]> (sh_items sh)) in
      Some (set_main sh (add_bytes (push_front (sh_main sh) el) size), false)
    else
      let sh := set_items sh (delete (en_key e) (sh_items sh)) in
      Some (remember sh (en_key e), true)
  else
    el ← last (ff_l (sh_main sh));
    e ← sh_heap sh !! el;
    let sh := set_main sh (remove (sh_main sh) el) in
    if 0 <? en_freq e then
      let sh := set_heap sh (<[el := mkEntry (en_key e) (en_data e) (en_freq e - 1) (en_main e)]> (sh_heap sh)) (sh_next sh) in
      let sh := set_items sh (<[en_key e := el]> (sh_items sh)) in
      Some (set_main sh (push_front (sh_main sh) el), false)
    else
      let sh := set_main sh (add_bytes (sh_main sh) (- zlen (en_data e))) in
      Some (set_items sh (delete (en_key e) (sh_items sh)), true).

Definition shard_bytes (sh : blockShard) : Z := ff_bytes (sh_small sh) + ff_bytes (sh_main sh).

(** The eviction loop of [put]; [None] when an eviction panics or the fuel
    runs out. *)
Fixpoint evict_loop (fuel : nat) (sh : blockShard) (evicted : Z) : option (blockShard * Z) :=
  if sh_max sh <? shard_bytes sh then
    match fuel with
    | O => None
    | S fuel' =>
        '(sh, b) ← evictOne sh;
        evict_loop fuel' sh (evicted + (if b : bool then 1 else 0))
    end
  else Some (sh, evicted).

(** Every round lowers the sum of [freq + 1] over the entries, and [freq] is at
    most 3. *)
Definition evict_rounds (sh : blockShard) : nat :=
  4 * (length (ff_l (sh_small sh)) + length (ff_l (sh_main sh))).

(** [put] on its shard: the shard, the number of fills and of evictions. *)
Definition shard_put (sh : blockShard) (k : blockKey) (data : bytes) : option (blockShard * Z * Z) :=
  let size := zlen data in
  if (size =? 0) || (sh_max sh <? size) then Some (sh, 0, 0)
  else if bool_decide (is_Some (sh_items sh !! k)) then Some (sh, 0, 0)
  else
    let el := sh_next sh in
    let known := bool_decide (k ∈ sh_ghost sh) in
    let sh := set_heap sh (<[el := mkEntry k data 0 known]> (sh_heap sh)) (el + 1) in
    let sh :=
      if known then
        let sh := set_ghost sh (sh_ghost sh ∖ {[k]}) (sh_ghostQ sh) (sh_ghostAt sh) in
        let sh := set_items sh (<[k := el]> (sh_items sh)) in
        set_main sh (add_bytes (push_front (sh_main sh) el) size)
      else
        let sh := set_items sh (<[k := el]> (sh_items sh)) in
        set_small sh (add_bytes (push_front (sh_small sh) el) size) in
    '(sh, evicted) ← evict_loop (evict_rounds sh) sh 0;
    Some (sh, 1, evicted).

(** *** The cache *)

Definition nth_shard (c : blockCache) (i : Z) : option blockShard := bc_shards c !! Z.to_nat i.

Definition set_shard (c : blockCache) (i : Z) (sh : blockShard) : blockCache :=
  mkCache (<[Z.to_nat i := sh]> (bc_shards c)) (bc_hits c) (bc_hitBytes c) (bc_fills c) (bc_evictions c).

Definition bc_get (c : blockCache) (k : blockKey) : option (bytes * blockCache) :=
  sh ← nth_shard c (shard_index k);
  '(data, sh') ← shard_get sh k;
  Some (data, set_shard c (shard_index k) sh').

Definition bc_contains (c : blockCache) (k : blockKey) : bool :=
  match nth_shard c (shard_index k) with
  | Some sh => bool_decide (is_Some (sh_items sh !! k))
  | None => false
  end.

Definition bc_put (c : blockCache) (k : blockKey) (data : bytes) : option blockCache :=
  sh ← nth_shard c (shard_index k);
  '(sh', fills, evicted) ← shard_put sh k data;
  let c := set_shard c (shard_index k) sh' in
  Some (mkCache (bc_shards c) (bc_hits c) (bc_hitBytes c) (bc_fills c + fills) (bc_evictions c + evicted)).

Definition resident (c : blockCache) : Z * Z :=
  fold_left (fun '(b, n) sh => (b + shard_bytes sh, n + Z.of_nat (size (sh_items sh)))) (bc_shards c) (0, 0).

(** The [get] loop of [pieceParts] over [n] blocks from [b]; the entries read
    before a miss keep their new frequency. *)
Fixpoint get_blocks (n : nat) (c : blockCache) (table file b : Z) : option (list bytes) * blockCache :=
  match n with
  | O => (Some [], c)
  | S n' =>
      match bc_get c (mkKey table file b) with
      | None => (None, c)
      | Some (data, c) =>
          let '(rest, c) := get_blocks n' c table file (wrap32 (b + 1)) in
          (cons data <$> rest, c)
      end
  end.

Fixpoint clip_blocks (base first : Z) (blocks : list bytes) (start stop : Z) : list bytes :=
  match blocks with
  | [] => []
  | data :: rest =>
      match clipBlock base first data start stop with
      | Some (_ :: _) as clipped => default [] clipped :: clip_blocks base (wrap32 (first + 1)) rest start stop
      | _ => clip_blocks base (wrap32 (first + 1)) rest start stop
      end
  end.

Definition pieceParts (c : option blockCache) (table : Z) (p : piece) (start stop : Z)
    : option (list bytes) * option blockCache :=
  match c with
  | None => (None, None)
  | Some c =>
      if table =? 0 then (None, Some c)
      else
        let first := Z.quot (p_lo p) blockRows in
        let last := Z.quot (p_hi p) blockRows in
        match get_blocks (Z.to_nat (last - first + 1)) c table (p_fileID p) first with
        | (None, c) => (None, Some c)
        | (Some blocks, c) =>
            let parts := clip_blocks (p_base p) first blocks start stop in
            let served := zlen (concat parts) in
            (Some parts, Some (mkCache (bc_shards c) (bc_hits c + zlen blocks) (bc_hitBytes c + served)
                                 (bc_fills c) (bc_evictions c)))
        end
  end.

(** *** Whole files *)

Definition wholeFile : Z := -1.

Definition shard_max_of (c : blockCache) (k : blockKey) : Z :=
  match nth_shard c (shard_index k) with Some sh => sh_max sh | None => 0 end.

Definition cachedFile (c : option blockCache) (table file size : Z) : option bytes * option blockCache :=
  match c with
  | None => (None, None)
  | Some c =>
      if (table =? 0) || (size <=? 0) then (None, Some c)
      else
        let k := mkKey table file wholeFile in
        if size <=? shard_max_of c k then
          match bc_get c k with
          | None => (None, Some c)
          | Some (data, c) =>
              if negb (zlen data =? size) then (None, Some c)
              else (Some data, Some (mkCache (bc_shards c) (bc_hits c + 1) (bc_hitBytes c + size) (bc_fills c) (bc_evictions c)))
          end
        else
          match pieceParts (Some c) table (mkPiece file 0 size 0 (segmentLastRow size)) 0 (size - 1) with
          | (None, c) => (None, c)
          | (Some parts, c) => (Some (concat parts), c)
          end
  end.

(** The splitting loop of [cacheFile]. *)
Fixpoint cache_blocks (fuel : nat) (c : blockCache) (table file : Z) (data : bytes) (b off : Z) : option blockCache :=
  if off <? zlen data then
    match fuel with
    | O => None
    | S fuel' =>
        let step := blockRows * RowBytes in
        let stop := Z.min (off + step) (zlen data) in
        c ← bc_put c (mkKey table file b) (slice data off stop);
        cache_blocks fuel' c table file data (wrap32 (b + 1)) (off + step)
    end
  else Some c.

(** [cacheFile]; the outer [None] is a panic of [put] or a loop that does not
    end within [length data] rounds (each round advances [off]). *)
Definition cacheFile (c : option blockCache) (table file : Z) (data : bytes) : option (option blockCache) :=
  match c with
  | None => Some None
  | Some c =>
      if table =? 0 then Some (Some c)
      else
        let k := mkKey table file wholeFile in
        if zlen data <=? shard_max_of c k then Some <$> bc_put c k data
        else Some <$> cache_blocks (length data) c table file data 0 0
  end.

(** ** Specification *)

Definition entry_size (h : gmap Z blockEntry) (p : Z) : Z := default 0 (zlen ∘ en_data <$> h !! p).
Definition queue_size (h : gmap Z blockEntry) (l : list Z) : Z := fold_right Z.add 0 (entry_size h <$> l).

(** The entries of a queue: live, indexed by [items], non-empty, with a valid
    frequency and the right [main] flag. *)
Definition queue_ok (sh : blockShard) (main : bool) (l : list Z) : Prop :=
  forall p, p ∈ l -> exists e, sh_heap sh !! p = Some e /\ sh_items sh !! en_key e = Some p /\
    0 < zlen (en_data e) /\ 0 <= en_freq e <= 3 /\ en_main e = main.

Record shard_ok (sh : blockShard) : Prop := {
  so_max : 0 < sh_max sh;
  so_nodup : NoDup (ff_l (sh_small sh) ++ ff_l (sh_main sh));
  so_small : queue_ok sh false (ff_l (sh_small sh));
  so_main : queue_ok sh true (ff_l (sh_main sh));
  so_items : forall k p, sh_items sh !! k = Some p ->
    p ∈ ff_l (sh_small sh) ++ ff_l (sh_main sh) /\ exists e, sh_heap sh !! p = Some e /\ en_key e = k;
  so_small_bytes : ff_bytes (sh_small sh) = queue_size (sh_heap sh) (ff_l (sh_small sh));
  so_main_bytes : ff_bytes (sh_main sh) = queue_size (sh_heap sh) (ff_l (sh_main sh));
  so_fresh : forall p, p ∈ ff_l (sh_small sh) ++ ff_l (sh_main sh) -> p < sh_next sh;
  so_ghost : sh_ghost sh ⊆ list_to_set (sh_ghostQ sh);
  so_ghostAt : 0 <= sh_ghostAt sh < zlen (sh_ghostQ sh)
}.

(** The abstract content of a shard. *)
Definition shard_lookup (sh : blockShard) (k : blockKey) : option bytes :=
  p ← sh_items sh !! k; e ← sh_heap sh !! p; Some (en_data e).

(** Sum of [freq + 1], the measure of the eviction loop. *)
Definition entry_weight (h : gmap Z blockEntry) (p : Z) : Z := default 0 ((fun e => en_freq e + 1) <$> h !! p).
Definition queue_weight (h : gmap Z blockEntry) (l : list Z) : Z := fold_right Z.add 0 (entry_weight h <$> l).
Definition shard_weight (sh : blockShard) : Z :=
  queue_weight (sh_heap sh) (ff_l (sh_small sh)) + queue_weight (sh_heap sh) (ff_l (sh_main sh)).

(** ** Lemmas *)

(** *** Sums over queues *)

Lemma queue_sum_app (f : Z -> Z) l k :
  fold_right Z.add 0 (f <$> (l ++ k)) = fold_right Z.add 0 (f <$> l) + fold_right Z.add 0 (f <$> k).
Proof. rewrite fmap_app. induction (f <$> l) as [|x xs IH]; cbn; lia. Qed.

Lemma queue_sum_ext (f g : Z -> Z) l :
  (forall p, p ∈ l -> f p = g p) -> fold_right Z.add 0 (f <$> l) = fold_right Z.add 0 (g <$> l).
Proof.
  intros H. f_equal. apply list_fmap_ext. intros i p Hp. apply H. by apply list_elem_of_lookup_2 in Hp.
Qed.

Lemma list_remove_last l p : p ∉ l -> list_remove_ptr p (l ++ [p]) = l.
Proof.
  intros Hp. unfold list_remove_ptr. rewrite List.filter_app. cbn. rewrite Z.eqb_refl. cbn.
  rewrite app_nil_r. induction l as [|x l IH]; [done |]. apply not_elem_of_cons in Hp as [Hx Hp]. cbn.
  destruct (Z.eqb_spec x p); [congruence |]. cbn. f_equal. auto.
Qed.

Lemma last_split (l : list Z) p : last l = Some p -> exists l', l = l' ++ [p].
Proof. intros [l' ->]%last_Some. eauto. Qed.

(** *** Frame lemmas *)

(** Changing the entry and the index of one key leaves other entries alone. *)
Lemma queue_ok_frame sh sh' main l p e :
  queue_ok sh main l -> p ∉ l -> sh_heap sh !! p = Some e -> sh_items sh !! en_key e = Some p ->
  (forall q, q ∈ l -> sh_heap sh' !! q = sh_heap sh !! q) ->
  (forall k, k <> en_key e -> sh_items sh' !! k = sh_items sh !! k) -> queue_ok sh' main l.
Proof.
  intros Hq Hp He Hi Hh Hk q Hin. destruct (Hq q Hin) as (eq & H1 & H2 & H3). exists eq.
  rewrite Hh by done. split; [done |]. split; [| done]. rewrite Hk; [done |].
  intros E. rewrite E in H2. assert (q = p) as -> by congruence. done.
Qed.

(** Two live pointers never share a key. *)
Lemma items_other sh p e k q :
  shard_ok sh -> sh_items sh !! en_key e = Some p -> sh_items sh !! k = Some q -> k <> en_key e -> q <> p.
Proof.
  intros Hok Hp Hq Hne ->. destruct (so_items _ Hok _ _ Hp) as (_ & e1 & He1 & Hk1).
  destruct (so_items _ Hok _ _ Hq) as (_ & e2 & He2 & Hk2). congruence.
Qed.

Lemma remember_ok sh k :
  sh_ghost sh ⊆ list_to_set (sh_ghostQ sh) -> 0 <= sh_ghostAt sh < zlen (sh_ghostQ sh) ->
  sh_ghost (remember sh k) ⊆ list_to_set (sh_ghostQ (remember sh k)) /\
  0 <= sh_ghostAt (remember sh k) < zlen (sh_ghostQ (remember sh k)) /\
  zlen (sh_ghostQ (remember sh k)) = zlen (sh_ghostQ sh).
Proof.
  intros Hg Ha. unfold remember. cbn. set (i := Z.to_nat (sh_ghostAt sh)).
  assert (zlen (<[i := k]> (sh_ghostQ sh)) = zlen (sh_ghostQ sh)) as Hl by (unfold zlen; by rewrite length_insert).
  assert ((i < length (sh_ghostQ sh))%nat) as Hi by (unfold zlen, i in *; lia).
  rewrite Hl, rem_mod_nonneg by lia. split; [| split; [apply Z.mod_pos_bound; lia | done]].
  intros x Hx. apply elem_of_list_to_set. apply elem_of_union in Hx as [->%elem_of_singleton | Hx].
  { apply list_elem_of_lookup_2 with (i := i). by apply list_lookup_insert_eq. }
  apply elem_of_difference in Hx as [Hx Hne]. apply Hg, elem_of_list_to_set, list_elem_of_lookup in Hx as [j Hj].
  apply list_elem_of_lookup_2 with (i := j). rewrite list_lookup_insert_ne; [done |]. intros <-.
  apply Hne. rewrite Hj. cbn. set_solver.
Qed.

(** *** Evictions *)

Lemma shard_split_small sh l p e :
  shard_ok sh -> ff_l (sh_small sh) = l ++ [p] -> sh_heap sh !! p = Some e ->
  p ∉ l /\ p ∉ ff_l (sh_main sh) /\ sh_items sh !! en_key e = Some p /\ 0 < zlen (en_data e) /\ 0 <= en_freq e <= 3 /\
  ff_bytes (sh_small sh) = queue_size (sh_heap sh) l + zlen (en_data e) /\
  queue_ok sh false l /\ NoDup (l ++ ff_l (sh_main sh)).
Proof.
  intros Hok Hl He. pose proof (so_nodup _ Hok) as Hnd. rewrite Hl, <- app_assoc in Hnd. cbn in Hnd.
  apply NoDup_app in Hnd as (Hnd1 & Hdis & Hnd2). apply NoDup_cons in Hnd2 as [Hpm Hnd2].
  assert (p ∉ l) as Hpl by (intros Hin; apply (Hdis p Hin); by left).
  destruct (so_small _ Hok p) as (e' & He' & Hi & Hd & Hf & _); [rewrite Hl; set_solver |].
  assert (e' = e) as -> by congruence. repeat split; try done; try lia.
  - rewrite (so_small_bytes _ Hok), Hl. unfold queue_size. rewrite queue_sum_app. cbn.
    unfold entry_size. rewrite He. cbn. lia.
  - intros q Hq. apply (so_small _ Hok). rewrite Hl. set_solver.
  - apply NoDup_app. split; [done |]. split; [| done]. intros q Hq ?. apply (Hdis q Hq). by right.
Qed.

Lemma shard_split_main sh l p e :
  shard_ok sh -> ff_l (sh_main sh) = l ++ [p] -> sh_heap sh !! p = Some e ->
  p ∉ l /\ p ∉ ff_l (sh_small sh) /\ sh_items sh !! en_key e = Some p /\ 0 < zlen (en_data e) /\ 0 <= en_freq e <= 3 /\
  en_main e = true /\ ff_bytes (sh_main sh) = queue_size (sh_heap sh) l + zlen (en_data e) /\
  queue_ok sh true l /\ NoDup (ff_l (sh_small sh) ++ l).
Proof.
  intros Hok Hl He. pose proof (so_nodup _ Hok) as Hnd. rewrite Hl, app_assoc in Hnd.
  apply NoDup_app in Hnd as (Hnd1 & Hdis & _).
  assert (p ∉ ff_l (sh_small sh) ++ l) as Hp by (intros Hin; apply (Hdis p Hin); by left).
  apply not_elem_of_app in Hp as [Hps Hpl].
  destruct (so_main _ Hok p) as (e' & He' & Hi & Hd & Hf & Hm); [rewrite Hl; set_solver |].
  assert (e' = e) as -> by congruence. repeat split; try done; try lia.
  - rewrite (so_main_bytes _ Hok), Hl. unfold queue_size. rewrite queue_sum_app. cbn.
    unfold entry_size. rewrite He. cbn. lia.
  - intros q Hq. apply (so_main _ Hok). rewrite Hl. set_solver.
Qed.

Lemma entry_size_same h p e e' q :
  h !! p = Some e -> en_data e' = en_data e -> entry_size (<[p := e']> h) q = entry_size h q.
Proof.
  intros He Hd. unfold entry_size. destruct (decide (q = p)) as [->|Hne].
  - rewrite lookup_insert_eq, He. cbn. by rewrite Hd.
  - by rewrite lookup_insert_ne.
Qed.

(** Re-queueing one entry with a new frequency keeps the invariant and the
    content. *)
Lemma requeue_ok sh sh' p e freq' main' :
  shard_ok sh -> sh_heap sh !! p = Some e -> sh_items sh !! en_key e = Some p -> 0 < zlen (en_data e) -> 0 <= freq' <= 3 ->
  sh_max sh' = sh_max sh -> sh_next sh' = sh_next sh -> sh_ghost sh' = sh_ghost sh ->
  sh_ghostQ sh' = sh_ghostQ sh -> sh_ghostAt sh' = sh_ghostAt sh ->
  sh_heap sh' = <[p := mkEntry (en_key e) (en_data e) freq' main']> (sh_heap sh) ->
  sh_items sh' = <[en_key e := p]> (sh_items sh) ->
  let ls := ff_l (sh_small sh') in let lm := ff_l (sh_main sh') in
  (forall q, q ∈ ls -> if main' then q ∈ ff_l (sh_small sh) /\ q <> p else q = p \/ q ∈ ff_l (sh_small sh)) ->
  (forall q, q ∈ lm -> if main' then q = p \/ q ∈ ff_l (sh_main sh) else q ∈ ff_l (sh_main sh) /\ q <> p) ->
  NoDup (ls ++ lm) ->
  (forall q, q ∈ ls ++ lm <-> q ∈ ff_l (sh_small sh) ++ ff_l (sh_main sh)) ->
  ff_bytes (sh_small sh') = queue_size (sh_heap sh) ls -> ff_bytes (sh_main sh') = queue_size (sh_heap sh) lm ->
  shard_ok sh' /\ (forall k, shard_lookup sh' k = shard_lookup sh k).
Proof.
  intros Hok He Hi Hd Hf Emax Enext Eg EgQ EgA Eh Ei ls lm Hls Hlm Hnd Hmem Hbs Hbm.
  assert (forall k, sh_items sh' !! k = sh_items sh !! k) as Hitems.
  { intros k. rewrite Ei. destruct (decide (k = en_key e)) as [->|]; [by rewrite lookup_insert_eq | by rewrite lookup_insert_ne]. }
  assert (forall main l, (forall q, q ∈ l -> q <> p -> q ∈ (if main : bool then ff_l (sh_main sh) else ff_l (sh_small sh))) ->
    (p ∈ l -> main = main') -> queue_ok sh' main l) as Hq.
  { intros main l Hin Hp q Hq. rewrite Eh. setoid_rewrite Hitems. destruct (decide (q = p)) as [->|Hne].
    - rewrite lookup_insert_eq. eexists. split; [done |]. cbn. specialize (Hp Hq). repeat split; try done; lia.
    - rewrite lookup_insert_ne by done. specialize (Hin q Hq Hne).
      destruct main; [by apply (so_main _ Hok) | by apply (so_small _ Hok)]. }
  split.
  - split; rewrite ?Emax, ?Enext, ?Eg, ?EgQ, ?EgA; try apply Hok; try done.
    + apply (Hq false ls); intros ?; intros; specialize (Hls _ ltac:(eassumption)); destruct main'; naive_solver.
    + apply (Hq true lm); intros ?; intros; specialize (Hlm _ ltac:(eassumption)); destruct main'; naive_solver.
    + intros k q Hk. rewrite Hitems in Hk. destruct (so_items _ Hok k q Hk) as (Hin & e1 & He1 & Hk1).
      split; [by apply Hmem |]. rewrite Eh. destruct (decide (q = p)) as [->|].
      * rewrite lookup_insert_eq. eexists. split; [done |]. cbn. congruence.
      * rewrite lookup_insert_ne by done. eauto.
    + rewrite Hbs, Eh. apply queue_sum_ext. intros. symmetry. by eapply entry_size_same.
    + rewrite Hbm, Eh. apply queue_sum_ext. intros. symmetry. by eapply entry_size_same.
    + intros q Hq'. apply (so_fresh _ Hok). by apply Hmem.
  - intros k. unfold shard_lookup. rewrite Hitems, Eh. destruct (sh_items sh !! k) as [q|]; [| done]. cbn.
    destruct (decide (q = p)) as [->|]; [by rewrite lookup_insert_eq, He | by rewrite lookup_insert_ne].
Qed.

(** Dropping one entry keeps the invariant and forgets only its key. *)
Lemma drop_ok sh sh' p e :
  shard_ok sh -> sh_heap sh !! p = Some e -> sh_items sh !! en_key e = Some p ->
  sh_max sh' = sh_max sh -> sh_next sh' = sh_next sh -> sh_heap sh' = sh_heap sh ->
  sh_items sh' = delete (en_key e) (sh_items sh) ->
  sh_ghost sh' ⊆ list_to_set (sh_ghostQ sh') -> 0 <= sh_ghostAt sh' < zlen (sh_ghostQ sh') ->
  let ls := ff_l (sh_small sh') in let lm := ff_l (sh_main sh') in
  queue_ok sh false ls -> queue_ok sh true lm -> p ∉ ls -> p ∉ lm -> NoDup (ls ++ lm) ->
  (forall q, q ∈ ff_l (sh_small sh) ++ ff_l (sh_main sh) -> q <> p -> q ∈ ls ++ lm) ->
  (forall q, q ∈ ls ++ lm -> q ∈ ff_l (sh_small sh) ++ ff_l (sh_main sh)) ->
  ff_bytes (sh_small sh') = queue_size (sh_heap sh) ls -> ff_bytes (sh_main sh') = queue_size (sh_heap sh) lm ->
  shard_ok sh' /\ (forall k d, shard_lookup sh' k = Some d -> shard_lookup sh k = Some d).
Proof.
  intros Hok He Hi Emax Enext Eh Ei Hg Hga ls lm Hqs Hqm Hps Hpm Hnd Hmem1 Hmem2 Hbs Hbm.
  split.
  - split; rewrite ?Emax, ?Enext, ?Eh; try apply Hok; try done.
    + eapply (queue_ok_frame sh); eauto; [intros; by rewrite Eh | intros; by rewrite Ei, lookup_delete_ne].
    + eapply (queue_ok_frame sh); eauto; [intros; by rewrite Eh | intros; by rewrite Ei, lookup_delete_ne].
    + intros k q Hk. rewrite Ei in Hk. apply lookup_delete_Some in Hk as [Hne Hk].
      destruct (so_items _ Hok k q Hk) as (Hin & e1 & He1 & Hk1). split; [| eauto].
      apply Hmem1; [done |]. eapply items_other; eauto.
    + intros q Hq. apply (so_fresh _ Hok). auto.
  - intros k d. unfold shard_lookup. rewrite Ei, Eh. destruct (decide (k = en_key e)) as [->|].
    + by rewrite lookup_delete_eq.
    + by rewrite lookup_delete_ne.
Qed.

(** What one eviction step guarantees. *)
Definition evict_post (sh sh' : blockShard) : Prop :=
  shard_ok sh' /\ sh_max sh' = sh_max sh /\ shard_weight sh' < shard_weight sh /\
  zlen (sh_ghostQ sh') = zlen (sh_ghostQ sh) /\
  forall k d, shard_lookup sh' k = Some d -> shard_lookup sh k = Some d.

Lemma queue_weight_same h p e l : p ∉ l -> queue_weight (<[p := e]> h) l = queue_weight h l.
Proof.
  intros Hp. apply queue_sum_ext. intros q Hq. unfold entry_weight. rewrite lookup_insert_ne; [done |]. by intros ->.
Qed.

Lemma queue_weight_app h l k : queue_weight h (l ++ k) = queue_weight h l + queue_weight h k.
Proof. apply queue_sum_app. Qed.

Lemma queue_weight_one h p e : h !! p = Some e -> queue_weight h [p] = en_freq e + 1.
Proof. intros He. unfold queue_weight, entry_weight. cbn. rewrite He. cbn. lia. Qed.

Lemma evict_small sh l p e :
  shard_ok sh -> ff_l (sh_small sh) = l ++ [p] -> sh_heap sh !! p = Some e ->
  (Z.quot (sh_max sh) 10 <? ff_bytes (sh_small sh)) || (zlen (ff_l (sh_main sh)) =? 0) = true ->
  exists sh' b, evictOne sh = Some (sh', b) /\ evict_post sh sh'.
Proof.
  intros Hok Hl He Hb. destruct (shard_split_small sh l p e Hok Hl He) as (Hpl & Hpm & Hi & Hd & Hf & Hbytes & Hq & Hnd).
  unfold evictOne. rewrite Hb, Hl, last_snoc. cbn [mbind option_bind]. rewrite He. cbn [mbind option_bind].
  unfold remove. rewrite Hl, list_remove_last by done. unfold add_bytes. cbn [ff_l ff_bytes].
  assert (shard_weight sh = queue_weight (sh_heap sh) l + (en_freq e + 1) + queue_weight (sh_heap sh) (ff_l (sh_main sh))) as Hw
    by (unfold shard_weight; rewrite Hl, queue_weight_app, (queue_weight_one _ _ _ He); lia).
  destruct (Z.ltb_spec 0 (en_freq e)); eexists _, _; (split; [reflexivity |]).
  - match goal with |- evict_post sh ?s => destruct (requeue_ok sh s p e 0 true) as [Hok' Hlk] end; cbn; try done; try lia;
      try (rewrite Hbytes; unfold queue_size; lia).
    + intros q Hq'. rewrite Hl. split; [set_solver | by intros ->].
    + intros q. rewrite elem_of_cons. tauto.
    + rewrite Permutation_app_comm. cbn. constructor; [| by rewrite Permutation_app_comm]. rewrite elem_of_app. tauto.
    + intros q. rewrite Hl. set_solver.
    + rewrite (so_main_bytes _ Hok). unfold queue_size, entry_size at 2. cbn. rewrite He. cbn. lia.
    + split; [done |]. split; [done |]. split; [| split; [done | intros k d; by rewrite Hlk]].
      rewrite Hw. unfold shard_weight. cbn [sh_heap sh_small sh_main set_main set_items set_heap set_small ff_l push_front].
      change (p :: ff_l (sh_main sh)) with ([p] ++ ff_l (sh_main sh)).
      rewrite queue_weight_app, (queue_weight_same _ _ _ l), (queue_weight_same _ _ _ (ff_l _)) by done.
      rewrite (queue_weight_one _ _ _ (lookup_insert_eq _ _ _)). cbn [en_freq]. lia.
  - pose proof (remember_ok sh (en_key e) (so_ghost _ Hok) (so_ghostAt _ Hok)) as (Hg & Hga & Hgl).
    match goal with |- evict_post sh ?s => destruct (drop_ok sh s p e) as [Hok' Hlk] end; cbn; try done; try lia;
      try (rewrite Hbytes; unfold queue_size; lia).
    + by apply (so_main _ Hok).
    + intros q. rewrite Hl. set_solver.
    + intros q. rewrite Hl. set_solver.
    + by apply (so_main_bytes _ Hok).
    + split; [done |]. split; [done |]. split; [| done]. rewrite Hw. unfold shard_weight.
      cbn [sh_heap sh_small sh_main remember set_ghost set_items set_small set_main ff_l]. lia.
Qed.

Lemma evict_main sh l p e :
  shard_ok sh -> ff_l (sh_main sh) = l ++ [p] -> sh_heap sh !! p = Some e ->
  (Z.quot (sh_max sh) 10 <? ff_bytes (sh_small sh)) || (zlen (ff_l (sh_main sh)) =? 0) = false ->
  exists sh' b, evictOne sh = Some (sh', b) /\ evict_post sh sh'.
Proof.
  intros Hok Hl He Hb. destruct (shard_split_main sh l p e Hok Hl He) as (Hpl & Hps & Hi & Hd & Hf & Hm & Hbytes & Hq & Hnd).
  unfold evictOne. rewrite Hb, Hl, last_snoc. cbn [mbind option_bind]. rewrite He. cbn [mbind option_bind].
  unfold remove, set_main, push_front, add_bytes. cbn [sh_main ff_l ff_bytes]. rewrite Hl, list_remove_last by done.
  assert (shard_weight sh = queue_weight (sh_heap sh) (ff_l (sh_small sh)) + queue_weight (sh_heap sh) l + (en_freq e + 1)) as Hw
    by (unfold shard_weight; rewrite Hl, queue_weight_app, (queue_weight_one _ _ _ He); lia).
  destruct (Z.ltb_spec 0 (en_freq e)); eexists _, _; (split; [reflexivity |]).
  - match goal with |- evict_post sh ?s => destruct (requeue_ok sh s p e (en_freq e - 1) (en_main e)) as [Hok' Hlk] end;
      cbn; rewrite ?Hm; try done; try lia;
      try (rewrite Hbytes; unfold queue_size; lia).
    + intros q Hq'. split; [done | by intros ->].
    + intros q. rewrite Hl. set_solver.
    + rewrite Permutation_app_comm. cbn. constructor; [| by rewrite Permutation_app_comm]. rewrite elem_of_app. tauto.
    + intros q. rewrite Hl. set_solver.
    + by apply (so_small_bytes _ Hok).
    + rewrite Hbytes. unfold queue_size, entry_size at 2. cbn. rewrite He. cbn. lia.
    + rewrite Hm in Hok'. rewrite Hm in Hlk. split; [done |]. split; [done |]. split; [| split; [done | intros k d; by rewrite Hlk]].
      rewrite Hw. unfold shard_weight. cbn [sh_heap sh_small sh_main set_items set_heap ff_l].
      change (p :: l) with ([p] ++ l).
      rewrite queue_weight_app, (queue_weight_same _ _ _ l), (queue_weight_same _ _ _ (ff_l _)) by done.
      rewrite (queue_weight_one _ _ _ (lookup_insert_eq _ _ _)). cbn [en_freq]. lia.
  - match goal with |- evict_post sh ?s => destruct (drop_ok sh s p e) as [Hok' Hlk] end; cbn; try apply Hok; try done; try lia;
      try (rewrite Hbytes; unfold queue_size; lia).
    + intros q. rewrite Hl. set_solver.
    + intros q. rewrite Hl. set_solver.
    + split; [done |]. split; [done |]. split; [| done]. rewrite Hw. unfold shard_weight.
      cbn [sh_heap sh_small sh_main remember set_ghost set_items set_small set_main ff_l]. lia.
Qed.

Lemma queue_size_nonneg sh main l : queue_ok sh main l -> 0 <= queue_size (sh_heap sh) l.
Proof.
  intros Hq. induction l as [|p l IH]; [done |]. unfold queue_size in *. cbn.
  assert (queue_ok sh main l) as Hq' by (intros q Hin; apply Hq; by right). specialize (IH Hq').
  destruct (Hq p) as (e & He & _ & Hd & _); [by left |]. unfold entry_size at 1. rewrite He. cbn. lia.
Qed.

Lemma queue_weight_bounds sh main l :
  queue_ok sh main l -> 0 <= queue_weight (sh_heap sh) l <= 4 * Z.of_nat (length l).
Proof.
  intros Hq. induction l as [|p l IH]; [done |]. unfold queue_weight in *. cbn [fmap list_fmap fold_right length].
  assert (queue_ok sh main l) as Hq' by (intros q Hin; apply Hq; by right). specialize (IH Hq').
  destruct (Hq p) as (e & He & _ & _ & Hf & _); [by left |]. unfold entry_weight at 1 3. rewrite He. cbn in *. lia.
Qed.

(** A step of the loop never dereferences an empty queue. *)
Lemma evictOne_spec sh :
  shard_ok sh -> sh_max sh < shard_bytes sh ->
  exists sh' b, evictOne sh = Some (sh', b) /\ evict_post sh sh'.
Proof.
  intros Hok Hb. unfold shard_bytes in Hb. pose proof (so_max _ Hok).
  rewrite (so_small_bytes _ Hok), (so_main_bytes _ Hok) in Hb.
  pose proof (queue_size_nonneg _ _ _ (so_small _ Hok)). pose proof (queue_size_nonneg _ _ _ (so_main _ Hok)).
  destruct ((Z.quot (sh_max sh) 10 <? ff_bytes (sh_small sh)) || (zlen (ff_l (sh_main sh)) =? 0)) eqn:Ec.
  - assert (ff_l (sh_small sh) <> []) as Hne.
    { intros E. rewrite (so_small_bytes _ Hok), E in Ec. rewrite E in Hb. change (queue_size (sh_heap sh) []) with 0 in *.
      apply orb_true_iff in Ec as [Ec%Z.ltb_lt|Ec%Z.eqb_eq].
      - pose proof (Z.quot_pos (sh_max sh) 10 ltac:(lia) ltac:(lia)). lia.
      - apply zlen_0_nil in Ec. rewrite Ec in Hb. change (queue_size (sh_heap sh) []) with 0 in Hb. lia. }
    destruct (exists_last Hne) as (l & p & Hl).
    destruct (so_small _ Hok p) as (e & He & _); [rewrite Hl; set_solver |]. by eapply evict_small.
  - assert (ff_l (sh_main sh) <> []) as Hne.
    { intros E. rewrite E in Ec. by rewrite orb_true_r in Ec. }
    destruct (exists_last Hne) as (l & p & Hl).
    destruct (so_main _ Hok p) as (e & He & _); [rewrite Hl; set_solver |]. by eapply evict_main.
Qed.

Lemma evict_loop_spec fuel sh n :
  shard_ok sh -> shard_weight sh <= Z.of_nat fuel ->
  exists sh' n', evict_loop fuel sh n = Some (sh', n') /\ shard_ok sh' /\ shard_bytes sh' <= sh_max sh' /\
    sh_max sh' = sh_max sh /\ zlen (sh_ghostQ sh') = zlen (sh_ghostQ sh) /\
    forall k d, shard_lookup sh' k = Some d -> shard_lookup sh k = Some d.
Proof.
  revert sh n. induction fuel as [|fuel IH]; intros sh n Hok Hw; cbn [evict_loop];
    destruct (Z.ltb_spec (sh_max sh) (shard_bytes sh)) as [Hlt|Hge]; try (by eexists _, _).
  - destruct (evictOne_spec sh Hok Hlt) as (sh' & b & _ & (Hok' & _ & Hdec & _)).
    pose proof (queue_weight_bounds _ _ _ (so_small _ Hok')). pose proof (queue_weight_bounds _ _ _ (so_main _ Hok')).
    unfold shard_weight in *. lia.
  - destruct (evictOne_spec sh Hok Hlt) as (sh' & b & -> & (Hok' & Hmax & Hdec & Hgq & Hlk)). cbn [mbind option_bind].
    destruct (IH sh' (n + (if b then 1 else 0)) Hok' ltac:(lia)) as (sh2 & n2 & -> & Hok2 & Hb2 & Hmax2 & Hg2 & Hlk2).
    exists sh2, n2. do 3 (split; [done |]). split; [congruence |]. split; [congruence |]. auto.
Qed.

(** Inserting a fresh entry at the front of either queue. *)
Lemma insert_ok sh sh' k data known :
  shard_ok sh -> sh_items sh !! k = None -> 0 < zlen data ->
  sh_max sh' = sh_max sh -> sh_next sh' = sh_next sh + 1 ->
  sh_heap sh' = <[sh_next sh := mkEntry k data 0 known]> (sh_heap sh) ->
  sh_items sh' = <[k := sh_next sh]> (sh_items sh) ->
  sh_ghost sh' ⊆ sh_ghost sh -> sh_ghostQ sh' = sh_ghostQ sh -> sh_ghostAt sh' = sh_ghostAt sh ->
  sh_small sh' = (if known then sh_small sh else mkFifo (sh_next sh :: ff_l (sh_small sh)) (ff_bytes (sh_small sh) + zlen data)) ->
  sh_main sh' = (if known then mkFifo (sh_next sh :: ff_l (sh_main sh)) (ff_bytes (sh_main sh) + zlen data) else sh_main sh) ->
  shard_ok sh' /\ forall k' d, shard_lookup sh' k' = Some d -> shard_lookup sh k' = Some d \/ (k' = k /\ d = data).
Proof.
  intros Hok Hnone Hd Emax Enext Eh Ei Eg EgQ EgA Es Em. set (p := sh_next sh) in *.
  pose proof (so_fresh _ Hok) as Hfresh.
  assert (p ∉ ff_l (sh_small sh) ++ ff_l (sh_main sh)) as Hp by (intros Hin%Hfresh; unfold p in Hin; lia).
  assert (forall main l, queue_ok sh main l -> p ∉ l -> queue_ok sh' main l) as Hq.
  { intros main l Hq Hpl q Hin. destruct (Hq q Hin) as (e & He & Hi & HH). exists e. rewrite Eh, Ei.
    rewrite lookup_insert_ne by (by intros ->). split; [done |]. split; [| done].
    rewrite lookup_insert_ne; [done |]. intros ->. congruence. }
  assert (forall main l, main = known -> queue_ok sh main l -> p ∉ l -> queue_ok sh' main (p :: l)) as Hqc.
  { intros main l -> Hql Hpl q [->|Hin]%elem_of_cons; [| by eapply Hq].
    eexists. rewrite Eh, Ei, lookup_insert_eq. split; [done |]. cbn. rewrite lookup_insert_eq. repeat split; lia. }
  assert (forall l, p ∉ l -> queue_size (sh_heap sh') l = queue_size (sh_heap sh) l) as Hsz.
  { intros l Hpl. apply queue_sum_ext. intros q Hin. unfold entry_size. rewrite Eh, lookup_insert_ne; [done | by intros ->]. }
  assert (entry_size (sh_heap sh') p = zlen data) as Hep by (unfold entry_size; by rewrite Eh, lookup_insert_eq).
  assert (forall q, q ∈ ff_l (sh_small sh') ++ ff_l (sh_main sh') <-> q = p \/ q ∈ ff_l (sh_small sh) ++ ff_l (sh_main sh)) as Hmem
    by (intros q; rewrite Es, Em; destruct known; set_solver).
  apply not_elem_of_app in Hp as [Hps Hpm]. split.
  - split; rewrite ?Emax, ?Enext, ?EgQ, ?EgA; try apply Hok.
    + pose proof (so_nodup _ Hok). rewrite Es, Em. destruct known; cbn; [rewrite <- Permutation_middle |]; constructor; set_solver.
    + rewrite Es. destruct known; cbn; [apply Hq | apply Hqc]; try done; apply Hok.
    + rewrite Em. destruct known; cbn; [apply Hqc | apply Hq]; try done; apply Hok.
    + intros k' q Hk. rewrite Hmem. rewrite Ei in Hk. apply lookup_insert_Some in Hk as [[<- <-]|[Hne Hk]].
      * split; [by left |]. rewrite Eh, lookup_insert_eq. by eexists.
      * destruct (so_items _ Hok k' q Hk) as (Hin & e & He & Hke). split; [by right |]. exists e.
        rewrite Eh, lookup_insert_ne; [done |]. intros <-. apply elem_of_app in Hin as [?|?]; done.
    + rewrite Es. destruct known; cbn [ff_bytes ff_l]; [rewrite Hsz by done; apply Hok |].
      unfold queue_size. cbn. fold (queue_size (sh_heap sh') (ff_l (sh_small sh))).
      rewrite Hsz, Hep, (so_small_bytes _ Hok) by done. lia.
    + rewrite Em. destruct known; cbn [ff_bytes ff_l]; [| rewrite Hsz by done; apply Hok].
      unfold queue_size. cbn. fold (queue_size (sh_heap sh') (ff_l (sh_main sh))).
      rewrite Hsz, Hep, (so_main_bytes _ Hok) by done. lia.
    + intros q [->|Hq']%Hmem; [unfold p; lia |]. specialize (Hfresh q Hq'). lia.
    + etrans; [exact Eg | apply Hok].
  - intros k' d. unfold shard_lookup. rewrite Ei, Eh. destruct (decide (k' = k)) as [->|Hne].
    + rewrite lookup_insert_eq. cbn. rewrite lookup_insert_eq. intros [= <-]. by right.
    + rewrite (lookup_insert_ne (sh_items sh)) by done. destruct (sh_items sh !! k') as [q|] eqn:Hq'; [| done]. cbn.
      destruct (so_items _ Hok _ _ Hq') as (Hin & _). rewrite lookup_insert_ne; [by left |].
      intros <-. apply elem_of_app in Hin as [?|?]; done.
Qed.

(** *** Operations of a shard *)

Definition shard_fit (sh : blockShard) : Prop := shard_ok sh /\ shard_bytes sh <= sh_max sh.

Lemma shard_put_spec sh k data :
  shard_fit sh ->
  exists sh' f n, shard_put sh k data = Some (sh', f, n) /\ shard_fit sh' /\ sh_max sh' = sh_max sh /\
    forall k' d, shard_lookup sh' k' = Some d -> shard_lookup sh k' = Some d \/ (k' = k /\ d = data).
Proof.
  intros Hsf. pose proof Hsf as [Hok Hfit]. unfold shard_put.
  destruct ((zlen data =? 0) || (sh_max sh <? zlen data)) eqn:Ez; [by exists sh, 0, 0; auto |].
  apply orb_false_iff in Ez as [Ez%Z.eqb_neq _]. pose proof (zlen_nonneg data).
  destruct (bool_decide (is_Some (sh_items sh !! k))) eqn:Ei; [by exists sh, 0, 0; auto |].
  apply bool_decide_eq_false, eq_None_not_Some in Ei.
  match goal with |- context [evict_loop (evict_rounds ?s) ?s 0] => set (sh1 := s) end.
  destruct (insert_ok sh sh1 k data (bool_decide (k ∈ sh_ghost sh))) as [Hok1 Hlk1];
    try (unfold sh1; destruct (bool_decide (k ∈ sh_ghost sh)); (done || set_solver)); [lia |].
  assert (sh_max sh1 = sh_max sh) as Emax by (unfold sh1; by destruct (bool_decide _)).
  destruct (evict_loop_spec (evict_rounds sh1) sh1 0 Hok1) as (sh2 & n & -> & Hok2 & Hb2 & Hm2 & _ & Hlk2).
  { pose proof (queue_weight_bounds _ _ _ (so_small _ Hok1)). pose proof (queue_weight_bounds _ _ _ (so_main _ Hok1)).
    unfold shard_weight, evict_rounds. lia. }
  cbn [mbind option_bind]. eexists _, _, _. split; [done |]. split; [done |]. split; [congruence |]. auto.
Qed.

Lemma shard_get_spec sh k :
  shard_fit sh ->
  match shard_get sh k with
  | Some (d, sh') => shard_lookup sh k = Some d /\ shard_fit sh' /\ sh_max sh' = sh_max sh /\
      forall k', shard_lookup sh' k' = shard_lookup sh k'
  | None => shard_lookup sh k = None
  end.
Proof.
  intros [Hok Hfit]. unfold shard_get.
  destruct (sh_items sh !! k) as [p|] eqn:Hi; cbn [mbind option_bind]; [| unfold shard_lookup; by rewrite Hi].
  destruct (so_items _ Hok k p Hi) as (Hin & e & He & Hk). rewrite He. cbn [mbind option_bind].
  assert (0 < zlen (en_data e) /\ 0 <= en_freq e <= 3 /\ en_main e = bool_decide (p ∈ ff_l (sh_main sh))) as (Hd & Hf & Hm).
  { pose proof (so_nodup _ Hok) as Hnd. apply NoDup_app in Hnd as (_ & Hdis & _).
    apply elem_of_app in Hin as [Hin|Hin].
    - destruct (so_small _ Hok p Hin) as (e' & He' & _ & ? & ? & Hm). assert (e' = e) as -> by congruence.
      rewrite bool_decide_false by (by apply Hdis). done.
    - destruct (so_main _ Hok p Hin) as (e' & He' & _ & ? & ? & Hm). assert (e' = e) as -> by congruence.
      rewrite bool_decide_true by done. done. }
  set (sh' := set_heap _ _ _). split; [unfold shard_lookup; rewrite Hi; cbn; by rewrite He |].
  destruct (requeue_ok sh (set_items sh' (<[en_key e := p]> (sh_items sh))) p e (Z.min (en_freq e + 1) 3) (en_main e)) as [Hok' Hlk];
    cbn; try done; try lia; try apply Hok.
  - by rewrite Hk.
  - intros q Hq. rewrite Hm. case_bool_decide; [| by right]. split; [done |]. intros ->.
    pose proof (so_nodup _ Hok) as Hnd. apply NoDup_app in Hnd as (_ & Hdis & _). by apply (Hdis p).
  - intros q Hq. rewrite Hm. case_bool_decide; [by right |]. split; [done |]. by intros ->.
  - assert (set_items sh' (<[en_key e := p]> (sh_items sh)) = sh') as E.
    { unfold sh', set_items, set_heap. cbn. f_equal. apply insert_id. by rewrite Hk. }
    rewrite E in *. by split.
Qed.

(** *** Operations of the cache *)

Definition cache_ok (c : blockCache) : Prop :=
  length (bc_shards c) = 16%nat /\ Forall shard_fit (bc_shards c).

Definition cache_lookup (c : blockCache) (k : blockKey) : option bytes :=
  sh ← nth_shard c (shard_index k); shard_lookup sh k.

Lemma shard_index_range k : 0 <= shard_index k < 16.
Proof.
  unfold shard_index, blockShards. set (h := Z.lxor _ _).
  assert (0 <= h) by (unfold h, u64; rewrite !Z.lxor_nonneg; pose proof Z.mod_pos_bound; split; intros; try split;
    intros; apply Z.mod_pos_bound; lia).
  assert (0 <= Z.shiftr h 59) by (by apply Z.shiftr_nonneg).
  rewrite rem_mod_nonneg by lia. apply Z.mod_pos_bound. lia.
Qed.

Lemma nth_shard_ok c k : cache_ok c -> exists sh, nth_shard c (shard_index k) = Some sh /\ shard_fit sh.
Proof.
  intros [Hl Hf]. pose proof (shard_index_range k). unfold nth_shard.
  destruct (lookup_lt_is_Some_2 (bc_shards c) (Z.to_nat (shard_index k))) as [sh Hsh]; [lia |].
  exists sh. split; [done |]. rewrite Forall_forall in Hf. apply Hf. by apply list_elem_of_lookup_2 in Hsh.
Qed.

(** Replacing a shard by one that holds at most the same and one more block. *)
Lemma set_shard_ok c k sh sh' :
  cache_ok c -> nth_shard c (shard_index k) = Some sh -> shard_fit sh' ->
  cache_ok (set_shard c (shard_index k) sh') /\
  forall k', cache_lookup (set_shard c (shard_index k) sh') k' =
    if decide (shard_index k' = shard_index k) then shard_lookup sh' k' else cache_lookup c k'.
Proof.
  intros [Hl Hf] Hsh Hfit. pose proof (shard_index_range k). split.
  - split; cbn; [by rewrite length_insert |]. apply Forall_insert; done.
  - intros k'. unfold cache_lookup, nth_shard, set_shard in *. cbn. pose proof (shard_index_range k').
    case_decide as E.
    + rewrite E, list_lookup_insert_eq by lia. done.
    + rewrite list_lookup_insert_ne by lia. done.
Qed.

Lemma bc_put_spec c k data :
  cache_ok c ->
  exists c', bc_put c k data = Some c' /\ cache_ok c' /\
    (sh_max <$> bc_shards c') = (sh_max <$> bc_shards c) /\
    forall k' d, cache_lookup c' k' = Some d -> cache_lookup c k' = Some d \/ (k' = k /\ d = data).
Proof.
  intros Hc. destruct (nth_shard_ok c k Hc) as (sh & Hsh & Hfit). unfold bc_put. rewrite Hsh. cbn [mbind option_bind].
  destruct (shard_put_spec sh k data Hfit) as (sh' & f & n & -> & Hfit' & Hmax & Hlk). cbn [mbind option_bind].
  destruct (set_shard_ok c k sh sh' Hc Hsh Hfit') as [Hc' Hlk']. eexists. split; [reflexivity |]. split; [done |].
  split.
  - cbn. rewrite list_fmap_insert, Hmax. apply list_insert_id. unfold nth_shard in Hsh. by rewrite list_lookup_fmap, Hsh.
  - intros k' d Hd. change (cache_lookup (set_shard c (shard_index k) sh') k' = Some d) in Hd. rewrite Hlk' in Hd.
    case_decide as E; [| by left]. unfold cache_lookup. rewrite E, Hsh. cbn. auto.
Qed.

Lemma bc_get_spec c k :
  cache_ok c ->
  match bc_get c k with
  | Some (d, c') => cache_lookup c k = Some d /\ cache_ok c' /\ forall k', cache_lookup c' k' = cache_lookup c k'
  | None => cache_lookup c k = None
  end.
Proof.
  intros Hc. destruct (nth_shard_ok c k Hc) as (sh & Hsh & Hfit). unfold bc_get. rewrite Hsh.
  assert (cache_lookup c k = shard_lookup sh k) as -> by (unfold cache_lookup; by rewrite Hsh).
  cbn [mbind option_bind]. pose proof (shard_get_spec sh k Hfit) as Hget.
  destruct (shard_get sh k) as [[d sh']|]; [| done]. cbn [mbind option_bind].
  destruct Hget as (Hd & Hfit' & Hmax & Hlk). destruct (set_shard_ok c k sh sh' Hc Hsh Hfit') as [Hc' Hlk'].
  split; [done |]. split; [done |]. intros k'. rewrite Hlk'. case_decide as E; [| done].
  rewrite Hlk. unfold cache_lookup. by rewrite E, Hsh.
Qed.

(** *** Content

    What a key stands for: the whole file, or one of its blocks. *)

Definition content (files : Z -> Z -> bytes) (k : blockKey) : bytes :=
  if bk_block k =? wholeFile then files (bk_table k) (bk_file k)
  else block_bytes (files (bk_table k) (bk_file k)) (bk_block k).

Definition cache_content (files : Z -> Z -> bytes) (c : blockCache) : Prop :=
  forall k d, cache_lookup c k = Some d -> d = content files k.

(** A cache whose invariant holds and whose blocks are right. *)
Definition cache_good (files : Z -> Z -> bytes) (c : blockCache) : Prop := cache_ok c /\ cache_content files c.

Lemma bc_get_good files c k :
  cache_good files c ->
  match bc_get c k with
  | Some (d, c') => d = content files k /\ cache_good files c'
  | None => True
  end.
Proof.
  intros [Hok Hc]. pose proof (bc_get_spec c k Hok) as H. destruct (bc_get c k) as [[d c']|]; [| done].
  destruct H as (Hd & Hok' & Hlk). split; [by apply Hc |]. split; [done |]. intros k' d'. rewrite Hlk. apply Hc.
Qed.

Lemma bc_put_good files c k data :
  cache_good files c -> data = content files k -> exists c', bc_put c k data = Some c' /\ cache_good files c'.
Proof.
  intros [Hok Hc] Hd. destruct (bc_put_spec c k data Hok) as (c' & -> & Hok' & _ & Hlk). exists c'. split; [done |].
  split; [done |]. intros k' d [?|[-> ->]]%Hlk; auto.
Qed.

Lemma get_blocks_good files n c table file b :
  cache_good files c -> 0 <= b -> b + Z.of_nat n < 2 ^ 31 ->
  let '(res, c') := get_blocks n c table file b in
  cache_good files c' /\
  forall bl, res = Some bl -> bl = block_bytes (files table file) <$> seqZ b (Z.of_nat n).
Proof.
  revert c b. induction n as [|n IH]; intros c b Hg Hb Hn; cbn [get_blocks].
  { split; [done |]. by intros bl [= <-]. }
  pose proof (bc_get_good files c (mkKey table file b) Hg) as Hget.
  destruct (bc_get c (mkKey table file b)) as [[d c1]|]; [| done]. destruct Hget as [-> Hg1].
  rewrite wrap32_small by lia. specialize (IH c1 (b + 1) Hg1 ltac:(lia) ltac:(lia)).
  destruct (get_blocks n c1 table file (b + 1)) as [res c2]. destruct IH as [Hg2 Hres]. split; [done |].
  intros bl Hbl. apply fmap_Some in Hbl as (rest & -> & ->). rewrite (Hres rest) by done.
  rewrite (seqZ_cons b) by lia. rewrite fmap_cons.
  replace (Z.pred (Z.of_nat (S n))) with (Z.of_nat n) by lia. unfold content. cbn [bk_block bk_table bk_file].
  unfold wholeFile. rewrite (proj2 (Z.eqb_neq b (-1))) by lia. done.
Qed.

Lemma clip_blocks_window body base start stop n b :
  0 <= b -> b + Z.of_nat n < 2 ^ 31 -> (b + Z.of_nat n - 1) * blockRows * RowBytes <= zlen body ->
  concat (clip_blocks base b (block_bytes body <$> seqZ b (Z.of_nat n)) start stop) =
  clip body (Z.max (start - base) 0) (stop + 1 - base) (b * blockRows * RowBytes) ((b + Z.of_nat n) * blockRows * RowBytes).
Proof.
  revert b. induction n as [|n IH]; intros b Hb Hn Hlen.
  { rewrite seqZ_nil by lia. cbn. by rewrite clip_empty by lia. }
  rewrite seqZ_cons by lia. rewrite fmap_cons. cbn [clip_blocks].
  replace (Z.pred (Z.of_nat (S n))) with (Z.of_nat n) by lia. change (Z.succ b) with (b + 1).
  rewrite wrap32_small by lia.
  assert (b * blockRows * RowBytes <= zlen body) as Hlb by (unfold blockRows, RowBytes in *; lia).
  pose proof (clipBlock_window body base b start stop Hb Hlb) as Hclip.
  specialize (IH (b + 1) ltac:(lia) ltac:(lia) ltac:(unfold blockRows, RowBytes in *; lia)).
  replace (b + Z.of_nat (S n)) with (b + 1 + Z.of_nat n) by lia.
  rewrite <- (clip_cat body (Z.max (start - base) 0) (stop + 1 - base) (b * blockRows * RowBytes) ((b + 1) * blockRows * RowBytes))
    by (unfold blockRows, RowBytes; lia).
  rewrite <- Hclip, <- IH. by destruct (clipBlock base b (block_bytes body b) start stop) as [[|? ?]|].
Qed.

(** The cached parts of an aligned piece are its bytes. *)
Lemma pieceParts_good files c table p start stop :
  cache_good files c -> piece_ok (files table) p -> block_aligned p ->
  let '(res, c') := pieceParts (Some c) table p start stop in
  (exists c1, c' = Some c1 /\ cache_good files c1) /\
  forall parts, res = Some parts -> concat parts = piece_bytes (files table) start stop p.
Proof.
  intros Hg (Hlo & [Hhi Hmax] & Hb & Hlen) [Ha1 Ha2]. unfold pieceParts.
  destruct (table =? 0); [split; [eauto | done] |].
  rewrite !quot_div_nonneg by (unfold blockRows; lia). unfold blockRows at 1 2 3 4.
  set (n := Z.to_nat (p_hi p / 32 - p_lo p / 32 + 1)).
  assert (Z.of_nat n = p_hi p / 32 - p_lo p / 32 + 1) as Hn by (unfold n; div_lia).
  pose proof (get_blocks_good files n c table (p_fileID p) (p_lo p / 32) Hg ltac:(div_lia) ltac:(div_lia)) as Hget.
  destruct (get_blocks n c table (p_fileID p) (p_lo p / 32)) as [[bl|] c1]; destruct Hget as [Hg1 Hres];
    (split; [by eexists | try done]).
  intros parts [= <-]. rewrite (Hres bl) by done. set (body := files table (p_fileID p)) in *.
  rewrite clip_blocks_window; [| div_lia | div_lia | unfold blockRows, RowBytes in *; div_lia].
  unfold piece_bytes. fold body. rewrite Hn. unfold blockRows.
  replace (p_lo p / 32 * 32 * RowBytes) with (p_lo p * RowBytes) by (unfold RowBytes; div_lia).
  replace (p_lo p / 32 + (p_hi p / 32 - p_lo p / 32 + 1)) with (p_hi p / 32 + 1) by lia.
  destruct Ha2 as [Ha2|Ha2].
  - f_equal. unfold RowBytes. div_lia.
  - unfold clip. rewrite slice_clamp by (unfold RowBytes; lia).
    rewrite (slice_clamp _ _ (Z.min ((p_hi p + 1) * RowBytes) _)) by (unfold RowBytes; lia). f_equal.
    assert (zlen body <= (p_hi p + 1) * RowBytes /\ zlen body <= (p_hi p / 32 + 1) * 32 * RowBytes)
      by (unfold RowBytes in *; div_lia). lia.
Qed.

Lemma cache_blocks_good files fuel c table file b :
  cache_good files c -> 0 <= b -> zlen (files table file) <= 2 ^ 30 * RowBytes ->
  zlen (files table file) - b * (blockRows * RowBytes) <= Z.of_nat fuel ->
  exists c', cache_blocks fuel c table file (files table file) b (b * (blockRows * RowBytes)) = Some c' /\ cache_good files c'.
Proof.
  revert c b. induction fuel as [|fuel IH]; intros c b Hg Hb Hlen Hf; cbn [cache_blocks];
    destruct (Z.ltb_spec (b * (blockRows * RowBytes)) (zlen (files table file))) as [Hlt|]; try (by eexists); [lia |].
  destruct (bc_put_good files c (mkKey table file b)
    (slice (files table file) (b * (blockRows * RowBytes)) (Z.min (b * (blockRows * RowBytes) + blockRows * RowBytes) (zlen (files table file)))))
    as (c1 & -> & Hg1); [done | |].
  - unfold content, wholeFile. cbn [bk_block bk_table bk_file]. rewrite (proj2 (Z.eqb_neq b (-1))) by lia.
    unfold block_bytes. f_equal; lia.
  - cbn [mbind option_bind]. rewrite wrap32_small by (unfold blockRows, RowBytes in *; lia).
    replace (b * (blockRows * RowBytes) + blockRows * RowBytes) with ((b + 1) * (blockRows * RowBytes)) by lia.
    apply IH; try done; unfold blockRows, RowBytes in *; lia.
Qed.

Lemma newShard_fit per ghost : 0 < per -> 8 <= ghost -> shard_fit (newShard per ghost).
Proof.
  intros Hp Hg. split; [| unfold shard_bytes; cbn; lia]. split; cbn; try done; try (intros ? ?; set_solver); [constructor |].
  unfold zlen. rewrite length_replicate. lia.
Qed.

Lemma newBlockCache_good files n c :
  newBlockCache n = Some c ->
  cache_good files c /\ Forall (fun sh => sh_max sh = Z.max (n / 16) 1) (bc_shards c).
Proof.
  unfold newBlockCache, blockShards. destruct (Z.leb_spec n 0); [done |].
  rewrite quot_div_nonneg by lia. set (per := Z.max (n / 16) 1). set (ghost := Z.max _ 8).
  remember (Z.to_nat 16) as m eqn:Em. intros [= <-]. cbn [bc_shards].
  assert (shard_fit (newShard per ghost)) as Hfit by (apply newShard_fit; unfold per, ghost; lia).
  split; [| by apply Forall_replicate]. split.
  - split; cbn [bc_shards]; [by rewrite length_replicate, Em | by apply Forall_replicate].
  - intros k d. unfold cache_lookup, nth_shard. cbn [bc_shards].
    destruct (replicate m _ !! _) as [sh|] eqn:E; [| done]. apply lookup_replicate in E as [-> _]. done.
Qed.

Lemma fold_resident l b n :
  fst (fold_left (fun '(b, n) sh => (b + shard_bytes sh, n + Z.of_nat (size (sh_items sh)))) l (b, n)) =
  b + fold_right Z.add 0 (shard_bytes <$> l).
Proof. revert b n. induction l as [|sh l IH]; intros b n; cbn; [lia |]. rewrite IH. lia. Qed.

Lemma resident_bound c m :
  cache_ok c -> Forall (fun sh => sh_max sh = m) (bc_shards c) -> fst (resident c) <= 16 * m.
Proof.
  intros [Hl Hf] Hm. unfold resident. rewrite fold_resident.
  assert (forall l, Forall shard_fit l -> Forall (fun sh => sh_max sh = m) l ->
    fold_right Z.add 0 (shard_bytes <$> l) <= Z.of_nat (length l) * m) as Hsum.
  { induction l as [|sh l IH]; intros H1 H2; [cbn; lia |]. inversion_clear H1 as [|?? [_ Hb] H1'].
    inversion_clear H2 as [|?? Hm' H2']. specialize (IH H1' H2'). cbn [fmap list_fmap fold_right length]. lia. }
  specialize (Hsum _ Hf Hm). rewrite Hl in Hsum. lia.
Qed.

(** ** Runs of the cache *)

Inductive cache_op := OpGet (k : blockKey) | OpPut (k : blockKey) (data : bytes).

Definition cache_step (c : blockCache) (op : cache_op) : option (blockCache * option bytes) :=
  match op with
  | OpGet k => match bc_get c k with Some (d, c') => Some (c', Some d) | None => Some (c, None) end
  | OpPut k data => c' ← bc_put c k data; Some (c', None)
  end.

Fixpoint cache_run (c : blockCache) (ops : list cache_op) : option (blockCache * list (option bytes)) :=
  match ops with
  | [] => Some (c, [])
  | op :: ops' =>
      '(c, out) ← cache_step c op;
      '(c, outs) ← cache_run c ops';
      Some (c, out :: outs)
  end.

(** The shard limits never change. *)
Lemma step_limits c op c' out :
  cache_ok c -> cache_step c op = Some (c', out) -> (sh_max <$> bc_shards c') = (sh_max <$> bc_shards c).
Proof.
  intros Hc. destruct op as [k|k data]; cbn [cache_step].
  - unfold bc_get. destruct (nth_shard_ok c k Hc) as (sh & Hsh & Hfit). rewrite Hsh. cbn [mbind option_bind].
    pose proof (shard_get_spec sh k Hfit) as Hget. destruct (shard_get sh k) as [[d sh']|]; cbn; [| by intros [= <- _]].
    intros [= <- _]. cbn. destruct Hget as (_ & _ & Hmax & _). rewrite list_fmap_insert, Hmax.
    apply list_insert_id. unfold nth_shard in Hsh. by rewrite list_lookup_fmap, Hsh.
  - destruct (bc_put_spec c k data Hc) as (c1 & -> & _ & Hm & _). cbn. by intros [= <- _].
Qed.

Lemma cache_run_good files ops c :
  cache_good files c -> (forall k d, OpPut k d ∈ ops -> d = content files k) ->
  exists c' outs, cache_run c ops = Some (c', outs) /\ cache_good files c' /\
    (sh_max <$> bc_shards c') = (sh_max <$> bc_shards c) /\
    Forall2 (fun op out => match op with OpGet k => out = None \/ out = Some (content files k) | OpPut _ _ => out = None end) ops outs.
Proof.
  revert c. induction ops as [|op ops IH]; intros c Hg Hops; cbn [cache_run].
  { exists c, []. split; [done |]. split; [done |]. split; [done | constructor]. }
  assert (exists c1 out, cache_step c op = Some (c1, out) /\ cache_good files c1 /\
    match op with OpGet k => out = None \/ out = Some (content files k) | OpPut _ _ => out = None end) as (c1 & out & Hst & Hg1 & Hout).
  { destruct op as [k|k data]; cbn [cache_step].
    - pose proof (bc_get_good files c k Hg) as H. destruct (bc_get c k) as [[d c1]|]; [| by exists c, None; auto].
      destruct H as [-> H]. eexists _, _. split; [done |]. split; [done |]. by right.
    - destruct (bc_put_good files c k data Hg) as (c1 & -> & Hg1); [apply Hops; by left |]. cbn. by eexists _, _. }
  rewrite Hst. cbn [mbind option_bind].
  destruct (IH c1 Hg1) as (c2 & outs & -> & Hg2 & Hm2 & Houts); [intros; apply Hops; by right |]. cbn [mbind option_bind].
  eexists _, _. split; [done |]. split; [done |]. split; [| by constructor].
  rewrite Hm2. eapply step_limits; [apply Hg | done].
Qed.

(** No entry of the small queue has been read again. *)
Definition cold (sh : blockShard) : Prop :=
  forall p e, p ∈ ff_l (sh_small sh) -> sh_heap sh !! p = Some e -> en_freq e = 0.

(** On a cold shard the loop only drops from the small queue. *)
Lemma cold_loop fuel sh n sh' n' :
  shard_ok sh -> cold sh -> ff_bytes (sh_main sh) <= sh_max sh - Z.quot (sh_max sh) 10 ->
  evict_loop fuel sh n = Some (sh', n') ->
  shard_ok sh' /\ sh_main sh' = sh_main sh /\ sh_heap sh' = sh_heap sh.
Proof.
  revert sh n. induction fuel as [|fuel IH]; intros sh n Hok Hc Hb; cbn [evict_loop];
    destruct (Z.ltb_spec (sh_max sh) (shard_bytes sh)) as [Hlt|]; try (by intros [= <- _]).
  destruct (evictOne_spec sh Hok Hlt) as (sh1 & b & E & (Hok1 & Hmax & _)). rewrite E. cbn [mbind option_bind].
  assert (sh_main sh1 = sh_main sh /\ sh_heap sh1 = sh_heap sh /\ forall p, p ∈ ff_l (sh_small sh1) -> p ∈ ff_l (sh_small sh))
    as (Hm & Hh & Hs).
  { unfold evictOne in E. unfold shard_bytes in Hlt. rewrite (proj2 (Z.ltb_lt _ _)) in E by lia. cbn [orb] in E.
    destruct (last (ff_l (sh_small sh))) as [el|] eqn:Ela; [| done]. cbn [mbind option_bind] in E.
    destruct (sh_heap sh !! el) as [e|] eqn:Eh; [| done]. cbn [mbind option_bind] in E.
    apply last_split in Ela as [l Hl].
    rewrite (Hc el e) in E by (done || (rewrite Hl; set_solver)). cbn in E. injection E as <- _. cbn.
    repeat split; try done. intros p Hp. unfold list_remove_ptr in Hp.
    apply list_elem_of_In, filter_In in Hp as [Hp _]. by apply list_elem_of_In. }
  assert (cold sh1) as Hc1 by (intros p e Hp He; rewrite Hh in He; eapply Hc; eauto).
  assert (ff_bytes (sh_main sh1) <= sh_max sh1 - Z.quot (sh_max sh1) 10) as Hb1 by (by rewrite Hm, Hmax).
  intros Hrun. destruct (IH _ _ Hok1 Hc1 Hb1 Hrun) as (Hok2 & Hm2 & Hh2). split; [done |]. split; congruence.
Qed.

(** ** Properties *)


Definition demo_cache_files (_ _ : Z) : bytes := replicate 10 (chr 65).


(** A piece served from the cache is the piece read from the database:
    for an aligned piece whose blocks are all cached, [pieceParts] returns
    exactly the requested bytes of the piece, and leaves the cache good. *)
Theorem pieceParts_bytes (files : Z -> Z -> bytes) (c : blockCache) (table : Z) (p : piece) (start stop : Z)
    (Hc : cache_good files c) (Hp : piece_ok (files table) p) (Ha : block_aligned p) :
  let '(res, c') := pieceParts (Some c) table p start stop in
  (exists c1, c' = Some c1 /\ cache_good files c1) /\
  match res with
  | Some parts => concat parts = piece_bytes (files table) start stop p
  | None => True
  end.
Proof.
  pose proof (pieceParts_good files c table p start stop Hc Hp Ha) as H.
  destruct (pieceParts (Some c) table p start stop) as [res c']. destruct H as [Hg Hres]. split; [done |].
  destruct res; auto.
Qed.

(** [ReadMany] gets whole files from the cache: what [cachedFile] returns
    is the content of the file, whether it was cached as one entry or block by
    block, and [cacheFile] never panics and keeps the cache good. *)
Theorem cachedFile_content (files : Z -> Z -> bytes) (c : blockCache) (table file : Z)
    (Hc : cache_good files c) (Hlen : zlen (files table file) <= 2 ^ 30 * RowBytes) :
  (exists c', cacheFile (Some c) table file (files table file) = Some (Some c') /\ cache_good files c') /\
  let '(res, c') := cachedFile (Some c) table file (zlen (files table file)) in
  (exists c1, c' = Some c1 /\ cache_good files c1) /\ forall data, res = Some data -> data = files table file.
Proof.
  set (body := files table file) in *. split.
  - unfold cacheFile. destruct (table =? 0); [by eauto |]. destruct (_ <=? _).
    + destruct (bc_put_good files c (mkKey table file wholeFile) body Hc) as (c' & -> & Hg); [done |]. by eauto.
    + destruct (cache_blocks_good files (length body) c table file 0 Hc) as (c' & Hcb & Hg); [lia | done | unfold body, zlen; lia |].
      rewrite Z.mul_0_l in Hcb. fold body in Hcb. rewrite Hcb. by eauto.
  - unfold cachedFile. destruct ((table =? 0) || (zlen body <=? 0)) eqn:Ez; [split; [by eauto | done] |].
    apply orb_false_iff in Ez as [_ Ez%Z.leb_gt]. destruct (_ <=? _).
    + pose proof (bc_get_good files c (mkKey table file wholeFile) Hc) as Hget.
      destruct (bc_get c (mkKey table file wholeFile)) as [[d c1]|]; [| split; [by eauto | done]]. destruct Hget as [-> Hg1].
      destruct (negb _); (split; [by eauto |]; [done || (by intros data [= <-])]).
    + assert (segmentLastRow (zlen body) = (zlen body - 1) / RowBytes /\ (zlen body - 1) / RowBytes < 2 ^ 30) as [El Hl].
      { unfold segmentLastRow. rewrite quot_div_nonneg by (unfold RowBytes; lia).
        rewrite wrap32_small by (unfold RowBytes in *; div_lia). split; [done |]. unfold RowBytes in *. div_lia. }
      rewrite El. set (p := mkPiece file 0 (zlen body) 0 ((zlen body - 1) / RowBytes)).
      pose proof (pieceParts_good files c table p 0 (zlen body - 1) Hc) as Hpp.
      destruct (pieceParts (Some c) table p 0 (zlen body - 1)) as [res c1].
      destruct Hpp as [Hgood Hparts]; [repeat split; cbn; (done || unfold RowBytes in *; div_lia) | split; cbn; [done | by right] |].
      destruct res as [parts|]; (split; [done |]); [| done]. intros data [= <-].
      rewrite (Hparts parts) by done. unfold piece_bytes, clip, p. cbn [p_fileID p_base p_lo p_hi]. fold body.
      replace (Z.max (0 * RowBytes) (Z.max (0 - 0) 0)) with 0 by lia. apply slice_full.
      apply Z.min_glb; [unfold RowBytes in *; div_lia | lia].
Qed.

(** A scan cannot flush the main queue: while main holds at most nine
    tenths of a shard and no small entry has been hit again, putting a block
    that is not in the ghost table leaves the main queue untouched, and every
    main entry stays cached. *)
Theorem scan_keeps_main (sh sh' : blockShard) (k : blockKey) (data : bytes) (f n : Z)
    (Hok : shard_ok sh) (Hcold : cold sh) (Hg : k ∉ sh_ghost sh)
    (Hb : ff_bytes (sh_main sh) <= sh_max sh - Z.quot (sh_max sh) 10)
    (Hput : shard_put sh k data = Some (sh', f, n)) :
  sh_main sh' = sh_main sh /\
  forall p e, p ∈ ff_l (sh_main sh) -> sh_heap sh !! p = Some e -> shard_lookup sh' (en_key e) = Some (en_data e).
Proof.
  assert (forall sh1, shard_ok sh1 -> sh_main sh1 = sh_main sh -> (forall p, p ∈ ff_l (sh_main sh) -> sh_heap sh1 !! p = sh_heap sh !! p) ->
    sh_main sh1 = sh_main sh /\
    forall p e, p ∈ ff_l (sh_main sh) -> sh_heap sh !! p = Some e -> shard_lookup sh1 (en_key e) = Some (en_data e)) as Hend.
  { intros sh1 Hok1 Hm Hh. split; [done |]. intros p e Hp He. rewrite <- Hm in Hp.
    destruct (so_main _ Hok1 p Hp) as (e1 & He1 & Hi & _). rewrite Hm in Hp. rewrite Hh in He1 by done.
    assert (e1 = e) as -> by congruence. unfold shard_lookup. rewrite Hi. cbn. by rewrite Hh, He. }
  unfold shard_put in Hput. destruct (_ || _) eqn:Ez; [injection Hput as <- _ _; by apply Hend |].
  apply orb_false_iff in Ez as [Ez%Z.eqb_neq _]. pose proof (zlen_nonneg data).
  destruct (bool_decide (is_Some _)) eqn:Ei; [injection Hput as <- _ _; by apply Hend |].
  apply bool_decide_eq_false, eq_None_not_Some in Ei. rewrite bool_decide_false in Hput by done.
  match type of Hput with context [evict_loop (evict_rounds ?s) ?s 0] => set (sh1 := s) in Hput end.
  destruct (evict_loop (evict_rounds sh1) sh1 0) as [[sh2 n2]|] eqn:El; [| done].
  cbn in Hput. injection Hput as <- _ _.
  destruct (insert_ok sh sh1 k data false) as [Hok1 _]; try done; [lia |].
  assert (sh_next sh ∉ ff_l (sh_small sh) ++ ff_l (sh_main sh)) as Hfr
    by (intros Hin%(so_fresh _ Hok); lia).
  apply not_elem_of_app in Hfr as [Hfs Hfm].
  destruct (cold_loop (evict_rounds sh1) sh1 0 sh2 n2 Hok1) as (Hok2 & Hm2 & Hh2); try done.
  { intros p e [->|Hp]%elem_of_cons; cbn; [rewrite lookup_insert_eq; by intros [= <-] |].
    rewrite lookup_insert_ne by (by intros <-). by apply Hcold. }
  apply Hend; [done | by rewrite Hm2 |]. intros p Hp. rewrite Hh2. cbn. rewrite lookup_insert_ne; [done | by intros <-].
Qed.

Definition demo_cache : blockCache := default (mkCache [] 0 0 0 0) (newBlockCache 10000000).

Lemma demo_cache_good : cache_good demo_cache_files demo_cache.
Proof. apply (newBlockCache_good demo_cache_files 10000000). vm_compute. reflexivity. Qed.

Lemma pieceParts_bytes_witness :
  exists c, bc_put demo_cache (mkKey 1 7 0) (replicate 10 (chr 65)) = Some c /\
    let '(res, c') := pieceParts (Some c) 1 (mkPiece 7 0 10 0 0) 2 5 in
    (exists c1, c' = Some c1 /\ cache_good demo_cache_files c1) /\
    match res with
    | Some parts => concat parts = piece_bytes (demo_cache_files 1) 2 5 (mkPiece 7 0 10 0 0)
    | None => True
    end.
Proof.
  destruct (bc_put_good demo_cache_files demo_cache (mkKey 1 7 0) (replicate 10 (chr 65))) as (c & Hput & Hg);
    [apply demo_cache_good | vm_compute; reflexivity |].
  exists c. split; [exact Hput |].
  apply (pieceParts_bytes demo_cache_files c 1 (mkPiece 7 0 10 0 0) 2 5 Hg); [by vm_compute |].
  split; [reflexivity | right; reflexivity].
Defined.

Lemma scan_keeps_main_witness :
  let sh := newShard 100 8 in
  exists sh', shard_put sh (mkKey 1 7 0) (replicate 10 (chr 65)) = Some (sh', 1, 0) /\
    sh_main sh' = sh_main sh /\
    forall p e, p ∈ ff_l (sh_main sh) -> sh_heap sh !! p = Some e -> shard_lookup sh' (en_key e) = Some (en_data e).
Proof.
  cbv zeta. eexists. split; [vm_compute; reflexivity |].
  eapply (scan_keeps_main (newShard 100 8) _ (mkKey 1 7 0) (replicate 10 (chr 65)) 1 0).
  - apply newShard_fit; lia.
  - intros p e Hp. by apply not_elem_of_nil in Hp.
  - set_solver.
  - vm_compute. discriminate.
  - vm_compute. reflexivity.
Defined.
