(* ===== verification/Window.v ===== *)
(** * The ordered read window

    Models the concurrency of [streamWindow] in [internal/store/object.go] as
    a step relation: the workers claim pieces from a shared counter and send
    the chunks of [streamRows] into one buffered channel per piece (capacity
    2), the consumer drains the channels in piece order and emits cached
    pieces without a query.  Every interleaving is a run of [step].

    Parameters: the number of pieces, the cached parts of a piece, the chunks
    a piece's reader sends, and whether that reader then fails. *)

From stdpp Require Import functions.
From S2P Require Import Prelude GoStrings Ranges Blocks Pieces Reader.

(** ** Definitions *)

Inductive worker :=
| Joining                                  (* waiting for a pool connection *)
| Ready                                    (* about to claim a piece *)
| Working (i : nat) (rest : list chunk)    (* chunks still to be sent *)
| Finished.

Record window := mkWindow {
  wn_workers : list worker;
  wn_next : nat;                           (* the shared claim counter *)
  wn_chan : nat -> list chunk;
  wn_closed : nat -> bool;
  wn_pos : nat;                            (* the piece the consumer is at *)
  wn_parts : list chunk;                   (* cached parts left of that piece *)
  wn_out : list chunk;
  wn_failed : bool;                        (* the error group's context is done *)
  wn_result : option bool                  (* returned: nil error or not *)
}.

Definition chan_cap : nat := 2.

Section Window.
Context (n : nat) (cached : nat -> option (list chunk)) (chunks : nat -> list chunk) (fails : nat -> bool).

(** The pieces that need a query, in order. *)
Definition need : list nat := List.filter (fun i => match cached i with None => true | Some _ => false end) (seq 0 n).

Definition parts_at (i : nat) : list chunk := default [] (cached i).

(** [workers] helpers besides the lead; none when everything is cached. *)
Definition start_window (workers : nat) : window :=
  mkWindow (match need with [] => [] | _ => Ready :: replicate (workers - 1) Joining end)
    0 (fun _ => []) (fun _ => false) 0 (parts_at 0) [] false None.

Definition set_worker (s : window) (w : nat) (k : worker) : window :=
  mkWindow (<[w := k]> (wn_workers s)) (wn_next s) (wn_chan s) (wn_closed s) (wn_pos s) (wn_parts s) (wn_out s)
    (wn_failed s) (wn_result s).

Inductive step : window -> window -> Prop :=
(** A helper gets its connection, or gives up once every piece is claimed. *)
| step_join s w :
    wn_result s = None -> wn_workers s !! w = Some Joining ->
    step s (set_worker s w Ready)
| step_join_cancel s w :
    wn_result s = None -> wn_workers s !! w = Some Joining -> (length need <= wn_next s)%nat \/ wn_failed s = true ->
    step s (set_worker s w Finished)
(** A helper fails to get a connection: its error cancels the group. *)
| step_join_error s w :
    wn_result s = None -> wn_workers s !! w = Some Joining -> wn_failed s = false ->
    step s (mkWindow (<[w := Finished]> (wn_workers s)) (wn_next s) (wn_chan s) (wn_closed s)
              (wn_pos s) (wn_parts s) (wn_out s) true (wn_result s))
(** [next.Add(1) - 1]: claim a piece, or find that none is left. *)
| step_claim s w i :
    wn_result s = None -> wn_workers s !! w = Some Ready -> wn_failed s = false -> need !! wn_next s = Some i ->
    step s (mkWindow (<[w := Working i (chunks i)]> (wn_workers s)) (S (wn_next s)) (wn_chan s) (wn_closed s)
              (wn_pos s) (wn_parts s) (wn_out s) (wn_failed s) (wn_result s))
| step_claim_none s w :
    wn_result s = None -> wn_workers s !! w = Some Ready -> wn_failed s = false -> need !! wn_next s = None ->
    step s (mkWindow (<[w := Finished]> (wn_workers s)) (S (wn_next s)) (wn_chan s) (wn_closed s)
              (wn_pos s) (wn_parts s) (wn_out s) (wn_failed s) (wn_result s))
(** Send one chunk; close the channel after the last; or fail. *)
| step_send s w i c rest :
    wn_result s = None -> wn_workers s !! w = Some (Working i (c :: rest)) ->
    (length (wn_chan s i) < chan_cap)%nat ->
    step s (mkWindow (<[w := Working i rest]> (wn_workers s)) (wn_next s) (<[i := wn_chan s i ++ [c]]> (wn_chan s))
              (wn_closed s) (wn_pos s) (wn_parts s) (wn_out s) (wn_failed s) (wn_result s))
| step_close s w i :
    wn_result s = None -> wn_workers s !! w = Some (Working i []) -> fails i = false ->
    step s (mkWindow (<[w := Ready]> (wn_workers s)) (wn_next s) (wn_chan s) (<[i := true]> (wn_closed s))
              (wn_pos s) (wn_parts s) (wn_out s) (wn_failed s) (wn_result s))
| step_error s w i :
    wn_result s = None -> wn_workers s !! w = Some (Working i []) -> fails i = true ->
    step s (mkWindow (<[w := Finished]> (wn_workers s)) (wn_next s) (wn_chan s) (wn_closed s)
              (wn_pos s) (wn_parts s) (wn_out s) true (wn_result s))
(** The caller's context is cancelled. *)
| step_cancel s :
    wn_result s = None -> wn_failed s = false ->
    step s (mkWindow (wn_workers s) (wn_next s) (wn_chan s) (wn_closed s) (wn_pos s) (wn_parts s) (wn_out s)
              true (wn_result s))
(** A worker sees that the group was cancelled. *)
| step_cancelled s w k :
    wn_result s = None -> wn_workers s !! w = Some k -> k <> Finished -> wn_failed s = true ->
    step s (set_worker s w Finished)
(** The consumer: emit a cached part, receive from the channel, go to the next
    piece, return. *)
| step_cached s c rest :
    wn_result s = None -> (wn_pos s < n)%nat -> is_Some (cached (wn_pos s)) -> wn_parts s = c :: rest ->
    step s (mkWindow (wn_workers s) (wn_next s) (wn_chan s) (wn_closed s) (wn_pos s) rest (wn_out s ++ [c])
              (wn_failed s) (wn_result s))
| step_recv s c rest :
    wn_result s = None -> (wn_pos s < n)%nat -> cached (wn_pos s) = None -> wn_chan s (wn_pos s) = c :: rest ->
    step s (mkWindow (wn_workers s) (wn_next s) (<[wn_pos s := rest]> (wn_chan s)) (wn_closed s) (wn_pos s)
              (wn_parts s) (wn_out s ++ [c]) (wn_failed s) (wn_result s))
| step_advance s :
    wn_result s = None -> (wn_pos s < n)%nat ->
    (is_Some (cached (wn_pos s)) /\ wn_parts s = []) \/
    (cached (wn_pos s) = None /\ wn_chan s (wn_pos s) = [] /\ wn_closed s (wn_pos s) = true) ->
    step s (mkWindow (wn_workers s) (wn_next s) (wn_chan s) (wn_closed s) (S (wn_pos s)) (parts_at (S (wn_pos s)))
              (wn_out s) (wn_failed s) (wn_result s))
| step_fail s :
    wn_result s = None -> (wn_pos s < n)%nat -> wn_failed s = true -> Forall (fun k => k = Finished) (wn_workers s) ->
    step s (mkWindow (wn_workers s) (wn_next s) (wn_chan s) (wn_closed s) (wn_pos s) (wn_parts s) (wn_out s)
              (wn_failed s) (Some false))
| step_return s :
    wn_result s = None -> wn_pos s = n -> Forall (fun k => k = Finished) (wn_workers s) ->
    step s (mkWindow (wn_workers s) (wn_next s) (wn_chan s) (wn_closed s) (wn_pos s) (wn_parts s) (wn_out s)
              (wn_failed s) (Some (negb (wn_failed s)))).

(** ** Specification *)

(** The chunks of a piece, cached or read. *)
Definition piece_chunks (i : nat) : list chunk := default (chunks i) (cached i).

Definition all_chunks : list chunk := concat (piece_chunks <$> seq 0 n).

Definition claimed (s : window) (i : nat) : Prop := exists j, need !! j = Some i /\ (j < wn_next s)%nat.

(** One uncached piece, with [got] what the consumer received of it: not
    claimed, being sent by some worker, or closed. *)
Definition piece_state (s : window) (got : list chunk) (i : nat) : Prop :=
  (~ claimed s i /\ wn_closed s i = false /\ wn_chan s i = [] /\ got = []) \/
  (exists w rest, wn_workers s !! w = Some (Working i rest) /\ wn_closed s i = false /\
     got ++ wn_chan s i ++ rest = chunks i) \/
  (claimed s i /\ wn_closed s i = true /\ got ++ wn_chan s i = chunks i).

(** The invariant of a run without failure; [got i] is what was emitted of
    piece [i]. *)
Record window_inv (s : window) (got : nat -> list chunk) : Prop := {
  wi_pos : (wn_pos s <= n)%nat;
  wi_out : wn_out s = concat (got <$> seq 0 n);
  wi_before : forall i, (i < wn_pos s)%nat -> got i = piece_chunks i;
  wi_after : forall i, (wn_pos s < i)%nat -> got i = [];
  wi_cached : forall l, (wn_pos s < n)%nat -> cached (wn_pos s) = Some l -> got (wn_pos s) ++ wn_parts s = l;
  wi_pieces : forall i, (i < n)%nat -> cached i = None -> piece_state s (got i) i;
  wi_passed : forall i, (i < wn_pos s)%nat -> cached i = None -> wn_closed s i = true;
  wi_working : forall w i rest, wn_workers s !! w = Some (Working i rest) -> claimed s i /\ wn_closed s i = false;
  wi_unique : forall w w' i r r', wn_workers s !! w = Some (Working i r) -> wn_workers s !! w' = Some (Working i r') -> w = w'
}.

(** *** Lemmas on the plan *)

Lemma need_elem i : i ∈ need <-> (i < n)%nat /\ cached i = None.
Proof.
  unfold need. rewrite list_elem_of_In, filter_In, in_seq. destruct (cached i); naive_solver lia.
Qed.

Lemma need_sorted a b x y : need !! a = Some x -> need !! b = Some y -> (a < b)%nat -> (x < y)%nat.
Proof.
  unfold need. assert (forall m k, StronglySorted lt (List.filter (fun i => match cached i with None => true | Some _ => false end) (seq m k))) as Hs.
  { intros m k. revert m. induction k as [|k IH]; intros m; cbn; [constructor |].
    destruct (cached m); [apply IH |]. constructor; [apply IH |]. apply Forall_forall. intros z Hz.
    rewrite list_elem_of_In, filter_In, in_seq in Hz. lia. }
  specialize (Hs 0%nat n). revert a b x y Hs. generalize (List.filter (fun i => match cached i with None => true | Some _ => false end) (seq 0 n)).
  induction l as [|z l IH]; intros a b x y Hs Ha Hb Hab; [done |]. inversion_clear Hs as [|?? Hs' Hz].
  destruct b as [|b]; [lia |]. cbn in Hb. destruct a as [|a]; cbn in Ha; [| apply (IH a b); auto; lia].
  injection Ha as <-. rewrite Forall_forall in Hz. apply Hz. by apply list_elem_of_lookup_2 in Hb.
Qed.

Lemma need_inj a b x : need !! a = Some x -> need !! b = Some x -> a = b.
Proof.
  intros Ha Hb. destruct (Nat.lt_total a b) as [H|[H|H]]; [| done |].
  - pose proof (need_sorted _ _ _ _ Ha Hb H). lia.
  - pose proof (need_sorted _ _ _ _ Hb Ha H). lia.
Qed.

(** Appending a chunk to the current piece's share appends it to the output. *)
Lemma got_append (got : nat -> list chunk) p c :
  (forall i, (p < i)%nat -> got i = []) -> (p < n)%nat ->
  concat (<[p := got p ++ [c]]> got <$> seq 0 n) = concat (got <$> seq 0 n) ++ [c].
Proof.
  intros Hafter Hp. replace n with (p + S (n - S p))%nat by lia. rewrite seq_app. cbn [seq Nat.add].
  rewrite !fmap_app, !fmap_cons, !concat_app. cbn [concat]. rewrite fn_lookup_insert.
  assert (forall f : nat -> list chunk, (forall i, (p < i)%nat -> f i = []) -> concat (f <$> seq (S p) (n - S p)) = []) as Hnil.
  { intros f Hf. assert (forall m k, (p < m)%nat -> concat (f <$> seq m k) = []) as H; [| apply H; lia].
    intros m k. revert m. induction k as [|k IH]; intros m Hm; [done |]. cbn. rewrite Hf by lia. apply IH. lia. }
  rewrite !Hnil by (done || (intros i Hi; rewrite fn_lookup_insert_ne by lia; auto)). rewrite !app_nil_r.
  rewrite app_assoc. do 2 f_equal. f_equal. apply list_fmap_ext. intros j x Hx. apply lookup_seq in Hx as [-> Hj].
  rewrite fn_lookup_insert_ne by lia. done.
Qed.

(** A worker change that touches no sending worker. *)
Lemma working_other (ws : list worker) w k k' w' i rest :
  ws !! w = Some k -> (forall j r, k <> Working j r) -> (forall j r, k' <> Working j r) ->
  <[w := k']> ws !! w' = Some (Working i rest) <-> ws !! w' = Some (Working i rest).
Proof.
  intros Hk H1 H2. destruct (decide (w' = w)) as [->|Hne].
  - rewrite list_lookup_insert_eq by (by apply lookup_lt_Some in Hk). rewrite Hk. naive_solver.
  - by rewrite list_lookup_insert_ne.
Qed.

Lemma piece_state_frame s s' got i :
  (forall w rest, wn_workers s' !! w = Some (Working i rest) <-> wn_workers s !! w = Some (Working i rest)) ->
  wn_closed s' i = wn_closed s i -> wn_chan s' i = wn_chan s i -> (claimed s' i <-> claimed s i) ->
  piece_state s got i -> piece_state s' got i.
Proof.
  intros Hw Hc Hch Hcl. unfold piece_state. rewrite Hc, Hch, Hcl. setoid_rewrite Hw. done.
Qed.

(** Steps that only move a non-sending worker. *)
Lemma inv_worker s got w k k' s' :
  window_inv s got -> wn_workers s !! w = Some k -> (forall j r, k <> Working j r) -> (forall j r, k' <> Working j r) ->
  wn_workers s' = <[w := k']> (wn_workers s) -> (forall i, claimed s' i <-> claimed s i) -> wn_chan s' = wn_chan s ->
  wn_closed s' = wn_closed s -> wn_pos s' = wn_pos s -> wn_parts s' = wn_parts s -> wn_out s' = wn_out s ->
  window_inv s' got.
Proof.
  intros [] Hk H1 H2 Ew Ecl Ech Ecs Ep Epa Eo.
  split; rewrite ?Ep, ?Epa, ?Eo, ?Ecs; try done.
  - intros i Hi Hc. apply (piece_state_frame s); rewrite ?Ech, ?Ecs; auto.
    intros w' r. rewrite Ew. by eapply working_other.
  - intros w' i r. rewrite Ew. rewrite (working_other _ w k k') by done. rewrite Ecl. eauto.
  - intros w1 w2 i r r'. rewrite Ew. rewrite !(working_other _ w k k') by done. eauto.
Qed.

(** *** Preservation, one lemma per kind of step *)

Lemma claimed_next s i ws ch cl po pa ou fa re i0 :
  need !! wn_next s = Some i0 ->
  claimed (mkWindow ws (S (wn_next s)) ch cl po pa ou fa re) i <-> claimed s i \/ i = i0.
Proof.
  intros H0. unfold claimed. cbn. split.
  - intros (j & Hj & Hlt). destruct (decide (j = wn_next s)) as [->|]; [right; congruence | left; exists j; split; [done | lia]].
  - intros [(j & Hj & Hlt)| ->]; [exists j; split; [done | lia] | exists (wn_next s); split; [done | lia]].
Qed.

Lemma inv_claim s got w i :
  window_inv s got -> wn_workers s !! w = Some Ready -> need !! wn_next s = Some i ->
  window_inv (mkWindow (<[w := Working i (chunks i)]> (wn_workers s)) (S (wn_next s)) (wn_chan s) (wn_closed s)
    (wn_pos s) (wn_parts s) (wn_out s) (wn_failed s) (wn_result s)) got.
Proof.
  intros Hinv Hw Hi. pose proof Hinv as []. pose proof (lookup_lt_Some _ _ _ Hw) as Hlt.
  assert (~ claimed s i) as Hun by (intros (j & Hj & Hl); pose proof (need_inj _ _ _ Hi Hj); lia).
  destruct (proj1 (need_elem i) (list_elem_of_lookup_2 _ _ _ Hi)) as [Hin Hci].
  assert (wn_closed s i = false /\ wn_chan s i = [] /\ got i = []) as (Hcl & Hch & Hg).
  { destruct (wi_pieces0 i Hin Hci) as [(_ & ?)|[(w' & r & Hw' & _)|(? & _)]]; [done | | done].
    by destruct (wi_working0 _ _ _ Hw'). }
  split; cbn; try done.
  - intros k Hk Hck. destruct (decide (k = i)) as [->|Hne].
    + right. left. exists w, (chunks i). cbn. rewrite list_lookup_insert_eq, Hg, Hch by done. done.
    + destruct (wi_pieces0 k Hk Hck) as [(H1 & H2)|[(w' & r & Hw' & H2)|(H1 & H2)]].
      * left. split; [| done]. rewrite (claimed_next s k _ _ _ _ _ _ _ _ i Hi). tauto.
      * right. left. exists w', r. cbn. rewrite list_lookup_insert_ne; [done |]. intros <-. congruence.
      * right. right. split; [| done]. rewrite (claimed_next s k _ _ _ _ _ _ _ _ i Hi). tauto.
  - intros w' k r Hw'. rewrite (claimed_next s k _ _ _ _ _ _ _ _ i Hi).
    apply list_lookup_insert_Some in Hw' as [(_ & [= <- _] & _)|[_ Hw']]; [tauto |].
    destruct (wi_working0 _ _ _ Hw'). tauto.
  - intros w1 w2 k r r' H1 H2.
    apply list_lookup_insert_Some in H1 as [(<- & E1 & _)|[Hne1 H1]];
    apply list_lookup_insert_Some in H2 as [(<- & E2 & _)|[Hne2 H2]]; try done.
    + injection E1 as <- _. by destruct (wi_working0 _ _ _ H2).
    + injection E2 as <- _. by destruct (wi_working0 _ _ _ H1).
    + eauto.
Qed.

Lemma window_inv_send s got w i c rest :
  window_inv s got -> wn_workers s !! w = Some (Working i (c :: rest)) ->
  window_inv (mkWindow (<[w := Working i rest]> (wn_workers s)) (wn_next s) (<[i := wn_chan s i ++ [c]]> (wn_chan s))
    (wn_closed s) (wn_pos s) (wn_parts s) (wn_out s) (wn_failed s) (wn_result s)) got.
Proof.
  intros Hinv Hw. pose proof Hinv as []. pose proof (lookup_lt_Some _ _ _ Hw) as Hlt.
  split; cbn; try done.
  - intros k Hk Hck. destruct (decide (k = i)) as [->|Hne].
    + destruct (wi_working0 _ _ _ Hw) as [Hcl Hcs].
      destruct (wi_pieces0 i Hk Hck) as [(H1 & _)|[(w' & r & Hw' & H2 & H3)|(_ & H1 & _)]]; [done | | congruence].
      pose proof (wi_unique0 _ _ _ _ _ Hw Hw') as <-. rewrite Hw in Hw'. injection Hw' as <-.
      right. left. exists w, rest. cbn. rewrite list_lookup_insert_eq, fn_lookup_insert by done.
      split; [done |]. split; [done |]. rewrite <- H3, <- app_assoc. done.
    + destruct (wi_pieces0 k Hk Hck) as [(H1 & H2)|[(w' & r & Hw' & H2)|(H1 & H2)]].
      * left. cbn. by rewrite fn_lookup_insert_ne.
      * right. left. exists w', r. cbn. rewrite fn_lookup_insert_ne by done.
        rewrite list_lookup_insert_ne; [done |]. intros <-. congruence.
      * right. right. cbn. by rewrite fn_lookup_insert_ne.
  - intros w' k r Hw'. apply list_lookup_insert_Some in Hw' as [(<- & [= <- <-] & _)|[_ Hw']]; eapply wi_working0; eauto.
  - intros w1 w2 k r r' H1 H2.
    apply list_lookup_insert_Some in H1 as [(<- & [= <- <-] & _)|[Hne1 H1]];
    apply list_lookup_insert_Some in H2 as [(<- & E2 & _)|[Hne2 H2]]; try done; [eauto | injection E2 as <- <-; eauto | eauto].
Qed.

Lemma inv_close s got w i :
  window_inv s got -> wn_workers s !! w = Some (Working i []) ->
  window_inv (mkWindow (<[w := Ready]> (wn_workers s)) (wn_next s) (wn_chan s) (<[i := true]> (wn_closed s))
    (wn_pos s) (wn_parts s) (wn_out s) (wn_failed s) (wn_result s)) got.
Proof.
  intros Hinv Hw. pose proof Hinv as []. pose proof (lookup_lt_Some _ _ _ Hw) as Hlt.
  destruct (wi_working0 _ _ _ Hw) as [Hcl Hcs]. split; cbn; try done.
  - intros k Hk Hck. destruct (decide (k = i)) as [->|Hne].
    + destruct (wi_pieces0 i Hk Hck) as [(H1 & _)|[(w' & r & Hw' & H2 & H3)|(_ & H1 & _)]]; [done | | congruence].
      pose proof (wi_unique0 _ _ _ _ _ Hw Hw') as <-. rewrite Hw in Hw'. injection Hw' as <-.
      right. right. split; [done |]. cbn. rewrite fn_lookup_insert. split; [done |]. by rewrite app_nil_r in H3.
    + destruct (wi_pieces0 k Hk Hck) as [(H1 & H2)|[(w' & r & Hw' & H2)|(H1 & H2)]].
      * left. cbn. by rewrite fn_lookup_insert_ne.
      * right. left. exists w', r. cbn. rewrite fn_lookup_insert_ne by done.
        rewrite list_lookup_insert_ne; [done |]. intros <-. congruence.
      * right. right. cbn. by rewrite fn_lookup_insert_ne.
  - intros k Hk Hck. destruct (decide (k = i)) as [->|Hne]; [by rewrite fn_lookup_insert |].
    rewrite fn_lookup_insert_ne by done. eauto.
  - intros w' k r Hw'. apply list_lookup_insert_Some in Hw' as [(<- & [=] & _)|[Hne Hw']].
    destruct (wi_working0 _ _ _ Hw') as [H1 H2]. split; [done |]. rewrite fn_lookup_insert_ne; [done |].
    intros <-. by pose proof (wi_unique0 _ _ _ _ _ Hw Hw').
  - intros w1 w2 k r r' H1 H2.
    apply list_lookup_insert_Some in H1 as [(<- & [=] & _)|[Hne1 H1]].
    apply list_lookup_insert_Some in H2 as [(<- & [=] & _)|[Hne2 H2]]. eauto.
Qed.

Lemma inv_cached s got c rest :
  window_inv s got -> (wn_pos s < n)%nat -> is_Some (cached (wn_pos s)) -> wn_parts s = c :: rest ->
  window_inv (mkWindow (wn_workers s) (wn_next s) (wn_chan s) (wn_closed s) (wn_pos s) rest (wn_out s ++ [c])
    (wn_failed s) (wn_result s)) (<[wn_pos s := got (wn_pos s) ++ [c]]> got).
Proof.
  intros [] Hp [l Hl] Hpa. split; cbn; try done.
  - rewrite got_append by done. by rewrite wi_out0.
  - intros i Hi. rewrite fn_lookup_insert_ne by lia. auto.
  - intros i Hi. rewrite fn_lookup_insert_ne by lia. auto.
  - intros l' _ Hl'. rewrite fn_lookup_insert, <- app_assoc. cbn. rewrite <- Hpa. auto.
  - intros i Hi Hc. rewrite fn_lookup_insert_ne by congruence. by apply (piece_state_frame s); auto.
Qed.

Lemma inv_recv s got c rest :
  window_inv s got -> (wn_pos s < n)%nat -> cached (wn_pos s) = None -> wn_chan s (wn_pos s) = c :: rest ->
  window_inv (mkWindow (wn_workers s) (wn_next s) (<[wn_pos s := rest]> (wn_chan s)) (wn_closed s) (wn_pos s)
    (wn_parts s) (wn_out s ++ [c]) (wn_failed s) (wn_result s)) (<[wn_pos s := got (wn_pos s) ++ [c]]> got).
Proof.
  intros [] Hp Hnone Hch. split; cbn; try done.
  - rewrite got_append by done. by rewrite wi_out0.
  - intros i Hi. rewrite fn_lookup_insert_ne by lia. auto.
  - intros i Hi. rewrite fn_lookup_insert_ne by lia. auto.
  - intros l' _ Hl'. congruence.
  - intros i Hi Hc. destruct (decide (i = wn_pos s)) as [->|Hne].
    + rewrite fn_lookup_insert. destruct (wi_pieces0 _ Hi Hc) as [(_ & _ & E & _)|[(w & r & Hw & H1 & H2)|(H0 & H1 & H2)]].
      * congruence.
      * right. left. exists w, r. cbn. rewrite fn_lookup_insert. split; [done |]. split; [done |].
        rewrite <- H2, Hch, <- app_assoc. done.
      * right. right. split; [done |]. cbn. rewrite fn_lookup_insert. split; [done |]. rewrite <- H2, Hch, <- app_assoc. done.
    + rewrite fn_lookup_insert_ne by done. apply (piece_state_frame s); auto. cbn. by rewrite fn_lookup_insert_ne.
Qed.

Lemma inv_advance s got :
  window_inv s got -> (wn_pos s < n)%nat ->
  (is_Some (cached (wn_pos s)) /\ wn_parts s = []) \/
  (cached (wn_pos s) = None /\ wn_chan s (wn_pos s) = [] /\ wn_closed s (wn_pos s) = true) ->
  window_inv (mkWindow (wn_workers s) (wn_next s) (wn_chan s) (wn_closed s) (S (wn_pos s)) (parts_at (S (wn_pos s)))
    (wn_out s) (wn_failed s) (wn_result s)) got.
Proof.
  intros Hinv Hp Hadv. pose proof Hinv as []. split; cbn; try done; try lia.
  - intros i Hi. destruct (decide (i = wn_pos s)) as [->|]; [| apply wi_before0; lia]. unfold piece_chunks.
    destruct Hadv as [[[l Hl] Hpa]|(Hn & Hch & Hcl)].
    + rewrite Hl. cbn. rewrite <- (wi_cached0 l Hp Hl), Hpa. by rewrite app_nil_r.
    + rewrite Hn. cbn. destruct (wi_pieces0 _ Hp Hn) as [(_ & E & _)|[(w & r & _ & E & _)|(_ & _ & E)]]; [congruence.. |].
      rewrite Hch, app_nil_r in E. done.
  - intros i Hi. apply wi_after0. lia.
  - intros l Hlt Hl. rewrite wi_after0 by lia. unfold parts_at. by rewrite Hl.
  - intros i Hi Hc. destruct (decide (i = wn_pos s)) as [->|]; [| apply wi_passed0; [lia | done]].
    destruct Hadv as [[[l Hl] _]|(_ & _ & ?)]; [congruence | done].
Qed.

(** A run stays in the invariant as long as no reader has failed. *)
Lemma inv_step s s' :
  step s s' -> wn_failed s' = false ->
  wn_failed s = false /\ forall got, window_inv s got -> exists got', window_inv s' got'.
Proof.
  intros Hst Hf. destruct Hst; cbn in Hf; (split; [done || congruence |]); intros got Hinv; try congruence.
  - exists got. eapply (inv_worker s got w Joining Ready); eauto; done.
  - exists got. eapply (inv_worker s got w Joining Finished); eauto; done.
  - exists got. by apply inv_claim.
  - exists got. eapply (inv_worker s got w Ready Finished); eauto; try done. intros i. unfold claimed. cbn.
    split; intros (j & Hj & Hlt); exists j; (split; [done |]); [| lia].
    apply lookup_ge_None in H2. apply lookup_lt_Some in Hj. lia.
  - exists got. by eapply window_inv_send.
  - exists got. by apply inv_close.
  - eexists. by apply (inv_cached s got).
  - eexists. by apply (inv_recv s got).
  - exists got. by apply inv_advance.
  - destruct Hinv. exists got. by split.
Qed.

Inductive reachable (s0 : window) : window -> Prop :=
| reach_start : reachable s0 s0
| reach_step s s' : reachable s0 s -> step s s' -> reachable s0 s'.

Lemma start_inv workers : window_inv (start_window workers) (fun _ => []).
Proof.
  assert (forall w k, wn_workers (start_window workers) !! w = Some k -> forall i r, k <> Working i r) as Hw.
  { intros w k. cbn. destruct need; [done |]. destruct w as [|w]; cbn; [by intros [= <-] |].
    intros [-> _]%lookup_replicate. done. }
  split; try done; cbn; try lia.
  - induction (seq 0 n) as [|x l IH]; [done | exact IH].
  - intros l _ Hl. unfold parts_at. by rewrite Hl.
  - intros i Hi Hc. left. split; [| done]. intros (j & _ & Hj). cbn in Hj. lia.
  - intros w i r Hk. by destruct (Hw _ _ Hk i r).
  - intros w w' i r r' Hk. by destruct (Hw _ _ Hk i r).
Qed.

Lemma reach_inv workers s :
  reachable (start_window workers) s -> wn_failed s = false -> exists got, window_inv s got.
Proof.
  intros Hr. induction Hr as [|s s' Hr IH Hst]; intros Hf; [eexists; apply start_inv |].
  destruct (inv_step s s' Hst Hf) as [Hf0 Hpres]. destruct (IH Hf0) as [got Hinv]. eauto.
Qed.

(** The result is nil only when nothing failed and the consumer is done. *)
Lemma reach_result workers s :
  reachable (start_window workers) s -> wn_result s = Some true -> wn_failed s = false /\ wn_pos s = n.
Proof.
  intros Hr. induction Hr as [|s s' Hr IH Hst]; [done |].
  destruct Hst; cbn; try congruence; try done. intros [= E]. split; [by destruct (wn_failed s) | done].
Qed.

Lemma inv_complete s got : window_inv s got -> wn_pos s = n -> wn_out s = all_chunks.
Proof.
  intros [] Hp. rewrite wi_out0. unfold all_chunks. f_equal. apply list_fmap_ext. intros j i Hi.
  apply lookup_seq in Hi as [-> Hi]. apply wi_before0. lia.
Qed.

(** *** Progress *)

(** The lead and the helpers: there is a worker when a query is needed, and a
    worker leaves only when no piece is left. *)
Definition staffed (s : window) : Prop :=
  (need <> [] -> wn_workers s <> []) /\
  (forall w, wn_workers s !! w = Some Finished -> (length need <= wn_next s)%nat) /\
  (wn_workers s !! 0%nat = Some Joining -> (length need <= wn_next s)%nat).

Lemma reach_staffed workers s :
  reachable (start_window workers) s -> wn_failed s = false -> staffed s.
Proof.
  intros Hr. induction Hr as [|s s' Hr IH Hst]; intros Hf.
  { unfold staffed. cbn. destruct need as [|x l]; [done |]. repeat split; try done.
    intros w. destruct w as [|w]; cbn; [done |]. by intros [? _]%lookup_replicate. }
  destruct IH as (Hs1 & Hs2 & Hs3); [by destruct (inv_step s s' Hst Hf) |].
  assert (forall (l : list worker) w k, l <> [] -> <[w := k]> l <> []) as Hne by (intros [|? ?] [|?] ? ?; done).
  destruct Hst; cbn in Hf; try congruence; unfold staffed; cbn; repeat split; auto;
    try congruence;
    try (intros w'; rewrite list_lookup_insert_Some; intros [(<- & [=] & _)|[_ ?]]; eauto; fail);
    try (rewrite list_lookup_insert_Some; intros [(<- & [=] & _)|[_ ?]]; eauto; fail).
  - intros w'. rewrite list_lookup_insert_Some. intros [(<- & _ & _)|[_ ?]]; [destruct H1; [done | congruence] | eauto].
  - intros w'. apply lookup_ge_None in H2. lia.
Qed.

Lemma claimed_below s i : claimed s i -> (i < n)%nat /\ cached i = None.
Proof. intros (j & Hj & _). apply need_elem. by apply list_elem_of_lookup_2 in Hj. Qed.

(** A worker that is not sending can always move. *)
Lemma worker_moves s w k :
  wn_result s = None -> wn_failed s = false -> wn_workers s !! w = Some k -> k <> Finished ->
  (forall i r, k <> Working i r) -> exists s', step s s'.
Proof.
  intros Hr Hf Hw Hk Hnw. destruct k as [| |i r|]; [| | by destruct (Hnw i r) | done].
  - eexists. by eapply step_join.
  - destruct (need !! wn_next s) as [i|] eqn:E; eexists; [by eapply step_claim | by eapply step_claim_none].
Qed.

Lemma all_finished (ws : list worker) :
  Forall (fun k => k = Finished) ws \/ exists w k, ws !! w = Some k /\ k <> Finished.
Proof.
  induction ws as [|k ws [IH|(w & k' & Hw & Hk)]]; [by left | | right; by exists (S w), k'].
  destruct k; [right; by eexists 0%nat, _ .. | left; by constructor].
Qed.

Lemma progress s got :
  window_inv s got -> staffed s -> wn_failed s = false -> wn_result s = None ->
  exists s', step s s'.
Proof.
  intros [] (Hs1 & Hs2 & Hs3) Hf Hr.
  assert (forall w i, wn_workers s !! w = Some (Working i []) -> exists s', step s s') as Hclose
    by (intros w i Hw; destruct (fails i) eqn:E; eexists; [by eapply step_error | by eapply step_close]).
  destruct (decide (wn_pos s = n)) as [Hp|Hp].
  - destruct (all_finished (wn_workers s)) as [Hall|(w & k & Hw & Hk)]; [eexists; by apply step_return |].
    destruct k as [| |i r|]; [eapply worker_moves; done.. | | done].
    destruct (wi_working0 _ _ _ Hw) as [Hcl Hcs]. destruct (claimed_below s i Hcl) as [Hi Hc].
    rewrite wi_passed0 in Hcs; [done | lia | done].
  - assert (wn_pos s < n)%nat as Hlt by lia. destruct (cached (wn_pos s)) as [l|] eqn:Ec.
    { destruct (wn_parts s) as [|c rest] eqn:Epa; eexists.
      - apply step_advance; [done | done |]. left. by rewrite Ec.
      - eapply step_cached; eauto. }
    destruct (wn_chan s (wn_pos s)) as [|c rest] eqn:Ech; [| eexists; by eapply step_recv].
    destruct (wi_pieces0 _ Hlt Ec) as [(Hun & _)|[(w & r & Hw & _ & _)|(_ & Hcl & _)]].
    + assert (wn_pos s ∈ need) as Hin by (by apply need_elem). apply list_elem_of_lookup in Hin as [j Hj].
      assert (wn_next s <= j)%nat as Hjn by (destruct (decide (j < wn_next s)%nat); [| lia]; by destruct Hun; exists j).
      pose proof (lookup_lt_Some _ _ _ Hj) as Hjl.
      assert (need <> []) as Hne by (intros E; rewrite E in Hj; done). specialize (Hs1 Hne).
      destruct (wn_workers s !! 0%nat) as [k|] eqn:Hw0; [| by destruct (wn_workers s)].
      destruct k as [| |i r|].
      * specialize (Hs3 eq_refl). lia.
      * eapply (worker_moves s 0%nat Ready); done.
      * destruct (wi_working0 _ _ _ Hw0) as [(j' & Hj' & Hlt') Hcs].
        pose proof (need_sorted _ _ _ _ Hj' Hj ltac:(lia)) as Hi.
        destruct (proj1 (need_elem i) (list_elem_of_lookup_2 _ _ _ Hj')) as [_ Hci].
        rewrite wi_passed0 in Hcs; done.
      * specialize (Hs2 0%nat Hw0). lia.
    + destruct r as [|c r]; [eauto |]. eexists. eapply step_send; eauto. rewrite Ech. unfold chan_cap. cbn. lia.
    + eexists. apply step_advance; [done | done |]. right. done.
Qed.

(** After a failure the workers leave and the consumer returns the error. *)
Lemma failed_progress s :
  (wn_pos s <= n)%nat -> wn_failed s = true -> wn_result s = None -> exists s', step s s'.
Proof.
  intros Hp Hf Hr. destruct (all_finished (wn_workers s)) as [Hall|(w & k & Hw & Hk)].
  - destruct (decide (wn_pos s = n)); eexists; [by apply step_return | apply step_fail; auto; lia].
  - eexists. by eapply step_cancelled.
Qed.

Lemma reach_pos workers s : reachable (start_window workers) s -> (wn_pos s <= n)%nat.
Proof. intros Hr. induction Hr as [|s s' Hr IH Hst]; [cbn; lia |]. destruct Hst; cbn; lia. Qed.

(** A run that returned without any failure returned nil. *)
Lemma reach_success workers s b :
  reachable (start_window workers) s -> wn_result s = Some b -> wn_failed s = false -> b = true.
Proof.
  intros Hr. revert b. induction Hr as [|s s' Hr IH Hst]; [done |].
  intros b. destruct Hst; cbn; try congruence. by intros [= <-] ->.
Qed.

(** *** Termination *)

Definition worker_weight (k : worker) : nat :=
  match k with
  | Joining => 2
  | Ready => 1
  | Working _ rest => 2 * length rest + 2
  | Finished => 0
  end.

Definition nat_sum (l : list nat) : nat := fold_right Nat.add 0%nat l.

(** What is left to do, in steps. *)
Definition work_left (s : window) : nat :=
  (nat_sum (worker_weight <$> wn_workers s) +
  nat_sum ((fun i => 2 * length (chunks i) + 2)%nat <$> drop (wn_next s) need) +
  nat_sum ((fun i => length (wn_chan s i)) <$> seq 0 n) +
  length (wn_parts s) + nat_sum ((fun i => length (parts_at i)) <$> seq (S (wn_pos s)) (n - wn_pos s)) +
  (n - wn_pos s) + (if wn_failed s then 0 else 1) + (match wn_result s with None => 1 | Some _ => 0 end))%nat.

Lemma sum_insert (ws : list worker) w k k' :
  ws !! w = Some k ->
  (nat_sum (worker_weight <$> <[w := k']> ws) + worker_weight k = nat_sum (worker_weight <$> ws) + worker_weight k')%nat.
Proof.
  unfold nat_sum. revert w. induction ws as [|x ws IH]; intros [|w] Hw; try done.
  - injection Hw as ->. change (<[0%nat := k']> (k :: ws)) with (k' :: ws). rewrite !fmap_cons. cbn [fold_right]. lia.
  - specialize (IH w Hw). change (<[S w := k']> (x :: ws)) with (x :: <[w := k']> ws).
    rewrite !fmap_cons. cbn [fold_right]. lia.
Qed.

Lemma chan_sum (f : nat -> list chunk) i l (a k : nat) :
  (a <= i < a + k ->
   nat_sum ((fun j => length (<[i := l]> f j)) <$> seq a k) + length (f i) =
   nat_sum ((fun j => length (f j)) <$> seq a k) + length l)%nat /\
  (~ (a <= i < a + k)%nat ->
   nat_sum ((fun j => length (<[i := l]> f j)) <$> seq a k) = nat_sum ((fun j => length (f j)) <$> seq a k)).
Proof.
  revert a. induction k as [|k IH]; intros a; [split; [lia | done] |].
  destruct (IH (S a)) as [IH1 IH2]. cbn [seq]. rewrite !fmap_cons. unfold nat_sum in *. cbn [fold_right].
  destruct (decide (a = i)) as [->|Hne].
  - split; [| lia]. intros _. rewrite fn_lookup_insert, IH2 by lia. lia.
  - rewrite fn_lookup_insert_ne by done. split; intros; [rewrite <- Nat.add_assoc, IH1 by lia; lia | rewrite IH2 by lia; done].
Qed.

Lemma step_decreases s s' : step s s' -> (work_left s' < work_left s)%nat.
Proof.
  intros Hst. destruct Hst; unfold work_left;
    cbn [wn_workers wn_next wn_chan wn_closed wn_pos wn_parts wn_failed wn_result set_worker];
    try match goal with H : wn_result _ = None |- _ => rewrite H end;
    try match goal with H : wn_failed _ = false |- _ => rewrite H end;
    try match goal with H : wn_workers ?s !! ?w = Some ?k |- context [<[?w := ?k']> (wn_workers ?s)] =>
      pose proof (sum_insert _ _ _ k' H); cbn [worker_weight length] in * end; try lia.
  - rewrite (drop_S need i (wn_next s)) by done. unfold nat_sum in *. cbn -[Nat.mul]. lia.
  - apply lookup_ge_None in H2. rewrite !drop_ge by lia. lia.
  - destruct (chan_sum (wn_chan s) i (wn_chan s i ++ [c]) 0 n) as [H3 H4].
    rewrite length_app in H3. cbn in H3.
    destruct (decide (0 <= i < 0 + n)%nat) as [Hi|Hi]; [specialize (H3 Hi) | specialize (H4 Hi)]; lia.
  - destruct k; cbn [worker_weight] in *; [lia | lia | lia | done].
  - rewrite H2. cbn. lia.
  - destruct (chan_sum (wn_chan s) (wn_pos s) rest 0 n) as [H3 _]. specialize (H3 ltac:(lia)).
    rewrite H2 in H3. cbn in H3. lia.
  - replace (n - wn_pos s)%nat with (S (n - S (wn_pos s))) by lia. cbn [seq]. rewrite fmap_cons.
    unfold nat_sum in *. cbn [fold_right]. lia.
Qed.

End Window.

(** ** Properties *)

(** A read that succeeds is complete and in order.  Whatever the
    interleaving of workers, channels and consumer, and whatever readers fail,
    when [streamWindow] returns without error it has emitted exactly the
    chunks of all pieces in piece order; a truncated body is never reported
    as success. *)
Theorem window_output (n : nat) (cached : nat -> option (list chunk)) (chunks : nat -> list chunk)
    (fails : nat -> bool) (workers : nat) (s : window)
    (Hr : reachable n cached chunks fails (start_window n cached workers) s) (Hres : wn_result s = Some true) :
  wn_out s = all_chunks n cached chunks.
Proof.
  destruct (reach_result _ _ _ _ _ _ Hr Hres) as [Hf Hp].
  destruct (reach_inv _ _ _ _ _ _ Hr Hf) as [got Hinv]. by eapply inv_complete.
Qed.

(** C32: a read always finishes.  No interleaving deadlocks, whichever readers
    or helpers fail and whenever the caller cancels: a state from which nothing
    can move has returned, and has returned success with the complete output if
    nothing failed.  Every step lowers the work left, so every run ends. *)
Theorem window_completes (n : nat) (cached : nat -> option (list chunk)) (chunks : nat -> list chunk)
    (fails : nat -> bool) (workers : nat) (s : window)
    (Hr : reachable n cached chunks fails (start_window n cached workers) s) :
  (forall s', step n cached chunks fails s s' -> (work_left n cached chunks s' < work_left n cached chunks s)%nat) /\
  ((exists s', step n cached chunks fails s s') \/
   (exists ok, wn_result s = Some ok /\
      (wn_failed s = false -> ok = true /\ wn_out s = all_chunks n cached chunks))).
Proof.
  split; [intros s'; apply step_decreases |].
  destruct (wn_result s) as [ok|] eqn:Eres; [right | left].
  - exists ok. split; [done |]. intros Hf. pose proof (reach_success _ _ _ _ _ _ _ Hr Eres Hf) as ->. split; [done |].
    destruct (reach_result _ _ _ _ _ _ Hr Eres) as [_ Hp]. destruct (reach_inv _ _ _ _ _ _ Hr Hf) as [got Hinv].
    by eapply inv_complete.
  - destruct (wn_failed s) eqn:Hf; [apply failed_progress; auto; by eapply reach_pos |].
    destruct (reach_inv _ _ _ _ _ _ Hr Hf) as [got Hinv]. eapply progress; eauto. by eapply reach_staffed.
Qed.


(** Two pieces, the second cached; one chunk to read. *)
Definition demo_chunk (z : Z) : chunk := mkChunk [chr z] false.
Definition demo_cached (i : nat) : option (list chunk) := if decide (i = 1%nat) then Some [demo_chunk 66] else None.
Definition demo_chunks (i : nat) : list chunk := if decide (i = 0%nat) then [demo_chunk 65] else [].

(** One complete run: claim, send, close, no piece left; receive, next piece,
    emit the cached part, done. *)
Definition demo_sent : nat -> list chunk := <[0%nat := [] ++ [demo_chunk 65]]> (fun _ => []).
Definition demo_closed : nat -> bool := <[0%nat := true]> (fun _ => false).
Definition demo_drained : nat -> list chunk := <[0%nat := []]> demo_sent.
Definition demo_run : list window :=
  let no := fun _ : nat => @nil chunk in
  let op := fun _ : nat => false in
  [ mkWindow [Working 0 [demo_chunk 65]] 1 no op 0 [] [] false None;
    mkWindow [Working 0 []] 1 demo_sent op 0 [] [] false None;
    mkWindow [Ready] 1 demo_sent demo_closed 0 [] [] false None;
    mkWindow [Finished] 2 demo_sent demo_closed 0 [] [] false None;
    mkWindow [Finished] 2 demo_drained demo_closed 0 [] [demo_chunk 65] false None;
    mkWindow [Finished] 2 demo_drained demo_closed 1 [demo_chunk 66] [demo_chunk 65] false None;
    mkWindow [Finished] 2 demo_drained demo_closed 1 [] [demo_chunk 65; demo_chunk 66] false None;
    mkWindow [Finished] 2 demo_drained demo_closed 2 [] [demo_chunk 65; demo_chunk 66] false None ].
Definition demo_end : window :=
  mkWindow [Finished] 2 demo_drained demo_closed 2 [] [demo_chunk 65; demo_chunk 66] false (Some true).

Definition demo_at (i : nat) : window := nth i demo_run demo_end.

Abbreviation demo_step := (step 2 demo_cached demo_chunks (fun _ => false)).

Lemma demo_reachable :
  reachable 2 demo_cached demo_chunks (fun _ => false) (start_window 2 demo_cached 1) demo_end.
Proof.
  assert (demo_step (start_window 2 demo_cached 1) (demo_at 0)) as H0
    by exact (step_claim 2 demo_cached demo_chunks (fun _ => false) (start_window 2 demo_cached 1) 0 0 eq_refl eq_refl eq_refl eq_refl).
  assert (demo_step (demo_at 0) (demo_at 1)) as H1
    by (refine (step_send 2 demo_cached demo_chunks (fun _ => false) (demo_at 0) 0 0 (demo_chunk 65) [] eq_refl eq_refl _); cbn; unfold chan_cap; lia).
  assert (demo_step (demo_at 1) (demo_at 2)) as H2
    by exact (step_close 2 demo_cached demo_chunks (fun _ => false) (demo_at 1) 0 0 eq_refl eq_refl eq_refl).
  assert (demo_step (demo_at 2) (demo_at 3)) as H3
    by exact (step_claim_none 2 demo_cached demo_chunks (fun _ => false) (demo_at 2) 0 eq_refl eq_refl eq_refl eq_refl).
  assert (demo_step (demo_at 3) (demo_at 4)) as H4
    by (refine (step_recv 2 demo_cached demo_chunks (fun _ => false) (demo_at 3) (demo_chunk 65) [] eq_refl _ eq_refl eq_refl); cbn; lia).
  assert (demo_step (demo_at 4) (demo_at 5)) as H5
    by (refine (step_advance 2 demo_cached demo_chunks (fun _ => false) (demo_at 4) eq_refl _ (or_intror (conj eq_refl (conj eq_refl eq_refl)))); cbn; lia).
  assert (demo_step (demo_at 5) (demo_at 6)) as H6
    by (refine (step_cached 2 demo_cached demo_chunks (fun _ => false) (demo_at 5) (demo_chunk 66) [] eq_refl _ _ eq_refl); cbn; [lia | by eexists]).
  assert (demo_step (demo_at 6) (demo_at 7)) as H7
    by (refine (step_advance 2 demo_cached demo_chunks (fun _ => false) (demo_at 6) eq_refl _ (or_introl (conj _ eq_refl))); cbn; [lia | by eexists]).
  assert (demo_step (demo_at 7) demo_end) as H8
    by (refine (step_return 2 demo_cached demo_chunks (fun _ => false) (demo_at 7) eq_refl eq_refl _); cbn; by repeat constructor).
  eauto 12 using reach_start, reach_step.
Qed.

Lemma window_output_witness :
  wn_out demo_end = all_chunks 2 demo_cached demo_chunks.
Proof.
  apply (window_output 2 demo_cached demo_chunks (fun _ => false) 1 demo_end demo_reachable). reflexivity.
Defined.

Lemma window_completes_witness :
  (forall s', demo_step demo_end s' -> (work_left 2 demo_cached demo_chunks s' < work_left 2 demo_cached demo_chunks demo_end)%nat) /\
  ((exists s', demo_step demo_end s') \/
   (exists ok, wn_result demo_end = Some ok /\
      (wn_failed demo_end = false -> ok = true /\ wn_out demo_end = all_chunks 2 demo_cached demo_chunks))).
Proof. exact (window_completes 2 demo_cached demo_chunks (fun _ => false) 1 demo_end demo_reachable). Defined.

(** A read of one piece from the table, run to its end. *)
Definition demo_reads (i : nat) : list chunk :=
  if decide (i = 0%nat) then [mkChunk (slice (concat demo_srcs) 18 25) false] else [].

Lemma demo_piece_read : piece_read demo_rows 18 24 (mkPiece 7 0 25 0 0) (demo_reads 0).
Proof.
  exists (row_raw <$> demo_rows), (fun _ => true), false. eexists. split; [vm_compute; reflexivity |].
  vm_compute. reflexivity.
Qed.

Definition demo_sent2 : nat -> list chunk := <[0%nat := [] ++ demo_reads 0]> (fun _ => []).
Definition demo_done2 : window :=
  mkWindow [Finished] 2 (<[0%nat := []]> demo_sent2) demo_closed 1 [] (demo_reads 0) false (Some true).

Abbreviation demo_step2 := (step 1 (fun _ => None) demo_reads (fun _ => false)).

Lemma demo_reachable2 :
  reachable 1 (fun _ => None) demo_reads (fun _ => false) (start_window 1 (fun _ => None) 1) demo_done2.
Proof.
  set (mk ws nx ch cl po ou re := mkWindow ws nx ch cl po [] ou false re).
  set (no := fun _ : nat => @nil chunk). set (op := fun _ : nat => false).
  assert (demo_step2 (start_window 1 (fun _ => None) 1) (mk [Working 0 (demo_reads 0)] 1%nat no op 0%nat [] None)) as H0
    by exact (step_claim 1 (fun _ => None) demo_reads _ (start_window 1 (fun _ => None) 1) 0 0 eq_refl eq_refl eq_refl eq_refl).
  assert (demo_step2 (mk [Working 0 (demo_reads 0)] 1%nat no op 0%nat [] None) (mk [Working 0 []] 1%nat demo_sent2 op 0%nat [] None)) as H1
    by (refine (step_send 1 (fun _ => None) demo_reads _ (mk [Working 0 (demo_reads 0)] 1%nat no op 0%nat [] None) 0 0 _ [] eq_refl eq_refl _); cbn; unfold chan_cap; lia).
  assert (demo_step2 (mk [Working 0 []] 1%nat demo_sent2 op 0%nat [] None) (mk [Ready] 1%nat demo_sent2 demo_closed 0%nat [] None)) as H2
    by exact (step_close 1 (fun _ => None) demo_reads (fun _ => false) (mk [Working 0 []] 1%nat demo_sent2 op 0%nat [] None) 0 0 eq_refl eq_refl eq_refl).
  assert (demo_step2 (mk [Ready] 1%nat demo_sent2 demo_closed 0%nat [] None) (mk [Finished] 2%nat demo_sent2 demo_closed 0%nat [] None)) as H3
    by exact (step_claim_none 1 (fun _ => None) demo_reads _ (mk [Ready] 1%nat demo_sent2 demo_closed 0%nat [] None) 0 eq_refl eq_refl eq_refl eq_refl).
  assert (demo_step2 (mk [Finished] 2%nat demo_sent2 demo_closed 0%nat [] None)
    (mk [Finished] 2%nat (<[0%nat := []]> demo_sent2) demo_closed 0%nat (demo_reads 0) None)) as H4
    by (refine (step_recv 1 (fun _ => None) demo_reads _ (mk [Finished] 2%nat demo_sent2 demo_closed 0%nat [] None) _ [] eq_refl _ eq_refl eq_refl); cbn; lia).
  assert (demo_step2 (mk [Finished] 2%nat (<[0%nat := []]> demo_sent2) demo_closed 0%nat (demo_reads 0) None)
    (mk [Finished] 2%nat (<[0%nat := []]> demo_sent2) demo_closed 1%nat (demo_reads 0) None)) as H5
    by (refine (step_advance 1 (fun _ => None) demo_reads _ (mk [Finished] 2%nat (<[0%nat := []]> demo_sent2) demo_closed 0%nat (demo_reads 0) None)
          eq_refl _ (or_intror (conj eq_refl (conj eq_refl eq_refl)))); cbn; lia).
  assert (demo_step2 (mk [Finished] 2%nat (<[0%nat := []]> demo_sent2) demo_closed 1%nat (demo_reads 0) None) demo_done2) as H6
    by (refine (step_return 1 (fun _ => None) demo_reads _ (mk [Finished] 2%nat (<[0%nat := []]> demo_sent2) demo_closed 1%nat (demo_reads 0) None) eq_refl eq_refl _);
        cbn; by repeat constructor).
  eauto 10 using reach_start, reach_step.
Qed.

