(* ===== verification/Body.v ===== *)
(** * The response body

    Models [Body] of [internal/store/object.go]: [Read], [WriteTo],
    [nextStreamChunk], [releaseChunk] and [Close] over its four sources (a
    static buffer, cached parts, a row reader, a channel).  A reader or a
    channel is given by the chunks it will deliver and the error it ends with;
    buffers handed back to the chunk pool are recorded in [bd_pool]. *)

From S2P Require Import Prelude GoStrings Ranges Blocks Pieces Reader.

(** ** Definitions *)

(** [io.EOF], the source's error, the writer's error, [io.ErrShortWrite]. *)
Inductive body_error := EOF | Failed | SinkFailed | ErrShortWrite.

Inductive body_source :=
| FromParts (parts : list bytes)
| FromReader (chunks : list chunk) (fin : body_error)
| FromChan (chunks : list chunk) (errc : option unit).

Record Body := mkBody {
  bd_cur : bytes;
  bd_chunk : option bytes;
  bd_shared : bool;
  bd_src : body_source;
  bd_err : option body_error;
  bd_static : bool;
  bd_closed : bool;
  bd_pool : list bytes
}.

Definition NewPartsBody (parts : list bytes) : Body := mkBody [] None false (FromParts parts) None false false [].
Definition bytesBody (data : bytes) : Body := mkBody data None false (FromParts []) None true false [].

(** The body [startStream] and [startSingleStream] return: their first chunk is
    already current. *)
Definition stream_body (first : chunk) (src : body_source) : Body :=
  mkBody (ck_b first) (Some (ck_b first)) (ck_shared first) src None false false [].

Definition set_cur (b : Body) (cur : bytes) : Body :=
  mkBody cur (bd_chunk b) (bd_shared b) (bd_src b) (bd_err b) (bd_static b) (bd_closed b) (bd_pool b).
Definition set_chunk (b : Body) (c : bytes) (shared : bool) (src : body_source) : Body :=
  mkBody (bd_cur b) (Some c) shared src (bd_err b) (bd_static b) (bd_closed b) (bd_pool b).
Definition set_err (b : Body) (e : body_error) : Body :=
  mkBody (bd_cur b) (bd_chunk b) (bd_shared b) (bd_src b) (Some e) (bd_static b) (bd_closed b) (bd_pool b).

Definition releaseChunk (b : Body) : Body :=
  match bd_chunk b with
  | None => b
  | Some c =>
      mkBody [] None false (bd_src b) (bd_err b) (bd_static b) (bd_closed b)
        (if bd_shared b then bd_pool b else c :: bd_pool b)
  end.

Definition nextStreamChunk (b : Body) : (bytes + body_error) * Body :=
  match bd_err b with
  | Some e => (inr e, b)
  | None =>
      let b := releaseChunk b in
      match bd_src b with
      | FromReader (c :: cs) fin => (inl (ck_b c), set_chunk b (ck_b c) (ck_shared c) (FromReader cs fin))
      | FromReader [] fin => (inr fin, set_err b fin)
      | FromParts [] => (inr EOF, set_err b EOF)
      | FromParts (p :: ps) => (inl p, set_chunk b p true (FromParts ps))
      | FromChan (c :: cs) errc => (inl (ck_b c), set_chunk b (ck_b c) (ck_shared c) (FromChan cs errc))
      | FromChan [] errc =>
          let e := match errc with Some _ => Failed | None => EOF end in
          (inr e, set_err b e)
      end
  end.

(** Chunks still to come; bounds the rounds of the loops below. *)
Definition chunks_left (b : Body) : nat :=
  match bd_src b with
  | FromParts ps => length ps
  | FromReader cs _ | FromChan cs _ => length cs
  end.

(** [Read(p)] for a buffer of [k] bytes: the bytes copied, or an error. *)
Fixpoint read_loop (fuel : nat) (b : Body) (k : Z) : option ((bytes + body_error) * Body) :=
  match bd_cur b with
  | _ :: _ =>
      let got := slice (bd_cur b) 0 (Z.min k (zlen (bd_cur b))) in
      Some (inl got, set_cur b (slice (bd_cur b) (zlen got) (zlen (bd_cur b))))
  | [] =>
      match fuel with
      | O => None
      | S fuel' =>
          match nextStreamChunk b with
          | (inr e, b) => Some (inr e, b)
          | (inl c, b) => read_loop fuel' (set_cur b c) k
          end
      end
  end.

Definition Read (b : Body) (k : Z) : option ((bytes + body_error) * Body) :=
  if bd_static b then
    match bd_cur b with
    | [] => Some (inr EOF, b)
    | _ =>
        let got := slice (bd_cur b) 0 (Z.min k (zlen (bd_cur b))) in
        Some (inl got, set_cur b (slice (bd_cur b) (zlen got) (zlen (bd_cur b))))
    end
  else read_loop (S (chunks_left b)) b k.

(** An [io.Writer]: given what it was sent before and the new buffer, how many
    bytes it takes and whether it fails. *)
Definition Writer := bytes -> bytes -> Z * bool.

(** The [write] closure of [WriteTo]: everything sent so far and the error. *)
Definition write (w : Writer) (sent p : bytes) : bytes * option body_error :=
  match p with
  | [] => (sent, None)
  | _ =>
      let '(m, failed) := w sent p in
      (sent ++ slice p 0 m,
       if failed then Some SinkFailed else if negb (m =? zlen p) then Some ErrShortWrite else None)
  end.

(** [WriteTo]: the bytes the writer took and the error ([None] for nil). *)
Fixpoint write_loop (fuel : nat) (w : Writer) (b : Body) (sent : bytes) : option (bytes * option body_error * Body) :=
  match fuel with
  | O => None
  | S fuel' =>
      match nextStreamChunk b with
      | (inr EOF, b) => Some (sent, None, b)
      | (inr e, b) => Some (sent, Some e, b)
      | (inl c, b) =>
          match write w sent c with
          | (sent, Some e) => Some (sent, Some e, releaseChunk b)
          | (sent, None) => write_loop fuel' w (releaseChunk b) sent
          end
      end
  end.

Definition WriteTo (w : Writer) (b : Body) : option (bytes * option body_error * Body) :=
  match write w [] (bd_cur b) with
  | (sent, Some e) => Some (sent, Some e, releaseChunk b)
  | (sent, None) =>
      let b := releaseChunk b in
      if bd_static b then Some (sent, None, b)
      else write_loop (S (chunks_left b)) w b sent
  end.

(** [Close], whose work runs once: the current chunk and, for a channel, the
    undelivered chunks go back to the pool unless they are shared. *)
Definition Close (b : Body) : Body :=
  if bd_closed b then b
  else
    let b := releaseChunk b in
    let '(src, returned) :=
      match bd_src b with
      | FromChan cs errc =>
          (FromParts [], ck_b <$> List.filter (fun c => negb (ck_shared c)) cs)
      | src => (src, [])
      end in
    mkBody (bd_cur b) (bd_chunk b) (bd_shared b) src (bd_err b) (bd_static b) true (returned ++ bd_pool b).

(** A client that reads until an error with buffers of the given sizes. *)
Fixpoint read_all (b : Body) (sizes : list Z) : option (bytes * option body_error * Body) :=
  match sizes with
  | [] => Some ([], None, b)
  | k :: ks =>
      match Read b k with
      | None => None
      | Some (inr e, b) => Some ([], Some e, b)
      | Some (inl got, b) =>
          '(rest, e, b) ← read_all b ks;
          Some (got ++ rest, e, b)
      end
  end.

(** ** Specification *)

(** The bytes still to be delivered, and how the body ends. *)
Definition source_bytes (src : body_source) : bytes :=
  match src with
  | FromParts ps => concat ps
  | FromReader cs _ | FromChan cs _ => concat (ck_b <$> cs)
  end.

Definition source_end (src : body_source) : body_error :=
  match src with
  | FromParts _ => EOF
  | FromReader _ fin => fin
  | FromChan _ errc => match errc with Some _ => Failed | None => EOF end
  end.

Definition unread (b : Body) : bytes :=
  bd_cur b ++ (if bd_static b then [] else match bd_err b with Some _ => [] | None => source_bytes (bd_src b) end).

(** The buffers a body may hand back to the pool: its non-shared chunks. *)
Definition source_buffers (src : body_source) : list bytes :=
  match src with
  | FromParts _ => []
  | FromReader cs _ | FromChan cs _ => ck_b <$> List.filter (fun c => negb (ck_shared c)) cs
  end.

Definition body_buffers (b : Body) : list bytes :=
  bd_pool b ++ (if bd_shared b then [] else match bd_chunk b with Some c => [c] | None => [] end) ++ source_buffers (bd_src b).

(** ** Lemmas *)

Lemma nextStreamChunk_ok b :
  bd_static b = false -> bd_err b = None -> bd_cur b = [] ->
  match nextStreamChunk b with
  | (inl c, b') => unread b = c ++ unread b' /\ bd_cur b' = [] /\ bd_static b' = false /\ bd_err b' = None /\
      (chunks_left b' < chunks_left b)%nat /\ source_end (bd_src b') = source_end (bd_src b) /\ bd_chunk b' = Some c
  | (inr e, b') => unread b = [] /\ e = source_end (bd_src b) /\ bd_err b' = Some e /\ bd_cur b' = [] /\ bd_static b' = false
  end.
Proof.
  intros Hs He Hc. unfold nextStreamChunk, unread, chunks_left. rewrite He, Hs.
  assert (bd_src (releaseChunk b) = bd_src b /\ bd_err (releaseChunk b) = None /\ bd_static (releaseChunk b) = false /\
    bd_cur (releaseChunk b) = []) as (E1 & E2 & E3 & E4) by (unfold releaseChunk; destruct (bd_chunk b); done).
  rewrite E1, Hc. destruct (bd_src b) as [[|p ps]|[|c cs] fin|[|c cs] errc] eqn:Esrc;
    cbn; rewrite ?E1, ?E2, ?E3, ?E4; cbn; repeat split; try done; lia.
Qed.

Lemma take_cur (cur : bytes) k :
  0 <= k -> cur = slice cur 0 (Z.min k (zlen cur)) ++
    slice cur (zlen (slice cur 0 (Z.min k (zlen cur)))) (zlen cur).
Proof.
  intros Hk. pose proof (zlen_nonneg cur). rewrite zlen_slice by lia.
  replace (Z.min (Z.min k (zlen cur)) (zlen cur) - Z.min 0 (zlen cur)) with (Z.min k (zlen cur)) by lia.
  rewrite slice_cat by lia. by rewrite slice_full by lia.
Qed.

(** What one [Read] does to the bytes still to be delivered. *)
Definition read_post (b : Body) (k : Z) (res : (bytes + body_error) * Body) : Prop :=
  match res with
  | (inl got, b') => unread b = got ++ unread b' /\ (0 < k -> got <> []) /\ bd_err b' = None /\ bd_static b' = bd_static b /\
      source_end (bd_src b') = source_end (bd_src b)
  | (inr e, b') => unread b = [] /\ e = (if bd_static b then EOF else source_end (bd_src b))
  end.

Lemma read_cur b k :
  0 <= k -> bd_err b = None -> bd_cur b <> [] ->
  let got := slice (bd_cur b) 0 (Z.min k (zlen (bd_cur b))) in
  read_post b k (inl got, set_cur b (slice (bd_cur b) (zlen got) (zlen (bd_cur b)))).
Proof.
  intros Hk He Hc got. unfold read_post, unread. cbn. rewrite app_assoc. unfold got. rewrite <- take_cur by done.
  split; [done |]. split; [| done]. intros Hpos E%(f_equal zlen). pose proof (zlen_pos _ Hc).
  rewrite zlen_slice in E by lia. change (zlen (@nil ascii)) with 0 in E. lia.
Qed.

Lemma read_loop_spec fuel b k :
  0 <= k -> bd_static b = false -> bd_err b = None -> (chunks_left b < fuel)%nat \/ bd_cur b <> [] ->
  exists res, read_loop fuel b k = Some res /\ read_post b k res.
Proof.
  intros Hk. revert b. induction fuel as [|fuel IH]; intros b Hs He Hf; cbn [read_loop];
    destruct (bd_cur b) as [|c cur] eqn:Ec; try (destruct Hf; [lia | done]);
    try (eexists; split; [reflexivity |]; rewrite <- Ec; apply read_cur; [done | done | by rewrite Ec]).
  destruct Hf as [Hf|]; [| done].
  pose proof (nextStreamChunk_ok b Hs He Ec) as Hn. destruct (nextStreamChunk b) as [[c|e] b1].
  - destruct Hn as (Hu & Hc1 & Hs1 & He1 & Hl & Hend & _).
    destruct (IH (set_cur b1 c)) as (res & -> & Hpost); [done | done | left; cbn; unfold chunks_left in *; cbn; lia |].
    exists res. split; [done |]. assert (unread b = unread (set_cur b1 c)) as Eu.
    { rewrite Hu. unfold unread. cbn. by rewrite Hc1. }
    unfold read_post in *. rewrite Eu. destruct res as [[got|e] b2]; cbn in *; rewrite ?Hs, ?Hs1, <- ?Hend in *; done.
  - destruct Hn as (Hu & -> & _). eexists. split; [reflexivity |]. cbn. by rewrite Hs.
Qed.

Lemma Read_spec b k : 0 <= k -> bd_err b = None -> exists res, Read b k = Some res /\ read_post b k res.
Proof.
  intros Hk He. unfold Read. destruct (bd_static b) eqn:Es.
  - destruct (bd_cur b) as [|c cur] eqn:Ec.
    + eexists. split; [reflexivity |]. unfold read_post, unread. by rewrite Ec, Es.
    + eexists. split; [reflexivity |]. rewrite <- Ec. apply read_cur; [done | done | by rewrite Ec].
  - apply read_loop_spec; auto.
Qed.

(** The [io.Writer] contract: it takes a prefix of what it is given, and all of
    it unless it fails. *)
Definition writer_ok (w : Writer) : Prop := forall sent p, 0 <= fst (w sent p) <= zlen p.

Lemma write_spec w sent p :
  writer_ok w ->
  exists p1 p2, p = p1 ++ p2 /\ fst (write w sent p) = sent ++ p1 /\
    match snd (write w sent p) with
    | None => p2 = []
    | Some e => e = SinkFailed \/ e = ErrShortWrite
    end.
Proof.
  intros Hw. destruct p as [|c p']; [exists [], []; cbn; by rewrite app_nil_r |].
  set (p := c :: p'). unfold write. specialize (Hw sent p). destruct (w sent p) as [m failed]. cbn in Hw.
  exists (slice p 0 m), (slice p m (zlen p)). rewrite slice_cat, slice_full by lia. unfold p at 4. cbn.
  split; [done |]. split; [done |]. destruct failed; [by left |].
  destruct (m =? zlen p) eqn:E; cbn; [| by right]. apply Z.eqb_eq in E. rewrite E. by rewrite slice_nil_ge by lia.
Qed.

(** What a writer that may stop early gets: a prefix, and everything when no
    error of its own is reported. *)
Definition write_post (all : bytes) (fin : body_error) (sent : bytes) (e : option body_error) : Prop :=
  exists rest, all = sent ++ rest /\
    match e with
    | None => rest = [] /\ fin = EOF
    | Some e => e = SinkFailed \/ e = ErrShortWrite \/ (rest = [] /\ e = fin /\ fin <> EOF)
    end.

Lemma write_loop_spec fuel w b sent :
  writer_ok w ->
  bd_static b = false -> bd_err b = None -> bd_cur b = [] -> (chunks_left b < fuel)%nat ->
  exists got e b', write_loop fuel w b sent = Some (got, e, b') /\
    write_post (sent ++ unread b) (source_end (bd_src b)) got e.
Proof.
  intros Hw. revert b sent. induction fuel as [|fuel IH]; intros b sent Hs He Hc Hf; [lia |]. cbn [write_loop].
  pose proof (nextStreamChunk_ok b Hs He Hc) as Hn. destruct (nextStreamChunk b) as [[c|e] b1].
  - destruct Hn as (Hu & Hc1 & Hs1 & He1 & Hl & Hend & Hch).
    destruct (write_spec w sent c Hw) as (p1 & p2 & -> & E1 & E2).
    destruct (write w sent (p1 ++ p2)) as [sent1 [e|]]; cbn in E1, E2; subst sent1.
    + eexists _, _, _. split; [reflexivity |]. rewrite Hu. exists (p2 ++ unread b1). split; [by simplify_list_eq |]. tauto.
    + subst p2. destruct (IH (releaseChunk b1) (sent ++ p1)) as (got & e & b' & -> & Hp);
        unfold releaseChunk in *; rewrite Hch in *; cbn in *; try done; [unfold chunks_left in *; cbn; lia |].
      eexists _, _, _. split; [reflexivity |]. rewrite Hu, <- Hend. revert Hp. unfold unread. cbn. rewrite Hs1, He1, Hc1.
      cbn. by rewrite app_nil_r, app_assoc.
  - destruct Hn as (Hu & -> & _). destruct (source_end (bd_src b)) eqn:Ee; eexists _, _, _;
      (split; [reflexivity |]); exists []; rewrite Hu, !app_nil_r; naive_solver.
Qed.

(** Outside static bodies, the current bytes are those of the current chunk. *)
Definition body_wf (b : Body) : Prop := bd_static b = false -> bd_chunk b = None -> bd_cur b = [].

Lemma WriteTo_spec w b :
  writer_ok w -> body_wf b -> bd_err b = None ->
  exists got e b', WriteTo w b = Some (got, e, b') /\
    write_post (unread b) (if bd_static b then EOF else source_end (bd_src b)) got e.
Proof.
  intros Hw Hb He. unfold WriteTo. destruct (write_spec w [] (bd_cur b) Hw) as (p1 & p2 & Ec & E1 & E2).
  destruct (write w [] (bd_cur b)) as [sent1 [e|]]; cbn in E1, E2; subst sent1.
  { eexists _, _, _. split; [reflexivity |]. unfold unread. rewrite Ec, <- app_assoc. eexists. split; [reflexivity |]. tauto. }
  subst p2. rewrite app_nil_r in Ec. subst p1.
  assert (bd_static (releaseChunk b) = bd_static b /\ bd_src (releaseChunk b) = bd_src b /\ bd_err (releaseChunk b) = None /\
    (bd_static b = false -> bd_cur (releaseChunk b) = [])) as (-> & Es & Ee & Ecur)
    by (unfold releaseChunk; destruct (bd_chunk b) eqn:E; auto).
  destruct (bd_static b) eqn:Est.
  - eexists _, _, _. split; [reflexivity |]. unfold unread. rewrite Est. by exists [].
  - destruct (write_loop_spec (S (chunks_left (releaseChunk b))) w (releaseChunk b) (bd_cur b)) as (got & e & b' & E & Hp);
      [done | unfold releaseChunk; by destruct (bd_chunk b) | done | auto | lia |].
    eexists _, _, _. split; [exact E |]. rewrite Es in Hp. revert Hp. unfold unread.
    rewrite Es, Ee, He, Est, Ecur by done. unfold releaseChunk. by destruct (bd_chunk b); cbn; rewrite ?Est.
Qed.

(** *** The chunk pool *)

Lemma releaseChunk_buffers b : body_buffers (releaseChunk b) ≡ₚ body_buffers b.
Proof.
  unfold body_buffers, releaseChunk. destruct (bd_chunk b) as [c|] eqn:E; [| by rewrite E]. cbn.
  destruct (bd_shared b); cbn; [done |]. by rewrite Permutation_middle.
Qed.

Lemma releaseChunk_chunk b : bd_chunk (releaseChunk b) = None.
Proof. unfold releaseChunk. by destruct (bd_chunk b) eqn:E. Qed.

Lemma nextStreamChunk_buffers b : body_buffers (snd (nextStreamChunk b)) ≡ₚ body_buffers b.
Proof.
  unfold nextStreamChunk. destruct (bd_err b); [done |]. rewrite <- (releaseChunk_buffers b).
  pose proof (releaseChunk_chunk b) as En. destruct (releaseChunk b) as [cur ch shared src err st cl pool]. cbn in En. subst ch.
  unfold body_buffers.
  destruct src as [[|p ps]|[|[d sh] cs] fin|[|[d sh] cs] errc]; cbn; destruct shared; try destruct sh; cbn; done.
Qed.

Lemma Close_buffers b :
  bd_closed b = false ->
  bd_pool (Close b) ++ source_buffers (bd_src (Close b)) ≡ₚ body_buffers b /\ bd_chunk (Close b) = None.
Proof.
  intros Hc. unfold Close. rewrite Hc, <- (releaseChunk_buffers b). pose proof (releaseChunk_chunk b) as En.
  destruct (releaseChunk b) as [cur ch shared src err st cl pool]. cbn in En. subst ch. unfold body_buffers.
  destruct src as [ps|cs fin|cs errc]; cbn; (split; [| done]); destruct shared; cbn; rewrite ?app_nil_r; try done;
    by rewrite Permutation_app_comm.
Qed.

Lemma read_loop_buffers fuel b k res b' : read_loop fuel b k = Some (res, b') -> body_buffers b' ≡ₚ body_buffers b.
Proof.
  revert b. induction fuel as [|fuel IH]; intros b; cbn [read_loop]; destruct (bd_cur b); intros E; simplify_eq; try done.
  pose proof (nextStreamChunk_buffers b) as Hn. destruct (nextStreamChunk b) as [[c|e] b1]; cbn in Hn.
  - apply IH in E. by rewrite <- Hn.
  - by simplify_eq.
Qed.

Lemma write_loop_buffers fuel w b sent got e b' :
  write_loop fuel w b sent = Some (got, e, b') -> body_buffers b' ≡ₚ body_buffers b.
Proof.
  revert b sent. induction fuel as [|fuel IH]; intros b sent; cbn [write_loop]; [done |].
  pose proof (nextStreamChunk_buffers b) as Hn. destruct (nextStreamChunk b) as [[c|er] b1]; cbn in Hn.
  - destruct (write w sent c) as [sent1 [er|]]; intros E.
    + simplify_eq. by rewrite releaseChunk_buffers.
    + apply IH in E. by rewrite E, releaseChunk_buffers.
  - intros E. destruct er; by simplify_eq.
Qed.

Lemma read_all_spec b sizes :
  bd_err b = None -> Forall (fun k => 0 < k) sizes ->
  exists got e b', read_all b sizes = Some (got, e, b') /\
    match e with
    | None => unread b = got ++ unread b' /\ (length sizes <= length got)%nat
    | Some e => unread b = got /\ e = (if bd_static b then EOF else source_end (bd_src b))
    end.
Proof.
  intros He Hk. revert b He. induction Hk as [|k ks Hk _ IH]; intros b He; cbn [read_all].
  { eexists _, _, _. split; [reflexivity |]. cbn. split; [done | lia]. }
  destruct (Read_spec b k) as ([[got|e] b1] & -> & Hpost); [lia | done | | ].
  - destruct Hpost as (Hu & Hne & He1 & Hs1 & Hend). specialize (Hne Hk).
    destruct (IH b1 He1) as (rest & e & b2 & -> & Hr). cbn [mbind option_bind].
    eexists _, _, _. split; [reflexivity |]. rewrite Hs1, Hend in Hr. destruct e as [e|]; destruct Hr as [Hr1 Hr2].
    + by rewrite Hu, Hr1.
    + rewrite Hu, Hr1, app_assoc. split; [done |]. rewrite length_app. destruct got; [done |]. cbn. lia.
  - destruct Hpost as [Hu ->]. eexists _, _, _. split; [reflexivity |]. done.
Qed.

(** ** A client of the body *)

Inductive body_op := OpRead (k : Z) | OpWriteTo (w : Writer) | OpClose.

Definition body_step (b : Body) (op : body_op) : option Body :=
  match op with
  | OpRead k => snd <$> Read b k
  | OpWriteTo w => snd <$> WriteTo w b
  | OpClose => Some (Close b)
  end.

Fixpoint body_run (b : Body) (ops : list body_op) : option Body :=
  match ops with
  | [] => Some b
  | op :: ops => b ← body_step b op; body_run b ops
  end.

Lemma body_step_buffers b op b' :
  body_step b op = Some b' -> body_buffers b' ≡ₚ body_buffers b.
Proof.
  destruct op as [k|w|]; cbn [body_step]; unfold Read, WriteTo.
  - destruct (bd_static b) eqn:Es.
    + destruct (bd_cur b); intros E; by simplify_eq/=.
    + intros ([res b2] & E & ->)%fmap_Some. cbn. by apply read_loop_buffers in E.
  - destruct (write w [] (bd_cur b)) as [sent [e|]]; [intros E; simplify_eq/=; apply releaseChunk_buffers |].
    destruct (bd_static (releaseChunk b)); [intros E; simplify_eq/=; apply releaseChunk_buffers |].
    intros ([[got e] b2] & E & ->)%fmap_Some. cbn. apply write_loop_buffers in E. by rewrite E, releaseChunk_buffers.
  - intros E. simplify_eq. destruct (bd_closed b) eqn:Ec; [unfold Close; by rewrite Ec |].
    destruct (Close_buffers b Ec) as [Hp Hc]. unfold body_buffers at 1. rewrite Hc. by destruct (bd_shared (Close b)).
Qed.

Lemma body_run_buffers b ops b' : body_run b ops = Some b' -> body_buffers b' ≡ₚ body_buffers b.
Proof.
  revert b. induction ops as [|op ops IH]; intros b E; cbn in E; [by simplify_eq |].
  destruct (body_step b op) as [b1|] eqn:E1; [| done]. cbn in E. apply IH in E. rewrite E. by eapply body_step_buffers.
Qed.

(** The constructors' bodies. *)
Definition fresh (b : Body) : Prop :=
  (exists parts, b = NewPartsBody parts) \/ (exists data, b = bytesBody data) \/ (exists first src, b = stream_body first src).

Lemma fresh_ok b : fresh b -> bd_err b = None /\ body_wf b /\ bd_closed b = false /\ bd_pool b = [].
Proof. intros [(parts & ->)|[(data & ->)|(first & src & ->)]]; (repeat split); done. Qed.

(** ** Properties *)

(** Reading a body with any positive buffer sizes returns exactly its bytes
    in order, then the error its source ends with ([io.EOF] after a complete
    source), and nothing is lost or repeated across calls: what was read so far
    followed by what is unread is always the whole body, every read makes
    progress, and an error is reported only after the last byte. *)
Theorem body_read_all b sizes :
  fresh b -> Forall (fun k => 0 < k) sizes ->
  exists got e b', read_all b sizes = Some (got, e, b') /\
    match e with
    | None => unread b = got ++ unread b' /\ (length sizes <= length got)%nat
    | Some e => unread b = got /\ e = (if bd_static b then EOF else source_end (bd_src b))
    end.
Proof. intros (He & _)%fresh_ok Hk. by apply read_all_spec. Qed.

Definition demo_body : Body :=
  stream_body (mkChunk (String.list_ascii_of_string "hello ") false)
    (FromChan [mkChunk (String.list_ascii_of_string "big ") true; mkChunk [] false; mkChunk (String.list_ascii_of_string "world") false] None).

Lemma demo_body_fresh : fresh demo_body.
Proof. right. right. by eexists _, _. Qed.

Lemma body_read_all_witness :
  exists got e b', read_all demo_body [4; 4; 4; 4; 4; 4; 4; 4] = Some (got, e, b') /\
    got = String.list_ascii_of_string "hello big world" /\ e = Some EOF.
Proof.
  destruct (body_read_all demo_body [4; 4; 4; 4; 4; 4; 4; 4] demo_body_fresh) as (got & e & b' & E & _);
    [repeat constructor |].
  vm_compute in E. injection E as <- <- <-. eexists _, _, _. by vm_compute.
Defined.

(** Copying a body into a writer ends with every byte written when it
    reports success, and otherwise with a prefix written and the reason: the
    writer's own error or short write, or the error the source ended with after
    all its bytes were written.  Success is never reported for a source that
    failed. *)
Theorem body_write_to w b :
  fresh b -> writer_ok w ->
  exists got e b' rest, WriteTo w b = Some (got, e, b') /\ unread b = got ++ rest /\
    match e with
    | None => rest = [] /\ (bd_static b = true \/ source_end (bd_src b) = EOF)
    | Some e => e = SinkFailed \/ e = ErrShortWrite \/ (rest = [] /\ e = source_end (bd_src b) /\ e <> EOF)
    end.
Proof.
  intros (He & Hwf & _)%fresh_ok Hw. destruct (WriteTo_spec w b Hw Hwf He) as (got & e & b' & E & rest & Hr & Hp).
  exists got, e, b', rest. split; [done |]. split; [done |].
  destruct e as [e|], (bd_static b); naive_solver.
Qed.

(** A writer that takes ten bytes in all. *)
Definition ten_bytes : Writer := fun sent p => (Z.min (zlen p) (Z.max 0 (10 - zlen sent)), false).

Lemma body_write_to_witness :
  exists got e b' rest, WriteTo ten_bytes demo_body = Some (got, e, b') /\
    String.list_ascii_of_string "hello big world" = got ++ rest /\ e = Some ErrShortWrite.
Proof.
  destruct (body_write_to ten_bytes demo_body demo_body_fresh) as (got & e & b' & rest & E & Er & _).
  - intros sent p. unfold ten_bytes. cbn. pose proof (zlen_nonneg p). lia.
  - vm_compute in E. injection E as <- <- <-. eexists _, _, _, rest. split; [by vm_compute |]. split; [exact Er | done].
Defined.

(** Chunk buffers are returned to the pool exactly once and cache-owned
    bytes never are: whatever reads, copies and closes a client performs, the
    pool holds only buffers of chunks not marked shared, none of them twice, and
    closing a body fed by a channel returns all of them. *)
Theorem body_pool_exact b ops b' :
  fresh b -> body_run b ops = Some b' ->
  (exists rest, body_buffers b ≡ₚ bd_pool b' ++ rest) /\
  (bd_closed b' = false -> (exists cs errc, bd_src b' = FromChan cs errc) ->
    bd_pool (Close b') ≡ₚ body_buffers b).
Proof.
  intros _ E. apply body_run_buffers in E. split.
  - eexists. rewrite <- E. unfold body_buffers. reflexivity.
  - intros Hc (cs & errc & Es). destruct (Close_buffers b' Hc) as [Hp _]. rewrite <- E, <- Hp.
    assert (source_buffers (bd_src (Close b')) = []) as ->; [| by rewrite app_nil_r].
    unfold Close. rewrite Hc. assert (bd_src (releaseChunk b') = bd_src b') as -> by (unfold releaseChunk; by destruct (bd_chunk b')).
    by rewrite Es.
Qed.

Lemma body_pool_exact_witness :
  exists b', body_run demo_body [OpRead 3; OpRead 9; OpRead 2] = Some b' /\
    bd_pool (Close b') ≡ₚ [String.list_ascii_of_string "hello "; []; String.list_ascii_of_string "world"].
Proof.
  destruct (body_run demo_body [OpRead 3; OpRead 9; OpRead 2]) as [b'|] eqn:E; [| by vm_compute in E].
  exists b'. split; [done |]. destruct (body_pool_exact _ _ _ demo_body_fresh E) as [_ H].
  vm_compute in E. injection E as <-. apply H; [done | by eexists _, _].
Defined.
