(* ===== verification/Ids.v ===== *)
(** * File identifiers

    Models [nextFileID] of [internal/store/store.go]: every store process takes
    identifiers from the shared sequence [s3p.file_ids] in blocks of 64 and
    hands them out one by one.  The values of a block need not be consecutive,
    since the processes take them concurrently; the sequence only never returns
    a value twice and starts at 1. *)

From stdpp Require Import gmap.
From S2P Require Import Prelude.

Definition block_size : Z := 64.

(** The values the sequence has returned, and [fileIDBlock], [fileIDPos] of
    every process. *)
Record allocator := mkAllocator {
  al_issued : gset Z;
  al_blocks : gmap nat (list Z * Z)
}.

Definition new_allocator : allocator := mkAllocator ∅ ∅.

Definition block_of (a : allocator) (s : nat) : list Z * Z := default ([], 0) (al_blocks a !! s).

(** A block the sequence can return next. *)
Definition fresh_block (a : allocator) (block : list Z) : Prop :=
  zlen block = block_size /\ NoDup block /\ Forall (fun i => 1 <= i < 2 ^ 63 /\ i ∉ al_issued a) block.

#[global] Instance fresh_block_dec a block : Decision (fresh_block a block).
Proof. unfold fresh_block. apply _. Defined.

(** [nextFileID] of process [s]; [block] is what the query returns if it is
    run.  Without 64 fresh values the query fails and nothing is handed out. *)
Definition nextFileID (s : nat) (block : list Z) (a : allocator) : option (Z * allocator) :=
  let '(ids, pos) := block_of a s in
  match znth ids pos with
  | Some id => Some (id, mkAllocator (al_issued a) (<[s := (ids, pos + 1)]> (al_blocks a)))
  | None =>
      if decide (fresh_block a block) then
        match block with
        | id :: _ => Some (id, mkAllocator (al_issued a ∪ list_to_set block) (<[s := (block, 1)]> (al_blocks a)))
        | [] => None
        end
      else None
  end.

(** ** Identifiers are handed out once *)

(** The identifiers a process still holds. *)
Definition held (a : allocator) (s : nat) : list Z := drop (Z.to_nat (block_of a s).2) (block_of a s).1.

(** [given] are the identifiers handed out so far. *)
Record alloc_inv (a : allocator) (given : gset Z) : Prop := {
  ai_pos : forall s, 0 <= (block_of a s).2;
  ai_held : forall s i, i ∈ held a s -> i ∈ al_issued a /\ i ∉ given /\ 1 <= i < 2 ^ 63;
  ai_nodup : forall s, NoDup (held a s);
  ai_disjoint : forall s t i, i ∈ held a s -> i ∈ held a t -> s = t;
  ai_given : forall i, i ∈ given -> i ∈ al_issued a /\ 1 <= i < 2 ^ 63
}.

Lemma alloc_inv_new : alloc_inv new_allocator ∅.
Proof. split; unfold held, block_of; cbn; intros; (set_solver || lia || constructor). Qed.

Lemma block_of_insert s t b i m : block_of (mkAllocator i (<[s := b]> m)) t = if decide (s = t) then b else default ([], 0) (m !! t).
Proof. unfold block_of. cbn. destruct (decide (s = t)) as [->|]; by simplify_map_eq. Qed.

Lemma alloc_inv_take a given s ids pos id :
  alloc_inv a given -> block_of a s = (ids, pos) -> znth ids pos = Some id ->
  alloc_inv (mkAllocator (al_issued a) (<[s := (ids, pos + 1)]> (al_blocks a))) ({[id]} ∪ given) /\ id ∉ given /\ 1 <= id < 2 ^ 63.
Proof.
  intros [Hpos Hheld Hnd Hdis Hgiv] Hb Hn. pose proof (Hpos s) as Hp. rewrite Hb in Hp. cbn in Hp.
  assert (held a s = id :: drop (Z.to_nat (pos + 1)) ids) as Hs.
  { unfold held. rewrite Hb. cbn. unfold znth in Hn. rewrite decide_False in Hn by lia.
    replace (Z.to_nat (pos + 1)) with (S (Z.to_nat pos)) by lia. by apply drop_S. }
  set (a' := mkAllocator _ _).
  assert (forall t, held a' t = if decide (s = t) then drop (Z.to_nat (pos + 1)) ids else held a t) as Ht.
  { intros t. unfold held, a'. rewrite block_of_insert. by destruct (decide (s = t)). }
  pose proof (Hheld s id ltac:(rewrite Hs; left)) as (Hi1 & Hi2 & Hi3). pose proof (Hnd s) as Hn1.
  rewrite Hs in Hn1. apply NoDup_cons in Hn1 as [Hn1 Hn2].
  assert (forall t i, i ∈ held a' t -> i ∈ held a t /\ i <> id) as Hsub.
  { intros t i. rewrite Ht. destruct (decide (s = t)) as [<-|Hne]; intros Hin.
    - rewrite Hs. split; [by right | by intros ->].
    - split; [done |]. intros ->. apply Hne. apply (Hdis s t id); [rewrite Hs; left | done]. }
  split; [| done]. split.
  - intros t. unfold a'. rewrite block_of_insert. destruct (decide (s = t)); [cbn; lia | apply Hpos].
  - intros t i [Hin Hne]%Hsub. apply Hheld in Hin as (? & ? & ?). set_solver.
  - intros t. rewrite Ht. by destruct (decide (s = t)).
  - intros t u i [H1 _]%Hsub [H2 _]%Hsub. eauto.
  - intros i. rewrite elem_of_union, elem_of_singleton. intros [->|?]; [done | by apply Hgiv].
Qed.

Lemma alloc_inv_refill a given s id rest :
  alloc_inv a given -> fresh_block a (id :: rest) ->
  alloc_inv (mkAllocator (al_issued a ∪ list_to_set (id :: rest)) (<[s := (id :: rest, 1)]> (al_blocks a))) ({[id]} ∪ given) /\
  id ∉ given /\ 1 <= id < 2 ^ 63.
Proof.
  intros [Hpos Hheld Hnd Hdis Hgiv] (_ & Hn & Hf). apply NoDup_cons in Hn as [Hn1 Hn2]. rewrite Forall_forall in Hf.
  pose proof (Hf id ltac:(left)) as [Hr Hi]. set (a' := mkAllocator _ _).
  assert (forall t, held a' t = if decide (s = t) then rest else held a t) as Ht.
  { intros t. unfold held, a'. rewrite block_of_insert. by destruct (decide (s = t)). }
  assert (forall t i, i ∈ held a' t -> (s = t /\ i ∈ rest) \/ (s <> t /\ i ∈ held a t)) as Hsub.
  { intros t i. rewrite Ht. destruct (decide (s = t)); auto. }
  split; [| split; [intros Hin; apply Hi; by apply Hgiv in Hin as [? _] | done]]. split.
  - intros t. unfold a'. rewrite block_of_insert. destruct (decide (s = t)); [done | apply Hpos].
  - intros t i [[-> Hin]|[_ Hin]]%Hsub; unfold a'; cbn [al_issued].
    + destruct (Hf i ltac:(by right)) as [? Hni]. split; [set_solver |]. split; [| lia].
      intros [Hi'|Hg]%elem_of_union; [| by apply Hgiv in Hg as [? _]]. apply elem_of_singleton in Hi' as ->. done.
    + apply Hheld in Hin as (H1 & H2 & H3). split; [set_solver |]. split; [| done]. set_solver.
  - intros t. rewrite Ht. by destruct (decide (s = t)).
  - assert (forall t i, i ∈ rest -> i ∈ held a t -> False) as Hfr.
    { intros t i H1 H2%Hheld. destruct (Hf i ltac:(by right)). tauto. }
    intros t u i [[<- H1]|[? H1]]%Hsub [[<- H2]|[? H2]]%Hsub; eauto; exfalso; eauto.
  - intros i. unfold a'. cbn [al_issued]. rewrite elem_of_union, elem_of_singleton. intros [->|Hin]; [set_solver |].
    apply Hgiv in Hin. set_solver.
Qed.

Lemma nextFileID_inv s block a given id a' :
  alloc_inv a given -> nextFileID s block a = Some (id, a') ->
  alloc_inv a' ({[id]} ∪ given) /\ id ∉ given /\ 1 <= id < 2 ^ 63.
Proof.
  intros Hinv. unfold nextFileID. destruct (block_of a s) as [ids pos] eqn:Hb. destruct (znth ids pos) as [i|] eqn:Hn.
  - intros [= <- <-]. by eapply alloc_inv_take.
  - destruct (decide (fresh_block a block)) as [Hf|]; [| done]. destruct block as [|i rest]; [done |].
    intros [= <- <-]. by apply alloc_inv_refill.
Qed.

(** A run of allocations by any processes in any order; [None] when the
    sequence gave no block. *)
Fixpoint allocations (reqs : list (nat * list Z)) (a : allocator) : list Z * allocator :=
  match reqs with
  | [] => ([], a)
  | (s, block) :: rest =>
      match nextFileID s block a with
      | Some (id, a') => let '(ids, a'') := allocations rest a' in (id :: ids, a'')
      | None => allocations rest a
      end
  end.

Lemma allocations_inv reqs a given ids a' :
  alloc_inv a given -> allocations reqs a = (ids, a') ->
  alloc_inv a' (list_to_set ids ∪ given) /\ NoDup ids /\ forall i, i ∈ ids -> i ∉ given /\ 1 <= i < 2 ^ 63.
Proof.
  revert a given ids. induction reqs as [|[s block] reqs IH]; intros a given ids Hinv; cbn [allocations].
  { intros [= <- <-]. cbn. rewrite (left_id_L ∅ (∪)). split; [done |]. split; [constructor | set_solver]. }
  destruct (nextFileID s block a) as [[id a1]|] eqn:E; [| by apply IH].
  destruct (nextFileID_inv s block a given id a1 Hinv E) as (Hinv1 & Hid).
  destruct (allocations reqs a1) as [ids1 a2] eqn:E1. intros [= <- <-].
  destruct (IH a1 _ ids1 Hinv1 E1) as (Hinv2 & Hnd & Hf). split; [| split].
  - cbn. rewrite <- (assoc_L (∪)), (comm_L (∪) {[id]}), <- (assoc_L (∪)), (comm_L (∪) given). done.
  - constructor; [| done]. intros Hin. apply Hf in Hin. set_solver.
  - intros i [->|Hin]%elem_of_cons; [done |]. apply Hf in Hin. set_solver.
Qed.

(** File identifiers are handed out once.  Whatever processes ask for
    identifiers in whatever order, each taking blocks from the sequence when it
    has used up its own, no identifier is handed out twice and all are positive
    64-bit integers. *)
Theorem file_ids_unique reqs : NoDup (allocations reqs new_allocator).1 /\ Forall (fun i => 1 <= i < 2 ^ 63) (allocations reqs new_allocator).1.
Proof.
  destruct (allocations reqs new_allocator) as [ids a'] eqn:E. destruct (allocations_inv _ _ _ _ _ alloc_inv_new E) as (_ & Hnd & Hf).
  split; [done |]. apply Forall_forall. intros i Hi. by apply Hf.
Qed.
