(* ===== verification/Tables.v ===== *)
(** * The tables of a namespace

    Models the schema that [internal/store/schema.sql] creates for one bucket,
    cache or write-back namespace: its tables with their constraints
    ([objects], [uploads], [upload_parts], [object_part_checksums],
    [origin_metadata], [chunks], [garbage]), the rows of [s3p.cache_fill_leases]
    and [s3p.pending_uploads] that belong to it, and its SQL functions
    ([queue_garbage], [publish_value], [publish_object], [put_inline],
    [expire_objects], [commit_part], [expire_uploads]).

    A transaction is a computation in a state and error monad; a statement that
    violates a constraint fails the transaction, and a failed transaction
    leaves the tables unchanged.  Times are integers in the resolution of the
    database; [now()] is an argument. *)

From stdpp Require Import gmap sorting.
From S2P Require Import Prelude GoStrings Ns Ranges Precond Blocks.

(** ** Rows *)

#[global] Instance chunk_row_eq_dec : EqDecision chunk_row.
Proof. solve_decision. Defined.

(** The columns of [objects] that do not say where the content is. *)
Record attrs := mkAttrs {
  at_size : Z;
  at_sha256 : bytes;
  at_etag : string;
  at_user_metadata : list string;
  at_content_type : string;
  at_content_encoding : string;
  at_origin_modified : option Z;
  at_checksum_name : option string;
  at_checksum_value : option string;
  at_checksum_type : option string;
  at_created_at : Z;
  at_expires_at : option Z;
  at_origin_etag : option string
}.

Record object := mkObject {
  ob_attrs : attrs;
  ob_file_id : option Z;
  ob_parts : option (list Z);
  ob_part_ends : option (list Z);
  ob_inline_data : option bytes
}.

Record upload := mkUploadRow {
  up_key : string;
  up_checksum_algorithm : option string;
  up_user_metadata : list string;
  up_content_type : string;
  up_content_encoding : string;
  up_created_at : Z
}.

Record upload_part := mkPart {
  pt_file_id : Z;
  pt_size : Z;
  pt_sha256 : bytes;
  pt_md5 : bytes;
  pt_checksum : option string
}.

Record part_check := mkPartCheck { pk_file_id : Z; pk_algorithm : string; pk_value : string }.

Record pending_upload := mkPending {
  pu_token : string;
  pu_size : Z;
  pu_attempts : Z;
  pu_dead : bool;
  pu_next_attempt : Z;
  pu_created_at : Z;
  pu_base_etag : option string;
  pu_base_missing : bool;
  pu_lease_owner : option string;
  pu_lease_until : option Z;
  pu_last_error : option string
}.

(** A row of [origin_metadata]; the column [info] holds the JSON of an
    [ObjectInfo], of which decoding gives back the value. *)
Record origin_entry := mkOriginEntry {
  om_info : ObjectInfo;
  om_validated_at : Z;
  om_expires_at : Z
}.

Record db := mkDb {
  db_objects : gmap string object;
  db_uploads : gmap string upload;
  db_parts : gmap (string * Z) upload_part;
  db_checksums : gmap (string * Z) part_check;
  db_origin_metadata : gmap string origin_entry;
  db_chunks : list chunk_row;
  db_garbage : gmap Z Z;
  db_leases : gmap string (string * Z);
  db_pending : gmap string pending_upload
}.

Definition empty_db : db := mkDb ∅ ∅ ∅ ∅ ∅ [] ∅ ∅ ∅.

Definition set_objects (d : db) (m : gmap string object) : db :=
  mkDb m (db_uploads d) (db_parts d) (db_checksums d) (db_origin_metadata d) (db_chunks d) (db_garbage d) (db_leases d) (db_pending d).
Definition set_uploads (d : db) (m : gmap string upload) : db :=
  mkDb (db_objects d) m (db_parts d) (db_checksums d) (db_origin_metadata d) (db_chunks d) (db_garbage d) (db_leases d) (db_pending d).
Definition set_parts (d : db) (m : gmap (string * Z) upload_part) : db :=
  mkDb (db_objects d) (db_uploads d) m (db_checksums d) (db_origin_metadata d) (db_chunks d) (db_garbage d) (db_leases d) (db_pending d).
Definition set_checksums (d : db) (m : gmap (string * Z) part_check) : db :=
  mkDb (db_objects d) (db_uploads d) (db_parts d) m (db_origin_metadata d) (db_chunks d) (db_garbage d) (db_leases d) (db_pending d).
Definition set_origin (d : db) (m : gmap string origin_entry) : db :=
  mkDb (db_objects d) (db_uploads d) (db_parts d) (db_checksums d) m (db_chunks d) (db_garbage d) (db_leases d) (db_pending d).
Definition set_chunks (d : db) (m : list chunk_row) : db :=
  mkDb (db_objects d) (db_uploads d) (db_parts d) (db_checksums d) (db_origin_metadata d) m (db_garbage d) (db_leases d) (db_pending d).
Definition set_garbage (d : db) (m : gmap Z Z) : db :=
  mkDb (db_objects d) (db_uploads d) (db_parts d) (db_checksums d) (db_origin_metadata d) (db_chunks d) m (db_leases d) (db_pending d).
Definition set_leases (d : db) (m : gmap string (string * Z)) : db :=
  mkDb (db_objects d) (db_uploads d) (db_parts d) (db_checksums d) (db_origin_metadata d) (db_chunks d) (db_garbage d) m (db_pending d).
Definition set_pendings (d : db) (m : gmap string pending_upload) : db :=
  mkDb (db_objects d) (db_uploads d) (db_parts d) (db_checksums d) (db_origin_metadata d) (db_chunks d) (db_garbage d) (db_leases d) m.

(** ** Transactions *)

Inductive store_error :=
| Violation | InlineExceeds | RowCount
| ErrPreconditionFailed | ErrStaleCache | ErrNotFound | ErrNoBucket | ErrNoUpload | ErrInvalidPart | ErrInlineTooLarge
| ErrQuotaExceeded | ErrMissingChecksum | WrongSize | InvalidPublication | NotPendingKind | InvalidBucket | NoFileID
| Unreadable | ErrPendingUploads.

Definition txn (S A : Type) : Type := S -> result store_error (A * S).

#[global] Instance txn_ret {S} : MRet (txn S) := fun A a d => Ok (a, d).
#[global] Instance txn_bind {S} : MBind (txn S) := fun A B k c d =>
  match c d with Ok (a, d') => k a d' | Err e => Err e end.

Definition tables {S} : txn S S := fun d => Ok (d, d).
Definition update {S} (f : S -> S) : txn S unit := fun d => Ok (tt, f d).
Definition throw {S A} (e : store_error) : txn S A := fun _ => Err e.
Definition require {S} (b : bool) (e : store_error) : txn S unit := if b then mret tt else throw e.
Definition from_result {S A E} (e : E -> store_error) (r : result E A) : txn S A :=
  match r with Ok a => mret a | Err x => throw (e x) end.

Abbreviation tx := (txn db).

(** Commit on success, roll back on failure. *)
Definition commit {S A} (c : txn S A) (d : S) : result store_error A * S :=
  match c d with
  | Ok (a, d') => (Ok a, d')
  | Err e => (Err e, d)
  end.

(** A transaction that succeeded. *)
Lemma bind_Ok {S A B} (c : txn S A) (f : A -> txn S B) d x d' :
  (c ≫= f) d = Ok (x, d') -> exists y d1, c d = Ok (y, d1) /\ f y d1 = Ok (x, d').
Proof. unfold mbind, txn_bind. destruct (c d) as [[y d1]|]; [eauto | done]. Qed.

Lemma require_Ok {S B} b e (f : txn S B) d x : (require b e;; f) d = Ok x -> b = true /\ f d = Ok x.
Proof. by destruct b. Qed.

Lemma from_result_Ok {S A E} (e : E -> store_error) (r : result E A) (d d' : S) x : from_result e r d = Ok (x, d') -> r = Ok x /\ d' = d.
Proof. destruct r; [by intros [= <- <-] | done]. Qed.

Lemma bind_Err {S A B} (c : txn S A) (f : A -> txn S B) d e :
  (c ≫= f) d = Err e -> c d = Err e \/ exists y d1, c d = Ok (y, d1) /\ f y d1 = Err e.
Proof. unfold mbind, txn_bind. destruct (c d) as [[y d1]|]; [eauto | intros [= ->]; by left]. Qed.

Lemma require_Err {S B} b e (f : txn S B) d e' : (require b e;; f) d = Err e' -> e' = e \/ f d = Err e'.
Proof. destruct b; [by right | intros [= ->]; by left]. Qed.

(** What holds when a transaction succeeds. *)
Definition ends {S A} (Q : A -> S -> Prop) (r : result store_error (A * S)) : Prop :=
  match r with Ok (x, d) => Q x d | Err _ => True end.

Lemma ends_bind {S A B} (Q : A -> S -> Prop) (R : B -> S -> Prop) (c : txn S A) (f : A -> txn S B) d :
  ends Q (c d) -> (forall x d', Q x d' -> ends R (f x d')) -> ends R ((c ≫= f) d).
Proof. unfold mbind, txn_bind. destruct (c d) as [[x d']|]; cbn; auto. Qed.

Lemma ends_require {S B} (R : B -> S -> Prop) b e (f : txn S B) d : (b = true -> ends R (f d)) -> ends R ((require b e;; f) d).
Proof. intros Hf. destruct b; [by apply Hf | done]. Qed.

Lemma ends_result {S A B E} (R : B -> S -> Prop) (e : E -> store_error) (r : result E A) (f : A -> txn S B) d :
  (forall x, r = Ok x -> ends R (f x d)) -> ends R ((from_result e r ≫= f) d).
Proof. intros Hf. destruct r; [by apply Hf | done]. Qed.

Lemma ends_update {S B} (R : B -> S -> Prop) (g : S -> S) (f : txn S B) d : ends R (f (g d)) -> ends R ((update g;; f) d).
Proof. done. Qed.

Lemma ends_tables {S B} (R : B -> S -> Prop) (f : S -> txn S B) d : ends R (f d d) -> ends R ((tables ≫= f) d).
Proof. done. Qed.

(** ** Constraints *)

Definition lower_hex (c : ascii) : bool :=
  ((48 <=? code c) && (code c <=? 57)) || ((97 <=? code c) && (code c <=? 102)).

(** [^[0-9a-f]{32}(-[1-9][0-9]{0,4})?$] *)
Definition etag_shape (s : string) : bool :=
  let '(h, rest) := (stake 32 s, sdrop 32 s) in
  (slen h =? 32) && all_bytes lower_hex h &&
  match rest with
  | EmptyString => true
  | String c (String d ds) =>
      (code c =? 45) && (49 <=? code d) && (code d <=? 57) && all_bytes is_digit ds && (slen ds <=? 4)
  | _ => false
  end.

Definition attr_shape (k : Kind) (key : string) (a : attrs) : bool :=
  (1 <=? slen key) && (slen key <=? MaxKeyLen k) && (0 <=? at_size a) && (zlen (at_sha256 a) =? 32) &&
  etag_shape (at_etag a) &&
  (zlen (at_user_metadata a) <=? 128) && (zlen (at_user_metadata a) mod 2 =? 0) &&
  (1 <=? slen (at_content_type a)) && (slen (at_content_type a) <=? 1024) &&
  (slen (at_content_encoding a) <=? 1024).

Definition max_file_size : Z := 2147483648 * 8120.

(** The three layouts of [object_shape]. *)
Definition layout_shape (k : Kind) (o : object) : bool :=
  let size := at_size (ob_attrs o) in
  match ob_inline_data o, ob_file_id o, ob_parts o, ob_part_ends o with
  | Some d, None, None, None => (size <=? InlineMax k) && (zlen d <=? size) && ((size =? 0) || (0 <? zlen d))
  | None, Some _, None, None => size <=? max_file_size
  | None, Some f, Some (p :: ps), Some es =>
      bool_decide (length (p :: ps) = length es) && (p =? f) && bool_decide (last es = Some size)
  | _, _, _, _ => false
  end.

Definition object_shape (k : Kind) (key : string) (o : object) : bool :=
  attr_shape k key (ob_attrs o) && layout_shape k o.

Definition chunk_shape (r : chunk_row) : bool :=
  (0 <=? cr_no r) && (1 <=? zlen (cr_data r)) && (zlen (cr_data r) <=? 8120).

Definition algorithms : list string := ["CRC32"; "CRC32C"; "CRC64NVME"; "SHA1"; "SHA256"].

Definition upload_shape (u : upload) : bool :=
  match up_checksum_algorithm u with Some a => bool_decide (a ∈ algorithms) | None => true end &&
  (zlen (up_user_metadata u) <=? 128) && (zlen (up_user_metadata u) mod 2 =? 0) &&
  (1 <=? slen (up_content_type u)) && (slen (up_content_type u) <=? 1024) && (slen (up_content_encoding u) <=? 1024).

Definition part_shape (no : Z) (p : upload_part) : bool :=
  (1 <=? no) && (no <=? 10000) && (0 <=? pt_size p) && (pt_size p <=? max_file_size) &&
  (zlen (pt_sha256 p) =? 32) && (zlen (pt_md5 p) =? 16) &&
  match pt_checksum p with Some c => (1 <=? slen c) && (slen c <=? 128) | None => true end.

(** ** References and garbage *)

Definition object_files (o : object) : list Z := option_list (ob_file_id o) ++ default [] (ob_parts o).

(** The files the objects and the parts of open uploads refer to. *)
Definition refs (d : db) : list Z :=
  concat (object_files <$> (map_to_list (db_objects d)).*2) ++ (pt_file_id <$> (map_to_list (db_parts d)).*2).

Definition referenced (d : db) (f : Z) : bool := bool_decide (f ∈ refs d).

(** [INSERT INTO garbage ... ON CONFLICT DO NOTHING] *)
Definition insert_garbage (now : Z) (g : gmap Z Z) (f : Z) : gmap Z Z :=
  match g !! f with Some _ => g | None => <[f := now]> g end.

(** [queue_garbage]: insert the unreferenced ones, keeping rows that exist. *)
Definition queue_one (now : Z) (d : db) (g : gmap Z Z) (f : Z) : gmap Z Z :=
  if (f =? 0) || referenced d f then g else insert_garbage now g f.

Definition queue_garbage (now : Z) (ids : list Z) (d : db) : db :=
  set_garbage d (fold_left (queue_one now d) ids (db_garbage d)).

(** ** Publication *)

Record publish := mkPublish {
  p_key : string;
  p_file_id : option Z;
  p_data : option bytes;
  p_size : Z;
  p_sha256 : bytes;
  p_etag : string;
  p_meta : list string;
  p_ct : string;
  p_cond : string;
  p_if_match : option string;
  p_expires_at : option Z;
  p_keep_ttl : bool;
  p_origin_etag : option string;
  p_expected_origin : option string;
  p_skip_lock : bool;
  p_s3_meta : s3meta
}.

Inductive outcome := ok | stale | precondition.

Definition not_expired (now : Z) (expires : option Z) : bool :=
  match expires with None => true | Some t => now <? t end.

Definition lease_held (now : Z) (d : db) (l : FillLease) : bool :=
  match db_leases d !! fl_Key l with
  | Some (owner, until) => bool_decide (owner = fl_Owner l) && (now <? until)
  | None => false
  end.

(** [NULLIF(x, '')] *)
Definition nullif (s : string) : option string := if bool_decide (s = "") then None else Some s.

(** The columns of the inserted row, but for the ones an update keeps. *)
Definition new_attrs (now : Z) (p : publish) : attrs :=
  let m := p_s3_meta p in
  mkAttrs (p_size p) (p_sha256 p) (p_etag p) (p_meta p) (p_ct p)
    (default "" (sm_content_encoding m)) (sm_origin_modified m)
    (sm_checksum m ≫= fun c => nullif c.1.1) (sm_checksum m ≫= fun c => nullif c.1.2) (sm_checksum m ≫= fun c => nullif c.2)
    now (p_expires_at p) (p_origin_etag p).

Definition with_expires (a : attrs) (e : option Z) : attrs :=
  mkAttrs (at_size a) (at_sha256 a) (at_etag a) (at_user_metadata a) (at_content_type a) (at_content_encoding a)
    (at_origin_modified a) (at_checksum_name a) (at_checksum_value a) (at_checksum_type a) (at_created_at a) e (at_origin_etag a).
Definition with_origin (a : attrs) (o : option string) : attrs :=
  mkAttrs (at_size a) (at_sha256 a) (at_etag a) (at_user_metadata a) (at_content_type a) (at_content_encoding a)
    (at_origin_modified a) (at_checksum_name a) (at_checksum_value a) (at_checksum_type a) (at_created_at a) (at_expires_at a) o.

(** [UPDATE objects SET ... WHERE key = ...] on columns that do not say where
    the content is. *)
Definition with_attrs (o : object) (a : attrs) : object :=
  mkObject a (ob_file_id o) (ob_parts o) (ob_part_ends o) (ob_inline_data o).
Definition alter_attrs (f : attrs -> attrs) (key : string) (d : db) : db :=
  set_objects d (alter (fun o => with_attrs o (f (ob_attrs o))) key (db_objects d)).

(** The attributes after [ON CONFLICT (key) DO UPDATE]. *)
Definition upsert_attrs (now : Z) (keep_ttl : bool) (old : option attrs) (a : attrs) : attrs :=
  match old with
  | Some o => if keep_ttl && not_expired now (at_expires_at o) then with_expires a (at_expires_at o) else a
  | None => a
  end.

(** The conditions of [publish_value] on the attributes of the old row, before
    the row is written. *)
Definition publish_check (now : Z) (p : publish) (old : option attrs) : outcome :=
  let read := bool_decide (p_cond p <> "none") || bool_decide (is_Some (p_expected_origin p)) in
  let old := if read then old else None in
  let live_old := match old with Some a => not_expired now (at_expires_at a) | None => false end in
  if bool_decide (p_cond p = "if_absent") && live_old then precondition
  else if bool_decide (p_cond p = "if_present") && negb live_old then precondition
  else if bool_decide (p_cond p = "if_match") &&
          (negb live_old ||
           match old, p_if_match p with
           | Some a, Some e => bool_decide (at_etag a <> e)
           | _, _ => false
           end)
  then precondition
  else match p_expected_origin p, old with
       | Some e, Some a => if bool_decide (at_origin_etag a <> Some e) then stale else ok
       | _, _ => ok
       end.

(** Whether the row is written: [WHERE p_expected_origin IS NULL OR
    objects.origin_etag IS NOT DISTINCT FROM p_expected_origin]. *)
Definition upsert_applies (p : publish) (old : option attrs) : bool :=
  match old, p_expected_origin p with
  | Some a, Some e => bool_decide (at_origin_etag a = Some e)
  | _, _ => true
  end.

Definition drop_checksums (keys : list string) (m : gmap (string * Z) part_check) : gmap (string * Z) part_check :=
  filter (fun kv => kv.1.1 ∉ keys) m.

(** Insert or update the row of a key; the constraint is checked on it. *)
Definition write_object_row (k : Kind) (key : string) (o : object) : tx unit :=
  require (object_shape k key o) Violation;; update (fun d => set_objects d (<[key := o]> (db_objects d))).

Definition old_files (o : option object) : list Z :=
  match o with
  | Some o => match ob_file_id o with Some f => default [] (ob_parts o) ++ [f] | None => [] end
  | None => []
  end.

Definition publish_value (k : Kind) (now : Z) (p : publish) : tx outcome :=
  d ← tables;
  if match sm_fill (p_s3_meta p) with Some l => negb (lease_held now d l) | None => false end then mret stale
  else
    let old := db_objects d !! p_key p in
    match publish_check now p (ob_attrs <$> old) with
    | ok =>
        if upsert_applies p (ob_attrs <$> old) then
          write_object_row k (p_key p)
            (mkObject (upsert_attrs now (p_keep_ttl p) (ob_attrs <$> old) (new_attrs now p)) (p_file_id p) None None (p_data p));;
          update (fun d => set_checksums d (drop_checksums [p_key p] (db_checksums d)));;
          update (fun d => set_origin d (delete (p_key p) (db_origin_metadata d)));;
          update (queue_garbage now (old_files old));;
          mret ok
        else mret stale
    | r => mret r
    end.

Definition publish_object (k : Kind) (now : Z) (p : publish) : tx outcome :=
  publish_value k now (mkPublish (p_key p) (p_file_id p) None (p_size p) (p_sha256 p) (p_etag p) (p_meta p) (p_ct p) (p_cond p)
    (p_if_match p) (p_expires_at p) (p_keep_ttl p) (p_origin_etag p) (p_expected_origin p) (p_skip_lock p) (p_s3_meta p)).

Definition put_inline (k : Kind) (now : Z) (p : publish) (data : bytes) : tx outcome :=
  require (negb ((InlineMax k <? p_size p) || (p_size p <? zlen data))) InlineExceeds;;
  publish_value k now (mkPublish (p_key p) None (Some data) (p_size p) (p_sha256 p) (p_etag p) (p_meta p) (p_ct p) (p_cond p)
    (p_if_match p) (p_expires_at p) (p_keep_ttl p) (p_origin_etag p) (p_expected_origin p) (p_skip_lock p) (p_s3_meta p)).

(** ** Multipart parts *)

(** Insert the chunk rows of a file; the primary key and the shape are checked. *)
Definition insert_chunks (rows : list chunk_row) : tx unit :=
  d ← tables;
  require (forallb chunk_shape rows) Violation;;
  require (bool_decide (NoDup ((fun r => (cr_file r, cr_no r)) <$> (db_chunks d ++ rows)))) Violation;;
  update (fun d => set_chunks d (db_chunks d ++ rows)).

Definition commit_part (now : Z) (p_upload : string) (p_no : Z) (p : upload_part) : tx unit :=
  d ← tables;
  let old := db_parts d !! (p_upload, p_no) in
  update (fun d => set_parts d (delete (p_upload, p_no) (db_parts d)));;
  update (queue_garbage now (option_list (pt_file_id <$> old)));;
  require (part_shape p_no p) Violation;;
  require (bool_decide (is_Some (db_uploads d !! p_upload))) Violation;;
  update (fun d => set_parts d (<[(p_upload, p_no) := p]> (db_parts d))).

(** ** Deletion and expiry *)

(** Delete rows of [objects]; the checksums go with them. *)
Definition delete_objects (keys : list string) (d : db) : db :=
  set_checksums (set_objects d (filter (fun kv => kv.1 ∉ keys) (db_objects d)))
    (drop_checksums keys (db_checksums d)).

Definition files_of_keys (keys : list string) (d : db) : list Z :=
  concat ((fun key => from_option object_files [] (db_objects d !! key)) <$> keys).

(** Delete a row of [uploads]; its parts go with it. *)
Definition delete_upload (id : string) (d : db) : db :=
  set_parts (set_uploads d (delete id (db_uploads d))) (filter (fun kv => kv.1.1 <> id) (db_parts d)).

Definition upload_files (id : string) (d : db) : list Z :=
  pt_file_id <$> (map_to_list (filter (fun kv => kv.1.1 = id) (db_parts d))).*2.

Definition expires_key (kv : string * attrs) : Z := default 0 (at_expires_at kv.2).
Definition before_expiry (x y : string * attrs) : Prop := expires_key x <= expires_key y.
#[global] Instance before_expiry_dec x y : Decision (before_expiry x y).
Proof. unfold before_expiry. apply _. Defined.

Definition expired (now : Z) (a : attrs) : bool := negb (not_expired now (at_expires_at a)).

(** The keys [expire_objects] removes; [locked] are the rows other
    transactions hold. *)
Definition expired_keys (now p_max : Z) (locked : string -> bool) (view : gmap string attrs) : list string :=
  take (Z.to_nat p_max)
    (List.filter (fun k => negb (locked k))
      (merge_sort before_expiry (List.filter (fun kv => expired now kv.2) (map_to_list view))).*1).

Definition object_view (d : db) : gmap string attrs := ob_attrs <$> db_objects d.

Definition earlier (x y : string * origin_entry) : Prop := om_expires_at x.2 <= om_expires_at y.2.
#[global] Instance earlier_dec x y : Decision (earlier x y).
Proof. unfold earlier. apply _. Defined.

Definition stale_origins (now p_max : Z) (m : gmap string origin_entry) : list string :=
  take (Z.to_nat p_max) (merge_sort earlier (List.filter (fun kv => om_expires_at kv.2 <=? now) (map_to_list m))).*1.

Definition expire_objects (now p_max : Z) (locked : string -> bool) : tx Z :=
  d ← tables;
  let stale_meta := stale_origins now p_max (db_origin_metadata d) in
  update (fun d => set_origin d (filter (fun kv => kv.1 ∉ stale_meta) (db_origin_metadata d)));;
  let victims := expired_keys now p_max locked (object_view d) in
  let dead := files_of_keys victims d in
  update (delete_objects victims);;
  update (queue_garbage now dead);;
  mret (zlen victims + zlen stale_meta).

(** The oldest upload past the grace period that no transaction holds. *)
Definition older (x y : string * upload) : Prop :=
  up_created_at x.2 < up_created_at y.2 \/ (up_created_at x.2 = up_created_at y.2 /\ String.leb x.1 y.1 = true).
#[global] Instance older_dec x y : Decision (older x y).
Proof. unfold older. apply _. Defined.

Definition victim_upload (now grace : Z) (locked : string -> bool) (ups : gmap string upload) : option string :=
  head (List.filter (fun i => negb (locked i))
    (merge_sort older (List.filter (fun kv => up_created_at kv.2 <? now - grace) (map_to_list ups))).*1).

(** The parts of an expired upload are queued whether referenced or not. *)
Definition queue_all (now : Z) (ids : list Z) (d : db) : db :=
  set_garbage d (fold_left (insert_garbage now) ids (db_garbage d)).

Fixpoint expire_upload_loop (n : nat) (now grace : Z) (locked : string -> bool) (removed : Z) (d : db) : Z * db :=
  match n with
  | O => (removed, d)
  | S n' =>
      match victim_upload now grace locked (db_uploads d) with
      | None => (removed, d)
      | Some id =>
          let d := queue_all now (upload_files id d) d in
          expire_upload_loop n' now grace locked (removed + 1) (delete_upload id d)
      end
  end.

Definition expire_uploads (now grace p_max_uploads : Z) (locked : string -> bool) : tx Z :=
  fun d => Ok (expire_upload_loop (Z.to_nat p_max_uploads) now grace locked 0 d).
