(* ===== verification/Objects.v ===== *)
(** * Operations on objects and uploads

    Models the operations of [internal/store/write.go], [object.go] and
    [store.go] that change the tables of a namespace: inline and streamed
    writes, multipart uploads, copies, deletion, eviction and the reaper.  Each
    is one transaction over the tables of [Tables.v]; its Go part decides what
    is written, its SQL part is the statements.

    SHA-256, MD5 and zstd are parameters. *)

From stdpp Require Import gmap sorting.
From S2P Require Import Prelude GoStrings Ns Ranges Precond Blocks Tables.

(** ** Encodings *)

Definition hex_digit_of (d : Z) : ascii := chr (if d <? 10 then 48 + d else 87 + d).

(** [hex.EncodeToString] *)
Fixpoint hexEncode (b : bytes) : string :=
  match b with
  | [] => EmptyString
  | c :: b' => String (hex_digit_of (Z.shiftr (code c) 4)) (String (hex_digit_of (Z.land (code c) 15)) (hexEncode b'))
  end.

Definition hex_digit_val (c : ascii) : option Z :=
  let z := code c in
  if (48 <=? z) && (z <=? 57) then Some (z - 48)
  else if (97 <=? z) && (z <=? 102) then Some (z - 87)
  else if (65 <=? z) && (z <=? 70) then Some (z - 55)
  else None.

(** [hex.DecodeString] *)
Fixpoint hexDecode (s : string) : option bytes :=
  match s with
  | EmptyString => Some []
  | String a (String b s') =>
      x ← hex_digit_val a; y ← hex_digit_val b; r ← hexDecode s'; Some (chr (16 * x + y) :: r)
  | _ => None
  end.

Definition base64_chars : string := "ABCDEFGHIJKLMNOPQRSTUVWXYZabcdefghijklmnopqrstuvwxyz0123456789+/".
Definition base64_char (d : Z) : ascii := default "A"%char (String.get (Z.to_nat d) base64_chars).

(** [base64.StdEncoding.EncodeToString] *)
Fixpoint base64_encode (b : bytes) : string :=
  match b with
  | [] => EmptyString
  | x :: y :: z :: b' =>
      let v := code x * 65536 + code y * 256 + code z in
      String (base64_char (v / 262144)) (String (base64_char (v / 4096 mod 64))
        (String (base64_char (v / 64 mod 64)) (String (base64_char (v mod 64)) (base64_encode b'))))
  | [x; y] =>
      let v := code x * 65536 + code y * 256 in
      String (base64_char (v / 262144)) (String (base64_char (v / 4096 mod 64)) (String (base64_char (v / 64 mod 64)) "="))
  | [x] =>
      let v := code x * 65536 in
      String (base64_char (v / 262144)) (String (base64_char (v / 4096 mod 64)) "==")
  end.

(** The digests of the standard library. *)
Class Digests := {
  sha256 : bytes -> bytes;
  md5 : bytes -> bytes
}.

Class DigestLaws (D : Digests) : Prop := {
  sha256_length : forall b, zlen (sha256 b) = 32;
  md5_length : forall b, zlen (md5 b) = 16
}.

Definition octet_stream : string := "application/octet-stream".

Definition content_type_or (ct : string) : string := if bool_decide (ct = "") then octet_stream else ct.

Definition write_failed (_ : write_error) : store_error := InvalidPublication.

(** [expected] of a publication as an SQL parameter. *)
Definition expected_param (o : WriteOptions) : option string :=
  if bool_decide (pb_expected (wo_Publication o) <> "") then Some (pb_expected (wo_Publication o)) else None.

(** What a publication writes, for the given content columns. *)
Definition publish_of (o : WriteOptions) (key : string) (file : option Z) (size : Z) (sha : bytes) (etag : string)
    (meta : list string) (ct : string) : publish :=
  let cond := Precondition_SQL (wo_Precondition o) in
  mkPublish key file None size sha etag meta ct (fst cond) (snd cond) (wo_ExpiresAt o) (wo_KeepTTL o)
    (Some (pb_origin (wo_Publication o))) (expected_param o) (skipLock o) (s3MetaJSON o).

Definition outcome_error {S} (r : outcome) : txn S unit :=
  match r with
  | ok => mret tt
  | stale => throw ErrStaleCache
  | precondition => throw ErrPreconditionFailed
  end.

Record Published := mkPublished {
  ps_FileID : Z;
  ps_Size : Z;
  ps_ETag : string;
  ps_SHA256 : bytes;
  ps_MD5 : bytes;
  ps_Checksum : option Checksum
}.

Definition FirstObjectChecksum (checks : list Checksum) : option Checksum :=
  find (fun c => bool_decide (cs_Name c <> "content-md5")) checks.

Definition with_checksum (o : WriteOptions) (c : Checksum) : WriteOptions :=
  mkWriteOptions (wo_Precondition o) (wo_UserMetadata o) (wo_ContentType o) (wo_ContentEncoding o) (wo_OriginModified o)
    (Some c) (if bool_decide (wo_ChecksumType o = "") then "FULL_OBJECT" else wo_ChecksumType o)
    (wo_ExpiresAt o) (wo_KeepTTL o) (wo_Publication o) (wo_lock o) (wo_ExpectedSize o).

Definition with_defaults (o : WriteOptions) : WriteOptions :=
  mkWriteOptions (wo_Precondition o) (Some (default [] (wo_UserMetadata o))) (content_type_or (wo_ContentType o))
    (wo_ContentEncoding o) (wo_OriginModified o) (wo_Checksum o) (wo_ChecksumType o) (wo_ExpiresAt o) (wo_KeepTTL o)
    (wo_Publication o) (wo_lock o) (wo_ExpectedSize o).

(** [verifyUpload] for an object: the options to publish with. *)
Definition verify_object (o : WriteOptions) (checksums : list Checksum) (size : Z) : result store_error WriteOptions :=
  if (0 <? wo_ExpectedSize o) && negb (size =? wo_ExpectedSize o) then Err WrongSize
  else match wo_Checksum o with
       | Some _ => Ok o
       | None => match FirstObjectChecksum checksums with Some c => Ok (with_checksum o c) | None => Ok o end
       end.

Definition lookupPartChecksum (algorithm : string) (checksums : list Checksum) : result store_error (option Checksum) :=
  if bool_decide (algorithm = "") then Ok None
  else match find (fun c => bool_decide (cs_Name c = "x-amz-checksum-" +:+ ToLower algorithm)) checksums with
       | Some c => Ok (Some c)
       | None => Err ErrMissingChecksum
       end.

(** [verifyUpload] for a part. *)
Definition verify_part (expectedSize : Z) (algorithm : string) (checksums : list Checksum) (size : Z)
    : result store_error (option Checksum) :=
  if (0 <? expectedSize) && negb (size =? expectedSize) then Err WrongSize else lookupPartChecksum algorithm checksums.

(** ** Multipart planning

    The plan is generic in what identifies a stored part: the file of the part
    in the program, its content in the specification. *)

Record ListedPart := mkListedPart { lp_PartNo : Z; lp_ETag : string; lp_Checksum : option Checksum }.

Record storedPart (F : Type) := mkStored {
  sd_no : Z;
  sd_fileID : F;
  sd_size : Z;
  sd_sha : bytes;
  sd_md5 : bytes;
  sd_checksum : option string
}.
Arguments mkStored {F}. Arguments sd_no {F}. Arguments sd_fileID {F}. Arguments sd_size {F}.
Arguments sd_sha {F}. Arguments sd_md5 {F}. Arguments sd_checksum {F}.

Record multipartPlan (F : Type) := mkPlan {
  pl_fileIDs : list F;
  pl_partEnds : list Z;
  pl_unused : list F;
  pl_size : Z;
  pl_shaAll : bytes;
  pl_md5All : bytes;
  pl_checksums : list (Z * F * string)
}.
Arguments mkPlan {F}. Arguments pl_fileIDs {F}. Arguments pl_partEnds {F}. Arguments pl_unused {F}. Arguments pl_size {F}.
Arguments pl_shaAll {F}. Arguments pl_md5All {F}. Arguments pl_checksums {F}.

Fixpoint listed_ok (prev : option Z) (listed : list ListedPart) : bool :=
  match listed with
  | [] => true
  | p :: rest =>
      negb ((lp_PartNo p <? 1) || (10000 <? lp_PartNo p) || match prev with Some n => lp_PartNo p <=? n | None => false end) &&
      listed_ok (Some (lp_PartNo p)) rest
  end.

Definition validateListedParts (listed : list ListedPart) : result store_error unit :=
  match listed with
  | [] => Err ErrInvalidPart
  | _ => if listed_ok None listed then Ok tt else Err ErrInvalidPart
  end.

Definition partChecksumOK (algorithm : option string) (listed : ListedPart) (stored : option string) : bool :=
  match algorithm, lp_Checksum listed with
  | None, None => true
  | Some alg, Some c => bool_decide (alg = cs_Name c) && bool_decide (stored = Some (cs_Value c))
  | _, _ => false
  end.

Definition s3ETag (md5sum : bytes) (parts : Z) : string :=
  if 0 <? parts then hexEncode md5sum +:+ String "-" (FormatInt parts) else hexEncode md5sum.

Section Plan.
Context {F : Type}.

Definition skip_part (pl : multipartPlan F) (p : storedPart F) : multipartPlan F :=
  mkPlan (pl_fileIDs pl) (pl_partEnds pl) (pl_unused pl ++ [sd_fileID p]) (pl_size pl) (pl_shaAll pl) (pl_md5All pl) (pl_checksums pl).

Definition take_part (algorithm : option string) (pl : multipartPlan F) (p : storedPart F) : multipartPlan F :=
  let size := wrap64 (pl_size pl + sd_size p) in
  mkPlan (pl_fileIDs pl ++ [sd_fileID p]) (pl_partEnds pl ++ [size]) (pl_unused pl) size
    (pl_shaAll pl ++ sd_sha p) (pl_md5All pl ++ sd_md5 p)
    (pl_checksums pl ++
     match algorithm, sd_checksum p with Some _, Some v => [(sd_no p, sd_fileID p, v)] | _, _ => [] end).

(** The loop over the stored parts; [listed] are the parts from [want] on. *)
Fixpoint plan_loop (algorithm : option string) (listed : list ListedPart) (stored : list (storedPart F)) (pl : multipartPlan F)
    : result store_error (multipartPlan F) :=
  match stored with
  | [] => match listed with [] => Ok pl | _ => Err ErrInvalidPart end
  | p :: rest =>
      match listed with
      | lp :: listed' =>
          if lp_PartNo lp =? sd_no p then
            if bool_decide (lp_ETag lp <> hexEncode (sd_md5 p)) || negb (partChecksumOK algorithm lp (sd_checksum p))
            then Err ErrInvalidPart
            else plan_loop algorithm listed' rest (take_part algorithm pl p)
          else plan_loop algorithm listed rest (skip_part pl p)
      | [] => plan_loop algorithm listed rest (skip_part pl p)
      end
  end.

Definition empty_plan : multipartPlan F := mkPlan [] [] [] 0 [] [] [].

Definition planMultipart (algorithm : option string) (listed : list ListedPart) (stored : list (storedPart F))
    : result store_error (multipartPlan F) := plan_loop algorithm listed stored empty_plan.

End Plan.

(** ** Parameters of the operations *)

Record pendingUpload := mkPendingUpload {
  pe_token : string;
  pe_baseETag : string;
  pe_baseMissing : bool;
  pe_leaseOwner : string
}.

Definition no_pending_upload : pendingUpload := mkPendingUpload "" "" false "".

Record PendingCompletion := mkPendingCompletion {
  pc_BaseETag : string;
  pc_BaseMissing : bool;
  pc_LeaseOwner : string
}.

Record UploadOptions := mkUploadOptions {
  uo_UserMetadata : option (list string);
  uo_ContentType : string;
  uo_ContentEncoding : string;
  uo_ChecksumAlgorithm : option string
}.

Record Completed := mkCompleted { cm_Key : string; cm_ETag : string; cm_Size : Z; cm_ContentType : string }.

Record CopyOptions := mkCopyOptions {
  co_ReplaceMetadata : bool;
  co_UserMetadata : list string;
  co_ContentType : string;
  co_ContentEncoding : string;
  co_OriginModified : option Z;
  co_Source : ReadCondition;
  co_Dest : Precondition
}.

Record copyFields := mkCopyFields {
  cf_userMeta : list string;
  cf_contentType : string;
  cf_contentEncoding : string;
  cf_originModified : option Z;
  cf_checksumName : option string;
  cf_checksumValue : option string;
  cf_checksumType : option string
}.

(** [COALESCE(x, '')] and back: a null column and an empty one are the same to
    [copyFieldsFor]. *)
Definition copyFieldsFor (src : attrs) (opts : CopyOptions) : copyFields :=
  let '(n, v, t) :=
    if bool_decide (default "" (at_checksum_name src) <> "")
    then (Some (default "" (at_checksum_name src)), Some (default "" (at_checksum_value src)), Some (default "" (at_checksum_type src)))
    else (None, None, None) in
  if co_ReplaceMetadata opts
  then mkCopyFields (co_UserMetadata opts) (co_ContentType opts) (co_ContentEncoding opts) (co_OriginModified opts) None None None
  else mkCopyFields (at_user_metadata src) (at_content_type src) (at_content_encoding src) (co_OriginModified opts) n v t.

(** The row a copy writes; an update keeps the expiry and the origin version. *)
Definition copied_attrs (now : Z) (src : attrs) (f : copyFields) (old : option attrs) : attrs :=
  mkAttrs (at_size src) (at_sha256 src) (at_etag src) (cf_userMeta f) (cf_contentType f) (cf_contentEncoding f)
    (cf_originModified f) (cf_checksumName f) (cf_checksumValue f) (cf_checksumType f) now
    (old ≫= at_expires_at) (old ≫= at_origin_etag).

(** The row a multipart completion writes. *)
Definition swapped_attrs (now : Z) (opts : WriteOptions) (size : Z) (sha : bytes) (etag : string) (meta : list string)
    (ct : string) (old : option attrs) : attrs :=
  mkAttrs size sha etag meta ct (wo_ContentEncoding opts) (wo_OriginModified opts)
    (cs_Name <$> wo_Checksum opts) (cs_Value <$> wo_Checksum opts)
    (match wo_Checksum opts with Some _ => Some (wo_ChecksumType opts) | None => None end)
    now (wo_ExpiresAt opts) (old ≫= at_origin_etag).

Definition live_etag (now : Z) (old : option attrs) : bool * string :=
  match old with
  | Some a => (not_expired now (at_expires_at a), at_etag a)
  | None => (false, "")
  end.

Definition allows (now : Z) (p : Precondition) (old : option attrs) : bool :=
  let '(live, etag) := live_etag now old in Precondition_Allows p live etag.

Definition with_encoding (o : WriteOptions) (enc : string) : WriteOptions :=
  mkWriteOptions (wo_Precondition o) (wo_UserMetadata o) (wo_ContentType o) enc (wo_OriginModified o) (wo_Checksum o)
    (wo_ChecksumType o) (wo_ExpiresAt o) (wo_KeepTTL o) (wo_Publication o) (wo_lock o) (wo_ExpectedSize o).

Definition etagMD5 (etag : string) : option bytes :=
  let etag := match Cut etag "-"%char with Some (a, _) => a | None => etag end in
  match hexDecode etag with
  | Some b => if zlen b =? 16 then Some b else None
  | None => None
  end.

Definition five_minutes : Z := 300000000.
Definition reapCandidates : Z := 32.

(** [ORDER BY part_no] over the rows of one upload. *)
Definition by_number {A} (x y : Z * A) : Prop := x.1 <= y.1.
#[global] Instance by_number_dec {A} (x y : Z * A) : Decision (by_number x y).
Proof. unfold by_number. apply _. Defined.

Definition sorted_parts {A} (id : string) (m : gmap (string * Z) A) : list (Z * A) :=
  merge_sort by_number ((fun kv : string * Z * A => (kv.1.2, kv.2)) <$> map_to_list (filter (fun kv => kv.1.1 = id) m)).

(** ** Operations *)

Section Operations.
Context `{Zstd, Digests} (k : Kind) (s : Z) (over_quota : Z -> bool) (now : Z).

(** *** Metadata *)

Inductive metadataBody := metadataHeader | metadataStored | metadataDecoded.

(** [scanMetadata] on a row, selected with [metadataColumns]; [oid] is the
    identifier of the table. *)
Definition scanMetadata (body : metadataBody) (oid : Z) (o : object) : result block_error Meta :=
  let a := ob_attrs o in
  let info := mkInfo (at_size a) (at_etag a) (default "" (at_origin_etag a)) (at_content_type a) (at_content_encoding a)
    (default "" (at_checksum_name a)) (default "" (at_checksum_value a)) (default "" (at_checksum_type a))
    (at_user_metadata a) (at_created_at a) (at_origin_modified a) in
  let meta inl := mkMeta info (at_sha256 a) (at_expires_at a) (default 0 (ob_file_id o)) (ob_parts o) (ob_part_ends o) inl oid in
  match body, ob_inline_data o with
  | metadataHeader, _ | _, None => Ok (meta None)
  | metadataStored, Some d => Ok (meta (Some d))
  | metadataDecoded, Some d => let* b := decompressBlock d (at_size a) in Ok (meta (Some b))
  end.

(** [queryMetadata]: [None] is [ErrNotFound]. *)
Definition queryMetadata (key : string) (body : metadataBody) (oid : Z) (d : db) : option (result block_error Meta) :=
  match db_objects d !! key with
  | Some o => if not_expired now (at_expires_at (ob_attrs o)) then Some (scanMetadata body oid o) else None
  | None => None
  end.

(** *** Writes *)

Definition PutInline (ref : ObjectRef) (data : bytes) (opts : WriteOptions) : tx Meta :=
  opts ← from_result write_failed (prepareWrite s ref opts true);
  let ct := content_type_or (wo_ContentType opts) in
  require (zlen data <=? InlineMax k) ErrInlineTooLarge;;
  require (negb (over_quota (zlen data))) ErrQuotaExceeded;;
  let etag := hexEncode (md5 data) in
  let meta := default [] (wo_UserMetadata opts) in
  let origin := pb_origin (wo_Publication opts) in
  r ← put_inline k now (publish_of opts (or_key ref) None (zlen data) (sha256 data) etag meta ct) (compressBlock data);
  outcome_error r;;
  mret (mkMeta (mkInfo (zlen data) etag origin ct (wo_ContentEncoding opts) "" "" "" meta now (wo_OriginModified opts))
    (sha256 data) (wo_ExpiresAt opts) 0 None None (Some data) 0).

(** [copyRows] with the framer in front of it: the rows the server stores. *)
Definition copyRows (fid : Z) (srcs : list bytes) : tx rowFramer :=
  fs ← from_result (fun _ => RowCount) (ingest fid srcs);
  match parse_copy (snd fs) with
  | Some rows => insert_chunks rows;; mret (fst fs)
  | None => throw Violation
  end.

Definition publishObject (ref : ObjectRef) (o : WriteOptions) (pub : Published) : tx unit :=
  from_result write_failed (validateLock o ref);;
  r ← publish_object k now (publish_of o (or_key ref) (Some (ps_FileID pub)) (ps_Size pub) (ps_SHA256 pub) (ps_ETag pub)
        (default [] (wo_UserMetadata o)) (wo_ContentType o));
  outcome_error r.

Definition publishPendingOrigin (key : string) (o : WriteOptions) (size : Z) : tx unit :=
  match pb_kind (wo_Publication o) with
  | publicationPending =>
      let po := pb_pending (wo_Publication o) in
      update (fun d => set_pendings d
        (<[key := mkPending (po_Token po) size 0 false now now (nullif (po_BaseETag po)) (po_BaseMissing po) None None None]> (db_pending d)))
  | _ => mret tt
  end.

Definition published (f : rowFramer) (c : option Checksum) : Published :=
  let '(size, sha, m) := digests sha256 md5 f in
  mkPublished (rf_fileID f) size (hexEncode m) sha m c.

(** [StartObject], the writes of [srcs] and [Finish]. *)
Definition WriteObject (fid : Z) (ref : ObjectRef) (srcs : list bytes) (checksums : list Checksum) (opts : WriteOptions)
    : tx Published :=
  opts ← from_result write_failed (prepareWrite s ref opts false);
  let opts := with_defaults opts in
  require (negb (over_quota (Z.max (wo_ExpectedSize opts) 0))) ErrQuotaExceeded;;
  f ← copyRows fid srcs;
  opts ← from_result (fun e => e) (verify_object opts checksums (rf_size f));
  let pub := published f None in
  publishObject ref opts pub;;
  publishPendingOrigin (or_key ref) opts (ps_Size pub);;
  mret pub.

(** *** Multipart uploads *)

Definition CreateUpload (id key : string) (opts : UploadOptions) : tx string :=
  d ← tables;
  let u := mkUploadRow key (uo_ChecksumAlgorithm opts) (default [] (uo_UserMetadata opts)) (uo_ContentType opts)
             (uo_ContentEncoding opts) now in
  require (bool_decide (db_uploads d !! id = None)) Violation;;
  require (upload_shape u) Violation;;
  update (fun d => set_uploads d (<[id := u]> (db_uploads d)));;
  mret id.

Definition find_upload (id key : string) : tx upload :=
  d ← tables;
  match db_uploads d !! id with
  | Some u => require (bool_decide (up_key u = key)) ErrNoUpload;; mret u
  | None => throw ErrNoUpload
  end.

Definition part_row (pub : Published) : upload_part :=
  mkPart (ps_FileID pub) (ps_Size pub) (ps_SHA256 pub) (ps_MD5 pub) (cs_Value <$> ps_Checksum pub).

(** [StartPart], the writes of [srcs] and [Finish]. *)
Definition WritePart (fid : Z) (id key : string) (no : Z) (srcs : list bytes) (checksums : list Checksum) (expectedSize : Z)
    : tx Published :=
  require (negb (over_quota (Z.max expectedSize 0))) ErrQuotaExceeded;;
  u ← find_upload id key;
  f ← copyRows fid srcs;
  c ← from_result (fun e => e) (verify_part expectedSize (default "" (up_checksum_algorithm u)) checksums (rf_size f));
  let pub := published f c in
  commit_part now id no (part_row pub);;
  mret pub.

(** [loadUploadParts] *)
Definition stored_part (x : Z * upload_part) : storedPart Z :=
  mkStored x.1 (pt_file_id x.2) (pt_size x.2) (pt_sha256 x.2) (pt_md5 x.2) (pt_checksum x.2).

Definition loadUploadParts (id : string) (d : db) : list (storedPart Z) := stored_part <$> sorted_parts id (db_parts d).

Definition lock_usable (opts : WriteOptions) (ref : ObjectRef) : bool :=
  match wo_lock opts with
  | Some l =>
      match ObjectRef_Schema (lo_ref l), ObjectRef_Schema ref with
      | Ok a, Ok b => bool_decide (a = b)
      | _, _ => false
      end && bool_decide (or_key (lo_ref l) = or_key ref) && negb (lo_released l)
  | None => true
  end.

Definition queueFiles (fileID : Z) (parts : list Z) : tx unit :=
  update (queue_garbage now (parts ++ if fileID =? 0 then [] else [fileID])).

Definition swapObjectParts (ref : ObjectRef) (opts : WriteOptions) (pl : multipartPlan Z) (fileID : Z) (etag : string)
    (meta : list string) (ct : string) : tx unit :=
  require (lock_usable opts ref) InvalidPublication;;
  d ← tables;
  let old := db_objects d !! or_key ref in
  require (allows now (wo_Precondition opts) (ob_attrs <$> old)) ErrPreconditionFailed;;
  update (fun d => set_checksums d (drop_checksums [or_key ref] (db_checksums d)));;
  write_object_row k (or_key ref)
    (mkObject (swapped_attrs now opts (pl_size pl) (sha256 (pl_shaAll pl)) etag meta ct (ob_attrs <$> old))
       (Some fileID) (Some (pl_fileIDs pl)) (Some (pl_partEnds pl)) None);;
  match old with
  | Some o => match ob_file_id o with Some f => queueFiles f (default [] (ob_parts o)) | None => mret tt end
  | None => mret tt
  end.

Definition set_origin_etag (key token : string) (d : db) : db := alter_attrs (fun a => with_origin a (Some token)) key d.

Definition record_pending (key : string) (p : pendingUpload) (size : Z) (d : db) : db :=
  set_pendings d (<[key := mkPending (pe_token p) size 0 false now now (Some (pe_baseETag p)) (pe_baseMissing p)
    (nullif (pe_leaseOwner p)) (if bool_decide (pe_leaseOwner p = "") then None else Some (now + five_minutes)) None]> (db_pending d)).

Definition storePartChecksums (key : string) (algorithm : option string) (checks : list (Z * Z * string)) (d : db) : db :=
  match algorithm with
  | Some alg =>
      set_checksums d (fold_left (fun m '(no, f, v) => <[(key, no) := mkPartCheck f alg v]> m) checks (db_checksums d))
  | None => d
  end.

Definition applyMultipartPlan (ref : ObjectRef) (id : string) (u : upload) (pl : multipartPlan Z) (etag : string)
    (opts : WriteOptions) (pending : pendingUpload) : tx unit :=
  let opts := if bool_decide (wo_ContentEncoding opts = "") then with_encoding opts (up_content_encoding u) else opts in
  match pl_fileIDs pl with
  | [] => throw ErrInvalidPart
  | f :: _ =>
      swapObjectParts ref opts pl f etag (up_user_metadata u) (up_content_type u);;
      (if bool_decide (pe_token pending <> "") then
         update (set_origin_etag (or_key ref) (pe_token pending));; update (record_pending (or_key ref) pending (pl_size pl))
       else mret tt);;
      update (storePartChecksums (or_key ref) (up_checksum_algorithm u) (pl_checksums pl));;
      update (delete_upload id);;
      update (queue_garbage now (pl_unused pl))
  end.

Definition completeUploadRef (ref : ObjectRef) (id : string) (listed : list ListedPart) (opts : WriteOptions)
    (pending : pendingUpload) : tx Completed :=
  opts ← from_result write_failed (prepareWrite s ref opts false);
  u ← find_upload id (or_key ref);
  from_result (fun e => e) (validateListedParts listed);;
  d ← tables;
  pl ← from_result (fun e => e) (planMultipart (up_checksum_algorithm u) listed (loadUploadParts id d));
  let etag := s3ETag (md5 (pl_md5All pl)) (zlen (pl_fileIDs pl)) in
  require (negb (over_quota (pl_size pl))) ErrQuotaExceeded;;
  applyMultipartPlan ref id u pl etag opts pending;;
  mret (mkCompleted (up_key u) etag (pl_size pl) (up_content_type u)).

Definition CompleteUpload (ref : ObjectRef) (id : string) (listed : list ListedPart) (opts : WriteOptions) : tx Completed :=
  completeUploadRef ref id listed opts no_pending_upload.

Definition CompleteUploadPending (ref : ObjectRef) (id : string) (listed : list ListedPart) (opts : WriteOptions)
    (p : PendingCompletion) : tx Completed :=
  require (bool_decide (k = Cache) || bool_decide (k = WriteBack)) NotPendingKind;;
  completeUploadRef ref id listed opts
    (mkPendingUpload (CacheVersion_String (PendingCacheVersion id)) (pc_BaseETag p) (pc_BaseMissing p) (pc_LeaseOwner p)).

Definition AbortUpload (id key : string) : tx bool :=
  d ← tables;
  match db_uploads d !! id with
  | Some u =>
      if bool_decide (up_key u = key) then
        update (delete_upload id);; update (queue_garbage now (upload_files id d));; mret true
      else mret false
  | None => mret false
  end.

(** *** Deletion *)

Definition live_count (keys : list string) (view : gmap string attrs) : Z :=
  zlen (map_to_list (filter (fun kv => kv.1 ∈ keys /\ not_expired now (at_expires_at kv.2) = true) view)).

Definition DeleteMany (keys : list string) : tx Z :=
  match keys with
  | [] => mret 0
  | _ =>
      d ← tables;
      let dead := files_of_keys keys d in
      update (delete_objects keys);;
      update (queue_garbage now dead);;
      mret (live_count keys (object_view d))
  end.

(** [ORDER BY expires_at, created_at, key] *)
Definition evict_order (x y : string * attrs) : Prop :=
  expires_key x < expires_key y \/
  (expires_key x = expires_key y /\
   (at_created_at x.2 < at_created_at y.2 \/ (at_created_at x.2 = at_created_at y.2 /\ String.leb x.1 y.1 = true))).
#[global] Instance evict_order_dec x y : Decision (evict_order x y).
Proof. unfold evict_order. apply _. Defined.

Definition expiring (view : gmap string attrs) : list (string * attrs) :=
  List.filter (fun kv => bool_decide (is_Some (at_expires_at kv.2))) (map_to_list view).

Definition total_size (l : list (string * attrs)) : Z := fold_right (fun kv n => at_size kv.2 + n) 0 l.

(** The rows whose running total before them is below the excess. *)
Fixpoint doomed (prior excess : Z) (rows : list (string * attrs)) : list string :=
  match rows with
  | [] => []
  | (key, a) :: rest =>
      if prior <? excess then key :: doomed (prior + at_size a) excess rest
      else doomed (prior + at_size a) excess rest
  end.

Definition evicted_keys (maxBytes limit : Z) (locked : string -> bool) (view : gmap string attrs) : list string :=
  let used := total_size (expiring view) in
  if used <=? maxBytes then []
  else doomed 0 (used - maxBytes)
         (take (Z.to_nat limit) (List.filter (fun kv => negb (locked kv.1)) (merge_sort evict_order (expiring view)))).

Definition evictCacheOverBudget (maxBytes limit : Z) (locked : string -> bool) : tx Z :=
  d ← tables;
  let victims := evicted_keys maxBytes limit locked (object_view d) in
  let files := files_of_keys victims d in
  update (delete_objects victims);;
  update (queue_garbage now files);;
  mret (zlen victims).

(** *** Copies *)

(** A source that is not there is reported as a missing bucket. *)
Definition resolveCopySource (srcKey : string) (cond : ReadCondition) (d : db) : result store_error object :=
  match db_objects d !! srcKey with
  | Some o =>
      if negb (not_expired now (at_expires_at (ob_attrs o))) then Err ErrNoBucket
      else if ReadCondition_Allows cond true (at_etag (ob_attrs o)) then Ok o else Err ErrPreconditionFailed
  | None => Err ErrNoBucket
  end.

(** The files of the copy: the same ones within a bucket. *)
Record dest_files := mkDest {
  df_file : option Z;
  df_parts : option (list Z);
  df_idMap : gmap Z Z
}.

Definition same_files (src : object) : dest_files := mkDest (ob_file_id src) (ob_parts src) ∅.

(** [dupOne]; [ids] are the identifiers [nextFileID] returns. *)
Definition dupOne (srcdb : db) (oldID : Z) (st : gmap Z Z * list Z) : tx (Z * (gmap Z Z * list Z)) :=
  let '(idMap, ids) := st in
  match idMap !! oldID with
  | Some newID => mret (newID, st)
  | None =>
      match ids with
      | newID :: ids' =>
          insert_chunks ((fun r => mkRow newID (cr_no r) (cr_data r)) <$> filter (fun r => cr_file r = oldID) (db_chunks srcdb));;
          mret (newID, (<[oldID := newID]> idMap, ids'))
      | [] => throw NoFileID
      end
  end.

Fixpoint dup_parts (srcdb : db) (parts : list Z) (st : gmap Z Z * list Z) : tx (list Z * (gmap Z Z * list Z)) :=
  match parts with
  | [] => mret ([], st)
  | p :: rest =>
      x ← dupOne srcdb p st;
      y ← dup_parts srcdb rest (snd x);
      mret (fst x :: fst y, snd y)
  end.

Definition prepareDestFiles (srcdb : db) (src : object) (ids : list Z) : tx dest_files :=
  match ob_inline_data src, ob_file_id src with
  | None, Some f =>
      match ob_parts src with
      | Some (p :: ps) =>
          x ← dup_parts srcdb (p :: ps) (∅, ids);
          mret (mkDest (head (fst x)) (Some (fst x)) (fst (snd x)))
      | _ =>
          x ← dupOne srcdb f (∅, ids);
          mret (mkDest (Some (fst x)) None (fst (snd x)))
      end
  | _, _ => mret (same_files src)
  end.

Definition copy_checks_same (srcKey dstKey : string) (d : db) : db :=
  if bool_decide (srcKey = dstKey) then d
  else set_checksums d
    (list_to_map ((fun kv : string * Z * part_check => ((dstKey, kv.1.2), kv.2)) <$> map_to_list (filter (fun kv => kv.1.1 = srcKey) (db_checksums d)))
       ∪ db_checksums d).

Definition renumber (idMap : gmap Z Z) (c : part_check) : part_check :=
  mkPartCheck (default (pk_file_id c) (idMap !! pk_file_id c)) (pk_algorithm c) (pk_value c).

Definition copy_checks_cross (srcdb : db) (srcKey dstKey : string) (dest : dest_files) (d : db) : db :=
  if match df_parts dest with Some (_ :: _) => true | _ => false end
  then set_checksums d
    (list_to_map ((fun kv : string * Z * part_check => ((dstKey, kv.1.2), renumber (df_idMap dest) kv.2))
       <$> map_to_list (filter (fun kv => kv.1.1 = srcKey) (db_checksums srcdb))) ∪ db_checksums d)
  else d.

(** [readCopyDest], [replaceCopiedObject] and the queueing of the replaced
    files, with the copied files given by [files] and the part checksums by
    [checks]. *)
Definition publishCopy (src : object) (dstKey : string) (opts : CopyOptions) (files : tx dest_files) (checks : dest_files -> db -> db)
    : tx unit :=
  require (negb (over_quota (at_size (ob_attrs src)))) ErrQuotaExceeded;;
  d ← tables;
  let old := db_objects d !! dstKey in
  require (allows now (co_Dest opts) (ob_attrs <$> old)) ErrPreconditionFailed;;
  dest ← files;
  update (fun d => set_checksums d (drop_checksums [dstKey] (db_checksums d)));;
  write_object_row k dstKey
    (mkObject (copied_attrs now (ob_attrs src) (copyFieldsFor (ob_attrs src) opts) (ob_attrs <$> old))
       (df_file dest) (df_parts dest) (ob_part_ends src) (ob_inline_data src));;
  update (checks dest);;
  match old with
  | Some o => match ob_file_id o with Some f => queueFiles f (default [] (ob_parts o)) | None => mret tt end
  | None => mret tt
  end.

(** [Copy] within a bucket and from another bucket, whose tables are [srcdb]. *)
Definition CopyWithin (srcKey dstKey : string) (opts : CopyOptions) : tx unit :=
  d ← tables;
  src ← from_result (fun e => e) (resolveCopySource srcKey (co_Source opts) d);
  publishCopy src dstKey opts (mret (same_files src)) (fun _ => copy_checks_same srcKey dstKey).

Definition CopyFrom (srcdb : db) (ids : list Z) (srcKey dstKey : string) (opts : CopyOptions) : tx unit :=
  src ← from_result (fun e => e) (resolveCopySource srcKey (co_Source opts) srcdb);
  publishCopy src dstKey opts (prepareDestFiles srcdb src ids) (copy_checks_cross srcdb srcKey dstKey).

(** [CopyPart]: [None] when the source cannot be shared and the caller has to
    stream it. *)
Definition CopyPart (id dstKey srcKey : string) (no : Z) : tx (option Published) :=
  d ← tables;
  match db_objects d !! srcKey with
  | None => throw ErrNotFound
  | Some o =>
      let a := ob_attrs o in
      if negb (not_expired now (at_expires_at a)) then throw ErrNotFound
      else match ob_inline_data o, ob_parts o, ob_file_id o, etagMD5 (at_etag a) with
           | None, None, Some f, Some m =>
               if (f =? 0) || (at_size a <=? 0) then mret None
               else
                 u ← find_upload id dstKey;
                 let publish c :=
                   let pub := mkPublished f (at_size a) (hexEncode m) (at_sha256 a) m c in
                   commit_part now id no (part_row pub);; mret (Some pub) in
                 match up_checksum_algorithm u with
                 | None => publish None
                 | Some alg =>
                     if bool_decide (alg = "SHA256") then publish (Some (mkChecksum "SHA256" (base64_encode (at_sha256 a))))
                     else mret None
                 end
           | _, _, _, _ => mret None
           end
  end.

(** *** The reaper *)

Definition queued_order (x y : Z * Z) : Prop := x.2 < y.2 \/ (x.2 = y.2 /\ x.1 <= y.1).
#[global] Instance queued_order_dec x y : Decision (queued_order x y).
Proof. unfold queued_order. apply _. Defined.

Definition candidates (grace : Z) (locked : Z -> bool) (g : gmap Z Z) : list Z :=
  take (Z.to_nat reapCandidates)
    (List.filter (fun f => negb (locked f))
      (merge_sort queued_order (List.filter (fun kv => kv.2 <=? now - grace) (map_to_list g))).*1).

(** The first candidate no reader has pinned. *)
Definition claimReapable (pinned : Z -> bool) (ids : list Z) : option Z := find (fun f => negb (pinned f)) ids.

(** The table without up to [budget] rows of a file. *)
Fixpoint delete_rows (f : Z) (budget : nat) (rows : list chunk_row) : list chunk_row :=
  match rows with
  | [] => []
  | r :: rest =>
      match budget with
      | O => rows
      | S b => if cr_file r =? f then delete_rows f b rest else r :: delete_rows f budget rest
      end
  end.

Definition file_rows (f : Z) (rows : list chunk_row) : list chunk_row := List.filter (fun r => cr_file r =? f) rows.

Definition unqueue (f : Z) (d : db) : db := set_garbage d (delete f (db_garbage d)).

(** [reapOne]: the number of rows deleted and whether a file is done with. *)
Definition reapOne (grace budget : Z) (locked pinned : Z -> bool) : tx (Z * bool) :=
  d ← tables;
  match claimReapable pinned (candidates grace locked (db_garbage d)) with
  | None => mret (0, false)
  | Some f =>
      if referenced d f then update (unqueue f);; mret (0, true)
      else
        update (fun d => set_chunks d (delete_rows f (Z.to_nat budget) (db_chunks d)));;
        d' ← tables;
        let n := zlen (db_chunks d) - zlen (db_chunks d') in
        if (n <? budget) && bool_decide (file_rows f (db_chunks d') = [])
        then update (unqueue f);; mret (n, true)
        else mret (n, false)
  end.

End Operations.
