(* ===== verification/CacheTables.v ===== *)
(** * Cache tables

    Models the operations of [internal/store/cache.go] that change tables:
    conditional deletion, read-and-delete, expiry, batches of small values,
    flushing, fill leases, the queue of uploads to an origin, remembered origin
    metadata and the retirement of written-back objects.

    The rows of [s3p.pending_uploads] of a name are shared by its cache and its
    write-back namespace, those of [s3p.cache_fill_leases] belong to the cache
    namespace: [prepareWrite] accepts a lease for no other.  Durations and
    times are in the resolution of the database. *)

From stdpp Require Import gmap sorting.
From S2P Require Import Prelude GoStrings Ns Ranges Utf8 Precond Blocks Pieces Reader Backoff Tables Objects.

(** ** Visibility *)

(** [origin_etag IS NULL OR origin_etag NOT LIKE 'deleted:%'] *)
Definition not_deleted (a : attrs) : bool :=
  match at_origin_etag a with Some v => negb (HasPrefix v deletedOriginPrefix) | None => true end.

(** Where a row shows as a value. *)
Definition shows (now : Z) (a : attrs) : bool := not_expired now (at_expires_at a) && not_deleted a.

(** ** Expiry *)

(** The condition of [Expire] on the expiry of the row, for the new expiry. *)
Definition expire_option (new : Z) (opt : string) (old : option Z) : bool :=
  let opt := ToUpper opt in
  if bool_decide (opt = "NX") then bool_decide (old = None)
  else if bool_decide (opt = "XX") then bool_decide (is_Some old)
  else if bool_decide (opt = "GT") then match old with Some t => t <? new | None => false end
  else if bool_decide (opt = "LT") then match old with Some t => new <? t | None => true end
  else true.

Definition expire_allowed (new : option Z) (opts : list string) (old : option Z) : bool :=
  match new with
  | None => bool_decide (is_Some old)
  | Some t => forallb (fun o => expire_option t o old) opts
  end.

(** The rows [ReadManyWithTouch] updates get a new expiry, if they have one. *)
Definition touch_attrs (now retention : Z) (a : attrs) : attrs :=
  match at_expires_at a with Some _ => with_expires a (Some (now + retention)) | None => a end.

(** [TouchNamespaceObject] updates any row. *)
Definition touched_object (now retention : Z) (a : attrs) : attrs :=
  mkAttrs (at_size a) (at_sha256 a) (at_etag a) (at_user_metadata a) (at_content_type a) (at_content_encoding a)
    (at_origin_modified a) (at_checksum_name a) (at_checksum_value a) (at_checksum_type a) now
    (if 0 <? retention then Some (now + retention) else at_expires_at a) (at_origin_etag a).

(** ** Batches *)

Record cacheStoredValue := mkStoredValue { cv_size : Z; cv_sha : bytes; cv_etag : string; cv_stored : bytes }.

Definition encodeCacheValue `{Zstd, Digests} (v : bytes) : cacheStoredValue :=
  mkStoredValue (zlen v) (sha256 v) (hexEncode (md5 v)) (compressBlock v).

(** A key that comes again replaces its value where it stands. *)
Fixpoint batch_put {A} (key : string) (v : A) (batch : list (string * A)) : list (string * A) :=
  match batch with
  | [] => [(key, v)]
  | (key', v') :: rest => if bool_decide (key' = key) then (key, v) :: rest else (key', v') :: batch_put key v rest
  end.

Definition batch_of {A B} (encode : A -> B) (kvs : list (string * A)) : list (string * B) :=
  fold_left (fun b kv => batch_put kv.1 (encode kv.2) b) kvs [].

Definition encodeCacheBatch `{Zstd, Digests} (kvs : list (string * bytes)) : list (string * cacheStoredValue) :=
  batch_of encodeCacheValue kvs.

(** The row of a value of a batch. *)
Definition batch_attrs (now : Z) (v : cacheStoredValue) : attrs :=
  mkAttrs (cv_size v) (cv_sha v) (cv_etag v) [] octet_stream "" None None None None now None None.

(** ** Leases *)

Abbreviation leases := (gmap string (string * Z)).

Definition lease_ttl (ttl : Z) : Z := if ttl <=? 0 then five_minutes else ttl.

Definition acquire_lease (now : Z) (key owner : string) (ttl : Z) (m : leases) : bool * leases :=
  let row := (owner, now + lease_ttl ttl) in
  match m !! key with
  | Some (_, until) => if until <=? now then (true, <[key := row]> m) else (false, m)
  | None => (true, <[key := row]> m)
  end.

Definition release_lease (key owner : string) (m : leases) : leases :=
  match m !! key with
  | Some (o, _) => if bool_decide (o = owner) then delete key m else m
  | None => m
  end.

Definition renew_lease (now : Z) (lease : FillLease) (ttl : Z) (m : leases) : bool * leases :=
  match m !! fl_Key lease with
  | Some (o, until) =>
      if bool_decide (o = fl_Owner lease) && (now <? until) then (true, <[fl_Key lease := (o, now + ttl)]> m) else (false, m)
  | None => (false, m)
  end.

Definition live_leases (now : Z) (m : leases) : leases := filter (fun kv : string * (string * Z) => now < kv.2.2) m.

(** ** Pending uploads *)

Abbreviation pendings := (gmap string pending_upload).

Definition set_lease (p : pending_upload) (owner : option string) (until : option Z) : pending_upload :=
  mkPending (pu_token p) (pu_size p) (pu_attempts p) (pu_dead p) (pu_next_attempt p) (pu_created_at p) (pu_base_etag p)
    (pu_base_missing p) owner until (pu_last_error p).

(** A row that can be claimed. *)
Definition upload_due (now : Z) (p : pending_upload) : bool :=
  (pu_next_attempt p <=? now) && negb (pu_dead p) && match pu_lease_until p with Some t => t <=? now | None => true end.

Definition next_first (x y : string * pending_upload) : Prop := pu_next_attempt x.2 <= pu_next_attempt y.2.
#[global] Instance next_first_dec x y : Decision (next_first x y).
Proof. unfold next_first. apply _. Defined.

Definition due_uploads (now : Z) (limit : Z) (locked : string -> bool) (m : pendings) : list (string * pending_upload) :=
  take (Z.to_nat limit)
    (List.filter (fun kv => negb (locked kv.1)) (merge_sort next_first (List.filter (fun kv => upload_due now kv.2) (map_to_list m)))).

Record PendingUpload := mkPendingUploadRow {
  pd_Key : string;
  pd_Token : string;
  pd_Size : Z;
  pd_Attempts : Z;
  pd_LastError : string;
  pd_BaseETag : string;
  pd_BaseMissing : bool;
  pd_LeaseOwner : string
}.

Definition pending_of_row (key : string) (p : pending_upload) : PendingUpload :=
  mkPendingUploadRow key (pu_token p) (pu_size p) (pu_attempts p) (default "" (pu_last_error p)) (default "" (pu_base_etag p))
    (pu_base_missing p) (default "" (pu_lease_owner p)).

Definition claim_uploads (now : Z) (owner : string) (limit lease : Z) (locked : string -> bool) (m : pendings)
    : list PendingUpload * pendings :=
  let claimed := (fun kv => (kv.1, set_lease kv.2 (Some owner) (Some (now + lease)))) <$> due_uploads now limit locked m in
  ((fun kv => pending_of_row kv.1 kv.2) <$> claimed, fold_left (fun m kv => <[kv.1 := kv.2]> m) claimed m).

Definition holds_token (key token : string) (m : pendings) : bool :=
  match m !! key with Some p => bool_decide (pu_token p = token) | None => false end.

(** [DELETE ... WHERE key = $2 AND token = $3] *)
Definition drop_token (key token : string) (m : pendings) : pendings := if holds_token key token m then delete key m else m.

Definition drop_before (key : string) (before : Z) (m : pendings) : pendings :=
  match m !! key with
  | Some p => if pu_created_at p <? before then delete key m else m
  | None => m
  end.

Definition errorText (cause : option string) : string :=
  match cause with
  | None => ""
  | Some s => if 1024 <? slen s then stake 1024 s else s
  end.

(** What a column of type [text] accepts: valid UTF-8 without a zero byte. *)
Definition text_value (s : string) : bool :=
  bool_decide (text (runes s) = s) && all_bytes (fun c => negb (code c =? 0)) s.

Definition upload_backoff : Backoff := mkBackoff (2000 * millisecond) (of_int 2) (300000 * millisecond).

Definition failed_upload (now : Z) (attempt : Z) (error : string) (permanent : bool) (p : pending_upload) : pending_upload :=
  mkPending (pu_token p) (pu_size p) (pu_attempts p + 1) permanent (now + Delay upload_backoff (attempt + 1) / 1000)
    (pu_created_at p) (pu_base_etag p) (pu_base_missing p) None None (Some error).

(** [failPending]: [None] when the statement is refused. *)
Definition fail_pending (now : Z) (key token owner : string) (attempt : Z) (cause : option string) (permanent : bool) (m : pendings)
    : option pendings :=
  if negb (text_value (errorText cause)) then None
  else match m !! key with
       | Some p =>
           if bool_decide (pu_token p = token) && bool_decide (pu_lease_owner p = Some owner) then
             if 2147483647 <? pu_attempts p + 1 then None
             else Some (<[key := failed_upload now attempt (errorText cause) permanent p]> m)
           else Some m
       | None => Some m
       end.

Definition revived_upload (now : Z) (p : pending_upload) : pending_upload :=
  if pu_dead p
  then mkPending (pu_token p) (pu_size p) 0 false now (pu_created_at p) (pu_base_etag p) (pu_base_missing p) None None None
  else p.

Definition dead_count (m : pendings) : Z := zlen (map_to_list (filter (fun kv : string * pending_upload => pu_dead kv.2 = true) m)).

(** [ListPendingUploads] of one name, [ORDER BY dead DESC, next_attempt, key]. *)
Definition listing_order (x y : string * pending_upload) : Prop :=
  (pu_dead x.2 = true /\ pu_dead y.2 = false) \/
  (pu_dead x.2 = pu_dead y.2 /\
   (pu_next_attempt x.2 < pu_next_attempt y.2 \/
    (pu_next_attempt x.2 = pu_next_attempt y.2 /\ String.leb x.1 y.1 = true))).
#[global] Instance listing_order_dec x y : Decision (listing_order x y).
Proof. unfold listing_order. apply _. Defined.

Record PendingUploadInfo := mkPendingInfo {
  pi_Upload : PendingUpload;
  pi_NextAttempt : Z;
  pi_LeaseUntil : option Z;
  pi_Dead : bool;
  pi_CreatedAt : Z
}.

Definition ListPendingUploads (m : pendings) : list PendingUploadInfo :=
  (fun kv => mkPendingInfo (pending_of_row kv.1 kv.2) (pu_next_attempt kv.2) (pu_lease_until kv.2) (pu_dead kv.2) (pu_created_at kv.2))
    <$> merge_sort listing_order (map_to_list m).

(** The attributes of an object whose upload has reached the origin. *)
Definition committed_attrs (now : Z) (version : string) (modified expires : option Z) (a : attrs) : attrs :=
  mkAttrs (at_size a) (at_sha256 a) (at_etag a) (at_user_metadata a) (at_content_type a) (at_content_encoding a)
    (match modified with Some t => Some t | None => at_origin_modified a end)
    (at_checksum_name a) (at_checksum_value a) (at_checksum_type a) now expires (Some version).

(** ** Origin metadata *)

Abbreviation origins := (gmap string origin_entry).

Definition OriginMetadata (now : Z) (key : string) (maxAge : Z) (m : origins) : option ObjectInfo :=
  e ← m !! key;
  if (now <? om_expires_at e) && (now - maxAge <? om_validated_at e) then Some (om_info e) else None.

(** [age] is the time since the metadata was validated. *)
Definition remember (now : Z) (key : string) (info : ObjectInfo) (age ttl : Z) (old : option attrs) (m : origins) : origins :=
  let live := match old with Some a => not_expired now (at_expires_at a) | None => false end in
  if (age <? ttl) && negb live then <[key := mkOriginEntry info (now - age) (now + (ttl - age))]> m else m.

Definition forget (key version : string) (m : origins) : origins :=
  match m !! key with
  | Some e => if bool_decide (oi_OriginETag (om_info e) = version) then delete key m else m
  | None => m
  end.

(** ** Operations *)

Section CacheOperations.
Context `{Zstd, Digests} (k : Kind) (over_quota : Z -> bool) (now : Z).

(** *** Reading a body *)

(** More than 2^30 rows are not read into memory. *)
Definition max_value : Z := 2 ^ 30 * RowBytes.

Definition piece_body (table : list chunk_row) (start stop : Z) (p : piece) : option bytes :=
  match streamRows p start stop (fun _ => false) (getRange table (p_fileID p) (p_lo p) (p_hi p)) false None with
  | Some (cs, None, _) => Some (concat (ck_b <$> cs))
  | _ => None
  end.

(** [bodyFromMeta] for the whole object and [io.ReadAll], with the number of
    workers the pool allows and no block cache. *)
Definition readAll (table : list chunk_row) (workers : Z) (m : Meta) : option bytes :=
  match Resolve WholeObjectRange (m_Size m) with
  | Err _ => None
  | Ok span =>
      if m_Size m =? 0 then Some []
      else match m_Inline m with
           | Some b => Some (slice b (sp_Start span) (sp_End span + 1))
           | None =>
               match planPieces m (sp_Start span) (sp_End span) workers with
               | Some (Ok ps) => fmap (fun bs : list bytes => concat bs) (mapM (piece_body table (sp_Start span) (sp_End span)) ps)
               | _ => None
               end
           end
  end.

(** *** Deletion *)

(** [DELETE ... RETURNING file_id, parts] and the queueing of the files. *)
Definition delete_row (key : string) (o : object) : tx unit :=
  update (delete_objects [key]);;
  match ob_file_id o with
  | Some f => queueFiles now f (default [] (ob_parts o))
  | None => mret tt
  end.

(** The row of a key, if it satisfies a condition. *)
Definition row_where (key : string) (p : object -> bool) (d : db) : option object :=
  o ← db_objects d !! key; if p o then Some o else None.

Definition has_origin (token : string) (o : object) : bool := bool_decide (at_origin_etag (ob_attrs o) = Some token).

Definition DeleteExpected (key originETag : string) : tx Z :=
  d ← tables;
  match row_where key (has_origin originETag) d with
  | Some o => delete_row key o;; mret 1
  | None => mret 0
  end.

Definition GetDel (workers : Z) (key : string) : tx (option bytes) :=
  d ← tables;
  match row_where key (fun o => not_deleted (ob_attrs o)) d with
  | Some o =>
      m ← from_result (fun _ => Unreadable) (scanMetadata metadataDecoded 0 o);
      v ← (if Live m now then
             require (m_Size m <=? max_value) Unreadable;;
             match readAll (db_chunks d) workers m with
             | Some b => mret (Some b)
             | None => throw Unreadable
             end
           else mret None);
      delete_row key o;;
      mret v
  | None => mret None
  end.

Definition Expire (key : string) (expiresAt : option Z) (opts : list string) : tx bool :=
  d ← tables;
  match row_where key (fun o => shows now (ob_attrs o) && expire_allowed expiresAt opts (at_expires_at (ob_attrs o))) d with
  | Some _ => update (alter_attrs (fun a => with_expires a expiresAt) key);; mret true
  | None => mret false
  end.

Definition Touch (keys : list string) (retention : Z) : tx unit :=
  update (fun d => fold_left (fun d key => alter_attrs (touch_attrs now retention) key d) keys d).

Definition TouchNamespaceObject (key : string) (retention : Z) : tx unit := update (alter_attrs (touched_object now retention) key).

(** *** Batches *)

(** The file of a replaced row is queued when no other row and no part refers
    to it; the statement sees the tables as they were. *)
Definition batch_dead (keys : list string) (d : db) : list Z :=
  concat ((fun key => old_files (db_objects d !! key)) <$> keys).

Definition queue_dead (keys : list string) (d0 : db) (d : db) : db :=
  set_garbage d (fold_left (fun g f => if referenced (delete_objects keys d0) f then g else insert_garbage now g f)
    (batch_dead keys d0) (db_garbage d)).

Fixpoint upsert_batch (batch : list (string * cacheStoredValue)) : tx unit :=
  match batch with
  | [] => mret tt
  | (key, v) :: rest => write_object_row k key (mkObject (batch_attrs now v) None None None (Some (cv_stored v)));; upsert_batch rest
  end.

Definition cacheMSet (batch : list (string * cacheStoredValue)) : tx unit :=
  d ← tables;
  update (fun d => set_checksums d (drop_checksums batch.*1 (db_checksums d)));;
  upsert_batch batch;;
  update (queue_dead batch.*1 d).

(** [MSet] when all values fit a row. *)
Definition MSet (kvs : list (string * bytes)) : tx unit :=
  match kvs with
  | [] => mret tt
  | _ =>
      require (negb (over_quota (fold_left (fun n kv => n + zlen kv.2) kvs 0))) ErrQuotaExceeded;;
      cacheMSet (encodeCacheBatch kvs)
  end.

(** *** Flushing *)

(** [TRUNCATE] of the tables of one of the two namespaces. *)
Definition truncate (d : db) : db := mkDb ∅ ∅ ∅ ∅ ∅ [] ∅ (db_leases d) (db_pending d).

Definition Flush : tx unit :=
  d ← tables;
  require (bool_decide (db_pending d = ∅)) ErrPendingUploads;;
  update truncate.

(** *** Fill leases *)

Definition AcquireFillLease (key owner : string) (ttl : Z) : tx bool :=
  d ← tables;
  let '(b, m) := acquire_lease now key owner ttl (db_leases d) in
  update (fun d => set_leases d m);; mret b.

Definition ReleaseFillLease (key owner : string) : tx unit :=
  update (fun d => set_leases d (release_lease key owner (db_leases d))).

Definition RenewFillLease (lease : FillLease) (ttl : Z) : tx bool :=
  d ← tables;
  let '(b, m) := renew_lease now lease ttl (db_leases d) in
  update (fun d => set_leases d m);; mret b.

Definition CleanupFillLeases : tx Z :=
  d ← tables;
  let live := live_leases now (db_leases d) in
  update (fun d => set_leases d live);;
  mret (zlen (map_to_list (db_leases d)) - zlen (map_to_list live)).

(** *** Pending uploads *)

Definition ClaimPendingUploads (owner : string) (limit lease : Z) (locked : string -> bool) : tx (list PendingUpload) :=
  d ← tables;
  let '(l, m) := claim_uploads now owner limit lease locked (db_pending d) in
  update (fun d => set_pendings d m);; mret l.

Definition MarkOriginCommitted (key token version : string) (modified expires : option Z) : tx bool :=
  d ← tables;
  let hit := bool_decide (is_Some (row_where key (has_origin token) d)) in
  (if hit then update (alter_attrs (committed_attrs now version modified expires) key) else mret tt);;
  update (fun d => set_pendings d (drop_token key token (db_pending d)));;
  mret hit.

Definition AbandonPendingUpload (key token : string) : tx unit :=
  d ← tables;
  match row_where key (has_origin token) d with Some o => delete_row key o | None => mret tt end;;
  update (fun d => set_pendings d (drop_token key token (db_pending d))).

Definition failPending (key token owner : string) (attempt : Z) (cause : option string) (permanent : bool) : tx unit :=
  d ← tables;
  match fail_pending now key token owner attempt cause permanent (db_pending d) with
  | Some m => update (fun d => set_pendings d m)
  | None => throw Violation
  end.

Definition RetryDeadPendingUploads : tx Z :=
  d ← tables;
  update (fun d => set_pendings d (revived_upload now <$> db_pending d));;
  mret (dead_count (db_pending d)).

Definition ClearPendingUploads (key : string) : tx unit := update (fun d => set_pendings d (delete key (db_pending d))).
Definition ClearPendingUploadBefore (key : string) (before : Z) : tx unit :=
  update (fun d => set_pendings d (drop_before key before (db_pending d))).
Definition ClearPendingUploadToken (key token : string) : tx unit :=
  update (fun d => set_pendings d (drop_token key token (db_pending d))).

(** *** Origin metadata *)

Definition RememberOriginMetadata (key : string) (info : ObjectInfo) (age ttl : Z) : tx unit :=
  update (fun d => set_origin d (remember now key info age ttl (ob_attrs <$> db_objects d !! key) (db_origin_metadata d))).

Definition ForgetOriginMetadata (key version : string) : tx unit :=
  update (fun d => set_origin d (forget key version (db_origin_metadata d))).

(** *** Retirement *)

(** The row still is the one that was read. *)
Definition observed_attrs (m : Meta) (a : attrs) : bool :=
  bool_decide (default "" (at_origin_etag a) = oi_OriginETag (m_Info m)) && bool_decide (at_etag a = oi_ETag (m_Info m)) &&
  (at_created_at a =? oi_CreatedAt (m_Info m)).
Definition observed_file (m : Meta) (o : object) : bool := default 0 (ob_file_id o) =? m_FileID m.

(** [RetireOriginObject] on the write-back namespace. *)
Definition RetireOriginObject (key : string) (observed : option Meta) : tx bool :=
  match observed with
  | Some m =>
      require (bool_decide (k = WriteBack) && IsLive (ParseCacheVersion (oi_OriginETag (m_Info m)))) ErrPreconditionFailed;;
      d ← tables;
      match row_where key (fun o => observed_attrs m (ob_attrs o) && observed_file m o) d with
      | Some o => delete_row key o;; mret true
      | None => mret false
      end
  | None => throw ErrPreconditionFailed
  end.

(** ... and then on the cache namespace of the same name. *)
Definition retire_read (key : string) : tx unit :=
  d ← tables;
  update (fun d => set_leases d (delete key (db_leases d)));;
  update (fun d => set_origin d (delete key (db_origin_metadata d)));;
  match db_objects d !! key with Some o => delete_row key o | None => mret tt end.

End CacheOperations.
