(* ===== verification/Conditions.v ===== *)
(** * Conditional writes

    A precondition is decided twice in the program: by the SQL function that
    publishes an object, and by [Precondition.Allows] of
    [internal/store/object.go] for completed uploads and copies.  The two
    agree on every condition the S3 front end produces. *)

From S2P Require Import Prelude GoStrings Ns Ranges Precond Tables Objects.

Lemma parse_digits_all s acc n : parse_digits acc s = Some n -> all_bytes is_digit s = true.
Proof.
  revert acc. induction s as [|c s IH]; intros acc; cbn [parse_digits all_bytes]; [done |].
  destruct (is_digit c); [| done]. apply IH.
Qed.

Lemma digit_etag_byte s : all_bytes is_digit s = true -> all_bytes etag_byte s = true.
Proof. apply all_bytes_impl. intros c. unfold is_digit, etag_byte, is_hex. lia. Qed.

Lemma parse_udec_bytes s n : parse_udec s = Some n -> all_bytes etag_byte s = true.
Proof. destruct s; [done |]. intros H. by eapply digit_etag_byte, parse_digits_all. Qed.

Lemma Atoi_bytes s n : Atoi s = Some n -> all_bytes etag_byte s = true.
Proof.
  unfold Atoi, ParseInt, check_int64. destruct s as [|c s]; [done |]. destruct (decide (c = "-"%char)) as [->|].
  - destruct (parse_udec s) as [m|] eqn:E; [| done]. intros _. by apply parse_udec_bytes in E.
  - destruct (decide (c = "+"%char)) as [->|].
    + destruct (parse_udec s) as [m|] eqn:E; [| done]. intros _. by apply parse_udec_bytes in E.
    + destruct (parse_udec (String c s)) as [m|] eqn:E; [| done]. intros _. by apply parse_udec_bytes in E.
Qed.

Lemma hex_etag_byte s : all_bytes is_hex s = true -> all_bytes etag_byte s = true.
Proof. apply all_bytes_impl. intros c. unfold etag_byte. by intros ->. Qed.

(** A valid entity tag, stripped, consists of plain characters. *)
Lemma validETag_clean v : validETag v = true -> all_bytes etag_byte (stripETag v) = true /\ stripETag v <> "".
Proof.
  unfold validETag. destruct (Cut (stripETag v) "-"%char) as [[a b]|] eqn:E; cbn -[stripETag].
  - apply Cut_Some in E as ->. destruct (negb (hex_decodes a) || _) eqn:Eh; [done |].
    apply orb_false_iff in Eh as [Eh%negb_false_iff El%negb_false_iff]. unfold hex_decodes in Eh. apply andb_true_iff in Eh as [Eh _].
    destruct (Atoi b) eqn:Eb; [| done]. intros _. split; [| by destruct a].
    rewrite all_bytes_app. apply andb_true_iff. split; [by apply hex_etag_byte |]. cbn [all_bytes]. by apply Atoi_bytes in Eb.
  - destruct (negb (hex_decodes _) || _) eqn:Eh; [done |]. apply orb_false_iff in Eh as [Eh%negb_false_iff El%negb_false_iff].
    unfold hex_decodes in Eh. apply andb_true_iff in Eh as [Eh _]. intros _. split; [by apply hex_etag_byte |]. intros Hn. by rewrite Hn in El.
Qed.

Lemma stake_sdrop n s : stake n s +:+ sdrop n s = s.
Proof. revert s. induction n as [|n IH]; intros [|c s]; [done.. |]. cbn [stake sdrop]. rewrite sapp_cons. by rewrite IH. Qed.

Lemma etag_shape_clean e : etag_shape e = true -> all_bytes etag_byte e = true.
Proof.
  unfold etag_shape. intros H. rewrite <- (stake_sdrop 32 e), all_bytes_app.
  apply andb_true_iff in H as [[_ H1]%andb_true_iff H2]. apply andb_true_iff. split.
  - revert H1. apply all_bytes_impl. intros c. unfold lower_hex, etag_byte, is_hex. lia.
  - destruct (sdrop 32 e) as [|c [|d ds]]; [done | done |]. cbn [all_bytes].
    repeat match type of H2 with _ && _ = true => apply andb_true_iff in H2 as [H2 ?] end.
    rewrite (digit_etag_byte ds) by done. unfold etag_byte, is_hex. lia.
Qed.

(** What the conditional headers mean for the state of the key: [live] whether
    there is an object, with entity tag [etag]. *)
Definition header_allows (h : string -> string) (live : bool) (etag : string) : Prop :=
  (h "If-Match" <> "" -> live = true /\ etag = stripETag (h "If-Match")) /\
  (h "If-None-Match" <> "" -> live = false).

Lemma allows_header h p now old :
  putCondition h = Ok p -> (forall a, old = Some a -> etag_shape (at_etag a) = true) ->
  allows now p old = true <-> header_allows h (live_etag now old).1 (live_etag now old).2.
Proof.
  unfold putCondition, allows, header_allows. intros Hp Hold.
  assert (forall e, (live_etag now old).1 = true -> (live_etag now old).2 = e -> all_bytes etag_byte e = true) as Hc.
  { intros e H1 <-. destruct old as [a|]; [| done]. cbn. by apply etag_shape_clean, Hold. }
  destruct (live_etag now old) as [live etag]. cbn [fst snd] in *.
  destruct (decide (h "If-Match" = "")) as [Em|Em], (decide (h "If-None-Match" = "")) as [En|En].
  - rewrite !bool_decide_true in Hp by done. injection Hp as <-. naive_solver.
  - rewrite (bool_decide_true (h "If-Match" = "")), (bool_decide_false (h "If-None-Match" = "")), (bool_decide_false (h "If-Match" <> "")) in Hp
      by naive_solver. cbn in Hp. destruct (bool_decide _); [| done]. injection Hp as <-. cbn. rewrite negb_true_iff. naive_solver.
  - rewrite (bool_decide_false (h "If-Match" = "")), (bool_decide_true (h "If-Match" <> "")), (bool_decide_true (h "If-None-Match" = "")) in Hp by done.
    cbn in Hp. destruct (validETag (h "If-Match")) eqn:Ev; [| done]. injection Hp as <-. apply validETag_clean in Ev as [Ev Hne].
    unfold Precondition_Allows. cbn [pc_Mode pc_ETag]. rewrite (bool_decide_true (stripETag _ <> "")), andb_true_r by done.
    destruct live; cbn [andb]; [| naive_solver]. rewrite etagMatches_clean, bool_decide_eq_true by eauto. naive_solver.
  - rewrite (bool_decide_false (h "If-Match" = "")), (bool_decide_true (h "If-Match" <> "")), (bool_decide_false (h "If-None-Match" = "")) in Hp by done.
    done.
Qed.

Lemma putCondition_clean h p :
  putCondition h = Ok p -> pc_Mode p = IfMatch -> all_bytes etag_byte (pc_ETag p) = true /\ pc_ETag p <> "".
Proof.
  unfold putCondition. intros Hp. destruct (_ && _); [by injection Hp as <- |]. destruct (_ && _); [by injection Hp as <- |].
  destruct (_ && validETag _) eqn:E; [| done]. injection Hp as <-. intros _. apply andb_true_iff in E as [_ E]. by apply validETag_clean.
Qed.

(** Without an expected origin the SQL function decides as [Allows] does when
    the condition carries a plain entity tag. *)
Lemma publish_check_allows o now old key file size sha etag meta ct :
  pb_expected (wo_Publication o) = "" ->
  (pc_Mode (wo_Precondition o) = IfMatch -> all_bytes etag_byte (pc_ETag (wo_Precondition o)) = true /\ pc_ETag (wo_Precondition o) <> "") ->
  (forall a, old = Some a -> etag_shape (at_etag a) = true) ->
  publish_check now (publish_of o key file size sha etag meta ct) old = if allows now (wo_Precondition o) old then ok else precondition.
Proof.
  intros He Hm Hold. unfold publish_check, publish_of, expected_param, allows, Precondition_SQL, Precondition_Allows, live_etag.
  cbn [p_cond p_if_match p_expected_origin]. rewrite He, (bool_decide_false ("" <> "")) by (by intros []).
  destruct (pc_Mode (wo_Precondition o)); cbn [fst snd];
    eval_decides; cbn [orb andb];
    destruct old as [a|]; cbn -[etagMatches]; try done; destruct (not_expired _ _); cbn -[etagMatches]; try done.
  destruct (Hm eq_refl) as [Hb Hne]. rewrite (bool_decide_true (_ <> "")) by done.
  rewrite etagMatches_clean by eauto using etag_shape_clean. cbn. do 2 case_bool_decide; congruence.
Qed.

(** C11: conditional writes mean what their headers say, wherever they are
    decided.  For every accepted combination of If-Match and If-None-Match, the
    SQL function that publishes an object and the check made before an upload
    is completed or a copy is made both let the write through exactly when a
    given If-Match tag is the one of the live object and a given If-None-Match
    finds no live object; otherwise publication reports a failed
    precondition.  An expired object counts as absent. *)
Theorem conditions_agree h p o now old key file size sha etag meta ct :
  putCondition h = Ok p -> wo_Precondition o = p -> pb_expected (wo_Publication o) = "" ->
  (forall a, old = Some a -> etag_shape (at_etag a) = true) ->
  let '(live, tag) := live_etag now old in
  let r := publish_check now (publish_of o key file size sha etag meta ct) old in
  (r = ok <-> header_allows h live tag) /\ (r = precondition <-> ~ header_allows h live tag) /\
  (allows now p old = true <-> header_allows h live tag).
Proof.
  intros Hp Ho He Hold. pose proof (allows_header h p now old Hp Hold) as Ha.
  rewrite publish_check_allows, Ho; [| done | | done].
  - destruct (live_etag now old) as [live tag]. cbn [fst snd] in Ha. cbv beta iota zeta. destruct (allows now p old); naive_solver.
  - rewrite Ho. by apply (putCondition_clean h).
Qed.

(** A write that replaces a given version. *)
Lemma conditions_agree_witness :
  let h := fun name => if bool_decide (name = "If-Match") then "W/0123456789abcdef0123456789abcdef" else "" in
  let tag := "0123456789abcdef0123456789abcdef" in
  let o := mkWriteOptions (mkPrecondition IfMatch tag) None "" "" None None "" None false (NormalPublication "") None 0 in
  let old := Some (mkAttrs 0 [] tag [] "" "" None None None None 5 (Some 20) None) in
  let r := publish_check 10 (publish_of o "k" None 0 [] "" [] "") old in
  (r = ok <-> header_allows h true tag) /\ (r = precondition <-> ~ header_allows h true tag) /\
  (allows 10 (mkPrecondition IfMatch tag) old = true <-> header_allows h true tag).
Proof.
  intros h tag o old. apply (conditions_agree h (mkPrecondition IfMatch tag) o 10 old "k" None 0 [] "" [] "").
  - vm_compute. reflexivity.
  - reflexivity.
  - reflexivity.
  - intros a [= <-]. vm_compute. reflexivity.
Defined.
