(* ===== verification/Multipart.v ===== *)
(** * Planning a multipart completion

    What [planMultipart] of [internal/store/write.go] computes, and that the
    plan does not depend on how a stored part is identified. *)

From stdpp Require Import gmap sorting.
From S2P Require Import Prelude GoStrings Ns Ranges Precond Blocks Tables Objects.

(** ** The parts a plan takes and skips *)

(** [splits algorithm listed stored taken skipped]: the stored parts, read in
    order, are the listed ones ([taken], which match) and others. *)
Inductive splits {F} (algorithm : option string) : list ListedPart -> list (storedPart F) -> list (storedPart F) -> list (storedPart F) -> Prop :=
| splits_nil : splits algorithm [] [] [] []
| splits_take lp listed p stored taken skipped :
    lp_PartNo lp = sd_no p -> lp_ETag lp = hexEncode (sd_md5 p) -> partChecksumOK algorithm lp (sd_checksum p) = true ->
    splits algorithm listed stored taken skipped ->
    splits algorithm (lp :: listed) (p :: stored) (p :: taken) skipped
| splits_skip listed p stored taken skipped :
    (forall lp rest, listed = lp :: rest -> lp_PartNo lp <> sd_no p) ->
    splits algorithm listed stored taken skipped ->
    splits algorithm listed (p :: stored) taken (p :: skipped).

Section Plan.
Context {F : Type}.

(** The plan for the given parts. *)
Definition plan_of (algorithm : option string) (pl : multipartPlan F) (taken skipped : list (storedPart F)) : multipartPlan F :=
  let pl' := fold_left (take_part algorithm) taken pl in
  mkPlan (pl_fileIDs pl') (pl_partEnds pl') (pl_unused pl ++ (sd_fileID <$> skipped)) (pl_size pl') (pl_shaAll pl') (pl_md5All pl')
    (pl_checksums pl').

Lemma fold_take_unused algorithm taken (pl : multipartPlan F) : pl_unused (fold_left (take_part algorithm) taken pl) = pl_unused pl.
Proof. revert pl. induction taken as [|p taken IH]; intros pl; [done |]. cbn. by rewrite IH. Qed.

Lemma plan_of_skip algorithm pl p (taken skipped : list (storedPart F)) :
  plan_of algorithm (skip_part pl p) taken skipped = plan_of algorithm pl taken (p :: skipped).
Proof.
  unfold plan_of. assert (forall a b, pl_fileIDs a = pl_fileIDs b -> pl_partEnds a = pl_partEnds b -> pl_size a = pl_size b ->
    pl_shaAll a = pl_shaAll b -> pl_md5All a = pl_md5All b -> pl_checksums a = pl_checksums b ->
    let a' := fold_left (take_part algorithm) taken a in let b' := fold_left (take_part algorithm) taken b in
    pl_fileIDs a' = pl_fileIDs b' /\ pl_partEnds a' = pl_partEnds b' /\ pl_size a' = pl_size b' /\
    pl_shaAll a' = pl_shaAll b' /\ pl_md5All a' = pl_md5All b' /\ pl_checksums a' = pl_checksums b') as Heq.
  { induction taken as [|q taken IH]; intros a b H1 H2 H3 H4 H5 H6; [done |]. cbn [fold_left].
    apply IH; cbn; congruence. }
  destruct (Heq (skip_part pl p) pl) as (-> & -> & -> & -> & -> & ->); try done.
  f_equal. cbn [pl_unused skip_part fmap list_fmap]. by rewrite <- app_assoc.
Qed.

Lemma plan_loop_splits algorithm listed stored (pl pl' : multipartPlan F) :
  plan_loop algorithm listed stored pl = Ok pl' <->
  exists taken skipped, splits algorithm listed stored taken skipped /\ pl' = plan_of algorithm pl taken skipped.
Proof.
  revert listed pl. induction stored as [|p stored IH]; intros listed pl; cbn [plan_loop].
  - split.
    + destruct listed; [| done]. intros [= <-]. exists [], []. split; [constructor |]. unfold plan_of. cbn. rewrite app_nil_r. by destruct pl.
    + intros (taken & skipped & Hsp & ->). inversion Hsp; subst. unfold plan_of. cbn. rewrite app_nil_r. by destruct pl.
  - destruct listed as [|lp listed].
    + rewrite IH. split; intros (taken & skipped & Hsp & ->).
      * exists taken, (p :: skipped). split; [by constructor | by rewrite plan_of_skip].
      * inversion Hsp; subst. exists taken, skipped0. split; [done | by rewrite plan_of_skip].
    + destruct (Z.eqb_spec (lp_PartNo lp) (sd_no p)) as [Hno|Hno].
      * destruct (bool_decide _ || _) eqn:E.
        -- split; [done |]. intros (taken & skipped & Hsp & _). inversion Hsp as [|? ? ? ? ? ? _ Het Hck|]; subst; [| naive_solver].
           rewrite Hck, bool_decide_false in E by (by intros ?). done.
        -- apply orb_false_iff in E as [E1%bool_decide_eq_false E2%negb_false_iff]. apply dec_stable in E1.
           rewrite IH. split; intros (taken & skipped & Hsp & ->).
           ++ exists (p :: taken), skipped. split; [by constructor | done].
           ++ inversion Hsp; subst; [eexists _, _; done | naive_solver].
      * rewrite IH. split; intros (taken & skipped & Hsp & ->).
        -- exists taken, (p :: skipped). split; [constructor; [congruence | done] | by rewrite plan_of_skip].
        -- inversion Hsp; subst; [done |]. exists taken, skipped0. split; [done | by rewrite plan_of_skip].
Qed.

Lemma plan_loop_error algorithm listed stored (pl : multipartPlan F) e : plan_loop algorithm listed stored pl = Err e -> e = ErrInvalidPart.
Proof.
  revert listed pl. induction stored as [|p stored IH]; intros listed pl; cbn [plan_loop].
  - by destruct listed; intros [=].
  - destruct listed as [|lp listed]; [apply IH |]. destruct (_ =? _); [| apply IH]. destruct (_ || _); [by intros [=] | apply IH].
Qed.

Lemma splits_length algorithm listed (stored taken skipped : list (storedPart F)) :
  splits algorithm listed stored taken skipped -> length taken = length listed.
Proof. induction 1; cbn; congruence. Qed.

Lemma splits_perm algorithm listed (stored taken skipped : list (storedPart F)) :
  splits algorithm listed stored taken skipped -> stored ≡ₚ taken ++ skipped.
Proof. induction 1; [done | by constructor |]. rewrite <- Permutation_middle. by constructor. Qed.

(** The columns of a plan. *)
Lemma fold_take_lists algorithm taken (pl : multipartPlan F) :
  let pl' := fold_left (take_part algorithm) taken pl in
  pl_fileIDs pl' = pl_fileIDs pl ++ (sd_fileID <$> taken) /\
  pl_shaAll pl' = pl_shaAll pl ++ concat (sd_sha <$> taken) /\ pl_md5All pl' = pl_md5All pl ++ concat (sd_md5 <$> taken).
Proof.
  revert pl. induction taken as [|p taken IH]; intros pl; cbn [fold_left]; [cbn; by rewrite !app_nil_r |].
  destruct (IH (take_part algorithm pl p)) as (-> & -> & ->). cbn. by rewrite <- !app_assoc.
Qed.

Fixpoint running (n : Z) (sizes : list Z) : list Z :=
  match sizes with
  | [] => []
  | x :: rest => (n + x) :: running (n + x) rest
  end.

Definition total (sizes : list Z) : Z := fold_right Z.add 0 sizes.

Lemma total_bound (sizes : list Z) m : 0 <= m -> Forall (fun x => 0 <= x <= m) sizes -> 0 <= total sizes <= zlen sizes * m.
Proof.
  intros Hm. induction 1 as [|x sizes Hx _ IH]; cbn [total fold_right]; [unfold zlen; cbn; lia |].
  fold (total sizes). rewrite zlen_cons. nia.
Qed.

(** The sums do not overflow when the total does not. *)
Lemma fold_take_sizes algorithm taken (pl : multipartPlan F) :
  Forall (fun p => 0 <= sd_size p) taken -> 0 <= pl_size pl -> pl_size pl + total (sd_size <$> taken) < 2 ^ 63 ->
  let pl' := fold_left (take_part algorithm) taken pl in
  pl_size pl' = pl_size pl + total (sd_size <$> taken) /\ pl_partEnds pl' = pl_partEnds pl ++ running (pl_size pl) (sd_size <$> taken).
Proof.
  revert pl. induction taken as [|p taken IH]; intros pl Hpos Hn Hb; cbn [fold_left].
  - cbn. rewrite app_nil_r. split; [lia | done].
  - inversion_clear Hpos as [|? ? Hp Hpos']. cbn [fmap list_fmap total fold_right running] in *. fold (total (sd_size <$> taken)) in *.
    assert (0 <= total (sd_size <$> taken)) as Ht.
    { clear -Hpos'. induction Hpos' as [|q taken Hq _ IH]; cbn; [lia |]. unfold total in IH. lia. }
    assert (wrap64 (pl_size pl + sd_size p) = pl_size pl + sd_size p) as Hw by (apply wrap64_small; lia).
    destruct (IH (take_part algorithm pl p)) as [-> ->]; [done | | |]; cbn [take_part pl_size pl_partEnds]; rewrite ?Hw; [lia | lia |].
    split; [lia | by rewrite <- app_assoc].
Qed.

End Plan.

(** ** Listed parts *)

Lemma listed_ok_bound prev listed :
  listed_ok prev listed = true -> default 0 prev <= 10000 -> zlen listed <= 10000 - Z.max 0 (default 0 prev).
Proof.
  revert prev. induction listed as [|p listed IH]; intros prev; cbn [listed_ok]; [unfold zlen; cbn; lia |].
  intros [H1 H2]%andb_true_iff Hp. specialize (IH _ H2). cbn [default from_option id] in IH. rewrite zlen_cons.
  destruct prev as [n|]; cbn [default from_option id] in *; lia.
Qed.

Lemma validate_bound listed : validateListedParts listed = Ok tt -> listed <> [] /\ zlen listed <= 10000.
Proof.
  unfold validateListedParts. destruct listed as [|p listed]; [done |]. destruct (listed_ok None _) eqn:E; [| done]. intros _.
  split; [done |]. apply listed_ok_bound in E; cbn in *; lia.
Qed.

(** ** Identification of parts *)

Section Map.
Context {F G : Type} (g : F -> G).

Definition stored_map (p : storedPart F) : storedPart G :=
  mkStored (sd_no p) (g (sd_fileID p)) (sd_size p) (sd_sha p) (sd_md5 p) (sd_checksum p).

Definition plan_map (pl : multipartPlan F) : multipartPlan G :=
  mkPlan (g <$> pl_fileIDs pl) (pl_partEnds pl) (g <$> pl_unused pl) (pl_size pl) (pl_shaAll pl) (pl_md5All pl)
    ((fun c => (c.1.1, g c.1.2, c.2)) <$> pl_checksums pl).

Lemma plan_map_take algorithm pl p : plan_map (take_part algorithm pl p) = take_part algorithm (plan_map pl) (stored_map p).
Proof.
  unfold plan_map, take_part. cbn. rewrite !fmap_app. f_equal. f_equal. destruct algorithm; [| done]. by destruct (sd_checksum p).
Qed.

Lemma plan_map_skip pl p : plan_map (skip_part pl p) = skip_part (plan_map pl) (stored_map p).
Proof. unfold plan_map, skip_part. cbn. by rewrite fmap_app. Qed.

(** Planning commutes with renaming the parts. *)
Lemma plan_loop_map algorithm listed stored pl :
  plan_loop algorithm listed (stored_map <$> stored) (plan_map pl) =
  match plan_loop algorithm listed stored pl with Ok pl' => Ok (plan_map pl') | Err e => Err e end.
Proof.
  revert listed pl. induction stored as [|p stored IH]; intros listed pl; cbn [plan_loop fmap list_fmap]; [by destruct listed |].
  destruct listed as [|lp listed]; [by rewrite <- plan_map_skip, IH |]. cbn [stored_map sd_no sd_md5 sd_checksum].
  destruct (_ =? _); [| by rewrite <- plan_map_skip, IH]. destruct (_ || _); [done |]. by rewrite <- plan_map_take, IH.
Qed.

Lemma planMultipart_map algorithm listed stored :
  planMultipart algorithm listed (stored_map <$> stored) =
  match planMultipart algorithm listed stored with Ok pl' => Ok (plan_map pl') | Err e => Err e end.
Proof. apply (plan_loop_map algorithm listed stored empty_plan). Qed.

End Map.

(** ** Order of the parts *)

Lemma sorted_parts_perm {A} (id : string) (m : gmap (string * Z) A) :
  sorted_parts id m ≡ₚ (fun kv : string * Z * A => (kv.1.2, kv.2)) <$> map_to_list (filter (fun kv => kv.1.1 = id) m).
Proof. apply merge_sort_Permutation. Qed.

Lemma elem_of_sorted_parts {A} (id : string) (m : gmap (string * Z) A) no x : (no, x) ∈ sorted_parts id m <-> m !! (id, no) = Some x.
Proof.
  rewrite sorted_parts_perm, list_elem_of_fmap. split.
  - intros ([[id' no'] y] & [= -> ->] & Hin). apply elem_of_map_to_list, map_lookup_filter_Some in Hin as [Hin Hid]. cbn in Hid. by subst id'.
  - intros Hm. exists ((id, no), x). split; [done |]. apply elem_of_map_to_list. by apply map_lookup_filter_Some.
Qed.

Lemma sorted_parts_sorted {A} (id : string) (m : gmap (string * Z) A) : StronglySorted by_number (sorted_parts id m).
Proof.
  apply StronglySorted_merge_sort.
  - intros x y z. unfold by_number. lia.
  - intros x y. unfold by_number. lia.
Qed.

(** Sorting only looks at the part numbers. *)
Lemma sorted_parts_fmap {A B} (h : A -> B) (id : string) (m : gmap (string * Z) A) :
  sorted_parts id (h <$> m) = prod_map (fun n => n) h <$> sorted_parts id m.
Proof.
  apply (StronglySorted_unique_strong by_number).
  - intros [n1 x1] [n2 x2] H1 H2 Hle1 Hle2. apply list_elem_of_fmap in H2 as ([n3 x3] & [= -> ->] & H2). unfold by_number in *. cbn in *.
    assert (n1 = n3) as -> by lia. apply elem_of_sorted_parts in H1, H2. rewrite lookup_fmap, H2 in H1. by injection H1 as ->.
  - apply sorted_parts_sorted.
  - pose proof (sorted_parts_sorted id m) as Hs. induction Hs as [|x l Hs IH Hall]; cbn; [constructor |]. constructor; [done |].
    apply Forall_fmap. eapply Forall_impl; [exact Hall |]. by intros [].
  - rewrite !sorted_parts_perm. rewrite map_filter_fmap, map_to_list_fmap, <- !list_fmap_compose. done.
Qed.

(** ** The plan of a list of parts *)

Section Spec.
Context {F : Type} (algorithm : option string).

(** A stored part fits a listed one. *)
Definition part_matches (lp : ListedPart) (p : storedPart F) : Prop :=
  lp_PartNo lp = sd_no p /\ lp_ETag lp = hexEncode (sd_md5 p) /\ partChecksumOK algorithm lp (sd_checksum p) = true.

Definition number_order (p q : storedPart F) : Prop := sd_no p < sd_no q.
Definition listed_order (a b : ListedPart) : Prop := lp_PartNo a < lp_PartNo b.

Lemma listed_ok_sorted prev listed :
  listed_ok prev listed = true ->
  StronglySorted listed_order listed /\ Forall (fun lp => match prev with Some n => n < lp_PartNo lp | None => True end) listed.
Proof.
  revert prev. induction listed as [|lp listed IH]; intros prev; cbn [listed_ok]; [by split; constructor |].
  intros [H1 H2]%andb_true_iff. destruct (IH _ H2) as [Hs Hf]. split; [by constructor |]. constructor.
  - destruct prev; [lia | done].
  - eapply Forall_impl; [exact Hf |]. intros x Hx. cbn in Hx. destruct prev; [lia | done].
Qed.

Lemma splits_matches listed (stored taken skipped : list (storedPart F)) :
  splits algorithm listed stored taken skipped -> Forall2 part_matches listed taken /\ taken `sublist_of` stored.
Proof.
  induction 1 as [|lp listed p stored taken skipped ? ? ? _ [IH1 IH2]|listed p stored taken skipped _ _ [IH1 IH2]].
  - split; constructor.
  - split; [by constructor | by constructor].
  - split; [done | by constructor].
Qed.

Lemma sorted_above (p : storedPart F) stored q : StronglySorted number_order (p :: stored) -> q ∈ stored -> sd_no p < sd_no q.
Proof. intros [_ Hf]%StronglySorted_inv Hq. rewrite Forall_forall in Hf. by apply Hf. Qed.

Lemma listed_above a listed b : StronglySorted listed_order (a :: listed) -> b ∈ listed -> lp_PartNo a < lp_PartNo b.
Proof. intros [_ Hf]%StronglySorted_inv Hq. rewrite Forall_forall in Hf. by apply Hf. Qed.

(** Every listed part is stored. *)
Definition all_stored (listed : list ListedPart) (stored : list (storedPart F)) : Prop :=
  forall lp, lp ∈ listed -> exists p, p ∈ stored /\ part_matches lp p.

Lemma all_stored_splits listed stored :
  StronglySorted listed_order listed -> StronglySorted number_order stored -> all_stored listed stored ->
  exists taken skipped, splits algorithm listed stored taken skipped.
Proof.
  revert listed. induction stored as [|p stored IH]; intros listed Hl Hs Hall.
  - destruct listed as [|lp listed]; [exists [], []; constructor |].
    destruct (Hall lp ltac:(left)) as (q & Hq & _). by apply not_elem_of_nil in Hq.
  - pose proof (StronglySorted_inv Hs) as [Hs' _]. destruct listed as [|lp listed].
    { destruct (IH []) as (t & k & Hsp); [constructor | done | by intros ? ?%not_elem_of_nil |]. exists t, (p :: k). by constructor. }
    pose proof (StronglySorted_inv Hl) as [Hl' _].
    destruct (Hall lp ltac:(left)) as (q & Hq & Hn & He & Hc). destruct (decide (lp_PartNo lp = sd_no p)) as [Heq|Hne].
    + apply elem_of_cons in Hq as [->|Hq]; [| pose proof (sorted_above p stored q Hs Hq); lia].
      destruct (IH listed) as (t & k & Hsp); [done | done | | exists (p :: t), k; by constructor].
      intros b Hb. destruct (Hall b ltac:(by right)) as (r & [->|Hr]%elem_of_cons & Hm); [| eauto].
      pose proof (listed_above lp listed b Hl Hb). destruct Hm. lia.
    + apply elem_of_cons in Hq as [->|Hq]; [done |]. pose proof (sorted_above p stored q Hs Hq).
      destruct (IH (lp :: listed)) as (t & k & Hsp); [done | done | |].
      * intros b [->|Hb]%elem_of_cons; [by exists q |]. destruct (Hall b ltac:(by right)) as (r & [->|Hr]%elem_of_cons & Hm); [| eauto].
        pose proof (listed_above lp listed b Hl Hb). destruct Hm. lia.
      * exists t, (p :: k). constructor; [by intros ? ? [= <- <-] | done].
Qed.

Lemma splits_skipped listed stored taken skipped :
  splits algorithm listed stored taken skipped -> StronglySorted listed_order listed -> StronglySorted number_order stored ->
  skipped = filter (fun p => sd_no p ∉ lp_PartNo <$> listed) stored.
Proof.
  induction 1 as [|lp listed p stored taken skipped Hn He Hc Hsp IH|listed p stored taken skipped Hne Hsp IH]; intros Hl Hs; [done | |].
  - rewrite filter_cons_False by (cbn; rewrite Hn; set_solver). rewrite IH by (apply StronglySorted_inv in Hl as [? _], Hs as [? _]; done).
    apply filter_same. intros q Hq. pose proof (sorted_above p stored q Hs Hq). cbn. rewrite elem_of_cons. split; [| naive_solver].
    intros Hni [Heq|Hin]; [lia | done].
  - rewrite filter_cons_True; [by rewrite <- IH by (apply StronglySorted_inv in Hs as [? _]; done) |].
    intros (lp & Hp & Hlp)%list_elem_of_fmap. destruct (splits_matches _ _ _ _ Hsp) as [Hm Hsub].
    apply list_elem_of_lookup in Hlp as (i & Hi). destruct (Forall2_lookup_l _ _ _ _ _ Hm Hi) as (q & Hq%list_elem_of_lookup_2 & Hqn & _).
    eapply elem_of_sublist in Hq; [| exact Hsub].
    pose proof (sorted_above p stored q Hs Hq). lia.
Qed.

Lemma fold_take_checksums taken (pl : multipartPlan F) :
  pl_checksums (fold_left (take_part algorithm) taken pl) =
  pl_checksums pl ++ omap (fun p => (fun v => (sd_no p, sd_fileID p, v)) <$> (algorithm ≫= fun _ => sd_checksum p)) taken.
Proof.
  revert pl. induction taken as [|p taken IH]; intros pl; cbn [fold_left omap list_omap]; [by rewrite app_nil_r |]. rewrite IH. cbn.
  rewrite <- app_assoc. f_equal. destruct algorithm; [| done]. cbn. by destruct (sd_checksum p).
Qed.

(** C10: what completing an upload assembles.  For a valid list of parts and
    the stored parts in order, the plan exists exactly when every listed part
    is stored with the listed tag and checksum; it then consists of those
    parts in the listed order, with their running sizes (which do not
    overflow), the concatenation of their digests and their checksums, and
    names every other stored part as unused.  Otherwise the error is an invalid
    part. *)
Theorem planMultipart_spec listed (stored : list (storedPart F)) :
  validateListedParts listed = Ok tt -> StronglySorted number_order stored ->
  Forall (fun p => 0 <= sd_size p <= max_file_size) stored ->
  match planMultipart algorithm listed stored with
  | Ok pl => exists taken, Forall2 part_matches listed taken /\ taken `sublist_of` stored /\
      pl = mkPlan (sd_fileID <$> taken) (running 0 (sd_size <$> taken))
             (sd_fileID <$> filter (fun p => sd_no p ∉ lp_PartNo <$> listed) stored) (total (sd_size <$> taken))
             (concat (sd_sha <$> taken)) (concat (sd_md5 <$> taken))
             (omap (fun p => (fun v => (sd_no p, sd_fileID p, v)) <$> (algorithm ≫= fun _ => sd_checksum p)) taken)
  | Err e => e = ErrInvalidPart /\ ~ all_stored listed stored
  end.
Proof.
  intros Hv Hs Hb. destruct (validate_bound listed Hv) as [_ Hlen].
  assert (StronglySorted listed_order listed) as Hl.
  { unfold validateListedParts in Hv. destruct listed as [|lp rest]; [done |]. destruct (listed_ok None _) eqn:E; [| done].
    by apply (listed_ok_sorted None). }
  unfold planMultipart. destruct (plan_loop algorithm listed stored empty_plan) as [pl|e] eqn:E.
  - apply plan_loop_splits in E as (taken & skipped & Hsp & ->). exists taken.
    destruct (splits_matches _ _ _ _ Hsp) as [Hm Hsub]. do 2 (split; [done |]).
    assert (Forall (fun p => 0 <= sd_size p <= max_file_size) taken) as Hbt 
      by (rewrite Forall_forall in Hb |- *; intros q Hq; apply Hb; by eapply elem_of_sublist).
    pose proof (splits_length _ _ _ _ _ Hsp) as Hlen'.
    assert (0 <= total (sd_size <$> taken) < 2 ^ 63) as Ht.
    { pose proof (total_bound (sd_size <$> taken) max_file_size ltac:(done) ltac:(by apply Forall_fmap)) as Ht.
      unfold zlen in *. rewrite length_fmap, Hlen' in Ht. unfold max_file_size in *. lia. }
    unfold plan_of. destruct (fold_take_lists algorithm taken empty_plan) as (-> & -> & ->).
    destruct (fold_take_sizes algorithm taken empty_plan) as [-> ->]; [by eapply Forall_impl; [exact Hbt | intros ? []] | done | cbn; lia |].
    rewrite fold_take_checksums, (splits_skipped _ _ _ _ Hsp Hl Hs). done.
  - split; [by eapply plan_loop_error |]. intros Hall. destruct (all_stored_splits _ _ Hl Hs Hall) as (t & k & Hsp).
    assert (plan_loop algorithm listed stored empty_plan = Ok (plan_of algorithm empty_plan t k)) as E' by (apply plan_loop_splits; eauto).
    congruence.
Qed.
End Spec.

(** Two of three parts are completed. *)
Lemma planMultipart_spec_witness :
  let part no file := mkStored no file (no * 10) (replicate 32 (chr no)) (replicate 16 (chr no)) None in
  let lp no := mkListedPart no (hexEncode (replicate 16 (chr no))) None in
  match planMultipart None [lp 1; lp 3] [part 1 100; part 2 200; part 3 300] with
  | Ok pl => exists taken, Forall2 (part_matches None) [lp 1; lp 3] taken /\ taken `sublist_of` [part 1 100; part 2 200; part 3 300] /\
      pl = mkPlan (sd_fileID <$> taken) (running 0 (sd_size <$> taken))
             (sd_fileID <$> filter (fun p => sd_no p ∉ lp_PartNo <$> [lp 1; lp 3]) [part 1 100; part 2 200; part 3 300]) (total (sd_size <$> taken))
             (concat (sd_sha <$> taken)) (concat (sd_md5 <$> taken))
             (omap (fun p => (fun v => (sd_no p, sd_fileID p, v)) <$> (None ≫= fun _ : string => sd_checksum p)) taken)
  | Err e => e = ErrInvalidPart /\ ~ all_stored None [lp 1; lp 3] [part 1 100; part 2 200; part 3 300]
  end.
Proof.
  intros part lp. apply (planMultipart_spec None [lp 1; lp 3] [part 1 100; part 2 200; part 3 300]).
  - vm_compute. reflexivity.
  - repeat constructor.
  - repeat constructor; vm_compute; congruence.
Defined.
