(* ===== verification/ObjectSpec.v ===== *)
(** * What the object store promises

    The specification of a namespace: objects and the parts of open uploads
    are attributes with a content.  There are no files, no rows, no sharing, no
    garbage and no reaper: a copy copies the content, a completed upload is the
    concatenation of its listed parts, and background work other than expiry
    changes nothing. *)

From stdpp Require Import gmap sorting.
From S2P Require Import Prelude GoStrings Ns Ranges Precond Blocks Ids Tables Objects.

(** How the content is kept; a completed upload remembers its parts. *)
Inductive layout := InRow | OneFile | Manifest (parts : list bytes).

Record entity := mkEntity { en_attrs : attrs; en_body : bytes; en_layout : layout }.

Record spart := mkSpart {
  sp_size : Z;
  sp_sha256 : bytes;
  sp_md5 : bytes;
  sp_checksum : option string;
  sp_body : bytes
}.

Record spec := mkSpec {
  s_objects : gmap string entity;
  s_uploads : gmap string upload;
  s_parts : gmap (string * Z) spart;
  s_origin_metadata : gmap string origin_entry;
  s_leases : gmap string (string * Z);
  s_pending : gmap string pending_upload
}.

Definition empty_spec : spec := mkSpec ∅ ∅ ∅ ∅ ∅ ∅.

Definition sset_objects (a : spec) (m : gmap string entity) : spec :=
  mkSpec m (s_uploads a) (s_parts a) (s_origin_metadata a) (s_leases a) (s_pending a).
Definition sset_uploads (a : spec) (m : gmap string upload) : spec :=
  mkSpec (s_objects a) m (s_parts a) (s_origin_metadata a) (s_leases a) (s_pending a).
Definition sset_parts (a : spec) (m : gmap (string * Z) spart) : spec :=
  mkSpec (s_objects a) (s_uploads a) m (s_origin_metadata a) (s_leases a) (s_pending a).
Definition sset_origin (a : spec) (m : gmap string origin_entry) : spec :=
  mkSpec (s_objects a) (s_uploads a) (s_parts a) m (s_leases a) (s_pending a).
Definition sset_leases (a : spec) (m : gmap string (string * Z)) : spec :=
  mkSpec (s_objects a) (s_uploads a) (s_parts a) (s_origin_metadata a) m (s_pending a).
Definition sset_pending (a : spec) (m : gmap string pending_upload) : spec :=
  mkSpec (s_objects a) (s_uploads a) (s_parts a) (s_origin_metadata a) (s_leases a) m.

Abbreviation stx := (txn spec).

(** ** Operations of the specification *)

Section SpecOperations.
Context `{Digests} (k : Kind) (s : Z) (over_quota : Z -> bool) (now : Z).

Definition old_attrs (key : string) (a : spec) : option attrs := en_attrs <$> s_objects a !! key.

Definition s_lease_held (a : spec) (l : FillLease) : bool :=
  match s_leases a !! fl_Key l with
  | Some (owner, until) => bool_decide (owner = fl_Owner l) && (now <? until)
  | None => false
  end.

Definition put_entity (key : string) (e : entity) : stx unit :=
  require (attr_shape k key (en_attrs e)) Violation;; update (fun a => sset_objects a (<[key := e]> (s_objects a))).

Definition spec_publish (p : publish) (body : bytes) (l : layout) : stx outcome :=
  a ← tables;
  if match sm_fill (p_s3_meta p) with Some le => negb (s_lease_held a le) | None => false end then mret stale
  else
    let old := old_attrs (p_key p) a in
    match publish_check now p old with
    | ok =>
        if upsert_applies p old then
          put_entity (p_key p) (mkEntity (upsert_attrs now (p_keep_ttl p) old (new_attrs now p)) body l);;
          update (fun a => sset_origin a (delete (p_key p) (s_origin_metadata a)));;
          mret ok
        else mret stale
    | r => mret r
    end.

Definition spec_put_inline (ref : ObjectRef) (data : bytes) (opts : WriteOptions) : stx (Z * string) :=
  opts ← from_result write_failed (prepareWrite s ref opts true);
  require (zlen data <=? InlineMax k) ErrInlineTooLarge;;
  require (negb (over_quota (zlen data))) ErrQuotaExceeded;;
  let etag := hexEncode (md5 data) in
  r ← spec_publish (publish_of opts (or_key ref) None (zlen data) (sha256 data) etag (default [] (wo_UserMetadata opts))
        (content_type_or (wo_ContentType opts))) data InRow;
  outcome_error r;;
  mret (zlen data, etag).

Definition spec_publish_object (ref : ObjectRef) (o : WriteOptions) (data : bytes) : stx unit :=
  from_result write_failed (validateLock o ref);;
  r ← spec_publish (publish_of o (or_key ref) None (zlen data) (sha256 data) (hexEncode (md5 data)) (default [] (wo_UserMetadata o))
        (wo_ContentType o)) data OneFile;
  outcome_error r.

Definition spec_pending_origin (key : string) (o : WriteOptions) (size : Z) : stx unit :=
  match pb_kind (wo_Publication o) with
  | publicationPending =>
      let po := pb_pending (wo_Publication o) in
      update (fun a => sset_pending a
        (<[key := mkPending (po_Token po) size 0 false now now (nullif (po_BaseETag po)) (po_BaseMissing po) None None None]> (s_pending a)))
  | _ => mret tt
  end.

Definition spec_write (ref : ObjectRef) (data : bytes) (checksums : list Checksum) (opts : WriteOptions) : stx (Z * string) :=
  opts ← from_result write_failed (prepareWrite s ref opts false);
  let opts := with_defaults opts in
  require (negb (over_quota (Z.max (wo_ExpectedSize opts) 0))) ErrQuotaExceeded;;
  require (zlen data <=? max_file_size) RowCount;;
  opts ← from_result (fun e => e) (verify_object opts checksums (zlen data));
  spec_publish_object ref opts data;;
  spec_pending_origin (or_key ref) opts (zlen data);;
  mret (zlen data, hexEncode (md5 data)).

Definition spec_create (id key : string) (opts : UploadOptions) : stx string :=
  a ← tables;
  let u := mkUploadRow key (uo_ChecksumAlgorithm opts) (default [] (uo_UserMetadata opts)) (uo_ContentType opts)
             (uo_ContentEncoding opts) now in
  require (bool_decide (s_uploads a !! id = None)) Violation;;
  require (upload_shape u) Violation;;
  update (fun a => sset_uploads a (<[id := u]> (s_uploads a)));;
  mret id.

Definition spec_find_upload (id key : string) : stx upload :=
  a ← tables;
  match s_uploads a !! id with
  | Some u => require (bool_decide (up_key u = key)) ErrNoUpload;; mret u
  | None => throw ErrNoUpload
  end.

(** A part as a row, for the constraint on it. *)
Definition spart_row (p : spart) : upload_part := mkPart 0 (sp_size p) (sp_sha256 p) (sp_md5 p) (sp_checksum p).

Definition spec_put_part (id : string) (no : Z) (p : spart) : stx unit :=
  require (part_shape no (spart_row p)) Violation;;
  update (fun a => sset_parts a (<[(id, no) := p]> (s_parts a))).

Definition spec_write_part (id key : string) (no : Z) (data : bytes) (checksums : list Checksum) (expectedSize : Z)
    : stx (Z * string) :=
  require (negb (over_quota (Z.max expectedSize 0))) ErrQuotaExceeded;;
  u ← spec_find_upload id key;
  require (zlen data <=? max_file_size) RowCount;;
  c ← from_result (fun e => e) (verify_part expectedSize (default "" (up_checksum_algorithm u)) checksums (zlen data));
  spec_put_part id no (mkSpart (zlen data) (sha256 data) (md5 data) (cs_Value <$> c) data);;
  mret (zlen data, hexEncode (md5 data)).

Definition spec_stored (x : Z * spart) : storedPart bytes :=
  mkStored x.1 (sp_body x.2) (sp_size x.2) (sp_sha256 x.2) (sp_md5 x.2) (sp_checksum x.2).

Definition spec_delete_upload (id : string) (a : spec) : spec :=
  sset_parts (sset_uploads a (delete id (s_uploads a))) (filter (fun kv => kv.1.1 <> id) (s_parts a)).

(** Completion: the object is the concatenation of the listed parts. *)
Definition spec_swap (ref : ObjectRef) (opts : WriteOptions) (pl : multipartPlan bytes) (etag : string) (meta : list string) (ct : string)
    : stx unit :=
  require (lock_usable opts ref) InvalidPublication;;
  a ← tables;
  let old := old_attrs (or_key ref) a in
  require (allows now (wo_Precondition opts) old) ErrPreconditionFailed;;
  put_entity (or_key ref)
    (mkEntity (swapped_attrs now opts (pl_size pl) (sha256 (pl_shaAll pl)) etag meta ct old) (concat (pl_fileIDs pl)) (Manifest (pl_fileIDs pl))).

Definition spec_alter (f : attrs -> attrs) (key : string) (a : spec) : spec :=
  sset_objects a (alter (fun e => mkEntity (f (en_attrs e)) (en_body e) (en_layout e)) key (s_objects a)).

Definition spec_set_origin (key token : string) (a : spec) : spec := spec_alter (fun t => with_origin t (Some token)) key a.

Definition spec_record_pending (key : string) (p : pendingUpload) (size : Z) (a : spec) : spec :=
  sset_pending a (<[key := mkPending (pe_token p) size 0 false now now (Some (pe_baseETag p)) (pe_baseMissing p)
    (nullif (pe_leaseOwner p)) (if bool_decide (pe_leaseOwner p = "") then None else Some (now + five_minutes)) None]> (s_pending a)).

Definition spec_apply (ref : ObjectRef) (id : string) (u : upload) (pl : multipartPlan bytes) (etag : string)
    (opts : WriteOptions) (pending : pendingUpload) : stx unit :=
  let opts := if bool_decide (wo_ContentEncoding opts = "") then with_encoding opts (up_content_encoding u) else opts in
  spec_swap ref opts pl etag (up_user_metadata u) (up_content_type u);;
  (if bool_decide (pe_token pending <> "") then
     update (spec_set_origin (or_key ref) (pe_token pending));; update (spec_record_pending (or_key ref) pending (pl_size pl))
   else mret tt);;
  update (spec_delete_upload id).

Definition spec_complete (ref : ObjectRef) (id : string) (listed : list ListedPart) (opts : WriteOptions) (pending : pendingUpload)
    : stx Completed :=
  opts ← from_result write_failed (prepareWrite s ref opts false);
  u ← spec_find_upload id (or_key ref);
  from_result (fun e => e) (validateListedParts listed);;
  a ← tables;
  pl ← from_result (fun e => e) (planMultipart (up_checksum_algorithm u) listed (spec_stored <$> sorted_parts id (s_parts a)));
  let etag := s3ETag (md5 (pl_md5All pl)) (zlen (pl_fileIDs pl)) in
  require (negb (over_quota (pl_size pl))) ErrQuotaExceeded;;
  spec_apply ref id u pl etag opts pending;;
  mret (mkCompleted (up_key u) etag (pl_size pl) (up_content_type u)).

Definition spec_complete_pending (ref : ObjectRef) (id : string) (listed : list ListedPart) (opts : WriteOptions)
    (p : PendingCompletion) : stx Completed :=
  require (bool_decide (k = Cache) || bool_decide (k = WriteBack)) NotPendingKind;;
  spec_complete ref id listed opts
    (mkPendingUpload (CacheVersion_String (PendingCacheVersion id)) (pc_BaseETag p) (pc_BaseMissing p) (pc_LeaseOwner p)).

Definition spec_abort (id key : string) : stx bool :=
  a ← tables;
  match s_uploads a !! id with
  | Some u => if bool_decide (up_key u = key) then update (spec_delete_upload id);; mret true else mret false
  | None => mret false
  end.

Definition spec_view (a : spec) : gmap string attrs := en_attrs <$> s_objects a.
Definition spec_delete (keys : list string) (a : spec) : spec :=
  sset_objects a (filter (fun kv => kv.1 ∉ keys) (s_objects a)).

Definition spec_delete_many (keys : list string) : stx Z :=
  match keys with
  | [] => mret 0
  | _ => a ← tables; update (spec_delete keys);; mret (live_count now keys (spec_view a))
  end.

Definition spec_evict (maxBytes limit : Z) (locked : string -> bool) : stx Z :=
  a ← tables;
  let victims := evicted_keys maxBytes limit locked (spec_view a) in
  update (spec_delete victims);; mret (zlen victims).

(** A copy: the content and the attributes of the source. *)
Definition spec_source (srcKey : string) (cond : ReadCondition) (a : spec) : result store_error entity :=
  match s_objects a !! srcKey with
  | Some e =>
      if negb (not_expired now (at_expires_at (en_attrs e))) then Err ErrNoBucket
      else if ReadCondition_Allows cond true (at_etag (en_attrs e)) then Ok e else Err ErrPreconditionFailed
  | None => Err ErrNoBucket
  end.

Definition spec_put_copy (src : entity) (dstKey : string) (opts : CopyOptions) : stx unit :=
  require (negb (over_quota (at_size (en_attrs src)))) ErrQuotaExceeded;;
  a ← tables;
  let old := old_attrs dstKey a in
  require (allows now (co_Dest opts) old) ErrPreconditionFailed;;
  put_entity dstKey (mkEntity (copied_attrs now (en_attrs src) (copyFieldsFor (en_attrs src) opts) old) (en_body src) (en_layout src)).

Definition spec_copy_from (srcspec : spec) (srcKey dstKey : string) (opts : CopyOptions) : stx unit :=
  src ← from_result (fun e => e) (spec_source srcKey (co_Source opts) srcspec);
  spec_put_copy src dstKey opts.

Definition spec_copy_within (srcKey dstKey : string) (opts : CopyOptions) : stx unit :=
  a ← tables; spec_copy_from a srcKey dstKey opts.

Definition spec_copy_part (id dstKey srcKey : string) (no : Z) : stx (option (Z * string)) :=
  a ← tables;
  match s_objects a !! srcKey with
  | None => throw ErrNotFound
  | Some e =>
      let t := en_attrs e in
      if negb (not_expired now (at_expires_at t)) then throw ErrNotFound
      else match en_layout e, etagMD5 (at_etag t) with
           | OneFile, Some m =>
               if at_size t <=? 0 then mret None
               else
                 u ← spec_find_upload id dstKey;
                 let publish c :=
                   spec_put_part id no (mkSpart (at_size t) (at_sha256 t) m c (en_body e));; mret (Some (at_size t, hexEncode m)) in
                 match up_checksum_algorithm u with
                 | None => publish None
                 | Some alg =>
                     if bool_decide (alg = "SHA256") then publish (Some (base64_encode (at_sha256 t))) else mret None
                 end
           | _, _ => mret None
           end
  end.

Definition spec_expire_objects (p_max : Z) (locked : string -> bool) : stx Z :=
  a ← tables;
  let stale_meta := stale_origins now p_max (s_origin_metadata a) in
  update (fun a => sset_origin a (filter (fun kv => kv.1 ∉ stale_meta) (s_origin_metadata a)));;
  let victims := expired_keys now p_max locked (spec_view a) in
  update (spec_delete victims);;
  mret (zlen victims + zlen stale_meta).

Fixpoint spec_expire_loop (n : nat) (grace : Z) (locked : string -> bool) (removed : Z) (a : spec) : Z * spec :=
  match n with
  | O => (removed, a)
  | S n' =>
      match victim_upload now grace locked (s_uploads a) with
      | None => (removed, a)
      | Some id => spec_expire_loop n' grace locked (removed + 1) (spec_delete_upload id a)
      end
  end.

Definition spec_expire_uploads (grace p_max : Z) (locked : string -> bool) : stx Z :=
  fun a => Ok (spec_expire_loop (Z.to_nat p_max) grace locked 0 a).

End SpecOperations.
