(* ===== verification/CacheSpec.v ===== *)
(** * What the cache operations promise

    The specification of the operations of [CacheTables.v]: the same changes
    to leases, pending uploads and origin metadata, and to objects that are
    attributes and a content. *)

From stdpp Require Import gmap sorting.
From S2P Require Import Prelude GoStrings Ns Ranges Precond Blocks Tables Objects CacheTables ObjectSpec.

Section CacheSpec.
Context `{Digests} (k : Kind) (over_quota : Z -> bool) (now : Z).

Definition attrs_where (key : string) (p : attrs -> bool) (a : spec) : option entity :=
  e ← s_objects a !! key; if p (en_attrs e) then Some e else None.

Definition origin_is (token : string) (t : attrs) : bool := bool_decide (at_origin_etag t = Some token).

Definition spec_delete_expected (key originETag : string) : stx Z :=
  a ← tables;
  match attrs_where key (origin_is originETag) a with
  | Some _ => update (spec_delete [key]);; mret 1
  | None => mret 0
  end.

Definition spec_get_del (key : string) : stx (option bytes) :=
  a ← tables;
  match attrs_where key not_deleted a with
  | Some e =>
      v ← (if not_expired now (at_expires_at (en_attrs e))
           then require (zlen (en_body e) <=? max_value) Unreadable;; mret (Some (en_body e))
           else mret None);
      update (spec_delete [key]);;
      mret v
  | None => mret None
  end.

Definition spec_expire (key : string) (expiresAt : option Z) (opts : list string) : stx bool :=
  a ← tables;
  match attrs_where key (fun t => shows now t && expire_allowed expiresAt opts (at_expires_at t)) a with
  | Some _ => update (spec_alter (fun t => with_expires t expiresAt) key);; mret true
  | None => mret false
  end.

Definition spec_touch (keys : list string) (retention : Z) : stx unit :=
  update (fun a => fold_left (fun a key => spec_alter (touch_attrs now retention) key a) keys a).

Definition spec_touch_object (key : string) (retention : Z) : stx unit := update (spec_alter (touched_object now retention) key).

(** The attributes of a value of a batch. *)
Definition value_attrs (v : bytes) : attrs :=
  mkAttrs (zlen v) (sha256 v) (hexEncode (md5 v)) [] octet_stream "" None None None None now None None.

Fixpoint spec_put_batch (batch : list (string * bytes)) : stx unit :=
  match batch with
  | [] => mret tt
  | (key, v) :: rest =>
      require (zlen v <=? InlineMax k) Violation;;
      put_entity k key (mkEntity (value_attrs v) v InRow);; spec_put_batch rest
  end.

Definition spec_mset (kvs : list (string * bytes)) : stx unit :=
  match kvs with
  | [] => mret tt
  | _ =>
      require (negb (over_quota (fold_left (fun n kv => n + zlen kv.2) kvs 0))) ErrQuotaExceeded;;
      spec_put_batch (batch_of id kvs)
  end.

Definition spec_truncate (a : spec) : spec := mkSpec ∅ ∅ ∅ ∅ (s_leases a) (s_pending a).

Definition spec_flush : stx unit :=
  a ← tables;
  require (bool_decide (s_pending a = ∅)) ErrPendingUploads;;
  update spec_truncate.

Definition spec_acquire (key owner : string) (ttl : Z) : stx bool :=
  a ← tables;
  let '(b, m) := acquire_lease now key owner ttl (s_leases a) in
  update (fun a => sset_leases a m);; mret b.

Definition spec_release (key owner : string) : stx unit :=
  update (fun a => sset_leases a (release_lease key owner (s_leases a))).

Definition spec_renew (lease : FillLease) (ttl : Z) : stx bool :=
  a ← tables;
  let '(b, m) := renew_lease now lease ttl (s_leases a) in
  update (fun a => sset_leases a m);; mret b.

Definition spec_cleanup : stx Z :=
  a ← tables;
  let live := live_leases now (s_leases a) in
  update (fun a => sset_leases a live);;
  mret (zlen (map_to_list (s_leases a)) - zlen (map_to_list live)).

Definition spec_claim (owner : string) (limit lease : Z) (locked : string -> bool) : stx (list PendingUpload) :=
  a ← tables;
  let '(l, m) := claim_uploads now owner limit lease locked (s_pending a) in
  update (fun a => sset_pending a m);; mret l.

Definition spec_committed (key token version : string) (modified expires : option Z) : stx bool :=
  a ← tables;
  let hit := bool_decide (is_Some (attrs_where key (origin_is token) a)) in
  (if hit then update (spec_alter (committed_attrs now version modified expires) key) else mret tt);;
  update (fun a => sset_pending a (drop_token key token (s_pending a)));;
  mret hit.

Definition spec_abandon (key token : string) : stx unit :=
  a ← tables;
  match attrs_where key (origin_is token) a with Some _ => update (spec_delete [key]) | None => mret tt end;;
  update (fun a => sset_pending a (drop_token key token (s_pending a))).

Definition spec_fail (key token owner : string) (attempt : Z) (cause : option string) (permanent : bool) : stx unit :=
  a ← tables;
  match fail_pending now key token owner attempt cause permanent (s_pending a) with
  | Some m => update (fun a => sset_pending a m)
  | None => throw Violation
  end.

Definition spec_retry_dead : stx Z :=
  a ← tables;
  update (fun a => sset_pending a (revived_upload now <$> s_pending a));;
  mret (dead_count (s_pending a)).

Definition spec_clear (f : pendings -> pendings) : stx unit := update (fun a => sset_pending a (f (s_pending a))).

Definition spec_remember (key : string) (info : ObjectInfo) (age ttl : Z) : stx unit :=
  update (fun a => sset_origin a (remember now key info age ttl (old_attrs key a) (s_origin_metadata a))).

Definition spec_forget (key version : string) : stx unit :=
  update (fun a => sset_origin a (forget key version (s_origin_metadata a))).

(** The specification has no files: whether the row still has the file the
    caller saw is an argument. *)
Definition spec_retire (same_file : bool) (key : string) (observed : option Meta) : stx bool :=
  match observed with
  | Some m =>
      require (bool_decide (k = WriteBack) && IsLive (ParseCacheVersion (oi_OriginETag (m_Info m)))) ErrPreconditionFailed;;
      a ← tables;
      match attrs_where key (fun t => observed_attrs m t && same_file) a with
      | Some _ => update (spec_delete [key]);; mret true
      | None => mret false
      end
  | None => throw ErrPreconditionFailed
  end.

Definition spec_retire_read (key : string) : stx unit :=
  update (fun a => sset_leases a (delete key (s_leases a)));;
  update (fun a => sset_origin a (delete key (s_origin_metadata a)));;
  update (spec_delete [key]).

End CacheSpec.
