(* ===== verification/Machine.v ===== *)
(** * The two machines

    [Operation] lists the operations on the namespaces of one database, used
    by any number of store processes; [exec] runs one on the tables and
    [spec_exec] on the specification. *)

From stdpp Require Import gmap sorting.
From S2P Require Import Prelude GoStrings Ns Ranges Precond Blocks Ids Tables Objects CacheTables ObjectSpec CacheSpec.

(** ** Operations *)

Inductive cache_operation :=
| GetDelOp (workers : Z) (key : string)
| DeleteExpectedOp (key originETag : string)
| ExpireOp (key : string) (expiresAt : option Z) (opts : list string)
| TouchOp (keys : list string) (retention : Z)
| MSetOp (kvs : list (string * bytes))
| FlushOp
| AcquireOp (key owner : string) (ttl : Z)
| ReleaseOp (key owner : string)
| RenewOp (lease : FillLease) (ttl : Z)
| CleanupOp
| ClaimOp (owner : string) (limit lease : Z) (locked : string -> bool)
| CommittedOp (key token version : string) (modified expires : option Z)
| AbandonOp (key token : string)
| FailOp (key token owner : string) (attempt : Z) (cause : option string) (permanent : bool)
| RetryDeadOp
| ClearOp (key : string)
| ClearBeforeOp (key : string) (before : Z)
| ClearTokenOp (key token : string)
| RememberOp (key : string) (info : ObjectInfo) (age ttl : Z)
| ForgetOp (key version : string)
| RetireOp (key : string) (observed : option Meta)
| TouchObjectOp (key : string) (retention : Z).

Inductive Operation :=
| PutOp (key : string) (data : bytes) (opts : WriteOptions)
| WriteOp (proc : nat) (block : list Z) (key : string) (srcs : list bytes) (checksums : list Checksum) (opts : WriteOptions)
| CreateOp (id key : string) (opts : UploadOptions)
| PartOp (proc : nat) (block : list Z) (id key : string) (no : Z) (srcs : list bytes) (checksums : list Checksum) (expectedSize : Z)
| CompleteOp (key id : string) (listed : list ListedPart) (opts : WriteOptions)
| CompletePendingOp (key id : string) (listed : list ListedPart) (opts : WriteOptions) (pending : PendingCompletion)
| AbortOp (id key : string)
| DeleteOp (keys : list string)
| EvictOp (maxBytes limit : Z) (locked : string -> bool)
| CopyOp (reqs : list (nat * list Z)) (from : Ref) (srcKey dstKey : string) (opts : CopyOptions)
| CopyPartOp (id dstKey srcKey : string) (no : Z)
| ExpireObjectsOp (p_max : Z) (locked : string -> bool)
| ExpireUploadsOp (grace p_max : Z) (locked : string -> bool)
| ReapOp (grace budget : Z) (locked pinned : Z -> bool)
| ReorderOp (rows : list chunk_row)
| CacheOp (o : cache_operation).

Inductive reply :=
| Written (size : Z) (etag : string)
| Created (id : string)
| Finished (c : Completed)
| Flag (b : bool)
| Count (n : Z)
| Shared (p : option (Z * string))
| Value (v : option bytes)
| Uploads (l : list PendingUpload)
| Done.

(** When and where an operation runs: the time, the quota decision, the store
    process object that runs it, and the namespace. *)
Record context := mkContext { cx_now : Z; cx_over_quota : Z -> bool; cx_store : Z; cx_ns : Ref }.

#[global] Instance Ref_countable : Countable Ref.
Proof.
  refine (inj_countable' (fun r => (ref_kind r, ref_name r)) (fun p => mkRef p.1 p.2) _). by intros [].
Defined.

(** The tables of every namespace, with the pending uploads of every name
    aside: the namespaces of a name share them. *)
Record system := mkSystem { sy_alloc : allocator; sy_dbs : gmap Ref db; sy_pending : gmap string pendings }.

Definition db_of (y : system) (r : Ref) : db :=
  set_pendings (default empty_db (sy_dbs y !! r)) (default ∅ (sy_pending y !! ref_name r)).

Definition put_db (alloc : allocator) (y : system) (r : Ref) (d : db) : system :=
  mkSystem alloc (<[r := d]> (sy_dbs y)) (<[ref_name r := db_pending d]> (sy_pending y)).

Record world := mkWorld { w_specs : gmap Ref spec; w_pending : gmap string pendings }.

Definition empty_world : world := mkWorld ∅ ∅.

Definition spec_of (z : world) (r : Ref) : spec :=
  sset_pending (default empty_spec (w_specs z !! r)) (default ∅ (w_pending z !! ref_name r)).

Definition put_spec (z : world) (r : Ref) (a : spec) : world :=
  mkWorld (<[r := a]> (w_specs z)) (<[ref_name r := s_pending a]> (w_pending z)).

(** The other namespace of the name of a cache. *)
Definition sibling (r : Ref) : Ref := if bool_decide (ref_kind r = Cache) then WriteBackRef (ref_name r) else CacheRef (ref_name r).

Definition reply_of {S A} (f : A -> reply) (c : txn S A) : txn S reply := x ← c; mret (f x).

Definition published_reply (p : Published) : reply := Written (ps_Size p) (ps_ETag p).
Definition written_reply (p : Z * string) : reply := Written p.1 p.2.

Section Exec.
Context `{Zstd, Digests} (c : context).

Let k := ref_kind (cx_ns c).
Let oref (key : string) : ObjectRef := mkObjectRef (cx_ns c) key.

Definition cache_tx (o : cache_operation) : tx reply :=
  let now := cx_now c in
  match o with
  | GetDelOp workers key => reply_of Value (GetDel now workers key)
  | DeleteExpectedOp key e => reply_of Count (DeleteExpected now key e)
  | ExpireOp key t opts => reply_of Flag (Expire now key t opts)
  | TouchOp keys retention => reply_of (fun _ => Done) (Touch now keys retention)
  | MSetOp kvs => reply_of (fun _ => Done) (MSet k (cx_over_quota c) now kvs)
  | FlushOp => reply_of (fun _ => Done) Flush
  | AcquireOp key owner ttl => reply_of Flag (AcquireFillLease now key owner ttl)
  | ReleaseOp key owner => reply_of (fun _ => Done) (ReleaseFillLease key owner)
  | RenewOp l ttl => reply_of Flag (RenewFillLease now l ttl)
  | CleanupOp => reply_of Count (CleanupFillLeases now)
  | ClaimOp owner limit lease locked => reply_of Uploads (ClaimPendingUploads now owner limit lease locked)
  | CommittedOp key token version m e => reply_of Flag (MarkOriginCommitted now key token version m e)
  | AbandonOp key token => reply_of (fun _ => Done) (AbandonPendingUpload now key token)
  | FailOp key token owner attempt cause permanent => reply_of (fun _ => Done) (failPending now key token owner attempt cause permanent)
  | RetryDeadOp => reply_of Count (RetryDeadPendingUploads now)
  | ClearOp key => reply_of (fun _ => Done) (ClearPendingUploads key)
  | ClearBeforeOp key before => reply_of (fun _ => Done) (ClearPendingUploadBefore key before)
  | ClearTokenOp key token => reply_of (fun _ => Done) (ClearPendingUploadToken key token)
  | RememberOp key info age ttl => reply_of (fun _ => Done) (RememberOriginMetadata now key info age ttl)
  | ForgetOp key version => reply_of (fun _ => Done) (ForgetOriginMetadata key version)
  | RetireOp key observed => reply_of Flag (RetireOriginObject k now key observed)
  | TouchObjectOp key retention => reply_of (fun _ => Done) (TouchNamespaceObject now key retention)
  end.

(** What an operation does to the other namespace of its name. *)
Definition sibling_tx (o : Operation) (r : reply) : tx unit :=
  match o, r with
  | CacheOp FlushOp, _ => update truncate
  | CacheOp (RetireOp key _), Flag true => retire_read (cx_now c) key
  | _, _ => mret tt
  end.

(** The transaction of an operation, with the identifiers it was given. *)
Definition op_tx (dbs : Ref -> db) (ids : list Z) (o : Operation) : tx reply :=
  let now := cx_now c in
  let over := cx_over_quota c in
  let s := cx_store c in
  match o with
  | PutOp key data opts => reply_of (fun m => Written (m_Size m) (oi_ETag (m_Info m))) (PutInline k s over now (oref key) data opts)
  | WriteOp _ _ key srcs cs opts =>
      match ids with
      | fid :: _ => reply_of published_reply (WriteObject k s over now fid (oref key) srcs cs opts)
      | [] => throw NoFileID
      end
  | CreateOp id key opts => reply_of Created (CreateUpload now id key opts)
  | PartOp _ _ id key no srcs cs expected =>
      match ids with
      | fid :: _ => reply_of published_reply (WritePart over now fid id key no srcs cs expected)
      | [] => throw NoFileID
      end
  | CompleteOp key id listed opts => reply_of Finished (CompleteUpload k s over now (oref key) id listed opts)
  | CompletePendingOp key id listed opts p => reply_of Finished (CompleteUploadPending k s over now (oref key) id listed opts p)
  | AbortOp id key => reply_of Flag (AbortUpload now id key)
  | DeleteOp keys => reply_of Count (DeleteMany now keys)
  | EvictOp maxBytes limit locked => reply_of Count (evictCacheOverBudget now maxBytes limit locked)
  | CopyOp _ from srcKey dstKey opts =>
      require (bool_decide (ref_kind from = Bucket) && bool_decide (k = Bucket)) InvalidBucket;;
      if decide (from = cx_ns c) then reply_of (fun _ => Done) (CopyWithin k over now srcKey dstKey opts)
      else reply_of (fun _ => Done) (CopyFrom k over now (dbs from) ids srcKey dstKey opts)
  | CopyPartOp id dstKey srcKey no =>
      reply_of (fun p => Shared ((fun p => (ps_Size p, ps_ETag p)) <$> p)) (CopyPart now id dstKey srcKey no)
  | ExpireObjectsOp p_max locked => reply_of Count (expire_objects now p_max locked)
  | ExpireUploadsOp grace p_max locked => reply_of Count (expire_uploads now grace p_max locked)
  | ReapOp grace budget locked pinned => reply_of (fun _ => Done) (reapOne now grace budget locked pinned)
  | ReorderOp rows =>
      d ← tables; (if decide (rows ≡ₚ db_chunks d) then update (fun d => set_chunks d rows) else mret tt);; mret Done
  | CacheOp o => cache_tx o
  end.

(** The requests for identifiers an operation makes. *)
Definition op_requests (o : Operation) : list (nat * list Z) :=
  match o with
  | WriteOp proc block _ _ _ _ | PartOp proc block _ _ _ _ _ _ => [(proc, block)]
  | CopyOp reqs _ _ _ _ => reqs
  | _ => []
  end.

(** One operation: identifiers are taken from the sequence whatever becomes of
    the transaction. *)
Definition exec (o : Operation) (y : system) : result store_error reply * system :=
  let '(ids, alloc) := allocations (op_requests o) (sy_alloc y) in
  let '(r, d) := commit (op_tx (db_of y) ids o) (db_of y (cx_ns c)) in
  let y := put_db alloc y (cx_ns c) d in
  match r with
  | Ok x => (r, put_db alloc y (sibling (cx_ns c)) (commit (sibling_tx o x) (db_of y (sibling (cx_ns c)))).2)
  | Err _ => (r, y)
  end.

Definition cache_spec (same_file : bool) (o : cache_operation) : stx reply :=
  let now := cx_now c in
  match o with
  | GetDelOp _ key => reply_of Value (spec_get_del now key)
  | DeleteExpectedOp key e => reply_of Count (spec_delete_expected key e)
  | ExpireOp key t opts => reply_of Flag (spec_expire now key t opts)
  | TouchOp keys retention => reply_of (fun _ => Done) (spec_touch now keys retention)
  | MSetOp kvs => reply_of (fun _ => Done) (spec_mset k (cx_over_quota c) now kvs)
  | FlushOp => reply_of (fun _ => Done) spec_flush
  | AcquireOp key owner ttl => reply_of Flag (spec_acquire now key owner ttl)
  | ReleaseOp key owner => reply_of (fun _ => Done) (spec_release key owner)
  | RenewOp l ttl => reply_of Flag (spec_renew now l ttl)
  | CleanupOp => reply_of Count (spec_cleanup now)
  | ClaimOp owner limit lease locked => reply_of Uploads (spec_claim now owner limit lease locked)
  | CommittedOp key token version m e => reply_of Flag (spec_committed now key token version m e)
  | AbandonOp key token => reply_of (fun _ => Done) (spec_abandon key token)
  | FailOp key token owner attempt cause permanent => reply_of (fun _ => Done) (spec_fail now key token owner attempt cause permanent)
  | RetryDeadOp => reply_of Count (spec_retry_dead now)
  | ClearOp key => reply_of (fun _ => Done) (spec_clear (delete key))
  | ClearBeforeOp key before => reply_of (fun _ => Done) (spec_clear (drop_before key before))
  | ClearTokenOp key token => reply_of (fun _ => Done) (spec_clear (drop_token key token))
  | RememberOp key info age ttl => reply_of (fun _ => Done) (spec_remember now key info age ttl)
  | ForgetOp key version => reply_of (fun _ => Done) (spec_forget key version)
  | RetireOp key observed => reply_of Flag (spec_retire k same_file key observed)
  | TouchObjectOp key retention => reply_of (fun _ => Done) (spec_touch_object now key retention)
  end.

Definition sibling_spec (o : Operation) (r : reply) : stx unit :=
  match o, r with
  | CacheOp FlushOp, _ => update spec_truncate
  | CacheOp (RetireOp key _), Flag true => spec_retire_read key
  | _, _ => mret tt
  end.

Definition spec_tx (same_file : bool) (specs : Ref -> spec) (o : Operation) : stx reply :=
  let now := cx_now c in
  let over := cx_over_quota c in
  let s := cx_store c in
  match o with
  | PutOp key data opts => reply_of written_reply (spec_put_inline k s over now (oref key) data opts)
  | WriteOp _ _ key srcs cs opts => reply_of written_reply (spec_write k s over now (oref key) (concat srcs) cs opts)
  | CreateOp id key opts => reply_of Created (spec_create now id key opts)
  | PartOp _ _ id key no srcs cs expected => reply_of written_reply (spec_write_part over id key no (concat srcs) cs expected)
  | CompleteOp key id listed opts => reply_of Finished (spec_complete k s over now (oref key) id listed opts no_pending_upload)
  | CompletePendingOp key id listed opts p => reply_of Finished (spec_complete_pending k s over now (oref key) id listed opts p)
  | AbortOp id key => reply_of Flag (spec_abort id key)
  | DeleteOp keys => reply_of Count (spec_delete_many now keys)
  | EvictOp maxBytes limit locked => reply_of Count (spec_evict maxBytes limit locked)
  | CopyOp _ from srcKey dstKey opts =>
      require (bool_decide (ref_kind from = Bucket) && bool_decide (k = Bucket)) InvalidBucket;;
      reply_of (fun _ => Done) (spec_copy_from k over now (specs from) srcKey dstKey opts)
  | CopyPartOp id dstKey srcKey no => reply_of Shared (spec_copy_part now id dstKey srcKey no)
  | ExpireObjectsOp p_max locked => reply_of Count (spec_expire_objects now p_max locked)
  | ExpireUploadsOp grace p_max locked => reply_of Count (spec_expire_uploads now grace p_max locked)
  | ReapOp _ _ _ _ | ReorderOp _ => mret Done
  | CacheOp o => cache_spec same_file o
  end.

Definition spec_exec (same_file : bool) (o : Operation) (z : world) : result store_error reply * world :=
  let '(r, a) := commit (spec_tx same_file (spec_of z) o) (spec_of z (cx_ns c)) in
  let z := put_spec z (cx_ns c) a in
  match r with
  | Ok x => (r, put_spec z (sibling (cx_ns c)) (commit (sibling_spec o x) (spec_of z (sibling (cx_ns c)))).2)
  | Err _ => (r, z)
  end.

End Exec.
