(* ===== verification/ObjectRep.v ===== *)
(** * How tables represent the specification

    The representation relation between the tables of a namespace and its
    specification, the conditions the tables keep beside it (no chunk row is
    lost, no row of a file in use is missing, identifiers are never reused),
    and the effect of every statement on both. *)

From stdpp Require Import gmap sorting.
From S2P Require Import Prelude GoStrings Ns Ranges Precond Blocks Reader Ids Tables Objects ObjectSpec.

Section Rep.
Context `{ZL : ZstdLaws} (k : Kind).

(** The part ends of consecutive contents. *)
Fixpoint ends_from (n : Z) (bodies : list bytes) : list Z :=
  match bodies with
  | [] => []
  | b :: bs => (n + zlen b) :: ends_from (n + zlen b) bs
  end.

(** [given] records, for every identifier handed out, the content of its file. *)
Definition file_holds (given : gmap Z bytes) (rows : list chunk_row) (f : Z) (body : bytes) : Prop :=
  given !! f = Some body /\ file_stored rows f body.

Definition stored_as (given : gmap Z bytes) (rows : list chunk_row) (o : object) (body : bytes) (l : layout) : Prop :=
  match l with
  | InRow => o = mkObject (ob_attrs o) None None None (Some (compressBlock body))
  | OneFile => exists f, o = mkObject (ob_attrs o) (Some f) None None None /\ file_holds given rows f body
  | Manifest bodies => exists f ps,
      o = mkObject (ob_attrs o) (Some f) (Some (f :: ps)) (Some (ends_from 0 bodies)) None /\
      Forall2 (file_holds given rows) (f :: ps) bodies /\ body = concat bodies
  end.

Record object_rep (given : gmap Z bytes) (rows : list chunk_row) (key : string) (o : object) (e : entity) : Prop := {
  or_attrs : en_attrs e = ob_attrs o;
  or_size : at_size (ob_attrs o) = zlen (en_body e);
  or_shape : object_shape k key o = true;
  or_stored : stored_as given rows o (en_body e) (en_layout e)
}.

Record part_rep (given : gmap Z bytes) (rows : list chunk_row) (p : upload_part) (q : spart) : Prop := {
  pr_row : p = mkPart (pt_file_id p) (sp_size q) (sp_sha256 q) (sp_md5 q) (sp_checksum q);
  pr_size : sp_size q = zlen (sp_body q);
  pr_stored : file_holds given rows (pt_file_id p) (sp_body q)
}.

(** What the tables keep, up to the files [lost] that a transaction has
    dropped and not queued yet.  [given] are the identifiers handed out. *)
Record wf (given : gmap Z bytes) (lost : list Z) (d : db) : Prop := {
  wf_key : NoDup ((fun r => (cr_file r, cr_no r)) <$> db_chunks d);
  wf_chunk : Forall (fun r => chunk_shape r = true) (db_chunks d);
  wf_cover : forall r, r ∈ db_chunks d -> cr_file r ∈ refs d \/ is_Some (db_garbage d !! cr_file r) \/ cr_file r ∈ lost;
  wf_refs : forall f, f ∈ refs d -> is_Some (given !! f);
  wf_rows : forall r, r ∈ db_chunks d -> exists body, given !! cr_file r = Some body /\ r ∈ stored_body (cr_file r) body;
  wf_given : forall f, is_Some (given !! f) -> 1 <= f < 2 ^ 63;
  wf_parts : forall id no p, db_parts d !! (id, no) = Some p -> part_shape no p = true /\ is_Some (db_uploads d !! id)
}.

Record sim (given : gmap Z bytes) (lost : list Z) (d : db) (a : spec) : Prop := {
  sim_objects : forall key, option_Forall2 (object_rep given (db_chunks d) key) (db_objects d !! key) (s_objects a !! key);
  sim_parts : forall i, option_Forall2 (part_rep given (db_chunks d)) (db_parts d !! i) (s_parts a !! i);
  sim_uploads : db_uploads d = s_uploads a;
  sim_origin : db_origin_metadata d = s_origin_metadata a;
  sim_leases : db_leases d = s_leases a;
  sim_pending : db_pending d = s_pending a;
  sim_wf : wf given lost d
}.

Lemma wf_row_file given lost d r : wf given lost d -> r ∈ db_chunks d -> is_Some (given !! cr_file r).
Proof. intros Hwf Hr. destruct (wf_rows _ _ _ Hwf r Hr) as (body & -> & _). by eexists. Qed.

(** ** References *)

Lemma elem_of_refs d f :
  f ∈ refs d <-> (exists key o, db_objects d !! key = Some o /\ f ∈ object_files o) \/
                 (exists i p, db_parts d !! i = Some p /\ pt_file_id p = f).
Proof.
  unfold refs. rewrite elem_of_app, list_elem_of_In, in_concat. split.
  - intros [(l & Hl & Hf)|Hp].
    + left. apply list_elem_of_In, list_elem_of_fmap in Hl as (o & -> & Ho). apply list_elem_of_fmap in Ho as ([key o'] & -> & Hin).
      apply elem_of_map_to_list in Hin. exists key, o'. split; [done | by apply list_elem_of_In].
    + right. apply list_elem_of_fmap in Hp as (p & -> & Hp). apply list_elem_of_fmap in Hp as ([i p'] & -> & Hin).
      apply elem_of_map_to_list in Hin. by exists i, p'.
  - intros [(key & o & Hk & Hf)|(i & p & Hi & <-)].
    + left. exists (object_files o). split; [| by apply list_elem_of_In]. apply list_elem_of_In, list_elem_of_fmap. exists o.
      split; [done |]. apply list_elem_of_fmap. exists (key, o). split; [done | by apply elem_of_map_to_list].
    + right. apply list_elem_of_fmap. exists p. split; [done |]. apply list_elem_of_fmap. exists (i, p).
      split; [done | by apply elem_of_map_to_list].
Qed.

Lemma refs_object d key o f : db_objects d !! key = Some o -> f ∈ object_files o -> f ∈ refs d.
Proof. intros. apply elem_of_refs. left. eauto. Qed.

Lemma refs_part d i p : db_parts d !! i = Some p -> pt_file_id p ∈ refs d.
Proof. intros. apply elem_of_refs. right. eauto. Qed.

Lemma sim_given given lost d a : sim given lost d a -> forall f, f ∈ refs d -> f <> 0.
Proof. intros Hs f Hf. pose proof (wf_given _ _ _ (sim_wf _ _ _ _ Hs) f (wf_refs _ _ _ (sim_wf _ _ _ _ Hs) f Hf)). lia. Qed.

(** ** Rows of files in use *)

Definition rows_of (f : Z) (rows : list chunk_row) : list chunk_row := filter (fun r => cr_file r = f) rows.

Lemma file_holds_same given given' rows rows' f body :
  given ⊆ given' -> rows_of f rows' ≡ₚ rows_of f rows -> file_holds given rows f body -> file_holds given' rows' f body.
Proof. unfold file_holds, file_stored, rows_of. intros Hsub -> [Hf Hst]. split; [by eapply lookup_weaken | done]. Qed.

Lemma stored_as_same given given' rows rows' o body l :
  given ⊆ given' -> (forall f, f ∈ object_files o -> rows_of f rows' ≡ₚ rows_of f rows) ->
  stored_as given rows o body l -> stored_as given' rows' o body l.
Proof.
  intros Hsub Hf. destruct l; cbn; [done | |].
  - intros (f & E & Hst). exists f. split; [done |]. eapply file_holds_same; [done | | done]. apply Hf. rewrite E. cbn. set_solver.
  - intros (f & ps & E & Hst & ->). exists f, ps. split; [done |]. split; [| done].
    assert (forall g, g ∈ f :: ps -> rows_of g rows' ≡ₚ rows_of g rows) as Hg by (intros g Hg; apply Hf; rewrite E; cbn; set_solver).
    clear E. induction Hst as [|g b gs bs Hb Hst IH]; constructor.
    + eapply file_holds_same; [done | | done]. apply Hg. left.
    + apply IH. intros x Hx. apply Hg. by right.
Qed.

Lemma object_rep_same given given' rows rows' key o e :
  given ⊆ given' -> (forall f, f ∈ object_files o -> rows_of f rows' ≡ₚ rows_of f rows) ->
  object_rep given rows key o e -> object_rep given' rows' key o e.
Proof. intros Hsub Hf []. split; try done. by eapply stored_as_same. Qed.

Lemma part_rep_same given given' rows rows' p q :
  given ⊆ given' -> rows_of (pt_file_id p) rows' ≡ₚ rows_of (pt_file_id p) rows ->
  part_rep given rows p q -> part_rep given' rows' p q.
Proof. intros Hsub Hf []. split; try done. by eapply file_holds_same. Qed.

Lemma option_Forall2_in {A B} (R R' : A -> B -> Prop) mx my :
  (forall x y, mx = Some x -> my = Some y -> R x y -> R' x y) -> option_Forall2 R mx my -> option_Forall2 R' mx my.
Proof. intros Himp H. destruct H; constructor. by apply Himp. Qed.

(** Replacing the chunk table keeps the contents when the rows of the files in
    use stay. *)
Lemma sim_set_chunks given given' lost lost' d a rows :
  sim given lost d a -> given ⊆ given' ->
  (forall f, f ∈ refs d -> rows_of f rows ≡ₚ rows_of f (db_chunks d)) ->
  wf given' lost' (set_chunks d rows) ->
  sim given' lost' (set_chunks d rows) a.
Proof.
  intros [] Hsub Hr Hwf. split; try done; cbn.
  - intros key. eapply option_Forall2_in; [| done]. intros o e Ho _ Hoe.
    eapply object_rep_same; [done | | done]. intros f Hf. apply Hr. by eapply refs_object.
  - intros i. eapply option_Forall2_in; [| done]. intros p q Hp _ Hpq.
    eapply part_rep_same; [done | | done]. apply Hr. by eapply refs_part.
Qed.

(** A weaker account of what is lost. *)
Lemma sim_lost given lost lost' d a :
  sim given lost d a ->
  (forall f, f ∈ lost -> f ∈ lost' \/ f ∈ refs d \/ is_Some (db_garbage d !! f)) ->
  sim given lost' d a.
Proof.
  intros [? ? ? ? ? ? []] Hl. split; try done. split; try done. intros r Hr. destruct (wf_cover0 r Hr) as [?|[?|Hf]]; auto.
  destruct (Hl _ Hf) as [?|[?|?]]; auto.
Qed.

(** More identifiers handed out. *)
Lemma sim_more given given' lost d a :
  sim given lost d a -> given ⊆ given' -> (forall f, is_Some (given' !! f) -> 1 <= f < 2 ^ 63) -> sim given' lost d a.
Proof.
  intros [? ? ? ? ? ? []] Hsub Hg. split; try done.
  - intros key. eapply option_Forall2_in; [| done]. intros o e _ _. by apply object_rep_same.
  - intros i. eapply option_Forall2_in; [| done]. intros p q _ _. by apply part_rep_same.
  - split; try done; [intros; eapply lookup_weaken_is_Some; eauto |].
    intros r Hr. destruct (wf_rows0 r Hr) as (b & Hb & Hin). exists b. split; [by eapply lookup_weaken | done].
Qed.

(** ** Statements on one side *)

Lemma sim_checksums given lost d a m : sim given lost d a -> sim given lost (set_checksums d m) a.
Proof. intros [? ? ? ? ? ? []]. split; try done. Qed.

Lemma sim_origins given lost d a m : sim given lost d a -> sim given lost (set_origin d m) (sset_origin a m).
Proof. intros [? ? ? ? ? ? []]. split; try done. Qed.

Lemma sim_pendings given lost d a m : sim given lost d a -> sim given lost (set_pendings d m) (sset_pending a m).
Proof. intros [? ? ? ? ? ? []]. split; try done. Qed.

(** Garbage rows only matter for what is lost. *)
Lemma sim_garbage given lost lost' d a g :
  sim given lost d a ->
  (forall f, is_Some (db_garbage d !! f) \/ f ∈ lost -> f ∈ refs d \/ is_Some (g !! f) \/ f ∈ lost' \/ rows_of f (db_chunks d) = []) ->
  sim given lost' (set_garbage d g) a.
Proof.
  intros [? ? ? ? ? ? []] Hl. split; try done. split; try done. cbn. intros r Hr.
  destruct (wf_cover0 r Hr) as [?|Hf]; [by left |]. destruct (Hl _ Hf) as [?|[?|[?|Hn]]]; auto.
  exfalso.
  assert (r ∈ rows_of (cr_file r) (db_chunks d)) as Hin by (unfold rows_of; by apply list_elem_of_filter).
  rewrite Hn in Hin. set_solver.
Qed.

Lemma insert_garbage_spec now g x f : is_Some (g !! f) \/ f = x -> is_Some (insert_garbage now g x !! f).
Proof.
  unfold insert_garbage. intros Hf. destruct (g !! x) eqn:E; [destruct Hf as [?| ->]; [done | by eexists] |].
  destruct (decide (x = f)) as [->|]; [rewrite lookup_insert_eq; by eexists |].
  rewrite lookup_insert_ne by done. by destruct Hf as [?| ->].
Qed.

Lemma fold_queue now d ids g :
  (forall f, is_Some (g !! f) -> is_Some (fold_left (queue_one now d) ids g !! f)) /\
  (forall f, f ∈ ids -> f <> 0 -> referenced d f = false -> is_Some (fold_left (queue_one now d) ids g !! f)).
Proof.
  revert g. induction ids as [|x ids IH]; intros g; cbn; [split; [done | set_solver] |].
  destruct (IH (queue_one now d g x)) as [IH1 IH2].
  assert (forall f, is_Some (g !! f) -> is_Some (queue_one now d g x !! f)) as Hq.
  { intros f Hf. unfold queue_one. destruct (_ || _); [done |]. apply insert_garbage_spec. by left. }
  split; [auto |]. intros f Hin Hne Hr. apply elem_of_cons in Hin as [->|Hin]; [| by apply IH2].
  apply IH1. unfold queue_one. rewrite Hr. destruct (Z.eqb_spec x 0); [done |]. apply insert_garbage_spec. by right.
Qed.

(** [queue_garbage] accounts for the files it is given. *)
Lemma sim_queue given lost lost' d a now ids :
  sim given lost d a -> (forall f, f ∈ lost -> f ∈ ids \/ f ∈ lost') -> sim given lost' (queue_garbage now ids d) a.
Proof.
  intros Hs Hl. unfold queue_garbage. eapply sim_garbage; [done |]. intros f [Hf|Hf].
  - right; left. by apply (proj1 (fold_queue now d ids _)).
  - destruct (Hl f Hf) as [Hin|?]; [| auto]. destruct (referenced d f) eqn:Hr; [left; by apply bool_decide_eq_true in Hr |].
    destruct (decide (rows_of f (db_chunks d) = [])) as [|Hne]; [auto |]. right; left.
    apply (proj2 (fold_queue now d ids _)); try done.
    intros ->. destruct (rows_of 0 (db_chunks d)) as [|r l] eqn:E; [done |].
    assert (r ∈ rows_of 0 (db_chunks d)) as [Hz Hin']%list_elem_of_filter by (rewrite E; left).
    pose proof (wf_given _ _ _ (sim_wf _ _ _ _ Hs) _ (wf_row_file _ _ _ _ (sim_wf _ _ _ _ Hs) Hin')). lia.
Qed.

(** ** Objects *)

Lemma sim_view given lost d a : sim given lost d a -> object_view d = spec_view a.
Proof.
  intros Hs. apply map_eq. intros key. unfold object_view, spec_view. rewrite !lookup_fmap.
  destruct (sim_objects _ _ _ _ Hs key) as [o e Hoe|]; [| done]. cbn. by rewrite (or_attrs _ _ _ _ _ Hoe).
Qed.

Lemma sim_old given lost d a key : sim given lost d a -> ob_attrs <$> db_objects d !! key = old_attrs key a.
Proof.
  intros Hs. pose proof (sim_view _ _ _ _ Hs) as Hv. apply (f_equal (fun m => m !! key)) in Hv.
  unfold object_view, spec_view in Hv. by rewrite !lookup_fmap in Hv.
Qed.

(** Writing a row drops the files of the old one. *)
Lemma sim_put given lost d a key o e :
  sim given lost d a -> object_rep given (db_chunks d) key o e -> (forall f, f ∈ object_files o -> is_Some (given !! f)) ->
  sim given (from_option object_files [] (db_objects d !! key) ++ lost)
    (set_objects d (<[key := o]> (db_objects d))) (sset_objects a (<[key := e]> (s_objects a))).
Proof.
  intros Hs Hoe Hg. pose proof Hs as [? ? ? ? ? ? []]. split; try done; cbn.
  - intros key'. destruct (decide (key = key')) as [<-|Hne]; [rewrite !lookup_insert_eq; by constructor |].
    rewrite !lookup_insert_ne by done. apply sim_objects0.
  - split; try done; cbn.
    + intros r Hr. destruct (wf_cover0 r Hr) as [Hf|[?|?]]; [| auto | set_solver].
      apply elem_of_refs in Hf as [(key' & o' & Hk & Hf)|(i & p & Hi & Hf)].
      * destruct (decide (key = key')) as [<-|Hne]; [right; right; rewrite Hk; set_solver |].
        left. apply elem_of_refs. left. exists key', o'. cbn. by rewrite lookup_insert_ne.
      * left. apply elem_of_refs. right. eauto.
    + intros f [(key' & o' & Hk & Hf)|(i & p & Hi & <-)]%elem_of_refs; cbn in *.
      * destruct (decide (key = key')) as [<-|Hne]; [rewrite lookup_insert_eq in Hk; injection Hk as <-; auto |].
        rewrite lookup_insert_ne in Hk by done. apply wf_refs0. by eapply refs_object.
      * apply wf_refs0. by eapply refs_part.
Qed.

(** Changing only the attributes of a row. *)
Lemma refs_delete keys d f :
  f ∈ refs d -> f ∈ refs (delete_objects keys d) \/ f ∈ files_of_keys keys d.
Proof.
  intros [(key & o & Hk & Hf)|(i & p & Hi & Hf)]%elem_of_refs.
  - destruct (decide (key ∈ keys)) as [Hin|Hn].
    + right. unfold files_of_keys. apply list_elem_of_In, in_concat. exists (object_files o). split; [| by apply list_elem_of_In].
      apply list_elem_of_In, list_elem_of_fmap. exists key. by rewrite Hk.
    + left. apply elem_of_refs. left. exists key, o. split; [| done]. cbn. by apply map_lookup_filter_Some.
  - left. apply elem_of_refs. right. eauto.
Qed.

Lemma refs_delete_sub keys d f : f ∈ refs (delete_objects keys d) -> f ∈ refs d.
Proof.
  intros [(key & o & Hk & Hf)|(i & p & Hi & Hf)]%elem_of_refs; apply elem_of_refs; [left | right; eauto].
  cbn in Hk. apply map_lookup_filter_Some in Hk as [Hk _]. eauto.
Qed.

Lemma sim_delete given lost d a keys :
  sim given lost d a -> sim given (files_of_keys keys d ++ lost) (delete_objects keys d) (spec_delete keys a).
Proof.
  intros [? ? ? ? ? ? []]. split; try done; cbn.
  - intros key. specialize (sim_objects0 key). rewrite !map_lookup_filter.
    destruct sim_objects0; cbn; [| constructor]. case_guard; by constructor.
  - split; try done; cbn.
    + intros r Hr. destruct (wf_cover0 r Hr) as [Hf|[?|?]]; [| auto | set_solver].
      destruct (refs_delete keys d _ Hf); [auto |]. right; right. set_solver.
    + intros f Hf%refs_delete_sub. auto.
Qed.

(** ** Uploads and parts *)

Lemma sim_part_delete given lost d a i :
  sim given lost d a ->
  sim given (option_list (pt_file_id <$> db_parts d !! i) ++ lost)
    (set_parts d (delete i (db_parts d))) (sset_parts a (delete i (s_parts a))).
Proof.
  intros [? ? ? ? ? ? []]. split; try done; cbn.
  - intros j. destruct (decide (i = j)) as [<-|]; [rewrite !lookup_delete_eq; constructor | by rewrite !lookup_delete_ne].
  - split; try done; cbn.
    + intros r Hr. destruct (wf_cover0 r Hr) as [Hf|[?|?]]; [| auto | set_solver].
      apply elem_of_refs in Hf as [(key & o & Hk & Hf)|(j & p & Hj & Hf)].
      * left. apply elem_of_refs. left. eauto.
      * destruct (decide (i = j)) as [<-|]; [right; right; rewrite Hj; cbn; set_solver |].
        left. apply elem_of_refs. right. exists j, p. cbn. by rewrite lookup_delete_ne.
    + intros f [(key & o & Hk & Hf)|(j & p & Hj & <-)]%elem_of_refs; cbn in *; apply wf_refs0.
      * by eapply refs_object.
      * apply lookup_delete_Some in Hj as [_ Hj]. by eapply refs_part.
    + intros id no p Hp. apply lookup_delete_Some in Hp as [_ Hp]. eauto.
Qed.

Lemma sim_part_insert given lost d a id no p q :
  sim given lost d a -> db_parts d !! (id, no) = None -> part_rep given (db_chunks d) p q -> is_Some (given !! pt_file_id p) ->
  part_shape no p = true -> is_Some (db_uploads d !! id) ->
  sim given lost (set_parts d (<[(id, no) := p]> (db_parts d))) (sset_parts a (<[(id, no) := q]> (s_parts a))).
Proof.
  intros [? ? ? ? ? ? []] Hn Hpq Hg Hsh Hup. split; try done; cbn.
  - intros j. destruct (decide ((id, no) = j)) as [<-|]; [rewrite !lookup_insert_eq; by constructor | by rewrite !lookup_insert_ne].
  - split; try done; cbn.
    + intros r Hr. destruct (wf_cover0 r Hr) as [Hf|[?|?]]; auto. left.
      apply elem_of_refs in Hf as [(key & o & Hk & Hf)|(j & p' & Hj & Hf)]; apply elem_of_refs; [left; eauto |].
      right. exists j, p'. cbn. split; [| done]. rewrite lookup_insert_ne; [done |]. intros <-. congruence.
    + intros f [(key & o & Hk & Hf)|(j & p' & Hj & <-)]%elem_of_refs; cbn in *.
      * apply wf_refs0. by eapply refs_object.
      * apply lookup_insert_Some in Hj as [[_ <-]|[_ Hj]]; [done |]. apply wf_refs0. by eapply refs_part.
    + intros id' no' p' [[[= <- <-] <-]|[_ Hp]]%lookup_insert_Some; eauto.
Qed.

(** [commit_part] *)
Lemma sim_commit_part given lost d a now id no p q :
  sim given lost d a -> part_rep given (db_chunks d) p q -> is_Some (given !! pt_file_id p) -> part_shape no p = true ->
  is_Some (db_uploads d !! id) ->
  exists d', commit_part now id no p d = Ok (tt, d') /\ sim given lost d' (sset_parts a (<[(id, no) := q]> (s_parts a))) /\
    pt_file_id p ∈ refs d'.
Proof.
  intros Hs Hpq Hg Hsh Hup. eexists. split.
  { unfold commit_part, tables, update, require, mbind, txn_bind, mret, txn_ret. rewrite Hsh, bool_decide_true by done. reflexivity. }
  set (d2 := queue_garbage _ _ _).
  assert (sim given lost d2 (sset_parts a (delete (id, no) (s_parts a)))) as Hs2.
  { eapply sim_queue; [by apply sim_part_delete |]. intros f. rewrite elem_of_app. tauto. }
  pose proof (sim_part_insert given lost d2 _ id no p q Hs2 (lookup_delete_eq _ _) Hpq Hg Hsh Hup) as Hs3.
  cbn [s_parts sset_parts] in Hs3. rewrite (insert_delete_eq (s_parts a)) in Hs3. split; [exact Hs3 |].
  eapply refs_part. cbn. apply lookup_insert_eq.
Qed.

Lemma upload_files_elem id d f :
  f ∈ upload_files id d <-> exists no p, db_parts d !! (id, no) = Some p /\ pt_file_id p = f.
Proof.
  unfold upload_files. rewrite list_elem_of_fmap. split.
  - intros (p & -> & Hp). apply list_elem_of_fmap in Hp as ([[id' no] p'] & -> & Hin).
    apply elem_of_map_to_list, map_lookup_filter_Some in Hin as [Hin Hid]. cbn in Hid. subst id'. eauto.
  - intros (no & p & Hp & <-). exists p. split; [done |]. apply list_elem_of_fmap. exists ((id, no), p). split; [done |].
    apply elem_of_map_to_list. by apply map_lookup_filter_Some.
Qed.

Lemma sim_delete_upload given lost d a id :
  sim given lost d a -> sim given (upload_files id d ++ lost) (delete_upload id d) (spec_delete_upload id a).
Proof.
  intros [? ? ? ? ? ? []]. split; try done; cbn.
  - intros j. specialize (sim_parts0 j). rewrite !map_lookup_filter. destruct sim_parts0; cbn; [| constructor].
    case_guard; by constructor.
  - by rewrite sim_uploads0.
  - split; try done; cbn.
    + intros r Hr. destruct (wf_cover0 r Hr) as [Hf|[?|?]]; [| auto | set_solver].
      apply elem_of_refs in Hf as [(key & o & Hk & Hf)|([id' no] & p & Hj & Hf)]; [left; apply elem_of_refs; left; eauto |].
      destruct (decide (id' = id)) as [->|Hne].
      * right; right. apply elem_of_app. left. apply upload_files_elem. eauto.
      * left. apply elem_of_refs. right. exists (id', no), p. split; [| done]. cbn. by apply map_lookup_filter_Some.
    + intros f [(key & o & Hk & Hf)|(j & p & Hj & <-)]%elem_of_refs; cbn in *; apply wf_refs0; [by eapply refs_object |].
      apply map_lookup_filter_Some in Hj as [Hj _]. by eapply refs_part.
    + intros id' no p [Hp Hne]%map_lookup_filter_Some. cbn in Hne. destruct (wf_parts0 _ _ _ Hp) as [? ?].
      split; [done |]. by rewrite lookup_delete_ne.
Qed.

Lemma sim_create given lost d a id u :
  sim given lost d a -> sim given lost (set_uploads d (<[id := u]> (db_uploads d))) (sset_uploads a (<[id := u]> (s_uploads a))).
Proof.
  intros [? ? ? ? ? ? []]. split; try done; cbn; [by rewrite sim_uploads0 |]. split; try done; cbn.
  intros id' no p Hp. destruct (wf_parts0 _ _ _ Hp) as [? ?]. split; [done |].
  destruct (decide (id = id')) as [->|]; [rewrite lookup_insert_eq; by eexists | by rewrite lookup_insert_ne].
Qed.

(** Queueing more, as [expire_uploads] does. *)
Lemma fold_queue_all now ids g :
  forall f, is_Some (g !! f) \/ f ∈ ids -> is_Some (fold_left (insert_garbage now) ids g !! f).
Proof.
  revert g. induction ids as [|x ids IH]; intros g f Hf; cbn; [destruct Hf; [done | set_solver] |]. apply IH.
  destruct (decide (f ∈ ids)); [by right |]. left. apply insert_garbage_spec. set_solver.
Qed.

Lemma sim_queue_all given lost d a now ids : sim given lost d a -> sim given lost (queue_all now ids d) a.
Proof.
  intros Hs. unfold queue_all. eapply sim_garbage; [done |]. intros f [Hf|Hf]; [| auto].
  right; left. apply fold_queue_all. by left.
Qed.

(** ** Chunk rows *)

Definition row_key (r : chunk_row) : Z * Z := (cr_file r, cr_no r).

Lemma rows_of_app f l1 l2 : rows_of f (l1 ++ l2) = rows_of f l1 ++ rows_of f l2.
Proof. apply filter_app. Qed.

Lemma rows_of_other f g rows : Forall (fun r => cr_file r = g) rows -> f <> g -> rows_of f rows = [].
Proof. intros Hall Hne. apply filter_none. intros r Hr. rewrite Forall_forall in Hall. rewrite (Hall r Hr). congruence. Qed.

Lemma rows_of_all f rows : Forall (fun r => cr_file r = f) rows -> rows_of f rows = rows.
Proof. intros Hall. apply filter_all. by apply Forall_forall. Qed.

Lemma file_keys f rows : Forall (fun r => cr_file r = f) rows -> row_key <$> rows = pair f <$> (cr_no <$> rows).
Proof.
  intros Hall. rewrite Forall_forall in Hall. rewrite <- list_fmap_compose. apply list_fmap_ext. intros j r Hj. unfold row_key. cbn.
  by rewrite (Hall r) by (by eapply list_elem_of_lookup_2).
Qed.

Lemma rows_of_file f rows : Forall (fun r => cr_file r = f) (rows_of f rows).
Proof. apply Forall_forall. by intros r [Hf _]%list_elem_of_filter. Qed.

(** The row numbers of a file are distinct. *)
Lemma file_numbers given lost d f : wf given lost d -> NoDup (cr_no <$> rows_of f (db_chunks d)).
Proof.
  intros Hwf. apply (NoDup_fmap_1 (pair f)). rewrite <- file_keys by apply rows_of_file.
  eapply sublist_NoDup; [apply (wf_key _ _ _ Hwf) |]. apply fmap_sublist, sublist_filter.
Qed.

(** Inserting the rows of a new file. *)
Lemma insert_new_file given lost d a fid rows body :
  sim given lost d a -> given !! fid = None -> 1 <= fid < 2 ^ 63 ->
  Forall (fun r => cr_file r = fid) rows -> NoDup (cr_no <$> rows) -> Forall (fun r => chunk_shape r = true) rows ->
  Forall (fun r => r ∈ stored_body fid body) rows ->
  insert_chunks rows d = Ok (tt, set_chunks d (db_chunks d ++ rows)) /\
  sim (<[fid := body]> given) (fid :: lost) (set_chunks d (db_chunks d ++ rows)) a /\
  rows_of fid (db_chunks d ++ rows) = rows.
Proof.
  intros Hs Hfid Hrange Hall Hnd Hsh Hbody. pose proof (sim_wf _ _ _ _ Hs) as Hwf. pose proof Hwf as []. rewrite Forall_forall in Hall, Hbody.
  assert (forall r, r ∈ db_chunks d -> cr_file r <> fid) as Hold by (intros r Hr <-; destruct (wf_rows0 r Hr) as (? & ? & _); congruence).
  assert (NoDup (row_key <$> db_chunks d ++ rows)) as Hkeys.
  { rewrite fmap_app. apply NoDup_app. split; [done |]. split.
    - intros x (r & -> & Hr)%list_elem_of_fmap (r' & Hk & Hr')%list_elem_of_fmap. injection Hk as Hk _.
      apply (Hold r Hr). by rewrite Hk, (Hall r' Hr').
    - rewrite (file_keys fid) by by apply Forall_forall.
      apply NoDup_fmap_2; [| done]. by intros ?? [=]. }
  assert (rows_of fid (db_chunks d ++ rows) = rows) as Hrows.
  { rewrite rows_of_app, (rows_of_all fid rows) by by apply Forall_forall. unfold rows_of. rewrite filter_none; [done |].
    intros r Hr Hf. by apply (Hold r Hr). }
  split.
  { unfold insert_chunks, tables, require, update, mbind, txn_bind, mret, txn_ret.
    rewrite (proj2 (forallb_forall _ _)) by (intros r Hr%list_elem_of_In; by rewrite Forall_forall in Hsh; apply Hsh).
    by rewrite bool_decide_true. }
  split; [| done]. eapply sim_set_chunks; [done | by apply insert_subseteq | |].
  - intros f Hf. rewrite rows_of_app, (rows_of_other f fid rows); [by rewrite app_nil_r | by apply Forall_forall |].
    intros ->. destruct (wf_refs0 fid Hf). congruence.
  - split; cbn; try done.
    + by apply Forall_app.
    + intros r [Hr|Hr]%elem_of_app; [| right; right; rewrite (Hall r Hr); left]. destruct (wf_cover0 r Hr) as [?|[?|?]]; auto.
      right; right. by right.
    + intros f Hf. rewrite lookup_insert_is_Some'. right. by apply wf_refs0.
    + intros r [Hr|Hr]%elem_of_app.
      * destruct (wf_rows0 r Hr) as (b & Hb & Hin). exists b. rewrite lookup_insert_ne; [done |]. intros E. by apply (Hold r Hr).
      * exists body. rewrite (Hall r Hr), lookup_insert_eq. split; [done | by apply Hbody].
    + intros f [<-|Hf]%lookup_insert_is_Some'; auto.
Qed.

Lemma stored_body_file fid body : Forall (fun r => cr_file r = fid) (stored_body fid body).
Proof. apply Forall_forall. intros r (i & -> & _)%list_elem_of_fmap. done. Qed.

Lemma stored_body_numbers fid body : NoDup (cr_no <$> stored_body fid body).
Proof.
  unfold stored_body, stored_rows. rewrite <- list_fmap_compose. cbn.
  rewrite (list_fmap_ext _ id) by done. rewrite list_fmap_id. apply NoDup_seqZ.
Qed.

Lemma stored_body_shape fid body : Forall (fun r => chunk_shape r = true) (stored_body fid body).
Proof.
  apply Forall_forall. intros r (i & -> & Hi%elem_of_seqZ)%list_elem_of_fmap. unfold chunk_shape. cbn [cr_no cr_data].
  pose proof (row_count_bounds (zlen body) (zlen_nonneg body)) as Hb. pose proof (zlen_nonneg body).
  assert (zlen (row_bytes body i) = Z.min ((i + 1) * RowBytes) (zlen body) - i * RowBytes) as Hl.
  { unfold row_bytes. apply zlen_slice_ok. split; unfold row_count, RowBytes in *; div_lia. }
  assert (0 < zlen (row_bytes body i) <= 8120) as Hr by (unfold row_count, RowBytes in *; div_lia).
  pose proof (zlen_compressBlock (row_bytes body i)).
  assert (row_bytes body i <> []) as Hne by (intros E; rewrite E in Hr; unfold zlen in Hr; cbn in Hr; lia).
  pose proof (zlen_pos _ (compressBlock_nonempty _ Hne)). lia.
Qed.

Lemma copyRows_spec given lost d a fid srcs :
  sim given lost d a -> given !! fid = None -> 1 <= fid < 2 ^ 63 -> zlen (concat srcs) <= max_file_size ->
  exists f rows, copyRows fid srcs d = Ok (f, set_chunks d rows) /\
    sim (<[fid := concat srcs]> given) (fid :: lost) (set_chunks d rows) a /\
    file_holds (<[fid := concat srcs]> given) rows fid (concat srcs) /\
    rf_hashed f = concat srcs /\ rf_size f = zlen (concat srcs) /\ rf_fileID f = fid.
Proof.
  intros Hs Hfid Hr Hlen. destruct (ingest_file fid srcs) as (f & stream & E & Hp & Hf); [lia | unfold max_file_size, RowBytes in *; lia |].
  destruct (insert_new_file given lost d a fid (stored_body fid (concat srcs)) (concat srcs) Hs Hfid Hr) as (Hi & Hs' & Hrows);
    [apply stored_body_file | apply stored_body_numbers | apply stored_body_shape | by apply Forall_forall |].
  exists f, (db_chunks d ++ stored_body fid (concat srcs)). split.
  { unfold copyRows, from_result, mbind, txn_bind, mret, txn_ret. rewrite E. cbn [snd fst]. rewrite Hp. by rewrite Hi. }
  split; [done |]. split; [| done]. split; [apply lookup_insert_eq |]. unfold file_stored. by rewrite <- Hrows at 2.
Qed.

Lemma copyRows_too_large d fid srcs : max_file_size < zlen (concat srcs) -> copyRows fid srcs d = Err RowCount.
Proof.
  intros Hgt. unfold copyRows, from_result, mbind, txn_bind, throw.
  rewrite ingest_too_large by (unfold max_file_size, RowBytes in *; lia). done.
Qed.

(** ** The reaper *)

Lemma delete_rows_sublist f n rows : delete_rows f n rows `sublist_of` rows.
Proof.
  revert n. induction rows as [|r rows IH]; intros n; cbn; [constructor |]. destruct n; [done |].
  destruct (cr_file r =? f); by constructor.
Qed.

Lemma delete_rows_other f g n rows : g <> f -> rows_of g (delete_rows f n rows) = rows_of g rows.
Proof.
  intros Hne. revert n. induction rows as [|r rows IH]; intros n; cbn [delete_rows]; [done |]. destruct n; [done |].
  unfold rows_of in *. destruct (Z.eqb_spec (cr_file r) f) as [Hf|Hf].
  - rewrite IH. rewrite (filter_cons_False _ r) by congruence. done.
  - rewrite !filter_cons. by rewrite IH.
Qed.

Lemma file_rows_nil f rows : file_rows f rows = [] -> rows_of f rows = [].
Proof.
  intros E. apply filter_none. intros r Hr Hf. assert (r ∈ file_rows f rows) as Hin.
  { apply list_elem_of_In, filter_In. split; [by apply list_elem_of_In | by apply Z.eqb_eq]. }
  rewrite E in Hin. by apply elem_of_nil in Hin.
Qed.

Lemma wf_sublist given lost d rows : wf given lost d -> rows `sublist_of` db_chunks d -> wf given lost (set_chunks d rows).
Proof.
  intros [] Hsub. assert (forall r, r ∈ rows -> r ∈ db_chunks d) as Hin by (intros r Hr; by eapply elem_of_sublist).
  split; cbn; try done; auto.
  - eapply sublist_NoDup; [done |]. by apply fmap_sublist.
  - apply Forall_forall. rewrite Forall_forall in wf_chunk0. auto.
Qed.

Lemma sim_unqueue given d a f :
  sim given [] d a -> f ∈ refs d \/ rows_of f (db_chunks d) = [] -> sim given [] (unqueue f d) a.
Proof.
  intros Hs Hf. eapply sim_garbage; [done |]. intros g [Hg|Hg]; [| by apply elem_of_nil in Hg].
  destruct (decide (f = g)) as [<-|Hne]; [tauto |]. right; left. by rewrite lookup_delete_ne.
Qed.

Lemma sim_reap given d a now grace budget locked pinned :
  sim given [] d a -> exists x d', reapOne now grace budget locked pinned d = Ok (x, d') /\ sim given [] d' a.
Proof.
  intros Hs. unfold reapOne, tables, update, mbind, txn_bind, mret, txn_ret.
  destruct (claimReapable _ _) as [f|]; [| by do 2 eexists].
  destruct (referenced d f) eqn:Hr.
  { do 2 eexists. split; [done |]. apply sim_unqueue; [done |]. left. by apply bool_decide_eq_true in Hr. }
  apply bool_decide_eq_false in Hr. set (rows := delete_rows f (Z.to_nat budget) (db_chunks d)).
  assert (sim given [] (set_chunks d rows) a) as Hs'.
  { eapply sim_set_chunks; [done | done | |].
    - intros g Hg. unfold rows. rewrite delete_rows_other; [done |]. by intros ->.
    - apply wf_sublist; [apply Hs | apply delete_rows_sublist]. }
  destruct (_ && _) eqn:Hd; do 2 eexists; (split; [done |]); [| exact Hs'].
  apply sim_unqueue; [exact Hs' |]. right. apply andb_true_iff in Hd as [_ Hd]. apply bool_decide_eq_true in Hd. by apply file_rows_nil.
Qed.

Lemma sim_reorder given d a rows : sim given [] d a -> rows ≡ₚ db_chunks d -> sim given [] (set_chunks d rows) a.
Proof.
  intros Hs Hp. eapply sim_set_chunks; [done | done | |].
  - intros f _. unfold rows_of. by rewrite Hp.
  - destruct (sim_wf _ _ _ _ Hs). split; cbn; try done.
    + by rewrite Hp.
    + by rewrite Hp.
    + intros r Hr. rewrite Hp in Hr. by apply wf_cover0.
    + intros r Hr. rewrite Hp in Hr. by apply wf_rows0.
Qed.

(** ** Expiry of uploads *)

Lemma sim_expire_upload given d a now id :
  sim given [] d a ->
  sim given [] (delete_upload id (queue_all now (upload_files id d) d)) (spec_delete_upload id a).
Proof.
  intros Hs. eapply sim_lost; [by apply sim_delete_upload, sim_queue_all |].
  intros f. rewrite app_nil_r. intros Hf. right; right. cbn. apply fold_queue_all. by right.
Qed.

Lemma sim_expire_loop given n now grace locked removed d a :
  sim given [] d a ->
  let '(r, d') := expire_upload_loop n now grace locked removed d in
  let '(r', a') := spec_expire_loop now n grace locked removed a in
  r = r' /\ sim given [] d' a'.
Proof.
  revert removed d a. induction n as [|n IH]; intros removed d a Hs; cbn; [done |].
  rewrite (sim_uploads _ _ _ _ Hs). destruct (victim_upload _ _ _ _) as [id|]; [| done].
  apply IH. by apply sim_expire_upload.
Qed.

End Rep.
