(* ===== verification/ObjectRefine.v ===== *)
(** * The operations implement the specification

    Every operation of [Objects.v], run on tables that represent a
    specification, gives the result of the specification's operation and
    tables that represent its state. *)

From stdpp Require Import gmap sorting.
From S2P Require Import Prelude GoStrings Ns Ranges Precond Blocks Reader Ids Tables Objects ObjectSpec ObjectRep.

(** ** Comparing transactions

    Equal results and related states; the tables side may also fail for want
    of a file identifier. *)

Definition related {A B} (Q : A -> B -> db -> spec -> Prop) (r : result store_error (A * db)) (r' : result store_error (B * spec)) : Prop :=
  match r, r' with
  | Ok (x, d), Ok (y, a) => Q x y d a
  | Err e, Err e' => e = e' \/ e = NoFileID
  | Err e, Ok _ => e = NoFileID
  | Ok _, Err _ => False
  end.

Lemma related_bind {A B C D} (Q : A -> B -> db -> spec -> Prop) (R : C -> D -> db -> spec -> Prop)
    (c : tx A) (c' : stx B) (f : A -> tx C) (f' : B -> stx D) d a :
  related Q (c d) (c' a) -> (forall x y d' a', Q x y d' a' -> related R (f x d') (f' y a')) ->
  related R ((c ≫= f) d) ((c' ≫= f') a).
Proof.
  unfold mbind, txn_bind. destruct (c d) as [[x d']|e], (c' a) as [[y a']|e']; cbn; intros H Hf; try done; [by apply Hf |].
  subst e. destruct (f' y a') as [[]|]; cbn; auto.
Qed.

Lemma related_require {C D} (R : C -> D -> db -> spec -> Prop) b b' e (f : tx C) (f' : stx D) d a :
  b = b' -> (b = true -> related R (f d) (f' a)) -> related R ((require b e;; f) d) ((require b' e;; f') a).
Proof. intros <- Hf. destruct b; [by apply Hf | by left]. Qed.

Lemma related_require_l {C D} (R : C -> D -> db -> spec -> Prop) b e (f : tx C) (r : result store_error (D * spec)) d :
  b = true -> related R (f d) r -> related R ((require b e;; f) d) r.
Proof. by intros ->. Qed.

Lemma related_result {A E C D} (R : C -> D -> db -> spec -> Prop) (e : E -> store_error) (r : result E A) (f : A -> tx C) (f' : A -> stx D) d a :
  (forall x, r = Ok x -> related R (f x d) (f' x a)) -> related R ((from_result e r ≫= f) d) ((from_result e r ≫= f') a).
Proof. intros Hf. destruct r as [x|x]; [by apply Hf | by left]. Qed.

Lemma related_tables {A B} (R : A -> B -> db -> spec -> Prop) (f : db -> tx A) (f' : spec -> stx B) d a :
  related R (f d d) (f' a a) -> related R ((tables ≫= f) d) ((tables ≫= f') a).
Proof. done. Qed.

Lemma related_tables_l {A B} (R : A -> B -> db -> spec -> Prop) (f : db -> tx A) (r : result store_error (B * spec)) d :
  related R (f d d) r -> related R ((tables ≫= f) d) r.
Proof. done. Qed.

Lemma related_impl {A B} (Q Q' : A -> B -> db -> spec -> Prop) r r' :
  related Q r r' -> (forall x y d a, Q x y d a -> Q' x y d a) -> related Q' r r'.
Proof. destruct r as [[]|], r' as [[]|]; cbn; auto. Qed.

Section Refine.
Context `{ZL : ZstdLaws} `{D : Digests} (k : Kind).

(** ** Publication *)

Definition with_content (p : publish) (file : option Z) (data : option bytes) : publish :=
  mkPublish (p_key p) file data (p_size p) (p_sha256 p) (p_etag p) (p_meta p) (p_ct p) (p_cond p)
    (p_if_match p) (p_expires_at p) (p_keep_ttl p) (p_origin_etag p) (p_expected_origin p) (p_skip_lock p) (p_s3_meta p).

Lemma rep_old_files given rows key o e f : object_rep k given rows key o e -> f ∈ object_files o -> f ∈ old_files (Some o).
Proof.
  intros [_ _ _ Hst]. unfold object_files, old_files. destruct (en_layout e); cbn in Hst.
  - rewrite Hst. cbn. set_solver.
  - destruct Hst as (g & -> & _). cbn. set_solver.
  - destruct Hst as (g & ps & -> & _). cbn. set_solver.
Qed.

Lemma sim_old_files given lost d a key f :
  sim k given lost d a -> f ∈ from_option object_files [] (db_objects d !! key) -> f ∈ old_files (db_objects d !! key).
Proof.
  intros Hs. destruct (sim_objects _ _ _ _ _ Hs key) as [o e Hoe|]; [| done]. by apply rep_old_files with (1 := Hoe).
Qed.

Lemma replaced_files given lost d a key f :
  sim k given lost d a -> f ∈ from_option object_files [] (db_objects d !! key) ++ lost -> f ∈ old_files (db_objects d !! key) \/ f ∈ lost.
Proof. intros Hs [Hf|Hf]%elem_of_app; [left; by eapply sim_old_files | by right]. Qed.

Lemma related_publish given lost d a now p file data body l :
  sim k given lost d a ->
  (forall t, at_size t = p_size p -> layout_shape k (mkObject t file None None data) = true) ->
  (forall t, stored_as given (db_chunks d) (mkObject t file None None data) body l) ->
  p_size p = zlen body -> (forall f, file = Some f -> is_Some (given !! f)) ->
  related (fun r r' d' a' => r = r' /\ match r with ok => sim k given lost d' a' /\ (forall f, file = Some f -> f ∈ refs d') | _ => True end)
    (publish_value k now (with_content p file data) d) (spec_publish k now p body l a).
Proof.
  intros Hs Hlay Hst Hsize Hfile. unfold publish_value, spec_publish, tables, mbind, txn_bind, mret, txn_ret. cbn [p_s3_meta with_content p_key].
  assert (forall le, lease_held now d le = s_lease_held now a le) as Hle.
  { intros le. unfold lease_held, s_lease_held. by rewrite (sim_leases _ _ _ _ _ Hs). }
  destruct (match sm_fill (p_s3_meta p) with Some _ => _ | None => _ end) eqn:E1,
    (match sm_fill (p_s3_meta p) with Some le => negb (s_lease_held now a le) | None => false end) eqn:E2;
    [done | destruct (sm_fill _); [rewrite Hle in E1; congruence | done].. |].
  rewrite (sim_old _ _ _ _ _ _ Hs).
  change (publish_check now (with_content p file data)) with (publish_check now p).
  change (upsert_applies (with_content p file data)) with (upsert_applies p).
  change (new_attrs now (with_content p file data)) with (new_attrs now p). cbn [p_keep_ttl p_file_id p_data with_content].
  destruct (publish_check now p (old_attrs (p_key p) a)); try done.
  destruct (upsert_applies p (old_attrs (p_key p) a)); [| done].
  set (t := upsert_attrs _ _ _ _).
  assert (at_size t = p_size p) as Ht.
  { unfold t, upsert_attrs. destruct (old_attrs _ _); [| done]. by destruct (_ && _). }
  unfold write_object_row, put_entity, require, update, object_shape, mbind, txn_bind, mret, txn_ret.
  rewrite (Hlay t Ht), andb_true_r. cbn [en_attrs ob_attrs]. destruct (attr_shape k (p_key p) t) eqn:Hsh; [| by left].
  cbn [related]. split; [done |]. split; [| intros f ->; eapply refs_object; [apply lookup_insert_eq | cbn; set_solver]].
  assert (object_rep k given (db_chunks d) (p_key p) (mkObject t file None None data) (mkEntity t body l)) as Hoe.
  { split; cbn; [done | by rewrite Ht | | apply Hst]. unfold object_shape. cbn [ob_attrs]. by rewrite Hsh, (Hlay t Ht). }
  eapply sim_queue; [| intros f; by apply (replaced_files given lost d a)].
  cbn [db_origin_metadata s_origin_metadata set_checksums set_objects sset_objects]. rewrite (sim_origin _ _ _ _ _ Hs).
  apply sim_origins, sim_checksums, sim_put; [done | done |]. intros f. destruct file as [g|]; cbn; [| set_solver].
  intros ->%list_elem_of_singleton. by apply Hfile.
Qed.

Definition published_as (given : gmap Z bytes) (r r' : outcome) (d : db) (a : spec) : Prop :=
  r = r' /\ match r with ok => sim k given [] d a | _ => True end.

Lemma related_outcome {B C} (R : B -> C -> db -> spec -> Prop) given r r' (f : tx B) (f' : stx C) d a :
  published_as given r r' d a -> (sim k given [] d a -> related R (f d) (f' a)) ->
  related R ((outcome_error r;; f) d) ((outcome_error r';; f') a).
Proof. intros [<- Hs] Hf. destruct r; [by apply Hf | by left..]. Qed.

Lemma inline_shape data t : zlen data <= InlineMax k -> at_size t = zlen data -> layout_shape k (mkObject t None None None (Some (compressBlock data))) = true.
Proof.
  intros Hle Ht. unfold layout_shape. cbn. rewrite Ht. pose proof (zlen_compressBlock data). pose proof (zlen_nonneg data).
  destruct (Z.eq_dec (zlen data) 0) as [Hz|Hz]; [lia |]. assert (data <> []) as Hne by (by intros ->).
  pose proof (zlen_pos _ (compressBlock_nonempty data Hne)). lia.
Qed.

Lemma related_put_inline given d a s over now ref data opts :
  sim k given [] d a ->
  related (fun m w d' a' => (m_Size m, oi_ETag (m_Info m)) = w /\ sim k given [] d' a')
    (PutInline k s over now ref data opts d) (spec_put_inline k s over now ref data opts a).
Proof.
  intros Hs. unfold PutInline, spec_put_inline. apply related_result. intros o _.
  apply related_require; [done |]. intros Hlen%Z.leb_le. apply related_require; [done |]. intros _.
  eapply (related_bind (published_as given)).
  - unfold put_inline. apply related_require_l.
    { cbn [p_size publish_of]. pose proof (zlen_compressBlock data). lia. }
    eapply related_impl.
    + apply (related_publish given [] d a now _ None (Some (compressBlock data)) data InRow Hs); try done.
      intros t Ht. by apply inline_shape.
    + intros r r' d' a' [<- Hr]. split; [done |]. destruct r; tauto.
  - intros r r' d' a' Hr. eapply related_outcome; [exact Hr |]. intros Hs'. split; [| done]. done.
Qed.

(** ** Streamed writes *)

Lemma file_shape t f : at_size t <= max_file_size -> layout_shape k (mkObject t (Some f) None None None) = true.
Proof. intros Hle. unfold layout_shape. cbn. lia. Qed.

Lemma related_write given d a s over now fid ref srcs cs opts :
  sim k given [] d a -> given !! fid = None -> 1 <= fid < 2 ^ 63 ->
  related (fun p w d' a' => (ps_Size p, ps_ETag p) = w /\ sim k (<[fid := concat srcs]> given) [] d' a')
    (WriteObject k s over now fid ref srcs cs opts d) (spec_write k s over now ref (concat srcs) cs opts a).
Proof.
  intros Hs Hfid Hr. unfold WriteObject, spec_write. apply related_result. intros o _.
  apply related_require; [done |]. intros _.
  destruct (Z.leb_spec (zlen (concat srcs)) max_file_size) as [Hle|Hgt].
  2: { unfold mbind, txn_bind. rewrite copyRows_too_large by done. by left. }
  destruct (copyRows_spec k given [] d a fid srcs Hs Hfid Hr Hle) as (f & rows & E & Hs' & Hst & Hh & Hsz & Hf).
  unfold mbind at 1, txn_bind at 1. rewrite E. cbn [require]. rewrite Hsz.
  apply (related_result _ _ _ _ _ (set_chunks d rows) a). intros o' _.
  unfold published, digests. rewrite Hh, Hsz, Hf. cbn [ps_Size ps_ETag ps_FileID ps_SHA256].
  eapply (related_bind (fun _ _ d' a' => sim k (<[fid := concat srcs]> given) [] d' a')).
  - unfold publishObject, spec_publish_object. apply related_result. intros _ _.
    apply (related_bind (published_as (<[fid := concat srcs]> given))); [| intros r r' d' a' [<- Hr']; destruct r; cbn; auto].
    eapply related_impl.
    + apply (related_publish (<[fid := concat srcs]> given) [fid] (set_chunks d rows) a now
        (publish_of o' (or_key ref) None (zlen (concat srcs)) (sha256 (concat srcs)) (hexEncode (md5 (concat srcs)))
           (default [] (wo_UserMetadata o')) (wo_ContentType o')) (Some fid) None (concat srcs) OneFile Hs'); try done.
      * intros t Ht. apply file_shape. cbn in Ht. lia.
      * intros t. exists fid. done.
      * intros g [= <-]. rewrite lookup_insert_eq. by eexists.
    + intros r r' d' a' [<- Hr']. split; [done |]. destruct r; try done. destruct Hr' as [Hs'' Hin].
      eapply sim_lost; [exact Hs'' |]. intros g ->%list_elem_of_singleton. right; left. by apply Hin.
  - intros _ _ d' a' Hs''. unfold publishPendingOrigin, spec_pending_origin.
    destruct (pb_kind (wo_Publication o')); cbn; try done. split; [done |]. rewrite <- (sim_pending _ _ _ _ _ Hs''). by apply sim_pendings.
Qed.

(** ** Uploads *)

Lemma related_create given d a now id key opts :
  sim k given [] d a ->
  related (fun x y d' a' => x = y /\ sim k given [] d' a') (CreateUpload now id key opts d) (spec_create now id key opts a).
Proof.
  intros Hs. unfold CreateUpload, spec_create.
  apply related_tables.
  apply related_require; [by rewrite (sim_uploads _ _ _ _ _ Hs) |]. intros _. apply related_require; [done |]. intros _.
  split; [done |]. by apply sim_create.
Qed.

Lemma related_find_upload given lost d a id key :
  sim k given lost d a ->
  related (fun u u' d' a' => u = u' /\ d' = d /\ a' = a /\ db_uploads d !! id = Some u) (find_upload id key d) (spec_find_upload id key a).
Proof.
  intros Hs. unfold find_upload, spec_find_upload, tables, mbind, txn_bind. rewrite (sim_uploads _ _ _ _ _ Hs).
  destruct (s_uploads a !! id) as [u|]; [| by left]. unfold require, mret, txn_ret, throw. destruct (bool_decide _); [done | by left].
Qed.

Lemma related_commit_part given lost d a now id no p q :
  sim k given lost d a -> part_rep given (db_chunks d) p q -> is_Some (given !! pt_file_id p) -> is_Some (db_uploads d !! id) ->
  related (fun _ _ d' a' => sim k given lost d' a' /\ pt_file_id p ∈ refs d') (commit_part now id no p d) (spec_put_part id no q a).
Proof.
  intros Hs Hpq Hg Hup. unfold spec_put_part.
  assert (part_shape no p = part_shape no (spart_row q)) as Hsh by (rewrite (pr_row _ _ _ _ Hpq); done). rewrite <- Hsh.
  destruct (part_shape no p) eqn:E.
  - destruct (sim_commit_part k given lost d a now id no p q) as (d' & -> & Hs' & Hin); done.
  - unfold commit_part, tables, update, require, mbind, txn_bind, mret, txn_ret, throw. rewrite E. by left.
Qed.

Lemma related_write_part given d a over now fid id key no srcs cs expected :
  sim k given [] d a -> given !! fid = None -> 1 <= fid < 2 ^ 63 ->
  related (fun p w d' a' => (ps_Size p, ps_ETag p) = w /\ sim k (<[fid := concat srcs]> given) [] d' a')
    (WritePart over now fid id key no srcs cs expected d) (spec_write_part over id key no (concat srcs) cs expected a).
Proof.
  intros Hs Hfid Hr. unfold WritePart, spec_write_part. apply related_require; [done |]. intros _.
  eapply related_bind; [by apply (related_find_upload given []) |]. intros u ? ? ? (<- & -> & -> & Hup).
  destruct (Z.leb_spec (zlen (concat srcs)) max_file_size) as [Hle|Hgt].
  2: { unfold mbind, txn_bind. rewrite copyRows_too_large by done. by left. }
  destruct (copyRows_spec k given [] d a fid srcs Hs Hfid Hr Hle) as (f & rows & E & Hs' & Hst & Hh & Hsz & Hf).
  unfold mbind at 1, txn_bind at 1. rewrite E. cbn [require]. rewrite Hsz.
  apply (related_result _ _ _ _ _ (set_chunks d rows) a). intros c _.
  unfold published, digests. rewrite Hh, Hsz, Hf.
  eapply related_bind; [apply (related_commit_part (<[fid := concat srcs]> given) [fid]); try done |].
  - cbn. rewrite lookup_insert_eq. by eexists.
  - intros _ _ d' a' [Hs'' Hin]. split; [done |]. eapply sim_lost; [done |]. intros g ->%list_elem_of_singleton. by right; left.
Qed.

Lemma related_abort given d a now id key :
  sim k given [] d a ->
  related (fun x y d' a' => x = y /\ sim k given [] d' a') (AbortUpload now id key d) (spec_abort id key a).
Proof.
  intros Hs. unfold AbortUpload, spec_abort, tables, mbind, txn_bind. rewrite (sim_uploads _ _ _ _ _ Hs).
  destruct (s_uploads a !! id) as [u|]; [| done]. destruct (bool_decide _); [| done]. split; [done |].
  eapply sim_queue; [by apply sim_delete_upload |]. intros f. rewrite app_nil_r. auto.
Qed.

Lemma related_copy_part given d a now id dstKey srcKey no :
  sim k given [] d a ->
  related (fun x y d' a' => (fun p => (ps_Size p, ps_ETag p)) <$> x = y /\ sim k given [] d' a')
    (CopyPart now id dstKey srcKey no d) (spec_copy_part now id dstKey srcKey no a).
Proof.
  intros Hs. unfold CopyPart, spec_copy_part. apply related_tables.
  pose proof (sim_objects _ _ _ _ _ Hs srcKey) as Hsrc.
  destruct (db_objects d !! srcKey) as [o|] eqn:Ho, (s_objects a !! srcKey) as [e|]; inversion Hsrc as [? ? Hoe|]; subst; [| by left].
  destruct Hoe as [Hat Hsize Hshape Hst]. cbn zeta. rewrite Hat.
  destruct (negb _); [by left |].
  destruct (en_layout e); cbn in Hst.
  - rewrite Hst. done.
  - destruct Hst as (f & Eo & Hst). rewrite Eo. cbn [ob_inline_data ob_parts ob_file_id ob_attrs].
    destruct (etagMD5 (at_etag (ob_attrs o))) as [m|]; [| done].
    assert (f ∈ refs d) as Hf by (eapply refs_object; [exact Ho |]; rewrite Eo; cbn; set_solver).
    pose proof (sim_given _ _ _ _ _ Hs f Hf) as Hne. rewrite (proj2 (Z.eqb_neq f 0) Hne). cbn [orb].
    destruct (at_size (ob_attrs o) <=? 0); [done |].
    eapply related_bind; [by apply (related_find_upload given []) |]. intros u ? ? ? (<- & -> & -> & Hup).
    assert (forall c, related (fun x y d' a' => (fun p => (ps_Size p, ps_ETag p)) <$> x = y /\ sim k given [] d' a')
      ((commit_part now id no (part_row (mkPublished f (at_size (ob_attrs o)) (hexEncode m) (at_sha256 (ob_attrs o)) m c));;
        mret (Some (mkPublished f (at_size (ob_attrs o)) (hexEncode m) (at_sha256 (ob_attrs o)) m c))) d)
      ((spec_put_part id no (mkSpart (at_size (ob_attrs o)) (at_sha256 (ob_attrs o)) m (cs_Value <$> c) (en_body e));;
        mret (Some (at_size (ob_attrs o), hexEncode m))) a)) as Hc.
    { intros c. eapply related_bind; [apply (related_commit_part given []); try done |].
      - cbn. by apply (wf_refs _ _ _ (sim_wf _ _ _ _ _ Hs)).
      - intros _ _ d' a' [Hs' _]. done. }
    destruct (up_checksum_algorithm u) as [alg|]; [| by apply (Hc None)].
    destruct (bool_decide (alg = "SHA256")); [| done]. apply (Hc (Some (mkChecksum "SHA256" (base64_encode (at_sha256 (ob_attrs o)))))).
  - destruct Hst as (f & ps & Eo & _). rewrite Eo. done.
Qed.

(** ** Deletion *)

Lemma sim_drop given d a now keys :
  sim k given [] d a -> sim k given [] (queue_garbage now (files_of_keys keys d) (delete_objects keys d)) (spec_delete keys a).
Proof. intros Hs. eapply sim_queue; [by apply sim_delete |]. intros f. rewrite app_nil_r. auto. Qed.

Lemma related_delete given d a now keys :
  sim k given [] d a ->
  related (fun x y d' a' => x = y /\ sim k given [] d' a') (DeleteMany now keys d) (spec_delete_many now keys a).
Proof.
  intros Hs. unfold DeleteMany, spec_delete_many. destruct keys as [|key keys]; [done |].
  split; [by rewrite (sim_view _ _ _ _ _ Hs) | by apply sim_drop].
Qed.

Lemma related_evict given d a now maxBytes limit locked :
  sim k given [] d a ->
  related (fun x y d' a' => x = y /\ sim k given [] d' a') (evictCacheOverBudget now maxBytes limit locked d) (spec_evict maxBytes limit locked a).
Proof.
  intros Hs. unfold evictCacheOverBudget, spec_evict. apply related_tables. cbn zeta. rewrite <- (sim_view _ _ _ _ _ Hs).
  split; [done | by apply sim_drop].
Qed.

Lemma related_expire_objects given d a now p_max locked :
  sim k given [] d a ->
  related (fun x y d' a' => x = y /\ sim k given [] d' a') (expire_objects now p_max locked d) (spec_expire_objects now p_max locked a).
Proof.
  intros Hs. unfold expire_objects, spec_expire_objects. apply related_tables. cbn zeta.
  rewrite <- (sim_view _ _ _ _ _ Hs), (sim_origin _ _ _ _ _ Hs). split; [done |].
  set (keep := filter _ _). change (files_of_keys ?x d) with (files_of_keys x (set_origin d keep)). apply sim_drop.
  unfold keep. rewrite (sim_origin _ _ _ _ _ Hs). by apply sim_origins.
Qed.

Lemma related_expire_uploads given d a now grace p_max locked :
  sim k given [] d a ->
  related (fun x y d' a' => x = y /\ sim k given [] d' a') (expire_uploads now grace p_max locked d) (spec_expire_uploads now grace p_max locked a).
Proof.
  intros Hs. unfold expire_uploads, spec_expire_uploads. pose proof (sim_expire_loop k given (Z.to_nat p_max) now grace locked 0 d a Hs) as H.
  destruct (expire_upload_loop _ _ _ _ _ _) as [r d'], (spec_expire_loop _ _ _ _ _ _) as [r' a']. exact H.
Qed.

(** ** Layouts *)

Lemma last_ends_from n bodies : bodies <> [] -> last (ends_from n bodies) = Some (n + zlen (concat bodies)).
Proof.
  revert n. induction bodies as [|b bodies IH]; intros n Hne; [done |]. cbn [ends_from concat]. rewrite zlen_app.
  destruct bodies as [|b' bodies]; [cbn [ends_from last concat]; f_equal; unfold zlen; cbn [length]; lia |].
  change (last (?x :: ends_from ?m (b' :: bodies))) with (last (ends_from m (b' :: bodies))). rewrite IH by done. f_equal. lia.
Qed.

Lemma length_ends_from n bodies : length (ends_from n bodies) = length bodies.
Proof. revert n. induction bodies; intros n; cbn; congruence. Qed.

(** Whatever represents a content has one of the allowed layouts. *)
Lemma stored_shape given rows o body l :
  stored_as given rows o body l -> at_size (ob_attrs o) = zlen body ->
  (l = InRow -> zlen body <= InlineMax k) -> (l = OneFile -> zlen body <= max_file_size) -> layout_shape k o = true.
Proof.
  intros Hst Hsize Hin Hfile. destruct l as [| |bodies]; cbn in Hst.
  - rewrite Hst. apply inline_shape; auto.
  - destruct Hst as (f & -> & _). apply file_shape. cbn. rewrite Hsize. auto.
  - destruct Hst as (f & ps & Eo & Hf & ->). rewrite Eo. unfold layout_shape. cbn [ob_inline_data ob_file_id ob_parts ob_part_ends ob_attrs].
    pose proof (Forall2_length _ _ _ Hf) as Hlen. destruct bodies as [|b bodies]; [done |].
    rewrite length_ends_from, last_ends_from, Hsize, Z.add_0_l, Z.eqb_refl by done. by rewrite !bool_decide_true.
Qed.

Lemma shape_bounds given rows o body l :
  stored_as given rows o body l -> at_size (ob_attrs o) = zlen body -> layout_shape k o = true ->
  (l = InRow -> zlen body <= InlineMax k) /\ (l = OneFile -> zlen body <= max_file_size).
Proof.
  intros Hst Hsize. unfold layout_shape. destruct l; cbn in Hst.
  - rewrite Hst. cbn. rewrite Hsize. split; [intros _; lia | done].
  - destruct Hst as (f & -> & _). cbn. rewrite Hsize. split; [done | intros _; lia].
  - done.
Qed.

(** ** Copies *)

(** The queueing of the files of a replaced row. *)
Definition queue_old (now : Z) (old : option object) : tx unit :=
  match old with
  | Some o => match ob_file_id o with Some f => queueFiles now f (default [] (ob_parts o)) | None => mret tt end
  | None => mret tt
  end.

Lemma sim_queue_old given given' lost d a d1 a1 key now :
  sim k given [] d a -> sim k given' (from_option object_files [] (db_objects d !! key) ++ lost) d1 a1 ->
  (forall f, f ∈ lost -> f ∈ refs d1) ->
  exists d2, queue_old now (db_objects d !! key) d1 = Ok (tt, d2) /\ sim k given' [] d2 a1.
Proof.
  intros Hs Hs1 Hl. assert (sim k given' (old_files (db_objects d !! key)) d1 a1) as Hs2.
  { eapply sim_lost; [exact Hs1 |]. intros f [Hf|Hf]%elem_of_app; [left; by eapply sim_old_files | auto]. }
  assert (forall f, db_objects d !! key ≫= ob_file_id = Some f -> f <> 0) as Hne.
  { intros f Hf. destruct (db_objects d !! key) as [o|] eqn:Ho; [| done]. eapply (sim_given _ _ _ _ _ Hs), refs_object; [exact Ho |].
    unfold object_files. cbn in Hf. rewrite Hf. cbn. set_solver. }
  unfold queue_old. destruct (db_objects d !! key) as [o|]; cbn [mbind option_bind old_files] in *; [| by eexists].
  destruct (ob_file_id o) as [g|]; [| by eexists]. eexists. split; [done |].
  rewrite (proj2 (Z.eqb_neq g 0)) by by apply Hne. eapply sim_queue; [exact Hs2 |]. auto.
Qed.

Lemma related_publish_copy given given' d a over now src e dstKey opts files checks :
  sim k given [] d a -> en_attrs e = ob_attrs src -> at_size (ob_attrs src) = zlen (en_body e) ->
  (en_layout e = InRow -> zlen (en_body e) <= InlineMax k) -> (en_layout e = OneFile -> zlen (en_body e) <= max_file_size) ->
  match files d with
  | Ok (dest, d') => exists lost, sim k given' lost d' a /\ db_objects d' = db_objects d /\
      forall t, let o := mkObject t (df_file dest) (df_parts dest) (ob_part_ends src) (ob_inline_data src) in
        stored_as given' (db_chunks d') o (en_body e) (en_layout e) /\
        (forall f, f ∈ object_files o -> is_Some (given' !! f)) /\ (forall f, f ∈ lost -> f ∈ object_files o)
  | Err x => x = NoFileID
  end ->
  (forall dest d1, exists m, checks dest d1 = set_checksums d1 m) ->
  related (fun _ _ d' a' => sim k given' [] d' a')
    (publishCopy k over now src dstKey opts files checks d) (spec_put_copy k over now e dstKey opts a).
Proof.
  intros Hs Hat Hsize Hin Hfile Hfiles Hchk. unfold publishCopy, spec_put_copy. apply related_require; [by rewrite Hat |]. intros _.
  apply related_tables. cbn zeta. rewrite (sim_old _ _ _ _ _ _ Hs). apply related_require; [done |]. intros _. rewrite Hat.
  unfold mbind at 1, txn_bind at 1. destruct (files d) as [[dest d']|x]; [| subst x; by destruct (put_entity _ _ _ _) as [[]|]; [| right]].
  destruct Hfiles as (lost & Hs' & Hobj & Hst). set (t := copied_attrs _ _ _ _).
  destruct (Hst t) as (Hst1 & Hst2 & Hst3). set (o := mkObject t _ _ _ _) in *.
  assert (layout_shape k o = true) as Hlay by (eapply stored_shape; [exact Hst1 | done.. | done | done]).
  unfold put_entity, write_object_row, update, object_shape. cbn [en_attrs].
  unfold mbind at 1, txn_bind at 1. change (ob_attrs o) with t. rewrite Hlay, andb_true_r.
  destruct (attr_shape k dstKey t) eqn:Hsh; [| by left].
  unfold require, mbind, txn_bind, mret, txn_ret.
  match goal with |- context [checks dest ?x] => destruct (Hchk dest x) as [m Hm]; rewrite Hm; clear Hm end.
  match goal with |- related ?Q (_ ?x) ?r => change (related Q (queue_old now (db_objects d !! dstKey) x) r); set (d1 := x) end.
  assert (object_rep k given' (db_chunks d') dstKey o (mkEntity t (en_body e) (en_layout e))) as Hoe.
  { split; cbn; try done. unfold object_shape. change (ob_attrs o) with t. by rewrite Hsh, Hlay. }
  destruct (sim_queue_old given given' lost d a d1 (sset_objects a (<[dstKey := mkEntity t (en_body e) (en_layout e)]> (s_objects a))) dstKey now Hs)
    as (d2 & E & Hs2); [| | by rewrite E].
  - unfold d1. rewrite <- Hobj. apply sim_checksums. apply (sim_put k given' lost (set_checksums d' _) a dstKey o); [by apply sim_checksums | done | done].
  - intros f Hf. eapply refs_object; [apply lookup_insert_eq |]. by apply Hst3.
Qed.

Lemma stored_as_attrs given rows o body l t :
  stored_as given rows o body l -> stored_as given rows (mkObject t (ob_file_id o) (ob_parts o) (ob_part_ends o) (ob_inline_data o)) body l.
Proof.
  destruct l; cbn.
  - by intros ->.
  - intros (f & -> & Hst). by exists f.
  - intros (f & ps & -> & Hst & ->). by exists f, ps.
Qed.

(** Columns no constraint and no content depends on. *)
Definition keeps_content (f : attrs -> attrs) : Prop :=
  forall t, at_size (f t) = at_size t /\ forall key, attr_shape k key (f t) = attr_shape k key t.

Lemma refs_alter f key d g : g ∈ refs (alter_attrs f key d) <-> g ∈ refs d.
Proof.
  rewrite !elem_of_refs. cbn. split; (intros [(key' & o & Hk & Hf)|?]; [left | by right]).
  - apply lookup_alter_Some in Hk as [(-> & o' & Hk & ->)|[_ Hk]]; eauto.
  - destruct (decide (key = key')) as [->|Hne].
    + eexists key', _. rewrite lookup_alter_eq, Hk. done.
    + exists key', o. by rewrite lookup_alter_ne.
Qed.

Lemma sim_alter given lost d a f key :
  sim k given lost d a -> keeps_content f -> sim k given lost (alter_attrs f key d) (spec_alter f key a).
Proof.
  intros [Hobj Hpart Hup Hor Hle Hpe [Hkey Hch Hcov Hwr Hrow Hgiv Hsh]] Hf. split; try done; cbn.
  - intros key'. specialize (Hobj key'). destruct (decide (key = key')) as [->|Hne]; [| by rewrite !lookup_alter_ne].
    rewrite !lookup_alter_eq. destruct Hobj as [o e [Hat Hsize Hshape Hst]|]; constructor.
    destruct (Hf (ob_attrs o)) as [Hfs Hfa]. split; cbn; [by rewrite Hat | by rewrite Hfs | | by apply stored_as_attrs].
    unfold object_shape, layout_shape in *. cbn. by rewrite Hfa, Hfs.
  - split; try done; cbn.
    + intros r Hr. rewrite refs_alter. by apply Hcov.
    + intros g Hg%refs_alter. by apply Hwr.
Qed.

Lemma related_source {B C} (R : B -> C -> db -> spec -> Prop) given ds sa now key cond (f : object -> tx B) (f' : entity -> stx C) d a :
  sim k given [] ds sa ->
  (forall o e, db_objects ds !! key = Some o -> object_rep k given (db_chunks ds) key o e -> related R (f o d) (f' e a)) ->
  related R ((from_result (fun x => x) (resolveCopySource now key cond ds) ≫= f) d) ((from_result (fun x => x) (spec_source now key cond sa) ≫= f') a).
Proof.
  intros Hs Hf. unfold resolveCopySource, spec_source. pose proof (sim_objects _ _ _ _ _ Hs key) as Hk.
  destruct (db_objects ds !! key) as [o|], (s_objects sa !! key) as [e|]; inversion Hk as [? ? Hoe|]; subst; [| by left].
  rewrite (or_attrs _ _ _ _ _ _ Hoe). destruct (negb _); [by left |]. destruct (ReadCondition_Allows _ _ _); [| by left]. by apply Hf.
Qed.

Lemma related_copy_within given d a over now srcKey dstKey opts :
  sim k given [] d a ->
  related (fun _ _ d' a' => sim k given [] d' a') (CopyWithin k over now srcKey dstKey opts d) (spec_copy_from k over now a srcKey dstKey opts a).
Proof.
  intros Hs. unfold CopyWithin, spec_copy_from. apply related_tables_l. apply (related_source _ given); [done |].
  intros o e Ho [Hat Hsize Hshape Hst]. apply andb_true_iff in Hshape as [_ Hlay].
  destruct (shape_bounds _ _ _ _ _ Hst Hsize Hlay) as [Hin Hfile].
  apply (related_publish_copy given given); try done.
  - exists []. split; [done |]. split; [done |]. intros t. split; [by apply stored_as_attrs |]. split; [| set_solver].
    intros f Hf. apply (wf_refs _ _ _ (sim_wf _ _ _ _ _ Hs)). by eapply refs_object.
  - intros dest d1. unfold copy_checks_same. destruct (bool_decide _); [exists (db_checksums d1); by destruct d1 | by eexists].
Qed.

(** *** Copies from another namespace *)

Definition renamed (f : Z) (r : chunk_row) : chunk_row := mkRow f (cr_no r) (cr_data r).

Lemma renamed_stored rows f g body : file_stored rows f body -> renamed g <$> rows_of f rows ≡ₚ stored_body g body.
Proof.
  unfold file_stored. fold (rows_of f rows). intros ->. unfold stored_body, stored_rows. by rewrite <- list_fmap_compose.
Qed.

Lemma renamed_row r f g body : r ∈ stored_body f body -> renamed g r ∈ stored_body g body.
Proof. intros (i & -> & Hi)%list_elem_of_fmap. apply list_elem_of_fmap. by exists i. Qed.

Section From.
Context (ds : db) (sa : spec) (gs : gmap Z bytes) (Hsrc : sim k gs [] ds sa).

(** The state of a copy in progress: the files of [idMap] are copied, [ids]
    are still to be used. *)
Record copying (given G : gmap Z bytes) (top : gset Z) (d0 : db) (a : spec) (idMap : gmap Z Z) (ids : list Z) (d : db) : Prop := {
  cp_sim : exists lost, sim k G lost d a /\ forall y, y ∈ lost -> exists x, idMap !! x = Some y;
  cp_given : given ⊆ G /\ dom G ⊆ top;
  cp_ids : NoDup ids /\ forall i, i ∈ ids -> G !! i = None /\ i ∈ top /\ 1 <= i < 2 ^ 63;
  cp_objects : db_objects d = db_objects d0;
  cp_known : forall x y, idMap !! x = Some y -> is_Some (G !! y);
  cp_map : forall x y body, idMap !! x = Some y -> file_holds gs (db_chunks ds) x body -> file_holds G (db_chunks d) y body
}.

Lemma dupOne_spec given G top d0 a idMap ids d x :
  copying given G top d0 a idMap ids d ->
  match dupOne ds x (idMap, ids) d with
  | Ok ((y, (idMap', ids')), d') => exists G', copying given G' top d0 a idMap' ids' d' /\ idMap' !! x = Some y /\ idMap ⊆ idMap' /\
      (forall u v, idMap' !! u = Some v -> idMap !! u = Some v \/ v = y)
  | Err e => e = NoFileID
  end.
Proof.
  intros Hcp. unfold dupOne. destruct (idMap !! x) as [y|] eqn:E; [by exists G; auto |].
  destruct Hcp as [(lost & Hs & Hlost) [Hsub Htop] [Hnd Hids] Hobj Hkn Hmap].
  destruct ids as [|new ids]; [done |]. apply NoDup_cons in Hnd as [Hnew Hnd].
  destruct (Hids new ltac:(left)) as (Hfresh & Hin & Hrange).
  set (rows := _ <$> filter (fun r => cr_file r = x) (db_chunks ds)).
  assert (rows = renamed new <$> rows_of x (db_chunks ds)) as Hrows by done.
  assert (Forall (fun r => cr_file r = new) rows) as Hfile by (apply Forall_forall; by intros r (r' & -> & _)%list_elem_of_fmap).
  destruct (insert_new_file k G lost d a new rows (default [] (gs !! x)) Hs Hfresh Hrange Hfile) as (Hi & Hs' & Hro).
  { rewrite Hrows, <- list_fmap_compose. apply (file_numbers gs []), Hsrc. }
  { apply Forall_forall. intros r (r' & -> & [_ Hr']%list_elem_of_filter)%list_elem_of_fmap.
    pose proof (wf_chunk _ _ _ (sim_wf _ _ _ _ _ Hsrc)) as Hch. rewrite Forall_forall in Hch. exact (Hch r' Hr'). }
  { apply Forall_forall. intros r (r' & -> & [Hf Hr']%list_elem_of_filter)%list_elem_of_fmap.
    destruct (wf_rows _ _ _ (sim_wf _ _ _ _ _ Hsrc) r' Hr') as (b & Hb & Hrow). rewrite Hf in Hb, Hrow. rewrite Hb. cbn [default].
    by apply (renamed_row _ x). }
  unfold mbind, txn_bind. rewrite Hi. unfold mret, txn_ret. exists (<[new := default [] (gs !! x)]> G).
  split; [| split; [apply lookup_insert_eq | split; [by apply insert_subseteq | intros u v [[<- <-]|[_ Huv]]%lookup_insert_Some; auto]]].
  split; try done.
  - exists (new :: lost). split; [done |]. intros y [->|Hy]%elem_of_cons; [exists x; apply lookup_insert_eq |].
    destruct (Hlost y Hy) as [u Hu]. exists u. rewrite lookup_insert_ne; [done |]. intros ->. congruence.
  - split; [etrans; [done | by apply insert_subseteq] | rewrite dom_insert_L; set_solver].
  - split; [done |]. intros i Hi'. destruct (Hids i ltac:(by right)) as (? & ? & ?). rewrite lookup_insert_ne by (by intros ->). done.
  - intros u v [[<- <-]|[_ Huv]]%lookup_insert_Some; apply lookup_insert_is_Some'; [by left | right; eauto].
  - cbn. intros u v body [[<- <-]|[Hne Huv]]%lookup_insert_Some [Hg Hst].
    + split; [rewrite lookup_insert_eq, Hg; done |]. unfold file_stored. fold (rows_of new (db_chunks d ++ rows)).
      rewrite Hro, Hrows. by apply renamed_stored.
    + eapply file_holds_same; [by apply insert_subseteq | | by eapply Hmap].
      rewrite rows_of_app, (rows_of_other v new rows), app_nil_r; [done | done |].
      intros ->. destruct (Hkn u new Huv). congruence.
Qed.

Lemma dup_parts_spec given G top d0 a parts idMap ids d :
  copying given G top d0 a idMap ids d ->
  match dup_parts ds parts (idMap, ids) d with
  | Ok ((ys, (idMap', ids')), d') => exists G', copying given G' top d0 a idMap' ids' d' /\
      Forall2 (fun x y => idMap' !! x = Some y) parts ys /\ idMap ⊆ idMap' /\
      (forall u v, idMap' !! u = Some v -> idMap !! u = Some v \/ v ∈ ys)
  | Err e => e = NoFileID
  end.
Proof.
  revert G idMap ids d. induction parts as [|x parts IH]; intros G idMap ids d Hcp; cbn [dup_parts].
  { exists G. by split; [| split; [constructor | auto]]. }
  unfold mbind at 1, txn_bind at 1. pose proof (dupOne_spec given G top d0 a idMap ids d x Hcp) as H1.
  destruct (dupOne ds x (idMap, ids) d) as [[[y [m1 ids1]] d1]|]; [| done]. destruct H1 as (G1 & Hcp1 & Hy & Hsub1 & Hv1).
  cbn [snd fst]. unfold mbind, txn_bind. specialize (IH G1 m1 ids1 d1 Hcp1).
  destruct (dup_parts ds parts (m1, ids1) d1) as [[[ys [m2 ids2]] d2]|]; [| done]. destruct IH as (G2 & Hcp2 & Hys & Hsub2 & Hv2).
  cbn [snd fst mret txn_ret]. exists G2. split; [done |]. split; [constructor; [by eapply lookup_weaken | done] |].
  split; [by etrans |]. intros u v Huv. destruct (Hv2 u v Huv) as [Hm|Hin]; [| right; by right].
  destruct (Hv1 u v Hm) as [?| ->]; [by left | right; left].
Qed.

Lemma copying_start given top d a ids :
  sim k given [] d a -> dom given ⊆ top -> NoDup ids -> (forall i, i ∈ ids -> given !! i = None /\ i ∈ top /\ 1 <= i < 2 ^ 63) ->
  copying given given top d a ∅ ids d.
Proof. intros Hs Hsub Hnd Hids. split; try done. exists []. split; [done | set_solver]. Qed.

Lemma copied_stored parts ys (idMap : gmap Z Z) G rows bodies :
  (forall x y body, idMap !! x = Some y -> file_holds gs (db_chunks ds) x body -> file_holds G rows y body) ->
  Forall2 (fun x y => idMap !! x = Some y) parts ys -> Forall2 (file_holds gs (db_chunks ds)) parts bodies ->
  Forall2 (file_holds G rows) ys bodies.
Proof.
  intros Hcp Hm. revert bodies. induction Hm as [|x y parts ys Hxy Hm IH]; intros bodies Hb; inversion Hb; subst; constructor; eauto.
Qed.

(** What [prepareDestFiles] gives for a source that is represented. *)
Lemma prepareDestFiles_spec given top d a ids o e :
  sim k given [] d a -> dom given ⊆ top -> NoDup ids -> (forall i, i ∈ ids -> given !! i = None /\ i ∈ top /\ 1 <= i < 2 ^ 63) ->
  stored_as gs (db_chunks ds) o (en_body e) (en_layout e) ->
  match prepareDestFiles ds o ids d with
  | Ok (dest, d') => exists G lost, given ⊆ G /\ dom G ⊆ top /\ sim k G lost d' a /\ db_objects d' = db_objects d /\
      forall t, let o' := mkObject t (df_file dest) (df_parts dest) (ob_part_ends o) (ob_inline_data o) in
        stored_as G (db_chunks d') o' (en_body e) (en_layout e) /\
        (forall f, f ∈ object_files o' -> is_Some (G !! f)) /\ (forall f, f ∈ lost -> f ∈ object_files o')
  | Err x => x = NoFileID
  end.
Proof.
  intros Hs Hsub Hnd Hids Hst. pose proof (copying_start given top d a ids Hs Hsub Hnd Hids) as Hcp.
  unfold prepareDestFiles. destruct (en_layout e) as [| |bodies] eqn:El; cbn in Hst.
  - rewrite Hst. cbn. exists given, []. do 4 (split; [done |]). intros t. by split; [| split; set_solver].
  - destruct Hst as (f & Eo & Hst). rewrite Eo. cbn [ob_inline_data ob_file_id ob_parts ob_part_ends].
    pose proof (dupOne_spec given given top d a ∅ ids d f Hcp) as H1. unfold mbind, txn_bind.
    destruct (dupOne ds f (∅, ids) d) as [[[y [m ids1]] d1]|]; [| done]. destruct H1 as (G & Hcp1 & Hy & _ & Hv).
    pose proof Hcp1 as [(lost & Hs1 & Hl) [Hg Ht] _ Hob Hkn Hmap]. exists G, lost. do 4 (split; [done |]).
    intros t. split; [exists y; split; [done | by apply (Hmap f)] |]. split.
    + intros g ->%list_elem_of_singleton. by apply (Hkn f).
    + intros g Hg'. destruct (Hl g Hg') as [u Hu]. destruct (Hv u g Hu) as [Hu'| ->]; [by rewrite lookup_empty in Hu' | cbn; set_solver].
  - destruct Hst as (f & ps & Eo & Hst & Hb). rewrite Eo. cbn [ob_inline_data ob_file_id ob_parts ob_part_ends].
    pose proof (dup_parts_spec given given top d a (f :: ps) ∅ ids d Hcp) as H1. unfold mbind, txn_bind.
    destruct (dup_parts ds (f :: ps) (∅, ids) d) as [[[ys [m ids1]] d1]|]; [| done]. destruct H1 as (G & Hcp1 & Hys & _ & Hv).
    pose proof Hcp1 as [(lost & Hs1 & Hl) [Hg Ht] _ Hob Hkn Hmap].
    pose proof (copied_stored _ _ _ _ _ _ Hmap Hys Hst) as Hst1.
    inversion Hys as [|? y ? ys' Hy Hys' E1 E2]; subst ys. cbn [mret txn_ret fst snd head df_file df_parts].
    exists G, lost. do 4 (split; [done |]). intros t. split; [by exists y, ys' |]. split.
    + intros g Hg'. assert (g ∈ y :: ys') as Hg2 by (cbn in Hg'; set_solver). apply list_elem_of_lookup_1 in Hg2 as [j Hj].
      destruct (Forall2_lookup_r _ _ _ _ _ Hys Hj) as (u & _ & Hu). by apply (Hkn u).
    + intros g Hg'. destruct (Hl g Hg') as [u Hu]. destruct (Hv u g Hu) as [Hu'|Hin]; [by rewrite lookup_empty in Hu' | cbn; set_solver].
Qed.

Lemma related_copy_from given top d a ids over now srcKey dstKey opts :
  sim k given [] d a -> dom given ⊆ top -> NoDup ids -> (forall i, i ∈ ids -> given !! i = None /\ i ∈ top /\ 1 <= i < 2 ^ 63) ->
  related (fun _ _ d' a' => exists G, given ⊆ G /\ dom G ⊆ top /\ sim k G [] d' a')
    (CopyFrom k over now ds ids srcKey dstKey opts d) (spec_copy_from k over now sa srcKey dstKey opts a).
Proof.
  intros Hs Hsub Hnd Hids. unfold CopyFrom, spec_copy_from. apply (related_source _ gs); [done |].
  intros o e Ho [Hat Hsize Hshape Hst]. apply andb_true_iff in Hshape as [_ Hlay].
  destruct (shape_bounds _ _ _ _ _ Hst Hsize Hlay) as [Hin Hfile].
  assert (forall dest d1, exists m, copy_checks_cross ds srcKey dstKey dest d1 = set_checksums d1 m) as Hchk.
  { intros dest d1. unfold copy_checks_cross.
    destruct (df_parts dest) as [[|]|]; [exists (db_checksums d1); by destruct d1 | by eexists | exists (db_checksums d1); by destruct d1]. }
  pose proof (prepareDestFiles_spec given top d a ids o e Hs Hsub Hnd Hids Hst) as Hprep.
  destruct (prepareDestFiles ds o ids d) as [[dest d1]|x] eqn:Ep.
  - destruct Hprep as (G & lost & Hg & Ht & Hrest). eapply related_impl.
    + apply (related_publish_copy given G d a over now o e dstKey opts (prepareDestFiles ds o ids)); try done. rewrite Ep. by exists lost.
    + intros ? ? d' a' Hs'. by exists G.
  - eapply related_impl.
    + apply (related_publish_copy given given d a over now o e dstKey opts (prepareDestFiles ds o ids)); try done. by rewrite Ep.
    + intros ? ? d' a' Hs'. by exists given.
Qed.
End From.

End Refine.
