(* ===== verification/ObjectRead.v ===== *)
(** * Reading what the tables represent

    A row that represents an entity is read back as it: its metadata, any range
    of its content by the plan and the row readers, and the whole of it. *)

From stdpp Require Import gmap sorting.
From S2P Require Import Prelude GoStrings Ns Ranges Precond Blocks Pieces Reader Ids Tables Objects CacheTables ObjectSpec ObjectRep ObjectRefine.

Section Reading.
Context `{ZL : ZstdLaws}.

Fixpoint segments_of (n : Z) (parts : list Z) (bodies : list bytes) : list Segment :=
  match parts, bodies with
  | p :: ps, b :: bs => mkSegment p n (zlen b) :: segments_of (n + zlen b) ps bs
  | _, _ => []
  end.

Lemma segment_loop_of n parts bodies :
  length parts = length bodies -> segment_loop n parts (ends_from n bodies) = Ok (segments_of n parts bodies).
Proof.
  revert n bodies. induction parts as [|p ps IH]; intros n [|b bs] Hlen; try done. cbn [ends_from segment_loop segments_of].
  pose proof (zlen_nonneg b). destruct (Z.ltb_spec (n + zlen b) n); [lia |]. injection Hlen as Hlen. rewrite IH by done. cbn.
  do 3 f_equal. lia.
Qed.

(** The content of a file by its identifier. *)
Definition files_of (given : gmap Z bytes) (f : Z) : bytes := default [] (given !! f).

Lemma segments_stored given rows n parts bodies :
  Forall2 (file_holds given rows) parts bodies -> zlen (concat bodies) <= 2 ^ 30 * RowBytes ->
  Forall (file_ok (files_of given)) (segments_of n parts bodies) /\
  Forall (fun seg => file_stored rows (sg_FileID seg) (files_of given (sg_FileID seg))) (segments_of n parts bodies) /\
  object_bytes (files_of given) (segments_of n parts bodies) = concat bodies.
Proof.
  intros H. revert n. induction H as [|p b ps bs [Hg Hst] H IH]; intros n Hle; cbn [segments_of]; [by split; [| split] |].
  cbn [concat] in Hle. rewrite zlen_app in Hle. pose proof (zlen_nonneg b). pose proof (zlen_nonneg (concat bs)).
  assert (files_of given p = b) as Hp by (unfold files_of; by rewrite Hg).
  destruct (IH (n + zlen b)) as (I1 & I2 & I3); [lia |]. split; [constructor; [| done] | split; [constructor; [| done] |]].
  - unfold file_ok, seg_body. cbn. rewrite Hp. split; [done | lia].
  - cbn. by rewrite Hp.
  - unfold object_bytes in *. cbn. rewrite I3. unfold seg_body. cbn. by rewrite Hp.
Qed.

(** What a reader gets: the inline bytes, or a plan whose pieces stream. *)
Definition reads_as (table : list chunk_row) (m : Meta) (body : bytes) : Prop :=
  match m_Inline m with
  | Some b => b = body
  | None => forall start stop parallel, 0 <= start <= stop -> stop < m_Size m ->
      exists ps, planPieces m start stop parallel = Some (Ok ps) /\
        Forall (fun p => forall rws contains caching, rws ≡ₚ getRange table (p_fileID p) (p_lo p) (p_hi p) ->
          exists cs r', streamRows p start stop contains rws false (piece_fill p caching) = Some (cs, None, r')) ps /\
        forall css, Forall2 (piece_read table start stop) ps css ->
          concat (ck_b <$> concat css) = slice body start (stop + 1)
  end.

(** The metadata a reader sees. *)
Definition entity_info (e : entity) : ObjectInfo :=
  let a := en_attrs e in
  mkInfo (at_size a) (at_etag a) (default "" (at_origin_etag a)) (at_content_type a) (at_content_encoding a)
    (default "" (at_checksum_name a)) (default "" (at_checksum_value a)) (default "" (at_checksum_type a))
    (at_user_metadata a) (at_created_at a) (at_origin_modified a).

Lemma object_reads k given rows key o e oid :
  object_rep k given rows key o e -> zlen (en_body e) <= 2 ^ 30 * RowBytes ->
  exists m, scanMetadata metadataDecoded oid o = Ok m /\ m_Info m = entity_info e /\ m_SHA256 m = at_sha256 (en_attrs e) /\
    m_Size m = zlen (en_body e) /\ reads_as rows m (en_body e).
Proof.
  intros [Hat Hsize Hshape Hst] Hle. destruct (en_layout e) as [| |bodies]; cbn in Hst.
  - rewrite Hst. unfold scanMetadata. cbn [ob_inline_data ob_attrs ob_file_id ob_parts ob_part_ends]. rewrite Hsize, decompress_compress.
    eexists. split; [done |]. split; [by unfold entity_info; rewrite Hat, Hsize |]. by split; [rewrite Hat |].
  - destruct Hst as (f & Eo & Hf). rewrite Eo. eexists. split; [done |]. split; [by unfold entity_info; rewrite Hat |]. split; [by rewrite Hat |]. split; [exact Hsize |]. unfold reads_as. cbn [m_Inline].
    intros start stop parallel Hs Hstop. cbn in Hsize.
    destruct (segments_stored given rows 0 [f] [en_body e]) as (I1 & I2 & I3); [by constructor | cbn; rewrite app_nil_r; lia |].
    cbn [concat] in I3. rewrite app_nil_r in I3. rewrite <- I3. eapply planned_read; [| done | done | done | done].
    unfold Segments. cbn. by rewrite Hsize.
  - destruct Hst as (f & ps & Eo & Hf & Eb). rewrite Eo. eexists. split; [done |]. split; [by unfold entity_info; rewrite Hat |]. split; [by rewrite Hat |]. split; [exact Hsize |]. unfold reads_as. cbn [m_Inline].
    intros start stop parallel Hs Hstop. rewrite Eb in *. destruct (segments_stored given rows 0 (f :: ps) bodies Hf Hle) as (I1 & I2 & I3).
    rewrite <- I3. eapply planned_read; [| done | done | done | done].
    pose proof (Forall2_length _ _ _ Hf) as Hlen. assert (bodies <> []) as Hne by (by intros ->).
    unfold Segments. cbn [m_Parts m_PartEnds m_FileID ob_parts ob_part_ends ob_file_id default from_option].
    rewrite length_ends_from, bool_decide_true, Z.eqb_refl, last_ends_from, Z.add_0_l by done. cbn [negb].
    rewrite bool_decide_true by (unfold m_Size; cbn; by rewrite <- Hsize). cbn [negb]. by apply segment_loop_of.
Qed.

(** The whole content. *)
Lemma piece_bodies table start stop ps :
  Forall (fun p => forall rws contains caching, rws ≡ₚ getRange table (p_fileID p) (p_lo p) (p_hi p) ->
    exists cs r', streamRows p start stop contains rws false (piece_fill p caching) = Some (cs, None, r')) ps ->
  exists css, Forall2 (piece_read table start stop) ps css /\
    mapM (piece_body table start stop) ps = Some ((fun cs => concat (ck_b <$> cs)) <$> css).
Proof.
  induction 1 as [|p ps Hp _ IH]; [exists []; by split; [constructor |] |]. destruct IH as (css & Hread & Hm).
  destruct (Hp (getRange table (p_fileID p) (p_lo p) (p_hi p)) (fun _ => false) false (reflexivity _)) as (cs & r' & E).
  exists (cs :: css). split; [constructor; [| done]; by exists (getRange table (p_fileID p) (p_lo p) (p_hi p)), (fun _ => false), false, r' |].
  assert (piece_body table start stop p = Some (concat (ck_b <$> cs))) as Hb by (unfold piece_body; cbn [piece_fill] in E; by rewrite E).
  cbn [mapM]. rewrite Hb. cbn. by rewrite Hm.
Qed.

Lemma concat_chunks (css : list (list chunk)) :
  concat ((fun cs => concat (ck_b <$> cs)) <$> css) = concat (ck_b <$> concat css).
Proof. induction css as [|cs css IH]; cbn; [done |]. by rewrite IH, fmap_app, concat_app. Qed.

Lemma reads_all table workers m body :
  reads_as table m body -> m_Size m = zlen body -> readAll table workers m = Some body.
Proof.
  intros Hr Hsize. unfold readAll. pose proof (zlen_nonneg body).
  change (Resolve WholeObjectRange (m_Size m)) with (@Ok range_error _ (mkSpan 0 (m_Size m - 1) false)). cbn [sp_Start sp_End].
  destruct (Z.eqb_spec (m_Size m) 0) as [Hz|Hz]; [rewrite Hsize in Hz; by apply zlen_0_nil in Hz as -> |].
  unfold reads_as in Hr. destruct (m_Inline m) as [b|].
  - subst b. rewrite Z.sub_add, Hsize. by rewrite slice_full.
  - destruct (Hr 0 (m_Size m - 1) workers) as (ps & -> & Hps & Hcat); [lia | lia |].
    destruct (piece_bodies table 0 (m_Size m - 1) ps Hps) as (css & Hread & ->). cbn. f_equal. rewrite concat_chunks, (Hcat css Hread).
    rewrite Z.sub_add, Hsize. by rewrite slice_full.
Qed.

End Reading.
