(* ===== verification/CacheRefine.v ===== *)
(** * The cache operations implement their specification

    Every operation of [CacheTables.v], run on tables that represent a
    specification, has the result of its specification and leaves tables that
    represent the new one. *)

From stdpp Require Import gmap sorting.
From S2P Require Import Prelude GoStrings Ns Ranges Precond Blocks Pieces Reader Ids Tables Objects CacheTables ObjectSpec CacheSpec ObjectRep ObjectRefine ObjectRead.

Section CacheRefine.
Context `{ZL : ZstdLaws} `{D : Digests} (k : Kind).

(** ** Tables that are the same on both sides *)

Lemma sim_set_leases given lost d a m : sim k given lost d a -> sim k given lost (set_leases d m) (sset_leases a m).
Proof. intros [? ? ? ? ? ? []]. split; try done. Qed.

Lemma related_leases {A} given d a (f : leases -> A * leases) :
  sim k given [] d a ->
  related (fun x y d' a' => x = y /\ sim k given [] d' a')
    ((d ← tables; let '(b, m) := f (db_leases d) in update (fun d => set_leases d m);; mret b) d)
    ((a ← tables; let '(b, m) := f (s_leases a) in update (fun a => sset_leases a m);; mret b) a).
Proof.
  intros Hs. apply related_tables. rewrite (sim_leases _ _ _ _ _ Hs). destruct (f (s_leases a)) as [b m].
  split; [done | by apply sim_set_leases].
Qed.

Lemma related_pendings {A} given d a (f : pendings -> A * pendings) :
  sim k given [] d a ->
  related (fun x y d' a' => x = y /\ sim k given [] d' a')
    ((d ← tables; let '(b, m) := f (db_pending d) in update (fun d => set_pendings d m);; mret b) d)
    ((a ← tables; let '(b, m) := f (s_pending a) in update (fun a => sset_pending a m);; mret b) a).
Proof.
  intros Hs. apply related_tables. rewrite (sim_pending _ _ _ _ _ Hs). destruct (f (s_pending a)) as [b m].
  split; [done | by apply sim_pendings].
Qed.

(** ** Rows *)

Lemma row_where_spec given lost d a key p q :
  sim k given lost d a -> (forall o, p o = q (ob_attrs o)) ->
  option_Forall2 (fun o e => db_objects d !! key = Some o /\ s_objects a !! key = Some e /\ object_rep k given (db_chunks d) key o e)
    (row_where key p d) (attrs_where key q a).
Proof.
  intros Hs Hpq. unfold row_where, attrs_where. pose proof (sim_objects _ _ _ _ _ Hs key) as Hk.
  destruct (db_objects d !! key) as [o|], (s_objects a !! key) as [e|]; inversion Hk as [? ? Hoe|]; subst; cbn; [| constructor].
  rewrite Hpq, (or_attrs _ _ _ _ _ _ Hoe). destruct (q (ob_attrs o)); by constructor.
Qed.

Lemma related_delete_row given d a now key o :
  sim k given [] d a -> db_objects d !! key = Some o ->
  exists d', delete_row now key o d = Ok (tt, d') /\ sim k given [] d' (spec_delete [key] a).
Proof.
  intros Hs Ho.
  destruct (sim_queue_old k given given [] d a (delete_objects [key] d) (spec_delete [key] a) key now Hs) as (d2 & E & Hs2).
  - eapply sim_lost; [by apply sim_delete |]. intros f Hf. left. unfold files_of_keys in Hf. cbn in Hf. by rewrite !app_nil_r in *.
  - set_solver.
  - exists d2. split; [| done]. unfold queue_old in E. rewrite Ho in E. unfold delete_row, update, mbind, txn_bind. done.
Qed.

Lemma related_delete_where {A} given d a now key p q (x : A) (y : A) :
  sim k given [] d a -> (forall o, p o = q (ob_attrs o)) ->
  related (fun x y d' a' => x = y /\ sim k given [] d' a')
    ((match row_where key p d with Some o => delete_row now key o;; mret x | None => mret y end) d)
    ((match attrs_where key q a with Some _ => update (spec_delete [key]);; mret x | None => mret y end) a).
Proof.
  intros Hs Hpq. destruct (row_where_spec given [] d a key p q Hs Hpq) as [o e (Ho & _ & _)|]; [| done].
  destruct (related_delete_row given d a now key o Hs Ho) as (d' & E & Hs'). unfold mbind, txn_bind. by rewrite E.
Qed.

Lemma related_delete_expected given d a now key e :
  sim k given [] d a ->
  related (fun x y d' a' => x = y /\ sim k given [] d' a') (DeleteExpected now key e d) (spec_delete_expected key e a).
Proof. intros Hs. apply related_tables. by apply related_delete_where. Qed.

Lemma related_get_del given d a now workers key :
  sim k given [] d a ->
  related (fun x y d' a' => x = y /\ sim k given [] d' a') (GetDel now workers key d) (spec_get_del now key a).
Proof.
  intros Hs. apply related_tables.
  destruct (row_where_spec given [] d a key (fun o => not_deleted (ob_attrs o)) not_deleted Hs) as [o e (Ho & He & Hoe)|]; [done | | done].
  destruct (related_delete_row given d a now key o Hs Ho) as (d' & E & Hs').
  assert (forall v : option bytes, related (fun x y d' a' => x = y /\ sim k given [] d' a')
    ((delete_row now key o;; mret v) d) ((update (spec_delete [key]);; mret v) a)) as Hend.
  { intros v. unfold mbind, txn_bind. by rewrite E. }
  assert (exists m, scanMetadata metadataDecoded 0 o = Ok m /\ Live m now = not_expired now (at_expires_at (en_attrs e)) /\
    m_Size m = zlen (en_body e)) as (m & Em & Hlive & Hsize).
  { rewrite (or_attrs _ _ _ _ _ _ Hoe), <- (or_size _ _ _ _ _ _ Hoe). destruct Hoe as [_ Hsz _ Hst]. unfold scanMetadata.
    destruct (en_layout e); cbn in Hst.
    - rewrite Hst. cbn [ob_inline_data ob_attrs ob_file_id ob_parts ob_part_ends]. rewrite Hsz, decompress_compress. by eexists.
    - destruct Hst as (f & -> & _). by eexists.
    - destruct Hst as (f & ps & -> & _). by eexists. }
  rewrite Em. change ((from_result (fun _ => Unreadable) (Ok m) ≫= ?f) d) with (f m d). cbn beta. rewrite Hlive.
  destruct (not_expired _ _); [| apply (Hend None)]. rewrite Hsize.
  destruct (Z.leb_spec (zlen (en_body e)) max_value) as [Hle|Hgt]; [| by left].
  destruct (object_reads k given _ key o e 0 Hoe Hle) as (m' & Em' & _ & _ & _ & Hread).
  assert (m' = m) as -> by congruence. rewrite (reads_all _ workers _ _ Hread Hsize). apply (Hend (Some (en_body e))).
Qed.

Lemma related_alter_where {A} given d a key p q f (x y : A) :
  sim k given [] d a -> (forall o, p o = q (ob_attrs o)) -> keeps_content k f ->
  related (fun x y d' a' => x = y /\ sim k given [] d' a')
    ((match row_where key p d with Some _ => update (alter_attrs f key);; mret x | None => mret y end) d)
    ((match attrs_where key q a with Some _ => update (spec_alter f key);; mret x | None => mret y end) a).
Proof.
  intros Hs Hpq Hf. destruct (row_where_spec given [] d a key p q Hs Hpq); [| done]. split; [done | by apply sim_alter].
Qed.

Lemma keeps_touch now retention : keeps_content k (touch_attrs now retention).
Proof. intros t. unfold touch_attrs. by destruct (at_expires_at t). Qed.

Lemma related_expire given d a now key t opts :
  sim k given [] d a ->
  related (fun x y d' a' => x = y /\ sim k given [] d' a') (Expire now key t opts d) (spec_expire now key t opts a).
Proof. intros Hs. apply related_tables. by apply related_alter_where. Qed.

Lemma related_touch given d a now keys retention :
  sim k given [] d a ->
  related (fun x y d' a' => x = y /\ sim k given [] d' a') (Touch now keys retention d) (spec_touch now keys retention a).
Proof.
  intros Hs. split; [done |]. revert d a Hs. induction keys as [|key keys IH]; intros d a Hs; cbn [fold_left]; [done |].
  apply IH, sim_alter; [done | apply keeps_touch].
Qed.

Lemma related_touch_object given d a now key retention :
  sim k given [] d a ->
  related (fun x y d' a' => x = y /\ sim k given [] d' a') (TouchNamespaceObject now key retention d) (spec_touch_object now key retention a).
Proof. intros Hs. split; [done |]. by apply sim_alter. Qed.

(** ** Batches *)

Lemma batch_put_fmap {A B} (f : A -> B) key v (l : list (string * A)) :
  batch_put key (f v) (prod_map id f <$> l) = prod_map id f <$> batch_put key v l.
Proof. induction l as [|[key' v'] l IH]; cbn; [done |]. destruct (bool_decide _); cbn; [done |]. by rewrite <- IH. Qed.

Lemma batch_of_fmap {A B} (f : A -> B) kvs : batch_of f kvs = prod_map id f <$> batch_of id kvs.
Proof.
  unfold batch_of. assert (forall l, fold_left (fun b kv => batch_put kv.1 (f kv.2) b) kvs (prod_map id f <$> l) =
    prod_map id f <$> fold_left (fun b kv => batch_put kv.1 (id kv.2) b) kvs l) as H; [| exact (H [])].
  induction kvs as [|[key v] kvs IH]; intros l; cbn [fold_left]; [done |]. rewrite batch_put_fmap. apply IH.
Qed.

Lemma batch_put_keys {A} key (v : A) l : NoDup l.*1 -> NoDup (batch_put key v l).*1 /\ forall x, x ∈ (batch_put key v l).*1 <-> x = key \/ x ∈ l.*1.
Proof.
  induction l as [|[key' v'] l IH]; cbn; intros Hnd; [split; [apply NoDup_singleton | set_solver] |].
  apply NoDup_cons in Hnd as [Hn Hnd]. destruct (IH Hnd) as [IH1 IH2]. case_bool_decide; cbn.
  - subst key'. split; [by constructor | set_solver].
  - split; [constructor; [| done]; rewrite IH2; set_solver | intros x; rewrite !elem_of_cons, IH2; set_solver].
Qed.

Lemma batch_keys {A B} (f : A -> B) kvs : NoDup (batch_of f kvs).*1.
Proof.
  unfold batch_of. assert (forall l : list (string * B), NoDup l.*1 -> NoDup (fold_left (fun b kv => batch_put kv.1 (f kv.2) b) kvs l).*1) as H;
    [| apply H; constructor].
  induction kvs as [|[key v] kvs IH]; intros l Hl; cbn [fold_left]; [done |]. apply IH. by apply batch_put_keys.
Qed.

(** The files an update of [keys] replaces. *)
Lemma related_upsert given lost d a now (batch : list (string * bytes)) :
  sim k given lost d a -> NoDup batch.*1 ->
  related (fun _ _ d' a' => sim k given (files_of_keys batch.*1 d ++ lost) d' a' /\
      (forall key, key ∉ batch.*1 -> db_objects d' !! key = db_objects d !! key) /\
      (forall key o, key ∈ batch.*1 -> db_objects d' !! key = Some o -> object_files o = []) /\
      db_parts d' = db_parts d /\ db_garbage d' = db_garbage d)
    (upsert_batch k now (prod_map id encodeCacheValue <$> batch) d) (spec_put_batch k now batch a).
Proof.
  revert lost d a. induction batch as [|[key v] batch IH]; intros lost d a Hs Hnd.
  { split; [done |]. by split; [| split; [set_solver |]]. }
  cbn in Hnd. apply NoDup_cons in Hnd as [Hn Hnd]. set (o := mkObject (value_attrs now v) None None None (Some (compressBlock v))).
  change (upsert_batch k now _) with (write_object_row k key o;; upsert_batch k now (prod_map id encodeCacheValue <$> batch)).
  cbn [spec_put_batch]. change (((key, v) :: batch).*1) with (key :: batch.*1).
  unfold write_object_row, object_shape, put_entity, update. unfold mbind at 1 2, txn_bind at 1 2. change (ob_attrs o) with (value_attrs now v). cbn [en_attrs].
  destruct (Z.leb_spec (zlen v) (InlineMax k)) as [Hle|Hgt].
  2: { assert (layout_shape k o = false) as ->; [| rewrite andb_false_r; by left].
    change (layout_shape k o) with ((zlen v <=? InlineMax k) && (zlen (compressBlock v) <=? zlen v) && ((zlen v =? 0) || (0 <? zlen (compressBlock v)))).
    by rewrite (proj2 (Z.leb_gt _ _) Hgt). }
  assert (layout_shape k o = true) as Hlay by by apply inline_shape. rewrite Hlay, andb_true_r.
  destruct (attr_shape k key (value_attrs now v)) eqn:Hsh; [| by left].
  cbn [require]. unfold mbind, txn_bind, mret, txn_ret.
  assert (object_rep k given (db_chunks d) key o (mkEntity (value_attrs now v) v InRow)) as Hoe.
  { split; try done. unfold object_shape. change (ob_attrs o) with (value_attrs now v). by rewrite Hsh, Hlay. }
  pose proof (sim_put k given lost d a key o _ Hs Hoe ltac:(cbn; set_solver)) as Hs1.
  eapply related_impl; [apply (IH _ _ _ Hs1 Hnd) |]. cbn [db_objects db_parts db_garbage set_objects].
  intros _ _ d' a' (Hs' & Hout & Hin & Hp & Hg). split; [| split; [| split; [| done]]].
  - eapply sim_lost; [exact Hs' |]. intros f Hf. left. unfold files_of_keys in *. cbn in *.
    rewrite !elem_of_app in *. destruct Hf as [Hf|[Hf|Hf]]; [| tauto.. ]. left. right.
    apply list_elem_of_In, in_concat in Hf as (l & Hl%list_elem_of_In & Hf). apply list_elem_of_fmap in Hl as (key' & -> & Hkey').
    apply list_elem_of_In, in_concat. eexists. split; [apply list_elem_of_In, list_elem_of_fmap; by exists key' |].
    rewrite lookup_insert_ne in Hf by (by intros ->). done.
  - intros key' [Hne Hn']%not_elem_of_cons. rewrite Hout by done. by rewrite lookup_insert_ne.
  - intros key' o' [->|Hkey']%elem_of_cons Ho'; [| by apply (Hin key')]. rewrite Hout, lookup_insert_eq in Ho' by done. by injection Ho' as <-.
Qed.

Lemma fold_dead now (p : Z -> bool) ids (g : gmap Z Z) f :
  is_Some (g !! f) \/ (f ∈ ids /\ p f = false) -> is_Some (fold_left (fun g f => if p f then g else insert_garbage now g f) ids g !! f).
Proof.
  revert g. induction ids as [|x ids IH]; intros g Hf; cbn [fold_left]; [destruct Hf as [|[? _]]; [done | set_solver] |]. apply IH.
  destruct Hf as [Hf|[[->|Hf]%elem_of_cons Hp]]; [left | left | by right].
  - destruct (p x); [done |]. apply insert_garbage_spec. by left.
  - rewrite Hp. apply insert_garbage_spec. by right.
Qed.

Lemma related_mset given d a over now kvs :
  sim k given [] d a ->
  related (fun x y d' a' => x = y /\ sim k given [] d' a') (MSet k over now kvs d) (spec_mset k over now kvs a).
Proof.
  intros Hs. unfold MSet, spec_mset. destruct kvs as [|kv kvs]; [done |]. set (l := kv :: kvs). apply related_require; [done |]. intros _.
  unfold cacheMSet, encodeCacheBatch. rewrite batch_of_fmap. set (batch := batch_of id l). apply related_tables_l.
  assert ((prod_map id encodeCacheValue <$> batch).*1 = batch.*1) as Hkeys by (rewrite <- list_fmap_compose; by apply list_fmap_ext).
  rewrite Hkeys. set (d1 := set_checksums d (drop_checksums batch.*1 (db_checksums d))).
  pose proof (related_upsert given [] d1 a now batch (sim_checksums _ _ _ _ _ _ Hs) (batch_keys id l)) as Hup.
  unfold update. unfold mbind at 1, txn_bind at 1. fold d1. unfold mbind at 1, txn_bind at 1.
  destruct (upsert_batch k now _ d1) as [[[] d2]|e], (spec_put_batch k now batch a) as [[[] a2]|e']; cbn [related] in Hup |- *; try done.
  destruct Hup as (Hs2 & Hout & Hin & Hp & Hg). split; [done |]. unfold queue_dead. eapply sim_garbage; [exact Hs2 |].
  intros f [Hf|Hf]; [right; left; apply fold_dead; by left |]. rewrite app_nil_r in Hf. rewrite Hg.
  destruct (referenced (delete_objects batch.*1 d) f) eqn:Hr.
  - left. apply bool_decide_eq_true, elem_of_refs in Hr. apply elem_of_refs. rewrite Hp. destruct Hr as [(key & o & Hk & Ho)|?]; [left | by right].
    cbn in Hk. apply map_lookup_filter_Some in Hk as [Hk Hn]. exists key, o. by rewrite Hout.
  - right; left. apply fold_dead. right. split; [| done]. unfold batch_dead.
    apply list_elem_of_In, in_concat in Hf as (fs & Hfs%list_elem_of_In & Hf%list_elem_of_In).
    apply list_elem_of_fmap in Hfs as (key & -> & Hkey). apply list_elem_of_In, in_concat. exists (old_files (db_objects d !! key)).
    split; [apply list_elem_of_In, list_elem_of_fmap; by exists key |]. apply list_elem_of_In. by apply (sim_old_files k given [] d a).
Qed.

(** ** Flushing *)

Lemma sim_truncate given d a : sim k given [] d a -> sim k given [] (truncate d) (spec_truncate a).
Proof.
  intros [? ? ? ? ? ? []]. split; cbn; try done; try (intros; rewrite !lookup_empty; constructor).
  split; cbn; [constructor | constructor | set_solver | | set_solver | done |].
  - intros f [(key & o & Hk & _)|(i & p & Hi & _)]%elem_of_refs; cbn in *; [by rewrite lookup_empty in Hk | by rewrite lookup_empty in Hi].
  - intros id no p Hp. by rewrite lookup_empty in Hp.
Qed.

Lemma related_flush given d a :
  sim k given [] d a -> related (fun x y d' a' => x = y /\ sim k given [] d' a') (Flush d) (spec_flush a).
Proof.
  intros Hs. apply related_tables. rewrite (sim_pending _ _ _ _ _ Hs). apply related_require; [done |]. intros _.
  split; [done | by apply sim_truncate].
Qed.

(** ** Leases, pending uploads and origin metadata *)

Lemma related_drop_token given d a key token :
  sim k given [] d a ->
  sim k given [] (set_pendings d (drop_token key token (db_pending d))) (sset_pending a (drop_token key token (s_pending a))).
Proof. intros Hs. rewrite (sim_pending _ _ _ _ _ Hs). by apply sim_pendings. Qed.

Lemma related_clear given d a f :
  sim k given [] d a ->
  related (fun x y d' a' => x = y /\ sim k given [] d' a') (update (fun d => set_pendings d (f (db_pending d))) d) (spec_clear f a).
Proof. intros Hs. split; [done |]. rewrite (sim_pending _ _ _ _ _ Hs). by apply sim_pendings. Qed.

Lemma related_committed given d a now key token version m e :
  sim k given [] d a ->
  related (fun x y d' a' => x = y /\ sim k given [] d' a')
    (MarkOriginCommitted now key token version m e d) (spec_committed now key token version m e a).
Proof.
  intros Hs. apply related_tables. cbn zeta.
  assert (bool_decide (is_Some (row_where key (has_origin token) d)) = bool_decide (is_Some (attrs_where key (origin_is token) a))) as ->.
  { by destruct (row_where_spec given [] d a key (has_origin token) (origin_is token) Hs). }
  destruct (bool_decide _); (split; [done |]); apply related_drop_token; [by apply sim_alter | done].
Qed.

Lemma related_abandon given d a now key token :
  sim k given [] d a ->
  related (fun x y d' a' => x = y /\ sim k given [] d' a') (AbandonPendingUpload now key token d) (spec_abandon key token a).
Proof.
  intros Hs. apply related_tables. apply (related_bind (fun _ _ d' a' => sim k given [] d' a')).
  - destruct (row_where_spec given [] d a key (has_origin token) (origin_is token) Hs) as [o e (Ho & _ & _)|]; [done | | done].
    destruct (related_delete_row given d a now key o Hs Ho) as (d' & -> & Hs'). done.
  - intros _ _ d' a' Hs'. split; [done | by apply related_drop_token].
Qed.

Lemma related_fail given d a now key token owner attempt cause permanent :
  sim k given [] d a ->
  related (fun x y d' a' => x = y /\ sim k given [] d' a')
    (failPending now key token owner attempt cause permanent d) (spec_fail now key token owner attempt cause permanent a).
Proof.
  intros Hs. apply related_tables. rewrite (sim_pending _ _ _ _ _ Hs). destruct (fail_pending _ _ _ _ _ _ _ _); [| by left].
  split; [done | by apply sim_pendings].
Qed.

Lemma related_retry_dead given d a now :
  sim k given [] d a ->
  related (fun x y d' a' => x = y /\ sim k given [] d' a') (RetryDeadPendingUploads now d) (spec_retry_dead now a).
Proof.
  intros Hs. apply related_tables. rewrite (sim_pending _ _ _ _ _ Hs). split; [done |].
  cbn. rewrite (sim_pending _ _ _ _ _ Hs). by apply sim_pendings.
Qed.

Lemma related_remember given d a now key info age ttl :
  sim k given [] d a ->
  related (fun x y d' a' => x = y /\ sim k given [] d' a') (RememberOriginMetadata now key info age ttl d) (spec_remember now key info age ttl a).
Proof. intros Hs. split; [done |]. rewrite (sim_origin _ _ _ _ _ Hs), (sim_old _ _ _ _ _ _ Hs). by apply sim_origins. Qed.

Lemma related_forget given d a key version :
  sim k given [] d a ->
  related (fun x y d' a' => x = y /\ sim k given [] d' a') (ForgetOriginMetadata key version d) (spec_forget key version a).
Proof. intros Hs. split; [done |]. rewrite (sim_origin _ _ _ _ _ Hs). by apply sim_origins. Qed.

(** ** Retirement *)

(** Whether the row of a key still has the file that was observed. *)
Definition file_unchanged (d : db) (key : string) (observed : option Meta) : bool :=
  match observed, db_objects d !! key with
  | Some m, Some o => observed_file m o
  | _, _ => true
  end.

Lemma related_retire given d a now key observed :
  sim k given [] d a ->
  related (fun x y d' a' => x = y /\ sim k given [] d' a')
    (RetireOriginObject k now key observed d) (spec_retire k (file_unchanged d key observed) key observed a).
Proof.
  intros Hs. unfold RetireOriginObject, spec_retire. destruct observed as [m|]; [| by left].
  apply related_require; [done |]. intros _. apply related_tables. unfold row_where, attrs_where, file_unchanged.
  pose proof (sim_objects _ _ _ _ _ Hs key) as Hk.
  destruct (db_objects d !! key) as [o|] eqn:Ho, (s_objects a !! key) as [e|]; inversion Hk as [? ? Hoe|]; subst; cbn [mbind option_bind]; [| done].
  rewrite (or_attrs _ _ _ _ _ _ Hoe). destruct (_ && _); [| done].
  destruct (related_delete_row given d a now key o Hs Ho) as (d' & E & Hs'). unfold mbind, txn_bind. by rewrite E.
Qed.

Lemma sim_retire_read given d a now key :
  sim k given [] d a -> exists d' a', retire_read now key d = Ok (tt, d') /\ spec_retire_read key a = Ok (tt, a') /\ sim k given [] d' a'.
Proof.
  intros Hs.
  set (d1 := set_origin (set_leases d (delete key (db_leases d))) (delete key (db_origin_metadata d))).
  set (a1 := sset_origin (sset_leases a (delete key (s_leases a))) (delete key (s_origin_metadata a))).
  assert (sim k given [] d1 a1) as Hs1.
  { unfold d1, a1. rewrite (sim_origin _ _ _ _ _ Hs), (sim_leases _ _ _ _ _ Hs). by apply sim_origins, sim_set_leases. }
  change (retire_read now key d) with ((match db_objects d1 !! key with Some o => delete_row now key o | None => mret tt end : tx unit) d1).
  change (spec_retire_read key a) with (Ok (E := store_error) (tt, spec_delete [key] a1)).
  destruct (db_objects d1 !! key) as [o|] eqn:Ho.
  - destruct (related_delete_row given d1 a1 now key o Hs1 Ho) as (d' & -> & Hs'). eauto.
  - exists d1, (spec_delete [key] a1). do 2 (split; [done |]). assert (spec_delete [key] a1 = a1) as ->; [| done].
    unfold spec_delete. rewrite map_filter_id; [by destruct a1 |]. intros key' e He Hin. cbn in Hin. apply list_elem_of_singleton in Hin. subst key'.
    pose proof (sim_objects _ _ _ _ _ Hs1 key) as Hk. rewrite Ho, He in Hk. inversion Hk.
Qed.

End CacheRefine.
