(* ===== verification/ObjectComplete.v ===== *)
(** * Multipart completion implements the specification

    Completing an upload publishes the files of the listed parts as one
    object; the specification concatenates their contents. *)

From stdpp Require Import gmap sorting.
From S2P Require Import Prelude GoStrings Ns Ranges Precond Blocks Reader Ids Tables Objects Multipart ObjectSpec ObjectRep ObjectRefine.

Section Complete.
Context `{ZL : ZstdLaws} `{D : Digests} (k : Kind).

(** ** The parts of both sides together *)

Definition joined (d : db) (a : spec) : gmap (string * Z) (upload_part * spart) := map_zip (db_parts d) (s_parts a).

Lemma joined_fst given lost d a : sim k given lost d a -> fst <$> joined d a = db_parts d.
Proof. intros Hs. apply fst_map_zip. intros i [p Hp]. pose proof (sim_parts _ _ _ _ _ Hs i) as H. rewrite Hp in H. inversion H. by eexists. Qed.

Lemma joined_snd given lost d a : sim k given lost d a -> snd <$> joined d a = s_parts a.
Proof. intros Hs. apply snd_map_zip. intros i [p Hp]. pose proof (sim_parts _ _ _ _ _ Hs i) as H. rewrite Hp in H. inversion H. by eexists. Qed.

Lemma joined_lookup given lost d a i p q :
  sim k given lost d a -> joined d a !! i = Some (p, q) -> db_parts d !! i = Some p /\ part_rep given (db_chunks d) p q.
Proof.
  intros Hs Hi. apply map_lookup_zip_Some in Hi as [Hp Hq]. cbn in *. pose proof (sim_parts _ _ _ _ _ Hs i) as H.
  rewrite Hp, Hq in H. inversion H. done.
Qed.

Definition joint_part (x : Z * (upload_part * spart)) : storedPart (Z * bytes) :=
  mkStored x.1 (pt_file_id x.2.1, sp_body x.2.2) (sp_size x.2.2) (sp_sha256 x.2.2) (sp_md5 x.2.2) (sp_checksum x.2.2).

Definition joint_parts (id : string) (d : db) (a : spec) : list (storedPart (Z * bytes)) := joint_part <$> sorted_parts id (joined d a).

Lemma load_joint given lost d a id : sim k given lost d a -> loadUploadParts id d = stored_map fst <$> joint_parts id d a.
Proof.
  intros Hs. unfold loadUploadParts, joint_parts. rewrite <- (joined_fst _ _ _ _ Hs), sorted_parts_fmap, <- !list_fmap_compose.
  apply list_fmap_ext. intros j [no [p q]] Hj. apply list_elem_of_lookup_2, elem_of_sorted_parts in Hj.
  destruct (joined_lookup _ _ _ _ _ _ _ Hs Hj) as [_ [Hrow _ _]]. unfold stored_part. cbn. by rewrite Hrow.
Qed.

Lemma spec_joint given lost d a id :
  sim k given lost d a -> spec_stored <$> sorted_parts id (s_parts a) = stored_map snd <$> joint_parts id d a.
Proof.
  intros Hs. unfold joint_parts. rewrite <- (joined_snd _ _ _ _ Hs), sorted_parts_fmap, <- !list_fmap_compose. done.
Qed.

(** ** The plan *)

Record plan_ok (given : gmap Z bytes) (id : string) (d : db) (pl : multipartPlan (Z * bytes)) : Prop := {
  po_nonempty : pl_fileIDs pl <> [];
  po_stored : Forall (fun fb => file_holds given (db_chunks d) fb.1 fb.2) (pl_fileIDs pl);
  po_ends : pl_partEnds pl = ends_from 0 (snd <$> pl_fileIDs pl);
  po_size : pl_size pl = zlen (concat (snd <$> pl_fileIDs pl));
  po_all : forall f, f ∈ upload_files id d -> f ∈ fst <$> pl_fileIDs pl \/ f ∈ fst <$> pl_unused pl
}.

Definition joint_ok (given : gmap Z bytes) (d : db) (p : storedPart (Z * bytes)) : Prop :=
  file_holds given (db_chunks d) (sd_fileID p).1 (sd_fileID p).2 /\
  sd_size p = zlen (sd_fileID p).2 /\ sd_size p <= max_file_size.

Lemma joint_parts_ok given lost d a id : sim k given lost d a -> Forall (joint_ok given d) (joint_parts id d a).
Proof.
  intros Hs. apply Forall_forall. intros x ([no [p q]] & -> & Hin)%list_elem_of_fmap. apply elem_of_sorted_parts in Hin.
  destruct (joined_lookup _ _ _ _ _ _ _ Hs Hin) as [Hp [Hrow Hsize Hst]]. pose proof (sim_wf _ _ _ _ _ Hs) as Hwf.
  unfold joint_ok, joint_part. cbn. split; [done |]. split; [done |].
  destruct (wf_parts _ _ _ Hwf _ _ _ Hp) as [Hsh _]. rewrite Hrow in Hsh. unfold part_shape in Hsh. cbn in Hsh. lia.
Qed.

Lemma running_ends n (l : list (storedPart (Z * bytes))) :
  Forall (fun p => sd_size p = zlen (sd_fileID p).2) l -> running n (sd_size <$> l) = ends_from n (snd <$> (sd_fileID <$> l)) /\
  total (sd_size <$> l) = zlen (concat (snd <$> (sd_fileID <$> l))).
Proof.
  intros H. revert n. induction H as [|p l Hp _ IH]; intros n; [done |]. cbn [fmap list_fmap running total fold_right ends_from concat].
  destruct (IH (n + sd_size p)) as [-> Ht]. unfold total in Ht. rewrite Ht, zlen_app, Hp. done.
Qed.

Lemma plan_joint given lost d a id algorithm listed pl :
  sim k given lost d a -> validateListedParts listed = Ok tt ->
  planMultipart algorithm listed (joint_parts id d a) = Ok pl -> plan_ok given id d pl.
Proof.
  intros Hs [Hne Hlen]%validate_bound (taken & skipped & Hsp & ->)%plan_loop_splits.
  pose proof (joint_parts_ok given lost d a id Hs) as Hok. pose proof (splits_perm _ _ _ _ _ Hsp) as Hperm.
  pose proof (splits_length _ _ _ _ _ Hsp) as Hl. rewrite Hperm in Hok. apply Forall_app in Hok as [Hok _].
  destruct (fold_take_lists algorithm taken empty_plan) as (Hids & _). cbn [empty_plan pl_fileIDs app] in Hids.
  assert (Forall (fun p => sd_size p = zlen (sd_fileID p).2) taken) as Hz by (eapply Forall_impl; [exact Hok |]; intros p Hp; apply Hp).
  assert (0 <= total (sd_size <$> taken) <= zlen (sd_size <$> taken) * max_file_size) as Hbound.
  { apply total_bound; [unfold max_file_size; lia |]. apply Forall_fmap. eapply Forall_impl; [exact Hok |]. cbn. intros p (_ & E & ?).
    rewrite E. pose proof (zlen_nonneg (sd_fileID p).2). lia. }
  destruct (fold_take_sizes algorithm taken (@empty_plan (Z * bytes))) as [Hsize Hends].
  { eapply Forall_impl; [exact Hz |]. cbn. intros p ->. apply zlen_nonneg. }
  { done. }
  { cbn [empty_plan pl_size]. unfold zlen in Hbound, Hlen. rewrite length_fmap, Hl in Hbound. unfold max_file_size in Hbound. lia. }
  destruct (running_ends 0 taken Hz) as [Hr Ht]. cbn [empty_plan pl_size pl_partEnds app] in Hsize, Hends.
  split; unfold plan_of; cbn [pl_fileIDs pl_partEnds pl_unused pl_size empty_plan app]; rewrite ?Hids.
  - intros E. apply fmap_nil_inv in E. subst taken. by destruct listed.
  - apply Forall_fmap. eapply Forall_impl; [exact Hok |]. intros p Hp. apply Hp.
  - by rewrite Hends, Hr.
  - by rewrite Hsize, Ht.
  - intros f (no & p & Hp & <-)%upload_files_elem. rewrite <- (joined_fst _ _ _ _ Hs), lookup_fmap in Hp.
    apply fmap_Some in Hp as ([p' q] & Hj & ->). apply elem_of_sorted_parts in Hj.
    assert (joint_part (no, (p', q)) ∈ taken ++ skipped) as Hin.
    { rewrite <- Hperm. unfold joint_parts. apply list_elem_of_fmap. by eexists. }
    apply elem_of_app in Hin as [Hin|Hin]; [left | right]; apply list_elem_of_fmap; exists (pt_file_id p', sp_body q); (split; [done |]);
      apply list_elem_of_fmap; by exists (joint_part (no, (p', q))).
Qed.

(** ** Publishing the parts *)

Lemma related_swap given id d a now ref opts pl f etag meta ct :
  sim k given [] d a -> plan_ok given id d pl -> head (fst <$> pl_fileIDs pl) = Some f ->
  related (fun _ _ d' a' => sim k given [] d' a' /\ db_parts d' = db_parts d /\
      exists o, db_objects d' !! or_key ref = Some o /\ forall g, g ∈ fst <$> pl_fileIDs pl -> g ∈ object_files o)
    (swapObjectParts k now ref opts (plan_map fst pl) f etag meta ct d) (spec_swap k now ref opts (plan_map snd pl) etag meta ct a).
Proof.
  intros Hs [Hne Hst Hends Hsize _] Hf. unfold swapObjectParts, spec_swap. apply related_require; [done |]. intros _.
  apply related_tables. cbn zeta. rewrite (sim_old _ _ _ _ _ _ Hs). apply related_require; [done |]. intros _.
  cbn [pl_size pl_shaAll pl_fileIDs pl_partEnds plan_map]. set (t := swapped_attrs _ _ _ _ _ _ _ _). set (o := mkObject t _ _ _ _).
  assert (stored_as given (db_chunks d) o (concat (snd <$> pl_fileIDs pl)) (Manifest (snd <$> pl_fileIDs pl))) as Hst'.
  { destruct (pl_fileIDs pl) as [|[f' b] fbs]; [done |]. injection Hf as <-. exists f', (fst <$> fbs).
    split; [unfold o; by rewrite Hends |]. split; [| done]. clear -Hst.
    change (f' :: (fst <$> fbs)) with (fst <$> (f', b) :: fbs).
    induction Hst; constructor; done. }
  assert (layout_shape k o = true) as Hlay by (by eapply stored_shape).
  unfold write_object_row, put_entity, object_shape. cbn [en_attrs]. change (ob_attrs o) with t.
  unfold update, mbind, txn_bind. cbn zeta. rewrite Hlay, andb_true_r. unfold require, mret, txn_ret.
  destruct (attr_shape k (or_key ref) t) eqn:Hsh; [| by left].
  match goal with |- related ?Q (_ ?x) ?r => change (related Q (queue_old now (db_objects d !! or_key ref) x) r); set (d1 := x) end.
  set (e := mkEntity t _ (Manifest _)).
  assert (object_rep k given (db_chunks d) (or_key ref) o e) as Hoe.
  { split; cbn; try done. unfold object_shape. change (ob_attrs o) with t. by rewrite Hsh, Hlay. }
  assert (forall g, g ∈ object_files o <-> g ∈ fst <$> pl_fileIDs pl) as Hof.
  { intros g. destruct (pl_fileIDs pl) as [|[f' b] fbs]; [done |]. injection Hf as <-. cbn. set_solver. }
  destruct (sim_queue_old k given given [] d a d1 (sset_objects a (<[or_key ref := e]> (s_objects a))) (or_key ref) now Hs) as (d2 & E & Hs2).
  - unfold d1. apply (sim_put k given [] (set_checksums d _) a (or_key ref) o); [by apply sim_checksums | done |].
    intros g (fb & -> & Hfb)%Hof%list_elem_of_fmap. rewrite Forall_forall in Hst. destruct (Hst fb Hfb) as [-> _]. by eexists.
  - set_solver.
  - rewrite E. split; [done |].
    assert (db_parts d2 = db_parts d /\ db_objects d2 = db_objects d1) as [-> ->].
    { clear -E. revert E. unfold queue_old. destruct (db_objects d !! _) as [o'|]; [destruct (ob_file_id o') |]; intros [= <-]; done. }
    split; [done |]. exists o. split; [apply lookup_insert_eq |]. intros g Hg'. by apply Hof.
Qed.

(** Closing the upload: its files are in the new object or queued. *)
Lemma sim_close given id d a now (used unused : list Z) key o m :
  sim k given [] d a -> (forall f, f ∈ upload_files id d -> f ∈ used \/ f ∈ unused) ->
  db_objects d !! key = Some o -> (forall g, g ∈ used -> g ∈ object_files o) ->
  sim k given [] (queue_garbage now unused (delete_upload id (set_checksums d m))) (spec_delete_upload id a).
Proof.
  intros Hs Hall Ho Hused. eapply (sim_queue _ _ unused); [| auto]. eapply sim_lost; [by apply sim_delete_upload, sim_checksums |].
  intros f. rewrite app_nil_r. intros Hf. destruct (Hall f Hf) as [Hu|Hu]; [| by left]. right; left.
  eapply refs_object; [exact Ho | by apply Hused].
Qed.

Lemma store_checksums_eq key algorithm checks d : exists m, storePartChecksums key algorithm checks d = set_checksums d m.
Proof. unfold storePartChecksums. destruct algorithm; [by eexists |]. exists (db_checksums d). by destruct d. Qed.

Lemma related_apply given id d a now ref u pl etag opts pending :
  sim k given [] d a -> plan_ok given id d pl ->
  related (fun _ _ d' a' => sim k given [] d' a')
    (applyMultipartPlan k now ref id u (plan_map fst pl) etag opts pending d) (spec_apply k now ref id u (plan_map snd pl) etag opts pending a).
Proof.
  intros Hs Hpl. unfold applyMultipartPlan, spec_apply. cbn zeta. set (opts' := if bool_decide (_ = "") then _ else _).
  cbn [pl_fileIDs plan_map]. destruct (fst <$> pl_fileIDs pl) as [|f fs] eqn:Ef; [by apply fmap_nil_inv, (po_nonempty _ _ _ _ Hpl) in Ef |].
  eapply related_bind; [apply (related_swap given id d a now ref opts' pl f); [done | done | by rewrite Ef] |].
  intros _ _ d1 a1 (Hs1 & Hparts & o & Ho & Hof). unfold update, mbind, txn_bind, mret, txn_ret.
  assert (forall x, x ∈ upload_files id d1 -> x ∈ fst <$> pl_fileIDs pl \/ x ∈ fst <$> pl_unused pl) as Hall.
  { intros x. unfold upload_files. rewrite Hparts. apply (po_all _ _ _ _ Hpl). }
  destruct (bool_decide (pe_token pending <> "")); cbn [related pl_size pl_checksums pl_unused plan_map].
  - match goal with |- context [storePartChecksums ?a ?b ?c ?x] => destruct (store_checksums_eq a b c x) as [m ->] end.
    eapply sim_close; [| exact Hall | cbn; by rewrite lookup_alter_eq, Ho | exact Hof].
    unfold record_pending, spec_record_pending. cbn [db_pending s_pending set_origin_etag spec_set_origin alter_attrs spec_alter set_objects sset_objects].
    rewrite (sim_pending _ _ _ _ _ Hs1). by apply sim_pendings, sim_alter.
  - match goal with |- context [storePartChecksums ?a ?b ?c ?x] => destruct (store_checksums_eq a b c x) as [m ->] end.
    by eapply sim_close.
Qed.

Lemma related_complete given d a s over now ref id listed opts pending :
  sim k given [] d a ->
  related (fun x y d' a' => x = y /\ sim k given [] d' a')
    (completeUploadRef k s over now ref id listed opts pending d) (spec_complete k s over now ref id listed opts pending a).
Proof.
  intros Hs. unfold completeUploadRef, spec_complete. apply related_result. intros o _.
  eapply related_bind; [by apply (related_find_upload k given []) |]. intros u ? ? ? (<- & -> & -> & Hup).
  apply related_result. intros [] Hval. apply related_tables.
  rewrite (load_joint given [] d a id Hs), (spec_joint given [] d a id Hs), !planMultipart_map.
  destruct (planMultipart (up_checksum_algorithm u) listed (joint_parts id d a)) as [pl|e] eqn:Epl; [| by left].
  pose proof (plan_joint given [] d a id _ _ _ Hs Hval Epl) as Hpl.
  unfold from_result, mret, txn_ret. unfold mbind at 1 5, txn_bind at 1 5.
  cbn [pl_size pl_md5All pl_fileIDs plan_map].
  assert (zlen (fst <$> pl_fileIDs pl) = zlen (snd <$> pl_fileIDs pl)) as -> by (unfold zlen; by rewrite !length_fmap).
  apply related_require; [done |]. intros _. eapply related_bind; [by apply (related_apply given id) |]. done.
Qed.

End Complete.
