(* ===== verification/ObjectStore.v ===== *)
(** * The object store

    Runs of operations by any number of store processes over the namespaces of
    a database, compared with the specification: the results and the contents
    are those of the specification, chunk rows are never lost while something
    refers to them, and rows nothing refers to are known to the reaper, which
    removes them. *)

From stdpp Require Import gmap sorting.
From S2P Require Import Prelude GoStrings Ns Ranges Precond Blocks Pieces Reader Ids Tables Objects CacheTables Multipart ObjectSpec CacheSpec Machine ObjectRep ObjectRefine ObjectRead CacheRefine ObjectComplete.

(** ** Runs *)

Definition new_system : system := mkSystem new_allocator ∅ ∅.

Section Runs.
Context `{Zstd, Digests}.

Fixpoint exec_run (ops : list (context * Operation)) (y : system) : list (result store_error reply) * system :=
  match ops with
  | [] => ([], y)
  | (c, o) :: rest =>
      let '(r, y') := exec c o y in
      let '(rs, y'') := exec_run rest y' in
      (r :: rs, y'')
  end.

(** A run of the specification with the given results.  An operation may also
    fail for want of a file identifier, and then changes nothing; a retirement
    may be refused because the file of the object is another one. *)
Inductive spec_run : list (context * Operation) -> world -> list (result store_error reply) -> world -> Prop :=
| run_nil z : spec_run [] z [] z
| run_step same_file c o ops z r z1 rs z2 :
    spec_exec c same_file o z = (r, z1) -> spec_run ops z1 rs z2 -> spec_run ((c, o) :: ops) z (r :: rs) z2
| run_failed c o ops z rs z2 : spec_run ops z rs z2 -> spec_run ((c, o) :: ops) z (Err NoFileID :: rs) z2.

End Runs.

Section Store.
Context `{ZL : ZstdLaws} `{D : Digests}.

(** The tables of every namespace represent its specification. *)
Definition rep_in (given : gmap Z bytes) (y : system) (z : world) : Prop :=
  alloc_inv (sy_alloc y) (dom given) /\ forall r, sim (ref_kind r) given [] (db_of y r) (spec_of z r).

Definition rep (y : system) (z : world) : Prop := exists given : gmap Z bytes, rep_in given y z.

(** The files that were given out keep their contents. *)
Definition rep_from (given : gmap Z bytes) (y : system) (z : world) : Prop := exists G, given ⊆ G /\ rep_in G y z.

Lemma sim_empty k given : (forall f, is_Some (given !! f) -> 1 <= f < 2 ^ 63) -> sim k given [] empty_db empty_spec.
Proof.
  intros Hg. split; [intros key; cbn; rewrite !lookup_empty; constructor | intros i; cbn; rewrite !lookup_empty; constructor | done.. |].
  split; cbn; [constructor | constructor | set_solver | | set_solver | done |].
  - intros f [(key & o & Hk & _)|(i & p & Hi & _)]%elem_of_refs; cbn in *; [by rewrite lookup_empty in Hk | by rewrite lookup_empty in Hi].
  - intros id no p Hp. by rewrite lookup_empty in Hp.
Qed.

Lemma rep_in_new : rep_in ∅ new_system empty_world.
Proof.
  split; [rewrite dom_empty_L; apply alloc_inv_new |]. intros r. unfold db_of, spec_of. cbn. rewrite !lookup_empty. cbn.
  apply (sim_empty (ref_kind r)). intros f [x Hf]. by rewrite lookup_empty in Hf.
Qed.

Lemma rep_new : rep new_system empty_world.
Proof. exists ∅. apply rep_in_new. Qed.

(** What an operation leaves: the same results, and tables that represent the
    new specification for some content of the new files. *)
Definition grown {A} (k : Kind) (given : gmap Z bytes) (top : gset Z) (x y : A) (d : db) (a : spec) : Prop :=
  x = y /\ exists G, given ⊆ G /\ dom G ⊆ top /\ sim k G [] d a.

Lemma related_reply {A B} (Q : A -> B -> db -> spec -> Prop) k given top (f : A -> reply) (g : B -> reply) (c : tx A) (c' : stx B) d a :
  related Q (c d) (c' a) ->
  (forall x y d' a', Q x y d' a' -> f x = g y /\ exists G, given ⊆ G /\ dom G ⊆ top /\ sim k G [] d' a') ->
  related (grown k given top) (reply_of f c d) (reply_of g c' a).
Proof. intros Hc Hq. eapply related_bind; [exact Hc |]. intros x y d' a' Hxy. exact (Hq x y d' a' Hxy). Qed.

(** Whether a retirement finds the file it was told of. *)
Definition same_file_hint (d : db) (o : Operation) : bool :=
  match o with CacheOp (RetireOp key observed) => file_unchanged d key observed | _ => true end.

Section Op.
Context (c : context) (given : gmap Z bytes) (ids : list Z) (dbs : Ref -> db) (specs : Ref -> spec).
Context (Hsim : forall r, sim (ref_kind r) given [] (dbs r) (specs r)).
Context (Hnd : NoDup ids) (Hids : forall i, i ∈ ids -> given !! i = None /\ 1 <= i < 2 ^ 63).

Let k := ref_kind (cx_ns c).
Let top : gset Z := list_to_set ids ∪ dom given.

Lemma same_given d a : sim k given [] d a -> exists G, given ⊆ G /\ dom G ⊆ top /\ sim k G [] d a.
Proof. intros Hs. exists given. split; [done |]. split; [unfold top; set_solver | done]. Qed.

Lemma new_given fid rest body d a :
  ids = fid :: rest -> sim k (<[fid := body]> given) [] d a -> exists G, given ⊆ G /\ dom G ⊆ top /\ sim k G [] d a.
Proof.
  intros E Hs. exists (<[fid := body]> given). destruct (Hids fid ltac:(rewrite E; left)) as [Hn _].
  split; [by apply insert_subseteq |]. split; [| done]. unfold top. rewrite dom_insert_L, E. set_solver.
Qed.

Lemma cache_related o :
  related (grown k given top) (cache_tx c o (dbs (cx_ns c))) (cache_spec c (same_file_hint (dbs (cx_ns c)) (CacheOp o)) o (specs (cx_ns c))).
Proof.
  pose proof (Hsim (cx_ns c)) as Hs. fold k in Hs. pose proof same_given as Hsame. unfold cache_tx, cache_spec. cbn zeta. fold k.
  assert (forall A (f : A -> reply) (t : tx A) (t' : stx A),
    related (fun x y d' a' => x = y /\ sim k given [] d' a') (t (dbs (cx_ns c))) (t' (specs (cx_ns c))) ->
    related (grown k given top) (reply_of f t (dbs (cx_ns c))) (reply_of f t' (specs (cx_ns c)))) as Hreply.
  { intros A f t t' Hr. eapply related_reply; [exact Hr |]. intros x y d' a' [<- Hs']. auto. }
  destruct o; apply Hreply.
  - by apply related_get_del.
  - by apply related_delete_expected.
  - by apply related_expire.
  - by apply related_touch.
  - by apply related_mset.
  - by apply related_flush.
  - by apply (related_leases k given _ _ (acquire_lease (cx_now c) key owner ttl)).
  - by apply (related_leases k given _ _ (fun m => (tt, release_lease key owner m))).
  - by apply (related_leases k given _ _ (renew_lease (cx_now c) lease ttl)).
  - by apply (related_leases k given _ _ (fun m => (zlen (map_to_list m) - zlen (map_to_list (live_leases (cx_now c) m)), live_leases (cx_now c) m))).
  - by apply (related_pendings k given _ _ (claim_uploads (cx_now c) owner limit lease locked)).
  - by apply related_committed.
  - by apply related_abandon.
  - by apply related_fail.
  - by apply related_retry_dead.
  - by apply (related_clear k given _ _ (delete key)).
  - by apply related_clear.
  - by apply related_clear.
  - by apply related_remember.
  - by apply related_forget.
  - by apply related_retire.
  - by apply related_touch_object.
Qed.

Lemma op_related o : related (grown k given top) (op_tx c dbs ids o (dbs (cx_ns c))) (spec_tx c (same_file_hint (dbs (cx_ns c)) o) specs o (specs (cx_ns c))).
Proof.
  pose proof (Hsim (cx_ns c)) as Hs. fold k in Hs. pose proof same_given as Hsame. unfold op_tx, spec_tx. cbn zeta. fold k.
  assert (ids = [] \/ exists fid rest, ids = fid :: rest) as Hcase by (destruct ids; eauto).
  destruct o.
  - eapply related_reply; [by apply (related_put_inline k given) |]. intros m w d' a' [<- Hs']. auto.
  - destruct Hcase as [E|(fid & rest & E)]; rewrite E; [by destruct (reply_of _ _ _) as [[]|]; [| right] |].
    destruct (Hids fid ltac:(rewrite E; left)) as [Hn Hr]. eapply related_reply; [by apply (related_write k given) |].
    intros p w d' a' [<- Hs']. split; [done |]. by eapply new_given.
  - eapply related_reply; [by apply (related_create k given) |]. intros x y d' a' [<- Hs']. auto.
  - destruct Hcase as [E|(fid & rest & E)]; rewrite E; [by destruct (reply_of _ _ _) as [[]|]; [| right] |].
    destruct (Hids fid ltac:(rewrite E; left)) as [Hn Hr]. eapply related_reply; [by apply (related_write_part k given) |].
    intros p w d' a' [<- Hs']. split; [done |]. by eapply new_given.
  - eapply related_reply; [by apply (related_complete k given) |]. intros x y d' a' [<- Hs']. auto.
  - unfold CompleteUploadPending, spec_complete_pending. eapply related_reply.
    + apply related_require; [done |]. intros _. by apply (related_complete k given).
    + intros x y d' a' [<- Hs']. auto.
  - eapply related_reply; [by apply (related_abort k given) |]. intros x y d' a' [<- Hs']. auto.
  - eapply related_reply; [by apply (related_delete k given) |]. intros x y d' a' [<- Hs']. auto.
  - eapply related_reply; [by apply (related_evict k given) |]. intros x y d' a' [<- Hs']. auto.
  - apply related_require; [done |]. intros [Hf Hk]%andb_true_iff. apply bool_decide_eq_true in Hf, Hk. destruct (decide (from = cx_ns c)) as [->|Hne].
    + eapply related_reply; [by apply (related_copy_within k given) |]. intros x y d' a' Hs'. auto.
    + pose proof (Hsim from) as Hsrc. rewrite Hf, <- Hk in Hsrc. eapply related_reply.
      * apply (related_copy_from k (dbs from) (specs from) given Hsrc given top); [done | unfold top; set_solver | done |].
        intros i Hi. destruct (Hids i Hi) as [? ?]. split; [done |]. split; [unfold top; set_solver | done].
      * intros x y d' a' HG. auto.
  - eapply related_reply; [by apply (related_copy_part k given) |]. intros x y d' a' [<- Hs']. auto.
  - eapply related_reply; [by apply (related_expire_objects k given) |]. intros x y d' a' [<- Hs']. auto.
  - eapply related_reply; [by apply (related_expire_uploads k given) |]. intros x y d' a' [<- Hs']. auto.
  - destruct (sim_reap k given _ _ (cx_now c) grace budget locked pinned Hs) as (x & d' & E & Hs').
    unfold reply_of, mbind, txn_bind. rewrite E. split; auto.
  - unfold tables, mbind, txn_bind. destruct (decide _) as [Hp|]; (split; [done |]); apply Hsame; [by apply sim_reorder | done].
  - apply cache_related.
Qed.

End Op.

Lemma sibling_sim c o x k given d a :
  sim k given [] d a -> exists d' a', sibling_tx c o x d = Ok (tt, d') /\ sibling_spec o x a = Ok (tt, a') /\ sim k given [] d' a'.
Proof.
  intros Hs. assert (exists d' a', (mret tt : tx unit) d = Ok (tt, d') /\ (mret tt : stx unit) a = Ok (tt, a') /\ sim k given [] d' a') as Hno
    by (by exists d, a).
  unfold sibling_tx, sibling_spec. destruct o as [| | | | | | | | | | | | | | |[]]; try exact Hno.
  - exists (truncate d), (spec_truncate a). split; [done |]. split; [done | by apply sim_truncate].
  - destruct x as [| | |[]| | | | |]; try exact Hno. by apply sim_retire_read.
Qed.

Lemma set_pendings_same d : set_pendings d (db_pending d) = d.
Proof. by destruct d. Qed.

Lemma sset_pending_same a : sset_pending a (s_pending a) = a.
Proof. by destruct a. Qed.

Lemma db_of_put alloc y ns d r :
  db_of (put_db alloc y ns d) r =
    if decide (ns = r) then d else if decide (ref_name ns = ref_name r) then set_pendings (db_of y r) (db_pending d) else db_of y r.
Proof.
  unfold db_of, put_db. cbn [sy_dbs sy_pending]. destruct (decide (ns = r)) as [<-|Hne].
  - rewrite !lookup_insert_eq. cbn. apply set_pendings_same.
  - rewrite (lookup_insert_ne (sy_dbs y)) by done. destruct (decide _) as [->|Hn]; [by rewrite lookup_insert_eq | by rewrite lookup_insert_ne].
Qed.

Lemma spec_of_put z ns a r :
  spec_of (put_spec z ns a) r =
    if decide (ns = r) then a else if decide (ref_name ns = ref_name r) then sset_pending (spec_of z r) (s_pending a) else spec_of z r.
Proof.
  unfold spec_of, put_spec. cbn [w_specs w_pending]. destruct (decide (ns = r)) as [<-|Hne].
  - rewrite !lookup_insert_eq. cbn. apply sset_pending_same.
  - rewrite (lookup_insert_ne (w_specs z)) by done. destruct (decide _) as [->|Hn]; [by rewrite lookup_insert_eq | by rewrite lookup_insert_ne].
Qed.

Lemma rep_insert y z alloc (given G : gmap Z bytes) (top : gset Z) ns d a :
  alloc_inv alloc top -> given ⊆ G -> dom G ⊆ top ->
  (forall r, sim (ref_kind r) given [] (db_of y r) (spec_of z r)) -> sim (ref_kind ns) G [] d a ->
  rep_from G (put_db alloc y ns d) (put_spec z ns a).
Proof.
  intros Hal Hsub Hdom Hall Hs. exists (G ∪ gset_to_gmap [] top). split; [apply map_union_subseteq_l |].
  assert (dom (G ∪ gset_to_gmap [] top) = top) as Htop by (rewrite dom_union_L, dom_gset_to_gmap; set_solver).
  split; [by rewrite Htop |].
  assert (forall f, is_Some ((G ∪ gset_to_gmap [] top) !! f) -> 1 <= f < 2 ^ 63) as Hr.
  { intros f Hf. apply elem_of_dom in Hf. rewrite Htop in Hf. by apply (ai_given _ _ Hal). }
  assert (G ⊆ G ∪ gset_to_gmap [] top) as HG by apply map_union_subseteq_l.
  intros r. rewrite db_of_put, spec_of_put. destruct (decide (ns = r)) as [<-|Hne]; [by eapply sim_more |].
  assert (sim (ref_kind r) (G ∪ gset_to_gmap [] top) [] (db_of y r) (spec_of z r)) as Hold by (eapply sim_more; [apply Hall | by etrans | done]).
  destruct (decide _); [| done]. rewrite (sim_pending _ _ _ _ _ Hs). by apply sim_pendings.
Qed.

Lemma spec_of_same z ns r : spec_of (put_spec z ns (spec_of z ns)) r = spec_of z r.
Proof.
  rewrite spec_of_put. destruct (decide (ns = r)) as [<-|Hne]; [done |]. destruct (decide (ref_name ns = ref_name r)) as [Hn|]; [| done].
  assert (s_pending (spec_of z ns) = s_pending (spec_of z r)) as -> by (unfold spec_of; cbn; by rewrite Hn). apply sset_pending_same.
Qed.

Lemma rep_from_same given y z ns : rep_from given y (put_spec z ns (spec_of z ns)) -> rep_from given y z.
Proof.
  intros (G & Hsub & Hal & Hall). exists G. split; [done |]. split; [done |]. intros r. specialize (Hall r). by rewrite spec_of_same in Hall.
Qed.

Lemma rep_same y z ns : rep y (put_spec z ns (spec_of z ns)) -> rep y z.
Proof. intros [given Hrep]. destruct (rep_from_same given y z ns) as (G & _ & HG); [by exists given | by exists G]. Qed.

(** One operation. *)
Lemma exec_rep_in given c o y z r y' :
  rep_in given y z -> exec c o y = (r, y') ->
  exists same_file, forall r' z', spec_exec c same_file o z = (r', z') ->
  (r = r' /\ rep_from given y' z') \/ (r = Err NoFileID /\ rep_from given y' z).
Proof.
  intros (Hal & Hall). unfold exec, spec_exec. destruct (allocations (op_requests o) (sy_alloc y)) as [ids alloc] eqn:Ea.
  destruct (allocations_inv _ _ _ _ _ Hal Ea) as (Hal' & Hnd & Hids). intros Hex.
  set (b := same_file_hint (db_of y (cx_ns c)) o). exists b. intros r' z' Hsp.
  assert (related (grown (ref_kind (cx_ns c)) given (list_to_set ids ∪ dom given)) (op_tx c (db_of y) ids o (db_of y (cx_ns c)))
    (spec_tx c b (spec_of z) o (spec_of z (cx_ns c)))) as Hrel.
  { apply op_related; [done | done |]. intros i Hi. destruct (Hids i Hi) as [Hn ?]. split; [by apply not_elem_of_dom | done]. }
  assert (rep_from given (put_db alloc y (cx_ns c) (db_of y (cx_ns c))) (put_spec z (cx_ns c) (spec_of z (cx_ns c)))) as Hback.
  { eapply (rep_insert _ _ _ given given); [exact Hal' | done | set_solver | done | apply Hall]. }
  pose proof (rep_from_same _ _ _ _ Hback) as Hback'.
  revert Hex Hsp. unfold commit at 1 3. destruct (op_tx _ _ _ _ _) as [[x d]|e], (spec_tx _ _ _ _ _) as [[x' a]|e']; cbn [related] in Hrel.
  - destruct Hrel as (<- & G & Hsub & Hdom & Hs). intros [= <- <-] [= <- <-]. left. split; [done |].
    pose proof (rep_insert _ _ _ _ _ _ _ _ _ Hal' Hsub Hdom Hall Hs) as (G1 & Hsub1 & Hal1 & Hall1).
    destruct (sibling_sim c o x _ _ _ _ (Hall1 (sibling (cx_ns c)))) as (d1 & a1 & E1 & E2 & Hs1). unfold commit. rewrite E1, E2.
    destruct (rep_insert (put_db alloc y (cx_ns c) d) (put_spec z (cx_ns c) a) alloc G1 G1 (dom G1) (sibling (cx_ns c)) d1 a1) as (G2 & Hsub2 & Hrep); try done.
    exists G2. split; [by do 2 (etrans; [done |]) | done].
  - done.
  - subst e. intros [= <- <-] _. by right.
  - intros [= <- <-] [= <- <-]. destruct Hrel as [-> | ->]; [by left | by right].
Qed.

Lemma exec_rep c o y z r y' :
  rep y z -> exec c o y = (r, y') ->
  exists same_file, forall r' z', spec_exec c same_file o z = (r', z') ->
  (r = r' /\ rep y' z') \/ (r = Err NoFileID /\ rep y' z).
Proof.
  intros [given Hrep] Hex. destruct (exec_rep_in given c o y z r y' Hrep Hex) as (b & Hb). exists b.
  intros r' z' [[-> (G & _ & H)]|[-> (G & _ & H)]]%Hb; [left | right]; (split; [done |]); by exists G.
Qed.

Lemma exec_run_rep ops y z : rep y z -> exists z', spec_run ops z (exec_run ops y).1 z' /\ rep (exec_run ops y).2 z'.
Proof.
  revert y z. induction ops as [|[c o] ops IH]; intros y z Hrep; cbn [exec_run]; [exists z; by split; [constructor |] |].
  destruct (exec c o y) as [r y1] eqn:E1. destruct (exec_rep c o y z r y1 Hrep E1) as (b & Hb).
  destruct (spec_exec c b o z) as [r' z1] eqn:E2. destruct (Hb r' z1 eq_refl) as [[<- Hrep1]|[-> Hrep1]].
  - destruct (IH y1 z1 Hrep1) as (z2 & Hrun & Hrep2). destruct (exec_run ops y1) as [rs y2]. exists z2. split; [by econstructor | done].
  - destruct (IH y1 z Hrep1) as (z2 & Hrun & Hrep2). destruct (exec_run ops y1) as [rs y2]. exists z2. split; [by apply run_failed | done].
Qed.

(** ** The reaper makes progress *)

Section Reaper.
Context (now grace budget : Z).

(** A pass of the reaper that no reader and no other process disturbs. *)
Definition reap_step (d : db) : db := (commit (reapOne now grace budget (fun _ => false) (fun _ => false)) d).2.

Definition all_due (d : db) : Prop := map_Forall (fun _ t => t <= now - grace) (db_garbage d).

Definition work_left (d : db) : nat := size (db_garbage d) + length (db_chunks d).

Lemma candidate_due d : all_due d -> db_garbage d <> ∅ ->
  exists f, claimReapable (fun _ => false) (candidates now grace (fun _ => false) (db_garbage d)) = Some f /\ is_Some (db_garbage d !! f).
Proof.
  intros Hdue Hne. unfold candidates.
  assert (List.filter (fun kv : Z * Z => kv.2 <=? now - grace) (map_to_list (db_garbage d)) = map_to_list (db_garbage d)) as ->.
  { apply forallb_filter_id, forallb_forall. intros [f t] Hin%list_elem_of_In%elem_of_map_to_list. apply Hdue in Hin. cbn. lia. }
  set (l := merge_sort queued_order (map_to_list (db_garbage d))).
  assert (l ≡ₚ map_to_list (db_garbage d)) as Hl by apply merge_sort_Permutation.
  destruct l as [|[f t] l'].
  - apply Permutation_nil_l in Hl. symmetry in Hl. by apply map_to_list_empty_iff in Hl.
  - exists f. split; [done |]. assert ((f, t) ∈ map_to_list (db_garbage d)) as Hin by (rewrite <- Hl; left).
    apply elem_of_map_to_list in Hin. by exists t.
Qed.

Lemma delete_rows_length f n rows : rows_of f rows <> [] -> (length (delete_rows f (S n) rows) < length rows)%nat.
Proof.
  induction rows as [|r rows IH]; [done |]. cbn [delete_rows]. destruct (Z.eqb_spec (cr_file r) f) as [Hf|Hf]; intros Hne; cbn.
  - apply Nat.lt_succ_r. apply sublist_length, delete_rows_sublist.
  - apply Nat.succ_lt_mono in IH; [done |]. unfold rows_of in Hne. by rewrite filter_cons_False in Hne by done.
Qed.

Lemma delete_rows_none f n rows : rows_of f rows = [] -> delete_rows f n rows = rows.
Proof.
  revert n. induction rows as [|r rows IH]; intros n; cbn [delete_rows]; [done |]. unfold rows_of. rewrite filter_cons.
  destruct (decide _) as [|Hf]; [done |]. intros E. destruct n; [done |]. destruct (Z.eqb_spec (cr_file r) f); [done |]. by rewrite IH.
Qed.

Lemma rows_of_nil f rows : rows_of f rows = [] -> file_rows f rows = [].
Proof.
  induction rows as [|r rows IH]; [done |]. unfold rows_of. rewrite filter_cons. cbn. destruct (decide _) as [|Hf]; [done |].
  intros E. destruct (Z.eqb_spec (cr_file r) f); [done |]. by apply IH.
Qed.

Lemma reap_step_progress k given d a :
  sim k given [] d a -> 1 <= budget -> all_due d -> db_garbage d <> ∅ ->
  sim k given [] (reap_step d) a /\ all_due (reap_step d) /\ (work_left (reap_step d) < work_left d)%nat.
Proof.
  intros Hs Hb Hdue Hne. destruct (sim_reap k given d a now grace budget (fun _ => false) (fun _ => false) Hs) as (x & d' & E & Hs').
  destruct (candidate_due d Hdue Hne) as (f & Hf & Hin). unfold reap_step, commit. rewrite E. cbn [snd]. split; [done |].
  assert (forall g, size (delete g (db_garbage d)) <= size (db_garbage d))%nat as Hle.
  { intros g. apply map_subseteq_size, delete_subseteq. }
  assert (size (delete f (db_garbage d)) < size (db_garbage d))%nat as Hlt.
  { rewrite map_size_delete_Some by done.
    assert (size (db_garbage d) <> 0)%nat by (by apply map_size_non_empty_iff). lia. }
  assert (forall g, all_due (set_garbage d (delete g (db_garbage d)))) as Hdel.
  { intros g h t Ht. cbn in Ht. apply lookup_delete_Some in Ht as [_ Ht]. by apply (Hdue h t). }
  revert E. unfold reapOne, tables, update, mbind, txn_bind, mret, txn_ret. rewrite Hf. destruct (referenced d f).
  { intros [= _ <-]. split; [apply Hdel |]. unfold work_left. cbn. lia. }
  destruct (Z.to_nat budget) as [|n] eqn:En; [lia |]. set (rows := delete_rows f (S n) (db_chunks d)).
  assert (length rows <= length (db_chunks d))%nat as Hlen by apply sublist_length, delete_rows_sublist.
  destruct (_ && _) eqn:Ec; intros [= _ <-].
  { split; [apply Hdel |]. unfold work_left. cbn. lia. }
  split; [done |]. unfold work_left. cbn. destruct (decide (rows_of f (db_chunks d) = [])) as [Hnil|Hrows].
  2: { pose proof (delete_rows_length f n (db_chunks d) Hrows). unfold rows. lia. }
  exfalso. assert (rows = db_chunks d) as Hsame by by apply delete_rows_none.
  apply andb_false_iff in Ec as [Ec|Ec].
  - cbn in Ec. rewrite Hsame in Ec. lia.
  - apply bool_decide_eq_false in Ec. apply Ec. cbn. fold rows. rewrite Hsame. by apply rows_of_nil.
Qed.

Lemma reap_steps k given d a :
  sim k given [] d a -> 1 <= budget -> all_due d ->
  exists n, sim k given [] (Nat.iter n reap_step d) a /\ db_garbage (Nat.iter n reap_step d) = ∅.
Proof.
  remember (work_left d) as w eqn:Ew. revert d Ew. induction w as [w IH] using lt_wf_ind. intros d -> Hs Hb Hdue.
  destruct (decide (db_garbage d = ∅)) as [He|Hne]; [by exists 0%nat |].
  destruct (reap_step_progress k given d a Hs Hb Hdue Hne) as (Hs' & Hdue' & Hlt).
  destruct (IH _ Hlt (reap_step d) eq_refl Hs' Hb Hdue') as (n & Hn & He). exists (S n). by rewrite Nat.iter_succ_r.
Qed.

(** What it leaves alone: the objects, the parts, and the rows of every file
    they refer to. *)
Definition untouched (d d' : db) : Prop :=
  db_objects d' = db_objects d /\ db_parts d' = db_parts d /\ forall f, referenced d f = true -> rows_of f (db_chunks d') = rows_of f (db_chunks d).

Lemma reap_step_untouched d : untouched d (reap_step d).
Proof.
  unfold reap_step, commit, reapOne, tables, update, mbind, txn_bind, mret, txn_ret.
  destruct (claimReapable _ _) as [f|]; [| done]. destruct (referenced d f) eqn:Hf; [done |].
  assert (untouched d (set_chunks d (delete_rows f (Z.to_nat budget) (db_chunks d)))) as Hu.
  { do 2 (split; [done |]). intros g Hg. apply delete_rows_other. congruence. }
  by destruct (_ && _).
Qed.

Lemma untouched_trans d d1 d2 : untouched d d1 -> untouched d1 d2 -> untouched d d2.
Proof.
  intros (Ho & Hp & Hr) (Ho' & Hp' & Hr'). split; [congruence |]. split; [congruence |]. intros f Hf. rewrite Hr'; [auto |].
  unfold referenced, refs in *. by rewrite Ho, Hp.
Qed.

Lemma reap_steps_untouched n d : untouched d (Nat.iter n reap_step d).
Proof. induction n; cbn; [done |]. eapply untouched_trans; [done | apply reap_step_untouched]. Qed.

End Reaper.

(** ** What a namespace serves *)

(** A reader of a key gets the content and the metadata the specification has
    for it, and nothing when the key is absent or has expired.  The bound on
    the content is the one of 2^30 rows, 64 TiB, below which row numbers fit
    the column. *)
Definition serves (now : Z) (d : db) (a : spec) : Prop :=
  forall key oid,
    match s_objects a !! key with
    | Some e =>
        if not_expired now (at_expires_at (en_attrs e)) then
          zlen (en_body e) <= 2 ^ 30 * RowBytes ->
          exists m, queryMetadata now key metadataDecoded oid d = Some (Ok m) /\ m_Info m = entity_info e /\
            m_SHA256 m = at_sha256 (en_attrs e) /\ m_Size m = zlen (en_body e) /\ reads_as (db_chunks d) m (en_body e)
        else queryMetadata now key metadataDecoded oid d = None
    | None => queryMetadata now key metadataDecoded oid d = None
    end.

Lemma sim_serves k given d a now : sim k given [] d a -> serves now d a.
Proof.
  intros Hs key oid. pose proof (sim_objects _ _ _ _ _ Hs key) as Hk. unfold queryMetadata.
  destruct (s_objects a !! key) as [e|] eqn:Ee, (db_objects d !! key) as [o|] eqn:Eo; inversion Hk as [? ? Hr|]; subst; [| done].
  rewrite <- (or_attrs _ _ _ _ _ _ Hr). destruct (not_expired _ _); [| done]. intros Hle.
  destruct (object_reads _ _ _ _ _ _ oid Hr Hle) as (m & -> & Hm). by exists m.
Qed.

(** Every row belongs to a file something refers to or the reaper knows of,
    no row is there twice, and every file an object or a part refers to has
    all its rows. *)
Record kept (d : db) : Prop := {
  kept_key : NoDup ((fun r => (cr_file r, cr_no r)) <$> db_chunks d);
  kept_cover : forall r, r ∈ db_chunks d -> referenced d (cr_file r) = true \/ is_Some (db_garbage d !! cr_file r);
  kept_rows : forall f, referenced d f = true -> exists body, file_stored (db_chunks d) f body
}.

Lemma sim_refs_stored k given d a f : sim k given [] d a -> f ∈ refs d -> exists body, file_stored (db_chunks d) f body.
Proof.
  intros Hs [(key & o & Ho & Hf)|(i & p & Hp & <-)]%elem_of_refs.
  - pose proof (sim_objects _ _ _ _ _ Hs key) as Hk. rewrite Ho in Hk. inversion Hk as [? e Hr|]; subst.
    destruct Hr as [_ _ _ Hst]. destruct (en_layout e); cbn in Hst.
    + rewrite Hst in Hf. unfold object_files in Hf. cbn in Hf. set_solver.
    + destruct Hst as (g & Eo & _ & Hg). rewrite Eo in Hf. unfold object_files in Hf. cbn in Hf. apply list_elem_of_singleton in Hf as ->. eauto.
    + destruct Hst as (g & ps & Eo & Hg & _). rewrite Eo in Hf. unfold object_files in Hf. cbn in Hf.
      assert (f ∈ g :: ps) as (i & Hi)%list_elem_of_lookup by set_solver. destruct (Forall2_lookup_l _ _ _ _ _ Hg Hi) as (b & _ & _ & Hb). eauto.
  - pose proof (sim_parts _ _ _ _ _ Hs i) as Hk. rewrite Hp in Hk. inversion Hk as [? q [_ _ [_ Hr]]|]; subst. eauto.
Qed.

Lemma sim_kept k given d a : sim k given [] d a -> kept d.
Proof.
  intros Hs. split; [apply (sim_wf _ _ _ _ _ Hs) | |].
  - intros r Hr. destruct (wf_cover _ _ _ (sim_wf _ _ _ _ _ Hs) r Hr) as [H|[H|H]]; [left; by apply bool_decide_eq_true | by right | by apply not_elem_of_nil in H].
  - intros f Hf%bool_decide_eq_true. by eapply sim_refs_stored.
Qed.

Lemma run_sim ops : exists z given, spec_run ops empty_world (exec_run ops new_system).1 z /\
  forall r, sim (ref_kind r) given [] (db_of (exec_run ops new_system).2 r) (spec_of z r).
Proof. destruct (exec_run_rep ops _ _ rep_new) as (z & Hrun & given & _ & Hs). eauto. Qed.



(** C5: the reaper drains.  After any run, once the grace period of the queued
    files has passed, finitely many undisturbed passes with a positive row
    budget empty the queue; the rows left are those of the files referred to,
    and these, the objects and the parts are untouched. *)
Theorem reaper_drains ops r now grace budget :
  let d := db_of (exec_run ops new_system).2 r in
  1 <= budget -> all_due now grace d ->
  exists n, let d' := Nat.iter n (reap_step now grace budget) d in
    db_garbage d' = ∅ /\ untouched d d' /\ kept d' /\ forall row, row ∈ db_chunks d' -> referenced d' (cr_file row) = true.
Proof.
  intros d Hb Hdue. destruct (run_sim ops) as (z & given & _ & Hs).
  destruct (reap_steps now grace budget _ _ _ _ (Hs r) Hb Hdue) as (n & Hn & He). exists n. cbn zeta. fold d in Hn, He |- *.
  pose proof (sim_kept _ _ _ _ Hn) as Hk. split; [done |]. split; [apply reap_steps_untouched |]. split; [done |].
  intros row Hrow. destruct (kept_cover _ Hk row Hrow) as [|Hg]; [done |]. rewrite He, lookup_empty in Hg. by destruct Hg.
Qed.

End Store.

(** ** A run *)

Section Sample.
#[local] Instance toy_digests : Digests := {
  sha256 b := replicate 32 (chr (zlen b mod 256));
  md5 b := replicate 16 (chr (zlen b mod 256))
}.

Definition sample_opts : WriteOptions :=
  mkWriteOptions (mkPrecondition Unconditional "") None "" "" None None "" None false (NormalPublication "") None (-1).

Definition sample_context (t : Z) : context := mkContext t (fun _ => false) 1 (BucketRef "photos").

Definition sample_copy : CopyOptions :=
  mkCopyOptions false [] "" "" None (mkReadCondition "" "") (mkPrecondition Unconditional "").

Definition hello : list bytes := [String.list_ascii_of_string "hello "; String.list_ascii_of_string "world"].

(** Two keys share a file, an upload of two parts is completed, an object is
    put inline, and everything is deleted again but the upload. *)
Definition sample_run : list (context * Operation) :=
  [ (sample_context 1, WriteOp 0 (seqZ 1 64) "a" hello [] sample_opts);
    (sample_context 2, CopyOp [] (BucketRef "photos") "a" "b" sample_copy);
    (sample_context 3, PutOp "c" (concat hello) sample_opts);
    (sample_context 4, CreateOp "u" "d" (mkUploadOptions None "text/plain" "" None));
    (sample_context 5, PartOp 1 (seqZ 65 64) "u" "d" 1 hello [] (-1));
    (sample_context 6, PartOp 1 [] "u" "d" 2 hello [] (-1));
    (sample_context 7, CompleteOp "d" "u" [mkListedPart 2 "0b0b0b0b0b0b0b0b0b0b0b0b0b0b0b0b" None] sample_opts);
    (sample_context 8, DeleteOp ["a"; "c"]);
    (sample_context 9, DeleteOp ["b"]) ].

Definition sample_result := exec_run sample_run new_system.

Definition is_ok {E A} (r : result E A) : bool := match r with Ok _ => true | Err _ => false end.

Lemma sample_results : forallb is_ok sample_result.1 = true.
Proof. vm_compute. reflexivity. Qed.

(** The file [a] and [b] shared and the part left out are queued. *)
Lemma sample_garbage : map_to_list (db_garbage (db_of sample_result.2 (BucketRef "photos"))) = [(65, 7); (1, 9)].
Proof. vm_compute. reflexivity. Qed.



Lemma reaper_drains_witness : exists n,
  let d := db_of (exec_run sample_run new_system).2 (BucketRef "photos") in
  let d' := Nat.iter n (reap_step 100 60 1) d in
  db_garbage d' = ∅ /\ untouched d d' /\ kept d' /\ forall row, row ∈ db_chunks d' -> referenced d' (cr_file row) = true.
Proof.
  apply (reaper_drains sample_run (BucketRef "photos") 100 60 1); [lia |].
  intros f t Hf%elem_of_map_to_list. change (exec_run sample_run new_system) with sample_result in Hf.
  rewrite sample_garbage in Hf. repeat (apply elem_of_cons in Hf as [[= -> ->]|Hf]; [lia |]). by apply not_elem_of_nil in Hf.
Defined.

End Sample.
