(* ===== verification/LateRead.v ===== *)
(** * Readers that are late

    The metadata of an object are read in one statement and the rows of its
    files later ([Store.bodyFromMeta] of [internal/store/object.go]), when the
    object may have been replaced or deleted and the reaper may have been at its
    rows.  Identifiers of files are never used again, so such a reader gets the
    bytes of the object it has seen, or an error. *)

From stdpp Require Import gmap sorting.
From S2P Require Import Prelude GoStrings Ns Ranges Precond Blocks Pieces Reader Ids Tables Objects CacheTables ObjectSpec Machine ObjectRep ObjectRefine ObjectRead ObjectStore.

(** [bodyFromMeta] and [io.ReadAll], with no block cache. *)
Definition read_range `{Zstd} (table : list chunk_row) (workers : Z) (m : Meta) (rng : ByteRange) : option bytes :=
  match Resolve rng (m_Size m) with
  | Err _ => None
  | Ok span =>
      if (m_Size m =? 0) || (sp_End span <? sp_Start span) then Some []
      else match m_Inline m with
           | Some b => Some (slice b (sp_Start span) (sp_End span + 1))
           | None =>
               match planPieces m (sp_Start span) (sp_End span) workers with
               | Some (Ok ps) => fmap (fun bs : list bytes => concat bs) (mapM (piece_body table (sp_Start span) (sp_End span)) ps)
               | _ => None
               end
           end
  end.

Section Late.
Context `{ZL : ZstdLaws}.

(** The rows of a file that are there are its rows. *)
Definition file_sound (table : list chunk_row) (fid : Z) (body : bytes) : Prop :=
  forall r, r ∈ table -> cr_file r = fid -> r ∈ stored_body fid body.

Lemma late_piece table files p start stop b :
  piece_ok files p -> file_sound table (p_fileID p) (files (p_fileID p)) ->
  piece_body table start stop p = Some b -> b = piece_bytes files start stop p.
Proof.
  intros (Hlo & [Hhi Hmax] & Hb & Hlen) Hs. unfold piece_body.
  destruct (streamRows _ _ _ _ _ _ _) as [[[cs [e|]] r]|] eqn:E; [done | | done]. intros [= <-].
  eapply streamRows_only in E; [exact E | done | lia | lia | exact Hlen | done | | done | done].
  apply Forall_fmap, Forall_forall. intros r0 [[Hf Hno] Hr]%list_elem_of_filter. specialize (Hs r0 Hr Hf).
  apply list_elem_of_fmap in Hs as (i & -> & Hi). exists i. split; [exact Hno | done].
Qed.

Lemma late_pieces table files ps start stop bs :
  Forall (piece_ok files) ps -> Forall (fun p => file_sound table (p_fileID p) (files (p_fileID p))) ps ->
  mapM (piece_body table start stop) ps = Some bs -> bs = piece_bytes files start stop <$> ps.
Proof.
  intros Hok Hs. revert bs. induction ps as [|p ps IH]; intros bs; cbn [mapM]; [by intros [= <-] |].
  apply Forall_cons in Hok as [Hp Hok]. apply Forall_cons in Hs as [Hp' Hs].
  destruct (piece_body table start stop p) as [b|] eqn:E; [| done]. cbn. destruct (mapM _ ps) as [bs'|]; [| done]. intros [= <-].
  cbn. f_equal; [by eapply late_piece | by apply IH].
Qed.

(** What metadata say of a content, given the files handed out. *)
Definition describes (given : gmap Z bytes) (m : Meta) (body : bytes) : Prop :=
  m_Size m = zlen body /\
  match m_Inline m with
  | Some b => b = body
  | None => exists segs, Segments m = Ok segs /\ Forall (file_ok (files_of given)) segs /\
      Forall (fun seg => is_Some (given !! sg_FileID seg)) segs /\ object_bytes (files_of given) segs = body
  end.

Lemma files_more given G f : given ⊆ G -> is_Some (given !! f) -> files_of G f = files_of given f.
Proof. intros Hsub [b Hb]. unfold files_of. by rewrite Hb, (lookup_weaken _ _ _ _ Hb Hsub). Qed.

Lemma describes_more given G m body : given ⊆ G -> describes given m body -> describes G m body.
Proof.
  intros Hsub [Hsize Hd]. split; [done |]. destruct (m_Inline m); [done |]. destruct Hd as (segs & Hseg & Hok & Hin & Hb).
  exists segs. split; [done |]. rewrite Forall_forall in Hok, Hin. split; [| split].
  - apply Forall_forall. intros seg Hs. specialize (Hok seg Hs). unfold file_ok, seg_body in *. by rewrite (files_more given G) by eauto.
  - apply Forall_forall. intros seg Hs. by eapply lookup_weaken_is_Some; eauto.
  - rewrite <- Hb. unfold object_bytes. f_equal. apply list_fmap_ext. intros i seg Hs%list_elem_of_lookup_2. unfold seg_body. by apply files_more; eauto.
Qed.

(** The range a reader asks for. *)
Definition range_of (body : bytes) (rng : ByteRange) : option bytes :=
  match Resolve rng (zlen body) with Ok span => Some (slice body (sp_Start span) (sp_End span + 1)) | Err _ => None end.

(** Tables that hold only rows of the files handed out. *)
Definition rows_sound (given : gmap Z bytes) (table : list chunk_row) : Prop :=
  forall f body, given !! f = Some body -> file_sound table f body.

Lemma late_range given table workers m body rng b :
  describes given m body -> rows_sound given table -> read_range table workers m rng = Some b -> range_of body rng = Some b.
Proof.
  intros [Hsize Hd] Hrows. unfold read_range, range_of. rewrite Hsize. destruct (Resolve rng (zlen body)) as [span|] eqn:Es; [| done].
  pose proof (Resolve_within _ _ _ Es) as [H1 H2]. destruct (Z.eqb_spec (zlen body) 0) as [Hz|Hz]; cbn [orb].
  { intros [= <-]. by rewrite slice_past by lia. }
  destruct (Z.ltb_spec (sp_End span) (sp_Start span)) as [Hlt|Hle]; [intros [= <-]; by rewrite slice_nil_ge by lia |].
  destruct (m_Inline m) as [b0|]; [by rewrite Hd |]. destruct Hd as (segs & Hseg & Hok & Hin & Hb).
  destruct (planPieces_chains (files_of given) m segs (sp_Start span) (sp_End span) workers Hseg Hok) as (pss & -> & Hpo & Ht & Hcat); [lia | lia |].
  destruct (plan_bytes (files_of given) (sp_Start span) (sp_End span) _ pss ltac:(lia) Ht Hpo) as [Hpok Hbytes].
  destruct (mapM _ _) as [bs|] eqn:Em; [| done]. cbn. intros [= <-]. f_equal.
  apply (late_pieces table (files_of given)) in Em as ->; [by rewrite Hbytes, Hcat, Hb | done |].
  eapply (plan_pieces_file (fun id => file_sound table id (files_of given id))); [exact Hpo |].
  apply Forall_forall. intros seg [Hs _]%list_elem_of_In%filter_In. rewrite Forall_forall in Hin.
  destruct (Hin seg ltac:(by apply list_elem_of_In)) as [bd Hbd]. unfold files_of. rewrite Hbd. by apply Hrows.
Qed.

(** A reader that is not late. *)
Lemma range_read table workers m body rng : reads_as table m body -> m_Size m = zlen body -> read_range table workers m rng = range_of body rng.
Proof.
  intros Hr Hsize. unfold read_range, range_of. rewrite Hsize. destruct (Resolve rng (zlen body)) as [span|] eqn:Es; [| done].
  apply Resolve_within in Es as [H1 H2]. destruct (Z.eqb_spec (zlen body) 0) as [Hz|Hz]; cbn [orb].
  { rewrite slice_past by lia. done. }
  destruct (Z.ltb_spec (sp_End span) (sp_Start span)); [by rewrite slice_nil_ge by lia |]. unfold reads_as in Hr. destruct (m_Inline m) as [b|]; [by subst b |].
  destruct (Hr (sp_Start span) (sp_End span) workers) as (ps & -> & Hps & Hcat); [lia | lia |].
  destruct (piece_bodies table _ _ ps Hps) as (css & Hread & ->). cbn. f_equal. by rewrite concat_chunks, (Hcat css Hread).
Qed.

Lemma rep_rows given y z r : rep_in given y z -> rows_sound given (db_chunks (db_of y r)).
Proof.
  intros [_ Hall] f body Hf row Hr Hfile. destruct (wf_rows _ _ _ (sim_wf _ _ _ _ _ (Hall r)) row Hr) as (b & Hb & Hin).
  rewrite Hfile in *. congruence.
Qed.

(** The metadata of a row describe its entity. *)
Lemma scan_describes k given rows key o en oid m :
  object_rep k given rows key o en -> zlen (en_body en) <= 2 ^ 30 * RowBytes -> scanMetadata metadataDecoded oid o = Ok m -> describes given m (en_body en).
Proof.
  intros [Hat Hsize Hshape Hst] Hle. destruct (en_layout en) as [| |bodies]; cbn in Hst.
  - rewrite Hst. unfold scanMetadata. cbn [ob_inline_data ob_attrs ob_file_id ob_parts ob_part_ends]. rewrite Hsize, decompress_compress.
    intros [= <-]. by split.
  - destruct Hst as (f & Eo & Hf). rewrite Eo. intros [= <-]. split; [exact Hsize |]. cbn [m_Inline]. exists [mkSegment f 0 (zlen (en_body en))].
    destruct (segments_stored given rows 0 [f] [en_body en]) as (I1 & _ & I3); [by constructor | cbn; rewrite app_nil_r; lia |].
    split; [unfold Segments; cbn; by rewrite Hsize |]. split; [exact I1 |]. split; [constructor; [| done]; cbn; destruct Hf as [Hg _]; by eexists |].
    etrans; [exact I3 |]. cbn. by rewrite app_nil_r.
  - destruct Hst as (f & ps & Eo & Hf & Eb). rewrite Eo. intros [= <-]. split; [exact Hsize |]. cbn [m_Inline].
    rewrite Eb in *. destruct (segments_stored given rows 0 (f :: ps) bodies Hf Hle) as (I1 & _ & I3). eexists. split; [| split; [exact I1 | split; [| exact I3]]].
    + pose proof (Forall2_length _ _ _ Hf) as Hlen. assert (bodies <> []) as Hne by (by intros ->).
      unfold Segments. cbn [m_Parts m_PartEnds m_FileID ob_parts ob_part_ends ob_file_id default from_option].
      rewrite length_ends_from, bool_decide_true, Z.eqb_refl, last_ends_from, Z.add_0_l by done. cbn [negb].
      rewrite bool_decide_true by (unfold m_Size; cbn; by rewrite <- Hsize). cbn [negb]. by apply segment_loop_of.
    + clear -Hf. revert Hf. generalize (f :: ps), 0. intros l n Hf. revert n. induction Hf as [|x b l bs [Hg _] Hf IH]; intros n; [constructor |].
      constructor; [cbn; by eexists | apply IH].
Qed.

Context `{D : Digests}.

Lemma exec_run_from given ops y z : rep_in given y z -> exists z', rep_from given (exec_run ops y).2 z'.
Proof.
  revert given y z. induction ops as [|[c o] ops IH]; intros given y z Hrep; cbn [exec_run]; [exists z, given; by split |].
  destruct (exec c o y) as [r y1] eqn:E1. destruct (exec_rep_in given c o y z r y1 Hrep E1) as (b & Hb).
  destruct (spec_exec c b o z) as [r' z1] eqn:E2. assert (exists z2, rep_from given y1 z2) as (z2 & G & Hsub & Hrep1).
  { destruct (Hb r' z1 eq_refl) as [[_ H]|[_ H]]; eauto. }
  destruct (IH G y1 z2 Hrep1) as (z3 & G' & Hsub' & Hrep'). destruct (exec_run ops y1) as [rs y2]. exists z3, G'. split; [by etrans | done].
Qed.

(** A row whose metadata are read. *)
Lemma query_row given y z now r key m : rep_in given y z -> queryMetadata now key metadataDecoded 0 (db_of y r) = Some (Ok m) -> m_Size m <= max_value ->
  exists en, s_objects (spec_of z r) !! key = Some en /\ not_expired now (at_expires_at (en_attrs en)) = true /\ m_Info m = entity_info en /\
    describes given m (en_body en) /\ reads_as (db_chunks (db_of y r)) m (en_body en).
Proof.
  intros [_ Hall] Hq Hmax. specialize (Hall r). unfold queryMetadata in Hq. pose proof (sim_objects _ _ _ _ _ Hall key) as Hk.
  destruct (db_objects (db_of y r) !! key) as [o|]; [| done]. destruct (not_expired now _) eqn:Hexp; [| done]. assert (scanMetadata metadataDecoded 0 o = Ok m) as Hm by congruence. clear Hq. rename Hm into Hq.
  inversion Hk as [? en Hoe|]; subst. exists en. split; [done |]. rewrite (or_attrs _ _ _ _ _ _ Hoe). split; [done |].
  assert (zlen (en_body en) <= 2 ^ 30 * RowBytes) as Hle.
  { rewrite <- (or_size _ _ _ _ _ _ Hoe). revert Hq Hmax. unfold scanMetadata, max_value. destruct (ob_inline_data o); [destruct (decompressBlock _ _) |]; by intros [= <-]. }
  destruct (object_reads _ _ _ _ _ _ 0 Hoe Hle) as (m' & Hm' & Hinfo & _ & _ & Hreads). rewrite Hq in Hm'. injection Hm' as <-.
  split; [done |]. split; [by eapply scan_describes | done].
Qed.

(** C9: late readers.  Read the metadata of a live object after any run, let
    any other run follow, with overwrites, deletions, evictions and passes of
    the reaper, and read any range of the object then, with the metadata from
    before and any number of readers.  The bytes are those a read at once would
    have given, or the read fails: a reader never sees a part of another
    object, nor a mixture. *)
Theorem late_read (before after : list (context * Operation)) (r : Ref) (now : Z) (key : string) (m : Meta) (workers : Z) (rng : ByteRange) (b : bytes)
    (Hseen : queryMetadata now key metadataDecoded 0 (db_of (exec_run before new_system).2 r) = Some (Ok m)) (Hsize : m_Size m <= max_value)
    (Hread : read_range (db_chunks (db_of (exec_run after (exec_run before new_system).2).2 r)) workers m rng = Some b) :
  read_range (db_chunks (db_of (exec_run before new_system).2 r)) workers m rng = Some b.
Proof.
  destruct (exec_run_rep before _ _ rep_new) as (z & _ & given & Hrep).
  destruct (query_row given _ z now r key m Hrep Hseen Hsize) as (en & _ & _ & _ & Hd & Hr).
  rewrite (range_read _ _ _ (en_body en)) by (try done; by apply Hd).
  destruct (exec_run_from given after _ z Hrep) as (z' & G & Hsub & Hrep').
  eapply late_range; [by eapply describes_more | by eapply rep_rows | exact Hread].
Qed.
End Late.

(** ** A run *)

Section Sample.
#[local] Existing Instance toy_digests.

Definition late_context (t : Z) : context := mkContext t (fun _ => false) 1 (BucketRef "photos").

Definition late_write (t : Z) (block : list Z) (data : bytes) : context * Operation := (late_context t, WriteOp 0 block "cat" [data] [] sample_opts).

Definition late_before : list (context * Operation) := [late_write 1 (seqZ 1 64) (replicate 100 (chr 65))].

(** The object is replaced; the reaper has not been there yet. *)
Definition late_after : list (context * Operation) := [late_write 5 [] (replicate 50 (chr 66))].

Definition late_meta : option (result block_error Meta) := queryMetadata 2 "cat" metadataDecoded 0 (db_of (exec_run late_before new_system).2 (BucketRef "photos")).

(** A pass of the reaper over it. *)
Definition late_reap : list (context * Operation) := late_after ++ [(late_context 9, ReapOp 1 100 (fun _ => false) (fun _ => false))].

Lemma late_read_witness : exists m, late_meta = Some (Ok m) /\
  read_range (db_chunks (db_of (exec_run late_before new_system).2 (BucketRef "photos"))) 4 m (Range 10 19 (-1)) = Some (replicate 10 (chr 65)) /\
  read_range (db_chunks (db_of (exec_run late_reap (exec_run late_before new_system).2).2 (BucketRef "photos"))) 4 m (Range 10 19 (-1)) = None.
Proof.
  assert (exists m, late_meta = Some (Ok m)) as [m Hm] by (vm_compute; by eexists). exists m. split; [exact Hm |]. split.
  - apply (late_read late_before late_after (BucketRef "photos") 2 "cat" m 4 (Range 10 19 (-1))); [exact Hm | |]; vm_compute in Hm; injection Hm as <-; vm_compute; done.
  - vm_compute in Hm. injection Hm as <-. vm_compute. done.
Defined.
End Sample.
