(* ===== verification/Names.v ===== *)
(** * Entity tags name contents

    Whatever the operations, the entity tag and the SHA-256 of an object are
    those of its content: the digest of the bytes, or, for an object assembled
    from parts, the digest of the digests of the parts and their number.  So
    equal entity tags mean equal contents, unless two of the strings hashed
    collide; this is what conditional writes rely on. *)

From stdpp Require Import gmap sorting.
From S2P Require Import Prelude GoStrings Ns Ranges Precond Blocks Pieces Reader Ids Tables Objects CacheTables Conditions Multipart ObjectSpec CacheSpec Machine ObjectRep ObjectRefine ObjectRead CacheRefine ObjectComplete ObjectStore.

(** ** Hexadecimal digests *)

Lemma hex_digit_round d : 0 <= d < 16 -> hex_digit_val (hex_digit_of d) = Some d /\ hex_digit_of d <> "-"%char.
Proof.
  intros H. assert (d ∈ seqZ 0 16) as Hd by (apply elem_of_seqZ; lia). clear H. revert d Hd. apply Forall_forall.
  repeat constructor; by vm_compute.
Qed.

Lemma hexDecode_hexEncode b : hexDecode (hexEncode b) = Some b.
Proof.
  induction b as [|c b IH]; [done |]. cbn [hexEncode hexDecode]. pose proof (code_range c) as Hc.
  assert (Z.shiftr (code c) 4 = code c / 16) as -> by (by rewrite Z.shiftr_div_pow2).
  assert (Z.land (code c) 15 = code c mod 16) as -> by (change 15 with (Z.ones 4); by rewrite Z.land_ones).
  destruct (hex_digit_round (code c / 16)) as [-> _]; [div_lia |]. destruct (hex_digit_round (code c mod 16)) as [-> _]; [div_lia |].
  cbn. rewrite IH. cbn. do 2 f_equal. rewrite <- Z.div_mod by lia. apply chr_code.
Qed.

Lemma hexEncode_inj b b' : hexEncode b = hexEncode b' -> b = b'.
Proof. intros E. apply (f_equal hexDecode) in E. rewrite !hexDecode_hexEncode in E. congruence. Qed.

Lemma hexEncode_plain b : all_bytes (fun c => negb (bool_decide (c = "-"%char))) (hexEncode b) = true.
Proof.
  induction b as [|c b IH]; [done |]. cbn [hexEncode all_bytes]. pose proof (code_range c) as Hc.
  assert (Z.shiftr (code c) 4 = code c / 16) as -> by (by rewrite Z.shiftr_div_pow2).
  assert (Z.land (code c) 15 = code c mod 16) as -> by (change 15 with (Z.ones 4); by rewrite Z.land_ones).
  destruct (hex_digit_round (code c / 16)) as [_ H1]; [div_lia |]. destruct (hex_digit_round (code c mod 16)) as [_ H2]; [div_lia |].
  rewrite IH. by rewrite !bool_decide_false.
Qed.

Lemma Cut_none sep s : all_bytes (fun c => negb (bool_decide (c = sep))) s = true -> Cut s sep = None.
Proof.
  induction s as [|c s IH]; [done |]. cbn [all_bytes Cut]. intros [H1%negb_true_iff%bool_decide_eq_false H2]%andb_true_iff.
  rewrite decide_False, IH by done. done.
Qed.

Lemma etagMD5_hex m : zlen m = 16 -> etagMD5 (hexEncode m) = Some m.
Proof. intros Hm. unfold etagMD5. rewrite (Cut_none _ _ (hexEncode_plain m)), hexDecode_hexEncode, Hm. done. Qed.

Section Names.
Context `{D : Digests}.

(** ** What a tag names *)

(** The strings whose digests make the tag of an entity. *)
Definition hashed (l : layout) (body : bytes) : list bytes :=
  match l with
  | Manifest parts => concat (md5 <$> parts) :: parts
  | _ => [body]
  end.

Definition tag_of (l : layout) (body : bytes) : string :=
  match l with
  | Manifest parts => s3ETag (md5 (concat (md5 <$> parts))) (zlen parts)
  | _ => hexEncode (md5 body)
  end.

Definition sha_of (l : layout) (body : bytes) : bytes :=
  match l with
  | Manifest parts => sha256 (concat (sha256 <$> parts))
  | _ => sha256 body
  end.

(** A multipart content is its parts in order. *)
Definition assembled (l : layout) (body : bytes) : Prop :=
  match l with
  | Manifest parts => parts <> [] /\ body = concat parts
  | _ => True
  end.

Definition named (t : attrs) (l : layout) (body : bytes) : Prop :=
  at_etag t = tag_of l body /\ at_sha256 t = sha_of l body /\ assembled l body.

Definition named_part (q : spart) : Prop := sp_md5 q = md5 (sp_body q) /\ sp_sha256 q = sha256 (sp_body q).

Record all_named (a : spec) : Prop := {
  an_objects : forall key e, s_objects a !! key = Some e -> named (en_attrs e) (en_layout e) (en_body e);
  an_parts : forall i q, s_parts a !! i = Some q -> named_part q
}.

(** ** Every operation keeps it *)

Abbreviation keeps := (ends (fun _ => all_named)).

Lemma named_objects a m :
  all_named a -> (forall key e, m !! key = Some e -> s_objects a !! key = Some e \/ named (en_attrs e) (en_layout e) (en_body e)) ->
  all_named (sset_objects a m).
Proof. intros [Ho Hp] Hm. split; [| done]. intros key e He. destruct (Hm key e He) as [H|H]; [by apply (Ho key) | done]. Qed.

Lemma named_put {A} (R : A -> spec -> Prop) k key e (f : stx A) a :
  all_named a -> named (en_attrs e) (en_layout e) (en_body e) -> (forall a', all_named a' -> ends R (f a')) -> ends R ((put_entity k key e;; f) a).
Proof.
  intros Ha He Hf. unfold put_entity. eapply (ends_bind (fun _ => all_named)).
  - apply ends_require. intros _. cbn. apply named_objects; [done |]. intros key' e' [[_ <-]|[_ He']]%lookup_insert_Some; auto.
  - auto.
Qed.

Lemma named_put_end k key e a : all_named a -> named (en_attrs e) (en_layout e) (en_body e) -> keeps (put_entity k key e a).
Proof.
  intros Ha He. unfold put_entity. apply ends_require. intros _. cbn. apply named_objects; [done |].
  intros key' e' [[_ <-]|[_ He']]%lookup_insert_Some; auto.
Qed.

Lemma named_delete keys a : all_named a -> all_named (spec_delete keys a).
Proof. intros Ha. apply named_objects; [done |]. intros key e [He _]%map_lookup_filter_Some. by left. Qed.

Lemma named_alter f key a :
  all_named a -> (forall t, at_etag (f t) = at_etag t /\ at_sha256 (f t) = at_sha256 t) -> all_named (spec_alter f key a).
Proof.
  intros Ha Hf. apply named_objects; [done |]. intros key' e He. apply lookup_alter_Some in He as [(-> & e' & He & ->)|[_ He]]; [right | by left].
  destruct (an_objects _ Ha _ _ He) as (H1 & H2 & H3). destruct (Hf (en_attrs e')) as [F1 F2]. split; cbn; [by rewrite F1 | by rewrite F2].
Qed.

Lemma named_same a a' : s_objects a' = s_objects a -> s_parts a' = s_parts a -> all_named a -> all_named a'.
Proof. intros Ho Hp []. split; [by rewrite Ho | by rewrite Hp]. Qed.

Lemma named_fewer a a' : (forall key e, s_objects a' !! key = Some e -> s_objects a !! key = Some e) ->
  (forall i q, s_parts a' !! i = Some q -> s_parts a !! i = Some q) -> all_named a -> all_named a'.
Proof. intros Ho Hp []. split; eauto. Qed.

Lemma named_delete_upload id a : all_named a -> all_named (spec_delete_upload id a).
Proof. apply named_fewer; [done |]. cbn. by intros i q [Hq _]%map_lookup_filter_Some. Qed.

Lemma named_put_part {A} (R : A -> spec -> Prop) id no q (f : stx A) a :
  all_named a -> named_part q -> (forall a', all_named a' -> ends R (f a')) -> ends R ((spec_put_part id no q;; f) a).
Proof.
  intros [Ho Hp] Hq Hf. unfold spec_put_part. eapply (ends_bind (fun _ => all_named)); [| auto].
  apply ends_require. intros _. cbn. split; [done |]. cbn. intros i q' [[_ <-]|[_ Hi]]%lookup_insert_Some; eauto.
Qed.


Context {DL : DigestLaws D}.

Lemma keeps_reply {A} (f : A -> reply) (c : stx A) a : keeps (c a) -> keeps (reply_of f c a).
Proof. intros Hc. eapply ends_bind; [exact Hc |]. done. Qed.

Lemma keeps_find_upload {A} (f : upload -> stx A) id key a :
  all_named a -> (forall u, keeps (f u a)) -> keeps ((spec_find_upload id key ≫= f) a).
Proof.
  intros Ha Hf. unfold spec_find_upload. eapply (ends_bind (fun _ a' => a' = a)); [| intros u a' ->; apply Hf].
  apply ends_tables. destruct (s_uploads a !! id); [| done]. by apply ends_require.
Qed.

Lemma upsert_names now keep old t :
  at_etag (upsert_attrs now keep old t) = at_etag t /\ at_sha256 (upsert_attrs now keep old t) = at_sha256 t.
Proof. unfold upsert_attrs. destruct old; [| done]. by destruct (_ && _). Qed.

Lemma keeps_publish k now p body l a :
  all_named a -> p_etag p = tag_of l body -> p_sha256 p = sha_of l body -> assembled l body -> keeps (spec_publish k now p body l a).
Proof.
  intros Ha He Hsh Hl. unfold spec_publish. apply ends_tables. destruct (match sm_fill _ with Some _ => _ | None => _ end); [done |].
  destruct (publish_check _ _ _); try done. destruct (upsert_applies _ _); [| done].
  apply named_put; [done | |].
  - destruct (upsert_names now (p_keep_ttl p) (old_attrs (p_key p) a) (new_attrs now p)) as [E1 E2]. cbn. split; [by rewrite E1 |]. by rewrite E2.
  - intros a' Ha'. by apply (named_same a').
Qed.

Lemma keeps_outcome (r : outcome) a : all_named a -> keeps (outcome_error r a).
Proof. by destruct r. Qed.

Lemma keeps_put_inline k s over now ref data opts a : all_named a -> keeps (spec_put_inline k s over now ref data opts a).
Proof.
  intros Ha. unfold spec_put_inline. apply ends_result. intros o _. do 2 (apply ends_require; intros _).
  eapply (ends_bind (fun _ => all_named)); [by apply keeps_publish |]. intros r a' Ha'.
  eapply (ends_bind (fun _ => all_named)); [by apply keeps_outcome | done].
Qed.

Lemma keeps_write k s over now ref data cs opts a : all_named a -> keeps (spec_write k s over now ref data cs opts a).
Proof.
  intros Ha. unfold spec_write. apply ends_result. intros o _. do 2 (apply ends_require; intros _). apply ends_result. intros o' _.
  eapply (ends_bind (fun _ => all_named)).
  - unfold spec_publish_object. apply ends_result. intros _ _. eapply (ends_bind (fun _ => all_named)); [by apply keeps_publish |].
    intros r a' Ha'. by apply keeps_outcome.
  - intros _ a' Ha'. eapply (ends_bind (fun _ => all_named)); [| done]. unfold spec_pending_origin. destruct (pb_kind _); try done.
    by apply (named_same a').
Qed.

Lemma keeps_write_part over id key no data cs expected a : all_named a -> keeps (spec_write_part over id key no data cs expected a).
Proof.
  intros Ha. unfold spec_write_part. apply ends_require. intros _. apply keeps_find_upload; [done |]. intros u.
  apply ends_require. intros _. apply ends_result. intros c _. by apply named_put_part.
Qed.

(** The digests of a plan. *)
Lemma plan_digests algorithm id listed a pl :
  all_named a -> planMultipart algorithm listed (spec_stored <$> sorted_parts id (s_parts a)) = Ok pl ->
  pl_md5All pl = concat (md5 <$> pl_fileIDs pl) /\ pl_shaAll pl = concat (sha256 <$> pl_fileIDs pl) /\ length (pl_fileIDs pl) = length listed.
Proof.
  intros Ha (taken & skipped & Hsp & ->)%plan_loop_splits. unfold plan_of. cbn [pl_md5All pl_shaAll pl_fileIDs].
  destruct (fold_take_lists algorithm taken (@empty_plan bytes)) as (-> & -> & ->). cbn [empty_plan pl_md5All pl_shaAll pl_fileIDs app].
  rewrite length_fmap, (splits_length _ _ _ _ _ Hsp).
  assert (Forall (fun p => sd_md5 p = md5 (sd_fileID p) /\ sd_sha p = sha256 (sd_fileID p)) taken) as Ht.
  { apply Forall_forall. intros p Hp. assert (p ∈ spec_stored <$> sorted_parts id (s_parts a)) as Hin.
    { rewrite (splits_perm _ _ _ _ _ Hsp). apply elem_of_app. by left. }
    apply list_elem_of_fmap in Hin as ([no q] & -> & Hq). apply elem_of_sorted_parts in Hq. by apply (an_parts _ Ha) in Hq. }
  rewrite <- !list_fmap_compose. clear -Ht. split; [| split; [| done]]; f_equal; apply Forall_fmap_ext; eapply Forall_impl; [exact Ht | by intros p [] | exact Ht | by intros p []].
Qed.

Lemma keeps_complete k s over now ref id listed opts pending a :
  all_named a -> keeps (spec_complete k s over now ref id listed opts pending a).
Proof.
  intros Ha. unfold spec_complete. apply ends_result. intros o _. apply keeps_find_upload; [done |]. intros u.
  apply ends_result. intros [] Hval. apply ends_tables. apply ends_result. intros pl Hpl. apply ends_require. intros _.
  destruct (plan_digests _ _ _ _ _ Ha Hpl) as (Hm & Hsha & Hlen). destruct (validate_bound _ Hval) as [Hne _].
  eapply (ends_bind (fun _ => all_named)); [| done]. unfold spec_apply. set (o' := if bool_decide _ then _ else _).
  eapply (ends_bind (fun _ => all_named)).
  - unfold spec_swap. apply ends_require. intros _. apply ends_tables. apply ends_require. intros _. apply named_put_end; [done |].
    split; [cbn; by rewrite Hm |]. split; [cbn; by rewrite Hsha |]. split; [| done]. intros E. rewrite E in Hlen. by destruct listed.
  - intros _ a' Ha'. eapply (ends_bind (fun _ => all_named)).
    + destruct (bool_decide _); [| done]. apply ends_update. apply (named_same (spec_set_origin (or_key ref) (pe_token pending) a')); try done.
      by apply named_alter.
    + intros _ a'' Ha''. by apply named_delete_upload.
Qed.

Lemma keeps_copy k over now src dstKey opts a :
  all_named a -> named (en_attrs src) (en_layout src) (en_body src) -> keeps (spec_put_copy k over now src dstKey opts a).
Proof.
  intros Ha Hs. unfold spec_put_copy. apply ends_require. intros _. apply ends_tables. apply ends_require. intros _. by apply named_put_end.
Qed.

Lemma keeps_copy_from k over now sa srcKey dstKey opts a :
  all_named sa -> all_named a -> keeps (spec_copy_from k over now sa srcKey dstKey opts a).
Proof.
  intros Hsa Ha. unfold spec_copy_from. apply ends_result. intros e He. apply keeps_copy; [done |].
  unfold spec_source in He. destruct (s_objects sa !! srcKey) as [e'|] eqn:E; [| done]. destruct (negb _); [done |].
  destruct (ReadCondition_Allows _ _ _); [| done]. injection He as <-. by apply (an_objects _ Hsa srcKey).
Qed.

Lemma keeps_copy_part now id dstKey srcKey no a : all_named a -> keeps (spec_copy_part now id dstKey srcKey no a).
Proof.
  intros Ha. unfold spec_copy_part. apply ends_tables. destruct (s_objects a !! srcKey) as [e|] eqn:He; [| done].
  destruct (an_objects _ Ha _ _ He) as (Htag & Hsha & _). cbn zeta. destruct (negb _); [done |].
  destruct (en_layout e); [done | | done]. cbn in Htag, Hsha. rewrite Htag, etagMD5_hex by apply md5_length.
  destruct (_ <=? _); [done |]. apply keeps_find_upload; [done |]. intros u.
  destruct (up_checksum_algorithm u) as [alg|]; [destruct (bool_decide _); [| done] |]; by apply named_put_part.
Qed.

Lemma keeps_expire_loop n now grace locked removed a : all_named a -> all_named (spec_expire_loop now n grace locked removed a).2.
Proof.
  revert removed a. induction n as [|n IH]; intros removed a Ha; cbn [spec_expire_loop]; [done |].
  destruct (victim_upload _ _ _ _); [| done]. by apply IH, named_delete_upload.
Qed.

(** *** Cache operations *)

Lemma batch_put_elem {B} key (v : B) l x : x ∈ batch_put key v l -> x = (key, v) \/ x ∈ l.
Proof. induction l as [|[key' v'] l IH]; cbn; [set_solver |]. destruct (bool_decide _); set_solver. Qed.

Lemma keeps_put_batch k now batch a : all_named a -> keeps (spec_put_batch k now batch a).
Proof.
  revert a. induction batch as [|[key v] batch IH]; intros a Ha; cbn [spec_put_batch]; [done |]. apply ends_require. intros _.
  apply named_put; [done | done |]. auto.
Qed.

Lemma keeps_delete_where {A} key p (x y : A) a :
  all_named a -> keeps ((match attrs_where key p a with Some _ => update (spec_delete [key]);; mret x | None => mret y end) a).
Proof. intros Ha. destruct (attrs_where _ _ _); [| done]. by apply (named_delete [key]). Qed.

Lemma keeps_leases {A} (f : leases -> A * leases) a :
  all_named a -> keeps ((a ← tables; let '(b, m) := f (s_leases a) in update (fun a => sset_leases a m);; mret b) a).
Proof. intros Ha. apply ends_tables. destruct (f _). by apply (named_same a). Qed.

Lemma keeps_pendings {A} (f : pendings -> A * pendings) a :
  all_named a -> keeps ((a ← tables; let '(b, m) := f (s_pending a) in update (fun a => sset_pending a m);; mret b) a).
Proof. intros Ha. apply ends_tables. destruct (f _). by apply (named_same a). Qed.

Lemma named_touch now retention keys a :
  all_named a -> all_named (fold_left (fun a key => spec_alter (touch_attrs now retention) key a) keys a).
Proof.
  revert a. induction keys as [|key keys IH]; intros a Ha; cbn [fold_left]; [done |]. apply IH. apply named_alter; [done |].
  intros t. unfold touch_attrs. by destruct (at_expires_at t).
Qed.

Lemma named_truncate a : all_named (spec_truncate a).
Proof. by split; cbn; intros ? ?; rewrite lookup_empty. Qed.

Lemma keeps_cache c b o a : all_named a -> keeps (cache_spec c b o a).
Proof.
  intros Ha. destruct o; apply keeps_reply.
  - unfold spec_get_del. apply ends_tables. destruct (attrs_where _ _ _) as [e|]; [| done].
    eapply (ends_bind (fun _ a' => a' = a)); [destruct (not_expired _ _); [by apply ends_require | done] |].
    intros v a' ->. by apply (named_delete [key]).
  - by apply keeps_delete_where.
  - unfold spec_expire. apply ends_tables. destruct (attrs_where _ _ _); [| done]. by apply (named_alter (fun t => with_expires t expiresAt)).
  - by apply named_touch.
  - unfold spec_mset. destruct kvs; [done |]. apply ends_require. intros _. by apply keeps_put_batch.
  - unfold spec_flush. apply ends_tables. apply ends_require. intros _. apply named_truncate.
  - by apply (keeps_leases (acquire_lease (cx_now c) key owner ttl)).
  - by apply (keeps_leases (fun m => (tt, release_lease key owner m))).
  - by apply (keeps_leases (renew_lease (cx_now c) lease ttl)).
  - by apply (keeps_leases (fun m => (zlen (map_to_list m) - zlen (map_to_list (live_leases (cx_now c) m)), live_leases (cx_now c) m))).
  - by apply (keeps_pendings (claim_uploads (cx_now c) owner limit lease locked)).
  - unfold spec_committed. apply ends_tables. eapply (ends_bind (fun _ => all_named)); [destruct (bool_decide _); [by apply (named_alter (committed_attrs _ _ _ _)) | done] |].
    intros _ a' Ha'. by apply (named_same a').
  - unfold spec_abandon. apply ends_tables. eapply (ends_bind (fun _ => all_named)); [destruct (attrs_where _ _ _); [by apply (named_delete [key]) | done] |].
    intros _ a' Ha'. by apply (named_same a').
  - unfold spec_fail. apply ends_tables. destruct (fail_pending _ _ _ _ _ _ _ _); [| done]. by apply (named_same a).
  - by apply (named_same a).
  - by apply (named_same a).
  - by apply (named_same a).
  - by apply (named_same a).
  - by apply (named_same a).
  - by apply (named_same a).
  - unfold spec_retire. destruct observed; [| done]. apply ends_require. intros _. apply ends_tables. by apply keeps_delete_where.
  - by apply (named_alter (touched_object (cx_now c) retention)).
Qed.

Lemma keeps_op c b specs o :
  (forall r, all_named (specs r)) -> keeps (spec_tx c b specs o (specs (cx_ns c))).
Proof.
  intros Hall. pose proof (Hall (cx_ns c)) as Ha. destruct o; cbn [spec_tx]; try (apply keeps_reply).
  - by apply keeps_put_inline.
  - by apply keeps_write.
  - unfold spec_create. apply ends_tables. do 2 (apply ends_require; intros _). by apply (named_same (specs (cx_ns c))).
  - by apply keeps_write_part.
  - by apply keeps_complete.
  - unfold spec_complete_pending. apply ends_require. intros _. by apply keeps_complete.
  - unfold spec_abort. apply ends_tables. destruct (s_uploads _ !! id) as [u|]; [| done]. destruct (bool_decide _); [| done]. by apply named_delete_upload.
  - unfold spec_delete_many. destruct keys; [done |]. by apply (named_delete (_ :: _)).
  - by apply named_delete.
  - apply ends_require. intros _. apply keeps_reply. by apply keeps_copy_from.
  - by apply keeps_copy_part.
  - unfold spec_expire_objects. apply ends_tables. apply ends_update. apply named_delete. by apply (named_same (specs (cx_ns c))).
  - unfold spec_expire_uploads. pose proof (keeps_expire_loop (Z.to_nat p_max) (cx_now c) grace locked 0 _ Ha) as H.
    destruct (spec_expire_loop _ _ _ _ _ _). exact H.
  - done.
  - done.
  - by apply keeps_cache.
Qed.

Lemma keeps_sibling o x a : all_named a -> keeps (sibling_spec o x a).
Proof.
  intros Ha. destruct o as [| | | | | | | | | | | | | | |[]]; try done.
  destruct x as [| | |[]| | | | |]; try done. cbn. apply named_delete. by apply (named_same a).
Qed.

Definition world_named (z : world) : Prop := forall r, all_named (spec_of z r).

Lemma world_put z ns a : world_named z -> all_named a -> world_named (put_spec z ns a).
Proof.
  intros Hz Ha r. rewrite spec_of_put. destruct (decide (ns = r)); [done |]. destruct (decide _); [| apply Hz].
  by apply (named_same (spec_of z r)).
Qed.

Lemma commit_keeps {A} (c : stx A) a : all_named a -> keeps (c a) -> all_named (commit c a).2.
Proof. intros Ha Hc. unfold commit. by destruct (c a) as [[]|]. Qed.

Lemma spec_exec_named c b o z : world_named z -> world_named (spec_exec c b o z).2.
Proof.
  intros Hz. unfold spec_exec. pose proof (commit_keeps _ _ (Hz (cx_ns c)) (keeps_op c b (spec_of z) o Hz)) as H1.
  destruct (commit _ _) as [r a]. cbn in H1. pose proof (world_put z (cx_ns c) a Hz H1) as Hz1. destruct r as [x|e]; [| done]. cbn [snd].
  apply world_put; [done |]. apply commit_keeps; [apply Hz1 |]. apply keeps_sibling, Hz1.
Qed.

Lemma spec_run_named ops z rs z' : spec_run ops z rs z' -> world_named z -> world_named z'.
Proof.
  induction 1 as [| b c o ops z r z1 rs z2 E Hrun IH |]; auto. intros Hz. apply IH. pose proof (spec_exec_named c b o z Hz) as H. by rewrite E in H.
Qed.

Lemma empty_named : world_named empty_world.
Proof. intros r. unfold spec_of. cbn. rewrite !lookup_empty. by split; cbn; intros ? ?; rewrite lookup_empty. Qed.

(** ** Equal tags *)

(** Two strings hashed for the two tags that collide. *)
Definition collide (l1 : layout) (b1 : bytes) (l2 : layout) (b2 : bytes) : Prop :=
  exists x y, x ∈ hashed l1 b1 /\ y ∈ hashed l2 b2 /\ x <> y /\ md5 x = md5 y.

Lemma collide_or x y (l1 : layout) b1 (l2 : layout) b2 :
  x ∈ hashed l1 b1 -> y ∈ hashed l2 b2 -> md5 x = md5 y -> x = y \/ collide l1 b1 l2 b2.
Proof. intros Hx Hy E. destruct (decide (x = y)); [by left |]. right. by exists x, y. Qed.

Lemma concat_digests (p1 p2 : list bytes) :
  concat (md5 <$> p1) = concat (md5 <$> p2) -> md5 <$> p1 = md5 <$> p2.
Proof.
  revert p2. induction p1 as [|x p1 IH]; intros [|y p2]; cbn; [done | | |]; intros E.
  - apply (f_equal zlen) in E. rewrite zlen_app, md5_length in E. pose proof (zlen_nonneg (concat (md5 <$> p2))). unfold zlen in E at 1. cbn in E. lia.
  - apply (f_equal zlen) in E. rewrite zlen_app, md5_length in E. pose proof (zlen_nonneg (concat (md5 <$> p1))). unfold zlen in E at 2. cbn in E. lia.
  - apply app_inj_1 in E as [-> E]; [by rewrite (IH p2 E) |].
    pose proof (md5_length x). pose proof (md5_length y). unfold zlen in *. lia.
Qed.

Lemma parts_or (p1 p2 : list bytes) : md5 <$> p1 = md5 <$> p2 -> p1 = p2 \/ exists x y, x ∈ p1 /\ y ∈ p2 /\ x <> y /\ md5 x = md5 y.
Proof.
  revert p2. induction p1 as [|x p1 IH]; intros [|y p2]; cbn; try done; [by left |]. intros [= E1 E2].
  destruct (decide (x = y)) as [->|Hne]; [| right; exists x, y; set_solver].
  destruct (IH p2 E2) as [->|(u & v & Hu & Hv & ?)]; [by left | right; exists u, v; set_solver].
Qed.

Lemma tag_dash m n m' : s3ETag m n = hexEncode m' -> n <= 0.
Proof.
  unfold s3ETag. destruct (Z.ltb_spec 0 n); [| lia]. intros E. pose proof (Cut_none _ _ (hexEncode_plain m')) as Hc.
  rewrite <- E, Cut_app in Hc by apply hexEncode_plain. done.
Qed.

(** Equal tags are tags of equal contents, or a collision is at hand. *)
Lemma same_tag l1 b1 l2 b2 :
  assembled l1 b1 -> assembled l2 b2 -> tag_of l1 b1 = tag_of l2 b2 -> b1 = b2 \/ collide l1 b1 l2 b2.
Proof.
  assert (forall p : list bytes, p <> [] -> 0 < zlen p) as Hpos by (intros p Hp; by apply zlen_pos).
  intros H1 H2. destruct l1 as [| |p1], l2 as [| |p2]; cbn [tag_of assembled] in *;
    try (intros E%hexEncode_inj; apply collide_or; [cbn; set_solver.. | done]);
    lazymatch goal with
    | |- s3ETag _ _ = hexEncode _ -> _ => destruct H1 as [Hp _]; intros E%tag_dash; specialize (Hpos _ Hp); lia
    | |- hexEncode _ = s3ETag _ _ -> _ => destruct H2 as [Hp _]; intros E; symmetry in E; apply tag_dash in E; specialize (Hpos _ Hp); lia
    | |- _ => idtac
    end.
  destruct H1 as [Hn1 ->], H2 as [Hn2 ->]. unfold s3ETag. rewrite !(proj2 (Z.ltb_lt _ _)) by auto. intros E.
  pose proof (Cut_app "-"%char (hexEncode (md5 (concat (md5 <$> p1)))) (FormatInt (zlen p1)) (hexEncode_plain _)) as C1.
  rewrite E, Cut_app in C1 by apply hexEncode_plain. injection C1 as C1 _. apply hexEncode_inj in C1.
  destruct (collide_or (concat (md5 <$> p1)) (concat (md5 <$> p2)) (Manifest p1) (concat p1) (Manifest p2) (concat p2)) as [E1|]; [cbn; set_solver.. | done | | by right].
  destruct (parts_or _ _ (concat_digests _ _ E1)) as [->|(x & y & Hx & Hy & ?)]; [by left |]. right. exists x, y. cbn. set_solver.
Qed.

End Names.

(** ** Any two reads *)

Section Reads.
Context `{ZL : ZstdLaws} `{DL : DigestLaws}.

(** What the metadata says about how the content is kept. *)
Definition kept_as (l : layout) (m : Meta) : Prop :=
  m_PartEnds m = match l with Manifest parts => Some (ends_from 0 parts) | _ => None end.

(** A read in a namespace of the state a run leaves. *)
Definition read_after (ops : list (context * Operation)) (r : Ref) (now : Z) (key : string) (m : Meta) (l : layout) (body : bytes) : Prop :=
  let d := db_of (exec_run ops new_system).2 r in
  (exists oid, queryMetadata now key metadataDecoded oid d = Some (Ok m)) /\ reads_as (db_chunks d) m body /\ kept_as l m /\ m_Size m = zlen body.

Lemma object_layout k given rows key o e oid m :
  object_rep k given rows key o e -> scanMetadata metadataDecoded oid o = Ok m -> kept_as (en_layout e) m.
Proof.
  intros [Hat Hsize _ Hst]. unfold scanMetadata, kept_as. destruct (en_layout e) as [| |parts]; cbn in Hst.
  - rewrite Hst. cbn [ob_inline_data ob_attrs ob_file_id ob_parts ob_part_ends]. rewrite Hsize, decompress_compress. by intros [= <-].
  - destruct Hst as (f & -> & _). by intros [= <-].
  - destruct Hst as (f & ps & -> & _). by intros [= <-].
Qed.

Lemma read_named ops r now key oid m :
  let d := db_of (exec_run ops new_system).2 r in
  queryMetadata now key metadataDecoded oid d = Some (Ok m) -> m_Size m <= max_value ->
  exists l body, read_after ops r now key m l body /\
    oi_ETag (m_Info m) = tag_of l body /\ m_SHA256 m = sha_of l body /\ assembled l body.
Proof.
  intros d Hq Hle. destruct (run_sim ops) as (z & given & Hrun & Hs). specialize (Hs r). fold d in Hs.
  pose proof (spec_run_named _ _ _ _ Hrun empty_named r) as Hn. pose proof Hq as Hq'. unfold queryMetadata in Hq.
  pose proof (sim_objects _ _ _ _ _ Hs key) as Hk. destruct (db_objects d !! key) as [o|] eqn:Ho; [| done].
  destruct (s_objects (spec_of z r) !! key) as [e|] eqn:He; inversion Hk as [? ? Hoe|]; subst. destruct (not_expired _ _); [| done].
  apply (inj Some) in Hq. destruct (an_objects _ Hn _ _ He) as (Htag & Hsha & Hasm).
  assert (m_Size m = zlen (en_body e)) as Hsize.
  { revert Hq. destruct Hoe as [_ Hsz _ Hst]. rewrite <- Hsz. unfold scanMetadata. destruct (ob_inline_data o); cbn [rbind].
    - destruct (decompressBlock _ _); [| done]. by intros [= <-].
    - by intros [= <-]. }
  destruct (object_reads _ _ _ _ _ _ oid Hoe) as (m' & Em & Hinfo & Hsh & _ & Hr); [unfold max_value in Hle; lia |].
  assert (m' = m) as -> by congruence. exists (en_layout e), (en_body e). split; [| by rewrite Hinfo, Hsh].
  split; [by exists oid |]. split; [done |]. split; [by eapply object_layout | done].
Qed.

(** C20: entity tags name contents.  After any run, what a reader gets for a key
    carries the digests of what is read: the tag is the MD5 of the content, or
    for an object assembled from parts the MD5 of the digests of the parts and
    their number; the SHA-256 likewise.  Two reads in any two histories that
    show the same tag show the same content, unless two of the strings hashed
    for them collide. *)
Theorem etag_names_content ops1 r1 now1 key1 oid1 m1 ops2 r2 now2 key2 oid2 m2 :
  queryMetadata now1 key1 metadataDecoded oid1 (db_of (exec_run ops1 new_system).2 r1) = Some (Ok m1) -> m_Size m1 <= max_value ->
  queryMetadata now2 key2 metadataDecoded oid2 (db_of (exec_run ops2 new_system).2 r2) = Some (Ok m2) -> m_Size m2 <= max_value ->
  exists l1 b1 l2 b2, read_after ops1 r1 now1 key1 m1 l1 b1 /\ read_after ops2 r2 now2 key2 m2 l2 b2 /\
    oi_ETag (m_Info m1) = tag_of l1 b1 /\ m_SHA256 m1 = sha_of l1 b1 /\ oi_ETag (m_Info m2) = tag_of l2 b2 /\ m_SHA256 m2 = sha_of l2 b2 /\
    (oi_ETag (m_Info m1) = oi_ETag (m_Info m2) -> b1 = b2 \/ collide l1 b1 l2 b2).
Proof.
  intros Hq1 Hle1 Hq2 Hle2. destruct (read_named ops1 r1 now1 key1 oid1 m1 Hq1 Hle1) as (l1 & b1 & Hr1 & Ht1 & Hs1 & Ha1).
  destruct (read_named ops2 r2 now2 key2 oid2 m2 Hq2 Hle2) as (l2 & b2 & Hr2 & Ht2 & Hs2 & Ha2).
  exists l1, b1, l2, b2. do 6 (split; [done |]). rewrite Ht1, Ht2. by apply same_tag.
Qed.


End Reads.

(** ** A run *)

Section Sample.
#[local] Existing Instance toy_digests.

#[local] Instance toy_digest_laws : DigestLaws toy_digests.
Proof. by split. Qed.

(** The state of the sample run before its deletions. *)
Definition early_run : list (context * Operation) := take 7 sample_run.

Definition early_db : db := db_of (exec_run early_run new_system).2 (BucketRef "photos").

Definition meta_of (key : string) : option (result block_error Meta) := queryMetadata 10 key metadataDecoded 0 early_db.

Definition is_read (r : option (result block_error Meta)) : bool := match r with Some (Ok m) => m_Size m <=? max_value | _ => false end.

Lemma read_exists key : is_read (meta_of key) = true -> exists m, meta_of key = Some (Ok m) /\ m_Size m <= max_value.
Proof. unfold is_read. destruct (meta_of key) as [[m|]|]; try done. intros H%Z.leb_le. eauto. Qed.

Lemma etag_names_content_witness : exists m1 m2 l1 b1 l2 b2,
  read_after early_run (BucketRef "photos") 10 "a" m1 l1 b1 /\ read_after early_run (BucketRef "photos") 10 "d" m2 l2 b2 /\
  oi_ETag (m_Info m1) = tag_of l1 b1 /\ m_SHA256 m1 = sha_of l1 b1 /\ oi_ETag (m_Info m2) = tag_of l2 b2 /\ m_SHA256 m2 = sha_of l2 b2 /\
  (oi_ETag (m_Info m1) = oi_ETag (m_Info m2) -> b1 = b2 \/ collide l1 b1 l2 b2).
Proof.
  destruct (read_exists "a") as (m1 & H1 & L1); [vm_compute; reflexivity |]. destruct (read_exists "d") as (m2 & H2 & L2); [vm_compute; reflexivity |].
  exists m1, m2. exact (etag_names_content early_run (BucketRef "photos") 10 "a" 0 m1 early_run (BucketRef "photos") 10 "d" 0 m2 H1 L1 H2 L2).
Defined.


End Sample.
