(* ===== verification/CacheValues.v ===== *)
(** * Cache values

    The value operations of [internal/store/cache.go] as clients of the store:
    reads, writes, and the compare-and-swap loop [mutate] behind [GetSet],
    [Append], [SetRange] and [IncrBy].  A loop runs against any other
    operations: each attempt says what happens before its read and between its
    read and its write. *)

From stdpp Require Import gmap sorting.
From Stdlib Require Import SpecFloat.
From S2P Require Import Prelude GoStrings Ns Ranges Precond Blocks Backoff Pieces Reader Ids Tables Objects CacheTables ObjectSpec CacheSpec Machine ObjectRep ObjectRefine ObjectRead CacheRefine ObjectComplete ObjectStore Names.

Inductive cache_error := StoreError (e : store_error) | ErrNotInteger | ErrCacheContention | OffsetOutOfRange.

(** ** Reads *)

Section Reads.
Context `{Zstd} (now : Z) (d : db).

Definition live_row (key : string) : option object := row_where key (fun o => shows now (ob_attrs o)) d.

Definition read_meta (workers : Z) (m : Meta) : result cache_error bytes :=
  if m_Size m <=? max_value then
    match readAll (db_chunks d) workers m with Some b => Ok b | None => Err (StoreError Unreadable) end
  else Err (StoreError Unreadable).

(** [Get]; both its statements see the same tables. *)
Definition Get (workers : Z) (key : string) : result cache_error (option bytes) :=
  match live_row key with
  | None => Ok None
  | Some o =>
      match ob_inline_data o with
      | Some inline =>
          match decompressBlock inline (at_size (ob_attrs o)) with
          | Ok raw => Ok (Some raw)
          | Err _ => Err (StoreError Unreadable)
          end
      | None =>
          match queryMetadata now key metadataDecoded 0 d with
          | None => Ok None
          | Some (Err _) => Err (StoreError Unreadable)
          | Some (Ok m) => let* b := read_meta workers m in Ok (Some b)
          end
      end
  end.

(** The first error ends [MGet]. *)
Fixpoint MGet (workers : Z) (keys : list string) : result cache_error (list (option bytes)) :=
  match keys with
  | [] => Ok []
  | key :: rest => let* v := Get workers key in let* vs := MGet workers rest in Ok (v :: vs)
  end.

Definition Exists (keys : list string) : Z := zlen (List.filter (fun key => bool_decide (is_Some (live_row key))) keys).

Definition DBSize : Z := zlen (map_to_list (filter (fun kv : string * object => shows now (ob_attrs kv.2) = true) (db_objects d))).

(** [TTL]: seconds as a double, as the server computes them from
    microseconds, times the nanoseconds of a second, truncated. *)
Definition truncate_float (x : float64) : Z :=
  match x with
  | S754_finite s m e => let z := if 0 <=? e then Z.pos m * 2 ^ e else Z.pos m / 2 ^ (- e) in if s then - z else z
  | _ => 0
  end.

Definition ttl_duration (micros : Z) : Z :=
  truncate_float (fmul (SFdiv prec emax (of_int micros) (of_int 1000000)) (of_int 1000000000)).

(** The duration, whether there is one, and whether there is a key. *)
Definition TTL (key : string) : Z * bool * bool :=
  match live_row key with
  | None => (0, false, false)
  | Some o =>
      match at_expires_at (ob_attrs o) with
      | None => (0, false, true)
      | Some t => let v := ttl_duration (t - now) in if v <? 0 then (0, false, false) else (v, true, true)
      end
  end.

(** The value and its metadata, for an update. *)
Definition cacheValueWithMeta (workers : Z) (inlineOnly : bool) (key : string) : result cache_error (option bytes * option Meta) :=
  match queryMetadata now key metadataDecoded 0 d with
  | None => Ok (None, None)
  | Some (Err _) => Err (StoreError Unreadable)
  | Some (Ok m) =>
      if negb (Live m now) then Ok (None, None)
      else match m_Inline m with
           | Some b => Ok (Some b, Some m)
           | None => if inlineOnly then Err ErrNotInteger else let* b := read_meta workers m in Ok (Some b, Some m)
           end
  end.

End Reads.

(** ** Writes *)

(** The loop that cuts a value for the writer. *)
Fixpoint cut_chunks (fuel : nat) (n : nat) (rest : bytes) : list bytes :=
  match fuel with
  | O => []
  | S fuel' => match rest with [] => [] | _ => take n rest :: cut_chunks fuel' n (drop n rest) end
  end.

Definition value_chunk : nat := Z.to_nat 4194304.

Definition cacheContentType : string := "application/octet-stream".
Definition cacheCounterContentType : string := "text/plain; charset=utf-8".

(** The options the value operations use. *)
Definition cache_options (pre : Precondition) (ct : string) (expiresAt : option Z) (keepTTL : bool) (size : Z) : WriteOptions :=
  mkWriteOptions pre None (if bool_decide (ct = "") then cacheContentType else ct) "" None None "" expiresAt keepTTL
    (NormalPublication "") None size.

(** The operation [writeCacheValue] performs. *)
Definition value_op (proc : nat) (block : list Z) (key : string) (val : bytes) (pre : Precondition) (ct : string)
    (expiresAt : option Z) (keepTTL : bool) : Operation :=
  if zlen val <=? InlineMax Cache then PutOp key val (cache_options pre ct expiresAt keepTTL 0)
  else WriteOp proc block key (cut_chunks (S (length val)) value_chunk val) [] (cache_options pre ct expiresAt keepTTL (zlen val)).

Definition write_result (r : result store_error reply) : result cache_error bool :=
  match r with
  | Ok _ => Ok true
  | Err ErrPreconditionFailed => Ok false
  | Err e => Err (StoreError e)
  end.

(** ** The update loop *)

Record cacheMutation := mkMutation {
  mu_Precondition : Precondition;
  mu_ContentType : string;
  mu_ExpiresAt : option Z;
  mu_KeepTTL : bool;
  mu_inlineOnly : bool;
  mu_retries : nat;
  mu_apply : option bytes -> result cache_error bytes
}.

Record cacheMutationResult := mkMutated {
  mr_previous : option bytes;
  mr_existed : bool;
  mr_wrote : bool;
  mr_size : Z
}.

(** One attempt: the operations before its read, when it reads and with how
    many workers, the operations between its read and its write, and the
    circumstances of its write. *)
Record attempt := mkAttempt {
  tr_before : list (context * Operation);
  tr_read : Z;
  tr_workers : Z;
  tr_between : list (context * Operation);
  tr_write : Z;
  tr_over_quota : Z -> bool;
  tr_store : Z;
  tr_proc : nat;
  tr_block : list Z
}.

Section Mutate.
Context `{Zstd, Digests} (name key : string) (change : cacheMutation).

Definition write_context (t : attempt) : context := mkContext (tr_write t) (tr_over_quota t) (tr_store t) (CacheRef name).

Definition mutation_op (t : attempt) (next : bytes) (pre : Precondition) : Operation :=
  value_op (tr_proc t) (tr_block t) key next pre (mu_ContentType change) (mu_ExpiresAt change) (mu_KeepTTL change).

(** [mutate] with [left] attempts, or any number; [None] when the schedule
    ends first. *)
Fixpoint mutate_loop (left : option nat) (sched : list attempt) (y : system) : option (result cache_error cacheMutationResult) * system :=
  if bool_decide (left = Some O) then (Some (Err ErrCacheContention), y)
  else
    match sched with
    | [] => (None, y)
    | t :: rest =>
        let y := (exec_run (tr_before t) y).2 in
        match cacheValueWithMeta (tr_read t) (db_of y (CacheRef name)) (tr_workers t) (mu_inlineOnly change) key with
        | Err e => (Some (Err e), y)
        | Ok (value, m) =>
            let pre := match m with
                       | Some m => mkPrecondition IfMatch (oi_ETag (m_Info m))
                       | None => mkPrecondition IfAbsent ""
                       end in
            let existed := bool_decide (is_Some m) in
            if negb (Precondition_Allows (mu_Precondition change) existed (pc_ETag pre))
            then (Some (Ok (mkMutated value existed false 0)), y)
            else match mu_apply change value with
                 | Err e => (Some (Err e), y)
                 | Ok next =>
                     let y := (exec_run (tr_between t) y).2 in
                     let '(r, y) := exec (write_context t) (mutation_op t next pre) y in
                     match write_result r with
                     | Err e => (Some (Err e), y)
                     | Ok true => (Some (Ok (mkMutated value existed true (zlen next))), y)
                     | Ok false => mutate_loop (pred <$> left) rest y
                     end
                 end
        end
    end.

Definition mutate (sched : list attempt) (y : system) : option (result cache_error cacheMutationResult) * system :=
  mutate_loop (match mu_retries change with O => None | n => Some n end) sched y.

End Mutate.

(** ** The mutations *)

Definition cacheMutationRetries : nat := 32.

Definition unconditional : Precondition := mkPrecondition Unconditional "".

Definition set_mutation (val : bytes) (pre : Precondition) (expiresAt : option Z) (keepTTL : bool) : cacheMutation :=
  mkMutation pre "" expiresAt keepTTL false cacheMutationRetries (fun _ => Ok val).

Definition append_mutation (suffix : bytes) : cacheMutation :=
  mkMutation unconditional "" None true false cacheMutationRetries (fun v => Ok (default [] v ++ suffix)).

(** [copy] into the value, padded with zeros up to the end of what is copied. *)
Definition set_range (off : Z) (val current : bytes) : bytes :=
  let need := off + zlen val in
  let current := if zlen current <? need then current ++ replicate (Z.to_nat (need - zlen current)) zero else current in
  take (Z.to_nat off) current ++ val ++ drop (Z.to_nat need) current.

Definition SetRange_mutation (off : Z) (val : bytes) : result cache_error cacheMutation :=
  if (off <? 0) || (max_int64 - zlen val <? off) then Err OffsetOutOfRange
  else Ok (mkMutation unconditional "" None true false cacheMutationRetries (fun v => Ok (set_range off val (default [] v)))).

Definition cacheAdd (current : bytes) (delta : Z) : result cache_error Z :=
  match ParseInt (TrimSpace (String.string_of_list_ascii current)) with
  | None => Err ErrNotInteger
  | Some cur =>
      if ((0 <? delta) && (max_int64 - delta <? cur)) || ((delta <? 0) && (cur <? min_int64 - delta)) then Err ErrNotInteger
      else Ok (cur + delta)
  end.

Definition format_bytes (n : Z) : bytes := String.list_ascii_of_string (FormatInt n).

Definition incr_value (delta : Z) (current : option bytes) : result cache_error Z :=
  match current with Some v => cacheAdd v delta | None => Ok delta end.

Definition incr_mutation (delta : Z) : cacheMutation :=
  mkMutation unconditional cacheCounterContentType None true true 0
    (fun v => let* n := incr_value delta v in Ok (format_bytes n)).

(** ** What the loop does *)

Definition live_entity (now : Z) (key : string) (a : spec) : option entity :=
  e ← s_objects a !! key; if not_expired now (at_expires_at (en_attrs e)) then Some e else None.

(** The update of one key, by which a successful loop differs from doing
    nothing. *)
Record replaced (r : Ref) (key : string) (e : entity) (z z' : world) : Prop := {
  rp_objects : s_objects (spec_of z' r) = <[key := e]> (s_objects (spec_of z r));
  rp_uploads : s_uploads (spec_of z' r) = s_uploads (spec_of z r);
  rp_parts : s_parts (spec_of z' r) = s_parts (spec_of z r);
  rp_pending : s_pending (spec_of z' r) = s_pending (spec_of z r);
  rp_others : forall r', r' <> r -> spec_of z' r' = spec_of z r'
}.

Section Atomic.
Context `{ZL : ZstdLaws} `{DL : DigestLaws} (name key : string) (change : cacheMutation).

Let R : Ref := CacheRef name.

(** [same_content old e]: what was read is still there, or two strings hashed
    for the tags collide. *)
Definition same_content (old now_there : option entity) : Prop :=
  match old, now_there with
  | None, None => True
  | Some e, Some e' => en_body e = en_body e' \/ collide (en_layout e) (en_body e) (en_layout e') (en_body e')
  | _, _ => False
  end.

Lemma spec_publish_ok k now p body l a a' :
  spec_publish k now p body l a = Ok (ok, a') ->
  publish_check now p (old_attrs (p_key p) a) = ok /\
  let e := mkEntity (upsert_attrs now (p_keep_ttl p) (old_attrs (p_key p) a) (new_attrs now p)) body l in
  a' = sset_origin (sset_objects a (<[p_key p := e]> (s_objects a))) (delete (p_key p) (s_origin_metadata a)).
Proof.
  unfold spec_publish, tables, mbind, txn_bind. destruct (match sm_fill _ with Some _ => _ | None => _ end); [done |].
  destruct (publish_check _ _ _); try done. destruct (upsert_applies _ _); [| done].
  unfold put_entity, require, update, mbind, txn_bind, mret, txn_ret, throw. destruct (attr_shape _ _ _); [| done]. by intros [= <-].
Qed.

Lemma cut_concat fuel n b : (0 < n)%nat -> (length b < fuel)%nat -> concat (cut_chunks fuel n b) = b.
Proof.
  intros Hn. revert b. induction fuel as [|fuel IH]; intros b Hf; [lia |]. cbn [cut_chunks]. destruct b as [|x b]; [done |].
  cbn [concat]. rewrite IH; [apply take_drop |]. rewrite length_drop. cbn [length] in *. lia.
Qed.

(** What a publication of a value needs and does. *)
Definition value_published (now : Z) (pre : Precondition) (expires : option Z) (keep : bool) (val : bytes) (a a' : spec) : Prop :=
  match pc_Mode pre with
  | IfAbsent => live_entity now key a = None
  | IfMatch => exists e, live_entity now key a = Some e /\ at_etag (en_attrs e) = pc_ETag pre
  | IfPresent => is_Some (live_entity now key a)
  | Unconditional => True
  end /\
  exists e, en_body e = val /\
    at_expires_at (en_attrs e) =
      match old_attrs key a with
      | Some t => if keep && not_expired now (at_expires_at t) then at_expires_at t else expires
      | None => expires
      end /\
    a' = sset_origin (sset_objects a (<[key := e]> (s_objects a))) (delete key (s_origin_metadata a)) /\ not_deleted (en_attrs e) = true.

Lemma check_live now p pre a :
  (p_cond p, p_if_match p) = Precondition_SQL pre -> p_key p = key -> publish_check now p (old_attrs key a) = ok ->
  match pc_Mode pre with
  | IfAbsent => live_entity now key a = None
  | IfMatch => exists e, live_entity now key a = Some e /\ at_etag (en_attrs e) = pc_ETag pre
  | IfPresent => is_Some (live_entity now key a)
  | Unconditional => True
  end.
Proof.
  unfold Precondition_SQL, publish_check, old_attrs, live_entity. destruct (pc_Mode pre); intros [= Hc Hm] Hk; try done; rewrite Hc, ?Hm; eval_decides; cbn [orb andb].
  - destruct (s_objects a !! key) as [e|]; cbn; [| done]. by destruct (not_expired _ _).
  - destruct (s_objects a !! key) as [e|]; cbn; [| done]. by destruct (not_expired _ _).
  - destruct (s_objects a !! key) as [e|]; cbn; [| done]. destruct (not_expired _ _); cbn; [| done].
    destruct (decide (at_etag (en_attrs e) = pc_ETag pre)) as [Ht|Ht]; [intros _; by exists e | by rewrite bool_decide_true].
Qed.

Lemma published_value now p pre l val a a' :
  spec_publish Cache now p val l a = Ok (ok, a') -> p_key p = key -> (p_cond p, p_if_match p) = Precondition_SQL pre -> p_origin_etag p = Some "" ->
  value_published now pre (p_expires_at p) (p_keep_ttl p) val a a'.
Proof.
  intros Hp Hk Hc Ho. apply spec_publish_ok in Hp as [Hok Ha]. cbn zeta in Ha. rewrite Hk in Hok, Ha. split; [by eapply check_live |].
  eexists. split; [| split; [| split; [exact Ha |]]]; [done | |]; cbn; unfold upsert_attrs, not_deleted.
  - destruct (old_attrs key a); [| done]. by destruct (_ && _).
  - destruct (old_attrs key a); [destruct (_ && _) |]; cbn; by rewrite Ho.
Qed.

Lemma outcome_Ok (r : outcome) (a a' : spec) x : outcome_error r a = Ok (x, a') -> r = ok /\ a' = a.
Proof. destruct r; [by intros [= <-] | done | done]. Qed.

Lemma put_published s over now val pre ct expires keep size a x a' :
  spec_put_inline Cache s over now (mkObjectRef R key) val (cache_options pre ct expires keep size) a = Ok (x, a') ->
  value_published now pre expires keep val a a'.
Proof.
  unfold spec_put_inline. intros (o & a1 & [Ho ->]%from_result_Ok & H)%bind_Ok. injection Ho as <-.
  apply require_Ok in H as [_ H]. apply require_Ok in H as [_ H]. apply bind_Ok in H as (r & a2 & Hp & H).
  apply bind_Ok in H as (u & a3 & [-> ->]%outcome_Ok & Hx). injection Hx as _ <-.
  exact (published_value _ _ pre _ _ _ _ Hp eq_refl (eq_sym (surjective_pairing (Precondition_SQL pre))) eq_refl).
Qed.

Lemma write_published s over now val pre ct expires keep size a x a' :
  spec_write Cache s over now (mkObjectRef R key) val [] (cache_options pre ct expires keep size) a = Ok (x, a') ->
  value_published now pre expires keep val a a'.
Proof.
  unfold spec_write. intros (o & a1 & [Ho ->]%from_result_Ok & H)%bind_Ok. injection Ho as <-. cbv zeta in H.
  apply require_Ok in H as [_ H]. apply require_Ok in H as [_ H]. apply bind_Ok in H as (o & a2 & [Ho ->]%from_result_Ok & H).
  unfold verify_object in Ho. destruct (_ && _) in Ho; [done |]. injection Ho as <-.
  apply bind_Ok in H as (u1 & a3 & Hp & H). apply bind_Ok in H as (u2 & a4 & Hn & Hx). injection Hn as <- <-. injection Hx as _ <-.
  unfold spec_publish_object in Hp. apply bind_Ok in Hp as (u & a2 & [Hu ->]%from_result_Ok & Hp).
  apply bind_Ok in Hp as (r & a2 & Hp & [-> ->]%outcome_Ok).
  exact (published_value _ _ pre _ _ _ _ Hp eq_refl (eq_sym (surjective_pairing (Precondition_SQL pre))) eq_refl).
Qed.

(** A successful write of a value, by the store. *)
Lemma value_op_exec c b proc block val pre ct expires keep z x z' :
  cx_ns c = R -> spec_exec c b (value_op proc block key val pre ct expires keep) z = (Ok x, z') ->
  match pc_Mode pre with
  | IfAbsent => live_entity (cx_now c) key (spec_of z R) = None
  | IfMatch => exists e, live_entity (cx_now c) key (spec_of z R) = Some e /\ at_etag (en_attrs e) = pc_ETag pre
  | IfPresent => is_Some (live_entity (cx_now c) key (spec_of z R))
  | Unconditional => True
  end /\
  exists e, en_body e = val /\ replaced R key e z z' /\
    at_expires_at (en_attrs e) =
      match old_attrs key (spec_of z R) with
      | Some t => if keep && not_expired (cx_now c) (at_expires_at t) then at_expires_at t else expires
      | None => expires
      end /\ not_deleted (en_attrs e) = true.
Proof.
  intros Hns. unfold spec_exec. rewrite Hns. set (o := value_op _ _ _ _ _ _ _ _). set (a := spec_of z R).
  assert (forall x a', spec_tx c b (spec_of z) o a = Ok (x, a') -> value_published (cx_now c) pre expires keep val a a') as Hpub.
  { intros x' a'. unfold o, value_op. destruct (_ <=? _); cbn [spec_tx]; unfold reply_of; rewrite Hns.
    - intros (w & a1 & Hp & Hx)%bind_Ok. injection Hx as _ <-. by eapply put_published.
    - rewrite cut_concat; [| unfold value_chunk; lia | lia]. intros (w & a1 & Hp & Hx)%bind_Ok. injection Hx as _ <-. by eapply write_published. }
  assert (forall r a', (sibling_spec o r : stx unit) a' = Ok (tt, a')) as Hsib by (intros; unfold o, value_op; by destruct (_ <=? _)).
  unfold commit at 1. destruct (spec_tx _ _ _ _ a) as [[x1 a1]|e1] eqn:E; [| done]. intros [= <- <-].
  destruct (Hpub _ _ eq_refl) as (Hpre & e & Hb & Hexp & Ha1 & Hnd). split; [done |]. exists e. split; [done |]. split; [| done].
  unfold commit. rewrite Hsib. cbn [snd]. set (z1 := put_spec z R a1).
  assert (spec_of z1 R = a1) as Hz1 by (unfold z1; by rewrite spec_of_put, decide_True).
  split; try (by rewrite spec_of_same, Hz1, Ha1).
  intros r' Hne. rewrite spec_of_same. unfold z1. rewrite spec_of_put, decide_False by congruence. destruct (decide _) as [Hn|]; [| done]. rewrite Ha1.
  assert (s_pending a = s_pending (spec_of z r')) as E' by (unfold a, spec_of; cbn; by rewrite <- Hn).
  change (s_pending (sset_origin _ _)) with (s_pending a). rewrite E'. apply sset_pending_same.
Qed.

(** What an attempt reads. *)
Lemma value_read y z t workers inlineOnly v m :
  rep y z -> cacheValueWithMeta t (db_of y R) workers inlineOnly key = Ok (v, m) ->
  match live_entity t key (spec_of z R) with
  | None => v = None /\ m = None
  | Some e => v = Some (en_body e) /\ exists m', m = Some m' /\ oi_ETag (m_Info m') = at_etag (en_attrs e)
  end.
Proof.
  intros (given & _ & Hall). specialize (Hall R). unfold cacheValueWithMeta, queryMetadata, live_entity.
  pose proof (sim_objects _ _ _ _ _ Hall key) as Hk.
  destruct (db_objects (db_of y R) !! key) as [o|], (s_objects (spec_of z R) !! key) as [e|]; inversion Hk as [? ? Hoe|]; subst; cbn [mbind option_bind];
    [| by intros [= <- <-]].
  rewrite <- (or_attrs _ _ _ _ _ _ Hoe). destruct (not_expired t _) eqn:Hexp; [| by intros [= <- <-]].
  destruct Hoe as [Hat Hsize Hshape Hst] eqn:Ho. clear Ho.
  destruct (scanMetadata metadataDecoded 0 o) as [m1|] eqn:Em; [| done].
  assert (Live m1 t = true /\ oi_ETag (m_Info m1) = at_etag (en_attrs e) /\ m_Size m1 = zlen (en_body e)) as (Hl & Het & Hsz).
  { revert Em. unfold scanMetadata. rewrite Hat in *. destruct (ob_inline_data o); [destruct (decompressBlock _ _); [| done] |]; intros [= <-]; done. }
  rewrite Hl. cbn [negb]. destruct (m_Inline m1) as [b|] eqn:Hinl.
  - intros [= <- <-]. assert (b = en_body e) as ->.
    { revert Em Hinl. unfold scanMetadata. destruct (en_layout e); cbn in Hst.
      - rewrite Hst. cbn [ob_inline_data ob_attrs]. rewrite Hsize, decompress_compress. cbn. intros [= <-]. by intros [= ->].
      - destruct Hst as (f & -> & _). by intros [= <-].
      - destruct Hst as (f & ps & -> & _). by intros [= <-]. }
    split; [done |]. eauto.
  - destruct inlineOnly; [done |]. unfold read_meta. destruct (Z.leb_spec (m_Size m1) max_value) as [Hle|]; [| done].
    destruct (object_reads _ _ _ _ _ _ 0 Hoe) as (m2 & Em2 & _ & _ & _ & Hr); [unfold max_value in *; lia |].
    assert (m2 = m1) as -> by congruence. rewrite (reads_all _ workers _ _ Hr) by done. intros [= <- <-]. eauto.
Qed.

Lemma spec_run_app ops1 ops2 z rs1 z1 rs2 z2 :
  spec_run ops1 z rs1 z1 -> spec_run ops2 z1 rs2 z2 -> spec_run (ops1 ++ ops2) z (rs1 ++ rs2) z2.
Proof. induction 1; intros Hrun; cbn; [done | econstructor; eauto | apply run_failed; eauto]. Qed.

(** What others do during an attempt. *)
Definition attempt_env (t : attempt) : list (context * Operation) := tr_before t ++ tr_between t.

Definition seen_tag (e : option entity) : string := from_option (fun e => at_etag (en_attrs e)) "" e.

(** The precondition of the update, on what an attempt saw. *)
Definition update_allowed (e : option entity) : bool :=
  Precondition_Allows (mu_Precondition change) (bool_decide (is_Some e)) (seen_tag e).

(** [swapped z0 z1 z' t res]: having seen the value in [z0], attempt [t]
    replaced the same value in [z1] by what the update makes of it. *)
Record swapped (z0 z1 z' : world) (t : attempt) (res : cacheMutationResult) (e : entity) : Prop := {
  sw_previous : mr_previous res = en_body <$> live_entity (tr_read t) key (spec_of z0 R);
  sw_existed : mr_existed res = bool_decide (is_Some (mr_previous res));
  sw_allowed : update_allowed (live_entity (tr_read t) key (spec_of z0 R)) = true;
  sw_same : same_content (live_entity (tr_read t) key (spec_of z0 R)) (live_entity (tr_write t) key (spec_of z1 R));
  sw_next : mu_apply change (mr_previous res) = Ok (en_body e);
  sw_size : mr_size res = zlen (en_body e);
  sw_expires : at_expires_at (en_attrs e) =
    match old_attrs key (spec_of z1 R) with
    | Some a => if mu_KeepTTL change && not_expired (tr_write t) (at_expires_at a) then at_expires_at a else mu_ExpiresAt change
    | None => mu_ExpiresAt change
    end;
  sw_replaced : replaced R key e z1 z'
}.

Definition mutation_outcome (sched : list attempt) (z : world) (r : option (result cache_error cacheMutationResult)) (y' : system) : Prop :=
  exists env rs z1, env `prefix_of` concat (attempt_env <$> sched) /\ spec_run env z rs z1 /\
    match r with
    | Some (Ok res) =>
        if mr_wrote res then
          exists t env0 rs0 z0 e z', t ∈ sched /\ env0 `prefix_of` env /\ spec_run env0 z rs0 z0 /\ swapped z0 z1 z' t res e /\ rep y' z'
        else exists t, t ∈ sched /\ update_allowed (live_entity (tr_read t) key (spec_of z1 R)) = false /\ rep y' z1
    | _ => rep y' z1
    end.

(** An attempt that lost a race leaves what others did. *)
Lemma outcome_after t sched z rs z1 r y' :
  spec_run (attempt_env t) z rs z1 -> mutation_outcome sched z1 r y' -> mutation_outcome (t :: sched) z r y'.
Proof.
  intros Hrun (env & rs1 & z2 & Hpre & Hrun1 & Hout). exists (attempt_env t ++ env), (rs ++ rs1), z2.
  split; [by apply prefix_app |]. split; [by eapply spec_run_app |].
  destruct r as [[res|]|]; try done. destruct (mr_wrote res).
  - destruct Hout as (t' & env0 & rs0 & z0 & e & z' & Hin & Hp0 & Hr0 & Hsw & Hrep).
    exists t', (attempt_env t ++ env0), (rs ++ rs0), z0, e, z'. split; [by right |]. split; [by apply prefix_app |].
    split; [by eapply spec_run_app | done].
  - destruct Hout as (t' & Hin & Hd & Hrep). exists t'. split; [by right | done].
Qed.

Lemma prefix_before t sched : tr_before t `prefix_of` concat (attempt_env <$> t :: sched).
Proof. cbn. unfold attempt_env at 1. rewrite <- app_assoc. by apply prefix_app_r. Qed.

Lemma prefix_attempt t sched : attempt_env t `prefix_of` concat (attempt_env <$> t :: sched).
Proof. cbn. by apply prefix_app_r. Qed.

(** The tags of the two live entities agree, so their contents do. *)
Lemma tags_same z0 z1 e0 t1 e1 key0 t0 :
  world_named z0 -> world_named z1 -> live_entity t0 key0 (spec_of z0 R) = Some e0 -> live_entity t1 key (spec_of z1 R) = Some e1 ->
  at_etag (en_attrs e0) = at_etag (en_attrs e1) -> same_content (Some e0) (Some e1).
Proof.
  intros Hn0 Hn1 H0 H1 Ht. unfold live_entity in H0, H1.
  destruct (s_objects (spec_of z0 R) !! key0) as [x0|] eqn:E0; [| done]. destruct (s_objects (spec_of z1 R) !! key) as [x1|] eqn:E1; [| done].
  cbn in H0, H1. destruct (not_expired t0 _); [| done]. destruct (not_expired t1 _); [| done]. injection H0 as ->. injection H1 as ->.
  destruct (an_objects _ (Hn0 R) _ _ E0) as (T0 & _ & A0). destruct (an_objects _ (Hn1 R) _ _ E1) as (T1 & _ & A1).
  cbn. apply same_tag; [done | done | congruence].
Qed.

(** An attempt that stops after its read, or after its write. *)
Lemma stop_read t sched z rs z0 r y0 :
  spec_run (tr_before t) z rs z0 -> rep y0 z0 ->
  match r with Some (Ok res) => mr_wrote res = false /\ update_allowed (live_entity (tr_read t) key (spec_of z0 R)) = false | _ => True end ->
  mutation_outcome (t :: sched) z r y0.
Proof.
  intros Hrun Hrep Hr. exists (tr_before t), rs, z0. split; [apply prefix_before |]. split; [done |].
  destruct r as [[res|]|]; try done. destruct Hr as [-> Hd]. exists t. split; [left | done].
Qed.

Lemma stop_write t sched z rs z1 e y1 :
  spec_run (attempt_env t) z rs z1 -> rep y1 z1 -> mutation_outcome (t :: sched) z (Some (Err e)) y1.
Proof. intros Hrun Hrep. exists (attempt_env t), rs, z1. split; [apply prefix_attempt | done]. Qed.

Lemma failed_rep c o y z e y' : rep y z -> exec c o y = (Err e, y') -> rep y' z.
Proof.
  intros Hrep Hex. destruct (exec_rep c o y z _ y' Hrep Hex) as (b & Hb). destruct (spec_exec c b o z) as [r' z'] eqn:E.
  destruct (Hb r' z' eq_refl) as [[<- Hrep']|[_ Hrep']]; [| done]. revert E. unfold spec_exec, commit at 1.
  destruct (spec_tx _ _ _ _ _) as [[]|]; [done |]. intros [= _ <-]. by eapply rep_same.
Qed.

Lemma done_rep c o y z x y' : rep y z -> exec c o y = (Ok x, y') -> exists b z', spec_exec c b o z = (Ok x, z') /\ rep y' z'.
Proof.
  intros Hrep Hex. destruct (exec_rep c o y z _ y' Hrep Hex) as (b & Hb). destruct (spec_exec c b o z) as [r' z'] eqn:E.
  destruct (Hb r' z' eq_refl) as [[<- Hrep']|[? _]]; [eauto | done].
Qed.

(** The write of an attempt that saw [e0]. *)
Lemma swap_write t z0 z1 b m v next x z' :
  world_named z0 -> world_named z1 ->
  match live_entity (tr_read t) key (spec_of z0 R) with
  | None => v = None /\ m = None
  | Some e => v = Some (en_body e) /\ exists m', m = Some m' /\ oi_ETag (m_Info m') = at_etag (en_attrs e)
  end ->
  update_allowed (live_entity (tr_read t) key (spec_of z0 R)) = true -> mu_apply change v = Ok next ->
  let pre := match m with Some m => mkPrecondition IfMatch (oi_ETag (m_Info m)) | None => mkPrecondition IfAbsent "" end in
  spec_exec (write_context name t) b (mutation_op key change t next pre) z1 = (Ok x, z') ->
  exists e, swapped z0 z1 z' t (mkMutated v (bool_decide (is_Some m)) true (zlen next)) e.
Proof.
  intros Hn0 Hn1 Hv Hal Hap pre Hex. apply value_op_exec in Hex as (Hpre & e & <- & Hrp & Hexp & _); [| done]. exists e.
  destruct (live_entity (tr_read t) key (spec_of z0 R)) as [e0|] eqn:E0.
  - destruct Hv as (-> & m' & -> & Ht). destruct Hpre as (e1 & E1 & Ht1). cbn in Ht1, E1.
    split; cbn [mr_previous mr_existed mr_size]; rewrite ?E0; try done. rewrite E1. eapply tags_same; [exact Hn0 | exact Hn1 | exact E0 | exact E1 | congruence].
  - destruct Hv as (-> & ->). cbn in Hpre. split; cbn [mr_previous mr_existed mr_size]; rewrite ?E0; try done. by rewrite Hpre.
Qed.

Lemma mutate_outcome left sched y z r y' :
  rep y z -> world_named z -> mutate_loop name key change left sched y = (r, y') -> mutation_outcome sched z r y'.
Proof.
  revert left y z. induction sched as [|t sched IH]; intros left y z Hrep Hn Hm; cbn [mutate_loop] in Hm.
  { exists [], [], z. split; [apply prefix_nil |]. split; [constructor |]. by destruct (bool_decide _); injection Hm as <- <-. }
  destruct (bool_decide _).
  { injection Hm as <- <-. exists [], [], z. split; [apply prefix_nil |]. split; [constructor | done]. }
  destruct (exec_run_rep (tr_before t) y z Hrep) as (z0 & Hrun0 & Hrep0). pose proof (spec_run_named _ _ _ _ Hrun0 Hn) as Hn0.
  set (y0 := (exec_run (tr_before t) y).2) in *.
  destruct (cacheValueWithMeta _ _ _ _ _) as [[v m]|e] eqn:Ev; [| injection Hm as <- <-; by eapply stop_read].
  pose proof (value_read _ _ _ _ _ _ _ Hrep0 Ev) as Hv.
  set (pre := match m with Some _ => _ | None => _ end) in Hm.
  assert (Precondition_Allows (mu_Precondition change) (bool_decide (is_Some m)) (pc_ETag pre) =
    update_allowed (live_entity (tr_read t) key (spec_of z0 R))) as Hal.
  { unfold update_allowed, pre. destruct (live_entity _ _ _) as [e0|]; [destruct Hv as (-> & m' & -> & Ht); cbn; by rewrite Ht | by destruct Hv as (-> & ->)]. }
  rewrite Hal in Hm. destruct (update_allowed _) eqn:Hup; cbn [negb] in Hm; [| injection Hm as <- <-; by eapply stop_read].
  destruct (mu_apply change v) as [next|e] eqn:Hap; [| injection Hm as <- <-; by eapply stop_read].
  destruct (exec_run_rep (tr_between t) y0 z0 Hrep0) as (z1 & Hrun1 & Hrep1). pose proof (spec_run_named _ _ _ _ Hrun1 Hn0) as Hn1.
  pose proof (spec_run_app _ _ _ _ _ _ _ Hrun0 Hrun1) as Hrun. fold (attempt_env t) in Hrun.
  destruct (exec _ _ _) as [rw yw] eqn:Ex. destruct rw as [x|ew]; cbn [write_result] in Hm.
  - injection Hm as <- <-. destruct (done_rep _ _ _ _ _ _ Hrep1 Ex) as (b & z' & Hsp & Hrep').
    destruct (swap_write t z0 z1 b m v next x z' Hn0 Hn1 Hv Hup Hap Hsp) as (e & Hsw).
    eexists (attempt_env t), _, z1. split; [apply prefix_attempt |]. split; [exact Hrun |].
    exists t, (tr_before t), (exec_run (tr_before t) y).1, z0, e, z'. split; [left |]. split; [by apply prefix_app_r |]. done.
  - pose proof (failed_rep _ _ _ _ _ _ Hrep1 Ex) as Hrepw.
    assert ((exists e, (Some (Err e), yw) = (r, y')) \/ mutate_loop name key change (pred <$> left) sched yw = (r, y')) as [[e He]|Hloop]
      by (destruct ew; eauto).
    + injection He as <- <-. by eapply stop_write.
    + eapply outcome_after; [exact Hrun |]. by eapply IH.
Qed.

(** C12: the update loop is atomic.  Whatever other clients do before, between
    and after its reads and writes, [mutate] has one of two effects.  Either it
    reports that it wrote: then there was a moment at which the key held,
    unless two strings hashed for entity tags collide, exactly the value the
    loop reports as the previous one, the precondition held on it, and at that
    moment the value was replaced by what the update makes of it, nothing else
    changing in any namespace; the time to live is kept when asked for.  Or it
    wrote nothing, and what is stored is what the other clients made of it. *)
Theorem mutate_atomic ops sched r y' :
  mutate name key change sched (exec_run ops new_system).2 = (r, y') ->
  exists z, spec_run ops empty_world (exec_run ops new_system).1 z /\ mutation_outcome sched z r y'.
Proof.
  intros Hm. destruct (exec_run_rep ops _ _ rep_new) as (z & Hrun & Hrep). exists z. split; [done |].
  eapply mutate_outcome; [exact Hrep | | exact Hm]. by eapply spec_run_named; [exact Hrun | apply empty_named].
Qed.

(** ** Progress *)

Lemma spec_publish_refused k now p body l a :
  spec_publish k now p body l a <> Err ErrPreconditionFailed /\
  (forall a', spec_publish k now p body l a = Ok (precondition, a') -> publish_check now p (old_attrs (p_key p) a) = precondition).
Proof.
  unfold spec_publish, tables, mbind, txn_bind. destruct (match sm_fill _ with Some _ => _ | None => _ end); [done |].
  destruct (publish_check _ _ _); try done. destruct (upsert_applies _ _); [| done].
  unfold put_entity, require, update, mbind, txn_bind, mret, txn_ret, throw. by destruct (attr_shape _ _ _).
Qed.

Lemma outcome_refused {A} k now p body l (g : outcome -> stx A) (a : spec) :
  (forall r a', g r a' = Err ErrPreconditionFailed -> r = precondition) ->
  (spec_publish k now p body l ≫= g) a = Err ErrPreconditionFailed -> publish_check now p (old_attrs (p_key p) a) = precondition.
Proof.
  intros Hg [Hp|(r & a1 & Hp & ->%Hg)]%bind_Err; [by apply spec_publish_refused in Hp | by eapply spec_publish_refused].
Qed.

(** A write refused by its condition. *)
Definition refused (now : Z) (pre : Precondition) (a : spec) : Prop :=
  exists p, p_key p = key /\ (p_cond p, p_if_match p) = Precondition_SQL pre /\ p_expected_origin p = None /\
    publish_check now p (old_attrs key a) = precondition.

Lemma put_refused s over now val pre ct expires keep size a :
  spec_put_inline Cache s over now (mkObjectRef R key) val (cache_options pre ct expires keep size) a = Err ErrPreconditionFailed ->
  refused now pre a.
Proof.
  unfold spec_put_inline. intros [H|(o & a1 & [Ho ->]%from_result_Ok & H)]%bind_Err; [done |]. injection Ho as <-.
  apply require_Err in H as [|H]; [done |]. apply require_Err in H as [|H]; [done |].
  apply outcome_refused in H; [| by intros []]. eexists. split; [| split; [| split; [| exact H]]]; try done. symmetry. apply surjective_pairing.
Qed.

Lemma write_refused s over now val pre ct expires keep size a :
  spec_write Cache s over now (mkObjectRef R key) val [] (cache_options pre ct expires keep size) a = Err ErrPreconditionFailed ->
  refused now pre a.
Proof.
  unfold spec_write. intros [H|(o & a1 & [Ho ->]%from_result_Ok & H)]%bind_Err; [done |]. injection Ho as <-. cbv zeta in H.
  apply require_Err in H as [|H]; [done |]. apply require_Err in H as [|H]; [done |].
  unfold verify_object in H. destruct (_ && _) in H; [done |].
  apply bind_Err in H as [|(o & a2 & [Ho ->]%from_result_Ok & H)]; [done |]. injection Ho as <-.
  apply bind_Err in H as [H|(u & a3 & _ & H)].
  - unfold spec_publish_object in H. apply bind_Err in H as [|(u & a2 & [_ ->]%from_result_Ok & H)]; [done |].
    apply outcome_refused in H as Hc; [| by intros []].
    eexists. split; [| split; [| split; [| exact Hc]]]; try done. symmetry. apply surjective_pairing.
  - apply bind_Err in H as [|(u' & a4 & _ & H)]; done.
Qed.

Lemma not_refused now v m pre a :
  match live_entity now key a with
  | None => v = None /\ m = None
  | Some e => v = Some (en_body e) /\ exists m', m = Some m' /\ oi_ETag (m_Info m') = at_etag (en_attrs e)
  end ->
  pre = match m with Some m => mkPrecondition IfMatch (oi_ETag (m_Info m)) | None => mkPrecondition IfAbsent "" end -> ~ refused now pre a.
Proof.
  intros Hv -> (p & _ & Hc & Ho & Hchk). revert Hchk. unfold publish_check. rewrite Ho. unfold live_entity, old_attrs in *.
  destruct (s_objects a !! key) as [e|]; cbn [mbind option_bind fmap option_map] in *.
  - destruct (not_expired _ _) eqn:Hexp.
    + destruct Hv as (_ & m' & -> & Ht). injection Hc as -> ->. eval_decides. cbn [orb andb option_fmap option_map negb]. rewrite Hexp. cbn [negb orb].
      rewrite bool_decide_false by (rewrite Ht; by intros []). done.
    + destruct Hv as (_ & ->). injection Hc as -> ->. eval_decides. cbn [orb andb option_fmap option_map negb]. by rewrite Hexp.
  - destruct Hv as (_ & ->). injection Hc as -> ->. by eval_decides.
Qed.

(** A write of a value that the store refuses. *)
Lemma value_refused c proc block val pre ct expires keep y z y' :
  rep y z -> cx_ns c = R -> exec c (value_op proc block key val pre ct expires keep) y = (Err ErrPreconditionFailed, y') -> refused (cx_now c) pre (spec_of z R).
Proof.
  intros Hrep Hns Hex. destruct (exec_rep _ _ _ _ _ _ Hrep Hex) as (b & Hb). destruct (spec_exec _ b _ z) as [r' z'] eqn:E.
  destruct (Hb r' z' eq_refl) as [[<- _]|[? _]]; [| done]. clear Hb. revert E. unfold spec_exec, commit at 1. rewrite Hns.
  destruct (spec_tx _ _ _ _ _) as [[]|] eqn:Etx; [done |]. intros [= -> _]. revert Etx. unfold value_op. destruct (_ <=? _); cbn [spec_tx]; unfold reply_of; rewrite Hns.
  - intros [H|(w & a1 & _ & H)]%bind_Err; [| done]. by eapply put_refused.
  - rewrite cut_concat; [| unfold value_chunk; lia | lia]. intros [H|(w & a1 & _ & H)]%bind_Err; [| done]. by eapply write_refused.
Qed.

(** An attempt nobody disturbs. *)
Definition quiet (t : attempt) : Prop := tr_before t = [] /\ tr_between t = [] /\ tr_read t = tr_write t.

Lemma quiet_write t y z v m next y' :
  rep y z -> quiet t -> cacheValueWithMeta (tr_read t) (db_of y R) (tr_workers t) (mu_inlineOnly change) key = Ok (v, m) ->
  let pre := match m with Some m => mkPrecondition IfMatch (oi_ETag (m_Info m)) | None => mkPrecondition IfAbsent "" end in
  exec (write_context name t) (mutation_op key change t next pre) y <> (Err ErrPreconditionFailed, y').
Proof.
  intros Hrep (_ & _ & Ht) Hv pre Hex. apply (value_read _ _ _ _ _ _ _ Hrep) in Hv. rewrite Ht in Hv.
  apply (not_refused _ v m pre _ Hv eq_refl). by eapply (value_refused (write_context name t)).
Qed.

Lemma read_no_contention t d workers io : cacheValueWithMeta t d workers io key <> Err ErrCacheContention.
Proof.
  unfold cacheValueWithMeta, read_meta. destruct (queryMetadata _ _ _ _ _) as [[m|]|]; try done. destruct (negb _); [done |].
  destruct (m_Inline m); [done |]. destruct io; [done |]. destruct (_ <=? _); [| done]. by destruct (readAll _ _ _).
Qed.

(** C23: an undisturbed attempt is the last one.  Among any attempts, one whose
    read and write happen at one time with no other operation between them
    ends the loop: a [mutate] that still has that attempt returns, and not for
    contention. *)
Theorem mutate_progress ops lost t rest r y' :
  (forall v, mu_apply change v <> Err ErrCacheContention) ->
  mu_retries change = 0%nat \/ (length lost < mu_retries change)%nat -> quiet t ->
  mutate name key change (lost ++ t :: rest) (exec_run ops new_system).2 = (r, y') ->
  exists x, r = Some x /\ x <> Err ErrCacheContention.
Proof.
  intros Hap Hleft Hq. unfold mutate. set (left := match mu_retries change with O => None | n => Some n end).
  assert (left = None \/ exists n, left = Some n /\ (length lost < n)%nat) as Hl.
  { unfold left. destruct (mu_retries change); [by left |]. right. eexists. split; [done |]. lia. }
  destruct (exec_run_rep ops _ _ rep_new) as (z & _ & Hrep). revert Hrep Hl. generalize (exec_run ops new_system).2. clearbody left. clear Hleft ops.
  revert left z. induction lost as [|t' lost IH]; intros left z y Hrep Hl; cbn [app mutate_loop];
    (rewrite (bool_decide_false (left = Some O)) by (destruct Hl as [->|(n & -> & ?)]; [done | intros [= ->]; lia])).
  - pose proof Hq as (Hb & Hbt & _). rewrite Hb, Hbt. cbn [exec_run snd].
    destruct (cacheValueWithMeta _ _ _ _ _) as [[v m]|e] eqn:Ev; [| intros [= <- <-]; eexists; split; [done |]; intros [= ->]; by apply read_no_contention in Ev].
    destruct (negb _); [intros [= <- <-]; eauto |]. destruct (mu_apply change v) as [next|e] eqn:Ea; [| intros [= <- <-]; eexists; split; [done |]; intros [= ->]; by apply Hap in Ea].
    destruct (exec _ _ _) as [rw yw] eqn:Ex. destruct rw as [x|ew]; cbn [write_result]; [intros [= <- <-]; eauto |].
    destruct ew; try (intros [= <- <-]; by eauto). exfalso. eapply quiet_write; [exact Hrep | exact Hq | exact Ev | exact Ex].
  - destruct (exec_run_rep (tr_before t') y z Hrep) as (z0 & _ & Hrep0).
    destruct (cacheValueWithMeta _ _ _ _ _) as [[v m]|e] eqn:Ev; [| intros [= <- <-]; eexists; split; [done |]; intros [= ->]; by apply read_no_contention in Ev].
    destruct (negb _); [intros [= <- <-]; eauto |]. destruct (mu_apply change v) as [next|e] eqn:Ea; [| intros [= <- <-]; eexists; split; [done |]; intros [= ->]; by apply Hap in Ea].
    destruct (exec_run_rep (tr_between t') _ z0 Hrep0) as (z1 & _ & Hrep1).
    destruct (exec _ _ _) as [rw yw] eqn:Ex. destruct rw as [x|ew]; cbn [write_result]; [intros [= <- <-]; eauto |].
    pose proof (failed_rep _ _ _ _ _ _ Hrep1 Ex) as Hrepw. destruct ew; try (intros [= <- <-]; by eauto). apply (IH _ z1); [done |].
    destruct Hl as [->|(n & -> & Hn)]; [by left |]. right. exists (pred n). split; [done |]. cbn in Hn. lia.
Qed.

End Atomic.

(** ** Values read *)

Section Agree.
Context `{ZL : ZstdLaws} `{D : Digests}.

(** The entity that shows as the value of a key. *)
Definition shown (now : Z) (key : string) (a : spec) : option entity := attrs_where key (shows now) a.

Lemma get_shown k given d a now workers key :
  sim k given [] d a -> (forall e, shown now key a = Some e -> zlen (en_body e) <= max_value) ->
  Get now d workers key = Ok (en_body <$> shown now key a).
Proof.
  intros Hs Hle. unfold Get, live_row, shown in *.
  pose proof (row_where_spec k given [] d a key (fun o => shows now (ob_attrs o)) (shows now) Hs (fun o => eq_refl)) as Hw.
  destruct (attrs_where key (shows now) a) as [e|] eqn:Er; inversion Hw as [o ? (Ho & He & Hoe) Eo|]; subst; [| done]. clear Hw.
  specialize (Hle e eq_refl). assert (not_expired now (at_expires_at (ob_attrs o)) = true) as Hexp.
  { rename Er into Hw. unfold attrs_where in Hw. rewrite He in Hw. cbn in Hw.
    destruct (shows now (en_attrs e)) eqn:Hsh; [| done]. rewrite (or_attrs _ _ _ _ _ _ Hoe) in Hsh. by apply andb_true_iff in Hsh as [? _]. }
  destruct (object_reads _ _ _ _ _ _ 0 Hoe) as (m & Em & _ & _ & Hsz & Hr); [unfold max_value in Hle; lia |].
  pose proof Hoe as [_ Hsize _ Hst]. unfold queryMetadata. rewrite Ho, Hexp, Em. cbn [fmap option_fmap option_map].
  unfold read_meta. rewrite Hsz, (proj2 (Z.leb_le _ _) Hle), (reads_all _ workers _ _ Hr) by done. cbn [rbind].
  destruct (en_layout e); cbn in Hst.
  - rewrite Hst. cbn [ob_inline_data ob_attrs]. by rewrite Hsize, decompress_compress.
  - destruct Hst as (f & -> & _). done.
  - destruct Hst as (f & ps & -> & _). done.
Qed.

Lemma exists_shown k given d a now keys :
  sim k given [] d a -> Exists now d keys = zlen (List.filter (fun key => bool_decide (is_Some (shown now key a))) keys).
Proof.
  intros Hs. unfold Exists. f_equal. induction keys as [|key keys IH]; cbn; [done |]. rewrite IH.
  assert (bool_decide (is_Some (live_row now d key)) = bool_decide (is_Some (shown now key a))) as ->; [| done].
  unfold live_row, shown. by destruct (row_where_spec k given [] d a key (fun o => shows now (ob_attrs o)) (shows now) Hs (fun o => eq_refl)).
Qed.

Lemma size_shown k given d a now :
  sim k given [] d a -> DBSize now d = zlen (map_to_list (filter (fun kv : string * attrs => shows now kv.2 = true) (spec_view a))).
Proof.
  intros Hs. rewrite <- (sim_view _ _ _ _ _ Hs). unfold DBSize, object_view. rewrite map_filter_fmap, map_to_list_fmap. unfold zlen.
  by rewrite length_fmap.
Qed.

Lemma mget_shown k given d a now workers keys :
  sim k given [] d a -> (forall key e, shown now key a = Some e -> zlen (en_body e) <= max_value) ->
  MGet now d workers keys = Ok ((fun key => en_body <$> shown now key a) <$> keys).
Proof.
  intros Hs Hle. induction keys as [|key keys IH]; cbn [MGet fmap list_fmap]; [done |].
  rewrite (get_shown k given d a) by eauto. cbn [rbind]. by rewrite IH.
Qed.


End Agree.

(** ** Counters and ranges *)

Lemma TrimSpace_FormatInt_any n : TrimSpace (FormatInt n) = FormatInt n.
Proof.
  destruct (Z.leb_spec 0 n) as [Hn|Hn]; [by apply TrimSpace_FormatInt |]. apply TrimSpace_plain. unfold FormatInt. rewrite (proj2 (Z.ltb_lt n 0) Hn).
  cbn [all_bytes]. apply andb_true_iff. split; [done |]. eapply all_bytes_impl; [apply digit_plain |]. by apply dec_digits_all.
Qed.

(** Counters add.  On a value [IncrBy] wrote, the next [IncrBy] computes
    the exact sum when it is a 64-bit integer and reports an error when it is
    not; so a chain of increments never wraps. *)
Theorem counter_adds n delta :
  min_int64 <= n <= max_int64 -> min_int64 <= delta <= max_int64 ->
  incr_value delta (Some (format_bytes n)) = if in_int64 (n + delta) then Ok (n + delta) else Err ErrNotInteger.
Proof.
  intros Hn Hd. unfold incr_value, cacheAdd, format_bytes. rewrite String.string_of_list_ascii_of_string, TrimSpace_FormatInt_any, ParseInt_FormatInt by done.
  destruct (_ || _) eqn:E; destruct (in_int64 _) eqn:E'; try done; unfold in_int64 in E'; exfalso; lia.
Qed.

Lemma counter_adds_witness :
  incr_value 3 (Some (format_bytes 7)) = Ok 10 /\ incr_value 1 (Some (format_bytes max_int64)) = Err ErrNotInteger.
Proof. split; [apply (counter_adds 7 3); by vm_compute | apply (counter_adds max_int64 1); by vm_compute]. Defined.

(** ** A run *)

Section Sample.
#[local] Existing Instance toy_digests.

#[local] Instance sample_digest_laws : DigestLaws toy_digests.
Proof. by split. Qed.

Definition cache_context (t : Z) : context := mkContext t (fun _ => false) 1 (CacheRef "c").

Definition counter_put (t n : Z) : context * Operation :=
  (cache_context t, value_op 0 [] "hits" (format_bytes n) unconditional cacheCounterContentType None false).

Definition hits_run : list (context * Operation) := [counter_put 1 5].

(** Another client overwrites the counter during the first attempt; the second
    attempt is undisturbed. *)
Definition raced : attempt := mkAttempt [] 2 1 [counter_put 3 19] 4 (fun _ => false) 1 0 [].
Definition undisturbed : attempt := mkAttempt [] 5 1 [] 5 (fun _ => false) 1 0 [].

Definition incr_hits := mutate "c" "hits" (incr_mutation 2) [raced; undisturbed] (exec_run hits_run new_system).2.

Lemma incr_hits_result : incr_hits.1 = Some (Ok (mkMutated (Some (format_bytes 19)) true true 2)).
Proof. vm_compute. reflexivity. Qed.

Lemma mutate_atomic_witness : incr_hits.1 = Some (Ok (mkMutated (Some (format_bytes 19)) true true 2)) /\
  exists z, spec_run hits_run empty_world (exec_run hits_run new_system).1 z /\
    mutation_outcome "c" "hits" (incr_mutation 2) [raced; undisturbed] z incr_hits.1 incr_hits.2.
Proof.
  split; [exact incr_hits_result |].
  exact (mutate_atomic "c" "hits" (incr_mutation 2) hits_run [raced; undisturbed] incr_hits.1 incr_hits.2 (surjective_pairing incr_hits)).
Defined.

Lemma mutate_progress_witness : exists x, incr_hits.1 = Some x /\ x <> Err ErrCacheContention.
Proof.
  apply (mutate_progress "c" "hits" (incr_mutation 2) hits_run [raced] undisturbed [] incr_hits.1 incr_hits.2).
  - intros v. cbn. unfold incr_value, cacheAdd. destruct v; [| done]. destruct (ParseInt _); [| done]. by destruct (_ || _).
  - by left.
  - by split.
  - exact (surjective_pairing incr_hits).
Defined.


End Sample.
