(* ===== verification/ReadMany.v ===== *)
(** * Bulk reads of a cache

    [ReadManyWithTouch] and [fetchFiles] of [internal/store/cache.go]: one
    statement finds the rows of many keys, whole files come from the block
    cache where it has them, and the chunk rows of the others arrive in any
    order over several connections; each lands at its offset of the buffer of
    its file, and a file counts when as many bytes landed as it has. *)

From stdpp Require Import gmap sorting.
From S2P Require Import Prelude GoStrings Ns Ranges Precond Blocks Pieces Reader BlockCache Ids Tables Objects CacheTables ObjectSpec CacheSpec Machine ObjectRep ObjectRefine ObjectRead ObjectComplete ObjectStore CacheValues.

Record readManyFile := mkManyFile {
  mf_table : Z;
  mf_id : Z;
  mf_size : Z;
  mf_buf : bytes;
  mf_filled : Z;
  mf_destinations : list nat
}.

Inductive many_error := BadInline | BadRow | CachePanic.

Section Operations.
Context `{Zstd}.

(** ** The rows of the keys *)

Definition not_pending (a : attrs) : bool :=
  match at_origin_etag a with Some v => negb (HasPrefix v pendingOriginPrefix) | None => true end.

Definition many_row (now : Z) (o : object) : bool :=
  shows now (ob_attrs o) && not_pending (ob_attrs o) && bool_decide (ob_parts o = None) &&
  (bool_decide (is_Some (ob_inline_data o)) || bool_decide (is_Some (ob_file_id o)) || (at_size (ob_attrs o) =? 0)).

(** Every key with its position, the statement's [WITH ORDINALITY]. *)
Fixpoint selected_from (now : Z) (d : db) (i : nat) (keys : list string) : list (nat * object) :=
  match keys with
  | [] => []
  | key :: rest =>
      match row_where key (many_row now) d with
      | Some o => (i, o) :: selected_from now d (S i) rest
      | None => selected_from now d (S i) rest
      end
  end.

Definition selected (now : Z) (d : db) (keys : list string) : list (nat * object) := selected_from now d 0 keys.

(** ** The scan of the rows *)

Record many_state := mkMany {
  ms_out : list (option bytes);
  ms_touch : list string;
  ms_files : list readManyFile;
  ms_cache : option blockCache
}.

(** Less than half of the retention is left; the clock and the retention are in
    nanoseconds. *)
Definition wants_touch (clock retention : Z) (o : object) : bool :=
  match at_expires_at (ob_attrs o) with
  | Some t => (0 <? retention) && (t * 1000 - clock <? Z.quot retention 2)
  | None => false
  end.

Definition add_destination (id : Z) (idx : nat) (f : readManyFile) : readManyFile :=
  if mf_id f =? id then mkManyFile (mf_table f) (mf_id f) (mf_size f) (mf_buf f) (mf_filled f) (mf_destinations f ++ [idx]) else f.

Definition scan_row (keys : list string) (table clock retention : Z) (row : nat * object) (s : many_state) : result many_error many_state :=
  let '(idx, o) := row in
  let size := at_size (ob_attrs o) in
  let touch := if wants_touch clock retention o then ms_touch s ++ option_list (keys !! idx) else ms_touch s in
  match ob_inline_data o, ob_file_id o with
  | Some inline, _ =>
      match decompressBlock inline size with
      | Ok raw => Ok (mkMany (<[idx := Some raw]> (ms_out s)) touch (ms_files s) (ms_cache s))
      | Err _ => Err BadInline
      end
  | None, Some id =>
      if size =? 0 then Ok (mkMany (<[idx := Some []]> (ms_out s)) touch (ms_files s) (ms_cache s))
      else if existsb (fun f => mf_id f =? id) (ms_files s) then
        Ok (mkMany (ms_out s) touch (add_destination id idx <$> ms_files s) (ms_cache s))
      else
        match cachedFile (ms_cache s) table id size with
        | (Some b, c) => Ok (mkMany (<[idx := Some b]> (ms_out s)) touch (ms_files s) c)
        | (None, c) => Ok (mkMany (ms_out s) touch (ms_files s ++ [mkManyFile table id size [] 0 [idx]]) c)
        end
  | None, None => Ok (mkMany (<[idx := Some []]> (ms_out s)) touch (ms_files s) (ms_cache s))
  end.

Fixpoint scan_rows (keys : list string) (table clock retention : Z) (rows : list (nat * object)) (s : many_state) : result many_error many_state :=
  match rows with
  | [] => Ok s
  | row :: rest => let* s := scan_row keys table clock retention row s in scan_rows keys table clock retention rest s
  end.

(** ** Fetching the files *)

(** One row of a file: [decodeRow] and [copy] into [f.buf[off:end]]. *)
Definition land_row (f : readManyFile) (row : chunk_row) : result many_error readManyFile :=
  let off := cr_no row * RowBytes in
  if (off <? 0) || (mf_size f <=? off) then Ok f
  else
    let stop := Z.min (off + RowBytes) (mf_size f) in
    match decodeRow (mkPiece (mf_id f) 0 (mf_size f) 0 0) (cr_no row) (cr_data row) with
    | Err _ => Err BadRow
    | Ok b =>
        let n := Z.min (stop - off) (zlen b) in
        Ok (mkManyFile (mf_table f) (mf_id f) (mf_size f)
              (slice (mf_buf f) 0 off ++ slice b 0 n ++ drop (Z.to_nat (off + n)) (mf_buf f)) (mf_filled f + n) (mf_destinations f))
    end.

(** Worker [w] of [workers] has the files whose index is [w] modulo
    [workers]. *)
Fixpoint land (workers w : nat) (i : nat) (files : list readManyFile) (row : chunk_row) : result many_error (list readManyFile) :=
  match files with
  | [] => Ok []
  | f :: rest =>
      let* f := if (mf_id f =? cr_file row) && (i mod workers =? w)%nat then land_row f row else Ok f in
      let* rest := land workers w (S i) rest row in
      Ok (f :: rest)
  end.

(** The rows as they arrive, each with the worker that reads it. *)
Fixpoint land_all (workers : nat) (arrived : list (nat * chunk_row)) (files : list readManyFile) : result many_error (list readManyFile) :=
  match arrived with
  | [] => Ok files
  | (w, row) :: rest => let* files := land workers w 0 files row in land_all workers rest files
  end.

Definition blank (f : readManyFile) : readManyFile :=
  mkManyFile (mf_table f) (mf_id f) (mf_size f) (replicate (Z.to_nat (mf_size f)) zero) (mf_filled f) (mf_destinations f).

Definition fetchFiles (workers : nat) (arrived : list (nat * chunk_row)) (files : list readManyFile) : result many_error (list readManyFile) :=
  match files with
  | [] => Ok []
  | _ => land_all (Nat.min workers (length files)) arrived (blank <$> files)
  end.

(** ** The result *)

Fixpoint deliver_files (files : list readManyFile) (out : list (option bytes)) (c : option blockCache)
    : result many_error (list (option bytes) * option blockCache) :=
  match files with
  | [] => Ok (out, c)
  | f :: rest =>
      if negb (mf_filled f =? mf_size f) then deliver_files rest out c
      else match cacheFile c (mf_table f) (mf_id f) (mf_buf f) with
           | Some c => deliver_files rest (fold_left (fun out idx => <[idx := Some (mf_buf f)]> out) (mf_destinations f) out) c
           | None => Err CachePanic
           end
  end.

(** [rows] are the rows of the first statement and [arrived] the chunk rows of
    the others, in the order they arrive; also the keys that are touched. *)
Definition ReadManyWithTouch (table clock retention : Z) (workers : nat) (keys : list string) (rows : list (nat * object))
    (arrived : list (nat * chunk_row)) (c : option blockCache) : result many_error (list (option bytes) * list string * option blockCache) :=
  match keys with
  | [] => Ok ([], [], c)
  | _ =>
      let* s := scan_rows keys table clock retention rows (mkMany (replicate (length keys) None) [] [] c) in
      let* files := fetchFiles workers arrived (ms_files s) in
      let* (out, c) := deliver_files files (ms_out s) (ms_cache s) in
      Ok (out, ms_touch s, c)
  end.

(** The chunk rows worker [w] asks for: [WHERE file_id = ANY(ids)]. *)
Definition worker_ids (workers w : nat) (files : list readManyFile) : list Z :=
  mf_id <$> (List.filter (fun f => (f.1 mod workers =? w)%nat) (imap pair files)).*2.

Definition asked (table : list chunk_row) (workers w : nat) (files : list readManyFile) : list chunk_row :=
  List.filter (fun r => bool_decide (cr_file r ∈ worker_ids workers w files)) table.

(** What arrives: for every worker the rows it asked for, in any order and
    interleaved in any way. *)
Definition arrives (table : list chunk_row) (workers : nat) (files : list readManyFile) (arrived : list (nat * chunk_row)) : Prop :=
  forall w, (List.filter (fun x => (x.1 =? w)%nat) arrived).*2 ≡ₚ
    if (w <? Nat.min workers (length files))%nat then asked table (Nat.min workers (length files)) w files else [].

End Operations.

(** ** Rows land where they belong *)

Section Landing.
Context `{ZL : ZstdLaws}.

Definition row_total (body : bytes) (nos : list Z) : Z := fold_right Z.add 0 ((fun i => zlen (row_bytes body i)) <$> nos).

(** [landed body nos f]: the rows [nos] of [body] are in the buffer. *)
Record landed (body : bytes) (nos : list Z) (f : readManyFile) : Prop := {
  ld_size : mf_size f = zlen body;
  ld_length : length (mf_buf f) = length body;
  ld_bytes : forall j : nat, Z.of_nat j / RowBytes ∈ nos -> mf_buf f !! j = body !! j;
  ld_filled : mf_filled f = row_total body nos
}.

(** A row of the file as the table has it. *)
Definition own_row (id : Z) (body : bytes) (r : chunk_row) : Prop :=
  r = mkRow id (cr_no r) (compressBlock (row_bytes body (cr_no r))) /\ 0 <= cr_no r < row_count (zlen body).

Lemma row_span body i : 0 <= i < row_count (zlen body) ->
  0 <= i * RowBytes < zlen body /\ zlen (row_bytes body i) = Z.min RowBytes (zlen body - i * RowBytes).
Proof.
  unfold row_count, row_bytes, RowBytes. intros Hi. assert (i * 8120 < zlen body) by div_lia. split; [lia |].
  rewrite zlen_slice_ok by (split; lia). lia.
Qed.

Lemma splice_lookup (buf b : bytes) (off : nat) j :
  (off + length b <= length buf)%nat ->
  (take off buf ++ b ++ drop (off + length b) buf) !! j = if decide (off <= j < off + length b)%nat then b !! (j - off)%nat else buf !! j.
Proof.
  intros Hle. destruct (decide (j < off)%nat) as [Hj|Hj].
  - rewrite lookup_app_l by (rewrite length_take; lia). rewrite lookup_take_lt by done. by rewrite decide_False by lia.
  - rewrite lookup_app_r by (rewrite length_take; lia). rewrite length_take_le by lia. destruct (decide (j - off < length b)%nat) as [Hb|Hb].
    + rewrite lookup_app_l by done. by rewrite decide_True by lia.
    + rewrite lookup_app_r by lia. rewrite lookup_drop. rewrite decide_False by lia. f_equal. lia.
Qed.

Lemma row_lookup body i (j : nat) : 0 <= i * RowBytes -> i * RowBytes <= Z.of_nat j < i * RowBytes + zlen (row_bytes body i) ->
  row_bytes body i !! (j - Z.to_nat (i * RowBytes))%nat = body !! j.
Proof.
  intros Hi Hj. pose proof (zlen_slice_le body (i * RowBytes) (Z.min ((i + 1) * RowBytes) (zlen body))) as Hl. fold (row_bytes body i) in Hl.
  unfold row_bytes, slice. rewrite lookup_take_lt by lia. rewrite lookup_drop. f_equal. lia.
Qed.

Lemma fold_add (l : list Z) n : fold_right Z.add 0 l + n = fold_right Z.add n l.
Proof. induction l as [|x l IH]; cbn; lia. Qed.

Definition same_file (f f' : readManyFile) : Prop :=
  mf_table f' = mf_table f /\ mf_id f' = mf_id f /\ mf_size f' = mf_size f /\ mf_destinations f' = mf_destinations f.

Lemma land_row_ok body nos f r :
  landed body nos f -> own_row (mf_id f) body r ->
  exists f', land_row f r = Ok f' /\ landed body (nos ++ [cr_no r]) f' /\
same_file f f'.
Proof.
  intros [Hsz Hlen Hb Hf] [Hr Hno]. destruct (row_span body (cr_no r) Hno) as [Hoff Hrow]. set (i := cr_no r) in *.
  unfold land_row. rewrite Hr. cbn [cr_no cr_data]. fold i. rewrite Hsz.
  replace ((i * RowBytes <? 0) || (zlen body <=? i * RowBytes)) with false by lia.
  unfold decodeRow. cbn [p_segLen]. rewrite <- Hrow. pose proof (zlen_nonneg (row_bytes body i)).
  rewrite (proj2 (Z.ltb_ge _ _)) by lia. rewrite decompress_compress.
  replace (Z.min (Z.min (i * RowBytes + RowBytes) (zlen body) - i * RowBytes) (zlen (row_bytes body i))) with (zlen (row_bytes body i)) by lia.
  eexists. split; [done |]. split; [| by split]. rewrite (slice_full (row_bytes body i)) by lia.
  set (b := row_bytes body i) in *. set (off := Z.to_nat (i * RowBytes)).
  assert (off + length b <= length (mf_buf f))%nat as Hfit by (unfold off, zlen in *; lia).
  replace (Z.to_nat (i * RowBytes + zlen b)) with (off + length b)%nat by (unfold off, zlen; lia).
  unfold slice at 1. cbn [drop]. rewrite Z.sub_0_r. change (Z.to_nat 0) with 0%nat. rewrite drop_0. fold off.
  split; cbn [mf_size mf_buf mf_filled].
  - done.
  - rewrite !length_app, length_take, length_drop. lia.
  - intros j Hj. rewrite splice_lookup by done. apply elem_of_app in Hj as [Hj|Hj%list_elem_of_singleton].
    + destruct (decide _) as [Hd|]; [| by apply Hb]. apply row_lookup; [lia |]. fold b. unfold off, zlen in *. lia.
    + destruct (decide _) as [Hd|Hd]; [apply row_lookup; [lia |]; fold b; unfold off, zlen in *; lia |].
      assert (length body <= j)%nat by (unfold off, zlen, RowBytes in *; div_lia). by rewrite !lookup_ge_None_2 by lia.
  - rewrite Hf. unfold row_total. rewrite fmap_app, fold_right_app. cbn. rewrite Z.add_0_r. apply fold_add.
Qed.

Definition reads (workers w i : nat) (f : readManyFile) (r : chunk_row) : bool := (mf_id f =? cr_file r) && (i mod workers =? w)%nat.

Lemma land_ok workers w r base files (bodies : nat -> bytes) (nos : nat -> list Z) :
  (forall j f, files !! j = Some f -> landed (bodies (base + j)%nat) (nos (base + j)%nat) f /\
    (reads workers w (base + j) f r = true -> own_row (mf_id f) (bodies (base + j)%nat) r)) ->
  exists files', land workers w base files r = Ok files' /\
    forall j, option_Forall2 (fun f f' => same_file f f' /\
      landed (bodies (base + j)%nat) (nos (base + j)%nat ++ (if reads workers w (base + j) f r then [cr_no r] else [])) f') (files !! j) (files' !! j).
Proof.
  revert base. induction files as [|f files IH]; intros base Hf; cbn [land]; [exists []; split; [done |]; intros j; constructor |].
  destruct (Hf 0%nat f eq_refl) as [Hl Hr]. rewrite Nat.add_0_r in Hl, Hr. fold (reads workers w base f r).
  assert (exists f', (if reads workers w base f r then land_row f r else Ok f) = Ok f' /\ same_file f f' /\
    landed (bodies base) (nos base ++ (if reads workers w base f r then [cr_no r] else [])) f') as (f' & -> & Hsame & Hl').
  { destruct (reads workers w base f r); [destruct (land_row_ok _ _ _ _ Hl (Hr eq_refl)) as (f' & ? & ? & ?); eauto |].
    exists f. rewrite app_nil_r. done. }
  destruct (IH (S base)) as (files' & E & Hall).
  { intros j g Hg. specialize (Hf (S j) g Hg). by rewrite Nat.add_succ_r in Hf. }
  cbn [rbind]. rewrite E. cbn [rbind]. exists (f' :: files'). split; [done |]. intros [|j]; cbn; [rewrite Nat.add_0_r; by constructor |].
  specialize (Hall j). by rewrite Nat.add_succ_r.
Qed.

(** The rows that arrive for a file. *)
Definition mine (workers i : nat) (id : Z) (arrived : list (nat * chunk_row)) : list chunk_row :=
  (List.filter (fun x => (id =? cr_file x.2) && (i mod workers =? x.1)%nat) arrived).*2.

Lemma land_all_ok workers arrived files (bodies : nat -> bytes) (nos : nat -> list Z) :
  (forall i f, files !! i = Some f -> landed (bodies i) (nos i) f /\ Forall (own_row (mf_id f) (bodies i)) (mine workers i (mf_id f) arrived)) ->
  exists files', land_all workers arrived files = Ok files' /\
    forall i, option_Forall2 (fun f f' => same_file f f' /\ landed (bodies i) (nos i ++ (cr_no <$> mine workers i (mf_id f) arrived)) f')
      (files !! i) (files' !! i).
Proof.
  revert files nos. induction arrived as [|[w r] arrived IH]; intros files nos Hf; cbn [land_all].
  - exists files. split; [done |]. intros i. destruct (files !! i) as [f|] eqn:E; constructor. cbn. rewrite app_nil_r. split; [done |]. by apply Hf.
  - destruct (land_ok workers w r 0 files bodies nos) as (files1 & E & H1).
    { intros j f Hj. destruct (Hf j f Hj) as [Hl Hm]. split; [done |]. intros Hr. unfold mine in Hm. cbn [List.filter] in Hm.
      unfold reads in Hr. cbn in Hr, Hm. rewrite Hr in Hm. by apply Forall_cons in Hm as [? _]. }
    rewrite E. cbn [rbind].
    assert (forall i f, files !! i = Some f -> exists f1, files1 !! i = Some f1 /\ same_file f f1 /\
      landed (bodies i) (nos i ++ (if reads workers w i f r then [cr_no r] else [])) f1) as Hf1.
    { intros i f Hi. specialize (H1 i). rewrite Hi in H1. inversion H1 as [? f1 [Hs Hl] Ef|]; subst. eauto. }
    pose (nos1 := fun i => match files !! i with Some f => nos i ++ (if reads workers w i f r then [cr_no r] else []) | None => [] end).
    destruct (IH files1 nos1) as (files2 & E2 & H2).
    { intros i f1 Hi. specialize (H1 i). rewrite Hi in H1. inversion H1 as [f ? [Hs Hl] Ef|]; subst. destruct Hs as (? & Hid & ? & ?).
      unfold nos1. symmetry in Ef. rewrite Ef. split; [done |]. rewrite Hid. destruct (Hf i f Ef) as [_ Hm]. unfold mine in *. cbn [List.filter] in Hm.
      destruct (_ && _); [by apply Forall_cons in Hm as [_ ?] | done]. }
    exists files2. split; [done |]. intros i. specialize (H2 i). destruct (files !! i) as [f|] eqn:Ei.
    + destruct (Hf1 i f Ei) as (f1 & Hi1 & Hs & _). rewrite Hi1 in H2. inversion H2 as [? f2 [Hs2 Hl2] |]; subst. constructor.
      destruct Hs as (Ht & Hid & Hsz & Hd), Hs2 as (Ht2 & Hid2 & Hsz2 & Hd2). split; [repeat split; congruence |].
      unfold nos1 in Hl2. rewrite Ei, Hid, <- app_assoc in Hl2. unfold mine at 1. cbn [List.filter].
      unfold reads in Hl2. cbn [fst snd]. destruct (_ && _); done.
    + specialize (H1 i). rewrite Ei in H1. inversion H1 as [|Hn]; subst. rewrite <- H in H2. inversion H2. by constructor.
Qed.

Lemma row_total_seq body m : 0 <= m <= row_count (zlen body) -> row_total body (seqZ 0 m) = Z.min (m * RowBytes) (zlen body).
Proof.
  intros [Hm Hle]. pose proof (zlen_nonneg body). revert m Hm Hle.
  apply (natlike_ind (fun m => m <= row_count (zlen body) -> row_total body (seqZ 0 m) = Z.min (m * RowBytes) (zlen body))); [intros _; change (row_total body (seqZ 0 0)) with 0; lia |].
  intros m Hm IH Hle. unfold Z.succ in *. rewrite seqZ_app by lia. unfold row_total. rewrite fmap_app, fold_right_app.
  change (seqZ (0 + m) 1) with [0 + (0 + m)]. cbn [fmap list_fmap fold_right]. rewrite Z.add_0_r, !Z.add_0_l, <- fold_add.
  fold (row_total body (seqZ 0 m)). rewrite IH by lia. destruct (row_span body m) as [Ho Hz]; [lia |]. rewrite Hz. unfold RowBytes in *. lia.
Qed.

Lemma row_total_perm body nos nos' : nos ≡ₚ nos' -> row_total body nos = row_total body nos'.
Proof. intros Hp. unfold row_total. induction Hp; cbn; lia. Qed.

Lemma landed_whole body nos f :
  landed body nos f -> nos ≡ₚ seqZ 0 (row_count (zlen body)) -> mf_buf f = body /\ mf_filled f = mf_size f.
Proof.
  intros [Hsz Hlen Hb Hf] Hp. pose proof (zlen_nonneg body).
  assert (0 <= row_count (zlen body) /\ zlen body <= row_count (zlen body) * RowBytes) as [Hn Hc] by (unfold row_count, RowBytes; div_lia). split.
  - apply list_eq. intros j. destruct (decide (j < length body)%nat) as [Hj|Hj]; [| by rewrite !lookup_ge_None_2 by lia].
    apply Hb. rewrite Hp. apply elem_of_seqZ. unfold zlen, row_count, RowBytes in *. div_lia.
  - rewrite Hf, Hsz, (row_total_perm _ _ _ Hp), row_total_seq by lia. lia.
Qed.

Lemma filter_bool {A} (P : A -> bool) (l : list A) : List.filter P l = filter (fun x => P x = true) l.
Proof. induction l as [|x l IH]; [done |]. rewrite filter_cons. cbn. rewrite IH. by destruct (P x). Qed.

Lemma mine_arrives table workers files arrived i f :
  arrives table workers files arrived -> (0 < workers)%nat -> files !! i = Some f ->
  mine (Nat.min workers (length files)) i (mf_id f) arrived ≡ₚ List.filter (fun r => mf_id f =? cr_file r) table.
Proof.
  intros Ha Hw Hi. apply lookup_lt_Some in Hi as Hlt. set (W := Nat.min workers (length files)) in *. set (w := (i mod W)%nat).
  assert (0 < W)%nat as HW by lia. pose proof (Nat.mod_upper_bound i W ltac:(lia)) as Hwm. fold w in Hwm.
  specialize (Ha w). fold W in Ha. rewrite (proj2 (Nat.ltb_lt _ _) Hwm) in Ha.
  assert (mine W i (mf_id f) arrived = List.filter (fun r => mf_id f =? cr_file r) (List.filter (fun x => (x.1 =? w)%nat) arrived).*2) as ->.
  { unfold mine. fold w. clear Ha. induction arrived as [|[w' r] l IH]; [done |]. cbn. rewrite (Nat.eqb_sym w w').
    destruct (w' =? w)%nat; cbn; destruct (mf_id f =? cr_file r); cbn; by rewrite IH. }
  rewrite !filter_bool in *. rewrite Ha. rewrite <- !filter_bool. unfold asked.
  assert (mf_id f ∈ worker_ids W w files) as Hin.
  { unfold worker_ids. apply list_elem_of_fmap. exists f. split; [done |]. apply list_elem_of_fmap. exists (i, f). split; [done |].
    apply list_elem_of_In, filter_In. split; [| apply Nat.eqb_refl]. apply list_elem_of_In, elem_of_lookup_imap. eauto. }
  clear Ha. induction table as [|r table IH]; [done |]. cbn. destruct (bool_decide _) eqn:E; cbn; destruct (Z.eqb_spec (mf_id f) (cr_file r)) as [Er|]; [by rewrite IH | done | | done].
  apply bool_decide_eq_false in E. by rewrite <- Er in E.
Qed.

(** The files are fetched: every buffer is the content of its file. *)
Lemma fetch_whole table workers arrived files (content : Z -> bytes) :
  arrives table workers files arrived -> (0 < workers)%nat ->
  (forall f, f ∈ files -> file_stored table (mf_id f) (content (mf_id f)) /\ mf_size f = zlen (content (mf_id f)) /\ mf_filled f = 0) ->
  exists files', fetchFiles workers arrived files = Ok files' /\
    Forall2 (fun f f' => same_file f f' /\ mf_buf f' = content (mf_id f) /\ mf_filled f' = mf_size f') files files'.
Proof.
  intros Ha Hw Hf. unfold fetchFiles. destruct files as [|f0 files0] eqn:Efs; [exists []; by split |]. rewrite <- Efs in *. clear f0 files0 Efs.
  set (W := Nat.min workers (length files)).
  assert (forall i f, files !! i = Some f -> Forall (own_row (mf_id f) (content (mf_id f))) (mine W i (mf_id f) arrived) /\
    (cr_no <$> mine W i (mf_id f) arrived) ≡ₚ seqZ 0 (row_count (zlen (content (mf_id f))))) as Hmine.
  { intros i f Hi. pose proof (mine_arrives _ _ _ _ _ _ Ha Hw Hi) as Hp. fold W in Hp.
    destruct (Hf f (list_elem_of_lookup_2 _ _ _ Hi)) as (Hst & _ & _). unfold file_stored in Hst.
    assert (List.filter (fun r => mf_id f =? cr_file r) table = filter (fun r => cr_file r = mf_id f) table) as E.
    { rewrite filter_bool. apply list_filter_iff. intros r. rewrite Z.eqb_eq. naive_solver. }
    rewrite E, Hst in Hp. split.
    - rewrite Hp. unfold stored_body, stored_rows. apply Forall_fmap, Forall_forall.
      intros i' Hi'%elem_of_seqZ. split; [done | cbn; lia].
    - rewrite Hp. unfold stored_body, stored_rows. rewrite <- list_fmap_compose, Z.sub_0_r. by rewrite list_fmap_id. }
  destruct (land_all_ok W arrived (blank <$> files) (fun i => from_option (fun f => content (mf_id f)) [] (files !! i)) (fun _ => [])) as (files' & E & Hall).
  { intros i g Hg. rewrite list_lookup_fmap in Hg. destruct (files !! i) as [f|] eqn:Hi; [| done]. injection Hg as <-. cbn [mf_id blank from_option].
    destruct (Hf f (list_elem_of_lookup_2 _ _ _ Hi)) as (_ & Hsz & Hz). split; [| by apply Hmine].
    split; cbn; [done | rewrite length_replicate, Hsz; unfold zlen; lia | by intros j []%not_elem_of_nil | done]. }
  exists files'. split; [done |]. apply Forall2_lookup. intros i. specialize (Hall i). rewrite list_lookup_fmap in Hall.
  destruct (files !! i) as [f|] eqn:Hi; inversion Hall as [? f' [Hs Hl] |]; subst; constructor. cbn [from_option] in Hl.
  destruct (Hmine i f Hi) as [_ Hp]. destruct (landed_whole _ _ _ Hl Hp) as [Hb Hfl]. split; [| done]. exact Hs.
Qed.

End Landing.

(** ** Scanning and delivering *)

Section Values.
Context `{ZL : ZstdLaws} (given : gmap Z bytes) (rows : list chunk_row).

Let content (f : Z) : bytes := files_of given f.

Definition cache_fits (c : option blockCache) : Prop :=
  match c with Some c => cache_good (fun _ => files_of given) c | None => True end.

(** A row of the statement and the value it stands for. *)
Definition row_value (o : object) (body : bytes) : Prop :=
  at_size (ob_attrs o) = zlen body /\ zlen body <= max_value /\
  (ob_inline_data o = Some (compressBlock body) \/ ob_inline_data o = None /\ exists f, ob_file_id o = Some f /\ file_holds given rows f body).

Definition file_value (f : readManyFile) : Prop :=
  file_stored rows (mf_id f) (content (mf_id f)) /\ mf_size f = zlen (content (mf_id f)) /\ mf_filled f = 0.

Record scanned (n : nat) (vals : list (nat * bytes)) (s : many_state) : Prop := {
  sd_length : length (ms_out s) = n;
  sd_cache : cache_fits (ms_cache s);
  sd_found : forall i b, (i, b) ∈ vals ->
    ms_out s !! i = Some (Some b) \/ exists f, f ∈ ms_files s /\ i ∈ mf_destinations f /\ content (mf_id f) = b;
  sd_files : forall f, f ∈ ms_files s -> file_value f /\ zlen (content (mf_id f)) <= max_value /\
    forall i, i ∈ mf_destinations f -> (i, content (mf_id f)) ∈ vals;
  sd_rest : forall i, (i < n)%nat -> i ∉ vals.*1 -> ms_out s !! i = Some None
}.

Lemma cached_fits c table f size b c' :
  cache_fits c -> size = zlen (content f) -> zlen (content f) <= max_value -> cachedFile c table f size = (b, c') ->
  cache_fits c' /\ match b with Some b => b = content f | None => True end.
Proof.
  intros Hc -> Hle E. destruct c as [c|]; [| by injection E as <- <-].
  destruct (cachedFile_content (fun _ => files_of given) c table f Hc Hle) as [_ H]. unfold content in E. rewrite E in H.
  destruct H as [(c1 & -> & Hg) Hb]. split; [done |]. destruct b; [by apply Hb | done].
Qed.

Lemma vals_app (vals : list (nat * bytes)) x i : i ∉ (vals ++ [x]).*1 <-> i ∉ vals.*1 /\ i <> x.1.
Proof. rewrite fmap_app. set_solver. Qed.

(** A value that is there at once. *)
Lemma scanned_now n vals s i b touch c :
  scanned n vals s -> (i < n)%nat -> i ∉ vals.*1 -> cache_fits c ->
  scanned n (vals ++ [(i, b)]) (mkMany (<[i := Some b]> (ms_out s)) touch (ms_files s) c).
Proof.
  intros [Hlen Hc Hfd Hfl Hr] Hi Hn Hc'. split; cbn.
  - by rewrite length_insert.
  - done.
  - intros j b' [Hj|Hj]%elem_of_app.
    + destruct (Hfd j b' Hj) as [Ho|Ho]; [left | by right]. rewrite list_lookup_insert_ne; [done |]. intros ->. apply Hn.
      apply list_elem_of_fmap. by exists (j, b').
    + apply list_elem_of_singleton in Hj as [= -> ->]. left. apply list_lookup_insert_eq. lia.
  - intros f Hf. destruct (Hfl f Hf) as (H1 & H2 & H3). split; [done |]. split; [done |]. set_solver.
  - intros j Hj [H1 H2]%vals_app. rewrite list_lookup_insert_ne by done. auto.
Qed.

Lemma scan_value n vals s keys table clock retention i o b :
  scanned n vals s -> (i < n)%nat -> i ∉ vals.*1 -> row_value o b ->
  exists s', scan_row keys table clock retention (i, o) s = Ok s' /\ scanned n (vals ++ [(i, b)]) s' /\
    ms_touch s' = ms_touch s ++ (if wants_touch clock retention o then option_list (keys !! i) else []).
Proof.
  intros Hs Hi Hn (Hsz & Hle & Hst). unfold scan_row. cbn zeta.
  set (touch := if wants_touch clock retention o then ms_touch s ++ option_list (keys !! i) else ms_touch s).
  assert (touch = ms_touch s ++ (if wants_touch clock retention o then option_list (keys !! i) else [])) as Ht
    by (unfold touch; destruct (wants_touch _ _ _); [done | by rewrite app_nil_r]).
  destruct Hst as [->|(-> & f & -> & Hg & Hf)].
  { rewrite Hsz, decompress_compress. eexists. split; [done |]. split; [by apply scanned_now; [.. | apply Hs] | done]. }
  assert (content f = b) as Hcf by (unfold content, files_of; by rewrite Hg).
  rewrite Hsz. destruct (Z.eqb_spec (zlen b) 0) as [Hz|Hz].
  { apply zlen_0_nil in Hz as ->. eexists. split; [done |]. split; [by apply scanned_now; [.. | apply Hs] | done]. }
  destruct (existsb _ _) eqn:Ex.
  - eexists. split; [done |]. split; [| done]. pose proof Hs as [Hlen Hc Hfd Hfl Hr]. apply existsb_exists in Ex as (g & Hg' & Eg%Z.eqb_eq).
    apply list_elem_of_In in Hg'. split; cbn; [done | done | | |].
    + intros j b' [Hj|Hj]%elem_of_app.
      * destruct (Hfd j b' Hj) as [Ho|(h & Hh & Hd & Hb)]; [by left |]. right. exists (add_destination f i h).
        split; [by apply list_elem_of_fmap_2 |]. unfold add_destination. destruct (_ =? _); cbn; [| done]. split; [set_solver | done].
      * apply list_elem_of_singleton in Hj as [= -> ->]. right. exists (add_destination f i g).
        split; [by apply list_elem_of_fmap_2 |]. unfold add_destination. rewrite Eg, Z.eqb_refl. cbn. split; [set_solver | done].
    + intros h (h0 & -> & Hh)%list_elem_of_fmap. destruct (Hfl h0 Hh) as (H1 & H2 & H3). unfold add_destination.
      destruct (Z.eqb_spec (mf_id h0) f) as [E|]; cbn; [| split; [done |]; split; [done |]; set_solver].
      split; [done |]. split; [done |]. intros j [Hj|Hj]%elem_of_app; [set_solver |]. apply list_elem_of_singleton in Hj as ->. rewrite E, Hcf. set_solver.
    + intros j Hj [H1 _]%vals_app. auto.
  - destruct (cachedFile _ _ _ _) as [[b'|] c'] eqn:Ec;
      (destruct (cached_fits (ms_cache s) table f (zlen b) _ c' (sd_cache _ _ _ Hs) ltac:(by rewrite Hcf) ltac:(by rewrite Hcf) Ec) as [Hc' Hb']).
    + rewrite Hcf in Hb'. subst b'. eexists. split; [done |]. split; [by apply scanned_now | done].
    + eexists. split; [done |]. split; [| done]. destruct Hs as [Hlen Hc Hfd Hfl Hr]. split; cbn; [done | done | | |].
      * intros j b' [Hj|Hj]%elem_of_app; [destruct (Hfd j b' Hj) as [Ho|(h & Hh & ?)]; [by left |]; right; exists h; set_solver |].
        apply list_elem_of_singleton in Hj as [= -> ->]. right. exists (mkManyFile table f (zlen b) [] 0 [i]). cbn. set_solver.
      * intros h [Hh|Hh]%elem_of_app; [destruct (Hfl h Hh) as (H1 & H2 & H3); split; [done |]; split; [done |]; set_solver |].
        apply list_elem_of_singleton in Hh as ->. unfold file_value. cbn. rewrite Hcf. split; [done |]. split; [done |]. set_solver.
      * intros j Hj [H1 _]%vals_app. auto.
Qed.

Definition touched (keys : list string) (clock retention : Z) (rs : list (nat * object)) : list string :=
  concat ((fun r => if wants_touch clock retention r.2 then option_list (keys !! r.1) else []) <$> rs).

Lemma scan_all n keys table clock retention rs vs vals s :
  scanned n vals s -> Forall2 (fun r v => r.1 = v.1 /\ row_value r.2 v.2) rs vs -> NoDup (vals ++ vs).*1 -> Forall (fun v => (v.1 < n)%nat) vs ->
  exists s', scan_rows keys table clock retention rs s = Ok s' /\ scanned n (vals ++ vs) s' /\
    ms_touch s' = ms_touch s ++ touched keys clock retention rs.
Proof.
  intros Hs Hrv. revert vals s Hs. induction Hrv as [|[i o] [i' b] rs vs [Hi Hv] _ IH]; intros vals s Hs Hnd Hn; cbn [scan_rows].
  - exists s. unfold touched. cbn. by rewrite !app_nil_r.
  - cbn in Hi, Hv. subst i'. apply Forall_cons in Hn as [Hlt Hn]. cbn in Hlt.
    assert (i ∉ vals.*1) as Hni by (rewrite fmap_app in Hnd; apply NoDup_app in Hnd as (_ & Hd & _); intros Hin; apply (Hd i Hin); cbn; set_solver).
    destruct (scan_value n vals s keys table clock retention i o b Hs Hlt Hni Hv) as (s1 & -> & Hs1 & Ht1). cbn [rbind].
    destruct (IH (vals ++ [(i, b)]) s1 Hs1) as (s2 & E & Hs2 & Ht2); [by rewrite <- app_assoc | done |].
    exists s2. split; [done |]. rewrite <- app_assoc in Hs2. split; [done |]. rewrite Ht2, Ht1, <- app_assoc. done.
Qed.

Lemma fold_set (dests : list nat) (v : option bytes) out i :
  fold_left (fun out idx => <[idx := v]> out) dests out !! i = if decide (i ∈ dests /\ (i < length out)%nat) then Some v else out !! i.
Proof.
  revert out. induction dests as [|j dests IH]; intros out; cbn [fold_left]; [rewrite decide_False; [done | by intros [[]%not_elem_of_nil _]] |].
  rewrite IH, length_insert. destruct (decide (i ∈ dests /\ _)) as [H|H]; [rewrite decide_True; [done | set_solver] |].
  destruct (decide (i = j)) as [->|Hne].
  - destruct (decide (j < length out)%nat); [rewrite list_lookup_insert_eq, decide_True by (done || set_solver); done |].
    rewrite decide_False by tauto. rewrite list_insert_ge by lia. done.
  - rewrite list_lookup_insert_ne, decide_False by (done || set_solver). done.
Qed.

Lemma fold_set_length (dests : list nat) (v : option bytes) out : length (fold_left (fun out idx => <[idx := v]> out) dests out) = length out.
Proof. revert out. induction dests as [|j dests IH]; intros out; cbn; [done |]. by rewrite IH, length_insert. Qed.

Lemma fits_cacheFile c table f :
  cache_fits c -> zlen (content f) <= max_value -> exists c', cacheFile c table f (content f) = Some c' /\ cache_fits c'.
Proof.
  intros Hc Hle. destruct c as [c|]; [| by exists None].
  destruct (cachedFile_content (fun _ => files_of given) c table f Hc Hle) as [(c' & E & Hg) _]. by exists (Some c').
Qed.

Lemma deliver_all (vals : list (nat * bytes)) files out c :
  NoDup vals.*1 -> cache_fits c ->
  (forall f, f ∈ files -> mf_filled f = mf_size f /\ mf_buf f = content (mf_id f) /\ zlen (content (mf_id f)) <= max_value /\
    forall i, i ∈ mf_destinations f -> (i, content (mf_id f)) ∈ vals) ->
  exists out' c', deliver_files files out c = Ok (out', c') /\ cache_fits c' /\ length out' = length out /\
    (forall i b, (i, b) ∈ vals -> (i < length out)%nat ->
      out !! i = Some (Some b) \/ (exists f, f ∈ files /\ i ∈ mf_destinations f) -> out' !! i = Some (Some b)) /\
    (forall i, i ∉ vals.*1 -> out' !! i = out !! i).
Proof.
  intros Hnd. assert (forall i b b', (i, b) ∈ vals -> (i, b') ∈ vals -> b = b') as Huniq.
  { intros i b b' H1 H2. apply list_elem_of_lookup in H1 as [p1 E1], H2 as [p2 E2].
    assert (p1 = p2) as -> by (eapply NoDup_lookup; [exact Hnd | by rewrite list_lookup_fmap, E1 | by rewrite list_lookup_fmap, E2]). congruence. }
  revert out c. induction files as [|f files IH]; intros out c Hc Hf; cbn [deliver_files].
  { exists out, c. split; [done |]. split; [done |]. split; [done |]. split; [| done]. intros i b _ _ [?|(f & []%not_elem_of_nil & _)]. done. }
  destruct (Hf f ltac:(left)) as (Hfl & Hb & Hle & Hd). rewrite Hfl, Z.eqb_refl. cbn [negb].
  rewrite Hb. destruct (fits_cacheFile c (mf_table f) (mf_id f) Hc Hle) as (c1 & -> & Hc1).
  set (out1 := fold_left _ _ out). assert (length out1 = length out) as Hlen by apply fold_set_length.
  destruct (IH out1 c1 Hc1) as (out' & c' & E & Hc' & Hlen' & Hin & Hout); [set_solver |].
  exists out', c'. split; [done |]. split; [done |]. split; [congruence |]. split.
  - intros i b Hi Hlt Hcase. apply Hin; [done | lia |]. destruct (decide (i ∈ mf_destinations f)) as [Hdi|Hdi].
    + left. unfold out1. rewrite fold_set, decide_True by done. by rewrite (Huniq i b _ Hi (Hd i Hdi)).
    + destruct Hcase as [Ho|(g & Hg & Hgi)]; [left; unfold out1; rewrite fold_set, decide_False by tauto; done |]. right. exists g. set_solver.
  - intros i Hi. rewrite (Hout i Hi). unfold out1. rewrite fold_set, decide_False; [done |]. intros [Hdi _]. apply Hi.
    apply list_elem_of_fmap. exists (i, content (mf_id f)). split; [done | by apply Hd].
Qed.

End Values.

(** ** Bulk reads return the values *)

Section Many.
Context `{ZL : ZstdLaws}.

(** The value of a key in a bulk read: nothing for a tombstone, an upload that
    is still owed, and an object in parts. *)
Definition many_value (now : Z) (a : spec) (key : string) : option bytes :=
  e ← attrs_where key (fun t => shows now t && not_pending t) a;
  match en_layout e with Manifest _ => None | _ => Some (en_body e) end.

Lemma row_selected k given d a now key :
  sim k given [] d a -> (forall o, db_objects d !! key = Some o -> at_size (ob_attrs o) <= max_value) ->
  match row_where key (many_row now) d with
  | Some o => exists b, many_value now a key = Some b /\ row_value given (db_chunks d) o b
  | None => many_value now a key = None
  end.
Proof.
  intros Hs Hle. unfold row_where, many_value, attrs_where. pose proof (sim_objects _ _ _ _ _ Hs key) as Hk.
  destruct (db_objects d !! key) as [o|], (s_objects a !! key) as [e|]; inversion Hk as [? ? Hoe|]; subst; cbn [mbind option_bind]; [| done].
  specialize (Hle o eq_refl). destruct Hoe as [Hat Hsz Hsh Hst]. rewrite Hsz in Hle. rewrite Hat. unfold many_row. destruct (shows now (ob_attrs o) && not_pending (ob_attrs o)); [| done].
  cbn [andb mbind option_bind]. destruct (en_layout e); cbn in Hst.
  - rewrite Hst. cbn. exists (en_body e). split; [done |]. split; [exact Hsz |]. split; [done |]. by left.
  - destruct Hst as (f & -> & Hf). cbn in *. exists (en_body e). split; [done |]. split; [exact Hsz |]. split; [done |]. right. eauto.
  - destruct Hst as (f & ps & -> & _). done.
Qed.

(** The rows of the statement with their values. *)
Fixpoint values_from (now : Z) (a : spec) (i : nat) (keys : list string) : list (nat * bytes) :=
  match keys with
  | [] => []
  | key :: rest =>
      match many_value now a key with
      | Some b => (i, b) :: values_from now a (S i) rest
      | None => values_from now a (S i) rest
      end
  end.

Lemma selected_values k given d a now i keys :
  sim k given [] d a -> (forall key o, key ∈ keys -> db_objects d !! key = Some o -> at_size (ob_attrs o) <= max_value) ->
  Forall2 (fun r v => r.1 = v.1 /\ row_value given (db_chunks d) r.2 v.2) (selected_from now d i keys) (values_from now a i keys).
Proof.
  intros Hs. revert i. induction keys as [|key keys IH]; intros i Hle; cbn [selected_from values_from]; [constructor |].
  pose proof (row_selected k given d a now key Hs (fun o => Hle key o ltac:(left))) as Hr.
  assert (forall key' o, key' ∈ keys -> db_objects d !! key' = Some o -> at_size (ob_attrs o) <= max_value) as Hle' by (intros; eapply Hle; [by right | done]).
  destruct (row_where key (many_row now) d) as [o|]; [| rewrite Hr; by apply IH].
  destruct Hr as (b & -> & Hv). constructor; [done | by apply IH].
Qed.

Lemma values_lookup now a i keys j b :
  (j, b) ∈ values_from now a i keys <-> exists n key, keys !! n = Some key /\ j = (i + n)%nat /\ many_value now a key = Some b.
Proof.
  revert i. induction keys as [|key keys IH]; intros i; cbn [values_from].
  - split; [by intros []%not_elem_of_nil | intros (n & key & ? & _)]. by rewrite lookup_nil in *.
  - assert ((j, b) ∈ values_from now a (S i) keys <-> exists n key', keys !! n = Some key' /\ j = (i + S n)%nat /\ many_value now a key' = Some b) as IH'.
    { rewrite IH. split; intros (n & key' & H1 & -> & H2); exists n, key'; (split; [done |]; split; [lia | done]). }
    destruct (many_value now a key) as [b'|] eqn:E; [rewrite elem_of_cons |]; rewrite IH'; split.
    + intros [[= -> ->]|(n & key' & H)]; [exists 0%nat, key; cbn; split; [done |]; split; [lia | done] | by exists (S n), key'].
    + intros ([|n] & key' & H1 & H2 & H3); [left; cbn in H1; f_equal; [lia | congruence] | right; by exists n, key'].
    + intros (n & key' & H). by exists (S n), key'.
    + intros ([|n] & key' & H1 & H2 & H3); [cbn in H1; congruence | by exists n, key'].
Qed.

Lemma values_NoDup now a i keys : NoDup (values_from now a i keys).*1 /\ Forall (fun j => (i <= j < i + length keys)%nat) (values_from now a i keys).*1.
Proof.
  revert i. induction keys as [|key keys IH]; intros i; cbn [values_from length]; [by split; constructor |]. destruct (IH (S i)) as [H1 H2].
  assert (Forall (fun j => (i <= j < i + S (length keys))%nat) (values_from now a (S i) keys).*1) as H3 by (eapply Forall_impl; [exact H2 | cbn; lia]).
  destruct (many_value now a key); [| done]. cbn. split; [constructor; [| done] | constructor; [lia | done]].
  intros Hin. rewrite Forall_forall in H2. specialize (H2 i Hin). cbn in H2. lia.
Qed.

Lemma bulk_read k given d a now keys table clock retention workers rws arrived c :
  sim k given [] d a -> (forall key o, key ∈ keys -> db_objects d !! key = Some o -> at_size (ob_attrs o) <= max_value) ->
  (0 < workers)%nat -> rws ≡ₚ selected now d keys -> cache_fits given c ->
  (forall s, scan_rows keys table clock retention rws (mkMany (replicate (length keys) None) [] [] c) = Ok s ->
    arrives (db_chunks d) workers (ms_files s) arrived) ->
  exists touch c', ReadManyWithTouch table clock retention workers keys rws arrived c = Ok (many_value now a <$> keys, touch, c') /\
    touch ≡ₚ touched keys clock retention (selected now d keys) /\ cache_fits given c'.
Proof.
  intros Hs Hle Hw Hrws Hc Harr. unfold ReadManyWithTouch. destruct keys as [|key0 keys0] eqn:Ek.
  { exists [], c. split; [done |]. split; [done | done]. }
  rewrite <- Ek in *. clear key0 keys0 Ek. unfold selected in *.
  pose proof (selected_values k given d a now 0 keys Hs Hle) as Hsv. destruct (values_NoDup now a 0 keys) as [Hnd Hlt].
  destruct (Permutation_Forall2 (Permutation_sym Hrws) Hsv) as (vs & Hvs & Hrv). rewrite Hvs in Hnd, Hlt.
  destruct (scan_all given (db_chunks d) (length keys) keys table clock retention rws vs [] (mkMany (replicate (length keys) None) [] [] c)) as (s & E & Hsc & Ht);
    [| done | done | by apply Forall_fmap in Hlt; eapply Forall_impl; [exact Hlt |]; cbn; lia |].
  { split; cbn; [apply length_replicate | done | by intros ? ? []%not_elem_of_nil | by intros ? []%not_elem_of_nil | intros; by apply lookup_replicate_2]. }
  cbn [app ms_touch] in Hsc, Ht. specialize (Harr s E). rewrite E. cbn [rbind].
  destruct Hsc as [Hlen Hc1 Hfd Hfl Hr].
  destruct (fetch_whole (db_chunks d) workers arrived (ms_files s) (files_of given) Harr Hw) as (files' & -> & Hfs); [intros f Hf; apply (Hfl f Hf) |]. cbn [rbind].
  destruct (deliver_all given vs files' (ms_out s) (ms_cache s) Hnd Hc1) as (out & c' & -> & Hc' & Hlo & Hin & Hout).
  { intros f' (i & Hi)%list_elem_of_lookup. pose proof (Forall2_lookup_r _ _ _ _ _ Hfs Hi) as (f & Hf & (_ & Hid & _ & Hd) & Hb & Hfil).
    destruct (Hfl f (list_elem_of_lookup_2 _ _ _ Hf)) as (_ & Hz & Hdest). rewrite Hid, Hd. done. }
  cbn [rbind]. exists (ms_touch s), c'. split; [| split; [| done]].
  - do 2 f_equal. f_equal. apply list_eq. intros i. rewrite list_lookup_fmap. destruct (keys !! i) as [key|] eqn:Hi.
    + apply lookup_lt_Some in Hi as Hlti. cbn. destruct (many_value now a key) as [b|] eqn:Hb.
      * assert ((i, b) ∈ vs) as Hib by (rewrite <- Hvs; apply values_lookup; exists i, key; by split).
        apply Hin; [done | lia |]. destruct (Hfd i b Hib) as [?|(f & (n & Hf)%list_elem_of_lookup & Hdi & _)]; [by left | right].
        pose proof (Forall2_lookup_l _ _ _ _ _ Hfs Hf) as (f' & Hf' & (_ & _ & _ & Hd) & _). exists f'. split; [by eapply list_elem_of_lookup_2 | by rewrite Hd].
      * assert (i ∉ vs.*1) as Hni; [| rewrite Hout by done; by apply Hr].
        rewrite <- Hvs. intros ([j b] & -> & Hj)%list_elem_of_fmap. apply values_lookup in Hj as (n & key' & Hn & -> & Hv). cbn in Hi. congruence.
    + apply lookup_ge_None in Hi. apply lookup_ge_None_2. lia.
  - rewrite Ht. unfold touched. by rewrite Hrws.
Qed.

Context `{D : Digests}.

(** C19: bulk reads return the values of their keys.  After any run there is a
    content for every file such that, with a block cache that holds nothing
    but blocks of these contents or with none, in whatever order the rows of the
    two statements arrive at whatever number of workers, [ReadMany] returns for
    every key the whole value, or nothing for a key that is expired, deleted,
    owed to the origin or in parts; the cache stays right, and the keys to touch
    are those whose expiry is near. *)
Theorem read_many ops name : exists z given, spec_run ops empty_world (exec_run ops new_system).1 z /\
  let d := db_of (exec_run ops new_system).2 (CacheRef name) in let a := spec_of z (CacheRef name) in
  forall now keys table clock retention workers rws arrived c,
    (forall key o, key ∈ keys -> db_objects d !! key = Some o -> at_size (ob_attrs o) <= max_value) ->
    (0 < workers)%nat -> rws ≡ₚ selected now d keys -> cache_fits given c ->
    (forall s, scan_rows keys table clock retention rws (mkMany (replicate (length keys) None) [] [] c) = Ok s ->
      arrives (db_chunks d) workers (ms_files s) arrived) ->
    exists touch c', ReadManyWithTouch table clock retention workers keys rws arrived c = Ok (many_value now a <$> keys, touch, c') /\
      touch ≡ₚ touched keys clock retention (selected now d keys) /\ cache_fits given c'.
Proof.
  destruct (run_sim ops) as (z & given & Hrun & Hs). exists z, given. split; [done |]. intros d a now keys table clock retention workers rws arrived c.
  eapply bulk_read, Hs.
Qed.

End Many.

(** ** A run *)

Section Sample.
#[local] Existing Instance toy_digests.

Definition many_run : list (context * Operation) :=
  [ (cache_context 1, WriteOp 0 (seqZ 1 64) "a" hello [] sample_opts); counter_put 2 5 ].

Definition many_db : db := db_of (exec_run many_run new_system).2 (CacheRef "c").
Definition many_keys : list string := ["hits"; "none"; "a"; "hits"].
Definition many_rows : list (nat * object) := rev (selected 3 many_db many_keys).
Definition many_arrived : list (nat * chunk_row) := (fun r => (0%nat, r)) <$> rev (db_chunks many_db).

Definition many_out := ReadManyWithTouch 7 3000 0 4 many_keys many_rows many_arrived None.

Lemma read_many_witness :
  (exists touch c', many_out = Ok ([Some (format_bytes 5); None; Some (concat hello); Some (format_bytes 5)], touch, c')) /\
  exists z touch c', spec_run many_run empty_world (exec_run many_run new_system).1 z /\
    many_out = Ok (many_value 3 (spec_of z (CacheRef "c")) <$> many_keys, touch, c').
Proof.
  split; [vm_compute; by eexists _, _ |].
  destruct (read_many many_run "c") as (z & given & Hrun & Hz). exists z.
  destruct (Hz 3 many_keys 7 3000 0 4%nat many_rows many_arrived None) as (touch & c' & E & _).
  - assert (map_Forall (fun _ o => at_size (ob_attrs o) <= max_value) (db_objects many_db)) as Hm.
    { apply (bool_decide_unpack _). vm_compute. exact I. }
    intros key o _ Ho. exact (Hm key o Ho).
  - lia.
  - apply Permutation_sym, Permutation_rev.
  - exact I.
  - intros s Es. vm_compute in Es. injection Es as <-. intros [|w]; [vm_compute; reflexivity |]. vm_compute. reflexivity.
  - exists touch, c'. split; [exact Hrun | exact E].
Defined.

End Sample.
