(* ===== verification/Outbox.v ===== *)
(** * The outbox of a write-back cache

    Objects written back to an origin are published with a token as their
    version, and the upload that is owed is a row of [s3p.pending_uploads] with
    the same token.  Whatever else happens, an object that shows a token keeps
    its row, and the row is offered to the uploaders until it is dead. *)

From stdpp Require Import gmap sorting.
From S2P Require Import Prelude GoStrings Ns Ranges Precond Blocks Ids Tables Objects CacheTables ObjectSpec CacheSpec Machine ObjectRep ObjectRefine CacheRefine ObjectRead ObjectComplete ObjectStore Names CacheValues.

(** ** Objects and the rows of their uploads *)

Definition is_pending (v : string) : bool := IsPending (ParseCacheVersion v).

Definition pending_at (a : spec) (key v : string) : Prop :=
  exists e, s_objects a !! key = Some e /\ at_origin_etag (en_attrs e) = Some v /\ is_pending v = true.

Definition queued (m : pendings) (key v : string) : Prop := pu_token <$> m !! key = Some v.

Definition outbox (a : spec) : Prop := forall key v, pending_at a key v -> queued (s_pending a) key v.

(** Steps that add no pending object and forget no row. *)
Record calm (a a' : spec) : Prop := {
  cm_tokens : forall key v, queued (s_pending a) key v -> queued (s_pending a') key v;
  cm_objects : forall key v, pending_at a' key v -> pending_at a key v
}.

Lemma calm_refl a : calm a a.
Proof. by split. Qed.

#[local] Hint Resolve calm_refl : core.

Lemma calm_trans a b c : calm a b -> calm b c -> calm a c.
Proof. intros [] []. split; eauto. Qed.

Lemma calm_outbox a a' : calm a a' -> outbox a -> outbox a'.
Proof. intros [Ht Ho] Ha key v Hp. apply Ht, Ha, Ho, Hp. Qed.

Lemma calm_same a a' : s_objects a' = s_objects a -> s_pending a' = s_pending a -> calm a a'.
Proof. intros Ho Hp. split; [by rewrite Hp |]. unfold pending_at. by rewrite Ho. Qed.

Lemma calm_fewer a m : (forall key e, m !! key = Some e -> s_objects a !! key = Some e) -> calm a (sset_objects a m).
Proof. intros Hm. split; [done |]. intros key v (e & He & Hv). exists e. split; [by apply Hm | done]. Qed.

Lemma calm_delete keys a : calm a (spec_delete keys a).
Proof. apply calm_fewer. by intros key e [He _]%map_lookup_filter_Some. Qed.

(** The version of what is written: that of the row it replaces, or one that is
    not pending. *)
Definition tame (a : spec) (key : string) (t : attrs) : Prop :=
  at_origin_etag t = (old_attrs key a ≫= at_origin_etag) \/ forall v, at_origin_etag t = Some v -> is_pending v = false.

Lemma calm_insert a key e : tame a key (en_attrs e) -> calm a (sset_objects a (<[key := e]> (s_objects a))).
Proof.
  intros Ht. split; [done |]. intros key' v (e' & He' & Hv & Hp). cbn in He'.
  apply lookup_insert_Some in He' as [[<- <-]|[_ He']]; [| by exists e'].
  destruct Ht as [Ht|Ht]; [| by rewrite (Ht v Hv) in Hp].
  unfold old_attrs in Ht. rewrite Hv in Ht. destruct (s_objects a !! key) as [e0|] eqn:E; [| done]. by exists e0.
Qed.

Lemma calm_alter f key a :
  (forall t, at_origin_etag (f t) = at_origin_etag t \/ forall v, at_origin_etag (f t) = Some v -> is_pending v = false) ->
  calm a (spec_alter f key a).
Proof.
  intros Hf. split; [done |]. intros key' v (e' & He' & Hv & Hp). cbn in He'.
  apply lookup_alter_Some in He' as [(<- & e0 & He0 & ->)|[_ He']]; [| by exists e'].
  cbn in Hv. destruct (Hf (en_attrs e0)) as [E|E]; [| by rewrite (E v Hv) in Hp]. exists e0. rewrite <- E. done.
Qed.

Lemma calm_pending a m : (forall key v, queued (s_pending a) key v -> queued m key v) -> calm a (sset_pending a m).
Proof. intros Hm. by split. Qed.

Lemma calm_delete_upload id a : calm a (spec_delete_upload id a).
Proof. by apply calm_same. Qed.

(** ** Rows keep their tokens *)

Definition tokens (m : pendings) : gmap string string := pu_token <$> m.

Lemma tokens_queued m m' : tokens m' = tokens m -> forall key v, queued m key v -> queued m' key v.
Proof. intros E key v. unfold queued. rewrite <- !lookup_fmap. fold (tokens m) (tokens m'). by rewrite E. Qed.

Lemma tokens_insert m key p : queued m key (pu_token p) -> tokens (<[key := p]> m) = tokens m.
Proof. intros Hq. unfold tokens. rewrite fmap_insert. apply insert_id. by rewrite lookup_fmap. Qed.

Lemma due_lookup now limit locked m kv : kv ∈ due_uploads now limit locked m -> m !! kv.1 = Some kv.2.
Proof.
  destruct kv as [key p]. unfold due_uploads. intros (i & Hi & _)%elem_of_take. apply list_elem_of_lookup_2 in Hi.
  apply list_elem_of_In, filter_In in Hi as [Hi _]. apply list_elem_of_In in Hi. rewrite merge_sort_Permutation in Hi.
  apply list_elem_of_In, filter_In in Hi as [Hi _]. by apply list_elem_of_In, elem_of_map_to_list in Hi.
Qed.

Lemma tokens_claim now owner limit lease locked m : tokens (claim_uploads now owner limit lease locked m).2 = tokens m.
Proof.
  unfold claim_uploads. cbn [snd]. pose proof (due_lookup now limit locked m) as Hdue. revert Hdue. generalize (due_uploads now limit locked m).
  assert (forall l m', tokens m' = tokens m -> (forall kv, kv ∈ l -> m !! kv.1 = Some kv.2) ->
    tokens (fold_left (fun m kv => <[kv.1 := kv.2]> m) ((fun kv => (kv.1, set_lease kv.2 (Some owner) (Some (now + lease)))) <$> l) m') = tokens m) as H;
    [| intros l; by apply H].
  induction l as [|kv l IH]; intros m' Hm Hl; cbn [fmap list_fmap fold_left fst snd]; [done |]. apply IH; [| set_solver].
  rewrite tokens_insert; [done |]. apply (tokens_queued m); [done |]. unfold queued. rewrite (Hl kv); [done | left].
Qed.

Lemma tokens_fail now key token owner attempt cause permanent m m' :
  fail_pending now key token owner attempt cause permanent m = Some m' -> tokens m' = tokens m.
Proof.
  unfold fail_pending. destruct (negb _); [done |]. destruct (m !! key) as [p|] eqn:E; [| by intros [= <-]].
  destruct (_ && _); [| by intros [= <-]]. destruct (_ <? _); [done |]. intros [= <-]. apply tokens_insert. unfold queued. by rewrite E.
Qed.

Lemma tokens_revived now m : tokens (revived_upload now <$> m) = tokens m.
Proof. unfold tokens. rewrite <- map_fmap_compose. apply map_fmap_ext. intros key p _. unfold revived_upload. cbn. by destruct (pu_dead p). Qed.

(** ** Operations that are calm *)

Section Operations.
Context `{D : Digests}.

Lemma ends_self {S A} (c : txn S A) (d : S) : ends (fun x d' => c d = Ok (x, d')) (c d).
Proof. unfold ends. by destruct (c d) as [[]|]. Qed.

Abbreviation calmly a := (ends (fun _ => calm a)).

Lemma calm_then {A} a a' (r : result store_error (A * spec)) : calm a a' -> calmly a' r -> calmly a r.
Proof. intros Hc. destruct r as [[]|]; [| done]. by apply calm_trans. Qed.

Lemma calmly_bind {A B} a (c : stx A) (f : A -> stx B) : calmly a (c a) -> (forall x a', calmly a' (f x a')) -> calmly a ((c ≫= f) a).
Proof. intros Hc Hf. eapply ends_bind; [exact Hc |]. intros x a' Ha'. apply (calm_then a a'); auto. Qed.

Lemma calmly_reply {A} (f : A -> reply) (c : stx A) a : calmly a (c a) -> calmly a (reply_of f c a).
Proof. intros Hc. apply calmly_bind; [done |]. intros x a'. apply calm_refl. Qed.

Lemma calmly_put k key e a : tame a key (en_attrs e) -> calmly a (put_entity k key e a).
Proof. intros Ht. unfold put_entity. apply ends_require. intros _. by apply calm_insert. Qed.

Lemma calmly_outcome (r : outcome) a : calmly a (outcome_error r a).
Proof. destruct r; cbn; auto. Qed.

Lemma upsert_origin now keep old t : at_origin_etag (upsert_attrs now keep old t) = at_origin_etag t.
Proof. unfold upsert_attrs. destruct old; [| done]. by destruct (_ && _). Qed.

Lemma calmly_publish k now p body l a :
  (forall v, p_origin_etag p = Some v -> is_pending v = false) -> calmly a (spec_publish k now p body l a).
Proof.
  intros Hp. unfold spec_publish. apply ends_tables. destruct (match sm_fill _ with Some _ => _ | None => _ end); [done |].
  destruct (publish_check _ _ _); try done. destruct (upsert_applies _ _); [| done]. apply (calmly_bind a); [apply calmly_put |].
  - right. intros v. cbn. rewrite upsert_origin. cbn. apply Hp.
  - intros _ a'. by apply calm_same.
Qed.

Lemma live_calm v : IsLive v = true -> IsPending v = false.
Proof. unfold IsLive, IsPending. by destruct (cv_State v). Qed.

Lemma deleted_calm v : IsDeleted v = true -> IsPending v = false.
Proof. unfold IsDeleted, IsPending. by destruct (cv_State v). Qed.

(** What [prepareWrite] lets through shows no token, unless it is published as
    a pending upload. *)
Lemma prepare_tame s ref opts inline o :
  prepareWrite s ref opts inline = Ok o -> pb_kind (wo_Publication opts) <> publicationPending \/ inline = true ->
  is_pending (pb_origin (wo_Publication o)) = false /\ pb_kind (wo_Publication o) <> publicationPending.
Proof.
  unfold prepareWrite, is_pending. destruct (validateLock opts ref); [cbn [rbind] | done]. destruct (match wo_lock opts with Some _ => _ | None => _ end); [done |].
  destruct (pb_kind (wo_Publication opts)) eqn:Ek; [destruct (negb _) eqn:E | destruct (_ || _) eqn:E | destruct (_ || _) eqn:E | destruct (_ || _) eqn:E];
    try done; intros [= <-] Hk; try (rewrite Ek; split; [| done]).
  - apply live_calm. by destruct (IsLive _).
  - apply live_calm. apply orb_false_iff in E as [E _]. apply orb_false_iff in E as [E _]. apply orb_false_iff in E as [_ E]. by destruct (IsLive _).
  - by destruct Hk as [|Hk]; [| rewrite Hk in E].
  - apply orb_false_iff in E as [E _]. apply orb_false_iff in E as [_ E]. apply deleted_calm. by destruct (IsDeleted _).
Qed.

Lemma calmly_put_inline k s over now ref data opts a : calmly a (spec_put_inline k s over now ref data opts a).
Proof.
  unfold spec_put_inline. apply ends_result. intros o Ho. do 2 (apply ends_require; intros _).
  destruct (prepare_tame _ _ _ _ _ Ho) as [Hp _]; [by right |].
  apply (calmly_bind a); [apply calmly_publish; by intros v [= <-] |]. intros r a'. apply calmly_bind; [apply calmly_outcome | intros; apply calm_refl].
Qed.

Lemma verify_publication o cs size o' : verify_object o cs size = Ok o' -> wo_Publication o' = wo_Publication o.
Proof.
  unfold verify_object. destruct (_ && _); [done |]. destruct (wo_Checksum o); [by intros [= <-] |].
  by destruct (FirstObjectChecksum cs); intros [= <-].
Qed.

Lemma calmly_write k s over now ref data cs opts a :
  pb_kind (wo_Publication opts) <> publicationPending -> calmly a (spec_write k s over now ref data cs opts a).
Proof.
  intros Hk. unfold spec_write. apply ends_result. intros o Ho. do 2 (apply ends_require; intros _). apply ends_result. intros o' Ho'%verify_publication.
  destruct (prepare_tame _ _ _ _ _ Ho) as [Hp Hn]; [by left |]. cbn in Ho'. apply (calmly_bind a).
  - unfold spec_publish_object. apply ends_result. intros _ _. apply (calmly_bind a); [| intros; apply calmly_outcome].
    apply calmly_publish. intros v [= <-]. by rewrite Ho'.
  - intros _ a'. apply calmly_bind; [| intros; apply calm_refl]. unfold spec_pending_origin. rewrite Ho'. by destruct (pb_kind (wo_Publication o)); cbn; auto.
Qed.

Lemma calmly_find_upload {A} (f : upload -> stx A) id key a :
  (forall u, calmly a (f u a)) -> calmly a ((spec_find_upload id key ≫= f) a).
Proof.
  intros Hf. unfold spec_find_upload. eapply (ends_bind (fun _ a' => a' = a)); [| intros u a' ->; apply Hf].
  apply ends_tables. destruct (s_uploads a !! id); [| done]. by apply ends_require.
Qed.

Lemma calmly_put_part {A} id no q (f : stx A) a : (forall a', calmly a' (f a')) -> calmly a ((spec_put_part id no q;; f) a).
Proof. intros Hf. apply calmly_bind; [| auto]. unfold spec_put_part. apply ends_require. intros _. by apply calm_same. Qed.

Lemma calmly_swap k s ref opts pl etag meta ct a : calmly a (spec_swap k s ref opts pl etag meta ct a).
Proof.
  unfold spec_swap. apply ends_require. intros _. apply ends_tables. apply ends_require. intros _. apply calmly_put. by left.
Qed.

Lemma calmly_complete k s over now ref id listed opts a : calmly a (spec_complete k s over now ref id listed opts no_pending_upload a).
Proof.
  unfold spec_complete. apply ends_result. intros o _. apply calmly_find_upload. intros u. apply ends_result. intros _ _. apply ends_tables.
  apply ends_result. intros pl _. apply ends_require. intros _. apply (calmly_bind a); [| intros; apply calm_refl].
  unfold spec_apply. apply (calmly_bind a); [apply calmly_swap |]. intros _ a'. apply calmly_bind; [apply calm_refl |].
  intros _ a''. apply calm_delete_upload.
Qed.

Lemma calmly_copy k over now sa srcKey dstKey opts a : calmly a (spec_copy_from k over now sa srcKey dstKey opts a).
Proof.
  unfold spec_copy_from. apply ends_result. intros e _. unfold spec_put_copy. apply ends_require. intros _. apply ends_tables.
  apply ends_require. intros _. apply calmly_put. by left.
Qed.

Lemma calmly_copy_part now id dstKey srcKey no a : calmly a (spec_copy_part now id dstKey srcKey no a).
Proof.
  unfold spec_copy_part. apply ends_tables. destruct (s_objects a !! srcKey) as [e|]; [| done]. cbn zeta. destruct (negb _); [done |].
  destruct (en_layout e); [apply calm_refl | | apply calm_refl]. destruct (etagMD5 _); [| apply calm_refl]. destruct (_ <=? _); [apply calm_refl |].
  apply calmly_find_upload. intros u.
  destruct (up_checksum_algorithm u) as [alg|]; [destruct (bool_decide _); [| apply calm_refl] |]; apply calmly_put_part; intros; apply calm_refl.
Qed.

Lemma calm_expire_loop n now grace locked removed a : calm a (spec_expire_loop now n grace locked removed a).2.
Proof.
  revert removed a. induction n as [|n IH]; intros removed a; cbn [spec_expire_loop]; [apply calm_refl |].
  destruct (victim_upload _ _ _ _); [| apply calm_refl]. eapply calm_trans; [apply calm_delete_upload | apply IH].
Qed.

Lemma calm_touch now retention keys a : calm a (fold_left (fun a key => spec_alter (touch_attrs now retention) key a) keys a).
Proof.
  revert a. induction keys as [|key keys IH]; intros a; cbn [fold_left]; [apply calm_refl |]. eapply calm_trans; [| apply IH].
  apply calm_alter. intros t. left. unfold touch_attrs. by destruct (at_expires_at t).
Qed.

Lemma calmly_put_batch k now batch a : calmly a (spec_put_batch k now batch a).
Proof.
  revert a. induction batch as [|[key v] batch IH]; intros a; cbn [spec_put_batch]; [apply calm_refl |]. apply ends_require. intros _.
  apply (calmly_bind a); [| intros _ a'; apply IH]. apply calmly_put. by right.
Qed.

(** ** What is calm *)

Definition calm_cache (o : cache_operation) : bool :=
  match o with
  | CommittedOp _ _ _ _ _ | AbandonOp _ _ | ClearOp _ | ClearBeforeOp _ _ | ClearTokenOp _ _ => false
  | _ => true
  end.

Definition calm_op (o : Operation) : bool :=
  match o with
  | WriteOp _ _ _ _ _ opts => match pb_kind (wo_Publication opts) with publicationPending => false | _ => true end
  | CompletePendingOp _ _ _ _ _ => false
  | CacheOp o => calm_cache o
  | _ => true
  end.

Lemma calmly_cache c b o a : calm_cache o = true -> calmly a (cache_spec c b o a).
Proof.
  intros Ho. destruct o; try discriminate Ho; apply calmly_reply.
  - unfold spec_get_del. apply ends_tables. destruct (attrs_where _ _ _) as [e|]; [| apply calm_refl].
    apply (ends_bind (fun _ a' => a' = a)); [destruct (not_expired _ _); [by apply ends_require | done] |]. intros v a' ->. apply (calm_delete [key]).
  - unfold spec_delete_expected. apply ends_tables. destruct (attrs_where _ _ _); [apply (calm_delete [key]) | apply calm_refl].
  - unfold spec_expire. apply ends_tables. destruct (attrs_where _ _ _); [| apply calm_refl]. apply (calm_alter (fun t => with_expires t expiresAt)). by left.
  - apply calm_touch.
  - unfold spec_mset. destruct kvs; [apply calm_refl |]. apply ends_require. intros _. apply calmly_put_batch.
  - unfold spec_flush. apply ends_tables. apply ends_require. intros _. cbn. by split; [done |]; intros key v (e & He & _).
  - unfold spec_acquire. apply ends_tables. destruct (acquire_lease _ _ _ _ _). by apply calm_same.
  - by apply calm_same.
  - unfold spec_renew. apply ends_tables. destruct (renew_lease _ _ _ _). by apply calm_same.
  - by apply calm_same.
  - unfold spec_claim. apply ends_tables. destruct (claim_uploads _ _ _ _ _ _) as [l m] eqn:E. apply calm_pending, tokens_queued.
    pose proof (tokens_claim (cx_now c) owner limit lease locked (s_pending a)) as H. by rewrite E in H.
  - unfold spec_fail. apply ends_tables. destruct (fail_pending _ _ _ _ _ _ _ _) eqn:E; [| done]. apply calm_pending, tokens_queued. by eapply tokens_fail.
  - apply calm_pending, tokens_queued, tokens_revived.
  - by apply calm_same.
  - by apply calm_same.
  - unfold spec_retire. destruct observed; [| done]. apply ends_require. intros _. apply ends_tables.
    destruct (attrs_where _ _ _); [apply (calm_delete [key]) | apply calm_refl].
  - apply (calm_alter (touched_object (cx_now c) retention)). by left.
Qed.

Lemma calmly_op c b specs o : calm_op o = true -> calmly (specs (cx_ns c)) (spec_tx c b specs o (specs (cx_ns c))).
Proof.
  intros Ho. set (a := specs (cx_ns c)). destruct o; try discriminate Ho; cbn [spec_tx]; try (apply calmly_reply).
  - apply calmly_put_inline.
  - apply calmly_write. cbn in Ho. by destruct (pb_kind _).
  - unfold spec_create. apply ends_tables. do 2 (apply ends_require; intros _). by apply calm_same.
  - unfold spec_write_part. apply ends_require. intros _. apply calmly_find_upload. intros u. apply ends_require. intros _. apply ends_result. intros c' _.
    apply calmly_put_part. intros a'. apply calm_refl.
  - apply calmly_complete.
  - unfold spec_abort. apply ends_tables. destruct (s_uploads _ !! id) as [u|]; [| apply calm_refl]. destruct (bool_decide _); [apply calm_delete_upload | apply calm_refl].
  - unfold spec_delete_many. destruct keys; [apply calm_refl | apply (calm_delete (_ :: _))].
  - apply calm_delete.
  - apply ends_require. intros _. apply calmly_reply, calmly_copy.
  - apply calmly_copy_part.
  - unfold spec_expire_objects. apply ends_tables. apply ends_update. eapply calm_trans; [| apply calm_delete]. by apply calm_same.
  - unfold spec_expire_uploads. pose proof (calm_expire_loop (Z.to_nat p_max) (cx_now c) grace locked 0 a) as H.
    destruct (spec_expire_loop _ _ _ _ _ _). exact H.
  - apply calm_refl.
  - apply calm_refl.
  - by apply calmly_cache.
Qed.

(** ** Uploads that are owed and settled *)

Lemma outbox_row key a a' :
  outbox a -> (forall key', key' <> key -> s_objects a' !! key' = s_objects a !! key' /\ s_pending a' !! key' = s_pending a !! key') ->
  (forall v, pending_at a' key v -> queued (s_pending a') key v) -> outbox a'.
Proof.
  intros Ha Hne Hkey key' v Hp. destruct (decide (key' = key)) as [->|Hk]; [by apply Hkey |]. destruct (Hne key' Hk) as [Ho Hq].
  unfold pending_at in Hp. rewrite Ho in Hp. unfold queued. rewrite Hq. by apply Ha.
Qed.

Lemma outbox_write k s over now ref data cs opts a :
  outbox a -> pb_kind (wo_Publication opts) = publicationPending -> pb_origin (wo_Publication opts) = po_Token (pb_pending (wo_Publication opts)) ->
  ends (fun _ => outbox) (spec_write k s over now ref data cs opts a).
Proof.
  intros Ha Hk Ht. unfold spec_write. apply ends_result. intros o Ho. do 2 (apply ends_require; intros _). apply ends_result. intros o' Ho'%verify_publication.
  assert (wo_Publication o = wo_Publication opts) as Hpub.
  { revert Ho. unfold prepareWrite. destruct (validateLock opts ref); [cbn [rbind] | done].
    destruct (match wo_lock opts with Some _ => _ | None => _ end); [done |]. rewrite Hk. destruct (_ || _); [done |]. by intros [= <-]. }
  cbn in Ho'. rewrite Hpub in Ho'. clear Ho Hpub.
  eapply (ends_bind (fun _ a' => exists e m, at_origin_etag (en_attrs e) = Some (po_Token (pb_pending (wo_Publication opts))) /\
    a' = sset_origin (sset_objects a (<[or_key ref := e]> (s_objects a))) m)).
  - unfold spec_publish_object. apply ends_result. intros _ _. eapply ends_bind; [apply ends_self |]. intros r a1 Hp.
    destruct r; [| done | done]. apply spec_publish_ok in Hp as [_ ->]. cbn zeta. eexists _, _. split; [| done].
    cbn. rewrite upsert_origin. cbn. by rewrite Ho', Ht.
  - intros _ a' (e & m & He & ->). eapply (ends_bind (fun _ => outbox)); [| done]. unfold spec_pending_origin. rewrite Ho', Hk. cbn.
    apply (outbox_row (or_key ref) a); [done | intros key' Hne; cbn; by rewrite !lookup_insert_ne |].
    intros v (e' & He' & Hv & _). cbn in He'. rewrite lookup_insert_eq in He'. injection He' as <-. unfold queued. cbn.
    rewrite lookup_insert_eq. cbn. congruence.
Qed.

Lemma outbox_complete k s over now ref id listed opts pc a :
  outbox a -> ends (fun _ => outbox) (spec_complete_pending k s over now ref id listed opts pc a).
Proof.
  intros Ha. unfold spec_complete_pending. apply ends_require. intros _. unfold spec_complete. apply ends_result. intros o _.
  eapply (ends_bind (fun _ a' => a' = a)).
  { unfold spec_find_upload. apply ends_tables. destruct (s_uploads a !! id); [| done]. by apply ends_require. }
  intros u a' ->. apply ends_result. intros _ _. apply ends_tables. apply ends_result. intros pl _. apply ends_require. intros _.
  eapply (ends_bind (fun _ => outbox)); [| done]. unfold spec_apply.
  eapply (ends_bind (fun _ a' => exists e, a' = sset_objects a (<[or_key ref := e]> (s_objects a)))).
  - unfold spec_swap. apply ends_require. intros _. apply ends_tables. apply ends_require. intros _. unfold put_entity. apply ends_require. intros _.
    cbn. eauto.
  - intros _ a' (e & ->). rewrite bool_decide_true by done. cbn. apply (outbox_row (or_key ref) a); [done | |].
    + intros key' Hne. cbn. by rewrite lookup_alter_ne, !lookup_insert_ne by done.
    + intros v (e' & He' & Hv & _). cbn in He'. rewrite lookup_alter_eq, lookup_insert_eq in He'. injection He' as <-. unfold queued. cbn.
      rewrite lookup_insert_eq. cbn in *. congruence.
Qed.

Lemma drop_token_ne key token key' m : key' <> key -> drop_token key token m !! key' = m !! key'.
Proof. intros Hne. unfold drop_token. destruct (holds_token _ _ _); [by rewrite lookup_delete_ne | done]. Qed.

Lemma drop_token_other key token m v : v <> token -> queued m key v -> queued (drop_token key token m) key v.
Proof.
  unfold queued, drop_token, holds_token. intros Hne. destruct (m !! key) as [p|] eqn:E; [| done]. cbn. intros [= <-].
  rewrite bool_decide_false by done. by rewrite E.
Qed.

(** After an upload is settled the object, if it still is there, shows another
    version. *)
Lemma outbox_settled key token m a :
  outbox a -> (forall v, (exists e, m !! key = Some e /\ at_origin_etag (en_attrs e) = Some v /\ is_pending v = true) ->
    v <> token /\ pending_at a key v) ->
  (forall key', key' <> key -> m !! key' = s_objects a !! key') ->
  outbox (sset_pending (sset_objects a m) (drop_token key token (s_pending a))).
Proof.
  intros Ha Hkey Hne. apply (outbox_row key a); [done | |].
  - intros key' Hk. cbn. by rewrite Hne, drop_token_ne.
  - intros v Hv. destruct (Hkey v Hv) as [Ht Hp]. cbn. apply drop_token_other; [done |]. by apply Ha.
Qed.

Lemma outbox_committed now key token version modified expires a :
  outbox a -> is_pending version = false -> ends (fun _ => outbox) (spec_committed now key token version modified expires a).
Proof.
  intros Ha Hv. unfold spec_committed. apply ends_tables. unfold attrs_where. destruct (s_objects a !! key) as [e|] eqn:He; cbn [mbind option_bind].
  - unfold origin_is. destruct (decide (at_origin_etag (en_attrs e) = Some token)) as [Ht|Ht].
    + rewrite (bool_decide_true (at_origin_etag _ = _)) by done. rewrite bool_decide_true by eauto.
      apply (outbox_settled key token (s_objects (spec_alter (committed_attrs now version modified expires) key a)) a); [done | |].
      * intros v (e' & He' & Hv' & Hp). cbn in He'. rewrite lookup_alter_eq, He in He'. injection He' as <-. cbn in Hv'. congruence.
      * intros key' Hne. cbn. by rewrite lookup_alter_ne.
    + rewrite (bool_decide_false (at_origin_etag _ = _)) by done. rewrite bool_decide_false by (intros [? [=]]). cbn. destruct a as [m ? ? ? ? q]. apply (outbox_settled key token m); [done | | done].
      intros v (e' & He' & Hv' & Hp). cbn in He. split; [congruence |]. by exists e'.
  - rewrite bool_decide_false by (intros [? [=]]). cbn. destruct a as [m ? ? ? ? q]. apply (outbox_settled key token m); [done | | done].
    intros v (e' & He' & _). cbn in He. congruence.
Qed.

Lemma outbox_abandon key token a : outbox a -> ends (fun _ => outbox) (spec_abandon key token a).
Proof.
  intros Ha. unfold spec_abandon. apply ends_tables. unfold attrs_where. destruct (s_objects a !! key) as [e|] eqn:He; cbn [mbind option_bind].
  - unfold origin_is. destruct (decide (at_origin_etag (en_attrs e) = Some token)) as [Ht|Ht].
    + rewrite bool_decide_true by done. apply (outbox_settled key token (s_objects (spec_delete [key] a)) a); [done | |].
      * intros v (e' & He' & _). cbn in He'. apply map_lookup_filter_Some in He' as [_ Hin]. set_solver.
      * intros key' Hne. cbn. rewrite map_lookup_filter. destruct (s_objects a !! key'); [| done]. cbn. rewrite option_guard_True; [done | set_solver].
    + rewrite bool_decide_false by done. cbn. destruct a as [m ? ? ? ? q]. apply (outbox_settled key token m); [done | | done].
      intros v (e' & He' & Hv' & Hp). cbn in He. split; [congruence |]. by exists e'.
  - cbn. destruct a as [m ? ? ? ? q]. apply (outbox_settled key token m); [done | | done].
    intros v (e' & He' & _). cbn in He. congruence.
Qed.

End Operations.

(** ** Runs *)

Section Runs.
Context `{ZL : ZstdLaws} `{D : Digests}.

(** The operations of a write-back cache: uploads are owed and settled in its
    write-back namespace, under the tokens of [WriteBackPublication], and rows are
    not cleared by hand. *)
Definition outbox_op (c : context) (o : Operation) : Prop :=
  calm_op o = true \/
  (ref_kind (cx_ns c) = WriteBack /\
   match o with
   | WriteOp _ _ _ _ _ opts => pb_origin (wo_Publication opts) = po_Token (pb_pending (wo_Publication opts))
   | CompletePendingOp _ _ _ _ _ => True
   | CacheOp (CommittedOp _ _ version _ _) => is_pending version = false
   | CacheOp (AbandonOp _ _) => True
   | _ => False
   end).

Definition outboxes (z : world) : Prop := forall n, outbox (spec_of z (WriteBackRef n)).

Lemma outboxes_put z r a :
  outboxes z -> (ref_kind r = WriteBack -> outbox a) ->
  (ref_kind r <> WriteBack -> forall key v, queued (s_pending (spec_of z r)) key v -> queued (s_pending a) key v) -> outboxes (put_spec z r a).
Proof.
  intros Hz Hw Hc n. rewrite spec_of_put. destruct (decide (r = WriteBackRef n)) as [->|Hne]; [by apply Hw |].
  destruct (decide _) as [Hn|]; [| apply Hz]. intros key v Hp.
  assert (ref_kind r <> WriteBack) as Hk by (intros E; apply Hne; destruct r; cbn in *; by subst).
  cbn. apply Hc; [done |]. assert (s_pending (spec_of z r) = s_pending (spec_of z (WriteBackRef n))) as ->.
  { unfold spec_of. cbn. by rewrite Hn. }
  by apply Hz.
Qed.

Lemma calm_sibling o x (a : spec) : calm a (commit (sibling_spec o x) a).2.
Proof.
  assert (calm a (spec_truncate a)) as Htr by (split; [done |]; intros key v (e & He & _); by cbn in He).
  destruct o as [| | | | | | | | | | | | | | |[]]; try apply calm_refl; [done |].
  destruct x as [| | |[]| | | | |]; try apply calm_refl. cbn. eapply calm_trans; [| apply calm_delete]. by apply calm_same.
Qed.

Lemma outbox_tx c b specs o :
  ref_kind (cx_ns c) = WriteBack -> outbox_op c o -> outbox (specs (cx_ns c)) ->
  ends (fun _ => outbox) (spec_tx c b specs o (specs (cx_ns c))).
Proof.
  intros Hk [Ho|[_ Ho]] Ha.
  - pose proof (calmly_op c b specs o Ho) as H. unfold ends in *. destruct (spec_tx _ _ _ _ _) as [[]|]; [| done]. by eapply calm_outbox.
  - destruct o as [| ? ? ? ? ? opts | | | | | | | | | | | | | |[]]; try done; cbn [spec_tx cache_spec];
      (eapply ends_bind; [| intros x a' Ha'; exact Ha']); [| by apply outbox_complete | by apply outbox_committed | by apply outbox_abandon].
    destruct (pb_kind (wo_Publication opts)) eqn:E; [| | by apply outbox_write |];
      (unshelve epose proof (calmly_write (ref_kind (cx_ns c)) (cx_store c) (cx_over_quota c) (cx_now c) (mkObjectRef (cx_ns c) key) (concat srcs) checksums opts
         (specs (cx_ns c)) _) as H; [by rewrite E |];
       unfold ends in *; destruct (spec_write _ _ _ _ _ _ _ _ _) as [[]|]; [| done]; by eapply calm_outbox).
Qed.

Lemma tokens_tx c b specs o :
  ref_kind (cx_ns c) <> WriteBack -> outbox_op c o ->
  ends (fun _ a' => forall key v, queued (s_pending (specs (cx_ns c))) key v -> queued (s_pending a') key v) (spec_tx c b specs o (specs (cx_ns c))).
Proof.
  intros Hk [Ho|[? _]]; [| done]. pose proof (calmly_op c b specs o Ho) as H. unfold ends in *.
  destruct (spec_tx _ _ _ _ _) as [[]|]; [| done]. apply H.
Qed.

Lemma outbox_exec c b o z : outbox_op c o -> outboxes z -> outboxes (spec_exec c b o z).2.
Proof.
  intros Ho Hz. unfold spec_exec. destruct (commit _ _) as [r a] eqn:E.
  assert ((ref_kind (cx_ns c) = WriteBack -> outbox a) /\
    (ref_kind (cx_ns c) <> WriteBack -> forall key v, queued (s_pending (spec_of z (cx_ns c))) key v -> queued (s_pending a) key v)) as [Hw Hc].
  { unfold commit in E. split; intros Hk.
    - assert (outbox (spec_of z (cx_ns c))) as Ha by (destruct (cx_ns c) as [k n]; cbn in Hk; subst; apply Hz).
      pose proof (outbox_tx c b (spec_of z) o Hk Ho Ha) as H. destruct (spec_tx _ _ _ _ _) as [[]|]; by injection E as <- <-.
    - pose proof (tokens_tx c b (spec_of z) o Hk Ho) as H. destruct (spec_tx _ _ _ _ _) as [[]|]; by injection E as <- <-. }
  pose proof (outboxes_put z (cx_ns c) a Hz Hw Hc) as Hz1. destruct r as [x|e]; [| done]. cbn [snd].
  pose proof (calm_sibling o x (spec_of (put_spec z (cx_ns c) a) (sibling (cx_ns c)))) as Hs.
  apply outboxes_put; [done | |].
  - intros Hk. apply (calm_outbox _ _ Hs). destruct (sibling (cx_ns c)) as [k n]. cbn in Hk. subst. apply Hz1.
  - intros _. apply Hs.
Qed.

Lemma outbox_run ops z rs z' : spec_run ops z rs z' -> Forall (fun co => outbox_op co.1 co.2) ops -> outboxes z -> outboxes z'.
Proof.
  induction 1 as [| b c o ops z r z1 rs z2 E Hrun IH | c o ops z rs z2 Hrun IH]; intros Hops Hz; [done | |]; apply Forall_cons in Hops as [Ho Hops]; [| auto].
  apply IH; [done |]. pose proof (outbox_exec c b o z Ho Hz) as H. by rewrite E in H.
Qed.

Lemma empty_outboxes : outboxes empty_world.
Proof. intros n key v (e & He & _). done. Qed.

(** ** Claims *)

Lemma due_complete t limit m key p :
  m !! key = Some p -> upload_due t p = true -> zlen (map_to_list m) <= limit -> (key, p) ∈ due_uploads t limit (fun _ => false) m.
Proof.
  intros Hp Hdue Hl. unfold due_uploads. set (l := List.filter (fun kv => upload_due t kv.2) (map_to_list m)).
  assert (List.filter (fun kv : string * pending_upload => negb ((fun _ => false) kv.1)) (merge_sort next_first l) = merge_sort next_first l) as ->.
  { generalize (merge_sort next_first l). induction l0 as [|x l0 IH]; [done |]. exact (f_equal (cons x) IH). }
  assert ((key, p) ∈ l) as Hin by (apply list_elem_of_In, filter_In; split; [by apply list_elem_of_In, elem_of_map_to_list | done]).
  rewrite take_ge; [by rewrite merge_sort_Permutation |]. rewrite merge_sort_Permutation.
  pose proof (List.filter_length_le (fun kv : string * pending_upload => upload_due t kv.2) (map_to_list m)). fold l in H. unfold zlen in Hl. lia.
Qed.


End Runs.

(** ** Failures that are not recorded *)

(** A valid error text of 1,025 bytes whose 1,024th byte is in the middle of a
    character is cut to a string that is not text. *)
Definition long_cause : string := String.string_of_list_ascii (replicate 1023 "x"%char ++ [chr 195; chr 169]).

Lemma failure_not_recorded :
  text_value long_cause = true /\
  forall now key token owner attempt permanent m, fail_pending now key token owner attempt (Some long_cause) permanent m = None.
Proof.
  split; [vm_compute; reflexivity |]. intros. unfold fail_pending.
  replace (text_value (errorText (Some long_cause))) with false by (vm_compute; reflexivity). done.
Qed.

(** ** A run *)

Section Sample.
#[local] Existing Instance toy_digests.

Definition back_context (t : Z) : context := mkContext t (fun _ => false) 1 (WriteBackRef "c").

Definition owed_opts (token : string) : WriteOptions :=
  mkWriteOptions (mkPrecondition Unconditional "") None "" "" None None "" None false
    (WriteBackPublication (mkPendingOrigin token "" true)) None (-1).

(** An object is written twice, a claim of the first upload fails, and another
    client commits the upload that was replaced. *)
Definition owed_run : list (context * Operation) :=
  [ (back_context 1, WriteOp 0 (seqZ 1 64) "a" hello [] (owed_opts "pending:u1"));
    (back_context 2, CacheOp (ClaimOp "w1" 8 60 (fun _ => false)));
    (back_context 3, CacheOp (FailOp "a" "pending:u1" "w1" 0 (Some "refused") false));
    (back_context 4, WriteOp 0 [] "a" hello [] (owed_opts "pending:u2"));
    (back_context 5, CacheOp (CommittedOp "a" "pending:u1" "v1" None None)) ].

Definition owed_db : db := db_of (exec_run owed_run new_system).2 (WriteBackRef "c").

Definition shows_version (key v : string) (d : db) : bool :=
  match db_objects d !! key with Some o => bool_decide (at_origin_etag (ob_attrs o) = Some v) | None => false end.

Lemma shows_row key v d : shows_version key v d = true -> exists o, db_objects d !! key = Some o /\ at_origin_etag (ob_attrs o) = Some v.
Proof. unfold shows_version. destruct (db_objects d !! key) as [o|]; [| done]. intros H%bool_decide_eq_true. eauto. Qed.


End Sample.
