(* ===== verification/FillLeases.v ===== *)
(** * Fill leases

    Who holds the fill lease of a key is the only one to fill it: until the
    lease runs out, nobody else takes it and no fill of another owner is
    published. *)

From stdpp Require Import gmap sorting.
From S2P Require Import Prelude GoStrings Ns Ranges Precond Blocks Ids Tables Objects CacheTables ObjectSpec CacheSpec Machine ObjectRep ObjectRefine CacheRefine ObjectRead ObjectComplete ObjectStore Names CacheValues Outbox.

(** ** Operations that leave the leases alone *)

Section Frame.
Context `{D : Digests} (L : leases).

Abbreviation frames := (ends (fun _ a => s_leases a = L)).

Lemma frames_bind {A B} (c : stx A) (f : A -> stx B) a :
  frames (c a) -> (forall x a', s_leases a' = L -> frames (f x a')) -> frames ((c ≫= f) a).
Proof. intros Hc Hf. eapply ends_bind; [exact Hc |]. auto. Qed.

Ltac frame :=
  repeat first
    [ progress cbn zeta
    | assumption
    | match goal with
      | |- ends _ ((tables ≫= _) _) => apply ends_tables
      | |- ends _ ((require _ _ ≫= _) _) => apply ends_require; intros _
      | |- ends _ ((from_result _ _ ≫= _) _) => apply ends_result; intros ? _
      | |- ends _ ((_ ≫= _) _) => apply frames_bind; [| intros]
      | |- ends _ (match ?x with _ => _ end _) => destruct x
      | |- ends _ (update _ _) => assumption
      | |- ends _ (mret _ _) => assumption
      | |- ends _ (throw _ _) => exact I
      end ].

Lemma frames_publish k now p body l a : s_leases a = L -> frames (spec_publish k now p body l a).
Proof. intros Ha. unfold spec_publish, put_entity. frame. Qed.

Lemma frames_find_upload id key a : s_leases a = L -> frames (spec_find_upload id key a).
Proof. intros Ha. unfold spec_find_upload. frame. Qed.

Lemma frames_expire_loop n now grace locked removed a : s_leases a = L -> s_leases (spec_expire_loop now n grace locked removed a).2 = L.
Proof.
  revert removed a. induction n as [|n IH]; intros removed a Ha; cbn [spec_expire_loop]; [done |].
  destruct (victim_upload _ _ _ _); [by apply IH | done].
Qed.

Lemma frames_touch now retention keys a :
  s_leases a = L -> s_leases (fold_left (fun a key => spec_alter (touch_attrs now retention) key a) keys a) = L.
Proof. revert a. induction keys as [|key keys IH]; intros a Ha; cbn [fold_left]; [done |]. by apply IH. Qed.

Lemma frames_put_batch k now batch a : s_leases a = L -> frames (spec_put_batch k now batch a).
Proof. revert a. induction batch as [|[key v] batch IH]; intros a Ha; cbn [spec_put_batch]; [done |]. unfold put_entity. frame. by apply IH. Qed.

Definition lease_op (o : Operation) : bool :=
  match o with
  | CacheOp (AcquireOp _ _ _) | CacheOp (ReleaseOp _ _) | CacheOp (RenewOp _ _) | CacheOp CleanupOp => true
  | _ => false
  end.

Lemma frames_cache c b o a : lease_op (CacheOp o) = false -> s_leases a = L -> frames (cache_spec c b o a).
Proof.
  intros Ho Ha. destruct o; try discriminate Ho; (apply frames_bind; [| done]).
  - unfold spec_get_del. frame.
  - unfold spec_delete_expected. frame.
  - unfold spec_expire. frame.
  - by apply frames_touch.
  - unfold spec_mset. destruct kvs; [done |]. apply ends_require. intros _. by apply frames_put_batch.
  - unfold spec_flush. frame.
  - unfold spec_claim. frame.
  - unfold spec_committed. frame.
  - unfold spec_abandon. frame.
  - unfold spec_fail. frame.
  - done.
  - done.
  - done.
  - done.
  - done.
  - done.
  - unfold spec_retire. frame.
  - done.
Qed.

Lemma frames_op c b specs o :
  lease_op o = false -> s_leases (specs (cx_ns c)) = L -> frames (spec_tx c b specs o (specs (cx_ns c))).
Proof.
  intros Ho Ha. destruct o; try discriminate Ho; cbn [spec_tx]; try (apply frames_bind; [| done]).
  - unfold spec_put_inline, outcome_error. frame. by apply frames_publish.
  - unfold spec_write, spec_publish_object, spec_pending_origin, outcome_error. frame. by apply frames_publish.
  - unfold spec_create. frame.
  - unfold spec_write_part, spec_put_part. frame. by apply frames_find_upload.
  - unfold spec_complete, spec_apply, spec_swap, put_entity. frame. by apply frames_find_upload.
  - unfold spec_complete_pending, spec_complete, spec_apply, spec_swap, put_entity. frame. by apply frames_find_upload.
  - unfold spec_abort. frame.
  - unfold spec_delete_many. frame.
  - unfold spec_evict. frame.
  - unfold spec_copy_from, spec_put_copy, put_entity, reply_of. frame.
  - unfold spec_copy_part, spec_put_part. frame. by apply frames_find_upload.
  - unfold spec_expire_objects. frame.
  - unfold spec_expire_uploads. pose proof (frames_expire_loop (Z.to_nat p_max) (cx_now c) grace locked 0 (specs (cx_ns c)) Ha) as H.
    destruct (spec_expire_loop _ _ _ _ _ _). exact H.
  - done.
  - done.
  - by apply frames_cache.
Qed.

End Frame.

(** ** A held lease stays *)

Section Held.
Context `{ZL : ZstdLaws} `{D : Digests} (n key owner : string) (until : Z).

Definition holds (m : leases) : Prop := exists u, m !! key = Some (owner, u) /\ until <= u.

(** Operations before the lease runs out that neither give it up nor renew it
    for less; retiring the object gives it up as well. *)
Definition lease_left (co : context * Operation) : Prop :=
  cx_now co.1 < until /\
  match co.2 with
  | CacheOp (ReleaseOp key' owner') => cx_ns co.1 = CacheRef n -> (key', owner') <> (key, owner)
  | CacheOp (RenewOp l ttl) => cx_ns co.1 = CacheRef n -> (fl_Key l, fl_Owner l) = (key, owner) -> until <= cx_now co.1 + ttl
  | CacheOp (RetireOp key' _) => cx_ns co.1 = WriteBackRef n -> key' <> key
  | _ => True
  end.

Lemma holds_acquire now key' owner' ttl m : now < until -> holds m -> holds (acquire_lease now key' owner' ttl m).2.
Proof.
  intros Hn (u & Hu & Hle). unfold acquire_lease. destruct (decide (key' = key)) as [->|Hne].
  - rewrite Hu. rewrite (proj2 (Z.leb_gt _ _)) by lia. by exists u.
  - exists u. split; [| done]. destruct (m !! key') as [[]|]; [destruct (_ <=? _); [| done] |]; cbn; by rewrite lookup_insert_ne.
Qed.

Lemma holds_release key' owner' m : (key', owner') <> (key, owner) -> holds m -> holds (release_lease key' owner' m).
Proof.
  intros Hne (u & Hu & Hle). unfold release_lease. exists u. split; [| done]. destruct (decide (key' = key)) as [->|Hk].
  - rewrite Hu, bool_decide_false by congruence. done.
  - destruct (m !! key') as [[]|]; [| done]. destruct (bool_decide _); [| done]. by rewrite lookup_delete_ne.
Qed.

Lemma holds_renew now l ttl m :
  ((fl_Key l, fl_Owner l) = (key, owner) -> until <= now + ttl) -> holds m -> holds (renew_lease now l ttl m).2.
Proof.
  intros Hr (u & Hu & Hle). unfold renew_lease. destruct (decide (fl_Key l = key)) as [Hk|Hk].
  - rewrite Hk, Hu. destruct (bool_decide _ && _) eqn:E; [| by exists u]. apply andb_true_iff in E as [Eo _]. apply bool_decide_eq_true in Eo.
    exists (now + ttl). cbn. rewrite lookup_insert_eq. split; [done |]. apply Hr. congruence.
  - exists u. split; [| done]. destruct (m !! fl_Key l) as [[]|]; [| done]. destruct (_ && _); [| done]. cbn. by rewrite lookup_insert_ne.
Qed.

Lemma holds_cleanup now m : now < until -> holds m -> holds (live_leases now m).
Proof. intros Hn (u & Hu & Hle). exists u. split; [| done]. unfold live_leases. apply map_lookup_filter_Some. cbn. split; [done | lia]. Qed.

Lemma holds_tx c b z o :
  cx_ns c = CacheRef n -> lease_left (c, o) -> holds (s_leases (spec_of z (CacheRef n))) ->
  ends (fun _ a' => holds (s_leases a')) (spec_tx c b (spec_of z) o (spec_of z (cx_ns c))).
Proof.
  intros Hns [Hn Ho] Hh. rewrite <- Hns in Hh. cbn in Hn, Ho. destruct (lease_op o) eqn:E.
  - destruct o as [| | | | | | | | | | | | | | |[]]; try done; cbn [spec_tx cache_spec]; (eapply ends_bind; [| intros x a' Ha'; exact Ha']).
    + unfold spec_acquire. apply ends_tables. pose proof (holds_acquire (cx_now c) key0 owner0 ttl _ Hn Hh) as H. by destruct (acquire_lease _ _ _ _ _).
    + apply holds_release; auto.
    + unfold spec_renew. apply ends_tables. pose proof (holds_renew (cx_now c) lease ttl _ (Ho Hns) Hh) as H. by destruct (renew_lease _ _ _ _).
    + by apply holds_cleanup.
  - pose proof (frames_op (s_leases (spec_of z (cx_ns c))) c b (spec_of z) o E eq_refl) as H. unfold ends in *.
    destruct (spec_tx _ _ _ _ _) as [[]|]; [| done]. by rewrite H.
Qed.

Definition world_holds (z : world) : Prop := holds (s_leases (spec_of z (CacheRef n))).

Lemma world_holds_put z r a :
  world_holds z -> (r = CacheRef n -> holds (s_leases a)) -> world_holds (put_spec z r a).
Proof.
  intros Hz Ha. unfold world_holds. rewrite spec_of_put. destruct (decide (r = CacheRef n)); [auto |]. by destruct (decide _).
Qed.

(** The other namespace of the name. *)
Lemma holds_sibling c b z o x a' :
  lease_left (c, o) -> commit (spec_tx c b (spec_of z) o) (spec_of z (cx_ns c)) = (Ok x, a') -> sibling (cx_ns c) = CacheRef n ->
  forall a, holds (s_leases a) -> holds (s_leases (commit (sibling_spec o x) a).2).
Proof.
  intros [_ Ho] Hc Hs a Ha. destruct o as [| | | | | | | | | | | | | | |[]]; try done. destruct x as [| | |[]| | | | |]; try done.
  cbn [snd] in Ho. cbn in Hc |- *.
  assert (ref_kind (cx_ns c) = WriteBack) as Hk.
  { revert Hc. unfold commit, reply_of, spec_retire. destruct observed; [| done]. unfold mbind, txn_bind, require, throw.
    destruct (decide (ref_kind (cx_ns c) = WriteBack)); [done |]. by rewrite bool_decide_false. }
  assert (cx_ns c = WriteBackRef n) as Hr.
  { unfold sibling in Hs. rewrite bool_decide_false in Hs by (by rewrite Hk). injection Hs as Hs. destruct (cx_ns c); cbn in *. by subst. }
  destruct Ha as (u & Hu & Hle). exists u. split; [| done].
  change (delete key0 (s_leases a) !! key = Some (owner, u)). rewrite lookup_delete_ne by auto. done.
Qed.

Lemma holds_exec c b o z : lease_left (c, o) -> world_holds z -> world_holds (spec_exec c b o z).2.
Proof.
  intros Ho Hz. unfold spec_exec. destruct (commit _ _) as [r a'] eqn:Hc.
  assert (world_holds (put_spec z (cx_ns c) a')) as Hz1.
  { apply world_holds_put; [done |]. intros Hns. pose proof (holds_tx c b z o Hns Ho Hz) as H. unfold commit in Hc.
    unfold ends in H. unfold world_holds in Hz. rewrite <- Hns in Hz. by destruct (spec_tx _ _ _ _ _) as [[]|]; injection Hc as <- <-. }
  destruct r as [x|]; [| done]. cbn [snd]. apply world_holds_put; [done |]. intros Hs. eapply holds_sibling; [exact Ho | exact Hc | exact Hs |].
  by rewrite Hs.
Qed.

Lemma holds_run ops z rs z' : spec_run ops z rs z' -> Forall lease_left ops -> world_holds z -> world_holds z'.
Proof.
  induction 1 as [| b c o ops z r z1 rs z2 E Hrun IH | c o ops z rs z2 Hrun IH]; intros Hops Hz; [done | |]; apply Forall_cons in Hops as [Ho Hops]; [| auto].
  apply IH; [done |]. pose proof (holds_exec c b o z Ho Hz) as H. by rewrite E in H.
Qed.

(** ** Others are kept out *)

(** The lease an operation publishes under. *)
Definition fill_of (o : Operation) : option FillLease :=
  match o with
  | PutOp _ _ opts | WriteOp _ _ _ _ _ opts => pb_lease (wo_Publication opts)
  | _ => None
  end.

Lemma publish_refused k now p body l le a :
  now < until -> holds (s_leases a) -> sm_fill (p_s3_meta p) = Some le -> fl_Key le = key -> fl_Owner le <> owner ->
  ends (fun r _ => r = stale) (spec_publish k now p body l a).
Proof.
  intros Hn (u & Hu & Hle) Hf Hk Ho. unfold spec_publish. apply ends_tables. rewrite Hf. unfold s_lease_held. rewrite Hk, Hu.
  by rewrite bool_decide_false by congruence.
Qed.

Lemma prepare_lease s ref opts inline o : prepareWrite s ref opts inline = Ok o -> pb_lease (wo_Publication o) = pb_lease (wo_Publication opts).
Proof.
  unfold prepareWrite. destruct (validateLock opts ref); [cbn [rbind] | done]. destruct (match wo_lock opts with Some _ => _ | None => _ end); [done |].
  destruct (pb_kind _); [destruct (negb _) | destruct (_ || _) | destruct (_ || _) | destruct (_ || _)]; by try intros [= <-].
Qed.

Lemma fill_refused c b z o le :
  cx_ns c = CacheRef n -> cx_now c < until -> world_holds z -> fill_of o = Some le -> fl_Key le = key -> fl_Owner le <> owner ->
  ends (fun _ _ => False) (spec_tx c b (spec_of z) o (spec_of z (cx_ns c))).
Proof.
  intros Hns Hn Hz Hf Hk Ho. unfold world_holds in Hz. rewrite <- Hns in Hz. destruct o; try done; cbn [spec_tx fill_of] in *; (eapply (ends_bind (fun _ _ => False)); [| by intros ? ? []]).
  - unfold spec_put_inline. apply ends_result. intros o Hp%prepare_lease. do 2 (apply ends_require; intros _).
    eapply ends_bind; [eapply publish_refused; [exact Hn | exact Hz | cbn; by rewrite Hp, Hf | done | done] |]. by intros r a' ->.
  - unfold spec_write. apply ends_result. intros o Hp%prepare_lease. do 2 (apply ends_require; intros _). apply ends_result. intros o' Hv%verify_publication.
    eapply (ends_bind (fun _ _ => False)); [| by intros ? ? []]. unfold spec_publish_object. apply ends_result. intros _ _.
    eapply ends_bind; [eapply publish_refused; [exact Hn | exact Hz | cbn; by rewrite Hv, <- Hf, <- Hp | done | done] |]. by intros r a' ->.
Qed.

End Held.

Section Exclusive.
Context `{ZL : ZstdLaws} `{D : Digests}.

Lemma acquired_holds n key owner ttl c b z z' :
  cx_ns c = CacheRef n -> spec_exec c b (CacheOp (AcquireOp key owner ttl)) z = (Ok (Flag true), z') ->
  world_holds n key owner (cx_now c + lease_ttl ttl) z'.
Proof.
  intros Hns. unfold spec_exec. rewrite Hns. cbn [spec_tx cache_spec]. set (a := spec_of z (CacheRef n)).
  unfold commit at 1, reply_of, spec_acquire, tables, mbind, txn_bind, update, mret, txn_ret.
  destruct (acquire_lease _ _ _ _ (s_leases a)) as [[] m] eqn:Ea; [| done]. intros [= <-].
  apply world_holds_put; [| done]. unfold world_holds. rewrite spec_of_put, decide_True by done. exists (cx_now c + lease_ttl ttl). split; [| lia].
  cbn. revert Ea. unfold acquire_lease. destruct (s_leases a !! key) as [[]|]; [destruct (_ <=? _); [| done] |]; intros [= <-]; apply lookup_insert_eq.
Qed.

(** C14: fills are exclusive.  After a process acquired the fill lease of a key
    with some time to live, and as long as it does not give it up, no other
    operations before the end of that time let anybody else acquire the lease,
    no fill of the key under the lease of another owner is published, and the
    lease is still good for publishing. *)
Theorem fill_exclusive n key owner ttl before c0 y during :
  cx_ns c0 = CacheRef n ->
  exec c0 (CacheOp (AcquireOp key owner ttl)) (exec_run before new_system).2 = (Ok (Flag true), y) ->
  let until := cx_now c0 + lease_ttl ttl in
  Forall (lease_left n key owner until) during ->
  let y' := (exec_run during y).2 in
  forall c, cx_ns c = CacheRef n -> cx_now c < until ->
  (forall owner' ttl', (exec c (CacheOp (AcquireOp key owner' ttl')) y').1 = Ok (Flag false)) /\
  (forall o l, fill_of o = Some l -> fl_Key l = key -> fl_Owner l <> owner -> exists e, (exec c o y').1 = Err e) /\
  lease_held (cx_now c) (db_of y' (CacheRef n)) (mkFillLease n key owner) = true.
Proof.
  intros Hns Hacq until Hmid y' c Hnc Hnow.
  destruct (exec_run_rep before _ _ rep_new) as (z0 & _ & Hrep0).
  destruct (done_rep _ _ _ _ _ _ Hrep0 Hacq) as (b & z1 & Hsp & Hrep1).
  assert (world_holds n key owner until z1) as Hz1.
  { by eapply acquired_holds. }
  destruct (exec_run_rep during _ _ Hrep1) as (z & Hrun & Hrep). fold y' in Hrep. pose proof (holds_run _ _ _ _ _ _ _ _ Hrun Hmid Hz1) as Hz.
  assert (exists u, db_leases (db_of y' (CacheRef n)) !! key = Some (owner, u) /\ until <= u) as (u & Hu & Hle).
  { destruct Hrep as (given & _ & Hs). by rewrite (sim_leases _ _ _ _ _ (Hs (CacheRef n))). }
  split; [| split].
  - intros owner' ttl'. unfold exec. cbn [op_requests]. destruct (allocations [] (sy_alloc y')) as [ids alloc]. rewrite Hnc.
    unfold commit at 1. cbn [op_tx cache_tx]. unfold reply_of, AcquireFillLease, tables, mbind, txn_bind, update, mret, txn_ret, acquire_lease.
    rewrite Hu, (proj2 (Z.leb_gt _ _)) by lia. done.
  - intros o l Hf Hk Ho. destruct (exec c o y') as [r y2] eqn:Ex. destruct r as [x|e]; [| by exists e].
    destruct (done_rep _ _ _ _ _ _ Hrep Ex) as (b' & z' & Hsp' & _). pose proof (fill_refused _ _ _ _ c b' z o l Hnc Hnow Hz Hf Hk Ho) as H.
    revert Hsp'. unfold spec_exec, commit at 1. unfold ends in H. by destruct (spec_tx _ _ _ _ _) as [[]|].
  - unfold lease_held. cbn [fl_Key fl_Owner]. rewrite Hu, bool_decide_true by done. cbn. lia.
Qed.

End Exclusive.

(** ** A run *)

Section Sample.
#[local] Existing Instance toy_digests.

Definition fill_put (owner : string) : Operation :=
  PutOp "a" (concat hello) (mkWriteOptions unconditional None "" "" None None "" None false
    (FillPublication "v1" "" (Some (mkFillLease "c" "a" owner))) None (-1)).

Definition acquired := exec (cache_context 1) (CacheOp (AcquireOp "a" "p1" 60)) new_system.

(** Another process tries to take the lease, then cleans up; the holder
    renews. *)
Definition contended : list (context * Operation) :=
  [ (cache_context 2, CacheOp (AcquireOp "a" "p2" 60)); (cache_context 3, CacheOp CleanupOp);
    (cache_context 4, CacheOp (RenewOp (mkFillLease "c" "a" "p1") 60)) ].

Lemma fill_exclusive_witness :
  let y' := (exec_run contended acquired.2).2 in
  (exec (cache_context 5) (CacheOp (AcquireOp "a" "p2" 60)) y').1 = Ok (Flag false) /\
  (exists e, (exec (cache_context 5) (fill_put "p2") y').1 = Err e) /\
  is_ok (exec (cache_context 5) (fill_put "p1") y').1 = true.
Proof.
  assert (exec (cache_context 1) (CacheOp (AcquireOp "a" "p1" 60)) (exec_run [] new_system).2 = (Ok (Flag true), acquired.2)) as Hacq
    by (vm_compute; reflexivity).
  assert (Forall (lease_left "c" "a" "p1" 61) contended) as Hmid by (repeat constructor; cbn; lia).
  destruct (fill_exclusive "c" "a" "p1" 60 [] (cache_context 1) acquired.2 contended eq_refl Hacq Hmid (cache_context 5) eq_refl) as (H1 & H2 & _);
    [reflexivity |].
  split; [apply H1 |]. split; [| vm_compute; reflexivity].
  apply (H2 (fill_put "p2") (mkFillLease "c" "a" "p2")); [reflexivity | reflexivity | discriminate].
Defined.

End Sample.
