(* ===== verification/Jobs.v ===== *)
(** * The job queue

    [internal/store/ojs.go] with the [jobs] tables and the [job_index] of
    [internal/store/schema.sql]: the state machine of a job, enqueueing,
    fetching under a lease, acknowledging, failing, cancelling, heartbeats and
    the maintenance of a queue.  Times are microseconds, [now] is the time of
    the transaction.  JSON values are parameters of the model: [jsonb] is the
    cast to the type of PostgreSQL. *)

From stdpp Require Import gmap sorting.
From S2P Require Import Prelude GoStrings Ns Backoff.

(** ** States and events *)

Inductive JobState :=
| JobStateUnknown | JobScheduled | JobAvailable | JobPending | JobActive | JobCompleted | JobRetryable | JobCancelled | JobDiscarded.

#[global] Instance JobState_eq_dec : EqDecision JobState.
Proof. solve_decision. Defined.

Definition JobState_String (s : JobState) : string :=
  match s with
  | JobStateUnknown => "unknown"
  | JobScheduled => "scheduled"
  | JobAvailable => "available"
  | JobPending => "pending"
  | JobActive => "active"
  | JobCompleted => "completed"
  | JobRetryable => "retryable"
  | JobCancelled => "cancelled"
  | JobDiscarded => "discarded"
  end.

Definition JobState_Valid (s : JobState) : bool := bool_decide (s <> JobStateUnknown).

Definition all_states : list JobState :=
  [JobStateUnknown; JobScheduled; JobAvailable; JobPending; JobActive; JobCompleted; JobRetryable; JobCancelled; JobDiscarded].

Inductive job_error :=
| ErrJobNotFound | ErrJobConflict | ErrLeaseStale | ErrDuplicateJob | ErrInvalidName | ErrQuotaExceeded | ErrInvalidJobState
| ErrInvalidTransition | NoNamespace | IndexConflict | RowViolation.

Definition ParseJobState (text : string) : result job_error JobState :=
  match find (fun s => negb (bool_decide (s = JobStateUnknown)) && bool_decide (JobState_String s = text)) all_states with
  | Some s => Ok s
  | None => Err ErrInvalidJobState
  end.

Inductive JobEvent :=
| JobEventUnknown | JobEventEnqueue | JobEventScheduleDue | JobEventLease | JobEventLeaseExpired | JobEventAck | JobEventNack
| JobEventHeartbeat | JobEventCancel | JobEventExpire.

Definition jobTransitions (e : JobEvent) : option (list JobState) :=
  match e with
  | JobEventEnqueue => Some [JobStateUnknown]
  | JobEventScheduleDue => Some [JobScheduled; JobRetryable]
  | JobEventLease => Some [JobAvailable]
  | JobEventLeaseExpired | JobEventAck | JobEventNack | JobEventHeartbeat => Some [JobActive]
  | JobEventCancel => Some [JobScheduled; JobAvailable; JobPending; JobActive; JobRetryable]
  | JobEventExpire => Some [JobScheduled; JobAvailable; JobRetryable]
  | JobEventUnknown => None
  end.

Record TransitionInput := mkInput {
  ti_State : JobState;
  ti_Event : JobEvent;
  ti_Now : Z;
  ti_ScheduledAt : option Z;
  ti_ExpiresAt : option Z;
  ti_Attempt : Z;
  ti_MaxAttempts : Z;
  ti_RetryInitialMS : Z;
  ti_RetryMaxMS : Z;
  ti_RetryCoefficient : float64;
  ti_Retryable : bool
}.

Record TransitionResult := mkTransition { tr_State : JobState; tr_Attempt : Z; tr_RetryDelayMS : Z }.

Definition retryDelayMS (i : TransitionInput) : Z :=
  Z.quot (Delay (mkBackoff (ti_RetryInitialMS i * millisecond) (ti_RetryCoefficient i) (ti_RetryMaxMS i * millisecond)) (ti_Attempt i))
    millisecond.

(** [t] is set and not after [now]. *)
Definition reached (t : option Z) (now : Z) : bool := match t with Some t => t <=? now | None => false end.

Definition Transition (i : TransitionInput) : result job_error TransitionResult :=
  match jobTransitions (ti_Event i) with
  | None => Err ErrInvalidTransition
  | Some sources =>
      if negb (bool_decide (ti_State i ∈ sources)) then Err ErrInvalidTransition
      else
        let out s a := Ok (mkTransition s a 0) in
        match ti_Event i with
        | JobEventEnqueue =>
            out (match ti_ScheduledAt i with Some t => if ti_Now i <? t then JobScheduled else JobAvailable | None => JobAvailable end)
              (ti_Attempt i)
        | JobEventScheduleDue => if reached (ti_ScheduledAt i) (ti_Now i) then out JobAvailable (ti_Attempt i) else Err ErrInvalidTransition
        | JobEventLease => out JobActive (if ti_Attempt i =? 0 then 1 else ti_Attempt i)
        | JobEventLeaseExpired =>
            if ti_Attempt i <? ti_MaxAttempts i then out JobAvailable (ti_Attempt i + 1) else out JobDiscarded (ti_Attempt i)
        | JobEventAck => out JobCompleted (ti_Attempt i)
        | JobEventNack =>
            if ti_Retryable i && (ti_Attempt i <? ti_MaxAttempts i)
            then Ok (mkTransition JobRetryable (ti_Attempt i + 1) (retryDelayMS i))
            else out JobDiscarded (ti_Attempt i)
        | JobEventCancel => out JobCancelled (ti_Attempt i)
        | JobEventExpire => if reached (ti_ExpiresAt i) (ti_Now i) then out JobDiscarded (ti_Attempt i) else Err ErrInvalidTransition
        | _ => out (ti_State i) (ti_Attempt i)
        end
  end.

(** ** Tables *)

(** A row of [jobs].  The text of a state is read back as the state
    ([ParseJobState_String]). *)
Record job := mkJob {
  jb_seq : Z;
  jb_type : string;
  jb_args : string;
  jb_meta : option string;
  jb_state : JobState;
  jb_attempt : Z;
  jb_max_attempts : Z;
  jb_priority : Z;
  jb_timeout_ms : option Z;
  jb_created_at : Z;
  jb_scheduled_at : option Z;
  jb_enqueued_at : Z;
  jb_started_at : option Z;
  jb_completed_at : option Z;
  jb_cancelled_at : option Z;
  jb_discarded_at : option Z;
  jb_worker_id : option string;
  jb_lease_token : option string;
  jb_lease_until : option Z;
  jb_retry_initial_ms : Z;
  jb_retry_coefficient : float64;
  jb_retry_max_ms : Z;
  jb_retry_delay_ms : option Z;
  jb_result : option string;
  jb_error : option string;
  jb_expires_at : option Z;
  jb_tags : list string
}.

(** The generated column [next_visible_at]. *)
Definition next_visible_at (j : job) : option Z :=
  if bool_decide (jb_state j = JobActive) then jb_lease_until j
  else Some (default (jb_enqueued_at j) (jb_scheduled_at j)).

(** A queue namespace, and the queues with the index of jobs. *)
Record queue_table := mkQueue { qt_next : Z; qt_jobs : gmap string job }.
Record jobs_db := mkJobsDb { jd_queues : gmap string queue_table; jd_index : gmap string string }.

Definition empty_queue : queue_table := mkQueue 1 ∅.
Definition empty_jobs : jobs_db := mkJobsDb ∅ ∅.

Definition job_at (d : jobs_db) (q id : string) : option job := jd_queues d !! q ≫= fun t => qt_jobs t !! id.

Definition set_job (q id : string) (j : job) (d : jobs_db) : jobs_db :=
  mkJobsDb (alter (fun t => mkQueue (qt_next t) (<[id := j]> (qt_jobs t))) q (jd_queues d)) (jd_index d).

(** The constraints of [jobs] on an inserted row. *)
Definition row_shape (id : string) (j : job) : bool :=
  (slen id =? 36) && JobState_Valid (jb_state j) && (0 <=? jb_attempt j) && (0 <=? jb_max_attempts j) &&
  (jb_max_attempts j <? 2 ^ 31) && (- 2 ^ 31 <=? jb_priority j) && (jb_priority j <? 2 ^ 31).

(** Update of the columns that change in the life of a job. *)
Record progress := mkProgress {
  pg_state : JobState;
  pg_attempt : Z;
  pg_scheduled_at : option Z;
  pg_started_at : option Z;
  pg_completed_at : option Z;
  pg_cancelled_at : option Z;
  pg_discarded_at : option Z;
  pg_worker_id : option string;
  pg_lease_token : option string;
  pg_lease_until : option Z;
  pg_retry_delay_ms : option Z;
  pg_result : option string;
  pg_error : option string
}.

Definition set_progress (j : job) (p : progress) : job :=
  mkJob (jb_seq j) (jb_type j) (jb_args j) (jb_meta j) (pg_state p) (pg_attempt p) (jb_max_attempts j) (jb_priority j) (jb_timeout_ms j)
    (jb_created_at j) (pg_scheduled_at p) (jb_enqueued_at j) (pg_started_at p) (pg_completed_at p) (pg_cancelled_at p)
    (pg_discarded_at p) (pg_worker_id p) (pg_lease_token p) (pg_lease_until p) (jb_retry_initial_ms j) (jb_retry_coefficient j)
    (jb_retry_max_ms j) (pg_retry_delay_ms p) (pg_result p) (pg_error p) (jb_expires_at j) (jb_tags j).

(** [NULLIF(x, '')] *)
Definition null_if_empty (s : string) : option string := if bool_decide (s = "") then None else Some s.

(** ** Enqueueing *)

Record EnqueueInput := mkEnqueue {
  ei_ID : string;
  ei_Type : string;
  ei_Args : string;
  ei_Meta : string;
  ei_Queue : string;
  ei_Priority : Z;
  ei_MaxAttempts : Z;
  ei_ScheduledAt : option Z;
  ei_TimeoutMS : option Z;
  ei_RetryInitial : Z;
  ei_RetryMax : Z;
  ei_RetryCoeff : float64;
  ei_Tags : list string;
  ei_ExpiresAt : option Z
}.

Definition initialValue (v : Z) : Z := if v <=? 0 then 1000 else v.
Definition coefficientValue (v : float64) : float64 := if SpecFloat.SFltb v fone then of_int 2 else v.
Definition maxRetryValue (v : Z) : Z := if v <=? 0 then 60000 else v.

Definition validateEnqueueQueues (inputs : list EnqueueInput) : bool := forallb (fun i => ValidName (ei_Queue i)) inputs.

(** The bytes counted against the quota of a queue. *)
Definition enqueue_size (queue : string) (inputs : list EnqueueInput) : Z :=
  fold_right (fun i n => if bool_decide (ei_Queue i = queue) then slen (ei_Type i) + slen (ei_Args i) + slen (ei_Meta i) + 128 + n else n)
    0 inputs.

Section Enqueue.
Context (jsonb : string -> option string) (over_quota : string -> Z -> bool) (creates : string -> bool).

(** [prepareEnqueueQueues], over the distinct queues in the order of the map
    iteration; [creates] tells whether a missing namespace can be created. *)
Fixpoint prepareEnqueueQueues (queues : list string) (inputs : list EnqueueInput) (d : jobs_db) : option job_error * jobs_db :=
  match queues with
  | [] => (None, d)
  | q :: rest =>
      if over_quota q (enqueue_size q inputs) then (Some ErrQuotaExceeded, d)
      else
        match jd_queues d !! q with
        | Some _ => prepareEnqueueQueues rest inputs d
        | None =>
            if creates q then prepareEnqueueQueues rest inputs (mkJobsDb (<[q := empty_queue]> (jd_queues d)) (jd_index d))
            else (Some NoNamespace, d)
        end
  end.

(** The job staged for an input; [fresh] is the identifier generated for it. *)
Definition stage_job (now : Z) (fresh : string) (i : EnqueueInput) : result job_error (string * job) :=
  let id := if bool_decide (ei_ID i = "") then fresh else ei_ID i in
  let args := if bool_decide (ei_Args i = "") then "[]" else ei_Args i in
  let scheduled := default now (ei_ScheduledAt i) in
  let* tr := Transition (mkInput JobStateUnknown JobEventEnqueue now (Some scheduled) None 0 0 0 0 fone false) in
  Ok (id, mkJob 0 (ei_Type i) args (null_if_empty (ei_Meta i)) (tr_State tr) (tr_Attempt tr) (ei_MaxAttempts i) (ei_Priority i)
    (ei_TimeoutMS i) now (Some scheduled) now None None None None None None None (initialValue (ei_RetryInitial i))
    (coefficientValue (ei_RetryCoeff i)) (maxRetryValue (ei_RetryMax i)) None None None (ei_ExpiresAt i) (ei_Tags i)).

Fixpoint stageEnqueueJobs (now : Z) (inputs : list (EnqueueInput * string)) : result job_error (list (string * string * job)) :=
  match inputs with
  | [] => Ok []
  | (i, fresh) :: rest =>
      let* ij := stage_job now fresh i in
      let* more := stageEnqueueJobs now rest in
      Ok ((ei_Queue i, ij.1, ij.2) :: more)
  end.

(** The JSON columns of a row as they are stored. *)
Definition stored_json (j : job) : option job :=
  args ← jsonb (jb_args j);
  meta ← match jb_meta j with Some m => Some <$> jsonb m | None => Some None end;
  Some (mkJob (jb_seq j) (jb_type j) args meta (jb_state j) (jb_attempt j) (jb_max_attempts j) (jb_priority j) (jb_timeout_ms j)
    (jb_created_at j) (jb_scheduled_at j) (jb_enqueued_at j) (jb_started_at j) (jb_completed_at j) (jb_cancelled_at j)
    (jb_discarded_at j) (jb_worker_id j) (jb_lease_token j) (jb_lease_until j) (jb_retry_initial_ms j) (jb_retry_coefficient j)
    (jb_retry_max_ms j) (jb_retry_delay_ms j) (jb_result j) (jb_error j) (jb_expires_at j) (jb_tags j)).

Definition with_seq (j : job) (seq : Z) : job :=
  mkJob seq (jb_type j) (jb_args j) (jb_meta j) (jb_state j) (jb_attempt j) (jb_max_attempts j) (jb_priority j) (jb_timeout_ms j)
    (jb_created_at j) (jb_scheduled_at j) (jb_enqueued_at j) (jb_started_at j) (jb_completed_at j) (jb_cancelled_at j)
    (jb_discarded_at j) (jb_worker_id j) (jb_lease_token j) (jb_lease_until j) (jb_retry_initial_ms j) (jb_retry_coefficient j)
    (jb_retry_max_ms j) (jb_retry_delay_ms j) (jb_result j) (jb_error j) (jb_expires_at j) (jb_tags j).

(** The two inserts for a job. *)
Definition insert_job (q id : string) (j : job) (d : jobs_db) : result job_error jobs_db :=
  match jd_queues d !! q, stored_json j with
  | Some t, Some j' =>
      let j' := with_seq j' (qt_next t) in
      if negb (row_shape id j') then Err RowViolation
      else if bool_decide (is_Some (qt_jobs t !! id)) then Err ErrDuplicateJob
      else if bool_decide (is_Some (jd_index d !! id)) then Err IndexConflict
      else Ok (mkJobsDb (<[q := mkQueue (qt_next t + 1) (<[id := j']> (qt_jobs t))]> (jd_queues d)) (<[id := q]> (jd_index d)))
  | _, _ => Err RowViolation
  end.

Fixpoint insertEnqueuedJobs (jobs : list (string * string * job)) (d : jobs_db) : result job_error jobs_db :=
  match jobs with
  | [] => Ok d
  | (q, id, j) :: rest => let* d := insert_job q id j d in insertEnqueuedJobs rest d
  end.

(** [EnqueueJobs]: the queues are created before the transaction; [order] is
    the order in which the map of queues is visited. *)
Definition EnqueueJobs (now : Z) (order : list string) (inputs : list (EnqueueInput * string)) (d : jobs_db)
    : result job_error (list (string * job)) * jobs_db :=
  match inputs with
  | [] => (Ok [], d)
  | _ =>
      if negb (validateEnqueueQueues inputs.*1) then (Err ErrInvalidName, d)
      else
        match prepareEnqueueQueues order inputs.*1 d with
        | (Some e, d1) => (Err e, d1)
        | (None, d1) =>
            match stageEnqueueJobs now inputs with
            | Err e => (Err e, d1)
            | Ok jobs =>
                match insertEnqueuedJobs jobs d1 with
                | Err e => (Err e, d1)
                | Ok d2 => (Ok ((fun x => (x.1.2, x.2)) <$> jobs), d2)
                end
            end
        end
  end.
End Enqueue.

(** ** Fetching *)

(** What [fetchQueueTx] may claim. *)
Definition claimable (now : Z) (j : job) : bool :=
  bool_decide (jb_state j ∈ [JobAvailable; JobScheduled; JobRetryable; JobActive]) &&
  match jb_expires_at j with Some t => now <? t | None => true end &&
  match next_visible_at j with Some t => t <=? now | None => true end &&
  negb (bool_decide (jb_state j = JobActive) && (jb_max_attempts j <=? jb_attempt j)).

(** [ORDER BY priority DESC, next_visible_at, seq], nulls last. *)
Definition visible_before (x y : option Z) : bool :=
  match x, y with Some a, Some b => a <? b | Some _, None => true | None, _ => false end.

Definition claim_before (x y : string * job) : Prop :=
  let a := x.2 in
  let b := y.2 in
  jb_priority b < jb_priority a \/
  (jb_priority a = jb_priority b /\
   (visible_before (next_visible_at a) (next_visible_at b) = true \/ (next_visible_at a = next_visible_at b /\ jb_seq a <= jb_seq b))).
#[global] Instance claim_before_dec x y : Decision (claim_before x y).
Proof. unfold claim_before. cbn zeta. apply _. Defined.

(** [ORDER BY priority DESC, coalesce(scheduled_at, enqueued_at, created_at), id]; the
    collation of the identifiers is the database's. *)
Definition result_before (x y : string * job) : Prop :=
  let time j := default (jb_enqueued_at j) (jb_scheduled_at j) in
  jb_priority y.2 < jb_priority x.2 \/ (jb_priority x.2 = jb_priority y.2 /\ time x.2 <= time y.2).
#[global] Instance result_before_dec x y : Decision (result_before x y).
Proof. unfold result_before. cbn zeta. apply _. Defined.

Definition lease (now : Z) (worker token : string) (visibility : Z) (j : job) : job :=
  set_progress j (mkProgress JobActive (if bool_decide (jb_state j = JobActive) then jb_attempt j + 1 else Z.max (jb_attempt j) 1)
    (jb_scheduled_at j) (Some now) (jb_completed_at j) (jb_cancelled_at j) (jb_discarded_at j) (null_if_empty worker) (Some token)
    (Some (now + visibility)) None (jb_result j) (jb_error j)).

(** The rows claimed in a queue; [locked] are rows another transaction holds. *)
Definition claimed (now count : Z) (locked : string -> bool) (t : queue_table) : list (string * job) :=
  take (Z.to_nat count) (merge_sort claim_before
    (List.filter (fun kv => claimable now kv.2 && negb (locked kv.1)) (map_to_list (qt_jobs t)))).

Definition fetchQueueTx (now count visibility : Z) (worker token q : string) (locked : string -> bool) (d : jobs_db)
    : list (string * job) * jobs_db :=
  match jd_queues d !! q with
  | None => ([], d)
  | Some t =>
      let leased := (fun kv => (kv.1, lease now worker token visibility kv.2)) <$> claimed now count locked t in
      (merge_sort result_before leased, fold_left (fun d kv => set_job q kv.1 kv.2 d) leased d)
  end.

(** [FetchJobs] over the queues, each with the token generated for it. *)
Fixpoint fetch_queues (now count visibility : Z) (worker : string) (queues : list (string * string)) (locked : string -> bool)
    (out : list (string * job)) (d : jobs_db) : list (string * job) * jobs_db :=
  match queues with
  | [] => (out, d)
  | (q, token) :: rest =>
      if count <=? zlen out then (out, d)
      else
        let '(jobs, d) := fetchQueueTx now (count - zlen out) visibility worker token q locked d in
        fetch_queues now count visibility worker rest locked (out ++ jobs) d
  end.

Definition FetchJobs (now count visibility : Z) (worker : string) (queues : list (string * string)) (locked : string -> bool)
    (d : jobs_db) : list (string * job) * jobs_db :=
  fetch_queues now (if count <=? 0 then 1 else count) visibility worker queues locked [] d.

(** ** Settling *)

Definition queueForJob (id : string) (d : jobs_db) : result job_error string :=
  match jd_index d !! id with Some q => Ok q | None => Err ErrJobNotFound end.

Definition GetJob (id : string) (d : jobs_db) : result job_error job :=
  let* q := queueForJob id d in
  match job_at d q id with Some j => Ok j | None => Err ErrJobNotFound end.

Definition lease_live (now : Z) (j : job) : bool := match jb_lease_until j with Some t => now <? t | None => false end.

(** The row after an event, for the outcome of the transition. *)
Definition settle (now : Z) (event : JobEvent) (tr : TransitionResult) (payload : option string) (j : job) : job :=
  match event with
  | JobEventCancel =>
      set_progress j (mkProgress (tr_State tr) (jb_attempt j) (jb_scheduled_at j) (jb_started_at j) (Some now) (Some now)
        (jb_discarded_at j) None None None (jb_retry_delay_ms j) (jb_result j) (jb_error j))
  | JobEventAck =>
      set_progress j (mkProgress (tr_State tr) (jb_attempt j) (jb_scheduled_at j) (jb_started_at j) (Some now) (jb_cancelled_at j)
        (jb_discarded_at j) (jb_worker_id j) None None (jb_retry_delay_ms j) payload (jb_error j))
  | _ =>
      if bool_decide (tr_State tr = JobDiscarded) then
        set_progress j (mkProgress (tr_State tr) (jb_attempt j) (jb_scheduled_at j) (jb_started_at j) (Some now) (jb_cancelled_at j)
          (Some now) None None None (jb_retry_delay_ms j) (jb_result j) payload)
      else
        set_progress j (mkProgress (tr_State tr) (tr_Attempt tr) (Some (now + 1000 * tr_RetryDelayMS tr)) (jb_started_at j)
          (jb_completed_at j) (jb_cancelled_at j) (jb_discarded_at j) None None None (Some (tr_RetryDelayMS tr)) (jb_result j) payload)
  end.

Section Settle.
Context (jsonb : string -> option string) (now : Z).

(** [NULLIF($n, '')::jsonb] *)
Definition payload_column (payload : string) : result job_error (option string) :=
  if bool_decide (payload = "") then Ok None
  else match jsonb payload with Some v => Ok (Some v) | None => Err RowViolation end.

Definition mutateJob (id leaseToken : string) (event : JobEvent) (payload : string) (retryable : bool) (d : jobs_db)
    : result job_error (job * jobs_db) :=
  let* q := queueForJob id d in
  match job_at d q id with
  | None => Err ErrJobNotFound
  | Some j =>
      match Transition (mkInput (jb_state j) event now None None (jb_attempt j) (jb_max_attempts j) (jb_retry_initial_ms j)
              (jb_retry_max_ms j) (jb_retry_coefficient j) retryable) with
      | Err _ => Err ErrJobConflict
      | Ok tr =>
          if match event with JobEventCancel => false | _ => true end &&
             (bool_decide (default "" (jb_lease_token j) <> leaseToken) || negb (lease_live now j))
          then Err ErrLeaseStale
          else
            match event with
            | JobEventCancel => let j' := settle now event tr None j in Ok (j', set_job q id j' d)
            | JobEventAck | JobEventNack =>
                let* p := payload_column payload in
                let j' := settle now event tr p j in Ok (j', set_job q id j' d)
            | _ => Err ErrInvalidTransition
            end
      end
  end.

Definition CancelJob (id : string) (d : jobs_db) := mutateJob id "" JobEventCancel "" false d.
Definition AckJob (id leaseToken result : string) (d : jobs_db) := mutateJob id leaseToken JobEventAck result false d.
Definition NackJob (id leaseToken jobErr : string) (retryable : bool) (d : jobs_db) := mutateJob id leaseToken JobEventNack jobErr retryable d.
End Settle.

(** ** Heartbeats *)

(** [leases] are the pairs of a job and its token, with distinct jobs. *)
Definition resolveLeaseQueues (leases : list (string * string)) (d : jobs_db) : result job_error (list (string * (string * string))) :=
  let found := omap (fun kv => (fun q => (q, kv)) <$> jd_index d !! kv.1) leases in
  if zlen found =? zlen leases then Ok found else Err ErrJobNotFound.

Definition leases_of (q : string) (byQueue : list (string * (string * string))) : list (string * string) :=
  (List.filter (fun x => bool_decide (x.1 = q)) byQueue).*2.

(** [sortedQueueNames], up to the order of the names. *)
Definition queue_names (byQueue : list (string * (string * string))) : list string := remove_dups byQueue.*1.

Definition check_lease (now : Z) (j : job) (token : string) : result job_error unit :=
  match Transition (mkInput (jb_state j) JobEventHeartbeat now None None 0 0 0 0 fone false) with
  | Err _ => Err ErrJobConflict
  | Ok _ => if bool_decide (default "" (jb_lease_token j) <> token) || negb (lease_live now j) then Err ErrLeaseStale else Ok tt
  end.

(** The rows found are checked before missing rows are reported. *)
Fixpoint validateQueueLeases (now : Z) (q : string) (tokens : list (string * string)) (missing : bool) (d : jobs_db)
    : result job_error unit :=
  match tokens with
  | [] => if missing then Err ErrJobNotFound else Ok tt
  | (id, token) :: rest =>
      match job_at d q id with
      | None => validateQueueLeases now q rest true d
      | Some j => let* _ := check_lease now j token in validateQueueLeases now q rest missing d
      end
  end.

Fixpoint validateQueuedLeases (now : Z) (names : list string) (byQueue : list (string * (string * string))) (d : jobs_db)
    : result job_error unit :=
  match names with
  | [] => Ok tt
  | q :: rest => let* _ := validateQueueLeases now q (leases_of q byQueue) false d in validateQueuedLeases now rest byQueue d
  end.

Definition extend (now visibility : Z) (worker : string) (j : job) : job :=
  set_progress j (mkProgress (jb_state j) (jb_attempt j) (jb_scheduled_at j) (jb_started_at j) (jb_completed_at j) (jb_cancelled_at j)
    (jb_discarded_at j) (null_if_empty worker) (jb_lease_token j) (Some (now + visibility)) (jb_retry_delay_ms j) (jb_result j) (jb_error j)).

(** The row of [id] is updated if it is active and has the token. *)
Definition extend_lease (now visibility : Z) (worker q : string) (d : jobs_db) (kv : string * string) : jobs_db :=
  match job_at d q kv.1 with
  | Some j =>
      if bool_decide (jb_state j = JobActive) && bool_decide (jb_lease_token j = Some kv.2)
      then set_job q kv.1 (extend now visibility worker j) d else d
  | None => d
  end.

Definition extendQueuedLeases (now visibility : Z) (worker : string) (names : list string) (byQueue : list (string * (string * string)))
    (d : jobs_db) : jobs_db :=
  fold_left (fun d q => fold_left (extend_lease now visibility worker q) (leases_of q byQueue) d) names d.

Definition HeartbeatJobs (now visibility : Z) (worker : string) (leases : list (string * string)) (d : jobs_db)
    : result job_error (list string * jobs_db) :=
  match leases with
  | [] => Ok ([], d)
  | _ =>
      let* byQueue := resolveLeaseQueues leases d in
      let names := queue_names byQueue in
      let* _ := validateQueuedLeases now names byQueue d in
      Ok (leases.*1, extendQueuedLeases now visibility worker names byQueue d)
  end.

(** ** Maintenance *)

Definition terminal (s : JobState) : bool := bool_decide (s ∈ [JobCompleted; JobCancelled; JobDiscarded]).

(** [coalesce(completed_at, cancelled_at, discarded_at, created_at)] *)
Definition ended_at (j : job) : Z :=
  default (default (default (jb_created_at j) (jb_discarded_at j)) (jb_cancelled_at j)) (jb_completed_at j).

Definition ended_before (x y : string * job) : Prop := ended_at x.2 <= ended_at y.2.
#[global] Instance ended_before_dec x y : Decision (ended_before x y).
Proof. unfold ended_before. apply _. Defined.

(** The rows [ExpireMessages] deletes. *)
Definition expirable (now retention : Z) (j : job) : bool :=
  reached (jb_expires_at j) now || ((0 <? retention) && terminal (jb_state j) && (ended_at j <=? now - retention)).

Definition expired_jobs (now retention max : Z) (t : queue_table) : list string :=
  (take (Z.to_nat max) (merge_sort ended_before
    (List.filter (fun kv => expirable now retention kv.2) (map_to_list (qt_jobs t))))).*1.

Definition ExpireMessages (now retention max : Z) (q : string) (d : jobs_db) : Z * jobs_db :=
  match jd_queues d !! q with
  | None => (0, d)
  | Some t =>
      let retention := if retention <? 0 then 0 else retention in
      let gone := expired_jobs now retention max t in
      (zlen (List.filter (fun id => bool_decide (is_Some (jd_index d !! id))) gone),
       mkJobsDb (<[q := mkQueue (qt_next t) (filter (fun kv => kv.1 ∉ gone) (qt_jobs t))]> (jd_queues d))
         (filter (fun kv => kv.1 ∉ gone) (jd_index d)))
  end.

(** An active job whose lease is over and whose attempts are used up. *)
Definition exhausted (now : Z) (j : job) : bool :=
  bool_decide (jb_state j = JobActive) && match jb_lease_until j with Some t => t <=? now | None => true end &&
  (jb_max_attempts j <=? jb_attempt j).

Definition lease_before (x y : string * job) : Prop :=
  match jb_lease_until x.2, jb_lease_until y.2 with Some a, Some b => a <= b | None, _ => True | Some _, None => False end.
#[global] Instance lease_before_dec x y : Decision (lease_before x y).
Proof. unfold lease_before. destruct (jb_lease_until x.2), (jb_lease_until y.2); apply _. Defined.

Definition discard (now : Z) (j : job) : job :=
  set_progress j (mkProgress JobDiscarded (jb_attempt j) (jb_scheduled_at j) (jb_started_at j) (Some now) (jb_cancelled_at j) (Some now)
    None None None (jb_retry_delay_ms j) (jb_result j) (jb_error j)).

Definition exhausted_jobs (now max : Z) (locked : string -> bool) (t : queue_table) : list (string * job) :=
  take (Z.to_nat max) (merge_sort lease_before
    (List.filter (fun kv => exhausted now kv.2 && negb (locked kv.1)) (map_to_list (qt_jobs t)))).

Definition DiscardExpiredLeases (now max : Z) (q : string) (locked : string -> bool) (d : jobs_db) : Z * jobs_db :=
  match jd_queues d !! q with
  | None => (0, d)
  | Some t =>
      let victims := exhausted_jobs now max locked t in
      (zlen victims, fold_left (fun d kv => set_job q kv.1 (discard now kv.2) d) victims d)
  end.

Record QueueStats := mkQueueStats {
  qs_Available : Z; qs_Active : Z; qs_Scheduled : Z; qs_Retryable : Z; qs_Completed : Z; qs_Cancelled : Z; qs_Discarded : Z; qs_Total : Z
}.

Definition count_state (s : JobState) (jobs : list job) : Z := zlen (List.filter (fun j => bool_decide (jb_state j = s)) jobs).

Definition Queue_Stats (q : string) (d : jobs_db) : option QueueStats :=
  t ← jd_queues d !! q;
  let jobs := (map_to_list (qt_jobs t)).*2 in
  Some (mkQueueStats (count_state JobAvailable jobs) (count_state JobActive jobs) (count_state JobScheduled jobs)
    (count_state JobRetryable jobs) (count_state JobCompleted jobs) (count_state JobCancelled jobs) (count_state JobDiscarded jobs)
    (zlen jobs)).
