(* ===== verification/JobLife.v ===== *)
(** * The life of a job

    Runs of the operations of [Jobs] with a log of what they did to each job,
    and the protocol the log follows: a lease is settled at most once and only
    by its holder while it lasts, a job is leased at most as often as its
    attempts allow, and a job that is done stays done. *)

From stdpp Require Import gmap sorting.
From S2P Require Import Prelude GoStrings Ns Backoff Jobs.

(** ** The protocol *)

(** Where a job is in its life: [leases] counts the leases granted so far, of
    at most [limit]. *)
Inductive phase :=
| Absent
| Ready (leases limit : Z)
| Leased (leases limit : Z) (token : string) (until : Z)
| Finished.

Inductive life_event :=
| Born (limit : Z)
| Granted (token : string) (now until : Z)
| Extended (token : string) (now until : Z)
| Acked (token : string) (now : Z)
| Failed (token : string) (now : Z) (again : bool)
| Cancelled
| Dropped (now : Z)
| Removed.

Definition life (p : phase) (e : life_event) : option phase :=
  match p, e with
  | Absent, Born limit => Some (Ready 0 limit)
  | Ready n limit, Granted token now until => if n <? limit then Some (Leased (n + 1) limit token until) else None
  | Leased n limit _ until, Granted token now until' =>
      if (until <=? now) && (n <? limit) then Some (Leased (n + 1) limit token until') else None
  | Leased n limit token until, Extended token' now until' =>
      if bool_decide (token = token') && (now <? until) then Some (Leased n limit token until') else None
  | Leased _ _ token until, Acked token' now => if bool_decide (token = token') && (now <? until) then Some Finished else None
  | Leased n limit token until, Failed token' now again =>
      if bool_decide (token = token') && (now <? until) && (negb again || (n <? limit))
      then Some (if again then Ready n limit else Finished) else None
  | (Ready _ _ | Leased _ _ _ _), Cancelled => Some Finished
  | Leased n limit _ until, Dropped now => if (until <=? now) && (limit <=? n) then Some Finished else None
  | (Ready _ _ | Leased _ _ _ _ | Finished), Removed => Some Absent
  | _, _ => None
  end.

(** The phase after a list of events, if they follow the protocol. *)
Definition lives (p : phase) (es : list life_event) : option phase := foldl (fun p e => p ≫= fun p => life p e) (Some p) es.

Definition entry := (string * life_event)%type.

Definition events_of (id : string) (log : list entry) : list life_event := (List.filter (fun x => bool_decide (x.1 = id)) log).*2.

(** ** Runs *)

Inductive JobOp :=
| EnqueueOp (order : list string) (inputs : list (EnqueueInput * string))
| FetchOp (count visibility : Z) (worker : string) (queues : list (string * string)) (locked : string -> bool)
| AckOp (id token result : string)
| NackOp (id token jobErr : string) (retryable : bool)
| CancelOp (id : string)
| HeartbeatOp (visibility : Z) (worker : string) (leases : gmap string string)
| ExpireOp (retention max : Z) (queue : string)
| DiscardOp (max : Z) (queue : string) (locked : string -> bool).

(** The number of leases a job may have. *)
Definition lease_limit (j : job) : Z := Z.max 1 (jb_max_attempts j).

(** What an operation did to the jobs, from its result. *)
Section Exec.
Context (jsonb : string -> option string) (over_quota : string -> Z -> bool) (creates : string -> bool).

Definition exec_job (now : Z) (o : JobOp) (d : jobs_db) : list entry * jobs_db :=
  match o with
  | EnqueueOp order inputs =>
      match EnqueueJobs jsonb over_quota creates now order inputs d with
      | (Ok jobs, d') => ((fun x => (x.1, Born (lease_limit x.2))) <$> jobs, d')
      | (Err _, d') => ([], d')
      end
  | FetchOp count visibility worker queues locked =>
      let '(jobs, d') := FetchJobs now count visibility worker queues locked d in
      ((fun x => (x.1, Granted (default "" (jb_lease_token x.2)) now (now + visibility))) <$> jobs, d')
  | AckOp id token result =>
      match AckJob jsonb now id token result d with
      | Ok (_, d') => ([(id, Acked token now)], d')
      | Err _ => ([], d)
      end
  | NackOp id token jobErr retryable =>
      match NackJob jsonb now id token jobErr retryable d with
      | Ok (j, d') => ([(id, Failed token now (bool_decide (jb_state j = JobRetryable)))], d')
      | Err _ => ([], d)
      end
  | CancelOp id =>
      match CancelJob jsonb now id d with
      | Ok (_, d') => ([(id, Cancelled)], d')
      | Err _ => ([], d)
      end
  | HeartbeatOp visibility worker leases =>
      match HeartbeatJobs now visibility worker (map_to_list leases) d with
      | Ok (_, d') => ((fun kv => (kv.1, Extended kv.2 now (now + visibility))) <$> map_to_list leases, d')
      | Err _ => ([], d)
      end
  | ExpireOp retention max q =>
      match jd_queues d !! q with
      | Some t =>
          ((fun id => (id, Removed)) <$> expired_jobs now (if retention <? 0 then 0 else retention) max t, (ExpireMessages now retention max q d).2)
      | None => ([], d)
      end
  | DiscardOp max q locked =>
      match jd_queues d !! q with
      | Some t => ((fun kv => (kv.1, Dropped now)) <$> exhausted_jobs now max locked t, (DiscardExpiredLeases now max q locked d).2)
      | None => ([], d)
      end
  end.

Fixpoint job_run (ops : list (Z * JobOp)) (d : jobs_db) : list entry * jobs_db :=
  match ops with
  | [] => ([], d)
  | (now, o) :: rest =>
      let '(es, d) := exec_job now o d in
      let '(log, d) := job_run rest d in
      (es ++ log, d)
  end.
End Exec.

(** ** The phase of a job in the tables *)

Definition phase_of (j : job) : phase :=
  match jb_state j with
  | JobScheduled | JobAvailable => Ready 0 (lease_limit j)
  | JobRetryable => Ready (jb_attempt j - 1) (lease_limit j)
  | JobActive => Leased (jb_attempt j) (lease_limit j) (default "" (jb_lease_token j)) (default 0 (jb_lease_until j))
  | _ => Finished
  end.

Definition job_phase (d : jobs_db) (id : string) : phase :=
  match jd_index d !! id ≫= fun q => job_at d q id with Some j => phase_of j | None => Absent end.

(** ** What the tables keep *)

Definition job_ok (j : job) : Prop :=
  match jb_state j with
  | JobAvailable => jb_attempt j = 0
  | JobScheduled => jb_attempt j = 0 /\ is_Some (jb_scheduled_at j)
  | JobRetryable => 2 <= jb_attempt j <= lease_limit j /\ is_Some (jb_scheduled_at j)
  | JobActive => 1 <= jb_attempt j <= lease_limit j /\ is_Some (jb_lease_token j) /\ is_Some (jb_lease_until j)
  | JobCompleted | JobCancelled | JobDiscarded => True
  | JobPending | JobStateUnknown => False
  end.

Record jobs_ok (d : jobs_db) : Prop := {
  ok_index : forall q id, is_Some (job_at d q id) <-> jd_index d !! id = Some q;
  ok_jobs : forall q id j, job_at d q id = Some j -> job_ok j
}.

Lemma jobs_ok_empty : jobs_ok empty_jobs.
Proof.
  split; unfold job_at; cbn.
  - intros q id. rewrite !lookup_empty. cbn. split; [by intros [] | done].
  - intros q id j. by rewrite lookup_empty.
Qed.

(** ** Logs *)

Lemma lives_app p es es' : lives p (es ++ es') = lives p es ≫= fun p => lives p es'.
Proof.
  unfold lives. rewrite foldl_app. destruct (foldl _ (Some p) es) as [p'|]; [done |]. cbn. induction es' as [|e es' IH]; [done | exact IH].
Qed.

Lemma lives_one p e : lives p [e] = life p e.
Proof. done. Qed.

Lemma events_of_app id l l' : events_of id (l ++ l') = events_of id l ++ events_of id l'.
Proof. unfold events_of. by rewrite List.filter_app, fmap_app. Qed.

Lemma events_of_cons id x l : events_of id (x :: l) = if bool_decide (x.1 = id) then x.2 :: events_of id l else events_of id l.
Proof. unfold events_of. cbn. by destruct (bool_decide _). Qed.

Lemma events_of_other id l : id ∉ l.*1 -> events_of id l = [].
Proof.
  induction l as [|x l IH]; [done |]. rewrite events_of_cons, fmap_cons. intros Hn. rewrite bool_decide_false by set_solver. apply IH. set_solver.
Qed.

Lemma events_of_in id e l : NoDup l.*1 -> (id, e) ∈ l -> events_of id l = [e].
Proof.
  induction l as [|x l IH]; [by intros _ ?%not_elem_of_nil |]. rewrite fmap_cons, NoDup_cons, events_of_cons.
  intros [Hn Hnd] [<-|Hin]%elem_of_cons; cbn.
  - rewrite bool_decide_true, events_of_other; done.
  - rewrite bool_decide_false, IH; [done | done | done |]. intros <-. apply Hn. by apply (list_elem_of_fmap_2 fst l (x.1, e)).
Qed.

(** Entries of distinct jobs may be reordered. *)
Lemma events_of_perm id l l' : NoDup l.*1 -> l ≡ₚ l' -> events_of id l = events_of id l'.
Proof.
  intros Hnd Hp. assert (NoDup l'.*1) as Hnd' by (by rewrite <- Hp). destruct (decide (id ∈ l.*1)) as [Hin|Hn].
  - apply list_elem_of_fmap in Hin as ([i e] & Hi & Hin). cbn in Hi. subst i. rewrite (events_of_in id e l), (events_of_in id e l'); [done | done | | done | done].
    by rewrite <- Hp.
  - rewrite !events_of_other; [done | by rewrite <- Hp | done].
Qed.

(** ** One row *)

Lemma job_at_set q id j d q' id' :
  is_Some (job_at d q id) -> job_at (set_job q id j d) q' id' = if decide (q = q' /\ id = id') then Some j else job_at d q' id'.
Proof.
  unfold job_at, set_job. cbn. destruct (jd_queues d !! q) as [t|] eqn:E; [| by intros []]. intros _.
  destruct (decide (q = q')) as [<-|Hq].
  - rewrite lookup_alter_eq, E. cbn. destruct (decide (id = id')) as [<-|Hid].
    + rewrite decide_True, lookup_insert_eq; done.
    + rewrite decide_False, lookup_insert_ne; naive_solver.
  - rewrite lookup_alter_ne, decide_False; naive_solver.
Qed.

Lemma job_phase_at d q id j : jobs_ok d -> job_at d q id = Some j -> job_phase d id = phase_of j.
Proof. intros Hok Hj. unfold job_phase. rewrite (proj1 (ok_index d Hok q id)) by (by rewrite Hj). cbn. by rewrite Hj. Qed.

(** A row of a job is replaced. *)
Lemma set_job_ok d q id j j' :
  jobs_ok d -> job_at d q id = Some j -> job_ok j' ->
  jobs_ok (set_job q id j' d) /\ job_phase (set_job q id j' d) id = phase_of j' /\
  forall i, i <> id -> job_phase (set_job q id j' d) i = job_phase d i.
Proof.
  intros Hok Hj Hj'. assert (is_Some (job_at d q id)) as Hs by (by rewrite Hj).
  assert (jobs_ok (set_job q id j' d)) as Hok'.
  { split.
    - intros q1 i. rewrite job_at_set by done. cbn [jd_index set_job]. destruct (decide _) as [[<- <-]|]; [| apply (ok_index d Hok)].
      split; [intros _; by apply (ok_index d Hok) | done].
    - intros q1 i k. rewrite job_at_set by done. destruct (decide _) as [[<- <-]|]; [by intros [= <-] | apply (ok_jobs d Hok)]. }
  split; [done |]. split.
  - apply (job_phase_at _ q); [done |]. by rewrite job_at_set, decide_True.
  - intros i Hi. unfold job_phase. cbn [jd_index set_job]. destruct (jd_index d !! i) as [q1|]; [| done]. cbn.
    rewrite job_at_set by done. rewrite decide_False; [done |]. by intros [_ <-].
Qed.

(** What a step of the tables did, with its log. *)
Definition follows (d : jobs_db) (es : list entry) (d' : jobs_db) : Prop :=
  jobs_ok d' /\ forall id, lives (job_phase d id) (events_of id es) = Some (job_phase d' id).

Lemma follows_refl d : jobs_ok d -> follows d [] d.
Proof. by split. Qed.

Lemma follows_trans d es d1 es' d2 : follows d es d1 -> follows d1 es' d2 -> follows d (es ++ es') d2.
Proof. intros [_ H1] [Hok H2]. split; [done |]. intros id. rewrite events_of_app, lives_app, H1. apply H2. Qed.

Lemma follows_perm d es es' d' : NoDup es.*1 -> es ≡ₚ es' -> follows d es d' -> follows d es' d'.
Proof. intros Hnd Hp [Hok H]. split; [done |]. intros id. by rewrite <- (events_of_perm id es es'). Qed.

Lemma follows_set d q id j j' e :
  jobs_ok d -> job_at d q id = Some j -> job_ok j' -> life (phase_of j) e = Some (phase_of j') ->
  follows d [(id, e)] (set_job q id j' d).
Proof.
  intros Hok Hj Hj' Hl. destruct (set_job_ok d q id j j' Hok Hj Hj') as (Hok' & Hp & Ho). split; [done |]. intros i.
  rewrite events_of_cons. cbn [fst snd]. destruct (decide (id = i)) as [<-|Hne].
  - rewrite bool_decide_true by done. change (events_of id []) with (@nil life_event). by rewrite lives_one, Hp, (job_phase_at d q id j).
  - rewrite bool_decide_false by done. change (events_of i []) with (@nil life_event). by rewrite Ho.
Qed.

(** Rows of distinct jobs of a queue are replaced. *)
Lemma follows_fold q (f : job -> job) (ev : string * job -> life_event) l d :
  jobs_ok d -> NoDup l.*1 -> (forall id j, (id, j) ∈ l -> job_at d q id = Some j) ->
  (forall id j, (id, j) ∈ l -> job_ok j -> job_ok (f j) /\ life (phase_of j) (ev (id, j)) = Some (phase_of (f j))) ->
  follows d ((fun kv => (kv.1, ev kv)) <$> l) (fold_left (fun d kv => set_job q kv.1 (f kv.2) d) l d).
Proof.
  revert d. induction l as [|[id j] l IH]; intros d Hok Hnd Hat Hf; [by apply follows_refl |]. rewrite fmap_cons in Hnd. apply NoDup_cons in Hnd as [Hn Hnd].
  pose proof (Hat id j ltac:(left)) as Hj. destruct (Hf id j ltac:(left) (ok_jobs d Hok q id j Hj)) as [Hj' Hl].
  pose proof (follows_set d q id j (f j) _ Hok Hj Hj' Hl) as Hstep. cbn [fmap list_fmap fold_left fst snd].
  change (?x :: ?y) with ([x] ++ y). eapply follows_trans; [exact Hstep |]. destruct Hstep as [Hok' _]. apply IH; [done | done | |].
  - intros i k Hin. rewrite job_at_set, decide_False; [apply Hat; by right | | by rewrite Hj]. intros [_ <-]. apply Hn. by apply (list_elem_of_fmap_2 fst l (id, k)).
  - intros i k Hin. apply Hf. by right.
Qed.

(** ** Rows taken from a queue *)

Lemma taken_rows (P : string * job -> bool) (R : string * job -> string * job -> Prop) `{!forall x y, Decision (R x y)} n (t : queue_table) :
  let l := take n (merge_sort R (List.filter P (map_to_list (qt_jobs t)))) in
  NoDup l.*1 /\ forall id j, (id, j) ∈ l -> qt_jobs t !! id = Some j /\ P (id, j) = true.
Proof.
  intros l. assert (l `sublist_of` merge_sort R (List.filter P (map_to_list (qt_jobs t)))) as Hsub by apply sublist_take.
  assert (forall x, x ∈ merge_sort R (List.filter P (map_to_list (qt_jobs t))) -> x ∈ map_to_list (qt_jobs t) /\ P x = true) as Hin.
  { intros x Hx. rewrite merge_sort_Permutation in Hx. apply list_elem_of_In, List.filter_In in Hx as [Hx HP]. by rewrite <- list_elem_of_In in Hx. }
  split.
  - eapply sublist_NoDup; [| exact (fmap_sublist fst _ _ Hsub)]. rewrite merge_sort_Permutation.
    eapply sublist_NoDup; [apply (NoDup_fst_map_to_list (qt_jobs t)) | apply (fmap_sublist fst), filter_sublist].
  - intros id j Hj. eapply elem_of_sublist in Hj; [| exact Hsub]. apply Hin in Hj as [Hj HP]. by apply elem_of_map_to_list in Hj.
Qed.

Lemma job_at_queue d q t id j : jd_queues d !! q = Some t -> qt_jobs t !! id = Some j -> job_at d q id = Some j.
Proof. unfold job_at. by intros -> <-. Qed.

(** ** Leases *)

Lemma lease_ok now worker token visibility j :
  job_ok j -> claimable now j = true ->
  job_ok (lease now worker token visibility j) /\
  life (phase_of j) (Granted token now (now + visibility)) = Some (phase_of (lease now worker token visibility j)).
Proof.
  unfold claimable, job_ok, lease, phase_of, lease_limit, next_visible_at. cbn.
  intros Hj Hc. apply andb_true_iff in Hc as [[[Hs%bool_decide_eq_true _]%andb_true_iff Hv]%andb_true_iff Hx%negb_true_iff].
  destruct (jb_state j); cbn in *; try (exfalso; set_solver); rewrite ?bool_decide_false by done.
  - destruct Hj as [Hj _]. rewrite Hj. split; [split; [lia | eauto] |]. rewrite (proj2 (Z.ltb_lt _ _)) by lia. done.
  - rewrite Hj. split; [split; [lia | eauto] |]. rewrite (proj2 (Z.ltb_lt _ _)) by lia. done.
  - destruct Hj as (Ha & Ht & [u Hu]). rewrite bool_decide_true in Hv, Hx |- * by done. rewrite Hu in *. cbn in *.
    split; [split; [lia | eauto] |]. rewrite (proj2 (Z.leb_le _ _)), (proj2 (Z.ltb_lt _ _)) by lia. done.
  - split; [split; [lia | eauto] |]. rewrite (proj2 (Z.ltb_lt _ _)) by lia. do 2 f_equal. lia.
Qed.

(** The log of fetched jobs. *)
Definition grants (now until : Z) (jobs : list (string * job)) : list entry :=
  (fun x => (x.1, Granted (default "" (jb_lease_token x.2)) now until)) <$> jobs.

Lemma fetch_queue_follows now count visibility worker token q locked d jobs d' :
  jobs_ok d -> fetchQueueTx now count visibility worker token q locked d = (jobs, d') ->
  follows d (grants now (now + visibility) jobs) d'.
Proof.
  intros Hok. unfold fetchQueueTx. destruct (jd_queues d !! q) as [t|] eqn:Eq; intros [= <- <-]; [| by apply follows_refl].
  set (l := claimed now count locked t). set (leased := (fun kv : string * job => (kv.1, lease now worker token visibility kv.2)) <$> l).
  destruct (taken_rows (fun kv => claimable now kv.2 && negb (locked kv.1)) claim_before (Z.to_nat count) t) as [Hnd Hin]. fold (claimed now count locked t) in *. fold l in Hnd, Hin.
  assert (leased.*1 = l.*1) as Hkeys by (unfold leased; rewrite <- list_fmap_compose; by apply list_fmap_ext).
  assert (grants now (now + visibility) leased = (fun kv => (kv.1, Granted token now (now + visibility))) <$> l) as Hg.
  { unfold grants, leased. rewrite <- list_fmap_compose. by apply list_fmap_ext. }
  assert ((grants now (now + visibility) leased).*1 = leased.*1) as Hgk by (unfold grants; rewrite <- list_fmap_compose; by apply list_fmap_ext).
  apply (follows_perm _ (grants now (now + visibility) leased)).
  - by rewrite Hgk, Hkeys.
  - unfold grants. by rewrite merge_sort_Permutation.
  - rewrite Hg. unfold leased. rewrite fold_left_map. cbn [fst snd].
    apply (follows_fold q (lease now worker token visibility) (fun _ => Granted token now (now + visibility))); [done | done | |].
    + intros id j Hj. apply Hin in Hj as [Hj _]. by eapply job_at_queue.
    + intros id j Hj Hjob. apply Hin in Hj as [_ Hc]. cbn in Hc. apply andb_true_iff in Hc as [Hc _]. by apply lease_ok.
Qed.

Lemma fetch_queues_follows now count visibility worker queues locked out d jobs d0 d' :
  follows d0 (grants now (now + visibility) out) d -> fetch_queues now count visibility worker queues locked out d = (jobs, d') ->
  follows d0 (grants now (now + visibility) jobs) d'.
Proof.
  revert out d. induction queues as [|[q token] queues IH]; intros out d Hf; cbn [fetch_queues]; [by intros [= <- <-] |].
  destruct (_ <=? _); [by intros [= <- <-] |]. destruct (fetchQueueTx _ _ _ _ _ _ _ _) as [js d1] eqn:E. intros Hrest.
  apply (IH (out ++ js) d1); [| done]. unfold grants. rewrite fmap_app. eapply follows_trans; [done |].
  eapply fetch_queue_follows; [apply Hf | exact E].
Qed.

(** ** Settling *)

Section Settled.
Context (jsonb : string -> option string) (now : Z).

(** The transition [mutateJob] asks for. *)
Definition asked (j : job) (event : JobEvent) (retryable : bool) : TransitionInput :=
  mkInput (jb_state j) event now None None (jb_attempt j) (jb_max_attempts j) (jb_retry_initial_ms j) (jb_retry_max_ms j)
    (jb_retry_coefficient j) retryable.

Lemma mutate_inv id token event payload retryable d j' d' :
  mutateJob jsonb now id token event payload retryable d = Ok (j', d') ->
  exists q j tr p, job_at d q id = Some j /\ Transition (asked j event retryable) = Ok tr /\
    (event = JobEventCancel \/ (default "" (jb_lease_token j) = token /\ lease_live now j = true)) /\
    j' = settle now event tr p j /\ d' = set_job q id j' d.
Proof.
  unfold mutateJob, queueForJob. destruct (jd_index d !! id) as [q|]; [| done]. cbn. destruct (job_at d q id) as [j|] eqn:Ej; [| done].
  fold (asked j event retryable). destruct (Transition (asked j event retryable)) as [tr|] eqn:Et; [| done].
  destruct (_ && _) eqn:Ec; [done |]. intros H. exists q, j, tr.
  assert (event = JobEventCancel \/ (default "" (jb_lease_token j) = token /\ lease_live now j = true)) as Hl.
  { destruct event; try (by left); right; cbn in Ec; apply orb_false_iff in Ec as [E1%bool_decide_eq_false E2%negb_false_iff];
      by apply dec_stable in E1. }
  destruct event; try done; [destruct (payload_column jsonb payload) as [p|]; [exists p | done].. | exists None]; cbn in H; by injection H as <- <-.
Qed.

Lemma lease_live_until j : lease_live now j = true -> exists u, jb_lease_until j = Some u /\ now < u.
Proof. unfold lease_live. destruct (jb_lease_until j) as [u|]; [| done]. intros H. exists u. split; [done | lia]. Qed.

Lemma live_ltb u : now < u -> (now <? u) = true.
Proof. by apply Z.ltb_lt. Qed.

Lemma ack_follows id token result d j' d' :
  jobs_ok d -> AckJob jsonb now id token result d = Ok (j', d') -> follows d [(id, Acked token now)] d'.
Proof.
  intros Hok (q & j & tr & p & Hj & Ht & [|[Htok Hlive]] & -> & ->)%mutate_inv; [done |].
  pose proof (ok_jobs d Hok q id j Hj) as Hjob. apply lease_live_until in Hlive as (u & Hu & Hlt).
  apply (follows_set d q id j); [done | done | |]; unfold Transition in Ht; cbn in Ht; destruct (bool_decide _) eqn:Eb in Ht; try done;
    injection Ht as <-; apply bool_decide_eq_true, list_elem_of_singleton in Eb; [done |].
  unfold phase_of. rewrite Eb, Hu. cbn. by rewrite bool_decide_true, live_ltb.
Qed.

Lemma nack_follows id token err retryable d j' d' :
  jobs_ok d -> NackJob jsonb now id token err retryable d = Ok (j', d') ->
  follows d [(id, Failed token now (bool_decide (jb_state j' = JobRetryable)))] d'.
Proof.
  intros Hok (q & j & tr & p & Hj & Ht & [|[Htok Hlive]] & -> & ->)%mutate_inv; [done |].
  pose proof (ok_jobs d Hok q id j Hj) as Hjob. apply lease_live_until in Hlive as (u & Hu & Hlt).
  unfold Transition in Ht. cbn in Ht. destruct (bool_decide _) eqn:Eb in Ht; try done.
  apply bool_decide_eq_true, list_elem_of_singleton in Eb. unfold job_ok in Hjob. rewrite Eb in Hjob. unfold lease_limit in Hjob.
  apply (follows_set d q id j); [done | done | |]; cbn [negb] in Ht; destruct (retryable && _) eqn:Er in Ht; injection Ht as <-;
    unfold settle, phase_of, job_ok, lease_limit; cbn [tr_State tr_Attempt]; rewrite ?Eb, ?Hu; eval_decides; cbn.
  - apply andb_true_iff in Er as [_ Er]. split; [lia | eauto].
  - done.
  - apply andb_true_iff in Er as [_ Er]. rewrite bool_decide_true, live_ltb by done. cbn. rewrite (proj2 (Z.ltb_lt _ _)) by lia. do 2 f_equal. lia.
  - by rewrite bool_decide_true, live_ltb by done.
Qed.

Lemma cancel_follows id d j' d' : jobs_ok d -> CancelJob jsonb now id d = Ok (j', d') -> follows d [(id, Cancelled)] d'.
Proof.
  intros Hok (q & j & tr & p & Hj & Ht & _ & -> & ->)%mutate_inv. pose proof (ok_jobs d Hok q id j Hj) as Hjob.
  unfold Transition in Ht. cbn in Ht. destruct (bool_decide _) eqn:Eb in Ht; try done. injection Ht as <-. apply bool_decide_eq_true in Eb.
  apply (follows_set d q id j); [done | done | done |]. unfold phase_of, job_ok in *. destruct (jb_state j); cbn in *; try done; exfalso; set_solver.
Qed.
End Settled.

(** ** Heartbeats *)

(** Grouping a list by its distinct keys only reorders it. *)
Lemma group_perm {A} (names : list string) (l : list (string * A)) :
  NoDup names -> (forall x, x ∈ l -> x.1 ∈ names) ->
  concat ((fun q => List.filter (fun x => bool_decide (x.1 = q)) l) <$> names) ≡ₚ l.
Proof.
  revert l. induction names as [|q names IH]; intros l Hnd Hin.
  - destruct l as [|x l]; [done |]. by pose proof (Hin x ltac:(left)) as ?%not_elem_of_nil.
  - apply NoDup_cons in Hnd as [Hq Hnd]. cbn. set (rest := List.filter (fun x => negb (bool_decide (x.1 = q))) l).
    assert (l ≡ₚ List.filter (fun x => bool_decide (x.1 = q)) l ++ rest) as Hl.
    { unfold rest. clear. induction l as [|x l IH]; cbn; [done |]. destruct (bool_decide _); cbn; [by constructor |].
      rewrite <- Permutation_middle. by constructor. }
    etrans; [| symmetry; exact Hl]. apply Permutation_app_head. etrans; [| apply (IH rest); [done |]].
    + apply reflexive_eq. f_equal. apply list_fmap_ext. intros i q' Hi. assert (q' <> q) as Hne by (intros ->; by apply list_elem_of_lookup_2 in Hi).
      unfold rest. clear -Hne. induction l as [|x l IH]; cbn; [done |]. destruct (decide (x.1 = q')) as [E|E].
      * rewrite (bool_decide_true (x.1 = q')), (bool_decide_false (x.1 = q)) by congruence. cbn. rewrite bool_decide_true by done. by f_equal.
      * rewrite (bool_decide_false (x.1 = q')) by done. destruct (bool_decide (x.1 = q)); cbn; [done |]. by rewrite (bool_decide_false (x.1 = q')).
    + intros x Hx. unfold rest in Hx. apply list_elem_of_In, List.filter_In in Hx as [Hx Hn]. rewrite <- list_elem_of_In in Hx.
      apply negb_true_iff, bool_decide_eq_false in Hn. apply Hin in Hx. set_solver.
Qed.

Lemma check_lease_ok now j token :
  job_ok j -> check_lease now j token = Ok tt ->
  jb_state j = JobActive /\ jb_lease_token j = Some token /\ exists u, jb_lease_until j = Some u /\ now < u.
Proof.
  unfold check_lease, Transition. cbn. intros Hj. destruct (bool_decide _) eqn:Eb; cbn; [| done].
  apply bool_decide_eq_true, list_elem_of_singleton in Eb. destruct (_ || _) eqn:Ec; [done |]. intros _.
  apply orb_false_iff in Ec as [E1%bool_decide_eq_false%dec_stable E2%negb_false_iff].
  unfold job_ok in Hj. rewrite Eb in Hj. destruct Hj as (_ & [t Ht] & _). rewrite Ht in E1 |- *. cbn in E1. subst t.
  split; [done |]. split; [done |]. by apply lease_live_until.
Qed.

Section Heartbeat.
Context (now visibility : Z) (worker : string).

Lemma extend_ok j token u :
  job_ok j -> jb_state j = JobActive -> jb_lease_token j = Some token -> jb_lease_until j = Some u -> now < u ->
  job_ok (extend now visibility worker j) /\ life (phase_of j) (Extended token now (now + visibility)) = Some (phase_of (extend now visibility worker j)).
Proof.
  unfold job_ok, phase_of, lease_limit. cbn. intros Hj Hs Ht Hu Hlt. rewrite Hs in *. rewrite Ht, Hu. cbn. rewrite bool_decide_true, live_ltb by done.
  split; [| done]. destruct Hj. eauto.
Qed.

Lemma extends_follow (l : list (string * (string * string))) d :
  jobs_ok d -> NoDup l.*2.*1 -> (forall q id token, (q, (id, token)) ∈ l -> exists j, job_at d q id = Some j /\ check_lease now j token = Ok tt) ->
  follows d ((fun x => (x.2.1, Extended x.2.2 now (now + visibility))) <$> l) (fold_left (fun d x => extend_lease now visibility worker x.1 d x.2) l d).
Proof.
  revert d. induction l as [|[q [id token]] l IH]; intros d Hok Hnd Hin; [by apply follows_refl |]. cbn [fmap list_fmap fold_left fst snd] in *.
  apply NoDup_cons in Hnd as [Hn Hnd]. destruct (Hin q id token ltac:(left)) as (j & Hj & Hc).
  pose proof (ok_jobs d Hok q id j Hj) as Hjob. destruct (check_lease_ok now j token Hjob Hc) as (Hs & Ht & u & Hu & Hlt).
  assert (extend_lease now visibility worker q d (id, token) = set_job q id (extend now visibility worker j) d) as ->.
  { unfold extend_lease. cbn. rewrite Hj, !bool_decide_true by done. done. }
  destruct (extend_ok j token u Hjob Hs Ht Hu Hlt) as [Hj' Hl].
  pose proof (follows_set d q id j _ _ Hok Hj Hj' Hl) as Hstep. change (?x :: ?y) with ([x] ++ y). eapply follows_trans; [exact Hstep |].
  apply IH; [apply Hstep | done |]. intros q1 i tok Hi. destruct (Hin q1 i tok ltac:(by right)) as (k & Hk & Hck). exists k. split; [| done].
  rewrite job_at_set, decide_False; [done | | by rewrite Hj]. intros [_ <-]. apply Hn.
  rewrite <- list_fmap_compose. by apply (list_elem_of_fmap_2 (fst ∘ snd) l (q1, (id, tok))).
Qed.
End Heartbeat.

Lemma validate_queue_all now q tokens missing d :
  validateQueueLeases now q tokens missing d = Ok tt ->
  forall id token, (id, token) ∈ tokens -> exists j, job_at d q id = Some j /\ check_lease now j token = Ok tt.
Proof.
  revert missing. induction tokens as [|[i t] tokens IH]; intros missing; [by intros _ ? ? ?%not_elem_of_nil |]. cbn [validateQueueLeases].
  destruct (job_at d q i) as [j|] eqn:Ej.
  - destruct (check_lease now j t) as [[]|] eqn:Ec; [| done]. cbn. intros Hv id token [[= -> ->]|Hin]%elem_of_cons; [by exists j | by eapply IH].
  - intros Hv. exfalso. clear -Hv. revert Hv. induction tokens as [|[i t] tokens IH]; cbn [validateQueueLeases]; [done |].
    destruct (job_at d q i) as [j|]; [| apply IH]. destruct (check_lease now j t); [| done]. apply IH.
Qed.

Lemma validate_queues_all now names byQueue d :
  validateQueuedLeases now names byQueue d = Ok tt ->
  forall q, q ∈ names -> validateQueueLeases now q (leases_of q byQueue) false d = Ok tt.
Proof.
  induction names as [|n names IH]; [by intros _ ? ?%not_elem_of_nil |]. cbn [validateQueuedLeases].
  destruct (validateQueueLeases now n _ _ _) as [[]|] eqn:E; [| done]. cbn. intros Hv q [->|Hq]%elem_of_cons; auto.
Qed.

Lemma heartbeat_follows now visibility worker leases d ids d' :
  jobs_ok d -> NoDup leases.*1 -> HeartbeatJobs now visibility worker leases d = Ok (ids, d') ->
  follows d ((fun kv => (kv.1, Extended kv.2 now (now + visibility))) <$> leases) d'.
Proof.
  intros Hok Hnd. unfold HeartbeatJobs. destruct leases as [|kv0 rest]; [intros [= <- <-]; by apply follows_refl |]. set (leases := kv0 :: rest) in *. clearbody leases.
  unfold resolveLeaseQueues. set (found := omap (fun kv => (fun q => (q, kv)) <$> jd_index d !! kv.1) leases).
  destruct (zlen found =? zlen leases) eqn:El; [| done]. cbn.
  assert (found.*2 = leases) as Hf.
  { apply Z.eqb_eq in El. unfold found in *. clear -El. unfold zlen in El. apply Nat2Z.inj in El. induction leases as [|kv l IH]; [done |].
    assert (length (omap (fun kv : string * string => (fun q : string => (q, kv)) <$> jd_index d !! kv.1) l) <= length l)%nat as Hle
      by (clear; induction l as [|x l IH]; cbn; [done |]; destruct (jd_index d !! x.1); cbn; lia).
    cbn in El |- *. destruct (jd_index d !! kv.1); cbn in *; [| lia]. rewrite IH by lia. done. }
  set (names := queue_names found). destruct (validateQueuedLeases now names found d) as [[]|] eqn:Ev; [| done]. cbn. intros [= <- <-].
  set (L := concat ((fun q => List.filter (fun x : string * (string * string) => bool_decide (x.1 = q)) found) <$> names)).
  assert (L ≡ₚ found) as HL.
  { apply group_perm; [apply NoDup_remove_dups |]. intros x Hx. unfold names, queue_names. apply elem_of_remove_dups. by apply (list_elem_of_fmap_2 fst found x). }
  assert (extendQueuedLeases now visibility worker names found d = fold_left (fun d x => extend_lease now visibility worker x.1 d x.2) L d) as ->.
  { unfold extendQueuedLeases, L. rewrite fold_left_concat, fold_left_map. apply fold_left_ext. intros a q Hq. unfold leases_of. rewrite fold_left_map.
    apply fold_left_ext. intros b x [_ Hx%bool_decide_eq_true]%list_elem_of_In%List.filter_In. by rewrite Hx. }
  apply (follows_perm _ ((fun x => (x.2.1, Extended x.2.2 now (now + visibility))) <$> L)).
  - rewrite <- list_fmap_compose. assert (NoDup found.*2.*1) as Hnd' by (by rewrite Hf). rewrite <- list_fmap_compose in Hnd'. by rewrite HL.
  - rewrite HL, <- Hf, <- list_fmap_compose. done.
  - apply extends_follow; [done | by rewrite HL, Hf |]. intros q id token Hin. rewrite HL in Hin.
    apply (validate_queue_all now q (leases_of q found) false).
    + apply (validate_queues_all now names found d Ev). unfold names, queue_names. apply elem_of_remove_dups.
      by apply (list_elem_of_fmap_2 fst found (q, (id, token))).
    + unfold leases_of. apply (list_elem_of_fmap_2 snd _ (q, (id, token))). apply list_elem_of_In, List.filter_In.
      split; [by rewrite <- list_elem_of_In | by apply bool_decide_eq_true].
Qed.

(** ** Maintenance *)

Lemma discard_ok now j : job_ok j -> exhausted now j = true ->
  job_ok (discard now j) /\ life (phase_of j) (Dropped now) = Some (phase_of (discard now j)).
Proof.
  unfold exhausted, job_ok, phase_of, lease_limit. cbn. intros Hj [[Hs%bool_decide_eq_true Hu]%andb_true_iff Hm]%andb_true_iff.
  rewrite Hs in *. destruct Hj as (Ha & _ & [u Eu]). rewrite Eu in *. cbn. split; [done |].
  rewrite Hu, (proj2 (Z.leb_le _ _)) by lia. done.
Qed.

Lemma discard_follows now max q locked d t :
  jobs_ok d -> jd_queues d !! q = Some t ->
  follows d ((fun kv => (kv.1, Dropped now)) <$> exhausted_jobs now max locked t) (DiscardExpiredLeases now max q locked d).2.
Proof.
  intros Hok Eq. unfold DiscardExpiredLeases. rewrite Eq. cbn [snd]. unfold exhausted_jobs.
  destruct (taken_rows (fun kv => exhausted now kv.2 && negb (locked kv.1)) lease_before (Z.to_nat max) t) as [Hnd Hin].
  apply (follows_fold q (discard now) (fun _ => Dropped now)); [done | done | |].
  - intros id j Hj. apply Hin in Hj as [Hj _]. by eapply job_at_queue.
  - intros id j Hj Hjob. apply Hin in Hj as [_ Hc]. cbn in Hc. apply andb_true_iff in Hc as [Hc _]. by apply discard_ok.
Qed.

Lemma phase_of_removed j : life (phase_of j) Removed = Some Absent.
Proof. unfold phase_of. by destruct (jb_state j). Qed.

Lemma expire_follows now retention max q d t :
  jobs_ok d -> jd_queues d !! q = Some t ->
  follows d ((fun id => (id, Removed)) <$> expired_jobs now (if retention <? 0 then 0 else retention) max t) (ExpireMessages now retention max q d).2.
Proof.
  intros Hok Eq. unfold ExpireMessages. rewrite Eq. cbn [snd]. set (gone := expired_jobs now _ max t). set (d' := mkJobsDb _ _).
  destruct (taken_rows (fun kv => expirable now (if retention <? 0 then 0 else retention) kv.2) ended_before (Z.to_nat max) t) as [Hnd Hin].
  assert (forall id, id ∈ gone -> exists j, job_at d q id = Some j) as Hgone.
  { intros id ([i j] & Hi & Hj)%list_elem_of_fmap. cbn in Hi. subst i. apply Hin in Hj as [Hj _]. exists j. by eapply job_at_queue. }
  assert (forall id, id ∈ gone -> jd_index d !! id = Some q) as Hidx.
  { intros id Hid. apply (ok_index d Hok). destruct (Hgone id Hid) as [j ->]. done. }
  assert (forall q1 id, job_at d' q1 id = if decide (id ∈ gone) then None else job_at d q1 id) as Hat.
  { intros q1 id. unfold job_at at 1, d'. cbn. destruct (decide (q = q1)) as [<-|Hne].
    - rewrite lookup_insert_eq. cbn. unfold job_at. rewrite Eq. cbn. destruct (decide (id ∈ gone)) as [Hg|Hg].
      + apply map_lookup_filter_None. right. intros ? _ ?. done.
      + rewrite map_lookup_filter. destruct (qt_jobs t !! id); cbn; [by rewrite option_guard_True | done].
    - rewrite lookup_insert_ne by done. destruct (decide (id ∈ gone)) as [Hg|Hg]; [| done]. fold (job_at d q1 id).
      apply eq_None_not_Some. intros Hs. apply (ok_index d Hok) in Hs. rewrite (Hidx id Hg) in Hs. congruence. }
  assert (forall id, jd_index d' !! id = if decide (id ∈ gone) then None else jd_index d !! id) as Hi.
  { intros id. unfold d'. cbn. destruct (decide (id ∈ gone)).
    - apply map_lookup_filter_None. right. intros ? _ ?. done.
    - rewrite map_lookup_filter. destruct (jd_index d !! id); cbn; [by rewrite option_guard_True | done]. }
  split.
  - split.
    + intros q1 id. rewrite Hat, Hi. destruct (decide (id ∈ gone)); [split; [by intros [] | done] | apply (ok_index d Hok)].
    + intros q1 id j. rewrite Hat. destruct (decide (id ∈ gone)); [done | apply (ok_jobs d Hok)].
  - intros id. assert (job_phase d' id = if decide (id ∈ gone) then Absent else job_phase d id) as ->.
    { unfold job_phase. rewrite Hi. destruct (decide (id ∈ gone)) as [|Hn]; [done |]. destruct (jd_index d !! id) as [q1|]; [| done]. cbn.
      by rewrite Hat, decide_False. }
    destruct (decide (id ∈ gone)) as [Hg|Hn].
    + rewrite (events_of_in id Removed); [| rewrite <- list_fmap_compose; by rewrite list_fmap_id | by apply (list_elem_of_fmap_2 (fun id => (id, Removed)))].
      rewrite lives_one. destruct (Hgone id Hg) as [j Hj]. rewrite (job_phase_at d q id j) by done. apply phase_of_removed.
    + rewrite events_of_other; [done |]. rewrite <- list_fmap_compose. by rewrite list_fmap_id.
Qed.

(** ** Enqueueing *)

Section Enqueued.
Context (jsonb : string -> option string) (over_quota : string -> Z -> bool) (creates : string -> bool).

Lemma prepare_follows queues inputs d e d' :
  jobs_ok d -> prepareEnqueueQueues over_quota creates queues inputs d = (e, d') -> follows d [] d'.
Proof.
  revert d. induction queues as [|q queues IH]; intros d Hok; cbn [prepareEnqueueQueues]; [intros [= <- <-]; by apply follows_refl |].
  destruct (over_quota _ _); [intros [= <- <-]; by apply follows_refl |]. destruct (jd_queues d !! q) as [t|] eqn:Eq; [by apply IH |].
  destruct (creates q); [| intros [= <- <-]; by apply follows_refl]. intros Hrest. set (d1 := mkJobsDb _ _) in Hrest.
  assert (forall q1 id, job_at d1 q1 id = job_at d q1 id) as Hat.
  { intros q1 id. unfold job_at, d1. cbn. destruct (decide (q = q1)) as [<-|Hne]; [| by rewrite lookup_insert_ne].
    rewrite lookup_insert_eq, Eq. cbn. apply lookup_empty. }
  assert (jobs_ok d1) as Hok1.
  { split; [intros q1 id; rewrite Hat; apply (ok_index d Hok) | intros q1 id j; rewrite Hat; apply (ok_jobs d Hok)]. }
  apply (follows_trans d [] d1 [] d'); [| by apply IH]. split; [done |]. intros id. unfold lives, job_phase. cbn.
  destruct (jd_index d !! id) as [q1|]; [| done]. cbn. by rewrite Hat.
Qed.

(** A staged job waits for its time or is available. *)
Definition new_job (j : job) : Prop :=
  (jb_state j = JobScheduled \/ jb_state j = JobAvailable) /\ jb_attempt j = 0 /\ is_Some (jb_scheduled_at j).

Lemma stage_new now fresh i id j :
  stage_job now fresh i = Ok (id, j) -> new_job j.
Proof.
  unfold stage_job, Transition. cbn. rewrite bool_decide_true by set_solver. cbn. intros [= <- <-]. unfold new_job. cbn.
  destruct (now <? default now (ei_ScheduledAt i)); eauto.
Qed.

Lemma insert_follows q id j d d' :
  jobs_ok d -> new_job j -> insert_job jsonb q id j d = Ok d' -> follows d [(id, Born (lease_limit j))] d'.
Proof.
  intros Hok (Hst & Hat0 & Hsc). unfold insert_job. destruct (jd_queues d !! q) as [t|] eqn:Eq; [| done].
  destruct (stored_json jsonb j) as [j1|] eqn:Ej; [| done]. destruct (negb _); [done |].
  case_bool_decide as Ht; [done |]. case_bool_decide as Hi; [done |]. intros [= <-]. apply eq_None_not_Some in Ht. apply eq_None_not_Some in Hi.
  set (j2 := with_seq j1 (qt_next t)). set (d' := mkJobsDb _ _).
  assert (jb_state j2 = jb_state j /\ jb_attempt j2 = 0 /\ is_Some (jb_scheduled_at j2) /\ lease_limit j2 = lease_limit j) as (Hs2 & Ha2 & Hc2 & Hl2).
  { unfold stored_json in Ej. destruct (jsonb (jb_args j)); [| done]. cbn in Ej.
    destruct (match jb_meta j with Some m => Some <$> jsonb m | None => Some None end); [| done]. cbn in Ej. by injection Ej as <-. }
  assert (forall q1 i, job_at d' q1 i = if decide (q = q1 /\ id = i) then Some j2 else job_at d q1 i) as Hat.
  { intros q1 i. unfold job_at, d'. cbn. destruct (decide (q = q1)) as [<-|Hne].
    - rewrite lookup_insert_eq, Eq. cbn. destruct (decide (id = i)) as [<-|Hn]; [by rewrite decide_True, lookup_insert_eq |].
      rewrite decide_False, lookup_insert_ne; naive_solver.
    - rewrite lookup_insert_ne, decide_False; naive_solver. }
  assert (forall q1, job_at d q1 id = None) as Hnone.
  { intros q1. apply eq_None_not_Some. intros Hs%(ok_index d Hok). congruence. }
  assert (jobs_ok d') as Hok'.
  { split.
    - intros q1 i. rewrite Hat. cbn. destruct (decide (id = i)) as [<-|Hn].
      + rewrite lookup_insert_eq. destruct (decide (q = q1)) as [<-|Hq]; [by rewrite decide_True |].
        rewrite decide_False, Hnone by naive_solver. split; [by intros [] | congruence].
      + rewrite decide_False, lookup_insert_ne by naive_solver. apply (ok_index d Hok).
    - intros q1 i k. rewrite Hat. destruct (decide _); [| apply (ok_jobs d Hok)]. intros [= <-]. unfold job_ok. rewrite Hs2, Ha2.
      by destruct Hst as [-> | ->]. }
  split; [done |]. intros i. rewrite events_of_cons. cbn [fst snd]. change (events_of i []) with (@nil life_event). destruct (decide (id = i)) as [<-|Hn].
  - rewrite bool_decide_true, lives_one by done. unfold job_phase at 1. rewrite Hi. cbn.
    rewrite (job_phase_at d' q id j2); [| done | by rewrite Hat, decide_True]. unfold phase_of. rewrite Hs2, Hl2. by destruct Hst as [-> | ->].
  - rewrite bool_decide_false by done. unfold lives, job_phase, d'. cbn. rewrite lookup_insert_ne by done. fold d'.
    destruct (jd_index d !! i) as [q1|]; [| done]. cbn. rewrite Hat, decide_False; naive_solver.
Qed.

Lemma stages_new now inputs jobs :
  stageEnqueueJobs now inputs = Ok jobs ->
  Forall (fun x => new_job x.2) jobs.
Proof.
  revert jobs. induction inputs as [|[i fresh] inputs IH]; intros jobs; cbn [stageEnqueueJobs]; [by intros [= <-] |].
  destruct (stage_job now fresh i) as [[id j]|] eqn:Es; [| done]. cbn. destruct (stageEnqueueJobs now inputs) as [more|]; [| done].
  cbn. intros [= <-]. constructor; [by eapply stage_new | by apply IH].
Qed.

Lemma inserts_follow jobs d d' :
  jobs_ok d -> Forall (fun x => new_job x.2) jobs ->
  insertEnqueuedJobs jsonb jobs d = Ok d' -> follows d ((fun x => (x.1.2, Born (lease_limit x.2))) <$> jobs) d'.
Proof.
  intros Hok Hall. revert d Hok. induction Hall as [|[[q id] j] jobs Hn Hall IH]; intros d Hok; cbn [insertEnqueuedJobs]; [intros [= <-]; by apply follows_refl |].
  destruct (insert_job jsonb q id j d) as [d1|] eqn:Ei; [| done]. cbn. intros Hrest.
  pose proof (insert_follows q id j d d1 Hok Hn Ei) as Hstep. change (?x :: ?y) with ([x] ++ y). eapply follows_trans; [exact Hstep |].
  apply IH; [apply Hstep | done].
Qed.

Lemma enqueue_follows now order inputs d r d' :
  jobs_ok d -> EnqueueJobs jsonb over_quota creates now order inputs d = (r, d') ->
  follows d (match r with Ok jobs => (fun x => (x.1, Born (lease_limit x.2))) <$> jobs | Err _ => [] end) d'.
Proof.
  intros Hok. unfold EnqueueJobs. destruct inputs as [|i0 rest]; [intros [= <- <-]; by apply follows_refl |]. set (inputs := i0 :: rest).
  destruct (negb _); [intros [= <- <-]; by apply follows_refl |].
  destruct (prepareEnqueueQueues over_quota creates order inputs.*1 d) as [[e|] d1] eqn:Ep; pose proof (prepare_follows _ _ _ _ _ Hok Ep) as H1;
    [by intros [= <- <-] |].
  destruct (stageEnqueueJobs now inputs) as [jobs|] eqn:Es; [| by intros [= <- <-]].
  destruct (insertEnqueuedJobs jsonb jobs d1) as [d2|] eqn:Ei; intros [= <- <-]; [| done].
  rewrite <- list_fmap_compose. apply (follows_trans d [] d1 _ d2 H1), inserts_follow; [apply H1 | by eapply stages_new | done].
Qed.

(** ** Runs *)

Lemma exec_follows now o d : jobs_ok d -> follows d (exec_job jsonb over_quota creates now o d).1 (exec_job jsonb over_quota creates now o d).2.
Proof.
  intros Hok. destruct o; cbn [exec_job].
  - destruct (EnqueueJobs _ _ _ _ _ _ _) as [r d'] eqn:E. apply (enqueue_follows _ _ _ _ _ _ Hok) in E. by destruct r.
  - unfold FetchJobs. destruct (fetch_queues _ _ _ _ _ _ _ _) as [jobs d'] eqn:E. cbn. eapply fetch_queues_follows; [| exact E]. by apply follows_refl.
  - destruct (AckJob _ _ _ _ _ _) as [[j d']|] eqn:E; [by eapply ack_follows | by apply follows_refl].
  - destruct (NackJob _ _ _ _ _ _ _) as [[j d']|] eqn:E; [by eapply nack_follows | by apply follows_refl].
  - destruct (CancelJob _ _ _ _) as [[j d']|] eqn:E; [by eapply cancel_follows | by apply follows_refl].
  - destruct (HeartbeatJobs _ _ _ _ _) as [[ids d']|] eqn:E; [| by apply follows_refl].
    eapply heartbeat_follows; [done | apply NoDup_fst_map_to_list | exact E].
  - destruct (jd_queues d !! queue) as [t|] eqn:E; [by apply expire_follows | by apply follows_refl].
  - destruct (jd_queues d !! queue) as [t|] eqn:E; [by apply discard_follows | by apply follows_refl].
Qed.

Lemma job_run_follows ops d : jobs_ok d -> follows d (job_run jsonb over_quota creates ops d).1 (job_run jsonb over_quota creates ops d).2.
Proof.
  revert d. induction ops as [|[now o] ops IH]; intros d Hok; cbn [job_run]; [by apply follows_refl |].
  pose proof (exec_follows now o d Hok) as H1. destruct (exec_job _ _ _ now o d) as [es d1]. cbn [fst snd] in H1.
  specialize (IH d1 (proj1 H1)). destruct (job_run _ _ _ ops d1) as [log d2]. cbn in *. by eapply follows_trans.
Qed.

End Enqueued.
