(* ===== verification/JobFetch.v ===== *)
(** * Claiming jobs

    The statements that claim and discard jobs take the transitions of the
    state machine, and a fetch claims the best jobs of a queue. *)

From stdpp Require Import gmap sorting.
From S2P Require Import Prelude GoStrings Ns Backoff Jobs JobLife.

(** ** States and their texts *)

Lemma ParseJobState_String s : JobState_Valid s = true -> ParseJobState (JobState_String s) = Ok s.
Proof. by destruct s. Qed.

(** ** The transitions of a statement *)

Definition event_input (now : Z) (j : job) (s : JobState) (a : Z) (e : JobEvent) : TransitionInput :=
  mkInput s e now (jb_scheduled_at j) (jb_expires_at j) a (jb_max_attempts j) (jb_retry_initial_ms j) (jb_retry_max_ms j)
    (jb_retry_coefficient j) false.

(** The state and the attempt after some events. *)
Fixpoint drive (now : Z) (j : job) (events : list JobEvent) (s : JobState) (a : Z) : result job_error (JobState * Z) :=
  match events with
  | [] => Ok (s, a)
  | e :: rest => let* tr := Transition (event_input now j s a e) in drive now j rest (tr_State tr) (tr_Attempt tr)
  end.

(** What a fetch amounts to for a job. *)
Definition claim_events (j : job) : list JobEvent :=
  match jb_state j with
  | JobAvailable => [JobEventLease]
  | JobScheduled | JobRetryable => [JobEventScheduleDue; JobEventLease]
  | JobActive => [JobEventLeaseExpired; JobEventLease]
  | _ => []
  end.

Section Machine.
Context (jsonb : string -> option string) (over_quota : string -> Z -> bool) (creates : string -> bool).

Lemma lease_machine now worker token visibility j :
  job_ok j -> claimable now j = true ->
  let j' := lease now worker token visibility j in
  drive now j (claim_events j) (jb_state j) (jb_attempt j) = Ok (jb_state j', jb_attempt j').
Proof.
  unfold claimable, job_ok, claim_events, next_visible_at, lease. cbn.
  intros Hj Hc. apply andb_true_iff in Hc as [[[Hs%bool_decide_eq_true _]%andb_true_iff Hv]%andb_true_iff Hx%negb_true_iff].
  destruct (jb_state j); try (exfalso; set_solver); eval_decides; cbn [drive Transition event_input] in *.
  - destruct Hj as [Hj [t Ht]]. rewrite Ht in *. cbn in *. unfold Transition. cbn. rewrite Ht. eval_decides. cbn. rewrite Hv. cbn. rewrite Hj. done.
  - unfold Transition. cbn. eval_decides. cbn. rewrite Hj. done.
  - destruct Hj as (Ha & _). cbn in Hx. unfold Transition. cbn. eval_decides. cbn. rewrite (proj2 (Z.ltb_lt _ _)) by lia. cbn.
    rewrite (proj2 (Z.eqb_neq _ _)) by lia. done.
  - destruct Hj as [Hj [t Ht]]. rewrite Ht in *. cbn in *. unfold Transition. cbn. rewrite Ht. eval_decides. cbn. rewrite Hv. cbn.
    rewrite (proj2 (Z.eqb_neq _ _)) by lia. eval_decides. cbn. do 2 f_equal. lia.
Qed.

Lemma discard_machine now j :
  job_ok j -> exhausted now j = true ->
  drive now j [JobEventLeaseExpired] (jb_state j) (jb_attempt j) = Ok (jb_state (discard now j), jb_attempt (discard now j)).
Proof.
  unfold exhausted, job_ok. intros Hj [[Hs%bool_decide_eq_true _]%andb_true_iff Hm]%andb_true_iff. rewrite Hs in *.
  cbn. unfold Transition. cbn. eval_decides. cbn. rewrite (proj2 (Z.ltb_ge _ _)) by lia. done.
Qed.

End Machine.

(** ** The best jobs first *)

Lemma visible_before_trans x y z : visible_before x y = true -> visible_before y z = true -> visible_before x z = true.
Proof. destruct x, y, z; cbn; try done. lia. Qed.

Lemma visible_total x y : visible_before x y = true \/ visible_before y x = true \/ x = y.
Proof.
  destruct x as [a|], y as [b|]; cbn; auto. destruct (Z.lt_total a b) as [H|[->|H]]; [left | right; by right | right; left]; lia.
Qed.

#[global] Instance claim_before_trans : Transitive claim_before.
Proof.
  intros x y z. unfold claim_before. cbn zeta. intros [H1|(H1 & H1')] [H2|(H2 & H2')]; [left; lia | left; lia | left; lia |]. right. split; [lia |].
  destruct H1' as [V1|[E1 S1]], H2' as [V2|[E2 S2]].
  - left. by eapply visible_before_trans.
  - left. by rewrite <- E2.
  - left. by rewrite E1.
  - right. split; [congruence | lia].
Qed.

#[global] Instance claim_before_total : Total claim_before.
Proof.
  intros x y. unfold claim_before. cbn zeta. destruct (Z.lt_total (jb_priority x.2) (jb_priority y.2)) as [H|[H|H]]; [by right; left | | by left; left].
  destruct (visible_total (next_visible_at x.2) (next_visible_at y.2)) as [V|[V|V]].
  - left. right. auto.
  - right. right. auto.
  - destruct (Z.le_ge_cases (jb_seq x.2) (jb_seq y.2)); [left; right; auto | right; right; auto].
Qed.

Lemma StronglySorted_app_before {A} (R : A -> A -> Prop) l1 l2 x y : StronglySorted R (l1 ++ l2) -> x ∈ l1 -> y ∈ l2 -> R x y.
Proof.
  induction l1 as [|a l1 IH]; intros Hs Hx Hy; [by apply not_elem_of_nil in Hx |]. cbn in Hs. apply StronglySorted_inv in Hs as [Hs Hf].
  apply elem_of_cons in Hx as [->|Hx]; [| by apply IH]. rewrite Forall_forall in Hf. apply Hf. set_solver.
Qed.


(** ** A run *)

Section Sample.
Definition any_json (s : string) : option string := Some s.

Definition sample_input (queue : string) (priority : Z) : EnqueueInput :=
  mkEnqueue "" "email" "[]" "" queue priority 2 None None 0 0 (of_int 0) [] None.

Definition job_1 : string := "018f0000-0000-7000-8000-000000000001".
Definition job_2 : string := "018f0000-0000-7000-8000-000000000002".

(** Two jobs; the first is fetched, its lease runs out, it is fetched again,
    and the first worker comes too late. *)
Definition sample_jobs : list (Z * JobOp) :=
  [ (0, EnqueueOp ["mail"] [(sample_input "mail" 5, job_1); (sample_input "mail" 1, job_2)]);
    (10, FetchOp 1 1000 "w1" [("mail", "t1")] (fun _ => false));
    (2000, FetchOp 1 1000 "w2" [("mail", "t2")] (fun _ => false));
    (2500, AckOp job_1 "t1" "");
    (2600, AckOp job_1 "t2" "") ].

Definition sample_job_run : list entry * jobs_db := job_run any_json (fun _ _ => false) (fun _ => true) sample_jobs empty_jobs.

Example sample_log :
  sample_job_run.1 =
  [(job_1, Born 2); (job_2, Born 2); (job_1, Granted "t1" 10 1010); (job_1, Granted "t2" 2000 3000); (job_1, Acked "t2" 2600)].
Proof. vm_compute. reflexivity. Qed.


End Sample.
