(* ===== verification/Streams.v ===== *)
(** * Streams of a queue

    [internal/store/stream.go] with the [stream_*] tables and functions that
    [ensure_queue_schema] of [internal/store/schema.sql] creates: an append-only
    event log in three segments, ticks that hold a snapshot of the transactions,
    subscriptions, batches, retries, dead letters, pruning and rotation.

    Appends, retries and replays are transactions of two steps, so that a
    snapshot can be taken between their first statement and their commit; every
    other function runs as one step.  Times and intervals are microseconds.
    JSON is a parameter, as for jobs. *)

From stdpp Require Import gmap sorting.
From S2P Require Import Prelude GoStrings Jobs.

(** ** Transaction snapshots *)

Record snapshot := mkSnapshot { sn_xmin : Z; sn_xmax : Z; sn_xip : list Z }.

(** [pg_visible_in_snapshot] *)
Definition visible (x : Z) (s : snapshot) : bool :=
  if x <? sn_xmin s then true else if sn_xmax s <=? x then false else negb (bool_decide (x ∈ sn_xip s)).

(** The transactions of the database: the next identifier, the greatest one
    that has completed, and those that run. *)
Record xacts := mkXacts { xa_next : Z; xa_latest : Z; xa_running : gset Z }.

(** [pg_current_snapshot] *)
Definition current_snapshot (t : xacts) : snapshot :=
  let xmax := xa_latest t + 1 in
  let xip := List.filter (fun x => x <? xmax) (elements (xa_running t)) in
  mkSnapshot (fold_left Z.min xip xmax) xmax xip.

Definition begin_xact (t : xacts) : Z * xacts :=
  (xa_next t, mkXacts (xa_next t + 1) (xa_latest t) (xa_running t ∪ {[xa_next t]})).

Definition finish_xact (x : Z) (t : xacts) : xacts :=
  mkXacts (xa_next t) (Z.max (xa_latest t) x) (xa_running t ∖ {[x]}).

(** ** Tables *)

Record event := mkEvent {
  ev_seq : Z; ev_segment : Z; ev_id : string; ev_txid : Z; ev_type : string; ev_payload : string; ev_headers : string;
  ev_retry_count : Z; ev_created_at : Z
}.

Record tick := mkTick { tk_id : Z; tk_snapshot : snapshot; tk_max_seq : Z; tk_created_at : Z }.

Record subscription := mkSub { sb_last_tick : Z; sb_next_tick : Z; sb_created_at : Z; sb_updated_at : Z }.

(** A row of [stream_batches] with its rows of [stream_batch_events]. *)
Record batch := mkBatch {
  ba_consumer : string; ba_member : string; ba_start : Z; ba_end : Z; ba_created_at : Z; ba_acked_at : option Z; ba_seqs : list Z
}.

(** A row of [stream_retry_events] or [stream_dead_letters]; [mg_time] is [due_at] or [created_at]. *)
Record message := mkMessage {
  mg_batch : Z; mg_event : string; mg_type : string; mg_payload : string; mg_headers : string; mg_retry_count : Z;
  mg_reason : string; mg_time : Z
}.

(** An [interval] value and its length, with days of 24 hours and months of 30 days. *)
Record pg_interval := mkInterval { iv_Microseconds : Z; iv_Days : Z; iv_Months : Z; iv_Valid : bool }.

Definition day : Z := 24 * 3600 * 1000000.
Definition interval_length (v : pg_interval) : Z := iv_Microseconds v + day * iv_Days v + 30 * day * iv_Months v.

Record config := mkConfig { cf_max_retries : Z; cf_interval : pg_interval; cf_segment : Z; cf_started_at : Z }.

Definition cf_retention (c : config) : Z := interval_length (cf_interval c).
#[global] Arguments cf_retention c : simpl never.

(** What a running transaction has appended, and the rows it has deleted. *)
Record staged := mkStaged { sg_events : list event; sg_retries : list Z; sg_dead : list Z }.

Record stream := mkStream {
  st_xacts : xacts;
  st_staged : gmap Z staged;
  st_events : list event;
  st_next_seq : Z;
  st_ticks : list tick;
  st_next_tick : Z;
  st_subs : gmap string subscription;
  st_batches : gmap Z batch;
  st_next_batch : Z;
  st_retries : gmap Z message;
  st_dead : gmap Z message;
  st_next_message : Z;
  st_config : config;
  st_sealed : gmap Z Z
}.

Definition set_xacts (d : stream) v := mkStream v (st_staged d) (st_events d) (st_next_seq d) (st_ticks d) (st_next_tick d) (st_subs d) (st_batches d) (st_next_batch d) (st_retries d) (st_dead d) (st_next_message d) (st_config d) (st_sealed d).
Definition set_staged (d : stream) v := mkStream (st_xacts d) v (st_events d) (st_next_seq d) (st_ticks d) (st_next_tick d) (st_subs d) (st_batches d) (st_next_batch d) (st_retries d) (st_dead d) (st_next_message d) (st_config d) (st_sealed d).
Definition set_events (d : stream) v := mkStream (st_xacts d) (st_staged d) v (st_next_seq d) (st_ticks d) (st_next_tick d) (st_subs d) (st_batches d) (st_next_batch d) (st_retries d) (st_dead d) (st_next_message d) (st_config d) (st_sealed d).
Definition set_next_seq (d : stream) v := mkStream (st_xacts d) (st_staged d) (st_events d) v (st_ticks d) (st_next_tick d) (st_subs d) (st_batches d) (st_next_batch d) (st_retries d) (st_dead d) (st_next_message d) (st_config d) (st_sealed d).
Definition set_ticks (d : stream) v n := mkStream (st_xacts d) (st_staged d) (st_events d) (st_next_seq d) v n (st_subs d) (st_batches d) (st_next_batch d) (st_retries d) (st_dead d) (st_next_message d) (st_config d) (st_sealed d).
Definition set_subs (d : stream) v := mkStream (st_xacts d) (st_staged d) (st_events d) (st_next_seq d) (st_ticks d) (st_next_tick d) v (st_batches d) (st_next_batch d) (st_retries d) (st_dead d) (st_next_message d) (st_config d) (st_sealed d).
Definition set_batches (d : stream) v n := mkStream (st_xacts d) (st_staged d) (st_events d) (st_next_seq d) (st_ticks d) (st_next_tick d) (st_subs d) v n (st_retries d) (st_dead d) (st_next_message d) (st_config d) (st_sealed d).
Definition set_messages (d : stream) r x n := mkStream (st_xacts d) (st_staged d) (st_events d) (st_next_seq d) (st_ticks d) (st_next_tick d) (st_subs d) (st_batches d) (st_next_batch d) r x n (st_config d) (st_sealed d).
Definition set_config (d : stream) v s := mkStream (st_xacts d) (st_staged d) (st_events d) (st_next_seq d) (st_ticks d) (st_next_tick d) (st_subs d) (st_batches d) (st_next_batch d) (st_retries d) (st_dead d) (st_next_message d) v s.

(** Errors of the functions ([PV001] to [PV005]) and of the Go code. *)
Inductive stream_error :=
| ErrStreamBatchNotFound | ErrStreamMessageNotFound | ErrStreamBatchActive | ErrStreamTickNotFound | ErrStreamBatchTooLarge
| ErrInvalidStreamTick | InvalidStreamArgument | StreamQuotaExceeded | StreamRowViolation.

(** ** Ticks *)

Definition tick_at (d : stream) (i : Z) : option tick := find (fun t => tk_id t =? i) (st_ticks d).

(** [stream_new_tick] *)
Definition stream_new_tick (now : Z) (d : stream) : Z * stream :=
  let t := mkTick (st_next_tick d) (current_snapshot (st_xacts d)) (fold_left Z.max (ev_seq <$> st_events d) 0) now in
  (st_next_tick d, set_ticks d (st_ticks d ++ [t]) (st_next_tick d + 1)).

(** [max] and [min] of tick identifiers, 0 for none. *)
Definition max_tick (ticks : list tick) : Z := fold_left Z.max (tk_id <$> ticks) 0.
Definition min_tick (ticks : list tick) : Z := match tk_id <$> ticks with [] => 0 | i :: rest => fold_left Z.min rest i end.

Definition stream_latest_tick (now : Z) (seen : tick -> bool) (d : stream) : Z * stream :=
  let i := max_tick (List.filter seen (st_ticks d)) in
  if i =? 0 then stream_new_tick now d else (i, d).

(** ** Appending *)

Record StreamMessageInput := mkMessageInput { mi_ID : string; mi_Type : string; mi_Payload : string; mi_Headers : string }.

(** The rows of an append: the sequence values in order of the inputs, in the current segment. *)
Fixpoint event_rows (now x segment seq : Z) (inputs : list (StreamMessageInput * Z)) : list event :=
  match inputs with
  | [] => []
  | (i, r) :: rest => mkEvent seq segment (mi_ID i) x (mi_Type i) (mi_Payload i) (mi_Headers i) r now :: event_rows now x segment (seq + 1) rest
  end.

(** Start a transaction that inserts events and deletes retries or dead letters. *)
Definition stage (now : Z) (inputs : list (StreamMessageInput * Z)) (retries dead : list Z) (d : stream) : Z * stream :=
  let '(x, t) := begin_xact (st_xacts d) in
  let rows := event_rows now x (cf_segment (st_config d)) (st_next_seq d) inputs in
  (x, set_next_seq (set_staged (set_xacts d t) (<[x := mkStaged rows retries dead]> (st_staged d))) (st_next_seq d + zlen inputs)).

Definition end_xact (x : Z) (d : stream) : stream :=
  set_staged (set_xacts d (finish_xact x (st_xacts d))) (delete x (st_staged d)).

(** Commit transaction [x]. *)
Definition commit (x : Z) (d : stream) : stream :=
  match st_staged d !! x with
  | Some s =>
      set_messages (set_events (end_xact x d) (st_events d ++ sg_events s))
        (filter (fun kv => kv.1 ∉ sg_retries s) (st_retries d)) (filter (fun kv => kv.1 ∉ sg_dead s) (st_dead d)) (st_next_message d)
  | None => set_xacts d (finish_xact x (st_xacts d))
  end.

(** Roll transaction [x] back. *)
Definition rollback (x : Z) (d : stream) : stream := end_xact x d.

(** The rows another transaction has deleted and not committed. *)
Definition deleted_retries (d : stream) : list Z := concat (sg_retries <$> (map_to_list (st_staged d)).*2).
Definition deleted_dead (d : stream) : list Z := concat (sg_dead <$> (map_to_list (st_staged d)).*2).

Section Append.
Context (jsonb : string -> option string) (over_quota : Z -> bool).

(** [streamAppendArgs]; the second component of an input is the identifier generated for it. *)
Fixpoint streamAppendArgs (inputs : list (StreamMessageInput * string)) : result stream_error (list StreamMessageInput) :=
  match inputs with
  | [] => Ok []
  | (i, fresh) :: rest =>
      let id := if bool_decide (mi_ID i = "") then fresh else mi_ID i in
      if 1024 <? slen id then Err InvalidStreamArgument
      else
        let or v s := if bool_decide (s = "") then v else s in
        let* more := streamAppendArgs rest in
        Ok (mkMessageInput id (or "default" (mi_Type i)) (or "{}" (mi_Payload i)) (or "{}" (mi_Headers i)) :: more)
  end.

(** The casts and the constraint of [stream_events]. *)
Definition event_columns (i : StreamMessageInput) : option (StreamMessageInput * Z) :=
  p ← jsonb (mi_Payload i);
  h ← jsonb (mi_Headers i);
  if (1 <=? slen (mi_ID i)) && (slen (mi_ID i) <=? 1024)
  then Some (mkMessageInput (mi_ID i) (mi_Type i) p h, 0) else None.

(** [AppendMessages] up to the commit of [stream_append]: the transaction and the state. *)
Definition AppendMessages (now : Z) (inputs : list (StreamMessageInput * string)) (d : stream) : result stream_error (option Z) * stream :=
  match inputs with
  | [] => (Ok None, d)
  | _ =>
      let size := fold_left (fun n i => n + slen (mi_Payload i) + slen (mi_Headers i)) inputs.*1 0 in
      if over_quota size then (Err StreamQuotaExceeded, d)
      else
        match streamAppendArgs inputs with
        | Err e => (Err e, d)
        | Ok args =>
            match mapM event_columns args with
            | None => (Err StreamRowViolation, d)
            | Some rows => let '(x, d) := stage now rows [] [] d in (Ok (Some x), d)
            end
        end
  end.
End Append.

(** ** Subscriptions *)

Definition valid_consumer (consumer : string) : bool :=
  negb (bool_decide (consumer = "")) && (slen consumer <=? 128).

Definition insert_sub (now : Z) (consumer : string) (t : Z) (d : stream) : subscription * stream :=
  match st_subs d !! consumer with
  | Some s => (s, d)
  | None => let s := mkSub t t now now in (s, set_subs d (<[consumer := s]> (st_subs d)))
  end.

(** [stream_subscribe] *)
Definition stream_subscribe (now : Z) (consumer : string) (from : option Z) (d : stream) : result stream_error (subscription * stream) :=
  match from with
  | None => let '(t, d) := stream_latest_tick now (fun _ => true) d in Ok (insert_sub now consumer t d)
  | Some f =>
      if f =? 0 then
        let t := min_tick (st_ticks d) in
        if t =? 0 then let '(t, d) := stream_new_tick now d in Ok (insert_sub now consumer t d)
        else Ok (insert_sub now consumer t d)
      else
        match tick_at d f with
        | None => Err ErrStreamTickNotFound
        | Some _ => Ok (insert_sub now consumer f d)
        end
  end.

Definition Subscribe (now : Z) (consumer : string) (from : option Z) (d : stream) : result stream_error (subscription * stream) :=
  if negb (valid_consumer consumer) then Err InvalidStreamArgument
  else if match from with Some f => f <? 0 | None => false end then Err ErrInvalidStreamTick
  else stream_subscribe now consumer from d.

(** Deleting the subscription deletes its batches. *)
Definition Unsubscribe (consumer : string) (d : stream) : bool * stream :=
  match st_subs d !! consumer with
  | None => (false, d)
  | Some _ =>
      (true, set_batches (set_subs d (delete consumer (st_subs d)))
               (filter (fun kv => ba_consumer kv.2 <> consumer) (st_batches d)) (st_next_batch d))
  end.

(** ** Receiving *)

(** An event is delivered between two snapshots. *)
Definition between (lt ct : snapshot) (e : event) : bool :=
  visible (ev_txid e) ct && negb (visible (ev_txid e) lt) &&
  ((sn_xmax lt <=? ev_txid e) ||
   (bool_decide (ev_txid e ∈ sn_xip lt) && negb (bool_decide (ev_txid e ∈ sn_xip ct)))).

(** The rows a receive returns: one for the batch, then one for each event. *)
Inductive batch_row :=
| BatchRow (id : option Z) (consumer member : string) (start_tick end_tick : Z) (created_at : option Z)
| EventRow (e : event).

Definition seq_before (x y : event) : Prop := ev_seq x <= ev_seq y.
#[global] Instance seq_before_dec x y : Decision (seq_before x y).
Proof. unfold seq_before. apply _. Defined.

(** [stream_batch] *)
Definition stream_batch (p_batch : Z) (d : stream) : list batch_row :=
  match st_batches d !! p_batch with
  | None => []
  | Some b =>
      BatchRow (Some p_batch) (ba_consumer b) (ba_member b) (ba_start b) (ba_end b) (Some (ba_created_at b)) ::
      (EventRow <$> merge_sort seq_before (List.filter (fun e => bool_decide (ev_seq e ∈ ba_seqs b)) (st_events d)))
  end.

(** The unacknowledged batch of a member; the unique index allows one. *)
Definition active_batch (consumer member : string) (d : stream) : option Z :=
  fst <$> find (fun kv => bool_decide (ba_consumer kv.2 = consumer) && bool_decide (ba_member kv.2 = member) &&
                          bool_decide (ba_acked_at kv.2 = None)) (map_to_list (st_batches d)).

Definition any_active (consumer : string) (d : stream) : bool :=
  existsb (fun kv => bool_decide (ba_consumer kv.2 = consumer) && bool_decide (ba_acked_at kv.2 = None)) (map_to_list (st_batches d)).

Definition set_cursor (now : Z) (consumer : string) (last next : Z) (s : subscription) (d : stream) : stream :=
  set_subs d (<[consumer := mkSub last next (sb_created_at s) now]> (st_subs d)).

(** The events of a batch from tick [start] to tick [stop], in order of their numbers. *)
Definition window (start stop : Z) (d : stream) : list event :=
  match tick_at d start, tick_at d stop with
  | Some lt, Some ct => merge_sort seq_before (List.filter (between (tk_snapshot lt) (tk_snapshot ct)) (st_events d))
  | _, _ => []
  end.

(** Some event is visible now and was not at tick [start]. *)
Definition news (start : Z) (d : stream) : bool :=
  match tick_at d start with
  | Some lt => existsb (between (tk_snapshot lt) (current_snapshot (st_xacts d))) (st_events d)
  | None => false
  end.

(** The end of [stream_receive], from [start] to [stop]. *)
Definition deliver_batch (now : Z) (consumer member : string) (limit start stop : Z) (s : subscription) (d : stream)
    : result stream_error (list batch_row * stream) :=
  let seqs := ev_seq <$> take (Z.to_nat (limit + 1)) (window start stop d) in
  if limit <? zlen seqs then Err ErrStreamBatchTooLarge
  else if zlen seqs =? 0 then
    let last := if bool_decide (member = "") || negb (any_active consumer d) then stop else sb_last_tick s in
    Ok ([BatchRow None consumer member start stop None], set_cursor now consumer last stop s d)
  else
    let b := st_next_batch d in
    let d := set_batches d (<[b := mkBatch consumer member start stop now None seqs]> (st_batches d)) (b + 1) in
    let d := set_cursor now consumer (sb_last_tick s) stop s d in
    Ok (stream_batch b d, d).

(** A consumer that is not subscribed starts at the latest tick; [seen] are the
    ticks committed when the function looks for them, which need not be all
    that exist when it goes on. *)
Definition auto_subscribe (now : Z) (seen : tick -> bool) (consumer : string) (d : stream) : subscription * stream :=
  match st_subs d !! consumer with
  | Some s => (s, d)
  | None => let '(t, d) := stream_latest_tick now seen d in insert_sub now consumer t d
  end.

Definition receive_next (now : Z) (seen : tick -> bool) (consumer member : string) (limit : Z) (s : subscription) (d : stream)
    : result stream_error (list batch_row * stream) :=
  match active_batch consumer member d with
  | Some b => Ok (stream_batch b d, d)
  | None =>
      if bool_decide (member = "") && (sb_last_tick s <? sb_next_tick s) then Err ErrStreamBatchActive
      else
        let start := Z.max (sb_next_tick s) (sb_last_tick s) in
        let stop := max_tick (List.filter (fun t => seen t && (start <? tk_id t)) (st_ticks d)) in
        if stop =? 0 then
          if negb (news start d) then Ok ([BatchRow None consumer member start start None], d)
          else let '(stop, d) := stream_new_tick now d in deliver_batch now consumer member limit start stop s d
        else deliver_batch now consumer member limit start stop s d
  end.

(** [stream_receive] *)
Definition stream_receive (now : Z) (seen : tick -> bool) (consumer member : string) (limit : Z) (d : stream)
    : result stream_error (list batch_row * stream) :=
  let '(s, d) := auto_subscribe now seen consumer d in
  receive_next now seen consumer member limit s d.

(** What the Go code returns. *)
Record StreamMessage := mkStreamMessage {
  sm_ID : string; sm_Type : string; sm_Payload : string; sm_Headers : string; sm_RetryCount : Z; sm_CreatedAt : Z
}.
Record StreamBatch := mkStreamBatch {
  sB_ID : Z; sB_Consumer : string; sB_Member : string; sB_StartTick : Z; sB_EndTick : Z; sB_Messages : list StreamMessage; sB_CreatedAt : option Z
}.

Definition message_of (e : event) : StreamMessage :=
  mkStreamMessage (ev_id e) (ev_type e) (ev_payload e) (ev_headers e) (ev_retry_count e) (ev_created_at e).

(** The loop of [collectStreamBatch]; an event row before the batch row is a nil dereference. *)
Fixpoint collect_rows (rows : list batch_row) (b : option StreamBatch) : option (option StreamBatch) :=
  match rows with
  | [] => Some b
  | BatchRow id c m s e t :: rest => collect_rows rest (Some (mkStreamBatch (default 0 id) c m s e [] t))
  | EventRow e :: rest =>
      match b with
      | None => None
      | Some b =>
          collect_rows rest (Some (mkStreamBatch (sB_ID b) (sB_Consumer b) (sB_Member b) (sB_StartTick b) (sB_EndTick b)
            (sB_Messages b ++ [message_of e]) (sB_CreatedAt b)))
      end
  end.

Definition collectStreamBatch (rows : list batch_row) : option (result stream_error StreamBatch) :=
  b ← collect_rows rows None;
  Some (match b with Some b => Ok b | None => Err ErrStreamBatchNotFound end).

(** The ceiling of [receiveBatch]. *)
Definition receive_limit (limit : Z) : Z := if limit <=? 0 then 100 else if 100000 <? limit then 100000 else limit.

Definition receiveBatch (now : Z) (seen : tick -> bool) (consumer member : string) (limit : Z) (d : stream)
    : result stream_error (list batch_row * stream) :=
  if negb (valid_consumer consumer) then Err InvalidStreamArgument
  else stream_receive now seen consumer member (receive_limit limit) d.

Definition ReceiveBatch (now : Z) (seen : tick -> bool) (consumer : string) (limit : Z) (d : stream) :=
  receiveBatch now seen consumer "" limit d.

Definition ReceiveCoopBatch (now : Z) (seen : tick -> bool) (consumer member : string) (limit : Z) (d : stream) :=
  if negb (valid_consumer consumer) then Err InvalidStreamArgument
  else if bool_decide (member = "") || (128 <? slen member) then Err InvalidStreamArgument
  else receiveBatch now seen consumer member limit d.

Definition GetBatch (id : Z) (d : stream) : option (result stream_error StreamBatch) := collectStreamBatch (stream_batch id d).

(** ** Acknowledging *)

(** The recursive query of [stream_ack]: acknowledged batches that start where
    the previous one ended.  Every batch ends after it starts, so the number of
    batches bounds the depth. *)
Fixpoint chain (fuel : nat) (acked : list (Z * batch)) (at_tick : Z) : list (Z * Z) :=
  match fuel with
  | O => []
  | S fuel =>
      concat ((fun kv => (kv.1, ba_end kv.2) :: chain fuel acked (ba_end kv.2)) <$>
        List.filter (fun kv => ba_start kv.2 =? at_tick) acked)
  end.

Definition ack_batch (now : Z) (b : batch) : batch :=
  mkBatch (ba_consumer b) (ba_member b) (ba_start b) (ba_end b) (ba_created_at b) (Some now) (ba_seqs b).

Definition stream_ack (now : Z) (p_batch : Z) (d : stream) : result stream_error (Z * stream) :=
  match st_batches d !! p_batch with
  | None => Err ErrStreamBatchNotFound
  | Some b =>
      if bool_decide (is_Some (ba_acked_at b)) then Err ErrStreamBatchNotFound
      else
        let d := set_batches d (<[p_batch := ack_batch now b]> (st_batches d)) (st_next_batch d) in
        match st_subs d !! ba_consumer b with
        | None => Ok (ba_end b, d)
        | Some s =>
            let acked := List.filter (fun kv => bool_decide (ba_consumer kv.2 = ba_consumer b) && bool_decide (is_Some (ba_acked_at kv.2)))
                           (map_to_list (st_batches d)) in
            match chain (length acked) acked (sb_last_tick s) with
            | [] => Ok (ba_end b, d)
            | c :: cs =>
                let chain_end := fold_left Z.max cs.*2 c.2 in
                let d := set_cursor now (ba_consumer b) chain_end (Z.max (sb_next_tick s) chain_end) s d in
                Ok (ba_end b, set_batches d (filter (fun kv => kv.1 ∉ (c :: cs).*1) (st_batches d)) (st_next_batch d))
            end
        end
  end.

Definition AckBatch (now : Z) (id : Z) (d : stream) : result stream_error (Z * stream) := stream_ack now id d.

(** ** Failing, retries and dead letters *)

Inductive nack_result := Retryable | DeadLetter.

Definition has_message (id : Z) (event : string) (ms : gmap Z message) : bool :=
  existsb (fun kv => (mg_batch kv.2 =? id) && bool_decide (mg_event kv.2 = event)) (map_to_list ms).

(** [stream_nack]; a message of the batch with this identifier is the first in
    the order of the log. *)
Definition stream_nack (now : Z) (p_batch : Z) (p_event : string) (retry : Z) (reason : string) (d : stream)
    : result stream_error (nack_result * stream) :=
  match st_batches d !! p_batch with
  | None => Err ErrStreamBatchNotFound
  | Some b =>
      if bool_decide (is_Some (ba_acked_at b)) then Err ErrStreamBatchNotFound
      else
        match find (fun e => bool_decide (ev_seq e ∈ ba_seqs b) && bool_decide (ev_id e = p_event)) (st_events d) with
        | None => Err ErrStreamMessageNotFound
        | Some e =>
            let next := ev_retry_count e + 1 in
            let row reason time := mkMessage p_batch p_event (ev_type e) (ev_payload e) (ev_headers e) next reason time in
            let n := st_next_message d in
            if cf_max_retries (st_config d) <? next then
              if has_message p_batch p_event (st_dead d) then Ok (DeadLetter, d)
              else Ok (DeadLetter, set_messages d (st_retries d) (<[n := row reason now]> (st_dead d)) (n + 1))
            else
              if has_message p_batch p_event (st_retries d) then Ok (Retryable, d)
              else Ok (Retryable, set_messages d (<[n := row "" (now + retry)]> (st_retries d)) (st_dead d) (n + 1))
        end
  end.

Definition NackMessage (now : Z) (id : Z) (event : string) (retryAfter : Z) (reason : string) (d : stream) :=
  stream_nack now id event (if retryAfter <=? 0 then 60000000 else retryAfter) reason d.

Definition due_before (x y : Z * message) : Prop := mg_time x.2 <= mg_time y.2.
#[global] Instance due_before_dec x y : Decision (due_before x y).
Proof. unfold due_before. apply _. Defined.

Definition again (count : message -> Z) (kv : Z * message) : StreamMessageInput * Z :=
  (mkMessageInput (mg_event kv.2) (mg_type kv.2) (mg_payload kv.2) (mg_headers kv.2), count kv.2).

(** [stream_process_retries] up to its commit; it waits, and so does nothing
    yet, while another transaction has deleted one of its rows. *)
Definition stream_process_retries (now : Z) (max : Z) (d : stream) : option Z * stream :=
  let due := take (Z.to_nat max) (merge_sort due_before (List.filter (fun kv => mg_time kv.2 <=? now) (map_to_list (st_retries d)))) in
  if existsb (fun kv => bool_decide (kv.1 ∈ deleted_retries d)) due then (None, d)
  else let '(x, d) := stage now (again mg_retry_count <$> due) due.*1 [] d in (Some x, d).

(** [max <= 0] is [ExpireBatch]. *)
Definition ExpireBatch : Z := 4096.

Definition ProcessRetries (now max : Z) (d : stream) : option Z * stream :=
  stream_process_retries now (if max <=? 0 then ExpireBatch else max) d.

(** [stream_replay_dead_letter] up to its commit. *)
Definition ReplayDeadLetter (now : Z) (id : Z) (d : stream) : result stream_error (option Z * stream) :=
  if bool_decide (id ∈ deleted_dead d) then Ok (None, d)
  else
    match st_dead d !! id with
    | None => Err ErrStreamMessageNotFound
    | Some m => let '(x, d) := stage now [again (fun _ => 0) (id, m)] [] [id] d in Ok (Some x, d)
    end.

(** [stream_replay_dead_letters] up to its commit. *)
Definition ReplayAllDeadLetters (now : Z) (d : stream) : option Z * stream :=
  let all := map_to_list (st_dead d) in
  if existsb (fun kv => bool_decide (kv.1 ∈ deleted_dead d)) all then (None, d)
  else let '(x, d) := stage now (again (fun _ => 0) <$> all) [] all.*1 d in (Some x, d).

Definition PurgeDeadLetters (now older : Z) (d : stream) : option Z * stream :=
  let older := if older <=? 0 then 30 * 24 * 3600 * 1000000 else older in
  let old (kv : Z * message) := mg_time kv.2 < now - older in
  if existsb (fun kv => bool_decide (old kv) && bool_decide (kv.1 ∈ deleted_dead d)) (map_to_list (st_dead d)) then (None, d)
  else
    let kept := filter (fun kv => ~ old kv) (st_dead d) in
    (Some (Z.of_nat (size (st_dead d)) - Z.of_nat (size kept)), set_messages d (st_retries d) kept (st_next_message d)).

(** ** Configuration and information *)

(** [intervalDuration], in nanoseconds. *)
Definition intervalDuration (v : pg_interval) : Z := if negb (iv_Valid v) then 0 else wrap64 (iv_Microseconds v * 1000).

Record StreamConfig := mkStreamConfig { sc_MaxRetries : Z; sc_Retention : Z }.

Definition Config (d : stream) : StreamConfig :=
  mkStreamConfig (cf_max_retries (st_config d)) (intervalDuration (cf_interval (st_config d))).

(** The retention in microseconds; [make_interval] fills only that field. *)
Definition SetConfig (maxRetries retention : Z) (d : stream) : stream :=
  let c := st_config d in
  set_config d (mkConfig (if 0 <=? maxRetries then maxRetries else cf_max_retries c)
    (if 0 <? retention then mkInterval retention 0 0 true else cf_interval c) (cf_segment c) (cf_started_at c)) (st_sealed d).

Record StreamInfo := mkStreamInfo {
  si_Events : Z; si_Consumers : Z; si_Active : Z; si_Retries : Z; si_DeadLetters : Z; si_OldestEvent : option Z; si_LastTick : Z;
  si_MaxRetries : Z; si_Retention : Z; si_Segment : Z; si_SegmentStartedAt : Z; si_RotationPeriod : Z
}.

Definition min_of (l : list Z) : option Z := match l with [] => None | x :: rest => Some (fold_left Z.min rest x) end.

Definition Info (d : stream) : StreamInfo :=
  let c := st_config d in
  mkStreamInfo (zlen (st_events d)) (Z.of_nat (size (st_subs d)))
    (zlen (List.filter (fun kv => bool_decide (ba_acked_at kv.2 = None)) (map_to_list (st_batches d))))
    (Z.of_nat (size (st_retries d))) (Z.of_nat (size (st_dead d))) (min_of (ev_created_at <$> st_events d)) (max_tick (st_ticks d))
    (cf_max_retries c) (intervalDuration (cf_interval c)) (cf_segment c) (cf_started_at c) (Z.quot (intervalDuration (cf_interval c)) 2).

Record StreamConsumerInfo := mkConsumerInfo { ci_Consumer : string; ci_LastTick : Z; ci_ActiveBatch : Z; ci_Pending : Z; ci_UpdatedAt : Z }.

(** The row of a consumer in [ListConsumers]; the caller sees them ordered by name. *)
Definition consumer_info (d : stream) (kv : string * subscription) : StreamConsumerInfo :=
  let '(c, s) := kv in
  let active := fst <$> List.filter (fun kv => bool_decide (ba_consumer kv.2 = c) && bool_decide (ba_acked_at kv.2 = None)) (map_to_list (st_batches d)) in
  let seen := match tick_at d (sb_last_tick s) with Some t => tk_max_seq t | None => 0 end in
  mkConsumerInfo c (sb_last_tick s) (default 0 (min_of active)) (zlen (List.filter (fun e => seen <? ev_seq e) (st_events d))) (sb_updated_at s).

Definition ListConsumers (d : stream) : list StreamConsumerInfo := consumer_info d <$> map_to_list (st_subs d).

Definition dead_after (x y : Z * message) : Prop := y.1 <= x.1.
#[global] Instance dead_after_dec x y : Decision (dead_after x y).
Proof. unfold dead_after. apply _. Defined.

Definition ListDeadLetters (limit : Z) (d : stream) : list (Z * message) :=
  let limit := if (limit <=? 0) || (1000 <? limit) then 100 else limit in
  take (Z.to_nat limit) (merge_sort dead_after (map_to_list (st_dead d))).

(** ** Pruning and rotation *)

Definition referenced_tick (d : stream) (i : Z) : bool :=
  existsb (fun kv => sb_last_tick kv.2 =? i) (map_to_list (st_subs d)) ||
  existsb (fun kv => (ba_start kv.2 =? i) || (ba_end kv.2 =? i)) (map_to_list (st_batches d)).

(** Delete the ticks selected by [P], but for the least and the referenced ones. *)
Definition drop_ticks (P : tick -> bool) (d : stream) : stream :=
  set_ticks d (List.filter (fun t => (tk_id t =? min_tick (st_ticks d)) || referenced_tick d (tk_id t) || negb (P t)) (st_ticks d)) (st_next_tick d).

(** [stream_prune_ticks] *)
Definition PruneTicks (now max : Z) (d : stream) : Z * stream :=
  let max := if max <=? 0 then ExpireBatch else max in
  let first := take (Z.to_nat max) (List.filter (fun i => negb (i =? min_tick (st_ticks d))) (tk_id <$> st_ticks d)) in
  let d' := drop_ticks (fun t => (tk_created_at t <? now - cf_retention (st_config d)) && bool_decide (tk_id t ∈ first)) d in
  (zlen (st_ticks d) - zlen (st_ticks d'), d').

(** [retention / 2.0], rounded to the nearest microsecond, halves to even. *)
Definition half (n : Z) : Z := if Z.even n then n / 2 else if Z.even (n / 2) then n / 2 else n / 2 + 1.

(** A subscription has not passed the seal of the segment. *)
Definition pinned (target : Z) (d : stream) : bool :=
  match st_sealed d !! target with
  | None => true
  | Some x =>
      existsb (fun kv => match tick_at d (sb_last_tick kv.2) with Some t => sn_xmin (tk_snapshot t) <=? x | None => true end)
        (map_to_list (st_subs d))
  end.

(** A batch refers to an event of the segment. *)
Definition batched (target : Z) (d : stream) : bool :=
  existsb (fun kv => existsb (fun e => (ev_segment e =? target) && bool_decide (ev_seq e ∈ ba_seqs kv.2)) (st_events d))
    (map_to_list (st_batches d)).

(** [stream_rotate]: the number of events truncated.  It waits for the
    transactions that append; [busy] is the segment's lock held by a reader. *)
Definition Rotate (now : Z) (busy : bool) (d : stream) : Z * stream :=
  if negb (bool_decide (st_staged d = ∅)) then (0, d)
  else
    let c := st_config d in
    if negb (cf_started_at c + half (cf_retention c) <=? now) then (0, d)
    else
      let target := (cf_segment c + 1) mod 3 in
      let events := zlen (List.filter (fun e => ev_segment e =? target) (st_events d)) in
      if (0 <? events) && (pinned target d || batched target d) then (0, d)
      else if busy then (0, d)
      else
        let '(x, t) := begin_xact (st_xacts d) in
        let sealed := st_sealed d !! target in
        let d := set_events d (List.filter (fun e => negb (ev_segment e =? target)) (st_events d)) in
        let d := drop_ticks (fun t => match sealed with Some s => sn_xmin (tk_snapshot t) <=? s | None => false end) d in
        let d := set_config d (mkConfig (cf_max_retries c) (cf_interval c) target now) (delete target (<[cf_segment c := x]> (st_sealed d))) in
        let d := drop_ticks (fun t => tk_created_at t <? now - cf_retention c) d in
        (events, set_xacts d (finish_xact x t)).

(** ** A new queue

    The first tick and the segments are created with the tables. *)

Definition new_stream (now : Z) (t : xacts) : stream :=
  mkStream t ∅ [] 1 [mkTick 1 (current_snapshot t) 0 now] 2 ∅ ∅ 1 ∅ ∅ 1 (mkConfig 5 (mkInterval 0 7 0 true) 0 now) ∅.

(** The default retention of seven days has no microseconds, which is all that
    the Go code reads: it reports no retention until one is set. *)
Example default_retention now t :
  cf_retention (st_config (new_stream now t)) = 7 * day /\ sc_Retention (Config (new_stream now t)) = 0 /\
  sc_Retention (Config (SetConfig 5 (7 * day) (new_stream now t))) = 7 * day * 1000.
Proof. done. Qed.
