(* ===== verification/StreamDelivery.v ===== *)
(** * Delivery of stream events

    Histories of a stream ([Streams.v]): operations of any number of producers,
    consumers and maintenance passes, in any interleaving of transactions.
    A consumer that receives exclusively (without members) gets every event
    committed after its start exactly once, whatever the others do. *)

From stdpp Require Import gmap sorting.
From S2P Require Import Prelude GoStrings Jobs Streams.

#[global] Instance event_eq_dec : EqDecision event.
Proof. solve_decision. Defined.

(** ** Histories *)

Inductive StreamOp :=
| BeginOther
| CommitXact (x : Z)
| RollbackXact (x : Z)
| Append (inputs : list (StreamMessageInput * string))
| Join (consumer : string) (from : option Z)
| Leave (consumer : string)
| Receive (unseen : list Z) (consumer member : string) (limit : Z)
| Acknowledge (id : Z)
| Fail_ (id : Z) (event : string) (retryAfter : Z) (reason : string)
| Retry (max : Z)
| Replay (id : Z)
| ReplayAll
| Purge (older : Z)
| Configure (maxRetries retention : Z)
| Prune (max : Z)
| Rotation (busy : bool).

(** What happens in a history: events appear when their transaction commits and
    disappear when their segment is truncated, consumers join at a snapshot
    and depart, and a batch is sent to a consumer. *)
Inductive happening :=
| Appeared (es : list event)
| Truncated (seqs : list Z)
| Joined (consumer : string) (s : snapshot)
| Departed (consumer : string)
| Sent (consumer : string) (seqs : list Z).

Definition joined (c : string) (d d' : stream) : list happening :=
  match st_subs d !! c, st_subs d' !! c with
  | None, Some s => match tick_at d' (sb_last_tick s) with Some t => [Joined c (tk_snapshot t)] | None => [] end
  | _, _ => []
  end.

Definition sent (c : string) (d d' : stream) : list happening :=
  match st_batches d' !! st_next_batch d with Some b => [Sent c (ba_seqs b)] | None => [] end.

Definition truncated (d d' : stream) : list Z := ev_seq <$> List.filter (fun e => bool_decide (e ∉ st_events d')) (st_events d).

Section Histories.
Context (jsonb : string -> option string) (over_quota : Z -> bool).

Definition exec_stream (now : Z) (o : StreamOp) (d : stream) : list happening * stream :=
  match o with
  | BeginOther => ([], set_xacts d (begin_xact (st_xacts d)).2)
  | CommitXact x =>
      if bool_decide (x ∈ xa_running (st_xacts d))
      then (match st_staged d !! x with Some s => [Appeared (sg_events s)] | None => [] end, commit x d)
      else ([], d)
  | RollbackXact x => if bool_decide (x ∈ xa_running (st_xacts d)) then ([], rollback x d) else ([], d)
  | Append inputs => ([], (AppendMessages jsonb over_quota now inputs d).2)
  | Join c from => match Subscribe now c from d with Ok (_, d') => (joined c d d', d') | Err _ => ([], d) end
  | Leave c => let '(b, d') := Unsubscribe c d in (if b then [Departed c] else [], d')
  | Receive unseen c member limit =>
      let seen t := bool_decide (tk_id t ∉ unseen) in
      let r := if bool_decide (member = "") then ReceiveBatch now seen c limit d else ReceiveCoopBatch now seen c member limit d in
      match r with
      | Ok (_, d') => let d1 := (auto_subscribe now seen c d).2 in (joined c d d1 ++ sent c d1 d', d')
      | Err _ => ([], d)
      end
  | Acknowledge id => match AckBatch now id d with Ok (_, d') => ([], d') | Err _ => ([], d) end
  | Fail_ id event after reason => match NackMessage now id event after reason d with Ok (_, d') => ([], d') | Err _ => ([], d) end
  | Retry max => ([], (ProcessRetries now max d).2)
  | Replay id => match ReplayDeadLetter now id d with Ok (_, d') => ([], d') | Err _ => ([], d) end
  | ReplayAll => ([], (ReplayAllDeadLetters now d).2)
  | Purge older => ([], (PurgeDeadLetters now older d).2)
  | Configure maxRetries retention => ([], SetConfig maxRetries retention d)
  | Prune max => ([], (PruneTicks now max d).2)
  | Rotation busy => let d' := (Rotate now busy d).2 in ([Truncated (truncated d d')], d')
  end.

Fixpoint stream_run (ops : list (Z * StreamOp)) (d : stream) : list happening * stream :=
  match ops with
  | [] => ([], d)
  | (now, o) :: rest =>
      let '(log, d) := exec_stream now o d in
      let '(more, d) := stream_run rest d in
      (log ++ more, d)
  end.
End Histories.

(** ** The view of one consumer

    All events that ever appeared and the numbers of those truncated; while the
    consumer is subscribed, the snapshot it started at, the numbers that were
    already gone then, and the numbers sent to it since. *)

Record attendance := mkAttendance { at_start : snapshot; at_lost : list Z; at_sent : list Z }.
Record view := mkView { vw_events : list event; vw_gone : list Z; vw_sub : option attendance }.

Definition see (c : string) (v : view) (h : happening) : view :=
  match h with
  | Appeared es => mkView (vw_events v ++ es) (vw_gone v) (vw_sub v)
  | Truncated seqs => mkView (vw_events v) (vw_gone v ++ seqs) (vw_sub v)
  | Joined c' s => if bool_decide (c' = c) then mkView (vw_events v) (vw_gone v) (Some (mkAttendance s (vw_gone v) [])) else v
  | Departed c' => if bool_decide (c' = c) then mkView (vw_events v) (vw_gone v) None else v
  | Sent c' seqs =>
      if bool_decide (c' = c)
      then mkView (vw_events v) (vw_gone v) ((fun a => mkAttendance (at_start a) (at_lost a) (at_sent a ++ seqs)) <$> vw_sub v) else v
  end.

Definition view_of (c : string) (log : list happening) : view := fold_left (see c) log (mkView [] [] None).

(** Only the operations of [c] itself must be exclusive. *)
Definition exclusive (c : string) (o : StreamOp) : Prop :=
  match o with Receive _ c' member _ => c' = c -> member = "" | _ => True end.

(** ** Snapshots *)

Record xacts_ok (t : xacts) : Prop := {
  xo_latest : xa_latest t < xa_next t;
  xo_running x : x ∈ xa_running t -> x < xa_next t;
  xo_recent x : xa_latest t < x < xa_next t -> x ∈ xa_running t
}.

(** A transaction has completed. *)
Definition completed (t : xacts) (x : Z) : Prop := x < xa_next t /\ x ∉ xa_running t.

Record snap_ok (t : xacts) (s : snapshot) : Prop := {
  so_xip x : x ∈ sn_xip s -> sn_xmin s <= x < sn_xmax s;
  so_range : sn_xmin s <= sn_xmax s;
  so_completed x : visible x s = true -> completed t x
}.

Lemma current_xip t x : x ∈ sn_xip (current_snapshot t) <-> x ∈ xa_running t /\ x <= xa_latest t.
Proof. cbn. rewrite elem_of_lfilter, elem_of_elements, Z.ltb_lt. split; intros []; split; auto; lia. Qed.

Lemma visible_spec x s : visible x s = true <-> x < sn_xmin s \/ (x < sn_xmax s /\ x ∉ sn_xip s).
Proof.
  unfold visible. destruct (Z.ltb_spec x (sn_xmin s)); [split; auto |]. destruct (Z.leb_spec (sn_xmax s) x); [split; [done | lia] |].
  rewrite negb_true_iff, bool_decide_eq_false. split; [auto | intros [|[]]; [lia | done]].
Qed.

Lemma current_visible t x : xacts_ok t -> visible x (current_snapshot t) = true <-> completed t x.
Proof.
  intros [Hl Hr Hn]. rewrite visible_spec, current_xip. unfold completed. change (sn_xmax (current_snapshot t)) with (xa_latest t + 1).
  pose proof (fold_min_start (sn_xip (current_snapshot t)) (xa_latest t + 1)) as Hs.
  change (fold_left Z.min _ _) with (sn_xmin (current_snapshot t)) in Hs. split.
  - intros [Hx | [Hx Hnr]].
    + split; [lia |]. intros Hrun. assert (x ∈ sn_xip (current_snapshot t)) as Hin by (apply current_xip; split; [done | lia]).
      pose proof (fold_min_le _ (xa_latest t + 1) _ Hin). change (fold_left Z.min _ _) with (sn_xmin (current_snapshot t)) in H. lia.
    + split; [lia |]. intros Hrun. apply Hnr. split; [done | lia].
  - intros [Hx Hnr]. right. split; [| intuition].
    destruct (Z.le_gt_cases x (xa_latest t)); [lia |]. contradiction Hnr. apply Hn. lia.
Qed.

Lemma current_ok t : xacts_ok t -> snap_ok t (current_snapshot t).
Proof.
  intros Ht. split.
  - intros x Hx. split; [exact (fold_min_le _ _ _ Hx) |]. apply current_xip in Hx as [_ Hx]. cbn. lia.
  - apply fold_min_start.
  - intros x Hx. by apply current_visible.
Qed.

(** The last condition of the batch query adds nothing to the first two. *)
Lemma between_spec t lt ct e : snap_ok t ct -> between lt ct e = visible (ev_txid e) ct && negb (visible (ev_txid e) lt).
Proof.
  intros [Hxip _ _]. unfold between. destruct (visible (ev_txid e) ct) eqn:Hc; [| done]. destruct (visible (ev_txid e) lt) eqn:Hv; [done |]. cbn.
  destruct (Z.leb_spec (sn_xmax lt) (ev_txid e)) as [|Hx]; [done |]. cbn.
  assert (ev_txid e ∈ sn_xip lt) as Hin.
  { unfold visible in Hv. destruct (Z.ltb_spec (ev_txid e) (sn_xmin lt)); [done |]. destruct (Z.leb_spec (sn_xmax lt) (ev_txid e)); [lia |].
    by apply negb_false_iff, bool_decide_eq_true in Hv. }
  rewrite bool_decide_true by done. apply visible_spec in Hc as [Hc|[_ Hc]]; [| by rewrite bool_decide_false].
  rewrite bool_decide_false; [done |]. intros Hi%Hxip. lia.
Qed.

(** ** Transactions keep the snapshots valid *)

Lemma begin_ok t : xacts_ok t -> xacts_ok (begin_xact t).2.
Proof.
  intros [Hl Hr Hn]. split; cbn; [lia | |].
  - intros x [Hx | ->%elem_of_singleton]%elem_of_union; [apply Hr in Hx |]; lia.
  - intros x Hx. destruct (decide (x = xa_next t)) as [-> |]; [set_solver |]. apply elem_of_union_l, Hn. lia.
Qed.

Lemma begin_snap t s : xacts_ok t -> snap_ok t s -> snap_ok (begin_xact t).2 s.
Proof.
  intros _ [Hx Hr Hc]. split; [done | done |]. intros x [H1 H2]%Hc. split; cbn; [lia |].
  intros [? | ->%elem_of_singleton]%elem_of_union; [done | lia].
Qed.

Lemma finish_ok x t : xacts_ok t -> x < xa_next t -> xacts_ok (finish_xact x t).
Proof.
  intros [Hl Hr Hn] Hx. split; cbn; [lia | |].
  - intros y [Hy _]%elem_of_difference. by apply Hr.
  - intros y Hy. apply elem_of_difference. split; [apply Hn; lia |]. intros ->%elem_of_singleton. lia.
Qed.

Lemma finish_completed x t y : completed t y -> completed (finish_xact x t) y.
Proof. intros [H1 H2]. split; cbn; [done |]. by intros [? _]%elem_of_difference. Qed.

Lemma finish_snap x t s : snap_ok t s -> snap_ok (finish_xact x t) s.
Proof. intros [Hx Hr Hc]. split; [done | done |]. intros y Hy. by apply finish_completed, Hc. Qed.

Lemma begin_completed t y : xacts_ok t -> completed t y -> completed (begin_xact t).2 y.
Proof. intros Ht [H1 H2]. split; cbn; [lia |]. intros [? | ->%elem_of_singleton]%elem_of_union; [done | lia]. Qed.

(** ** The invariant *)

Definition used (v : view) (d : stream) (e : event) : Prop :=
  e ∈ vw_events v \/ exists x s, st_staged d !! x = Some s /\ e ∈ sg_events s.

Record stream_ok (v : view) (d : stream) : Prop := {
  sk_xacts : xacts_ok (st_xacts d);
  sk_staged x s : st_staged d !! x = Some s -> x ∈ xa_running (st_xacts d) /\ NoDup (sg_events s);
  sk_rows x s e : st_staged d !! x = Some s -> e ∈ sg_events s -> ev_txid e = x /\ ev_segment e = cf_segment (st_config d);
  sk_seen e : e ∈ vw_events v -> completed (st_xacts d) (ev_txid e);
  sk_seq e : used v d e -> ev_seq e < st_next_seq d;
  sk_inj e e' : used v d e -> used v d e' -> ev_seq e = ev_seq e' -> e = e';
  sk_nodup : NoDup (st_events d);
  sk_events e : e ∈ st_events d <-> e ∈ vw_events v /\ ev_seq e ∉ vw_gone v;
  sk_gone q : q ∈ vw_gone v -> exists e, e ∈ vw_events v /\ ev_seq e = q;
  sk_sealed e x : e ∈ st_events d -> st_sealed d !! ev_segment e = Some x -> ev_txid e < x;
  sk_current : st_sealed d !! cf_segment (st_config d) = None;
  sk_snap t : t ∈ st_ticks d -> snap_ok (st_xacts d) (tk_snapshot t);
  sk_tick t : t ∈ st_ticks d -> 0 < tk_id t < st_next_tick d;
  sk_tick_inj t t' : t ∈ st_ticks d -> t' ∈ st_ticks d -> tk_id t = tk_id t' -> t = t';
  sk_mono t t' x : t ∈ st_ticks d -> t' ∈ st_ticks d -> tk_id t < tk_id t' ->
    visible x (tk_snapshot t) = true -> visible x (tk_snapshot t') = true;
  sk_next : 0 < st_next_tick d;
  sk_batch i b : st_batches d !! i = Some b -> i < st_next_batch d
}.

(** The batch consumer [c] has not acknowledged, if there is one. *)
Definition no_batch (c : string) (d : stream) : Prop := forall i b, st_batches d !! i = Some b -> ba_consumer b <> c.

Definition only_batch (c : string) (i : Z) (b : batch) (d : stream) : Prop :=
  st_batches d !! i = Some b /\ ba_consumer b = c /\ ba_member b = "" /\ ba_acked_at b = None /\
  forall i' b', st_batches d !! i' = Some b' -> ba_consumer b' = c -> i' = i.

(** The events of the batch are those between its ticks, all of them sent. *)
Definition batch_exact (v : view) (a : attendance) (b : batch) (lt nt : tick) : Prop :=
  (forall q, q ∈ ba_seqs b -> q ∈ at_sent a) /\
  forall e, e ∈ vw_events v -> ev_seq e ∉ at_lost a ->
    ev_seq e ∈ ba_seqs b <-> visible (ev_txid e) (tk_snapshot nt) = true /\ visible (ev_txid e) (tk_snapshot lt) = false.

Record attends (c : string) (v : view) (a : attendance) (s : subscription) (lt nt : tick) (d : stream) : Prop := {
  aw_last : lt ∈ st_ticks d /\ tk_id lt = sb_last_tick s;
  aw_next : nt ∈ st_ticks d /\ tk_id nt = sb_next_tick s;
  aw_batch :
    (sb_next_tick s = sb_last_tick s /\ no_batch c d) \/
    exists i b, only_batch c i b d /\ ba_start b = sb_last_tick s /\ ba_end b = sb_next_tick s /\ sb_last_tick s < sb_next_tick s /\
      batch_exact v a b lt nt;
  aw_start x : visible x (at_start a) = true -> visible x (tk_snapshot lt) = true;
  aw_sent e : e ∈ vw_events v -> ev_seq e ∉ at_lost a ->
    ev_seq e ∈ at_sent a <-> visible (ev_txid e) (tk_snapshot nt) = true /\ visible (ev_txid e) (at_start a) = false;
  aw_known q : q ∈ at_sent a -> exists e, e ∈ vw_events v /\ ev_seq e = q;
  aw_nodup : NoDup (at_sent a);
  aw_lost q : q ∈ at_lost a -> q ∈ vw_gone v;
  aw_kept e : e ∈ vw_events v -> ev_seq e ∉ at_lost a -> visible (ev_txid e) (tk_snapshot lt) = false -> e ∈ st_events d
}.

Definition own_ok (c : string) (v : view) (d : stream) : Prop :=
  match vw_sub v, st_subs d !! c with
  | None, None => no_batch c d
  | Some a, Some s => exists lt nt, attends c v a s lt nt d
  | _, _ => False
  end.

(** An operation that leaves the consumer's rows, ticks and events keeps its part of the invariant. *)
Record keeps (c : string) (d d' : stream) : Prop := {
  kp_sub : st_subs d' !! c = st_subs d !! c;
  kp_batch i b : ba_consumer b = c -> st_batches d' !! i = Some b <-> st_batches d !! i = Some b;
  kp_tick t : t ∈ st_ticks d -> tk_id t ∈ (sb_last_tick <$> option_list (st_subs d !! c)) ++ (sb_next_tick <$> option_list (st_subs d !! c)) -> t ∈ st_ticks d';
  kp_event e lt s : e ∈ st_events d -> st_subs d !! c = Some s -> lt ∈ st_ticks d -> tk_id lt = sb_last_tick s ->
    visible (ev_txid e) (tk_snapshot lt) = false -> e ∈ st_events d'
}.

Lemma own_keep c v d d' : own_ok c v d -> keeps c d d' -> own_ok c v d'.
Proof.
  intros Ho [Hs Hb Ht He]. unfold own_ok in *. rewrite Hs. destruct (vw_sub v) as [a|], (st_subs d !! c) as [s|] eqn:Hsub; try done.
  - destruct Ho as (lt & nt & [Hl Hn Hba Hst Hse Hk Hnd Hlo Hke]). exists lt, nt. cbn in Ht.
    assert (forall i b, ba_consumer b = c -> st_batches d' !! i = Some b -> st_batches d !! i = Some b) as Hb' by (intros; by apply Hb).
    split; try done.
    + split; [| apply Hl]. apply Ht; [apply Hl |]. destruct Hl as [_ ->]. set_solver.
    + split; [| apply Hn]. apply Ht; [apply Hn |]. destruct Hn as [_ ->]. set_solver.
    + destruct Hba as [[Heq Hno]|(i & b & (Hi & Hc & Hm & Hac & Hu) & Hst' & Hen & Hlt & Hex)].
      * left. split; [done |]. intros i b Hi Hc. eapply Hno; [by apply Hb' |]. done.
      * right. exists i, b. split_and!; try done. split_and!; try done; [by apply Hb |]. intros i' b' Hi' Hc'. eapply Hu; [by apply Hb' |]. done.
    + intros e Hev Hlost Hvis. eapply He; [by apply Hke | done | apply Hl | apply Hl | done].
  - intros i b Hi Hc. apply Hb in Hi; [| done]. by eapply Ho.
Qed.

Lemma keeps_refl_but c d d' :
  st_subs d' = st_subs d -> st_batches d' = st_batches d -> st_ticks d' = st_ticks d -> st_events d' = st_events d -> keeps c d d'.
Proof. intros Hs Hb Ht He. split; rewrite ?Hs, ?Hb, ?Ht, ?He; done || by intros. Qed.

(** ** Transactions *)

Lemma event_rows_spec now x g q ins e : e ∈ event_rows now x g q ins -> q <= ev_seq e < q + zlen ins /\ ev_txid e = x /\ ev_segment e = g.
Proof.
  revert q. induction ins as [|[i r] ins IH]; intros q; cbn; [by intros ?%elem_of_nil |]. rewrite zlen_cons.
  pose proof (zlen_nonneg ins). intros [-> | He]%elem_of_cons; cbn; [split_and!; done || lia |]. apply IH in He as (? & ? & ?). split_and!; done || lia.
Qed.

Lemma event_rows_inj now x g q ins e e' :
  e ∈ event_rows now x g q ins -> e' ∈ event_rows now x g q ins -> ev_seq e = ev_seq e' -> e = e'.
Proof.
  revert q. induction ins as [|[i r] ins IH]; intros q; cbn; [by intros ?%elem_of_nil |].
  intros [-> | He]%elem_of_cons [-> | He']%elem_of_cons; [done | | |]; cbn.
  - apply event_rows_spec in He' as (? & _). lia.
  - apply event_rows_spec in He as (? & _). lia.
  - by eapply IH.
Qed.

Lemma event_rows_nodup now x g q ins : NoDup (event_rows now x g q ins).
Proof.
  revert q. induction ins as [|[i r] ins IH]; intros q; cbn; [constructor |]. constructor; [| apply IH].
  intros (Hs & _)%event_rows_spec. cbn in Hs. lia.
Qed.

Lemma stage_ok v now ins rs ds d : stream_ok v d -> stream_ok v (stage now ins rs ds d).2.
Proof.
  intros [Hx Hst Hro Hse Hsq Hin Hnd Hev Hgo Hsl Hcu Hsn Hti Hinj Hmo Hne Hba].
  assert (Hfresh : forall y s, st_staged d !! y = Some s -> y <> xa_next (st_xacts d)).
  { intros y s Hy ->. apply Hst in Hy as [Hy _]. apply Hx in Hy. lia. }
  set (rows := event_rows now (xa_next (st_xacts d)) (cf_segment (st_config d)) (st_next_seq d) ins).
  assert (Hused : forall e, used v (stage now ins rs ds d).2 e -> used v d e \/ e ∈ rows).
  { intros e [He | (y & s & Hy & He)]; [by left; left |]. cbn in Hy. apply lookup_insert_Some in Hy as [[<- <-] | [_ Hy]]; [by right |].
    left. right. eauto. }
  split; cbn; try done.
  - by apply begin_ok.
  - intros y s [[<- <-] | [_ Hy]]%lookup_insert_Some; [split; [set_solver | apply event_rows_nodup] |].
    apply Hst in Hy as []. split; [set_solver | done].
  - intros y s e [[<- <-] | [_ Hy]]%lookup_insert_Some He; [by apply event_rows_spec in He as (_ & ? & ?) |]. by eapply Hro.
  - intros e He. apply (begin_completed _ _ Hx). by apply Hse.
  - intros e [He | He]%Hused; [apply Hsq in He; pose proof (zlen_nonneg ins); lia |]. apply event_rows_spec in He as (? & _). lia.
  - intros e e' [He | He]%Hused [He' | He']%Hused Heq; [by apply Hin | | |].
    + apply event_rows_spec in He' as (? & _). apply Hsq in He. lia.
    + apply event_rows_spec in He as (? & _). apply Hsq in He'. lia.
    + by eapply event_rows_inj.
  - intros t Ht. by apply begin_snap, Hsn.
Qed.

Lemma stage_own c v now ins rs ds d : own_ok c v d -> own_ok c v (stage now ins rs ds d).2.
Proof. intros Ho. eapply own_keep; [done |]. by apply keeps_refl_but. Qed.

Lemma begin_other_ok v d : stream_ok v d -> stream_ok v (set_xacts d (begin_xact (st_xacts d)).2).
Proof.
  intros [Hx Hst Hro Hse Hsq Hin Hnd Hev Hgo Hsl Hcu Hsn Hti Hinj Hmo Hne Hba]. split; try done.
  - by apply begin_ok.
  - intros y s Hy. apply Hst in Hy as []. split; [cbn; set_solver | done].
  - intros e He. apply (begin_completed _ _ Hx). by apply Hse.
  - intros t Ht. by apply begin_snap, Hsn.
Qed.

Lemma rollback_ok v x d : x ∈ xa_running (st_xacts d) -> stream_ok v d -> stream_ok v (rollback x d).
Proof.
  intros Hr [Hx Hst Hro Hse Hsq Hin Hnd Hev Hgo Hsl Hcu Hsn Hti Hinj Hmo Hne Hba].
  assert (Hused : forall e, used v (rollback x d) e -> used v d e).
  { intros e [He | (y & s & Hy & He)]; [by left |]. cbn in Hy. apply lookup_delete_Some in Hy as [_ Hy]. right. eauto. }
  split; cbn; eauto.
  - apply finish_ok; [done | by apply Hx].
  - intros y s [Hne' Hy]%lookup_delete_Some. apply Hst in Hy as []. split; [set_solver | done].
  - intros y s e [_ Hy]%lookup_delete_Some He. by eapply Hro.
  - intros e He. by apply finish_completed, Hse.
  - intros t Ht. by apply finish_snap, Hsn.
Qed.

(** A committed event is in no snapshot taken before. *)
Lemma running_invisible t s x : snap_ok t s -> x ∈ xa_running t -> visible x s = false.
Proof. intros [_ _ Hc] Hx. destruct (visible x s) eqn:Hv; [| done]. by apply Hc in Hv as []. Qed.

Definition appear (v : view) (es : list event) : view := mkView (vw_events v ++ es) (vw_gone v) (vw_sub v).

Lemma staged_new v d x s e e' :
  stream_ok v d -> st_staged d !! x = Some s -> e ∈ sg_events s -> e' ∈ vw_events v -> ev_seq e' <> ev_seq e.
Proof.
  intros Hk Hx He He' Heq. assert (e' = e) as -> by (eapply (sk_inj _ _ Hk); [by left | right; eauto | done]).
  apply (sk_seen _ _ Hk) in He' as [_ Hn]. destruct (sk_rows _ _ Hk _ _ _ Hx He) as [Htx _]. apply Hn. rewrite Htx.
  by eapply (sk_staged _ _ Hk).
Qed.

Lemma commit_ok v x s d : st_staged d !! x = Some s -> stream_ok v d -> stream_ok (appear v (sg_events s)) (commit x d).
Proof.
  intros Hs Hk. pose proof (fun e e' => staged_new v d x s e e' Hk Hs) as Hnew.
  destruct Hk as [Hx Hst Hro Hse Hsq Hin Hnd Hev Hgo Hsl Hcu Hsn Hti Hinj Hmo Hne Hba].
  unfold commit. rewrite Hs. destruct (Hst _ _ Hs) as [Hrun Hnds].
  assert (Hused : forall e, used (appear v (sg_events s)) (set_messages (set_events (end_xact x d) (st_events d ++ sg_events s))
    (filter (fun kv => kv.1 ∉ sg_retries s) (st_retries d)) (filter (fun kv => kv.1 ∉ sg_dead s) (st_dead d)) (st_next_message d)) e -> used v d e).
  { intros e [[He | He]%elem_of_app | (y & s' & Hy & He)]; [by left | right; eauto |]. cbn in Hy.
    apply lookup_delete_Some in Hy as [_ Hy]. right. eauto. }
  assert (Hgone : forall e, e ∈ sg_events s -> ev_seq e ∉ vw_gone v).
  { intros e He (e' & He' & Heq)%Hgo. by eapply Hnew. }
  split; cbn; eauto.
  - apply finish_ok; [done | by apply Hx].
  - intros y s' [Hne' Hy]%lookup_delete_Some. apply Hst in Hy as []. split; [set_solver | done].
  - intros y s' e [_ Hy]%lookup_delete_Some He. by eapply Hro.
  - intros e [He | He]%elem_of_app; [by apply finish_completed, Hse |].
    destruct (Hro _ _ _ Hs He) as [-> _]. split; cbn; [by apply Hx | set_solver].
  - apply NoDup_app. split_and!; [done | | done]. intros e [He _]%Hev He'. by eapply Hnew.
  - intros e. rewrite !elem_of_app, Hev. split; [intros [[]|]; split; auto | intros [[|] ?]; auto].
  - intros q (e & He & Heq)%Hgo. exists e. rewrite elem_of_app. auto.
  - intros e y [He | He]%elem_of_app Hy; [by eapply Hsl |]. destruct (Hro _ _ _ Hs He) as [_ Hg]. congruence.
  - intros t Ht. by apply finish_snap, Hsn.
Qed.

Lemma commit_own c v x s d : st_staged d !! x = Some s -> stream_ok v d -> own_ok c v d -> own_ok c (appear v (sg_events s)) (commit x d).
Proof.
  intros Hs Hk Ho. unfold commit. rewrite Hs. unfold own_ok in *. cbn. destruct (vw_sub v) as [a|], (st_subs d !! c) as [su|] eqn:Hsub; try done.
  destruct Ho as (lt & nt & [Hl Hn Hba Hst Hse Hkn Hnd Hlo Hke]). exists lt, nt.
  destruct (sk_staged _ _ Hk _ _ Hs) as [Hrun _].
  assert (Hinv : forall e t, e ∈ sg_events s -> t ∈ st_ticks d -> visible (ev_txid e) (tk_snapshot t) = false).
  { intros e t He Ht. destruct (sk_rows _ _ Hk _ _ _ Hs He) as [-> _]. eapply running_invisible; [by apply (sk_snap _ _ Hk) | done]. }
  pose proof (fun e e' => staged_new v d x s e e' Hk Hs) as Hnew. split; cbn; try done.
  - destruct Hba as [|(i & b & Hb & Hbs & Hbe & Hlt & Hex)]; [by left |]. right. exists i, b. split_and!; try done.
    destruct Hex as [Hsub' Hex]. split; [done |].
    intros e [He | He]%elem_of_app Hlost; [by apply Hex |]. rewrite (Hinv _ nt He) by apply Hn. split; [| by intros []].
    intros Hin. exfalso. destruct (Hkn _ (Hsub' _ Hin)) as (e' & He' & Heq). by eapply Hnew.
  - intros e [He | He]%elem_of_app Hlost; [by apply Hse |]. rewrite (Hinv _ nt He) by apply Hn. split; [| by intros []].
    intros Hin. exfalso. destruct (Hkn _ Hin) as (e' & He' & Heq). by eapply Hnew.
  - intros q Hq. destruct (Hkn q Hq) as (e & He & Heq). exists e. rewrite elem_of_app. auto.
  - intros e [He | He]%elem_of_app Hlost Hvis; rewrite elem_of_app; [left; by apply Hke | by right].
Qed.

Lemma commit_none x d : st_staged d !! x = None -> commit x d = rollback x d.
Proof. intros Hn. unfold commit, rollback, end_xact. rewrite Hn, delete_id by done. by destruct d. Qed.

(** ** Ticks *)

Lemma tick_at_In d i t : tick_at d i = Some t -> t ∈ st_ticks d /\ tk_id t = i.
Proof. intros [Ht Hi]%find_spec. split; [done | by apply Z.eqb_eq]. Qed.

Lemma tick_at_Some v d t : stream_ok v d -> t ∈ st_ticks d -> tick_at d (tk_id t) = Some t.
Proof.
  intros Hk Ht. destruct (tick_at d (tk_id t)) as [t'|] eqn:Hf.
  - apply tick_at_In in Hf as [Ht' Hi]. f_equal. by eapply (sk_tick_inj _ _ Hk).
  - pose proof (find_none _ _ Hf t) as Hn. rewrite <- list_elem_of_In in Hn. specialize (Hn Ht). cbn in Hn. lia.
Qed.

Lemma new_tick_ok v now d : stream_ok v d -> stream_ok v (stream_new_tick now d).2.
Proof.
  intros [Hx Hst Hro Hse Hsq Hin Hnd Hev Hgo Hsl Hcu Hsn Hti Hinj Hmo Hne Hba]. split; cbn; try done; try lia.
  - intros t [Ht | ->%list_elem_of_singleton]%elem_of_app; [by apply Hsn | by apply current_ok].
  - intros t [Ht | ->%list_elem_of_singleton]%elem_of_app; cbn; [apply Hti in Ht |]; lia.
  - intros t t' [Ht | ->%list_elem_of_singleton]%elem_of_app [Ht' | ->%list_elem_of_singleton]%elem_of_app Heq; cbn in Heq;
      [by apply Hinj | apply Hti in Ht; lia | apply Hti in Ht'; lia | done].
  - intros t t' x [Ht | ->%list_elem_of_singleton]%elem_of_app [Ht' | ->%list_elem_of_singleton]%elem_of_app Hlt Hv; cbn in *.
    + exact (Hmo _ _ _ Ht Ht' Hlt Hv).
    + apply current_visible; [done |]. exact (so_completed _ _ (Hsn _ Ht) _ Hv).
    + apply Hti in Ht'. lia.
    + lia.
Qed.

Lemma new_tick_keeps c now d : keeps c d (stream_new_tick now d).2.
Proof. split; cbn; try done. intros t Ht _. by apply elem_of_app; left. Qed.

Lemma max_tick_elem ticks : max_tick ticks <> 0 -> exists t, t ∈ ticks /\ tk_id t = max_tick ticks.
Proof.
  intros H0. unfold max_tick in *. destruct (fold_max_elem (tk_id <$> ticks) 0) as [|Hin]; [done |].
  apply list_elem_of_fmap in Hin as (t & Heq & Ht). eauto.
Qed.

Lemma min_tick_elem ticks : min_tick ticks <> 0 -> exists t, t ∈ ticks /\ tk_id t = min_tick ticks.
Proof.
  intros H0. unfold min_tick in *. destruct ticks as [|t ticks]; [done |]. cbn in *.
  destruct (fold_min_elem (tk_id <$> ticks) (tk_id t)) as [-> |Hin]; [exists t; split; [left | done] |].
  apply list_elem_of_fmap in Hin as (t' & Heq & Ht). exists t'. split; [by right | done].
Qed.

Lemma latest_tick_spec v now seen d i d' : stream_ok v d -> stream_latest_tick now seen d = (i, d') ->
  stream_ok v d' /\ (exists t, t ∈ st_ticks d' /\ tk_id t = i) /\ (d' = d \/ d' = (stream_new_tick now d).2).
Proof.
  intros Hk. unfold stream_latest_tick. destruct (Z.eqb_spec (max_tick (List.filter seen (st_ticks d))) 0) as [|Hm].
  - intros Heq. injection Heq as <- <-. split_and!; [by apply new_tick_ok | | by right].
    eexists. cbn. split; [apply elem_of_app; right; by apply list_elem_of_singleton | done].
  - intros [= <- <-]. split_and!; [done | | by left]. apply max_tick_elem in Hm as (t & Ht & Heq).
    apply elem_of_lfilter in Ht as []. eauto.
Qed.

Lemma drop_ticks_sub P d t : t ∈ st_ticks (drop_ticks P d) -> t ∈ st_ticks d.
Proof. cbn. by intros [? _]%elem_of_lfilter. Qed.

Lemma drop_ticks_ok v P d : stream_ok v d -> stream_ok v (drop_ticks P d).
Proof.
  intros [Hx Hst Hro Hse Hsq Hin Hnd Hev Hgo Hsl Hcu Hsn Hti Hinj Hmo Hne Hba]. pose proof (drop_ticks_sub P d) as Hsub. split; eauto.
Qed.

(** Pruning never removes a tick the consumer needs. *)
Lemma drop_ticks_own c v P d : own_ok c v d -> own_ok c v (drop_ticks P d).
Proof.
  intros Ho. eapply own_keep; [done |]. split; try done. unfold own_ok in Ho. intros t Ht Hin. cbn. apply elem_of_lfilter. split; [done |].
  destruct (st_subs d !! c) as [s|] eqn:Hs; cbn in Hin; [| by apply elem_of_nil in Hin].
  destruct (vw_sub v) as [a|]; [| done]. destruct Ho as (lt & nt & [Hl Hn Hba _ _ _ _ _ _]).
  assert (tk_id t = sb_last_tick s -> referenced_tick d (tk_id t) = true) as Hlast.
  { intros Heq. unfold referenced_tick. rewrite Heq. apply orb_true_iff. left.
    apply (existsb_elem _ _ (c, s)); [by apply elem_of_map_to_list | apply Z.eqb_refl]. }
  rewrite !orb_true_iff. left. right. apply elem_of_cons in Hin as [Heq | Heq%list_elem_of_singleton]; [by apply Hlast |].
  destruct Hba as [[Heq' _]|(i & b & (Hi & _) & _ & Hen & _)]; [apply Hlast; congruence |]. unfold referenced_tick. rewrite Heq.
  apply orb_true_iff. right. apply (existsb_elem _ _ (i, b)); [by apply elem_of_map_to_list |]. cbn. rewrite Hen, Z.eqb_refl. by apply orb_true_r.
Qed.

(** ** Subscribing *)

Definition watch (c : string) (v : view) (log : list happening) : view := fold_left (see c) log v.

Lemma stream_ok_view v v' d : vw_events v' = vw_events v -> vw_gone v' = vw_gone v -> stream_ok v d -> stream_ok v' d.
Proof.
  intros He Hg [Hx Hst Hro Hse Hsq Hin Hnd Hev Hgo Hsl Hcu Hsn Hti Hinj Hmo Hne Hba].
  assert (forall e, used v' d e -> used v d e) as Hu by (unfold used; rewrite He; done). split; rewrite ?He, ?Hg; eauto.
Qed.

Lemma stream_ok_subs v d m : stream_ok v d -> stream_ok v (set_subs d m).
Proof. intros [Hx Hst Hro Hse Hsq Hin Hnd Hev Hgo Hsl Hcu Hsn Hti Hinj Hmo Hne Hba]. by split. Qed.

(** Both parts of the invariant. *)
Definition inv (c : string) (v : view) (d : stream) : Prop := stream_ok v d /\ own_ok c v d.

Lemma inv_keep c v d d' : inv c v d -> stream_ok v d' -> keeps c d d' -> inv c v d'.
Proof. intros [_ Ho] Hk' Hkeep. split; [done | by eapply own_keep]. Qed.

Lemma new_tick_inv c v now d : inv c v d -> inv c v (stream_new_tick now d).2.
Proof. intros Hi. eapply inv_keep; [done | by apply new_tick_ok, Hi | apply new_tick_keeps]. Qed.

Lemma drop_ticks_inv c v P d : inv c v d -> inv c v (drop_ticks P d).
Proof. intros [Hk Ho]. split; [by apply drop_ticks_ok | by apply drop_ticks_own]. Qed.

(** A new consumer starts at tick [t]: everything up to it counts as seen. *)
Lemma start_own c v s t d :
  stream_ok v d -> own_ok c v d -> st_subs d !! c = None -> t ∈ st_ticks d -> sb_last_tick s = tk_id t -> sb_next_tick s = tk_id t ->
  own_ok c (mkView (vw_events v) (vw_gone v) (Some (mkAttendance (tk_snapshot t) (vw_gone v) []))) (set_subs d (<[c := s]> (st_subs d))).
Proof.
  intros Hk Ho Hn Ht Hl Hx. unfold own_ok in *. rewrite Hn in Ho. cbn. rewrite lookup_insert_eq. destruct (vw_sub v); [done |].
  exists t, t. split; cbn; try done.
  - left. split; [congruence | done].
  - intros e _ _. split; [by intros ?%elem_of_nil |]. intros [? ?]. congruence.
  - by intros q ?%elem_of_nil.
  - constructor.
  - intros e He Hg _. by apply (sk_events _ _ Hk).
Qed.

Lemma insert_sub_step c v now c' d0 d t :
  inv c v d -> st_subs d0 = st_subs d -> t ∈ st_ticks d ->
  let d' := (insert_sub now c' (tk_id t) d).2 in inv c (watch c v (joined c' d0 d')) d'.
Proof.
  intros [Hk Ho] Heq Ht. unfold insert_sub, joined. rewrite Heq. destruct (st_subs d !! c') as [s|] eqn:Hs; cbn; [done |].
  pose proof (tick_at_Some v d t Hk Ht) as Hta. unfold tick_at in *. rewrite lookup_insert_eq. cbn. rewrite Hta. cbn.
  case_bool_decide as Hc.
  - subst c'. split; [| by apply start_own]. by apply stream_ok_subs, (stream_ok_view v).
  - split; [by apply stream_ok_subs |]. eapply own_keep; [done |]. split; cbn; try done. by rewrite lookup_insert_ne.
Qed.

Lemma latest_tick_inv c v now seen d i d' : inv c v d -> stream_latest_tick now seen d = (i, d') ->
  inv c v d' /\ st_subs d' = st_subs d /\ exists t, t ∈ st_ticks d' /\ tk_id t = i.
Proof.
  intros Hi Hl. destruct (latest_tick_spec v now seen d i d' (proj1 Hi) Hl) as (Hk & Ht & [-> | ->]); [done |].
  split; [by apply new_tick_inv | done].
Qed.

Lemma subscribe_inv c v now c' from d s d' :
  inv c v d -> stream_subscribe now c' from d = Ok (s, d') -> inv c (watch c v (joined c' d d')) d'.
Proof.
  intros Hi. unfold stream_subscribe.
  assert (Hfinish : forall d1 t, inv c v d1 -> st_subs d1 = st_subs d -> t ∈ st_ticks d1 ->
    Ok (insert_sub now c' (tk_id t) d1) = @Ok stream_error _ (s, d') -> inv c (watch c v (joined c' d d')) d').
  { intros d1 t Hi1 Hs1 Ht [= Heq]. pose proof (insert_sub_step c v now c' d d1 t Hi1 (eq_sym Hs1) Ht) as Hstep. by rewrite Heq in Hstep. }
  destruct from as [f|].
  - destruct (f =? 0).
    + destruct (Z.eqb_spec (min_tick (st_ticks d)) 0) as [|Hm].
      * intros Heq. refine (Hfinish _ (List.last (st_ticks (stream_new_tick now d).2) (mkTick 0 (mkSnapshot 0 0 []) 0 0)) (new_tick_inv _ _ now _ Hi) eq_refl _ _);
          cbn; rewrite last_last; [apply elem_of_app; right; by apply list_elem_of_singleton | done].
      * apply min_tick_elem in Hm as (t & Ht & <-). by apply Hfinish.
    + destruct (tick_at d f) as [t|] eqn:Hf; [| done]. apply tick_at_In in Hf as [Ht <-]. by apply Hfinish.
  - destruct (stream_latest_tick now (fun _ => true) d) as [i d1] eqn:Hl.
    destruct (latest_tick_inv _ _ _ _ _ _ _ Hi Hl) as (Hi1 & Hs1 & t & Ht & <-). by apply Hfinish.
Qed.

Lemma unsubscribe_inv c v c' d :
  inv c v d -> let '(b, d') := Unsubscribe c' d in inv c (watch c v (if b then [Departed c'] else [])) d'.
Proof.
  intros [Hk Ho]. unfold Unsubscribe. destruct (st_subs d !! c') as [s|] eqn:Hs; [| done]. cbn.
  assert (forall w, vw_events w = vw_events v -> vw_gone w = vw_gone v -> stream_ok w
    (set_batches (set_subs d (delete c' (st_subs d))) (filter (fun kv => ba_consumer kv.2 <> c') (st_batches d)) (st_next_batch d))) as Hok.
  { intros w He Hg. apply (stream_ok_view v); [done | done |]. destruct Hk as [Hx Hst Hro Hse Hsq Hin Hnd Hev Hgo Hsl Hcu Hsn Hti Hinj Hmo Hne Hba].
    split; try done. cbn. intros i b [Hi _]%map_lookup_filter_Some. by eapply Hba. }
  case_bool_decide as Hc.
  - subst c'. split; [by apply Hok |]. unfold own_ok. cbn. rewrite lookup_delete_eq.
    by intros i b [_ ?]%map_lookup_filter_Some.
  - split; [by apply Hok |]. eapply own_keep; [done |]. split; cbn; try done; [by rewrite lookup_delete_ne |].
    intros i b Hb. rewrite map_lookup_filter_Some. cbn. split; [by intros [] | intros; split; congruence].
Qed.

(** ** Receiving *)

Lemma window_spec v d lt ct e : stream_ok v d -> lt ∈ st_ticks d -> ct ∈ st_ticks d ->
  e ∈ window (tk_id lt) (tk_id ct) d <->
  e ∈ st_events d /\ visible (ev_txid e) (tk_snapshot ct) = true /\ visible (ev_txid e) (tk_snapshot lt) = false.
Proof.
  intros Hk Hl Hc. unfold window. rewrite !(tick_at_Some v) by done. rewrite merge_sort_Permutation, elem_of_lfilter.
  rewrite (between_spec _ _ _ _ (sk_snap _ _ Hk _ Hc)), andb_true_iff, negb_true_iff. done.
Qed.

Lemma window_nodup v d start stop : stream_ok v d -> NoDup (ev_seq <$> window start stop d).
Proof.
  intros Hk. unfold window. destruct (tick_at d start), (tick_at d stop); try constructor. rewrite merge_sort_Permutation.
  assert (forall x, x ∈ List.filter (between (tk_snapshot t) (tk_snapshot t0)) (st_events d) -> used v d x) as Hu.
  { intros x [Hx _]%elem_of_lfilter. left. by apply (sk_events _ _ Hk). }
  apply NoDup_fmap_2_strong.
  - intros x y Hx Hy Heq. by eapply (sk_inj _ _ Hk); [apply Hu | apply Hu |].
  - eapply sublist_NoDup; [| apply filter_sublist]. apply Hk.
Qed.

(** The batch of an exclusive consumer covers the events up to the new tick. *)
Lemma advance_sent c v a s lt nt ct d :
  stream_ok v d -> attends c v a s lt nt d -> tk_id lt = tk_id nt -> ct ∈ st_ticks d -> tk_id nt < tk_id ct ->
  forall e, e ∈ vw_events v -> ev_seq e ∉ at_lost a ->
  (ev_seq e ∈ ev_seq <$> window (tk_id nt) (tk_id ct) d <->
   visible (ev_txid e) (tk_snapshot ct) = true /\ visible (ev_txid e) (tk_snapshot nt) = false) /\
  (ev_seq e ∈ at_sent a ++ (ev_seq <$> window (tk_id nt) (tk_id ct) d) <->
   visible (ev_txid e) (tk_snapshot ct) = true /\ visible (ev_txid e) (at_start a) = false).
Proof.
  intros Hk [[Hl Hlid] [Hn Hnid] _ Hst Hse _ _ _ Hke] Heq Hc Hlt e He Hlost.
  assert (lt = nt) as -> by by apply (sk_tick_inj _ _ Hk).
  assert (Hw : ev_seq e ∈ ev_seq <$> window (tk_id nt) (tk_id ct) d <->
    visible (ev_txid e) (tk_snapshot ct) = true /\ visible (ev_txid e) (tk_snapshot nt) = false).
  { split.
    - intros (e' & Heq' & He')%list_elem_of_fmap. pose proof He' as Hev. apply (window_spec v) in He' as (He1 & He2); [| done..].
      assert (e' = e) as -> by (eapply (sk_inj _ _ Hk); [left; by apply (sk_events _ _ Hk) | by left | done]). done.
    - intros [H1 H2]. apply list_elem_of_fmap_2, (window_spec v); [done.. |]. split_and!; [by apply Hke | done | done]. }
  split; [done |]. rewrite elem_of_app, Hw, (Hse e) by done. split.
  - intros [[H1 H2] | [H1 H2]]; split; try done; [by eapply (sk_mono _ _ Hk); [exact Hn | exact Hc | |] |].
    destruct (visible (ev_txid e) (at_start a)) eqn:Hv; [| done]. apply Hst in Hv. congruence.
  - intros [H1 H2]. destruct (visible (ev_txid e) (tk_snapshot nt)); auto.
Qed.

(** What [deliver_batch] does when it succeeds. *)
Lemma deliver_cases now c' member limit start stop s d rows d' :
  1 <= limit -> deliver_batch now c' member limit start stop s d = Ok (rows, d') ->
  let seqs := ev_seq <$> window start stop d in
  (seqs = [] /\
   d' = set_cursor now c' (if bool_decide (member = "") || negb (any_active c' d) then stop else sb_last_tick s) stop s d) \/
  (seqs <> [] /\
   d' = set_cursor now c' (sb_last_tick s) stop s
          (set_batches d (<[st_next_batch d := mkBatch c' member start stop now None seqs]> (st_batches d)) (st_next_batch d + 1))).
Proof.
  intros Hlim. unfold deliver_batch. replace (Z.to_nat (limit + 1)) with (S (Z.to_nat limit)) by lia. destruct (Z.ltb_spec limit (zlen (ev_seq <$> take (S (Z.to_nat limit)) (window start stop d)))) as [|Hle]; [done |].
  rewrite take_short by (unfold zlen in Hle; rewrite length_fmap in Hle; lia).
  destruct (Z.eqb_spec (zlen (ev_seq <$> window start stop d)) 0) as [H0|H0].
  - intros [= <- <-]. left. split; [by apply zlen_0_nil | done].
  - intros [= <- <-]. right. split; [| done]. intros Hnil. rewrite Hnil in H0. done.
Qed.

Lemma sent_none c' v d d' : stream_ok v d -> st_batches d' = st_batches d -> sent c' d d' = [].
Proof.
  intros Hk Hb. unfold sent. rewrite Hb. destruct (st_batches d !! st_next_batch d) as [b|] eqn:Hi; [| done].
  apply (sk_batch _ _ Hk) in Hi. lia.
Qed.

Lemma stream_ok_batches v d m n : stream_ok v d -> (forall i b, m !! i = Some b -> i < n) -> stream_ok v (set_batches d m n).
Proof. intros [Hx Hst Hro Hse Hsq Hin Hnd Hev Hgo Hsl Hcu Hsn Hti Hinj Hmo Hne Hba] Hm. by split. Qed.

Lemma fresh_batch v d b : stream_ok v d ->
  forall i b', <[st_next_batch d := b]> (st_batches d) !! i = Some b' -> i < st_next_batch d + 1.
Proof. intros Hk i b' [[<- _] | [_ Hi]]%lookup_insert_Some; [lia |]. apply (sk_batch _ _ Hk) in Hi. lia. Qed.

(** Delivery to another consumer. *)
Lemma deliver_other c v now c' member limit start stop s d rows d' :
  inv c v d -> c' <> c -> 1 <= limit -> deliver_batch now c' member limit start stop s d = Ok (rows, d') ->
  inv c (watch c v (sent c' d d')) d'.
Proof.
  intros Hi Hne Hlim Hd. assert (Hk := proj1 Hi). assert (watch c v (sent c' d d') = v) as ->.
  { unfold sent. destruct (st_batches d' !! st_next_batch d); [| done]. cbn. by rewrite bool_decide_false. }
  apply deliver_cases in Hd as [[_ ->] | [_ ->]]; [| | done].
  - eapply inv_keep; [done | by apply stream_ok_subs |]. split; cbn; try done. by rewrite lookup_insert_ne.
  - eapply inv_keep; [done | apply stream_ok_subs, stream_ok_batches; [done | by eapply fresh_batch] |].
    split; cbn; try done; [by rewrite lookup_insert_ne |]. intros i b Hb. rewrite lookup_insert_Some. split.
    + intros [[_ <-] | [_ ?]]; done.
    + intros Hb'. right. split; [| done]. apply (sk_batch _ _ Hk) in Hb'. lia.
Qed.

Section Exclusive.
Context (c : string) (v : view) (a : attendance) (s : subscription) (lt nt ct : tick) (d : stream).
Context (Hk : stream_ok v d) (Ha : attends c v a s lt nt d) (Hv : vw_sub v = Some a).
Context (Hidle : sb_next_tick s = sb_last_tick s) (Hno : no_batch c d) (Hct : ct ∈ st_ticks d) (Hnew : tk_id nt < tk_id ct).

Lemma idle_same : tk_id lt = tk_id nt.
Proof. destruct Ha as [[_ ->] [_ ->] _ _ _ _ _ _ _]. done. Qed.

Lemma later_visible x : visible x (tk_snapshot lt) = true -> visible x (tk_snapshot ct) = true.
Proof. eapply (sk_mono _ _ Hk); [apply Ha | done |]. rewrite idle_same. done. Qed.

Lemma skip_attends now : (ev_seq <$> window (tk_id nt) (tk_id ct) d) = [] ->
  attends c v a (mkSub (tk_id ct) (tk_id ct) (sb_created_at s) now) ct ct (set_cursor now c (tk_id ct) (tk_id ct) s d).
Proof.
  intros Hw. pose proof (advance_sent c v a s lt nt ct d Hk Ha idle_same Hct Hnew) as Hadv. rewrite Hw, app_nil_r in Hadv.
  destruct Ha as [_ _ _ Hst _ Hkn Hnd Hlo Hke]. split; cbn; try done.
  - by left.
  - intros x Hx. by apply later_visible, Hst.
  - intros e He Hl. by apply Hadv.
  - intros e He Hl Hc. apply Hke; [done | done |]. destruct (visible (ev_txid e) (tk_snapshot lt)) eqn:Hvis; [| done].
    apply later_visible in Hvis. congruence.
Qed.

Lemma window_unsent e : e ∈ window (tk_id nt) (tk_id ct) d -> e ∈ vw_events v /\ ev_seq e ∉ at_lost a /\ ev_seq e ∉ at_sent a.
Proof.
  intros He. apply (window_spec v) in He as (Hev & Hc & Hn); [| done | apply Ha | done]. apply (sk_events _ _ Hk) in Hev as [Hin Hg].
  assert (ev_seq e ∉ at_lost a) as Hlost by (intros ?%(aw_lost _ _ _ _ _ _ _ Ha); done). split_and!; [done | done |].
  intros [? _]%(aw_sent _ _ _ _ _ _ _ Ha); [congruence | done | done].
Qed.

Lemma batch_attends now :
  let seqs := ev_seq <$> window (tk_id nt) (tk_id ct) d in
  let b := mkBatch c "" (tk_id nt) (tk_id ct) now None seqs in
  attends c (mkView (vw_events v) (vw_gone v) (Some (mkAttendance (at_start a) (at_lost a) (at_sent a ++ seqs))))
    (mkAttendance (at_start a) (at_lost a) (at_sent a ++ seqs)) (mkSub (sb_last_tick s) (tk_id ct) (sb_created_at s) now) lt ct
    (set_cursor now c (sb_last_tick s) (tk_id ct) s (set_batches d (<[st_next_batch d := b]> (st_batches d)) (st_next_batch d + 1))).
Proof.
  intros seqs b. pose proof (advance_sent c v a s lt nt ct d Hk Ha idle_same Hct Hnew) as Hadv. pose proof idle_same as Hsame.
  destruct Ha as [Hl Hn _ Hst _ Hkn Hnd Hlo Hke].
  assert (lt = nt) as Hltnt by (apply (sk_tick_inj _ _ Hk); [apply Hl | apply Hn | done]).
  split; cbn; try done.
  - right. exists (st_next_batch d), b. split_and!; try done.
    + split_and!; cbn; [by rewrite lookup_insert_eq | done | done | done |]. intros i' b' [[<- _] | [_ Hi']]%lookup_insert_Some Hb'; [done |].
      by apply Hno in Hi'.
    + cbn. destruct Hn as [_ ->]. done.
    + destruct Hn as [_ Hn]. rewrite Hidle in Hn. lia.
    + split; cbn; [intros q Hq; apply elem_of_app; by right |]. intros e He Hlost. rewrite Hltnt. by apply Hadv.
  - intros e He Hlost. by apply Hadv.
  - intros q [Hq | (e & -> & He)%list_elem_of_fmap]%elem_of_app; [by apply Hkn |]. apply window_unsent in He as (He & _). eauto.
  - apply NoDup_app. split_and!; [done | | by eapply window_nodup]. intros q Hq (e & -> & He)%list_elem_of_fmap.
    by apply window_unsent in He as (_ & _ & ?).
Qed.

Lemma deliver_own now limit rows d' :
  1 <= limit -> deliver_batch now c "" limit (tk_id nt) (tk_id ct) s d = Ok (rows, d') -> st_subs d !! c = Some s ->
  inv c (watch c v (sent c d d')) d'.
Proof.
  intros Hlim Hd Hs. apply deliver_cases in Hd as [[Hw ->] | [Hw ->]]; [| | done].
  - rewrite (sent_none c v) by done. split; [by apply stream_ok_subs |]. unfold own_ok. cbn. rewrite Hv, lookup_insert_eq.
    exists ct, ct. by apply skip_attends.
  - unfold sent. cbn. rewrite lookup_insert_eq. cbn. rewrite bool_decide_true, Hv by done. split.
    + apply (stream_ok_view v); [done | done |]. apply stream_ok_subs, stream_ok_batches; [done | by eapply fresh_batch].
    + unfold own_ok. cbn. rewrite lookup_insert_eq. exists lt, ct. apply batch_attends.
Qed.
End Exclusive.

(** The unacknowledged batch of the consumer is found. *)
Lemma active_batch_None c d i b : only_batch c i b d -> active_batch c "" d <> None.
Proof.
  intros (Hi & Hc & Hm & Ha & _). unfold active_batch. destruct (find _ _) eqn:Hf; [done |]. intros _.
  eapply find_none in Hf; [| apply list_elem_of_In, elem_of_map_to_list; exact Hi]. cbn in Hf.
  by rewrite Hc, Hm, Ha, !bool_decide_true in Hf by done.
Qed.

Lemma sent_same c' v d : stream_ok v d -> sent c' d d = [].
Proof. intros Hk. by eapply sent_none. Qed.

Lemma receive_next_inv c v now seen c' member limit s d rows d' :
  inv c v d -> (c' = c -> member = "") -> 1 <= limit -> st_subs d !! c' = Some s ->
  receive_next now seen c' member limit s d = Ok (rows, d') -> inv c (watch c v (sent c' d d')) d'.
Proof.
  intros Hi Hex Hlim Hs. unfold receive_next. destruct (active_batch c' member d) as [b|] eqn:Hab.
  { intros [= <- <-]. by rewrite (sent_same c' v) by apply Hi. }
  destruct (bool_decide (member = "") && (sb_last_tick s <? sb_next_tick s)); [done |].
  set (start := Z.max (sb_next_tick s) (sb_last_tick s)).
  assert (Hstep : forall ct dt, inv c v dt -> ct ∈ st_ticks dt -> st_subs dt = st_subs d -> st_batches dt = st_batches d ->
    st_next_batch dt = st_next_batch d -> start < tk_id ct ->
    deliver_batch now c' member limit start (tk_id ct) s dt = Ok (rows, d') -> inv c (watch c v (sent c' d d')) d').
  { intros ct dt Hit Hct Hsub Hbat Hnxt Hgt Hd. replace (sent c' d d') with (sent c' dt d') by (unfold sent; by rewrite Hnxt).
    destruct (decide (c' = c)) as [-> |Hne]; [| by eapply deliver_other]. rewrite Hex in Hd by done. destruct Hit as [Hk Ho].
    pose proof Ho as Ho'. unfold own_ok in Ho'. rewrite Hsub, Hs in Ho'. destruct (vw_sub v) as [a|] eqn:Hv; [| done].
    destruct Ho' as (lt & nt & Ha). assert (Hidle : sb_next_tick s = sb_last_tick s /\ no_batch c dt).
    { destruct (aw_batch _ _ _ _ _ _ _ Ha) as [|(i & b & Hob & _)]; [done |]. exfalso. apply (active_batch_None c d i b); [| by rewrite <- (Hex eq_refl)].
      unfold only_batch in *. by rewrite Hbat in Hob. }
    destruct Hidle as [Hidle Hno]. assert (start = tk_id nt) as Hst by (destruct (aw_next _ _ _ _ _ _ _ Ha) as [_ ->]; lia).
    rewrite Hst in *. eapply (deliver_own c v a s lt nt ct dt); try done. by rewrite Hsub. }
  destruct (Z.eqb_spec (max_tick (List.filter (fun t => seen t && (start <? tk_id t)) (st_ticks d))) 0) as [|Hm].
  - destruct (negb (news start d)) eqn:Hnews; [intros [= <- <-]; by rewrite (sent_same c' v) by apply Hi |].
    intros Hd. eapply (Hstep _ (stream_new_tick now d).2); [by apply new_tick_inv | cbn; apply elem_of_app; right; by apply list_elem_of_singleton | done..| | exact Hd].
    cbn. unfold news in Hnews. destruct (tick_at d start) as [t|] eqn:Ht; [| done]. apply tick_at_In in Ht as [Ht <-].
    by apply (sk_tick _ _ (proj1 Hi)).
  - apply max_tick_elem in Hm as (t & Ht & Heq). rewrite <- Heq. apply elem_of_lfilter in Ht as [Ht [_ Hgt%Z.ltb_lt]%andb_true_iff].
    by apply (Hstep t d).
Qed.

Lemma auto_subscribe_inv c v now seen c' d s d1 :
  inv c v d -> auto_subscribe now seen c' d = (s, d1) -> inv c (watch c v (joined c' d d1)) d1 /\ st_subs d1 !! c' = Some s.
Proof.
  intros Hi. unfold auto_subscribe. destruct (st_subs d !! c') as [s0|] eqn:Hs.
  - intros [= <- <-]. split; [| done]. unfold joined. by rewrite Hs.
  - destruct (stream_latest_tick now seen d) as [i dt] eqn:Hl. intros Hsub.
    destruct (latest_tick_inv _ _ _ _ _ _ _ Hi Hl) as (Hit & Hst & t & Ht & <-).
    pose proof (insert_sub_step c v now c' d dt t Hit (eq_sym Hst) Ht) as Hstep. rewrite Hsub in Hstep. split; [done |].
    unfold insert_sub in Hsub. rewrite Hst, Hs in Hsub. injection Hsub as <- <-. cbn. by rewrite lookup_insert_eq.
Qed.

Lemma watch_app c v l k : watch c v (l ++ k) = watch c (watch c v l) k.
Proof. apply fold_left_app. Qed.

Lemma receive_limit_pos n : 1 <= receive_limit n.
Proof. unfold receive_limit. case_tests; lia. Qed.

Lemma receive_inv c v now seen c' member limit d rows d' :
  inv c v d -> (c' = c -> member = "") -> 1 <= limit -> stream_receive now seen c' member limit d = Ok (rows, d') ->
  let d1 := (auto_subscribe now seen c' d).2 in inv c (watch c v (joined c' d d1 ++ sent c' d1 d')) d'.
Proof.
  intros Hi Hex Hlim. unfold stream_receive. destruct (auto_subscribe now seen c' d) as [s d1] eqn:Has. cbn. intros Hr.
  destruct (auto_subscribe_inv _ _ _ _ _ _ _ _ Hi Has) as [Hi1 Hs1]. rewrite watch_app. by eapply receive_next_inv.
Qed.

(** ** Acknowledging *)

Lemma chain_acked fuel acked t i e : (i, e) ∈ chain fuel acked t -> exists b, (i, b) ∈ acked.
Proof.
  revert t. induction fuel as [|fuel IH]; intros t; cbn; [by intros ?%elem_of_nil |].
  intros (l & Hi & Hl)%list_elem_of_In%in_concat. rewrite <- !list_elem_of_In in *. apply list_elem_of_fmap in Hi as ([j b] & -> & [Hj _]%elem_of_lfilter).
  apply elem_of_cons in Hl as [[= -> ->] | Hl]; [eauto | by eapply IH].
Qed.

Lemma ack_other c v now i b d e d' :
  inv c v d -> st_batches d !! i = Some b -> ba_consumer b <> c -> stream_ack now i d = Ok (e, d') -> inv c v d'.
Proof.
  intros Hi Hb Hne. assert (Hk := proj1 Hi). unfold stream_ack. rewrite Hb. destruct (bool_decide (is_Some (ba_acked_at b))); [done |]. cbn.
  assert (Hlt : forall j b', <[i := ack_batch now b]> (st_batches d) !! j = Some b' -> j < st_next_batch d).
  { intros j b' [[<- _] | [_ Hj]]%lookup_insert_Some; by eapply (sk_batch _ _ Hk). }
  assert (Hsame : forall j b', ba_consumer b' = c -> <[i := ack_batch now b]> (st_batches d) !! j = Some b' <-> st_batches d !! j = Some b').
  { intros j b' Hc. rewrite lookup_insert_Some. split; [intros [[_ <-] | [_ ?]]; [by cbn in Hc | done] |].
    intros Hj. right. split; [| done]. intros <-. rewrite Hb in Hj. injection Hj as <-. done. }
  destruct (st_subs d !! ba_consumer b) as [s|] eqn:Hs.
  2: { intros [= <- <-]. eapply inv_keep; [done | by apply stream_ok_batches |]. by split. }
  set (acked := List.filter _ _). destruct (chain (length acked) acked (sb_last_tick s)) as [|p ps] eqn:Hch; intros [= <- <-].
  - eapply inv_keep; [done | by apply stream_ok_batches |]. by split.
  - eapply inv_keep; [done | |].
    + apply stream_ok_batches; [by apply stream_ok_subs, stream_ok_batches |]. intros j b' [Hj _]%map_lookup_filter_Some. by eapply Hlt.
    + split; cbn; try done; [by rewrite lookup_insert_ne |]. intros j b' Hc. rewrite map_lookup_filter_Some, Hsame by done.
      split; [by intros [] |]. intros Hj. split; [done |]. change (p.1 :: ps.*1) with ((p :: ps).*1). rewrite <- Hch.
      intros ([j' e] & Heq & Hin)%list_elem_of_fmap. cbn in Heq. subst j'. apply chain_acked in Hin as (b2 & Hin).
      apply elem_of_lfilter in Hin as [Hin Hp]. apply elem_of_map_to_list in Hin. cbn in Hp. apply andb_true_iff in Hp as [Hp _].
      apply bool_decide_eq_true in Hp. assert (b2 = b') as -> by (apply Hsame in Hj; [congruence | done]). congruence.
Qed.

(** The result of acknowledging the only batch of a consumer. *)
Definition after_ack (now : Z) (c : string) (i : Z) (b : batch) (s : subscription) (d : stream) : stream :=
  let m := <[i := ack_batch now b]> (st_batches d) in
  set_batches (set_cursor now c (ba_end b) (Z.max (sb_next_tick s) (ba_end b)) s (set_batches d m (st_next_batch d)))
    (filter (fun kv => kv.1 ∉ [i]) m) (st_next_batch d).

Lemma ack_only now c i b s d :
  only_batch c i b d -> st_subs d !! c = Some s -> ba_start b = sb_last_tick s -> stream_ack now i d = Ok (ba_end b, after_ack now c i b s d).
Proof.
  intros (Hb & Hc & _ & Hnone & Hu) Hs Hst. unfold stream_ack. rewrite Hb, Hnone, bool_decide_false by by intros []. cbn. rewrite Hc, Hs.
  set (acked := List.filter _ _). assert (Hacked : acked = [(i, ack_batch now b)]).
  { apply only_one.
    - eapply sublist_NoDup; [| apply filter_sublist]. apply NoDup_map_to_list.
    - apply elem_of_lfilter. rewrite elem_of_map_to_list, lookup_insert_eq. split; [done |]. cbn. by rewrite !bool_decide_true.
    - intros [j b'] [Hj Hp]%elem_of_lfilter. apply elem_of_map_to_list in Hj. cbn in Hp. apply andb_true_iff in Hp as [Hp _].
      apply bool_decide_eq_true in Hp. apply lookup_insert_Some in Hj as [[<- <-] | [Hne Hj]]; [done |]. contradiction Hne. symmetry. by eapply Hu. }
  rewrite Hacked. cbn. rewrite Hst, Z.eqb_refl. done.
Qed.

Lemma ack_own c v now i b d e d' :
  inv c v d -> st_batches d !! i = Some b -> ba_consumer b = c -> stream_ack now i d = Ok (e, d') -> inv c v d'.
Proof.
  intros [Hk Ho] Hb Hc Hack. pose proof Ho as Ho'. unfold own_ok in Ho'.
  destruct (vw_sub v) as [a|] eqn:Hv, (st_subs d !! c) as [s|] eqn:Hs; try done; [| by apply Ho' in Hb].
  destruct Ho' as (lt & nt & Ha). destruct (aw_batch _ _ _ _ _ _ _ Ha) as [[_ Hno]|(j & b' & Hob & Hst & Hen & Hlt & _)]; [by apply Hno in Hb |].
  assert (j = i) as -> by (symmetry; by eapply Hob). assert (b' = b) as -> by (destruct Hob as [Hj _]; congruence).
  rewrite (ack_only _ _ _ _ _ _ Hob Hs Hst) in Hack. injection Hack as <- <-. unfold after_ack. rewrite Hen, Z.max_id.
  destruct Hob as (_ & _ & _ & _ & Hu). split.
  { apply stream_ok_batches; [by apply stream_ok_subs, stream_ok_batches; [| intros j b' [[<- _] | [_ Hj]]%lookup_insert_Some; by eapply (sk_batch _ _ Hk)] |].
    intros j b' [[[<- _] | [_ Hj]]%lookup_insert_Some _]%map_lookup_filter_Some; by eapply (sk_batch _ _ Hk). }
  unfold own_ok. cbn. rewrite Hv, lookup_insert_eq. exists nt, nt. destruct Ha as [Hl Hn _ Hsta Hse Hkn Hnd Hlo Hke].
  assert (Hmono : forall x, visible x (tk_snapshot lt) = true -> visible x (tk_snapshot nt) = true).
  { intros x. apply (sk_mono _ _ Hk); [apply Hl | apply Hn |]. destruct Hl as [_ ->], Hn as [_ ->]. done. }
  split; cbn; try done; auto.
  - left. split; [done |]. intros j b' [Hj Hni]%map_lookup_filter_Some Hb'. cbn in Hni.
    apply lookup_insert_Some in Hj as [[<- _] | [_ Hj]]; [set_solver |]. apply Hni. rewrite (Hu _ _ Hj Hb'). left.
  - intros e' He Hlost Hvis. apply Hke; [done | done |]. destruct (visible (ev_txid e') (tk_snapshot lt)) eqn:Hx; [| done]. apply Hmono in Hx. congruence.
Qed.

(** ** Rotation *)

Definition lose (v : view) (seqs : list Z) : view := mkView (vw_events v) (vw_gone v ++ seqs) (vw_sub v).

(** A segment that may be truncated holds nothing a cursor has not passed. *)
Lemma unpinned v target d e c s lt :
  stream_ok v d -> pinned target d = false -> e ∈ st_events d -> ev_segment e = target -> st_subs d !! c = Some s ->
  lt ∈ st_ticks d -> tk_id lt = sb_last_tick s -> visible (ev_txid e) (tk_snapshot lt) = true.
Proof.
  intros Hk Hp He Hseg Hs Hlt Hid. unfold pinned in Hp. destruct (st_sealed d !! target) as [x|] eqn:Hx; [| done].
  assert (sn_xmin (tk_snapshot lt) <=? x = false) as Hmin.
  { destruct (sn_xmin (tk_snapshot lt) <=? x) eqn:Hle; [| done]. rewrite <- Hp. symmetry. apply (existsb_elem _ _ (c, s)); [by apply elem_of_map_to_list |].
    cbn. rewrite <- Hid, (tick_at_Some v) by done. done. }
  apply visible_spec. left. rewrite <- Hseg in Hx. apply (sk_sealed _ _ Hk _ _ He) in Hx. lia.
Qed.

Lemma truncate_inv c v target d :
  inv c v d -> (forall e, e ∈ st_events d -> ev_segment e = target -> pinned target d = false) ->
  let d' := set_events d (List.filter (fun e => negb (ev_segment e =? target)) (st_events d)) in
  inv c (lose v (truncated d d')) d'.
Proof.
  intros [Hk Ho] Hpin d'.
  assert (Hkept : forall e, e ∈ st_events d' <-> e ∈ st_events d /\ ev_segment e <> target).
  { intros e. cbn. rewrite elem_of_lfilter, negb_true_iff, Z.eqb_neq. done. }
  assert (Htr : forall q, q ∈ truncated d d' <-> exists e, e ∈ st_events d /\ ev_segment e = target /\ ev_seq e = q).
  { intros q. unfold truncated. rewrite list_elem_of_fmap. split.
    - intros (e & -> & [He Hn]%elem_of_lfilter). apply bool_decide_eq_true in Hn. exists e. split_and!; try done.
      destruct (decide (ev_segment e = target)); [done |]. contradiction Hn. by apply Hkept.
    - intros (e & He & Hs & <-). exists e. split; [done |]. apply elem_of_lfilter. split; [done |]. apply bool_decide_eq_true.
      by intros [_ ?]%Hkept. }
  split.
  - pose proof (sk_events _ _ Hk) as Hev. pose proof (sk_inj _ _ Hk) as Hin. split; try apply Hk.
    + eapply sublist_NoDup; [| apply filter_sublist]. apply Hk.
    + intros e. rewrite Hkept, Hev. cbn. rewrite not_elem_of_app, Htr. split.
      * intros [[He Hg] Hs]. split_and!; [done | done |]. intros (e' & [He' _]%Hev & Hs' & Heq). apply Hs.
        rewrite <- Hs'. f_equal. apply Hin; [by left | by left | done].
      * intros [He [Hg Hn]]. split_and!; [done | done |]. intros Hs. apply Hn. exists e. split_and!; [by apply Hev | done | done].
    + intros q [Hq | (e & [He _]%Hev & _ & <-)%Htr]%elem_of_app; [by apply (sk_gone _ _ Hk) | eauto].
    + intros e x [He _]%Hkept. by apply (sk_sealed _ _ Hk).
  - unfold own_ok in *. cbn. destruct (vw_sub v) as [a|], (st_subs d !! c) as [s|] eqn:Hs; try done.
    destruct Ho as (lt & nt & [Hl Hn Hba Hst Hse Hkn Hnd Hlo Hke]). exists lt, nt. split; cbn; try done.
    + intros q Hq. apply elem_of_app. left. by apply Hlo.
    + intros e He Hlost Hvis. apply Hkept. split; [by apply Hke |]. intros Hseg.
      assert (e ∈ st_events d) as Hine by by apply Hke. pose proof (Hpin _ Hine Hseg) as Hp.
      pose proof (unpinned v target d e c s lt Hk Hp Hine Hseg Hs (proj1 Hl) (proj2 Hl)). congruence.
Qed.

(** Sealing the current segment with a new transaction. *)
Lemma seal_inv c v now target d :
  inv c v d -> st_staged d = ∅ -> target <> cf_segment (st_config d) ->
  inv c v (set_config d (mkConfig (cf_max_retries (st_config d)) (cf_interval (st_config d)) target now)
             (delete target (<[cf_segment (st_config d) := xa_next (st_xacts d)]> (st_sealed d)))).
Proof.
  intros Hi Hemp Hne. assert (Hk := proj1 Hi). eapply inv_keep; [done | | by apply keeps_refl_but].
  destruct Hk as [Hx Hst Hro Hse Hsq Hin Hnd Hev Hgo Hsl Hcu Hsn Hti Hinj Hmo Hnx Hba]. split; try done; cbn.
  - intros x s e Hs. by rewrite Hemp, lookup_empty in Hs.
  - intros e x He [_ Hl]%lookup_delete_Some. apply lookup_insert_Some in Hl as [[_ <-] | [_ Hl]]; [| by eapply Hsl].
    apply Hev in He as [He _]. by apply Hse in He as [? _].
  - apply lookup_delete_eq.
Qed.

Lemma finish_inv c v x d :
  inv c v d -> st_staged d = ∅ -> x = xa_next (st_xacts d) -> inv c v (set_xacts d (finish_xact x (begin_xact (st_xacts d)).2)).
Proof.
  intros Hi Hemp ->. set (x := xa_next (st_xacts d)). set (d1 := set_xacts d (begin_xact (st_xacts d)).2).
  assert (Heq : set_xacts d (finish_xact x (begin_xact (st_xacts d)).2) = rollback x d1).
  { rewrite <- commit_none by (cbn; by rewrite Hemp, lookup_empty). unfold commit. cbn. by rewrite Hemp, lookup_empty. }
  rewrite Heq. eapply inv_keep; [exact Hi | | by apply keeps_refl_but].
  apply rollback_ok; [cbn; set_solver | by apply begin_other_ok, Hi].
Qed.

Lemma truncated_none d d' : st_events d' = st_events d -> truncated d d' = [].
Proof.
  intros He. unfold truncated. rewrite He. replace (List.filter _ _) with (@nil event); [done |]. symmetry. apply elem_of_nil_inv.
  intros e [Hin Hn]%elem_of_lfilter. by apply bool_decide_eq_true in Hn.
Qed.

Lemma rotate_inv c v now busy d : inv c v d -> let d' := (Rotate now busy d).2 in inv c (lose v (truncated d d')) d'.
Proof.
  intros Hi. assert (Hidle : inv c (lose v (truncated d d)) d).
  { rewrite truncated_none by done. unfold lose. rewrite app_nil_r. by destruct v. }
  unfold Rotate. destruct (negb _) eqn:Hst; [done |]. apply negb_false_iff, bool_decide_eq_true in Hst.
  set (conf := st_config d). destruct (negb _); [done |]. set (target := (cf_segment conf + 1) mod 3).
  destruct (_ && _) eqn:Hg; [done |]. destruct busy; [done |]. cbn [begin_xact].
  set (d1 := set_events d _). set (d2 := drop_ticks _ d1). set (d3 := set_config d2 _ _). set (d4 := drop_ticks _ d3).
  set (x := xa_next (st_xacts d)). cbn [snd].
  change (mkXacts _ _ _) with (begin_xact (st_xacts d4)).2. change (truncated d _) with (truncated d d1).
  apply finish_inv; [| done | done]. apply drop_ticks_inv.
  apply (seal_inv c (lose v (truncated d d1)) now target d2); [| done |].
  2: { change (cf_segment (st_config d2)) with (cf_segment conf). unfold target. pose proof (Z.mod_pos_bound (cf_segment conf + 1) 3). div_lia. }
  apply drop_ticks_inv. apply truncate_inv; [done |]. intros e He Hseg. apply andb_false_iff in Hg as [Hg | Hg].
  - apply Z.ltb_ge in Hg. assert (e ∈ List.filter (fun e => ev_segment e =? target) (st_events d)) as Hin by (apply elem_of_lfilter; split; [done | by apply Z.eqb_eq]).
    destruct (List.filter _ _); [by apply elem_of_nil in Hin |]. rewrite zlen_cons in Hg. pose proof (zlen_nonneg l). lia.
  - by apply orb_false_iff in Hg as [? _].
Qed.

(** ** Runs *)

Lemma messages_inv c v d r x n : inv c v d -> inv c v (set_messages d r x n).
Proof.
  intros Hi. eapply inv_keep; [done | | by apply keeps_refl_but].
  destruct Hi as [[Hx Hst Hro Hse Hsq Hin Hnd Hev Hgo Hsl Hcu Hsn Hti Hinj Hmo Hne Hba] _]. by split.
Qed.

Lemma config_inv c v d a b : inv c v d -> inv c v (SetConfig a b d).
Proof.
  intros Hi. eapply inv_keep; [done | | by apply keeps_refl_but].
  destruct Hi as [[Hx Hst Hro Hse Hsq Hin Hnd Hev Hgo Hsl Hcu Hsn Hti Hinj Hmo Hne Hba] _]. by split.
Qed.

Lemma stage_inv c v now ins rs ds d : inv c v d -> inv c v (stage now ins rs ds d).2.
Proof. intros [Hk Ho]. split; [by apply stage_ok | by apply stage_own]. Qed.

Lemma nack_inv c v now id ev after reason d r d' : inv c v d -> NackMessage now id ev after reason d = Ok (r, d') -> inv c v d'.
Proof.
  intros Hi. unfold NackMessage, stream_nack. destruct (st_batches d !! id) as [b|]; [| done]. destruct (bool_decide _); [done |].
  destruct (find _ _) as [e|]; [| done]. destruct (_ <? _), (has_message _ _ _); intros [= <- <-]; try done; by apply messages_inv.
Qed.

Lemma initial_inv c now t : xacts_ok t -> inv c (mkView [] [] None) (new_stream now t).
Proof.
  intros Ht. split; [| unfold own_ok; cbn; rewrite lookup_empty; intros i b Hb; cbn in Hb; by rewrite lookup_empty in Hb]. split; cbn; try done.
  - by intros e ?%elem_of_nil.
  - intros e [?%elem_of_nil | (x & s & Hs & _)]; [done |]. cbn in Hs. by rewrite lookup_empty in Hs.
  - intros e e' [?%elem_of_nil | (x & s & Hs & _)]; [done |]. cbn in Hs. by rewrite lookup_empty in Hs.
  - constructor.
  - intros e. split; [by intros ?%elem_of_nil | by intros [?%elem_of_nil _]].
  - by intros q ?%elem_of_nil.
  - intros s ->%list_elem_of_singleton. by apply current_ok.
  - intros s ->%list_elem_of_singleton. cbn. lia.
  - by intros s s' ->%list_elem_of_singleton ->%list_elem_of_singleton.
  - intros s s' x ->%list_elem_of_singleton ->%list_elem_of_singleton. cbn. lia.
Qed.

Section Runs.
Context (jsonb : string -> option string) (over_quota : Z -> bool).

Lemma exec_receive c v now unseen c' member limit d :
  inv c v d -> (c' = c -> member = "") ->
  let '(log, d') := exec_stream jsonb over_quota now (Receive unseen c' member limit) d in inv c (watch c v log) d'.
Proof.
  intros Hi Hex. cbn [exec_stream]. set (seen := fun t : tick => bool_decide (tk_id t ∉ unseen)).
  assert (Hreceive : forall m, (c' = c -> m = "") -> forall r, receiveBatch now seen c' m limit d = r ->
    match r with Ok (_, d') => inv c (watch c v (joined c' d (auto_subscribe now seen c' d).2 ++ sent c' (auto_subscribe now seen c' d).2 d')) d' | Err _ => True end).
  { intros m Hm r Hr. unfold receiveBatch in Hr. destruct (negb (valid_consumer c')); [by subst |]. destruct r as [[rows d']|]; [| done].
    by apply (receive_inv _ _ _ _ _ _ _ _ _ _ Hi Hm (receive_limit_pos limit) Hr). }
  case_bool_decide as Hm.
  - specialize (Hreceive "" (fun _ => eq_refl) _ eq_refl). unfold ReceiveBatch. by destruct (receiveBatch _ _ _ _ _ _) as [[rows d']|].
  - specialize (Hreceive member Hex _ eq_refl). unfold ReceiveCoopBatch. destruct (negb (valid_consumer c')); [done |].
    destruct (_ || _); [done |]. by destruct (receiveBatch _ _ _ _ _ _) as [[rows d']|].
Qed.

Lemma exec_inv c v now o d :
  inv c v d -> exclusive c o -> let '(log, d') := exec_stream jsonb over_quota now o d in inv c (watch c v log) d'.
Proof.
  intros Hi Hex. destruct o; try (by apply exec_receive); cbn [exec_stream].
  - eapply inv_keep; [done | by apply begin_other_ok, Hi | by apply keeps_refl_but].
  - case_bool_decide as Hr; [| done]. destruct (st_staged d !! x) as [s|] eqn:Hs.
    + split; [by apply commit_ok, Hi | by apply commit_own; destruct Hi].
    + rewrite commit_none by done. eapply inv_keep; [done | by apply rollback_ok, Hi | by apply keeps_refl_but].
  - case_bool_decide as Hr; [| done]. eapply inv_keep; [done | by apply rollback_ok, Hi | by apply keeps_refl_but].
  - unfold AppendMessages. destruct inputs as [|i ins]; [done |]. destruct (over_quota _); [done |]. destruct (streamAppendArgs _) as [args|]; [| done].
    destruct (mapM _ _) as [rows|]; [| done]. by apply (stage_inv c v now rows [] [] d).
  - unfold Subscribe. destruct (negb _); [done |]. destruct (match from with Some _ => _ | None => _ end); [done |].
    destruct (stream_subscribe now consumer from d) as [[s d']|] eqn:Hs; [| done]. by eapply subscribe_inv.
  - pose proof (unsubscribe_inv c v consumer d Hi). by destruct (Unsubscribe consumer d).
  - unfold AckBatch. destruct (stream_ack now id d) as [[e d']|] eqn:Ha; [| done]. cbn.
    destruct (st_batches d !! id) as [b|] eqn:Hb; [| unfold stream_ack in Ha; by rewrite Hb in Ha].
    destruct (decide (ba_consumer b = c)); [by eapply ack_own | by eapply ack_other].
  - destruct (NackMessage now id event retryAfter reason d) as [[r d']|] eqn:Hn; [| done]. by eapply nack_inv.
  - unfold ProcessRetries, stream_process_retries. destruct (existsb _ _); [done |]. by apply stage_inv.
  - unfold ReplayDeadLetter. case_bool_decide; [done |]. destruct (st_dead d !! id); [| done]. by apply stage_inv.
  - unfold ReplayAllDeadLetters. destruct (existsb _ _); [done |]. by apply stage_inv.
  - unfold PurgeDeadLetters. destruct (existsb _ _); [done |]. by apply messages_inv.
  - by apply config_inv.
  - by apply drop_ticks_inv.
  - by apply rotate_inv.
Qed.

Lemma run_inv c ops v d :
  inv c v d -> Forall (fun o => exclusive c o.2) ops ->
  let '(log, d') := stream_run jsonb over_quota ops d in inv c (watch c v log) d'.
Proof.
  revert v d. induction ops as [|[now o] ops IH]; intros v d Hi Hall; [done |]. apply Forall_cons in Hall as [Ho Hall]. cbn [stream_run].
  pose proof (exec_inv c v now o d Hi Ho) as Hstep. destruct (exec_stream _ _ _ _ _) as [log d1].
  specialize (IH _ _ Hstep Hall). destruct (stream_run _ _ _ _) as [more d2]. by rewrite watch_app.
Qed.

End Runs.
