(* ===== verification/StreamProgress.v ===== *)
(** * Streams: progress, retention and sample histories

    Liveness of an exclusive consumer, the minimum retention of events, and
    histories computed from the model of [Streams.v]. *)

From stdpp Require Import gmap sorting.
From S2P Require Import Prelude GoStrings Jobs Streams StreamDelivery.

(** ** Catching up *)

(** One round of a consumer: receive, then acknowledge the batch. *)
Definition round (jsonb : string -> option string) (over_quota : Z -> bool) (now : Z) (c : string) (limit : Z) (d : stream)
    : list happening * stream :=
  let '(log, d) := exec_stream jsonb over_quota now (Receive [] c "" limit) d in
  match active_batch c "" d with
  | None => (log, d)
  | Some i => let '(more, d) := exec_stream jsonb over_quota now (Acknowledge i) d in (log ++ more, d)
  end.

Lemma max_tick_ge ticks t : t ∈ ticks -> tk_id t <= max_tick ticks.
Proof.
  intros Ht. unfold max_tick. assert (Hle : forall l m, m <= fold_left Z.max l m).
  { intros l. induction l as [|x l IH]; intros m; cbn; [done |]. specialize (IH (Z.max m x)). lia. }
  generalize 0. induction ticks as [|x ticks IH]; intros m; [by apply elem_of_nil in Ht |]. cbn.
  apply elem_of_cons in Ht as [-> | Ht]; [| by apply IH]. specialize (Hle (tk_id <$> ticks) (Z.max m (tk_id x))). lia.
Qed.

Section Progress.
Context (jsonb : string -> option string) (over_quota : Z -> bool).
Context (c : string) (limit : Z) (Hvalid : valid_consumer c = true) (Hlimit : 1 <= limit <= 100000).

(** The cursor of [c] is on [nt] and it has no outstanding batch. *)
Definition idle (d : stream) (nt : tick) : Prop :=
  nt ∈ st_ticks d /\ exists s, st_subs d !! c = Some s /\ sb_last_tick s = tk_id nt /\ sb_next_tick s = tk_id nt.

Lemma idle_no_batch v d nt : inv c v d -> idle d nt -> no_batch c d /\ active_batch c "" d = None.
Proof.
  intros [Hk Ho] (_ & s & Hs & Hl & Hn). unfold own_ok in Ho. rewrite Hs in Ho. destruct (vw_sub v) as [a|]; [| done].
  destruct Ho as (lt & nt' & Ha). destruct (aw_batch _ _ _ _ _ _ _ Ha) as [[_ Hno]|(i & b & _ & _ & _ & Hlt & _)]; [| lia].
  split; [done |]. unfold active_batch. destruct (find _ _) as [[i b]|] eqn:Hf; [| done]. apply find_spec in Hf as [Hin Hp].
  apply elem_of_map_to_list in Hin. cbn in Hp. apply andb_true_iff in Hp as [[Hp _]%andb_true_iff _]. apply bool_decide_eq_true in Hp.
  by apply Hno in Hin.
Qed.

Lemma window_short start stop d : zlen (window start stop d) <= zlen (st_events d).
Proof.
  unfold window. destruct (tick_at d start), (tick_at d stop); try apply zlen_nonneg. unfold zlen. rewrite merge_sort_Permutation.
  pose proof (sublist_length _ _ (filter_sublist (between (tk_snapshot t) (tk_snapshot t0)) (st_events d))). lia.
Qed.

Lemma deliver_total now start stop s d :
  zlen (st_events d) <= limit -> exists rows d', deliver_batch now c "" limit start stop s d = Ok (rows, d').
Proof.
  intros Hle. unfold deliver_batch. destruct (Z.ltb_spec limit (zlen (ev_seq <$> take (Z.to_nat (limit + 1)) (window start stop d)))) as [Hlt|]; [| destruct (_ =? 0); eauto].
  pose proof (window_short start stop d). unfold zlen in *. rewrite length_fmap, length_take in Hlt. lia.
Qed.

(** An outstanding batch is found and acknowledged. *)
Lemma active_only d i b : only_batch c i b d -> active_batch c "" d = Some i.
Proof.
  intros Hob. pose proof (active_batch_None c d i b Hob). destruct Hob as (_ & _ & _ & _ & Hu). unfold active_batch in *.
  destruct (find _ _) as [[j b']|] eqn:Hf; [| done]. apply find_spec in Hf as [Hin Hp]. cbn in *. apply elem_of_map_to_list in Hin.
  apply andb_true_iff in Hp as [[Hp _]%andb_true_iff _]. apply bool_decide_eq_true in Hp. f_equal. by eapply Hu.
Qed.

(** Nothing the consumer does changes the log or the transactions. *)
Definition same_log (d d' : stream) : Prop := st_events d' = st_events d /\ st_xacts d' = st_xacts d.

Lemma acknowledge_idle now v d s lt nt i b :
  stream_ok v d -> only_batch c i b d -> st_subs d !! c = Some s -> ba_start b = sb_last_tick s -> ba_end b = sb_next_tick s ->
  lt ∈ st_ticks d -> nt ∈ st_ticks d -> tk_id nt = sb_next_tick s ->
  exists d', stream_ack now i d = Ok (ba_end b, d') /\ idle d' nt /\ st_ticks d' = st_ticks d /\ same_log d d'.
Proof.
  intros Hk Hob Hs Hst Hen _ Hnt Hid. eexists. split; [by apply ack_only |]. split_and!; try done. split; [done |].
  eexists. cbn. rewrite lookup_insert_eq. split; [done |]. cbn. lia.
Qed.

Lemma deliver_idle now v s nt ct d rows d' :
  inv c v d -> idle d nt -> st_subs d !! c = Some s -> ct ∈ st_ticks d -> tk_id nt < tk_id ct ->
  deliver_batch now c "" limit (tk_id nt) (tk_id ct) s d = Ok (rows, d') ->
  st_ticks d' = st_ticks d /\ same_log d d' /\
  (idle d' ct /\ active_batch c "" d' = None \/
   exists i d2, active_batch c "" d' = Some i /\ stream_ack now i d' = Ok (tk_id ct, d2) /\ idle d2 ct /\ st_ticks d2 = st_ticks d /\ same_log d d2).
Proof.
  intros Hi Hidle Hs Hct Hlt Hd. destruct (idle_no_batch v d nt Hi Hidle) as [Hno Hact].
  destruct Hidle as (Hnt & s' & Hs' & Hl & Hn). rewrite Hs in Hs'. injection Hs' as <-.
  apply deliver_cases in Hd as [[_ ->] | [_ ->]]; [| | lia]; (split; [done |]; split; [done |]).
  - left. split; [| done]. split; [done |]. eexists. cbn. rewrite lookup_insert_eq. done.
  - right. set (b := mkBatch _ _ _ _ _ _ _). set (d1 := set_cursor _ _ _ _ _ _).
    assert (only_batch c (st_next_batch d) b d1) as Hob.
    { split_and!; try done; [cbn; by rewrite lookup_insert_eq |]. intros j b' Hj Hb'. cbn in Hj.
      apply lookup_insert_Some in Hj as [[<- _] | [_ Hj]]; [done | by apply Hno in Hj]. }
    exists (st_next_batch d). eexists. split; [by apply active_only with b |].
    split; [exact (ack_only now c _ b _ d1 Hob (lookup_insert_eq _ _ _) (eq_sym Hl)) |].
    split_and!; try done. split; [done |]. eexists. cbn. rewrite lookup_insert_eq. split; [done |]. cbn. lia.
Qed.

Lemma receive_valid now d : receiveBatch now (fun t => bool_decide (tk_id t ∉ [])) c "" limit d =
  stream_receive now (fun t => bool_decide (tk_id t ∉ [])) c "" limit d.
Proof. unfold receiveBatch, receive_limit. rewrite Hvalid. cbn [negb]. case_tests; try lia. done. Qed.

Lemma round_of now s d r : st_subs d !! c = Some s ->
  receive_next now (fun t => bool_decide (tk_id t ∉ [])) c "" limit s d = Ok r ->
  round jsonb over_quota now c limit d =
  (sent c d r.2, match active_batch c "" r.2 with None => r.2 | Some i => match stream_ack now i r.2 with Ok (_, d2) => d2 | Err _ => r.2 end end).
Proof.
  intros Hs Hr. unfold round. cbn [exec_stream]. rewrite bool_decide_true by done. unfold ReceiveBatch. rewrite receive_valid.
  unfold stream_receive, auto_subscribe. rewrite Hs, Hr. destruct r as [rows d1]. cbn [snd].
  unfold joined. rewrite Hs. cbn [app]. destruct (active_batch c "" d1) as [i|]; [| done]. unfold AckBatch.
  destruct (stream_ack now i d1) as [[e d2]|]; by rewrite app_nil_r.
Qed.

Lemma round_inv v now d : inv c v d -> let '(log, d') := round jsonb over_quota now c limit d in inv c (watch c v log) d'.
Proof.
  intros Hi. unfold round. pose proof (exec_inv jsonb over_quota c v now (Receive [] c "" limit) d Hi (fun _ => eq_refl)) as H1.
  destruct (exec_stream _ _ _ _ _) as [log d1]. destruct (active_batch c "" d1) as [i|]; [| done].
  pose proof (exec_inv jsonb over_quota c _ now (Acknowledge i) d1 H1 I) as H2. destruct (exec_stream _ _ _ _ _) as [more d2].
  by rewrite watch_app.
Qed.

(** A round of a subscribed consumer only adds to what it was sent. *)
Lemma round_view v now d s a : st_subs d !! c = Some s -> vw_sub v = Some a ->
  let v' := watch c v (round jsonb over_quota now c limit d).1 in
  vw_events v' = vw_events v /\ exists q, vw_sub v' = Some (mkAttendance (at_start a) (at_lost a) (at_sent a ++ q)).
Proof.
  intros Hs Hv. assert (Hlog : (round jsonb over_quota now c limit d).1 = [] \/ exists q, (round jsonb over_quota now c limit d).1 = [Sent c q]).
  { unfold round. cbn [exec_stream]. rewrite bool_decide_true by done. unfold auto_subscribe at 1. rewrite Hs. cbn [snd]. unfold joined. rewrite Hs.
    cbn [app]. destruct (ReceiveBatch _ _ _ _ _) as [[rows d1]|].
    - unfold auto_subscribe. rewrite Hs. cbn [snd app]. unfold sent. destruct (st_batches d1 !! _) as [b|], (active_batch c "" d1) as [i|]; try (by left); try (right; by eexists).
      + destruct (AckBatch now i d1) as [[? ?]|]; right; by eexists.
      + destruct (AckBatch now i d1) as [[? ?]|]; by left.
    - destruct (active_batch c "" d) as [i|]; [destruct (AckBatch now i d) as [[? ?]|] |]; by left. }
  destruct Hlog as [-> | [q ->]]; cbn.
  - split; [done |]. exists []. rewrite app_nil_r. by destruct a.
  - rewrite bool_decide_true by done. cbn. rewrite Hv. cbn. eauto.
Qed.

(** With an outstanding batch, a round acknowledges it. *)
Lemma round_outstanding v now d s a lt nt i b :
  inv c v d -> st_subs d !! c = Some s -> attends c v a s lt nt d -> only_batch c i b d -> ba_start b = sb_last_tick s -> ba_end b = sb_next_tick s ->
  let d' := (round jsonb over_quota now c limit d).2 in idle d' nt /\ st_ticks d' = st_ticks d /\ same_log d d'.
Proof.
  intros Hi Hs Ha Hob Hst Hen. destruct (aw_last _ _ _ _ _ _ _ Ha) as [Hl _]. destruct (aw_next _ _ _ _ _ _ _ Ha) as [Hn Hnid].
  assert (Hact := active_only d i b Hob).
  destruct (acknowledge_idle now v d s lt nt i b (proj1 Hi) Hob Hs Hst Hen Hl Hn Hnid) as (d' & Hack & Hres).
  rewrite (round_of now s d (stream_batch i d, d)) by (done || (unfold receive_next; by rewrite Hact)). cbn [snd]. by rewrite Hact, Hack.
Qed.

Definition newest (d : stream) (t : tick) : Prop := forall t', t' ∈ st_ticks d -> tk_id t' <= tk_id t.

Lemma seen_all start ticks : List.filter (fun t => bool_decide (tk_id t ∉ []) && (start <? tk_id t)) ticks = List.filter (fun t => start <? tk_id t) ticks.
Proof. apply List.filter_ext. intros t. by rewrite bool_decide_true by apply not_elem_of_nil. Qed.

(** What a receive does at the tick [nt], without an outstanding batch. *)
Lemma receive_at v now nt s d :
  inv c v d -> idle d nt -> st_subs d !! c = Some s ->
  receive_next now (fun t => bool_decide (tk_id t ∉ [])) c "" limit s d =
  let stop := max_tick (List.filter (fun t => tk_id nt <? tk_id t) (st_ticks d)) in
  if stop =? 0 then
    if negb (news (tk_id nt) d) then Ok ([BatchRow None c "" (tk_id nt) (tk_id nt) None], d)
    else let '(stop, d) := stream_new_tick now d in deliver_batch now c "" limit (tk_id nt) stop s d
  else deliver_batch now c "" limit (tk_id nt) stop s d.
Proof.
  intros Hi Hidle Hs. destruct (idle_no_batch v d nt Hi Hidle) as [_ Hact]. destruct Hidle as (_ & s' & Hs' & Hl & Hn).
  rewrite Hs in Hs'. injection Hs' as <-. unfold receive_next. rewrite Hact, (proj2 (Z.ltb_ge _ _)), andb_false_r by lia.
  replace (Z.max (sb_next_tick s) (sb_last_tick s)) with (tk_id nt) by lia. by rewrite seen_all.
Qed.

(** The round when the batch ends at tick [ct] of [dt]. *)
Lemma round_to v now nt ct s d dt :
  inv c v dt -> idle dt nt -> st_subs d !! c = Some s -> st_subs dt = st_subs d -> same_log d dt -> zlen (st_events d) <= limit ->
  ct ∈ st_ticks dt -> tk_id nt < tk_id ct -> newest dt ct ->
  receive_next now (fun t => bool_decide (tk_id t ∉ [])) c "" limit s d = deliver_batch now c "" limit (tk_id nt) (tk_id ct) s dt ->
  let d' := (round jsonb over_quota now c limit d).2 in idle d' ct /\ same_log d d' /\ nt ∈ st_ticks d' /\ newest d' ct.
Proof.
  intros Hit Hidt Hs Hsub [He Hxa] Hsize Hct Hlt Hnew Hrec.
  destruct (deliver_total now (tk_id nt) (tk_id ct) s dt) as (rows & d1 & Hd); [by rewrite He |].
  destruct (deliver_idle now v s nt ct dt rows d1 Hit Hidt) as (Ht1 & [He1 Hx1] & Hres); [by rewrite Hsub | done | done | done |].
  rewrite (round_of now s d (rows, d1)) by (done || by rewrite Hrec). cbn [snd].
  assert (Hall : forall d2, idle d2 ct -> st_ticks d2 = st_ticks dt -> same_log dt d2 -> idle d2 ct /\ same_log d d2 /\ nt ∈ st_ticks d2 /\ newest d2 ct).
  { intros d2 Hd2 Ht2 [He2 Hx2]. split_and!; [done | split; congruence | rewrite Ht2; apply Hidt | unfold newest; by rewrite Ht2]. }
  destruct Hres as [[Hid ->] | (i & d2 & -> & -> & Hid & Ht2 & Hl2)]; by apply Hall.
Qed.

(** Without an outstanding batch, a round moves the cursor to the newest tick; if
    the cursor was there, a new tick covers every event of the log. *)
Lemma round_idle v now nt d :
  inv c v d -> idle d nt -> zlen (st_events d) <= limit ->
  let d' := (round jsonb over_quota now c limit d).2 in
  exists ct, idle d' ct /\ same_log d d' /\ nt ∈ st_ticks d' /\ tk_id nt <= tk_id ct /\ newest d' ct /\
    (newest d nt -> forall e, e ∈ st_events d -> visible (ev_txid e) (tk_snapshot ct) = true).
Proof.
  intros Hi Hidle Hsize. assert (Hk := proj1 Hi). pose proof Hidle as (Hnt & s & Hs & Hl & Hn).
  assert (Hall : forall e, e ∈ st_events d -> visible (ev_txid e) (current_snapshot (st_xacts d)) = true).
  { intros e He. apply current_visible; [apply Hk |]. apply (sk_seen _ _ Hk). by apply (sk_events _ _ Hk). }
  pose proof (receive_at v now nt s d Hi Hidle Hs) as Hrec. cbv zeta in Hrec.
  destruct (Z.eqb_spec (max_tick (List.filter (fun t => tk_id nt <? tk_id t) (st_ticks d))) 0) as [Hm|Hm].
  - assert (newest d nt) as Hnewest.
    { intros t' Ht'. destruct (Z.le_gt_cases (tk_id t') (tk_id nt)) as [|Hgt]; [done |]. pose proof (sk_tick _ _ Hk _ Ht').
      assert (t' ∈ List.filter (fun t => tk_id nt <? tk_id t) (st_ticks d)) as Hin%max_tick_ge by (apply elem_of_lfilter; split; [done |]; apply Z.ltb_lt; lia). lia. }
    destruct (news (tk_id nt) d) eqn:Hnews; cbn [negb] in Hrec.
    + set (ct := mkTick (st_next_tick d) (current_snapshot (st_xacts d)) (fold_left Z.max (ev_seq <$> st_events d) 0) now).
      pose proof (sk_tick _ _ Hk _ Hnt) as Hid.
      destruct (round_to v now nt ct s d (stream_new_tick now d).2) as (H1 & H2 & H3 & H4); try done; [by apply new_tick_inv | | | cbn; lia | |].
      * split; [cbn; apply elem_of_app; by left | by exists s].
      * cbn. apply elem_of_app. right. by apply list_elem_of_singleton.
      * intros t' Ht'. cbn in Ht'. apply elem_of_app in Ht' as [Ht' | ->%list_elem_of_singleton]; [apply (sk_tick _ _ Hk) in Ht'; cbn; lia | done].
      * exists ct. split_and!; try done. cbn. lia.
    + rewrite (round_of now s d _ Hs Hrec). cbn [snd]. rewrite (proj2 (idle_no_batch v d nt Hi Hidle)). exists nt. split_and!; try done.
      intros _ e He. destruct (visible (ev_txid e) (tk_snapshot nt)) eqn:Hvis; [done |]. exfalso. unfold news in Hnews.
      rewrite (tick_at_Some v) in Hnews by done. rewrite (existsb_elem _ _ e He) in Hnews; [done |].
      rewrite (between_spec (st_xacts d)) by (by apply current_ok, Hk). by rewrite Hvis, andb_true_r, Hall.
  - pose proof Hm as Hm'. apply max_tick_elem in Hm as (ct & Hct & Hid). apply elem_of_lfilter in Hct as [Hct Hgt%Z.ltb_lt]. rewrite <- Hid in Hrec.
    destruct (round_to v now nt ct s d d) as (H1 & H2 & H3 & H4); try done.
    + intros t' Ht'. destruct (Z.le_gt_cases (tk_id t') (tk_id nt)); [lia |]. rewrite Hid. apply max_tick_ge, elem_of_lfilter. split; [done | by apply Z.ltb_lt].
    + exists ct. split_and!; try done; [lia |]. intros Hnew. apply Hnew in Hct. lia.
Qed.

(** After a round there is no outstanding batch and the log is the same. *)
Lemma round_settles v now d s a :
  inv c v d -> st_subs d !! c = Some s -> vw_sub v = Some a -> zlen (st_events d) <= limit ->
  let '(log, d') := round jsonb over_quota now c limit d in
  exists nt, idle d' nt /\ same_log d d' /\ inv c (watch c v log) d' /\
    exists q, vw_sub (watch c v log) = Some (mkAttendance (at_start a) (at_lost a) (at_sent a ++ q)) /\ vw_events (watch c v log) = vw_events v.
Proof.
  intros Hi Hs Hv Hsize. pose proof (round_inv v now d Hi) as Hinv. pose proof (round_view v now d s a Hs Hv) as [Hev [q Hq]].
  assert (exists nt, idle (round jsonb over_quota now c limit d).2 nt /\ same_log d (round jsonb over_quota now c limit d).2) as (nt & Hid & Hl).
  { pose proof (proj2 Hi) as Ho. unfold own_ok in Ho. rewrite Hv, Hs in Ho. destruct Ho as (lt & nt & Ha).
    destruct (aw_batch _ _ _ _ _ _ _ Ha) as [[Heq Hno]|(i & b & Hob & Hst & Hen & _)].
    - destruct (aw_next _ _ _ _ _ _ _ Ha) as [Hn Hnid].
      destruct (round_idle v now nt d Hi) as (ct & H1 & H2 & _); [split; [done |]; exists s; split_and!; [done | congruence | done] | done |]. eauto.
    - destruct (round_outstanding v now d s a lt nt i b) as (H1 & _ & H2); try done. eauto. }
  destruct (round jsonb over_quota now c limit d) as [log d']. exists nt. split_and!; try done. eauto.
Qed.
(** Two rounds without an outstanding batch send everything in the log. *)
Lemma idle_catches_up v a n1 n2 nt d :
  inv c v d -> idle d nt -> vw_sub v = Some a -> zlen (st_events d) <= limit ->
  let '(log1, d1) := round jsonb over_quota n1 c limit d in
  let '(log2, d2) := round jsonb over_quota n2 c limit d1 in
  exists a', vw_sub (watch c (watch c v log1) log2) = Some a' /\
    forall e, e ∈ vw_events v -> ev_seq e ∉ at_lost a -> visible (ev_txid e) (at_start a) = false -> ev_seq e ∈ at_sent a'.
Proof.
  intros Hi Hid Hv Hsize. pose proof Hid as (_ & s & Hs & _).
  pose proof (round_idle v n1 nt d Hi Hid Hsize) as H1. pose proof (round_inv v n1 d Hi) as Hi1. pose proof (round_view v n1 d s a Hs Hv) as [Hev1 [q1 Hv1]].
  destruct (round jsonb over_quota n1 c limit d) as [log1 d1]. cbn [fst snd] in *. destruct H1 as (t1 & Hid1 & [He1 _] & _ & _ & Hnew & _).
  pose proof Hid1 as (Ht1 & s1 & Hs1 & Hl1 & Hn1). rewrite <- He1 in Hsize. set (v1 := watch c v log1) in *. clearbody v1.
  pose proof (round_idle v1 n2 t1 d1 Hi1 Hid1 Hsize) as H2. pose proof (round_inv v1 n2 d1 Hi1) as Hi2. pose proof (round_view v1 n2 d1 s1 _ Hs1 Hv1) as [Hev2 [q2 Hv2]].
  destruct (round jsonb over_quota n2 c limit d1) as [log2 d2]. cbn [fst snd] in *. destruct H2 as (t2 & Hid2 & [He2 _] & Ht1' & Hle & _ & Hcover).
  specialize (Hcover Hnew). eexists. split; [exact Hv2 |]. intros e He Hlost Hstart. destruct Hi2 as [Hk2 Ho2]. pose proof Hid2 as (Ht2 & s2 & Hs2 & Hl2 & Hn2).
  unfold own_ok in Ho2. rewrite Hv2, Hs2 in Ho2. destruct Ho2 as (lt & nt' & Ha).
  assert (nt' = t2) as -> by (apply (sk_tick_inj _ _ Hk2); [apply Ha | done |]; destruct (aw_next _ _ _ _ _ _ _ Ha) as [_ ->]; done).
  apply (aw_sent _ _ _ _ _ _ _ Ha); [by rewrite Hev2, Hev1 | done |]. split; [| done].
  destruct (decide (e ∈ st_events d1)) as [|Hgone]; [by apply Hcover |].
  destruct Hi1 as [Hk1 Ho1]. unfold own_ok in Ho1. rewrite Hv1, Hs1 in Ho1. destruct Ho1 as (lt1 & nt1 & Ha1).
  assert (lt1 = t1) as -> by (apply (sk_tick_inj _ _ Hk1); [apply Ha1 | done |]; destruct (aw_last _ _ _ _ _ _ _ Ha1) as [_ ->]; done).
  destruct (visible (ev_txid e) (tk_snapshot t1)) eqn:Hvis.
  - destruct (Z.eq_dec (tk_id t1) (tk_id t2)) as [Heq|]; [by rewrite <- (sk_tick_inj _ _ Hk2 t1 t2) | by eapply (sk_mono _ _ Hk2 t1 t2); try done; lia].
  - contradiction Hgone. apply (aw_kept _ _ _ _ _ _ _ Ha1); [by rewrite Hev1 | done | done].
Qed.
End Progress.


(** ** Minimum retention *)

Fixpoint timely (from : Z) (ops : list (Z * StreamOp)) : Prop :=
  match ops with [] => True | (now, _) :: rest => from <= now /\ timely now rest end.

Definition keeps_retention (o : StreamOp) : Prop := match o with Configure _ r => r <= 0 | _ => True end.

(** Ages of the events: those of the previous segment are older than the
    current segment, and those of the segment truncated next are older than
    half the retention before that. *)
Record aged (now : Z) (d : stream) : Prop := {
  ag_segment : 0 <= cf_segment (st_config d) < 3;
  ag_started : cf_started_at (st_config d) <= now;
  ag_staged x s e : st_staged d !! x = Some s -> e ∈ sg_events s -> ev_created_at e <= now /\ ev_segment e = cf_segment (st_config d);
  ag_events e : e ∈ st_events d -> ev_created_at e <= now;
  ag_previous e : e ∈ st_events d -> ev_segment e = (cf_segment (st_config d) + 2) mod 3 -> ev_created_at e <= cf_started_at (st_config d);
  ag_oldest e : e ∈ st_events d -> ev_segment e = (cf_segment (st_config d) + 1) mod 3 ->
    ev_created_at e + half (cf_retention (st_config d)) <= cf_started_at (st_config d)
}.

Lemma half_bound n : n - 1 <= 2 * half n.
Proof. unfold half. destruct (Z.even n) eqn:H; [apply Z.even_spec in H as [k ->]; rewrite Z.mul_comm, Z.div_mul; lia |]. destruct (Z.even (n / 2)); div_lia. Qed.

Definition same_core (d d' : stream) : Prop := st_events d' = st_events d /\ st_staged d' = st_staged d /\ st_config d' = st_config d.

Lemma aged_core now now' d d' : aged now d -> now <= now' -> same_core d d' -> aged now' d'.
Proof.
  intros [Hs Hst Hsg He Hp Ho] Hle (H1 & H2 & H3). split; rewrite ?H1, ?H2, ?H3; try done; try lia.
  - intros x s e Hx He'. destruct (Hsg x s e Hx He'). split; [lia | done].
  - intros e He'. specialize (He e He'). lia.
Qed.

Lemma stage_aged now now' ins rs ds d : aged now d -> now <= now' -> aged now' (stage now' ins rs ds d).2.
Proof.
  intros [Hs Hst Hsg He Hp Ho] Hle. split; cbn; try done; try lia.
  - intros x s e [[<- <-] | [_ Hx]]%lookup_insert_Some He'; [| destruct (Hsg x s e Hx He'); split; [lia | done]].
    cbn in He'. revert He'. generalize (st_next_seq d). induction ins as [|[i r] ins IH]; intros q; [by intros ?%elem_of_nil |].
    intros [-> | Hin]%elem_of_cons; [cbn; split; [lia | done] |]. by eapply IH.
  - intros e He'. specialize (He e He'). lia.
Qed.

Lemma rollback_aged now now' x d : aged now d -> now <= now' -> aged now' (rollback x d).
Proof.
  intros [Hs Hst Hsg He Hp Ho] Hle. split; cbn; try done; try lia.
  - intros y s e [_ Hy]%lookup_delete_Some He'. destruct (Hsg y s e Hy He'). split; [lia | done].
  - intros e He'. specialize (He e He'). lia.
Qed.

Lemma mod_next a b : 0 <= a < 3 -> 0 < b < 3 -> (a + b) mod 3 <> a.
Proof. intros. div_lia. Qed.

Lemma commit_aged now now' x d : aged now d -> now <= now' -> aged now' (commit x d).
Proof.
  intros Ha Hle. destruct (st_staged d !! x) as [s|] eqn:Hx; [| rewrite commit_none by done; by eapply rollback_aged].
  unfold commit. rewrite Hx. destruct Ha as [Hs Hst Hsg He Hp Ho]. split; cbn; try done; try lia.
  - intros y s' e [_ Hy]%lookup_delete_Some He'. destruct (Hsg y s' e Hy He'). split; [lia | done].
  - intros e [He' | He']%elem_of_app; [specialize (He e He'); lia |]. destruct (Hsg x s e Hx He'). lia.
  - intros e [He' | He']%elem_of_app Hseg; [by apply Hp |]. destruct (Hsg x s e Hx He') as [_ Heq].
    rewrite Heq in Hseg. by apply eq_sym, mod_next in Hseg.
  - intros e [He' | He']%elem_of_app Hseg; [by apply Ho |]. destruct (Hsg x s e Hx He') as [_ Heq].
    rewrite Heq in Hseg. by apply eq_sym, mod_next in Hseg.
Qed.

(** What a rotation does, if it does anything. *)
Lemma rotate_cases now busy d :
  (Rotate now busy d).2 = d \/
  let c := st_config d in let d' := (Rotate now busy d).2 in
  st_staged d = ∅ /\ cf_started_at c + half (cf_retention c) <= now /\ st_staged d' = st_staged d /\
  st_events d' = List.filter (fun e => negb (ev_segment e =? (cf_segment c + 1) mod 3)) (st_events d) /\
  st_config d' = mkConfig (cf_max_retries c) (cf_interval c) ((cf_segment c + 1) mod 3) now.
Proof.
  unfold Rotate. destruct (negb _) eqn:Hst; [by left |]. apply negb_false_iff, bool_decide_eq_true in Hst.
  destruct (negb (_ <=? _)) eqn:Hdue; [by left |]. apply negb_false_iff, Z.leb_le in Hdue. destruct (_ && _); [by left |].
  destruct busy; [by left |]. right. done.
Qed.

Lemma rotate_aged now now' busy d : aged now d -> now <= now' -> aged now' (Rotate now' busy d).2.
Proof.
  intros Ha Hle. destruct (rotate_cases now' busy d) as [-> | (Hst & Hdue & Hst' & Hev & Hcf)]; [by eapply aged_core |].
  destruct Ha as [Hs Hsta Hsg He Hp Ho].
  assert (Hkept : forall e, e ∈ st_events (Rotate now' busy d).2 -> e ∈ st_events d /\ ev_segment e <> (cf_segment (st_config d) + 1) mod 3).
  { intros e. rewrite Hev, elem_of_lfilter, negb_true_iff, Z.eqb_neq. done. }
  set (d' := (Rotate now' busy d).2) in *.
  assert (cf_retention (st_config d') = cf_retention (st_config d)) as Hret by (unfold cf_retention; by rewrite Hcf).
  split; rewrite ?Hret, ?Hcf; cbn; try lia.
  - div_lia.
  - intros x s e Hx. by rewrite Hst', Hst, lookup_empty in Hx.
  - intros e [Hin _]%Hkept. specialize (He e Hin). lia.
  - intros e [Hin _]%Hkept _. specialize (He e Hin). lia.
  - intros e [Hin Hne]%Hkept Hseg. assert (ev_created_at e <= cf_started_at (st_config d)); [| lia]. apply Hp; [done |].
    rewrite Hseg. div_lia.
Qed.

(** The other operations leave log, transactions and configuration alone. *)
Lemma core_refl d : same_core d d.
Proof. done. Qed.

Lemma core_trans d1 d2 d3 : same_core d1 d2 -> same_core d2 d3 -> same_core d1 d3.
Proof. unfold same_core. intros (-> & -> & ->) (-> & -> & ->). done. Qed.

Lemma latest_tick_core now seen d : same_core d (stream_latest_tick now seen d).2.
Proof. unfold stream_latest_tick. by destruct (_ =? 0). Qed.

Lemma insert_sub_core now c t d : same_core d (insert_sub now c t d).2.
Proof. unfold insert_sub. by destruct (st_subs d !! c). Qed.

Lemma deliver_core now c m limit start stop s d rows d' :
  deliver_batch now c m limit start stop s d = Ok (rows, d') -> same_core d d'.
Proof. unfold deliver_batch. destruct (_ <? _); [done |]. destruct (_ =? 0); by intros [= <- <-]. Qed.

Lemma auto_subscribe_core now seen c d : same_core d (auto_subscribe now seen c d).2.
Proof.
  unfold auto_subscribe. destruct (st_subs d !! c); [done |]. pose proof (latest_tick_core now seen d) as H1.
  destruct (stream_latest_tick now seen d) as [t d1]. eapply core_trans; [exact H1 | apply insert_sub_core].
Qed.

Lemma receive_core now seen c m limit d rows d' : receiveBatch now seen c m limit d = Ok (rows, d') -> same_core d d'.
Proof.
  unfold receiveBatch, stream_receive. destruct (negb _); [done |]. pose proof (auto_subscribe_core now seen c d) as H1.
  destruct (auto_subscribe now seen c d) as [s d1]. unfold receive_next. destruct (active_batch c m d1); [by intros [= <- <-] |].
  destruct (_ && _); [done |]. destruct (_ =? 0).
  - destruct (negb _); [by intros [= <- <-] |]. intros Hd%deliver_core. eapply core_trans; [exact H1 | exact Hd].
  - intros Hd%deliver_core. by eapply core_trans.
Qed.

Lemma subscribe_core now c from d s d' : Subscribe now c from d = Ok (s, d') -> same_core d d'.
Proof.
  unfold Subscribe, stream_subscribe. destruct (negb _); [done |]. destruct (match from with Some _ => _ | None => _ end); [done |].
  destruct from as [f|].
  - destruct (f =? 0); [destruct (_ =? 0) | destruct (tick_at d f); [| done]]; intros [= Heq];
      match type of Heq with insert_sub now c ?t ?d0 = _ => pose proof (insert_sub_core now c t d0) as H1 end; rewrite Heq in H1; done.
  - pose proof (latest_tick_core now (fun _ => true) d) as H1. destruct (stream_latest_tick _ _ d) as [t d1]. intros [= Heq].
    pose proof (insert_sub_core now c t d1) as H2. rewrite Heq in H2. by eapply core_trans.
Qed.

Lemma ack_core now i d e d' : stream_ack now i d = Ok (e, d') -> same_core d d'.
Proof.
  unfold stream_ack. destruct (st_batches d !! i) as [b|]; [| done]. destruct (bool_decide _); [done |]. cbn.
  destruct (st_subs d !! _); [| by intros [= <- <-]]. destruct (chain _ _ _); by intros [= <- <-].
Qed.

Lemma nack_core now i ev after reason d r d' : NackMessage now i ev after reason d = Ok (r, d') -> same_core d d'.
Proof.
  unfold NackMessage, stream_nack. destruct (st_batches d !! i) as [b|]; [| done]. destruct (bool_decide _); [done |].
  destruct (find _ _) as [e|]; [| done]. destruct (_ <? _), (has_message _ _ _); by intros [= <- <-].
Qed.

Lemma exec_aged jsonb over_quota now now' o d :
  aged now d -> now <= now' -> keeps_retention o -> aged now' (exec_stream jsonb over_quota now' o d).2.
Proof.
  intros Ha Hle Hr. assert (Hcore : forall d', same_core d d' -> aged now' d') by (intros d'; by apply (aged_core now)).
  destruct o; cbn [exec_stream].
  - by apply Hcore.
  - case_bool_decide; [| by apply Hcore]. by apply commit_aged with now.
  - case_bool_decide; [| by apply Hcore]. by apply rollback_aged with now.
  - unfold AppendMessages. destruct inputs; [by apply Hcore |]. destruct (over_quota _); [by apply Hcore |].
    destruct (streamAppendArgs _) as [args|]; [| by apply Hcore]. destruct (mapM _ _) as [rows|]; [| by apply Hcore]. by apply stage_aged with now.
  - destruct (Subscribe now' consumer from d) as [[s d']|] eqn:Hs; [| by apply Hcore]. by eapply Hcore, subscribe_core.
  - unfold Unsubscribe. by destruct (st_subs d !! consumer); apply Hcore.
  - case_bool_decide.
    + unfold ReceiveBatch. destruct (receiveBatch _ _ _ _ _ _) as [[rows d']|] eqn:Hrec; [| by apply Hcore]. by eapply Hcore, receive_core.
    + unfold ReceiveCoopBatch. destruct (negb _); [by apply Hcore |]. destruct (_ || _); [by apply Hcore |].
      destruct (receiveBatch _ _ _ _ _ _) as [[rows d']|] eqn:Hrec; [| by apply Hcore]. by eapply Hcore, receive_core.
  - unfold AckBatch. destruct (stream_ack now' id d) as [[e d']|] eqn:Hack; [| by apply Hcore]. by eapply Hcore, ack_core.
  - destruct (NackMessage _ _ _ _ _ d) as [[r d']|] eqn:Hn; [| by apply Hcore]. by eapply Hcore, nack_core.
  - unfold ProcessRetries, stream_process_retries. destruct (existsb _ _); [by apply Hcore |]. by apply stage_aged with now.
  - unfold ReplayDeadLetter. case_bool_decide; [by apply Hcore |]. destruct (st_dead d !! id); [| by apply Hcore]. by apply stage_aged with now.
  - unfold ReplayAllDeadLetters. destruct (existsb _ _); [by apply Hcore |]. by apply stage_aged with now.
  - unfold PurgeDeadLetters. by destruct (existsb _ _); apply Hcore.
  - destruct Ha as [Hs Hst Hsg He Hp Ho]. split; cbn; try done; try lia.
    + intros x s e Hx He'. destruct (Hsg x s e Hx He'). split; [lia | done].
    + intros e He'. specialize (He e He'). lia.
    + unfold cf_retention. cbn. rewrite (proj2 (Z.ltb_ge 0 retention)) by exact Hr. done.
  - by apply Hcore.
  - by apply rotate_aged with now.
Qed.

Lemma run_aged jsonb over_quota ops rest now d :
  aged now d -> timely now (ops ++ rest) -> Forall (fun o => keeps_retention o.2) ops ->
  exists now', aged now' (stream_run jsonb over_quota ops d).2 /\ timely now' rest.
Proof.
  revert now d. induction ops as [|[n o] ops IH]; intros now d Ha Ht Hall; [by exists now |]. apply Forall_cons in Hall as [Ho Hall].
  destruct Ht as [Hle Ht]. cbn [stream_run]. pose proof (exec_aged jsonb over_quota now n o d Ha Hle Ho) as H1.
  destruct (exec_stream _ _ _ _ _) as [log d1]. specialize (IH n d1 H1 Ht Hall). by destruct (stream_run _ _ _ _).
Qed.

(** Retention is a minimum.  In a history with a clock that does not go
    back and an unchanged retention, every event a rotation truncates is at
    least the retention old, up to the microsecond lost in halving it. *)
Theorem retention_minimum jsonb over_quota ops start t log d now busy :
  timely start (ops ++ [(now, Rotation busy)]) -> Forall (fun o => keeps_retention o.2) ops ->
  stream_run jsonb over_quota ops (new_stream start t) = (log, d) ->
  forall e, e ∈ st_events d -> e ∉ st_events (Rotate now busy d).2 -> ev_created_at e + cf_retention (st_config d) - 1 <= now.
Proof.
  intros Ht Hall Hrun e He Hgone. assert (aged start (new_stream start t)) as Hnew by (split; cbn; try lia; try done; by intros ? ?%elem_of_nil).
  destruct (run_aged jsonb over_quota ops _ start _ Hnew Ht Hall) as (n & Ha & Hle & _). rewrite Hrun in Ha. cbn in Ha, Hle. destruct (rotate_cases now busy d) as [Heq | (_ & Hdue & _ & Hev & _)]; [by rewrite Heq in Hgone |].
  rewrite Hev, elem_of_lfilter, negb_true_iff, Z.eqb_neq in Hgone.
  assert (ev_segment e = (cf_segment (st_config d) + 1) mod 3) as Hseg by (destruct (Z.eq_dec (ev_segment e) ((cf_segment (st_config d) + 1) mod 3)); tauto).
  pose proof (ag_oldest _ _ Ha e He Hseg). pose proof (half_bound (cf_retention (st_config d))). lia.
Qed.

(** ** Sample histories *)

Definition quiet : xacts := mkXacts 10 9 ∅.

Lemma quiet_ok : xacts_ok quiet.
Proof. split; cbn; [lia | by intros x ?%elem_of_empty | lia]. Qed.

Definition one (id : string) : list (StreamMessageInput * string) := [(mkMessageInput id "" "" "", "")].

Definition as_is (s : string) : option string := Some s.
Definition unlimited (n : Z) : bool := false.
Definition hour : Z := 3600 * 1000000.

(** Two producers whose commits are out of order, a consumer that receives in
    between, a late commit, two rotations and a retry. *)
Definition sample_ops : list (Z * StreamOp) :=
  [(1, Join "mail" None); (2, Append (one "a")); (3, Append (one "b")); (4, CommitXact 11); (5, Receive [] "mail" "" 10);
   (6, CommitXact 10); (7, Fail_ 1 "b" 0 "later"); (8, Acknowledge 1); (9, Receive [] "mail" "" 10); (10, BeginOther);
   (100 * hour, Rotation false); (100 * hour, Retry 0); (100 * hour, CommitXact 14)].

Definition sample_stream : list happening * stream := stream_run as_is unlimited sample_ops (new_stream 0 quiet).

(** Events 2 and 1 are sent in that order, the retried event 3 not yet. *)
Example sample_sent :
  at_sent <$> vw_sub (view_of "mail" sample_stream.1) = Some [2; 1] /\ (ev_seq <$> vw_events (view_of "mail" sample_stream.1)) = [2; 1; 3].
Proof. vm_compute. done. Qed.



(** The segment of the first event is truncated three rotations later. *)
Definition old_ops : list (Z * StreamOp) :=
  [(1, Append (one "a")); (2, CommitXact 10); (85 * hour, Rotation false); (170 * hour, Rotation false)].
Definition old_stream : list happening * stream := stream_run as_is unlimited old_ops (new_stream 0 quiet).

Lemma retention_minimum_witness :
  exists e, st_events old_stream.2 = [e] /\ st_events (Rotate (255 * hour) false old_stream.2).2 = [] /\
    ev_created_at e + 7 * 24 * hour - 1 <= 255 * hour.
Proof.
  destruct (st_events old_stream.2) as [|e [|]] eqn:He; [vm_compute in He; discriminate | | vm_compute in He; discriminate].
  assert (st_events (Rotate (255 * hour) false old_stream.2).2 = []) as Hno by by vm_compute.
  exists e. split_and!; [done | done |].
  assert (timely 0 (old_ops ++ [(255 * hour, Rotation false)])) as Ht by (vm_compute; intuition discriminate).
  pose proof (retention_minimum as_is unlimited old_ops 0 quiet old_stream.1 old_stream.2 (255 * hour) false Ht
    ltac:(by repeat constructor) (surjective_pairing old_stream) e) as H.
  assert (cf_retention (st_config old_stream.2) = 7 * 24 * hour) as Hr by by vm_compute. rewrite Hr in H. apply H; [rewrite He; left | rewrite Hno; apply not_elem_of_nil].
Defined.

(** ** Members *)

(** Members [x] and [y] of consumer "team", and consumer "audit".  The receive
    of "audit" at time 5 looks for ticks before the one of [x] is committed,
    so that two ticks with no event between them exist; [y] then receives
    nothing and moves only the second cursor of "team", to a tick that nothing
    protects.  When it is pruned, the next receive of "team" skips event 2. *)
Definition team_ops : list (Z * StreamOp) :=
  [(1, Join "team" None); (1, Join "audit" None); (2, Append (one "a")); (3, CommitXact 10);
   (4, Receive [] "team" "x" 10); (5, Receive [2] "audit" "" 10); (6, Receive [] "team" "y" 10);
   (7, Acknowledge 1); (8, Acknowledge 2); (9, Append (one "b")); (10, CommitXact 11);
   (11, Receive [] "audit" "" 10); (12, Acknowledge 3); (200 * hour, Prune 0);
   (200 * hour, Receive [] "team" "x" 10); (200 * hour, Receive [] "team" "y" 10)].
Definition team_stream : list happening * stream := stream_run as_is unlimited team_ops (new_stream 0 quiet).

