(* ===== verification/Resp.v ===== *)
(** * The RESP server

    Models [internal/resp/resp.go]: sessions, the command table, the handlers
    and the execution of pipelines, with the reads and writes it coalesces.
    What a handler sends on its connection is a list of [frame]s.

    The handlers call the store through [StoreOps]; [RespStore.v] gives the
    store of tables and a store of maps.  Every call of a command happens at
    one time.  Names of commands and options are ASCII.  The texts of the
    errors of the store are a parameter, and so is the number of pages a scan
    may read. *)

From Stdlib Require Import SpecFloat.
From S2P Require Import Prelude GoStrings Ns Ranges Precond Backoff Blocks Glob.

(** ** The connection *)

Inductive frame :=
| WArray (n : Z)
| WBulk (b : bytes)
| WNull
| WInt (n : Z)
| WString (s : string)
| WError (s : string).

Definition str (b : bytes) : string := String.string_of_list_ascii b.
Definition byt (s : string) : bytes := String.list_ascii_of_string s.

Definition writeBulk (b : option bytes) : frame := match b with Some b => WBulk b | None => WNull end.
Definition WBulkString (s : string) : frame := WBulk (byt s).

Record respCmd := mkCmd { rc_name : string; rc_args : list bytes }.

Record respSession := mkSession { rs_bucket : string; rs_status : Z; rs_quit : bool }.

Definition DefaultCache : string := "cache".

Definition new_session : respSession := mkSession DefaultCache 0 false.

Definition set_status (n : Z) (s : respSession) : respSession := mkSession (rs_bucket s) n (rs_quit s).
Definition set_bucket (b : string) (s : respSession) : respSession := mkSession b (rs_status s) (rs_quit s).
Definition set_quit (s : respSession) : respSession := mkSession (rs_bucket s) (rs_status s) true.

(** [redcon] hands over commands with at least their name. *)
Definition fromRedcon (name : bytes) (args : list bytes) : respCmd := mkCmd (ToUpper (str name)) args.

(** ** The store *)

Record CacheSetOptions := mkSetOptions {
  co_Precondition : Precondition;
  co_ExpiresAt : option Z;
  co_KeepTTL : bool;
  co_ReturnOld : bool
}.

Definition no_options : CacheSetOptions := mkSetOptions (mkPrecondition Unconditional "") None false false.

(** The errors the handlers tell apart. *)
Inductive call_error := NotFound | NotInteger | Other (what : string).

Abbreviation reading S A := (S -> result call_error A).
Abbreviation calling S A := (S -> result call_error A * S).

(** What the handlers call: the methods of [Cache] by the name of the cache,
    and those of [Store].  Instants are in nanoseconds. *)
Class StoreOps (S : Type) := {
  st_Get : string -> string -> reading S (option bytes);
  st_MGet : string -> list string -> reading S (list (option bytes));
  st_Exists : string -> list string -> reading S Z;
  st_TTL : string -> string -> reading S (Z * bool * bool);
  st_DBSize : string -> reading S Z;
  st_StatNamespace : string -> S -> Z * Z * Z;
  st_MetaHeader : ObjectRef -> reading S Z;
  st_Read : ObjectRef -> ByteRange -> reading S bytes;
  st_List : Ref -> string -> string -> string -> Z -> reading S (list string);
  st_Set : string -> string -> bytes -> CacheSetOptions -> calling S (option bytes * bool * bool);
  st_GetSet : string -> string -> bytes -> CacheSetOptions -> calling S (option bytes * bool * bool);
  st_GetDel : string -> string -> calling S (option bytes);
  st_MSet : string -> list (string * bytes) -> calling S unit;
  st_Append : string -> string -> bytes -> calling S Z;
  st_SetRange : string -> string -> Z -> bytes -> calling S Z;
  st_IncrBy : string -> string -> Z -> calling S Z;
  st_Del : string -> list string -> calling S Z;
  st_Expire : string -> string -> option Z -> list string -> calling S bool;
  st_Flush : string -> calling S unit;
  st_FlushAll : calling S unit
}.

(** ** Targets *)

Definition resolveTarget (currentCache rawKey : string) : Kind * string * string :=
  match CutPrefix rawKey "s3://" with
  | Some rest =>
      match Cut rest "/"%char with
      | Some (b, k) => if bool_decide (b <> "") && bool_decide (k <> "") then (Bucket, b, k) else (Cache, currentCache, rawKey)
      | None => (Cache, currentCache, rawKey)
      end
  | None => (Cache, currentCache, rawKey)
  end.

Definition targetRef (kind : Kind) (namespace key : string) : ObjectRef := mkObjectRef (mkRef kind namespace) key.

Definition errCrossNamespace : string := "cross-namespace write denied".
Definition errNotInt : string := "value is not an integer or out of range".

Definition writeTarget (currentCache : string) (rawKey : bytes) : result string (string * string) :=
  let raw := str rawKey in
  if HasPrefix raw "s3://" then Err errCrossNamespace
  else
    let '(kind, b, k) := resolveTarget currentCache raw in
    if bool_decide (kind <> Cache) || bool_decide (b <> currentCache) then Err errCrossNamespace else Ok (b, k).

(** ** Options *)

Definition second : Z := 1000000000.

(** [time.Unix(sec, 0)]: the seconds since year 1 are 64 bits. *)
Definition unixToInternal : Z := 62135596800.
Definition time_Unix (sec : Z) : Z := (wrap64 (sec + unixToInternal) - unixToInternal) * second.

(** The instant of an expiry; a [time.Duration] is 64 bits. *)
Definition respExpiration (name : string) (n now : Z) : Z :=
  if bool_decide (name = "EX" \/ name = "SETEX" \/ name = "EXPIRE") then now + wrap64 (n * second)
  else if bool_decide (name = "PX" \/ name = "PSETEX" \/ name = "PEXPIRE") then now + wrap64 (n * millisecond)
  else if bool_decide (name = "EXAT" \/ name = "EXPIREAT") then time_Unix n
  else if bool_decide (name = "PXAT" \/ name = "PEXPIREAT") then n * millisecond
  else - unixToInternal * second.

Definition syntax_error : string := "syntax error".
Definition bad_set_expire : string := "invalid expire time in 'set' command".

Fixpoint set_options (now : Z) (args : list bytes) (o : CacheSetOptions) : result string CacheSetOptions :=
  match args with
  | [] => Ok o
  | a :: rest =>
      let flag := ToUpper (str a) in
      let 'mkSetOptions pre t keep old := o in
      if bool_decide (flag = "NX") then
        if bool_decide (pc_Mode pre = IfPresent) then Err syntax_error
        else set_options now rest (mkSetOptions (mkPrecondition IfAbsent (pc_ETag pre)) t keep old)
      else if bool_decide (flag = "XX") then
        if bool_decide (pc_Mode pre = IfAbsent) then Err syntax_error
        else set_options now rest (mkSetOptions (mkPrecondition IfPresent (pc_ETag pre)) t keep old)
      else if bool_decide (flag = "GET") then set_options now rest (mkSetOptions pre t keep true)
      else if bool_decide (flag = "KEEPTTL") then set_options now rest (mkSetOptions pre t true old)
      else if bool_decide (flag = "EX" \/ flag = "PX" \/ flag = "EXAT" \/ flag = "PXAT") then
        match rest with
        | [] => Err syntax_error
        | v :: rest =>
            match ParseInt (str v) with
            | Some n =>
                if n <=? 0 then Err bad_set_expire
                else set_options now rest (mkSetOptions pre (Some (respExpiration flag n now)) keep old)
            | None => Err bad_set_expire
            end
        end
      else Err syntax_error
  end.

Definition parseRESPSetOptions (now : Z) (args : list bytes) : result string CacheSetOptions := set_options now args no_options.

(** ** Handlers *)

Definition Error (e : call_error) : string :=
  match e with NotFound => "object not found" | NotInteger => errNotInt | Other s => s end.

(** The server: whether it is read-only, its version, the clock in nanoseconds
    and the pages a scan may read. *)
Record Server := mkServer { sv_readOnly : bool; sv_version : string; sv_now : Z; sv_pages : nat }.

Record conn (S : Type) := mkConn { cn_sess : respSession; cn_out : list frame; cn_store : S }.
Arguments mkConn {S}.
Arguments cn_sess {S}.
Arguments cn_out {S}.
Arguments cn_store {S}.

(** A handler writes to the connection and returns a value or an error. *)
Definition handler (S A : Type) : Type := conn S -> result string A * conn S.

#[global] Instance handler_ret {S} : MRet (handler S) := fun _ x c => (Ok x, c).
#[global] Instance handler_bind {S} : MBind (handler S) := fun _ _ f h c =>
  match h c with
  | (Ok x, c) => f x c
  | (Err e, c) => (Err e, c)
  end.

Section Handlers.
Context {S : Type} `{StoreOps S} (sv : Server).

Definition fails {A} (e : string) : handler S A := fun c => (Err e, c).
Definition lift {A} (r : result string A) : handler S A := fun c => (r, c).
Definition send (fs : list frame) : handler S unit := fun c => (Ok tt, mkConn (cn_sess c) (cn_out c ++ fs) (cn_store c)).
Definition session : handler S respSession := fun c => (Ok (cn_sess c), c).
Definition change (f : respSession -> respSession) : handler S unit := fun c => (Ok tt, mkConn (f (cn_sess c)) (cn_out c) (cn_store c)).

(** A call of the store; the handler sees its error. *)
Definition ask {A} (f : reading S A) : handler S (result call_error A) := fun c => (Ok (f (cn_store c)), c).
Definition call {A} (f : calling S A) : handler S (result call_error A) := fun c =>
  let '(r, s) := f (cn_store c) in (Ok r, mkConn (cn_sess c) (cn_out c) s).

(** The handler returns the error. *)
Definition try {A} (r : result call_error A) : handler S A :=
  match r with Ok x => mret x | Err e => fails (Error e) end.

(** The same, after setting the status of the session. *)
Definition try_status {A} (n : Z) (r : result call_error A) : handler S A :=
  match r with Ok x => mret x | Err e => change (set_status n);; fails (Error e) end.

Definition writeOK (r : result call_error unit) : handler S unit := try r;; send [WString "OK"].
Definition writeInt (r : result call_error Z) : handler S unit := n ← try r; send [WInt n].
Definition writeBoolInt (r : result call_error bool) : handler S unit := b ← try r; send [WInt (Z.b2z b)].

Definition arg (i : nat) (args : list bytes) : bytes := nth i args [].

(** *** The connection *)

Definition cmdTxUnsupported : handler S unit :=
  fails "MULTI/EXEC/WATCH are not supported; use a pipeline (redis-py: transaction=False)".

Definition cmdPing (args : list bytes) : handler S unit :=
  match args with [] => send [WString "PONG"] | a :: _ => send [writeBulk (Some a)] end.

Definition cmdEcho (args : list bytes) : handler S unit := send [writeBulk (Some (arg 0 args))].

Definition cmdOK : handler S unit := send [WString "OK"].

Definition cmdQuit : handler S unit := change set_quit;; send [WString "OK"].

Definition cmdReset : handler S unit := change (set_bucket DefaultCache);; send [WString "RESET"].

Definition hello_reply : list frame :=
  [WArray 14; WBulkString "server"; WBulkString "pgvs3"; WBulkString "version"; WBulkString (sv_version sv); WBulkString "proto"; WInt 2;
   WBulkString "id"; WInt 1; WBulkString "mode"; WBulkString "standalone"; WBulkString "role"; WBulkString "master";
   WBulkString "modules"; WArray 0].

Definition cmdHello (args : list bytes) : handler S unit :=
  match args with
  | a :: _ =>
      match Atoi (str a) with
      | None => fails "protocol version is not an integer or out of range"
      | Some ver => if bool_decide (ver <> 2) then fails "NOPROTO sorry this protocol version is not supported" else send hello_reply
      end
  | [] => send hello_reply
  end.

Definition cmdCommand : handler S unit := send [WArray 0].

Definition cmdConfig (args : list bytes) : handler S unit :=
  match args with
  | a :: b :: _ =>
      if EqualFold (str a) "GET" then
        let what := ToLower (str b) in
        if bool_decide (what = "save") then send [WArray 2; WBulkString "save"; WBulkString ""]
        else if bool_decide (what = "appendonly") then send [WArray 2; WBulkString "appendonly"; WBulkString "no"]
        else send [WArray 0]
      else send [WString "OK"]
  | _ => send [WString "OK"]
  end.

Definition cmdSelect (args : list bytes) : handler S unit :=
  let target := str (arg 0 args) in
  target ← (match Atoi target with
            | Some n =>
                if (n <? 0) || (15 <? n) then fails "DB index is out of range"
                else mret (if n =? 0 then DefaultCache else DefaultCache +:+ "-" +:+ FormatInt n)
            | None => mret target
            end);
  if negb (ValidName target) then fails "invalid namespace name"
  else change (set_bucket target);; send [WString "OK"].

Definition crlf : string := bstr [13; 10].

Definition cmdInfo : handler S unit :=
  sess ← session;
  st ← ask (fun s => Ok (st_StatNamespace (rs_bucket sess) s));
  '(objects, logical, physical) ← try st;
  send [WBulkString ("# Server" +:+ crlf +:+ "redis_version:6.2.0" +:+ crlf +:+ "pgvs3_version:" +:+ sv_version sv +:+ crlf +:+
    "redis_mode:standalone" +:+ crlf +:+ "# Keyspace" +:+ crlf +:+ "db0:keys=" +:+ FormatInt objects +:+
    ",logical_bytes=" +:+ FormatInt logical +:+ ",physical_bytes=" +:+ FormatInt physical +:+ crlf)].

Definition cmdDBSize : handler S unit :=
  sess ← session; r ← ask (st_DBSize (rs_bucket sess)); writeInt r.

Definition cmdFlush (name : string) : handler S unit :=
  if EqualFold name "FLUSHALL" then r ← call st_FlushAll; writeOK r
  else sess ← session; r ← call (st_Flush (rs_bucket sess)); writeOK r.

(** *** Reading *)

Definition readValue (current : string) (key : bytes) : handler S (result call_error (option bytes)) :=
  let '(kind, name, k) := resolveTarget current (str key) in
  if bool_decide (kind = Cache) then ask (st_Get name k)
  else
    r ← ask (st_Read (targetRef kind name k) WholeObjectRange);
    mret (match r with Err NotFound => Ok None | Err e => Err e | Ok b => Ok (Some b) end).

Definition cmdGet (args : list bytes) : handler S unit :=
  sess ← session;
  r ← readValue (rs_bucket sess) (arg 0 args);
  val ← try_status 500 r;
  (match val with None => change (set_status 404) | Some _ => mret tt end);;
  send [writeBulk val].

(** The keys, if all are of the cache. *)
Fixpoint cache_keys (bucket : string) (args : list bytes) : option (list string) :=
  match args with
  | [] => Some []
  | a :: rest =>
      let '(kind, _, key) := resolveTarget bucket (str a) in
      if bool_decide (kind <> Cache) then None else cons key <$> cache_keys bucket rest
  end.

Fixpoint mget_each (bucket : string) (args : list bytes) : handler S unit :=
  match args with
  | [] => mret tt
  | a :: rest =>
      r ← readValue bucket a;
      val ← try_status 500 r;
      send [writeBulk val];;
      mget_each bucket rest
  end.

Definition cmdMGet (args : list bytes) : handler S unit :=
  sess ← session;
  match cache_keys (rs_bucket sess) args with
  | Some keys =>
      r ← ask (st_MGet (rs_bucket sess) keys);
      vals ← try_status 500 r;
      send (WArray (zlen vals) :: (writeBulk <$> vals))
  | None => send [WArray (zlen args)];; mget_each (rs_bucket sess) args
  end.

Definition cmdGetRange (args : list bytes) : handler S unit :=
  match ParseInt (str (arg 1 args)), ParseInt (str (arg 2 args)) with
  | Some startIdx, Some endIdx =>
      sess ← session;
      let '(kind, b, k) := resolveTarget (rs_bucket sess) (str (arg 0 args)) in
      m ← ask (st_MetaHeader (targetRef kind b k));
      match m with
      | Err NotFound => send [WBulk []]
      | Err e => fails (Error e)
      | Ok size =>
          if size =? 0 then send [WBulk []]
          else
            let startIdx := if startIdx <? 0 then Z.max (wrap64 (size + startIdx)) 0 else startIdx in
            let endIdx := if endIdx <? 0 then wrap64 (size + endIdx) else endIdx in
            if (endIdx <? startIdx) || (size <=? startIdx) || (endIdx <? 0) then send [WBulk []]
            else
              r ← ask (st_Read (targetRef kind b k) (Range startIdx (Z.min endIdx (size - 1)) (-1)));
              b ← try r;
              send [WBulk b]
      end
  | _, _ => fails errNotInt
  end.

Definition cmdStrLen (args : list bytes) : handler S unit :=
  sess ← session;
  let '(kind, b, k) := resolveTarget (rs_bucket sess) (str (arg 0 args)) in
  m ← ask (st_MetaHeader (targetRef kind b k));
  match m with
  | Err NotFound => send [WInt 0]
  | Err e => fails (Error e)
  | Ok size => send [WInt size]
  end.

Definition cmdType (args : list bytes) : handler S unit :=
  sess ← session;
  let '(kind, b, k) := resolveTarget (rs_bucket sess) (str (arg 0 args)) in
  m ← ask (st_MetaHeader (targetRef kind b k));
  match m with
  | Err NotFound => send [WString "none"]
  | Err e => fails (Error e)
  | Ok _ => send [WString "string"]
  end.

(** The keys of the cache and the number of objects of buckets that exist. *)
Fixpoint exists_each (bucket : string) (args : list bytes) (n : Z) : handler S (Z * list string) :=
  match args with
  | [] => mret (n, [])
  | a :: rest =>
      let '(kind, b, k) := resolveTarget bucket (str a) in
      if bool_decide (kind = Bucket) then
        m ← ask (st_MetaHeader (targetRef kind b k));
        match m with
        | Ok _ => exists_each bucket rest (n + 1)
        | Err NotFound => exists_each bucket rest n
        | Err e => fails (Error e)
        end
      else '(n, keys) ← exists_each bucket rest n; mret (n, k :: keys)
  end.

Definition cmdExists (args : list bytes) : handler S unit :=
  sess ← session;
  '(n, cacheKeys) ← exists_each (rs_bucket sess) args 0;
  match cacheKeys with
  | [] => send [WInt n]
  | _ => r ← ask (st_Exists (rs_bucket sess) cacheKeys); count ← try r; send [WInt (n + count)]
  end.

(** [int64(d.Seconds() + 0.5)] *)
Definition fadd (x y : float64) : float64 := SFadd prec emax x y.
Definition fdiv (x y : float64) : float64 := SFdiv prec emax x y.
Definition Seconds (d : Z) : float64 := fadd (of_int (d / second)) (fdiv (of_int (d mod second)) (of_int second)).
Definition float_to_int (x : float64) : Z :=
  match x with
  | S754_finite s m e => let z := if 0 <=? e then Z.pos m * 2 ^ e else Z.pos m / 2 ^ (- e) in if s then - z else z
  | _ => 0
  end.

Definition cmdTTL (name : string) (args : list bytes) : handler S unit :=
  sess ← session;
  let '(kind, b, k) := resolveTarget (rs_bucket sess) (str (arg 0 args)) in
  if bool_decide (kind = Bucket) then
    m ← ask (st_MetaHeader (targetRef kind b k));
    match m with
    | Err NotFound => send [WInt (-2)]
    | Err e => fails (Error e)
    | Ok _ => send [WInt (-1)]
    end
  else
    r ← ask (st_TTL b k);
    '(d, hasTTL, exists_) ← try r;
    if negb exists_ then send [WInt (-2)]
    else if negb hasTTL then send [WInt (-1)]
    else if bool_decide (name = "PTTL") then send [WInt (Z.max (d / millisecond) 1)]
    else send [WInt (Z.max (float_to_int (fadd (Seconds d) fhalf)) 1)].

(** *** Writing *)

Definition cmdSet (args : list bytes) : handler S unit :=
  sess ← session;
  '(b, k) ← lift (writeTarget (rs_bucket sess) (arg 0 args));
  opts ← lift (parseRESPSetOptions (sv_now sv) (drop 2 args));
  r ← call (st_Set b k (arg 1 args) opts);
  '(oldVal, _, wrote) ← try_status 500 r;
  if co_ReturnOld opts then send [writeBulk oldVal]
  else if negb wrote then send [WNull]
  else send [WString "OK"].

Definition cmdSetNX (args : list bytes) : handler S unit :=
  sess ← session;
  '(b, k) ← lift (writeTarget (rs_bucket sess) (arg 0 args));
  r ← call (st_Set b k (arg 1 args) (mkSetOptions (mkPrecondition IfAbsent "") None false false));
  writeBoolInt (let* x := r in Ok x.2).

Definition cmdSetEX (name : string) (args : list bytes) : handler S unit :=
  let bad := "invalid expire time in '" +:+ ToLower name +:+ "' command" in
  match ParseInt (str (arg 1 args)) with
  | None => fails bad
  | Some n =>
      if n <=? 0 then fails bad
      else
        let exp := respExpiration name n (sv_now sv) in
        sess ← session;
        '(b, k) ← lift (writeTarget (rs_bucket sess) (arg 0 args));
        r ← call (st_Set b k (arg 2 args) (mkSetOptions (mkPrecondition Unconditional "") (Some exp) false false));
        writeOK (let* _ := r in Ok tt)
  end.

Definition cmdGetSet (args : list bytes) : handler S unit :=
  sess ← session;
  '(b, k) ← lift (writeTarget (rs_bucket sess) (arg 0 args));
  r ← call (st_GetSet b k (arg 1 args) (mkSetOptions (mkPrecondition Unconditional "") None false true));
  '(oldVal, _, _) ← try r;
  send [writeBulk oldVal].

Definition cmdGetDel (args : list bytes) : handler S unit :=
  sess ← session;
  '(b, k) ← lift (writeTarget (rs_bucket sess) (arg 0 args));
  r ← call (st_GetDel b k);
  val ← try r;
  send [writeBulk val].

(** The keys and values of [MSET]. *)
Fixpoint mset_pairs (bucket : string) (args : list bytes) : result string (list (string * bytes)) :=
  match args with
  | a :: v :: rest => let* t := writeTarget bucket a in let* kvs := mset_pairs bucket rest in Ok ((t.2, v) :: kvs)
  | _ => Ok []
  end.

Definition cmdMSet (args : list bytes) : handler S unit :=
  if negb (zlen args mod 2 =? 0) then fails "wrong number of arguments for 'mset' command"
  else
    sess ← session;
    kvs ← lift (mset_pairs (rs_bucket sess) args);
    r ← call (st_MSet (rs_bucket sess) kvs);
    writeOK r.

Definition cmdAppend (args : list bytes) : handler S unit :=
  sess ← session;
  '(b, k) ← lift (writeTarget (rs_bucket sess) (arg 0 args));
  r ← call (st_Append b k (arg 1 args));
  writeInt r.

Definition cmdSetRange (args : list bytes) : handler S unit :=
  match ParseInt (str (arg 1 args)) with
  | None => fails "offset is out of range"
  | Some off =>
      if off <? 0 then fails "offset is out of range"
      else
        sess ← session;
        '(b, k) ← lift (writeTarget (rs_bucket sess) (arg 0 args));
        r ← call (st_SetRange b k off (arg 2 args));
        writeInt r
  end.

Definition incr_delta (name : string) (args : list bytes) : option Z :=
  if bool_decide (name = "DECR") then Some (-1)
  else if bool_decide (name = "INCRBY" \/ name = "DECRBY") then
    v ← ParseInt (str (arg 1 args)); Some (if bool_decide (name = "DECRBY") then wrap64 (- v) else v)
  else Some 1.

Definition cmdIncr (name : string) (args : list bytes) : handler S unit :=
  match incr_delta name args with
  | None => fails errNotInt
  | Some delta =>
      sess ← session;
      '(b, k) ← lift (writeTarget (rs_bucket sess) (arg 0 args));
      r ← call (st_IncrBy b k delta);
      match r with
      | Err NotInteger => fails errNotInt
      | _ => writeInt r
      end
  end.

(** The keys of writes. *)
Fixpoint write_keys (bucket : string) (args : list bytes) : result string (list string) :=
  match args with
  | [] => Ok []
  | a :: rest => let* t := writeTarget bucket a in let* keys := write_keys bucket rest in Ok (t.2 :: keys)
  end.

Definition cmdDel (args : list bytes) : handler S unit :=
  sess ← session;
  keys ← lift (write_keys (rs_bucket sess) args);
  r ← call (st_Del (rs_bucket sess) keys);
  writeInt r.

Definition cmdExpire (name : string) (args : list bytes) : handler S unit :=
  match ParseInt (str (arg 1 args)) with
  | None => fails errNotInt
  | Some n =>
      let exp := respExpiration name n (sv_now sv) in
      sess ← session;
      '(b, k) ← lift (writeTarget (rs_bucket sess) (arg 0 args));
      r ← call (st_Expire b k (Some exp) (str <$> drop 2 args));
      writeBoolInt r
  end.

Definition cmdPersist (args : list bytes) : handler S unit :=
  sess ← session;
  '(b, k) ← lift (writeTarget (rs_bucket sess) (arg 0 args));
  r ← call (st_Expire b k None []);
  writeBoolInt r.

(** *** Scanning *)

(** The rows of a page: the position, the keys found, and whether there are
    enough. *)
Fixpoint scan_rows (pattern : string) (count : Z) (rows : list string) (after : string) (keys : list string) : string * list string * bool :=
  match rows with
  | [] => (after, keys, false)
  | row :: rest =>
      let keys := if row_matches pattern row then keys ++ [row] else keys in
      if count <=? zlen keys then (row, keys, true) else scan_rows pattern count rest row keys
  end.

Fixpoint scan_pages (pages : nat) (name pattern : string) (count page : Z) (after : string) (keys : list string) : reading S (string * list string) := fun s =>
  if count <=? zlen keys then Ok (after, keys)
  else
    match pages with
    | O => Err (Other "scan did not end")
    | Datatypes.S pages =>
        let prefix := literalPrefix pattern in
        let* rows := st_List (CacheRef name) prefix (prefixUpper prefix) after page s in
        if bool_decide (rows = []) then Ok ("0", keys)
        else
          let '(after, keys, enough) := scan_rows pattern count rows after keys in
          if enough then Ok (after, keys)
          else if zlen rows <? page then Ok ("0", keys)
          else scan_pages pages name pattern count page after keys s
    end.

Definition scanCache (name pattern after : string) (count : Z) : reading S (string * list string) :=
  let count := if count <=? 0 then max_int64 else count in
  let page := if count <? 1024 then Z.max (count * 4) 64 else 1024 in
  scan_pages (sv_pages sv) name pattern count page after [].

Definition cmdKeys (args : list bytes) : handler S unit :=
  sess ← session;
  r ← ask (scanCache (rs_bucket sess) (str (arg 0 args)) "" 0);
  '(_, keys) ← try r;
  send (WArray (zlen keys) :: (WBulkString <$> keys)).

(** The options of [SCAN]: [None] for a type other than strings. *)
Fixpoint scan_options (args : list bytes) (match_ : string) (count : Z) : option (string * Z) :=
  match args with
  | a :: v :: rest =>
      let opt := ToUpper (str a) in
      if bool_decide (opt = "MATCH") then scan_options rest (str v) count
      else if bool_decide (opt = "COUNT") then
        scan_options rest match_ (match Atoi (str v) with Some n => if 0 <? n then n else count | None => count end)
      else if bool_decide (opt = "TYPE") then
        if negb (EqualFold (str v) "string") then None else scan_options rest match_ count
      else scan_options rest match_ count
  | _ => Some (match_, count)
  end.

Definition cmdScan (args : list bytes) : handler S unit :=
  let cursor := str (arg 0 args) in
  match scan_options (drop 1 args) "*" 10 with
  | None => send [WArray 2; WBulkString "0"; WArray 0]
  | Some (match_, count) =>
      let after := if bool_decide (cursor <> "0") then cursor else "" in
      sess ← session;
      r ← ask (scanCache (rs_bucket sess) match_ after count);
      '(next, keys) ← try r;
      send (WArray 2 :: WBulkString next :: WArray (zlen keys) :: (WBulkString <$> keys))
  end.

(** ** Commands *)

Record cmdSpec := mkSpec { cs_minArgs : Z; cs_maxArgs : Z; cs_write : bool; cs_fn : string -> list bytes -> handler S unit }.

Definition commands : list (string * cmdSpec) :=
  [("MULTI", mkSpec 0 (-1) false (fun _ _ => cmdTxUnsupported));
   ("EXEC", mkSpec 0 (-1) false (fun _ _ => cmdTxUnsupported));
   ("DISCARD", mkSpec 0 (-1) false (fun _ _ => cmdTxUnsupported));
   ("WATCH", mkSpec 0 (-1) false (fun _ _ => cmdTxUnsupported));
   ("UNWATCH", mkSpec 0 (-1) false (fun _ _ => cmdTxUnsupported));
   ("PING", mkSpec 0 (-1) false (fun _ => cmdPing));
   ("ECHO", mkSpec 1 1 false (fun _ => cmdEcho));
   ("AUTH", mkSpec 0 (-1) false (fun _ _ => cmdOK));
   ("CLIENT", mkSpec 0 (-1) false (fun _ _ => cmdOK));
   ("QUIT", mkSpec 0 (-1) false (fun _ _ => cmdQuit));
   ("RESET", mkSpec 0 (-1) false (fun _ _ => cmdReset));
   ("HELLO", mkSpec 0 (-1) false (fun _ => cmdHello));
   ("COMMAND", mkSpec 0 (-1) false (fun _ _ => cmdCommand));
   ("CONFIG", mkSpec 0 (-1) false (fun _ => cmdConfig));
   ("SELECT", mkSpec 1 1 false (fun _ => cmdSelect));
   ("INFO", mkSpec 0 (-1) false (fun _ _ => cmdInfo));
   ("DBSIZE", mkSpec 0 (-1) false (fun _ _ => cmdDBSize));
   ("FLUSHDB", mkSpec 0 (-1) true (fun name _ => cmdFlush name));
   ("FLUSHALL", mkSpec 0 (-1) true (fun name _ => cmdFlush name));
   ("TYPE", mkSpec 1 1 false (fun _ => cmdType));
   ("STRLEN", mkSpec 1 1 false (fun _ => cmdStrLen));
   ("GET", mkSpec 1 1 false (fun _ => cmdGet));
   ("MGET", mkSpec 1 (-1) false (fun _ => cmdMGet));
   ("GETRANGE", mkSpec 3 3 false (fun _ => cmdGetRange));
   ("SUBSTR", mkSpec 3 3 false (fun _ => cmdGetRange));
   ("SET", mkSpec 2 (-1) true (fun _ => cmdSet));
   ("SETNX", mkSpec 2 2 true (fun _ => cmdSetNX));
   ("SETEX", mkSpec 3 3 true cmdSetEX);
   ("PSETEX", mkSpec 3 3 true cmdSetEX);
   ("GETSET", mkSpec 2 2 true (fun _ => cmdGetSet));
   ("GETDEL", mkSpec 1 1 true (fun _ => cmdGetDel));
   ("MSET", mkSpec 2 (-1) true (fun _ => cmdMSet));
   ("APPEND", mkSpec 2 2 true (fun _ => cmdAppend));
   ("SETRANGE", mkSpec 3 3 true (fun _ => cmdSetRange));
   ("INCR", mkSpec 1 1 true cmdIncr);
   ("DECR", mkSpec 1 1 true cmdIncr);
   ("INCRBY", mkSpec 2 2 true cmdIncr);
   ("DECRBY", mkSpec 2 2 true cmdIncr);
   ("DEL", mkSpec 1 (-1) true (fun _ => cmdDel));
   ("UNLINK", mkSpec 1 (-1) true (fun _ => cmdDel));
   ("EXISTS", mkSpec 1 (-1) false (fun _ => cmdExists));
   ("EXPIRE", mkSpec 2 (-1) true cmdExpire);
   ("PEXPIRE", mkSpec 2 (-1) true cmdExpire);
   ("EXPIREAT", mkSpec 2 (-1) true cmdExpire);
   ("PEXPIREAT", mkSpec 2 (-1) true cmdExpire);
   ("PERSIST", mkSpec 1 1 true (fun _ => cmdPersist));
   ("TTL", mkSpec 1 1 false cmdTTL);
   ("PTTL", mkSpec 1 1 false cmdTTL);
   ("KEYS", mkSpec 1 1 false (fun _ => cmdKeys));
   ("SCAN", mkSpec 1 (-1) false (fun _ => cmdScan))].

Definition command (name : string) : option cmdSpec :=
  snd <$> find (fun c : string * cmdSpec => bool_decide (c.1 = name)) commands.

(** An error reply starts with a code. *)
Definition error_reply (msg : string) : string :=
  if HasPrefix msg "ERR " || HasPrefix msg "NOPROTO " || HasPrefix msg "READONLY " then msg else "ERR " +:+ msg.

Definition refuse (status : Z) (msg : string) (c : conn S) : bool * conn S :=
  (false, mkConn (set_status status (cn_sess c)) (cn_out c ++ [WError msg]) (cn_store c)).

(** One command: whether the connection ends, and the connection. *)
Definition execRESPCommand (cmd : respCmd) (c : conn S) : bool * conn S :=
  let c := mkConn (set_status 200 (cn_sess c)) (cn_out c) (cn_store c) in
  match command (rc_name cmd) with
  | None => refuse 400 ("ERR unknown command '" +:+ ToLower (rc_name cmd) +:+ "'") c
  | Some spec =>
      let n := zlen (rc_args cmd) in
      if (n <? cs_minArgs spec) || ((0 <=? cs_maxArgs spec) && (cs_maxArgs spec <? n)) then
        refuse 400 ("ERR wrong number of arguments for '" +:+ ToLower (rc_name cmd) +:+ "' command") c
      else if cs_write spec && sv_readOnly sv then refuse 403 "READONLY You can't write against a read only replica." c
      else
        let '(r, c) := cs_fn spec (rc_name cmd) (rc_args cmd) c in
        let c := match r with
          | Ok _ => c
          | Err msg =>
              let sess := if rs_status (cn_sess c) =? 200 then set_status 400 (cn_sess c) else cn_sess c in
              mkConn sess (cn_out c ++ [WError (error_reply msg)]) (cn_store c)
          end in
        (rs_quit (cn_sess c), c)
  end.

(** ** Pipelines *)

(** The key of a [GET] of the cache [b0]. *)
Definition get_key (currentCache b0 : string) (cmd : respCmd) : option string :=
  if bool_decide (rc_name cmd = "GET") then
    match rc_args cmd with
    | [a] => let '(kind, b, k) := resolveTarget currentCache (str a) in
             if bool_decide (kind <> Cache) || bool_decide (b <> b0) then None else Some k
    | _ => None
    end
  else None.

(** The longest prefix of commands with a key. *)
Fixpoint run_of {A} (key : respCmd -> option A) (batch : list respCmd) : list A :=
  match batch with
  | cmd :: rest => match key cmd with Some k => k :: run_of key rest | None => [] end
  | [] => []
  end.

(** The number of commands taken, 0 for none. *)
Definition tryCoalesceGet (currentCache : string) (batch : list respCmd) (c : conn S) : nat * conn S :=
  match batch with
  | mkCmd _ (a :: _) :: _ =>
      let '(_, b0, _) := resolveTarget currentCache (str a) in
      let keys := run_of (get_key currentCache b0) batch in
      if (length keys <? 2)%nat then (O, c)
      else
        let fs := match st_MGet b0 keys (cn_store c) with
          | Err e => (fun _ => WError ("ERR " +:+ Error e)) <$> keys
          | Ok vals => writeBulk <$> vals
          end in
        (length keys, mkConn (cn_sess c) (cn_out c ++ fs) (cn_store c))
  | _ => (O, c)
  end.


Definition isBatchableSet (currentCache : string) (cmd : respCmd) : option (string * bytes) :=
  if bool_decide (rc_name cmd = "SET") then
    match rc_args cmd with
    | [a; v] =>
        if MaxInlineBytes <? zlen v then None
        else match writeTarget currentCache a with Ok (_, k) => Some (k, v) | Err _ => None end
    | _ => None
    end
  else None.

Definition tryCoalesceSet (currentCache : string) (batch : list respCmd) (c : conn S) : nat * conn S :=
  if sv_readOnly sv then (O, c)
  else
    let kvs := run_of (isBatchableSet currentCache) batch in
    if (length kvs <? 2)%nat then (O, c)
    else
      let '(r, s) := st_MSet currentCache kvs (cn_store c) in
      let f := match r with Err e => WError ("ERR " +:+ Error e) | Ok _ => WString "OK" end in
      (length kvs, mkConn (cn_sess c) (cn_out c ++ ((fun _ => f) <$> kvs)) s).

(** The loop over a batch; every round takes a command. *)
Fixpoint batch_loop (fuel : nat) (batch : list respCmd) (c : conn S) : bool * conn S :=
  match fuel, batch with
  | Datatypes.S fuel, cmd :: rest =>
      let '(n, c1) := tryCoalesceGet (rs_bucket (cn_sess c)) batch c in
      if (1 <? n)%nat then batch_loop fuel (drop n batch) c1
      else
        let '(n, c1) := tryCoalesceSet (rs_bucket (cn_sess c)) batch c in
        if (1 <? n)%nat then batch_loop fuel (drop n batch) c1
        else
          let '(quit, c1) := execRESPCommand cmd c in
          if quit then (true, c1) else batch_loop fuel rest c1
  | _, _ => (false, c)
  end.

(** [down]: the server stops before the batch gets its turn. *)
Definition execRESPBatch (down : bool) (batch : list respCmd) (c : conn S) : bool * conn S :=
  if down then (true, mkConn (cn_sess c) (cn_out c ++ [WError "ERR server shutting down"]) (cn_store c))
  else batch_loop (length batch) batch c.

(** The batches of a pipeline; [downs] says for each whether the server stops
    before it. *)
Fixpoint serve_loop (fuel : nat) (downs : nat -> bool) (batch : list respCmd) (c : conn S) : bool * conn S :=
  match fuel, batch with
  | Datatypes.S fuel', _ :: _ =>
      let '(quit, c) := execRESPBatch (downs fuel) (take 128 batch) c in
      if quit then (true, c) else serve_loop fuel' downs (drop 128 batch) c
  | _, _ => (false, c)
  end.

Definition ServeRESP (downs : nat -> bool) (first : respCmd) (pipeline : list respCmd) (c : conn S) : bool * conn S :=
  serve_loop (length (first :: pipeline)) downs (first :: pipeline) c.

End Handlers.
