(* ===== verification/RespReplies.v ===== *)
(** * Replies of the RESP server

    Every command gets exactly one reply, in order, and sessions always name a
    valid cache, whatever the store does. *)

From S2P Require Import Prelude GoStrings Ns Ranges Precond Glob Resp.

(** ** Complete replies *)

Definition elements (f : frame) : Z := match f with WArray n => n | _ => 0 end.

(** The frames are [n] complete values, arrays with their elements. *)
Fixpoint answers (n : Z) (fs : list frame) : bool :=
  match fs with
  | [] => n =? 0
  | f :: rest => (0 <? n) && (0 <=? elements f) && answers (n - 1 + elements f) rest
  end.

Lemma answers_nonneg n fs : answers n fs = true -> 0 <= n.
Proof. destruct fs; cbn; [lia |]. intros [[]%andb_true_iff _]%andb_true_iff. lia. Qed.

Lemma answers_app m n fs gs : answers m fs = true -> answers n gs = true -> answers (m + n) (fs ++ gs) = true.
Proof.
  intros Hf Hg. pose proof (answers_nonneg _ _ Hg). revert m Hf. induction fs as [|f fs IH]; cbn [app answers]; intros m Hf; [by replace (m + n) with n by lia |].
  apply andb_true_iff in Hf as [[H1 H2]%andb_true_iff H3]. specialize (IH _ H3).
  replace (m + n - 1 + elements f) with (m - 1 + elements f + n) by lia. rewrite IH, H2, andb_true_r. lia.
Qed.

(** Scalars are values. *)
Lemma answers_scalars fs : Forall (fun f => elements f = 0) fs -> answers (zlen fs) fs = true.
Proof.
  induction 1 as [|f fs Hf _ IH]; [done |]. pose proof (zlen_nonneg fs). rewrite zlen_cons. cbn [answers]. rewrite Hf.
  replace (zlen fs + 1 - 1 + 0) with (zlen fs) by lia. rewrite IH. lia.
Qed.

Lemma answers_array fs : Forall (fun f => elements f = 0) fs -> answers 1 (WArray (zlen fs) :: fs) = true.
Proof. intros H. pose proof (zlen_nonneg fs). cbn [answers elements]. rewrite Z.sub_diag, Z.add_0_l, answers_scalars by done. lia. Qed.

(** ** Handlers *)

Section Polite.
Context {S : Type} `{StoreOps S} (sv : Server).

Definition valid_session (c : conn S) : Prop := ValidName (rs_bucket (cn_sess c)) = true.

(** [polite n h]: the handler sends [n] values, or nothing and fails. *)
Definition polite {A} (n : Z) (h : handler S A) : Prop := forall c, valid_session c ->
  match h c with
  | (r, c') => valid_session c' /\ exists fs, cn_out c' = cn_out c ++ fs /\ match r with Ok _ => answers n fs = true | Err _ => fs = [] end
  end.

Lemma polite_bind {A B} n (h : handler S A) (f : A -> handler S B) : polite 0 h -> (forall x, polite n (f x)) -> polite n (h ≫= f).
Proof.
  intros Hh Hf c Hv. unfold mbind, handler_bind. specialize (Hh c Hv). destruct (h c) as [[x|e] c1].
  - destruct Hh as (Hv1 & fs & E & Hfs). destruct fs as [|? ?]; [rewrite app_nil_r in E | cbn in Hfs; lia].
    specialize (Hf x c1 Hv1). destruct (f x c1) as [r c2]. by rewrite E in Hf.
  - done.
Qed.

Lemma polite_ret {A} (x : A) : polite 0 (mret x).
Proof. intros c Hv. split; [done |]. exists []. by rewrite app_nil_r. Qed.

Lemma polite_fails {A} n e : polite n (fails e : handler S A).
Proof. intros c Hv. split; [done |]. exists []. by rewrite app_nil_r. Qed.

Lemma polite_lift {A} (r : result string A) : polite 0 (lift r : handler S A).
Proof. intros c Hv. split; [done |]. exists []. rewrite app_nil_r. by destruct r. Qed.

Lemma polite_send n fs : answers n fs = true -> polite n (send fs).
Proof. intros Hfs c Hv. split; [done |]. by exists fs. Qed.

Lemma polite_session : polite 0 session.
Proof. intros c Hv. split; [done |]. exists []. by rewrite app_nil_r. Qed.

Lemma polite_change f : (forall s, ValidName (rs_bucket s) = true -> ValidName (rs_bucket (f s)) = true) -> polite 0 (change f).
Proof. intros Hf c Hv. split; [by apply Hf |]. exists []. by rewrite app_nil_r. Qed.

Lemma polite_ask {A} (f : reading S A) : polite 0 (ask f).
Proof. intros c Hv. split; [done |]. exists []. by rewrite app_nil_r. Qed.

Lemma polite_call {A} (f : calling S A) : polite 0 (call f).
Proof. intros c Hv. unfold call. destruct (f (cn_store c)) as [r s]. split; [done |]. exists []. by rewrite app_nil_r. Qed.

Lemma polite_try {A} (r : result call_error A) : polite 0 (try r : handler S A).
Proof. destruct r; [apply polite_ret | apply polite_fails]. Qed.

Lemma polite_try_status {A} n (r : result call_error A) : polite 0 (try_status n r : handler S A).
Proof. destruct r; [apply polite_ret |]. apply polite_bind; [by apply polite_change | intros; apply polite_fails]. Qed.

Lemma bulk_scalars (vals : list (option bytes)) : Forall (fun f => elements f = 0) (writeBulk <$> vals).
Proof. apply Forall_fmap, Forall_true. by intros []. Qed.

Lemma string_scalars (keys : list string) : Forall (fun f => elements f = 0) (WBulkString <$> keys).
Proof. by apply Forall_fmap, Forall_true. Qed.

Lemma bulk_scalar v : answers 1 [writeBulk v] = true.
Proof. by destruct v. Qed.
Create HintDb polite.
Hint Resolve polite_ret polite_fails polite_lift polite_session polite_ask polite_call polite_try polite_try_status bulk_scalar : polite.

(** One step of a handler. *)
Ltac polite_step :=
  match goal with
  | |- polite _ (_ ≫= _) => apply polite_bind; [| intros ?]
  | |- polite _ (send _) => apply polite_send; try reflexivity; auto with polite
  | |- polite _ (change _) => apply polite_change; try (intros [] ?; done)
  | |- polite _ (match ?x with _ => _ end) => destruct x
  | |- polite _ ((match ?x with _ => _ end) ≫= _) => destruct x
  | |- polite _ ((match ?x with _ => _ end) _) => destruct x
  | |- forall _, _ => intros ?
  end.

Ltac polite := repeat (auto with polite; cbv zeta; polite_step); auto with polite.

(** *** The commands *)

Lemma polite_readValue current key : polite 0 (readValue current key).
Proof. unfold readValue. polite. Qed.

Lemma polite_exists_each bucket args n : polite 0 (exists_each bucket args n).
Proof. revert n. induction args as [|a args IH]; intros n; cbn [exists_each]; polite. Qed.

Hint Resolve polite_readValue polite_exists_each : polite.

Lemma polite_writeOK r : polite 1 (writeOK r).
Proof. unfold writeOK. polite. Qed.

Lemma polite_writeInt r : polite 1 (writeInt r).
Proof. unfold writeInt. polite. Qed.

Lemma polite_writeBoolInt r : polite 1 (writeBoolInt r).
Proof. unfold writeBoolInt. polite. Qed.

Hint Resolve polite_writeOK polite_writeInt polite_writeBoolInt : polite.

(** An array of the store's values or keys. *)
Lemma answers_keys next (keys : list string) :
  answers 1 (WArray 2 :: WBulkString next :: WArray (zlen keys) :: (WBulkString <$> keys)) = true.
Proof.
  cbn [answers elements WBulkString]. pose proof (answers_array _ (string_scalars keys)) as Ha. unfold zlen in *. by rewrite length_fmap in Ha.
Qed.

Lemma answers_values (vals : list (option bytes)) : answers 1 (WArray (zlen vals) :: (writeBulk <$> vals)) = true.
Proof. pose proof (answers_array _ (bulk_scalars vals)) as Ha. unfold zlen in *. by rewrite length_fmap in Ha. Qed.

Lemma answers_strings (keys : list string) : answers 1 (WArray (zlen keys) :: (WBulkString <$> keys)) = true.
Proof. pose proof (answers_array _ (string_scalars keys)) as Ha. unfold zlen in *. by rewrite length_fmap in Ha. Qed.

Hint Resolve answers_keys answers_values answers_strings : polite.

Lemma polite_select args : polite 1 (cmdSelect args).
Proof.
  unfold cmdSelect. cbv zeta. apply polite_bind; [polite | intros target]. destruct (ValidName target) eqn:Hv; cbn [negb]; [| polite].
  apply polite_bind; [by apply polite_change | polite].
Qed.

Hint Resolve polite_select : polite.

(** An [MGET] that names objects of buckets may end in the middle of its
    reply. *)
Definition of_cache (a : bytes) : bool := bool_decide ((resolveTarget DefaultCache (str a)).1.1 = Cache).
Definition cache_only (cmd : respCmd) : bool := negb (bool_decide (rc_name cmd = "MGET")) || forallb of_cache (rc_args cmd).

Lemma resolve_kind b b' key : (resolveTarget b key).1.1 = (resolveTarget b' key).1.1.
Proof. unfold resolveTarget. destruct (CutPrefix key _) as [rest|]; [| done]. destruct (Cut rest _) as [[x y]|]; [| done]. by destruct (_ && _). Qed.

Lemma cache_only_keys bucket args : forallb of_cache args = true -> cache_keys bucket args <> None.
Proof.
  induction args as [|a args IH]; cbn; [done |]. intros [Ha Hs]%andb_true_iff. apply bool_decide_eq_true in Ha. rewrite (resolve_kind _ bucket) in Ha.
  destruct (resolveTarget bucket (str a)) as [[kind b] k]. cbn in Ha. rewrite bool_decide_false by (by intros []).
  specialize (IH Hs). by destruct (cache_keys bucket args).
Qed.

Lemma polite_mget args c : valid_session c -> cache_keys (rs_bucket (cn_sess c)) args <> None ->
  match cmdMGet args c with
  | (r, c') => valid_session c' /\ exists fs, cn_out c' = cn_out c ++ fs /\ match r with Ok _ => answers 1 fs = true | Err _ => fs = [] end
  end.
Proof.
  intros Hv Hk. unfold cmdMGet. unfold mbind at 1, handler_bind at 1. cbn [session]. destruct (cache_keys _ _) as [keys|]; [| done].
  refine ((_ : polite 1 _) c Hv). polite.
Qed.

Lemma polite_commands name spec args :
  command sv name = Some spec -> name <> "MGET" -> polite 1 (cs_fn spec name args).
Proof.
  intros (c & Hf & ->)%fmap_Some Hne. apply find_some in Hf as [Hin <-%bool_decide_eq_true].
  repeat (destruct Hin as [<-|Hin]; [cbn [fst snd cs_fn] in *|]); try done;
    unfold cmdTxUnsupported, cmdPing, cmdEcho, cmdOK, cmdQuit, cmdReset, cmdHello, cmdCommand, cmdConfig, cmdInfo, cmdDBSize, cmdFlush,
      cmdType, cmdStrLen, cmdGet, cmdGetRange, cmdSet, cmdSetNX, cmdSetEX, cmdGetSet, cmdGetDel, cmdMSet, cmdAppend, cmdSetRange,
      cmdIncr, cmdDel, cmdExists, cmdExpire, cmdPersist, cmdTTL, cmdKeys, cmdScan; polite.
Qed.

(** Whatever the command, it only sends. *)
Lemma mget_each_sends bucket args c : valid_session c ->
  match mget_each bucket args c with (_, c') => valid_session c' /\ exists fs, cn_out c' = cn_out c ++ fs end.
Proof.
  revert c. induction args as [|a args IH]; intros c Hv; cbn [mget_each]; [split; [done |]; exists []; by rewrite app_nil_r |].
  pose proof (polite_readValue bucket a c Hv) as Hp. unfold mbind, handler_bind. destruct (readValue bucket a c) as [[r|e] c1].
  2: { destruct Hp as (? & fs & ? & ?). eauto. }
  destruct Hp as (Hv1 & fs1 & E1 & H1). pose proof (polite_try_status 500 r c1 Hv1) as Hp. destruct (try_status 500 r c1) as [[v|e] c2].
  2: { destruct Hp as (? & fs & E & ?). rewrite E, E1, <- app_assoc. eauto. }
  destruct Hp as (Hv2 & fs2 & E2 & H2). cbn [send]. set (c3 := mkConn _ _ _). specialize (IH c3 Hv2).
  destruct (mget_each bucket args c3) as [r' c4]. destruct IH as (Hv4 & fs & E). split; [done |]. rewrite E. unfold c3. cbn [cn_out].
  rewrite E2, E1, <- !app_assoc. eauto.
Qed.

Lemma command_sends cmd spec c : command sv (rc_name cmd) = Some spec -> valid_session c ->
  match cs_fn spec (rc_name cmd) (rc_args cmd) c with
  | (r, c') => valid_session c' /\ exists fs, cn_out c' = cn_out c ++ fs /\ match r with Ok _ => True | Err _ => cache_only cmd = true -> fs = [] end
  end.
Proof.
  intros Hc Hv. destruct (decide (rc_name cmd = "MGET")) as [E|Hne].
  - unfold cache_only. rewrite E in Hc |- *. injection Hc as <-. cbn [cs_fn]. destruct (forallb of_cache (rc_args cmd)) eqn:Hof.
    + pose proof (polite_mget (rc_args cmd) c Hv (cache_only_keys _ _ Hof)) as Hp. destruct (cmdMGet (rc_args cmd) c) as [[x|e] c'];
        destruct Hp as (? & fs & ? & ?); eauto.
    + assert (match cmdMGet (rc_args cmd) c with (_, c') => valid_session c' /\ exists fs, cn_out c' = cn_out c ++ fs end) as Hp.
      { destruct (cache_keys (rs_bucket (cn_sess c)) (rc_args cmd)) as [keys|] eqn:Ek.
        - pose proof (polite_mget (rc_args cmd) c Hv ltac:(by rewrite Ek)) as Hp. destruct (cmdMGet _ c) as [r c']. destruct Hp as (? & fs & ? & _). eauto.
        - unfold cmdMGet. unfold mbind at 1, handler_bind at 1. cbn [session]. rewrite Ek. unfold mbind at 1, handler_bind at 1. cbn [send].
          set (c1 := mkConn _ _ _). pose proof (mget_each_sends (rs_bucket (cn_sess c)) (rc_args cmd) c1 Hv) as Hm.
          destruct (mget_each _ _ c1) as [r c2]. destruct Hm as (Hv2 & fs & E2). split; [done |]. rewrite E2. unfold c1. cbn [cn_out]. rewrite <- app_assoc. eauto. }
      destruct (cmdMGet _ c) as [r c']. destruct Hp as (? & fs & ?). split; [done |]. exists fs. split; [done |]. by destruct r.
  - pose proof (polite_commands _ _ (rc_args cmd) Hc Hne c Hv) as Hp. destruct (cs_fn _ _ _ c) as [[x|e] c']; destruct Hp as (? & fs & ? & ?); eauto.
Qed.

(** *** One command *)

Definition replied (n : Z) (c c' : conn S) : Prop :=
  valid_session c' /\ exists fs, cn_out c' = cn_out c ++ fs /\ answers n fs = true.

Lemma replied_trans m n c1 c2 c3 : replied m c1 c2 -> replied n c2 c3 -> replied (m + n) c1 c3.
Proof.
  intros (_ & fs & E1 & H1) (Hv & gs & E2 & H2). split; [done |]. exists (fs ++ gs). rewrite E2, E1, app_assoc. split; [done |]. by apply answers_app.
Qed.

Lemma refuse_replied status msg c : valid_session c -> replied 1 c (refuse status msg c).2.
Proof. intros Hv. split; [done |]. by exists [WError msg]. Qed.

Lemma command_replied cmd c : valid_session c -> cache_only cmd = true -> replied 1 c (execRESPCommand sv cmd c).2.
Proof.
  intros Hv Hm. unfold execRESPCommand. set (c0 := mkConn (set_status 200 (cn_sess c)) (cn_out c) (cn_store c)).
  assert (valid_session c0) as Hv0 by done. change (replied 1 c) with (replied 1 c0).
  destruct (command sv (rc_name cmd)) as [spec|] eqn:Hc; [| by apply refuse_replied]. cbv zeta.
  destruct (_ || _); [by apply refuse_replied |]. destruct (_ && _); [by apply refuse_replied |].
  assert (match cs_fn spec (rc_name cmd) (rc_args cmd) c0 with
    | (r, c') => valid_session c' /\ exists fs, cn_out c' = cn_out c0 ++ fs /\ match r with Ok _ => answers 1 fs = true | Err _ => fs = [] end
    end) as Hp.
  { destruct (decide (rc_name cmd = "MGET")) as [E|Hne]; [| by eapply polite_commands].
    unfold cache_only in Hm. rewrite bool_decide_true in Hm by done. rewrite E in Hc |- *. injection Hc as <-.
    by apply polite_mget; [| apply cache_only_keys]. }
  destruct (cs_fn _ _ _ c0) as [[u|msg] c']; destruct Hp as (Hv' & fs & E & Hfs); cbn [snd]; [by split; [| exists fs] |].
  split; [unfold valid_session in *; by destruct (_ =? _) |]. subst fs. rewrite app_nil_r in E. cbn [cn_out]. rewrite E. by exists [WError (error_reply msg)].
Qed.

(** *** Pipelines *)

Hypothesis MGet_length : forall name keys s vals, st_MGet name keys s = Ok vals -> length vals = length keys.

Lemma run_length {A} (key : respCmd -> option A) batch : (length (run_of key batch) <= length batch)%nat.
Proof. induction batch as [|cmd batch IH]; cbn; [lia |]. destruct (key cmd); cbn; lia. Qed.

Lemma zlen_fmap_const {A} (l : list A) f : elements f = 0 -> answers (zlen l) ((fun _ => f) <$> l) = true.
Proof.
  intros Hf. assert (zlen l = zlen ((fun _ => f) <$> l)) as -> by (unfold zlen; by rewrite length_fmap). by apply answers_scalars, Forall_fmap, Forall_true.
Qed.

Lemma coalesced_get b batch c n c1 :
  valid_session c -> tryCoalesceGet b batch c = (n, c1) -> (n = O /\ c1 = c) \/ ((n <= length batch)%nat /\ replied (Z.of_nat n) c c1).
Proof.
  intros Hv. unfold tryCoalesceGet. destruct batch as [|[name [|a args]] rest]; [by intros [= <- <-]; left.. |].
  destruct (resolveTarget b (str a)) as [[kind b0] k]. set (keys := run_of _ _). destruct (_ <? _)%nat; [by intros [= <- <-]; left |].
  intros [= <- <-]. right. split; [apply run_length |]. split; [done |]. eexists. split; [done |]. fold (zlen keys).
  destruct (st_MGet b0 keys (cn_store c)) as [vals|e] eqn:E; [| by apply zlen_fmap_const]. apply MGet_length in E.
  unfold zlen. rewrite <- E. fold (zlen vals). pose proof (answers_scalars _ (bulk_scalars vals)) as Ha. unfold zlen in *. by rewrite length_fmap in Ha.
Qed.

Lemma coalesced_set b batch c n c1 :
  valid_session c -> tryCoalesceSet sv b batch c = (n, c1) -> (n = O /\ c1 = c) \/ ((n <= length batch)%nat /\ replied (Z.of_nat n) c c1).
Proof.
  intros Hv. unfold tryCoalesceSet. destruct (sv_readOnly sv); [by intros [= <- <-]; left |]. set (kvs := run_of _ _).
  destruct (_ <? _)%nat; [by intros [= <- <-]; left |]. destruct (st_MSet b kvs (cn_store c)) as [r s]. intros [= <- <-]. right.
  split; [apply run_length |]. split; [done |]. eexists. split; [done |]. fold (zlen kvs). by apply zlen_fmap_const; destruct r.
Qed.

(** What a batch of commands gets: a reply each, up to one that ends the
    connection. *)
Definition served (batch : list respCmd) (c : conn S) (r : bool * conn S) : Prop :=
  exists n, replied n c r.2 /\ (if r.1 then 1 <= n <= zlen batch else n = zlen batch).

Lemma served_more m fs rest c c1 r :
  replied (Z.of_nat m) c c1 -> (m <= length fs)%nat -> drop m fs = rest -> served rest c1 r -> served fs c r.
Proof.
  intros Hr Hm <- (n & Hn & Hq). exists (Z.of_nat m + n). split; [by eapply replied_trans |]. revert Hq. unfold zlen. rewrite length_drop. destruct r.1; lia.
Qed.

Lemma batch_served fuel batch c :
  valid_session c -> forallb cache_only batch = true -> (length batch <= fuel)%nat -> served batch c (batch_loop sv fuel batch c).
Proof.
  revert batch c. induction fuel as [|fuel IH]; intros batch c Hv Hb Hf.
  { destruct batch; [| cbn in Hf; lia]. exists 0. split; [split; [done |]; exists []; by rewrite app_nil_r | done]. }
  destruct batch as [|cmd rest]; cbn [batch_loop]; [exists 0; split; [split; [done |]; exists []; by rewrite app_nil_r | done] |].
  assert (forall n c1, (1 < n)%nat -> (n <= length (cmd :: rest))%nat -> replied (Z.of_nat n) c c1 ->
    served (cmd :: rest) c (batch_loop sv fuel (drop n (cmd :: rest)) c1)) as Hmany.
  { intros n c1 Hn Hle Hr. eapply served_more; [exact Hr | done | done |]. apply IH; [apply Hr | | rewrite length_drop; cbn in *; lia].
    rewrite <- (take_drop n (cmd :: rest)), forallb_app in Hb. by apply andb_true_iff in Hb as [_ ?]. }
  destruct (tryCoalesceGet _ _ c) as [n c1] eqn:Eg. apply coalesced_get in Eg; [| done].
  destruct (Nat.ltb_spec 1 n); [destruct Eg as [[-> _]|[Hle Hr]]; [lia | by apply Hmany] |]. clear Eg.
  destruct (tryCoalesceSet _ _ _ c) as [n' c2] eqn:Es. apply coalesced_set in Es; [| done].
  destruct (Nat.ltb_spec 1 n'); [destruct Es as [[-> _]|[Hle Hr]]; [lia | by apply Hmany] |]. clear Es.
  cbn [forallb] in Hb. apply andb_true_iff in Hb as [Hcmd Hb]. pose proof (command_replied cmd c Hv Hcmd) as Hr.
  destruct (execRESPCommand sv cmd c) as [quit c3]. cbn [snd] in Hr. destruct quit.
  - exists 1. split; [done |]. cbn [fst]. rewrite zlen_cons. pose proof (zlen_nonneg rest). lia.
  - eapply (served_more 1); [exact Hr | cbn; lia | done |]. apply IH; [apply Hr | done | cbn in Hf; lia].
Qed.

(** Pipelines, batch by batch. *)
Lemma serve_served fuel downs batch c :
  valid_session c -> forallb cache_only batch = true -> (length batch <= fuel)%nat -> served batch c (serve_loop sv fuel downs batch c).
Proof.
  revert batch c. induction fuel as [|fuel IH]; intros batch c Hv Hb Hf.
  { destruct batch; [| cbn in Hf; lia]. exists 0. split; [split; [done |]; exists []; by rewrite app_nil_r | done]. }
  destruct batch as [|cmd rest]; cbn [serve_loop]; [exists 0; split; [split; [done |]; exists []; by rewrite app_nil_r | done] |].
  unfold execRESPBatch. set (batch := cmd :: rest) in *. destruct (downs _).
  { exists 1. split; [split; [done |]; by exists [WError "ERR server shutting down"] |]. cbn [fst]. unfold batch. rewrite zlen_cons. pose proof (zlen_nonneg rest). lia. }
  pose proof Hb as Hb'. rewrite <- (take_drop 128 batch), forallb_app in Hb'. apply andb_true_iff in Hb' as [Hb1 Hb2].
  destruct (batch_served (length (take 128 batch)) (take 128 batch) c Hv Hb1 (le_n _)) as (n & Hn & Hq).
  destruct (batch_loop sv _ (take 128 batch) c) as [quit c1]. cbn [fst snd] in *. unfold zlen in Hq. rewrite length_take in Hq. destruct quit.
  - exists n. split; [done |]. cbn [fst]. unfold zlen. lia.
  - eapply (served_more (Z.to_nat n)); [rewrite Z2Nat.id by lia; exact Hn | lia | | apply IH; [apply Hn | exact Hb2 |]].
    + replace (Z.to_nat n) with (128 `min` length batch)%nat by lia. destruct (Nat.le_gt_cases 128 (length batch)); [f_equal; lia |]. rewrite !drop_ge; [done | lia | lia].
    + rewrite length_drop. cbn in Hf |- *. lia.
Qed.
End Polite.
