(* ===== verification/RespSim.v ===== *)
(** * Commands over two stores

    What one store promises of another ([Simulates]), and what follows for the
    commands of the RESP server: run over the first, a command does what it
    does over the second, or it reports an error. *)

From S2P Require Import Prelude GoStrings Ns Ranges Precond Glob Resp.

(** ** Stores *)

(** The first result is the second, or an error; that there is no object is not
    just any error. *)
Definition agree {X} (r r' : result call_error X) : Prop :=
  match r with
  | Ok x => r' = Ok x
  | Err NotFound => r' = Err NotFound
  | Err _ => True
  end.

(** The first call does what the second does, or it fails with effect [P]. *)
Definition ran {S A X} (R : S -> A -> Prop) (P : A -> Prop) (t : result call_error X * S) (t' : result call_error X * A) : Prop :=
  match t with
  | (Ok x, s) => exists a, t' = (Ok x, a) /\ R s a
  | (Err _, s) => exists a, P a /\ R s a
  end.

(** A failed [MSet] has set the values of a prefix. *)
Definition partly_set `{StoreOps A} (name : string) (kvs : list (string * bytes)) (a a' : A) : Prop :=
  exists n, a' = (st_MSet name (take n kvs) a).2.

(** [R] relates the states; [Flushed] is what a failed [FlushAll] may do. *)
Class Simulates {S A : Type} (OS : StoreOps S) (OA : StoreOps A) (R : S -> A -> Prop) (Flushed : A -> A -> Prop) : Prop := {
  sim_Get name key s a : R s a -> agree (st_Get name key s) (st_Get name key a);
  sim_MGet name keys s a : R s a -> agree (st_MGet name keys s) (st_MGet name keys a);
  sim_Exists name keys s a : R s a -> agree (st_Exists name keys s) (st_Exists name keys a);
  sim_TTL name key s a : R s a -> agree (st_TTL name key s) (st_TTL name key a);
  sim_DBSize name s a : R s a -> agree (st_DBSize name s) (st_DBSize name a);
  sim_Stat name s a : R s a -> st_StatNamespace name s = st_StatNamespace name a;
  sim_MetaHeader kind name key s a : kind = Cache \/ kind = Bucket -> R s a ->
    agree (st_MetaHeader (targetRef kind name key) s) (st_MetaHeader (targetRef kind name key) a);
  sim_Read kind name key rng s a : kind = Cache \/ kind = Bucket -> R s a ->
    agree (st_Read (targetRef kind name key) rng s) (st_Read (targetRef kind name key) rng a);
  sim_List name prefix prefixEnd after limit s a : R s a ->
    agree (st_List (CacheRef name) prefix prefixEnd after limit s) (st_List (CacheRef name) prefix prefixEnd after limit a);
  sim_Set name key val opts s a : pc_Mode (co_Precondition opts) <> IfMatch -> R s a ->
    ran R (eq a) (st_Set name key val opts s) (st_Set name key val opts a);
  sim_GetSet name key val opts s a : pc_Mode (co_Precondition opts) <> IfMatch -> R s a ->
    ran R (eq a) (st_GetSet name key val opts s) (st_GetSet name key val opts a);
  sim_GetDel name key s a : R s a -> ran R (eq a) (st_GetDel name key s) (st_GetDel name key a);
  sim_MSet name kvs s a : R s a -> ran R (partly_set name kvs a) (st_MSet name kvs s) (st_MSet name kvs a);
  sim_Append name key v s a : R s a -> ran R (eq a) (st_Append name key v s) (st_Append name key v a);
  sim_SetRange name key off v s a : R s a -> ran R (eq a) (st_SetRange name key off v s) (st_SetRange name key off v a);
  sim_IncrBy name key d s a : R s a -> ran R (eq a) (st_IncrBy name key d s) (st_IncrBy name key d a);
  sim_Del name keys s a : R s a -> ran R (eq a) (st_Del name keys s) (st_Del name keys a);
  sim_Expire name key t opts s a : R s a -> ran R (eq a) (st_Expire name key t opts s) (st_Expire name key t opts a);
  sim_Flush name s a : R s a -> ran R (eq a) (st_Flush name s) (st_Flush name a);
  sim_FlushAll s a : R s a -> ran R (Flushed a) (st_FlushAll s) (st_FlushAll a)
}.

(** ** Handlers *)

Section Follows.
Context {S A : Type} {OS : StoreOps S} {OA : StoreOps A} {R : S -> A -> Prop} {Flushed : A -> A -> Prop}.
Context `{SIM : !Simulates OS OA R Flushed} (sv : Server).

Record linked (c : conn S) (c' : conn A) : Prop := {
  lk_sess : cn_sess c = cn_sess c';
  lk_out : cn_out c = cn_out c';
  lk_store : R (cn_store c) (cn_store c')
}.

(** Sessions that differ in their status only. *)
Definition same_session (s s' : respSession) : Prop := rs_bucket s = rs_bucket s' /\ rs_quit s = rs_quit s'.

(** [follows still P h h']: run from linked connections, [h] does what [h']
    does, leaving the second store and the session alone when [still]; or it
    fails with effect [P]. *)
Definition follows {X} (still : bool) (P : A -> A -> Prop) (h : handler S X) (h' : handler A X) : Prop := forall c c', linked c c' ->
  match h c with
  | (Ok x, c1) => exists c1', h' c' = (Ok x, c1') /\ linked c1 c1' /\
      (still = true -> cn_store c1' = cn_store c' /\ same_session (cn_sess c1) (cn_sess c))
  | (Err _, c1) => exists a, P (cn_store c') a /\ R (cn_store c1) a /\ same_session (cn_sess c1) (cn_sess c)
  end.

Lemma same_refl s : same_session s s.
Proof. done. Qed.

Lemma same_trans s1 s2 s3 : same_session s1 s2 -> same_session s2 s3 -> same_session s1 s3.
Proof. unfold same_session. intros [] []. split; congruence. Qed.

Lemma follows_bind {X Y} still P (h : handler S X) h' (f : X -> handler S Y) f' :
  follows true P h h' -> (forall x, follows still P (f x) (f' x)) -> follows still P (h ≫= f) (h' ≫= f').
Proof.
  intros Hh Hf c c' Hl. unfold mbind, handler_bind. specialize (Hh c c' Hl). destruct (h c) as [[x|e] c1]; [| done].
  destruct Hh as (c1' & -> & Hl1 & Hst). destruct (Hst eq_refl) as [Ha Hs]. specialize (Hf x c1 c1' Hl1). rewrite Ha in Hf.
  destruct (f x c1) as [[y|e] c2].
  - destruct Hf as (c2' & -> & Hl2 & Hst2). exists c2'. split; [done |]. split; [done |]. intros E. destruct (Hst2 E). split; [done |]. by eapply same_trans.
  - destruct Hf as (a & Hp & Hr & Hs2). exists a. split; [done |]. split; [done |]. by eapply same_trans.
Qed.

Lemma follows_ret {X} still P (x : X) : follows still P (mret x) (mret x).
Proof. intros c c' Hl. exists c'. split; [done |]. by split. Qed.

Lemma follows_session still P : follows still P session session.
Proof. intros c c' Hl. exists c'. unfold session. by rewrite (lk_sess _ _ Hl). Qed.

Lemma follows_send P fs : follows true P (send fs) (send fs).
Proof. intros c c' [Hs Ho Hr]. eexists. split; [done |]. split; [split; cbn; congruence |]. done. Qed.

Lemma follows_send_any P fs : follows false P (send fs) (send fs).
Proof. intros c c' [Hs Ho Hr]. eexists. split; [done |]. split; [split; cbn; congruence |]. done. Qed.

Lemma follows_status still P n : follows still P (change (set_status n)) (change (set_status n)).
Proof. intros c c' [Hs Ho Hr]. eexists. split; [done |]. split; [split; cbn; congruence |]. done. Qed.

(** A change of the session and a reply. *)
Lemma follows_change P f fs : follows false P (change f;; send fs) (change f;; send fs).
Proof. intros c c' [Hs Ho Hr]. eexists. split; [done |]. split; [split; cbn; congruence |]. done. Qed.

(** Handlers that look at the store. *)
Definition looks {X} (h : handler S (result call_error X)) (h' : handler A (result call_error X)) : Prop := forall c c', linked c c' ->
  exists r r', h c = (Ok r, c) /\ h' c' = (Ok r', c') /\ agree r r'.

Lemma looks_ask {X} (f : reading S X) (f' : reading A X) : (forall s a, R s a -> agree (f s) (f' a)) -> looks (ask f) (ask f').
Proof. intros Hf c c' Hl. unfold ask. eexists _, _. split; [done |]. split; [done |]. apply Hf, Hl. Qed.

(** A handler that fails. *)
Definition gives_up {X} (h : handler S X) : Prop := forall c, exists m c1, h c = (Err m, c1) /\ cn_store c1 = cn_store c /\ same_session (cn_sess c1) (cn_sess c).

Lemma gives_up_fails {X} m : gives_up (fails m : handler S X).
Proof. intros c. by exists m, c. Qed.

Lemma gives_up_status {X} n m : gives_up (change (set_status n);; (fails m : handler S X)).
Proof. intros c. eexists m, _. split; [done |]. done. Qed.

Lemma gives_up_bind {X Y} (h : handler S X) (f : X -> handler S Y) : gives_up h -> gives_up (h ≫= f).
Proof. intros Hh c. destruct (Hh c) as (m & c1 & E & Hs). exists m, c1. unfold mbind, handler_bind. by rewrite E. Qed.

Section Effect.
Variable P : A -> A -> Prop.
Hypothesis P_refl : forall a, P a a.

Lemma follows_fails {X} still m : follows still P (fails m : handler S X) (fails m : handler A X).
Proof. intros c c' Hl. exists (cn_store c'). split; [done |]. by destruct Hl. Qed.

Lemma follows_gives_up {X} still (h : handler S X) h' : gives_up h -> follows still P h h'.
Proof. intros Hh c c' Hl. destruct (Hh c) as (m & c1 & -> & E & Hs). exists (cn_store c'). rewrite E. split; [done |]. by destruct Hl. Qed.

Lemma follows_lift {X} still (r : result string X) : follows still P (lift r) (lift r).
Proof. destruct r; [apply (follows_ret (X:=X)) | apply (follows_fails (X:=X))]. Qed.

Lemma follows_lift_bind {X Y} still (r : result string X) (f : X -> handler S Y) f' :
  (forall x, r = Ok x -> follows still P (f x) (f' x)) -> follows still P (lift r ≫= f) (lift r ≫= f').
Proof. intros Hf. destruct r as [x|m]; [by apply Hf |]. apply (follows_fails (X:=Y)). Qed.

Lemma follows_look {X Y} still (h : handler S (result call_error X)) h' (g : result call_error X -> handler S Y) g' :
  looks h h' -> (forall x, follows still P (g (Ok x)) (g' (Ok x))) -> follows still P (g (Err NotFound)) (g' (Err NotFound)) ->
  (forall e, gives_up (g (Err e)) \/ e = NotFound) -> follows still P (h ≫= g) (h' ≫= g').
Proof.
  intros Hh Hok Hnf Herr c c' Hl. unfold mbind, handler_bind. destruct (Hh c c' Hl) as (r & r' & -> & -> & Ha).
  destruct r as [x|e]; cbn in Ha; [rewrite Ha; by apply Hok |]. destruct (Herr e) as [Hg|He]; [| subst e; rewrite Ha; by apply Hnf].
  by apply (follows_gives_up still _ (g' r') Hg).
Qed.

(** A call of the store, and the reply. *)
Lemma follows_call {X} (f : calling S X) (f' : calling A X) (g : result call_error X -> handler S unit) g' :
  (forall s a, R s a -> ran R (P a) (f s) (f' a)) -> (forall x, follows true eq (g (Ok x)) (g' (Ok x))) ->
  (forall x c, exists c1, g (Ok x) c = (Ok tt, c1)) -> (forall e, gives_up (g (Err e))) -> follows false P (call f ≫= g) (call f' ≫= g').
Proof.
  intros Hf Hok Hsure Herr c c' Hl. unfold mbind, handler_bind, call. specialize (Hf _ _ (lk_store _ _ Hl)).
  destruct (f (cn_store c)) as [[x|e] s]; cbn in Hf.
  - destruct Hf as (a & -> & Hr). destruct (Hsure x (mkConn (cn_sess c) (cn_out c) s)) as (c1 & E).
    assert (linked (mkConn (cn_sess c) (cn_out c) s) (mkConn (cn_sess c') (cn_out c') a)) as Hl1 by (by destruct Hl).
    specialize (Hok x _ _ Hl1). rewrite E in Hok |- *. destruct Hok as (c1' & -> & Hl2 & _). exists c1'. by split; [| split].
  - destruct Hf as (a & Hp & Hr). destruct (Herr e (mkConn (cn_sess c) (cn_out c) s)) as (m & c1 & -> & E & Hs). exists a. by rewrite E.
Qed.

End Effect.

(** *** The commands *)

Create HintDb follows.
Hint Resolve follows_ret follows_session follows_send follows_send_any follows_status follows_change follows_fails follows_lift
  gives_up_fails gives_up_status gives_up_bind : follows.

Lemma sim_kind current key kind name k : resolveTarget current key = (kind, name, k) -> kind = Cache \/ kind = Bucket.
Proof.
  unfold resolveTarget. destruct (CutPrefix key _) as [rest|]; [| intros [= <- _ _]; by left].
  destruct (Cut rest _) as [[x y]|]; [| intros [= <- _ _]; by left]. destruct (_ && _); intros [= <- _ _]; [by right | by left].
Qed.

Lemma readValue_looks current key : looks (readValue current key) (readValue current key).
Proof.
  unfold readValue. destruct (resolveTarget current (str key)) as [[kind name] k] eqn:E. apply sim_kind in E as Hk.
  destruct (bool_decide _); [apply looks_ask; intros; by apply sim_Get |]. intros c c' Hl.
  pose proof (sim_Read kind name k WholeObjectRange _ _ Hk (lk_store _ _ Hl)) as Ha. unfold mbind, handler_bind, ask, mret, handler_ret.
  eexists _, _. split; [done |]. split; [done |]. destruct (st_Read _ _ (cn_store c)) as [b|[]]; cbn in Ha |- *; by rewrite ?Ha.
Qed.

Hint Resolve readValue_looks sim_kind sim_Get sim_MGet sim_Exists sim_TTL sim_DBSize sim_MetaHeader sim_Read sim_List sim_GetDel sim_MSet
  sim_Append sim_SetRange sim_IncrBy sim_Del sim_Expire sim_Flush sim_FlushAll : follows.

Lemma gives_up_try {X Y} e (f : X -> handler S Y) : gives_up (try (Err e) ≫= f).
Proof. apply gives_up_bind, gives_up_fails. Qed.

Lemma gives_up_try_status {X Y} n e (f : X -> handler S Y) : gives_up (try_status n (Err e) ≫= f).
Proof. apply gives_up_bind, gives_up_status. Qed.

Hint Resolve gives_up_try gives_up_try_status follows_gives_up : follows.

Lemma set_options_mode now args o o' : pc_Mode (co_Precondition o) <> IfMatch -> set_options now args o = Ok o' -> pc_Mode (co_Precondition o') <> IfMatch.
Proof.
  revert o. induction args as [args IH] using (induction_ltof1 _ (@length bytes)). unfold ltof in IH.
  intros [pre t keep old] Ho. destruct args as [|a args]; cbn [set_options]; [by intros [= <-] |].
  repeat (case_match; try done); (eapply IH; [cbn in *; lia | done]).
Qed.

Lemma parse_mode now args o : parseRESPSetOptions now args = Ok o -> pc_Mode (co_Precondition o) <> IfMatch.
Proof. by apply set_options_mode. Qed.

Lemma sim_Set_options now args o name key val s a :
  parseRESPSetOptions now args = Ok o -> R s a -> ran R (eq a) (st_Set name key val o s) (st_Set name key val o a).
Proof. intros Ho. apply sim_Set. by eapply parse_mode. Qed.

Hint Resolve sim_Set_options : follows.

(** The reply to a call that worked. *)
Ltac replies_surely := intros ? ?; cbv [mbind handler_bind try try_status mret handler_ret]; repeat case_match; try discriminate; eexists; reflexivity.

(** One step of both handlers. *)
Ltac follow_step :=
  lazymatch goal with
  | |- forall _, _ => intros ?
  | |- gives_up _ \/ ?e = NotFound => destruct e; [by right | left; solve [eauto with follows] ..]
  | |- follows ?b ?P (mbind ?f (try (Ok ?x))) (mbind ?f' _) => change (follows b P (f x) (f' x)); cbv beta
  | |- follows ?b ?P (mbind ?f (try_status _ (Ok ?x))) (mbind ?f' _) => change (follows b P (f x) (f' x)); cbv beta
  | |- follows _ _ (mbind _ (ask _)) _ => apply follows_look; [first [assumption | done] | apply looks_ask; intros ? ? ?; eauto with follows | ..]
  | |- follows _ _ (mbind _ (readValue _ _)) _ => apply follows_look; [first [assumption | done] | apply readValue_looks | ..]
  | |- follows _ _ (mbind _ (change _)) (mbind _ (change _)) => first [apply follows_change | apply follows_bind; [apply follows_status | intros ?]]
  | |- follows _ _ (mbind _ (lift _)) _ => apply follows_lift_bind; [first [assumption | done] | intros ? ?]
  | |- follows _ _ (mbind _ (call _)) _ =>
      apply follows_call; [intros ? ? ?; eauto with follows | intros ? | replies_surely | intros ?; eauto with follows]
  | |- follows _ _ (mbind _ _) _ => apply follows_bind; [| intros ?]
  | |- follows _ _ (match ?x with _ => _ end) _ => destruct x eqn:?
  end.

Ltac follow := repeat (first [solve [eauto with follows] | follow_step]).

Lemma follows_mget_each P bucket args : (forall a, P a a) -> follows false P (mget_each bucket args) (mget_each bucket args).
Proof. intros HP. induction args as [|a args IH]; cbn [mget_each]; follow. Qed.

Lemma follows_exists_each P bucket args n : (forall a, P a a) -> follows true P (exists_each bucket args n) (exists_each bucket args n).
Proof. intros HP. revert n. induction args as [|a args IH]; intros n; cbn [exists_each]; follow. Qed.

Lemma scan_agree pages name pattern count page after keys s a :
  R s a -> agree (scan_pages pages name pattern count page after keys s) (scan_pages pages name pattern count page after keys a).
Proof.
  intros HR. revert after keys. induction pages as [|pages IH]; intros after keys; cbn [scan_pages]; (destruct (count <=? zlen keys); [done |]); [done |].
  pose proof (sim_List name (literalPrefix pattern) (prefixUpper (literalPrefix pattern)) after page s a HR) as Hl.
  destruct (st_List _ _ _ _ _ s) as [rows|e]; cbn in Hl; [rewrite Hl; cbn [rbind] | cbn; destruct e; cbn; by rewrite ?Hl].
  destruct (bool_decide _); [done |]. destruct (scan_rows _ _ _ _ _) as [[after' keys'] []]; [done |]. destruct (_ <? _); [done | apply IH].
Qed.

Lemma scanCache_agree name pattern after count s a : R s a -> agree (scanCache sv name pattern after count s) (scanCache sv name pattern after count a).
Proof. apply scan_agree. Qed.

Lemma sim_Stat_agree name s a : R s a -> agree (Ok (st_StatNamespace name s)) (Ok (st_StatNamespace name a)).
Proof. intros HR. cbn. by rewrite (sim_Stat name s a HR). Qed.

Lemma sim_Set_plain name key val t keep old s a mode :
  mode <> IfMatch -> R s a ->
  ran R (eq a) (st_Set name key val (mkSetOptions (mkPrecondition mode "") t keep old) s) (st_Set name key val (mkSetOptions (mkPrecondition mode "") t keep old) a).
Proof. intros. by apply sim_Set. Qed.

Lemma sim_GetSet_plain name key val t keep old s a :
  R s a -> ran R (eq a) (st_GetSet name key val (mkSetOptions (mkPrecondition Unconditional "") t keep old) s)
    (st_GetSet name key val (mkSetOptions (mkPrecondition Unconditional "") t keep old) a).
Proof. intros. by apply sim_GetSet. Qed.

Hint Resolve follows_mget_each follows_exists_each scanCache_agree sim_Stat_agree sim_GetSet_plain : follows.
Hint Extern 1 (ran R _ (st_Set _ _ _ (mkSetOptions (mkPrecondition _ "") _ _ _) _) _) => apply sim_Set_plain; done : follows.
Hint Extern 1 (follows _ _ (try _) (try _)) => apply follows_ret : follows.
Hint Extern 2 (gives_up (match ?e with _ => _ end)) => destruct e : follows.

Lemma bind_session {T} (f : respSession -> handler T unit) c : (session ≫= f) c = f (cn_sess c) c.
Proof. done. Qed.

(** What a command that reports an error may have done. *)
Definition failed_effect (bucket : string) (cmd : respCmd) (a a' : A) : Prop :=
  a' = a \/ (rc_name cmd = "MSET" /\ exists kvs, mset_pairs bucket (rc_args cmd) = Ok kvs /\ partly_set bucket kvs a a') \/
  (rc_name cmd = "FLUSHALL" /\ Flushed a a').

Lemma follows_impl {X} still (P Q : A -> A -> Prop) (h : handler S X) h' : (forall a a', P a a' -> Q a a') -> follows still P h h' -> follows still Q h h'.
Proof. intros HPQ Hf c c' Hl. specialize (Hf c c' Hl). destruct (h c) as [[x|e] c1]; [done |]. destruct Hf as (a & Hp & ?). eauto. Qed.

Lemma follows_at {X} still (P : A -> A -> Prop) (h : handler S X) h' c c' : follows still P h h' -> linked c c' ->
  match h c with
  | (Ok x, c1) => exists c1', h' c' = (Ok x, c1') /\ linked c1 c1'
  | (Err _, c1) => exists a, P (cn_store c') a /\ R (cn_store c1) a /\ same_session (cn_sess c1) (cn_sess c)
  end.
Proof. intros Hf Hl. specialize (Hf c c' Hl). destruct (h c) as [[x|e] c1]; [| done]. destruct Hf as (c1' & ? & ? & _). eauto. Qed.

Lemma follows_eq name spec spec' args :
  command (S:=S) sv name = Some spec -> command (S:=A) sv name = Some spec' -> name <> "MSET" -> name <> "FLUSHALL" ->
  follows false eq (cs_fn spec name args) (cs_fn spec' name args).
Proof.
  intros (c & Hf & ->)%fmap_Some (c' & Hf' & ->)%fmap_Some Hm Hfl. apply find_some in Hf as [Hin <-%bool_decide_eq_true].
  repeat (destruct Hin as [<-|Hin]; [cbn [fst snd cs_fn] in *; try done; injection Hf' as <-; cbn [fst snd cs_fn] |]); try done;
    unfold cmdTxUnsupported, cmdPing, cmdEcho, cmdOK, cmdQuit, cmdReset, cmdHello, cmdCommand, cmdConfig, cmdSelect, cmdInfo, cmdDBSize, cmdFlush,
      cmdType, cmdStrLen, cmdGet, cmdMGet, cmdGetRange, cmdSet, cmdSetNX, cmdSetEX, cmdGetSet, cmdGetDel, cmdAppend, cmdSetRange,
      cmdIncr, cmdDel, cmdExists, cmdExpire, cmdPersist, cmdTTL, cmdKeys, cmdScan, writeInt, writeOK, writeBoolInt; follow.
  by vm_compute in Heqb.
Qed.

Lemma follows_mset bucket args : follows false (fun a a' => a' = a \/ exists kvs, mset_pairs bucket args = Ok kvs /\ partly_set bucket kvs a a')
  (kvs ← lift (mset_pairs bucket args); r ← call (st_MSet bucket kvs); writeOK r)
  (kvs ← lift (mset_pairs bucket args); r ← call (st_MSet bucket kvs); writeOK r).
Proof.
  apply follows_lift_bind; [by left |]. intros kvs E. apply follows_call.
  - intros s a HR. pose proof (sim_MSet bucket kvs s a HR) as Hr. destruct (st_MSet bucket kvs s) as [[x|e] s1]; [done |].
    destruct Hr as (a' & Hp & ?). exists a'. split; [right; eauto | done].
  - unfold writeOK. follow.
  - unfold writeOK. replies_surely.
  - unfold writeOK. eauto with follows.
Qed.

(** A command does the same over both stores, or reports an error. *)
Lemma command_follows spec spec' cmd c c' :
  command (S:=S) sv (rc_name cmd) = Some spec -> command (S:=A) sv (rc_name cmd) = Some spec' -> linked c c' ->
  match cs_fn spec (rc_name cmd) (rc_args cmd) c with
  | (Ok x, c1) => exists c1', cs_fn spec' (rc_name cmd) (rc_args cmd) c' = (Ok x, c1') /\ linked c1 c1'
  | (Err _, c1) => exists a, failed_effect (rs_bucket (cn_sess c)) cmd (cn_store c') a /\ R (cn_store c1) a /\ same_session (cn_sess c1) (cn_sess c)
  end.
Proof.
  intros Hs Hs' Hl. destruct (decide (rc_name cmd = "MSET")) as [E|Hm]; [| destruct (decide (rc_name cmd = "FLUSHALL")) as [E|Hf]].
  - rewrite E in Hs, Hs'. injection Hs as <-. injection Hs' as <-. cbn [cs_fn]. unfold cmdMSet. destruct (negb _).
    { by apply (follows_at false (failed_effect (rs_bucket (cn_sess c)) cmd)); [apply follows_fails; by left |]. }
    rewrite !bind_session, <- (lk_sess _ _ Hl). eapply follows_at; [| exact Hl]. eapply follows_impl; [| apply follows_mset].
    intros a a' [->|Hp]; [by left | right; left; by split].
  - rewrite E in Hs, Hs'. injection Hs as <-. injection Hs' as <-. cbn [cs_fn]. rewrite E. unfold cmdFlush.
    change (EqualFold "FLUSHALL" "FLUSHALL") with true. eapply follows_at; [| exact Hl]. eapply (follows_impl _ (fun a a' => a' = a \/ Flushed a a')).
    { intros a a' [->|Hp]; [by left | right; right; by split]. }
    apply follows_call; [| unfold writeOK; follow | unfold writeOK; replies_surely | unfold writeOK; eauto with follows].
    intros s a HR. pose proof (sim_FlushAll s a HR) as Hr. destruct (st_FlushAll s) as [[x|e] s1]; [done |]. destruct Hr as (a' & Hp & ?). exists a'. by split; [right |].
  - eapply follows_at; [| exact Hl]. eapply (follows_impl _ eq); [intros a a' <-; by left |]. by apply follows_eq.
Qed.
End Follows.
