(* ===== verification/RespPipeline.v ===== *)
(** * Pipelines over two stores

    A pipeline run over one store, with its reads and writes coalesced, is a
    run of its commands one after the other over the other store, except that a
    command may report an error. *)

From S2P Require Import Prelude GoStrings Ns Ranges Precond Glob Resp RespReplies RespSim.

(** ** Runs of commands *)

Section Runs.
Context {A : Type} {OA : StoreOps A} (Flushed : A -> A -> Prop) (sv : Server).

(** A connection that has sent more, with another store. *)
Definition sent (fs : list frame) (a : A) (c : conn A) : conn A := mkConn (cn_sess c) (cn_out c ++ fs) a.

(** The frames before the error of a command: the beginning of its reply for an
    [MGET] of objects of buckets, and nothing for the others. *)
Definition begun (cmd : respCmd) (fs : list frame) : Prop := cache_only cmd = true -> fs = [].

(** [runs cmds c quit c']: the commands one by one; one may fail, with the
    effect a failure may have; writes that were coalesced fail together. *)
Inductive runs : list respCmd -> conn A -> bool -> conn A -> Prop :=
| runs_end c : runs [] c false c
| runs_quit cmd rest c c1 : execRESPCommand sv cmd c = (true, c1) -> runs (cmd :: rest) c true c1
| runs_next cmd rest c c1 quit c2 : execRESPCommand sv cmd c = (false, c1) -> runs rest c1 quit c2 -> runs (cmd :: rest) c quit c2
| runs_error cmd rest c fs m a quit c2 :
    failed_effect (Flushed := Flushed) (rs_bucket (cn_sess c)) cmd (cn_store c) a -> begun cmd fs ->
    runs rest (sent (fs ++ [WError m]) a c) quit c2 -> runs (cmd :: rest) c quit c2
| runs_errors cmds kvs rest c m a quit c2 :
    cmds <> [] -> mapM (isBatchableSet (rs_bucket (cn_sess c))) cmds = Some kvs -> partly_set (rs_bucket (cn_sess c)) kvs (cn_store c) a ->
    runs rest (sent ((fun _ => WError m) <$> cmds) a c) quit c2 -> runs (cmds ++ rest) c quit c2
| runs_down cmd rest c : runs (cmd :: rest) c true (sent [WError "ERR server shutting down"] (cn_store c) c).

Lemma runs_app cmds1 cmds2 c c1 quit c2 : runs cmds1 c false c1 -> runs cmds2 c1 quit c2 -> runs (cmds1 ++ cmds2) c quit c2.
Proof.
  intros Hr. remember false as q eqn:Eq. induction Hr; intros H2; try done; cbn [app].
  - eapply runs_next; [done |]. by apply IHHr.
  - eapply runs_error; [done | done |]. by apply IHHr.
  - rewrite <- app_assoc. eapply runs_errors; [done | done | done |]. by apply IHHr.
Qed.

Lemma runs_stop cmds1 cmds2 c c1 : runs cmds1 c true c1 -> runs (cmds1 ++ cmds2) c true c1.
Proof.
  intros Hr. remember true as q eqn:Eq. induction Hr; try done; cbn [app].
  - by apply runs_quit.
  - eapply runs_next; [done |]. by apply IHHr.
  - eapply runs_error; [done | done |]. by apply IHHr.
  - rewrite <- app_assoc. eapply runs_errors; [done | done | done |]. by apply IHHr.
  - by apply runs_down.
Qed.

(** *** Runs without errors *)

Definition runs_from (c c' : conn A) : Prop := exists fs, cn_out c' = cn_out c ++ fs.

Definition no_error (f : frame) : Prop := match f with WError _ => False | _ => True end.

(** The commands one after the other. *)
Fixpoint run_all (cmds : list respCmd) (c : conn A) : bool * conn A :=
  match cmds with
  | [] => (false, c)
  | cmd :: rest => let '(quit, c1) := execRESPCommand sv cmd c in if quit then (true, c1) else run_all rest c1
  end.

Lemma exec_sends cmd (c : conn A) quit c1 : valid_session c -> execRESPCommand sv cmd c = (quit, c1) -> valid_session c1 /\ exists fs, cn_out c1 = cn_out c ++ fs.
Proof.
  intros Hv. unfold execRESPCommand. set (c0 := mkConn (set_status 200 (cn_sess c)) (cn_out c) (cn_store c)). assert (valid_session c0) as Hv0 by done.
  destruct (command sv (rc_name cmd)) as [spec|] eqn:Hs; [| intros [= _ <-]; by split; [| eexists]]. cbv zeta.
  destruct (_ || _); [intros [= _ <-]; by split; [| eexists] |]. destruct (_ && _); [intros [= _ <-]; by split; [| eexists] |].
  pose proof (command_sends sv cmd spec c0 Hs Hv0) as Hp. destruct (cs_fn spec _ _ c0) as [[x|m] c2]; destruct Hp as (Hv2 & fs & E & _); intros [= _ <-]; [eauto |].
  split; [unfold valid_session in *; cbn; by destruct (_ =? _) |]. cbn [cn_out]. rewrite E, <- app_assoc. by eexists.
Qed.

Lemma runs_sends cmds c quit c' : runs cmds c quit c' -> valid_session c -> valid_session c' /\ exists fs, cn_out c' = cn_out c ++ fs.
Proof.
  induction 1 as [c|cmd rest c c1 Hx|cmd rest c c1 quit c2 Hx _ IH|cmd rest c fs m a quit c2 _ _ _ IH|cmds kvs rest c m a quit c2 _ _ _ _ IH|cmd rest c]; intros Hv.
  - split; [done |]. exists []. by rewrite app_nil_r.
  - by eapply exec_sends.
  - destruct (exec_sends cmd c _ _ Hv Hx) as (Hv1 & fs & E). destruct (IH Hv1) as (Hv2 & fs2 & E2). split; [done |]. rewrite E2, E, <- app_assoc. by eexists.
  - destruct (IH Hv) as (Hv2 & fs2 & E2). split; [done |]. rewrite E2. unfold sent. cbn [cn_out]. rewrite <- app_assoc. by eexists.
  - destruct (IH Hv) as (Hv2 & fs2 & E2). split; [done |]. rewrite E2. unfold sent. cbn [cn_out]. rewrite <- app_assoc. by eexists.
  - split; [done |]. by eexists.
Qed.

(** Without an error, a run is the commands one after the other. *)
Lemma runs_exact cmds c quit c' : runs cmds c quit c' -> valid_session c -> Forall no_error (cn_out c') -> run_all cmds c = (quit, c').
Proof.
  assert (forall (c1 c2 : conn A) fs m gs, runs_from c1 c2 -> cn_out c1 = fs ++ WError m :: gs -> Forall no_error (cn_out c2) -> False) as Hbad.
  { intros c1 c2 fs m gs (hs & E2) E1 Hn. rewrite E2, E1, !Forall_app, Forall_cons in Hn. tauto. }
  induction 1 as [c|cmd rest c c1 Hx|cmd rest c c1 quit c2 Hx _ IH|cmd rest c fs m a quit c2 _ _ Hr _|cmds kvs rest c m a quit c2 Hne _ _ Hr _|cmd rest c]; intros Hv Hn.
  - done.
  - cbn. by rewrite Hx.
  - cbn. rewrite Hx. apply IH; [by eapply exec_sends | done].
  - exfalso. apply runs_sends in Hr as [_ Hr]; [| done]. eapply (Hbad _ _ (cn_out c ++ fs) m []); [exact Hr | | done]. unfold sent. cbn. by rewrite <- app_assoc.
  - exfalso. apply runs_sends in Hr as [_ Hr]; [| done]. destruct cmds as [|cmd cmds]; [done |].
    eapply (Hbad _ _ (cn_out c) m); [exact Hr | done | done].
  - exfalso. eapply (Hbad (sent [WError "ERR server shutting down"] (cn_store c) c) _ (cn_out c)); [| done | exact Hn]. exists []. by rewrite app_nil_r.
Qed.
End Runs.

(** ** The pipeline *)

(** What coalescing relies on: batches are their elements one by one. *)
Class Batches {S A : Type} (OA : StoreOps A) (R : S -> A -> Prop) : Prop := {
  bt_MGet name keys a vals : st_MGet name keys a = Ok vals -> Forall2 (fun key v => st_Get name key a = Ok v) keys vals;
  bt_Set name key v a : (st_Set name key v no_options a).1 = Ok (None, false, true);
  bt_MSet name kvs s a : R s (st_MSet name kvs a).2 -> R s (fold_left (fun a kv => (st_Set name kv.1 kv.2 no_options a).2) kvs a)
}.

Section Pipeline.
Context {S A : Type} {OS : StoreOps S} {OA : StoreOps A} {R : S -> A -> Prop} {Flushed : A -> A -> Prop}.
Context `{SIM : !Simulates OS OA R Flushed, BT : !Batches OA R} (sv : Server).

(** Connections that differ in their status and store. *)
Record near (c : conn S) (c' : conn A) : Prop := {
  nr_sess : same_session (cn_sess c) (cn_sess c');
  nr_out : cn_out c = cn_out c';
  nr_store : R (cn_store c) (cn_store c')
}.

Definition active {T} (c : conn T) : Prop := rs_quit (cn_sess c) = false.

Lemma set_status_same n s s' : same_session s s' -> set_status n s = set_status n s'.
Proof. unfold same_session, set_status. by intros [-> ->]. Qed.

(** The command tables agree. *)
Lemma command_same name :
  match command (S:=S) sv name, command (S:=A) sv name with
  | Some s, Some s' => cs_minArgs s = cs_minArgs s' /\ cs_maxArgs s = cs_maxArgs s' /\ cs_write s = cs_write s'
  | None, None => True
  | _, _ => False
  end.
Proof. unfold command, commands. cbn [find fst]. repeat (destruct (bool_decide _); [done |]). done. Qed.

Lemma refuse_near status msg c c' : near c c' -> near (refuse status msg c).2 (refuse status msg c').2.
Proof. intros [Hs Ho Hr]. split; [apply Hs | cbn; by rewrite Ho | done]. Qed.

(** A command whose run over the first store ends in an error. *)
Definition erred (cmd : respCmd) (c : conn S) (a0 : A) (quit : bool) (c1 : conn S) : Prop :=
  exists msg a fs, failed_effect (Flushed := Flushed) (rs_bucket (cn_sess c)) cmd a0 a /\ R (cn_store c1) a /\
    same_session (cn_sess c1) (cn_sess c) /\ quit = rs_quit (cn_sess c) /\ cn_out c1 = cn_out c ++ fs ++ [WError msg] /\ begun cmd fs.

Lemma exec_near cmd c c' : near c c' -> valid_session c ->
  match execRESPCommand sv cmd c, execRESPCommand sv cmd c' with
  | (quit, c1), (quit', c1') => valid_session c1 /\ ((quit = quit' /\ near c1 c1') \/ erred cmd c (cn_store c') quit c1)
  end.
Proof.
  intros Hn Hv. unfold execRESPCommand. set (c0 := mkConn (set_status 200 (cn_sess c)) (cn_out c) (cn_store c)).
  set (c0' := mkConn (set_status 200 (cn_sess c')) (cn_out c') (cn_store c')). cbv zeta.
  assert (linked (R := R) c0 c0') as Hl by (split; cbn; [by apply set_status_same, Hn | apply Hn | apply Hn]).
  assert (near c0 c0') as Hn0 by (split; [apply (nr_sess _ _ Hn) | apply Hn | apply Hn]). assert (valid_session c0) as Hv0 by done.
  pose proof (command_same (rc_name cmd)) as Hsame.
  destruct (command (S:=S) sv (rc_name cmd)) as [spec|] eqn:Hs, (command (S:=A) sv (rc_name cmd)) as [spec'|] eqn:Hs'; try done.
  2: { split; [done |]. left. split; [done |]. by apply refuse_near. }
  destruct Hsame as (-> & -> & ->). destruct (_ || _); [split; [done |]; left; split; [done |]; by apply refuse_near |].
  destruct (_ && _); [split; [done |]; left; split; [done |]; by apply refuse_near |].
  pose proof (command_follows sv spec spec' cmd c0 c0' Hs Hs' Hl) as Hf. pose proof (command_sends sv cmd spec c0 Hs Hv0) as Hsend.
  destruct (cs_fn spec (rc_name cmd) (rc_args cmd) c0) as [[x|msg] c1].
  - destruct Hf as (c1' & -> & [E1 E2 E3]). split; [apply Hsend |]. left. rewrite E1. split; [done |]. split; [by rewrite E1 | done | done].
  - destruct Hf as (a & Hp & Hr & Hss). destruct Hsend as (Hv1 & fs & Eo & Hfs).
    assert (forall n, same_session (if rs_status (cn_sess c1) =? n then set_status 400 (cn_sess c1) else cn_sess c1) (cn_sess c)) as Hses
      by (intros n; by destruct (_ =? n)).
    destruct (cs_fn spec' _ _ c0') as [r' c1']. split; [unfold valid_session; cbn [cn_sess]; by rewrite (proj1 (Hses 200)) |]. right.
    exists (error_reply msg), a, fs. split; [done |]. split; [done |]. split; [apply Hses |]. split; [apply Hses |]. cbn [cn_out]. by rewrite Eo, <- app_assoc.
Qed.

(** *** Coalesced reads *)

Lemma run_prefix {X} (key : respCmd -> option X) batch :
  mapM key (take (length (run_of key batch)) batch) = Some (run_of key batch).
Proof.
  induction batch as [|cmd batch IH]; [done |]. cbn [run_of]. destruct (key cmd) as [k|] eqn:E; [| done].
  cbn [length take mapM]. rewrite E. cbn. by rewrite IH.
Qed.

(** A [GET] of a key of the cache. *)
Lemma exec_get b cmd key v (c : conn A) :
  active c -> rs_bucket (cn_sess c) = b -> get_key b b cmd = Some key -> st_Get b key (cn_store c) = Ok v ->
  exists c1, execRESPCommand sv cmd c = (false, c1) /\ active c1 /\ rs_bucket (cn_sess c1) = b /\ cn_out c1 = cn_out c ++ [writeBulk v] /\ cn_store c1 = cn_store c.
Proof.
  intros Ha Hb Hk Hg. destruct cmd as [name args]. unfold get_key in Hk. cbn [rc_name rc_args] in Hk.
  destruct (bool_decide_reflect (name = "GET")) as [->|]; [| done]. destruct args as [|x [|]]; [done | | done].
  destruct (resolveTarget b (str x)) as [[kind b'] k] eqn:E. destruct (bool_decide_reflect (kind <> Cache)) as [|Hc]; [done |].
  destruct (bool_decide_reflect (b' <> b)) as [|Hb']; [done |]. cbn in Hk. injection Hk as ->. apply dec_stable in Hc, Hb'. subst kind b'.
  unfold execRESPCommand. change (command sv (rc_name (mkCmd "GET" [x]))) with (Some (mkSpec (S:=A) 1 1 false (fun _ => cmdGet))).
  cbn [rc_args rc_name cs_fn cs_minArgs cs_maxArgs cs_write zlen length Z.of_nat]. cbn [Z.ltb Z.leb Z.compare Pos.compare Pos.compare_cont orb andb].
  unfold cmdGet, readValue, mbind, handler_bind, session, arg. cbn [cn_sess nth set_status rs_bucket]. rewrite Hb, E.
  cbn [bool_decide decide_rel]. rewrite bool_decide_true by done. unfold ask. cbn [cn_store]. rewrite Hg.
  destruct v; cbn; (eexists; split; [by rewrite Ha | done]).
Qed.

Lemma runs_gets b cmds keys vals (c : conn A) :
  active c -> rs_bucket (cn_sess c) = b -> mapM (get_key b b) cmds = Some keys -> Forall2 (fun key v => st_Get b key (cn_store c) = Ok v) keys vals ->
  exists c1, runs Flushed sv cmds c false c1 /\ active c1 /\ rs_bucket (cn_sess c1) = b /\ cn_out c1 = cn_out c ++ (writeBulk <$> vals) /\ cn_store c1 = cn_store c.
Proof.
  intros Ha Hb Hm Hv. revert c keys vals Ha Hb Hm Hv. induction cmds as [|cmd cmds IH]; intros c keys vals Ha Hb Hm Hv.
  { injection Hm as <-. inversion Hv; subst. exists c. cbn. rewrite app_nil_r. by split; [constructor |]. }
  cbn [mapM] in Hm. destruct (get_key b b cmd) as [key|] eqn:Ek; [| done]. cbn in Hm. destruct (mapM _ cmds) as [keys'|] eqn:Em; [| done]. injection Hm as <-.
  inversion Hv as [|? v ? vals' Hkv Hvs]; subst. destruct (exec_get (rs_bucket (cn_sess c)) cmd key v c Ha eq_refl Ek Hkv) as (c1 & Ex & Ha1 & Hb1 & Eo & Es).
  destruct (IH c1 keys' vals') as (c2 & Hr & Ha2 & Hb2 & Eo2 & Es2); [done | done | done | by rewrite Es |].
  exists c2. split; [by eapply runs_next |]. rewrite Eo2, Eo, Es2, <- app_assoc. done.
Qed.

(** The errors of commands, one by one. *)
Lemma runs_all_errors cmds m (c : conn A) : runs Flushed sv cmds c false (sent ((fun _ => WError m) <$> cmds) (cn_store c) c).
Proof.
  revert c. induction cmds as [|cmd cmds IH]; intros c.
  { cbn. replace (sent [] (cn_store c) c) with c; [constructor |]. unfold sent. rewrite app_nil_r. by destruct c. }
  eapply (runs_error _ _ _ _ _ [] m); [by left | done |]. cbn [app]. cbn [fmap list_fmap].
  assert (sent (WError m :: ((fun _ => WError m) <$> cmds)) (cn_store c) c =
    sent ((fun _ => WError m) <$> cmds) (cn_store c) (sent [WError m] (cn_store c) c)) as -> by (unfold sent; cbn; by rewrite <- app_assoc).
  exact (IH (sent [WError m] (cn_store c) c)).
Qed.

Lemma near_sent fs s a c c' : near c c' -> R s a -> near (mkConn (cn_sess c) (cn_out c ++ fs) s) (sent fs a c').
Proof. intros [Hs Ho _] Hr. split; cbn; [done | by rewrite Ho | done]. Qed.

Lemma near_active c c' : near c c' -> active c -> active c'.
Proof. intros [[_ E] _ _]. unfold active. congruence. Qed.

Lemma fmap_const_length {X Y B} (x : B) (l : list X) (k : list Y) : length l = length k -> (fun _ => x) <$> l = (fun _ => x) <$> k.
Proof. revert k. induction l as [|? l IH]; intros [|? k]; try done. cbn. intros [= E]. by rewrite (IH k). Qed.

Lemma resolve_cache b key kind name k : resolveTarget b key = (kind, name, k) -> kind = Cache -> name = b.
Proof.
  unfold resolveTarget. destruct (CutPrefix key _) as [rest|]; [| by intros [= _ <- _]].
  destruct (Cut rest _) as [[x y]|]; [| by intros [= _ <- _]]. destruct (_ && _); [by intros [= <- _ _] | by intros [= _ <- _]].
Qed.

Lemma coalesced_gets batch c c' n c1 : near c c' -> active c -> (1 < n)%nat -> tryCoalesceGet (rs_bucket (cn_sess c)) batch c = (n, c1) ->
  active c1 /\ rs_bucket (cn_sess c1) = rs_bucket (cn_sess c) /\ (n <= length batch)%nat /\
  exists c1', runs Flushed sv (take n batch) c' false c1' /\ near c1 c1'.
Proof.
  intros Hn Ha Hlt. unfold tryCoalesceGet. destruct batch as [|[name [|x args]] rest]; [intros [= <- _]; lia.. |].
  set (b := rs_bucket (cn_sess c)). destruct (resolveTarget b (str x)) as [[kind b0] k] eqn:Er. set (batch := mkCmd name (x :: args) :: rest).
  set (keys := run_of _ batch). destruct (Nat.ltb_spec (length keys) 2) as [|H2]; [intros [= <- _]; lia |]. intros [= <- <-].
  assert (b0 = b) as ->.
  { unfold keys, batch in H2. cbn [run_of] in H2. unfold get_key at 1 in H2. cbn [rc_name rc_args] in H2.
    destruct (bool_decide (name = "GET")); [| cbn in H2; lia]. destruct args; [| cbn in H2; lia]. rewrite Er in H2.
    destruct (bool_decide_reflect (kind <> Cache)) as [|Hc]; [cbn in H2; lia |]. apply dec_stable in Hc. by eapply resolve_cache. }
  split; [done |]. split; [done |]. split; [apply run_length |]. pose proof (run_prefix (get_key b b) batch) as Hm. fold keys in Hm.
  pose proof (near_active _ _ Hn Ha) as Ha'. pose proof (sim_MGet b keys _ _ (nr_store _ _ Hn)) as Hag.
  assert (rs_bucket (cn_sess c') = b) as Hb' by (symmetry; apply Hn). destruct (st_MGet b keys (cn_store c)) as [vals|e]; cbn in Hag.
  - destruct (runs_gets b _ keys vals c' Ha' Hb' Hm) as (c1' & Hr & Ha1 & Hb1 & Eo & Es); [by apply bt_MGet in Hag |].
    exists c1'. split; [done |]. split; cbn; [split; [by rewrite Hb1 | by rewrite Ha1] | by rewrite Eo, (nr_out _ _ Hn) | rewrite Es; apply Hn].
  - eexists. split; [apply (runs_all_errors _ ("ERR " +:+ Error e)) |].
    rewrite (fmap_const_length _ (take (length keys) batch) keys) by (rewrite length_take; pose proof (run_length (get_key b b) batch) as Hlen; fold keys in Hlen; lia). apply near_sent; [done | apply Hn].
Qed.

(** *** Coalesced writes *)

Lemma write_bucket b a b' k : writeTarget b a = Ok (b', k) -> b' = b.
Proof.
  unfold writeTarget. destruct (HasPrefix _ _); [done |]. destruct (resolveTarget b (str a)) as [[kind b0] k0]. 
  destruct (bool_decide_reflect (kind <> Cache)) as [|Hc]; [done |]. destruct (bool_decide_reflect (b0 <> b)) as [|Hb]; [done |].
  apply dec_stable in Hb. by intros [= <- _].
Qed.

Lemma exec_set b cmd key v (c : conn A) :
  active c -> rs_bucket (cn_sess c) = b -> sv_readOnly sv = false -> isBatchableSet b cmd = Some (key, v) ->
  exists c1, execRESPCommand sv cmd c = (false, c1) /\ active c1 /\ rs_bucket (cn_sess c1) = b /\ cn_out c1 = cn_out c ++ [WString "OK"] /\
    cn_store c1 = (st_Set b key v no_options (cn_store c)).2.
Proof.
  intros Ha Hb Hro Hk. destruct cmd as [name args]. unfold isBatchableSet in Hk. cbn [rc_name rc_args] in Hk.
  destruct (bool_decide_reflect (name = "SET")) as [->|]; [| done]. destruct args as [|x [|w [|]]]; [done | done | | done].
  destruct (_ <? _); [done |]. destruct (writeTarget b x) as [[b' k]|] eqn:E; [| done]. injection Hk as -> ->. pose proof (write_bucket _ _ _ _ E) as ->.
  unfold execRESPCommand. change (command sv (rc_name (mkCmd "SET" [x; v]))) with (Some (mkSpec (S:=A) 2 (-1) true (fun _ => cmdSet sv))).
  cbn [rc_args rc_name cs_fn cs_minArgs cs_maxArgs cs_write zlen length Z.of_nat]. rewrite Hro.
  cbn [Z.ltb Z.leb Z.compare Pos.compare Pos.compare_cont orb andb].
  unfold cmdSet, mbind, handler_bind, session, lift, arg. cbn [cn_sess nth set_status rs_bucket drop]. rewrite Hb, E.
  change (parseRESPSetOptions (sv_now sv) []) with (@Ok string _ no_options). unfold call. cbn [cn_store].
  pose proof (bt_Set b key v (cn_store c)) as Hok. destruct (st_Set b key v no_options (cn_store c)) as [r a]. cbn in Hok. subst r.
  cbn. eexists. split; [by rewrite Ha | done].
Qed.

Lemma runs_sets b cmds kvs (c : conn A) :
  active c -> rs_bucket (cn_sess c) = b -> sv_readOnly sv = false -> mapM (isBatchableSet b) cmds = Some kvs ->
  exists c1, runs Flushed sv cmds c false c1 /\ active c1 /\ rs_bucket (cn_sess c1) = b /\ cn_out c1 = cn_out c ++ ((fun _ => WString "OK") <$> kvs) /\
    cn_store c1 = fold_left (fun a kv => (st_Set b kv.1 kv.2 no_options a).2) kvs (cn_store c).
Proof.
  intros Ha Hb Hro. revert c kvs Ha Hb. induction cmds as [|cmd cmds IH]; intros c kvs Ha Hb Hm.
  { injection Hm as <-. exists c. cbn. rewrite app_nil_r. by split; [constructor |]. }
  cbn [mapM] in Hm. destruct (isBatchableSet b cmd) as [[key v]|] eqn:Ek; [| done]. cbn in Hm. destruct (mapM _ cmds) as [kvs'|] eqn:Em; [| done]. injection Hm as <-.
  destruct (exec_set b cmd key v c Ha Hb Hro Ek) as (c1 & Ex & Ha1 & Hb1 & Eo & Es).
  destruct (IH c1 kvs' Ha1 Hb1 eq_refl) as (c2 & Hr & Ha2 & Hb2 & Eo2 & Es2).
  exists c2. split; [by eapply runs_next |]. rewrite Eo2, Eo, Es2, Es, <- app_assoc. done.
Qed.

Lemma coalesced_sets batch c c' n c1 : near c c' -> active c -> (1 < n)%nat -> tryCoalesceSet sv (rs_bucket (cn_sess c)) batch c = (n, c1) ->
  active c1 /\ rs_bucket (cn_sess c1) = rs_bucket (cn_sess c) /\ (n <= length batch)%nat /\
  exists c1', runs Flushed sv (take n batch) c' false c1' /\ near c1 c1'.
Proof.
  intros Hn Ha Hlt. unfold tryCoalesceSet. destruct (sv_readOnly sv) eqn:Hro; [intros [= <- _]; lia |].
  set (b := rs_bucket (cn_sess c)). set (kvs := run_of _ batch). destruct (_ <? 2)%nat; [intros [= <- _]; lia |].
  pose proof (run_prefix (isBatchableSet b) batch) as Hm. fold kvs in Hm. pose proof (run_length (isBatchableSet b) batch) as Hlen. fold kvs in Hlen.
  pose proof (near_active _ _ Hn Ha) as Ha'. pose proof (sim_MSet b kvs _ _ (nr_store _ _ Hn)) as Hag.
  assert (rs_bucket (cn_sess c') = b) as Hb' by (symmetry; apply Hn). destruct (st_MSet b kvs (cn_store c)) as [[u|e] s]; cbn in Hag; intros [= <- <-];
    (split; [done |]; split; [done |]; split; [done |]).
  - destruct Hag as (a & Em & Hr). destruct (runs_sets b _ kvs c' Ha' Hb' Hro Hm) as (c1' & Hrun & Ha1 & Hb1 & Eo & Es).
    exists c1'. split; [done |]. split; cbn; [split; [by rewrite Hb1 | by rewrite Ha1] | by rewrite Eo, (nr_out _ _ Hn) |].
    rewrite Es. apply bt_MSet. by rewrite Em.
  - destruct Hag as (a & Hp & Hr). eexists. rewrite <- (app_nil_r (take _ _)). split.
    + eapply (runs_errors _ _ _ kvs _ _ ("ERR " +:+ Error e)); [| by rewrite Hb' | by rewrite Hb' | constructor].
      destruct batch, kvs; cbn in *; (done || lia).
    + rewrite (fmap_const_length _ (take (length kvs) batch) kvs) by (rewrite length_take; lia). by apply near_sent.
Qed.

(** *** Batches and pipelines *)

Lemma exec_active cmd (c c1 : conn S) : active c -> execRESPCommand sv cmd c = (false, c1) -> active c1.
Proof.
  intros Ha. unfold execRESPCommand. destruct (command sv (rc_name cmd)); [| by intros [= <-]]. cbv zeta.
  destruct (_ || _); [by intros [= <-] |]. destruct (_ && _); [by intros [= <-] |]. destruct (cs_fn _ _ _ _) as [[x|m] c2]; by intros [= E <-].
Qed.

Lemma batch_runs fuel batch c c' : near c c' -> valid_session c -> active c -> (length batch <= fuel)%nat ->
  match batch_loop sv fuel batch c with
  | (quit, c1) => valid_session c1 /\ (quit = false -> active c1) /\ exists c1', runs Flushed sv batch c' quit c1' /\ near c1 c1'
  end.
Proof.
  revert batch c c'. induction fuel as [|fuel IH]; intros batch c c' Hn Hv Ha Hf; (destruct batch as [|cmd rest]; cbn [batch_loop];
    [split; [done |]; split; [done |]; exists c'; by split; [constructor |] |]); [cbn in Hf; lia |].
  set (batch := cmd :: rest) in *.
  assert (forall n c1, (1 < n)%nat -> valid_session c1 -> active c1 /\ rs_bucket (cn_sess c1) = rs_bucket (cn_sess c) /\ (n <= length batch)%nat /\
    (exists c1', runs Flushed sv (take n batch) c' false c1' /\ near c1 c1') ->
    match batch_loop sv fuel (drop n batch) c1 with
    | (quit, c2) => valid_session c2 /\ (quit = false -> active c2) /\ exists c2', runs Flushed sv batch c' quit c2' /\ near c2 c2'
    end) as Hmany.
  { intros n c1 Hlt Hv1 (Ha1 & _ & Hle & c1' & Hr & Hn1). specialize (IH (drop n batch) c1 c1' Hn1 Hv1 Ha1).
    rewrite length_drop in IH. specialize (IH ltac:(cbn in *; lia)). destruct (batch_loop sv fuel (drop n batch) c1) as [quit c2].
    destruct IH as (Hv2 & Hq & c2' & Hr2 & Hn2). split; [done |]. split; [done |]. exists c2'. split; [| done].
    rewrite <- (take_drop n batch). by eapply runs_app. }
  assert (forall c1 : conn S, rs_bucket (cn_sess c1) = rs_bucket (cn_sess c) -> valid_session c1) as Hvb by (intros c1 E; unfold valid_session; by rewrite E).
  destruct (tryCoalesceGet _ batch c) as [n c1] eqn:Eg. destruct (Nat.ltb_spec 1 n) as [Hlt|_].
  { pose proof (coalesced_gets batch c c' n c1 Hn Ha Hlt Eg) as Hc. apply Hmany; [done | apply Hvb, Hc | done]. }
  clear Eg. destruct (tryCoalesceSet _ _ batch c) as [n' c2] eqn:Es. destruct (Nat.ltb_spec 1 n') as [Hlt|_].
  { pose proof (coalesced_sets batch c c' n' c2 Hn Ha Hlt Es) as Hc. apply Hmany; [done | apply Hvb, Hc | done]. }
  clear Es Hmany Hvb. pose proof (exec_near cmd c c' Hn Hv) as Hx. destruct (execRESPCommand sv cmd c) as [quit c3] eqn:Ec.
  destruct (execRESPCommand sv cmd c') as [quit' c3'] eqn:Ec'. destruct Hx as (Hv3 & [[<- Hn3]|(msg & a & fs & Hp & Hr & Hss & -> & Eo & Hb)]).
  - destruct quit; [split; [done |]; split; [done |]; exists c3'; split; [by constructor | done] |].
    pose proof (exec_active cmd c c3 Ha Ec) as Ha3.
    specialize (IH rest c3 c3' Hn3 Hv3 Ha3 ltac:(cbn in Hf; lia)). destruct (batch_loop sv fuel rest c3) as [q c4].
    destruct IH as (Hv4 & Hq & c4' & Hr4 & Hn4). split; [done |]. split; [done |]. exists c4'. split; [by eapply runs_next | done].
  - rewrite Ha. assert (active c3) as Ha3 by (unfold active; rewrite (proj2 Hss); apply Ha).
    assert (near c3 (sent (fs ++ [WError msg]) a c')) as Hn3.
    { split; cbn; [eapply same_trans; [exact Hss | apply Hn] | by rewrite Eo, (nr_out _ _ Hn) | done]. }
    specialize (IH rest c3 _ Hn3 Hv3 Ha3 ltac:(cbn in Hf; lia)). destruct (batch_loop sv fuel rest c3) as [q c4].
    destruct IH as (Hv4 & Hq & c4' & Hr4 & Hn4). split; [done |]. split; [done |]. exists c4'. split; [| done].
    eapply runs_error; [by rewrite <- (proj1 (nr_sess _ _ Hn)) | done | done].
Qed.

Lemma serve_runs fuel downs batch c c' : near c c' -> valid_session c -> active c -> (length batch <= fuel)%nat ->
  match serve_loop sv fuel downs batch c with
  | (quit, c1) => valid_session c1 /\ exists c1', runs Flushed sv batch c' quit c1' /\ near c1 c1'
  end.
Proof.
  revert batch c c'. induction fuel as [|fuel IH]; intros batch c c' Hn Hv Ha Hf; (destruct batch as [|cmd rest]; cbn [serve_loop];
    [split; [done |]; exists c'; by split; [constructor |] |]); [cbn in Hf; lia |].
  set (batch := cmd :: rest) in *. unfold execRESPBatch. destruct (downs _).
  { split; [done |]. eexists. split; [apply runs_down |]. apply near_sent; [done | apply Hn]. }
  pose proof (batch_runs (length (take 128 batch)) (take 128 batch) c c' Hn Hv Ha (le_n _)) as Hb.
  destruct (batch_loop sv _ (take 128 batch) c) as [quit c1]. destruct Hb as (Hv1 & Hq & c1' & Hr & Hn1). destruct quit.
  - split; [done |]. exists c1'. split; [| done]. rewrite <- (take_drop 128 batch). by apply runs_stop.
  - specialize (IH (drop 128 batch) c1 c1' Hn1 Hv1 (Hq eq_refl)). rewrite length_drop in IH. specialize (IH ltac:(cbn in *; lia)).
    destruct (serve_loop sv fuel downs (drop 128 batch) c1) as [q c2]. destruct IH as (Hv2 & c2' & Hr2 & Hn2). split; [done |].
    exists c2'. split; [| done]. rewrite <- (take_drop 128 batch). by eapply runs_app.
Qed.
End Pipeline.
