(* ===== verification/RespStore.v ===== *)
(** * The store behind the RESP server

    Two stores with the operations of [Resp.StoreOps]: the tables, by the
    operations of [internal/store/cache.go] and [internal/store/object.go] as
    the machine executes them, and maps from keys to a value and an expiry.

    A namespace that does not exist has empty tables; a bucket that does not
    exist is an error.  The text of an error of the store, and how the driver
    encodes an instant, are parameters. *)

From stdpp Require Import gmap sorting.
From S2P Require Import Prelude GoStrings Ns Ranges Utf8 Precond Blocks Pieces Reader Ids Tables Objects CacheTables ObjectSpec Machine ObjectStore LateRead CacheValues Resp.

(** ** Keys in order *)

Definition key_le (a b : string) : Prop := slt b a = false.
#[global] Instance key_le_dec a b : Decision (key_le a b).
Proof. unfold key_le. apply _. Defined.

(** [key COLLATE "C" >= $1 AND key COLLATE "C" < $2 AND key COLLATE "C" > $3] *)
Definition key_between (prefix prefixEnd after key : string) : bool :=
  negb (slt key prefix) && slt key prefixEnd && slt after key.

(** [ORDER BY key COLLATE "C" LIMIT $4] *)
Definition page_of (prefix prefixEnd after : string) (limit : Z) (keys : list string) : list string :=
  take (Z.to_nat limit) (merge_sort key_le (List.filter (key_between prefix prefixEnd after) keys)).

Lemma key_le_total a b : key_le a b \/ key_le b a.
Proof.
  unfold key_le. rewrite !slt_codes. generalize (codes a) (codes b). clear a b. induction l as [|x l IH]; intros [|w k]; cbn; auto.
  destruct (Z.ltb_spec x w), (Z.ltb_spec w x); cbn; auto; try lia. assert (x = w) as -> by lia. rewrite Z.eqb_refl. cbn. apply IH.
Qed.

Lemma llt_trans_le l k j : llt k l = false -> llt j k = false -> llt j l = false.
Proof.
  revert k j. induction l as [|x l IH]; intros [|w k] [|v j]; cbn; auto; try done.
  intros [H1 H2]%orb_false_iff [H3 H4]%orb_false_iff. apply orb_false_iff. split; [lia |]. apply andb_false_iff.
  destruct (Z.eqb_spec v x); [right | by left]. assert (w = x /\ v = w) as [-> ->] by lia. rewrite Z.eqb_refl in *. by eapply IH.
Qed.

#[global] Instance key_le_trans : Transitive key_le.
Proof. intros a b c. unfold key_le. rewrite !slt_codes. apply llt_trans_le. Qed.

#[global] Instance key_le_Total : Total key_le.
Proof. intros a b. apply key_le_total. Qed.

Lemma llt_antisym l k : llt k l = false -> llt l k = false -> l = k.
Proof.
  revert k. induction l as [|x l IH]; intros [|w k]; cbn; auto; try done. intros [H1 H2]%orb_false_iff [H3 H4]%orb_false_iff.
  assert (x = w) as -> by lia. rewrite Z.eqb_refl in *. by rewrite (IH k).
Qed.

Lemma codes_inj a b : codes a = codes b -> a = b.
Proof.
  revert b. induction a as [|c a IH]; intros [|d b]; try done. unfold codes. cbn. fold (codes a). fold (codes b). intros [= E1 E2].
  rewrite (IH b E2). f_equal. rewrite <- (chr_code c), E1. apply chr_code.
Qed.

#[global] Instance key_le_antisym : AntiSymm (=) key_le.
Proof. intros a b. unfold key_le. rewrite !slt_codes. intros H1 H2. apply codes_inj. by apply llt_antisym. Qed.

Lemma page_perm prefix pend after limit l k : l ≡ₚ k -> page_of prefix pend after limit l = page_of prefix pend after limit k.
Proof.
  intros Hp. unfold page_of. f_equal. apply (Sorted_unique key_le); [apply (Sorted_merge_sort _) | apply (Sorted_merge_sort _) |].
  rewrite !merge_sort_Permutation. induction Hp as [|x l k _ IH|x w l|l k j _ IH1 _ IH2]; [done | | | by rewrite IH1].
  - cbn. destruct (key_between _ _ _ x); by rewrite IH.
  - cbn. destruct (key_between _ _ _ x), (key_between _ _ _ w); try done. constructor.
Qed.

(** ** The tables *)

(** When and with what a command runs: the time of the database, the quota
    decision, the store, the process and block that give file identifiers, the
    workers of a read, which buckets are missing, the caches there are, what
    [StatNamespace] counts, how an instant is encoded, and the texts of
    errors. *)
Record resp_env := mkEnv {
  ev_now : Z;
  ev_over_quota : Z -> bool;
  ev_store : Z;
  ev_proc : nat;
  ev_block : list Z;
  ev_workers : Z;
  ev_missing : string -> bool;
  ev_caches : list string;
  ev_stat : string -> Z * Z * Z;
  ev_encode : Z -> option Z;
  ev_text : cache_error -> string
}.

Section Tables.
Context `{Zstd, Digests} (e : resp_env).

Let now := ev_now e.

Definition failure (err : cache_error) : call_error :=
  match err with ErrNotInteger => NotInteger | _ => Other (ev_text e err) end.

Definition called {A} (r : result cache_error A) : result call_error A := match r with Ok x => Ok x | Err err => Err (failure err) end.

Definition invalid_namespace : call_error := Other "invalid namespace name".
Definition out_of_range : call_error := Other "timestamp out of range".
Definition no_bucket : call_error := Other "bucket does not exist".
Definition unexpected : call_error := Other "unexpected reply".

Definition bad_text : call_error := Other "invalid byte sequence".

(** Why a statement on a namespace with some texts fails: its name, or a text
    the server does not accept. *)
Definition statement (r : Ref) (texts : list string) : result call_error unit :=
  match nsSQLIdent (ref_kind r) (ref_name r) with
  | Err _ => Err invalid_namespace
  | Ok _ => if forallb text_value texts then Ok tt else Err bad_text
  end.

Definition cache_read {A} (name : string) (keys : list string) (f : db -> result cache_error A) : reading system A := fun y =>
  let* _ := statement (CacheRef name) keys in called (f (db_of y (CacheRef name))).

(** A call of the store, unless the statement fails. *)
Definition guarded {A} (name : string) (keys : list string) (f : calling system A) : calling system A := fun y =>
  match statement (CacheRef name) keys with
  | Err err => (Err err, y)
  | Ok _ => f y
  end.

(** [metaRef] *)
Definition object_meta (ref : ObjectRef) (body : metadataBody) : reading system Meta := fun y =>
  let* _ := statement (or_ns ref) [or_key ref] in
  if bool_decide (ref_kind (or_ns ref) = Bucket) && ev_missing e (ref_name (or_ns ref)) then Err no_bucket
  else
    match queryMetadata now (or_key ref) body 0 (db_of y (or_ns ref)) with
    | None => Err NotFound
    | Some (Err _) => Err (failure (StoreError Unreadable))
    | Some (Ok m) => Ok m
    end.

(** [Store.Get] *)
Definition object_read (ref : ObjectRef) (rng : ByteRange) : reading system bytes := fun y =>
  let* m := object_meta ref metadataDecoded y in
  if negb (m_Size m <=? max_value) then Err (failure (StoreError Unreadable))
  else
    match read_range (db_chunks (db_of y (or_ns ref))) (ev_workers e) m rng with
    | Some b => Ok b
    | None => Err (failure (StoreError Unreadable))
    end.

(** [Store.List], of the keys only. *)
Definition object_list (ref : Ref) (prefix prefixEnd after : string) (limit : Z) : reading system (list string) := fun y =>
  let* _ := statement ref [prefix; prefixEnd; after] in
  Ok (page_of prefix prefixEnd after limit (map_to_list (filter (fun kv : string * object => shows now (ob_attrs kv.2) = true) (db_objects (db_of y ref)))).*1).

Definition resp_context (name : string) : context := mkContext now (ev_over_quota e) (ev_store e) (CacheRef name).

(** An operation on a cache. *)
Definition cache_call {A} (name : string) (keys : list string) (o : Operation) (f : reply -> option A) : calling system A :=
  guarded name keys (fun y =>
    let '(r, y) := exec (resp_context name) o y in
    (match r with
     | Err err => Err (failure (StoreError err))
     | Ok x => match f x with Some v => Ok v | None => Err unexpected end
     end, y)).

(** An instant of the process as the database has it. *)
Definition with_time {A} (t : option Z) (f : option Z -> calling system A) : calling system A := fun y =>
  match t with
  | None => f None y
  | Some t => match ev_encode e t with Some t => f (Some t) y | None => (Err out_of_range, y) end
  end.

(** [writeCacheValue] *)
Definition write_value (name key : string) (val : bytes) (pre : Precondition) (expiresAt : option Z) (keepTTL : bool) : calling system bool :=
  guarded name [key] (fun y =>
    let '(r, y) := exec (resp_context name) (value_op (ev_proc e) (ev_block e) key val pre "" expiresAt keepTTL) y in
    (called (write_result r), y)).

(** An update that nobody disturbs ends with its first attempt. *)
Definition one_attempt : attempt := mkAttempt [] now (ev_workers e) [] now (ev_over_quota e) (ev_store e) (ev_proc e) (ev_block e).

Definition update_value (name key : string) (m : cacheMutation) : calling system cacheMutationResult :=
  guarded name [key] (fun y =>
    let '(r, y) := mutate name key m [one_attempt] y in
    (called (default (Err ErrCacheContention) r), y)).

Definition then_ok {A B} (f : A -> result call_error B) (r : result call_error A * system) : result call_error B * system :=
  ((let* x := r.1 in f x), r.2).

Definition GetSet (name key : string) (val : bytes) (opts : CacheSetOptions) : calling system (option bytes * bool * bool) :=
  with_time (co_ExpiresAt opts) (fun t y =>
    then_ok (fun m => Ok (mr_previous m, mr_existed m, mr_wrote m))
      (update_value name key (set_mutation val (co_Precondition opts) t (co_KeepTTL opts)) y)).

Definition cache_Set (name key : string) (val : bytes) (opts : CacheSetOptions) : calling system (option bytes * bool * bool) :=
  if co_ReturnOld opts then GetSet name key val opts
  else with_time (co_ExpiresAt opts) (fun t y =>
    then_ok (fun wrote => Ok (None, false, wrote)) (write_value name key val (co_Precondition opts) t (co_KeepTTL opts) y)).

(** [MSet] when a value does not fit a row: one write after the other. *)
Fixpoint mset_each (name : string) (kvs : list (string * bytes)) : calling system unit := fun y =>
  match kvs with
  | [] => (Ok tt, y)
  | (key, v) :: rest =>
      match write_value name key v unconditional None false y with
      | (Ok _, y) => mset_each name rest y
      | (Err err, y) => (Err err, y)
      end
  end.

Definition cache_MSet (name : string) (kvs : list (string * bytes)) : calling system unit :=
  match kvs with
  | [] => fun y => (Ok tt, y)
  | _ =>
      if existsb (fun kv => InlineMax Cache <? zlen kv.2) kvs then mset_each name kvs
      else cache_call name kvs.*1 (CacheOp (MSetOp kvs)) (fun _ => Some tt)
  end.

Definition SetRange (name key : string) (off : Z) (val : bytes) : calling system Z := fun y =>
  match SetRange_mutation off val with
  | Err err => (Err (failure err), y)
  | Ok m => then_ok (fun r => Ok (mr_size r)) (update_value name key m y)
  end.

Definition IncrBy (name key : string) (delta : Z) : calling system Z := fun y =>
  then_ok (fun r => called (incr_value delta (mr_previous r))) (update_value name key (incr_mutation delta) y).

(** [CacheFlushAll]: nothing when any cache has pending uploads. *)
Fixpoint flush_each (names : list string) : calling system unit := fun y =>
  match names with
  | [] => (Ok tt, y)
  | name :: rest =>
      match cache_call name [] (CacheOp FlushOp) (fun _ => Some tt) y with
      | (Ok _, y) => flush_each rest y
      | (Err err, y) => (Err err, y)
      end
  end.

Definition CacheFlushAll : calling system unit := fun y =>
  if forallb (fun name => bool_decide (db_pending (db_of y (CacheRef name)) = ∅)) (ev_caches e) then flush_each (ev_caches e) y
  else (Err (failure (StoreError ErrPendingUploads)), y).

#[global] Instance table_ops : StoreOps system := {
  st_Get name key := cache_read name [key] (fun d => Get now d (ev_workers e) key);
  st_MGet name keys := match keys with [] => fun _ => Ok [] | _ => cache_read name keys (fun d => MGet now d (ev_workers e) keys) end;
  st_Exists name keys := match keys with [] => fun _ => Ok 0 | _ => cache_read name keys (fun d => Ok (Exists now d keys)) end;
  st_TTL name key := cache_read name [key] (fun d => Ok (TTL now d key));
  st_DBSize name := cache_read name [] (fun d => Ok (DBSize now d));
  st_StatNamespace name _ := ev_stat e name;
  st_MetaHeader ref y := let* m := object_meta ref metadataHeader y in Ok (m_Size m);
  st_Read := object_read;
  st_List := object_list;
  st_Set := cache_Set;
  st_GetSet := GetSet;
  st_GetDel name key := cache_call name [key] (CacheOp (GetDelOp (ev_workers e) key)) (fun r => match r with Value v => Some v | _ => None end);
  st_MSet := cache_MSet;
  st_Append name key suffix y := then_ok (fun r => Ok (mr_size r)) (update_value name key (append_mutation suffix) y);
  st_SetRange := SetRange;
  st_IncrBy := IncrBy;
  st_Del name keys := match keys with [] => fun y => (Ok 0, y) | _ => cache_call name keys (DeleteOp keys) (fun r => match r with Count n => Some n | _ => None end) end;
  st_Expire name key t opts := with_time t (fun t => cache_call name [key] (CacheOp (ExpireOp key t opts)) (fun r => match r with Flag b => Some b | _ => None end));
  st_Flush name := cache_call name [] (CacheOp FlushOp) (fun _ => Some tt);
  st_FlushAll := CacheFlushAll
}.
End Tables.

(** ** Maps *)

Abbreviation keyspace := (gmap string (bytes * option Z)).

(** The maps of the namespaces: what is there and has not expired. *)
Abbreviation Keyspaces := (Ref -> keyspace).

Section Maps.
Context (e : resp_env).

Let now := ev_now e.

Definition set_map (name : string) (ks : keyspace) (K : Keyspaces) : Keyspaces := fun r => if decide (r = CacheRef name) then ks else K r.

(** A value that has expired is not there. *)
Definition put_value (key : string) (v : bytes) (t : option Z) (ks : keyspace) : keyspace :=
  if not_expired now t then <[key := (v, t)]> ks else delete key ks.

(** What a write that keeps the time to live makes the expiry. *)
Definition kept_expiry (keepTTL : bool) (old : option (bytes * option Z)) (t : option Z) : option Z :=
  match old with Some (_, t0) => if keepTTL then t0 else t | None => t end.

Definition Allows (pre : Precondition) (old : option (bytes * option Z)) : bool := Precondition_Allows pre (bool_decide (is_Some old)) "".

(** The keys of a map from a position on. *)
Definition map_page (ks : keyspace) (prefix prefixEnd after : string) (limit : Z) : list string :=
  page_of prefix prefixEnd after limit (map_to_list ks).*1.

Definition map_ttl (old : option (bytes * option Z)) : Z * bool * bool :=
  match old with
  | None => (0, false, false)
  | Some (_, None) => (0, false, true)
  | Some (_, Some t) => let v := ttl_duration (t - now) in if v <? 0 then (0, false, false) else (v, true, true)
  end.

Definition map_time {A} (t : option Z) (f : option Z -> calling Keyspaces A) : calling Keyspaces A := fun K =>
  match t with
  | None => f None K
  | Some t => match ev_encode e t with Some t => f (Some t) K | None => (Err out_of_range, K) end
  end.

(** A key of a cache gets what an update makes of its value. *)
Definition map_update (name key : string) (keepTTL : bool) (f : option bytes -> result cache_error bytes) : calling Keyspaces Z := fun K =>
  let old := K (CacheRef name) !! key in
  match f (fst <$> old) with
  | Err err => (Err (failure e err), K)
  | Ok v => (Ok (zlen v), set_map name (put_value key v (kept_expiry keepTTL old None) (K (CacheRef name))) K)
  end.

Definition map_set (name key : string) (val : bytes) (opts : CacheSetOptions) (t : option Z) (K : Keyspaces) : bool * Keyspaces :=
  let old := K (CacheRef name) !! key in
  if Allows (co_Precondition opts) old
  then (true, set_map name (put_value key val (kept_expiry (co_KeepTTL opts) old t) (K (CacheRef name))) K)
  else (false, K).

Definition map_getset (name key : string) (val : bytes) (opts : CacheSetOptions) : calling Keyspaces (option bytes * bool * bool) :=
  map_time (co_ExpiresAt opts) (fun t K =>
    let old := K (CacheRef name) !! key in
    let '(wrote, K) := map_set name key val opts t K in
    (Ok (fst <$> old, bool_decide (is_Some old), wrote), K)).

Definition map_mset (name : string) (kvs : list (string * bytes)) (K : Keyspaces) : Keyspaces :=
  set_map name (fold_left (fun ks kv => <[kv.1 := (kv.2, None)]> ks) kvs (K (CacheRef name))) K.

Definition map_expire (name key : string) (t : option Z) (opts : list string) : calling Keyspaces bool :=
  map_time t (fun t K =>
    match K (CacheRef name) !! key with
    | Some (v, t0) => if expire_allowed t opts t0 then (Ok true, set_map name (put_value key v t (K (CacheRef name))) K) else (Ok false, K)
    | None => (Ok false, K)
    end).

(** The bytes of a range, as [Resolve] reads it. *)
Definition map_read (v : bytes) (rng : ByteRange) : result call_error bytes :=
  match Resolve rng (zlen v) with
  | Err _ => Err (failure e (StoreError Unreadable))
  | Ok span => Ok (slice v (sp_Start span) (sp_End span + 1))
  end.

Definition found {A} (o : option A) : result call_error A := match o with Some x => Ok x | None => Err NotFound end.

#[global] Instance map_ops : StoreOps Keyspaces := {
  st_Get name key K := Ok (fst <$> K (CacheRef name) !! key);
  st_MGet name keys K := Ok ((fun key => fst <$> K (CacheRef name) !! key) <$> keys);
  st_Exists name keys K := Ok (zlen (List.filter (fun key => bool_decide (is_Some (K (CacheRef name) !! key))) keys));
  st_TTL name key K := Ok (map_ttl (K (CacheRef name) !! key));
  st_DBSize name K := Ok (zlen (map_to_list (K (CacheRef name))));
  st_StatNamespace name _ := ev_stat e name;
  st_MetaHeader ref K := let* v := found (K (or_ns ref) !! or_key ref) in Ok (zlen v.1);
  st_Read ref rng K := let* v := found (K (or_ns ref) !! or_key ref) in map_read v.1 rng;
  st_List ref prefix prefixEnd after limit K := Ok (map_page (K ref) prefix prefixEnd after limit);
  st_Set name key val opts :=
    if co_ReturnOld opts then map_getset name key val opts
    else map_time (co_ExpiresAt opts) (fun t K => let '(wrote, K) := map_set name key val opts t K in (Ok (None, false, wrote), K));
  st_GetSet := map_getset;
  st_GetDel name key K := (Ok (fst <$> K (CacheRef name) !! key), set_map name (delete key (K (CacheRef name))) K);
  st_MSet name kvs K := (Ok tt, map_mset name kvs K);
  st_Append name key suffix := map_update name key true (fun v => Ok (default [] v ++ suffix));
  st_SetRange name key off val := map_update name key true (fun v => Ok (set_range off val (default [] v)));
  st_IncrBy name key delta K :=
    let n := incr_value delta (fst <$> K (CacheRef name) !! key) in
    let '(r, K) := map_update name key true (fun v => let* n := incr_value delta v in Ok (format_bytes n)) K in
    (let* _ := r in called e n, K);
  st_Del name keys K :=
    (Ok (zlen (map_to_list (filter (fun kv : string * (bytes * option Z) => kv.1 ∈ keys) (K (CacheRef name))))),
     set_map name (filter (fun kv : string * (bytes * option Z) => kv.1 ∉ keys) (K (CacheRef name))) K);
  st_Expire := map_expire;
  st_Flush name K := (Ok tt, set_map name ∅ K);
  st_FlushAll K := (Ok tt, fun r => if bool_decide (r ∈ CacheRef <$> ev_caches e) then ∅ else K r)
}.
End Maps.

(** ** A sample *)

Definition sample_env : resp_env :=
  mkEnv 10 (fun _ => false) 1 0 [] 1 (fun b => bool_decide (b = "nowhere")) ["cache"] (fun _ => (0, 0, 0)) (fun t => Some (t / 1000)) (fun _ => "store error").

Definition sample_server : Server := mkServer false "dev" 10000 100.
