(* ===== verification/RespRefine.v ===== *)
(** * The tables behind the RESP server are maps

    The operations of the tables the commands use do to the entities that have
    not expired what the operations of maps do ([Simulates]), as long as the
    caches hold no tombstones; and batches are their elements ([Batches]). *)

From stdpp Require Import gmap sorting.
From S2P Require Import Prelude GoStrings Ns Ranges Utf8 Precond Blocks Pieces Reader Ids Tables Objects CacheTables ObjectSpec CacheSpec Machine ObjectRep ObjectRefine ObjectRead CacheRefine ObjectComplete ObjectStore LateRead Names CacheValues Resp RespSim RespPipeline RespStore.

(** ** Maps of a world *)

Definition mapped (now : Z) (en : entity) : option (bytes * option Z) :=
  if not_expired now (at_expires_at (en_attrs en)) then Some (en_body en, at_expires_at (en_attrs en)) else None.

Definition keyspace_of (now : Z) (a : spec) : keyspace := omap (mapped now) (s_objects a).

(** The caches hold no tombstones. *)
Definition clean (z : world) : Prop := forall name key en, s_objects (spec_of z (CacheRef name)) !! key = Some en -> not_deleted (en_attrs en) = true.

Definition client_kind (r : Ref) : Prop := ref_kind r = Cache \/ ref_kind r = Bucket.

(** The maps hold what a world does. *)
Definition depicts (e : resp_env) (K : Keyspaces) (z : world) : Prop :=
  clean z /\ forall r, client_kind r -> K r = keyspace_of (ev_now e) (spec_of z r).

Section Refine.
Context `{ZL : ZstdLaws} `{DL : DigestLaws} (e : resp_env).

Let now := ev_now e.

Definition stored (y : system) (K : Keyspaces) : Prop := exists z, rep y z /\ depicts e K z.

Lemma keyspace_lookup a key :
  keyspace_of now a !! key = (fun en => (en_body en, at_expires_at (en_attrs en))) <$> live_entity now key a.
Proof.
  unfold keyspace_of, live_entity. rewrite lookup_omap. destruct (s_objects a !! key) as [en|]; [| done]. cbn. unfold mapped. by destruct (not_expired _ _).
Qed.

Lemma clean_shown z name key : clean z -> shown now key (spec_of z (CacheRef name)) = live_entity now key (spec_of z (CacheRef name)).
Proof.
  intros Hc. unfold shown, attrs_where, live_entity, shows. destruct (s_objects _ !! key) as [en|] eqn:E; [| done]. cbn.
  by rewrite (Hc _ _ _ E), andb_true_r.
Qed.

Lemma cache_lookup K z name key : depicts e K z ->
  K (CacheRef name) !! key = (fun en => (en_body en, at_expires_at (en_attrs en))) <$> live_entity now key (spec_of z (CacheRef name)).
Proof. intros [_ Hk]. rewrite Hk by (by left). apply keyspace_lookup. Qed.

Lemma value_lookup K z name key : depicts e K z -> fst <$> K (CacheRef name) !! key = en_body <$> live_entity now key (spec_of z (CacheRef name)).
Proof. intros Hd. rewrite (cache_lookup K z name key Hd). by destruct (live_entity _ _ _). Qed.

(** ** Reads *)

Lemma agree_called {X} (r : result cache_error X) r' : (forall x, r = Ok x -> r' = Ok x) -> agree (called e r) r'.
Proof. intros Hr. destruct r as [x|err]; cbn; [by apply Hr |]. by destruct err. Qed.

Lemma agree_statement {X} r texts (k k' : result call_error X) : agree k k' -> agree (let* _ := statement r texts in k) k'.
Proof. intros Hk. unfold statement. destruct (nsSQLIdent _ _); [| done]. by destruct (forallb _ _). Qed.

Lemma agree_read {X} name keys (f : db -> result cache_error X) y r' :
  (forall x, f (db_of y (CacheRef name)) = Ok x -> r' = Ok x) -> agree (cache_read e name keys f y) r'.
Proof. intros Hf. apply agree_statement. by apply agree_called. Qed.

Lemma live_row_spec y z r key : rep y z ->
  option_Forall2 (fun o en => en_attrs en = ob_attrs o) (live_row now (db_of y r) key) (shown now key (spec_of z r)).
Proof.
  intros (given & _ & Hall). specialize (Hall r). unfold live_row, shown.
  pose proof (row_where_spec _ given [] _ _ key (fun o => shows now (ob_attrs o)) (shows now) Hall (fun o => eq_refl)) as Hw.
  inversion Hw as [o en (_ & _ & Hoe)|]; constructor. by rewrite (or_attrs _ _ _ _ _ _ Hoe).
Qed.

(** What a read of metadata and content gives. *)
Lemma meta_entity y z r key body m : rep y z -> queryMetadata now key body 0 (db_of y r) = Some (Ok m) ->
  exists o en, live_entity now key (spec_of z r) = Some en /\ db_objects (db_of y r) !! key = Some o /\ scanMetadata body 0 o = Ok m /\
    (exists given, object_rep (ref_kind r) given (db_chunks (db_of y r)) key o en) /\ m_Size m = zlen (en_body en).
Proof.
  intros (given & _ & Hall) Hq. specialize (Hall r). unfold queryMetadata in Hq. pose proof (sim_objects _ _ _ _ _ Hall key) as Hk.
  destruct (db_objects (db_of y r) !! key) as [o|] eqn:Eo; [| done]. destruct (s_objects (spec_of z r) !! key) as [en|] eqn:E; [| by inversion Hk].
  inversion Hk as [? ? Hoe|]; subst. destruct (not_expired now _) eqn:Hexp; [| done].
  injection Hq as Hq. exists o, en. unfold live_entity. rewrite E. cbn. rewrite (or_attrs _ _ _ _ _ _ Hoe), Hexp.
  split; [done |]. split; [done |]. split; [done |]. split; [eauto |].
  pose proof (or_size _ _ _ _ _ _ Hoe) as Hsize. revert Hq. unfold scanMetadata. destruct body, (ob_inline_data o); try (intros [= <-]; exact Hsize).
  destruct (decompressBlock _ _); [| done]. intros [= <-]. exact Hsize.
Qed.

(** The object of decoded metadata reads as its content. *)
Lemma decoded_reads y z r key m : rep y z -> queryMetadata now key metadataDecoded 0 (db_of y r) = Some (Ok m) -> m_Size m <= max_value ->
  exists en, live_entity now key (spec_of z r) = Some en /\ m_Size m = zlen (en_body en) /\ reads_as (db_chunks (db_of y r)) m (en_body en).
Proof.
  intros Hrep Hq Hle. destruct (meta_entity _ _ _ _ _ _ Hrep Hq) as (o & en & Hl & Ho & Em & (given & Hoe) & Hsz). exists en.
  split; [done |]. split; [done |]. destruct (object_reads _ _ _ _ _ _ 0 Hoe) as (m' & Em' & _ & _ & _ & Hr); [unfold max_value in Hle; lia |]. congruence.
Qed.

Lemma get_exact y z name key v : rep y z -> clean z -> Get now (db_of y (CacheRef name)) (ev_workers e) key = Ok v ->
  v = en_body <$> live_entity now key (spec_of z (CacheRef name)).
Proof.
  intros Hrep Hc Hg. pose proof Hrep as (given & _ & Hall). specialize (Hall (CacheRef name)). rewrite <- (clean_shown z name key Hc). revert Hg. unfold Get, live_row, shown.
  pose proof (row_where_spec _ given [] _ _ key (fun o => shows now (ob_attrs o)) (shows now) Hall (fun o => eq_refl)) as Hw.
  destruct (row_where key _ _) as [o|] eqn:Eo, (attrs_where key _ _) as [en|] eqn:Ea; inversion Hw as [? ? (Ho & He & Hoe)|]; subst; [| by intros [= <-]].
  destruct (ob_inline_data o) as [inl|] eqn:Hi.
  - pose proof Hoe as [_ Hsize _ Hst]. destruct (en_layout en); cbn in Hst.
    + rewrite Hst in Hi. injection Hi as <-. rewrite Hsize, decompress_compress. by intros [= <-].
    + destruct Hst as (f & E & _). by rewrite E in Hi.
    + destruct Hst as (f & ps & E & _). by rewrite E in Hi.
  - destruct (queryMetadata _ _ _ _ _) as [[m|]|] eqn:Eq; [| done |].
    + unfold read_meta. destruct (Z.leb_spec (m_Size m) max_value) as [Hle|]; [| done].
      destruct (decoded_reads _ _ _ _ _ Hrep Eq Hle) as (en' & Hl & Hsz & Hr). rewrite (reads_all _ _ _ _ Hr Hsz). intros [= <-].
      rewrite <- (clean_shown z name key Hc) in Hl. unfold shown in Hl. rewrite Ea in Hl. by injection Hl as ->.
    + exfalso. unfold attrs_where in Ea. rewrite He in Ea. cbn in Ea. destruct (shows now (en_attrs en)) eqn:Hsh; [| done].
      unfold queryMetadata in Eq. rewrite Ho in Eq. rewrite (or_attrs _ _ _ _ _ _ Hoe) in Hsh. apply andb_true_iff in Hsh as [Hexp _]. by rewrite Hexp in Eq.
Qed.

Lemma stored_Get name key y K : stored y K -> agree (st_Get (StoreOps:=table_ops e) name key y) (st_Get (StoreOps:=map_ops e) name key K).
Proof.
  intros (z & Hrep & Hd). apply agree_read. intros v Hg. apply (get_exact y z) in Hg; [| done | apply Hd]. cbn. by rewrite Hg, (value_lookup K z name key Hd).
Qed.

Lemma stored_MGet name keys y K : stored y K -> agree (st_MGet (StoreOps:=table_ops e) name keys y) (st_MGet (StoreOps:=map_ops e) name keys K).
Proof.
  intros (z & Hrep & Hd). assert (forall v, MGet now (db_of y (CacheRef name)) (ev_workers e) keys = Ok v -> v = (fun key => fst <$> K (CacheRef name) !! key) <$> keys) as Hm.
  { induction keys as [|key keys IH]; intros v; cbn [MGet]; [by intros [= <-] |]. destruct (Get _ _ _ key) as [x|] eqn:Eg; [| done]. cbn.
    destruct (MGet _ _ _ keys) as [vs|]; [| done]. intros [= <-]. cbn. rewrite (IH vs eq_refl). f_equal.
    rewrite (value_lookup K z name key Hd). apply (get_exact y); [done | apply Hd | done]. }
  destruct keys as [|key keys]; [done |]. apply agree_read. intros v ->%Hm. done.
Qed.

Lemma stored_Exists name keys y K : stored y K -> agree (st_Exists (StoreOps:=table_ops e) name keys y) (st_Exists (StoreOps:=map_ops e) name keys K).
Proof.
  intros (z & Hrep & Hd). destruct keys as [|key keys]; [done |]. apply agree_read. intros n [= <-]. cbn [st_Exists map_ops]. f_equal. unfold Exists. f_equal.
  generalize (key :: keys). clear key keys. intros keys. induction keys as [|key keys IH]; [done |]. cbn [List.filter]. rewrite IH.
  assert (bool_decide (is_Some (K (CacheRef name) !! key)) = bool_decide (is_Some (live_row now (db_of y (CacheRef name)) key))) as ->; [| done].
  rewrite (cache_lookup K z name key Hd), <- (clean_shown z name key (proj1 Hd)).
  by destruct (live_row_spec y z (CacheRef name) key Hrep).
Qed.

Lemma stored_TTL name key y K : stored y K -> agree (st_TTL (StoreOps:=table_ops e) name key y) (st_TTL (StoreOps:=map_ops e) name key K).
Proof.
  intros (z & Hrep & Hd). apply agree_read. intros n [= <-]. cbn [st_TTL map_ops]. unfold TTL. fold now.
  rewrite (cache_lookup K z name key Hd), <- (clean_shown z name key (proj1 Hd)).
  destruct (live_row_spec y z (CacheRef name) key Hrep) as [o en Ha|]; [| done]. cbn. rewrite <- Ha. by destruct (at_expires_at (en_attrs en)).
Qed.

(** Maps with the same keys. *)
Lemma keys_perm {X Y} (m : gmap string X) (m' : gmap string Y) : (forall key, is_Some (m !! key) <-> is_Some (m' !! key)) -> (map_to_list m).*1 ≡ₚ (map_to_list m').*1.
Proof.
  intros Hm. apply NoDup_Permutation; [apply NoDup_fst_map_to_list.. |]. intros key.
  assert (forall A (m : gmap string A), key ∈ (map_to_list m).*1 <-> is_Some (m !! key)) as Hin; [| by rewrite !Hin].
  clear. intros A m. rewrite list_elem_of_fmap. split.
  - intros ([key' x] & -> & Hx%elem_of_map_to_list). by exists x.
  - intros [x Hx]. exists (key, x). split; [done |]. by apply elem_of_map_to_list.
Qed.

Lemma keys_count {X Y} (m : gmap string X) (m' : gmap string Y) : (forall key, is_Some (m !! key) <-> is_Some (m' !! key)) -> zlen (map_to_list m) = zlen (map_to_list m').
Proof. intros Hm%keys_perm%Permutation_length. rewrite !length_fmap in Hm. unfold zlen. by rewrite Hm. Qed.

(** The keys of the rows that show are those of the map. *)
Lemma stored_keys y z K name : rep y z -> depicts e K z ->
  (map_to_list (filter (fun kv : string * object => shows now (ob_attrs kv.2) = true) (db_objects (db_of y (CacheRef name))))).*1 ≡ₚ
  (map_to_list (K (CacheRef name))).*1.
Proof.
  intros Hrep Hd. apply keys_perm. intros key.
  rewrite (cache_lookup K z name key Hd), <- (clean_shown z name key (proj1 Hd)), fmap_is_Some.
  transitivity (is_Some (live_row now (db_of y (CacheRef name)) key)); [| by destruct (live_row_spec y z (CacheRef name) key Hrep)].
  unfold live_row, row_where. rewrite map_lookup_filter. destruct (db_objects _ !! key) as [o|]; cbn; [| done]. case_guard as Hg; cbn in *.
  - by rewrite Hg.
  - destruct (shows now (ob_attrs o)); [done |]. done.
Qed.

Lemma stored_DBSize name y K : stored y K -> agree (st_DBSize (StoreOps:=table_ops e) name y) (st_DBSize (StoreOps:=map_ops e) name K).
Proof.
  intros (z & Hrep & Hd). apply agree_read. intros n [= <-]. cbn [st_DBSize map_ops]. f_equal. unfold DBSize. fold now.
  pose proof (Permutation_length (stored_keys y z K name Hrep Hd)) as Hp. rewrite !length_fmap in Hp. unfold zlen. rewrite Hp. reflexivity.
Qed.

Lemma stored_List name prefix pend after limit y K : stored y K ->
  agree (st_List (StoreOps:=table_ops e) (CacheRef name) prefix pend after limit y) (st_List (StoreOps:=map_ops e) (CacheRef name) prefix pend after limit K).
Proof.
  intros (z & Hrep & Hd). apply agree_statement. cbn. f_equal. unfold map_page. fold now. symmetry. apply page_perm. by apply (stored_keys y z).
Qed.

Lemma client_lookup K z r key : depicts e K z -> client_kind r ->
  K r !! key = (fun en => (en_body en, at_expires_at (en_attrs en))) <$> live_entity now key (spec_of z r).
Proof. intros [_ Hk] Hr. rewrite Hk by done. apply keyspace_lookup. Qed.

Lemma query_none y z r key body : rep y z -> queryMetadata now key body 0 (db_of y r) = None -> live_entity now key (spec_of z r) = None.
Proof.
  intros (given & _ & Hall) Hq. specialize (Hall r). unfold queryMetadata, live_entity in *. pose proof (sim_objects _ _ _ _ _ Hall key) as Hk.
  destruct (db_objects (db_of y r) !! key) as [o|], (s_objects (spec_of z r) !! key) as [en|]; inversion Hk as [? ? Hoe|]; subst; cbn; [| done].
  rewrite (or_attrs _ _ _ _ _ _ Hoe). by destruct (not_expired _ _).
Qed.

Lemma client_target kind name key : kind = Cache \/ kind = Bucket -> client_kind (or_ns (targetRef kind name key)).
Proof. done. Qed.

(** The metadata of an object, by its entity. *)
Lemma stored_meta kind name key body y K z : rep y z -> depicts e K z -> kind = Cache \/ kind = Bucket ->
  match object_meta e (targetRef kind name key) body y with
  | Ok m => queryMetadata now key body 0 (db_of y (mkRef kind name)) = Some (Ok m) /\
      exists en, live_entity now key (spec_of z (mkRef kind name)) = Some en /\ m_Size m = zlen (en_body en) /\
      K (mkRef kind name) !! key = Some (en_body en, at_expires_at (en_attrs en))
  | Err NotFound => K (mkRef kind name) !! key = None
  | Err _ => True
  end.
Proof.
  intros Hrep Hd Hk. unfold object_meta, statement. destruct (nsSQLIdent _ _); [| done]. destruct (forallb _ _); [| done]. cbn [rbind]. destruct (_ && _); [done |].
  cbn [or_ns or_key targetRef]. fold now. pose proof (client_lookup K z (mkRef kind name) key Hd Hk) as Hl.
  destruct (queryMetadata _ _ _ _ _) as [[m|]|] eqn:Eq; [| done |].
  - split; [done |]. destruct (meta_entity _ _ _ _ _ _ Hrep Eq) as (o & en & Hle & _ & _ & _ & Hsz). exists en. by rewrite Hl, Hle.
  - rewrite Hl. by rewrite (query_none _ _ _ _ _ Hrep Eq).
Qed.

Lemma stored_MetaHeader kind name key y K : kind = Cache \/ kind = Bucket -> stored y K ->
  agree (st_MetaHeader (StoreOps:=table_ops e) (targetRef kind name key) y) (st_MetaHeader (StoreOps:=map_ops e) (targetRef kind name key) K).
Proof.
  intros Hk (z & Hrep & Hd). cbn [st_MetaHeader table_ops map_ops]. pose proof (stored_meta kind name key metadataHeader y K z Hrep Hd Hk) as Hm.
  destruct (object_meta _ _ _ _) as [m|[]]; cbn [rbind agree or_ns or_key targetRef]; [| by rewrite Hm | done..].
  destruct Hm as (_ & en & _ & Hsz & ->). cbn. by rewrite Hsz.
Qed.

Lemma stored_Read kind name key rng y K : kind = Cache \/ kind = Bucket -> stored y K ->
  agree (st_Read (StoreOps:=table_ops e) (targetRef kind name key) rng y) (st_Read (StoreOps:=map_ops e) (targetRef kind name key) rng K).
Proof.
  intros Hk (z & Hrep & Hd). cbn [st_Read table_ops map_ops]. unfold object_read. pose proof (stored_meta kind name key metadataDecoded y K z Hrep Hd Hk) as Hm.
  destruct (object_meta _ _ _ _) as [m|[]]; cbn [rbind agree or_ns or_key targetRef]; [| by rewrite Hm | done..].
  destruct Hm as (Hq & en & Hl & Hsz & ->). destruct (Z.leb_spec (m_Size m) max_value) as [Hle|]; cbn [negb]; [| done].
  destruct (decoded_reads _ _ _ _ _ Hrep Hq Hle) as (en' & Hl' & _ & Hr). rewrite Hl in Hl'. injection Hl' as <-.
  rewrite (range_read _ _ _ _ _ Hr Hsz). cbn [found rbind fst]. unfold map_read, range_of. by destruct (Resolve _ _).
Qed.

(** ** Writes *)

(** What happens to the entities of a world when one cache changes. *)
Record changed (name : string) (objects : gmap string entity) (z z' : world) : Prop := {
  ch_here : s_objects (spec_of z' (CacheRef name)) = objects;
  ch_else : forall r, client_kind r -> r <> CacheRef name -> s_objects (spec_of z' r) = s_objects (spec_of z r)
}.

Lemma depicts_changed K z z' name objects :
  depicts e K z -> changed name objects z z' -> (forall key en, objects !! key = Some en -> not_deleted (en_attrs en) = true) ->
  depicts e (set_map name (omap (mapped now) objects) K) z'.
Proof.
  intros [Hc Hk] [Hh He] Hn. split.
  - intros name' key en. destruct (decide (name' = name)) as [->|Hne]; [rewrite Hh; by apply Hn |].
    rewrite He; [apply Hc | by left | by intros [= ?]].
  - intros r Hr. unfold set_map, keyspace_of. destruct (decide (r = CacheRef name)) as [->|Hne]; [by rewrite Hh |].
    rewrite (He r Hr Hne). by apply Hk.
Qed.

Lemma depicts_ext K K' z : (forall r, client_kind r -> K r = K' r) -> depicts e K z -> depicts e K' z.
Proof. intros HK [Hc Hk]. split; [done |]. intros r Hr. rewrite <- HK by done. by apply Hk. Qed.

Lemma set_map_ext name ks ks' K z : ks = ks' -> depicts e (set_map name ks K) z -> depicts e (set_map name ks' K) z.
Proof. by intros ->. Qed.

Lemma objects_put z ns a r : r <> ns -> s_objects (spec_of (put_spec z ns a) r) = s_objects (spec_of z r).
Proof. intros Hne. rewrite spec_of_put, decide_False by congruence. by destruct (decide _). Qed.

(** The namespace of an operation, and the other one of its name, which clients
    do not see. *)
Lemma exec_changed c name b o z x z' :
  cx_ns c = CacheRef name -> spec_exec c b o z = (Ok x, z') ->
  exists a, spec_tx c b (spec_of z) o (spec_of z (CacheRef name)) = Ok (x, a) /\ changed name (s_objects a) z z'.
Proof.
  intros Hns. unfold spec_exec. rewrite Hns. unfold commit at 1. destruct (spec_tx _ _ _ _ _) as [[x1 a]|] eqn:E; [| done].
  intros [= <- <-]. exists a. split; [done |]. change (sibling (CacheRef name)) with (WriteBackRef name). split.
  - rewrite objects_put, spec_of_put, decide_True by done. done.
  - intros r Hr Hne. rewrite !objects_put; [done | done |]. intros ->. by destruct Hr.
Qed.

(** A call that fails changes nothing. *)
Lemma ran_guarded {X} name keys (f : calling system X) P y K t' :
  P K -> stored y K -> ran stored P (f y) t' -> ran stored P (guarded name keys f y) t'.
Proof.
  intros HP Hst Hr. unfold guarded, statement. destruct (nsSQLIdent _ _); [| by exists K]. by destruct (forallb _ _); [| exists K].
Qed.

Lemma failed_stored c o y K err y' : stored y K -> exec c o y = (Err err, y') -> stored y' K.
Proof. intros (z & Hrep & Hd) Hx. exists z. split; [| done]. by eapply failed_rep. Qed.

(** An operation on a cache, by what it does to the entities. *)
Lemma ran_call {X} name keys o (f : reply -> option X) y K (v : spec -> X) ks :
  stored y K ->
  (forall z b x a, depicts e K z -> spec_tx (resp_context e name) b (spec_of z) o (spec_of z (CacheRef name)) = Ok (x, a) ->
    f x = Some (v (spec_of z (CacheRef name))) /\ (forall key en, s_objects a !! key = Some en -> not_deleted (en_attrs en) = true) /\ omap (mapped now) (s_objects a) = ks) ->
  forall v0, (forall z, depicts e K z -> v (spec_of z (CacheRef name)) = v0) ->
  ran stored (eq K) (cache_call e name keys o f y) (Ok v0, set_map name ks K).
Proof.
  intros Hst Ho v0 Hv. apply (ran_guarded _ _ _ _ y K); [done | done |]. destruct (exec _ o y) as [[x|err] y'] eqn:Ex; [| exists K; split; [done |]; by eapply failed_stored].
  destruct Hst as (z & Hrep & Hd). destruct (done_rep _ _ _ _ _ _ Hrep Ex) as (b & z' & Hs & Hrep').
  apply (exec_changed _ name) in Hs as (a & Htx & Hch); [| done]. destruct (Ho z b x a Hd Htx) as (-> & Hn & <-).
  rewrite (Hv z Hd). eexists. split; [done |]. exists z'. split; [done |]. by apply (depicts_changed K z z' name (s_objects a)).
Qed.

Lemma alter_insert_some {X} (f : X -> X) (m : gmap string X) key x : m !! key = Some x -> alter f key m = <[key := f x]> m.
Proof.
  intros Hk. apply map_eq. intros key'. destruct (decide (key' = key)) as [->|Hne]; [by rewrite lookup_alter_eq, lookup_insert_eq, Hk | by rewrite lookup_alter_ne, lookup_insert_ne].
Qed.

Lemma omap_filter (m : gmap string entity) (keys : list string) :
  omap (mapped now) (filter (fun kv : string * entity => kv.1 ∉ keys) m) = filter (fun kv : string * (bytes * option Z) => kv.1 ∉ keys) (omap (mapped now) m).
Proof.
  apply map_eq. intros key. rewrite lookup_omap, !map_lookup_filter, lookup_omap. destruct (m !! key) as [en|]; cbn; [| done].
  destruct (mapped now en) eqn:Em; cbn; repeat case_guard; cbn; rewrite ?Em; try done; by exfalso.
Qed.

Lemma filter_clean z name (keys : list string) key en : clean z -> filter (fun kv : string * entity => kv.1 ∉ keys) (s_objects (spec_of z (CacheRef name))) !! key = Some en ->
  not_deleted (en_attrs en) = true.
Proof. intros Hc [Hk _]%map_lookup_filter_Some. by eapply Hc. Qed.

Lemma delete_filter {X} (m : gmap string X) key : filter (fun kv : string * X => kv.1 ∉ [key]) m = delete key m.
Proof.
  apply map_eq. intros key'. rewrite map_lookup_filter. destruct (decide (key' = key)) as [->|Hne].
  - rewrite lookup_delete_eq. destruct (m !! key); cbn; [| done]. rewrite option_guard_False; [done |]. cbn. set_solver.
  - rewrite lookup_delete_ne by done. destruct (m !! key'); cbn; [| done]. rewrite option_guard_True; [done |]. cbn. set_solver.
Qed.

Lemma stored_GetDel name key y K : stored y K ->
  ran stored (eq K) (st_GetDel (StoreOps:=table_ops e) name key y) (st_GetDel (StoreOps:=map_ops e) name key K).
Proof.
  intros Hst. cbn [st_GetDel table_ops map_ops].
  apply (ran_call name [key] _ _ y K (fun a => en_body <$> live_entity now key a)); [done | | intros z Hd; by rewrite (value_lookup K z name key Hd)].
  intros z b x a Hd. cbn [spec_tx cache_spec]. unfold reply_of. intros (v & a1 & Hg & Hx)%bind_Ok. injection Hx as <- <-. revert Hg. unfold spec_get_del.
  unfold tables. unfold mbind at 1, txn_bind at 1. set (a0 := spec_of z (CacheRef name)). pose proof (proj1 Hd name key) as Hcl. fold a0 in Hcl.
  assert (K (CacheRef name) = omap (mapped now) (s_objects a0)) as -> by (apply (proj2 Hd); by left).
  unfold attrs_where, live_entity. destruct (s_objects a0 !! key) as [en|] eqn:E; cbn [mbind option_bind].
  - rewrite (Hcl en eq_refl). intros (w & a2 & Hw & H)%bind_Ok. apply bind_Ok in H as (u & a3 & Hu & H). injection Hu as _ <-. injection H as <- <-.
    assert (w = (if not_expired now (at_expires_at (en_attrs en)) then Some (en_body en) else None) /\ a2 = a0) as [-> ->].
    { cbn [resp_context cx_now] in Hw. fold now in Hw. destruct (not_expired now _); [apply require_Ok in Hw as [_ Hw] |]; by injection Hw as <- <-. }
    split; [by destruct (not_expired now _) |]. split; [intros k' en'; by apply (filter_clean z name [key]); apply Hd |].
    cbn [spec_delete sset_objects s_objects]. by rewrite omap_filter, delete_filter.
  - intros [= <- <-]. split; [done |]. split; [apply (proj1 Hd name) |]. symmetry. apply delete_id. by rewrite lookup_omap, E.
Qed.

Lemma live_counted a keys : live_count now keys (spec_view a) = zlen (map_to_list (filter (fun kv : string * (bytes * option Z) => kv.1 ∈ keys) (omap (mapped now) (s_objects a)))).
Proof.
  unfold live_count. apply keys_count. intros key. rewrite !map_lookup_filter, lookup_omap. unfold spec_view. rewrite lookup_fmap.
  destruct (s_objects a !! key) as [en|]; cbn; [| done]. unfold mapped. destruct (not_expired now _) eqn:Hn; cbn; repeat case_guard; cbn in *; naive_solver.
Qed.

Lemma stored_Del name keys y K : stored y K ->
  ran stored (eq K) (st_Del (StoreOps:=table_ops e) name keys y) (st_Del (StoreOps:=map_ops e) name keys K).
Proof.
  intros Hst. cbn [st_Del table_ops map_ops]. destruct keys as [|k0 keys'] eqn:Ek.
  - eexists. split; [f_equal; f_equal; etrans; [apply (keys_count _ (∅ : gmap string Z)) | by rewrite map_to_list_empty] |].
    + intros key. rewrite map_lookup_filter, lookup_empty. destruct (K (CacheRef name) !! key); cbn; [| done]. case_guard as Hg; [set_solver | cbn; split; by intros []].
    + destruct Hst as (z & Hrep & Hd). exists z. split; [done |]. eapply depicts_ext; [| exact Hd]. intros r _. unfold set_map. destruct (decide _) as [->|]; [| done].
      symmetry. apply map_filter_id. intros key x _. cbn. set_solver.
  - rewrite <- Ek. apply (ran_call name keys _ _ y K (fun a => live_count now keys (spec_view a))); [done | |].
    + intros z b x a Hd. cbn [spec_tx]. unfold reply_of. intros (v & a1 & Hg & Hx)%bind_Ok. injection Hx as <- <-. unfold spec_delete_many in Hg.
      rewrite Ek in Hg. rewrite <- Ek in Hg. unfold tables in Hg. unfold mbind at 1, txn_bind at 1 in Hg.
      apply bind_Ok in Hg as (u & a3 & Hu & H). injection Hu as _ <-. injection H as <- <-. split; [done |].
      split; [intros k' en'; by apply (filter_clean z name keys); apply Hd |].
      cbn [spec_delete sset_objects s_objects]. rewrite omap_filter. f_equal. symmetry. apply (proj2 Hd). by left.
    + intros z Hd. rewrite live_counted. do 3 f_equal. symmetry. apply (proj2 Hd). by left.
Qed.

Lemma stored_Flush name y K : stored y K -> ran stored (eq K) (st_Flush (StoreOps:=table_ops e) name y) (st_Flush (StoreOps:=map_ops e) name K).
Proof.
  intros Hst. cbn [st_Flush table_ops map_ops]. apply (ran_call name [] _ _ y K (fun _ => tt)); [done | | done].
  intros z b x a Hd. cbn [spec_tx cache_spec]. unfold reply_of. intros (v & a1 & Hg & Hx)%bind_Ok. injection Hx as <- <-. revert Hg. unfold spec_flush, tables.
  unfold mbind at 1, txn_bind at 1. intros [_ H]%require_Ok. injection H as <- <-. split; [done |]. split; [| exact (omap_empty (mapped now))].
  intros key en. cbn. by rewrite lookup_empty.
Qed.

Lemma ran_same {X} name (t : result call_error X * system) (v : X) K :
  ran stored (eq K) t (Ok v, set_map name (K (CacheRef name)) K) -> ran stored (eq K) t (Ok v, K).
Proof.
  destruct t as [[x|] y]; [| done]. intros (K' & [= -> <-] & z & Hrep & Hd). exists K. split; [done |]. exists z. split; [done |].
  eapply depicts_ext; [| exact Hd]. intros r _. unfold set_map. by destruct (decide _) as [->|].
Qed.

Lemma ran_time {X} t (f : option Z -> calling system X) f' y K :
  stored y K -> (forall t, ran stored (eq K) (f t y) (f' t K)) -> ran stored (eq K) (with_time e t f y) (map_time e t f' K).
Proof. intros Hst Hf. unfold with_time, map_time. destruct t as [t|]; [| apply Hf]. destruct (ev_encode e t); [apply Hf | by exists K]. Qed.

(** Writing one key. *)
Lemma omap_insert_value (m : gmap string entity) key en :
  omap (mapped now) (<[key := en]> m) = put_value e key (en_body en) (at_expires_at (en_attrs en)) (omap (mapped now) m).
Proof.
  apply map_eq. intros key'. unfold put_value. fold now. rewrite lookup_omap. destruct (decide (key' = key)) as [->|Hne].
  - rewrite lookup_insert_eq. cbn. unfold mapped. destruct (not_expired now _); [by rewrite lookup_insert_eq | by rewrite lookup_delete_eq].
  - rewrite lookup_insert_ne by done. destruct (not_expired now _); [by rewrite lookup_insert_ne, lookup_omap | by rewrite lookup_delete_ne, lookup_omap].
Qed.

Lemma insert_clean z name key en key' en' :
  clean z -> not_deleted (en_attrs en) = true -> <[key := en]> (s_objects (spec_of z (CacheRef name))) !! key' = Some en' -> not_deleted (en_attrs en') = true.
Proof. intros Hc Hn [[<- <-]|[_ Hk]]%lookup_insert_Some; [done | by eapply Hc]. Qed.

Lemma stored_Expire name key t opts y K : stored y K ->
  ran stored (eq K) (st_Expire (StoreOps:=table_ops e) name key t opts y) (st_Expire (StoreOps:=map_ops e) name key t opts K).
Proof.
  intros Hst. apply ran_time; [done |]. clear t. intros t.
  set (hit := fun a => match live_entity now key a with Some en => expire_allowed t opts (at_expires_at (en_attrs en)) | None => false end).
  set (val := match K (CacheRef name) !! key with Some (v, t0) => expire_allowed t opts t0 | None => false end).
  set (ks := match K (CacheRef name) !! key with Some (v, t0) => if expire_allowed t opts t0 then put_value e key v t (K (CacheRef name)) else K (CacheRef name) | None => K (CacheRef name) end).
  assert (ran stored (eq K) (cache_call e name [key] (CacheOp (ExpireOp key t opts)) (fun r => match r with Flag b => Some b | _ => None end) y)
    (Ok val, set_map name ks K)) as Hr.
  { apply (ran_call name _ _ _ y K hit); [done | |].
    - intros z b x a Hd. cbn [spec_tx cache_spec]. unfold reply_of. intros (v & a1 & Hg & Hx)%bind_Ok. injection Hx as <- <-. revert Hg. unfold spec_expire, tables.
      unfold mbind at 1, txn_bind at 1. set (a0 := spec_of z (CacheRef name)). pose proof (proj1 Hd name key) as Hcl. fold a0 in Hcl.
      pose proof (cache_lookup K z name key Hd) as Hk. fold a0 in Hk. unfold ks, hit, attrs_where. rewrite Hk. unfold live_entity, shows.
      assert (K (CacheRef name) = omap (mapped now) (s_objects a0)) as -> by (apply (proj2 Hd); by left). cbn [resp_context cx_now]. fold now.
      destruct (s_objects a0 !! key) as [en|] eqn:E; cbn [mbind option_bind]; [rewrite (Hcl en eq_refl), andb_true_r |].
      2: { intros [= <- <-]. split; [done |]. split; [apply (proj1 Hd name) | done]. }
      destruct (not_expired now (at_expires_at (en_attrs en))); cbn [andb fmap option_fmap option_map].
      2: { intros [= <- <-]. split; [done |]. split; [apply (proj1 Hd name) | done]. }
      destruct (expire_allowed t opts _).
      2: { intros [= <- <-]. split; [done |]. split; [apply (proj1 Hd name) | done]. }
      intros (u & a3 & Hu & H)%bind_Ok. injection Hu as _ <-. injection H as <- <-. cbn [spec_alter sset_objects s_objects].
      rewrite (alter_insert_some _ _ _ _ E). split; [done |]. split; [| by rewrite omap_insert_value].
      intros key' en'. apply (insert_clean z name); [apply Hd | exact (Hcl en eq_refl)].
    - intros z Hd. unfold hit, val. rewrite (cache_lookup K z name key Hd). by destruct (live_entity _ _ _). }
  unfold val, ks in Hr. destruct (K (CacheRef name) !! key) as [[v t0]|]; [destruct (expire_allowed t opts t0) |]; [exact Hr | by eapply ran_same | by eapply ran_same].
Qed.

(** *** Values *)

Lemma allows_etag pre b t t' : pc_Mode pre <> IfMatch -> Precondition_Allows pre b t = Precondition_Allows pre b t'.
Proof. unfold Precondition_Allows. by destruct (pc_Mode pre). Qed.

Lemma lookup_some K z name key : depicts e K z -> bool_decide (is_Some (K (CacheRef name) !! key)) = bool_decide (is_Some (live_entity now key (spec_of z (CacheRef name)))).
Proof. intros Hd. rewrite (cache_lookup K z name key Hd). by destruct (live_entity _ _ _). Qed.

(** A value written, in the maps. *)
Lemma value_stored name key val pre t keep proc block ct y z K x y' :
  rep y z -> depicts e K z -> exec (resp_context e name) (value_op proc block key val pre ct t keep) y = (Ok x, y') ->
  stored y' (set_map name (put_value e key val (kept_expiry keep (K (CacheRef name) !! key) t) (K (CacheRef name))) K) /\
  match pc_Mode pre with
  | IfAbsent => live_entity now key (spec_of z (CacheRef name)) = None
  | IfPresent => is_Some (live_entity now key (spec_of z (CacheRef name)))
  | _ => True
  end.
Proof.
  intros Hrep Hd Hx. destruct (done_rep _ _ _ _ _ _ Hrep Hx) as (b & z' & Hs & Hrep').
  apply (value_op_exec name key) in Hs as (Hpre & en & <- & [Ho _ _ _ He] & Hexp & Hnd); [| done]. cbn [resp_context cx_now] in Hpre, Hexp. fold now in Hpre, Hexp.
  split; [| by destruct (pc_Mode pre)]. exists z'. split; [done |].
  assert (changed name (<[key := en]> (s_objects (spec_of z (CacheRef name)))) z z') as Hch by (split; [done | intros r _ Hne; by rewrite He]).
  apply (depicts_changed K) in Hch; [| done | intros key' en'; apply (insert_clean z name); [apply Hd | done]].
  eapply set_map_ext; [| exact Hch]. rewrite omap_insert_value, Hexp. f_equal; [| symmetry; apply (proj2 Hd); by left].
  rewrite (cache_lookup K z name key Hd). unfold live_entity, old_attrs. destruct (s_objects (spec_of z (CacheRef name)) !! key) as [en0|]; cbn; [| done].
  destruct (not_expired now _), keep; done.
Qed.

Lemma refused_allows key pre a old : refused key now pre a -> pc_Mode pre <> IfMatch -> is_Some old <-> is_Some (live_entity now key a) -> Allows pre old = false.
Proof.
  intros (p & _ & Hc & Ho & Hchk) Hm Hold. revert Hchk. unfold publish_check, Allows, Precondition_Allows. rewrite Ho. unfold live_entity, old_attrs in *.
  unfold Precondition_SQL in Hc. destruct (pc_Mode pre); [| | | done]; injection Hc as -> ->; eval_decides; cbn [orb andb negb]; destruct (s_objects a !! key) as [en|]; cbn in *; try done.
  - destruct (not_expired now _); cbn; [| done]. intros _. rewrite bool_decide_true; [done |]. by apply Hold.
  - destruct (not_expired now _); cbn; [done |]. intros _. apply bool_decide_false. by intros ?%Hold%is_Some_None.
  - intros _. apply bool_decide_false. by intros ?%Hold%is_Some_None.
Qed.

Lemma ran_write name key val pre t keep ret y K : pc_Mode pre <> IfMatch -> stored y K ->
  ran stored (eq K) (write_value e name key val pre t keep y)
    (let '(wrote, K') := map_set e name key val (mkSetOptions pre ret keep false) t K in (Ok wrote, K')).
Proof.
  intros Hm Hst. apply (ran_guarded _ _ _ _ y K); [done | done |]. destruct (exec _ _ y) as [[x|err] y'] eqn:Ex; cbn [write_result called].
  - destruct Hst as (z & Hrep & Hd). destruct (value_stored _ _ _ _ _ _ _ _ _ _ _ _ _ _ Hrep Hd Ex) as [Hst' Hpre]. unfold map_set. cbn [co_Precondition co_KeepTTL].
    assert (Allows pre (K (CacheRef name) !! key) = true) as ->; [| by eexists].
    unfold Allows. rewrite (lookup_some K z name key Hd). unfold Precondition_Allows. destruct (pc_Mode pre); [done | by rewrite Hpre | by rewrite bool_decide_true | done].
  - pose proof (failed_stored _ _ _ _ _ _ Hst Ex) as Hst'. assert (err = ErrPreconditionFailed \/ write_result (Err err) = Err (StoreError err)) as [->|Hne] by (destruct err; auto).
    + cbn. destruct Hst as (z & Hrep & Hd). apply (value_refused name key) with (z := z) in Ex; [| done | done]. unfold map_set. cbn [co_Precondition].
      rewrite (refused_allows key pre _ (K (CacheRef name) !! key) Ex Hm); [by exists K |]. rewrite (cache_lookup K z name key Hd). by rewrite fmap_is_Some.
    + unfold write_result in Hne. rewrite Hne. by exists K.
Qed.

Lemma ran_map {X Y} (f : X -> Y) P (t : result call_error X * system) x K' :
  ran stored P t (Ok x, K') -> ran stored P (then_ok (fun x => Ok (f x)) t) (Ok (f x), K').
Proof. destruct t as [[v|] y]; cbn; [| done]. intros (K1 & [= -> <-] & Hst). eauto. Qed.

Lemma stored_ext y K K' : (forall r, K r = K' r) -> stored y K -> stored y K'.
Proof. intros HK (z & Hrep & Hd). exists z. split; [done |]. eapply depicts_ext; [| exact Hd]. auto. Qed.

(** *** Batches *)

Definition set_values (kvs : list (string * bytes)) (ks : keyspace) : keyspace := fold_left (fun ks kv => <[kv.1 := (kv.2, None)]> ks) kvs ks.

Lemma batch_put_fold {X Y} (g : X -> Y) key v (b : list (string * X)) (m : gmap string Y) : NoDup b.*1 ->
  fold_left (fun m kv => <[kv.1 := g kv.2]> m) (batch_put key v b) m = <[key := g v]> (fold_left (fun m kv => <[kv.1 := g kv.2]> m) b m).
Proof.
  assert (forall b (m : gmap string Y), key ∉ b.*1 -> fold_left (fun m kv => <[kv.1 := g kv.2]> m) b (<[key := g v]> m) = <[key := g v]> (fold_left (fun m kv => <[kv.1 := g kv.2]> m) b m)) as Hc.
  { clear b m. induction b as [|[k x] b IH]; intros m Hn; cbn; [done |]. rewrite insert_insert_ne by set_solver. apply IH. set_solver. }
  revert m. induction b as [|[k x] b IH]; intros m Hn; cbn; [done |]. apply NoDup_cons in Hn as [Hk Hn]. destruct (bool_decide_reflect (k = key)) as [->|Hne]; cbn.
  - rewrite <- (Hc b) by done. by rewrite insert_insert_eq.
  - by apply IH.
Qed.

Lemma batch_fold {Y} (g : bytes -> Y) kvs (m : gmap string Y) :
  fold_left (fun m kv => <[kv.1 := g kv.2]> m) (batch_of id kvs) m = fold_left (fun m kv => <[kv.1 := g kv.2]> m) kvs m.
Proof.
  induction kvs as [|[k v] kvs IH] using rev_ind; [done |]. unfold batch_of in *. rewrite !fold_left_app. cbn [fold_left fst snd id].
  rewrite (batch_put_fold g) by apply (batch_keys id kvs). f_equal. exact IH.
Qed.

Lemma put_batch_objects batch a a' : spec_put_batch Cache now batch a = Ok (tt, a') ->
  s_objects a' = fold_left (fun m kv => <[kv.1 := mkEntity (value_attrs now kv.2) kv.2 InRow]> m) batch (s_objects a).
Proof.
  revert a. induction batch as [|[key v] batch IH]; intros a; cbn [spec_put_batch]; [by intros [= <-] |]. intros [_ H]%require_Ok.
  apply bind_Ok in H as (u & a1 & Hp & H). unfold put_entity in Hp. apply require_Ok in Hp as [_ Hp]. injection Hp as _ <-. by rewrite (IH _ H).
Qed.

Lemma omap_batch batch (m : gmap string entity) :
  omap (mapped now) (fold_left (fun m kv => <[kv.1 := mkEntity (value_attrs now kv.2) kv.2 InRow]> m) batch m) = set_values batch (omap (mapped now) m).
Proof. revert m. induction batch as [|[key v] batch IH]; intros m; cbn; [done |]. by rewrite IH, omap_insert_value. Qed.

Lemma batch_clean z name batch key en : clean z ->
  fold_left (fun m kv => <[kv.1 := mkEntity (value_attrs now kv.2) kv.2 InRow]> m) batch (s_objects (spec_of z (CacheRef name))) !! key = Some en -> not_deleted (en_attrs en) = true.
Proof.
  intros Hc. assert (forall m : gmap string entity, (forall key en, m !! key = Some en -> not_deleted (en_attrs en) = true) ->
    fold_left (fun m kv => <[kv.1 := mkEntity (value_attrs now kv.2) kv.2 InRow]> m) batch m !! key = Some en -> not_deleted (en_attrs en) = true) as Hf; [| apply Hf, Hc].
  induction batch as [|[k v] batch IH]; intros m Hm; cbn; [apply Hm |]. apply IH. intros key' en' [[<- <-]|[_ Hk]]%lookup_insert_Some; [done | by eapply Hm].
Qed.

Lemma map_mset_cons name key v kvs K r : map_mset name ((key, v) :: kvs) K r = map_mset name kvs (set_map name (<[key := (v, None)]> (K (CacheRef name))) K) r.
Proof. unfold map_mset, set_map. destruct (decide (r = CacheRef name)); [| done]. by rewrite decide_True by done. Qed.

Lemma mset_nil name K r : map_mset name [] K r = K r.
Proof. unfold map_mset, set_map. by destruct (decide _) as [->|]. Qed.

Lemma ran_each name kvs y K : stored y K ->
  ran stored (partly_set (A:=Keyspaces) (H:=map_ops e) name kvs K) (mset_each e name kvs y) (Ok tt, map_mset name kvs K).
Proof.
  revert y K. induction kvs as [|[key v] kvs IH]; intros y K Hst; cbn [mset_each].
  { eexists. split; [done |]. eapply stored_ext; [| exact Hst]. intros r. by rewrite mset_nil. }
  pose proof (ran_write name key v unconditional None false None y K ltac:(done) Hst) as Hw. destruct (write_value e name key v unconditional None false y) as [[w|err] y1]; cbn in Hw.
  - destruct Hw as (K1 & [= <- <-] & Hst1).
    assert (kept_expiry false (K (CacheRef name) !! key) None = None) as Hke by (by destruct (K (CacheRef name) !! key) as [[]|]).
    rewrite Hke in Hst1. change (put_value e key v None _) with (<[key := (v, None) : bytes * option Z]> (K (CacheRef name))) in Hst1.
    specialize (IH y1 _ Hst1). destruct (mset_each e name kvs y1) as [[u|err] y2]; cbn in IH |- *.
    + destruct IH as (K2 & [= -> <-] & Hst2). eexists. split; [done |]. eapply stored_ext; [| exact Hst2]. intros r. symmetry. apply map_mset_cons.
    + destruct IH as (K2 & (n & ->) & Hst2). eexists. split; [by exists (S n) |]. eapply stored_ext; [| exact Hst2]. intros r. symmetry. apply map_mset_cons.
  - destruct Hw as (K1 & <- & Hst1). eexists. split; [by exists O |]. eapply stored_ext; [| exact Hst1]. intros r. cbn. by rewrite mset_nil.
Qed.

Lemma ran_weaken {X} (P Q : Keyspaces -> Prop) (t : result call_error X * system) t' :
  (forall y K, P K -> stored y K -> exists K', Q K' /\ stored y K') -> ran stored P t t' -> ran stored Q t t'.
Proof. intros HPQ. destruct t as [[x|err] y]; [done |]. intros (K & Hp & Hst). by apply (HPQ y K). Qed.

Lemma stored_MSet name kvs y K : stored y K ->
  ran stored (partly_set (A:=Keyspaces) (H:=map_ops e) name kvs K) (st_MSet (StoreOps:=table_ops e) name kvs y) (st_MSet (StoreOps:=map_ops e) name kvs K).
Proof.
  intros Hst. cbn [st_MSet table_ops map_ops]. unfold cache_MSet. destruct kvs as [|kv kvs'] eqn:Ek.
  { eexists. split; [done |]. eapply stored_ext; [| exact Hst]. intros r. by rewrite mset_nil. }
  rewrite <- Ek. destruct (existsb _ _); [by apply ran_each |]. apply (ran_weaken (eq K)).
  { intros y' ? <- Hst'. eexists. split; [by exists O |]. eapply stored_ext; [| exact Hst']. intros r. cbn. by rewrite mset_nil. }
  apply (ran_call name _ _ _ y K (fun _ => tt)); [done | | done]. intros z b x a Hd. cbn [spec_tx cache_spec]. unfold reply_of.
  intros (v & a1 & Hg & Hx)%bind_Ok. injection Hx as <- <-. split; [done |]. unfold spec_mset in Hg. rewrite Ek in Hg. rewrite <- Ek in Hg.
  apply require_Ok in Hg as [_ Hg]. destruct v. cbn [resp_context cx_now cx_ns ref_kind CacheRef] in Hg. apply put_batch_objects in Hg. rewrite Hg.
  rewrite (batch_fold (fun v => mkEntity (value_attrs now v) v InRow)). split; [intros key en; apply (batch_clean z name); apply Hd |].
  rewrite omap_batch. unfold set_values. f_equal. symmetry. apply (proj2 Hd). by left.
Qed.

(** *** Updates *)

(** What an update that nobody disturbs does. *)
Definition updated (name key : string) (m : cacheMutation) (K : Keyspaces) (r : result call_error cacheMutationResult * system) : Prop :=
  let old := K (CacheRef name) !! key in
  match r with
  | (Ok res, y') =>
      mr_previous res = fst <$> old /\ mr_existed res = bool_decide (is_Some old) /\ mr_wrote res = Allows (mu_Precondition m) old /\
      if Allows (mu_Precondition m) old
      then exists next, mu_apply m (fst <$> old) = Ok next /\ mr_size res = zlen next /\
        stored y' (set_map name (put_value e key next (kept_expiry (mu_KeepTTL m) old (mu_ExpiresAt m)) (K (CacheRef name))) K)
      else stored y' K
  | (Err _, y') => stored y' K
  end.

Lemma updated_guarded name key keys m f y K : stored y K -> updated name key m K (f y) -> updated name key m K (guarded name keys f y).
Proof. intros Hst Hu. unfold guarded, statement. destruct (nsSQLIdent _ _); [| done]. by destruct (forallb _ _). Qed.

Lemma update_exact name key m y K : pc_Mode (mu_Precondition m) <> IfMatch -> stored y K -> updated name key m K (update_value e name key m y).
Proof.
  intros Hm Hst. apply updated_guarded; [done |]. pose proof Hst as (z & Hrep & Hd). unfold mutate.
  set (left := match mu_retries m with O => None | S _ => _ end). assert (left <> Some O) as Hleft by (unfold left; by destruct (mu_retries m)).
  cbn [mutate_loop]. rewrite bool_decide_false by done. cbn [one_attempt tr_before exec_run snd tr_read tr_workers tr_between]. fold now.
  destruct (cacheValueWithMeta _ _ _ _ _) as [[v mt]|err] eqn:Ev; [| done]. pose proof (value_read name key _ _ _ _ _ _ _ Hrep Ev) as Hv.
  set (pre := match mt with Some _ => _ | None => _ end). set (a := spec_of z (CacheRef name)) in *.
  assert (v = fst <$> K (CacheRef name) !! key /\ bool_decide (is_Some mt) = bool_decide (is_Some (K (CacheRef name) !! key))) as [Hval Hex].
  { rewrite (lookup_some K z name key Hd), (value_lookup K z name key Hd). fold a. destruct (live_entity now key a) as [en|]; [by destruct Hv as (-> & m' & -> & _) | by destruct Hv as (-> & ->)]. }
  assert (Precondition_Allows (mu_Precondition m) (bool_decide (is_Some mt)) (pc_ETag pre) = Allows (mu_Precondition m) (K (CacheRef name) !! key)) as ->
    by (unfold Allows; rewrite Hex; by apply allows_etag).
  destruct (Allows _ _) eqn:Hal; cbn [negb].
  2: { cbn. rewrite Hal. split; [done |]. split; [done |]. by split. }
  destruct (mu_apply m v) as [next|err] eqn:Hap; [| done].
  destruct (exec _ _ y) as [rw yw] eqn:Ex. destruct rw as [x|ew]; cbn [write_result].
  - cbn. rewrite Hal. split; [done |]. split; [done |]. split; [done |]. exists next. split; [by rewrite <- Hval |]. split; [done |].
    by apply (value_stored name key next pre (mu_ExpiresAt m) (mu_KeepTTL m) (ev_proc e) (ev_block e) (mu_ContentType m) y z K x yw).
  - pose proof (failed_stored _ _ _ _ _ _ Hst Ex) as Hst'.
    assert ((exists e0, write_result (Err ew) = Err e0) \/ ew = ErrPreconditionFailed) as [[e0 He]| ->] by (destruct ew; eauto); [unfold write_result in He; by rewrite He |].
    cbn. destruct (bool_decide (_ <$> left = _)); exact Hst'.
Qed.

Lemma stored_GetSet name key val opts y K : pc_Mode (co_Precondition opts) <> IfMatch -> stored y K ->
  ran stored (eq K) (st_GetSet (StoreOps:=table_ops e) name key val opts y) (st_GetSet (StoreOps:=map_ops e) name key val opts K).
Proof.
  intros Hm Hst. apply ran_time; [done |]. intros t. unfold map_set.
  pose proof (update_exact name key (set_mutation val (co_Precondition opts) t (co_KeepTTL opts)) y K Hm Hst) as Hu. unfold updated in Hu. cbn [mu_Precondition set_mutation mu_KeepTTL mu_ExpiresAt mu_apply] in Hu.
  destruct (update_value _ _ _ _ y) as [[res|err] y']; cbn; [| by exists K]. destruct Hu as (-> & -> & -> & Hu). destruct (Allows _ _); [| by exists K].
  destruct Hu as (next & [= <-] & _ & Hst'). by eexists.
Qed.

Lemma stored_Set name key val opts y K : pc_Mode (co_Precondition opts) <> IfMatch -> stored y K ->
  ran stored (eq K) (st_Set (StoreOps:=table_ops e) name key val opts y) (st_Set (StoreOps:=map_ops e) name key val opts K).
Proof.
  intros Hm Hst. cbn [st_Set table_ops map_ops]. unfold cache_Set. destruct (co_ReturnOld opts) eqn:Er; [by apply stored_GetSet |].
  apply ran_time; [done |]. intros t. pose proof (ran_write name key val (co_Precondition opts) t (co_KeepTTL opts) (co_ExpiresAt opts) y K Hm Hst) as Hw.
  destruct opts as [pre t0 keep old]. cbn in Er. subst old. cbn [co_Precondition co_KeepTTL co_ExpiresAt] in *.
  destruct (map_set e name key val _ t K) as [wrote K']. by apply (ran_map (fun w => (None, false, w))).
Qed.

(** An update that keeps the expiry and replies with a number. *)
Lemma ran_update {X} name key m f (g : cacheMutationResult -> result call_error X) (h : bytes -> result call_error X) y K :
  stored y K -> mu_Precondition m = unconditional -> mu_KeepTTL m = true -> mu_ExpiresAt m = None -> (forall v, mu_apply m v = f v) ->
  (forall res next x, mr_previous res = fst <$> K (CacheRef name) !! key -> mr_size res = zlen next -> f (mr_previous res) = Ok next -> g res = Ok x -> h next = Ok x) ->
  (forall res next, mr_previous res = fst <$> K (CacheRef name) !! key -> f (mr_previous res) = Ok next -> exists x, g res = Ok x) ->
  ran stored (eq K) (then_ok g (update_value e name key m y))
    (match f (fst <$> K (CacheRef name) !! key) with
     | Err err => (Err (failure e err), K)
     | Ok next => (h next, set_map name (put_value e key next (kept_expiry true (K (CacheRef name) !! key) None) (K (CacheRef name))) K)
     end).
Proof.
  intros Hst Hp Hk He Hf Hg Hsure. pose proof (update_exact name key m y K ltac:(by rewrite Hp) Hst) as Hu. unfold updated in Hu.
  rewrite Hp, Hk, He in Hu. destruct (update_value _ _ _ _ y) as [[res|err] y']; [| by exists K]. destruct Hu as (Hprev & _ & _ & Hu). cbn in Hu.
  destruct Hu as (next & Hap & Hsz & Hst'). rewrite Hf in Hap. destruct (Hsure res next Hprev) as (x & Hx); [by rewrite Hprev |].
  rewrite Hap. unfold then_ok. cbn [fst snd rbind]. rewrite Hx. eexists. split; [f_equal; apply (Hg res); by rewrite ?Hprev | done].
Qed.

Lemma stored_Append name key v y K : stored y K ->
  ran stored (eq K) (st_Append (StoreOps:=table_ops e) name key v y) (st_Append (StoreOps:=map_ops e) name key v K).
Proof.
  intros Hst. apply (ran_update name key _ (fun x => Ok (default [] x ++ v)) _ (fun next => Ok (zlen next))); try done; [| by eauto].
  intros res next x _ -> _. done.
Qed.

Lemma stored_SetRange name key off v y K : stored y K ->
  ran stored (eq K) (st_SetRange (StoreOps:=table_ops e) name key off v y) (st_SetRange (StoreOps:=map_ops e) name key off v K).
Proof.
  intros Hst. cbn [st_SetRange table_ops]. unfold SetRange, SetRange_mutation. destruct (_ || _); [by exists K |].
  apply (ran_update name key _ (fun x => Ok (set_range off v (default [] x))) _ (fun next => Ok (zlen next))); try done; [| by eauto].
  intros res next x _ -> _. done.
Qed.

Lemma stored_IncrBy name key d y K : stored y K ->
  ran stored (eq K) (st_IncrBy (StoreOps:=table_ops e) name key d y) (st_IncrBy (StoreOps:=map_ops e) name key d K).
Proof.
  intros Hst. cbn [st_IncrBy table_ops map_ops]. unfold IncrBy, map_update. set (old := fst <$> K (CacheRef name) !! key).
  pose proof (ran_update name key (incr_mutation d) (fun v => let* n := incr_value d v in Ok (format_bytes n)) (fun r => called e (incr_value d (mr_previous r)))
    (fun _ => called e (incr_value d old)) y K Hst eq_refl eq_refl eq_refl (fun v => eq_refl)) as Hr. fold old in Hr.
  assert (ran stored (eq K) (then_ok (fun r => called e (incr_value d (mr_previous r))) (update_value e name key (incr_mutation d) y)) _) as Hr' by (apply Hr;
    [intros res next x -> _ _; done | intros res next -> H; destruct (incr_value d old) as [n|]; [by exists n | done]]). clear Hr.
  destruct (incr_value d old) as [n|err]; exact Hr'.
Qed.

(** What a failed [FLUSHALL] may have done: the first caches are empty. *)
Definition flushed (K K' : Keyspaces) : Prop := exists names, names `prefix_of` ev_caches e /\ forall r, K' r = if bool_decide (r ∈ CacheRef <$> names) then ∅ else K r.

Lemma ran_flush names y K : stored y K ->
  ran stored (fun K' => exists n, forall r, K' r = if bool_decide (r ∈ CacheRef <$> take n names) then ∅ else K r) (flush_each e names y)
    (Ok tt, fun r => if bool_decide (r ∈ CacheRef <$> names) then ∅ else K r).
Proof.
  revert y K. induction names as [|name names IH]; intros y K Hst; cbn [flush_each].
  { eexists. split; [done |]. eapply stored_ext; [| exact Hst]. intros r. cbn. rewrite bool_decide_false; [done | set_solver]. }
  pose proof (stored_Flush name y K Hst) as Hf. cbn [st_Flush table_ops] in Hf. destruct (cache_call e name [] _ _ y) as [[u|err] y1]; cbn in Hf.
  - destruct Hf as (K1 & [= _ <-] & Hst1). specialize (IH y1 _ Hst1). assert (forall l r,
      (if bool_decide (r ∈ CacheRef <$> l) then ∅ else set_map name ∅ K r) = if bool_decide (r ∈ CacheRef <$> name :: l) then ∅ else K r) as Hl.
    { intros l r. unfold set_map. cbn [fmap list_fmap]. destruct (decide (r = CacheRef name)) as [->|Hne].
      - rewrite (bool_decide_true (_ ∈ _ :: _)) by left. by destruct (bool_decide _).
      - rewrite (bool_decide_ext (r ∈ CacheRef name :: (CacheRef <$> l)) (r ∈ CacheRef <$> l)); [done |]. rewrite elem_of_cons. naive_solver. }
    destruct (flush_each e names y1) as [[v|err] y2]; cbn in IH |- *.
    + destruct IH as (K2 & [= _ <-] & Hst2). eexists. split; [by destruct v |]. eapply stored_ext; [| exact Hst2]. intros r. apply Hl.
    + destruct IH as (K2 & (n & Hn) & Hst2). exists K2. split; [| done]. exists (S n). intros r. rewrite Hn. apply Hl.
  - destruct Hf as (K1 & <- & Hst1). exists K. split; [| done]. exists O. intros r. cbn. rewrite bool_decide_false; [done | set_solver].
Qed.

Lemma stored_FlushAll y K : stored y K ->
  ran stored (flushed K) (st_FlushAll (StoreOps:=table_ops e) y) (st_FlushAll (StoreOps:=map_ops e) K).
Proof.
  intros Hst. cbn [st_FlushAll table_ops map_ops]. unfold CacheFlushAll. destruct (forallb _ _).
  - eapply ran_weaken; [| by apply ran_flush]. intros y' K' [n Hn] Hst'. exists K'. split; [| done]. exists (take n (ev_caches e)). split; [apply prefix_take | done].
  - exists K. split; [| done]. exists []. split; [apply prefix_nil |]. intros r. rewrite bool_decide_false; [done | set_solver].
Qed.

#[global] Instance table_simulates : Simulates (table_ops e) (map_ops e) stored flushed.
Proof.
  split; [exact stored_Get | exact stored_MGet | exact stored_Exists | exact stored_TTL | exact stored_DBSize | done | exact stored_MetaHeader | exact stored_Read |
    exact stored_List | exact stored_Set | exact stored_GetSet | exact stored_GetDel | exact stored_MSet | exact stored_Append | exact stored_SetRange |
    exact stored_IncrBy | exact stored_Del | exact stored_Expire | exact stored_Flush | exact stored_FlushAll].
Qed.

#[global] Instance table_batches : Batches (map_ops e) stored.
Proof.
  split.
  - intros name keys K vals [= <-]. apply Forall2_fmap_r, Forall_Forall2_diag, Forall_true. done.
  - intros name key v K. cbn. done.
  - intros name kvs y K. apply stored_ext. revert K. induction kvs as [|[key v] kvs IH]; intros K r; [exact (mset_nil name K r) |].
    etrans; [exact (map_mset_cons name key v kvs K r) |]. cbn [fold_left]. rewrite <- IH. cbn. by destruct (K (CacheRef name) !! key) as [[]|].
Qed.
End Refine.
