(* ===== verification/RespScan.v ===== *)
(** * Scanning a cache

    [KEYS] and [SCAN] of [internal/resp/resp.go] over maps: a scan reads the
    keys of the range of its pattern page by page and in order, stops where it
    has found enough, and goes on from there; following the cursors gives every
    matching key once. *)

From stdpp Require Import gmap sorting.
From S2P Require Import Prelude GoStrings Ns Ranges Utf8 Precond Glob Blocks Ids Tables Objects CacheTables Machine CacheValues Resp RespSim RespPipeline RespStore RespRefine.

(** ** Keys in order *)

Definition key_lt (a b : string) : Prop := slt a b = true.

Lemma llt_le_lt l k : llt k l = false -> l <> k -> llt l k = true.
Proof.
  revert k. induction l as [|x l IH]; intros [|w k]; cbn; auto; try done. intros [H1 H2]%orb_false_iff Hne. apply orb_true_iff.
  destruct (Z.ltb_spec x w); [by left |]. right. assert (x = w) as -> by lia. rewrite Z.eqb_refl in *. cbn in *. apply IH; [done | congruence].
Qed.

Lemma llt_irrefl l : llt l l = false.
Proof. induction l as [|x l IH]; [done |]. cbn. by rewrite Z.ltb_irrefl, Z.eqb_refl, IH. Qed.

Lemma key_lt_le a b : key_lt a b -> key_le a b.
Proof.
  unfold key_lt, key_le. rewrite !slt_codes. generalize (codes a) (codes b). induction l as [|x l IH]; intros [|w k]; cbn; auto; try done.
  intros [H|[H1 H2]%andb_true_iff]%orb_true_iff; apply orb_false_iff; (split; [lia |]); apply andb_false_iff; [left; lia | right; by apply IH].
Qed.

(** A list without duplicates sorted by [key_le] is in strict order. *)
Lemma sorted_strict l : NoDup l -> StronglySorted key_le l -> StronglySorted key_lt l.
Proof.
  induction l as [|a l IH]; intros Hn Hs; [constructor |]. apply NoDup_cons in Hn as [Ha Hn]. apply StronglySorted_inv in Hs as [Hs Hall].
  constructor; [by apply IH |]. rewrite Forall_forall in *. intros b Hb. specialize (Hall b Hb). unfold key_lt, key_le in *. rewrite slt_codes in *.
  apply llt_le_lt; [done |]. intros E%codes_inj. by subst.
Qed.

(** The keys of a map in the range of a prefix, in order. *)
Definition in_prefix (prefix pend key : string) : bool := negb (slt key prefix) && slt key pend.
Definition sorted_keys (ks : keyspace) (prefix pend : string) : list string := merge_sort key_le (List.filter (in_prefix prefix pend) (map_to_list ks).*1).
Definition beyond (after : string) (l : list string) : list string := List.filter (slt after) l.

Lemma filter_strict {X} (R : X -> X -> Prop) f (l : list X) : StronglySorted R l -> StronglySorted R (List.filter f l).
Proof.
  induction 1 as [|a l Hs IH Ha]; [constructor |]. cbn. destruct (f a); [| done]. constructor; [done |]. rewrite Forall_forall in *. intros b Hb. apply Ha.
  apply list_elem_of_In, filter_In in Hb as [Hb _]. by apply list_elem_of_In.
Qed.

Lemma filter_perm {X} f (l k : list X) : l ≡ₚ k -> List.filter f l ≡ₚ List.filter f k.
Proof.
  induction 1 as [|x l k _ IH|x w l|l k j _ IH1 _ IH2]; [done | | | by rewrite IH1].
  - cbn. destruct (f x); by rewrite IH.
  - cbn. destruct (f x), (f w); try done. constructor.
Qed.

Lemma filter_filter {X} f g (l : list X) : List.filter f (List.filter g l) = List.filter (fun x => g x && f x) l.
Proof. induction l as [|x l IH]; [done |]. cbn. destruct (g x); cbn; [destruct (f x); by rewrite IH | done]. Qed.

Lemma sorted_keys_strict ks prefix pend : StronglySorted key_lt (sorted_keys ks prefix pend).
Proof.
  apply sorted_strict; [| apply StronglySorted_merge_sort; apply _]. unfold sorted_keys. rewrite merge_sort_Permutation.
  apply NoDup_ListNoDup, List.NoDup_filter, NoDup_ListNoDup, NoDup_fst_map_to_list.
Qed.

(** A page is the first keys after its position. *)
Lemma page_beyond ks prefix pend after limit : map_page ks prefix pend after limit = take (Z.to_nat limit) (beyond after (sorted_keys ks prefix pend)).
Proof.
  unfold map_page, page_of. f_equal. apply (Sorted_unique key_le); [apply (Sorted_merge_sort _) | |].
  - apply StronglySorted_Sorted, filter_strict, (StronglySorted_merge_sort _).
  - unfold beyond, sorted_keys. rewrite (filter_perm _ _ _ (merge_sort_Permutation key_le _)), merge_sort_Permutation, filter_filter. done.
Qed.

Lemma key_lt_trans a b c : key_lt a b -> key_lt b c -> key_lt a c.
Proof.
  unfold key_lt. rewrite !slt_codes. generalize (codes a) (codes b) (codes c). clear. induction l as [|x l IH]; intros [|w k] [|v j]; cbn; auto; try done.
  intros [H1|[H1 H1']%andb_true_iff]%orb_true_iff [H2|[H2 H2']%andb_true_iff]%orb_true_iff; apply orb_true_iff; [left; lia | left; lia | left; lia |].
  right. apply andb_true_iff. split; [lia |]. by eapply IH.
Qed.

Lemma beyond_all x l : Forall (key_lt x) l -> beyond x l = l.
Proof. induction 1 as [|a l Ha _ IH]; [done |]. unfold beyond, key_lt in *. cbn. by rewrite Ha, IH. Qed.

Lemma beyond_none x l : Forall (fun a => key_le a x) l -> beyond x l = [].
Proof. induction 1 as [|a l Ha _ IH]; [done |]. unfold beyond, key_le in *. cbn. by rewrite Ha. Qed.

Lemma beyond_app x l k : beyond x (l ++ k) = beyond x l ++ beyond x k.
Proof. apply List.filter_app. Qed.

(** From the last key of a page on. *)
Lemma beyond_last after l used x rest :
  StronglySorted key_lt l -> beyond after l = (used ++ [x]) ++ rest -> beyond x l = rest.
Proof.
  intros Hs E. assert (key_lt after x) as Hax.
  { assert (x ∈ beyond after l) as Hx by (rewrite E; set_solver). by apply list_elem_of_In, filter_In in Hx as [_ ?]. }
  assert (beyond x l = beyond x (beyond after l)) as ->.
  { unfold beyond. rewrite filter_filter. apply filter_ext. intros k. destruct (slt x k) eqn:Hk; [| by rewrite andb_false_r].
    rewrite andb_true_r. symmetry. exact (key_lt_trans _ _ _ Hax Hk). }
  pose proof (filter_strict _ (slt after) _ Hs) as Hs'. fold (beyond after l) in Hs'. rewrite E, <- app_assoc in Hs' |- *. rewrite beyond_app.
  apply StronglySorted_app in Hs' as (Hcross & _ & Hr). cbn [app] in Hr. apply StronglySorted_inv in Hr as [_ Hr].
  cbn [app]. rewrite beyond_none; [| apply Forall_forall; intros a Ha; apply key_lt_le, Hcross; set_solver].
  cbn. unfold beyond in *. rewrite slt_codes, llt_irrefl. by apply beyond_all.
Qed.

(** ** Scans *)

Section Scan.
Context (e : resp_env) (sv : Server) (name pattern : string) (K : Keyspaces).

Let prefix := literalPrefix pattern.
Let all := sorted_keys (K (CacheRef name)) prefix (prefixUpper prefix).
Let hits := List.filter (row_matches pattern).

(** The rows of a page that are used. *)
Lemma rows_scanned count rows after keys : zlen keys < count ->
  match scan_rows pattern count rows after keys with
  | (after', keys', enough) => exists used rest, rows = used ++ rest /\ keys' = keys ++ hits used /\
      (if enough then exists used', used = used' ++ [after'] /\ count = zlen keys'
       else rest = [] /\ zlen keys' < count /\ after' = default after (last used))
  end.
Proof.
  revert after keys. induction rows as [|row rows IH]; intros after keys Hlt; cbn [scan_rows].
  { exists [], []. cbn. rewrite app_nil_r. done. }
  set (keys1 := if row_matches pattern row then keys ++ [row] else keys).
  assert (keys1 = keys ++ hits [row]) as E1 by (unfold keys1, hits; cbn; destruct (row_matches pattern row); by rewrite ?app_nil_r).
  assert (zlen keys1 <= zlen keys + 1) as Hle by (unfold keys1; destruct (row_matches _ _); unfold zlen; rewrite ?length_app; cbn; lia).
  destruct (Z.leb_spec count (zlen keys1)).
  - exists [row], rows. split; [done |]. split; [done |]. exists []. split; [done | lia].
  - specialize (IH row keys1 ltac:(lia)). destruct (scan_rows pattern count rows row keys1) as [[after' keys'] enough].
    destruct IH as (used & rest & -> & -> & Hd). exists (row :: used), rest. split; [done |]. split; [rewrite E1, <- app_assoc; unfold hits; cbn; by destruct (row_matches _ _) |].
    destruct enough.
    + destruct Hd as (used' & -> & Hc). exists (row :: used'). done.
    + destruct Hd as (-> & Hc & ->). split; [done |]. split; [done |]. rewrite last_cons. by destruct (last used).
Qed.

(** What a scan finds: the matches of the keys it goes through; at the end, or
    where it has found enough. *)
Definition scanned (count : Z) (after : string) (keys : list string) (r : result call_error (string * list string)) : Prop :=
  exists next used rest, r = Ok (next, keys ++ hits used) /\ beyond after all = used ++ rest /\
    ((next = "0" /\ rest = []) \/ (exists used', used = used' ++ [next] /\ beyond next all = rest /\ zlen (keys ++ hits used) = count)).

Lemma pages_scanned pages count page after keys :
  zlen keys < count -> 1 <= page -> (length (beyond after all) < pages)%nat -> scanned count after keys (scan_pages (H:=map_ops e) pages name pattern count page after keys K).
Proof.
  intros Hlt Hpage. revert after keys Hlt. induction pages as [|pages IH]; intros after keys Hlt Hf; [lia |]. cbn [scan_pages].
  destruct (Z.leb_spec count (zlen keys)); [lia |]. cbn [st_List map_ops rbind]. fold prefix. rewrite page_beyond. fold all.
  set (rows := take (Z.to_nat page) (beyond after all)). destruct (bool_decide_reflect (rows = [])) as [Hz|Hz].
  { assert (beyond after all = []) as E by (unfold rows in Hz; destruct (beyond after all); [done |]; destruct (Z.to_nat page) eqn:?; [lia | done]).
    exists "0", [], []. rewrite E, app_nil_r. cbn. auto. }
  pose proof (rows_scanned count rows after keys Hlt) as Hr. destruct (scan_rows pattern count rows after keys) as [[after' keys'] enough].
  destruct Hr as (used & rest & Erows & -> & Hd). pose proof (sorted_keys_strict (K (CacheRef name)) prefix (prefixUpper prefix)) as Hs. fold all in Hs.
  assert (beyond after all = used ++ rest ++ drop (Z.to_nat page) (beyond after all)) as Eb.
  { rewrite app_assoc, <- Erows. unfold rows. by rewrite take_drop. }
  destruct enough.
  - destruct Hd as (used' & -> & Hcount). exists after', (used' ++ [after']), (rest ++ drop (Z.to_nat page) (beyond after all)).
    split; [done |]. split; [done |]. right. exists used'. split; [done |]. split; [by eapply beyond_last | done].
  - destruct Hd as (-> & Hc & ->). cbn [app] in Eb. rewrite app_nil_r in Erows. destruct (Z.ltb_spec (zlen rows) page) as [Hshort|Hfull].
    + exists "0", used, []. split; [done |]. rewrite app_nil_r. split; [| by left].
      unfold rows in Erows, Hshort. unfold zlen in Hshort. rewrite length_take in Hshort. rewrite take_ge in Erows by lia. done.
    + destruct (exists_last (l := used)) as (used' & x & ->); [by rewrite <- Erows |]. rewrite last_snoc. cbn [default from_option id].
      assert (beyond x all = drop (Z.to_nat page) (beyond after all)) as Ex by (by eapply beyond_last).
      specialize (IH x (keys ++ hits (used' ++ [x])) Hc). rewrite Ex in IH. destruct IH as (next & used2 & rest2 & E & Eb2 & Hend).
      { rewrite Eb, length_app, length_app in Hf. cbn in Hf. lia. }
      exists next, ((used' ++ [x]) ++ used2), rest2. rewrite E. split; [unfold hits; by rewrite (List.filter_app _ (used' ++ [x])), app_assoc |].
      rewrite Ex in Eb2. split; [by rewrite Eb, Eb2, app_assoc |]. destruct Hend as [Hend|(u & -> & Hu & Hz2)]; [by left |]. right. exists ((used' ++ [x]) ++ u).
      split; [by rewrite app_assoc |]. split; [done |]. unfold hits in *. by rewrite (List.filter_app _ (used' ++ [x])), app_assoc.
Qed.

(** *** Keys that scans cannot miss *)

(** The keys of the cache are texts, none of them empty. *)
Definition text_keys : Prop := forall key, is_Some (K (CacheRef name) !! key) -> ordinary key /\ key <> "".

Lemma key_listed key : key ∈ (map_to_list (K (CacheRef name))).*1 <-> is_Some (K (CacheRef name) !! key).
Proof.
  rewrite list_elem_of_fmap. split.
  - intros ([key' x] & -> & Hx%elem_of_map_to_list). by exists x.
  - intros [x Hx]. exists (key, x). split; [done |]. by apply elem_of_map_to_list.
Qed.

Lemma all_listed key : key ∈ all -> is_Some (K (CacheRef name) !! key).
Proof.
  unfold all, sorted_keys. rewrite merge_sort_Permutation. intros [Hk _]%list_elem_of_In%filter_In. by apply key_listed, list_elem_of_In.
Qed.

Lemma hits_exact key : text_keys -> key ∈ hits all <-> is_Some (K (CacheRef name) !! key) /\ row_matches pattern key = true.
Proof.
  intros Ht. unfold hits. rewrite list_elem_of_In, filter_In, <- list_elem_of_In. split; [intros [Hk Hm]; split; [by apply all_listed | done] |].
  intros [Hk Hm]. split; [| done]. unfold all, sorted_keys. rewrite merge_sort_Permutation. apply list_elem_of_In, filter_In.
  split; [by apply list_elem_of_In, key_listed |]. apply matches_prefix in Hm. fold prefix in Hm. unfold in_prefix.
  rewrite (prefix_not_below _ _ Hm), (ordinary_below _ _ (proj1 (Ht _ Hk)) Hm). done.
Qed.

Lemma slt_empty key : key <> "" -> slt "" key = true.
Proof. by destruct key. Qed.

Lemma beyond_start : text_keys -> beyond "" all = all.
Proof. intros Ht. apply beyond_all, Forall_forall. intros key Hk. apply slt_empty. by apply Ht, all_listed. Qed.

Lemma all_short : (length all <= length (map_to_list (K (CacheRef name))))%nat.
Proof. unfold all, sorted_keys. rewrite merge_sort_Permutation. rewrite <- (length_fmap fst (map_to_list (K (CacheRef name)))). apply filter_length_le. Qed.

Lemma hits_short l : zlen (hits l) <= zlen l.
Proof. unfold zlen. apply inj_le, filter_length_le. Qed.

Definition page_size (count : Z) : Z := if count <? 1024 then Z.max (count * 4) 64 else 1024.

Lemma page_positive count : 1 <= page_size count.
Proof. unfold page_size. destruct (count <? 1024); lia. Qed.

Hypothesis enough_pages : (length (map_to_list (K (CacheRef name))) < sv_pages sv)%nat.

Lemma scanCache_scanned after count : 1 <= count -> scanned count after [] (scanCache (H:=map_ops e) sv name pattern after count K).
Proof.
  intros Hc. unfold scanCache. destruct (Z.leb_spec count 0); [lia |]. apply pages_scanned; [done | apply page_positive |].
  pose proof all_short. assert (length (beyond after all) <= length all)%nat by apply filter_length_le. lia.
Qed.

Lemma scanCache_whole : text_keys -> zlen (map_to_list (K (CacheRef name))) < max_int64 ->
  scanCache (H:=map_ops e) sv name pattern "" 0 K = Ok ("0", hits all).
Proof.
  intros Ht Hsmall. unfold scanCache. change (if 0 <=? 0 then max_int64 else 0) with max_int64.
  assert (length (beyond "" all) < sv_pages sv)%nat as Hf by (rewrite beyond_start by done; pose proof all_short; lia).
  destruct (pages_scanned (sv_pages sv) max_int64 1024 "" [] ltac:(done) ltac:(done) Hf) as (next & used & rest & E & Eb & Hend).
  rewrite beyond_start in Eb by done. destruct Hend as [[-> ->]|(u & -> & _ & Hz)]; [rewrite app_nil_r in Eb; by rewrite Eb |].
  exfalso. rewrite app_nil_l in Hz. pose proof (hits_short (u ++ [next])). pose proof all_short as Hs. rewrite Eb, length_app in Hs. unfold zlen in *. lia.
Qed.

End Scan.

(** ** The commands *)

(** The elements of a reply to [SCAN]: the cursor and the keys. *)
Fixpoint bulk_strings (fs : list frame) : list string :=
  match fs with WBulk b :: rest => str b :: bulk_strings rest | _ => [] end.

Definition scan_reply (fs : list frame) : option (string * list string) :=
  match fs with
  | WArray _ :: WBulk next :: WArray _ :: keys => Some (str next, bulk_strings keys)
  | _ => None
  end.

(** A client that sends [SCAN] and follows the cursors, over a store that does
    not change meanwhile. *)
Definition scan_command (cursor pattern : string) (count : Z) : respCmd :=
  mkCmd "SCAN" [byt cursor; byt "MATCH"; byt pattern; byt "COUNT"; byt (FormatInt count)].

Fixpoint scan_client {T} `{StoreOps T} (sv : Server) (fuel : nat) (pattern : string) (count : Z) (cursor : string) (sess : respSession) (s : T) : option (list string) :=
  match fuel with
  | O => None
  | S fuel =>
      match scan_reply (cn_out (execRESPCommand sv (scan_command cursor pattern count) (mkConn sess [] s)).2) with
      | Some (next, keys) => if bool_decide (next = "0") then Some keys else app keys <$> scan_client sv fuel pattern count next sess s
      | None => None
      end
  end.

Lemma str_byt s : str (byt s) = s.
Proof. apply String.string_of_list_ascii_of_string. Qed.

Lemma bulk_keys keys : bulk_strings (WBulkString <$> keys) = keys.
Proof. induction keys as [|k keys IH]; [done |]. cbn. by rewrite str_byt, IH. Qed.

Lemma exec_scan {T} `{StoreOps T} sv cursor pattern count sess (s : T) next keys : 1 <= count <= max_int64 ->
  scanCache sv (rs_bucket sess) pattern (if bool_decide (cursor <> "0") then cursor else "") count s = Ok (next, keys) ->
  scan_reply (cn_out (execRESPCommand sv (scan_command cursor pattern count) (mkConn sess [] s)).2) = Some (next, keys).
Proof.
  intros Hc Hs. unfold execRESPCommand. change (command sv (rc_name (scan_command cursor pattern count))) with (Some (mkSpec (S:=T) 1 (-1) false (fun _ => cmdScan sv))).
  cbn [rc_args rc_name scan_command cs_fn cs_minArgs cs_maxArgs cs_write]. change (zlen [byt cursor; byt "MATCH"; byt pattern; byt "COUNT"; byt (FormatInt count)]) with 5.
  cbn [Z.ltb Z.leb Z.compare Pos.compare Pos.compare_cont orb andb]. unfold cmdScan. cbn [drop arg nth].
  assert (scan_options [byt "MATCH"; byt pattern; byt "COUNT"; byt (FormatInt count)] "*" 10 = Some (pattern, count)) as ->.
  { cbn [scan_options]. rewrite !str_byt. change (bool_decide (ToUpper "MATCH" = "MATCH")) with true.
    change (bool_decide (ToUpper "COUNT" = "MATCH")) with false. change (bool_decide (ToUpper "COUNT" = "COUNT")) with true. cbn match.
    unfold Atoi. rewrite ParseInt_FormatInt by (unfold min_int64 in *; lia). destruct (Z.ltb_spec 0 count); [done | lia]. }
  rewrite str_byt. unfold mbind, handler_bind, session, ask. cbn [cn_sess set_status rs_bucket cn_store]. rewrite Hs. cbn.
  by rewrite str_byt, bulk_keys.
Qed.

Lemma exec_keys {T} `{StoreOps T} sv pattern (c : conn T) next keys :
  scanCache sv (rs_bucket (cn_sess c)) pattern "" 0 (cn_store c) = Ok (next, keys) ->
  cn_out (execRESPCommand sv (mkCmd "KEYS" [byt pattern]) c).2 = cn_out c ++ WArray (zlen keys) :: (WBulkString <$> keys).
Proof.
  intros Hs. unfold execRESPCommand. change (command sv (rc_name (mkCmd "KEYS" [byt pattern]))) with (Some (mkSpec (S:=T) 1 1 false (fun _ => cmdKeys sv))).
  cbn [rc_args rc_name cs_fn cs_minArgs cs_maxArgs cs_write]. change (zlen [byt pattern]) with 1.
  cbn [Z.ltb Z.leb Z.compare Pos.compare Pos.compare_cont orb andb]. unfold cmdKeys, mbind, handler_bind, session, ask. cbn [cn_sess set_status rs_bucket cn_store arg nth].
  rewrite str_byt, Hs. done.
Qed.

(** C18: [KEYS] replies with all matching keys.  Over maps whose keys are
    non-empty texts without the last code point, the reply to [KEYS] is the
    array, in order and without repetition, of exactly the keys of the cache
    that match the pattern: the range of keys the scan reads for the literal
    prefix of the pattern loses none, and the pages end. *)
Theorem keys_exact (e : resp_env) (sv : Server) (pattern : string) (c : conn Keyspaces)
    (Htext : text_keys (rs_bucket (cn_sess c)) (cn_store c))
    (Hpages : (length (map_to_list (cn_store c (CacheRef (rs_bucket (cn_sess c))))) < sv_pages sv)%nat)
    (Hsmall : zlen (map_to_list (cn_store c (CacheRef (rs_bucket (cn_sess c))))) < max_int64) :
  exists keys, cn_out (execRESPCommand (H:=map_ops e) sv (mkCmd "KEYS" [byt pattern]) c).2 = cn_out c ++ WArray (zlen keys) :: (WBulkString <$> keys) /\
    StronglySorted key_lt keys /\
    forall key, key ∈ keys <-> is_Some (cn_store c (CacheRef (rs_bucket (cn_sess c))) !! key) /\ row_matches pattern key = true.
Proof.
  eexists. split; [by eapply exec_keys, scanCache_whole |]. split; [apply filter_strict, sorted_keys_strict |]. intros key. by apply hits_exact.
Qed.

Section Client.
Context (e : resp_env) (sv : Server) (pattern : string) (count : Z) (sess : respSession) (K : Keyspaces).
Hypothesis Hcount : 1 <= count <= max_int64.
Hypothesis Htext : text_keys (rs_bucket sess) K.
Hypothesis Hzero : K (CacheRef (rs_bucket sess)) !! "0" = None.
Hypothesis Hpages : (length (map_to_list (K (CacheRef (rs_bucket sess)))) < sv_pages sv)%nat.

Let prefix := literalPrefix pattern.
Let all := sorted_keys (K (CacheRef (rs_bucket sess))) prefix (prefixUpper prefix).

Lemma client_scans fuel cursor : (length (beyond (if bool_decide (cursor <> "0") then cursor else "") all) < fuel)%nat ->
  scan_client (H:=map_ops e) sv fuel pattern count cursor sess K = Some (List.filter (row_matches pattern) (beyond (if bool_decide (cursor <> "0") then cursor else "") all)).
Proof.
  revert cursor. induction fuel as [|fuel IH]; intros cursor Hf; [lia |]. cbn [scan_client]. set (after := if bool_decide (cursor <> "0") then cursor else "") in *.
  destruct (scanCache_scanned e sv (rs_bucket sess) pattern K Hpages after count (proj1 Hcount)) as (next & used & rest & E & Eb & Hend).
  fold prefix all in Eb, Hend. rewrite (exec_scan (H:=map_ops e) sv cursor pattern count sess K next _ Hcount E). cbn [app]. rewrite Eb, List.filter_app.
  destruct Hend as [[-> ->]|(u & -> & Hn & _)]; [by rewrite bool_decide_true, app_nil_r |].
  assert (next <> "0") as Hne.
  { intros ->. assert ("0" ∈ all) as Hin.
    { assert ("0" ∈ beyond after all) as Hb by (rewrite Eb; set_solver). by apply list_elem_of_In, filter_In in Hb as [Hb%list_elem_of_In _]. }
    apply all_listed in Hin. rewrite Hzero in Hin. by apply is_Some_None in Hin. }
  rewrite bool_decide_false by done. rewrite (IH next); rewrite bool_decide_true by done; rewrite Hn; [done |].
  rewrite Eb, !length_app in Hf. cbn in Hf. lia.
Qed.
End Client.

(** C17: Following the cursors of [SCAN] ends and gives every matching key
    exactly once, in order, whatever the page size: over maps whose keys are
    non-empty texts without the last code point, when no key is ["0"], the
    cursor that ends a scan. *)
Theorem scan_complete (e : resp_env) (sv : Server) (pattern : string) (count : Z) (sess : respSession) (K : Keyspaces)
    (Hcount : 1 <= count <= max_int64) (Htext : text_keys (rs_bucket sess) K) (Hzero : K (CacheRef (rs_bucket sess)) !! "0" = None)
    (Hpages : (length (map_to_list (K (CacheRef (rs_bucket sess)))) < sv_pages sv)%nat) :
  exists keys, scan_client (H:=map_ops e) sv (sv_pages sv) pattern count "0" sess K = Some keys /\ StronglySorted key_lt keys /\
    forall key, key ∈ keys <-> is_Some (K (CacheRef (rs_bucket sess)) !! key) /\ row_matches pattern key = true.
Proof.
  eexists. split; [apply client_scans; try done |].
  - rewrite bool_decide_false, beyond_start by (try done; by intros []). pose proof (all_short (rs_bucket sess) pattern K). lia.
  - rewrite bool_decide_false, beyond_start by (try done; by intros []). split; [apply filter_strict, sorted_keys_strict |]. intros key. by apply hits_exact.
Qed.

(** ** Witnesses *)

Definition sample_keyspaces : Keyspaces := fun _ => <["user:2" := (byt "y", None)]> (<["user:1" := (byt "x", Some 99)]> {["job:1" := (byt "z", None)]}).

Lemma ascii_ordinary ks : forallb (fun r => (0 <=? r) && (r <=? 127)) ks = true -> ordinary (text ks).
Proof.
  intros Hk. exists ks. rewrite forallb_forall in Hk. split; [| split; [| done]]; apply Forall_forall; intros r Hr%list_elem_of_In%Hk%andb_true_iff; unfold scalar, surrogate, MaxRune; lia.
Qed.

Lemma sample_text : text_keys DefaultCache sample_keyspaces.
Proof.
  intros key [v Hv]. unfold sample_keyspaces in Hv. rewrite !lookup_insert_Some, lookup_singleton_Some in Hv.
  assert (forall k, key = k -> (exists ks, k = text ks /\ forallb (fun r => (0 <=? r) && (r <=? 127)) ks = true) /\ k <> "" -> ordinary key /\ key <> "") as Hk
    by (intros k -> [(ks & -> & Hks) Hne]; split; [by apply ascii_ordinary | done]).
  destruct Hv as [[<- _]|[_ [[<- _]|[_ [<- _]]]]].
  - apply (Hk "user:2"); [done |]. split; [by exists (codes "user:2") | done].
  - apply (Hk "user:1"); [done |]. split; [by exists (codes "user:1") | done].
  - apply (Hk "job:1"); [done |]. split; [by exists (codes "job:1") | done].
Qed.

Lemma keys_exact_witness :
  let c := mkConn new_session [] sample_keyspaces in
  cn_out (execRESPCommand (H:=map_ops sample_env) sample_server (mkCmd "KEYS" [byt "user:?"]) c).2 = [WArray 2; WBulkString "user:1"; WBulkString "user:2"] /\
  exists keys, cn_out (execRESPCommand (H:=map_ops sample_env) sample_server (mkCmd "KEYS" [byt "user:?"]) c).2 = cn_out c ++ WArray (zlen keys) :: (WBulkString <$> keys) /\
    StronglySorted key_lt keys /\
    forall key, key ∈ keys <-> is_Some (cn_store c (CacheRef (rs_bucket (cn_sess c))) !! key) /\ row_matches "user:?" key = true.
Proof.
  intros c. split; [vm_compute; reflexivity |]. apply (keys_exact sample_env sample_server "user:?" c); [exact sample_text | vm_compute; lia | vm_compute; reflexivity].
Defined.

Lemma scan_complete_witness :
  exists keys, scan_client (H:=map_ops sample_env) sample_server 100 "*:1" 1 "0" new_session sample_keyspaces = Some keys /\ StronglySorted key_lt keys /\
    forall key, key ∈ keys <-> is_Some (sample_keyspaces (CacheRef DefaultCache) !! key) /\ row_matches "*:1" key = true.
Proof.
  apply (scan_complete sample_env sample_server "*:1" 1 new_session sample_keyspaces); [unfold max_int64; lia | exact sample_text | vm_compute; reflexivity | vm_compute; lia].
Defined.

(** A key ["0"] hides those after it from a client that follows cursors. *)
Example scan_zero :
  let K : Keyspaces := fun _ => <["1" := (byt "y", None)]> {["0" := (byt "x", None)]} in
  scan_client (H:=map_ops sample_env) sample_server 100 "*" 1 "0" new_session K = Some ["0"].
Proof. vm_compute. reflexivity. Qed.

(** A pattern with a star does not match past a slash. *)
Example keys_slash : let K : Keyspaces := fun _ => {["a/b" := (byt "x", None)]} in
  cn_out (execRESPCommand (H:=map_ops sample_env) sample_server (mkCmd "KEYS" [byt "a*"]) (mkConn new_session [] K)).2 = [WArray 0].
Proof. vm_compute. reflexivity. Qed.
