(* ===== verification/RespServer.v ===== *)
(** * The RESP server on the tables

    A connection of the RESP server ([src/internal/resp/resp.go]) to tables any
    run of the store left behind answers its pipelines as maps would, and a
    pipeline of cache commands gets one complete reply per command. *)

From stdpp Require Import gmap sorting.
From S2P Require Import Prelude GoStrings Ns Precond Blocks Ids Tables Objects CacheTables ObjectSpec Machine ObjectRep ObjectRefine ObjectStore Names CacheValues Resp RespReplies RespSim RespPipeline RespStore RespRefine.

(** ** Tables without tombstones *)

Definition clean_tables (y : system) : bool :=
  forallb (fun rd => negb (bool_decide (ref_kind rd.1 = Cache)) || forallb (fun ko => not_deleted (ob_attrs ko.2)) (map_to_list (db_objects rd.2)))
    (map_to_list (sy_dbs y)).

Section Server.
Context `{ZL : ZstdLaws} `{DL : DigestLaws}.

Lemma clean_row y name key o : clean_tables y = true -> db_objects (db_of y (CacheRef name)) !! key = Some o -> not_deleted (ob_attrs o) = true.
Proof.
  unfold clean_tables, db_of. rewrite forallb_forall. intros Hc. destruct (sy_dbs y !! CacheRef name) as [d|] eqn:Ed; cbn; [| by rewrite lookup_empty].
  intros Ho. specialize (Hc (CacheRef name, d)). rewrite <- list_elem_of_In, elem_of_map_to_list in Hc. specialize (Hc Ed). cbn [fst snd CacheRef ref_kind] in Hc. rewrite (bool_decide_true (Cache = Cache)) in Hc by done. cbn [negb orb] in Hc.
  rewrite forallb_forall in Hc. specialize (Hc (key, o)). rewrite <- list_elem_of_In, elem_of_map_to_list in Hc. by apply Hc.
Qed.

Lemma clean_world y z : rep y z -> clean_tables y = true -> clean z.
Proof.
  intros (given & _ & Hall) Hc name key en He. specialize (Hall (CacheRef name)). pose proof (sim_objects _ _ _ _ _ Hall key) as Hk. rewrite He in Hk.
  inversion Hk as [o ? Hoe Eo|]; subst. rewrite (or_attrs _ _ _ _ _ _ Hoe). by apply (clean_row y name key).
Qed.

(** The maps of a world at the time of an environment. *)
Definition world_maps (e : resp_env) (z : world) : Keyspaces := fun r => keyspace_of (ev_now e) (spec_of z r).

Lemma stored_world e y z : rep y z -> clean_tables y = true -> stored e y (world_maps e z).
Proof. intros Hrep Hc. exists z. split; [done |]. split; [by eapply clean_world | done]. Qed.

Lemma table_MGet_length e name keys y vals : st_MGet (StoreOps:=table_ops e) name keys y = Ok vals -> length vals = length keys.
Proof.
  assert (forall d vs, MGet (ev_now e) d (ev_workers e) keys = Ok vs -> length vs = length keys) as Hm.
  { intros d. induction keys as [|key keys IH]; intros vs; cbn [MGet]; [by intros [= <-] |]. destruct (Get _ _ _ key); [| done]. cbn.
    destruct (MGet _ _ _ keys) as [vs'|]; [| done]. intros [= <-]. cbn. f_equal. by apply IH. }
  cbn [st_MGet table_ops]. destruct keys as [|key keys]; [by intros [= <-] |]. unfold cache_read. intros Hr.
  apply (Hm (db_of y (CacheRef name))). revert Hr. generalize (MGet (ev_now e) (db_of y (CacheRef name)) (ev_workers e) (key :: keys)).
  intros r. unfold statement. destruct (nsSQLIdent _ _); [| done]. destruct (forallb _ _); [| done]. cbn. destruct r as [vs|[]]; cbn; by intros [= <-].
Qed.


(** C16: one reply per command.  On any tables, a pipeline of commands that
    name cache keys gets exactly one complete RESP value per command, nested
    arrays counted out; when the connection ends, by [QUIT] or by the server
    shutting down, the commands before it have theirs.  The bucket of the
    session stays a valid name. *)
Theorem resp_replies (e : resp_env) (sv : Server) (downs : nat -> bool) (first : respCmd) (pipeline : list respCmd) (c : conn system)
    (Hsess : ValidName (rs_bucket (cn_sess c)) = true) (Hcache : forallb cache_only (first :: pipeline) = true) :
  let '(quit, c1) := ServeRESP (H:=table_ops e) sv downs first pipeline c in
  ValidName (rs_bucket (cn_sess c1)) = true /\
  exists n fs, cn_out c1 = cn_out c ++ fs /\ answers n fs = true /\ (if quit then 1 <= n <= zlen (first :: pipeline) else n = zlen (first :: pipeline)).
Proof.
  destruct (serve_served (H:=table_ops e) sv (table_MGet_length e) (length (first :: pipeline)) downs (first :: pipeline) c Hsess Hcache (le_n _))
    as (n & (Hv & fs & E & Hfs) & Hn).
  unfold ServeRESP. destruct (serve_loop _ _ _ _ _) as [quit c1]. split; [done |]. by exists n, fs.
Qed.
End Server.

(** ** Runs *)

Section Sample.
#[local] Existing Instance toy_digests.

#[local] Instance server_digest_laws : DigestLaws toy_digests.
Proof. by split. Qed.

Definition stored_run : list (context * Operation) :=
  [(mkContext 1 (fun _ => false) 1 (CacheRef "cache"), value_op 0 [] "hits" (format_bytes 5) unconditional cacheCounterContentType None false)].

Definition cmd (name : string) (args : list string) : respCmd := mkCmd name (byt <$> args).

Definition session_pipeline : list respCmd :=
  [cmd "SET" ["b"; "2"]; cmd "GET" ["a"]; cmd "GET" ["hits"]; cmd "INCRBY" ["hits"; "7"]; cmd "MGET" ["a"; "b"; "none"]; cmd "DEL" ["a"; "none"]; cmd "DBSIZE" []].

Definition session_replies : list frame :=
  [WString "OK"; WString "OK"; writeBulk (Some (byt "1")); writeBulk (Some (byt "5")); WInt 12;
   WArray 3; writeBulk (Some (byt "1")); writeBulk (Some (byt "2")); writeBulk None; WInt 1; WInt 2].

Lemma stored_clean : clean_tables (exec_run stored_run new_system).2 = true.
Proof. vm_compute. reflexivity. Qed.

#[local] Abbreviation session_result :=
  (ServeRESP (H:=table_ops sample_env) sample_server (fun _ => false) (cmd "SET" ["a"; "1"]) session_pipeline (mkConn new_session [] (exec_run stored_run new_system).2)).

Lemma session_served : session_result.1 = false /\ cn_out session_result.2 = session_replies.
Proof. split; vm_compute; reflexivity. Qed.


Lemma resp_replies_witness :
  ValidName (rs_bucket (cn_sess session_result.2)) = true /\ exists fs, cn_out session_result.2 = fs /\ answers 8 fs = true.
Proof.
  pose proof (resp_replies sample_env sample_server (fun _ => false) (cmd "SET" ["a"; "1"]) session_pipeline
    (mkConn new_session [] (exec_run stored_run new_system).2) eq_refl eq_refl) as Hr.
  pose proof session_served as [Eq _]. destruct (ServeRESP _ _ _ _ _) as [quit c1]. cbn [fst snd] in *. subst quit.
  destruct Hr as (Hv & n & fs & E & Ha & ->). split; [exact Hv |]. exists fs. split; [exact E | exact Ha].
Defined.

(** [MGET] on objects of a bucket that is missing starts an array it does not
    complete. *)
Example mget_incomplete :
  let c1 := (execRESPCommand (H:=table_ops sample_env) sample_server (cmd "MGET" ["s3://nowhere/x"; "a"]) (mkConn new_session [] new_system)).2 in
  (exists m, cn_out c1 = [WArray 2; WError m]) /\ answers 1 (cn_out c1) = false.
Proof. vm_compute. split; [by eexists | reflexivity]. Qed.
End Sample.
