(* ===== verification/Origin.v ===== *)
(** * Origins

    Models the part of [internal/objcache/origin.go] between the cache tier and
    the stores behind it: attributes and their versions, capabilities, keys of
    the origin, the classification of errors, and the methods of [origin] over
    a driver.  A driver is an [OriginDriver]; what the tier relies on is
    [OriginLaws].  Times are in the resolution of the database, microseconds;
    the zero time is [None]. *)

From stdpp Require Import gmap.
From S2P Require Import Prelude GoStrings Ns Ranges Precond.

(** ** Errors *)

Inductive origin_error :=
| errOriginPrecondition
| ErrOriginConflict
| ErrOriginUnsupported
| ErrOriginKeyUnsupported
| ErrOriginListingUnsupported
| StatusError (status : Z)
| S3NotFound | S3Precondition | S3Conflict
| ErrNotExist
| ErrInvalid
| OtherError.
#[global] Instance origin_error_eq_dec : EqDecision origin_error.
Proof. solve_decision. Defined.

(** [errors.Is(err, ErrOriginUnsupported)]: an unsupported key is one. *)
Definition is_unsupported (e : origin_error) : bool :=
  match e with ErrOriginUnsupported | ErrOriginKeyUnsupported => true | _ => false end.

Inductive originErrorClass := originErrorOther | originErrorNotFound | originErrorPrecondition | originErrorConflict.
#[global] Instance originErrorClass_eq_dec : EqDecision originErrorClass.
Proof. solve_decision. Defined.

Definition classifyOriginError (e : origin_error) : originErrorClass :=
  match e with
  | ErrOriginConflict | S3Conflict => originErrorConflict
  | errOriginPrecondition | S3Precondition => originErrorPrecondition
  | StatusError status =>
      if status =? 409 then originErrorConflict
      else if status =? 412 then originErrorPrecondition
      else if status =? 404 then originErrorNotFound
      else originErrorOther
  | S3NotFound | ErrNotExist => originErrorNotFound
  | _ => originErrorOther
  end.

Definition mapOriginError (e : origin_error) (conditional : bool) : origin_error :=
  match classifyOriginError e with
  | originErrorConflict => ErrOriginConflict
  | originErrorPrecondition => errOriginPrecondition
  | originErrorNotFound => if conditional then errOriginPrecondition else e
  | originErrorOther => e
  end.

Definition isObjectNotFound (e : origin_error) : bool := bool_decide (classifyOriginError e = originErrorNotFound).

(** ** Attributes *)

(** [mime.TypeByExtension], which depends on the files of the system. *)
Class Mime := mime_type : string -> string.

(** [path.Ext]: from the last dot of the last element. *)
Fixpoint ext_loop (rev_s : string) (acc : string) : string :=
  match rev_s with
  | EmptyString => ""
  | String c rest =>
      if bool_decide (c = "/"%char) then ""
      else if bool_decide (c = "."%char) then String c acc
      else ext_loop rest (String c acc)
  end.

Definition path_Ext (s : string) : string := ext_loop (srev s) "".

Definition contentTypeFor `{Mime} (key : string) : string :=
  let ct := mime_type (path_Ext key) in if bool_decide (ct <> "") then ct else "application/octet-stream".

Record originAttrs := mkOriginAttrs {
  oa_Size : Z;
  oa_ETag : string;
  oa_LastModified : option Z;
  oa_ContentType : string;
  oa_ContentEncoding : string;
  oa_UserMetadata : list string
}.

Definition no_attrs : originAttrs := mkOriginAttrs 0 "" None "" "" [].

Definition originAttrsFor `{Mime} (key : string) (size : Z) (etag : string) (modified : option Z) (contentType contentEncoding : string)
    (userMeta : list string) : originAttrs :=
  mkOriginAttrs size etag modified (if bool_decide (contentType = "") then contentTypeFor key else contentType) contentEncoding userMeta.

(** The zero time is in the year 1. *)
Definition time_of (t : option Z) : Z := default (-62135596800000000) t.

(** Times whose nanoseconds fit 64 bits. *)
Definition good_time (t : Z) : Prop := 0 <= t /\ 1000 * t <= max_int64.

(** [time.Time.UnixNano] *)
Definition UnixNano (t : option Z) : Z := wrap64 (1000 * time_of t).

Definition orValue (value fallback : string) : string := if bool_decide (value <> "") then value else fallback.

Definition versionFor (a : originAttrs) : string :=
  orValue (oa_ETag a) (FormatInt (oa_Size a) +:+ "-" +:+ FormatInt (UnixNano (oa_LastModified a))).

Definition etagForAttrs (a : originAttrs) : string := versionFor a.

Definition attrs_info (a : originAttrs) : ObjectInfo :=
  mkInfo (oa_Size a) (versionFor a) (versionFor a) (oa_ContentType a) (oa_ContentEncoding a) "" "" "" (oa_UserMetadata a)
    (time_of (oa_LastModified a)) None.

Definition default_options : WriteOptions :=
  mkWriteOptions (mkPrecondition Unconditional "") None "" "" None None "" None false (NormalPublication "") None 0.

Definition attrs_options (a : originAttrs) : WriteOptions :=
  mkWriteOptions (mkPrecondition Unconditional "") (Some (oa_UserMetadata a)) (oa_ContentType a) (oa_ContentEncoding a)
    (oa_LastModified a) None "" None false (NormalPublication (versionFor a)) None 0.

Record originObject := mkOriginObject { oo_Key : string; oo_Attrs : originAttrs }.

Record originUpload := mkOriginUpload {
  ou_UserMetadata : list string;
  ou_ContentType : string;
  ou_ContentEncoding : string;
  ou_Checksum : option Checksum;
  ou_Precondition : Precondition
}.

Definition conditional (u : originUpload) : bool :=
  match pc_Mode (ou_Precondition u) with
  | IfPresent => true
  | IfMatch => bool_decide (pc_ETag (ou_Precondition u) <> "")
  | _ => false
  end.

(** ** Capabilities *)

Definition capRead : Z := 1.
Definition capWrite : Z := 2.
Definition capList : Z := 4.
Definition capConditional : Z := 8.
Definition capRange : Z := 16.
Definition capMetadata : Z := 32.
Definition originCapabilitiesAll : Z := Z.lor capRead (Z.lor capWrite (Z.lor capList (Z.lor capConditional (Z.lor capRange capMetadata)))).

Definition caps_has (c required : Z) : bool := Z.land c required =? required.

Definition cap_names : list (Z * string) :=
  [(capRead, "read"); (capWrite, "write"); (capList, "list"); (capConditional, "conditional"); (capRange, "range"); (capMetadata, "metadata")].

Definition caps_String (c : Z) : string :=
  if c =? 0 then "none" else String.concat "|" (snd <$> List.filter (fun f => caps_has c (fst f)) cap_names).

(** ** Keys *)

Definition HasSuffix (s suffix : string) : bool := HasPrefix (srev s) (srev suffix).
Definition TrimSuffix (s suffix : string) : string :=
  if HasSuffix s suffix then stake (String.length s - String.length suffix) s else s.

Definition newOriginPrefix (prefix : string) : string := TrimChar "/" prefix.

Definition prefix_key (p key : string) : string := if bool_decide (p = "") then key else p +:+ "/" +:+ key.

Definition prefix_logical (p key : string) : string := if bool_decide (p = "") then key else TrimPrefix key (p +:+ "/").

Definition splitBucket (key : string) : string * string :=
  let key := TrimPrefix key "/" in
  match Cut key "/" with
  | Some (bucket, rest) => (bucket +:+ "/", rest)
  | None => (key, "")
  end.

Record origin := mkOrigin { og_caps : Z; og_prefix : string; og_stripBucket : bool }.

Definition physicalKey (o : origin) (key : string) : string :=
  prefix_key (og_prefix o) (if og_stripBucket o then snd (splitBucket key) else key).

Definition Supports (o : origin) (required : Z) : bool := caps_has (og_caps o) required.

(** ** Drivers

    The interfaces [originDriver], [afterIterDriver], [batchDeleteDriver] and
    [keyChecker]; a driver need not implement the last three.  The state is
    what is behind the driver; an operation that changes it takes the time. *)
Class OriginDriver (St : Type) := {
  dr_Upload : Z -> string -> bytes -> Z -> originUpload -> St -> result origin_error originAttrs * St;
  dr_Delete : Z -> string -> St -> result origin_error unit * St;
  dr_GetWithAttrs : string -> St -> result origin_error (bytes * originAttrs);
  dr_GetRange : string -> Z -> Z -> string -> St -> result origin_error bytes;
  dr_Attributes : string -> St -> result origin_error originAttrs;
  dr_Iter : string -> St -> list (result origin_error originObject);
  dr_IterAfter : option (string -> string -> St -> list (result origin_error originObject));
  dr_DeleteMany : option (Z -> list string -> St -> list (result origin_error unit) * St);
  dr_checkKey : option (string -> St -> result origin_error unit)
}.

Section Methods.
Context {St : Type} `{Dr : OriginDriver St} (o : origin).

Definition map_error {A} (conditional : bool) (r : result origin_error A) : result origin_error A :=
  match r with Ok x => Ok x | Err e => Err (mapOriginError e conditional) end.

Definition Origin_Upload (now : Z) (key : string) (body : bytes) (size : Z) (u : originUpload) (s : St) : result origin_error originAttrs * St :=
  if negb (Supports o capWrite) then (Err ErrOriginUnsupported, s)
  else if match pc_Mode (ou_Precondition u) with Unconditional => false | _ => negb (Supports o capConditional) end
  then (Err ErrOriginUnsupported, s)
  else
    let '(r, s) := dr_Upload now (physicalKey o key) body size u s in
    (map_error (conditional u) r, s).

Definition Origin_Delete (now : Z) (key : string) (s : St) : result origin_error unit * St :=
  if negb (Supports o capWrite) then (Err ErrOriginUnsupported, s) else dr_Delete now (physicalKey o key) s.

Fixpoint delete_each (now : Z) (keys : list string) (s : St) : list (result origin_error unit) * St :=
  match keys with
  | [] => ([], s)
  | key :: rest =>
      let '(r, s) := Origin_Delete now key s in
      let '(rs, s) := delete_each now rest s in
      (r :: rs, s)
  end.

(** [copy(out, errs)]: what the driver leaves out is no error. *)
Fixpoint copy_errors (n : nat) (errs : list (result origin_error unit)) : list (result origin_error unit) :=
  match n, errs with
  | O, _ => []
  | Datatypes.S n, e :: errs => e :: copy_errors n errs
  | Datatypes.S n, [] => Ok tt :: copy_errors n []
  end.

Definition Origin_DeleteMany (now : Z) (keys : list string) (s : St) : list (result origin_error unit) * St :=
  match keys with
  | [] => ([], s)
  | _ =>
      if negb (Supports o capWrite) then ((fun _ => Err ErrOriginUnsupported) <$> keys, s)
      else match dr_DeleteMany with
           | None => delete_each now keys s
           | Some f => let '(errs, s) := f now (physicalKey o <$> keys) s in (copy_errors (length keys) errs, s)
           end
  end.

Definition Origin_GetWithAttrs (key : string) (s : St) : result origin_error (bytes * originAttrs) :=
  if negb (Supports o capRead) then Err ErrOriginUnsupported else map_error false (dr_GetWithAttrs (physicalKey o key) s).

Definition Origin_GetRange (key : string) (offset length : Z) (ifMatch : string) (s : St) : result origin_error bytes :=
  if negb (Supports o capRange) then Err ErrOriginUnsupported
  else if bool_decide (ifMatch <> "") && negb (Supports o capConditional) then Err ErrOriginUnsupported
  else map_error (bool_decide (ifMatch <> "")) (dr_GetRange (physicalKey o key) offset length ifMatch s).

Definition Origin_Attributes (key : string) (s : St) : result origin_error originAttrs :=
  if negb (Supports o capMetadata) then Err ErrOriginUnsupported else dr_Attributes (physicalKey o key) s.

(** [origin.iter]: the objects of a walk under their logical keys. *)
Definition Origin_iter (dir : string) (walk : list (result origin_error originObject)) : list (result origin_error originObject) :=
  if negb (Supports o capList) then []
  else
    let bucket := if og_stripBucket o then fst (splitBucket dir) else "" in
    (fun r => match r with
              | Ok obj => Ok (mkOriginObject (bucket +:+ prefix_logical (og_prefix o) (oo_Key obj)) (oo_Attrs obj))
              | Err e => Err e
              end) <$> walk.

Definition Origin_Iter (dir : string) (s : St) : list (result origin_error originObject) :=
  Origin_iter dir (dr_Iter (physicalKey o dir) s).

Definition Origin_IterAfter (dir after : string) (s : St) : list (result origin_error originObject) :=
  if bool_decide (after = "") then Origin_Iter dir s
  else match dr_IterAfter with
       | None => Origin_Iter dir s
       | Some f => Origin_iter dir (f (physicalKey o dir) (physicalKey o after) s)
       end.

Definition Origin_checkKey (key : string) (s : St) : result origin_error unit :=
  match dr_checkKey with None => Ok tt | Some f => f (physicalKey o key) s end.

End Methods.

(** A version that no other text can be taken for: entity tags of origins are
    not empty and have no colon. *)
Definition good_version (v : string) : Prop := v <> "" /\ all_bytes (fun c => negb (bool_decide (c = ":"%char))) v = true.

(** ** What the tier relies on

    A version names one content of a key for ever: [ol_history] has every
    content a key has had, by version.  Uploads add their bodies to it, and
    reads return what it has.  [ol_clock] is the latest time the origin has seen.  Sizes
    are [int64]. *)
Class OriginLaws (St : Type) `{OriginDriver St} := {
  ol_wf : St -> Prop;
  ol_clock : St -> Z;
  ol_history : St -> gmap (string * string) bytes;
  ol_versions key v body s : ol_wf s -> ol_history s !! (key, v) = Some body -> good_version v /\ zlen body <= max_int64;
  ol_upload now key body u s r s' :
    ol_wf s -> ol_clock s < now -> good_time now -> zlen body <= max_int64 -> dr_Upload now key body (zlen body) u s = (r, s') ->
    ol_wf s' /\ ol_clock s' <= now /\ ol_history s ⊆ ol_history s' /\
    (forall i b, ol_history s' !! i = Some b -> ol_history s !! i = Some b \/ i.1 = key /\ b = body) /\
    forall a, r = Ok a -> ol_history s' !! (key, versionFor a) = Some body /\ oa_Size a = zlen body;
  ol_delete now key s r s' :
    ol_wf s -> ol_clock s <= now -> good_time now -> dr_Delete now key s = (r, s') ->
    ol_wf s' /\ ol_clock s' <= now /\ ol_history s' = ol_history s;
  ol_delete_many f now keys s r s' :
    dr_DeleteMany = Some f -> ol_wf s -> ol_clock s < now -> good_time now -> f now keys s = (r, s') ->
    ol_wf s' /\ ol_clock s' <= now /\ ol_history s' = ol_history s;
  ol_get key s body a :
    ol_wf s -> dr_GetWithAttrs key s = Ok (body, a) -> ol_history s !! (key, versionFor a) = Some body /\ oa_Size a = zlen body;
  ol_attributes key s a :
    ol_wf s -> dr_Attributes key s = Ok a -> exists body, ol_history s !! (key, versionFor a) = Some body /\ oa_Size a = zlen body;
  ol_range key offset length ifMatch s b :
    ol_wf s -> 0 <= offset -> 0 <= length -> dr_GetRange key offset length ifMatch s = Ok b ->
    exists v body, ol_history s !! (key, v) = Some body /\ b = slice body offset (offset + length) /\
      (ifMatch <> "" -> is_Some (ol_history s !! (key, ifMatch)) -> v = ifMatch)
}.
