(* ===== verification/LocalOrigin.v ===== *)
(** * The filesystem origin

    Models [localBucket] of [internal/objcache/origin.go]: objects as files of a
    directory tree, versions made of size and modification time, conditional
    uploads by renaming a temporary file, and listings in the order of keys.
    The tree is that of [os.Root]; permissions and failures of the disk are
    left out, and a temporary file is not in the tree before it is renamed. *)

From stdpp Require Import gmap sorting.
From S2P Require Import Prelude GoStrings Ns Ranges Utf8 Precond Listing Origin.

(** ** A file tree *)

#[local] Set Warnings "-register-all".

Inductive node :=
| File (data : bytes) (mtime : Z)
| Dir (entries : list (string * node)).

(** Induction with the hypothesis for every entry of a directory. *)
Lemma node_tree_ind (P : node -> Prop) :
  (forall data mtime, P (File data mtime)) -> (forall es, Forall (fun e => P e.2) es -> P (Dir es)) -> forall n, P n.
Proof.
  intros Hf Hd. fix IH 1. intros [data mtime|es]; [apply Hf |]. apply Hd.
  induction es as [|[name n] es IHes]; constructor; [apply IH | apply IHes].
Qed.

Inductive fs_error := ENOENT | ENOTDIR | EISDIR | ENOTEMPTY.

Fixpoint entry (name : string) (es : list (string * node)) : option node :=
  match es with
  | [] => None
  | (name', n) :: es => if bool_decide (name' = name) then Some n else entry name es
  end.

Fixpoint set_entry (name : string) (n : node) (es : list (string * node)) : list (string * node) :=
  match es with
  | [] => [(name, n)]
  | (name', n') :: es => if bool_decide (name' = name) then (name, n) :: es else (name', n') :: set_entry name n es
  end.

Definition drop_entry (name : string) (es : list (string * node)) : list (string * node) :=
  List.filter (fun e => negb (bool_decide (e.1 = name))) es.

(** [Root.Stat] and [Root.Open] *)
Fixpoint find (path : list string) (n : node) : result fs_error node :=
  match path with
  | [] => Ok n
  | name :: rest =>
      match n with
      | File _ _ => Err ENOTDIR
      | Dir es => match entry name es with Some c => find rest c | None => Err ENOENT end
      end
  end.

(** [Root.MkdirAll] *)
Fixpoint mkdir_all (path : list string) (n : node) : result fs_error node :=
  match n with
  | File _ _ => Err ENOTDIR
  | Dir es =>
      match path with
      | [] => Ok n
      | name :: rest =>
          let* c := mkdir_all rest (default (Dir []) (entry name es)) in
          Ok (Dir (set_entry name c es))
      end
  end.

(** [Root.Rename] of a temporary file. *)
Fixpoint place (path : list string) (file : node) (n : node) : result fs_error node :=
  match n with
  | File _ _ => Err ENOTDIR
  | Dir es =>
      match path with
      | [] => Err EISDIR
      | name :: rest =>
          match rest, entry name es with
          | [], Some (Dir _) => Err EISDIR
          | [], _ => Ok (Dir (set_entry name file es))
          | _, None => Err ENOENT
          | _, Some c => let* c := place rest file c in Ok (Dir (set_entry name c es))
          end
      end
  end.

(** [Root.Remove]: a file or an empty directory. *)
Fixpoint remove (path : list string) (n : node) : result fs_error node :=
  match n with
  | File _ _ => Err ENOTDIR
  | Dir es =>
      match path with
      | [] => Err ENOTEMPTY
      | name :: rest =>
          match rest, entry name es with
          | _, None => Err ENOENT
          | [], Some (Dir (_ :: _)) => Err ENOTEMPTY
          | [], Some _ => Ok (Dir (drop_entry name es))
          | _, Some c => let* c := remove rest c in Ok (Dir (set_entry name c es))
          end
      end
  end.

(** ** The bucket *)

Definition localNameMax : Z := 255.
Definition localTempDir : string := ".pgvs3-tmp".

Definition valid_part (part : string) : bool :=
  bool_decide (part <> "") && bool_decide (part <> ".") && bool_decide (part <> "..") && (slen part <=? localNameMax).

Definition validLocalKey (key : string) : bool :=
  if negb (all_bytes (fun c => negb (code c =? 0)) key) || bool_decide (key = localTempDir) || HasPrefix key (localTempDir +:+ "/") then false
  else forallb valid_part (Split key "/").

Record localMeta := mkLocalMeta { lm_contentType : string; lm_contentEncoding : string; lm_userMeta : list string }.

Record localBucket := mkLocalBucket { lb_root : node; lb_meta : gmap string localMeta }.

(** [openLocalBucket] on an empty directory. *)
Definition openLocalBucket : localBucket := mkLocalBucket (Dir [(localTempDir, Dir [])]) ∅.

Definition path_of (key : string) : list string := Split key "/".
(** The elements of [path.Dir(key)]; none for the root. *)
Definition dir_of (key : string) : list string := removelast (path_of key).

Definition isMissingPath (e : fs_error) : bool := match e with ENOENT | ENOTDIR => true | _ => false end.

Definition localWriteError (e : fs_error) : origin_error :=
  match e with ENOTDIR | EISDIR => ErrOriginKeyUnsupported | ENOENT => ErrNotExist | ENOTEMPTY => OtherError end.

Definition local_version (size mtime : Z) : string := FormatInt size +:+ "-" +:+ FormatInt (UnixNano (Some mtime)).

Section Bucket.
Context `{Mime}.

(** The file of a key with its attributes, for a valid key. *)
Definition attrsLocked (b : localBucket) (key : string) : option (bytes * originAttrs) :=
  if negb (validLocalKey key) then None
  else match find (path_of key) (lb_root b) with
       | Ok (File data mtime) =>
           let m := default (mkLocalMeta "" "" []) (lb_meta b !! key) in
           Some (data, originAttrsFor key (zlen data) (local_version (zlen data) mtime) (Some mtime)
                         (lm_contentType m) (lm_contentEncoding m) (lm_userMeta m))
       | _ => None
       end.

Definition exists_etag (cur : option (bytes * originAttrs)) : bool * string :=
  match cur with Some (_, a) => (true, oa_ETag a) | None => (false, "") end.

(** [publishLocked]: also the tree when it fails, with the directories made. *)
Definition publishLocked (now : Z) (data : bytes) (key : string) (p : Precondition) (b : localBucket) : result origin_error unit * node :=
  let '(present, etag) := exists_etag (attrsLocked b key) in
  if negb (Precondition_Allows p present etag) then (Err errOriginPrecondition, lb_root b)
  else match mkdir_all (dir_of key) (lb_root b) with
       | Err e => (Err (localWriteError e), lb_root b)
       | Ok root =>
           match place (path_of key) (File data now) root with
           | Err e => (Err (localWriteError e), root)
           | Ok root => (Ok tt, root)
           end
       end.

Definition local_Upload (now : Z) (key : string) (data : bytes) (_ : Z) (u : originUpload) (b : localBucket)
    : result origin_error originAttrs * localBucket :=
  if negb (validLocalKey key) then (Err ErrOriginKeyUnsupported, b)
  else match publishLocked now data key (ou_Precondition u) b with
       | (Err e, root) => (Err e, mkLocalBucket root (lb_meta b))
       | (Ok _, root) =>
           let b := mkLocalBucket root
             (<[key := mkLocalMeta (ou_ContentType u) (ou_ContentEncoding u) (ou_UserMetadata u)]> (lb_meta b)) in
           (Ok match attrsLocked b key with Some (_, a) => a | None => no_attrs end, b)
       end.

Definition local_Delete (key : string) (b : localBucket) : result origin_error unit * localBucket :=
  if negb (validLocalKey key) then (Ok tt, b)
  else
    let meta := delete key (lb_meta b) in
    match remove (path_of key) (lb_root b) with
    | Ok root => (Ok tt, mkLocalBucket root meta)
    | Err e =>
        (if isMissingPath e then Ok tt
         else match find (path_of key) (lb_root b) with Ok (Dir _) => Ok tt | _ => Err OtherError end,
         mkLocalBucket (lb_root b) meta)
    end.

Definition local_GetWithAttrs (key : string) (b : localBucket) : result origin_error (bytes * originAttrs) :=
  match attrsLocked b key with Some x => Ok x | None => Err ErrNotExist end.

Definition local_GetRange (key : string) (offset length : Z) (ifMatch : string) (b : localBucket) : result origin_error bytes :=
  let cur := attrsLocked b key in
  let '(present, etag) := exists_etag cur in
  if negb (ReadCondition_Allows (mkReadCondition ifMatch "") present etag) then Err errOriginPrecondition
  else match cur with
       | None => Err ErrNotExist
       | Some (data, a) =>
           if (offset <? 0) || (oa_Size a <? offset) then Err ErrInvalid else Ok (slice data offset (offset + length))
       end.

Definition local_Attributes (key : string) (b : localBucket) : result origin_error originAttrs :=
  match attrsLocked b key with Some (_, a) => Ok a | None => Err ErrNotExist end.

Definition local_checkKey (key : string) (b : localBucket) : result origin_error unit :=
  if negb (validLocalKey key) then Err ErrOriginKeyUnsupported
  else match find (dir_of key) (lb_root b) with
       | Ok (File _ _) | Err ENOTDIR => Err ErrOriginKeyUnsupported
       | _ => match find (path_of key) (lb_root b) with Ok (Dir _) => Err ErrOriginKeyUnsupported | _ => Ok tt end
       end.

(** *** Listing *)

Definition listingKey (e : string * node) : string :=
  match e.2 with Dir _ => e.1 +:+ "/" | File _ _ => e.1 end.

Definition listing_le {A} (x y : string * A) : Prop := slt y.1 x.1 = false.
#[global] Instance listing_le_dec {A} (x y : string * A) : Decision (listing_le x y).
Proof. unfold listing_le. apply _. Defined.

Definition join_path (dir name : string) : string := if bool_decide (dir = ".") then name else dir +:+ "/" +:+ name.

(** [walk]: the names of the files below a directory.  What the entries yield
    is put in the order of their listing keys. *)
Fixpoint walk (name : string) (n : node) : list string :=
  match n with
  | File _ _ => [name]
  | Dir es => concat (merge_sort listing_le (List.map (fun e => (listingKey e, walk (join_path name e.1) e.2)) es)).*2
  end.

Definition local_Iter (dir : string) (b : localBucket) : list (result origin_error originObject) :=
  let name := TrimSuffix dir "/" in
  let start := if bool_decide (name = "") then Some (".", [])
               else if validLocalKey name then Some (name, path_of name) else None in
  match start with
  | None => []
  | Some (name, path) =>
      match find path (lb_root b) with
      | Ok (Dir es) =>
          omap (fun key => (fun x => Ok (mkOriginObject key x.2)) <$> attrsLocked b key) (walk name (Dir es))
      | _ => []
      end
  end.

End Bucket.

(** ** Trees *)

Lemma entry_set name name' n es : entry name' (set_entry name n es) = if decide (name' = name) then Some n else entry name' es.
Proof.
  induction es as [|[x c] es IH]; cbn; [by repeat case_decide; repeat case_bool_decide; subst |].
  repeat case_bool_decide; cbn; repeat case_bool_decide; case_decide; subst; try done; by rewrite IH; case_decide.
Qed.

Lemma entry_drop name name' es : entry name' (drop_entry name es) = if decide (name' = name) then None else entry name' es.
Proof.
  induction es as [|[x c] es IH]; cbn; [by case_decide |]. repeat case_bool_decide; cbn; repeat case_bool_decide; case_decide; subst; try done; by rewrite IH; case_decide.
Qed.

(** The file at a path. *)
Definition file_at (path : list string) (n : node) : option (bytes * Z) :=
  match find path n with Ok (File data mtime) => Some (data, mtime) | _ => None end.

Lemma file_at_cons name rest es : file_at (name :: rest) (Dir es) = entry name es ≫= file_at rest.
Proof. unfold file_at. cbn. by destruct (entry name es). Qed.

Lemma file_at_empty path : file_at path (Dir []) = None.
Proof. by destruct path. Qed.

Lemma mkdir_file path n n' q : mkdir_all path n = Ok n' -> file_at q n' = file_at q n.
Proof.
  revert n n' q. induction path as [|name rest IH]; intros [|es] n' q; cbn; try done; [by intros [= <-] |].
  intros (c & Hc & [= <-])%rbind_Ok. destruct q as [|nm q]; [done |]. rewrite !file_at_cons, entry_set.
  case_decide as E; [subst | done]. cbn. rewrite (IH _ _ q Hc). destruct (entry name es); cbn; [done | apply file_at_empty].
Qed.

Lemma place_file path data mtime n n' q :
  place path (File data mtime) n = Ok n' -> file_at q n' = if decide (q = path) then Some (data, mtime) else file_at q n.
Proof.
  revert n n' q. induction path as [|name rest IH]; intros [|es] n' q; cbn; try done.
  assert (rest = [] \/ rest <> []) as [->|Hne] by (destruct rest; auto).
  - intros H. assert (n' = Dir (set_entry name (File data mtime) es) /\ entry name es ≫= (fun c => file_at [] c) = entry name es ≫= (fun c => match c with File d t => Some (d, t) | Dir _ => None end)
      /\ forall x q', entry name es ≫= file_at (x :: q') = None) as (-> & _ & Hx).
    { destruct (entry name es) as [[]|]; try done; (split; [congruence | done]). }
    destruct q as [|nm q]; [done |]. rewrite !file_at_cons, entry_set. case_decide as E; [subst nm | by rewrite decide_False by congruence].
    destruct q as [|x q]; [by rewrite decide_True |]. rewrite decide_False by congruence. cbn. by rewrite Hx.
  - destruct (entry name es) as [c|] eqn:Ec; [| by destruct rest]. intros H.
    assert (exists c', place rest (File data mtime) c = Ok c' /\ n' = Dir (set_entry name c' es)) as (c' & Hc & ->)
      by (destruct rest; [done |]; apply rbind_Ok in H as (c' & Hc & [= <-]); eauto).
    destruct q as [|nm q]; [done |]. rewrite !file_at_cons, entry_set. case_decide as E; [subst nm | by rewrite decide_False by congruence].
    rewrite Ec. cbn. rewrite (IH _ _ q Hc). do 2 case_decide; congruence.
Qed.

Lemma remove_file path n n' q : remove path n = Ok n' -> file_at q n' = if decide (q = path) then None else file_at q n.
Proof.
  revert n n' q. induction path as [|name rest IH]; intros [|es] n' q; cbn; try done.
  assert (rest = [] \/ rest <> []) as [->|Hne] by (destruct rest; auto).
  - intros H. assert (n' = Dir (drop_entry name es) /\ forall x q', entry name es ≫= file_at (x :: q') = None) as (-> & Hx).
    { destruct (entry name es) as [[|[|]]|]; try done; (split; [congruence | done]). }
    destruct q as [|nm q]; [done |]. rewrite !file_at_cons, entry_drop. case_decide as E; [subst nm | by rewrite decide_False by congruence].
    destruct q as [|x q]; [by rewrite decide_True |]. rewrite decide_False by congruence. by rewrite Hx.
  - destruct (entry name es) as [c|] eqn:Ec; [| by destruct rest]. intros H.
    assert (exists c', remove rest c = Ok c' /\ n' = Dir (set_entry name c' es)) as (c' & Hc & ->)
      by (destruct rest; [done |]; apply rbind_Ok in H as (c' & Hc & [= <-]); eauto).
    destruct q as [|nm q]; [done |]. rewrite !file_at_cons, entry_set. case_decide as E; [subst nm | by rewrite decide_False by congruence].
    rewrite Ec. cbn. rewrite (IH _ _ q Hc). do 2 case_decide; congruence.
Qed.

(** *** Keys and paths *)

Lemma Split_nonempty s sep : Split s sep <> [].
Proof. destruct s as [|c s]; cbn; [done |]. case_decide; [done |]. by destruct (Split s sep). Qed.

Lemma concat_Split s : String.concat "/" (Split s "/") = s.
Proof.
  induction s as [|c s IH]; [done |]. cbn [Split]. pose proof (Split_nonempty s "/"). case_decide as E.
  - subst c. destruct (Split s "/") as [|t ts]; [done |]. cbn [String.concat] in *. by rewrite IH.
  - destruct (Split s "/") as [|t ts]; [done |]. cbn in *. by destruct ts; rewrite <- IH.
Qed.

Lemma path_of_inj key key' : path_of key = path_of key' -> key = key'.
Proof. unfold path_of. intros E. by rewrite <- (concat_Split key), E, concat_Split. Qed.

(** ** The bucket keeps the laws of an origin

    Beside the bucket there is what it ever published, and the latest time. *)

Record local_origin := mkLocalOrigin { lg_bucket : localBucket; lg_history : gmap (string * string) bytes; lg_clock : Z }.

Definition new_local_origin : local_origin := mkLocalOrigin openLocalBucket ∅ (-1).

Section Laws.
Context `{Mime}.

Definition publish_upload (now : Z) (key : string) (data : bytes) (size : Z) (u : originUpload) (s : local_origin)
    : result origin_error originAttrs * local_origin :=
  let '(r, b) := local_Upload now key data size u (lg_bucket s) in
  (r, mkLocalOrigin b (match r with Ok a => <[(key, versionFor a) := data]> (lg_history s) | Err _ => lg_history s end) now).

#[global] Instance local_driver : OriginDriver local_origin := {|
  dr_Upload := publish_upload;
  dr_Delete now key s := let '(r, b) := local_Delete key (lg_bucket s) in (r, mkLocalOrigin b (lg_history s) now);
  dr_GetWithAttrs key s := local_GetWithAttrs key (lg_bucket s);
  dr_GetRange key offset length ifMatch s := local_GetRange key offset length ifMatch (lg_bucket s);
  dr_Attributes key s := local_Attributes key (lg_bucket s);
  dr_Iter dir s := local_Iter dir (lg_bucket s);
  dr_IterAfter := None;
  dr_DeleteMany := None;
  dr_checkKey := Some (fun key s => local_checkKey key (lg_bucket s))
|}.

(** Every file is in the history under its version, and every version has a
    time that has passed. *)
Record local_wf (s : local_origin) : Prop := {
  lw_files key data mtime : validLocalKey key = true -> file_at (path_of key) (lb_root (lg_bucket s)) = Some (data, mtime) ->
    lg_history s !! (key, local_version (zlen data) mtime) = Some data;
  lw_versions key v body : lg_history s !! (key, v) = Some body ->
    exists n t, v = local_version n t /\ 0 <= n /\ good_time t /\ t <= lg_clock s /\ zlen body <= max_int64
}.

Lemma local_version_inj n t n' t' : 0 <= n -> 0 <= n' -> good_time t -> good_time t' -> local_version n t = local_version n' t' -> t = t'.
Proof.
  intros Hn Hn' [Ht1 Ht2] [Ht1' Ht2'] E. unfold local_version in E. unfold max_int64 in *.
  assert (forall n, 0 <= n -> all_bytes (fun c => negb (bool_decide (c = "-"%char))) (FormatInt n) = true) as Hd.
  { intros x Hx. eapply all_bytes_impl; [| by apply FormatInt_digits]. intros c Hc. apply negb_true_iff, bool_decide_eq_false. by intros ->. }
  apply (f_equal (fun s => Cut s "-"%char)) in E. change ("-" +:+ ?x) with (String "-" x) in E. rewrite !Cut_app in E by auto.
  assert (FormatInt (UnixNano (Some t)) = FormatInt (UnixNano (Some t'))) as E2 by (by injection E). unfold UnixNano, time_of in E2. cbn in E2.
  rewrite !wrap64_small in E2 by lia. apply (f_equal ParseInt) in E2. rewrite !ParseInt_FormatInt in E2 by (unfold min_int64, max_int64; lia). injection E2. lia.
Qed.

Lemma local_version_clean n t : 0 <= n -> good_time t -> all_bytes etag_byte (local_version n t) = true /\ local_version n t <> "".
Proof.
  intros Hn [Ht1 Ht2]. unfold max_int64 in *. assert (forall x, 0 <= x -> all_bytes etag_byte (FormatInt x) = true) as Hd.
  { intros x Hx. eapply all_bytes_impl; [| by apply FormatInt_digits]. intros c. unfold is_digit, etag_byte, is_hex. rewrite !andb_true_iff, !orb_true_iff, !andb_true_iff, !Z.leb_le. lia. }
  unfold local_version. pose proof (FormatInt_nonempty n) as Hne. split; [| by destruct (FormatInt n)].
  rewrite !all_bytes_app, (Hd n Hn), Hd; [done |]. unfold UnixNano, time_of. cbn. rewrite wrap64_small by lia. lia.
Qed.

Lemma attrsLocked_file b key data a : attrsLocked b key = Some (data, a) ->
  validLocalKey key = true /\ oa_Size a = zlen data /\ exists mtime, file_at (path_of key) (lb_root b) = Some (data, mtime) /\
    oa_ETag a = local_version (zlen data) mtime.
Proof.
  unfold attrsLocked, file_at. destruct (validLocalKey key); [| done]. cbn. destruct (find _ _) as [[d t|]|]; [| done | done].
  intros [= <- <-]. split; [done |]. split; [done |]. by exists t.
Qed.

Lemma orValue_nonempty v w : v <> "" -> orValue v w = v.
Proof. intros Hv. unfold orValue. by rewrite bool_decide_true. Qed.

Lemma local_version_nonempty n t : local_version n t <> "".
Proof. unfold local_version. pose proof (FormatInt_nonempty n). by destruct (FormatInt n). Qed.

Lemma attrsLocked_history s key data a : local_wf s -> attrsLocked (lg_bucket s) key = Some (data, a) ->
  lg_history s !! (key, versionFor a) = Some data /\ oa_Size a = zlen data /\ versionFor a = oa_ETag a.
Proof.
  intros Hw (Hv & Hsize & t & Hf & Htag)%attrsLocked_file. unfold versionFor. rewrite orValue_nonempty by (rewrite Htag; apply local_version_nonempty).
  split; [| done]. rewrite Htag. by apply (lw_files _ Hw).
Qed.

Lemma local_version_good n t : 0 <= n -> good_time t -> good_version (local_version n t).
Proof.
  intros Hn Ht. destruct (local_version_clean n t Hn Ht) as [Hc Hne]. split; [done |]. eapply all_bytes_impl; [| exact Hc].
  intros c Hb. apply negb_true_iff, bool_decide_eq_false. by intros ->.
Qed.

(** What an upload leaves at a path. *)
Definition after_upload {A} (r : result origin_error A) (key : string) (data : bytes) (now : Z) (root : node) (q : list string) : option (bytes * Z) :=
  match r with
  | Ok _ => if decide (q = path_of key) then Some (data, now) else file_at q root
  | Err _ => file_at q root
  end.

Lemma publish_files now data key p b r root : publishLocked now data key p b = (r, root) ->
  forall q, file_at q root = after_upload r key data now (lb_root b) q.
Proof.
  unfold publishLocked. destruct (exists_etag _). destruct (negb _); [by intros [= <- <-] |].
  destruct (mkdir_all _ _) as [root1|] eqn:E1; [| by intros [= <- <-]].
  destruct (place _ _ _) as [root2|] eqn:E2; intros [= <- <-] q; cbn.
  - by rewrite (place_file _ _ _ _ _ q E2), (mkdir_file _ _ _ q E1).
  - apply (mkdir_file _ _ _ q E1).
Qed.

Lemma upload_files now key data size u b r b' : local_Upload now key data size u b = (r, b') ->
  (forall q, file_at q (lb_root b') = after_upload r key data now (lb_root b) q) /\
  (forall a, r = Ok a -> validLocalKey key = true /\ oa_Size a = zlen data /\ oa_ETag a = local_version (zlen data) now).
Proof.
  unfold local_Upload. destruct (validLocalKey key) eqn:Hv; cbn [negb]; [| by intros [= <- <-]].
  destruct (publishLocked _ _ _ _ _) as [[[]|e] root] eqn:E; intros [= <- <-]; pose proof (publish_files _ _ _ _ _ _ _ E) as Hf; [| done].
  split; [done |]. intros a [= <-]. assert (file_at (path_of key) root = Some (data, now)) as Hhere by (rewrite Hf; cbn; by rewrite decide_True).
  destruct (attrsLocked _ key) as [[d a]|] eqn:Ea.
  - apply attrsLocked_file in Ea as (_ & Hs & t & Ht & Htag). cbn in Ht. rewrite Hhere in Ht. injection Ht as <- <-. done.
  - unfold attrsLocked in Ea. rewrite Hv in Ea. cbn in Ea. unfold file_at in Hhere. destruct (find _ _) as [[]|]; done.
Qed.

Lemma local_upload now key body u s r s' :
  local_wf s -> lg_clock s < now -> good_time now -> zlen body <= max_int64 -> publish_upload now key body (zlen body) u s = (r, s') ->
  local_wf s' /\ lg_clock s' <= now /\ lg_history s ⊆ lg_history s' /\
  (forall i b, lg_history s' !! i = Some b -> lg_history s !! i = Some b \/ i.1 = key /\ b = body) /\
  forall a, r = Ok a -> lg_history s' !! (key, versionFor a) = Some body /\ oa_Size a = zlen body.
Proof.
  intros Hw Hlt Hnow Hmax. unfold publish_upload. destruct (local_Upload _ _ _ _ _ _) as [r0 b'] eqn:E. intros [= <- <-]. cbn.
  destruct (upload_files _ _ _ _ _ _ _ _ E) as [Hf Ha]. assert (forall n t, 0 <= n -> good_time t -> t <= lg_clock s -> local_version n t <> local_version (zlen body) now) as Hfresh.
  { intros n t Hn Ht Hle Heq. apply local_version_inj in Heq; [lia | done | apply zlen_nonneg | done | done]. }
  assert (forall key', lg_history s !! (key', local_version (zlen body) now) = None) as Hnone.
  { intros key'. apply eq_None_not_Some. intros [b (n & t & Ev & Hn & Ht & Hle & _)%(lw_versions _ Hw)]. by apply (Hfresh n t). }
  destruct r0 as [a|e].
  - destruct (Ha a eq_refl) as (Hv & Hsize & Htag). assert (versionFor a = local_version (zlen body) now) as Hver
      by (unfold versionFor; rewrite orValue_nonempty; [done | rewrite Htag; apply local_version_nonempty]).
    rewrite Hver. split; [split; cbn |].
    + intros k d t Hk. rewrite Hf. cbn. case_decide as Hp.
      * intros [= <- <-]. apply path_of_inj in Hp as ->. by rewrite lookup_insert_eq.
      * intros Hfile. pose proof (lw_files _ Hw _ _ _ Hk Hfile) as Hh. rewrite lookup_insert_ne; [done |]. intros [= <- Heq]. rewrite <- Heq, Hnone in Hh. done.
    + intros k v b Hb. destruct (decide ((key, local_version (zlen body) now) = (k, v))) as [[= <- <-]|Hne].
      * rewrite lookup_insert_eq in Hb. injection Hb as <-. exists (zlen body), now. split; [done |]. split; [apply zlen_nonneg | by split].
      * rewrite lookup_insert_ne in Hb by done. destruct (lw_versions _ Hw k v b Hb) as (n & t & Ev & Hn & Ht & Hle & Hb'). exists n, t.
        split; [done |]. split; [done |]. split; [done |]. split; [lia | done].
    + split; [done |]. split; [by apply insert_subseteq |]. split; [intros i b [[<- <-]|[_ ?]]%lookup_insert_Some; auto |]. intros a' [= <-]. rewrite Hver, lookup_insert_eq. done.
  - split; [split; cbn |]; [| | split; [done |]; split; [done |]; split; [by left | done]].
    + intros k d t Hk. rewrite Hf. by apply (lw_files _ Hw).
    + intros k v b Hb. destruct (lw_versions _ Hw k v b Hb) as (n & t & Ev & Hn & Ht & Hle & Hb'). exists n, t.
      split; [done |]. split; [done |]. split; [done |]. split; [lia | done].
Qed.

Lemma local_delete now key s r b : local_wf s -> lg_clock s <= now -> local_Delete key (lg_bucket s) = (r, b) -> local_wf (mkLocalOrigin b (lg_history s) now).
Proof.
  intros Hw Hlt E. assert (forall q d t, file_at q (lb_root b) = Some (d, t) -> file_at q (lb_root (lg_bucket s)) = Some (d, t)) as Hf.
  { intros q d t. unfold local_Delete in E. destruct (negb _); [by injection E as <- <- |].
    destruct (remove _ _) as [root|] eqn:Er; injection E as <- <-; [| done]. cbn. rewrite (remove_file _ _ _ q Er). by case_decide. }
  split; cbn; [intros; eapply (lw_files _ Hw); eauto |]. intros k v b' Hb. destruct (lw_versions _ Hw k v b' Hb) as (n & t & Ev & Hn & Ht & Hle & Hmax).
  exists n, t. split; [done |]. split; [done |]. split; [done |]. split; [lia | done].
Qed.

Lemma matches_present v etag : v <> "" -> ReadCondition_Allows (mkReadCondition v "") true etag = etagMatches v etag.
Proof. intros Hv. unfold ReadCondition_Allows, ReadCondition_Check. cbn [rc_IfMatch rc_IfNoneMatch]. rewrite bool_decide_true by done. by destruct (etagMatches v etag). Qed.

Lemma local_range key offset length ifMatch s b :
  local_wf s -> 0 <= offset -> 0 <= length -> local_GetRange key offset length ifMatch (lg_bucket s) = Ok b ->
  exists v body, lg_history s !! (key, v) = Some body /\ b = slice body offset (offset + length) /\
    (ifMatch <> "" -> is_Some (lg_history s !! (key, ifMatch)) -> v = ifMatch).
Proof.
  intros Hw Ho Hl. unfold local_GetRange. destruct (attrsLocked (lg_bucket s) key) as [[d a]|] eqn:Ea; cbn; [| by destruct (negb _)].
  destruct (attrsLocked_history s key d a Hw Ea) as (Hh & Hsize & Hver). destruct (ReadCondition_Allows _ true (oa_ETag a)) eqn:Hc; [| done]. cbn.
  destruct ((offset <? 0) || (oa_Size a <? offset)); [done |]. intros [= <-]. exists (versionFor a), d. split; [done |]. split; [done |].
  intros Hne [b' Hm]. rewrite matches_present in Hc by done.
  destruct (lw_versions _ Hw _ _ _ Hm) as (n & t & -> & Hn & Ht & _). destruct (lw_versions _ Hw key (versionFor a) d Hh) as (n' & t' & Ev & Hn' & Ht' & _).
  rewrite Hver in Ev |- *. rewrite Ev in *. rewrite etagMatches_clean in Hc; [| by apply local_version_clean .. | done].
  by apply bool_decide_eq_true in Hc as ->.
Qed.

#[global] Instance local_laws : OriginLaws local_origin.
Proof.
  refine {| ol_wf := local_wf; ol_clock := lg_clock; ol_history := lg_history |}.
  - intros key v body s Hw Hb. destruct (lw_versions _ Hw key v body Hb) as (n & t & -> & Hn & Ht & _ & Hmax). split; [| done]. by apply local_version_good.
  - apply local_upload.
  - intros now key s r s' Hw Hlt _ E. cbn in E. destruct (local_Delete key (lg_bucket s)) as [r0 b] eqn:Ed. injection E as <- <-. split; [by eapply local_delete | done].
  - done.
  - intros key s body a Hw Hg. cbn in Hg. unfold local_GetWithAttrs in Hg. destruct (attrsLocked _ key) as [[d a']|] eqn:Ea; [| done]. injection Hg as -> ->.
    destruct (attrsLocked_history s key body a Hw Ea) as (Hh & Hsize & _). done.
  - intros key s a Hw Hg. cbn in Hg. unfold local_Attributes in Hg. destruct (attrsLocked _ key) as [[d a']|] eqn:Ea; [| done]. injection Hg as ->.
    destruct (attrsLocked_history s key d a Hw Ea) as (Hh & Hsize & _). eauto.
  - apply local_range.
Defined.

Lemma new_local_wf : local_wf new_local_origin.
Proof.
  split; cbn; [| by intros key v b Hb; rewrite lookup_empty in Hb]. intros key data mtime _ Hf. exfalso. revert Hf. unfold file_at.
  destruct (path_of key) as [|name rest]; [done |]. cbn. case_bool_decide; [| done]. by destruct rest.
Qed.

End Laws.

(** ** Listings are in order *)

Definition no_slash (s : string) : bool := all_bytes (fun c => negb (bool_decide (c = "/"%char))) s.
Definition plain_name (s : string) : Prop := s <> "" /\ s <> "." /\ no_slash s = true.

Inductive wf_tree : node -> Prop :=
| wf_file data mtime : wf_tree (File data mtime)
| wf_dir es : NoDup es.*1 -> Forall (fun e => plain_name e.1 /\ wf_tree e.2) es -> wf_tree (Dir es).

Lemma Split_app s t : no_slash s = true -> Split (s +:+ String "/" t) "/" = s :: Split t "/".
Proof.
  unfold no_slash. induction s as [|c s IH]; [done |]. cbn [all_bytes]. intros [Hc%negb_true_iff%bool_decide_eq_false Hs]%andb_true_iff.
  rewrite sapp_cons. cbn [Split]. by rewrite decide_False, IH.
Qed.

Lemma Split_plain s : no_slash s = true -> Split s "/" = [s].
Proof. apply Split_single. Qed.

Lemma path_of_concat path : path <> [] -> Forall plain_name path -> path_of (String.concat "/" path) = path.
Proof.
  unfold path_of. intros Hne Hp. induction Hp as [|x path (_ & _ & Hx) Hp IH]; [done |]. destruct path as [|y path]; [by apply Split_plain |].
  change (String.concat "/" (x :: y :: path)) with (x +:+ String "/" (String.concat "/" (y :: path))). by rewrite Split_app, IH.
Qed.

(** The keys below a name. *)
Definition below (name : string) : string := if bool_decide (name = ".") then "" else name +:+ "/".

Lemma join_below name x : join_path name x = below name +:+ x.
Proof. unfold join_path, below. case_bool_decide; [done |]. by rewrite sapp_assoc. Qed.

Lemma no_slash_app s t : no_slash (s +:+ t) = no_slash s && no_slash t.
Proof. apply all_bytes_app. Qed.

Lemma join_not_root name x : plain_name x -> join_path name x <> ".".
Proof.
  intros (_ & Hx & _). unfold join_path. case_bool_decide; [done |]. intros E. assert (no_slash (name +:+ "/" +:+ x) = true) as Hns by (by rewrite E).
  rewrite !no_slash_app in Hns. cbn in Hns. by rewrite andb_false_r in Hns.
Qed.

Lemma below_join name x : plain_name x -> below (join_path name x) = below name +:+ (x +:+ "/").
Proof. intros Hx. unfold below at 1. rewrite bool_decide_false by (by apply join_not_root). by rewrite join_below, sapp_assoc. Qed.

Lemma below_join_dir name x es r : plain_name x -> below (join_path name x) +:+ r = below name +:+ (listingKey (x, Dir es) +:+ r).
Proof. intros Hx. change (listingKey (x, Dir es)) with (x +:+ "/"). by rewrite below_join, !sapp_assoc. Qed.

(** Two strings in order stay so when they are continued, unless the first is
    a prefix of the second. *)
Lemma slt_continue a b : slt a b = true -> (exists r, r <> "" /\ b = a +:+ r) \/ forall u v, slt (a +:+ u) (b +:+ v) = true.
Proof.
  revert b. induction a as [|x a IH]; intros [|y b]; cbn; try done; [left; by exists (String y b) |].
  rewrite orb_true_iff, andb_true_iff, Z.ltb_lt, Z.eqb_eq. intros [H|[H1 H2]].
  - right. intros u v. rewrite !sapp_cons. cbn. by rewrite (proj2 (Z.ltb_lt _ _) H).
  - apply code_inj in H1 as ->. destruct (IH b H2) as [(r & Hr & ->)|H]; [left; by exists r |]. right. intros u v.
    rewrite !sapp_cons. cbn. by rewrite Z.eqb_refl, H, orb_true_r.
Qed.

Lemma slt_extend a r : r <> "" -> slt a (a +:+ r) = true.
Proof. intros Hr. rewrite <- (sapp_nil_r a) at 1. rewrite slt_app_l. by destruct r. Qed.

(** An entry and what is below it come before the entries with greater
    listing keys. *)
Lemma entries_order x nx y ny u v :
  plain_name x -> plain_name y -> slt (listingKey (x, nx)) (listingKey (y, ny)) = true ->
  (match nx with File _ _ => u = "" | Dir _ => True end) ->
  slt (listingKey (x, nx) +:+ u) (listingKey (y, ny) +:+ v) = true.
Proof.
  intros (Hx & _ & Hsx) (Hy & _ & Hsy) Hlt Hu. destruct (slt_continue _ _ Hlt) as [(r & Hr & E)|H]; [| by apply H].
  destruct nx as [d t|es]; [subst u; rewrite sapp_nil_r, E, sapp_assoc; apply slt_extend; by destruct r |]. exfalso.
  unfold listingKey in E. cbn in E. assert (path_of (x +:+ String "/" r) = x :: Split r "/") as E1 by (by apply Split_app).
  assert (x +:+ String "/" r = match ny with File _ _ => y | Dir _ => y +:+ String "/" "" end) as E2.
  { change (String "/" r) with ("/" +:+ r). rewrite <- sapp_assoc. change (String "/" "") with "/". by rewrite <- E. }
  rewrite E2 in E1. unfold path_of in E1. destruct ny as [d t|es']; [rewrite Split_plain in E1 by done | rewrite Split_app in E1 by done]; injection E1 as E3 E4.
  - by apply (Split_nonempty r "/").
  - rewrite <- (concat_Split r), <- E4 in Hr. done.
Qed.

Lemma listingKey_inj x nx y ny : plain_name x -> plain_name y -> listingKey (x, nx) = listingKey (y, ny) -> x = y.
Proof.
  intros (Hx & _ & Hsx) (Hy & _ & Hsy) E. apply (f_equal path_of) in E. unfold path_of, listingKey in E. cbn in E.
  change "/" with (String "/" "") in E. destruct nx, ny; rewrite ?Split_app, ?Split_plain in E by done; by injection E.
Qed.

Section Sorted.
Context {A : Type}.
Implicit Types l : list (string * A).

#[local] Instance listing_le_trans : Transitive (@listing_le A).
Proof.
  intros x y z. unfold listing_le. intros H1 H2. destruct (slt z.1 x.1) eqn:E; [| done].
  destruct (slt_total y.1 x.1) as [H|[H|H]]; [congruence | congruence |]. by rewrite (slt_trans _ _ _ E H) in H2.
Qed.

#[local] Instance listing_le_total : Total (@listing_le A).
Proof. intros x y. unfold listing_le. destruct (slt y.1 x.1) eqn:E; [right | by left]. by apply slt_asym. Qed.

Lemma listing_sorted l : NoDup l.*1 -> StronglySorted (fun x y => slt x.1 y.1 = true) (merge_sort listing_le l).
Proof.
  intros Hn. assert (NoDup (merge_sort listing_le l).*1) as Hn' by (by rewrite merge_sort_Permutation).
  pose proof (StronglySorted_merge_sort (@listing_le A) l) as Hs. revert Hn' Hs. generalize (merge_sort listing_le l). clear.
  intros l. induction l as [|x l IH]; intros Hn Hs; [constructor |]. apply NoDup_cons in Hn as [Hx Hn]. apply StronglySorted_inv in Hs as [Hs Hall].
  constructor; [by apply IH |]. rewrite Forall_forall in Hall |- *. intros y Hy. specialize (Hall y Hy). unfold listing_le in Hall.
  destruct (slt_total x.1 y.1) as [H|[H|H]]; [done | | congruence]. exfalso. apply Hx. rewrite H. by apply list_elem_of_fmap_2.
Qed.
End Sorted.

Lemma concat_sorted (l : list (string * list string)) :
  StronglySorted (fun x y => forall a b, a ∈ x.2 -> b ∈ y.2 -> slt a b = true) l -> Forall (fun x => StronglySorted (fun a b => slt a b = true) x.2) l ->
  StronglySorted (fun a b => slt a b = true) (concat l.*2).
Proof.
  intros Hl Hf. induction Hf as [|x l Hx Hf IH]; [constructor |]. apply StronglySorted_inv in Hl as [Hl Hall]. cbn.
  apply StronglySorted_app. split; [| split; [done | by apply IH]]. intros a b Ha Hb. apply list_elem_of_In, in_concat in Hb as (ks & Hks & Hb).
  apply list_elem_of_In, list_elem_of_fmap in Hks as (y & -> & Hy). rewrite Forall_forall in Hall. by apply (Hall y Hy); [| apply list_elem_of_In].
Qed.

Abbreviation walked name es := (List.map (fun e => (listingKey e, walk (join_path name e.1) e.2)) es).

Lemma walk_elem name es key : key ∈ walk name (Dir es) <-> exists e, e ∈ es /\ key ∈ walk (join_path name e.1) e.2.
Proof.
  cbn. rewrite list_elem_of_In, in_concat. split.
  - intros (ks & Hks & Hk). apply list_elem_of_In, list_elem_of_fmap in Hks as (y & -> & Hy). rewrite merge_sort_Permutation in Hy.
    apply list_elem_of_In, in_map_iff in Hy as (e & <- & He). exists e. split; by apply list_elem_of_In.
  - intros (e & He & Hk). exists (walk (join_path name e.1) e.2). split; [| by apply list_elem_of_In]. apply list_elem_of_In, list_elem_of_fmap.
    exists (listingKey e, walk (join_path name e.1) e.2). split; [done |]. rewrite merge_sort_Permutation. apply list_elem_of_In, in_map_iff. exists e. by split; [| apply list_elem_of_In].
Qed.

(** The name of a file from its path below a name. *)
Definition full_name (name : string) (path : list string) : string :=
  match path with [] => name | _ => below name +:+ String.concat "/" path end.

Lemma full_name_join name x path : plain_name x -> full_name (join_path name x) path = full_name name (x :: path).
Proof.
  intros Hx. unfold full_name. destruct path as [|y path]; [apply join_below |]. rewrite below_join by done.
  change (String.concat "/" (x :: y :: path)) with (x +:+ ("/" +:+ String.concat "/" (y :: path))). by rewrite !sapp_assoc.
Qed.

Lemma walk_paths n name key : wf_tree n -> key ∈ walk name n <-> exists path, Forall plain_name path /\ is_Some (file_at path n) /\ key = full_name name path.
Proof.
  revert name. induction n as [d t|es IH] using node_tree_ind; intros name Hw.
  - cbn. rewrite list_elem_of_singleton. split; [intros ->; exists []; by split; [| split; [eexists |]] |].
    intros ([|x path] & _ & Hf & ->); [done |]. destruct Hf as [? [=]].
  - rewrite walk_elem. inversion Hw as [|es' Hn Hes]; subst es'. rewrite Forall_forall in IH, Hes. split.
    + intros ([x c] & He & Hk). destruct (Hes _ He) as [Hx Hc]. cbn in *. apply (IH (x, c) He) in Hk as (path & Hp & Hf & ->); [| done].
      exists (x :: path). split; [by constructor |]. split; [| by apply full_name_join]. rewrite file_at_cons.
      assert (entry x es = Some c) as ->; [| done]. clear -Hn He. induction es as [|[y c'] es IHe]; [by apply not_elem_of_nil in He |]. cbn.
      apply NoDup_cons in Hn as [Hy Hn]. apply elem_of_cons in He as [[= <- <-]|He]; [by rewrite bool_decide_true |].
      rewrite bool_decide_false; [by apply IHe |]. intros ->. apply Hy. by apply (list_elem_of_fmap_2' fst _ (x, c)).
    + intros ([|x path] & Hp & Hf & ->); [destruct Hf as [? [=]] |]. apply Forall_cons in Hp as [Hx Hp]. rewrite file_at_cons in Hf.
      destruct (entry x es) as [c|] eqn:Ec; [| by destruct Hf]. assert ((x, c) ∈ es) as He.
      { clear -Ec. induction es as [|[y c'] es IHe]; [done |]. cbn in Ec. case_bool_decide; [injection Ec as ->; subst; by left | right; by apply IHe]. }
      exists (x, c). split; [done |]. cbn. apply (IH (x, c) He); [by apply (Hes (x, c)) |]. exists path. split; [done |]. split; [done |]. symmetry. by apply full_name_join.
Qed.

Lemma walk_sorted n name : wf_tree n -> StronglySorted (fun a b => slt a b = true) (walk name n).
Proof.
  revert name. induction n as [d t|es IH] using node_tree_ind; intros name Hw; [by repeat constructor |].
  inversion Hw as [|es' Hn Hes]; subst es'. rewrite Forall_forall in IH, Hes.
  assert (NoDup (walked name es).*1) as Hnd.
  { clear IH Hw. induction es as [|[x c] es IHe]; [constructor |]. apply NoDup_cons in Hn as [Hx Hn]. cbn. apply NoDup_cons. split; [| apply IHe; [done | intros e He; apply Hes; by right]].
    intros Hin. apply list_elem_of_fmap in Hin as ([k ks] & Ek & Hin). apply list_elem_of_In, in_map_iff in Hin as ([y c'] & [= <- <-] & Hy). apply list_elem_of_In in Hy.
    apply Hx. cbn in Ek. apply listingKey_inj in Ek as ->; [by apply (list_elem_of_fmap_2' fst _ (y, c')) | apply (Hes (x, c)); by left | apply (Hes (y, c')); by right]. }
  cbn. apply concat_sorted.
  - pose proof (listing_sorted _ Hnd) as Hs. assert (forall z, z ∈ merge_sort listing_le (walked name es) -> exists e, e ∈ es /\ z = (listingKey e, walk (join_path name e.1) e.2)) as Hz.
    { intros z Hz. rewrite merge_sort_Permutation in Hz. apply list_elem_of_In, in_map_iff in Hz as (e & <- & He). exists e. by rewrite <- list_elem_of_In in He. }
    revert Hz. induction Hs as [|z l Hs IHs Hall]; intros Hz; [constructor |]. constructor; [apply IHs; intros; apply Hz; by right |].
    rewrite Forall_forall in Hall |- *. intros z' Hz' a b Ha Hb. specialize (Hall z' Hz').
    destruct (Hz z) as ([x nx] & Hx & ->); [by left |]. destruct (Hz z') as ([y ny] & Hy & ->); [by right |]. cbn in *.
    destruct (Hes _ Hx) as [Px Wx], (Hes _ Hy) as [Py Wy]. cbn in *.
    assert (forall x n k, plain_name x -> wf_tree n -> k ∈ walk (join_path name x) n ->
      exists u, k = below name +:+ (listingKey (x, n) +:+ u) /\ (match n with File _ _ => u = "" | Dir _ => True end)) as Hform.
    { clear. intros x n k Px Wx Hk. destruct n as [d t|es]; [cbn in Hk; apply list_elem_of_singleton in Hk as ->; exists ""; by rewrite join_below, sapp_nil_r |].
      apply walk_paths in Hk as ([|p path] & _ & Hf & ->); [by destruct Hf as [? [=]] | | done]. exists (String.concat "/" (p :: path)).
      split; [| done]. by rewrite <- below_join_dir. }
    destruct (Hform x nx a Px Wx Ha) as (u & -> & Hu), (Hform y ny b Py Wy Hb) as (v & -> & _). rewrite slt_app_l. by apply entries_order.
  - apply Forall_forall. intros z Hz. rewrite merge_sort_Permutation in Hz. apply list_elem_of_In, in_map_iff in Hz as (e & <- & He). cbn.
    apply list_elem_of_In in He. apply (IH e He), (Hes e He).
Qed.

(** *** Operations keep trees well formed *)

Lemma wf_entry name es c : wf_tree (Dir es) -> entry name es = Some c -> wf_tree c.
Proof.
  inversion 1 as [|es' _ Hes]; subst. clear -Hes. induction Hes as [|[x n] es [_ Hn] _ IH]; [done |]. cbn. case_bool_decide; [by intros [= <-] | done].
Qed.

Lemma set_entry_names name n es : (set_entry name n es).*1 = if decide (name ∈ es.*1) then es.*1 else es.*1 ++ [name].
Proof.
  induction es as [|[x c] es IH]; cbn; [done |]. case_bool_decide as E; cbn.
  - subst. by rewrite decide_True by (by left).
  - rewrite IH. do 2 case_decide; cbn; try done; set_solver.
Qed.

Lemma wf_set name n es : wf_tree (Dir es) -> plain_name name -> wf_tree n -> wf_tree (Dir (set_entry name n es)).
Proof.
  inversion 1 as [|es' Hn Hes]; subst. intros Hname Hwn. constructor.
  - rewrite set_entry_names. case_decide; [done |]. apply NoDup_app. split; [done |]. split; [set_solver | apply NoDup_singleton].
  - clear Hn H. induction Hes as [|[x c] es Hx Hes IH]; cbn; [constructor; [by split | constructor] |]. case_bool_decide; by constructor.
Qed.

Lemma wf_drop name es : wf_tree (Dir es) -> wf_tree (Dir (drop_entry name es)).
Proof.
  inversion 1 as [|es' Hn Hes]; subst. unfold drop_entry. constructor.
  - clear -Hn. induction es as [|[x c] es IH]; [constructor |]. apply NoDup_cons in Hn as [Hx Hn]. cbn. destruct (negb _); [| by apply IH].
    cbn. apply NoDup_cons. split; [| by apply IH]. intros Hin. apply Hx. apply list_elem_of_fmap in Hin as (e & -> & He).
    apply list_elem_of_In, filter_In in He as [He _]. apply (list_elem_of_fmap_2 fst es e). by apply list_elem_of_In.
  - rewrite Forall_forall in Hes |- *. intros e He%list_elem_of_In. apply filter_In in He as [He _]. by apply Hes, list_elem_of_In.
Qed.

Lemma wf_mkdir path n n' : Forall plain_name path -> wf_tree n -> mkdir_all path n = Ok n' -> wf_tree n'.
Proof.
  intros Hp. revert n n'. induction Hp as [|x path Hx Hp IH]; intros [|es] n' Hw; cbn; try done; [by intros [= <-] |].
  intros (c & Hc & [= <-])%rbind_Ok. apply wf_set; [done | done |]. eapply IH; [| exact Hc].
  destruct (entry x es) eqn:E; [by eapply wf_entry | cbn; repeat constructor].
Qed.

Lemma wf_place path data mtime n n' : Forall plain_name path -> wf_tree n -> place path (File data mtime) n = Ok n' -> wf_tree n'.
Proof.
  intros Hp. revert n n'. induction Hp as [|x path Hx Hp IH]; intros [|es] n' Hw; cbn; try done.
  destruct path as [|y path].
  - destruct (entry x es) as [[]|]; intros E; try done; injection E as <-; apply wf_set; try done; constructor.
  - destruct (entry x es) as [c|] eqn:E; [| done]. intros (c' & Hc & [= <-])%rbind_Ok. apply wf_set; [done | done |]. eapply IH; [| exact Hc]. by eapply wf_entry.
Qed.

Lemma wf_remove path n n' : Forall plain_name path -> wf_tree n -> remove path n = Ok n' -> wf_tree n'.
Proof.
  intros Hp. revert n n'. induction Hp as [|x path Hx Hp IH]; intros [|es] n' Hw; cbn; try done.
  destruct path as [|y path].
  - destruct (entry x es) as [[|[|]]|]; intros E; try done; injection E as <-; by apply wf_drop.
  - destruct (entry x es) as [c|] eqn:E; [| done]. intros (c' & Hc & [= <-])%rbind_Ok. apply wf_set; [done | done |]. eapply IH; [| exact Hc]. by eapply wf_entry.
Qed.

Lemma Split_no_slash s : Forall (fun p => no_slash p = true) (Split s "/").
Proof.
  induction s as [|c s IH]; [by repeat constructor |]. cbn [Split]. case_decide as E; [by constructor |].
  destruct IH as [|t ts Ht IH]; constructor; try done; unfold no_slash in *; cbn [all_bytes]; rewrite bool_decide_false by done; done.
Qed.

Lemma valid_plain key : validLocalKey key = true -> Forall plain_name (path_of key).
Proof.
  unfold validLocalKey. destruct (_ || _); [done |]. intros Hv. rewrite forallb_forall in Hv. apply Forall_forall. intros p Hp.
  pose proof (Split_no_slash key) as Hs. rewrite Forall_forall in Hs. specialize (Hs p Hp). apply list_elem_of_In, Hv in Hp.
  unfold valid_part in Hp. rewrite !andb_true_iff, !bool_decide_eq_true in Hp. by destruct Hp as [[[]]].
Qed.

Section Lists.
Context `{Mime}.

Lemma wf_upload now key data size u b r b' : wf_tree (lb_root b) -> local_Upload now key data size u b = (r, b') -> wf_tree (lb_root b').
Proof.
  intros Hw. unfold local_Upload, publishLocked. destruct (validLocalKey key) eqn:Hv; cbn [negb]; [| by intros [= <- <-]].
  pose proof (valid_plain _ Hv) as Hp. destruct (exists_etag _). destruct (negb _); [by intros [= <- <-] |].
  assert (Forall plain_name (dir_of key)) as Hd. { unfold dir_of. clear -Hp. induction Hp as [|x l Hx Hl IH]; [constructor |]. cbn. by destruct l; constructor. }
  destruct (mkdir_all _ _) as [root1|] eqn:E1; [| by intros [= <- <-]]. pose proof (wf_mkdir _ _ _ Hd Hw E1).
  destruct (place _ _ _) as [root2|] eqn:E2; intros [= <- <-]; [| done]. eapply wf_place; [exact Hp | done | exact E2].
Qed.

Lemma wf_delete key b r b' : wf_tree (lb_root b) -> local_Delete key b = (r, b') -> wf_tree (lb_root b').
Proof.
  intros Hw. unfold local_Delete. destruct (validLocalKey key) eqn:Hv; cbn [negb]; [| by intros [= <- <-]].
  destruct (remove _ _) as [root|] eqn:E; intros [= <- <-]; [| done]. eapply wf_remove; [by apply valid_plain | done | exact E].
Qed.

Lemma find_app p q n : find (p ++ q) n = let* m := find p n in find q m.
Proof. revert n. induction p as [|x p IH]; intros n; [done |]. cbn. destruct n; [done |]. by destruct (entry x entries). Qed.

Lemma wf_find path n m : wf_tree n -> find path n = Ok m -> wf_tree m.
Proof.
  revert n. induction path as [|x path IH]; intros n Hw; cbn; [by intros [= <-] |]. destruct n as [|es]; [done |].
  destruct (entry x es) eqn:E; [| done]. apply IH. by eapply wf_entry.
Qed.

Lemma path_of_app d r : path_of (d +:+ String "/" r) = path_of d ++ path_of r.
Proof.
  unfold path_of. induction d as [|c d IH]; [done |]. rewrite sapp_cons. cbn [Split]. case_decide; [by rewrite IH |].
  rewrite IH. pose proof (Split_nonempty d "/"). by destruct (Split d "/").
Qed.

Lemma stake_prefix d t : stake (String.length d) (d +:+ t) = d.
Proof. induction d as [|c d IH]; [done |]. rewrite sapp_cons. cbn. by rewrite IH. Qed.

Lemma HasPrefix_nil s : HasPrefix s "" = true.
Proof. apply (HasPrefix_app ""). Qed.

Lemma TrimSuffix_slash d : TrimSuffix (d +:+ "/") "/" = d.
Proof.
  unfold TrimSuffix. assert (HasSuffix (d +:+ "/") "/" = true) as ->.
  { unfold HasSuffix. change "/" with (String "/" ""). rewrite srev_snoc. change (srev (String "/" "")) with (String "/" ""). unfold HasPrefix. cbn. apply HasPrefix_nil. }
  assert (String.length (d +:+ "/") - String.length "/" = String.length d)%nat as ->; [| apply stake_prefix].
  pose proof (slen_app d "/") as Hl. unfold slen in Hl. cbn in *. lia.
Qed.

(** Where a listing starts: the name and the path of a directory. *)
Definition starts (name : string) (path : list string) : Prop := path = [] /\ name = "." \/ path = path_of name /\ validLocalKey name = true.

Lemma starts_path name path key : starts name path -> HasPrefix key (below name) = true ->
  exists r, key = below name +:+ r /\ path_of key = path ++ path_of r.
Proof.
  intros Hst [r Hkey]%HasPrefix_inv. exists r. split; [done |]. rewrite Hkey. destruct Hst as [[-> ->]|[-> Hv]]; [done |].
  unfold below. rewrite bool_decide_false by (by intros ->). rewrite sapp_assoc. apply path_of_app.
Qed.

(** A file below it makes it a directory. *)
Lemma starts_dir b name path key x : starts name path -> HasPrefix key (below name) = true -> file_at (path_of key) (lb_root b) = Some x ->
  exists es, find path (lb_root b) = Ok (Dir es).
Proof.
  intros Hst Hk Hf. destruct (starts_path _ _ _ Hst Hk) as (r & _ & Hp). unfold file_at in Hf. rewrite Hp, find_app in Hf.
  destruct (find path (lb_root b)) as [[d t|es]|e]; cbn in Hf; [| by exists es | done]. pose proof (Split_nonempty r "/"). unfold path_of in Hf. by destruct (Split r "/").
Qed.

(** The names walked from a directory are the files below it. *)
Lemma walk_files b name path es key :
  wf_tree (lb_root b) -> find path (lb_root b) = Ok (Dir es) -> starts name path ->
  validLocalKey key = true -> is_Some (file_at (path_of key) (lb_root b)) ->
  key ∈ walk name (Dir es) <-> HasPrefix key (below name) = true.
Proof.
  intros Hw Hfind Hst Hv Hfile. pose proof (wf_find _ _ _ Hw Hfind) as Hwd. rewrite walk_paths by done. split.
  - intros (rest & Hr & Hf & ->). destruct rest as [|x rest]; [destruct Hf as [? [=]] |]. cbn. apply HasPrefix_app.
  - intros Hk. destruct (starts_path _ _ _ Hst Hk) as (r & Hkey & Hp). exists (path_of r).
    pose proof (valid_plain _ Hv) as Hpl. rewrite Hp in Hpl, Hfile. apply Forall_app in Hpl as [_ Hpl]. split; [done |]. split.
    + unfold file_at in *. by rewrite find_app, Hfind in Hfile.
    + unfold full_name. pose proof (Split_nonempty r "/") as Hne. unfold path_of. destruct (Split r "/") as [|x rest] eqn:E; [done |]. by rewrite <- E, concat_Split.
Qed.

Lemma listed_objects b name es : wf_tree (Dir es) ->
  let objs := omap (fun key => (fun x => mkOriginObject key x.2) <$> attrsLocked b key) (walk name (Dir es)) in
  omap (fun key => (fun x => Ok (E := origin_error) (mkOriginObject key x.2)) <$> attrsLocked b key) (walk name (Dir es)) = Ok <$> objs /\
  StronglySorted (fun x y => slt (oo_Key x) (oo_Key y) = true) objs /\
  forall key a, mkOriginObject key a ∈ objs <-> key ∈ walk name (Dir es) /\ exists data, attrsLocked b key = Some (data, a).
Proof.
  intros Hw. pose proof (walk_sorted _ name Hw) as Hs. revert Hs. generalize (walk name (Dir es)). clear Hw. intros ks Hs objs. split; [| split].
  - subst objs. clear Hs. induction ks as [|k ks IH]; [done |]. cbn. destruct (attrsLocked b k) as [[]|]; cbn; by rewrite IH.
  - subst objs. induction Hs as [|k ks Hs IH Hall]; [constructor |]. cbn. destruct (attrsLocked b k) as [[d a]|]; cbn; [| done]. constructor; [done |].
    apply Forall_forall. intros o Ho. apply list_elem_of_omap in Ho as (k' & Hk' & Ho). destruct (attrsLocked b k') as [[]|]; [| done]. injection Ho as <-. by apply (proj1 (Forall_forall _ _) Hall).
  - intros key a. subst objs. rewrite list_elem_of_omap. split.
    + intros (k & Hk & Ho). destruct (attrsLocked b k) as [[d a']|] eqn:E; [| done]. injection Ho as <- <-. eauto.
    + intros (Hk & data & Ha). exists key. by rewrite Ha.
Qed.

(** Listing a directory gives the files below it, in the order of their keys. *)
Lemma local_lists (b : localBucket) (dir : string) (Hw : wf_tree (lb_root b)) (Hdir : dir = "" \/ exists d, validLocalKey d = true /\ dir = d +:+ "/") :
  exists objs, local_Iter dir b = Ok <$> objs /\
    StronglySorted (fun x y => slt (oo_Key x) (oo_Key y) = true) objs /\
    forall key a, mkOriginObject key a ∈ objs <-> HasPrefix key dir = true /\ exists data, attrsLocked b key = Some (data, a).
Proof.
  set (name := TrimSuffix dir "/"). assert (exists nm path, (if bool_decide (name = "") then Some (".", []) else if validLocalKey name then Some (name, path_of name) else None) = Some (nm, path) /\
    starts nm path /\ dir = below nm) as (nm & path & Es & Hst & ->).
  { destruct Hdir as [->|(d & Hd & ->)]; [exists ".", []; by repeat split; left |]. subst name. rewrite TrimSuffix_slash, Hd.
    assert (d <> "") by (by intros ->). rewrite bool_decide_false by done. exists d, (path_of d). split; [done |]. split; [by right |].
    unfold below. by rewrite bool_decide_false by (by intros ->). }
  unfold local_Iter. fold name. rewrite Es. destruct (find path (lb_root b)) as [[dd tt0|es]|e] eqn:Ef.
  2: { destruct (listed_objects b nm es (wf_find _ _ _ Hw Ef)) as (H1 & H2 & H3). eexists. split; [exact H1 |]. split; [exact H2 |]. intros key a. rewrite H3.
       split; intros (Hk & data & Ha); pose proof (attrsLocked_file _ _ _ _ Ha) as (Hv & _ & t & Hf & _); (split; [| by exists data]).
       - apply (walk_files b nm path es key); eauto.
       - apply (walk_files b nm path es key); eauto. }
  all: exists []; split; [done |]; split; [constructor |]; intros key a; split; [by intros ?%not_elem_of_nil |]; intros (Hk & data & Ha); exfalso;
    apply attrsLocked_file in Ha as (_ & _ & t & Hf & _); destruct (starts_dir b nm path key _ Hst Hk Hf) as [es Hes]; congruence.
Qed.

End Lists.
