(* ===== verification/Spool.v ===== *)
(** * Spooling bodies

    Models [spoolWithBudget] of [internal/objcache/cache.go]: a body is read
    into memory when it is small and into a temporary file otherwise; the files
    of a process share a budget of bytes. *)

From S2P Require Import Prelude.

Definition memFillMax : Z := 8 * 2 ^ 20.

(** A body as it arrives: pieces, and whether it ends or breaks off. *)
Record source := mkStream { st_pieces : list bytes; st_ok : bool }.

Definition st_bytes (s : source) : bytes := concat (st_pieces s).

(** What was spooled: in memory ([data]) or in a file. *)
Record spooled := mkSpooled { sp_data : option bytes; sp_body : bytes }.

Definition sp_size (s : spooled) : Z := zlen (sp_body s).

(** [used] is what the semaphore has handed out. *)
Record spoolBudget := mkBudget { sb_limit : Z; sb_used : Z; sb_peak : Z; sb_rejected : Z }.

Definition newSpoolBudget (limit : Z) : spoolBudget := mkBudget limit 0 0 0.

Inductive spool_error := ErrSpoolBusy | BrokenBody | SpooledSize | ExceedsDeclared.

(** [reserve]: what is reserved becomes [want]. *)
Definition reserve (want : Z) (reserved : Z) (b : spoolBudget) : result spool_error Z * spoolBudget :=
  if want <=? reserved then (Ok reserved, b)
  else if sb_limit b - sb_used b <? want - reserved
  then (Err ErrSpoolBusy, mkBudget (sb_limit b) (sb_used b) (sb_peak b) (sb_rejected b + 1))
  else
    let used := sb_used b + (want - reserved) in
    (Ok want, mkBudget (sb_limit b) used (Z.max (sb_peak b) used) (sb_rejected b)).

(** The cleanup of a spooled body. *)
Definition unspool (reserved : Z) (b : spoolBudget) : spoolBudget :=
  mkBudget (sb_limit b) (sb_used b - reserved) (sb_peak b) (sb_rejected b).

(** [io.ReadAll] of at most [limit] bytes: a body that breaks off earlier is an
    error. *)
Definition read_head (limit : Z) (s : source) : option bytes :=
  if (zlen (st_bytes s) <? limit) && negb (st_ok s) then None else Some (slice (st_bytes s) 0 limit).

(** [io.Copy] to a [spoolWriter]: every piece is reserved before it is written. *)
Fixpoint copy_pieces (pieces : list bytes) (size reserved : Z) (b : spoolBudget) : result spool_error unit * Z * spoolBudget :=
  match pieces with
  | [] => (Ok tt, reserved, b)
  | p :: rest =>
      match reserve (size + zlen p) reserved b with
      | (Ok reserved, b) => copy_pieces rest (size + zlen p) reserved b
      | (Err e, b) => (Err e, reserved, b)
      end
  end.

(** The pieces behind the first [n] bytes. *)
Fixpoint drop_pieces (n : Z) (pieces : list bytes) : list bytes :=
  match pieces with
  | [] => []
  | p :: rest => if n <=? 0 then p :: rest else if zlen p <=? n then drop_pieces (n - zlen p) rest else drop (Z.to_nat n) p :: rest
  end.

(** The rest of a body whose head does not fit the memory: the outcome, what
    is reserved and the budget.  [expected] is negative when unknown. *)
Definition spool_rest (s : source) (head : bytes) (expected : Z) (reserved : Z) (b : spoolBudget) : result spool_error unit * Z * spoolBudget :=
  let rest := drop (length head) (st_bytes s) in
  if 0 <=? expected then
    let left := Z.max 0 (expected - zlen head) in
    (if (zlen rest <? left) && negb (st_ok s) then Err BrokenBody
     else if left <? zlen rest then Err ExceedsDeclared
     else if negb (st_ok s) then Err BrokenBody
     else if negb (zlen head + Z.min left (zlen rest) =? expected) then Err SpooledSize
     else Ok tt, reserved, b)
  else
    match copy_pieces (drop_pieces (zlen head) (st_pieces s)) (zlen head) reserved b with
    | (Ok _, reserved, b) => (if st_ok s then Ok tt else Err BrokenBody, reserved, b)
    | r => r
    end.

(** [spoolWithBudget]: also what the cleanup gives back. *)
Definition spoolWithBudget (s : source) (expected : Z) (b : spoolBudget) : result spool_error (spooled * Z) * spoolBudget :=
  let limit := if 0 <=? expected then Z.min (memFillMax + 1) (expected + 1) else memFillMax + 1 in
  match read_head limit s with
  | None => (Err BrokenBody, b)
  | Some head =>
      if zlen head <=? memFillMax then
        if (0 <=? expected) && negb (zlen head =? expected) then (Err SpooledSize, b)
        else (Ok (mkSpooled (Some head) head, 0), b)
      else
        match reserve (Z.max expected (zlen head)) 0 b with
        | (Err e, b) => (Err e, b)
        | (Ok reserved, b) =>
            match spool_rest s head expected reserved b with
            | (Ok _, reserved, b) => (Ok (mkSpooled None (st_bytes s), reserved), b)
            | (Err e, reserved, b) => (Err e, unspool reserved b)
            end
        end
  end.

(** ** What it does *)

Definition budget_ok (b : spoolBudget) : Prop := 0 <= sb_used b <= sb_limit b /\ sb_used b <= sb_peak b <= sb_limit b.

Lemma reserve_spec want reserved b r b' :
  budget_ok b -> 0 <= reserved <= sb_used b -> reserve want reserved b = (r, b') ->
  budget_ok b' /\ sb_limit b' = sb_limit b /\
  match r with
  | Ok n => n = Z.max want reserved /\ sb_used b' = sb_used b + (n - reserved)
  | Err e => sb_used b' = sb_used b /\ sb_limit b < sb_used b + (want - reserved) /\ reserved < want
  end.
Proof. unfold reserve, budget_ok. intros Hb Hr. case_tests; intros [= <- <-]; cbn; lia. Qed.

Lemma copy_pieces_spec pieces size reserved b r n b' :
  budget_ok b -> 0 <= reserved <= sb_used b -> copy_pieces pieces size reserved b = (r, n, b') ->
  budget_ok b' /\ sb_limit b' = sb_limit b /\ reserved <= n /\ sb_used b' = sb_used b + (n - reserved) /\ (r = Ok tt -> size <= reserved -> size + zlen (concat pieces) <= n).
Proof.
  revert size reserved b. induction pieces as [|p rest IH]; intros size reserved b Hb Hr; cbn [copy_pieces concat].
  - intros [= <- <- <-]. rewrite zlen_nil. split; [done |]. lia.
  - destruct (reserve (size + zlen p) reserved b) as [r1 b1] eqn:E. destruct (reserve_spec _ _ _ _ _ Hb Hr E) as (Hb1 & Hl1 & H1). destruct r1 as [n1|e].
    + destruct H1 as [-> Hu]. intros H2. apply IH in H2 as (Hb2 & Hl2 & Hn & Hu2 & Hok); [| done | lia]. rewrite zlen_app.
      split; [done |]. split; [lia |]. split; [lia |]. split; [lia |]. intros Hr2 Hs. specialize (Hok Hr2). lia.
    + intros [= <- <- <-]. destruct H1 as (H1 & _). split; [done |]. split; [done |]. split; [lia |]. split; [lia | done].
Qed.

Lemma drop_pieces_bytes n pieces : concat (drop_pieces n pieces) = drop (Z.to_nat n) (concat pieces).
Proof.
  revert n. induction pieces as [|p rest IH]; intros n; cbn; [by destruct (Z.to_nat n) |]. destruct (Z.leb_spec n 0).
  - by replace (Z.to_nat n) with 0%nat by lia.
  - destruct (Z.leb_spec (zlen p) n) as [Hle|Hgt]; [rewrite IH, drop_app_ge by (unfold zlen in *; lia); f_equal; unfold zlen; lia |].
    cbn. by rewrite drop_app_le by (unfold zlen in *; lia).
Qed.

Lemma spool_rest_spec s head expected reserved b r n b' :
  budget_ok b -> 0 <= reserved <= sb_used b -> zlen head <= reserved -> head = take (length head) (st_bytes s) ->
  spool_rest s head expected reserved b = (r, n, b') ->
  budget_ok b' /\ sb_limit b' = sb_limit b /\ reserved <= n /\ sb_used b' = sb_used b + (n - reserved) /\
  (r = Ok tt -> st_ok s = true /\ (0 <= expected -> zlen (st_bytes s) = expected) /\ (expected <= reserved -> zlen (st_bytes s) <= n)).
Proof.
  intros Hb Hr Hh Htake. assert (zlen (st_bytes s) = zlen head + zlen (drop (length head) (st_bytes s))) as Hsum.
  { rewrite <- (take_drop (length head) (st_bytes s)) at 1. rewrite zlen_app. by rewrite <- Htake. }
  pose proof (zlen_nonneg (drop (length head) (st_bytes s))). unfold spool_rest. destruct (Z.leb_spec 0 expected) as [Hx|Hx].
  - intros [= Hr0 <- <-]. split; [done |]. split; [done |]. split; [lia |]. split; [lia |]. intros ->. revert Hr0.
    destruct (_ && _) eqn:E1; [done |]. destruct (Z.ltb_spec (Z.max 0 (expected - zlen head)) (zlen (drop (length head) (st_bytes s)))); [done |].
    destruct (st_ok s); [| done]. cbn. destruct (Z.eqb_spec (zlen head + Z.min (Z.max 0 (expected - zlen head)) (zlen (drop (length head) (st_bytes s)))) expected); [| done].
    intros _. split; [done |]. split; [lia |]. lia.
  - destruct (copy_pieces _ _ _ _) as [[r1 n1] b1] eqn:E. destruct (copy_pieces_spec _ _ _ _ _ _ _ Hb Hr E) as (Hb1 & Hl1 & Hn1 & Hu1 & Hok).
    rewrite drop_pieces_bytes in Hok. change (concat (st_pieces s)) with (st_bytes s) in Hok. replace (Z.to_nat (zlen head)) with (length head) in Hok by (unfold zlen; lia).
    destruct r1 as [[]|e]; intros [= <- <- <-]; (split; [done |]; split; [done |]; split; [done |]; split; [done |]); [| done].
    destruct (st_ok s); [| done]. intros _. split; [done |]. split; [lia |]. intros _. specialize (Hok eq_refl Hh). lia.
Qed.

(** Whatever the budget, what is spooled is the whole body. *)
Lemma spool_body s expected b sp n b' : spoolWithBudget s expected b = (Ok (sp, n), b') ->
  st_ok s = true /\ sp_body sp = st_bytes s /\ forall d, sp_data sp = Some d -> d = st_bytes s.
Proof.
  unfold spoolWithBudget, read_head. set (limit := if 0 <=? expected then _ else _).
  assert ((0 <= expected -> limit = Z.min (memFillMax + 1) (expected + 1)) /\ (expected < 0 -> limit = memFillMax + 1)) as [Hl1 Hl2] by (subst limit; case_tests; lia).
  clearbody limit. destruct ((zlen (st_bytes s) <? limit) && negb (st_ok s)) eqn:Ebad; [done |]. set (head := slice (st_bytes s) 0 limit).
  assert (zlen head = Z.max 0 (Z.min limit (zlen (st_bytes s)))) as Hhead by (subst head; unfold slice, zlen; change (Z.to_nat 0) with 0%nat; rewrite drop_0, length_take; lia).
  destruct (Z.leb_spec (zlen head) memFillMax) as [Hmem|Hmem].
  - destruct ((0 <=? expected) && negb (zlen head =? expected)) eqn:Ez; [done |]. intros [= <- _ _]. cbn.
    assert (zlen (st_bytes s) < limit) as Hshort.
    { destruct (Z.leb_spec 0 expected) as [Hx|Hx]; [| lia]. cbn in Ez. apply negb_false_iff, Z.eqb_eq in Ez. pose proof (zlen_nonneg (st_bytes s)). lia. }
    rewrite (proj2 (Z.ltb_lt _ _) Hshort) in Ebad. apply negb_false_iff in Ebad. split; [done |].
    assert (head = st_bytes s) as -> by (subst head; apply slice_full; lia). split; [done |]. by intros d [= <-].
  - destruct (reserve _ 0 b) as [[n1|e] b1]; [| done]. destruct (spool_rest _ _ _ _ _) as [[[[]|e] n2] b2] eqn:E2; [| done]. intros [= <- _ _]. cbn.
    split; [| done]. unfold spool_rest in E2. destruct (0 <=? expected).
    + injection E2 as E2 _ _. revert E2. destruct (st_ok s); [done |]. by repeat case_match.
    + destruct (copy_pieces _ _ _ _) as [[[[]|e] ?] ?]; [| done]. by destruct (st_ok s).
Qed.

(** Spooling gives the whole body, of the expected size; what is in a file is
    reserved, the budget is never exceeded, and a failure gives everything
    back. *)
Lemma spool_exact (s : source) (expected : Z) (b : spoolBudget) (r : result spool_error (spooled * Z)) (b' : spoolBudget)
    (Hb : budget_ok b) (Hs : spoolWithBudget s expected b = (r, b')) :
  budget_ok b' /\ sb_limit b' = sb_limit b /\
  match r with
  | Ok (sp, reserved) =>
      st_ok s = true /\ sp_body sp = st_bytes s /\ (0 <= expected -> sp_size sp = expected) /\
      sb_used b' = sb_used b + reserved /\ 0 <= reserved /\
      match sp_data sp with
      | Some data => data = st_bytes s /\ zlen data <= memFillMax /\ reserved = 0
      | None => memFillMax < sp_size sp <= reserved
      end
  | Err _ => sb_used b' = sb_used b
  end.
Proof.
  revert Hs. unfold spoolWithBudget. set (limit := if 0 <=? expected then _ else _).
  assert ((0 <= expected -> limit = Z.min (memFillMax + 1) (expected + 1)) /\ (expected < 0 -> limit = memFillMax + 1)) as [Hl1 Hl2] by (subst limit; case_tests; lia).
  clearbody limit. unfold read_head. destruct ((zlen (st_bytes s) <? limit) && negb (st_ok s)) eqn:Ebad; [by intros [= <- <-] |].
  assert (slice (st_bytes s) 0 limit = take (Z.to_nat limit) (st_bytes s)) as -> by (unfold slice; by rewrite Z.sub_0_r).
  set (head := take (Z.to_nat limit) (st_bytes s)). assert (0 < memFillMax) as Hmax by (unfold memFillMax; lia).
  assert (zlen head = Z.min limit (zlen (st_bytes s))) as Hhead by (subst head; unfold zlen; rewrite length_take; lia).
  destruct (Z.leb_spec (zlen head) memFillMax) as [Hmem|Hmem].
  - destruct ((0 <=? expected) && negb (zlen head =? expected)) eqn:Ez; intros [= <- <-]; [done |]. split; [done |]. split; [done |].
    assert (0 <= expected -> zlen head = expected) as Hz.
    { intros Hx. rewrite (proj2 (Z.leb_le _ _) Hx) in Ez. by apply negb_false_iff, Z.eqb_eq in Ez. }
    assert (zlen (st_bytes s) < limit) as Hshort by lia. assert (head = st_bytes s) as Eh by (subst head; apply take_ge; unfold zlen in *; lia).
    assert (st_ok s = true) as Hok by (rewrite (proj2 (Z.ltb_lt _ _) Hshort) in Ebad; by apply negb_false_iff in Ebad).
    unfold sp_size. cbn. rewrite Eh in *. repeat split; try done; lia.
  - destruct (reserve _ 0 b) as [r1 b1] eqn:E1. assert (0 <= 0 <= sb_used b) as H0 by (destruct Hb; lia).
    destruct (reserve_spec _ _ _ _ _ Hb H0 E1) as (Hb1 & Hlb1 & H1). destruct r1 as [n1|e]; [| intros [= <- <-]; destruct H1; done].
    destruct H1 as [-> Hu1]. destruct (spool_rest _ _ _ _ _) as [[r2 n2] b2] eqn:E2.
    apply spool_rest_spec in E2 as (Hb2 & Hlb2 & Hn2 & Hu2 & Hok2); [| done | destruct Hb; lia | lia | subst head; rewrite length_take, <- take_take; by rewrite (take_ge (st_bytes s) (length (st_bytes s))) by lia].
    destruct r2 as [[]|e]; intros [= <- <-]; cbn.
    + destruct (Hok2 eq_refl) as (Hst & Hsize & Hres). split; [done |]. split; [lia |]. split; [done |]. split; [done |]. unfold sp_size. cbn.
      split; [done |]. split; [lia |]. split; [lia |]. split; [lia | apply Hres; lia].
    + split; [unfold budget_ok in *; cbn; destruct Hb, Hb2; lia |]. split; [lia |]. lia.
Qed.
