(* ===== verification/Tier.v ===== *)
(** * The cache tier

    Models [Tier] of [internal/objcache/cache.go]: reads through two cache
    namespaces in front of an origin, fills under leases, ranges kept in
    chunks, direct and written-back uploads, deletions behind tombstones, and
    the worker that uploads what is owed.

    An operation is a program over actions: what it asks of the clock, of the
    store, of the origin and of the process, with the answer deciding how it
    goes on.  What the actions do, and how the programs of many processes
    interleave, is in [TierMachine.v].  Times and durations are in
    microseconds. *)

From stdpp Require Import gmap.
From S2P Require Import Prelude GoStrings Ns Ranges Precond Blocks Ids Tables Objects CacheTables Machine Origin Spool.

(** ** Constants *)

Definition second : Z := 1000000.
Definition minute : Z := 60 * second.
Definition fullCacheMax : Z := 8 * 2 ^ 20.
Definition maxRangeChunk : Z := 8 * 2 ^ 20.
Definition maxRangeCacheSpan : Z := 64 * 2 ^ 20.
Definition writeBackMin : Z := 8 * 2 ^ 20.
Definition originTombstoneTTL : Z := 30 * minute.
Definition fillLeaseTTL : Z := 2 * minute.
Definition fillLeaseWait : Z := 45 * second.

Inductive tier_error :=
| StoreErr (e : store_error)
| OriginErr (e : origin_error)
| SpoolErr (e : spool_error)
| RangeErr
| errPendingOrigin
| errFillBusy
| ErrReadOnly
| Cancelled
| ShortBody
| WrongLength
| Assembled
| ChunkedPending
| BodyMissing
| OutOfFuel.

Definition is_stale (e : tier_error) : bool := match e with StoreErr ErrStaleCache => true | _ => false end.
Definition is_precondition (e : tier_error) : bool := match e with StoreErr ErrPreconditionFailed => true | _ => false end.
Definition is_busy (e : tier_error) : bool := match e with errPendingOrigin | errFillBusy => true | _ => false end.

(** [IsObjNotFoundErr] *)
Definition IsObjNotFoundErr (e : tier_error) : bool := match e with OriginErr e => isObjectNotFound e | _ => false end.

(** ** Tiers *)

Record Tier := mkTier {
  t_origin : origin;
  t_namespace : string;
  t_ttl : Z;
  t_retention : Z;
  t_rangeSize : Z;
  t_readOnly : bool;
  t_writeBack : bool;
  t_workerID : string;
  t_fillTTL : Z;
  t_store : Z
}.

Record TierOptions := mkTierOptions {
  to_Namespace : string; to_TTL : Z; to_Retention : Z; to_RangeChunk : Z; to_ReadOnly : bool; to_WriteBack : bool
}.

(** [New], for a configuration that parses: an invalid namespace is refused. *)
Definition newTier (o : origin) (store : Z) (workerID : string) (opts : TierOptions) : option Tier :=
  let namespace := if bool_decide (to_Namespace opts = "") then "origin" else to_Namespace opts in
  if negb (ValidName namespace) then None
  else Some (mkTier o namespace
    (if to_TTL opts <? 0 then minute else to_TTL opts)
    (if to_Retention opts <=? 0 then 24 * 60 * minute else to_Retention opts)
    (if 0 <? to_RangeChunk opts then Z.min (Z.max (to_RangeChunk opts) (64 * 2 ^ 10)) maxRangeChunk else 0)
    (to_ReadOnly opts) (to_WriteBack opts) workerID 0 store).

(** ** Views, objects and plans *)

Record readView := mkView { rv_Info : ObjectInfo; rv_start : Z; rv_end : Z; rv_ranged : bool; rv_hit : bool }.

Record Object := mkObject { to_Info : ObjectInfo; to_Start : Z; to_End : Z; to_Ranged : bool; to_Hit : bool; to_Body : option source }.

Definition newObject (v : readView) (body : option source) : Object :=
  mkObject (rv_Info v) (rv_start v) (rv_end v) (rv_ranged v) (rv_hit v) body.

Definition no_info : ObjectInfo := mkInfo 0 "" "" "" "" "" "" "" [] (time_of None) None.
Definition empty_body : source := mkStream [] true.

Definition with_etags (i : ObjectInfo) (etag originETag : string) : ObjectInfo :=
  mkInfo (oi_Size i) etag originETag (oi_ContentType i) (oi_ContentEncoding i) (oi_ChecksumName i) (oi_ChecksumValue i) (oi_ChecksumType i)
    (oi_UserMetadata i) (oi_CreatedAt i) (oi_OriginModified i).

Definition with_type (i : ObjectInfo) (ct : string) : ObjectInfo :=
  mkInfo (oi_Size i) (oi_ETag i) (oi_OriginETag i) ct (oi_ContentEncoding i) (oi_ChecksumName i) (oi_ChecksumValue i) (oi_ChecksumType i)
    (oi_UserMetadata i) (oi_CreatedAt i) (oi_OriginModified i).

(** The view of a range before its entity tag is known. *)
Definition range_view (size : Z) (ct : string) (created : Z) (etag encoding : string) (meta : list string) (span : Span) : readView :=
  mkView (mkInfo size etag "" ct encoding "" "" "" meta created None) (sp_Start span) (sp_End span) (sp_Ranged span) false.

Inductive cacheAction := cacheActionZero | cacheActionPassThrough | cacheActionRange | cacheActionCached.

(** [planCacheRead] *)
Definition planCacheRead (valid attrsValid : bool) (rangeSize : Z) (readOnly : bool) (size start stop : Z) : cacheAction :=
  if size =? 0 then cacheActionZero
  else
    let length := stop - start + 1 in
    if readOnly && negb valid && negb attrsValid then cacheActionPassThrough
    else if (0 <? rangeSize) && negb valid && (rangeSize <? size) && (length <? size) && (length <=? maxRangeCacheSpan) then cacheActionRange
    else if valid || (length =? size) || (size <=? fullCacheMax) then cacheActionCached
    else cacheActionPassThrough.

Definition originETag (i : ObjectInfo) : string := orValue (oi_OriginETag i) (oi_ETag i).

(** [responseETag] and [responseETagSlice] *)
Definition responseETag (i : ObjectInfo) : string :=
  if IsPending (ParseCacheVersion (oi_OriginETag i)) then oi_ETag i else originETag i.

Definition responseETagSliceFor (k : Kind) (i : ObjectInfo) : string :=
  if bool_decide (k = WriteBack) then oi_ETag i else responseETag i.

Definition cachedInfo (k : Kind) (i : ObjectInfo) : ObjectInfo :=
  with_etags i (if bool_decide (k = WriteBack) then oi_ETag i else responseETag i) (originETag i).

Definition hex16 (n : Z) : string :=
  let digits := (fun i => Z.land (Z.shiftr n (4 * i)) 15) <$> rev (seqZ 0 16) in String.string_of_list_ascii (hex_digit_of <$> digits).

Fixpoint hex_loop (fuel : nat) (n : Z) (acc : string) : string :=
  match fuel with
  | O => acc
  | S fuel => if n =? 0 then acc else hex_loop fuel (n / 16) (String (hex_digit_of (n mod 16)) acc)
  end.

(** The verb [%x] for an [int64] that is not negative. *)
Definition FormatHex (n : Z) : string := if n =? 0 then "0" else hex_loop 16 n "".

(** [rangeChunkKey]; offsets are not negative. *)
Definition rangeChunkKey (ck : string) (offset : Z) (version : string) : string :=
  ck +:+ ".__range__." +:+ hex16 offset +:+ "." +:+ version.

Definition keyLocks : Z := 64.

(** [keyLockIndex]: FNV-1a on 32 bits. *)
Definition keyLockIndex (ck : string) : Z :=
  fold_left (fun h c => (Z.lxor h (code c) * 16777619) mod 2 ^ 32) (String.list_ascii_of_string ck) 2166136261 mod keyLocks.

(** ** Actions *)

(** What calls share ([singleflight]): the attributes of a key, a fill of a
    key, and a run of chunks of a version. *)
Inductive flight :=
| HeadFlight (ck : string)
| FillFlight (ck key : string)
| RangeFlight (ck key : string) (v : readView) (first last : Z).

Inductive flight_value := VAttrs (a : originAttrs) | VMeta (m : Meta) | VChunks (chunks : list bytes).

Inductive tier_lock := Shard (i : Z) | Advisory (ck : string).
#[global] Instance tier_lock_eq_dec : EqDecision tier_lock.
Proof. solve_decision. Defined.

(** What the process and the database supply to an operation of the store: a
    block of file identifiers, the rows other transactions hold, and a new
    identifier. *)
Record supply := mkSupply { su_proc : nat; su_block : list Z; su_locked : string -> bool; su_uuid : string }.

Inductive action :=
| Clock
| SleepUntil (until : Z)
| RandomID
| Enter
| LeaseLost
| Validate
| Lock (l : tier_lock)
| Unlock (l : tier_lock)
| SpoolBody (s : source) (expected : Z)
| Unspool (reserved : Z)
| GetMetadata (ck : string) (withInline : bool)
| GetMeta (k : Kind) (ck : string)
| GetBody (k : Kind) (m : Meta) (rng : ByteRange)
| ReadMany (keys : list string) (retention : Z)
| GetOriginMetadata (ck : string) (maxAge : Z)
| Put (k : Kind) (key : string) (data : bytes) (opts : WriteOptions)
| Write (k : Kind) (key : string) (body : bytes) (opts : WriteOptions)
| Run (k : Kind) (o : supply -> Operation)
| OUpload (ck : string) (body : bytes) (size : Z) (u : originUpload)
| ODelete (ck : string)
| ODeleteMany (cks : list string)
| OGet (ck : string)
| ORange (ck : string) (offset length : Z) (ifMatch : string)
| OHead (ck : string)
| OCheck (ck : string)
| Join (f : flight).

Definition answer (e : action) : Type :=
  match e with
  | Clock => Z
  | SleepUntil _ | Enter | LeaseLost => bool
  | RandomID => string
  | Validate | Lock _ | ODelete _ | OCheck _ => result tier_error unit
  | Unlock _ | Unspool _ => unit
  | SpoolBody _ _ => result tier_error (spooled * Z)
  | GetMetadata _ _ => result tier_error (Meta * Kind)
  | GetMeta _ _ | Put _ _ _ _ => result tier_error Meta
  | GetBody _ _ _ | ORange _ _ _ _ => result tier_error source
  | ReadMany _ _ => result tier_error (list (option bytes))
  | GetOriginMetadata _ _ => result tier_error (option ObjectInfo)
  | Write _ _ _ _ => result tier_error Published
  | Run _ _ => result tier_error reply
  | OUpload _ _ _ _ | OHead _ => result tier_error originAttrs
  | ODeleteMany _ => list (result tier_error unit)
  | OGet _ => result tier_error (source * originAttrs)
  | Join _ => result tier_error flight_value
  end.

(** ** Programs *)

Inductive prog (A : Type) : Type :=
| Ret (a : A)
| Do (e : action) (k : answer e -> prog A).
Arguments Ret {A} a.
Arguments Do {A} e k.

Fixpoint prog_bind {A B} (p : prog A) (f : A -> prog B) : prog B :=
  match p with
  | Ret a => f a
  | Do e k => Do e (fun x => prog_bind (k x) f)
  end.

#[global] Instance prog_mret : MRet prog := fun A a => Ret a.
#[global] Instance prog_mbind : MBind prog := fun A B f p => prog_bind p f.
#[global] Instance prog_fmap : FMap prog := fun A B f p => prog_bind p (fun x => Ret (f x)).

Definition act (e : action) : prog (answer e) := Do e Ret.

(** Programs that can raise. *)
Abbreviation call A := (prog (result tier_error A)).

Definition try_bind {A B} (p : call A) (f : A -> call B) : call B :=
  r ← p; match r with Ok a => f a | Err e => mret (Err e) end.

Notation "'let!' x ':=' c 'in' k" := (try_bind c (fun x => k)) (at level 10, x pattern, c at level 100, k at level 200) : go_scope.

Definition done {A} (a : A) : call A := mret (Ok a).
Definition raise {A} (e : tier_error) : call A := mret (Err e).

(** The texts of errors, which the code builds with [fmt]. *)
Class ErrorText := error_text : tier_error -> string.

Record cacheResolution := mkResolution {
  cr_meta : option Meta;
  cr_kind : Kind;
  cr_attrs : originAttrs;
  cr_info : ObjectInfo;
  cr_valid : bool;
  cr_attrsValid : bool
}.

Record UploadOptions := mkTierUpload {
  tu_ExpectedSize : Z;
  tu_UserMetadata : list string;
  tu_ContentType : string;
  tu_ContentEncoding : string;
  tu_Checksum : option Checksum;
  tu_ChecksumType : string;
  tu_Precondition : Precondition;
  tu_Validate : bool
}.

Section Operations.
Context `{Mime, ErrorText} (t : Tier).

Definition tier_key (bucket key : string) : string := bucket +:+ "/" +:+ key.

Definition durableRetention : Z := Z.max (t_retention t) originTombstoneTTL.

Definition leaseTTL : Z := if 0 <? t_fillTTL t then t_fillTTL t else fillLeaseTTL.

Definition type_or (ct key : string) : string := if bool_decide (ct = "") then contentTypeFor key else ct.

(** An operation of the store that asks for no file identifier. *)
Definition run_op (k : Kind) (o : Operation) : call reply := act (Run k (fun _ => o)).
Definition cache_op (k : Kind) (o : cache_operation) : call reply := run_op k (CacheOp o).

(** *** Looking up *)

Definition lookupCached (ck : string) (withInline : bool) : call (option (Meta * Kind)) :=
  r ← act (GetMetadata ck withInline);
  match r with
  | Ok x => done (Some x)
  | Err (StoreErr ErrNotFound) => done None
  | Err e => raise e
  end.

Definition currentMeta (ck : string) : call (option Meta) :=
  let! found := lookupCached ck true in
  match found with
  | Some (m, _) => done (if IsDeleted (ParseCacheVersion (oi_OriginETag (m_Info m))) then None else Some m)
  | None => done None
  end.

Definition touch (k : Kind) (ck : string) : prog unit :=
  if t_readOnly t then mret tt
  else _ ← cache_op k (TouchObjectOp ck (if bool_decide (k = WriteBack) then durableRetention else t_retention t)); mret tt.

Definition join_head (ck : string) : call originAttrs :=
  let! v := act (Join (HeadFlight ck)) in match v with VAttrs a => done a | _ => raise Cancelled end.

(** The part of [resolveCache] that asks the origin. *)
Definition resolve_origin (ck : string) (deleteStale : bool) (found : option (Meta * Kind)) : call cacheResolution :=
  validated ← act Clock;
  r ← join_head ck;
  match r with
  | Err e =>
      if IsObjNotFoundErr e then
        _ ← match found with
            | Some (m, k) => if bool_decide (k = WriteBack) && negb (t_readOnly t) then cache_op k (RetireOp ck (Some m)) else done Done
            | None => done Done
            end;
        raise (StoreErr ErrNotFound)
      else raise e
  | Ok a =>
      let info := attrs_info a in
      match found with
      | None =>
          let res := mkResolution None Cache a info false false in
          if (0 <? t_rangeSize t) && (0 <? t_ttl t) && (t_rangeSize t <? oa_Size a) && negb (t_readOnly t) then
            now ← act Clock;
            let! _ := cache_op Cache (RememberOp ck info (now - validated) (Z.min (t_ttl t) (t_retention t))) in
            done res
          else done res
      | Some (m, k) =>
          if (m_Size m =? oi_Size info) && bool_decide (oi_OriginETag (m_Info m) = oi_OriginETag info) then
            touch k ck;;
            done (mkResolution (Some m) k a (cachedInfo k (m_Info m)) true false)
          else
            let stale := mkResolution (if bool_decide (k = WriteBack) then None else Some m) k a info false false in
            if negb (t_readOnly t) && (deleteStale || bool_decide (k = WriteBack)) then
              if bool_decide (k = WriteBack) then
                let! _ := cache_op k (RetireOp ck (Some m)) in done stale
              else
                _ ← cache_op k (DeleteExpectedOp ck (oi_OriginETag (m_Info m)));
                done stale
            else done stale
      end
  end.

Definition resolveCache (ck : string) (deleteStale withInline skipAttributesOnMiss : bool) : call cacheResolution :=
  let! found := lookupCached ck withInline in
  match found with
  | Some (m, k) =>
      let state := cv_State (ParseCacheVersion (oi_OriginETag (m_Info m))) in
      if bool_decide (state = CacheDeleted) then raise (StoreErr ErrNotFound)
      else
        now ← act Clock;
        if bool_decide (state = CachePending) || ((0 <? t_ttl t) && (now - oi_CreatedAt (m_Info m) <? t_ttl t))
        then done (mkResolution (Some m) k no_attrs (cachedInfo k (m_Info m)) true false)
        else resolve_origin ck deleteStale found
  | None =>
      if skipAttributesOnMiss then done (mkResolution None Cache no_attrs no_info false false)
      else if (0 <? t_rangeSize t) && (0 <? t_ttl t) then
        let! info := act (GetOriginMetadata ck (t_ttl t)) in
        match info with
        | Some i =>
            let attrs := mkOriginAttrs (oi_Size i) (oi_OriginETag i) (Some (LastModified i)) (oi_ContentType i) (oi_ContentEncoding i) (oi_UserMetadata i) in
            done (mkResolution None Cache attrs i false true)
        | None => resolve_origin ck deleteStale None
        end
      else resolve_origin ck deleteStale None
  end.

(** *** Storing *)

Definition locked_object (ck : string) : LockedObject := mkLocked (Some (t_store t)) true (mkObjectRef (WriteBackRef (t_namespace t)) ck) false.

(** The chunked path of [storeSpooled]. *)
Definition store_chunked (k : Kind) (key : string) (body : bytes) (opts : WriteOptions) : call Meta :=
  let! pub := act (Write k key body opts) in
  now ← act Clock;
  let '(name, value, ty) := match wo_Checksum opts with Some c => (cs_Name c, cs_Value c, wo_ChecksumType opts) | None => ("", "", "") end in
  done (mkMeta (mkInfo (ps_Size pub) (ps_ETag pub) (pb_origin (wo_Publication opts)) (wo_ContentType opts) (wo_ContentEncoding opts)
          name value ty (default [] (wo_UserMetadata opts)) now (wo_OriginModified opts))
          (ps_SHA256 pub) (wo_ExpiresAt opts) (ps_FileID pub) None None None 0).

(** [storeSpooled]; [locked] is the object of a held lock. *)
Definition storeSpooled (k : Kind) (key : string) (sp : spooled) (opts : WriteOptions) (locked : option LockedObject) : call Meta :=
  if match locked with Some l => bool_decide (lo_ref l <> mkObjectRef (mkRef k (t_namespace t)) key) | None => false end
  then raise (StoreErr InvalidPublication)
  else
    now ← act Clock;
    let retention := if bool_decide (k = WriteBack) then durableRetention else t_retention t in
    let pending := match pb_kind (wo_Publication opts) with publicationPending => true | _ => false end in
    let expires := if pending then None else Some (now + retention) in
    let opts := mkWriteOptions (wo_Precondition opts) (wo_UserMetadata opts) (wo_ContentType opts) (wo_ContentEncoding opts)
      (wo_OriginModified opts) (wo_Checksum opts) (wo_ChecksumType opts) expires (wo_KeepTTL opts) (wo_Publication opts) locked (sp_size sp) in
    match sp_data sp with
    | Some data =>
        if zlen data <=? InlineMax k then
          if pending then raise ChunkedPending else act (Put k key data opts)
        else store_chunked k key (sp_body sp) opts
    | None => store_chunked k key (sp_body sp) opts
    end.

(** [cacheTombstone] *)
Definition tombstone (k : Kind) (ck : string) (expires : Z) (locked : option LockedObject) : call Meta :=
  now ← act Clock;
  act (Put k ck [] (mkWriteOptions (mkPrecondition Unconditional "") None octet_stream "" None None "" (Some expires) false
    (mkPublication publicationTombstone (CacheVersion_String (DeletedCacheVersion (FormatInt (UnixNano (Some now))))) "" None no_pending) locked 0)).

Definition fenceReadCache (ck : string) : call Meta :=
  now ← act Clock; tombstone Cache ck (now + originTombstoneTTL) None.

(** *** Filling *)

Definition with_publication (o : WriteOptions) (p : Publication) (modified : option Z) : WriteOptions :=
  mkWriteOptions (wo_Precondition o) (wo_UserMetadata o) (wo_ContentType o) (wo_ContentEncoding o) modified (wo_Checksum o) (wo_ChecksumType o)
    (wo_ExpiresAt o) (wo_KeepTTL o) p (wo_lock o) (wo_ExpectedSize o).

Definition currentFillResult (ck : string) : call Meta :=
  let! cur := currentMeta ck in
  match cur with Some m => done m | None => raise (StoreErr ErrStaleCache) end.

(** What [acquireFill] finds in the cache. *)
Definition fill_probe (ck : string) : call (option Meta) :=
  let! found := lookupCached ck true in
  match found with
  | None => done None
  | Some (m, _) =>
      match cv_State (ParseCacheVersion (oi_OriginETag (m_Info m))) with
      | CacheDeleted => raise (StoreErr ErrNotFound)
      | CachePending => raise errPendingOrigin
      | CacheLive => done (Some m)
      end
  end.

(** The loop of [acquireFill]: a lease, or what another fill has left. *)
Fixpoint acquire_loop (fuel : nat) (ck : string) (deadline : Z) : call (FillLease + Meta) :=
  match fuel with
  | O => raise OutOfFuel
  | S fuel =>
      let! m := fill_probe ck in
      match m with
      | Some m => done (inr m)
      | None =>
          id ← act RandomID;
          let owner := t_workerID t +:+ "-" +:+ id in
          let! r := cache_op Cache (AcquireOp ck owner leaseTTL) in
          match r with
          | Flag true =>
              r ← fill_probe ck;
              match r with
              | Ok None => done (inl (mkFillLease (t_namespace t) ck owner))
              | Ok (Some m) => _ ← cache_op Cache (ReleaseOp ck owner); done (inr m)
              | Err e => _ ← cache_op Cache (ReleaseOp ck owner); raise e
              end
          | _ =>
              now ← act Clock;
              let pause := Z.min (100 * 1000) (deadline - now) in
              if pause <=? 0 then raise errFillBusy
              else
                woken ← act (SleepUntil (now + pause));
                if negb woken then raise Cancelled else acquire_loop fuel ck deadline
          end
      end
  end.

Definition acquireFill (ck : string) (wait : Z) : call (FillLease + Meta) :=
  now ← act Clock; acquire_loop (Z.to_nat (wait / (100 * 1000)) + 3) ck (now + wait).

(** The [fetch] of [fill], under a lease. *)
Definition fill_fetch (ck key : string) (lease : FillLease) : call Meta :=
  r ← act (OGet ck);
  match r with
  | Err e => if IsObjNotFoundErr e then raise (StoreErr ErrNotFound) else raise e
  | Ok (rc, attrs) =>
      r ← act (SpoolBody rc (oa_Size attrs));
      match r with
      | Err e => if IsObjNotFoundErr e then raise (StoreErr ErrNotFound) else raise e
      | Ok (sp, reserved) =>
          r ← (if negb (sp_size sp =? oa_Size attrs) then raise WrongLength
               else
                 r ← storeSpooled Cache ck sp
                       (with_publication (attrs_options attrs) (FillPublication (versionFor attrs) (versionFor attrs) (Some lease)) (oa_LastModified attrs)) None;
                 match r with
                 | Err e => if is_stale e then currentFillResult ck else raise e
                 | Ok m => done m
                 end);
          act (Unspool reserved);;
          mret r
      end
  end.

(** [coalesceFill] under its key, for the timeout of [fill]. *)
Definition fill_flight (ck key : string) : call Meta :=
  let timeout := 10 * minute in
  let! _ := act (Lock (Shard (keyLockIndex ck))) in
  r ← (entered ← act Enter;
       if negb entered then raise Cancelled
       else
         entered ← act Enter;
         if negb entered then raise Cancelled
         else
           let! x := acquireFill ck (Z.min (timeout - second) (Z.max fillLeaseWait (timeout / 2))) in
           match x with
           | inr m => done m
           | inl lease =>
               r ← fill_fetch ck key lease;
               lost ← act LeaseLost;
               _ ← cache_op Cache (ReleaseOp ck (fl_Owner lease));
               if lost : bool then raise (StoreErr ErrStaleCache) else mret r
           end);
  act (Unlock (Shard (keyLockIndex ck)));;
  mret r.

Definition fill (ck key : string) : call Meta :=
  let! v := act (Join (FillFlight ck key)) in match v with VMeta m => done m | _ => raise Cancelled end.

(** *** Ranges *)

Definition rangeChunkLen (size off : Z) : Z := Z.min (t_rangeSize t) (size - off).

(** The offsets [first], [first + rangeSize], ... up to [last]. *)
Definition offsets (first last : Z) : list Z := (fun i => first + i * t_rangeSize t) <$> seqZ 0 ((last - first) / t_rangeSize t + 1).

(** The chunks of a run are stored one by one; failures are not reported. *)
Fixpoint store_chunks (ck : string) (v : readView) (first : Z) (buf : bytes) (offs : list Z) : prog (list bytes) :=
  match offs with
  | [] => mret []
  | off :: rest =>
      let chunk := slice buf (off - first) (off - first + rangeChunkLen (oi_Size (rv_Info v)) off) in
      let version := oi_ETag (rv_Info v) in
      _ ← storeSpooled Cache (rangeChunkKey ck off version) (mkSpooled (Some chunk) chunk)
            (mkWriteOptions (mkPrecondition Unconditional "") None (oi_ContentType (rv_Info v)) "" (Some (oi_CreatedAt (rv_Info v))) None "" None false
              (FillPublication version version None) None 0) None;
      chunks ← store_chunks ck v first buf rest;
      mret (chunk :: chunks)
  end.

(** [fillRangeRun] under its key. *)
Definition range_flight (ck key : string) (v : readView) (first last : Z) : call (list bytes) :=
  let version := oi_ETag (rv_Info v) in
  let length := last + rangeChunkLen (oi_Size (rv_Info v)) last - first in
  entered ← act Enter;
  if negb entered then raise Cancelled
  else
    entered ← act Enter;
    if negb entered then raise Cancelled
    else
      r ← act (ORange ck first length version);
      match r with
      | Err (OriginErr errOriginPrecondition) =>
          _ ← cache_op Cache (ForgetOp ck version); raise (StoreErr ErrStaleCache)
      | Err e => if IsObjNotFoundErr e then raise (StoreErr ErrNotFound) else raise e
      | Ok rc =>
          if zlen (st_bytes rc) <? length then raise ShortBody
          else chunks ← store_chunks ck v first (slice (st_bytes rc) 0 length) (offsets first last); done chunks
      end.

Definition fillRangeRun (ck key : string) (v : readView) (first last : Z) : call (list bytes) :=
  let! r := act (Join (RangeFlight ck key v first last)) in match r with VChunks l => done l | _ => raise Cancelled end.

(** A chunk that is there, as long as it should be. *)
Definition present (size : Z) (offs : list Z) (chunks : list (option bytes)) (i : nat) : bool :=
  match offs !! i, chunks !! i with
  | Some off, Some (Some b) => zlen b =? rangeChunkLen size off
  | _, _ => false
  end.

(** The last chunk of the run of missing ones that starts at [i]. *)
Fixpoint run_end (n : nat) (size : Z) (offs : list Z) (chunks : list (option bytes)) (i j : nat) : nat :=
  match n with
  | O => j
  | S n =>
      match offs !! i, offs !! S j with
      | Some off, Some next =>
          if present size offs chunks (S j) || (maxRangeChunk <? next - off + rangeChunkLen size next) then j
          else run_end n size offs chunks i (S j)
      | _, _ => j
      end
  end.

(** [copy(chunks[i:j+1], filled)] *)
Definition copy_chunks (i j : nat) (filled : list bytes) (chunks : list (option bytes)) : list (option bytes) :=
  let n := Nat.min (S j - i) (length filled) in
  take i chunks ++ (Some <$> take n filled) ++ drop (i + n) chunks.

Fixpoint fill_missing (n : nat) (ck key : string) (v : readView) (offs : list Z) (i : nat) (chunks : list (option bytes)) (hit : bool)
    : call (list (option bytes) * bool) :=
  match n with
  | O => done (chunks, hit)
  | S n =>
      match offs !! i with
      | None => done (chunks, hit)
      | Some first =>
          if present (oi_Size (rv_Info v)) offs chunks i then fill_missing n ck key v offs (S i) chunks hit
          else if t_readOnly t then raise errFillBusy
          else
            let j := run_end (length offs) (oi_Size (rv_Info v)) offs chunks i i in
            let! filled := fillRangeRun ck key v first (default first (offs !! j)) in
            fill_missing n ck key v offs (S j) (copy_chunks i j filled chunks) false
      end
  end.

Definition chunk_part (start stop : Z) (x : Z * option bytes) : bytes :=
  let b := default [] x.2 in slice b (Z.max (start - x.1) 0) (Z.min (stop - x.1 + 1) (zlen b)).

Definition with_hit (v : readView) (hit : bool) : readView := mkView (rv_Info v) (rv_start v) (rv_end v) (rv_ranged v) hit.

Definition openRange (ck key : string) (v : readView) : call Object :=
  let offs := offsets (rv_start v - rv_start v mod t_rangeSize t) (rv_end v) in
  let! chunks := act (ReadMany ((fun off => rangeChunkKey ck off (oi_ETag (rv_Info v))) <$> offs) (if t_readOnly t then 0 else t_retention t)) in
  let! (chunks, hit) := fill_missing (length offs) ck key v offs 0 chunks true in
  let parts := chunk_part (rv_start v) (rv_end v) <$> zip offs chunks in
  if negb (zlen (concat parts) =? rv_end v - rv_start v + 1) then raise Assembled
  else done (newObject (with_hit v hit) (Some (mkStream parts true))).

(** *** Reading *)

Definition passThrough (ck : string) (v : readView) (a : originAttrs) : call Object :=
  r ← act (ORange ck (rv_start v) (rv_end v - rv_start v + 1) "");
  match r with
  | Err e => if IsObjNotFoundErr e then raise (StoreErr ErrNotFound) else raise e
  | Ok rc =>
      let i := rv_Info v in
      let info := mkInfo (oi_Size i) (etagForAttrs a) (oi_OriginETag i) (oi_ContentType i) (oa_ContentEncoding a) "" "" "" (oa_UserMetadata a)
        (oi_CreatedAt i) (oi_OriginModified i) in
      done (newObject (mkView info (rv_start v) (rv_end v) (rv_ranged v) (rv_hit v)) (Some rc))
  end.

Definition attrs_view (a : originAttrs) (ct : string) (span : Span) : readView :=
  range_view (oa_Size a) ct (time_of (oa_LastModified a)) (etagForAttrs a) (oa_ContentEncoding a) (oa_UserMetadata a) span.

Definition passThroughWhole (ck key : string) (rng : ByteRange) : call Object :=
  r ← act (OGet ck);
  match r with
  | Err e => if IsObjNotFoundErr e then raise (StoreErr ErrNotFound) else raise e
  | Ok (rc, attrs) =>
      match Resolve rng (oa_Size attrs) with
      | Err _ => raise RangeErr
      | Ok span => done (newObject (attrs_view attrs (type_or (oa_ContentType attrs) key) span) (Some rc))
      end
  end.

Definition openPending (ck key : string) (rng : ByteRange) : call Object :=
  r ← act (OHead ck);
  match r with
  | Err e => if IsObjNotFoundErr e then raise (StoreErr ErrNotFound) else raise e
  | Ok a =>
      let ct := type_or (oa_ContentType a) key in
      match Resolve rng (oa_Size a) with
      | Err _ => raise RangeErr
      | Ok span =>
          if oa_Size a =? 0 then
            done (newObject (attrs_view a ct (mkSpan 0 0 (br_Requested rng))) (Some empty_body))
          else passThrough ck (range_view (oa_Size a) ct (time_of (oa_LastModified a)) "" "" [] span) a
      end
  end.

(** [GetBodyFromMeta], which refuses metadata that have expired. *)
Definition body_from_meta (k : Kind) (m : Meta) (rng : ByteRange) : call (SliceMeta * source) :=
  now ← act Clock;
  if negb (Live m now) then raise (StoreErr ErrNotFound)
  else match Resolve rng (m_Size m) with
       | Err _ => raise RangeErr
       | Ok span =>
           let! body := act (GetBody k m rng) in
           done (mkSliceMeta (m_Info m) (m_FileID m) (m_Parts m) (m_PartEnds m) (sp_Start span) (sp_End span), body)
       end.

Definition openCached (k : Kind) (m : Meta) (v : readView) : call Object :=
  let! (sm, body) := body_from_meta k m (Range (rv_start v) (rv_end v) (-1)) in
  let i := sm_Info sm in
  let info := mkInfo (oi_Size i) (responseETagSliceFor k i) "" (oi_ContentType i) (oi_ContentEncoding i) (oi_ChecksumName i) (oi_ChecksumValue i)
    (oi_ChecksumType i) (oi_UserMetadata i) (oi_CreatedAt i) (oi_OriginModified i) in
  done (newObject (mkView info (sm_Start sm) (sm_End sm) (rv_ranged v) (rv_hit v)) (Some body)).

Definition openZero (ck key : string) (res : cacheResolution) (rng : ByteRange) : call Object :=
  let info := with_type (cr_info res) (type_or (oi_ContentType (cr_info res)) key) in
  let zero := newObject (mkView (mkInfo 0 (oi_ETag info) (oi_OriginETag info) (oi_ContentType info) (oi_ContentEncoding info) (oi_ChecksumName info)
    (oi_ChecksumValue info) (oi_ChecksumType info) (oi_UserMetadata info) (oi_CreatedAt info) (oi_OriginModified info)) 0 0 (br_Requested rng) false) (Some empty_body) in
  if cr_valid res then done (newObject (mkView info 0 0 false true) (Some empty_body))
  else if t_readOnly t then done zero
  else
    r ← fill ck key;
    match r with
    | Err e => if is_busy e then done zero else if is_stale e then openPending ck key rng else raise e
    | Ok m =>
        if negb (m_Size m =? 0) then openPending ck key rng
        else done (newObject (mkView (with_etags (m_Info m) (responseETag (m_Info m)) (originETag (m_Info m))) 0 0 false false) (Some empty_body))
    end.

(** After a fill, what was written meanwhile comes first. *)
Definition after_fill (ck : string) (m : Meta) (use : Meta -> Kind -> call Object) : call Object :=
  r ← act (GetMeta WriteBack ck);
  match r with
  | Ok wm => if IsDeleted (ParseCacheVersion (oi_OriginETag (m_Info wm))) then raise (StoreErr ErrNotFound) else use wm WriteBack
  | Err _ => use m Cache
  end.

Definition Head (bucket key : string) : call Object :=
  let ck := tier_key bucket key in
  let! res := resolveCache ck false false false in
  let info := with_type (cr_info res) (type_or (oi_ContentType (cr_info res)) key) in
  done (newObject (mkView info 0 (Z.max (oi_Size info - 1) 0) false (cr_valid res || cr_attrsValid res)) None).

(** [Open] of a whole object that is not cached. *)
Definition open_missing (ck key : string) (rng : ByteRange) : call Object :=
  if t_readOnly t then passThroughWhole ck key rng
  else
    r ← fill ck key;
    match r with
    | Err e => if is_busy e || is_stale e then openPending ck key rng else raise e
    | Ok m =>
        after_fill ck m (fun m k =>
          match Resolve rng (m_Size m) with
          | Err _ => raise RangeErr
          | Ok span => openCached k m (mkView no_info (sp_Start span) (sp_End span) (sp_Ranged span) false)
          end)
    end.

Definition Open (bucket key : string) (rng : ByteRange) : call Object :=
  let ck := tier_key bucket key in
  let skip := negb (br_Requested rng) in
  let! res := resolveCache ck true true skip in
  if skip && match cr_meta res with None => true | Some _ => false end then open_missing ck key rng
  else
    let info := cr_info res in
    let size := oi_Size info in
    let ct := type_or (oi_ContentType info) key in
    match Resolve rng size with
    | Err _ => raise RangeErr
    | Ok span =>
        let view := range_view size ct (oi_CreatedAt info) "" "" [] span in
        match planCacheRead (cr_valid res) (cr_attrsValid res) (t_rangeSize t) (t_readOnly t) size (sp_Start span) (sp_End span) with
        | cacheActionZero => openZero ck key res rng
        | cacheActionPassThrough => passThrough ck view (cr_attrs res)
        | cacheActionRange =>
            r ← openRange ck key (range_view size ct (oi_CreatedAt info) (oi_OriginETag info) (oi_ContentEncoding info) (oa_UserMetadata (cr_attrs res)) span);
            match r with
            | Err e => if is_stale e || match e with errFillBusy => true | _ => false end then openPending ck key rng else raise e
            | Ok obj => done obj
            end
        | cacheActionCached =>
            if cr_valid res then
              match cr_meta res with
              | Some m => openCached (cr_kind res) m (with_hit view true)
              | None => raise BodyMissing
              end
            else if t_readOnly t then passThrough ck view (cr_attrs res)
            else
              r ← fill ck key;
              match r with
              | Err e =>
                  if is_busy e then passThrough ck view (cr_attrs res) else if is_stale e then openPending ck key rng else raise e
              | Ok m =>
                  if negb (m_Size m =? size) then openPending ck key rng
                  else after_fill ck m (fun m k => openCached k m view)
              end
        end
    end.

(** *** Writing *)

Definition requireWrite : result tier_error unit :=
  if t_readOnly t then Err ErrReadOnly else if negb (Supports (t_origin t) capWrite) then Err (OriginErr ErrOriginUnsupported) else Ok tt.

(** [lockWrite], around [body]: the lock of the process and that of the
    database. *)
Definition lockWrite {A} (ck : string) (validate : bool) (body : call A) : call A :=
  let shard := Shard (keyLockIndex ck) in
  let! _ := act (Lock shard) in
  r ← (let! _ := (if validate then act Validate else done tt) in
       let! _ := act (Lock (Advisory ck)) in
       r ← body;
       act (Unlock (Advisory ck));;
       mret r);
  act (Unlock shard);;
  mret r.

Definition resolvePrecondition (ck : string) (p : Precondition) : call Precondition :=
  match pc_Mode p with
  | Unconditional => done p
  | mode =>
      let! cur := currentMeta ck in
      match cur with
      | None => done p
      | Some m =>
          let i := m_Info m in
          match mode with
          | IfAbsent => raise (StoreErr ErrPreconditionFailed)
          | IfMatch =>
              if bool_decide (oi_ETag i = pc_ETag p) then
                if IsPending (ParseCacheVersion (oi_OriginETag i)) || bool_decide (oi_OriginETag i = "") then raise (OriginErr ErrOriginConflict)
                else done (mkPrecondition mode (oi_OriginETag i))
              else done p
          | _ => done p
          end
      end
  end.

Definition upload_options (o : UploadOptions) : WriteOptions :=
  mkWriteOptions (mkPrecondition Unconditional "") (Some (tu_UserMetadata o)) (tu_ContentType o) (tu_ContentEncoding o) None (tu_Checksum o) (tu_ChecksumType o)
    None false (NormalPublication "") None 0.

(** The part of [UploadWithOptions] under the locks. *)
Definition upload_locked (ck : string) (sp : spooled) (opts : UploadOptions) : call Meta :=
  let lock := Some (locked_object ck) in
  let! resolved := resolvePrecondition ck (tu_Precondition opts) in
  if t_writeBack t && (writeBackMin <? sp_size sp) && match pc_Mode resolved with Unconditional => true | _ => false end then
    id ← act RandomID;
    let token := CacheVersion_String (PendingCacheVersion ("write-" +:+ id)) in
    r ← storeSpooled WriteBack ck sp (with_publication (upload_options opts) (WriteBackPublication (mkPendingOrigin token "" false)) None) lock;
    match r with
    | Ok m => _ ← fenceReadCache ck; done m
    | Err e => raise e
    end
  else
    r ← act (OUpload ck (sp_body sp) (sp_size sp) (mkOriginUpload (tu_UserMetadata opts) (tu_ContentType opts) (tu_ContentEncoding opts) (tu_Checksum opts) resolved));
    match r with
    | Err (OriginErr errOriginPrecondition) => raise (StoreErr ErrPreconditionFailed)
    | Err e => raise e
    | Ok attrs =>
        m ← storeSpooled WriteBack ck sp (with_publication (upload_options opts) (NormalPublication (versionFor attrs)) (oa_LastModified attrs)) lock;
        _ ← fenceReadCache ck;
        _ ← cache_op Cache (ClearOp ck);
        mret m
    end.

Definition UploadWithOptions (bucket key : string) (body : source) (opts : UploadOptions) : call Meta :=
  match requireWrite with
  | Err e => raise e
  | Ok _ =>
      let ck := tier_key bucket key in
      let! _ := act (OCheck ck) in
      r ← act (SpoolBody body (if tu_ExpectedSize opts <=? 0 then -1 else tu_ExpectedSize opts));
      match r with
      | Err (OriginErr errOriginPrecondition) => raise (StoreErr ErrPreconditionFailed)
      | Err e => if IsObjNotFoundErr e then raise (StoreErr ErrNotFound) else raise e
      | Ok (sp, reserved) =>
          r ← lockWrite ck (tu_Validate opts) (upload_locked ck sp opts);
          act (Unspool reserved);;
          mret r
      end
  end.

Definition Copy (srcBucket srcKey dstBucket dstKey : string) (opts : CopyOptions) : call Meta :=
  match requireWrite with
  | Err e => raise e
  | Ok _ =>
      let! _ := act (OCheck (tier_key dstBucket dstKey)) in
      let! src := Open srcBucket srcKey WholeObjectRange in
      let i := to_Info src in
      if negb (ReadCondition_Allows (co_Source opts) true (oi_ETag i)) then raise (StoreErr ErrPreconditionFailed)
      else
        let '(meta, ct, encoding) :=
          if co_ReplaceMetadata opts then (co_UserMetadata opts, co_ContentType opts, co_ContentEncoding opts)
          else (oi_UserMetadata i, oi_ContentType i, oi_ContentEncoding i) in
        UploadWithOptions dstBucket dstKey (default empty_body (to_Body src))
          (mkTierUpload (oi_Size i) meta ct encoding None "" (co_Dest opts) false)
  end.

(** What [Delete] leaves in the caches. *)
Definition delete_cached (ck : string) : call unit :=
  now ← act Clock;
  let! _ := tombstone WriteBack ck (now + originTombstoneTTL) (Some (locked_object ck)) in
  let! _ := fenceReadCache ck in
  _ ← cache_op Cache (ClearOp ck);
  done tt.

Definition Delete (bucket key : string) : call unit :=
  match requireWrite with
  | Err e => raise e
  | Ok _ =>
      let ck := tier_key bucket key in
      lockWrite ck false (
        r ← act (ODelete ck);
        match r with
        | Err e => if IsObjNotFoundErr e then delete_cached ck else raise e
        | Ok _ => delete_cached ck
        end)
  end.

(** *** Deleting many *)

Fixpoint check_keys (cks : list string) : prog (list (option tier_error)) :=
  match cks with
  | [] => mret []
  | ck :: rest =>
      r ← act (OCheck ck);
      rs ← check_keys rest;
      mret (match r with Ok _ => None | Err e => Some e end :: rs)
  end.

Fixpoint lock_shards (shards : list Z) : prog unit :=
  match shards with [] => mret tt | i :: rest => _ ← act (Lock (Shard i)); lock_shards rest end.

Fixpoint unlock_shards (shards : list Z) : prog unit :=
  match shards with [] => mret tt | i :: rest => act (Unlock (Shard i));; unlock_shards rest end.

(** The shards of some keys, in order. *)
Definition shards_of (cks : list string) : list Z := filter (fun i => bool_decide (i ∈ keyLockIndex <$> cks)) (seqZ 0 keyLocks).

(** What [DeleteMany] does with a key the origin has deleted. *)
Definition delete_one (ck : string) (expires : Z) (r : result tier_error unit) : prog (option tier_error) :=
  if match r with Ok _ => true | Err e => IsObjNotFoundErr e end then
    r ← tombstone WriteBack ck expires None;
    match r with
    | Err e => mret (Some e)
    | Ok _ =>
        r ← fenceReadCache ck;
        match r with
        | Err e => mret (Some e)
        | Ok _ => _ ← cache_op Cache (ClearOp ck); mret None
        end
    end
  else mret (match r with Ok _ => None | Err e => Some e end).

Fixpoint delete_all (cks : list string) (expires : Z) (rs : list (result tier_error unit)) : prog (list (option tier_error)) :=
  match cks with
  | [] => mret []
  | ck :: rest =>
      e ← delete_one ck expires (default (Ok tt) (head rs));
      es ← delete_all rest expires (tail rs);
      mret (e :: es)
  end.

(** The results of the keys that were refused and of those that were not. *)
Fixpoint merge_results (checks : list (option tier_error)) (rs : list (option tier_error)) : list (option tier_error) :=
  match checks with
  | [] => []
  | Some e :: checks => Some e :: merge_results checks rs
  | None :: checks => default None (head rs) :: merge_results checks (tail rs)
  end.

Definition accepted (cks : list string) (checks : list (option tier_error)) : list string :=
  (filter (fun x : string * option tier_error => bool_decide (x.2 = None)) (zip cks checks)).*1.

Definition DeleteMany (bucket : string) (keys : list string) : prog (list (string * option tier_error)) :=
  match keys with
  | [] => mret []
  | _ =>
      match requireWrite with
      | Err e => mret ((fun key => (key, Some e)) <$> keys)
      | Ok _ =>
          let cks := tier_key bucket <$> keys in
          checks ← check_keys cks;
          let full := accepted cks checks in
          if bool_decide (full = []) then mret (zip keys checks)
          else
            lock_shards (shards_of full);;
            rs ← act (ODeleteMany full);
            now ← act Clock;
            es ← delete_all full (now + originTombstoneTTL) rs;
            unlock_shards (rev (shards_of full));;
            mret (zip keys (merge_results checks es))
      end
  end.

(** *** Uploading what is owed *)

Definition pending_condition (p : PendingUpload) : Condition :=
  if pd_BaseMissing p then IfAbsent else if bool_decide (pd_BaseETag p = "") then Unconditional else IfMatch.

(** [GetBody] of a whole object: two attempts. *)
Definition get_whole (k : Kind) (ck : string) : call (Meta * source) :=
  let attempt :=
    let! m := act (GetMeta k ck) in
    r ← act (GetBody k m WholeObjectRange);
    done (m, r) in
  let! (m, r) := attempt in
  match r with
  | Ok body => done (m, body)
  | Err RangeErr => raise RangeErr
  | Err _ => let! (m, r) := attempt in match r with Ok body => done (m, body) | Err e => raise e end
  end.

(** [flushOneNoLock]: the entity tag of the object that was uploaded, or an
    empty one when another write has come between. *)
Definition flush_failed (p : PendingUpload) (owner : string) (permanent : bool) (e : tier_error) : call string :=
  _ ← cache_op Cache (FailOp (pd_Key p) (pd_Token p) owner (pd_Attempts p) (Some (error_text e)) permanent); raise e.

Definition flush_upload (p : PendingUpload) (owner : string) (m : Meta) (body : source) : call string :=
  let i := m_Info m in
  r ← (if st_ok body then
         act (OUpload (pd_Key p) (st_bytes body) (m_Size m) (mkOriginUpload (oi_UserMetadata i) (oi_ContentType i) (oi_ContentEncoding i) None
           (mkPrecondition (pending_condition p) (pd_BaseETag p))))
       else raise (SpoolErr BrokenBody));
  match r with
  | Err (OriginErr errOriginPrecondition) =>
      _ ← cache_op WriteBack (AbandonOp (pd_Key p) (pd_Token p));
      _ ← run_op Cache (DeleteOp [pd_Key p]);
      raise (StoreErr ErrPreconditionFailed)
  | Err e => flush_failed p owner match e with OriginErr e => is_unsupported e | _ => false end e
  | Ok attrs =>
      now ← act Clock;
      r ← cache_op WriteBack (CommittedOp (pd_Key p) (pd_Token p) (versionFor attrs) (oa_LastModified attrs) (Some (now + durableRetention)));
      match r with
      | Err e => flush_failed p owner false e
      | Ok (Flag true) => done (oi_ETag i)
      | Ok _ => done ""
      end
  end.

Definition flushOneNoLock (p : PendingUpload) (owner : string) : call string :=
  r ← get_whole WriteBack (pd_Key p);
  match r with
  | Err (StoreErr ErrNotFound) => flush_failed p owner true (StoreErr ErrNotFound)
  | Err e => raise e
  | Ok (m, body) =>
      if bool_decide (oi_OriginETag (m_Info m) <> pd_Token p) then
        _ ← cache_op Cache (ClearTokenOp (pd_Key p) (pd_Token p)); done ""
      else flush_upload p owner m body
  end.

Definition flushOne (p : PendingUpload) (owner : string) : call string := lockWrite (pd_Key p) false (flushOneNoLock p owner).

(** A round of [runPendingWorker]: whether there was an upload. *)
Definition pending_round (owner : string) : call bool :=
  entered ← act Enter;
  if negb entered then raise Cancelled
  else
    let! r := act (Run Cache (fun su => CacheOp (ClaimOp owner 1 (5 * minute) (su_locked su)))) in
    match r with
    | Uploads (p :: _) => let! _ := flushOne p (pd_LeaseOwner p) in done true
    | _ => done false
    end.

(** *** Multipart uploads *)

Definition writing {A} (body : call A) : call A := match requireWrite with Err e => raise e | Ok _ => body end.

Definition CreateUpload (bucket key : string) (opts : Objects.UploadOptions) : call string :=
  writing (
    let! r := act (Run WriteBack (fun su => CreateOp (su_uuid su) (tier_key bucket key) opts)) in
    match r with Created id => done id | _ => raise Cancelled end).

(** [StartPart], and the writer it returns used to the end. *)
Definition UploadPart (id bucket key : string) (no : Z) (srcs : list bytes) (checksums : list Checksum) (expectedSize : Z) : call reply :=
  writing (act (Run WriteBack (fun su => PartOp (su_proc su) (su_block su) id (tier_key bucket key) no srcs checksums expectedSize))).

Definition complete_options (opts : WriteOptions) (ck : string) (p : Precondition) (expires : option Z) : WriteOptions :=
  mkWriteOptions p (wo_UserMetadata opts) (wo_ContentType opts) (wo_ContentEncoding opts) (wo_OriginModified opts) (wo_Checksum opts) (wo_ChecksumType opts)
    expires (wo_KeepTTL opts) (wo_Publication opts) (Some (locked_object ck)) (wo_ExpectedSize opts).

Definition complete_pending (ck id : string) (listed : list ListedPart) (opts : WriteOptions) (p : PendingCompletion) : call Completed :=
  let! r := run_op WriteBack (CompletePendingOp ck id listed opts p) in
  match r with
  | Finished c => _ ← fenceReadCache ck; done c
  | _ => raise Cancelled
  end.

Definition with_tag (c : Completed) (key etag : string) : Completed := mkCompleted key etag (cm_Size c) (cm_ContentType c).

(** The part of [CompleteUpload] that uploads to the origin at once. *)
Definition complete_direct (ck key id : string) (listed : list ListedPart) (opts : WriteOptions) (expires : Z) : call Completed :=
  entered ← act Enter;
  if negb entered then raise Cancelled
  else
    entered ← act Enter;
    if negb entered then raise Cancelled
    else
      r ← act (OHead ck);
      let! base := match r with
                   | Ok a => done (Some (versionFor a))
                   | Err (StoreErr ErrNotFound) => done None
                   | Err e => if IsObjNotFoundErr e then done None else raise e
                   end in
      let baseETag := default "" base in
      let baseMissing := match base with None => true | Some _ => false end in
      let! resolved := resolvePrecondition ck (wo_Precondition opts) in
      if negb (Precondition_Allows resolved (negb baseMissing) baseETag) then raise (StoreErr ErrPreconditionFailed)
      else
        let! c := complete_pending ck id listed (complete_options opts ck (mkPrecondition Unconditional "") (Some expires))
                    (mkPendingCompletion baseETag baseMissing (t_workerID t)) in
        let p := mkPendingUploadRow ck (CacheVersion_String (PendingCacheVersion id)) 0 0 "" baseETag baseMissing (t_workerID t) in
        r ← flushOneNoLock p (t_workerID t);
        match r with
        | Err e => (if is_precondition e then _ ← run_op Cache (DeleteOp [ck]); raise e else raise e)
        | Ok etag => if bool_decide (etag = "") then raise (StoreErr ErrPreconditionFailed) else done (with_tag c key etag)
        end.

Definition CompleteUpload (id bucket key : string) (listed : list ListedPart) (opts : WriteOptions) : call Completed :=
  writing (
    let ck := tier_key bucket key in
    let! _ := act (OCheck ck) in
    now ← act Clock;
    lockWrite ck false (
      if t_writeBack t && match pc_Mode (wo_Precondition opts) with Unconditional => true | _ => false end then
        let! c := complete_pending ck id listed (complete_options opts ck (wo_Precondition opts) None) (mkPendingCompletion "" false "") in
        done (with_tag c key (cm_ETag c))
      else complete_direct ck key id listed opts (now + durableRetention))).

Definition AbortUpload (id bucket key : string) : call bool :=
  if t_readOnly t then raise ErrReadOnly
  else let! r := run_op WriteBack (AbortOp id (tier_key bucket key)) in match r with Flag b => done b | _ => raise Cancelled end.

End Operations.
