(* ===== verification/TierMachine.v ===== *)
(** * Tiers at work

    What the actions of [Tier.v] do, and any number of processes with a tier
    over one origin and one pair of cache namespaces: calls that interleave
    action by action, flights that calls of a process share, lost and
    unacknowledged requests, broken bodies, crashes, other clients of the
    origin, the maintenance of the namespaces, and anything at all in other
    namespaces of the database.

    The machine is a function of a list of commands, which say whose turn it
    is and what the world supplies.  Sizes are [int64]: no body is longer;
    the bodies that are read from the store have up to 2^30 rows.  There is one clock, which moves on with
    every action; a body is read at one moment. *)

From stdpp Require Import gmap.
From S2P Require Import Prelude GoStrings Ns Ranges Precond Blocks Ids Tables Objects CacheTables Machine ObjectStore LateRead ReadMany Origin Spool Tier.

(** ** Moments *)

(** [Lost]: the request does not arrive; [Unacked]: only its answer is lost;
    [Cut n]: a body breaks off after [n] bytes. *)
Inductive fault := Fine | Lost | Unacked | Cut (n : Z).

(** What the world supplies to an action: the time, the decision on quotas,
    rows that other transactions hold, a block of file identifiers, a random
    identifier, the number of readers, a fault, and the outcome of what a
    context decides. *)
Record moment := mkMoment {
  mo_now : Z;
  mo_over : Z -> bool;
  mo_locked : string -> bool;
  mo_block : list Z;
  mo_id : string;
  mo_workers : Z;
  mo_fault : fault;
  mo_yes : bool
}.

(** Random identifiers are hexadecimal, those of the database with dashes. *)
Definition id_char (c : ascii) : bool := is_hex c || bool_decide (c = "-"%char).
Definition good_id (s : string) : bool := all_bytes id_char s.

(** ** The state of the world *)

#[global] Instance tier_lock_countable : Countable tier_lock.
Proof.
  refine (inj_countable' (fun l => match l with Shard i => inl i | Advisory ck => inr ck end)
    (fun x => match x with inl i => Shard i | inr ck => Advisory ck end) _). by intros [].
Defined.

Record tier_state (St : Type) := mkState {
  x_system : system;
  x_origin : St;
  x_clock : Z;
  x_ids : gset string;
  x_budgets : gmap nat spoolBudget;
  x_locks : gmap (option nat * tier_lock) nat
}.
Arguments mkState {St}.
Arguments x_system {St}.
Arguments x_origin {St}.
Arguments x_clock {St}.
Arguments x_ids {St}.
Arguments x_budgets {St}.
Arguments x_locks {St}.

Section Setters.
Context {St : Type}.

Definition set_system (y : system) (s : tier_state St) : tier_state St := mkState y (x_origin s) (x_clock s) (x_ids s) (x_budgets s) (x_locks s).
Definition set_origin (g : St) (s : tier_state St) : tier_state St := mkState (x_system s) g (x_clock s) (x_ids s) (x_budgets s) (x_locks s).
Definition set_clock (now : Z) (s : tier_state St) : tier_state St := mkState (x_system s) (x_origin s) now (x_ids s) (x_budgets s) (x_locks s).
Definition set_ids (ids : gset string) (s : tier_state St) : tier_state St := mkState (x_system s) (x_origin s) (x_clock s) ids (x_budgets s) (x_locks s).
Definition set_budgets (b : gmap nat spoolBudget) (s : tier_state St) : tier_state St := mkState (x_system s) (x_origin s) (x_clock s) (x_ids s) b (x_locks s).
Definition set_locks (l : gmap (option nat * tier_lock) nat) (s : tier_state St) : tier_state St := mkState (x_system s) (x_origin s) (x_clock s) (x_ids s) (x_budgets s) l.

End Setters.

Definition store_result {A} (r : result store_error A) : result tier_error A := match r with Ok x => Ok x | Err e => Err (StoreErr e) end.
Definition origin_result {A} (r : result origin_error A) : result tier_error A := match r with Ok x => Ok x | Err e => Err (OriginErr e) end.
Definition spool_result {A} (r : result spool_error A) : result tier_error A := match r with Ok x => Ok x | Err e => Err (SpoolErr e) end.

(** What arrives of a body. *)
Definition deliver (f : fault) (b : bytes) : source :=
  match f with Cut n => mkStream [slice b 0 n] false | _ => mkStream [b] true end.

(** An answer, if it arrives. *)
Definition answered {A} (f : fault) (r : result tier_error A) : result tier_error A := match f with Lost | Unacked => Err Cancelled | _ => r end.

Section Handle.
Context `{Zstd, Digests, Mime, ErrorText} {St : Type} `{OriginDriver St}.
Context (t : Tier) (me : nat) (mo : moment).

Let now := mo_now mo.
Let ref (k : Kind) : Ref := mkRef k (t_namespace t).
Let table (k : Kind) (s : tier_state St) : db := db_of (x_system s) (ref k).
Let ctx (k : Kind) : context := mkContext now (mo_over mo) (t_store t) (ref k).

(** [queryMetadata] for a reader. *)
Definition metadata (k : Kind) (key : string) (body : metadataBody) (s : tier_state St) : result tier_error Meta :=
  match queryMetadata now key body 0 (table k s) with
  | Some (Ok m) => Ok m
  | Some (Err _) => Err (StoreErr Unreadable)
  | None => Err (StoreErr ErrNotFound)
  end.

(** [Cache.Metadata]: what was written back comes first. *)
Definition cache_metadata (ck : string) (withInline : bool) (s : tier_state St) : result tier_error (Meta * Kind) :=
  let body := if withInline then metadataDecoded else metadataHeader in
  match metadata WriteBack ck body s with
  | Err (StoreErr ErrNotFound) => match metadata Cache ck body s with Ok m => Ok (m, Cache) | Err e => Err e end
  | Err e => Err e
  | Ok m => Ok (m, WriteBack)
  end.

Definition run_store (k : Kind) (o : Operation) (s : tier_state St) : result tier_error reply * tier_state St :=
  match mo_fault mo with
  | Lost => (Err Cancelled, s)
  | f => let '(r, y) := exec (ctx k) o (x_system s) in (answered f (store_result r), set_system y s)
  end.

(** The metadata [PutInline] returns. *)
Definition put_result (k : Kind) (key : string) (data : bytes) (opts : WriteOptions) (s : tier_state St) : result tier_error Meta :=
  answered (mo_fault mo) (store_result (commit (PutInline k (t_store t) (mo_over mo) now (mkObjectRef (ref k) key) data opts) (table k s)).1).

(** What [Finish] returns. *)
Definition write_result (k : Kind) (key : string) (body : bytes) (opts : WriteOptions) (s : tier_state St) : result tier_error Published :=
  answered (mo_fault mo) (store_result
    match (allocations [(me, mo_block mo)] (sy_alloc (x_system s))).1 with
    | fid :: _ => (commit (WriteObject k (t_store t) (mo_over mo) now fid (mkObjectRef (ref k) key) [body] [] opts) (table k s)).1
    | [] => Err NoFileID
    end).

(** [ReadManyWithTouch] with one reader, and the keys to touch. *)
Definition read_values (keys : list string) (retention : Z) (s : tier_state St) : result tier_error (list (option bytes) * list string) :=
  let d := table Cache s in
  let rows := selected now d keys in
  match scan_rows keys 0 (now * 1000) (retention * 1000) rows (mkMany (replicate (length keys) None) [] [] None) with
  | Ok m =>
      let arrived := pair 0%nat <$> asked (db_chunks d) (Nat.min 1 (length (ms_files m))) 0 (ms_files m) in
      match ReadManyWithTouch 0 (now * 1000) (retention * 1000) 1 keys rows arrived None with
      | Ok (out, touch, _) => Ok (out, touch)
      | Err _ => Err (StoreErr Unreadable)
      end
  | Err _ => Err (StoreErr Unreadable)
  end.

Definition scope (l : tier_lock) : option nat * tier_lock := match l with Shard _ => (Some me, l) | Advisory _ => (None, l) end.

Definition budget (s : tier_state St) : spoolBudget := default (newSpoolBudget (8 * 2 ^ 30)) (x_budgets s !! me).

(** What the origin answers to a request that changes it. *)
Definition at_origin {A} (f : St -> result origin_error A * St) (s : tier_state St) : result tier_error A * tier_state St :=
  match mo_fault mo with
  | Lost => (Err Cancelled, s)
  | fault => let '(r, g) := f (x_origin s) in (answered fault (origin_result r), set_origin g s)
  end.

Definition answer_of (e : action) (s : tier_state St) : option (answer e * tier_state St) :=
  match e return option (answer e * tier_state St) with
  | Clock => Some (now, s)
  | SleepUntil until => if mo_yes mo then if until <=? now then Some (true, s) else None else Some (false, s)
  | RandomID => if good_id (mo_id mo) && bool_decide (mo_id mo ∉ x_ids s) then Some (mo_id mo, set_ids ({[mo_id mo]} ∪ x_ids s) s) else None
  | Enter | LeaseLost => Some (mo_yes mo, s)
  | Validate => Some (if mo_yes mo then Ok tt else Err Cancelled, s)
  | Lock l =>
      match x_locks s !! scope l, l with
      | None, _ => Some (Ok tt, set_locks (<[scope l := me]> (x_locks s)) s)
      | Some _, Advisory _ => if mo_yes mo then None else Some (Err Cancelled, s)
      | Some _, Shard _ => None
      end
  | Unlock l => Some (tt, set_locks (delete (scope l) (x_locks s)) s)
  | SpoolBody b expected =>
      let '(r, rest) := spoolWithBudget b expected (budget s) in
      Some (spool_result r, set_budgets (<[me := rest]> (x_budgets s)) s)
  | Unspool reserved => Some (tt, set_budgets (<[me := unspool reserved (budget s)]> (x_budgets s)) s)
  | GetMetadata ck withInline => Some (answered (mo_fault mo) (cache_metadata ck withInline s), s)
  | GetMeta k ck => Some (answered (mo_fault mo) (metadata k ck metadataDecoded s), s)
  | GetBody k m rng =>
      if m_Size m <=? max_value then
        Some (answered (mo_fault mo)
          match read_range (db_chunks (table k s)) (mo_workers mo) m rng with
          | Some b => Ok (deliver (mo_fault mo) b)
          | None => Err (match Resolve rng (m_Size m) with Ok _ => StoreErr Unreadable | Err _ => RangeErr end)
          end, s)
      else None
  | ReadMany keys retention =>
      match answered (mo_fault mo) (read_values keys retention s) with
      | Ok (out, touch) =>
          Some (Ok out, if bool_decide (touch = []) then s else (run_store Cache (CacheOp (TouchOp touch retention)) s).2)
      | Err e => Some (Err e, s)
      end
  | GetOriginMetadata ck maxAge => Some (answered (mo_fault mo) (Ok (OriginMetadata now ck maxAge (db_origin_metadata (table Cache s)))), s)
  | Put k key data opts => Some (put_result k key data opts s, (run_store k (PutOp key data opts) s).2)
  | Write k key body opts => Some (write_result k key body opts s, (run_store k (WriteOp me (mo_block mo) key [body] [] opts) s).2)
  | Run k o =>
      if good_id (mo_id mo) && bool_decide (mo_id mo ∉ x_ids s) then
        Some (run_store k (o (mkSupply me (mo_block mo) (mo_locked mo) (mo_id mo))) (set_ids ({[mo_id mo]} ∪ x_ids s) s))
      else None
  | OUpload ck body size u => if zlen body <=? max_int64 then Some (at_origin (Origin_Upload (t_origin t) now ck body size u) s) else None
  | ODelete ck => Some (at_origin (Origin_Delete (t_origin t) now ck) s)
  | ODeleteMany cks =>
      Some (match mo_fault mo with
            | Lost => ((fun _ => Err Cancelled) <$> cks, s)
            | f => let '(rs, g) := Origin_DeleteMany (t_origin t) now cks (x_origin s) in ((fun r => answered f (origin_result r)) <$> rs, set_origin g s)
            end)
  | OGet ck =>
      Some (answered (mo_fault mo)
        match Origin_GetWithAttrs (t_origin t) ck (x_origin s) with
        | Ok (b, a) => Ok (deliver (mo_fault mo) b, a)
        | Err e => Err (OriginErr e)
        end, s)
  | ORange ck offset length ifMatch =>
      Some (answered (mo_fault mo)
        match Origin_GetRange (t_origin t) ck offset length ifMatch (x_origin s) with
        | Ok b => Ok (deliver (mo_fault mo) b)
        | Err e => Err (OriginErr e)
        end, s)
  | OHead ck => Some (answered (mo_fault mo) (origin_result (Origin_Attributes (t_origin t) ck (x_origin s))), s)
  | OCheck ck => Some (origin_result (Origin_checkKey (t_origin t) ck (x_origin s)), s)
  | Join _ => None
  end.

(** Time moves on with every action. *)
Definition handle (e : action) (s : tier_state St) : option (answer e * tier_state St) :=
  if x_clock s <? now then answer_of e (set_clock now s) else None.

End Handle.

(** ** Calls *)

Inductive job :=
| JOpen (bucket key : string) (rng : ByteRange)
| JHead (bucket key : string)
| JUpload (bucket key : string) (body : source) (opts : Tier.UploadOptions)
| JCopy (srcBucket srcKey dstBucket dstKey : string) (opts : CopyOptions)
| JDelete (bucket key : string)
| JDeleteMany (bucket : string) (keys : list string)
| JCreate (bucket key : string) (opts : Objects.UploadOptions)
| JPart (id bucket key : string) (no : Z) (srcs : list bytes) (checksums : list Checksum) (expectedSize : Z)
| JComplete (id bucket key : string) (listed : list ListedPart) (opts : WriteOptions)
| JAbort (id bucket key : string)
| JRound (owner : string).

Inductive outcome :=
| RObject (r : result tier_error Object)
| RMeta (r : result tier_error Meta)
| RDone (r : result tier_error unit)
| RDeleted (rs : list (string * option tier_error))
| RCreated (r : result tier_error string)
| RPart (r : result tier_error reply)
| RCompleted (r : result tier_error Completed)
| RFlag (r : result tier_error bool).

(** What calls share, under the key of [singleflight]. *)
Definition flight_key (t : Tier) (f : flight) : string :=
  match f with
  | HeadFlight ck => "head:" +:+ ck
  | FillFlight ck _ => "fill:" +:+ ck
  | RangeFlight ck _ v first last =>
      "range:" +:+ ck +:+ ":" +:+ FormatHex first +:+ ":" +:+ FormatHex (last + rangeChunkLen t (oi_Size (rv_Info v)) last - first) +:+ ":" +:+ oi_ETag (rv_Info v)
  end.

Section Machine.
Context `{Zstd, Digests, Mime, ErrorText} {St : Type} `{OriginDriver St}.

Definition job_prog (t : Tier) (j : job) : prog outcome :=
  match j with
  | JOpen bucket key rng => RObject <$> Open t bucket key rng
  | JHead bucket key => RObject <$> Head t bucket key
  | JUpload bucket key body opts => RMeta <$> UploadWithOptions t bucket key body opts
  | JCopy sb sk db dk opts => RMeta <$> Copy t sb sk db dk opts
  | JDelete bucket key => RDone <$> Delete t bucket key
  | JDeleteMany bucket keys => RDeleted <$> DeleteMany t bucket keys
  | JCreate bucket key opts => RCreated <$> CreateUpload t bucket key opts
  | JPart id bucket key no srcs cs expected => RPart <$> UploadPart t id bucket key no srcs cs expected
  | JComplete id bucket key listed opts => RCompleted <$> CompleteUpload t id bucket key listed opts
  | JAbort id bucket key => RFlag <$> AbortUpload t id bucket key
  | JRound owner => RFlag <$> pending_round t owner
  end.

Definition flight_prog (t : Tier) (f : flight) : call flight_value :=
  match f with
  | HeadFlight ck => let! a := act (OHead ck) in done (VAttrs a)
  | FillFlight ck key => let! m := fill_flight t ck key in done (VMeta m)
  | RangeFlight ck key v first last => let! chunks := range_flight t ck key v first last in done (VChunks chunks)
  end.

(** A call of process [th_at]. *)
Record thread := mkThread { th_at : nat; th_job : job; th_prog : prog outcome }.

Record machine := mkMachine {
  mc_state : tier_state St;
  mc_tiers : gmap nat Tier;
  mc_threads : gmap nat thread;
  mc_flights : gmap (nat * string) (call flight_value);
  mc_done : list (nat * job * outcome)
}.

Definition with_threads (m : machine) (s : tier_state St) (ths : gmap nat thread) : machine := mkMachine s (mc_tiers m) ths (mc_flights m) (mc_done m).
Definition with_flights (m : machine) (s : tier_state St) (fs : gmap (nat * string) (call flight_value)) : machine :=
  mkMachine s (mc_tiers m) (mc_threads m) fs (mc_done m).

(** One action of a program. *)
Definition advance {A} (t : Tier) (me : nat) (mo : moment) (p : prog A) (s : tier_state St) : option (prog A * tier_state St) :=
  match p with
  | Ret _ => None
  | Do e k => '(x, s) ← handle t me mo e s; Some (k x, s)
  end.

(** The flight a program waits for, and what it goes on with. *)
Definition waits {A} (p : prog A) : option (flight * (result tier_error flight_value -> prog A)) :=
  match p with
  | Do e k => match e return (answer e -> prog A) -> option (flight * (result tier_error flight_value -> prog A)) with Join f => fun k => Some (f, k) | _ => fun _ => None end k
  | Ret _ => None
  end.

Definition land_on (t : Tier) (me : nat) (key : string) (r : result tier_error flight_value) (chosen : bool) (th : thread) : thread :=
  match waits (th_prog th) with
  | Some (f, k) => if chosen && bool_decide (th_at th = me) && bool_decide (flight_key t f = key) then mkThread (th_at th) (th_job th) (k r) else th
  | None => th
  end.

(** [Boot]: a process starts; [Start]: a call; [Act] and [Fly]: an action of a
    call and of a flight; [Launch]: a call starts the flight it waits for;
    [Land]: a flight ends and answers calls that wait for its key; [GiveUp]:
    the context of a call that waits ends; [Finish]: a call returns; [Crash]: a
    process is gone; [Outside]: another client of the origin; [Maintain]: an
    operation of the maintenance on the namespaces of the tier; [Elsewhere]:
    any operation on another namespace. *)
Inductive command :=
| Boot (me : nat) (t : Tier)
| Start (tid me : nat) (j : job)
| Act (tid : nat) (mo : moment)
| Fly (me : nat) (key : string) (mo : moment)
| Launch (tid : nat)
| Land (me : nat) (key : string) (chosen : nat -> bool)
| GiveUp (tid : nat)
| Finish (tid : nat)
| Crash (me : nat)
| Outside (now : Z) (key : string) (change : option (bytes * originUpload))
| Maintain (c : context) (o : Operation)
| Elsewhere (c : context) (o : Operation).

(** Work in the background of a store. *)
Definition maintenance (o : Operation) : bool :=
  match o with
  | EvictOp _ _ _ | ExpireObjectsOp _ _ | ExpireUploadsOp _ _ _ | ReapOp _ _ _ _ | ReorderOp _ => true
  | CacheOp (CleanupOp | RetryDeadOp | RenewOp _ _) => true
  | _ => false
  end.

Definition later (now : Z) (s : tier_state St) : option (tier_state St) := if x_clock s <? now then Some (set_clock now s) else None.

Context (name : string).

Definition mstep (c : command) (m : machine) : option machine :=
  let s := mc_state m in
  match c with
  | Boot me t =>
      match mc_tiers m !! me with
      | None => Some (mkMachine s (<[me := t]> (mc_tiers m)) (mc_threads m) (mc_flights m) (mc_done m))
      | Some _ => None
      end
  | Start tid me j =>
      match mc_tiers m !! me, mc_threads m !! tid with
      | Some t, None => Some (with_threads m s (<[tid := mkThread me j (job_prog t j)]> (mc_threads m)))
      | _, _ => None
      end
  | Act tid mo =>
      th ← mc_threads m !! tid;
      t ← mc_tiers m !! th_at th;
      '(p, s) ← advance t (th_at th) mo (th_prog th) s;
      Some (with_threads m s (<[tid := mkThread (th_at th) (th_job th) p]> (mc_threads m)))
  | Fly me key mo =>
      p ← mc_flights m !! (me, key);
      t ← mc_tiers m !! me;
      '(p, s) ← advance t me mo p s;
      Some (with_flights m s (<[(me, key) := p]> (mc_flights m)))
  | Launch tid =>
      th ← mc_threads m !! tid;
      t ← mc_tiers m !! th_at th;
      '(f, _) ← waits (th_prog th);
      match mc_flights m !! (th_at th, flight_key t f) with
      | None => Some (with_flights m s (<[(th_at th, flight_key t f) := flight_prog t f]> (mc_flights m)))
      | Some _ => None
      end
  | Land me key chosen =>
      t ← mc_tiers m !! me;
      match mc_flights m !! (me, key) with
      | Some (Ret r) =>
          Some (mkMachine s (mc_tiers m) (map_imap (fun tid th => Some (land_on t me key r (chosen tid) th)) (mc_threads m))
            (delete (me, key) (mc_flights m)) (mc_done m))
      | _ => None
      end
  | GiveUp tid =>
      th ← mc_threads m !! tid;
      '(_, k) ← waits (th_prog th);
      Some (with_threads m s (<[tid := mkThread (th_at th) (th_job th) (k (Err Cancelled))]> (mc_threads m)))
  | Finish tid =>
      th ← mc_threads m !! tid;
      match th_prog th with
      | Ret r => Some (mkMachine s (mc_tiers m) (delete tid (mc_threads m)) (mc_flights m) (mc_done m ++ [(th_at th, th_job th, r)]))
      | Do _ _ => None
      end
  | Crash me =>
      Some (mkMachine (set_budgets (delete me (x_budgets s)) (set_locks (filter (fun kv => kv.2 <> me) (x_locks s)) s)) (delete me (mc_tiers m))
        (filter (fun kv => th_at kv.2 <> me) (mc_threads m)) (filter (fun kv => kv.1.1 <> me) (mc_flights m)) (mc_done m))
  | Outside now key change =>
      s ← later now s;
      g ← match change with
          | Some (b, u) => if zlen b <=? max_int64 then Some (dr_Upload now key b (zlen b) u (x_origin s)).2 else None
          | None => Some (dr_Delete now key (x_origin s)).2
          end;
      Some (with_threads m (set_origin g s) (mc_threads m))
  | Maintain c o =>
      s ← later (cx_now c) s;
      if maintenance o && (bool_decide (cx_ns c = CacheRef name) || bool_decide (cx_ns c = WriteBackRef name)) then
        Some (with_threads m (set_system (exec c o (x_system s)).2 s) (mc_threads m))
      else None
  | Elsewhere c o =>
      s ← later (cx_now c) s;
      if bool_decide (ref_name (cx_ns c) <> name) then Some (with_threads m (set_system (exec c o (x_system s)).2 s) (mc_threads m)) else None
  end.

Fixpoint mrun (cs : list command) (m : machine) : option machine :=
  match cs with
  | [] => Some m
  | c :: cs => m ← mstep c m; mrun cs m
  end.

Definition new_machine (g : St) : machine := mkMachine (mkState new_system g 0 ∅ ∅ ∅) ∅ ∅ ∅ [].

End Machine.
