(* ===== verification/TierLogic.v ===== *)
(** * A logic for the programs of a tier

    What a process learns while it runs never stops being true: the bytes of a
    file, the content of a version of the origin, the body behind a token of a
    written-back upload.  [know] is such knowledge, which only grows, and
    [safe p Q K] says that [p], started with the knowledge [K], asks of every
    action only what it may ask, whatever other processes do between its
    actions, and ends in an outcome with [Q]. *)

From stdpp Require Import gmap.
From S2P Require Import Prelude GoStrings Ns Ranges Precond Blocks Pieces Ids Tables Objects CacheTables ObjectSpec Machine Names LateRead Origin Spool Tier TierMachine.

(** ** Keys that are not chunks of others *)

Fixpoint contains (sub s : string) : bool :=
  HasPrefix s sub || match s with EmptyString => false | String _ s => contains sub s end.

Definition plain (ck : string) : Prop := contains "__range__" ck = false.

(** ** Knowledge *)

(** The files of the store, the uploads that are owed by token, the contents
    of the origin by version, and where contents come from: what the origin
    had at first and the commands of the machine so far. *)
Record know := mkKnow {
  kn_given : gmap Z bytes;
  kn_owed : gmap string (string * bytes);
  kn_history : gmap (string * string) bytes;
  kn_first : gmap (string * string) bytes;
  kn_log : list command
}.

Definition kle (K K' : know) : Prop :=
  kn_given K ⊆ kn_given K' /\ kn_owed K ⊆ kn_owed K' /\ kn_history K ⊆ kn_history K' /\ kn_first K ⊆ kn_first K' /\ kn_log K ⊆ kn_log K'.

Lemma kle_refl K : kle K K.
Proof. done. Qed.

Lemma kle_trans K1 K2 K3 : kle K1 K2 -> kle K2 K3 -> kle K1 K3.
Proof. intros (? & ? & ? & ? & ?) (? & ? & ? & ? & ?). split; [by etrans | split; [by etrans | split; [by etrans | split; by etrans]]]. Qed.

(** A part a client has sent for an upload. *)
Definition sent_part (log : list command) (id : string) (b : bytes) : Prop :=
  exists tid me bucket key no srcs cs n, Start tid me (JPart id bucket key no srcs cs n) ∈ log /\ b = concat srcs.

(** What was sent to a key of the origin: it was there at first, another
    client put it there, or a client of a tier asked for it, by an upload, a
    copy of a range of what was sent to another key, or parts. *)
Inductive sent (o : origin) (first : gmap (string * string) bytes) (log : list command) : string -> bytes -> Prop :=
| sent_first pk v c : first !! (pk, v) = Some c -> sent o first log pk c
| sent_outside now pk c u : Outside now pk (Some (c, u)) ∈ log -> sent o first log pk c
| sent_upload tid me bucket key body opts :
    Start tid me (JUpload bucket key body opts) ∈ log -> st_ok body = true -> sent o first log (physicalKey o (tier_key bucket key)) (st_bytes body)
| sent_copy tid me sb sk db dk opts c start stop :
    Start tid me (JCopy sb sk db dk opts) ∈ log -> sent o first log (physicalKey o (tier_key sb sk)) c ->
    sent o first log (physicalKey o (tier_key db dk)) (slice c start stop)
| sent_parts tid me id bucket key listed opts bs :
    Start tid me (JComplete id bucket key listed opts) ∈ log -> Forall (sent_part log id) bs -> sent o first log (physicalKey o (tier_key bucket key)) (concat bs).

Section Facts.
Context `{D : Digests} (o : origin).

(** Where a content of a key comes from. *)
Definition asked_for (K : know) (ck : string) (c : bytes) : Prop := sent o (kn_first K) (kn_log K) (physicalKey o ck) c.

(** [c] is the content of version [v] of a key. *)
Definition version (K : know) (ck v : string) (c : bytes) : Prop :=
  kn_history K !! (physicalKey o ck, v) = Some c /\ good_version v /\ zlen c <= max_int64 /\ asked_for K ck c.

(** [c] was accepted for a key and is uploaded under the token [v]. *)
Definition owed (K : know) (v ck : string) (c : bytes) : Prop :=
  kn_owed K !! v = Some (ck, c) /\ IsPending (ParseCacheVersion v) = true /\ asked_for K ck c.

Definition content (K : know) (ck : string) (c : bytes) : Prop := (exists v, version K ck v c) \/ exists v, owed K v ck c.

(** Metadata lead to a content; rows are read up to 2^30 of them. *)
Definition described (K : know) (m : Meta) (c : bytes) : Prop := m_Size m <= max_value -> describes (kn_given K) m c.

(** Metadata read with or without what is inline. *)
Definition seen (inline : bool) (K : know) (m : Meta) (c : bytes) : Prop := inline = true -> described K m c.

(** What a row of the caches says of a content. *)
Definition cached (K : know) (ck : string) (i : ObjectInfo) (c : bytes) : Prop :=
  oi_Size i = zlen c /\ (exists l, oi_ETag i = tag_of l c) /\ (version K ck (oi_OriginETag i) c \/ owed K (oi_OriginETag i) ck c).

Definition gone (i : ObjectInfo) : Prop := IsDeleted (ParseCacheVersion (oi_OriginETag i)) = true.

(** An entity tag that names a content: a version of the origin with it, or
    digests of it. *)
Definition names (K : know) (ck etag : string) (c : bytes) : Prop := version K ck etag c \/ exists l, etag = tag_of l c.

(** The key of a chunk. *)
Definition chunk_key (key : string) : Prop := exists ck off v, plain ck /\ key = rangeChunkKey ck off v /\ 0 <= off <= max_int64.

Definition chunk (K : know) (key v : string) (b : bytes) : Prop :=
  exists ck off c, plain ck /\ key = rangeChunkKey ck off v /\ 0 <= off <= max_int64 /\ version K ck v c /\ b = slice c off (off + zlen b) /\
    zlen b <= maxRangeChunk.

Lemma sent_part_up log log' id b : log ⊆ log' -> sent_part log id b -> sent_part log' id b.
Proof. intros Hl (tid & me & bucket & key & no & srcs & cs & n & Hin & ->). exists tid, me, bucket, key, no, srcs, cs, n. split; [by apply Hl | done]. Qed.

Lemma sent_up first first' log log' pk c : first ⊆ first' -> log ⊆ log' -> sent o first log pk c -> sent o first' log' pk c.
Proof.
  intros Hf Hl. induction 1 as [pk v c Hv|now pk c u Hin|tid me bucket key body opts Hin Hok|tid me sb sk db dk opts c a b Hin _ IH|tid me id bucket key listed opts bs Hin Hbs].
  - eapply sent_first, lookup_weaken; eassumption.
  - eapply sent_outside, Hl, Hin.
  - eapply sent_upload; [by apply Hl | done].
  - eapply sent_copy; [by apply Hl | done].
  - eapply sent_parts; [by apply Hl |]. eapply Forall_impl; [exact Hbs |]. intros b. by apply sent_part_up.
Qed.

Lemma asked_up K K' ck c : kle K K' -> asked_for K ck c -> asked_for K' ck c.
Proof. intros (_ & _ & _ & Hf & Hl). by apply sent_up. Qed.

Lemma version_up K K' ck v c : kle K K' -> version K ck v c -> version K' ck v c.
Proof. intros HK (Hc & Hv & Hl & Ha). split; [by eapply lookup_weaken, HK |]. split; [done |]. split; [done | by eapply asked_up]. Qed.

Lemma owed_up K K' v ck c : kle K K' -> owed K v ck c -> owed K' v ck c.
Proof. intros HK (Hc & Hv & Ha). split; [by eapply lookup_weaken, HK |]. split; [done | by eapply asked_up]. Qed.

Lemma content_up K K' ck c : kle K K' -> content K ck c -> content K' ck c.
Proof. intros H [[v Hv]|[v Hv]]; [left | right]; exists v; [by eapply version_up | by eapply owed_up]. Qed.

Lemma described_up K K' m c : kle K K' -> described K m c -> described K' m c.
Proof. intros (H & _) Hd Hs. eapply describes_more; [done | by apply Hd]. Qed.

Lemma seen_up inline K K' m c : kle K K' -> seen inline K m c -> seen inline K' m c.
Proof. intros H Hs Hi. by eapply described_up, Hs. Qed.

Lemma cached_up K K' ck i c : kle K K' -> cached K ck i c -> cached K' ck i c.
Proof. intros H (? & ? & [Hv|Hv]); (split; [done | split; [done |]]); [left; by eapply version_up | right; by eapply owed_up]. Qed.

Lemma names_up K K' ck etag c : kle K K' -> names K ck etag c -> names K' ck etag c.
Proof. intros H [Hv|Hl]; [left; by eapply version_up | by right]. Qed.

Lemma chunk_up K K' key v b : kle K K' -> chunk K key v b -> chunk K' key v b.
Proof. intros H (ck & off & c & H1 & H2 & H3 & H4 & H5). exists ck, off, c. repeat (split; [done |]). split; [by eapply version_up | done]. Qed.

Lemma version_unique K ck v c c' : version K ck v c -> version K ck v c' -> c = c'.
Proof. intros [H _] [H' _]. congruence. Qed.

Lemma content_asked K ck c : content K ck c -> asked_for K ck c.
Proof. intros [[v Hv]|[v Hv]]; apply Hv. Qed.

Lemma cached_content K ck i c : cached K ck i c -> content K ck c.
Proof. intros (_ & _ & [H|H]); [left | right]; eauto. Qed.

(** ** What actions ask and promise *)

Context (t : Tier).

(** What may be stored under a key. *)
Definition storable (K : know) (k : Kind) (key : string) (data : bytes) (p : Publication) : Prop :=
  match pb_kind p with
  | publicationTombstone => data = [] /\ (k = WriteBack \/ k = Cache /\ plain key)
  | publicationPending => k = WriteBack /\ owed K (pb_origin p) key data
  | publicationNormal => k = WriteBack /\ version K key (pb_origin p) data
  | publicationFill => k = Cache /\ (plain key /\ version K key (pb_origin p) data \/ chunk K key (pb_origin p) data)
  end.

(** A client has asked to complete an upload. *)
Definition completes (K : know) (ck id : string) : Prop :=
  exists tid me bucket key listed opts, Start tid me (JComplete id bucket key listed opts) ∈ kn_log K /\ ck = tier_key bucket key.

Lemma completes_up K K' ck id : kle K K' -> completes K ck id -> completes K' ck id.
Proof.
  intros H (tid & me & bucket & key & listed & opts & Hin & ->). exists tid, me, bucket, key, listed, opts. split; [| done].
  assert (kn_log K ⊆ kn_log K') as Hl by apply H. by apply Hl.
Qed.

Definition op_ok (K : know) (k : Kind) (su : supply) (op : Operation) : Prop :=
  match op with
  | CreateOp id _ _ => k = WriteBack /\ id = su_uuid su
  | PartOp _ _ id _ _ srcs _ _ => k = WriteBack /\ sent_part (kn_log K) id (concat srcs)
  | AbortOp _ _ => k = WriteBack
  | CompletePendingOp ck id _ _ _ => k = WriteBack /\ completes K ck id
  | DeleteOp _ => k = Cache
  | CacheOp (CommittedOp key token v _ _) => k = WriteBack /\ exists c, owed K token key c /\ version K key v c
  | CacheOp (RememberOp ck i _ _) => k = Cache /\ oi_ETag i = oi_OriginETag i /\ exists c, version K ck (oi_OriginETag i) c /\ oi_Size i = zlen c
  | CacheOp (DeleteExpectedOp _ _ | TouchObjectOp _ _ | AcquireOp _ _ _ | ReleaseOp _ _ | ClaimOp _ _ _ _ | AbandonOp _ _ |
             FailOp _ _ _ _ _ _ | ClearOp _ | ClearTokenOp _ _ | ForgetOp _ _ | RetireOp _ _) => k = WriteBack \/ k = Cache
  | _ => False
  end.

Definition flight_pre (K : know) (f : flight) : Prop :=
  match f with
  | HeadFlight ck => True
  | FillFlight ck _ => plain ck
  | RangeFlight ck _ v first last =>
      plain ck /\ 0 < t_rangeSize t /\ (last - first) mod t_rangeSize t = 0 /\
      exists c, version K ck (oi_ETag (rv_Info v)) c /\ oi_Size (rv_Info v) = zlen c /\ 0 <= first <= last /\ last < zlen c
  end.

(** A chunk of a content. *)
Definition piece_at (c : bytes) (off : Z) : bytes := slice c off (off + rangeChunkLen t (zlen c) off).

Definition flight_post (K : know) (f : flight) (r : result tier_error flight_value) : Prop :=
  match r, f with
  | Ok (VAttrs a), HeadFlight ck => exists c, version K ck (versionFor a) c /\ oa_Size a = zlen c
  | Ok (VMeta m), FillFlight ck _ => exists c, cached K ck (m_Info m) c /\ described K m c
  | Ok (VChunks l), RangeFlight ck _ v first last => exists c, version K ck (oi_ETag (rv_Info v)) c /\ l = piece_at c <$> offsets t first last
  | _, _ => True
  end.

Definition pre (K : know) (e : action) : Prop :=
  match e with
  | GetMetadata ck _ => plain ck
  | GetMeta k _ => k = WriteBack
  | ReadMany keys _ => Forall chunk_key keys
  | Put k key data opts | Write k key data opts => storable K k key data (wo_Publication opts)
  | Run k op => forall su, op_ok K k su (op su)
  | OUpload ck body size u => size = zlen body /\ asked_for K ck body
  | ORange _ offset length _ => 0 <= offset /\ 0 <= length
  | Join f => flight_pre K f
  | _ => True
  end.

(** When an answer is no error. *)
Definition good {A} (P : A -> Prop) (r : result tier_error A) : Prop := match r with Ok x => P x | Err _ => True end.

(** A body that is [c], or the beginning of it when it breaks off. *)
Definition carries (s : source) (c : bytes) : Prop := (st_ok s = true -> st_bytes s = c) /\ exists n, st_bytes s = slice c 0 n.

(** [g] is a key and a body to be uploaded under a random identifier. *)
Definition post (K : know) (g : option (string * bytes)) (e : action) : answer e -> Prop :=
  match e return answer e -> Prop with
  | RandomID => fun id => match g with Some (ck, c) => owed K (CacheVersion_String (PendingCacheVersion ("write-" +:+ id))) ck c | None => True end
  | SpoolBody s _ => good (fun x => st_ok s = true /\ sp_body x.1 = st_bytes s /\ forall d, sp_data x.1 = Some d -> d = st_bytes s)
  | GetMetadata ck inline => good (fun x => (x.2 = WriteBack \/ x.2 = Cache) /\
      (gone (m_Info x.1) \/ exists c, cached K ck (m_Info x.1) c /\ seen inline K x.1 c))
  | GetMeta k ck => good (fun m => gone (m_Info m) \/ exists c, cached K ck (m_Info m) c /\ described K m c)
  | GetBody k m rng => good (fun s => forall c, described K m c -> m_Size m = zlen c -> exists b, range_of c rng = Some b /\ carries s b)
  | ReadMany keys _ => good (fun out => length out = length keys /\
      forall i key b, keys !! i = Some key -> out !! i = Some (Some b) -> exists v, chunk K key v b)
  | GetOriginMetadata ck _ => good (fun x => forall i, x = Some i -> oi_ETag i = oi_OriginETag i /\ exists c, version K ck (oi_OriginETag i) c /\ oi_Size i = zlen c)
  | Put k key data opts => good (fun m => m_Size m = zlen data /\ oi_ETag (m_Info m) = hexEncode (md5 data) /\
      oi_OriginETag (m_Info m) = pb_origin (wo_Publication opts) /\ m_Inline m = Some data)
  | Write k key data opts => good (fun p => ps_Size p = zlen data /\ ps_ETag p = hexEncode (md5 data) /\ kn_given K !! ps_FileID p = Some data)
  | Run _ _ => good (fun r => forall l, r = Uploads l -> Forall (fun p => IsPending (ParseCacheVersion (pd_Token p)) = true) l)
  | OUpload ck body _ _ => good (fun a => version K ck (versionFor a) body)
  | OGet ck => good (fun x => exists c, version K ck (versionFor x.2) c /\ oa_Size x.2 = zlen c /\ carries x.1 c)
  | ORange ck offset length ifMatch => good (fun s => exists v c, version K ck v c /\ carries s (slice c offset (offset + length)) /\
      forall c', version K ck ifMatch c' -> v = ifMatch)
  | OHead ck => good (fun a => exists c, version K ck (versionFor a) c /\ oa_Size a = zlen c)
  | Join f => flight_post K f
  | _ => fun _ => True
  end.

(** What is to be uploaded was asked for. *)
Definition promised (K : know) (g : option (string * bytes)) : Prop := match g with Some (ck, c) => asked_for K ck c | None => True end.

Fixpoint safe {A} (p : prog A) (Q : know -> A -> Prop) (K : know) : Prop :=
  match p with
  | Ret x => Q K x
  | Do e k => pre K e /\ exists g, promised K g /\ forall x K', kle K K' -> post K' g e x -> safe (k x) Q K'
  end.

Lemma storable_up K K' k key data p : kle K K' -> storable K k key data p -> storable K' k key data p.
Proof.
  intros H. unfold storable. destruct (pb_kind p); [| | | done].
  - intros [? ?]. split; [done | by eapply version_up].
  - intros [? [[? ?]|?]]; (split; [done |]); [left; split; [done | by eapply version_up] | right; by eapply chunk_up].
  - intros [? ?]. split; [done | by eapply owed_up].
Qed.

Lemma op_up K K' k su op : kle K K' -> op_ok K k su op -> op_ok K' k su op.
Proof.
  intros H. assert (kn_log K ⊆ kn_log K') as Hl by apply H. destruct op as [| | | | | | | | | | | | | | |op]; try done; cbn.
  - intros [? Hp]. split; [done | by eapply sent_part_up].
  - intros [? Hc]. split; [done | by eapply completes_up].
  - destruct op; try done.
    + intros (? & c & ? & ?). split; [done |]. exists c. split; [by eapply owed_up | by eapply version_up].
    + intros (? & ? & c & ? & ?). split; [done |]. split; [done |]. exists c. split; [by eapply version_up | done].
Qed.

Lemma pre_up K K' e : kle K K' -> pre K e -> pre K' e.
Proof.
  intros H. destruct e; try done; cbn [pre]; try (by apply storable_up).
  - intros Hs su. by eapply op_up.
  - intros [? ?]. split; [done | by eapply asked_up].
  - destruct f; try done. intros (? & ? & ? & c & ? & ?). repeat (split; [done |]). exists c. split; [by eapply version_up | done].
Qed.

Lemma promised_up K K' g : kle K K' -> promised K g -> promised K' g.
Proof. intros H. destruct g as [[ck c]|]; [by apply asked_up | done]. Qed.

Lemma flight_post_up K K' f r : kle K K' -> flight_post K f r -> flight_post K' f r.
Proof.
  intros H. destruct r as [[a|m|l]|e]; [| | | done]; destruct f; try done; cbn.
  - intros (c & ? & ?). exists c. split; [by eapply version_up | done].
  - intros (c & ? & ?). exists c. split; [by eapply cached_up | by eapply described_up].
  - intros (c & ? & ?). exists c. split; [by eapply version_up | done].
Qed.

(** ** Rules *)

Definition stable {A} (Q : know -> A -> Prop) : Prop := forall K K' x, kle K K' -> Q K x -> Q K' x.

Lemma safe_up {A} (p : prog A) Q K K' : stable Q -> kle K K' -> safe p Q K -> safe p Q K'.
Proof.
  intros HQ HK. destruct p as [x|e k]; cbn; [by apply HQ |]. intros [Hp (g & Hg & Hs)]. split; [by eapply pre_up |]. exists g. split; [by eapply promised_up |].
  intros x K1 H1 Hx. apply Hs; [by eapply kle_trans | done].
Qed.

Lemma safe_impl {A} (p : prog A) (Q Q' : know -> A -> Prop) K : (forall K' x, kle K K' -> Q K' x -> Q' K' x) -> safe p Q K -> safe p Q' K.
Proof.
  revert K. induction p as [x|e k IH]; intros K HQ; cbn; [apply HQ, kle_refl |]. intros [Hp (g & Hg & Hs)]. split; [done |]. exists g. split; [done |].
  intros x K1 H1 Hx. apply IH; [| by apply Hs]. intros K2 y H2. apply HQ. by eapply kle_trans.
Qed.

Lemma safe_bind {A B} (p : prog A) (f : A -> prog B) (R : know -> A -> Prop) Q K :
  safe p R K -> (forall x K', kle K K' -> R K' x -> safe (f x) Q K') -> safe (p ≫= f) Q K.
Proof.
  revert K. induction p as [x|e k IH]; intros K Hp Hf; cbn in *; [apply (Hf x K (kle_refl K) Hp) |].
  destruct Hp as [Hpre (g & Hg & Hs)]. split; [done |]. exists g. split; [done |]. intros x K1 H1 Hx. apply IH; [by apply Hs |]. intros y K2 H2. apply Hf. by eapply kle_trans.
Qed.

(** An action, with the ghost argument [g]. *)
Lemma safe_ghost g e Q K : pre K e -> promised K g -> (forall x K', kle K K' -> post K' g e x -> Q K' x) -> safe (act e) Q K.
Proof. intros Hp Hg Hq. split; [done |]. exists g. split; [done |]. intros x K' HK Hx. by apply Hq. Qed.

Lemma safe_act e Q K : pre K e -> (forall x K', kle K K' -> post K' None e x -> Q K' x) -> safe (act e) Q K.
Proof. intros Hp. by apply (safe_ghost None). Qed.

Lemma safe_action e K : pre K e -> safe (act e) (fun K' x => post K' None e x) K.
Proof. intros Hp. by apply safe_act. Qed.

Definition goodly {A} (P : know -> A -> Prop) (K : know) : result tier_error A -> Prop := good (P K).

Lemma safe_try {A B} (p : call A) (f : A -> call B) (R : know -> A -> Prop) (P : know -> B -> Prop) K :
  safe p (goodly R) K -> (forall x K', kle K K' -> R K' x -> safe (f x) (goodly P) K') -> safe (try_bind p f) (goodly P) K.
Proof.
  intros Hp Hf. unfold try_bind. eapply safe_bind; [exact Hp |]. intros [x|e] K' HK Hr; [by apply Hf | exact I].
Qed.

Lemma safe_done {A} (x : A) P K : P K x -> safe (done x) (goodly P) K.
Proof. done. Qed.

Lemma safe_raise {A} e (P : know -> A -> Prop) K : safe (raise e) (goodly P) K.
Proof. exact I. Qed.

Lemma safe_ret {A} (x : A) Q K : Q K x -> safe (mret x) Q K.
Proof. done. Qed.

Lemma safe_fmap {A B} (f : A -> B) (p : prog A) Q K : safe p (fun K x => Q K (f x)) K -> safe (f <$> p) Q K.
Proof. intros Hp. apply (safe_bind p (fun x => Ret (f x)) _ _ _ Hp). done. Qed.

End Facts.

(** Facts move on to later knowledge. *)
Ltac lift :=
  repeat match goal with
  | HK : kle ?K ?K', H : version _ ?K _ _ _ |- _ => apply (version_up _ _ _ _ _ _ HK) in H
  | HK : kle ?K ?K', H : owed _ ?K _ _ _ |- _ => apply (owed_up _ _ _ _ _ _ HK) in H
  | HK : kle ?K ?K', H : content _ ?K _ _ |- _ => apply (content_up _ _ _ _ _ HK) in H
  | HK : kle ?K ?K', H : described ?K _ _ |- _ => apply (described_up _ _ _ _ HK) in H
  | HK : kle ?K ?K', H : seen _ ?K _ _ |- _ => apply (seen_up _ _ _ _ _ HK) in H
  | HK : kle ?K ?K', H : cached _ ?K _ _ _ |- _ => apply (cached_up _ _ _ _ _ _ HK) in H
  | HK : kle ?K ?K', H : names _ ?K _ _ _ |- _ => apply (names_up _ _ _ _ _ _ HK) in H
  | HK : kle ?K ?K', H : chunk _ ?K _ _ _ |- _ => apply (chunk_up _ _ _ _ _ _ HK) in H
  | HK : kle ?K ?K', H : completes ?K _ _ |- _ => apply (completes_up _ _ _ _ HK) in H
  | HK : kle ?K ?K', H : asked_for _ ?K _ _ |- _ => apply (asked_up _ _ _ _ _ HK) in H
  end;
  repeat match goal with HK : kle ?K ?K' |- _ => clear HK end.
