(* ===== verification/TierKeys.v ===== *)
(** * Keys and flights of a tier

    The keys of chunks and the keys under which calls share flights are texts
    put together from keys, numbers and versions; here they are taken apart
    again. *)

From stdpp Require Import gmap.
From S2P Require Import Prelude GoStrings Ns Ranges Precond Blocks Tables Objects Names Origin Spool Tier TierMachine TierLogic.

(** ** Keys of chunks *)

Lemma plain_tail c s : plain (String c s) -> plain s.
Proof. unfold plain. cbn [contains]. by intros [_ ?]%orb_false_iff. Qed.

Lemma contains_here sub s : contains sub (sub +:+ s) = true.
Proof. destruct (sub +:+ s) eqn:E; cbn [contains]; rewrite <- E, HasPrefix_app; done. Qed.

(** No key begins with the mark of a chunk in front of another mark. *)
Lemma mark_overlap s r r' : "__range__" +:+ r = s +:+ "." +:+ "__range__" +:+ r' -> contains "__range__" s = true.
Proof.
  intros E. do 9 (destruct s as [|? s]; [discriminate E | cbn in E; injection E as <- E]). apply (contains_here "__range__" s).
Qed.

Lemma mark_split ck r ck' r' : plain ck -> plain ck' -> ck +:+ "." +:+ "__range__" +:+ r = ck' +:+ "." +:+ "__range__" +:+ r' -> ck = ck' /\ r = r'.
Proof.
  revert ck'. induction ck as [|a ck IH]; intros [|b ck'] Hp Hp' E.
  - split; [done |]. by injection E.
  - exfalso. assert ("__range__" +:+ r = ck' +:+ "." +:+ "__range__" +:+ r') as E2 by (by injection E).
    apply mark_overlap in E2. apply plain_tail in Hp'. unfold plain in Hp'. congruence.
  - exfalso. assert ("__range__" +:+ r' = ck +:+ "." +:+ "__range__" +:+ r) as E2 by (by injection E).
    apply mark_overlap in E2. apply plain_tail in Hp. unfold plain in Hp. congruence.
  - rewrite !sapp_cons in E. injection E as <- E. apply plain_tail in Hp, Hp'. by destruct (IH ck' Hp Hp' E) as [-> ->].
Qed.

Lemma hex_digit_inj d d' : 0 <= d < 16 -> 0 <= d' < 16 -> hex_digit_of d = hex_digit_of d' -> d = d'.
Proof. intros Hd Hd' E. destruct (hex_digit_round d Hd) as [H1 _], (hex_digit_round d' Hd') as [H2 _]. rewrite E in H1. congruence. Qed.

Lemma nibble_range n i : 0 <= Z.land (Z.shiftr n (4 * i)) 15 < 16.
Proof. change 15 with (Z.ones 4). rewrite Z.land_ones by lia. apply Z.mod_pos_bound. lia. Qed.

Lemma nibbles_inj n n' : 0 <= n <= max_int64 -> 0 <= n' <= max_int64 ->
  (forall i, 0 <= i < 16 -> Z.land (Z.shiftr n (4 * i)) 15 = Z.land (Z.shiftr n' (4 * i)) 15) -> n = n'.
Proof.
  intros Hn Hn' H. apply Z.bits_inj'. intros k Hk. destruct (Z.ltb_spec k 64) as [Hlt|Hge].
  - specialize (H (k / 4) ltac:(split; [apply Z.div_pos; lia | apply Z.div_lt_upper_bound; lia])). apply (f_equal (fun x => Z.testbit x (k mod 4))) in H.
    pose proof (Z.mod_pos_bound k 4 ltac:(lia)). rewrite !Z.land_spec, !Z.shiftr_spec in H by lia. change 15 with (Z.ones 4) in H. rewrite Z.ones_spec_low, !andb_true_r in H by lia.
    rewrite (Z.div_mod k 4) by lia. by rewrite (Z.add_comm (4 * (k / 4))).
  - assert (forall m, 0 <= m <= max_int64 -> Z.testbit m k = false) as Hz; [| by rewrite !Hz].
    intros m [Hm1 Hm2]. unfold max_int64 in Hm2. destruct (Z.eqb_spec m 0) as [->|]; [apply Z.bits_0 |]. apply Z.bits_above_log2; [done |].
    apply Z.log2_lt_pow2; [lia |]. eapply Z.lt_le_trans; [| apply Z.pow_le_mono_r with (b := 64); lia]. lia.
Qed.

Lemma hex16_length n : length (String.list_ascii_of_string (hex16 n)) = 16%nat.
Proof. unfold hex16. by rewrite String.list_ascii_of_string_of_list_ascii. Qed.

Lemma hex16_inj n n' : 0 <= n <= max_int64 -> 0 <= n' <= max_int64 -> hex16 n = hex16 n' -> n = n'.
Proof.
  intros Hn Hn' E. apply nibbles_inj; [done | done |]. unfold hex16 in E. apply (f_equal String.list_ascii_of_string) in E.
  rewrite !String.list_ascii_of_string_of_list_ascii in E. intros i Hi.
  apply (f_equal (fun l => l !! Z.to_nat (15 - i))) in E. rewrite !list_lookup_fmap in E.
  assert (rev (seqZ 0 16) !! Z.to_nat (15 - i) = Some i) as Hl.
  { assert (i = 0 \/ i = 1 \/ i = 2 \/ i = 3 \/ i = 4 \/ i = 5 \/ i = 6 \/ i = 7 \/ i = 8 \/ i = 9 \/ i = 10 \/ i = 11 \/ i = 12 \/ i = 13 \/ i = 14 \/ i = 15)
      as Hc by lia. repeat (destruct Hc as [->|Hc]; [reflexivity |]). by subst i. }
  rewrite Hl in E. cbn in E. injection E as E. by apply hex_digit_inj in E; [| apply nibble_range ..].
Qed.

Lemma rangeChunkKey_inj ck off v ck' off' v' : plain ck -> plain ck' -> 0 <= off <= max_int64 -> 0 <= off' <= max_int64 ->
  rangeChunkKey ck off v = rangeChunkKey ck' off' v' -> ck = ck' /\ off = off' /\ v = v'.
Proof.
  intros Hp Hp' Ho Ho' E. unfold rangeChunkKey in E. change (".__range__." +:+ ?r) with ("." +:+ "__range__" +:+ "." +:+ r) in E.
  apply mark_split in E as [-> E]; [| done | done]. split; [done |]. assert (hex16 off +:+ "." +:+ v = hex16 off' +:+ "." +:+ v') as E1 by (by apply sapp_inj_l in E).
  apply (f_equal String.list_ascii_of_string) in E1. rewrite !list_ascii_app in E1. apply app_inj_1 in E1 as [E1 E2]; [| by rewrite !hex16_length].
  apply (f_equal String.string_of_list_ascii) in E1. rewrite !String.string_of_list_ascii_of_string in E1. apply hex16_inj in E1; [| done | done].
  split; [done |]. cbn in E2. injection E2 as E2. apply (f_equal String.string_of_list_ascii) in E2. by rewrite !String.string_of_list_ascii_of_string in E2.
Qed.

Lemma chunk_not_plain key : chunk_key key -> plain key -> False.
Proof.
  intros (ck & off & v & _ & -> & _). unfold rangeChunkKey, plain. change (".__range__." +:+ ?r) with ("." +:+ "__range__" +:+ "." +:+ r).
  induction ck as [|a ck IH]; [done |]. rewrite sapp_cons. cbn [contains]. intros [_ ?]%orb_false_iff. auto.
Qed.

(** ** Keys of flights *)

Definition no_colon (s : string) : bool := all_bytes (fun c => negb (bool_decide (c = ":"%char))) s.

Lemma colon_in x v : no_colon (x +:+ String ":" v) = false.
Proof. unfold no_colon. rewrite all_bytes_app. cbn. by rewrite andb_false_r. Qed.

Lemma colon_split x v x' v' : no_colon v = true -> no_colon v' = true -> x +:+ String ":" v = x' +:+ String ":" v' -> x = x' /\ v = v'.
Proof.
  intros Hv Hv'. revert x'. induction x as [|a x IH]; intros [|b x'] E.
  - cbn in E. by injection E.
  - exfalso. cbn in E. injection E as <- E. by rewrite E, colon_in in Hv.
  - exfalso. cbn in E. injection E as -> E. by rewrite <- E, colon_in in Hv'.
  - rewrite !sapp_cons in E. injection E as <- E. by destruct (IH x' E) as [-> ->].
Qed.

Lemma colon_groups a b c d : a +:+ ":" +:+ b +:+ ":" +:+ c +:+ ":" +:+ d = ((a +:+ String ":" b) +:+ String ":" c) +:+ String ":" d.
Proof. by rewrite !sapp_assoc. Qed.

Fixpoint hex_value (h : Z) (s : string) : Z :=
  match s with EmptyString => h | String c s => hex_value (16 * h + default 0 (hex_digit_val c)) s end.

Lemma hex_loop_value fuel n acc : 0 <= n < 16 ^ Z.of_nat fuel -> hex_value 0 (hex_loop fuel n acc) = hex_value n acc.
Proof.
  revert n acc. induction fuel as [|fuel IH]; intros n acc Hn; cbn [hex_loop]; [by replace n with 0 by lia |]. destruct (Z.eqb_spec n 0) as [->|Hne]; [done |].
  rewrite Nat2Z.inj_succ, Z.pow_succ_r in Hn by lia. rewrite IH; [| split; [apply Z.div_pos; lia | apply Z.div_lt_upper_bound; lia]]. cbn [hex_value].
  destruct (hex_digit_round (n mod 16)) as [-> _]; [apply Z.mod_pos_bound; lia |]. cbn. by rewrite <- Z.div_mod by lia.
Qed.

Lemma hex_loop_plain fuel n acc : no_colon acc = true -> no_colon (hex_loop fuel n acc) = true.
Proof.
  revert n acc. induction fuel as [|fuel IH]; intros n acc Ha; cbn [hex_loop]; [done |]. destruct (n =? 0); [done |]. apply IH. unfold no_colon. cbn. rewrite andb_true_iff. split; [| done].
  pose proof (Z.mod_pos_bound n 16 ltac:(lia)). set (d := n mod 16) in *.
  assert (d = 0 \/ d = 1 \/ d = 2 \/ d = 3 \/ d = 4 \/ d = 5 \/ d = 6 \/ d = 7 \/ d = 8 \/ d = 9 \/ d = 10 \/ d = 11 \/ d = 12 \/ d = 13 \/ d = 14 \/ d = 15)
    as Hc by lia. repeat (destruct Hc as [->|Hc]; [reflexivity |]). by rewrite Hc.
Qed.

Lemma FormatHex_plain n : no_colon (FormatHex n) = true.
Proof. unfold FormatHex. destruct (n =? 0); [done | by apply hex_loop_plain]. Qed.

Lemma FormatHex_inj n n' : 0 <= n <= max_int64 -> 0 <= n' <= max_int64 -> FormatHex n = FormatHex n' -> n = n'.
Proof.
  intros Hn Hn' E. assert (forall m, 0 <= m <= max_int64 -> hex_value 0 (FormatHex m) = m) as Hv.
  { intros m Hm. unfold FormatHex. destruct (Z.eqb_spec m 0) as [->|]; [done |]. unfold max_int64 in Hm. rewrite hex_loop_value; [done |]. change (16 ^ Z.of_nat 16) with (2 ^ 64). lia. }
  apply (f_equal (hex_value 0)) in E. by rewrite !Hv in E.
Qed.

Section Flights.
Context `{D : Digests} (o : origin) (t : Tier).

Lemma run_last first last last' size : 0 < t_rangeSize t -> (last - first) mod t_rangeSize t = 0 -> (last' - first) mod t_rangeSize t = 0 ->
  last < size -> last' < size -> last + rangeChunkLen t size last = last' + rangeChunkLen t size last' -> last = last'.
Proof.
  unfold rangeChunkLen. intros Hr H1 H2 Hl Hl' E. apply Z.mod_divide in H1 as [q Hq], H2 as [q' Hq']; [| lia | lia].
  assert (q = q') by nia. lia.
Qed.

(** Calls that share a flight wait for the same thing. *)
Lemma flight_shared K f f' r : flight_pre o t K f -> flight_pre o t K f' -> flight_key t f = flight_key t f' -> flight_post o t K f r -> flight_post o t K f' r.
Proof.
  intros Hf Hf' E Hr. destruct r as [v|e]; [| done]. destruct f as [ck|ck key|ck key w first last], f' as [ck'|ck' key'|ck' key' w' first' last']; try discriminate E; unfold flight_key in E.
  - apply sapp_inj_l in E as <-. exact Hr.
  - apply sapp_inj_l in E as <-. exact Hr.
  - apply sapp_inj_l in E. destruct v as [| |l]; try done. cbn in Hf, Hf', Hr |- *.
    destruct Hf as (Hp & Hr0 & Hm & c & Hv & Hs & Hfirst & Hlast), Hf' as (Hp' & _ & Hm' & c' & Hv' & Hs' & Hfirst' & Hlast'). destruct Hr as (c2 & Hc2 & ->).
    pose proof (version_unique _ _ _ _ _ _ Hv Hc2) as <-. rewrite !colon_groups in E.
    pose proof Hv as (_ & [_ Hnc] & Hmax). pose proof Hv' as (_ & [_ Hnc'] & Hmax').
    apply colon_split in E as [E Ev]; [| exact Hnc | exact Hnc']. apply colon_split in E as [E El]; [| apply FormatHex_plain ..].
    apply colon_split in E as [<- Ef]; [| apply FormatHex_plain ..]. rewrite <- Ev in *. pose proof (version_unique _ _ _ _ _ _ Hv Hv') as <-.
    apply FormatHex_inj in Ef as <-; [| lia | lia]. rewrite Hs, Hs' in El.
    apply FormatHex_inj in El; [| unfold rangeChunkLen; lia ..]. assert (last = last') as <- by (eapply run_last; [done | done | done | done | done | lia]).
    by exists c.
Qed.

End Flights.
