(* ===== verification/TierReads.v ===== *)
(** * Reads through a tier are safe

    The programs of [Tier.v] that read, in the logic of [TierLogic.v]: what a
    read returns is a range of one content of its key. *)

From stdpp Require Import gmap.
From S2P Require Import Prelude GoStrings Ns Ranges Precond Blocks Pieces Ids Tables Objects CacheTables ObjectSpec Machine ObjectRep ObjectRead Names LateRead Origin Spool Tier TierMachine TierLogic TierKeys.

(** One action or part of a program, and its answer; what is known afterwards
    is [K] again. *)
Ltac renew Kn := lift; repeat match goal with K : know |- _ => tryif constr_eq K Kn then fail else clear K end; try (let K := fresh "K" in rename Kn into K).
Ltac take_act x H :=
  eapply safe_bind; [apply safe_action; cbn [pre]; try done | let Kn := fresh "Kn" in intros x Kn ? H; cbn [post answer] in x, H; renew Kn].
Ltac try_act x H :=
  unfold try_bind at 1; eapply safe_bind;
  [apply safe_action; cbn [pre]; try done | let Kn := fresh "Kn" in intros [x|?] Kn ? H; [cbn [post answer good] in x, H; renew Kn | exact I]].
Ltac use_safe L x H := eapply safe_bind; [apply L; try done | let Kn := fresh "Kn" in intros x Kn ? H; renew Kn].
Ltac try_safe L x H := eapply safe_try; [apply L; try done | let Kn := fresh "Kn" in intros x Kn ? H; renew Kn].

Section Reads.
Context `{M : Mime, T : ErrorText, D : Digests} (o : origin) (t : Tier).
Context (Hrange : 0 <= t_rangeSize t <= maxRangeChunk).

Abbreviation safely := (safe o t).

(** What a lookup finds. *)
Definition row_found (inline : bool) (ck : string) (K : know) (x : option (Meta * Kind)) : Prop :=
  forall m k, x = Some (m, k) -> (k = WriteBack \/ k = Cache) /\
    (gone (m_Info m) \/ exists c, cached o K ck (m_Info m) c /\ seen inline K m c).

Lemma safe_lookup ck inline K : plain ck -> safely (lookupCached ck inline) (goodly (row_found inline ck)) K.
Proof.
  intros Hp. unfold lookupCached. take_act r Hr. destruct r as [[m k]|[[]| | | | | | | | | | | | |]]; try exact I.
  - apply safe_done. intros m' k' [= <- <-]. exact Hr.
  - apply safe_done. intros m' k' [=].
Qed.

Lemma not_gone i : IsDeleted (ParseCacheVersion (oi_OriginETag i)) = false -> ~ gone i.
Proof. unfold gone. intros ->. done. Qed.

Lemma safe_current ck K : plain ck ->
  safely (currentMeta ck) (goodly (fun K x => forall m, x = Some m -> exists c, cached o K ck (m_Info m) c /\ described K m c)) K.
Proof.
  intros Hp. unfold currentMeta. try_safe safe_lookup x Hx. destruct x as [[m k]|]; apply safe_done; [| done].
  destruct (IsDeleted _) eqn:E; [done |]. intros m' [= <-]. destruct (Hx m k eq_refl) as [_ [Hg|(c & Hc & Hd)]]; [by apply not_gone in E |]. eauto.
Qed.

Lemma safe_op k op K : (forall su, op_ok o K k su op) -> safely (run_op k op) (goodly (fun _ _ => True)) K.
Proof. intros Hp. apply (safe_act o t); [exact Hp |]. by intros [x|e] K' _ _. Qed.

Lemma safe_cache_op k op K : (forall su, op_ok o K k su (CacheOp op)) -> safely (cache_op k op) (goodly (fun _ _ => True)) K.
Proof. apply safe_op. Qed.

Lemma safe_touch k ck K : k = WriteBack \/ k = Cache -> safely (touch t k ck) (fun _ _ => True) K.
Proof.
  intros Hk. unfold touch. destruct (t_readOnly t); [done |]. use_safe safe_cache_op r Hr. done.
Qed.

Lemma safe_head ck K : safely (join_head ck) (goodly (fun K a => exists c, version o K ck (versionFor a) c /\ oa_Size a = zlen c)) K.
Proof. unfold join_head. try_act v Hv. destruct v; try exact I. exact Hv. Qed.

(** ** Resolutions *)

(** What [resolveCache] returns: a valid row of a content, or attributes of a
    version, or nothing at all when attributes are not asked for. *)
Definition resolved (skip : bool) (ck : string) (inline : bool) (K : know) (r : cacheResolution) : Prop :=
  (cr_kind r = WriteBack \/ cr_kind r = Cache) /\
  (cr_valid r = true -> exists m c, cr_meta r = Some m /\ cr_info r = cachedInfo (cr_kind r) (m_Info m) /\ cached o K ck (m_Info m) c /\
    seen inline K m c) /\
  (cr_valid r = false -> skip && bool_decide (cr_meta r = None) = false ->
    exists c, version o K ck (oi_OriginETag (cr_info r)) c /\ oi_Size (cr_info r) = zlen c /\ oi_ETag (cr_info r) = oi_OriginETag (cr_info r) /\
      versionFor (cr_attrs r) = oi_OriginETag (cr_info r)).

Lemma resolved_attrs skip ck inline K (k : Kind) m a c :
  k = WriteBack \/ k = Cache -> version o K ck (versionFor a) c -> oa_Size a = zlen c -> resolved skip ck inline K (mkResolution m k a (attrs_info a) false false).
Proof. intros Hk Hv Hs. split; [done |]. split; [done |]. intros _ _. exists c. done. Qed.

Lemma safe_resolve_origin ck stale found skip inline K :
  (forall m k, found = Some (m, k) -> (k = WriteBack \/ k = Cache) /\ exists c, cached o K ck (m_Info m) c /\ seen inline K m c) ->
  (skip = true -> found <> None) ->
  safely (resolve_origin t ck stale found) (goodly (resolved skip ck inline)) K.
Proof.
  intros Hf Hskip. unfold resolve_origin. destruct found as [[m k]|].
  - destruct (Hf m k eq_refl) as (Hk & c' & Hc & Hd). clear Hf Hskip. take_act now0 Hn0. use_safe safe_head r Ha. destruct r as [a|e].
    2: { destruct (IsObjNotFoundErr e); [| exact I]. destruct (_ && _); [| exact I]. use_safe safe_cache_op r Hr. exact I. }
    destruct Ha as (c & Hv & Hs). destruct (_ && _).
    + use_safe safe_touch r Hr. apply safe_done. split; [done |]. split; [| done]. intros _. exists m, c'. done.
    + destruct (negb _ && _); [| by apply safe_done, (resolved_attrs _ _ _ _ _ _ _ c)]. destruct (bool_decide _).
      * try_safe safe_cache_op r Hr. by apply safe_done, (resolved_attrs _ _ _ _ _ _ _ c).
      * use_safe safe_cache_op r Hr. by apply safe_done, (resolved_attrs _ _ _ _ _ _ _ c).
  - clear Hf. take_act now0 Hn0. use_safe safe_head r Ha. destruct r as [a|e]; [| by destruct (IsObjNotFoundErr e)].
    destruct Ha as (c & Hv & Hs). destruct (_ && _); [| by apply safe_done, (resolved_attrs _ _ _ _ _ _ _ c); [right | |]].
    take_act now1 Hn1. try_safe safe_cache_op r Hr; [by intros su; cbn; split; [| split; [| exists c]] |]. by apply safe_done, (resolved_attrs _ _ _ _ _ _ _ c); [right | |].
Qed.

Lemma versionFor_etag i : oi_OriginETag i <> "" ->
  versionFor (mkOriginAttrs (oi_Size i) (oi_OriginETag i) (Some (LastModified i)) (oi_ContentType i) (oi_ContentEncoding i) (oi_UserMetadata i)) = oi_OriginETag i.
Proof. intros Hne. unfold versionFor, orValue. cbn. by rewrite bool_decide_true. Qed.

Lemma safe_resolve ck stale inline skip K : plain ck -> safely (resolveCache t ck stale inline skip) (goodly (resolved skip ck inline)) K.
Proof.
  intros Hp. unfold resolveCache. try_safe safe_lookup found Hf. destruct found as [[m k]|].
  - destruct (Hf m k eq_refl) as (Hk & Hm). clear Hf. destruct (bool_decide _) eqn:Eg; [exact I |]. destruct Hm as [Hg|(c & Hc & Hd)].
    { exfalso. apply bool_decide_eq_false in Eg. apply Eg. unfold gone, IsDeleted in Hg. by destruct (cv_State _). }
    take_act now Hn. destruct (_ || _).
    + apply safe_done. split; [done |]. split; [| done]. intros _. exists m, c. done.
    + apply safe_resolve_origin; [| done]. intros m' k' [= <- <-]. split; [done |]. by exists c.
  - destruct skip.
    { apply safe_done. split; [by right |]. by split. }
    destruct (_ && _); [| by apply safe_resolve_origin].
    try_act i Hi. destruct i as [i|]; [| by apply safe_resolve_origin]. apply safe_done. split; [by right |]. split; [done |]. intros _ _.
    destruct (Hi i eq_refl) as (He & c & Hv & Hs). exists c. cbn. pose proof Hv as (_ & [Hne _] & _). rewrite versionFor_etag by done. done.
Qed.

(** ** Storing *)

(** The metadata of a body that was stored. *)
Definition stored (v : string) (body : bytes) (K : know) (m : Meta) : Prop :=
  m_Size m = zlen body /\ oi_ETag (m_Info m) = hexEncode (md5 body) /\ oi_OriginETag (m_Info m) = v /\ described K m body.

Lemma file_described K m body :
  m_Inline m = None -> m_Parts m = None -> m_PartEnds m = None -> m_Size m = zlen body -> kn_given K !! m_FileID m = Some body -> described K m body.
Proof.
  intros Hi Hp Hpe Hs Hg Hmax. split; [done |]. rewrite Hi. exists [mkSegment (m_FileID m) 0 (m_Size m)].
  assert (files_of (kn_given K) (m_FileID m) = body) as Hf by (unfold files_of; by rewrite Hg).
  split; [unfold Segments; by rewrite Hp, Hpe |]. split; [constructor; [| done]; split; [unfold seg_body; cbn; by rewrite Hf | exact Hmax] |].
  split; [constructor; [| done]; cbn; by eexists |]. unfold object_bytes, seg_body. cbn. by rewrite Hf, app_nil_r.
Qed.

Lemma safe_chunked k key body opts K : storable o K k key body (wo_Publication opts) ->
  safely (store_chunked k key body opts) (goodly (stored (pb_origin (wo_Publication opts)) body)) K.
Proof.
  intros Hp. unfold store_chunked. unfold try_bind at 1. eapply safe_bind; [by apply safe_action |]. intros [p|e] K1 H1 Hpost; [| exact I]. cbn in p, Hpost. clear Hp.
  destruct Hpost as (Hs & He & Hg). eapply safe_bind; [by apply safe_action |]. intros now K2 H2 _. cbn in now.
  destruct (match wo_Checksum opts with Some c => _ | None => _ end) as [[name value] ty]. apply safe_done. split; [done |]. split; [done |]. split; [done |].
  apply file_described; try done. cbn. by eapply lookup_weaken, H2.
Qed.

Lemma safe_store k key sp opts locked K : storable o K k key (sp_body sp) (wo_Publication opts) -> (forall d, sp_data sp = Some d -> d = sp_body sp) ->
  safely (storeSpooled t k key sp opts locked) (goodly (stored (pb_origin (wo_Publication opts)) (sp_body sp))) K.
Proof.
  intros Hp Hd. unfold storeSpooled. destruct (match locked with Some l => _ | None => _ end); [exact I |].
  eapply safe_bind; [by apply safe_action |]. intros now K1 H1 _. apply (storable_up _ _ _ _ _ _ _ H1) in Hp. clear H1 K.
  cbn zeta. set (opts' := mkWriteOptions _ _ _ _ _ _ _ _ _ _ _ _). change (wo_Publication opts) with (wo_Publication opts') in Hp |- *.
  destruct (sp_data sp) as [d|]; [| by apply safe_chunked]. specialize (Hd d eq_refl). subst d. destruct (_ <=? _); [| by apply safe_chunked].
  destruct (match pb_kind _ with publicationPending => true | _ => false end); [exact I |].
  apply (safe_act o t); [exact Hp |]. intros [m|e] K2 H2 Hm; [| done]. cbn in m, Hm |- *. destruct Hm as (H3 & H4 & H5 & H6).
  split; [done |]. split; [done |]. split; [done |]. intros _. split; [done |]. by rewrite H6.
Qed.

Lemma stored_cached ck v c K m : stored v c K m -> version o K ck v c -> cached o K ck (m_Info m) c /\ described K m c.
Proof. intros (Hs & He & Hv & Hd) Hver. split; [| done]. split; [done |]. split; [by exists InRow |]. left. by rewrite Hv. Qed.

Lemma stored_owed ck v c K m : stored v c K m -> owed o K v ck c -> cached o K ck (m_Info m) c /\ described K m c.
Proof. intros (Hs & He & Hv & Hd) Hver. split; [| done]. split; [done |]. split; [by exists InRow |]. right. by rewrite Hv. Qed.

(** ** Fills *)

Definition filled (ck : string) (K : know) (m : Meta) : Prop := exists c, cached o K ck (m_Info m) c /\ described K m c.

Lemma safe_fill_result ck K : plain ck -> safely (currentFillResult ck) (goodly (filled ck)) K.
Proof. intros Hp. unfold currentFillResult. try_safe safe_current x Hx. destruct x as [m|]; [| exact I]. exact (Hx m eq_refl). Qed.

Lemma safe_probe ck K : plain ck -> safely (fill_probe ck) (goodly (fun K x => forall m, x = Some m -> filled ck K m)) K.
Proof.
  intros Hp. unfold fill_probe. try_safe safe_lookup x Hx. destruct x as [[m k]|]; [| by apply safe_done].
  destruct (cv_State _) eqn:E; try exact I. apply safe_done. intros m' [= <-]. destruct (Hx m k eq_refl) as [_ [Hg|(c & Hc & Hd)]].
  - exfalso. unfold gone, IsDeleted in Hg. by rewrite E in Hg.
  - exists c. split; [done | by apply Hd].
Qed.

Lemma safe_acquire fuel ck deadline K : plain ck ->
  safely (acquire_loop t fuel ck deadline) (goodly (fun K x => forall m, x = inr m -> filled ck K m)) K.
Proof.
  intros Hp. revert K. induction fuel as [|fuel IH]; intros K; [exact I |]. cbn [acquire_loop]. try_safe safe_probe x Hx. destruct x as [m|].
  { apply safe_done. intros m' [= <-]. by apply Hx. }
  clear Hx. take_act rid Hid. try_safe safe_cache_op r Hr; [by intros su; right |]. assert (forall K, safely (
    now ← act Clock; let pause := Z.min (100 * 1000) (deadline - now) in
    if pause <=? 0 then raise errFillBusy
    else woken ← act (SleepUntil (now + pause)); if negb woken then raise Cancelled else acquire_loop t fuel ck deadline)
    (goodly (fun K x => forall m, x = inr m -> filled ck K m)) K) as Hwait.
  { clear K Hr Hid. intros K. take_act now Hn. cbn zeta. destruct (_ <=? 0); [exact I |]. take_act woken Hw. destruct (negb woken); [exact I | apply IH]. }
  destruct r as [| | |[]| | | | |]; try apply Hwait. use_safe safe_probe r Hx. destruct r as [[m|]|e].
  - assert (filled ck K m) as (c & Hc & Hd) by by apply Hx. clear Hx. use_safe safe_cache_op r Hr'; [by intros su; right |].
    apply safe_done. intros m' [= <-]. by exists c.
  - by apply safe_done.
  - use_safe safe_cache_op r Hr'; [by intros su; right |]. exact I.
Qed.

Lemma safe_fetch ck key lease K : plain ck -> safely (fill_fetch t ck key lease) (goodly (filled ck)) K.
Proof.
  intros Hp. unfold fill_fetch. take_act r Hr. destruct r as [[rc a]|e]; [| by destruct (IsObjNotFoundErr e)].
  destruct Hr as (c & Hv & Hs & Hc). cbn in Hv, Hs, Hc. take_act r Hr. destruct r as [[sp n]|e]; [| by destruct (IsObjNotFoundErr e)].
  destruct Hr as (Hok & Hb & Hd). cbn in Hb, Hd. rewrite (proj1 Hc Hok) in Hb, Hd.
  assert (forall K, version o K ck (versionFor a) c -> safely (
    if negb (sp_size sp =? oa_Size a) then raise WrongLength
    else r ← storeSpooled t Cache ck sp
               (with_publication (attrs_options a) (FillPublication (versionFor a) (versionFor a) (Some lease)) (oa_LastModified a)) None;
         match r with Err e => if is_stale e then currentFillResult ck else raise e | Ok m => done m end) (goodly (filled ck)) K) as Hbody.
  { clear K Hv. intros K Hv. destruct (negb _); [exact I |].
    eapply safe_bind; [apply safe_store; [cbn; split; [done |]; left; by rewrite Hb | intros d Ed; rewrite Hb; by apply Hd] |].
    intros r K1 H1 Hr. cbn in Hr. lift. destruct r as [m|e].
    - apply safe_done. exists c. rewrite Hb in Hr. by eapply stored_cached.
    - destruct (is_stale e); [by apply safe_fill_result | exact I]. }
  eapply safe_bind; [by apply Hbody |]. clear Hbody. intros r K1 H1 Hr. clear H1. destruct r as [m|e].
  - destruct Hr as (c' & Hc' & Hd'). take_act u Hu. apply safe_ret. by exists c'.
  - take_act u Hu. exact I.
Qed.

Lemma safe_fill_flight ck key K : plain ck -> safely (fill_flight t ck key) (goodly (filled ck)) K.
Proof.
  intros Hp. unfold fill_flight. cbn zeta. try_act u Hu. eapply (safe_bind _ _ _ _ (goodly (filled ck))).
  - take_act e1 He1. destruct (negb e1); [exact I |]. take_act e2 He2. destruct (negb e2); [exact I |].
    eapply safe_try; [unfold acquireFill; take_act now Hn; by apply safe_acquire |]. intros x K1 H1 Hx. destruct x as [lease|m]; [| by apply safe_done, Hx]. clear Hx H1.
    use_safe safe_fetch r Hr. destruct r as [m|e].
    + destruct Hr as (c & Hc & Hd). take_act lost Hl. use_safe safe_cache_op x Hx; [by intros su; right |]. destruct lost; [exact I |]. apply safe_ret. by exists c.
    + take_act lost Hl. use_safe safe_cache_op x Hx; [by intros su; right |]. by destruct lost.
  - intros r K1 H1 Hr. clear H1. destruct r as [m|e]; [destruct Hr as (c & Hc & Hd) |]; take_act v Hv; [| exact I]. apply safe_ret. by exists c.
Qed.

Lemma safe_fill ck key K : plain ck -> safely (fill ck key) (goodly (filled ck)) K.
Proof. intros Hp. unfold fill. try_act v Hv. destruct v as [|m|]; try exact I. exact Hv. Qed.

(** ** Ranges in chunks *)

Lemma chunk_len size off : off < size -> 0 < t_rangeSize t -> 0 < rangeChunkLen t size off <= t_rangeSize t /\ off + rangeChunkLen t size off <= size.
Proof. unfold rangeChunkLen. lia. Qed.

Lemma piece_length c off : 0 <= off < zlen c -> 0 < t_rangeSize t -> zlen (piece_at t c off) = rangeChunkLen t (zlen c) off.
Proof. intros Ho Hr. pose proof (chunk_len (zlen c) off ltac:(lia) Hr). unfold piece_at. rewrite zlen_slice_ok; [lia | split; lia]. Qed.

Lemma piece_chunk K ck v c off : plain ck -> version o K ck v c -> 0 <= off < zlen c -> 0 < t_rangeSize t -> chunk o K (rangeChunkKey ck off v) v (piece_at t c off).
Proof.
  intros Hp Hv Ho Hr. pose proof Hv as (_ & _ & Hmax). pose proof (chunk_len (zlen c) off ltac:(lia) Hr). exists ck, off, c. split; [done |]. split; [done |]. split; [lia |]. split; [done |].
  rewrite piece_length by done. split; [done | lia].
Qed.

Lemma safe_chunks ck v c first last buf offs K :
  plain ck -> 0 < t_rangeSize t -> oi_Size (rv_Info v) = zlen c -> buf = slice c first last -> 0 <= first ->
  Forall (fun off => first <= off < zlen c /\ off + rangeChunkLen t (zlen c) off <= last) offs -> version o K ck (oi_ETag (rv_Info v)) c ->
  safely (store_chunks t ck v first buf offs) (fun K x => x = piece_at t c <$> offs) K.
Proof.
  intros Hp Hr Hs -> Hf Hoffs. revert K. induction Hoffs as [|off offs [Ho Hl] _ IH]; intros K Hv; cbn [store_chunks]; [done |].
  rewrite Hs. assert (slice (slice c first last) (off - first) (off - first + rangeChunkLen t (zlen c) off) = piece_at t c off) as ->.
  { rewrite slice_slice by lia. unfold piece_at. f_equal; lia. }
  eapply safe_bind; [apply safe_store; [| by intros d [= <-]]; cbn; split; [done |]; right; apply piece_chunk; done || lia |].
  intros r K1 H1 _. lift. eapply safe_bind; [by apply IH |]. intros l K2 H2 ->. by apply safe_ret.
Qed.

Lemma offsets_bounds first last off : 0 < t_rangeSize t -> first <= last -> off ∈ offsets t first last -> first <= off <= last.
Proof.
  intros Hr Hl (i & -> & Hi%elem_of_seqZ)%list_elem_of_fmap. split; [nia |]. pose proof (Z.mul_div_le (last - first) (t_rangeSize t) Hr). nia.
Qed.

Lemma carried_whole s c n : carries s c -> zlen c <= n -> n <= zlen (st_bytes s) -> slice (st_bytes s) 0 n = c.
Proof.
  intros (_ & m & E) Hc Hn. assert (zlen (slice c 0 m) <= zlen c) as Hle by (unfold zlen, slice; rewrite length_take, length_drop; lia).
  rewrite E in Hn |- *. rewrite (slice_full (slice c 0 m)) by lia. pose proof (zlen_slice_le c 0 m). pose proof (zlen_nonneg c).
  destruct (Z.le_gt_cases (zlen c) m) as [|Hlt]; [by apply slice_full |]. assert (zlen c = 0) as ->%zlen_0_nil by lia. by rewrite slice_past.
Qed.

Lemma safe_range_flight ck key v first last K : flight_pre o t K (RangeFlight ck key v first last) ->
  safely (range_flight t ck key v first last)
    (goodly (fun K l => exists c, version o K ck (oi_ETag (rv_Info v)) c /\ l = piece_at t c <$> offsets t first last)) K.
Proof.
  intros (Hp & Hr & Hm & c & Hv & Hs & Hf & Hl). unfold range_flight. cbn zeta. pose proof (chunk_len (zlen c) last Hl Hr) as [Hlen Hend].
  rewrite Hs. set (n := last + rangeChunkLen t (zlen c) last - first) in *. take_act e1 He1. destruct (negb e1); [exact I |]. take_act e2 He2. destruct (negb e2); [exact I |].
  take_act r Hrc; [lia |]. destruct r as [rc|e].
  - destruct Hrc as (v' & c' & Hv' & Hc & Hsame). pose proof (Hsame c Hv) as ->. pose proof (version_unique _ _ _ _ _ _ Hv Hv') as <-. clear Hsame Hv'.
    destruct (Z.ltb_spec (zlen (st_bytes rc)) n) as [|Hge]; [exact I |].
    assert (zlen (slice c first (first + n)) <= n) as Hcut by (pose proof (zlen_slice_le c first (first + n)); lia).
    rewrite (carried_whole _ _ _ Hc Hcut Hge). eapply safe_bind; [eapply (safe_chunks ck v c first (first + n)); try done; [lia |] |].
    + apply Forall_forall. intros off Hoff. pose proof (offsets_bounds _ _ _ Hr (proj2 Hf) Hoff). unfold rangeChunkLen in *. lia.
    + intros l K1 H1 ->. lift. apply safe_done. by exists c.
  - destruct e as [|e| | | | | | | | | | | |]; try (by destruct (IsObjNotFoundErr _)). destruct e; try (by destruct (IsObjNotFoundErr _)).
    use_safe safe_cache_op x Hx; [by intros su; right |]. exact I.
Qed.

Lemma safe_run ck key v first last K : flight_pre o t K (RangeFlight ck key v first last) ->
  safely (fillRangeRun ck key v first last)
    (goodly (fun K l => exists c, version o K ck (oi_ETag (rv_Info v)) c /\ l = piece_at t c <$> offsets t first last)) K.
Proof. intros Hp. unfold fillRangeRun. try_act r Hr. destruct r; try exact I. exact Hr. Qed.

Lemma offsets_lookup first last (i : nat) : first <= last -> 0 < t_rangeSize t ->
  offsets t first last !! i = if decide (Z.of_nat i <= (last - first) / t_rangeSize t) then Some (first + Z.of_nat i * t_rangeSize t) else None.
Proof.
  intros Hl Hr. pose proof (Z.div_pos (last - first) (t_rangeSize t) ltac:(lia) Hr). unfold offsets. rewrite list_lookup_fmap. case_decide as Hi.
  - rewrite lookup_seqZ_lt by lia. cbn. done.
  - rewrite lookup_seqZ_ge by lia. done.
Qed.

(** Chunks that have been read, and those that are right. *)
Record chunks_ok (c : bytes) (offs : list Z) (i : nat) (chunks : list (option bytes)) : Prop := {
  co_length : length chunks = length offs;
  co_read : forall j off b, offs !! j = Some off -> chunks !! j = Some (Some b) -> b = slice c off (off + zlen b);
  co_done : forall j off, (j < i)%nat -> offs !! j = Some off -> chunks !! j = Some (Some (piece_at t c off))
}.

Lemma present_ok c offs i chunks : chunks_ok c offs i chunks -> present t (zlen c) offs chunks i = true -> chunks_ok c offs (S i) chunks.
Proof.
  intros [Hl Hr Hd]. unfold present. destruct (offs !! i) as [off|] eqn:Eo; [| done]. destruct (chunks !! i) as [[b|]|] eqn:Ec; [| done | done]. intros Hlen%Z.eqb_eq.
  split; [done | done |]. intros j off' Hj Hoff. destruct (decide (j = i)) as [->|]; [| by apply Hd; [lia |]]. rewrite Eo in Hoff. injection Hoff as <-.
  rewrite Ec. do 2 f_equal. unfold piece_at. rewrite <- Hlen. by apply (Hr i).
Qed.

Lemma run_end_bounds n size offs chunks i j : (i <= j < length offs)%nat -> (j <= run_end t n size offs chunks i j < length offs)%nat.
Proof.
  revert j. induction n as [|n IH]; intros j Hj; cbn [run_end]; [lia |]. destruct (offs !! i); [| lia]. destruct (offs !! S j) eqn:E; [| lia].
  destruct (_ || _); [lia |]. apply lookup_lt_Some in E. specialize (IH (S j)). lia.
Qed.

Lemma copy_lookup i j (filled : list bytes) chunks k :
  (i <= j < length chunks)%nat -> length filled = (S j - i)%nat ->
  copy_chunks i j filled chunks !! k = if decide (i <= k <= j)%nat then Some <$> filled !! (k - i)%nat else chunks !! k.
Proof.
  intros Hij Hlen. unfold copy_chunks. rewrite Hlen, Nat.min_id, (take_ge filled) by lia. case_decide as Hk.
  - rewrite lookup_app_r, length_take_le by (rewrite ?length_take; lia). rewrite lookup_app_l by (rewrite length_fmap; lia). apply list_lookup_fmap.
  - destruct (decide (k < i)%nat); [rewrite lookup_app_l by (rewrite length_take; lia); by apply lookup_take_lt |].
    rewrite lookup_app_r, length_take_le by (rewrite ?length_take; lia). rewrite lookup_app_r by (rewrite length_fmap; lia).
    rewrite length_fmap, lookup_drop. f_equal. lia.
Qed.

Lemma copy_length i j (filled : list bytes) chunks : (i <= j < length chunks)%nat -> length filled = (S j - i)%nat -> length (copy_chunks i j filled chunks) = length chunks.
Proof. intros Hij Hlen. unfold copy_chunks. rewrite !length_app, length_fmap, !length_take, length_drop. lia. Qed.

Lemma slice_self (c : bytes) a b : slice c a b = slice c a (a + zlen (slice c a b)).
Proof.
  unfold slice, zlen. replace (Z.to_nat (a + Z.of_nat (length (take (Z.to_nat (b - a)) (drop (Z.to_nat a) c))) - a)) with (length (take (Z.to_nat (b - a)) (drop (Z.to_nat a) c))) by lia.
  rewrite length_take. destruct (Nat.le_ge_cases (Z.to_nat (b - a)) (length (drop (Z.to_nat a) c))); [by rewrite Nat.min_l by lia |].
  rewrite Nat.min_r by lia. by rewrite !take_ge by lia.
Qed.

Lemma copy_ok c first stop chunks i j first' last' :
  0 < t_rangeSize t -> first <= stop -> chunks_ok c (offsets t first stop) i chunks -> (i <= j)%nat ->
  offsets t first stop !! i = Some first' -> offsets t first stop !! j = Some last' ->
  chunks_ok c (offsets t first stop) (S j) (copy_chunks i j (piece_at t c <$> offsets t first' last') chunks).
Proof.
  intros Hr Hf [Hl Hread Hd] Hij Hi Hj. pose proof (lookup_lt_Some _ _ _ Hj) as Hjl. rewrite offsets_lookup in Hi, Hj by done.
  case_decide; [| done]. case_decide; [| done]. injection Hi as <-. injection Hj as <-. set (r := t_rangeSize t) in *.
  set (sub := offsets t (first + Z.of_nat i * r) (first + Z.of_nat j * r)).
  assert ((first + Z.of_nat j * r - (first + Z.of_nat i * r)) / r = Z.of_nat j - Z.of_nat i) as Hdiv.
  { replace (first + Z.of_nat j * r - (first + Z.of_nat i * r)) with ((Z.of_nat j - Z.of_nat i) * r) by lia. apply Z.div_mul. lia. }
  assert (length (piece_at t c <$> sub) = S j - i)%nat as Hlen.
  { rewrite length_fmap. unfold sub, offsets. rewrite length_fmap, length_seqZ. fold r. rewrite Hdiv. lia. }
  assert (forall k off, offsets t first stop !! k = Some off -> (i <= k <= j)%nat -> sub !! (k - i)%nat = Some off) as Hsub.
  { intros k off Hk Hik. rewrite offsets_lookup in Hk by done. case_decide; [| done]. injection Hk as <-. unfold sub.
    rewrite offsets_lookup by (try done; nia). fold r. rewrite Hdiv, decide_True by lia. f_equal. rewrite Nat2Z.inj_sub by lia. ring. }
  assert (i <= j < length chunks)%nat as Hb by lia. split.
  - rewrite copy_length; done.
  - intros k off b Hk. rewrite copy_lookup by done. case_decide as Hin; [| by apply (Hread k)].
    rewrite list_lookup_fmap, (Hsub k off Hk Hin). cbn. intros [= <-]. apply slice_self.
  - intros k off Hkj Hk. rewrite copy_lookup by done. case_decide as Hin; [| by apply Hd; [lia |]].
    rewrite list_lookup_fmap, (Hsub k off Hk Hin). done.
Qed.

Lemma chunks_full c offs chunks : chunks_ok c offs (length offs) chunks -> chunks = (fun off => Some (piece_at t c off)) <$> offs.
Proof.
  intros [Hl _ Hd]. apply list_eq. intros i. rewrite list_lookup_fmap. destruct (offs !! i) as [off|] eqn:E.
  - apply Hd; [by eapply lookup_lt_Some | done].
  - apply lookup_ge_None in E. apply lookup_ge_None_2. lia.
Qed.

Lemma safe_missing n ck key v c first stop i chunks hit K :
  plain ck -> 0 < t_rangeSize t -> oi_Size (rv_Info v) = zlen c -> 0 <= first <= stop -> stop < zlen c -> version o K ck (oi_ETag (rv_Info v)) c ->
  chunks_ok c (offsets t first stop) i chunks -> (length (offsets t first stop) <= i + n)%nat ->
  safely (fill_missing t n ck key v (offsets t first stop) i chunks hit)
    (goodly (fun K x => x.1 = (fun off => Some (piece_at t c off)) <$> offsets t first stop)) K.
Proof.
  intros Hp Hr Hs Hf Hstop. revert i chunks hit K. induction n as [|n IH]; intros i chunks hit K Hv Hok Hn; cbn [fill_missing].
  { apply safe_done, chunks_full. destruct Hok as [Hl Hread Hd]. split; [done | done |]. intros j off Hj. apply Hd. lia. }
  destruct (offsets t first stop !! i) as [off|] eqn:Eo.
  2: { apply lookup_ge_None in Eo. apply safe_done, chunks_full. destruct Hok as [Hl Hread Hd]. split; [done | done |]. intros j off Hj. apply Hd. lia. }
  rewrite Hs. destruct (present _ _ _ _ i) eqn:Ep; [apply IH; [done | by apply present_ok | lia] |]. destruct (t_readOnly t); [exact I |].
  pose proof (lookup_lt_Some _ _ _ Eo) as Hi. pose proof (run_end_bounds (length (offsets t first stop)) (zlen c) (offsets t first stop) chunks i i ltac:(lia)) as Hj.
  set (j := run_end _ _ _ _ _ _ _) in *. destruct (lookup_lt_is_Some_2 (offsets t first stop) j ltac:(lia)) as [last El]. rewrite El. cbn [default from_option].
  eapply safe_try; [apply safe_run |].
  - pose proof (offsets_bounds first stop off Hr ltac:(lia) (list_elem_of_lookup_2 _ _ _ Eo)). pose proof (offsets_bounds first stop last Hr ltac:(lia) (list_elem_of_lookup_2 _ _ _ El)).
    rewrite offsets_lookup in Eo, El by lia. case_decide; [| done]. case_decide; [| done]. injection Eo as <-. injection El as <-.
    assert (Z.of_nat i * t_rangeSize t <= Z.of_nat j * t_rangeSize t) by (apply Z.mul_le_mono_nonneg_r; lia).
    split; [done |]. split; [done |]. split; [| exists c; split; [done |]; split; [done |]; unfold id; lia]. unfold id.
    replace (first + Z.of_nat j * t_rangeSize t - (first + Z.of_nat i * t_rangeSize t)) with ((Z.of_nat j - Z.of_nat i) * t_rangeSize t) by lia. apply Z.mod_mul. lia.
  - intros l K1 H1 (c' & Hc' & ->). lift. pose proof (version_unique _ _ _ _ _ _ Hv Hc') as <-. apply IH; [done | | lia]. apply (copy_ok c first stop chunks i j); try done; lia.
Qed.

(** The parts of the chunks are the range. *)
Lemma part_of c off start stop : 0 <= off <= stop -> stop < zlen c -> 0 <= start -> 0 < t_rangeSize t ->
  chunk_part start stop (off, Some (piece_at t c off)) = slice c (Z.max start off) (Z.min (stop + 1) (off + t_rangeSize t)).
Proof.
  intros Ho Hs Hst Hr. unfold chunk_part. cbn [fst snd default from_option id]. rewrite piece_length by lia. unfold piece_at.
  rewrite slice_slice by (unfold rangeChunkLen; lia). f_equal; unfold rangeChunkLen; lia.
Qed.

Lemma parts_of c start stop n : 0 <= start <= stop -> stop < zlen c -> 0 < t_rangeSize t -> let first := start - start mod t_rangeSize t in
  0 <= n <= (stop - first) / t_rangeSize t + 1 ->
  concat ((fun i => chunk_part start stop (first + i * t_rangeSize t, Some (piece_at t c (first + i * t_rangeSize t)))) <$> seqZ 0 n) =
    slice c start (Z.min (stop + 1) (first + n * t_rangeSize t)).
Proof.
  intros Hs Hstop Hr first [Hn Hle]. set (r := t_rangeSize t) in *. pose proof (Z.mod_pos_bound start r Hr).
  assert (0 <= first) as Hf by (pose proof (Z.div_mod start r); pose proof (Z.div_pos start r); subst first; nia).
  revert n Hn Hle. apply (natlike_ind (fun n => n <= (stop - first) / r + 1 -> concat ((fun i => chunk_part start stop (first + i * r, Some (piece_at t c (first + i * r)))) <$> seqZ 0 n) =
    slice c start (Z.min (stop + 1) (first + n * r)))).
  { intros _. cbn. by rewrite slice_nil_ge by lia. }
  intros n Hn IH Hle. assert (first + n * r <= stop) as Hin by (pose proof (Z.mul_div_le (stop - first) r Hr); nia).
  unfold Z.succ in *. rewrite seqZ_app, fmap_app, concat_app, IH by lia. change (seqZ (0 + n) 1) with [0 + (0 + n)]. cbn [fmap list_fmap concat]. rewrite app_nil_r, !Z.add_0_l.
  rewrite part_of by (fold r; nia). fold r. destruct (Z.le_gt_cases start (first + n * r)) as [Hge|Hlt].
  - rewrite Z.max_r, (Z.min_r (stop + 1) (first + n * r)) by lia. rewrite slice_cat by lia. f_equal. lia.
  - rewrite (slice_nil_ge _ start) by lia. cbn. f_equal; lia.
Qed.

Lemma range_assembled c start stop : 0 <= start <= stop -> stop < zlen c -> 0 < t_rangeSize t -> let offs := offsets t (start - start mod t_rangeSize t) stop in
  concat (chunk_part start stop <$> zip offs ((fun off => Some (piece_at t c off)) <$> offs)) = slice c start (stop + 1).
Proof.
  intros Hs Hstop Hr offs. assert (forall l, zip l ((fun off => Some (piece_at t c off)) <$> l) = (fun off => (off, Some (piece_at t c off))) <$> l) as Hzip.
  { intros l. induction l as [|x l IH]; cbn; [done |]. by rewrite IH. }
  rewrite Hzip, <- list_fmap_compose. unfold offs, offsets. rewrite <- list_fmap_compose. set (first := start - start mod t_rangeSize t).
  pose proof (Z.mod_pos_bound start _ Hr). pose proof (Z.div_pos (stop - first) (t_rangeSize t) ltac:(subst first; lia) Hr).
  etrans; [apply (parts_of c start stop ((stop - first) / t_rangeSize t + 1) Hs Hstop Hr); subst first; lia |]. f_equal. fold first.
  pose proof (Z.mul_succ_div_gt (stop - first) (t_rangeSize t) Hr). nia.
Qed.

Lemma slice_empty (c : bytes) a b : zlen c = 0 -> slice c a b = [].
Proof. intros ->%zlen_0_nil. unfold slice. by rewrite drop_nil, take_nil. Qed.

(** ** What reads return *)

(** The body of an object is the range it says it is, of one content of the
    key; of a hit also the size and the entity tag belong to that content. *)
Definition serves (ck : string) (K : know) (x : Object) : Prop :=
  exists body c, to_Body x = Some body /\ content o K ck c /\ carries body (slice c (to_Start x) (to_End x + 1)) /\
    (to_Hit x = true -> oi_Size (to_Info x) = zlen c /\ names o K ck (oi_ETag (to_Info x)) c).

Lemma carries_all l c : concat l = c -> carries (mkStream l true) c.
Proof. intros <-. split; [done |]. exists (zlen (concat l)). unfold st_bytes. cbn. by rewrite slice_full by lia. Qed.

Lemma safe_range ck key v c K :
  plain ck -> 0 < t_rangeSize t -> version o K ck (oi_ETag (rv_Info v)) c -> oi_Size (rv_Info v) = zlen c -> 0 <= rv_start v <= rv_end v -> rv_end v < zlen c ->
  safely (openRange t ck key v) (goodly (serves ck)) K.
Proof.
  intros Hp Hr Hv Hs Hst Hend. unfold openRange. set (first := rv_start v - rv_start v mod t_rangeSize t). set (offs := offsets t first (rv_end v)).
  pose proof (Z.mod_pos_bound (rv_start v) _ Hr) as Hmod. pose proof Hv as (_ & _ & Hmax).
  assert (0 <= first <= rv_end v) as Hf by (subst first; pose proof (Z.div_mod (rv_start v) (t_rangeSize t)); pose proof (Z.div_pos (rv_start v) (t_rangeSize t)); nia).
  assert (forall off, off ∈ offs -> 0 <= off <= max_int64) as Hoffs by (intros off Hoff; apply offsets_bounds in Hoff; [lia | done | lia]).
  try_act chunks Hc.
  { apply Forall_fmap, Forall_forall. intros off Hoff. exists ck, off, (oi_ETag (rv_Info v)). split; [done |]. split; [done |]. by apply Hoffs. }
  destruct Hc as [Hlen Hc]. rewrite length_fmap in Hlen. eapply safe_try; [eapply (safe_missing _ _ _ _ c first (rv_end v)); try done |].
  - split; [done | | lia]. intros j off b Hj Hb. destruct (Hc j (rangeChunkKey ck off (oi_ETag (rv_Info v))) b) as (v' & ck' & off' & c' & Hp' & E & Ho' & Hv' & Hbb & _); [| done |].
    { rewrite list_lookup_fmap. fold offs in Hj. by rewrite Hj. }
    apply rangeChunkKey_inj in E as (<- & <- & <-); [| done | done | by apply Hoffs; eapply list_elem_of_lookup_2 | done].
    by rewrite (version_unique _ _ _ _ _ _ Hv Hv').
  - intros [chunks' hit] K1 H1 Hdone. cbn in Hdone. lift. cbn zeta. subst chunks'. fold first offs.
    pose proof (range_assembled c (rv_start v) (rv_end v) Hst Hend Hr) as Hall. cbn zeta in Hall. fold first offs in Hall. rewrite Hall.
    destruct (negb _); [exact I |]. apply safe_done. eexists _, c. split; [done |]. split; [left; by eexists |]. split; [| by split; [| left]].
    by apply carries_all.
Qed.

Lemma span_bounds rng size span : Resolve rng size = Ok span -> 0 < size -> 0 <= sp_Start span <= sp_End span /\ sp_End span < size.
Proof. unfold Resolve. intros H Hs. revert H. destruct (br_Requested rng); cbn; case_tests; intros [= <-]; cbn; lia. Qed.

Lemma safe_pass ck v a K : 0 <= rv_start v <= rv_end v -> rv_hit v = false -> safely (passThrough ck v a) (goodly (serves ck)) K.
Proof.
  intros Hv Hh. unfold passThrough. take_act r Hr; [lia |]. destruct r as [rc|e]; [| by destruct (IsObjNotFoundErr e)].
  destruct Hr as (v' & c & Hc & Hcar & _). apply safe_done. exists rc, c. split; [done |]. split; [left; by eexists |]. cbn [to_Start to_End to_Hit newObject rv_hit rv_start rv_end].
  rewrite Hh. split; [| done]. by replace (rv_end v + 1) with (rv_start v + (rv_end v - rv_start v + 1)) by lia.
Qed.

Lemma safe_pass_whole ck key rng K : br_Requested rng = false -> safely (passThroughWhole ck key rng) (goodly (serves ck)) K.
Proof.
  intros Hw. unfold passThroughWhole. take_act r Hr. destruct r as [[rc a]|e]; [| by destruct (IsObjNotFoundErr e)].
  destruct Hr as (c & Hv & Hs & Hc). cbn in Hv, Hs, Hc. unfold Resolve. rewrite Hw. cbn [negb]. apply safe_done. exists rc, c. split; [done |].
  split; [left; by eexists |]. cbn. split; [| done]. rewrite slice_full by lia. done.
Qed.

Lemma carries_none : carries empty_body [].
Proof. by apply carries_all. Qed.

Lemma empty_serves ck K c x : content o K ck c -> zlen c = 0 -> to_Body x = Some empty_body ->
  (to_Hit x = true -> oi_Size (to_Info x) = 0 /\ names o K ck (oi_ETag (to_Info x)) c) -> serves ck K x.
Proof.
  intros Hc Hz Hb Hh. exists empty_body, c. split; [done |]. split; [done |]. rewrite slice_empty by done. split; [apply carries_none | by rewrite Hz].
Qed.

Lemma safe_pending ck key rng K : safely (openPending ck key rng) (goodly (serves ck)) K.
Proof.
  unfold openPending. take_act r Hr. destruct r as [a|e]; [| by destruct (IsObjNotFoundErr e)]. destruct Hr as (c & Hv & Hs). cbn zeta.
  destruct (Resolve rng (oa_Size a)) as [span|] eqn:Er; [| exact I]. destruct (Z.eqb_spec (oa_Size a) 0) as [Hz|Hz].
  - apply safe_done. eapply empty_serves; [left; by eexists | lia | done | done].
  - apply safe_pass; [| done]. cbn. pose proof (zlen_nonneg c). apply span_bounds in Er; lia.
Qed.

Lemma response_names K ck (k : Kind) i c : cached o K ck i c -> names o K ck (if bool_decide (k = WriteBack) then oi_ETag i else responseETag i) c.
Proof.
  intros (_ & Hl & Hv). case_bool_decide; [by right |]. unfold responseETag. destruct (IsPending _) eqn:Ep; [by right |]. left. unfold originETag.
  destruct Hv as [Hv|(_ & Hp & _)]; [| congruence]. pose proof Hv as (_ & [Hne _] & _). unfold orValue. by rewrite bool_decide_true.
Qed.

Lemma safe_cached ck k m v c K : cached o K ck (m_Info m) c -> described K m c -> safely (openCached k m v) (goodly (serves ck)) K.
Proof.
  intros Hc Hd. unfold openCached, body_from_meta. unfold try_bind at 1. eapply safe_bind with (R := goodly (fun K x =>
    cached o K ck (m_Info m) c /\ sm_Info x.1 = m_Info m /\ carries x.2 (slice c (sm_Start x.1) (sm_End x.1 + 1)))).
  - take_act now Hn. destruct (negb _); [exact I |]. destruct (Resolve _ _) as [span|] eqn:Er; [| exact I]. try_act b Hb. apply safe_done. split; [done |]. split; [done |].
    pose proof Hc as (Hs & _). change (oi_Size (m_Info m)) with (m_Size m) in Hs. destruct (Hb c Hd Hs) as (b' & Eb & Hcar). unfold range_of in Eb.
    rewrite <- Hs, Er in Eb. by injection Eb as <-.
  - intros [[sm body]|e] K1 H1 Hx; [| exact I]. destruct Hx as (Hc1 & Hi & Hcar). cbn [fst snd] in *. apply safe_done. exists body, c. split; [done |].
    cbn [to_Info to_Start to_End to_Hit newObject rv_Info rv_start rv_end rv_hit oi_Size oi_ETag]. rewrite Hi. split; [by eapply cached_content |]. split; [done |].
    intros _. split; [by destruct Hc1 |]. by apply response_names.
Qed.

Lemma safe_zero ck key res rng skip K : plain ck -> resolved skip ck true K res -> oi_Size (cr_info res) = 0 -> skip && bool_decide (cr_meta res = None) = false ->
  safely (openZero t ck key res rng) (goodly (serves ck)) K.
Proof.
  intros Hp (Hk & Hval & Hnot) Hz Hs. unfold openZero. cbn zeta. destruct (cr_valid res).
  - destruct (Hval eq_refl) as (m & c & _ & Hi & Hc & _). apply safe_done. apply (empty_serves ck K c); [by eapply cached_content | | done |].
    + destruct Hc as (Hc & _). rewrite Hi in Hz. cbn in Hz. lia.
    + intros _. cbn. rewrite Hi in Hz |- *. split; [done |]. cbn. by apply response_names.
  - destruct (Hnot eq_refl Hs) as (c & Hv & Hsz & _). clear Hval Hnot. set (zero := newObject _ _).
    assert (forall K, version o K ck (oi_OriginETag (cr_info res)) c -> serves ck K zero) as Hzero.
    { intros K' Hv'. apply (empty_serves ck K' c); [left; by eexists | lia | done | done]. }
    destruct (t_readOnly t); [by apply safe_done, Hzero |]. use_safe safe_fill r Hr. destruct r as [m|e].
    + destruct Hr as (c' & Hc' & Hd). destruct (Z.eqb_spec (m_Size m) 0) as [Hm|]; [| by apply safe_pending]. apply safe_done.
      apply (empty_serves ck _ c'); [by eapply cached_content | | done | done]. pose proof Hc' as (Hs' & _). unfold m_Size in Hm. lia.
    + destruct (is_busy e); [by apply safe_done, Hzero |]. destruct (is_stale e); [apply safe_pending | exact I].
Qed.

(** The size and the entity tag of one content. *)
Definition heads (ck : string) (K : know) (x : Object) : Prop :=
  exists c, content o K ck c /\ oi_Size (to_Info x) = zlen c /\ names o K ck (oi_ETag (to_Info x)) c.

Lemma safe_Head bucket key K : plain (tier_key bucket key) -> safely (Head t bucket key) (goodly (heads (tier_key bucket key))) K.
Proof.
  intros Hp. unfold Head. cbn zeta. try_safe safe_resolve res Hres. apply safe_done. destruct Hres as (_ & Hval & Hnot). unfold heads.
  cbn [to_Info newObject rv_Info with_type oi_Size oi_ETag]. destruct (cr_valid res).
  - destruct (Hval eq_refl) as (m & c & _ & -> & Hc & _). exists c. split; [by eapply cached_content |]. split; [by destruct Hc |]. by apply response_names.
  - destruct (Hnot eq_refl eq_refl) as (c & Hv & Hs & He & _). exists c. split; [left; by eexists |]. split; [done |]. left. by rewrite He.
Qed.

Lemma safe_after_fill ck m use c K : cached o K ck (m_Info m) c -> described K m c ->
  (forall m k c K, cached o K ck (m_Info m) c -> described K m c -> safely (use m k) (goodly (serves ck)) K) -> safely (after_fill ck m use) (goodly (serves ck)) K.
Proof.
  intros Hc Hd Huse. unfold after_fill. take_act r Hr. destruct r as [wm|e]; [| by eapply Huse]. destruct (IsDeleted _) eqn:E; [exact I |].
  destruct Hr as [Hg|(c' & Hc' & Hd')]; [by apply not_gone in E |]. by eapply Huse.
Qed.

Lemma safe_missing_whole ck key rng K : plain ck -> br_Requested rng = false -> safely (open_missing t ck key rng) (goodly (serves ck)) K.
Proof.
  intros Hp Hw. unfold open_missing. destruct (t_readOnly t); [by apply safe_pass_whole |]. use_safe safe_fill r Hr. destruct r as [m|e].
  - destruct Hr as (c & Hc & Hd). eapply safe_after_fill; [done | done |]. intros m' k' c' K' Hc' Hd'. destruct (Resolve _ _); [by eapply safe_cached | exact I].
  - destruct (_ || _); [apply safe_pending | exact I].
Qed.

Lemma plan_cases valid av size start stop :
  match planCacheRead valid av (t_rangeSize t) (t_readOnly t) size start stop with
  | cacheActionZero => size = 0
  | cacheActionRange => size <> 0 /\ 0 < t_rangeSize t /\ valid = false
  | _ => size <> 0
  end.
Proof.
  unfold planCacheRead. destruct (Z.eqb_spec size 0) as [|Hne]; [done |]. destruct (t_readOnly t && _ && _); [done |].
  destruct ((0 <? t_rangeSize t) && _ && _ && _ && _) eqn:E; [| by destruct (_ || _)]. rewrite !andb_true_iff, Z.ltb_lt, negb_true_iff in E. tauto.
Qed.

Lemma safe_Open bucket key rng K : plain (tier_key bucket key) -> safely (Open t bucket key rng) (goodly (serves (tier_key bucket key))) K.
Proof.
  intros Hp. unfold Open. cbn zeta. set (ck := tier_key bucket key) in *. try_safe safe_resolve res Hres.
  replace (match cr_meta res with None => true | Some _ => false end) with (bool_decide (cr_meta res = None)) by (by destruct (cr_meta res)).
  destruct (negb (br_Requested rng) && _) eqn:Eskip; [apply safe_missing_whole; [done |]; by apply andb_true_iff in Eskip as [?%negb_true_iff _] |].
  destruct (Resolve rng (oi_Size (cr_info res))) as [span|] eqn:Er; [| exact I].
  assert (0 <= oi_Size (cr_info res)) as Hnn.
  { destruct Hres as (_ & Hval & Hnot). destruct (cr_valid res); [destruct (Hval eq_refl) as (m & c & _ & -> & (Hs & _) & _); cbn; rewrite Hs; apply zlen_nonneg |].
    destruct (Hnot eq_refl Eskip) as (c & _ & -> & _). apply zlen_nonneg. }
  set (view := range_view _ _ _ _ _ _ _). pose proof (plan_cases (cr_valid res) (cr_attrsValid res) (oi_Size (cr_info res)) (sp_Start span) (sp_End span)) as Hplan.
  destruct (planCacheRead _ _ _ _ _ _ _).
  - by apply (safe_zero ck key res rng (negb (br_Requested rng))).
  - apply safe_pass; [| done]. apply span_bounds in Er; [cbn; lia | lia].
  - destruct Hplan as (Hnz & Hr & Hvalid). apply span_bounds in Er; [| lia]. destruct Hres as (_ & _ & Hnot). destruct (Hnot Hvalid Eskip) as (c & Hv & Hs & _). clear Hnot.
    eapply safe_bind; [apply (safe_range ck key _ c); [done | done | exact Hv | exact Hs | cbn; lia | cbn; lia] |]. intros r K1 H1 Hx. destruct r as [obj|e]; [exact Hx |].
    destruct (_ || _); [apply safe_pending | exact I].
  - apply span_bounds in Er; [| lia]. destruct (cr_valid res) eqn:Evalid.
    + destruct Hres as (_ & Hval & _). destruct (Hval Evalid) as (m & c & -> & _ & Hc & Hd). by eapply safe_cached, Hd.
    + destruct (t_readOnly t); [apply safe_pass; [cbn; lia | done] |]. clear Hres. use_safe safe_fill r Hr. destruct r as [m|e].
      * destruct (negb (m_Size m =? _)); [apply safe_pending |]. destruct Hr as (c & Hc & Hd). eapply safe_after_fill; [done | done |]. intros; by eapply safe_cached.
      * destruct (is_busy e); [apply safe_pass; [cbn; lia | done] |]. destruct (is_stale e); [apply safe_pending | exact I].
Qed.

End Reads.
