(* ===== verification/TierWrites.v ===== *)
(** * Writes through a tier are safe

    The programs of [Tier.v] that write, in the logic of [TierLogic.v]: what is
    stored under a key is a content of it, a written-back body is uploaded as
    it was accepted, and an upload returns the digest of a body the key has
    had. *)

From stdpp Require Import gmap.
From S2P Require Import Prelude GoStrings Ns Ranges Precond Blocks Pieces Ids Tables Objects CacheTables ObjectSpec Machine ObjectRep ObjectRead Names LateRead Origin Spool Tier TierMachine TierLogic TierKeys TierReads.

(** ** Versions and tokens *)

Lemma pending_token token : IsPending (ParseCacheVersion (CacheVersion_String (PendingCacheVersion token))) = true.
Proof. unfold ParseCacheVersion, CacheVersion_String. cbn [cv_State cv_Token PendingCacheVersion]. by rewrite CutPrefix_app. Qed.

Lemma version_not_pending v : good_version v -> IsPending (ParseCacheVersion v) = false.
Proof.
  intros [_ Hv]. unfold ParseCacheVersion. destruct (CutPrefix v pendingOriginPrefix) as [rest|] eqn:E; [| by destruct (CutPrefix v deletedOriginPrefix)].
  exfalso. apply CutPrefix_Some in E as ->. by vm_compute in Hv.
Qed.

Section Writes.
Context `{M : Mime, T : ErrorText, D : Digests} (o : origin) (t : Tier).
Context (Hrange : 0 <= t_rangeSize t <= maxRangeChunk).

Abbreviation safely := (safe o t).
Abbreviation anything := (goodly (fun _ _ => True)).

(** ** Tombstones and locks *)

Lemma safe_tombstone k ck expires locked K : k = WriteBack \/ k = Cache /\ plain ck -> safely (tombstone k ck expires locked) anything K.
Proof. intros Hk. unfold tombstone. take_act now Hn. apply (safe_act o t); [by split |]. by intros [m|e] K' _ _. Qed.

Lemma safe_fence ck K : plain ck -> safely (fenceReadCache ck) anything K.
Proof. intros Hp. unfold fenceReadCache. take_act now Hn. apply safe_tombstone. by right. Qed.

Lemma safe_lockWrite {A} ck validate (body : call A) (P : know -> A -> Prop) K :
  stable P -> (forall K', kle K K' -> safely body (goodly P) K') -> safely (lockWrite ck validate body) (goodly P) K.
Proof.
  intros HP Hb. unfold lockWrite. cbn zeta. eapply safe_try; [by apply (safe_act o t) with (Q := anything); [| intros [x|e]] |]. intros _ K1 H1 _.
  assert (stable (goodly P)) as HQ by (intros K2 K3 [x|e] H2; [by apply HP | done]).
  assert (forall p : call A, (forall K', kle K1 K' -> safely p (goodly P) K') -> forall l, safely (r ← p; act (Unlock l);; mret r) (goodly P) K1) as Hafter.
  { intros p Hp l. eapply safe_bind; [apply Hp, kle_refl |]. intros r K2 H2 Hr. eapply safe_bind; [by apply safe_action |]. intros u K3 H3 _. apply safe_ret. by eapply HQ. }
  apply Hafter. intros K2 H2. eapply safe_try.
  { instantiate (1 := fun _ _ => True). destruct validate; [| done]. by apply (safe_act o t); [| intros [x|e]]. }
  intros _ K3 H3 _. eapply safe_try; [by apply (safe_act o t) with (Q := anything); [| intros [x|e]] |]. intros _ K4 H4 _.
  eapply safe_bind; [apply Hb; do 3 (eapply kle_trans; [eassumption |]); eassumption |]. intros r K5 H5 Hr. eapply safe_bind; [by apply safe_action |]. intros u K6 H6 _.
  apply safe_ret. by eapply HQ.
Qed.

Lemma safe_precondition ck p K : plain ck -> safely (resolvePrecondition ck p) anything K.
Proof.
  intros Hp. unfold resolvePrecondition. destruct (pc_Mode p) eqn:Em; [done | | |]; try_safe safe_current x Hx; destruct x as [m|]; try done;
    repeat match goal with |- safe _ _ (if ?b then _ else _) _ _ => destruct b end; done.
Qed.

(** ** Uploads *)

(** The metadata of an upload are those of its body, which is a version of the
    origin or is owed to it. *)
Definition uploads (ck : string) (body : source) (K : know) (m : Meta) : Prop :=
  st_ok body = true /\ m_Size m = zlen (st_bytes body) /\ oi_ETag (m_Info m) = hexEncode (md5 (st_bytes body)) /\
  (version o K ck (oi_OriginETag (m_Info m)) (st_bytes body) \/ owed o K (oi_OriginETag (m_Info m)) ck (st_bytes body)).

Lemma uploads_stable ck body : stable (uploads ck body).
Proof. intros K K' m HK (? & ? & ? & [?|?]); repeat (split; [done |]); [left; by eapply version_up | right; by eapply owed_up]. Qed.

Lemma safe_upload_locked ck sp opts body K :
  plain ck -> st_ok body = true -> asked_for o K ck (st_bytes body) -> sp_body sp = st_bytes body -> (forall d, sp_data sp = Some d -> d = st_bytes body) ->
  safely (upload_locked t ck sp opts) (goodly (uploads ck body)) K.
Proof.
  intros Hp Hok Has Hb Hd. unfold upload_locked. cbn zeta. try_safe safe_precondition pc Hpc. clear Hpc. rewrite <- Hb in Hd, Has.
  destruct (_ && _ && _).
  - eapply safe_bind; [apply (safe_ghost o t (Some (ck, sp_body sp))) with (Q := fun K rid => owed o K (CacheVersion_String (PendingCacheVersion ("write-" +:+ rid))) ck (sp_body sp)); [done | done |]; by intros rid K1 _ Ho |].
    intros rid K1 H1 Ho. cbn beta in Ho. renew K1. use_safe safe_store r Hr. destruct r as [m|e]; [| exact I]. destruct Hr as (Hs & He & Hv & _). rewrite Hb in Hs, He, Ho.
    use_safe safe_fence r Hr. apply safe_done. split; [done |]. split; [done |]. split; [done |]. right. by rewrite Hv.
  - take_act r Hr. destruct r as [a|e]; [| by destruct e as [| | | | | | | | | | | | |]; try exact I; destruct e].
    cbn [good] in Hr. use_safe safe_store r Hm. assert (goodly (uploads ck body) K r) as Hu.
    { destruct r as [m|e]; [| done]. destruct Hm as (Hs & He & Hv & _). rewrite Hb in Hs, He, Hr. split; [done |]. split; [done |]. split; [done |]. left. by rewrite Hv. }
    eapply safe_bind; [by apply safe_fence |]. intros r1 K1 H1 _. eapply safe_bind; [by apply safe_cache_op; right |]. intros r2 K2 H2 _.
    apply safe_ret. destruct r as [m|e]; [| done]. eapply uploads_stable; [| exact Hu]. by eapply kle_trans.
Qed.

Lemma safe_Upload bucket key body opts K : plain (tier_key bucket key) -> (st_ok body = true -> asked_for o K (tier_key bucket key) (st_bytes body)) ->
  safely (UploadWithOptions t bucket key body opts) (goodly (uploads (tier_key bucket key) body)) K.
Proof.
  intros Hp Has. unfold UploadWithOptions. destruct (requireWrite t); [| exact I]. cbn zeta. eapply safe_try; [by apply (safe_act o t) with (Q := anything); [| intros [x|e]] |].
  intros _ K0 H0 _. eapply safe_bind; [by apply safe_action |]. intros r K1 H1 Hr. cbn in r. destruct r as [[sp reserved]|e].
  2: { destruct e as [|e| | | | | | | | | | | |]; try exact I. destruct e; try exact I. by destruct (IsObjNotFoundErr _). }
  destruct Hr as (Hok & Hb & Hd). cbn [fst] in *. specialize (Has Hok). renew K1.
  eapply safe_bind; [apply safe_lockWrite; [apply (uploads_stable (tier_key bucket key) body) | intros K' HK'; apply safe_upload_locked; try done; by eapply asked_up] |].
  intros r K1 H1 Hr. eapply safe_bind; [by apply safe_action |]. intros r2 K2 H2 _. apply safe_ret. destruct r as [m|e]; [| done]. by eapply uploads_stable.
Qed.

(** A copy is of a range of a content of its source. *)
Lemma safe_Copy tid me sb sk db dk opts K : Start tid me (JCopy sb sk db dk opts) ∈ kn_log K -> plain (tier_key sb sk) -> plain (tier_key db dk) ->
  safely (Copy t sb sk db dk opts) (goodly (fun K m => exists c start stop, content o K (tier_key sb sk) c /\
    m_Size m = zlen (slice c start stop) /\ oi_ETag (m_Info m) = hexEncode (md5 (slice c start stop)) /\ content o K (tier_key db dk) (slice c start stop))) K.
Proof.
  intros Hin Hs Hd. unfold Copy. destruct (requireWrite t); [| exact I]. eapply safe_try; [by apply (safe_act o t) with (Q := anything); [| intros [x|e]] |].
  intros _ K0 H0 _. eapply safe_try; [by apply safe_Open |]. intros src K1 H1 Hsrc. assert (kn_log K ⊆ kn_log K1) as Hl by (etrans; [apply H0 | apply H1]). apply Hl in Hin.
  clear K K0 H0 H1 Hl. rename K1 into K. destruct (negb _); [exact I |].
  destruct Hsrc as (body & c & -> & Hc & [Hcar _] & _). destruct (if co_ReplaceMetadata opts then _ else _) as [[meta ct] encoding]. change (default empty_body (Some body)) with body.
  eapply safe_impl; [| apply safe_Upload; [exact Hd |]; intros Hok; rewrite Hcar by done; eapply sent_copy; [exact Hin | by apply content_asked]]. intros K1 [m|e] H1; [| done]. intros (Hok & Hsz & He & Hcd). rewrite Hcar in Hsz, He, Hcd by done. assert (content o K1 (tier_key db dk) (slice c (to_Start src) (to_End src + 1))) as Hcont by (destruct Hcd; [left | right]; by eexists).
  exists c, (to_Start src), (to_End src + 1). split; [by eapply content_up |]. by repeat (split; [done |]).
Qed.

(** ** Deletions *)

Lemma safe_delete_cached ck K : plain ck -> safely (delete_cached t ck) anything K.
Proof.
  intros Hp. unfold delete_cached. take_act now Hn. try_safe safe_tombstone m Hm; [by left |]. try_safe safe_fence m' Hm'. use_safe safe_cache_op r Hr; [by intros su; right |]. done.
Qed.

Lemma safe_Delete bucket key K : plain (tier_key bucket key) -> safely (Delete t bucket key) anything K.
Proof.
  intros Hp. unfold Delete. destruct (requireWrite t); [| exact I]. cbn zeta. apply safe_lockWrite; [done |]. intros K1 _. take_act r Hr.
  destruct r as [u|e]; [by apply safe_delete_cached |]. destruct (IsObjNotFoundErr e); [by apply safe_delete_cached | exact I].
Qed.

Lemma safe_check_keys cks K : safely (check_keys cks) (fun _ l => length l = length cks) K.
Proof.
  revert K. induction cks as [|ck cks IH]; intros K; [done |]. cbn [check_keys]. take_act r Hr. eapply safe_bind; [apply IH |]. intros l K1 _ Hl. apply safe_ret. cbn. by rewrite Hl.
Qed.

Lemma safe_lock_shards l K : safely (lock_shards l) (fun _ _ => True) K.
Proof. revert K. induction l as [|i l IH]; intros K; [done |]. cbn [lock_shards]. take_act r Hr. apply IH. Qed.

Lemma safe_unlock_shards l K : safely (unlock_shards l) (fun _ _ => True) K.
Proof. revert K. induction l as [|i l IH]; intros K; [done |]. cbn [unlock_shards]. take_act r Hr. apply IH. Qed.

Lemma safe_delete_one ck expires r K : plain ck -> safely (delete_one ck expires r) (fun _ _ => True) K.
Proof.
  intros Hp. unfold delete_one. destruct (match r with Ok _ => _ | Err _ => _ end); [| done]. use_safe safe_tombstone x Hx; [by left |]. destruct x as [m|e]; [| done].
  use_safe safe_fence y Hy. destruct y as [m'|e]; [| done]. use_safe safe_cache_op z Hz; [by intros su; right |]. done.
Qed.

Lemma safe_delete_all cks expires rs K : Forall plain cks -> safely (delete_all cks expires rs) (fun _ _ => True) K.
Proof.
  intros Hp. revert rs K. induction Hp as [|ck cks Hp _ IH]; intros rs K; [done |]. cbn [delete_all]. use_safe safe_delete_one r Hr. use_safe IH r' Hr'. done.
Qed.

Lemma accepted_in cks checks : accepted cks checks ⊆ cks.
Proof.
  intros ck (x & -> & Hx)%list_elem_of_fmap. apply list_elem_of_filter in Hx as [_ Hx]. destruct x as [a b]. by eapply elem_of_zip_l.
Qed.

Lemma safe_DeleteMany bucket keys K : Forall (fun key => plain (tier_key bucket key)) keys -> safely (DeleteMany t bucket keys) (fun _ _ => True) K.
Proof.
  intros Hp. unfold DeleteMany. destruct keys as [|key keys]; [done |]. destruct (requireWrite t); [| done]. cbn zeta. revert Hp. generalize (key :: keys). clear key keys.
  intros keys Hp. use_safe safe_check_keys checks Hchecks. destruct (bool_decide _); [done |]. use_safe safe_lock_shards r1 H1. take_act rs H2. take_act now H3.
  assert (Forall plain (accepted (tier_key bucket <$> keys) checks)) as Hacc.
  { apply Forall_forall. intros ck Hck%accepted_in. apply list_elem_of_fmap in Hck as (key & -> & Hkey). rewrite Forall_forall in Hp. by apply Hp. }
  use_safe safe_delete_all es H4. use_safe safe_unlock_shards r5 H5. done.
Qed.

(** ** Uploading what is owed *)

Lemma range_whole c : range_of c WholeObjectRange = Some c.
Proof. unfold range_of, Resolve. cbn. f_equal. apply slice_full. lia. Qed.

(** A row that is found, with its body. *)
Definition whole (ck : string) (K : know) (x : Meta * source) : Prop := gone (m_Info x.1) \/ exists c, cached o K ck (m_Info x.1) c /\ carries x.2 c.

Lemma safe_attempt ck K :
  safely (let! m := act (GetMeta WriteBack ck) in r ← act (GetBody WriteBack m WholeObjectRange); done (m, r))
    (goodly (fun K x => forall b, x.2 = Ok b -> whole ck K (x.1, b))) K.
Proof.
  try_act m Hm. destruct Hm as [Hg|(c & Hc & Hd)]; take_act r Hr; apply safe_done; cbn [fst snd]; intros b ->; [by left |]. right. exists c. split; [done |].
  destruct (Hr c Hd) as (b' & Hb & Hcar); [by destruct Hc |]. rewrite range_whole in Hb. by injection Hb as <-.
Qed.

Lemma safe_get_whole ck K : safely (get_whole WriteBack ck) (goodly (whole ck)) K.
Proof.
  unfold get_whole. cbn zeta. try_safe safe_attempt x Hx. destruct x as [m [b|e]]; [by apply safe_done, Hx |]. assert (safely (
    let! (m, r) := let! m := act (GetMeta WriteBack ck) in r ← act (GetBody WriteBack m WholeObjectRange); done (m, r) in
    match r with Ok body => done (m, body) | Err e => raise e end) (goodly (whole ck)) K) as Hagain.
  { clear Hx. try_safe safe_attempt x Hx. destruct x as [m' [b|e']]; [by apply safe_done, Hx | exact I]. }
  by destruct e.
Qed.

Lemma safe_flush_failed p owner permanent e K : safely (flush_failed p owner permanent e) anything K.
Proof. unfold flush_failed. use_safe safe_cache_op r Hr; [by intros su; right | exact I]. Qed.

Lemma safe_flush_upload p owner m body c K : owed o K (pd_Token p) (pd_Key p) c -> m_Size m = zlen c -> carries body c ->
  safely (flush_upload t p owner m body) anything K.
Proof.
  intros Ho Hs [Hc _]. unfold flush_upload. eapply safe_bind with (R := goodly (fun K a => version o K (pd_Key p) (versionFor a) c)).
  - destruct (st_ok body); [| exact I]. rewrite Hc by done. apply (safe_act o t); [split; [exact Hs | apply Ho] |]. by intros [a|e] K1 _.
  - intros r K1 H1 Hr. destruct r as [a|e].
    + cbn in Hr. renew K1. take_act now Hn. eapply safe_bind; [apply safe_cache_op; intros su; split; [done | by exists c] |]. intros r K1 H1 _.
      destruct r as [[| | |[]| | | | |]|e]; try exact I. apply safe_flush_failed.
    + destruct e as [|[]| | | | | | | | | | | |]; try apply safe_flush_failed. use_safe safe_cache_op r Hr'; [by intros su; left |]. use_safe safe_op r' Hr''. exact I.
Qed.

Lemma safe_flush p owner K : IsPending (ParseCacheVersion (pd_Token p)) = true -> safely (flushOneNoLock t p owner) anything K.
Proof.
  intros Hp. unfold flushOneNoLock. use_safe safe_get_whole r Hr. destruct r as [[m body]|e].
  - destruct (bool_decide _) eqn:E; [use_safe safe_cache_op r Hr'; [by intros su; right | exact I] |]. apply bool_decide_eq_false, dec_stable in E.
    destruct Hr as [Hg|(c & (Hs & _ & Hv) & Hcar)]; cbn [fst snd] in *.
    + exfalso. unfold gone, IsDeleted in Hg. unfold IsPending in Hp. rewrite E in Hg. by destruct (cv_State _).
    + rewrite E in Hv. destruct Hv as [(_ & Hv & _)|Hv]; [by rewrite version_not_pending in Hp |]. by apply (safe_flush_upload _ _ _ _ c).
  - destruct e as [[]| | | | | | | | | | | | |]; try exact I. apply safe_flush_failed.
Qed.

Lemma safe_round owner K : safely (pending_round t owner) anything K.
Proof.
  unfold pending_round. take_act entered He. destruct (negb entered); [exact I |]. try_act r Hr; [by intros su; right |].
  destruct r as [| | | | | | |[|p l]|]; try exact I. specialize (Hr _ eq_refl). apply Forall_cons in Hr as [Hp _].
  eapply safe_try with (R := fun _ _ => True); [| by intros]. apply safe_lockWrite; [done |]. intros K1 _. by apply safe_flush.
Qed.

(** ** Multipart uploads *)

Lemma safe_writing {A} (body : call A) P K : safely body (goodly P) K -> safely (writing t body) (goodly P) K.
Proof. unfold writing. by destruct (requireWrite t). Qed.

Lemma safe_run_any op k K : (forall su, op_ok o K k su (op su)) -> safely (act (Run k op)) anything K.
Proof. intros H. apply (safe_act o t); [exact H |]. by intros [r|e] K1 _ _. Qed.

Lemma safe_Create bucket key opts K : safely (CreateUpload t bucket key opts) anything K.
Proof. apply safe_writing. eapply safe_try; [by apply safe_run_any |]. intros r K1 _ _. by destruct r. Qed.

Lemma safe_Part tid me id bucket key no srcs cs expected K :
  Start tid me (JPart id bucket key no srcs cs expected) ∈ kn_log K -> safely (UploadPart t id bucket key no srcs cs expected) anything K.
Proof.
  intros Hin. apply safe_writing, safe_run_any. intros su. split; [done |]. by exists tid, me, bucket, key, no, srcs, cs, expected.
Qed.

Lemma safe_Abort id bucket key K : safely (AbortUpload t id bucket key) anything K.
Proof. unfold AbortUpload. destruct (t_readOnly t); [exact I |]. eapply safe_try; [by apply safe_op |]. intros r K1 _ _. by destruct r. Qed.

Lemma safe_complete_pending ck id listed opts p K : completes K ck id -> plain ck -> safely (complete_pending ck id listed opts p) anything K.
Proof.
  intros Hc Hp. unfold complete_pending. eapply safe_try; [by apply safe_op |]. intros r K1 _ _. destruct r; try exact I. use_safe safe_fence x Hx. done.
Qed.

Lemma safe_complete_direct ck key id listed opts expires K : completes K ck id -> plain ck -> safely (complete_direct t ck key id listed opts expires) anything K.
Proof.
  intros Hcp Hp. unfold complete_direct. take_act e1 H1. destruct (negb e1); [exact I |]. take_act e2 H2. destruct (negb e2); [exact I |]. take_act r Hr.
  eapply safe_try with (R := fun _ _ => True).
  { destruct r as [a|e]; [exact I |]. destruct (IsObjNotFoundErr e) eqn:E; destruct e as [[]| | | | | | | | | | | | |]; try exact I; done. }
  intros base K1 H3 _. renew K1. try_safe safe_precondition pc Hpc. destruct (negb _); [exact I |]. try_safe safe_complete_pending c Hc. cbn zeta.
  use_safe safe_flush f Hf; [apply pending_token |]. destruct f as [etag|e]; [by destruct (bool_decide _) |]. destruct (is_precondition e); [| exact I].
  use_safe safe_op d Hd. exact I.
Qed.

Lemma safe_Complete id bucket key listed opts K : completes K (tier_key bucket key) id -> plain (tier_key bucket key) -> safely (CompleteUpload t id bucket key listed opts) anything K.
Proof.
  intros Hcp Hp. apply safe_writing. cbn zeta. try_act u Hu. take_act now Hn. apply safe_lockWrite; [done |]. intros K1 H1. apply (completes_up _ _ _ _ H1) in Hcp.
  destruct (_ && _); [| by apply safe_complete_direct]. try_safe safe_complete_pending c Hc. done.
Qed.

End Writes.
