(* ===== verification/TierFits.v ===== *)
(** * What the caches of a tier hold

    The rows of the two namespaces of a tier in terms of the knowledge of
    [TierLogic.v]: each shows a tombstone, a version of the origin with its
    content, the body of an upload that is owed, or a chunk of a version; and
    every operation the programs of a tier ask for, and every operation of the
    maintenance, leaves it so. *)

From stdpp Require Import gmap sorting.
From S2P Require Import Prelude GoStrings Ns Ranges Precond Blocks Ids Tables Objects CacheTables Multipart ObjectSpec CacheSpec Machine ObjectStore Names CacheValues Outbox Origin Spool Tier TierMachine TierLogic TierKeys TierReads TierWrites.

(** The token of an upload that is completed, or of a body written back. *)
Definition token_of (id : string) : string := CacheVersion_String (PendingCacheVersion id).

Section Fits.
Context `{D : Digests} (o : origin).

(** ** Rows *)

Definition held (K : know) (k : Kind) (key : string) (v : option string) (b : bytes) : Prop :=
  exists w, v = Some w /\
    (IsDeleted (ParseCacheVersion w) = true /\ (k = Cache -> plain key) \/
     k = WriteBack /\ (version o K key w b \/ owed o K w key b) \/
     k = Cache /\ (plain key /\ version o K key w b \/ chunk o K key w b)).

Definition remembered (K : know) (key : string) (i : ObjectInfo) : Prop :=
  oi_ETag i = oi_OriginETag i /\ exists c, version o K key (oi_OriginETag i) c /\ oi_Size i = zlen c.

Record fits (K : know) (ids : gset string) (k : Kind) (a : spec) : Prop := {
  ft_rows : forall key e, s_objects a !! key = Some e -> held K k key (at_origin_etag (en_attrs e)) (en_body e);
  ft_pending : forall key p, s_pending a !! key = Some p -> is_pending (pu_token p) = true;
  ft_origin : k = Cache -> forall key r, s_origin_metadata a !! key = Some r -> remembered K key (om_info r);
  ft_uploads : k = WriteBack -> forall i u, s_uploads a !! i = Some u -> i ∈ ids /\ kn_owed K !! token_of i = None;
  ft_parts : k = WriteBack -> forall i no q, s_parts a !! (i, no) = Some q -> sent_part (kn_log K) i (ObjectSpec.sp_body q)
}.

Lemma held_up K K' k key v b : kle K K' -> held K k key v b -> held K' k key v b.
Proof.
  intros HK (w & -> & H). exists w. split; [done |]. destruct H as [H|[(Hk & H)|(Hk & H)]]; [by left | right; left | right; right]; (split; [done |]).
  - destruct H; [left; by eapply version_up | right; by eapply owed_up].
  - destruct H as [[? ?]|?]; [left; split; [done | by eapply version_up] | right; by eapply chunk_up].
Qed.

Lemma remembered_up K K' key i : kle K K' -> remembered K key i -> remembered K' key i.
Proof. intros HK (He & c & Hv & Hs). split; [done |]. exists c. split; [by eapply version_up | done]. Qed.

Lemma fits_up K K' ids ids' k a :
  kle K K' -> ids ⊆ ids' -> (k = WriteBack -> forall i u, s_uploads a !! i = Some u -> kn_owed K' !! token_of i = None) -> fits K ids k a -> fits K' ids' k a.
Proof.
  intros HK Hids Hup [Hr Hp Ho Hu Hpt]. split; [| done | | |].
  - intros key e He. by eapply held_up, Hr.
  - intros Hk key r Hm. by eapply remembered_up, Ho.
  - intros Hk i u Hi. split; [| by eapply Hup]. destruct (Hu Hk i u Hi). set_solver.
  - intros Hk i no q Hq. eapply sent_part_up; [apply HK | by eapply Hpt].
Qed.

(** The other namespace of a name sees the pending uploads change. *)
Lemma fits_pending K ids k a m : fits K ids k a -> (forall key p, m !! key = Some p -> is_pending (pu_token p) = true) -> fits K ids k (sset_pending a m).
Proof. intros [Hr Hp Ho Hu Hpt] Hm. by split. Qed.

(** ** Steps that add nothing *)

Record thin (a a' : spec) : Prop := {
  th_rows : forall key e', s_objects a' !! key = Some e' ->
    exists e, s_objects a !! key = Some e /\ at_origin_etag (en_attrs e') = at_origin_etag (en_attrs e) /\ en_body e' = en_body e;
  th_pending : forall key v, queued (s_pending a') key v -> queued (s_pending a) key v;
  th_origin : forall key r, s_origin_metadata a' !! key = Some r -> s_origin_metadata a !! key = Some r;
  th_uploads : forall i u, s_uploads a' !! i = Some u -> s_uploads a !! i = Some u;
  th_parts : forall i q, s_parts a' !! i = Some q -> s_parts a !! i = Some q
}.

Lemma thin_refl a : thin a a.
Proof. by split; eauto. Qed.

#[local] Hint Resolve thin_refl : core.

Lemma thin_trans a b c : thin a b -> thin b c -> thin a c.
Proof.
  intros [R1 P1 O1 U1 Q1] [R2 P2 O2 U2 Q2]. split; eauto. intros key e' He'. destruct (R2 key e' He') as (e & He & Hv & Hb).
  destruct (R1 key e He) as (e0 & He0 & Hv0 & Hb0). exists e0. split; [done |]. split; congruence.
Qed.

Lemma thin_fits K ids k a a' : thin a a' -> fits K ids k a -> fits K ids k a'.
Proof.
  intros [R P O U Q] [Hr Hp Ho Hu Hpt]. split; [| | eauto..].
  - intros key e' He'. destruct (R key e' He') as (e & He & -> & ->). by apply Hr.
  - intros key p Hk. assert (queued (s_pending a) key (pu_token p)) as Hq by (apply P; unfold queued; by rewrite Hk).
    unfold queued in Hq. destruct (s_pending a !! key) as [q|] eqn:E; [| done]. injection Hq as <-. by apply (Hp key).
Qed.

Lemma thin_same a a' :
  s_objects a' = s_objects a -> s_pending a' = s_pending a -> s_origin_metadata a' = s_origin_metadata a -> s_uploads a' = s_uploads a -> s_parts a' = s_parts a ->
  thin a a'.
Proof. intros E1 E2 E3 E4 E5. split; rewrite ?E1, ?E2, ?E3, ?E4, ?E5; eauto. Qed.

Lemma thin_delete keys a : thin a (spec_delete keys a).
Proof. split; try done. intros key e [He _]%map_lookup_filter_Some. eauto. Qed.

Lemma thin_alter f key a : (forall t, at_origin_etag (f t) = at_origin_etag t) -> thin a (spec_alter f key a).
Proof.
  intros Hf. split; try done. intros key' e' He'. cbn in He'. apply lookup_alter_Some in He' as [(<- & e & He & ->)|[_ He']]; [| by eauto].
  exists e. split; [done |]. split; [apply Hf | done].
Qed.

Lemma thin_pending a m : (forall key v, queued m key v -> queued (s_pending a) key v) -> thin a (sset_pending a m).
Proof. intros Hm. split; eauto. Qed.

Lemma thin_tokens a m : tokens m = tokens (s_pending a) -> thin a (sset_pending a m).
Proof. intros E. by apply thin_pending, tokens_queued. Qed.

Lemma thin_delete_upload id a : thin a (spec_delete_upload id a).
Proof. split; eauto; cbn; [by intros i u [_ Hu]%lookup_delete_Some |]. by intros i q [Hq _]%map_lookup_filter_Some. Qed.

Lemma thin_origin a m : (forall key r, m !! key = Some r -> s_origin_metadata a !! key = Some r) -> thin a (sset_origin a m).
Proof. intros Hm. split; eauto. Qed.

Abbreviation thinly a := (ends (fun _ => thin a)).

Lemma thinly_bind {A B} a (c : stx A) (f : A -> stx B) : thinly a (c a) -> (forall x a', thinly a' (f x a')) -> thinly a ((c ≫= f) a).
Proof.
  intros Hc Hf. eapply ends_bind; [exact Hc |]. intros x a' Ha'. specialize (Hf x a'). destruct (f x a') as [[]|]; [| done]. exact (thin_trans _ _ _ Ha' Hf).
Qed.

Lemma thinly_reply {A} (f : A -> reply) (c : stx A) a : thinly a (c a) -> thinly a (reply_of f c a).
Proof. intros Hc. apply thinly_bind; [done |]. intros x a'. apply thin_refl. Qed.

Lemma thin_expire_loop n now grace locked removed a : thin a (spec_expire_loop now n grace locked removed a).2.
Proof.
  revert removed a. induction n as [|n IH]; intros removed a; cbn [spec_expire_loop]; [apply thin_refl |].
  destruct (victim_upload _ _ _ _); [| apply thin_refl]. eapply thin_trans; [apply thin_delete_upload | apply IH].
Qed.

Lemma thin_touch now retention keys a : thin a (fold_left (fun a key => spec_alter (touch_attrs now retention) key a) keys a).
Proof.
  revert a. induction keys as [|key keys IH]; intros a; cbn [fold_left]; [apply thin_refl |]. eapply thin_trans; [| apply IH].
  apply thin_alter. intros t. unfold touch_attrs. by destruct (at_expires_at t).
Qed.

Lemma drop_token_fewer key token m key' v : queued (drop_token key token m) key' v -> queued m key' v.
Proof.
  unfold drop_token. destruct (holds_token _ _ _); [| done]. unfold queued. destruct (decide (key = key')) as [->|Hne]; [by rewrite lookup_delete_eq | by rewrite lookup_delete_ne].
Qed.

(** The operations that add nothing. *)
Definition thin_op (op : Operation) : bool :=
  match op with
  | AbortOp _ _ | DeleteOp _ | EvictOp _ _ _ | ExpireObjectsOp _ _ | ExpireUploadsOp _ _ _ | ReapOp _ _ _ _ | ReorderOp _ => true
  | CacheOp (DeleteExpectedOp _ _ | TouchOp _ _ | TouchObjectOp _ _ | AcquireOp _ _ _ | ReleaseOp _ _ | RenewOp _ _ | CleanupOp | ClaimOp _ _ _ _ |
             AbandonOp _ _ | FailOp _ _ _ _ _ _ | RetryDeadOp | ClearOp _ | ClearTokenOp _ _ | ForgetOp _ _ | RetireOp _ _) => true
  | _ => false
  end.

Lemma thinly_cache c b op a : thin_op (CacheOp op) = true -> thinly a (cache_spec c b op a).
Proof.
  intros Ho. destruct op; try discriminate Ho; apply thinly_reply.
  - unfold spec_delete_expected. apply ends_tables. destruct (attrs_where _ _ _); [apply (thin_delete [key]) | apply thin_refl].
  - apply thin_touch.
  - unfold spec_acquire. apply ends_tables. destruct (acquire_lease _ _ _ _ _). by apply thin_same.
  - by apply thin_same.
  - unfold spec_renew. apply ends_tables. destruct (renew_lease _ _ _ _). by apply thin_same.
  - by apply thin_same.
  - unfold spec_claim. apply ends_tables. pose proof (tokens_claim (cx_now c) owner limit lease locked (s_pending a)) as H.
    destruct (claim_uploads _ _ _ _ _ _) as [l m]. by apply thin_tokens.
  - unfold spec_abandon. apply ends_tables. apply (thinly_bind a); [destruct (attrs_where _ _ _); [apply (thin_delete [key]) | apply thin_refl] |].
    intros [] a'. apply thin_pending. apply drop_token_fewer.
  - unfold spec_fail. apply ends_tables. destruct (fail_pending _ _ _ _ _ _ _ _) eqn:E; [| done]. apply thin_tokens. by eapply tokens_fail.
  - apply thin_tokens, tokens_revived.
  - apply thin_pending. intros key' v. unfold queued. destruct (decide (key = key')) as [->|Hne]; [by rewrite lookup_delete_eq | by rewrite lookup_delete_ne].
  - apply thin_pending, drop_token_fewer.
  - apply thin_origin. intros key' r. unfold forget. destruct (s_origin_metadata a !! key) as [r0|]; [| done]. destruct (bool_decide _); [| done].
    by intros [_ ?]%lookup_delete_Some.
  - unfold spec_retire. destruct observed; [| done]. apply ends_require. intros _. apply ends_tables.
    destruct (attrs_where _ _ _); [apply (thin_delete [key]) | apply thin_refl].
  - by apply (thin_alter (touched_object (cx_now c) retention)).
Qed.

Lemma thinly_op c b specs op : thin_op op = true -> thinly (specs (cx_ns c)) (spec_tx c b specs op (specs (cx_ns c))).
Proof.
  intros Ho. set (a := specs (cx_ns c)). destruct op; try discriminate Ho; cbn [spec_tx]; try (apply thinly_reply).
  - unfold spec_abort. apply ends_tables. destruct (s_uploads _ !! id) as [u|]; [| apply thin_refl]. destruct (bool_decide _); [apply thin_delete_upload | apply thin_refl].
  - unfold spec_delete_many. destruct keys; [apply thin_refl | apply (thin_delete (_ :: _))].
  - apply thin_delete.
  - unfold spec_expire_objects. apply ends_tables. apply ends_update. eapply thin_trans; [| apply thin_delete]. apply thin_origin. by intros key r [? _]%map_lookup_filter_Some.
  - unfold spec_expire_uploads. pose proof (thin_expire_loop (Z.to_nat p_max) (cx_now c) grace locked 0 a) as H. destruct (spec_expire_loop _ _ _ _ _ _). exact H.
  - apply thin_refl.
  - apply thin_refl.
  - by apply thinly_cache.
Qed.

Lemma thin_sibling op x (a : spec) : op <> CacheOp FlushOp -> thin a (commit (sibling_spec op x) a).2.
Proof.
  intros Hf. destruct op as [| | | | | | | | | | | | | | |[]]; try apply thin_refl; [done |]. destruct x as [| | |[]| | | | |]; try apply thin_refl. cbn.
  eapply thin_trans; [| apply (thin_delete [key])]. eapply thin_trans; [| apply thin_origin; cbn; intros key' r [_ ?]%lookup_delete_Some; eassumption]. by apply thin_same.
Qed.

(** ** Publications *)

Lemma prepare_same s ref opts inline po : prepareWrite s ref opts inline = Ok po -> wo_Publication po = wo_Publication opts.
Proof.
  unfold prepareWrite. destruct (validateLock opts ref); [cbn [rbind] | done]. destruct (match wo_lock opts with Some _ => _ | None => _ end); [done |].
  destruct (pb_kind _); [destruct (negb _) | destruct (_ || _) | destruct (_ || _) | destruct (_ || _)]; by try intros [= <-].
Qed.

(** What a publication that is accepted shows. *)
Lemma prepare_shows s ref opts inline po : prepareWrite s ref opts inline = Ok po ->
  match pb_kind (wo_Publication opts) with
  | publicationTombstone => IsDeleted (ParseCacheVersion (pb_origin (wo_Publication opts))) = true
  | publicationPending => is_pending (po_Token (pb_pending (wo_Publication opts))) = true
  | _ => True
  end.
Proof.
  unfold prepareWrite, is_pending. destruct (validateLock opts ref); [cbn [rbind] | done]. destruct (match wo_lock opts with Some _ => _ | None => _ end); [done |].
  destruct (pb_kind _); try done; destruct (_ || _) eqn:E; try done; intros _; rewrite !orb_false_iff in E; destruct_and! E; by apply negb_false_iff.
Qed.

Lemma stored_held K s ref opts inline po k key data :
  prepareWrite s ref opts inline = Ok po -> storable o K k key data (wo_Publication opts) -> held K k key (Some (pb_origin (wo_Publication opts))) data.
Proof.
  intros Hp%prepare_shows Hs. exists (pb_origin (wo_Publication opts)). split; [done |]. unfold storable in Hs. destruct (pb_kind _).
  - right. left. destruct Hs. split; [done | by left].
  - by right; right.
  - right. left. destruct Hs. split; [done | by right].
  - left. split; [done |]. intros ->. by destruct Hs as [_ [|[_ ?]]].
Qed.

Abbreviation fitting K ids k := (ends (fun _ => fits K ids k)).

Lemma fits_put K ids k a key e m :
  fits K ids k a -> held K k key (at_origin_etag (en_attrs e)) (en_body e) -> (forall key r, m !! key = Some r -> s_origin_metadata a !! key = Some r) ->
  fits K ids k (sset_origin (sset_objects a (<[key := e]> (s_objects a))) m).
Proof.
  intros [Hr Hp Ho Hu Hpt] Hh Hm. split; cbn; [| done | eauto | done | done]. intros key' e' [[<- <-]|[_ He']]%lookup_insert_Some; [done | by apply Hr].
Qed.

Lemma fits_publish K ids k now p body l a v : p_origin_etag p = Some v -> fits K ids k a -> held K k (p_key p) (Some v) body -> fitting K ids k (spec_publish k now p body l a).
Proof.
  intros Hv Ha Hh. unfold spec_publish, tables, mbind, txn_bind.
  destruct (match sm_fill _ with Some _ => _ | None => _ end); [done |]. destruct (publish_check _ _ _); [| done..]. destruct (upsert_applies _ _); [| done].
  unfold put_entity, require, update, mbind, txn_bind, mret, txn_ret, throw. destruct (attr_shape _ _ _); [| done]. cbn.
  apply fits_put; [done | cbn [en_attrs en_body]; rewrite upsert_origin; cbn; by rewrite Hv |]. by intros key r [_ ?]%lookup_delete_Some.
Qed.

Lemma fits_outcome K ids k (r : Tables.outcome) a : fits K ids k a -> fitting K ids k (outcome_error r a).
Proof. by destruct r. Qed.

Lemma fits_put_inline K ids k s over now ref data opts a :
  fits K ids k a -> storable o K k (or_key ref) data (wo_Publication opts) -> fitting K ids k (spec_put_inline k s over now ref data opts a).
Proof.
  intros Ha Hst. unfold spec_put_inline. apply ends_result. intros po Hpo. do 2 (apply ends_require; intros _).
  eapply (ends_bind (fun _ => fits K ids k)); [eapply fits_publish; [done | done | cbn; rewrite (prepare_same _ _ _ _ _ Hpo); by eapply stored_held] |].
  intros r a' Ha'. eapply (ends_bind (fun _ => fits K ids k)); [by apply fits_outcome | done].
Qed.

Lemma fits_write K ids k s over now ref data cs opts a :
  fits K ids k a -> storable o K k (or_key ref) data (wo_Publication opts) -> fitting K ids k (spec_write k s over now ref data cs opts a).
Proof.
  intros Ha Hst. unfold spec_write. apply ends_result. intros po Hpo. do 2 (apply ends_require; intros _). apply ends_result. intros po' Hpo'%verify_publication. cbn in Hpo'.
  rewrite (prepare_same _ _ _ _ _ Hpo) in Hpo'. eapply (ends_bind (fun _ => fits K ids k)).
  - unfold spec_publish_object. apply ends_result. intros _ _. eapply (ends_bind (fun _ => fits K ids k)); [| intros; by apply fits_outcome].
    eapply fits_publish; [done | done |]. cbn. rewrite Hpo'. by eapply stored_held.
  - intros _ a' Ha'. eapply (ends_bind (fun _ => fits K ids k)); [| done]. unfold spec_pending_origin. rewrite Hpo'. apply prepare_shows in Hpo.
    destruct (pb_kind _); try done. cbn. apply fits_pending; [done |]. intros key p [[<- <-]|[_ Hp]]%lookup_insert_Some; [done | by apply (ft_pending _ _ _ _ Ha' key)].
Qed.

(** A part of an upload. *)
Lemma fits_part K ids k over id key no data cs expected a :
  fits K ids k a -> sent_part (kn_log K) id data -> fitting K ids k (spec_write_part over id key no data cs expected a).
Proof.
  intros Ha Hsent. unfold spec_write_part. apply ends_require. intros _. unfold spec_find_upload. eapply (ends_bind (fun _ a' => a' = a)).
  { apply ends_tables. destruct (s_uploads a !! id); [| done]. by apply ends_require. }
  intros u a' ->. apply ends_require. intros _. apply ends_result. intros c' _. unfold spec_put_part. eapply (ends_bind (fun _ => fits K ids k)); [| done].
  apply ends_require. intros _. destruct Ha as [Hr Hp Ho Hu Hpt]. split; try done. intros Hk i n q. cbn.
  intros [[[= <- <-] <-]|[_ Hq]]%lookup_insert_Some; [done | by eapply Hpt].
Qed.

(** ** What is owed is settled *)

Lemma fits_drop K ids k key token a : fits K ids k a -> fits K ids k (sset_pending a (drop_token key token (s_pending a))).
Proof. apply thin_fits, thin_pending, drop_token_fewer. Qed.

Lemma owed_row K key v b token c : held K WriteBack key (Some v) b -> owed o K token key c -> v = token -> b = c.
Proof.
  intros (w & [= <-] & H) (Ho & Hp & _) ->. destruct H as [[Hd _]|[(_ & [(_ & Hv & _)|(Hb & _)])|[? _]]]; [| | congruence | done].
  - apply deleted_calm in Hd. congruence.
  - by rewrite version_not_pending in Hp.
Qed.

Lemma fits_committed K ids now key token v modified expires a c :
  fits K ids WriteBack a -> owed o K token key c -> version o K key v c -> fitting K ids WriteBack (spec_committed now key token v modified expires a).
Proof.
  intros Ha Ho Hv. unfold spec_committed. apply ends_tables. eapply (ends_bind (fun _ => fits K ids WriteBack)); [| intros _ a' Ha'; by apply fits_drop].
  unfold attrs_where. destruct (s_objects a !! key) as [e|] eqn:He; cbn [mbind option_bind]; [| by rewrite bool_decide_false by (by intros [])].
  unfold origin_is. destruct (decide (at_origin_etag (en_attrs e) = Some token)) as [Ht|Ht];
    [| rewrite (bool_decide_false (at_origin_etag _ = _)) by done; by rewrite bool_decide_false by (by intros [])].
  rewrite (bool_decide_true (at_origin_etag _ = _)) by done. rewrite bool_decide_true by eauto. cbn.
  pose proof (ft_rows _ _ _ _ Ha key e He) as Hh. rewrite Ht in Hh. pose proof (owed_row _ _ _ _ _ _ Hh Ho eq_refl) as Hb.
  destruct Ha as [Hr Hp Hom Hu Hpt]. split; try done. intros key' e'. cbn. intros [(<- & e0 & He0 & ->)|[_ He']]%lookup_alter_Some; [| by apply Hr].
  rewrite He in He0. injection He0 as <-. cbn. rewrite Hb. exists v. split; [done |]. right. left. split; [done | by left].
Qed.

Lemma fits_remember K ids now key i age ttl a :
  fits K ids Cache a -> remembered K key i -> fitting K ids Cache (spec_remember now key i age ttl a).
Proof.
  intros [Hr Hp Hom Hu Hpt] Hi. split; try done. intros _ key' r. cbn. unfold remember. destruct (_ && _); [| by apply Hom].
  intros [[<- <-]|[_ H]]%lookup_insert_Some; [done | by apply Hom].
Qed.

(** ** Multipart uploads *)

Lemma fits_create K ids now id key opts a :
  fits K ids WriteBack a -> id ∈ ids -> kn_owed K !! token_of id = None -> fitting K ids WriteBack (spec_create now id key opts a).
Proof.
  intros [Hr Hp Hom Hu Hpt] Hin Ho. unfold spec_create. apply ends_tables. do 2 (apply ends_require; intros _). split; try done. intros _ i u. cbn.
  intros [[<- <-]|[_ Hi]]%lookup_insert_Some; [done | by apply (Hu eq_refl i u)].
Qed.

(** Knowledge with one more upload that is owed. *)
Definition owe (K : know) (v ck : string) (c : bytes) : know := mkKnow (kn_given K) (<[v := (ck, c)]> (kn_owed K)) (kn_history K) (kn_first K) (kn_log K).

Lemma owe_up K v ck c : kn_owed K !! v = None -> kle K (owe K v ck c).
Proof. intros Hv. split; [done |]. split; [by apply insert_subseteq | done]. Qed.

Lemma token_inj i j : token_of i = token_of j -> i = j.
Proof. unfold token_of, CacheVersion_String. cbn [cv_State cv_Token PendingCacheVersion]. apply sapp_inj_l. Qed.

Lemma plan_parts algorithm id listed a pl :
  planMultipart algorithm listed (spec_stored <$> sorted_parts id (s_parts a)) = Ok pl ->
  Forall (fun b => exists no q, s_parts a !! (id, no) = Some q /\ b = ObjectSpec.sp_body q) (pl_fileIDs pl).
Proof.
  intros (taken & skipped & Hsp & ->)%plan_loop_splits. unfold plan_of. cbn [pl_fileIDs]. destruct (fold_take_lists algorithm taken (@empty_plan bytes)) as (Hids & _ & _). rewrite Hids. cbn.
  apply Forall_fmap, Forall_forall. intros p Hp. assert (p ∈ spec_stored <$> sorted_parts id (s_parts a)) as Hin.
  { rewrite (splits_perm _ _ _ _ _ Hsp). apply elem_of_app. by left. }
  apply list_elem_of_fmap in Hin as ([no q] & -> & Hq). apply elem_of_sorted_parts in Hq. by exists no, q.
Qed.

(** The parts of a plan make a content that was asked for. *)
Lemma parts_asked K ids ck id algorithm listed a pl :
  fits K ids WriteBack a -> completes K ck id -> planMultipart algorithm listed (spec_stored <$> sorted_parts id (s_parts a)) = Ok pl ->
  asked_for o K ck (concat (pl_fileIDs pl)).
Proof.
  intros Ha (tid & me & bucket & key & listed0 & opts & Hin & ->) Hpl%plan_parts. eapply sent_parts; [exact Hin |]. eapply Forall_impl; [exact Hpl |].
  intros b (no & q & Hq & ->). by eapply (ft_parts _ _ _ _ Ha).
Qed.

Lemma fits_complete K ids s over now ref id listed opts p a :
  fits K ids WriteBack a -> completes K (or_key ref) id ->
  ends (fun _ a' => id ∈ ids /\ kn_owed K !! token_of id = None /\ exists body, fits (owe K (token_of id) (or_key ref) body) ids WriteBack a')
    (spec_complete_pending WriteBack s over now ref id listed opts p a).
Proof.
  intros Ha Hcp. unfold spec_complete_pending. apply ends_require. intros _. unfold spec_complete. apply ends_result. intros po _.
  eapply (ends_bind (fun u a' => a' = a /\ s_uploads a !! id = Some u)).
  { unfold spec_find_upload. apply ends_tables. destruct (s_uploads a !! id) as [u|]; [| done]. by apply ends_require. }
  intros u a' [-> Hu]. destruct (ft_uploads _ _ _ _ Ha eq_refl id u Hu) as [Hin Hnone]. apply ends_result. intros _ _. apply ends_tables. apply ends_result. intros pl Hpl.
  pose proof (parts_asked _ _ _ _ _ _ _ _ Ha Hcp Hpl) as Has. apply ends_require. intros _. eapply ends_bind; [| intros x a' Ha'; exact Ha']. unfold spec_apply.
  eapply (ends_bind (fun _ a' => exists e, en_body e = concat (pl_fileIDs pl) /\ a' = sset_objects a (<[or_key ref := e]> (s_objects a)))).
  { unfold spec_swap. apply ends_require. intros _. apply ends_tables. apply ends_require. intros _. unfold put_entity. apply ends_require. intros _. cbn. by eexists (mkEntity _ _ _). }
  intros _ a' (e & Hbody & ->). rewrite <- Hbody in Has. rewrite bool_decide_true by done. cbn. split; [done |]. split; [done |]. exists (en_body e).
  pose proof (owe_up K (token_of id) (or_key ref) (en_body e) Hnone) as HK. split; cbn.
  - intros key e'. rewrite lookup_alter. case_decide as Hk; [subst key; rewrite lookup_insert_eq | rewrite lookup_insert_ne by done; intros He'; by eapply held_up, (ft_rows _ _ _ _ Ha)].
    intros [= <-]. cbn. exists (token_of id). split; [done |]. right. left. split; [done |]. right. split; [cbn; by rewrite lookup_insert_eq |]. split; [apply pending_token | done].
  - intros key q [[<- <-]|[_ Hq]]%lookup_insert_Some; [apply pending_token | by apply (ft_pending _ _ _ _ Ha key)].
  - done.
  - intros _ i v [Hne Hi]%lookup_delete_Some. destruct (ft_uploads _ _ _ _ Ha eq_refl i v Hi). split; [done |]. rewrite lookup_insert_ne; [done |].
    by intros ?%token_inj.
  - intros _ i no q [Hq _]%map_lookup_filter_Some. by apply (ft_parts _ _ _ _ Ha eq_refl i no q).
Qed.

End Fits.
