(* ===== verification/TierSafe.v ===== *)
(** * Any number of tiers over one origin

    What the machine of [TierMachine.v] answers is what the logic of
    [TierLogic.v] promises, whatever its processes, their flights, other
    clients of the origin and the maintenance do in between: reads return
    ranges of contents the key has had, under the entity tags and sizes of
    those contents, and uploads are accepted whole. *)

From stdpp Require Import gmap sorting.
From S2P Require Import Prelude GoStrings Ns Ranges Precond Blocks Pieces Reader Ids Tables Objects CacheTables Multipart ObjectSpec CacheSpec Machine ObjectRep ObjectRefine ObjectRead CacheRefine ObjectComplete ObjectStore Names CacheValues Outbox LateRead ReadMany Origin Spool Tier TierMachine TierLogic TierKeys TierReads TierWrites TierFits.

(** ** Tokens *)

Lemma good_write i j : good_id i = true -> i <> "write-" +:+ j.
Proof. intros Hg ->. discriminate Hg. Qed.

(** More uploads are owed, and nothing else is new. *)
Definition grows (K K' : know) : Prop :=
  kle K K' /\ kn_given K' = kn_given K /\ kn_history K' = kn_history K /\ kn_first K' = kn_first K /\ kn_log K' = kn_log K.

Lemma grows_refl K : grows K K.
Proof. done. Qed.

Section World.
Context `{D : Digests} (o : origin) (name : string).

(** What is owed has a token of a random identifier. *)
Definition token_ok (ids : gset string) (v : string) : Prop := exists i, i ∈ ids /\ (v = token_of i \/ v = token_of ("write-" +:+ i)).

Record wfits (K : know) (ids : gset string) (z : world) : Prop := {
  wf_cache : fits o K ids Cache (spec_of z (CacheRef name));
  wf_back : fits o K ids WriteBack (spec_of z (WriteBackRef name));
  wf_tokens : forall v x, kn_owed K !! v = Some x -> token_ok ids v;
  wf_ids : forall i, i ∈ ids -> good_id i = true
}.

Definition ours (k : Kind) : Prop := k = WriteBack \/ k = Cache.
Definition other (k : Kind) : Kind := if bool_decide (k = Cache) then WriteBack else Cache.

Lemma wfits_kind K ids z k : wfits K ids z -> ours k -> fits o K ids k (spec_of z (mkRef k name)).
Proof. intros Hw [-> | ->]; [apply (wf_back _ _ _ Hw) | apply (wf_cache _ _ _ Hw)]. Qed.

Lemma other_ours k : ours (other k).
Proof. unfold ours, other. case_bool_decide; auto. Qed.

Lemma sibling_other k : ours k -> sibling (mkRef k name) = mkRef (other k) name.
Proof. by intros [-> | ->]. Qed.

Lemma wfits_put K ids z k a :
  ours k -> fits o K ids (other k) (spec_of z (mkRef (other k) name)) -> fits o K ids k a ->
  (forall v x, kn_owed K !! v = Some x -> token_ok ids v) -> (forall i, i ∈ ids -> good_id i = true) -> wfits K ids (put_spec z (mkRef k name) a).
Proof.
  intros Hk Hother Ha Ht Hi. pose proof (ft_pending _ _ _ _ _ Ha) as Hp.
  split; try done; rewrite spec_of_put; destruct Hk as [-> | ->]; cbn [ref_name];
    first [rewrite decide_True by done; exact Ha | rewrite decide_False by done; rewrite decide_True by done; by apply fits_pending].
Qed.

(** An operation on one of the namespaces. *)
Lemma exec_fits K ids c b op z k :
  cx_ns c = mkRef k name -> ours k -> op <> CacheOp FlushOp -> wfits K ids z ->
  ends (fun _ a' => exists K', grows K K' /\ fits o K' ids k a' /\
      fits o K' ids (other k) (spec_of z (mkRef (other k) name)) /\ forall v x, kn_owed K' !! v = Some x -> token_ok ids v)
    (spec_tx c b (spec_of z) op (spec_of z (cx_ns c))) ->
  exists K', grows K K' /\ wfits K' ids (spec_exec c b op z).2.
Proof.
  intros Hns Hk Hop Hw Htx. pose proof (wf_ids _ _ _ Hw) as Hi. unfold spec_exec, commit at 1. destruct (spec_tx _ _ _ _ _) as [[x a]|e]; cbn [ends] in Htx.
  - destruct Htx as (K' & HK & Ha & Ho & Ht). exists K'. split; [done |]. cbn [snd]. rewrite Hns, sibling_other by done.
    pose proof (wfits_put _ _ _ _ _ Hk Ho Ha Ht Hi) as Hw1. apply wfits_put; [apply other_ours | | | done | done].
    + replace (other (other k)) with k by (by destruct Hk as [-> | ->]). by apply wfits_kind.
    + eapply thin_fits; [by apply thin_sibling |]. apply wfits_kind; [done | apply other_ours].
  - exists K. split; [apply grows_refl |]. cbn [snd]. rewrite Hns.
    apply wfits_put; [done | apply wfits_kind; [done | apply other_ours] | by apply wfits_kind | apply (wf_tokens _ _ _ Hw) | done].
Qed.

(** Steps that change no knowledge. *)
Lemma same_fits K ids c b op z k :
  cx_ns c = mkRef k name -> ours k -> wfits K ids z -> ends (fun _ a' => fits o K ids k a') (spec_tx c b (spec_of z) op (spec_of z (cx_ns c))) ->
  ends (fun _ a' => exists K', grows K K' /\ fits o K' ids k a' /\
      fits o K' ids (other k) (spec_of z (mkRef (other k) name)) /\ forall v x, kn_owed K' !! v = Some x -> token_ok ids v)
    (spec_tx c b (spec_of z) op (spec_of z (cx_ns c))).
Proof.
  intros Hns Hk Hw. destruct (spec_tx _ _ _ _ _) as [[x a]|e]; [| done]. cbn. intros Ha. exists K. split; [apply grows_refl |]. split; [done |].
  split; [apply wfits_kind; [done | apply other_ours] | apply (wf_tokens _ _ _ Hw)].
Qed.

Lemma ends_reply_of {A} (Q : spec -> Prop) (f : A -> reply) (c : stx A) a : ends (fun _ => Q) (c a) -> ends (fun _ => Q) (reply_of f c a).
Proof. intros Hc. eapply ends_bind; [exact Hc | done]. Qed.

Lemma thin_kept K ids c b op z k : cx_ns c = mkRef k name -> ours k -> wfits K ids z -> thin_op op = true ->
  ends (fun _ a' => fits o K ids k a') (spec_tx c b (spec_of z) op (spec_of z (cx_ns c))).
Proof.
  intros Hns Hk Hw Ho. pose proof (thinly_op c b (spec_of z) op Ho) as Ht. destruct (spec_tx _ _ _ _ _) as [[x a]|e]; [| done]. cbn in *.
  eapply thin_fits; [exact Ht |]. rewrite Hns. by apply wfits_kind.
Qed.

(** The operations a tier asks for. *)
Lemma op_fits K ids c b op z k su :
  cx_ns c = mkRef k name -> wfits K ids z -> op_ok o K k su op -> su_uuid su ∈ ids -> kn_owed K !! token_of (su_uuid su) = None ->
  exists K', grows K K' /\ wfits K' ids (spec_exec c b op z).2.
Proof.
  intros Hns Hw Hok Hid Hnone. assert (ours k) as Hk by (unfold ours; destruct op as [| | | | | | | | | | | | | | |[]]; try done; by destruct Hok; eauto).
  eapply exec_fits; [done | done | by intros -> | done |]. destruct (thin_op op) eqn:Ethin; [by apply same_fits; [| | | apply thin_kept] |].
  pose proof (wfits_kind _ _ _ _ Hw Hk) as Ha. rewrite <- Hns in Ha.
  destruct op as [| | | | | | | | | | | | | | |[]]; try done.
  - apply same_fits; [done | done | done |]. apply ends_reply_of. destruct Hok as [-> ->]. by apply fits_create.
  - apply same_fits; [done | done | done |]. apply ends_reply_of. destruct Hok as [-> Hs]. by apply fits_part.
  - destruct Hok as [-> Hcp]. pose proof (fits_complete o K ids (cx_store c) (cx_over_quota c) (cx_now c) (mkObjectRef (cx_ns c) key) id listed opts pending _ Ha Hcp) as Hc.
    cbn [spec_tx]. rewrite Hns. cbn [ref_kind]. rewrite Hns in Hc. eapply ends_bind; [exact Hc |]. intros x a' (Hin & Hn & body & Hf). cbn.
    eexists. split; [split; [by apply owe_up | done] |]. split; [exact Hf |]. split.
    + eapply fits_up; [by apply owe_up | done | done |]. apply (wf_cache _ _ _ Hw).
    + intros v y. cbn. intros [[<- _]|[_ Hv]]%lookup_insert_Some; [exists id; by split; [| left] | by apply (wf_tokens _ _ _ Hw v y)].
  - destruct Hok as (-> & c0 & Ho & Hv). apply same_fits; [done | done | done |]. apply ends_reply_of. by eapply fits_committed.
  - destruct Hok as (-> & Hr). apply same_fits; [done | done | done |]. apply ends_reply_of. by apply fits_remember.
Qed.

(** Publications. *)
Lemma put_fits K ids c b op z k key data opts :
  op = PutOp key data opts \/ (exists proc block, op = WriteOp proc block key [data] [] opts) -> cx_ns c = mkRef k name -> wfits K ids z ->
  storable o K k key data (wo_Publication opts) ->
  exists K', grows K K' /\ wfits K' ids (spec_exec c b op z).2.
Proof.
  intros Hop Hns Hw Hst. assert (ours k) as Hk.
  { unfold ours, storable in *. destruct (pb_kind _); destruct Hst as [? Hst]; [by left | by right | by left |]. destruct Hst as [|[? _]]; [by left | by right]. }
  pose proof (wfits_kind _ _ _ _ Hw Hk) as Ha. rewrite <- Hns in Ha. eapply exec_fits; [done | done | by destruct Hop as [-> |(? & ? & ->)] | done |].
  apply same_fits; [done | done | done |]. destruct Hop as [-> |(proc & block & ->)]; cbn [spec_tx]; apply ends_reply_of; rewrite Hns in *; cbn [ref_kind].
  - by apply fits_put_inline.
  - cbn [concat]. rewrite app_nil_r. by apply fits_write.
Qed.

(** The maintenance, and operations elsewhere. *)
Lemma maintenance_fits K ids c b op z k :
  cx_ns c = mkRef k name -> ours k -> maintenance op = true -> wfits K ids z ->
  exists K', grows K K' /\ wfits K' ids (spec_exec c b op z).2.
Proof.
  intros Hns Hk Hm Hw. assert (thin_op op = true) as Ht by (by destruct op as [| | | | | | | | | | | | | | |[]]).
  eapply exec_fits; [done | done | by intros -> | done |]. apply same_fits; [done | done | done |]. by apply thin_kept.
Qed.

Lemma spec_of_else c b op z k : ref_name (cx_ns c) <> name -> spec_of (spec_exec c b op z).2 (mkRef k name) = spec_of z (mkRef k name).
Proof.
  intros Hn. assert (forall z a r, ref_name r = ref_name (cx_ns c) -> spec_of (put_spec z r a) (mkRef k name) = spec_of z (mkRef k name)) as Hput.
  { intros z' a r Hr. rewrite spec_of_put. rewrite decide_False by (intros ->; by cbn in Hr). by rewrite decide_False by (cbn; congruence). }
  unfold spec_exec. destruct (commit _ _) as [[x|e] a]; cbn [snd]; [rewrite Hput; [by apply Hput |] | by apply Hput].
  unfold sibling. by case_bool_decide.
Qed.

Lemma else_fits K ids c b op z :
  ref_name (cx_ns c) <> name -> wfits K ids z ->
  exists K', grows K K' /\ wfits K' ids (spec_exec c b op z).2.
Proof.
  intros Hn [Hc Hb Ht Hi]. exists K. split; [apply grows_refl |]. split; try done; unfold CacheRef, WriteBackRef in *; by rewrite spec_of_else.
Qed.

(** Uploads that are offered have tokens. *)
Lemma uploads_offered K ids c b op z l k :
  cx_ns c = mkRef k name -> ours k -> wfits K ids z -> (spec_exec c b op z).1 = Ok (Uploads l) -> Forall (fun p => IsPending (ParseCacheVersion (pd_Token p)) = true) l.
Proof.
  intros Hns Hk Hw Hx. pose proof (wfits_kind _ _ _ _ Hw Hk) as Ha. rewrite <- Hns in Ha.
  assert (exists a', spec_tx c b (spec_of z) op (spec_of z (cx_ns c)) = Ok (Uploads l, a')) as [a' Htx].
  { revert Hx. unfold spec_exec, commit at 1. destruct (spec_tx _ _ _ _ _) as [[x a]|e]; cbn; [| done]. intros [= ->]. eauto. }
  clear Hx. assert (exists owner limit lease locked, op = CacheOp (ClaimOp owner limit lease locked)) as (owner & limit & lease & locked & ->).
  { destruct op as [| | | | | | | | | | | | | | |[]]; cbn [spec_tx cache_spec] in Htx; unfold reply_of, mbind, txn_bind, mret, txn_ret in Htx;
      try (match type of Htx with match ?t with _ => _ end = _ => destruct t as [[? ?]|]; discriminate Htx end); try discriminate Htx; [| by eexists _, _, _, _].
    destruct (require _ _ _) as [[? ?]|]; [| done]. by match type of Htx with match ?t with _ => _ end = _ => destruct t as [[? ?]|] end. }
  cbn in Htx. unfold reply_of, spec_claim, tables, update, mbind, txn_bind, mret, txn_ret in Htx.
  destruct (claim_uploads _ _ _ _ _ _) as [l0 m] eqn:E. injection Htx as -> _. unfold claim_uploads in E. injection E as <- _.
  apply Forall_fmap, Forall_fmap, Forall_forall. intros kv Hin%due_lookup. exact (ft_pending _ _ _ _ _ Ha kv.1 kv.2 Hin).
Qed.

End World.

(** ** The state *)

Section State.
Context `{ZL : ZstdLaws} `{D : Digests} `{DL : !DigestLaws D} {St : Type} `{OD : OriginDriver St} `{OL : !OriginLaws St}.
Context (o : origin) (name : string) (first : gmap (string * string) bytes) (log : list command).

Record inv (K : know) (s : tier_state St) : Prop := {
  iv_world : exists z, rep_in (kn_given K) (x_system s) z /\ world_named z /\ wfits o name K (x_ids s) z;
  iv_first : kn_first K = first;
  iv_log : kn_log K = log;
  iv_history : kn_history K = ol_history (x_origin s);
  iv_sent : forall i c, kn_history K !! i = Some c -> sent o (kn_first K) (kn_log K) i.1 c;
  iv_wf : ol_wf (x_origin s);
  iv_clock : ol_clock (x_origin s) <= x_clock s
}.

Definition give (K : know) (G : gmap Z bytes) : know := mkKnow G (kn_owed K) (kn_history K) (kn_first K) (kn_log K).

Lemma give_away K G : kn_given K ⊆ G -> kle K (give K G).
Proof. by intros HG. Qed.

Lemma wfits_give K ids z G : kn_given K ⊆ G -> wfits o name K ids z -> wfits o name (give K G) ids z.
Proof.
  intros HG [Hc Hb Ht Hi]. pose proof (give_away K G HG) as HK. split; [| | done | done]; (eapply fits_up; [exact HK | done | | done]); intros Hk i u Hu; [done |].
  by destruct (ft_uploads _ _ _ _ _ Hb Hk i u Hu).
Qed.

(** The system moves on. *)
Lemma system_inv K K1 s y z :
  inv K s -> kle K K1 -> kn_history K1 = kn_history K -> kn_first K1 = kn_first K -> kn_log K1 = kn_log K -> rep_from (kn_given K1) y z -> world_named z -> wfits o name K1 (x_ids s) z ->
  exists K', kle K1 K' /\ inv K' (set_system y s).
Proof.
  intros [_ Hf Hl Hh Hs Hwf Hc] HK Hh1 Hf1 Hl1 (G & HG & Hrep) Hn Hw. exists (give K1 G). split; [by apply give_away |].
  split; cbn; [| congruence | congruence | congruence | by rewrite Hh1, Hf1, Hl1 | done | done].
  exists z. split; [done |]. split; [done |]. by apply wfits_give.
Qed.

(** An operation of a store. *)
Lemma tier_exec_inv K s c op r y :
  inv K s ->
  (forall b z, wfits o name K (x_ids s) z ->
    exists K', grows K K' /\ wfits o name K' (x_ids s) (spec_exec c b op z).2) ->
  exec c op (x_system s) = (r, y) ->
  exists K', kle K K' /\ inv K' (set_system y s) /\ forall x, r = Ok x -> exists b z, wfits o name K (x_ids s) z /\ (spec_exec c b op z).1 = Ok x.
Proof.
  intros Hi Hop Hex. destruct (iv_world _ _ Hi) as (z & Hrep & Hn & Hw). destruct (exec_rep_in _ _ _ _ _ _ _ Hrep Hex) as (b & Hb).
  destruct (spec_exec c b op z) as [r' z'] eqn:Es. destruct (Hb r' z' eq_refl) as [[-> Hfrom]|[-> Hfrom]].
  - destruct (Hop b z Hw) as (K1 & (HK & Hg & Hh & Hf & Hl) & Hw1). pose proof (spec_exec_named c b op z Hn) as Hn1. rewrite Es in Hw1, Hn1. cbn in Hw1, Hn1. rewrite <- Hg in Hfrom.
    destruct (system_inv K K1 s y z' Hi HK Hh Hf Hl Hfrom Hn1 Hw1) as (K' & HK' & Hi'). exists K'. split; [by eapply kle_trans |]. split; [done |].
    intros x ->. exists b, z. by rewrite Es.
  - destruct (system_inv K K s y z Hi (kle_refl K) eq_refl eq_refl eq_refl Hfrom Hn Hw) as (K' & HK' & Hi'). by exists K'.
Qed.

(** New identifiers. *)
Lemma ids_inv K s i : inv K s -> good_id i = true -> inv K (set_ids ({[i]} ∪ x_ids s) s).
Proof.
  intros [(z & Hrep & Hn & [Hc Hb Ht Hi]) Hf Hl Hh Hs Hwf Hcl] Hg. split; try done. exists z. split; [done |]. split; [done |].
  assert (x_ids s ⊆ {[i]} ∪ x_ids s) as Hsub by set_solver. split; cbn.
  - eapply fits_up; [apply kle_refl | exact Hsub | done | done].
  - eapply fits_up; [apply kle_refl | exact Hsub | | done]. intros _ j u Hu. by destruct (ft_uploads _ _ _ _ _ Hb eq_refl j u Hu).
  - intros v x Hv. destruct (Ht v x Hv) as (j & Hj & Hvj). exists j. split; [set_solver | done].
  - intros j [->%elem_of_singleton|Hj]%elem_of_union; [done | by apply Hi].
Qed.

(** Identifiers that were not given out are in no token. *)
Lemma fresh_token K s i : inv K s -> good_id i = true -> i ∉ x_ids s ->
  kn_owed K !! token_of i = None /\ kn_owed K !! token_of ("write-" +:+ i) = None.
Proof.
  intros [(z & _ & _ & [_ _ Ht Hi]) _ _ _ _ _ _] Hg Hn. split.
  - destruct (kn_owed K !! token_of i) as [x|] eqn:E; [| done]. destruct (Ht _ _ E) as (j & Hj & [Ev%token_inj|Ev%token_inj]); [by subst |]. by apply good_write in Ev.
  - destruct (kn_owed K !! token_of ("write-" +:+ i)) as [x|] eqn:E; [| done]. destruct (Ht _ _ E) as (j & Hj & [Ev%token_inj|Ev%token_inj]).
    + apply Hi, good_write with (j := i) in Hj. congruence.
    + apply sapp_inj_l in Ev. by subst.
Qed.

(** A body is accepted under a new identifier. *)
Lemma owe_inv K s i ck c : inv K s -> good_id i = true -> i ∉ x_ids s -> asked_for o K ck c ->
  let K' := owe K (token_of ("write-" +:+ i)) ck c in kle K K' /\ inv K' (set_ids ({[i]} ∪ x_ids s) s) /\ owed o K' (token_of ("write-" +:+ i)) ck c.
Proof.
  intros Hi Hg Hn Has K'. destruct (fresh_token K s i Hi Hg Hn) as [_ Hnone]. pose proof (owe_up K _ ck c Hnone) as HK. fold K' in HK. split; [done |].
  split; [| split; [apply lookup_insert_eq | split; [apply pending_token | done]]].
  destruct (ids_inv K s i Hi Hg) as [(z & Hrep & Hnm & [Hc Hb Ht Hids]) Hf Hl Hh Hs Hwf Hcl]. split; try done. exists z. split; [done |]. split; [done |]. split; [| | | done].
  - eapply fits_up; [exact HK | done | done | done].
  - eapply fits_up; [exact HK | done | | done]. intros _ j u Hu. destruct (ft_uploads _ _ _ _ _ Hb eq_refl j u Hu) as [Hj Hjn]. cbn.
    rewrite lookup_insert_ne; [done |]. intros Ev%token_inj. exact (good_write j i (Hids j Hj) (eq_sym Ev)).
  - intros v x. cbn. intros [[<- _]|[_ Hv]]%lookup_insert_Some; [exists i; split; [set_solver | by right] | by apply (Ht v x)].
Qed.

(** ** Reading the store *)

Lemma row_cached K ids z k key en :
  ours k -> k = WriteBack \/ plain key -> world_named z -> wfits o name K ids z -> s_objects (spec_of z (mkRef k name)) !! key = Some en ->
  at_size (en_attrs en) = zlen (en_body en) -> gone (entity_info en) \/ cached o K key (entity_info en) (en_body en).
Proof.
  intros Hk Hp Hn Hw He Hs. destruct (ft_rows _ _ _ _ _ (wfits_kind _ _ _ _ _ _ Hw Hk) key en He) as (v & Ev & Hv). unfold gone, cached, entity_info. cbn. rewrite Ev. cbn.
  destruct (an_objects _ (Hn (mkRef k name)) key en He) as (Htag & _). destruct Hv as [[Hd _]|[(_ & Hv)|(-> & Hv)]]; [by left | right | right]; (split; [done |]; split; [by eexists |]).
  - done.
  - left. destruct Hp as [|Hp]; [done |]. destruct Hv as [[_ Hv]|(ck & off & c & H1 & H2 & H3 & _)]; [done |].
    exfalso. apply (chunk_not_plain key); [| done]. by exists ck, off, v.
Qed.

Lemma scan_info body oid ob m e : scanMetadata body oid ob = Ok m -> en_attrs e = ob_attrs ob -> m_Info m = entity_info e.
Proof.
  intros Hs He. unfold scanMetadata in Hs. unfold entity_info. rewrite He. destruct body, (ob_inline_data ob) as [d|]; try (by injection Hs as <-).
  destruct (decompressBlock _ _); [by injection Hs as <- | done].
Qed.

Context `{MI : Mime, ET : ErrorText} (t : Tier) (me : nat) (mo : moment).

Definition good_tier : Prop := t_origin t = o /\ t_namespace t = name /\ 0 <= t_rangeSize t <= maxRangeChunk.

Context (Ht : good_tier).

Lemma metadata_sound K s k key body m :
  inv K s -> ours k -> k = WriteBack \/ plain key -> metadata t mo k key body s = Ok m ->
  gone (m_Info m) \/ exists c, cached o K key (m_Info m) c /\ (body = metadataDecoded -> described K m c).
Proof.
  intros Hi Hk Hp. unfold metadata. destruct Ht as (_ & -> & _). destruct (queryMetadata _ _ _ _ _) as [[m'|]|] eqn:Hq; [| done..]. intros [= ->].
  destruct (iv_world _ _ Hi) as (z & Hrep & Hn & Hw). pose proof Hq as Hq'. unfold queryMetadata in Hq. pose proof (sim_objects _ _ _ _ _ (proj2 Hrep (mkRef k name)) key) as Hs.
  destruct (db_objects _ !! key) as [ob|]; [| done]. destruct (not_expired _ _); [| done]. injection Hq as Hscan.
  destruct (s_objects (spec_of z (mkRef k name)) !! key) as [en|] eqn:He; inversion Hs as [? ? Hoe|]; subst. pose proof (scan_info _ _ _ _ _ Hscan (or_attrs _ _ _ _ _ _ Hoe)) as Hinfo. rewrite Hinfo.
  assert (at_size (en_attrs en) = zlen (en_body en)) as Hsize by (rewrite (or_attrs _ _ _ _ _ _ Hoe); apply Hoe).
  destruct (row_cached K _ z k key en Hk Hp Hn Hw He Hsize) as [Hg|Hc]; [by left | right]. exists (en_body en). split; [done |]. intros -> Hmax.
  destruct (query_row _ _ _ _ (mkRef k name) _ _ Hrep Hq' Hmax) as (en' & He' & _ & _ & Hd & _). congruence.
Qed.

Lemma deliver_carries f b : carries (deliver f b) b.
Proof.
  assert (carries (mkStream [b] true) b) as Hall.
  { unfold carries, st_bytes. cbn. rewrite app_nil_r. split; [done |]. exists (zlen b). by rewrite slice_full by lia. }
  destruct f as [| | |n]; try done. unfold carries, st_bytes. cbn. rewrite app_nil_r. split; [done | by exists n].
Qed.

Lemma body_sound K s k m rng b :
  inv K s -> m_Size m <= max_value -> read_range (db_chunks (db_of (x_system s) (mkRef k name))) (mo_workers mo) m rng = Some b ->
  forall c, described K m c -> m_Size m = zlen c -> exists b', range_of c rng = Some b' /\ carries (deliver (mo_fault mo) b) b'.
Proof.
  intros Hi Hmax Hr c Hd _. destruct (iv_world _ _ Hi) as (z & Hrep & _). exists b. split; [| apply deliver_carries].
  eapply late_range; [by apply Hd | by eapply rep_rows | exact Hr].
Qed.

(** *** Many at once *)

Lemma one_reader table files : arrives table 1 files (pair 0%nat <$> asked table (Nat.min 1 (length files)) 0 files).
Proof.
  intros w. set (l := asked _ _ _ _). assert ((List.filter (fun x => (x.1 =? w)%nat) (pair 0%nat <$> l)).*2 = if (0 =? w)%nat then l else []) as ->.
  { clearbody l. induction l as [|r l IH]; [by destruct w |]. cbn [fmap list_fmap List.filter fst]. destruct w as [|w]; cbn [Nat.eqb] in *; [| exact IH]. cbn. by f_equal. }
  destruct (Nat.ltb_spec w (Nat.min 1 (length files))) as [Hlt|Hge].
  - by replace w with 0%nat by lia.
  - destruct w as [|w]; [| done]. cbn [Nat.eqb]. assert (files = []) as -> by (destruct files; [done | cbn in Hge; lia]). subst l. unfold asked. cbn.
    induction table as [|r table IH]; [done |]. cbn. by rewrite bool_decide_false by set_solver.
Qed.

Lemma chunk_row K ids z key en : chunk_key key -> wfits o name K ids z -> s_objects (spec_of z (CacheRef name)) !! key = Some en ->
  exists v, chunk o K key v (en_body en).
Proof.
  intros Hk Hw He. destruct (ft_rows _ _ _ _ _ (wf_cache _ _ _ _ _ Hw) key en He) as (v & _ & [[_ Hp]|[(? & _)|(_ & [[Hp _]|Hc])]]); [| done | | eauto];
    exfalso; eapply chunk_not_plain; eauto.
Qed.

Lemma values_sound K s keys retention out touch :
  inv K s -> Forall chunk_key keys -> read_values t mo keys retention s = Ok (out, touch) ->
  length out = length keys /\ forall i key b, keys !! i = Some key -> out !! i = Some (Some b) -> exists v, chunk o K key v b.
Proof.
  intros Hi Hkeys. destruct (iv_world _ _ Hi) as (z & Hrep & _ & Hw). rewrite Forall_forall in Hkeys. unfold read_values. destruct Ht as (_ & -> & _). cbn zeta.
  pose proof (proj2 Hrep (CacheRef name)) as Hsim. change (mkRef Cache name) with (CacheRef name). set (d := db_of (x_system s) (CacheRef name)) in *.
  destruct (scan_rows _ _ _ _ _ _) as [m|] eqn:Es; [| done]. set (arrived := pair 0%nat <$> _).
  destruct (bulk_read Cache (kn_given K) d (spec_of z (CacheRef name)) (mo_now mo) keys 0 (mo_now mo * 1000) (retention * 1000) 1 (selected (mo_now mo) d keys) arrived None)
    as (touch' & c' & -> & _); [exact Hsim | | lia | done | exact I | | intros [= <- <-]].
  - intros key ob Hin Hob. pose proof (sim_objects _ _ _ _ _ Hsim key) as Hs. rewrite Hob in Hs. destruct (s_objects _ !! key) as [en|] eqn:He; inversion Hs as [? ? Hoe|]; subst.
    rewrite (or_size _ _ _ _ _ _ Hoe). destruct (chunk_row K _ z key en (Hkeys key Hin) Hw He) as (v & ck & off & c & _ & _ & _ & _ & _ & Hlen).
    unfold maxRangeChunk, max_value, RowBytes in *. lia.
  - intros m' Es'. rewrite Es in Es'. injection Es' as <-. apply one_reader.
  - split; [by rewrite length_fmap |]. intros i key b Hkey. rewrite list_lookup_fmap, Hkey. cbn. unfold many_value, attrs_where.
    destruct (s_objects _ !! key) as [en|] eqn:He; cbn; [| done]. destruct (_ && _); cbn; [| done]. assert (key ∈ keys) as Hin by by eapply list_elem_of_lookup_2.
    destruct (chunk_row K _ z key en (Hkeys key Hin) Hw He) as (v & Hc). by destruct (en_layout en); intros [= <-]; eexists.
Qed.

(** ** Changing the store *)

Definition here (k : Kind) : context := mkContext (mo_now mo) (mo_over mo) (t_store t) (mkRef k name).

Lemma tier_run_inv K s k op :
  inv K s ->
  (forall b z, wfits o name K (x_ids s) z ->
    exists K', grows K K' /\ wfits o name K' (x_ids s) (spec_exec (here k) b op z).2) ->
  exists K', kle K K' /\ inv K' (run_store t mo k op s).2 /\
    forall x, (run_store t mo k op s).1 = Ok x -> exists b z, wfits o name K (x_ids s) z /\ (spec_exec (here k) b op z).1 = Ok x.
Proof.
  intros Hi Hop. unfold run_store. destruct Ht as (_ & -> & _). fold (here k).
  assert (exists K', kle K K' /\ inv K' s /\ forall x, @Err tier_error reply Cancelled = Ok x -> exists b z, wfits o name K (x_ids s) z /\ (spec_exec (here k) b op z).1 = Ok x) as Hlost
    by (exists K; split; [apply kle_refl | done]).
  destruct (exec (here k) op (x_system s)) as [r y] eqn:Ex. destruct (tier_exec_inv K s _ _ _ _ Hi Hop Ex) as (K' & HK & Hi' & Hr).
  assert (forall f x, answered f (store_result r) = Ok x -> r = Ok x) as Hans by (intros f x; destruct f, r; cbn; congruence).
  destruct (mo_fault mo); [| done | |]; exists K'; (split; [done |]; split; [done |]); cbn [fst]; intros x Hx; eapply Hr, Hans, Hx.
Qed.

Lemma inline_meta k store over now ref data opts d :
  ends (fun m _ => m_Size m = zlen data /\ oi_ETag (m_Info m) = hexEncode (md5 data) /\ oi_OriginETag (m_Info m) = pb_origin (wo_Publication opts) /\ m_Inline m = Some data)
    (PutInline k store over now ref data opts d).
Proof.
  unfold PutInline. apply ends_result. intros po Hpo. do 2 (apply ends_require; intros _). eapply (ends_bind (fun _ _ => True)); [by destruct (put_inline _ _ _ _ _) as [[]|] |].
  intros r d' _. eapply (ends_bind (fun _ _ => True)); [by destruct r |]. intros _ d'' _. cbn. by rewrite (prepare_same _ _ _ _ _ Hpo).
Qed.

Lemma put_sound K s k key data opts : inv K s -> storable o K k key data (wo_Publication opts) ->
  exists K', kle K K' /\ inv K' (run_store t mo k (PutOp key data opts) s).2 /\ forall g, post o t K' g (Put k key data opts) (put_result t mo k key data opts s).
Proof.
  intros Hi Hst. destruct (tier_run_inv K s k (PutOp key data opts) Hi) as (K' & HK & Hi' & _).
  { intros b z Hw. eapply put_fits; [by left | done | done | done]. }
  exists K'. split; [done |]. split; [done |]. intros g. cbn [post]. unfold put_result. 
  pose proof (inline_meta k (t_store t) (mo_over mo) (mo_now mo) (mkObjectRef (mkRef k (t_namespace t)) key) data opts (db_of (x_system s) (mkRef k (t_namespace t)))) as Hm.
  unfold commit. destruct (PutInline _ _ _ _ _ _ _ _) as [[m d]|e]; [| by destruct (mo_fault mo)]. by destruct (mo_fault mo).
Qed.

(** What [Finish] says of a file. *)
Lemma written_file k given d a store over now fid ref srcs cs opts :
  sim k given [] d a -> given !! fid = None -> 1 <= fid < 2 ^ 63 ->
  ends (fun p _ => ps_FileID p = fid /\ ps_Size p = zlen (concat srcs) /\ ps_ETag p = hexEncode (md5 (concat srcs))) (WriteObject k store over now fid ref srcs cs opts d).
Proof.
  intros Hs Hfid Hr. unfold WriteObject. apply ends_result. intros po _. apply ends_require. intros _.
  destruct (Z.leb_spec (zlen (concat srcs)) max_file_size) as [Hle|Hgt]; [| unfold mbind, txn_bind; by rewrite copyRows_too_large].
  destruct (copyRows_spec k given [] d a fid srcs Hs Hfid Hr Hle) as (f & rows & E & _ & _ & Hh & Hsz & Hf).
  eapply (ends_bind (fun x _ => x = f)); [by rewrite E |]. intros x d' ->. apply ends_result. intros po' _. unfold published, digests. rewrite Hh, Hsz, Hf.
  eapply (ends_bind (fun _ _ => True)); [by destruct (publishObject _ _ _ _ _ _) as [[]|] |]. intros _ d1 _.
  eapply (ends_bind (fun _ _ => True)); [by destruct (publishPendingOrigin _ _ _ _ _) as [[]|] | done].
Qed.

(** A write that succeeds, and the content of its file. *)
Lemma exec_write given c proc block key srcs cs opts y z x y' fid rest alloc :
  rep_in given y z -> allocations [(proc, block)] (sy_alloc y) = (fid :: rest, alloc) -> exec c (WriteOp proc block key srcs cs opts) y = (Ok x, y') ->
  given !! fid = None /\ 1 <= fid < 2 ^ 63 /\ rep_from (<[fid := concat srcs]> given) y' (spec_exec c true (WriteOp proc block key srcs cs opts) z).2.
Proof.
  intros (Hal & Hall) Ea. destruct (allocations_inv _ _ _ _ _ Hal Ea) as (Hal' & Hnd & Hids). destruct (Hids fid ltac:(left)) as [Hn%not_elem_of_dom Hr].
  unfold exec, spec_exec. cbn [op_requests]. rewrite Ea. intros Hex. split; [done |]. split; [done |].
  pose proof (related_write (ref_kind (cx_ns c)) given _ _ (cx_store c) (cx_over_quota c) (cx_now c) fid (mkObjectRef (cx_ns c) key) srcs cs opts (Hall (cx_ns c)) Hn Hr) as Hrel.
  cbn [op_tx spec_tx] in *. unfold commit, reply_of, mbind, txn_bind, mret, txn_ret in *. destruct (WriteObject _ _ _ _ _ _ _ _ _ _) as [[p d]|e]; [| done].
  destruct (spec_write _ _ _ _ _ _ _ _ _) as [[w a]|e]; [| done]. destruct Hrel as [_ Hs]. cbn [fst snd sibling_tx sibling_spec] in *. injection Hex as _ <-.
  assert (given ⊆ <[fid := concat srcs]> given) as Hsub by by apply insert_subseteq.
  destruct (rep_insert y z alloc given (<[fid := concat srcs]> given) (list_to_set (fid :: rest) ∪ dom given) (cx_ns c) d a) as (G & HG & Hal1 & Hall1);
    [done | done | rewrite dom_insert_L; set_solver | done | done |].
  destruct (rep_insert (put_db alloc y (cx_ns c) d) (put_spec z (cx_ns c) a) alloc G G (dom G) (sibling (cx_ns c)) (db_of (put_db alloc y (cx_ns c) d) (sibling (cx_ns c)))
    (spec_of (put_spec z (cx_ns c) a) (sibling (cx_ns c)))) as (G2 & HG2 & Hrep2); try done. exists G2. split; [by etrans | done].
Qed.

Lemma write_done K s k key data opts p y :
  inv K s -> storable o K k key data (wo_Publication opts) -> write_result t me mo k key data opts s = Ok p ->
  exec (here k) (WriteOp me (mo_block mo) key [data] [] opts) (x_system s) = (Ok (published_reply p), y) ->
  exists K', kle K K' /\ inv K' (set_system y s) /\ ps_Size p = zlen data /\ ps_ETag p = hexEncode (md5 data) /\ kn_given K' !! ps_FileID p = Some data.
Proof.
  intros Hi Hst Hres Hex. destruct (iv_world _ _ Hi) as (z & Hrep & Hn & Hw). unfold write_result in Hres. destruct Ht as (_ & Hname & _). rewrite Hname in Hres.
  destruct (allocations _ _) as [[|fid rest] alloc] eqn:Ea; [by destruct (mo_fault mo) |]. cbn [fst] in Hres.
  destruct (exec_write _ _ _ _ _ _ _ _ _ _ _ _ _ _ _ Hrep Ea Hex) as (Hnone & Hfid & Hfrom). cbn [concat] in Hfrom. rewrite app_nil_r in Hfrom.
  pose proof (written_file k _ _ _ (t_store t) (mo_over mo) (mo_now mo) fid (mkObjectRef (mkRef k name) key) [data] [] opts (proj2 Hrep (mkRef k name)) Hnone Hfid) as Hp.
  cbn [concat] in Hp. rewrite app_nil_r in Hp. unfold commit in Hres. destruct (WriteObject _ _ _ _ _ _ _ _ _ _) as [[p' d]|e]; [| by destruct (mo_fault mo)].
  assert (p' = p) as -> by (destruct (mo_fault mo); cbn in Hres; congruence). destruct Hp as (Hf & Hsz & He).
  destruct (put_fits o name K (x_ids s) (here k) true (WriteOp me (mo_block mo) key [data] [] opts) z k key data opts) as (K1 & (HK & Hg & Hh & Hfi & Hl) & Hw1); [by eauto | done | done | done |].
  rewrite <- Hg in Hnone, Hfrom. assert (kn_given K1 ⊆ <[fid := data]> (kn_given K1)) as Hsub by by apply insert_subseteq.
  destruct (system_inv K (give K1 (<[fid := data]> (kn_given K1))) s y _ Hi (kle_trans _ _ _ HK (give_away _ _ Hsub)) Hh Hfi Hl Hfrom (spec_exec_named _ _ _ _ Hn) (wfits_give _ _ _ _ Hsub Hw1))
    as (K' & HK' & Hi'). exists K'. split; [eapply kle_trans; [exact HK |]; by eapply kle_trans, HK'; apply give_away |]. split; [done |]. split; [done |]. split; [done |].
  rewrite Hf. eapply lookup_weaken; [| apply HK']. cbn. by rewrite lookup_insert_eq.
Qed.

Lemma write_sound K s k key data opts : inv K s -> storable o K k key data (wo_Publication opts) ->
  exists K', kle K K' /\ inv K' (run_store t mo k (WriteOp me (mo_block mo) key [data] [] opts) s).2 /\
    forall g, post o t K' g (Write k key data opts) (write_result t me mo k key data opts s).
Proof.
  intros Hi Hst. destruct (write_result t me mo k key data opts s) as [p|e] eqn:Hres.
  - assert (exists y, exec (here k) (WriteOp me (mo_block mo) key [data] [] opts) (x_system s) = (Ok (published_reply p), y)) as [y Hex].
    { revert Hres. unfold write_result, exec, here. destruct Ht as (_ & -> & _). cbn [op_requests]. destruct (allocations _ _) as [[|fid rest] alloc]; [by destruct (mo_fault mo) |].
      cbn [fst op_tx cx_ns cx_now cx_over_quota cx_store ref_kind]. unfold commit, reply_of, mbind, txn_bind, mret, txn_ret.
      destruct (WriteObject _ _ _ _ _ _ _ _ _ _) as [[p' d]|e]; [| by destruct (mo_fault mo)].
      destruct (mo_fault mo); cbn; try done; intros [= ->]; by eexists. }
    destruct (write_done K s k key data opts p y Hi Hst Hres Hex) as (K' & HK & Hi' & Hpost). exists K'. split; [done |]. split; [| done].
    unfold run_store. destruct Ht as (_ & -> & _). fold (here k). rewrite Hex. destruct (mo_fault mo) eqn:Ef; try done. unfold write_result in Hres. by rewrite Ef in Hres.
  - destruct (tier_run_inv K s k (WriteOp me (mo_block mo) key [data] [] opts) Hi) as (K' & HK & Hi' & _); [| by exists K'].
    intros b z Hw. eapply put_fits; [by eauto | done | done | done].
Qed.

Lemma op_sound K s k op : inv K s -> good_id (mo_id mo) = true -> mo_id mo ∉ x_ids s -> (forall su, op_ok o K k su (op su)) ->
  let s1 := set_ids ({[mo_id mo]} ∪ x_ids s) s in let r := run_store t mo k (op (mkSupply me (mo_block mo) (mo_locked mo) (mo_id mo))) s1 in
  exists K', kle K K' /\ inv K' r.2 /\ forall g, post o t K' g (Run k op) r.1.
Proof.
  intros Hi Hg Hn Hok s1 r. pose proof (ids_inv K s (mo_id mo) Hi Hg) as Hi1. fold s1 in Hi1. destruct (fresh_token K s (mo_id mo) Hi Hg Hn) as [Hnone _].
  set (su := mkSupply me (mo_block mo) (mo_locked mo) (mo_id mo)) in *. specialize (Hok su).
  destruct (tier_run_inv K s1 k (op su) Hi1) as (K' & HK & Hi' & Hr).
  { intros b z Hw. eapply op_fits; [done | done | exact Hok | cbn; set_solver | done]. }
  exists K'. split; [done |]. split; [done |]. intros g. cbn [post]. fold r in Hr. destruct r.1 as [x|e]; [| done]. intros l ->.
  destruct (Hr _ eq_refl) as (b & z & Hw & Hx). apply (uploads_offered o name K (x_ids s1) (here k) b (op su) z l k); [done | | done | done].
  unfold ours. destruct (op su) as [| | | | | | | | | | | | | | |[]]; try done; by destruct Hok; eauto.
Qed.

(** ** The origin *)

Definition learn (K : know) (g : St) : know := mkKnow (kn_given K) (kn_owed K) (ol_history g) (kn_first K) (kn_log K).

(** What is new at the origin was sent. *)
Definition news (K : know) (g g' : St) : Prop :=
  ol_history g ⊆ ol_history g' /\ forall i c, ol_history g' !! i = Some c -> ol_history g !! i = Some c \/ sent o (kn_first K) (kn_log K) i.1 c.

Lemma news_same K g g' : ol_history g' = ol_history g -> news K g g'.
Proof. intros E. unfold news. rewrite E. auto. Qed.

Lemma origin_inv K s g : inv K s -> ol_wf g -> ol_clock g <= x_clock s -> news K (x_origin s) g -> kle K (learn K g) /\ inv (learn K g) (set_origin g s).
Proof.
  intros [(z & Hrep & Hn & [Hc Hb Htk Hids]) Hf Hl Hh Hse Hwf Hcl] Hg Hcg [Hsub Hnew].
  assert (kle K (learn K g)) as HK by (split; [done |]; split; [done |]; split; [cbn; by rewrite Hh | done]).
  split; [done |]. split; try done; [| intros i c Hi; destruct (Hnew i c Hi) as [Hold|]; [apply Hse; by rewrite Hh | done]].
  exists z. split; [done |]. split; [done |]. split; [| | done | done]; (eapply fits_up; [exact HK | done | | done]); [done |].
  intros _ i u Hu. by destruct (ft_uploads _ _ _ _ _ Hb eq_refl i u Hu).
Qed.

Lemma history_version K s ck v c : inv K s -> ol_history (x_origin s) !! (physicalKey o ck, v) = Some c -> version o K ck v c.
Proof.
  intros Hi Hv. destruct (ol_versions _ _ _ _ (iv_wf _ _ Hi) Hv). rewrite <- (iv_history _ _ Hi) in Hv. split; [done |]. split; [done |]. split; [done |].
  exact (iv_sent _ _ Hi _ _ Hv).
Qed.

Lemma upload_sound K now ck body u g r g' :
  asked_for o K ck body -> ol_wf g -> ol_clock g < now -> good_time now -> zlen body <= max_int64 -> Origin_Upload o now ck body (zlen body) u g = (r, g') ->
  ol_wf g' /\ ol_clock g' <= now /\ news K g g' /\ forall a, r = Ok a -> ol_history g' !! (physicalKey o ck, versionFor a) = Some body.
Proof.
  intros Has Hwf Hcl Htm Hlen. assert (ol_wf g /\ ol_clock g <= now /\ news K g g) as (Hno1 & Hno2 & Hno3) by (split; [done |]; split; [lia | by apply news_same]).
  unfold Origin_Upload. destruct (negb _); [by intros [= <- <-] |]. destruct (match pc_Mode _ with Unconditional => _ | _ => _ end); [by intros [= <- <-] |].
  destruct (dr_Upload _ _ _ _ _ _) as [r0 g0] eqn:E. intros [= <- <-]. destruct (ol_upload _ _ _ _ _ _ _ Hwf Hcl Htm Hlen E) as (H1 & H2 & H3 & H4 & H5).
  split; [done |]. split; [done |]. split; [split; [done |]; intros i c Hi; destruct (H4 i c Hi) as [|[-> ->]]; [by left | by right] |]. intros a Ha. destruct r0 as [a0|]; [| done]. injection Ha as ->. by destruct (H5 a eq_refl).
Qed.

Lemma delete_sound now ck g r g' :
  ol_wf g -> ol_clock g <= now -> good_time now -> Origin_Delete o now ck g = (r, g') -> ol_wf g' /\ ol_clock g' <= now /\ ol_history g' = ol_history g.
Proof. intros Hwf Hcl Htm. unfold Origin_Delete. destruct (negb _); [by intros [= <- <-] |]. by apply ol_delete. Qed.

Lemma delete_many_sound now cks g r g' :
  ol_wf g -> ol_clock g < now -> good_time now -> Origin_DeleteMany o now cks g = (r, g') -> ol_wf g' /\ ol_clock g' <= now /\ ol_history g' = ol_history g.
Proof.
  intros Hwf Hcl Htm. unfold Origin_DeleteMany. destruct cks as [|ck cks]; [intros [= <- <-]; by repeat split; try lia |].
  destruct (negb _); [intros [= <- <-]; by repeat split; try lia |]. destruct dr_DeleteMany as [f|] eqn:Ef.
  - destruct (f _ _ _) as [errs g0] eqn:E. intros [= _ <-]. by eapply ol_delete_many.
  - apply Z.lt_le_incl in Hcl. revert g r Hwf Hcl. generalize (ck :: cks). clear ck cks. intros cks. induction cks as [|ck cks IH]; intros g r Hwf Hcl; cbn [delete_each]; [by intros [= <- <-] |].
    destruct (Origin_Delete _ _ _ _) as [r1 g1] eqn:E1. destruct (delete_sound _ _ _ _ _ Hwf Hcl Htm E1) as (H1 & H2 & H3).
    destruct (delete_each _ _ _ g1) as [rs g2] eqn:E2. intros [= _ <-]. destruct (IH g1 rs H1 H2 E2) as (H4 & H5 & H6). split; [done |]. split; [done | congruence].
Qed.

(** A request that changes the origin. *)
Lemma at_origin_sound {A} K s (f : St -> result origin_error A * St) (P : St -> A -> Prop) :
  inv K s -> x_clock s = mo_now mo ->
  (forall r g, f (x_origin s) = (r, g) -> ol_wf g /\ ol_clock g <= mo_now mo /\ news K (x_origin s) g /\ forall a, r = Ok a -> P g a) ->
  exists K', kle K K' /\ inv K' (at_origin mo f s).2 /\ forall a, (at_origin mo f s).1 = Ok a -> P (x_origin (at_origin mo f s).2) a.
Proof.
  intros Hi Hclk Hf. unfold at_origin. destruct (f (x_origin s)) as [r g]. destruct (Hf r g eq_refl) as (Hwf & Hcl & Hsub & HP). rewrite <- Hclk in Hcl.
  destruct (origin_inv K s g Hi Hwf Hcl Hsub) as [HK Hi'].
  assert (forall fl a, answered fl (origin_result r) = Ok a -> r = Ok a) as Hans by (intros fl a; destruct fl, r; cbn; congruence).
  destruct (mo_fault mo); [| exists K; split; [apply kle_refl | done] | |]; exists (learn K g); (split; [done |]; split; [done |]); cbn [fst snd set_origin x_origin]; intros a Ha; eapply HP, Hans, Ha.
Qed.

(** ** Every action keeps its promise *)

Definition sound (K : know) (e : action) (r : option (answer e * tier_state St)) : Prop :=
  forall g x s', promised o K g -> r = Some (x, s') -> exists K', kle K K' /\ inv K' s' /\ post o t K' g e x.

Lemma sound_same K s e (x : answer e) : inv K s -> (forall g, post o t K g e x) -> sound K e (Some (x, s)).
Proof. intros Hi Hx g x' s' _ [= <- <-]. exists K. split; [apply kle_refl | done]. Qed.

Lemma answered_good {A} (P : A -> Prop) f (r : result tier_error A) : good P r -> good P (answered f r).
Proof. by destruct f. Qed.

Lemma locks_inv K s l : inv K s -> inv K (set_locks l s).
Proof. by intros []. Qed.

Lemma budgets_inv K s b : inv K s -> inv K (set_budgets b s).
Proof. by intros []. Qed.

Lemma read_sound K s e : inv K s -> pre o t K e ->
  match e with GetMetadata _ _ | GetMeta _ _ | GetBody _ _ _ | ReadMany _ _ | GetOriginMetadata _ _ => sound K e (answer_of t me mo e s) | _ => True end.
Proof.
  intros Hi Hpre. destruct e as [| | | | | | | | | | ck inline |k ck|k m rng|keys retention|ck age| | | | | | | | | | |]; try exact I; cbn [pre answer_of] in *.
  - apply sound_same; [done |]. intros g. apply answered_good. unfold cache_metadata. set (body := if inline then _ else _).
    assert (forall k m, ours k -> metadata t mo k ck body s = Ok m -> gone (m_Info m) \/ exists c, cached o K ck (m_Info m) c /\ seen inline K m c) as Hm.
    { intros k m Hk Em. destruct (metadata_sound K s k ck body m Hi Hk (or_intror Hpre) Em) as [Hg|(c & Hc & Hd)]; [by left | right]. exists c. split; [done |].
      intros ->. by apply Hd. }
    destruct (metadata t mo WriteBack ck body s) as [m|e] eqn:E1; [split; [by left | apply (Hm WriteBack); [by left | done]] |].
    destruct e as [[]| | | | | | | | | | | | |]; try done. destruct (metadata t mo Cache ck body s) as [m|e] eqn:E2; [| done].
    split; [by right | apply (Hm Cache); [by right | done]].
  - apply sound_same; [done |]. intros g. apply answered_good. subst k. destruct (metadata t mo WriteBack ck metadataDecoded s) as [m|] eqn:Em; [| done].
    destruct (metadata_sound K s WriteBack ck metadataDecoded m Hi ltac:(by left) ltac:(by left) Em) as [Hg|(c & Hc & Hd)]; [by left | right]. exists c. split; [done | by apply Hd].
  - destruct (Z.leb_spec (m_Size m) max_value) as [Hmax|]; [| done]. apply sound_same; [done |]. intros g. apply answered_good. destruct Ht as (_ & -> & _).
    destruct (read_range _ _ _ _) as [b|] eqn:Er; [exact (body_sound K s k m rng b Hi Hmax Er) | done].
  - destruct (answered _ _) as [[out touch]|err] eqn:Ev; [| by apply sound_same].
    assert (read_values t mo keys retention s = Ok (out, touch)) as Hv by (by destruct (mo_fault mo)).
    pose proof (values_sound K s keys retention out touch Hi Hpre Hv) as Hout. destruct (bool_decide (touch = [])); [by apply sound_same |]. intros g x s' Hg [= <- <-].
    destruct (tier_run_inv K s Cache (CacheOp (TouchOp touch retention)) Hi) as (K' & HK & Hi' & _).
    { intros b z Hw. eapply exec_fits; [done | by right | done | done |]. apply same_fits; [done | by right | done |]. by apply (thin_kept o name); [| right | |]. }
    exists K'. split; [done |]. split; [done |]. cbn. destruct Hout as [Hl Hc]. split; [done |]. intros i key b Hk Hb. destruct (Hc i key b Hk Hb) as (v & Hch). exists v. by eapply chunk_up.
  - apply sound_same; [done |]. intros g. apply answered_good. intros i. unfold OriginMetadata. destruct Ht as (_ & -> & _). destruct (iv_world _ _ Hi) as (z & Hrep & _ & Hw).
    rewrite (sim_origin _ _ _ _ _ (proj2 Hrep (mkRef Cache name))). destruct (s_origin_metadata _ !! ck) as [r|] eqn:Er; cbn; [| done].
    destruct (_ && _); [| done]. intros [= <-]. exact (ft_origin _ _ _ _ _ (wf_cache _ _ _ _ _ Hw) eq_refl ck r Er).
Qed.

Lemma request_sound K s e : inv K s -> ol_clock (x_origin s) < mo_now mo -> x_clock s = mo_now mo -> good_time (mo_now mo) -> pre o t K e ->
  match e with OUpload _ _ _ _ | ODelete _ | ODeleteMany _ | OGet _ | ORange _ _ _ _ | OHead _ => sound K e (answer_of t me mo e s) | _ => True end.
Proof.
  intros Hi Hcl Hclk Htm Hpre. pose proof (iv_wf _ _ Hi) as Hwf. destruct e as [| | | | | | | | | | | | | | | | | |ck body size u|ck|cks|ck|ck offset len ifMatch|ck| |]; try exact I;
    cbn [pre answer_of] in *; destruct Ht as (-> & _ & _).
  - destruct Hpre as [-> Has]. destruct (Z.leb_spec (zlen body) max_int64) as [Hlen|]; [| done]. intros g x s' Hpr Hx.
    destruct (at_origin_sound K s (Origin_Upload o (mo_now mo) ck body (zlen body) u) (fun g a => ol_history g !! (physicalKey o ck, versionFor a) = Some body) Hi Hclk) as (K' & HK & Hi' & Ha).
    { intros r g' E. by eapply upload_sound. }
    destruct (at_origin _ _ _) as [r s1]. injection Hx as <- <-. cbn [fst snd] in *. exists K'. split; [done |]. split; [done |]. destruct r as [a|]; [| done]. cbn. eapply history_version; [done | by apply Ha].
  - intros g x s' Hpr Hx. destruct (at_origin_sound K s (Origin_Delete o (mo_now mo) ck) (fun _ _ => True) Hi Hclk) as (K' & HK & Hi' & _).
    { intros r g' E. destruct (delete_sound (mo_now mo) ck _ _ _ Hwf ltac:(lia) Htm E) as (? & ? & ?). split; [done |]. split; [done |]. split; [by apply news_same | done]. }
    destruct (at_origin _ _ _) as [r s1]. injection Hx as <- <-. by exists K'.
  - intros g x s' Hpr Hx. destruct (Origin_DeleteMany _ _ _ _) as [rs g'] eqn:E. destruct (delete_many_sound _ _ _ _ _ Hwf Hcl Htm E) as (H1 & H2 & H3). rewrite <- Hclk in H2.
    destruct (origin_inv K s g' Hi H1 H2 (news_same K _ _ H3)) as [HK Hi']. destruct (mo_fault mo); injection Hx as <- <-; [by exists (learn K g') | exists K; split; [apply kle_refl | done] | by exists (learn K g') ..].
  - apply sound_same; [done |]. intros g. apply answered_good. unfold Origin_GetWithAttrs. destruct (negb _); [done |]. destruct (dr_GetWithAttrs _ _) as [[b a]|] eqn:E; [| done].
    destruct (ol_get _ _ _ _ Hwf E) as [Hh Hs]. cbn. exists b. split; [by eapply history_version |]. split; [done | apply deliver_carries].
  - apply sound_same; [done |]. intros g. apply answered_good. unfold Origin_GetRange. destruct (negb _); [done |]. destruct (_ && _); [done |].
    destruct (dr_GetRange _ _ _ _ _) as [b|] eqn:E; [| done]. destruct Hpre as [Hoff Hlen]. destruct (ol_range _ _ _ _ _ _ Hwf Hoff Hlen E) as (v & c & Hh & -> & Hif).
    cbn. exists v, c. split; [by eapply history_version |]. split; [apply deliver_carries |]. intros c' (Hc' & [Hne _] & _). apply Hif; [done |]. rewrite (iv_history _ _ Hi) in Hc'. by eexists.
  - apply sound_same; [done |]. intros g. apply answered_good. unfold Origin_Attributes. destruct (negb _); [done |]. destruct (dr_Attributes _ _) as [a|] eqn:E; [| done].
    destruct (ol_attributes _ _ _ Hwf E) as (c & Hh & Hs). cbn. exists c. split; [by eapply history_version | done].
Qed.

Lemma answer_sound K s e : inv K s -> ol_clock (x_origin s) < mo_now mo -> x_clock s = mo_now mo -> good_time (mo_now mo) -> pre o t K e -> sound K e (answer_of t me mo e s).
Proof.
  intros Hi Hcl Hclk Htm Hpre. pose proof (read_sound K s e Hi Hpre) as Hread. pose proof (request_sound K s e Hi Hcl Hclk Htm Hpre) as Hreq.
  destruct e; try exact Hread; try exact Hreq; clear Hread Hreq; cbn [pre answer_of] in *; try (by apply sound_same).
  - destruct (mo_yes mo); [destruct (_ <=? _) |]; try done; by apply sound_same.
  - destruct (good_id (mo_id mo)) eqn:Hg; [| done]. cbn [andb]. case_bool_decide as Hn; [| done]. intros g x s' Hpr [= <- <-]. destruct g as [[ck c]|].
    + destruct (owe_inv K s (mo_id mo) ck c Hi Hg Hn Hpr) as (HK & Hi' & Ho). eexists. split; [exact HK | done].
    + exists K. split; [apply kle_refl |]. split; [by apply ids_inv | done].
  - destruct (x_locks s !! scope me l); [destruct l; [done |]; destruct (mo_yes mo); [done | by apply sound_same] |]. apply sound_same; [by apply locks_inv | done].
  - apply sound_same; [by apply locks_inv | done].
  - destruct (spoolWithBudget _ _ _) as [r rest] eqn:Es. apply sound_same; [by apply budgets_inv |]. intros g. destruct r as [[sp n]|e]; [| done]. exact (spool_body _ _ _ _ _ _ Es).
  - apply sound_same; [by apply budgets_inv | done].
  - intros g x s' Hg [= <- <-]. destruct (put_sound K s k key data opts Hi Hpre) as (K' & HK & Hi' & Hp). by exists K'.
  - intros g x s' Hg [= <- <-]. destruct (write_sound K s k key body opts Hi Hpre) as (K' & HK & Hi' & Hp). by exists K'.
  - destruct (good_id (mo_id mo)) eqn:Hg; [| done]. cbn [andb]. case_bool_decide as Hn; [| done]. intros g x s' Hpr Hx.
    destruct (op_sound K s k o0 Hi Hg Hn Hpre) as (K' & HK & Hi' & Hp). destruct (run_store _ _ _ _ _) as [r s1]. injection Hx as <- <-. by exists K'.
  - by intros g x s'.
Qed.

Lemma handle_sound K s e : inv K s -> good_time (mo_now mo) -> pre o t K e -> sound K e (handle t me mo e s).
Proof.
  intros Hi Htm Hpre. unfold handle. destruct (Z.ltb_spec (x_clock s) (mo_now mo)) as [Hlt|]; [| done]. destruct Hi as [Hw Hf Hl Hh Hs Hwf Hcl].
  apply answer_sound; [by split; try done; cbn; lia | cbn; lia | done | done | done].
Qed.

End State.
