(* ===== verification/TierRuns.v ===== *)
(** * Runs of tiers

    Any number of processes with a tier over one origin and one cache: every
    call that returns has kept its promise.  A read has returned a range of
    bytes that were sent to its key, and a cached read says their size and an
    entity tag that names them; an upload has the size and the digest of the
    body its client sent. *)

From stdpp Require Import gmap sorting.
From S2P Require Import Prelude GoStrings Ns Ranges Precond Blocks Pieces Ids Tables Objects CacheTables ObjectSpec CacheSpec Machine ObjectRep ObjectRead ObjectStore Names LateRead Origin LocalOrigin Spool Tier TierMachine TierLogic TierKeys TierReads TierWrites TierFits TierSafe.

Section Runs.
Context `{ZL : ZstdLaws} `{D : Digests} `{DL : !DigestLaws D} {St : Type} `{OD : OriginDriver St} `{OL : !OriginLaws St} `{MI : Mime, ET : ErrorText}.
Context (o : origin) (name : string).

(** ** Calls and flights *)

(** A copy is of a range of a content of its source. *)
Definition copies (src dst : string) (K : know) (m : Meta) : Prop :=
  exists c start stop, content o K src c /\ m_Size m = zlen (slice c start stop) /\
    oi_ETag (m_Info m) = hexEncode (md5 (slice c start stop)) /\ content o K dst (slice c start stop).

Definition claim (K : know) (j : job) (r : outcome) : Prop :=
  match j, r with
  | JOpen bucket key _, RObject (Ok x) => serves o (tier_key bucket key) K x
  | JHead bucket key, RObject (Ok x) => heads o (tier_key bucket key) K x
  | JUpload bucket key body _, RMeta (Ok m) => uploads o (tier_key bucket key) body K m
  | JCopy sb sk db dk _, RMeta (Ok m) => copies (tier_key sb sk) (tier_key db dk) K m
  | _, _ => True
  end.

(** Keys that cannot be taken for chunks. *)
Definition plain_job (j : job) : Prop :=
  match j with
  | JOpen bucket key _ | JHead bucket key | JUpload bucket key _ _ | JDelete bucket key | JComplete _ bucket key _ _ => plain (tier_key bucket key)
  | JCopy sb sk db dk _ => plain (tier_key sb sk) /\ plain (tier_key db dk)
  | JDeleteMany bucket keys => Forall (fun key => plain (tier_key bucket key)) keys
  | JCreate _ _ _ | JPart _ _ _ _ _ _ _ | JAbort _ _ _ | JRound _ => True
  end.

Lemma claim_stable j : stable (fun K r => claim K j r).
Proof.
  intros K K' r HK. destruct j, r as [[x|]|[m|]| | | | | |]; try done; cbn.
  - intros (body & c & Hb & Hc & Hcar & Hh). exists body, c. split; [done |]. split; [by eapply content_up |]. split; [done |].
    intros Hhit. destruct (Hh Hhit). split; [done | by eapply names_up].
  - intros (c & Hc & Hs & Hn). exists c. split; [by eapply content_up |]. split; [done | by eapply names_up].
  - by apply uploads_stable.
  - intros (c & a & b & Hc & Hs & He & Hd). exists c, a, b. split; [by eapply content_up |]. split; [done |]. split; [done | by eapply content_up].
Qed.

Lemma job_safe t tid me j K :
  good_tier o name t -> plain_job j -> Start tid me j ∈ kn_log K -> safe o t (job_prog t j) (fun K r => claim K j r) K.
Proof.
  intros (_ & _ & Hr) Hp Hin. destruct j; cbn [job_prog plain_job] in *; apply safe_fmap.
  - eapply safe_impl; [| by apply safe_Open]. by intros K' [x|e].
  - eapply safe_impl; [| by apply safe_Head]. by intros K' [x|e].
  - eapply safe_impl; [| apply safe_Upload; [exact Hp | intros Hok; by eapply sent_upload]]. by intros K' [x|e].
  - destruct Hp as [Hs Hd]. eapply safe_impl; [| by eapply safe_Copy]. by intros K' [x|e].
  - eapply safe_impl; [| by apply safe_Delete]. by intros K' [x|e].
  - eapply safe_impl; [| by apply safe_DeleteMany]. done.
  - eapply safe_impl; [| by apply safe_Create]. done.
  - eapply safe_impl; [| by eapply safe_Part]. done.
  - eapply safe_impl; [| apply safe_Complete; [by exists tid, me, bucket, key, listed, opts | done]]. done.
  - eapply safe_impl; [| by apply safe_Abort]. done.
  - eapply safe_impl; [| by apply safe_round]. done.
Qed.

Lemma flight_safe t f K : good_tier o name t -> flight_pre o t K f -> safe o t (flight_prog t f) (fun K r => flight_post o t K f r) K.
Proof.
  intros (_ & _ & Hr) Hp. destruct f as [ck|ck key|ck key v first last]; cbn [flight_prog]; unfold try_bind.
  - take_act r Ha. by destruct r.
  - use_safe safe_fill_flight r Hm. by destruct r.
  - use_safe safe_range_flight r Hm. by destruct r.
Qed.

(** ** The machine *)

Definition flying (K : know) (t : Tier) (key : string) (p : call flight_value) : Prop :=
  exists f, flight_key t f = key /\ flight_pre o t K f /\ safe o t p (fun K r => flight_post o t K f r) K.

Record minv (first : gmap (string * string) bytes) (log : list command) (K : know) (m : machine) : Prop := {
  mi_state : inv o name first log K (mc_state m);
  mi_tiers : forall me t, mc_tiers m !! me = Some t -> good_tier o name t;
  mi_threads : forall tid th, mc_threads m !! tid = Some th ->
    exists t, mc_tiers m !! th_at th = Some t /\ safe o t (th_prog th) (fun K r => claim K (th_job th) r) K;
  mi_flights : forall me key p, mc_flights m !! (me, key) = Some p -> exists t, mc_tiers m !! me = Some t /\ flying K t key p;
  mi_done : forall me j r, (me, j, r) ∈ mc_done m -> claim K j r
}.

Definition good_command (c : command) : Prop :=
  match c with
  | Boot _ t => good_tier o name t
  | Start _ _ j => plain_job j
  | Act _ mo | Fly _ _ mo => good_time (mo_now mo)
  | Outside now _ _ => good_time now
  | _ => True
  end.

Lemma flight_pre_up K K' t f : kle K K' -> flight_pre o t K f -> flight_pre o t K' f.
Proof. intros HK. exact (pre_up o t K K' (Join f) HK). Qed.

Lemma flying_up K K' t key p : kle K K' -> flying K t key p -> flying K' t key p.
Proof.
  intros HK (f & Hk & Hp & Hs). exists f. split; [done |]. split; [by eapply flight_pre_up |]. eapply safe_up; [| exact HK | done]. intros K1 K2 r. by apply flight_post_up.
Qed.

(** More knowledge of a state that is another. *)
Lemma minv_up first log log' K K' m s :
  kle K K' -> minv first log K m -> inv o name first log' K' s -> minv first log' K' (mkMachine s (mc_tiers m) (mc_threads m) (mc_flights m) (mc_done m)).
Proof.
  intros HK [Hs Ht Hth Hfl Hd] Hs'. split; cbn; [done | done | | |].
  - intros tid th Hth'. destruct (Hth tid th Hth') as (t & Htt & Hsafe). exists t. split; [done |]. eapply safe_up; [apply claim_stable | exact HK | done].
  - intros me key p Hp. destruct (Hfl me key p Hp) as (t & Htt & Hf). exists t. split; [done | by eapply flying_up].
  - intros me j r Hin. eapply claim_stable; [exact HK | by eapply Hd].
Qed.

(** The log grows. *)
Definition logged (K : know) (c : command) : know := mkKnow (kn_given K) (kn_owed K) (kn_history K) (kn_first K) (kn_log K ++ [c]).

Lemma logged_up K c : kle K (logged K c).
Proof. split; [done |]. split; [done |]. split; [done |]. split; [done |]. cbn. set_solver. Qed.

Lemma inv_logged first log K s c : inv o name first log K s -> inv o name first (log ++ [c]) (logged K c) s.
Proof.
  intros [(z & Hrep & Hn & [Hc Hb Ht Hi]) Hf Hl Hh Hs Hwf Hcl]. pose proof (logged_up K c) as HK. split; cbn; try done; [| by rewrite Hl |].
  - exists z. split; [done |]. split; [done |]. split; [| | done | done]; (eapply fits_up; [exact HK | done | | done]); [done |].
    intros _ i u Hu. by destruct (ft_uploads _ _ _ _ _ Hb eq_refl i u Hu).
  - intros i x Hx. eapply sent_up; [reflexivity | | by apply Hs]. set_solver.
Qed.

Lemma minv_logged first log K m c : minv first log K m -> minv first (log ++ [c]) (logged K c) m.
Proof.
  intros Hm. pose proof (minv_up _ _ (log ++ [c]) _ _ _ (mc_state m) (logged_up K c) Hm (inv_logged _ _ _ _ c (mi_state _ _ _ _ Hm))) as H. by destruct m.
Qed.

(** ** Steps *)

Section Steps.
Context (first : gmap (string * string) bytes) (log : list command).

Lemma advance_sound {A} K t me mo (p : prog A) Q s p' s' :
  good_tier o name t -> good_time (mo_now mo) -> inv o name first log K s -> safe o t p Q K -> advance t me mo p s = Some (p', s') ->
  exists K', kle K K' /\ inv o name first log K' s' /\ safe o t p' Q K'.
Proof.
  intros Ht Hnow Hi Hs Ha. destruct p as [x|e k]; [done |]. cbn in Ha, Hs. destruct Hs as (Hpre & g & Hg & Hk).
  destruct (handle t me mo e s) as [[x s1]|] eqn:E; [| done]. injection Ha as <- <-.
  destruct (handle_sound o name first log t me mo Ht K s e Hi Hnow Hpre g x s1 Hg E) as (K' & HK & Hi' & Hpost). exists K'. split; [done |]. split; [done | by apply Hk].
Qed.

Lemma step_boot K m me t : minv first log K m -> good_tier o name t -> mc_tiers m !! me = None ->
  minv first log K (mkMachine (mc_state m) (<[me := t]> (mc_tiers m)) (mc_threads m) (mc_flights m) (mc_done m)).
Proof.
  intros [Hs Ht Hth Hfl Hd] Hgood Hnone. assert (forall me' t', mc_tiers m !! me' = Some t' -> <[me := t]> (mc_tiers m) !! me' = Some t') as Hkeep.
  { intros me' t' H. rewrite lookup_insert_ne; [done |]. congruence. }
  split; cbn; try done.
  - intros me' t' [[_ <-]|[_ H]]%lookup_insert_Some; [done | by eapply Ht].
  - intros tid th H. destruct (Hth tid th H) as (t' & Ht' & Hsafe). eauto.
  - intros me' key p H. destruct (Hfl me' key p H) as (t' & Ht' & Hf). eauto.
Qed.

(** A call moves on. *)
Lemma step_thread K K' m tid th s t :
  minv first log K m -> kle K K' -> inv o name first log K' s -> mc_tiers m !! th_at th = Some t -> safe o t (th_prog th) (fun K r => claim K (th_job th) r) K' ->
  minv first log K' (with_threads m s (<[tid := th]> (mc_threads m))).
Proof.
  intros Hm HK Hi Ht Hs. destruct (minv_up _ _ log _ _ _ _ HK Hm Hi) as [H1 H2 H3 H4 H5]. split; cbn in *; try done.
  intros tid' th' [[_ <-]|[_ H]]%lookup_insert_Some; [by exists t | by eapply H3].
Qed.

Lemma step_act K m tid mo th t p s :
  minv first log K m -> good_time (mo_now mo) -> mc_threads m !! tid = Some th -> mc_tiers m !! th_at th = Some t ->
  advance t (th_at th) mo (th_prog th) (mc_state m) = Some (p, s) ->
  exists K', minv first log K' (with_threads m s (<[tid := mkThread (th_at th) (th_job th) p]> (mc_threads m))).
Proof.
  intros Hm Hnow Hth Ht Ha. destruct (mi_threads _ _ _ _ Hm tid th Hth) as (t' & Ht' & Hs). assert (t' = t) as -> by congruence.
  destruct (advance_sound K t (th_at th) mo _ _ _ _ _ (mi_tiers _ _ _ _ Hm _ _ Ht) Hnow (mi_state _ _ _ _ Hm) Hs Ha) as (K' & HK & Hi & Hp).
  exists K'. by eapply step_thread.
Qed.

(** A flight moves on. *)
Lemma step_flight K K' m me key p s t :
  minv first log K m -> kle K K' -> inv o name first log K' s -> mc_tiers m !! me = Some t -> flying K' t key p ->
  minv first log K' (with_flights m s (<[(me, key) := p]> (mc_flights m))).
Proof.
  intros Hm HK Hi Ht Hf. destruct (minv_up _ _ log _ _ _ _ HK Hm Hi) as [H1 H2 H3 H4 H5]. split; cbn in *; try done.
  intros me' key' p' [[[= <- <-] <-]|[_ H]]%lookup_insert_Some; [by exists t | by eapply H4].
Qed.

Lemma step_fly K m me key mo p t p' s :
  minv first log K m -> good_time (mo_now mo) -> mc_flights m !! (me, key) = Some p -> mc_tiers m !! me = Some t ->
  advance t me mo p (mc_state m) = Some (p', s) -> exists K', minv first log K' (with_flights m s (<[(me, key) := p']> (mc_flights m))).
Proof.
  intros Hm Hnow Hp Ht Ha. destruct (mi_flights _ _ _ _ Hm me key p Hp) as (t' & Ht' & f & Hk & Hpre & Hs). assert (t' = t) as -> by congruence.
  destruct (advance_sound K t me mo _ _ _ _ _ (mi_tiers _ _ _ _ Hm _ _ Ht) Hnow (mi_state _ _ _ _ Hm) Hs Ha) as (K' & HK & Hi & Hp').
  exists K'. eapply step_flight; [done | done | done | done |]. exists f. split; [done |]. split; [by eapply flight_pre_up | done].
Qed.

(** A program that waits for a flight. *)
Lemma waits_safe {A} K t (p : prog A) Q f k :
  safe o t p Q K -> waits p = Some (f, k) -> flight_pre o t K f /\ forall r K', kle K K' -> flight_post o t K' f r -> safe o t (k r) Q K'.
Proof.
  intros Hs Hw. destruct p as [x|e k']; [done |]. destruct e; try done. cbn in Hw, Hs. injection Hw as <- <-. destruct Hs as (Hpre & g & _ & Hk). split; [exact Hpre |].
  intros r K' HK Hr. by apply Hk.
Qed.

Lemma step_launch K m tid th t f k :
  minv first log K m -> mc_threads m !! tid = Some th -> mc_tiers m !! th_at th = Some t -> waits (th_prog th) = Some (f, k) ->
  minv first log K (with_flights m (mc_state m) (<[(th_at th, flight_key t f) := flight_prog t f]> (mc_flights m))).
Proof.
  intros Hm Hth Ht Hw. destruct (mi_threads _ _ _ _ Hm tid th Hth) as (t' & Ht' & Hs). assert (t' = t) as -> by congruence. destruct (waits_safe _ _ _ _ _ _ Hs Hw) as [Hpre _].
  eapply step_flight; [done | apply kle_refl | apply Hm | done |]. exists f. split; [done |]. split; [done |]. apply flight_safe; [by eapply Hm | done].
Qed.

Lemma step_land K m me key r chosen t :
  minv first log K m -> mc_tiers m !! me = Some t -> mc_flights m !! (me, key) = Some (Ret r) ->
  minv first log K (mkMachine (mc_state m) (mc_tiers m) (map_imap (fun tid th => Some (land_on t me key r (chosen tid) th)) (mc_threads m))
    (delete (me, key) (mc_flights m)) (mc_done m)).
Proof.
  intros Hm Ht Hp. destruct (mi_flights _ _ _ _ Hm me key _ Hp) as (t' & Ht' & f & Hk & Hpre & Hpost). assert (t' = t) as -> by congruence. cbn in Hpost.
  destruct Hm as [H1 H2 H3 H4 H5]. split; cbn; try done; [| intros me' key' p' [_ H]%lookup_delete_Some; by eapply H4].
  intros tid th. rewrite map_lookup_imap. destruct (mc_threads m !! tid) as [th0|] eqn:Eth; [| done]. cbn. intros [= <-].
  destruct (H3 tid th0 Eth) as (t0 & Ht0 & Hs0). unfold land_on. destruct (waits (th_prog th0)) as [[f0 k0]|] eqn:Ew; [| by exists t0].
  destruct (chosen tid && bool_decide (th_at th0 = me) && bool_decide (flight_key t f0 = key)) eqn:Eb; [| by exists t0]. rewrite !andb_true_iff, !bool_decide_eq_true in Eb.
  destruct Eb as [[_ Hat] Hkey]. rewrite Hat, Ht in Ht0. injection Ht0 as <-. cbn. rewrite Hat. exists t. split; [done |].
  destruct (waits_safe _ _ _ _ _ _ Hs0 Ew) as [Hpre0 Hk0]. apply Hk0; [apply kle_refl |]. eapply (flight_shared o t); [exact Hpre | done | congruence | done].
Qed.

Lemma step_give_up K m tid th f k :
  minv first log K m -> mc_threads m !! tid = Some th -> waits (th_prog th) = Some (f, k) ->
  minv first log K (with_threads m (mc_state m) (<[tid := mkThread (th_at th) (th_job th) (k (Err Cancelled))]> (mc_threads m))).
Proof.
  intros Hm Hth Hw. destruct (mi_threads _ _ _ _ Hm tid th Hth) as (t & Ht & Hs). destruct (waits_safe _ _ _ _ _ _ Hs Hw) as [_ Hk].
  eapply step_thread; [done | apply kle_refl | apply Hm | done |]. by apply Hk; [apply kle_refl |].
Qed.

Lemma step_finish K m tid th r :
  minv first log K m -> mc_threads m !! tid = Some th -> th_prog th = Ret r ->
  minv first log K (mkMachine (mc_state m) (mc_tiers m) (delete tid (mc_threads m)) (mc_flights m) (mc_done m ++ [(th_at th, th_job th, r)])).
Proof.
  intros [H1 H2 H3 H4 H5] Hth Hr. destruct (H3 tid th Hth) as (t & _ & Hs). rewrite Hr in Hs. split; cbn; try done.
  - intros tid' th' [_ H]%lookup_delete_Some. by eapply H3.
  - intros me j r' [Hin|[= -> -> ->]%list_elem_of_singleton]%elem_of_app; [by eapply H5 | done].
Qed.

Lemma step_crash K m me : minv first log K m -> minv first log K (mkMachine (set_budgets (delete me (x_budgets (mc_state m)))
    (set_locks (filter (fun kv => kv.2 <> me) (x_locks (mc_state m))) (mc_state m))) (delete me (mc_tiers m))
  (filter (fun kv => th_at kv.2 <> me) (mc_threads m)) (filter (fun kv => kv.1.1 <> me) (mc_flights m)) (mc_done m)).
Proof.
  intros [H1 H2 H3 H4 H5]. split; cbn; try done; [by apply budgets_inv, locks_inv | | |].
  - intros me' t [_ H]%lookup_delete_Some. by eapply H2.
  - intros tid th [H Hne]%map_lookup_filter_Some. destruct (H3 tid th H) as (t & Ht & Hs). exists t. split; [| done]. cbn in Hne. by rewrite lookup_delete_ne.
  - intros me' key p [H Hne]%map_lookup_filter_Some. destruct (H4 me' key p H) as (t & Ht & Hf). exists t. split; [| done]. cbn in Hne. by rewrite lookup_delete_ne.
Qed.

(** The world moves on. *)
Lemma step_world K K' m s : minv first log K m -> kle K K' -> inv o name first log K' s -> minv first log K' (with_threads m s (mc_threads m)).
Proof. intros Hm HK Hi. by eapply minv_up. Qed.

Lemma later_inv K s now s' : inv o name first log K s -> later now s = Some s' -> inv o name first log K s' /\ ol_clock (x_origin s') < now /\ x_clock s' = now.
Proof.
  intros [Hw Hf Hl Hh Hs Hwf Hcl]. unfold later. destruct (Z.ltb_spec (x_clock s) now); [| done]. intros [= <-]. split; [split; try done; cbn; lia | cbn; split; [lia | done]].
Qed.

Lemma step_outside K m now key change s g :
  minv first log K m -> good_time now -> Outside now key change ∈ log -> later now (mc_state m) = Some s ->
  match change with
  | Some (b, u) => if zlen b <=? max_int64 then Some (dr_Upload now key b (zlen b) u (x_origin s)).2 else None
  | None => Some (dr_Delete now key (x_origin s)).2
  end = Some g ->
  exists K', minv first log K' (with_threads m (set_origin g s) (mc_threads m)).
Proof.
  intros Hm Hnow Hin Hl Hg. destruct (later_inv K _ now s (mi_state _ _ _ _ Hm) Hl) as (Hi & Hcl & Hclk). pose proof (iv_wf _ _ _ _ _ _ Hi) as Hwf.
  assert (ol_wf g /\ ol_clock g <= now /\ news o K (x_origin s) g) as (Hwg & Hcg & Hnew).
  { destruct change as [[b u]|].
    - destruct (Z.leb_spec (zlen b) max_int64) as [Hle|]; [| done]. injection Hg as <-. destruct (dr_Upload _ _ _ _ _ _) as [r g0] eqn:E.
      destruct (ol_upload _ _ _ _ _ _ _ Hwf Hcl Hnow Hle E) as (H1 & H2 & H3 & H4 & _). split; [done |]. split; [done |]. split; [done |]. intros i c Hc.
      destruct (H4 i c Hc) as [|[-> ->]]; [by left | right]. rewrite (iv_log _ _ _ _ _ _ Hi). by eapply sent_outside.
    - injection Hg as <-. destruct (dr_Delete _ _ _) as [r g0] eqn:E. destruct (ol_delete _ _ _ _ _ Hwf (Z.lt_le_incl _ _ Hcl) Hnow E) as (H1 & H2 & H3).
      split; [done |]. split; [done | by apply news_same]. }
  rewrite <- Hclk in Hcg. destruct (origin_inv o name first log K s g Hi Hwg Hcg Hnew) as [HK Hi']. exists (learn K g). by eapply step_world.
Qed.

Lemma step_maintain K m c op s k :
  minv first log K m -> later (cx_now c) (mc_state m) = Some s -> maintenance op = true -> cx_ns c = mkRef k name -> ours k ->
  exists K', minv first log K' (with_threads m (set_system (exec c op (x_system s)).2 s) (mc_threads m)).
Proof.
  intros Hm Hl Hop Hns Hk. destruct (later_inv K _ _ s (mi_state _ _ _ _ Hm) Hl) as (Hi & _ & _). destruct (exec c op (x_system s)) as [r y] eqn:E.
  destruct (tier_exec_inv o name first log K s c op r y Hi) as (K' & HK & Hi' & _); [intros b z Hw; by eapply maintenance_fits | done |]. exists K'. by eapply step_world.
Qed.

Lemma step_else K m c op s :
  minv first log K m -> later (cx_now c) (mc_state m) = Some s -> ref_name (cx_ns c) <> name ->
  exists K', minv first log K' (with_threads m (set_system (exec c op (x_system s)).2 s) (mc_threads m)).
Proof.
  intros Hm Hl Hns. destruct (later_inv K _ _ s (mi_state _ _ _ _ Hm) Hl) as (Hi & _ & _). destruct (exec c op (x_system s)) as [r y] eqn:E.
  destruct (tier_exec_inv o name first log K s c op r y Hi) as (K' & HK & Hi' & _); [intros b z Hw; by apply else_fits | done |]. exists K'. by eapply step_world.
Qed.

Lemma step_sound K m c m' : minv first log K m -> c ∈ log -> good_command c -> mstep name c m = Some m' -> exists K', minv first log K' m'.
Proof.
  intros Hm Hin Hgood. destruct c as [me t|tid me j|tid mo|me key mo|tid|me key chosen|tid|tid|me|now key change|c op|c op]; cbn [mstep good_command] in *.
  - destruct (mc_tiers m !! me) eqn:E; [done |]. intros [= <-]. exists K. by apply step_boot.
  - destruct (mc_tiers m !! me) as [t|] eqn:Et; [| done]. destruct (mc_threads m !! tid) eqn:Eth; [done |]. intros [= <-]. exists K.
    eapply step_thread; [done | apply kle_refl | apply Hm | done |]. eapply job_safe; [by eapply Hm | done |]. rewrite (iv_log _ _ _ _ _ _ (mi_state _ _ _ _ Hm)). exact Hin.
  - destruct (mc_threads m !! tid) as [th|] eqn:Eth; cbn; [| done]. destruct (mc_tiers m !! th_at th) as [t|] eqn:Et; cbn; [| done].
    destruct (advance _ _ _ _ _) as [[p s]|] eqn:Ea; cbn; [| done]. intros [= <-]. by eapply step_act.
  - destruct (mc_flights m !! (me, key)) as [p|] eqn:Ep; cbn; [| done]. destruct (mc_tiers m !! me) as [t|] eqn:Et; cbn; [| done].
    destruct (advance _ _ _ _ _) as [[p' s]|] eqn:Ea; cbn; [| done]. intros [= <-]. by eapply step_fly.
  - destruct (mc_threads m !! tid) as [th|] eqn:Eth; cbn; [| done]. destruct (mc_tiers m !! th_at th) as [t|] eqn:Et; cbn; [| done].
    destruct (waits _) as [[f k]|] eqn:Ew; cbn; [| done]. destruct (mc_flights m !! _); [done |]. intros [= <-]. exists K. by eapply step_launch.
  - destruct (mc_tiers m !! me) as [t|] eqn:Et; cbn; [| done]. destruct (mc_flights m !! _) as [[r|]|] eqn:Ep; [| done..]. intros [= <-]. exists K. by apply step_land.
  - destruct (mc_threads m !! tid) as [th|] eqn:Eth; cbn; [| done]. destruct (waits _) as [[f k]|] eqn:Ew; cbn; [| done]. intros [= <-]. exists K. by eapply step_give_up.
  - destruct (mc_threads m !! tid) as [th|] eqn:Eth; cbn; [| done]. destruct (th_prog th) as [r|] eqn:Er; [| done]. intros [= <-]. exists K. by eapply step_finish.
  - intros [= <-]. exists K. by apply step_crash.
  - destruct (later _ _) as [s|] eqn:El; cbn; [| done]. destruct (match change with Some _ => _ | None => _ end) as [g|] eqn:Eg; cbn; [| done]. intros [= <-]. by eapply step_outside.
  - destruct (later _ _) as [s|] eqn:El; cbn; [| done]. destruct (maintenance op) eqn:Eo; [| done]. cbn [andb].
    destruct (bool_decide (cx_ns c = CacheRef name)) eqn:Ec; [apply bool_decide_eq_true in Ec; intros [= <-]; eapply step_maintain; [done | done | done | exact Ec | by right] |].
    cbn [orb]. destruct (bool_decide (cx_ns c = WriteBackRef name)) eqn:Ew; [| done]. apply bool_decide_eq_true in Ew. intros [= <-]. eapply step_maintain; [done | done | done | exact Ew | by left].
  - destruct (later _ _) as [s|] eqn:El; cbn; [| done]. case_bool_decide as Hne; [| done]. intros [= <-]. by eapply step_else.
Qed.

End Steps.

Lemma new_minv g : ol_wf g -> ol_clock g <= 0 -> exists K, minv (ol_history g) [] K (new_machine g).
Proof.
  intros Hwf Hcl. exists (mkKnow ∅ ∅ (ol_history g) (ol_history g) []). split; [| done | done | done | by intros me j r ?%elem_of_nil]. cbn. split; try done.
  - exists empty_world. split; [apply rep_in_new |]. split; [apply empty_named |]. split; try done; split; done.
  - intros [pk v] c Hc. by eapply sent_first.
Qed.

Lemma run_sound first cs log K m m' : minv first log K m -> Forall good_command cs -> mrun name cs m = Some m' -> exists K', minv first (log ++ cs) K' m'.
Proof.
  revert log K m. induction cs as [|c cs IH]; intros log K m Hm Hgood; cbn [mrun]; [intros [= <-]; exists K; by rewrite app_nil_r |].
  apply Forall_cons in Hgood as [Hc Hcs]. destruct (mstep name c m) as [m1|] eqn:E; [| done]. cbn. intros Hrun. apply (minv_logged _ _ _ _ c) in Hm.
  destruct (step_sound first (log ++ [c]) _ m c m1 Hm ltac:(set_solver) Hc E) as (K1 & Hm1). destruct (IH _ _ _ Hm1 Hcs Hrun) as (K' & HK').
  exists K'. by rewrite <- app_assoc in HK'.
Qed.

(** ** What a run leaves *)

(** An entity tag names a content: it is the version of the origin with that
    content, or made of digests of it. *)
Definition named_by (m : machine) (ck etag : string) (c : bytes) : Prop :=
  ol_history (x_origin (mc_state m)) !! (physicalKey o ck, etag) = Some c \/ exists l, etag = tag_of l c.

(** A body that is a range of [c], or the beginning of it when it breaks off. *)
Definition delivers (body : source) (c : bytes) (start stop : Z) : Prop :=
  (st_ok body = true -> st_bytes body = slice c start stop) /\ exists n, st_bytes body = slice (slice c start stop) 0 n.

Lemma names_by first log K m ck etag c : minv first log K m -> names o K ck etag c -> named_by m ck etag c.
Proof. intros Hm [(Hv & _)|Hl]; [left | by right]. by rewrite <- (iv_history _ _ _ _ _ _ (mi_state _ _ _ _ Hm)). Qed.

Lemma content_sent first log K m ck c : minv first log K m -> content o K ck c -> sent o first log (physicalKey o ck) c.
Proof.
  intros Hm Hc%content_asked. unfold asked_for in Hc. by rewrite (iv_first _ _ _ _ _ _ (mi_state _ _ _ _ Hm)), (iv_log _ _ _ _ _ _ (mi_state _ _ _ _ Hm)) in Hc.
Qed.

Lemma run_minv g cs m : ol_wf g -> ol_clock g <= 0 -> Forall good_command cs -> mrun name cs (new_machine g) = Some m -> exists K, minv (ol_history g) cs K m.
Proof. intros Hwf Hcl Hgood Hrun. destruct (new_minv g Hwf Hcl) as (K & Hm). exact (run_sound _ cs [] K _ m Hm Hgood Hrun). Qed.

(** C2: reads through any number of tiers.  Processes share an origin and a
    cache; their calls interleave action by action, share flights, lose requests
    and answers, are cut off and crash; other clients write to the origin, the
    maintenance expires, evicts and reaps, and anything happens in other
    namespaces.  A read that returns an object returns a range of bytes that were
    sent to its key as one content - they were there at first, another client put
    them there, or a client of a tier uploaded, copied or assembled them - never
    a mixture, nor bytes of another key.  On a hit, and for every [HEAD], the size
    is that of this very content, and the entity tag names it. *)
Theorem tier_reads (g : St) (cs : list command) (m : machine) (Hwf : ol_wf g) (Hcl : ol_clock g <= 0) (Hgood : Forall good_command cs)
    (Hrun : mrun name cs (new_machine g) = Some m) :
  (forall me bucket key rng x, (me, JOpen bucket key rng, RObject (Ok x)) ∈ mc_done m ->
    exists body c, to_Body x = Some body /\ sent o (ol_history g) cs (physicalKey o (tier_key bucket key)) c /\
      delivers body c (to_Start x) (to_End x + 1) /\
      (to_Hit x = true -> oi_Size (to_Info x) = zlen c /\ named_by m (tier_key bucket key) (oi_ETag (to_Info x)) c)) /\
  (forall me bucket key x, (me, JHead bucket key, RObject (Ok x)) ∈ mc_done m ->
    exists c, sent o (ol_history g) cs (physicalKey o (tier_key bucket key)) c /\
      oi_Size (to_Info x) = zlen c /\ named_by m (tier_key bucket key) (oi_ETag (to_Info x)) c).
Proof.
  destruct (run_minv g cs m Hwf Hcl Hgood Hrun) as (K & Hm). split; [intros me bucket key rng x Hin | intros me bucket key x Hin]; apply (mi_done _ _ _ _ Hm) in Hin; cbn in Hin.
  - destruct Hin as (body & c & Hb & Hc & Hcar & Hhit). exists body, c. split; [done |]. split; [by eapply content_sent |]. split; [done |].
    intros H. destruct (Hhit H) as [Hs Hn]. split; [done | by eapply names_by].
  - destruct Hin as (c & Hc & Hs & Hn). exists c. split; [by eapply content_sent |]. split; [done | by eapply names_by].
Qed.

(** C6: uploads through any number of tiers, in the same runs.  An upload that is
    acknowledged has taken the whole body its client sent, says its size and
    digest, and the body is a version of the object at the origin, the one it
    names, unless it was only written back and shows a token.  A copy is of a
    range of one content of its source. *)
Theorem tier_uploads (g : St) (cs : list command) (m : machine) (Hwf : ol_wf g) (Hcl : ol_clock g <= 0) (Hgood : Forall good_command cs)
    (Hrun : mrun name cs (new_machine g) = Some m) :
  (forall me bucket key body opts x, (me, JUpload bucket key body opts, RMeta (Ok x)) ∈ mc_done m ->
    st_ok body = true /\ m_Size x = zlen (st_bytes body) /\ oi_ETag (m_Info x) = hexEncode (md5 (st_bytes body)) /\
    (ol_history (x_origin (mc_state m)) !! (physicalKey o (tier_key bucket key), oi_OriginETag (m_Info x)) = Some (st_bytes body) \/
     IsPending (ParseCacheVersion (oi_OriginETag (m_Info x))) = true)) /\
  (forall me sb sk db dk opts x, (me, JCopy sb sk db dk opts, RMeta (Ok x)) ∈ mc_done m ->
    exists c start stop, sent o (ol_history g) cs (physicalKey o (tier_key sb sk)) c /\
      m_Size x = zlen (slice c start stop) /\ oi_ETag (m_Info x) = hexEncode (md5 (slice c start stop))).
Proof.
  destruct (run_minv g cs m Hwf Hcl Hgood Hrun) as (K & Hm). split; [intros me bucket key body opts x Hin | intros me sb sk db dk opts x Hin];
    apply (mi_done _ _ _ _ Hm) in Hin; cbn in Hin.
  - destruct Hin as (Hok & Hs & He & Hv). repeat (split; [done |]). destruct Hv as [(Hv & _)|(_ & Hv & _)]; [left | by right].
    by rewrite <- (iv_history _ _ _ _ _ _ (mi_state _ _ _ _ Hm)).
  - destruct Hin as (c & a & b & Hc & Hs & He & _). exists c, a, b. split; [by eapply content_sent | done].
Qed.

(** C3: the origin stays intact.  Whatever the tiers do in such a run - uploads at
    once, bodies written back and flushed later by any process, multipart uploads
    assembled in the cache - every content the origin ever has under a key was
    sent to that key as a whole. *)
Theorem origin_intact (g : St) (cs : list command) (m : machine) (Hwf : ol_wf g) (Hcl : ol_clock g <= 0) (Hgood : Forall good_command cs)
    (Hrun : mrun name cs (new_machine g) = Some m) (pk v : string) (c : bytes) (Hc : ol_history (x_origin (mc_state m)) !! (pk, v) = Some c) :
  sent o (ol_history g) cs pk c.
Proof.
  destruct (run_minv g cs m Hwf Hcl Hgood Hrun) as (K & Hm). pose proof (mi_state _ _ _ _ Hm) as Hi. rewrite <- (iv_history _ _ _ _ _ _ Hi) in Hc.
  pose proof (iv_sent _ _ _ _ _ _ Hi _ _ Hc) as Hs. by rewrite (iv_first _ _ _ _ _ _ Hi), (iv_log _ _ _ _ _ _ Hi) in Hs.
Qed.

End Runs.

(** ** Runs on a local origin *)

Section Sample.
#[local] Existing Instance toy_digests.
#[local] Existing Instance toy_digest_laws.
#[local] Instance sample_mime : Mime := fun _ => "".
#[local] Instance sample_text : ErrorText := fun _ => "failed".

Definition sample_origin : origin := mkOrigin originCapabilitiesAll "" false.
Definition sample_tier : Tier := mkTier sample_origin "c" (60 * second) (3600 * second) 65536 false true "w" 0 1.

Abbreviation machinery := (list command * machine (St := local_origin))%type.

(** A moment of a process that is not disturbed: no lease is lost. *)
Definition calm_moment (e : action) (now : Z) : moment :=
  mkMoment now (fun _ => false) (fun _ => false) (seqZ (64 * now + 1) 64) (FormatInt now) 4 Fine (match e with LeaseLost => false | _ => true end).

(** What a call does next, and the commands that were played so far. *)
Definition next_command (tid : nat) (m : machine (St := local_origin)) : option command :=
  th ← mc_threads m !! tid;
  let now := x_clock (mc_state m) + 1 in
  match th_prog th with
  | Ret _ => Some (Finish tid)
  | Do e k =>
      match waits (th_prog th) with
      | None => Some (Act tid (calm_moment e now))
      | Some (f, _) =>
          let key := flight_key sample_tier f in
          match mc_flights m !! (th_at th, key) with
          | None => Some (Launch tid)
          | Some (Ret _) => Some (Land (th_at th) key (fun _ => true))
          | Some (Do e _) => Some (Fly (th_at th) key (calm_moment e now))
          end
      end
  end.

Definition play (c : command) (x : machinery) : machinery :=
  match mstep "c" c x.2 with Some m => (x.1 ++ [c], m) | None => x end.

(** A call until it is done, or until its next action is [until]. *)
Fixpoint drive (n : nat) (until : action -> bool) (tid : nat) (x : machinery) : machinery :=
  match n with
  | O => x
  | S n =>
      if match mc_threads x.2 !! tid with Some th => match th_prog th with Do e _ => until e | Ret _ => false end | None => true end then x
      else match next_command tid x.2 with Some c => drive n until tid (play c x) | None => x end
  end.

Definition call_from (me tid : nat) (j : job) (x : machinery) : machinery := drive 200 (fun _ => false) tid (play (Start tid me j) x).

Definition boot : machinery := play (Boot 1 sample_tier) (play (Boot 0 sample_tier) ([], new_machine new_local_origin)).

Definition plain_upload : originUpload := mkOriginUpload [] "" "" None (mkPrecondition Unconditional "").
Definition upload_opts : Tier.UploadOptions := mkTierUpload (-1) [] "" "" None "" (mkPrecondition Unconditional "") false.

(** The identifier of the upload that was created last. *)
Definition created (x : machinery) : string := match last (mc_done x.2) with Some (_, _, RCreated (Ok id)) => id | _ => "" end.

Definition multipart (x : machinery) : machinery :=
  let x := call_from 0 1 (JCreate "b" "m" (mkUploadOptions None octet_stream "" None)) x in
  let id := created x in
  let part := replicate 30 (chr 77) in
  let x := call_from 1 1 (JPart id "b" "m" 1 [part] [] 0) x in
  call_from 0 1 (JComplete id "b" "m" [mkListedPart 1 (hexEncode (md5 part)) None] (mkWriteOptions (mkPrecondition Unconditional "") None "" "" None None "" None false (NormalPublication "") None 0)) x.

(** Another client writes an object, two processes read it, one uploads
    another, both assemble a third in parts, and a worker uploads it. *)
Definition sample_calls : machinery :=
  let x := play (Outside 1 "b/k" (Some (replicate 100 (chr 65), plain_upload))) boot in
  let x := call_from 0 1 (JOpen "b" "k" WholeObjectRange) x in
  let x := call_from 1 1 (JOpen "b" "k" (Range 10 19 (-1))) x in
  let x := call_from 0 1 (JUpload "b" "u" (mkStream [replicate 5 (chr 66); replicate 4 (chr 67)] true) upload_opts) x in
  let x := call_from 1 1 (JHead "b" "u") x in
  call_from 1 1 (JRound "w") (multipart x).

Definition sample_commands : list command := sample_calls.1.
Definition sample_machine : machine (St := local_origin) := sample_calls.2.

#[local] Instance origin_eq_dec : EqDecision origin.
Proof. solve_decision. Defined.

#[local] Instance good_time_dec now : Decision (good_time now).
Proof. unfold good_time. apply _. Defined.

#[local] Instance good_tier_dec o name t : Decision (good_tier o name t).
Proof. unfold good_tier. apply _. Defined.

#[local] Instance plain_job_dec j : Decision (plain_job j).
Proof. unfold plain, plain_job. destruct j; apply _. Defined.

#[local] Instance good_command_dec o name c : Decision (good_command o name c).
Proof. destruct c; cbn; apply _. Defined.

Lemma sample_good : Forall (good_command sample_origin "c") sample_commands.
Proof. apply (bool_decide_unpack _). vm_compute. exact I. Qed.

Lemma sample_runs : mrun "c" sample_commands (new_machine new_local_origin) = Some sample_machine.
Proof. vm_compute. reflexivity. Qed.

Lemma sample_wf : ol_wf new_local_origin /\ ol_clock new_local_origin <= 0.
Proof. split; [apply new_local_wf | done]. Qed.

Lemma tier_reads_witness : exists x body c, mc_done sample_machine !! 1%nat = Some (1%nat, JOpen "b" "k" (Range 10 19 (-1)), RObject (Ok x)) /\
  to_Hit x = true /\ to_Body x = Some body /\ st_bytes body = replicate 10 (chr 65) /\
  sent sample_origin ∅ sample_commands "b/k" c /\ delivers body c 10 20 /\ oi_Size (to_Info x) = zlen c /\ named_by sample_origin sample_machine "b/k" (oi_ETag (to_Info x)) c.
Proof.
  destruct (tier_reads sample_origin "c" new_local_origin sample_commands sample_machine (proj1 sample_wf) (proj2 sample_wf) sample_good sample_runs) as [Hreads _].
  assert (exists x, mc_done sample_machine !! 1%nat = Some (1%nat, JOpen "b" "k" (Range 10 19 (-1)), RObject (Ok x)) /\ to_Hit x = true /\
    (to_Start x, to_End x + 1) = (10, 20) /\ st_bytes <$> to_Body x = Some (replicate 10 (chr 65))) as (x & Hx & Hhit & [= Hs He] & Hb) by (vm_compute; by eexists).
  destruct (Hreads _ _ _ _ _ (list_elem_of_lookup_2 _ _ _ Hx)) as (body & c & Hbody & Hsent & Hd & Hh). destruct (Hh Hhit) as [Hsize Hn]. rewrite Hs, He in Hd.
  exists x, body, c. split; [exact Hx |]. split; [exact Hhit |]. split; [exact Hbody |].
  split; [rewrite Hbody in Hb; injection Hb as Hb; exact Hb |]. split; [exact Hsent |]. split; [exact Hd |]. split; [exact Hsize | exact Hn].
Defined.

Lemma tier_uploads_witness : exists body x, mc_done sample_machine !! 2%nat = Some (0%nat, JUpload "b" "u" body upload_opts, RMeta (Ok x)) /\
  m_Size x = 9 /\ m_Size x = zlen (st_bytes body) /\ oi_ETag (m_Info x) = hexEncode (md5 (st_bytes body)) /\
  ol_history (x_origin (mc_state sample_machine)) !! ("b/u", oi_OriginETag (m_Info x)) = Some (st_bytes body).
Proof.
  destruct (tier_uploads sample_origin "c" new_local_origin sample_commands sample_machine (proj1 sample_wf) (proj2 sample_wf) sample_good sample_runs) as [Hups _].
  assert (exists body x, mc_done sample_machine !! 2%nat = Some (0%nat, JUpload "b" "u" body upload_opts, RMeta (Ok x)) /\ m_Size x = 9 /\
    IsPending (ParseCacheVersion (oi_OriginETag (m_Info x))) = false) as (body & x & Hx & H9 & Hp) by (vm_compute; by eexists _, _).
  destruct (Hups _ _ _ _ _ _ (list_elem_of_lookup_2 _ _ _ Hx)) as (Hok & Hsize & He & [Hh|Hh]); [| rewrite Hp in Hh; discriminate Hh].
  exists body, x. split; [exact Hx |]. split; [exact H9 |]. split; [exact Hsize |]. split; [exact He | exact Hh].
Defined.

(** The object in parts is uploaded by a worker of another process. *)
Lemma origin_intact_witness : ol_history (x_origin (mc_state sample_machine)) !! ("b/m", "30-60000") = Some (replicate 30 (chr 77)) /\
  sent sample_origin ∅ sample_commands "b/m" (replicate 30 (chr 77)).
Proof.
  assert (ol_history (x_origin (mc_state sample_machine)) !! ("b/m", "30-60000") = Some (replicate 30 (chr 77))) as Hc by (vm_compute; reflexivity). split; [exact Hc |].
  exact (origin_intact sample_origin "c" new_local_origin sample_commands sample_machine (proj1 sample_wf) (proj2 sample_wf) sample_good sample_runs "b/m" "30-60000" _ Hc).
Defined.

(** A stale object is read while another one is uploaded in its place: the
    upload comes after the fill of the reader and before its last look at what
    was written back. *)
Definition race : machinery :=
  let x := play (Outside 1 "b/k" (Some (replicate 10 (chr 65), plain_upload))) boot in
  let x := call_from 0 1 (JOpen "b" "k" WholeObjectRange) x in
  let x := play (Outside (120 * second) "b/k" (Some (replicate 10 (chr 66), plain_upload))) x in
  let x := drive 200 (fun e => match e with GetMeta _ _ => true | _ => false end) 1 (play (Start 1 0 (JOpen "b" "k" WholeObjectRange)) x) in
  let x := call_from 1 2 (JUpload "b" "k" (mkStream [replicate 20 (chr 67)] true) upload_opts) x in
  drive 200 (fun _ => false) 1 x.


End Sample.
