(* ===== verification/Buckets.v ===== *)
(** * Buckets

    Creating, dropping and cloning namespaces: [EnsureNamespace],
    [NamespaceExists], [DropNamespace], [CloneNamespace] and [Buckets] of
    [internal/store/store.go] and [internal/store/object.go] with the SQL
    functions [ensure_namespace], [drop_namespace] and [clone_namespace] of
    [internal/store/schema.sql].  The catalog has a row and a schema for every
    namespace; [known], the memory of a process of namespaces it has seen, only
    saves a query and is not part of the state.

    A clone copies all chunk rows of a bucket but neither its queue of garbage
    nor its open uploads.  It represents the same objects when there are none
    ([clone_sim]); otherwise rows stay in the copy that nothing refers to and
    no queue knows ([clone_leaks]). *)

From stdpp Require Import gmap sorting.
From S2P Require Import Prelude GoStrings Ns Ranges Utf8 Precond Blocks Reader Ids Tables Objects ObjectSpec CacheSpec Machine ObjectRep ObjectStore.

(** ** The catalog *)

(** The namespaces with the time of their creation. *)
Abbreviation catalog := (gmap Ref Z).

Definition present (names : catalog) (r : Ref) : bool := bool_decide (is_Some (names !! r)).

Definition SupportedNamespaces : Z := 100.

Inductive ensured := Ensured (names : catalog) | NamespaceLimit.

(** [ensure_namespace] without a quota and attributes. *)
Definition ensure_namespace (now : Z) (r : Ref) (names : catalog) : ensured :=
  if present names r then Ensured names
  else if SupportedNamespaces <=? Z.of_nat (size names) then NamespaceLimit
  else Ensured (<[r := now]> names).

(** [ORDER BY name] of the namespaces of a kind. *)
Definition name_le (a b : string * Z) : Prop := slt b.1 a.1 = false.
#[global] Instance name_le_dec a b : Decision (name_le a b).
Proof. unfold name_le. apply _. Defined.

Definition Namespaces (k : Kind) (names : catalog) : list (string * Z) :=
  merge_sort name_le ((fun kv => (ref_name kv.1, kv.2)) <$> List.filter (fun kv => bool_decide (ref_kind kv.1 = k)) (map_to_list names)).

(** ** Tables of a namespace *)

(** [DROP SCHEMA]: the tables that namespaces share stay. *)
Definition erased (d : db) : db := set_leases (set_pendings empty_db (db_pending d)) (db_leases d).

Definition drop_tables (y : system) (r : Ref) : system := put_db (sy_alloc y) y r (erased (db_of y r)).

Definition occupied (d : db) : bool := negb (bool_decide (db_objects d = ∅)).

Inductive dropped := Dropped (names : catalog) (y : system) | DropNotEmpty | DropNotFound | DropPending.

(** [DropNamespace] with [drop_namespace] for the namespaces of objects: uploads
    to an origin that are still pending under the name keep a cache. *)
Definition DropNamespace (r : Ref) (force : bool) (names : catalog) (y : system) : dropped :=
  let d := db_of y r in
  if bool_decide (ref_kind r ∈ [Cache; WriteBack]) && negb (bool_decide (db_pending d = ∅)) then DropPending
  else if negb (present names r) then DropNotFound
  else if negb force && occupied d then DropNotEmpty
  else Dropped (delete r names) (drop_tables y r).

(** The statements of [clone_namespace] that copy rows.  The sequence of file
    identifiers has passed the copied ones and stays where it is. *)
Definition clone_rows (src : db) : tx unit :=
  insert_chunks (db_chunks src);;
  update (fun d => set_objects d (db_objects src));;
  update (fun d => set_checksums d (db_checksums src ∪ db_checksums d)).

Inductive cloned := CloneOk (names : catalog) (y : system) | CloneNotFound | CloneNotEmpty | CloneLimit | CloneViolation.

Definition clone_namespace (now : Z) (src dst : Ref) (names : catalog) (y : system) : cloned :=
  if bool_decide (ref_name src = ref_name dst) then CloneNotEmpty
  else if negb (present names src) then CloneNotFound
  else match ensure_namespace now dst names with
       | NamespaceLimit => CloneLimit
       | Ensured names =>
           if occupied (db_of y dst) then CloneNotEmpty
           else match clone_rows (db_of y src) (db_of y dst) with
                | Ok (_, d) => CloneOk names (put_db (sy_alloc y) y dst d)
                | Err _ => CloneViolation
                end
       end.

(** Nothing is queued and no part is stored. *)
Definition quiet (d : db) : bool := bool_decide (db_garbage d = ∅) && bool_decide (db_parts d = ∅).

(** ** The same on the specification *)

Definition spec_erased (a : spec) : spec := sset_leases (sset_pending empty_spec (s_pending a)) (s_leases a).
Definition drop_spec (z : world) (r : Ref) : world := put_spec z r (spec_erased (spec_of z r)).
Definition clone_spec (z : world) (src dst : Ref) : world := put_spec z dst (sset_objects (spec_of z dst) (s_objects (spec_of z src))).

Section Sim.
Context `{ZL : ZstdLaws, D : Digests}.

Lemma sim_erased k given d a : sim k given [] d a -> sim k given [] (erased d) (spec_erased a).
Proof.
  intros Hs. pose proof (sim_empty k given (wf_given _ _ _ (sim_wf _ _ _ _ _ Hs))) as [H1 H2 H3 H4 _ _ [W1 W2 W3 W4 W5 W6 W7]].
  split; [done | done | done | done | exact (sim_leases _ _ _ _ _ Hs) | exact (sim_pending _ _ _ _ _ Hs) |]. by split.
Qed.

Lemma drop_rep given y z r : rep_in given y z -> rep_from given (drop_tables y r) (drop_spec z r).
Proof.
  intros [Hal Hall]. unfold drop_tables, drop_spec.
  eapply (rep_insert y z _ given given (dom given)); [done | done | done | done |]. by apply sim_erased.
Qed.

Lemma occupied_sim k given d a : sim k given [] d a -> occupied d = negb (bool_decide (s_objects a = ∅)).
Proof.
  intros Hs. unfold occupied. f_equal. apply bool_decide_ext. split; intros He; apply map_empty; intros key;
    pose proof (sim_objects _ _ _ _ _ Hs key) as Hk; rewrite He, lookup_empty in Hk; by inversion Hk.
Qed.

(** A drop erases the objects of the namespace, and without [force] only those
    of a namespace that has none. *)
Lemma DropNamespace_rep given y z r force names names' y' : rep_in given y z -> DropNamespace r force names y = Dropped names' y' ->
  rep_from given y' (drop_spec z r) /\ names' = delete r names /\ (force = false -> s_objects (spec_of z r) = ∅).
Proof.
  intros Hr. unfold DropNamespace. destruct (_ && _); [done |]. destruct (negb (present _ _)); [done |].
  destruct (negb force && _) eqn:Eo; [done |]. intros [= <- <-]. split; [by apply drop_rep |]. split; [done |]. intros ->. cbn in Eo.
  destruct Hr as [_ Hall]. rewrite (occupied_sim _ _ _ _ (Hall r)) in Eo. by apply negb_false_iff, bool_decide_eq_true in Eo.
Qed.

(** *** Clones *)

Abbreviation row_key := (fun r : chunk_row => (cr_file r, cr_no r)).

(** A stored file has no rows on the other side, or one of its rows would be
    there twice. *)
Lemma rows_apart given rows rows' f body : NoDup (row_key <$> (rows ++ rows')) -> file_holds given rows' f body ->
  (forall r, r ∈ rows -> exists b, given !! cr_file r = Some b /\ r ∈ stored_body (cr_file r) b) -> rows_of f rows = [].
Proof.
  intros Hnd [Hg Hst] Hin. destruct (rows_of f rows) as [|r l] eqn:El; [done |]. exfalso.
  assert (r ∈ rows_of f rows) as [Hf Hr]%list_elem_of_filter by (rewrite El; left). destruct (Hin r Hr) as (b & Hb & Hrb).
  assert (r ∈ rows') as Hr'.
  { assert (r ∈ stored_body f body) as Hr2 by congruence. rewrite <- Hst in Hr2. by apply list_elem_of_filter in Hr2 as [_ ?]. }
  rewrite fmap_app, NoDup_app in Hnd. destruct Hnd as (_ & Hnd & _). apply (Hnd (row_key r)); apply list_elem_of_fmap; by exists r.
Qed.

Lemma object_holds given rows o body l f : stored_as given rows o body l -> f ∈ object_files o -> exists b, file_holds given rows f b.
Proof.
  destruct l; cbn; [intros ->; cbn; set_solver | |].
  - intros (g & E & Hh) Hf. rewrite E in Hf. cbn in Hf. apply list_elem_of_singleton in Hf as ->. by exists body.
  - intros (g & ps & E & Hh & _) Hf. rewrite E in Hf. cbn in Hf. assert (f ∈ g :: ps) as Hf' by set_solver.
    apply list_elem_of_lookup in Hf' as (i & Hi). destruct (Forall2_lookup_l _ _ _ _ _ Hh Hi) as (b & _ & Hb). by exists b.
Qed.

Lemma clone_sim k given src dst a b d :
  sim k given [] src a -> sim k given [] dst b -> quiet src = true -> occupied dst = false -> clone_rows src dst = Ok (tt, d) ->
  sim k given [] d (sset_objects b (s_objects a)).
Proof.
  intros Ha Hb [Hg Hp]%andb_prop Ho Hc. apply bool_decide_eq_true in Hg, Hp. apply negb_false_iff, bool_decide_eq_true in Ho. unfold clone_rows, insert_chunks in Hc.
  apply bind_Ok in Hc as ([] & d1 & H1 & Hc). injection Hc as <-. apply (require_Ok _ _ _ dst) in H1 as [Es H1]. apply require_Ok in H1 as [En H1].
  injection H1 as <-. apply bool_decide_eq_true in En. pose proof (sim_wf _ _ _ _ _ Ha) as Wa. pose proof (sim_wf _ _ _ _ _ Hb) as Wb.
  assert (NoDup (row_key <$> (db_chunks src ++ db_chunks dst))) as En' by (by rewrite (Permutation_app_comm (db_chunks src))).
  assert (forall r, r ∈ db_chunks src -> exists key o, db_objects src !! key = Some o /\ cr_file r ∈ object_files o) as Hcov.
  { intros r Hr. destruct (wf_cover _ _ _ Wa r Hr) as [H|[[x H]|H]]; [| by rewrite Hg, lookup_empty in H | set_solver].
    apply elem_of_refs in H as [H|(i & p & Hi & _)]; [done | by rewrite Hp, lookup_empty in Hi]. }
  split; cbn.
  - intros key. eapply option_Forall2_in; [| apply (sim_objects _ _ _ _ _ Ha)]. intros o e _ _ Hoe. eapply object_rep_same; [done | | done].
    intros f Hf. destruct (object_holds _ _ _ _ _ _ (or_stored _ _ _ _ _ _ Hoe) Hf) as (bd & Hh). rewrite rows_of_app.
    by rewrite (rows_apart given _ _ _ _ En Hh (wf_rows _ _ _ Wb)).
  - intros i. eapply option_Forall2_in; [| apply (sim_parts _ _ _ _ _ Hb)]. intros p q _ _ Hpq. eapply part_rep_same; [done | | done].
    rewrite rows_of_app, (rows_apart given _ _ _ _ En' (pr_stored _ _ _ _ Hpq) (wf_rows _ _ _ Wa)). by rewrite app_nil_r.
  - apply (sim_uploads _ _ _ _ _ Hb).
  - apply (sim_origin _ _ _ _ _ Hb).
  - apply (sim_leases _ _ _ _ _ Hb).
  - apply (sim_pending _ _ _ _ _ Hb).
  - split; cbn; [done | | | | | apply (wf_given _ _ _ Wa) | apply (wf_parts _ _ _ Wb)].
    + apply Forall_app. split; [apply (wf_chunk _ _ _ Wb) |]. apply Forall_forall. intros r Hr. by eapply forallb_forall, list_elem_of_In.
    + intros r [Hr|Hr]%elem_of_app.
      * destruct (wf_cover _ _ _ Wb r Hr) as [H|[H|H]]; [| by right; left | set_solver].
        left. apply elem_of_refs in H as [(key & o & Hk & _)|H]; [by rewrite Ho, lookup_empty in Hk |]. apply elem_of_refs. by right.
      * left. destruct (Hcov r Hr) as (key & o & Hk & Hf). apply elem_of_refs. left. by exists key, o.
    + intros f [(key & o & Hk & Hf)|(i & p & Hi & Hf)]%elem_of_refs; cbn in *.
      * apply (wf_refs _ _ _ Wa), elem_of_refs. left. by exists key, o.
      * apply (wf_refs _ _ _ Wb), elem_of_refs. right. by exists i, p.
    + intros r [Hr|Hr]%elem_of_app; [by apply (wf_rows _ _ _ Wb) | by apply (wf_rows _ _ _ Wa)].
Qed.

Lemma clone_rep given now src dst names y z names' y' : ref_kind src = ref_kind dst -> rep_in given y z -> quiet (db_of y src) = true ->
  clone_namespace now src dst names y = CloneOk names' y' -> rep_from given y' (clone_spec z src dst).
Proof.
  intros Hk [Hal Hall] Hq. unfold clone_namespace. destruct (bool_decide _); [done |]. destruct (negb _); [done |].
  destruct (ensure_namespace _ _ _) as [names1|]; [| done]. destruct (occupied _) eqn:Ho; [done |].
  destruct (clone_rows _ _) as [[[] d]|] eqn:Ec; [| done]. intros [= <- <-]. unfold clone_spec.
  eapply (rep_insert y z _ given given (dom given)); [done | done | done | done |].
  eapply clone_sim; [rewrite <- Hk; apply Hall | apply Hall | done | done | done].
Qed.

(** *** Rows no queue knows *)

Lemma candidates_queued now grace locked (g : gmap Z Z) f : f ∈ candidates now grace locked g -> is_Some (g !! f).
Proof.
  unfold candidates. intros Hf. apply elem_of_take in Hf as (i & Hi & _). apply list_elem_of_lookup_2, elem_of_lfilter in Hi as [Hi _].
  apply list_elem_of_fmap in Hi as ([x t] & -> & Hx). rewrite merge_sort_Permutation in Hx. apply elem_of_lfilter in Hx as [Hx _].
  apply elem_of_map_to_list in Hx. by exists t.
Qed.

Lemma reap_step_unqueued now grace budget d f : db_garbage d !! f = None ->
  db_garbage (reap_step now grace budget d) !! f = None /\ rows_of f (db_chunks (reap_step now grace budget d)) = rows_of f (db_chunks d).
Proof.
  intros Hf. unfold reap_step, commit, reapOne, tables, update, mbind, txn_bind, mret, txn_ret.
  destruct (claimReapable _ _) as [g|] eqn:Eg; [| done]. apply find_some in Eg as [Hg _]. apply list_elem_of_In, candidates_queued in Hg as [t Hg].
  assert (f <> g) as Hne by congruence. destruct (referenced d g); [cbn; by rewrite lookup_delete_ne |].
  destruct (_ && _); (split; [| by apply delete_rows_other]); [cbn; by rewrite lookup_delete_ne | done].
Qed.

Lemma reap_steps_unqueued now grace budget n d f : db_garbage d !! f = None ->
  rows_of f (db_chunks (Nat.iter n (reap_step now grace budget) d)) = rows_of f (db_chunks d).
Proof.
  intros Hf. enough (db_garbage (Nat.iter n (reap_step now grace budget) d) !! f = None /\
    rows_of f (db_chunks (Nat.iter n (reap_step now grace budget) d)) = rows_of f (db_chunks d)) as [_ H] by exact H.
  induction n as [|n [IH1 IH2]]; [done |]. destruct (reap_step_unqueued now grace budget _ f IH1) as [H1 H2]. split; [exact H1 |]. etrans; [exact H2 | exact IH2].
Qed.

(** C39: rows that a clone leaves behind.  A row of a file that no object of the
    source refers to - one that waits for the reaper, or of an open upload - is
    copied to a fresh clone, where nothing refers to it, no queue knows it, and
    no number of passes of the reaper removes it. *)
Theorem clone_leaks (now : Z) (src dst : Ref) (names names' : catalog) (y y' : system) (row : chunk_row)
    (Hclone : clone_namespace now src dst names y = CloneOk names' y')
    (Hfresh : db_garbage (db_of y dst) = ∅ /\ db_parts (db_of y dst) = ∅)
    (Hrow : row ∈ db_chunks (db_of y src))
    (Hdead : forall key o, db_objects (db_of y src) !! key = Some o -> cr_file row ∉ object_files o) :
  referenced (db_of y' dst) (cr_file row) = false /\ db_garbage (db_of y' dst) !! cr_file row = None /\
  forall later grace budget n, row ∈ db_chunks (Nat.iter n (reap_step later grace budget) (db_of y' dst)).
Proof.
  revert Hclone. unfold clone_namespace. destruct (bool_decide _); [done |]. destruct (negb _); [done |].
  destruct (ensure_namespace _ _ _) as [names1|]; [| done]. destruct (occupied _); [done |].
  destruct (clone_rows _ _) as [[[] d]|] eqn:Ec; [| done]. intros [= _ <-]. rewrite db_of_put. destruct (decide (dst = dst)); [| done].
  destruct Hfresh as [Hg Hp]. revert Ec Hg Hp Hrow Hdead. generalize (db_of y dst) (db_of y src). intros e0 c Ec Hg Hp Hrow Hdead.
  apply bind_Ok in Ec as ([] & d1 & H1 & Ec). injection Ec as <-. apply (require_Ok _ _ _ e0) in H1 as [_ H1]. apply require_Ok in H1 as [_ H1].
  injection H1 as <-. split; [| split].
  - apply bool_decide_eq_false. intros [(key & o & Hk & Hf)|(i & p & Hi & _)]%elem_of_refs; cbn in *; [by eapply Hdead | by rewrite Hp, lookup_empty in Hi].
  - cbn. by rewrite Hg, lookup_empty.
  - intros later grace budget n.
    enough (row ∈ rows_of (cr_file row) (db_chunks (Nat.iter n (reap_step later grace budget) (set_checksums (set_objects
      (set_chunks e0 (db_chunks e0 ++ db_chunks c)) (db_objects c)) (db_checksums c ∪ db_checksums e0))))) as [_ H]%list_elem_of_filter by done.
    rewrite reap_steps_unqueued by (cbn; by rewrite Hg, lookup_empty). cbn. apply list_elem_of_filter. split; [done |]. apply elem_of_app. by right.
Qed.

End Sim.

(** ** A clone *)

Section Sample.
#[local] Existing Instance toy_digests.

(** The object [b] shared its file with [a]; both are deleted and the file
    waits for the reaper when the bucket is cloned. *)
Definition clone_sample : cloned :=
  clone_namespace 20 (BucketRef "photos") (BucketRef "copy") {[ BucketRef "photos" := 0 ]} (exec_run sample_run new_system).2.

Definition leaked_row : option chunk_row := find (fun r => cr_file r =? 1) (db_chunks (db_of (exec_run sample_run new_system).2 (BucketRef "photos"))).

Lemma clone_leaks_witness : exists names' y' row, clone_sample = CloneOk names' y' /\ leaked_row = Some row /\
  row ∈ db_chunks (Nat.iter 5 (reap_step 1000 60 100) (db_of y' (BucketRef "copy"))).
Proof.
  assert (exists names' y' row, clone_sample = CloneOk names' y' /\ leaked_row = Some row) as (names' & y' & row & Hc & Hr)
    by (vm_compute; eexists _, _, _; split; reflexivity).
  exists names', y', row. split; [exact Hc |]. split; [exact Hr |].
  refine (proj2 (proj2 (clone_leaks 20 (BucketRef "photos") (BucketRef "copy") _ names' _ y' row Hc _ _ _)) 1000 60 100 5%nat).
  - split; vm_compute; reflexivity.
  - apply find_some in Hr as [Hr _]. by apply list_elem_of_In.
  - assert (map_Forall (fun _ o => cr_file row ∉ object_files o) (db_objects (db_of (exec_run sample_run new_system).2 (BucketRef "photos")))) as H;
      [| intros key o Ho; exact (H key o Ho)].
    apply find_some in Hr as [_ Hr%Z.eqb_eq]. rewrite Hr. apply (bool_decide_unpack _). vm_compute. exact I.
Defined.

End Sample.
