(* ===== verification/Http.v ===== *)
(** * Requests and responses

    What the S3 server uses of [net/http] and [net/url]: header names in
    canonical form, headers and query values, percent decoding, requests as
    [net/http] hands them over with their path and query taken apart, and the
    responses of the server.  XML documents are values of the types of
    [internal/s3/xml.go]; their text is [encoding/xml]'s.

    A Go map is a list with one entry per key; loops over a map see its
    entries in the order of the list, which is arbitrary. *)

From stdpp Require Import gmap.
From S2P Require Import Prelude GoStrings Ranges Listing.

(** ** Names and values *)

(** Bytes of a header name. *)
Definition field_byte (c : ascii) : bool :=
  let n := code c in
  is_digit c || ((65 <=? n) && (n <=? 90)) || ((97 <=? n) && (n <=? 122)) ||
  bool_decide (n ∈ [33; 35; 36; 37; 38; 39; 42; 43; 45; 46; 94; 95; 96; 124; 126]).

Fixpoint canonical_loop (upper : bool) (s : string) : string :=
  match s with
  | EmptyString => EmptyString
  | String c s' => String (if upper then upper_byte c else lower_byte c) (canonical_loop (bool_decide (c = "-"%char)) s')
  end.

(** [http.CanonicalHeaderKey]. *)
Definition CanonicalHeaderKey (s : string) : string := if all_bytes field_byte s then canonical_loop true s else s.

(** [http.Header] and [url.Values]. *)
Abbreviation values := (list (string * list string)).

Fixpoint values_of (m : values) (k : string) : option (list string) :=
  match m with
  | [] => None
  | (name, vs) :: m' => if bool_decide (name = k) then Some vs else values_of m' k
  end.

(** [url.Values.Get] and [Has]. *)
Definition Get (m : values) (k : string) : string := match values_of m k with Some (v :: _) => v | _ => "" end.
Definition Has (m : values) (k : string) : bool := bool_decide (is_Some (values_of m k)).

(** [http.Header.Get], [Set] and [Del]. *)
Definition header_Get (h : values) (name : string) : string := Get h (CanonicalHeaderKey name).
Definition header_Del (h : values) (name : string) : values := List.filter (fun kv => bool_decide (kv.1 <> CanonicalHeaderKey name)) h.
Definition header_Set (h : values) (name v : string) : values := (CanonicalHeaderKey name, [v]) :: header_Del h name.

(** ** Percent decoding *)

Definition unhex (c : ascii) : option Z :=
  let n := code c in
  if (48 <=? n) && (n <=? 57) then Some (n - 48)
  else if (97 <=? n) && (n <=? 102) then Some (n - 87)
  else if (65 <=? n) && (n <=? 70) then Some (n - 55) else None.

(** [url.PathUnescape]. *)
Fixpoint PathUnescape (s : string) : option string :=
  match s with
  | EmptyString => Some EmptyString
  | String c s' =>
      if decide (c = "%"%char) then
        match s' with
        | String h (String l rest) => a ← unhex h; b ← unhex l; r ← PathUnescape rest; Some (String (chr (16 * a + b)) r)
        | _ => None
        end
      else r ← PathUnescape s'; Some (String c r)
  end.

(** It decodes what [awsEncode] encodes. *)
Lemma unescape_PathUnescape s r : unescape s = Some r -> PathUnescape s = Some r.
Proof.
  revert r. induction s as [s IH] using (induction_ltof1 _ String.length). intros r. destruct s as [|c s]; [done |]. cbn [unescape PathUnescape].
  assert (forall x n, hex_val x = Some n -> unhex x = Some n) as Hx.
  { intros x n. unfold hex_val, unhex. destruct ((48 <=? code x) && (code x <=? 57)); [done |].
    destruct ((65 <=? code x) && (code x <=? 70)) eqn:E; [| done]. intros [= <-].
    replace ((97 <=? code x) && (code x <=? 102)) with false by lia. done. }
  destruct (decide (c = "%"%char)) as [->|Hc].
  - destruct s as [|h [|l rest]]; [done | done |]. destruct (hex_val h) as [a|] eqn:Ea; [| done]. destruct (hex_val l) as [b|] eqn:Eb; [| done]. cbn.
    destruct (unescape rest) as [t|] eqn:Et; [| done]. intros [= <-]. rewrite (Hx _ _ Ea), (Hx _ _ Eb). cbn.
    assert (ltof _ String.length rest (String "%" (String h (String l rest)))) as Hlt by (unfold ltof; cbn; lia).
    by rewrite (IH rest Hlt t Et).
  - destruct (unescape s) as [t|] eqn:Et; [| done]. intros [= <-].
    assert (ltof _ String.length s (String c s)) as Hlt by (unfold ltof; cbn; lia). by rewrite (IH s Hlt t Et).
Qed.

Lemma PathUnescape_awsEncode s encodeSlash : PathUnescape (awsEncode s encodeSlash) = Some s.
Proof. apply unescape_PathUnescape, awsEncode_decodes. Qed.

(** ** Requests *)

(** The bytes of a body that arrive, whether the client was cut off before its
    end, whether the connection reports the end with the last bytes, and how
    many bytes a read gets at most. *)
Record wire := mkWire { wi_bytes : bytes; wi_cut : bool; wi_eager : bool; wi_burst : Z }.

Record request := mkRequest {
  rq_Method : string;
  rq_Path : string;
  rq_EscapedPath : string;
  rq_RawQuery : string;
  rq_Query : values;
  rq_Header : values;
  rq_Trailer : values;
  rq_ContentLength : Z;
  rq_Body : wire;
  rq_Host : string;
  rq_TLS : bool
}.

Definition header (r : request) (name : string) : string := header_Get (rq_Header r) name.

(** ** Responses *)

Record APIError := mkAPIError { ae_Code : string; ae_Message : string; ae_Status : Z }.

Record checksumXML := mkChecksumXML { cx_Algorithm : string; cx_Value : string; cx_Type : string }.

(** A part with the one checksum it may have, under its algorithm. *)
Record partXML := mkPartXML { px_PartNumber : Z; px_LastModified : string; px_ETag : string; px_Size : Z; px_Checksum : option (string * string) }.

Record objectPartsXML := mkObjectPartsXML {
  op_IsTruncated : bool; op_MaxParts : Z; op_NextPartNumberMarker : Z; op_PartNumberMarker : Z; op_PartsCount : Z; op_Parts : list partXML
}.

Record versionXML := mkVersionXML { vx_Key : string; vx_LastModified : string; vx_ETag : string; vx_Size : Z }.

Record listVersionsResult := mkVersions {
  lv_Name : string; lv_Prefix : string; lv_KeyMarker : string; lv_VersionIdMarker : string; lv_NextKeyMarker : string;
  lv_NextVersionIdMarker : string; lv_MaxKeys : Z; lv_IsTruncated : bool; lv_Versions : list versionXML; lv_EncodingType : string
}.

(** The documents of the server; fields that are the same in every document
    (name spaces, owners, storage classes) are left out. *)
Inductive document :=
| ErrorDoc (code message resource requestID : string)
| BucketsDoc (buckets : list (string * string))
| LocationDoc (region : string)
| InitiateDoc (bucket key uploadID : string)
| CompleteDoc (location bucket key etag : string)
| CopyObjectDoc (etag lastModified : string)
| CopyPartDoc (etag lastModified : string)
| DeleteDoc (deleted : list string) (errors : list string)
| ListDoc (r : listBucketResult)
| VersionsDoc (r : listVersionsResult)
| PartsDoc (bucket key uploadID : string) (marker next max : Z) (truncated : bool) (parts : list partXML)
| UploadsDoc (bucket prefix keyMarker uploadIDMarker delimiter : string) (max : Z) (page : uploadsPage)
| AttributesDoc (etag : string) (checksum : option checksumXML) (parts : option objectPartsXML) (storageClass : string) (size : option Z).

(** The body of an object as far as it was sent; what was sent of a body that
    broke off is not kept. *)
Inductive sent := Whole (b : bytes) | Broken.

Inductive content := NoContent | Doc (d : document) | Plain (s : string) | ObjectBytes (b : sent).

Record response := mkResponse { rs_Status : Z; rs_Header : gmap string string; rs_Content : content }.

Definition StatusOK : Z := 200.
Definition StatusNoContent : Z := 204.
Definition StatusPartialContent : Z := 206.
Definition StatusNotModified : Z := 304.
