(* ===== verification/S3Request.v ===== *)
(** * Reading S3 requests

    Models [internal/s3/request.go] besides the parts in [Ranges], [Precond],
    [Chunked], [Crc] and [Listing]: user metadata, the headers a write may
    have, paths, errors, and the bodies of uploads with their declared
    checksums; and the errors of [internal/s3/server.go].

    The digests the server knows besides MD5, SHA-256 and CRC-64/NVME are
    parameters ([Hashes]). *)

From stdpp Require Import gmap sorting.
From S2P Require Import Prelude GoStrings Ns Ranges Utf8 Precond Chunked Crc Tables Objects Origin Spool Tier Listing Http.

(** ** Errors *)

Definition apiErr (code message : string) (status : Z) : APIError := mkAPIError code message status.

Definition errMethodNotAllowed : APIError := apiErr "MethodNotAllowed" "The specified method is not allowed against this resource." 405.
Definition errAccessDenied (msg : string) : APIError := apiErr "AccessDenied" msg 403.
Definition errNoSuchKey : APIError := apiErr "NoSuchKey" "The specified key does not exist." 404.
Definition errNoSuchBucket : APIError := apiErr "NoSuchBucket" "The specified bucket does not exist." 404.
Definition errInvalidBucketName : APIError := apiErr "InvalidBucketName" "The specified bucket is not valid." 400.
Definition errNoSuchUpload : APIError := apiErr "NoSuchUpload" "The specified multipart upload does not exist." 404.
Definition errPreconditionFailed : APIError := apiErr "PreconditionFailed" "At least one of the preconditions you specified did not hold." 412.
Definition errInvalidRange : APIError := apiErr "InvalidRange" "The requested range is not satisfiable." 416.
Definition errInvalidPart : APIError :=
  apiErr "InvalidPart" "One or more of the specified parts could not be found or did not match the supplied ETag." 400.
Definition errInvalidPartNumber : APIError := apiErr "InvalidPartNumber" "The requested part number is not satisfiable." 416.
Definition errInvalidRequest (msg : string) : APIError := apiErr "InvalidRequest" msg 400.
Definition errNotImplemented : APIError :=
  apiErr "NotImplemented" "A header or operation you provided implies functionality that is not implemented." 501.
Definition errInternal : APIError := apiErr "InternalError" "We encountered an internal error. Please try again." 500.
Definition errIncompleteBody : APIError := apiErr "IncompleteBody" "The request body terminated unexpectedly." 400.
Definition errBucketNotEmpty : APIError := apiErr "BucketNotEmpty" "The bucket you tried to delete is not empty." 409.

(** The errors handlers return: those of the API, of the store, of conditions
    and ranges, of names, of the tier, and of reading a body. *)
Inductive failure :=
| ApiFail (e : APIError)
| StoreFail (e : store_error)
| ErrNotModifiedF
| ErrInvalidRangeF
| ErrInvalidBucketF
| ErrTooManyNamespacesF
| ErrBucketNotEmptyF
| TierFail (e : tier_error)
| UnexpectedEOF
| OtherFail.

Definition store_api (e : store_error) : APIError :=
  match e with
  | ErrPreconditionFailed => errPreconditionFailed
  | ErrNotFound => errNoSuchKey
  | ErrNoBucket => errNoSuchBucket
  | InvalidBucket => errInvalidBucketName
  | ErrNoUpload => errNoSuchUpload
  | ErrInvalidPart => errInvalidPart
  | ErrMissingChecksum => errInvalidRequest "part lacks the upload's checksum"
  | ErrQuotaExceeded => apiErr "InsufficientStorage" "The database or namespace is over its storage budget." 507
  | _ => errInternal
  end.

Definition tier_api (e : tier_error) : APIError :=
  match e with
  | SpoolErr ErrSpoolBusy => apiErr "SlowDown" "The cache scratch byte budget is busy; retry shortly." 503
  | ErrReadOnly => errAccessDenied "gateway is read-only"
  | OriginErr ErrOriginConflict => apiErr "OperationAborted" "A conflicting conditional operation is in progress. Retry the request." 409
  | OriginErr ErrOriginKeyUnsupported => errInvalidRequest "the object key cannot be stored by the configured origin"
  | OriginErr (ErrOriginUnsupported | ErrOriginListingUnsupported) =>
      apiErr "NotImplemented" "The configured origin does not support this operation." 501
  | StoreErr e => store_api e
  | RangeErr => errInvalidRange
  | _ => errInternal
  end.

Definition apiError (f : failure) : APIError :=
  match f with
  | ApiFail e => e
  | StoreFail e => store_api e
  | ErrInvalidRangeF => errInvalidRange
  | ErrInvalidBucketF => errInvalidBucketName
  | ErrTooManyNamespacesF => apiErr "TooManyBuckets" "The namespace limit has been reached." 400
  | ErrBucketNotEmptyF => errBucketNotEmpty
  | TierFail e => tier_api e
  | ErrNotModifiedF | UnexpectedEOF | OtherFail => errInternal
  end.

Definition bodyError (f : failure) : failure :=
  match f with
  | ApiFail e => ApiFail e
  | UnexpectedEOF => ApiFail errIncompleteBody
  | _ => ApiFail (apiErr "InvalidRequest" "Could not read the request body." 400)
  end.

(** ** Metadata and headers *)

Definition meta_byte (c : ascii) : bool :=
  ((97 <=? code c) && (code c <=? 122)) || is_digit c || bool_decide (c = "-"%char) || bool_decide (c = "_"%char).

Definition validMetaName (s : string) : bool := all_bytes meta_byte s.

(** [strings.ContainsAny(v, "\x00\r\n")]. *)
Definition control_bytes (v : string) : bool := contains_byte v (chr 0) || contains_byte v (chr 13) || contains_byte v (chr 10).

(** The values of one name: the pairs and their total length so far. *)
Fixpoint meta_values (key : string) (vs : list string) (pairs : list (string * string)) (total : Z) : result APIError (list (string * string) * Z) :=
  match vs with
  | [] => Ok (pairs, total)
  | v :: vs' =>
      if control_bytes v then Err (errInvalidRequest "invalid user metadata value")
      else
        let total := total + slen key + slen v in
        if (2048 <? total) || (64 <=? zlen pairs) then Err (errInvalidRequest "user metadata exceeds the 2 KiB limit")
        else meta_values key vs' (pairs ++ [(key, v)]) total
  end.

Fixpoint meta_pairs (h : values) (pairs : list (string * string)) (total : Z) : result APIError (list (string * string)) :=
  match h with
  | [] => Ok pairs
  | (name, vs) :: h' =>
      let lower := ToLower name in
      if negb (HasPrefix lower "x-amz-meta-") then meta_pairs h' pairs total
      else
        let key := TrimPrefix lower "x-amz-meta-" in
        if bool_decide (key = "") || (128 <? slen key) || negb (validMetaName key) then Err (errInvalidRequest "invalid user metadata name")
        else let* st := meta_values key vs pairs total in meta_pairs h' st.1 st.2
  end.

Definition pair_le (a b : string * string) : Prop :=
  if bool_decide (a.1 = b.1) then slt b.2 a.2 = false else slt a.1 b.1 = true.
#[global] Instance pair_le_dec a b : Decision (pair_le a b).
Proof. unfold pair_le. destruct (bool_decide _); apply _. Defined.

Definition flatten_pairs (l : list (string * string)) : list string := concat ((fun p => [p.1; p.2]) <$> l).

Definition parseMetadata (h : values) : result APIError (list string) :=
  let* pairs := meta_pairs h [] 0 in Ok (flatten_pairs (merge_sort pair_le pairs)).

(** [metadataHeader], as what the response sets: a later value of a name
    replaces an earlier one. *)
Fixpoint metadata_headers (pairs : list string) (h : gmap string string) : gmap string string :=
  match pairs with
  | k :: v :: rest => metadata_headers rest (<[CanonicalHeaderKey ("x-amz-meta-" +:+ k) := v]> h)
  | _ => h
  end.

Definition contentType (v : string) : result APIError string :=
  if bool_decide (v = "") then Ok "application/octet-stream"
  else if (1024 <? slen v) || control_bytes v then Err (errInvalidRequest "invalid content type") else Ok v.

Definition sse_unsupported : list string :=
  ["x-amz-server-side-encryption-customer-algorithm"; "x-amz-server-side-encryption-customer-key";
   "x-amz-server-side-encryption-customer-key-md5"; "x-amz-server-side-encryption-aws-kms-key-id";
   "x-amz-server-side-encryption-context"; "x-amz-server-side-encryption-bucket-key-enabled"].

Definition present_header (r : request) (name : string) : bool := bool_decide (header r name <> "").

Definition validateSSE (r : request) : result APIError unit :=
  if existsb (present_header r) sse_unsupported then Err errNotImplemented
  else
    let enc := header r "x-amz-server-side-encryption" in
    if bool_decide (enc ∈ [""; "AES256"]) then Ok tt
    else if bool_decide (enc ∈ ["aws:kms"; "aws:kms:dsse"]) then Err errNotImplemented
    else Err (errInvalidRequest "unsupported server-side encryption").

Definition write_unsupported : list string :=
  ["x-amz-grant-read"; "x-amz-grant-write"; "x-amz-grant-read-acp"; "x-amz-grant-write-acp"; "x-amz-grant-full-control";
   "x-amz-object-lock-mode"; "x-amz-object-lock-retain-until-date"; "x-amz-object-lock-legal-hold"; "x-amz-tagging"].

Definition validateWriteHeaders (r : request) : result APIError unit :=
  let* _ := validateSSE r in
  if negb (bool_decide (header r "x-amz-acl" ∈ [""; "private"])) then Err errNotImplemented
  else if existsb (present_header r) write_unsupported then Err errNotImplemented
  else if negb (bool_decide (header r "x-amz-storage-class" ∈ [""; "STANDARD"])) then Err errNotImplemented
  else Ok tt.

(** ** Paths *)

(** [strings.Cut] at a slash. *)
Definition cut_slash (s : string) : string * string * bool := match Cut s "/" with Some (a, b) => (a, b, true) | None => (s, "", false) end.

(** [splitPath]: [None] for a path that does not decode. *)
Definition splitPath (escaped : string) : option (string * string) :=
  decoded ← PathUnescape escaped;
  let decoded := TrimPrefix decoded "/" in
  if bool_decide (decoded = "") then Some ("", "") else let '(bucket, key, _) := cut_slash decoded in Some (bucket, key).

Definition validateBucketName (name : string) : result APIError unit := if ValidName name then Ok tt else Err errInvalidBucketName.

Definition parseCopySource (v defaultBucket : string) : result APIError (string * string) :=
  if bool_decide (v = "") then Err (errInvalidRequest "missing x-amz-copy-source")
  else match PathUnescape v with
       | None => Err (errInvalidRequest "invalid x-amz-copy-source")
       | Some decoded =>
           let decoded := match Cut decoded "?" with Some (a, _) => a | None => decoded end in
           let decoded := TrimPrefix decoded "/" in
           let '(bucket, key, found) := cut_slash decoded in
           let '(bucket, key) := if negb found || bool_decide (key = "") then (defaultBucket, decoded) else (bucket, key) in
           let* _ := validateBucketName bucket in
           Ok (bucket, key)
       end.

Definition quoteETag (etag : string) : string := String quote (TrimChar quote etag +:+ String quote EmptyString).

(** ** Checksums of a body *)

Class Hashes := {
  crc32 : bytes -> bytes;
  crc32c : bytes -> bytes;
  sha1 : bytes -> bytes;
  sha512 : bytes -> bytes
}.

Definition supportedChecksums : list string :=
  ["content-md5"; "x-amz-checksum-md5"; "x-amz-checksum-crc32"; "x-amz-checksum-crc32c"; "x-amz-checksum-crc64nvme";
   "x-amz-checksum-sha1"; "x-amz-checksum-sha256"; "x-amz-checksum-sha512"].

Section Checksums.
Context `{Digests, Hashes}.

(** The hash [addHasher] makes for a name, of the bytes written to it. *)
Definition hasher (name : string) (b : bytes) : option bytes :=
  if bool_decide (name ∈ ["content-md5"; "x-amz-checksum-md5"]) then Some (md5 b)
  else if bool_decide (name = "x-amz-checksum-crc32") then Some (crc32 b)
  else if bool_decide (name = "x-amz-checksum-crc32c") then Some (crc32c b)
  else if bool_decide (name = "x-amz-checksum-crc64nvme") then Some (crc_Sum (crc_write newCRC64NVME (code <$> b)))
  else if bool_decide (name = "x-amz-checksum-sha1") then Some (sha1 b)
  else if bool_decide (name = "x-amz-checksum-sha256") then Some (sha256 b)
  else if bool_decide (name = "x-amz-checksum-sha512") then Some (sha512 b)
  else None.

(** The checksums a request declares: values given in headers, and names whose
    values follow in trailers.  There is a hasher for every name in them. *)
Record integrity := mkIntegrity { in_expected : list (string * string); in_trailers : list string }.

Definition checksum_name (lower : string) : bool :=
  bool_decide (lower = "content-md5") || (HasPrefix lower "x-amz-checksum-" && bool_decide (lower <> "x-amz-checksum-algorithm")).

Fixpoint integrity_headers (h : values) (expected : list (string * string)) : result APIError (list (string * string)) :=
  match h with
  | [] => Ok expected
  | (name, vs) :: h' =>
      let lower := ToLower name in
      if bool_decide (lower = "x-amz-checksum-type") then
        match vs with
        | [v] => if bool_decide (v ∈ ["FULL_OBJECT"; "COMPOSITE"]) then integrity_headers h' expected
                 else Err (errInvalidRequest "invalid x-amz-checksum-type")
        | _ => Err (errInvalidRequest "invalid x-amz-checksum-type")
        end
      else if checksum_name lower then
        if negb (bool_decide (lower ∈ supportedChecksums)) then Err errNotImplemented
        else match vs with
             | [v] => integrity_headers h' (expected ++ [(lower, v)])
             | _ => Err (errInvalidRequest "duplicate checksum header")
             end
      else integrity_headers h' expected
  end.

Fixpoint integrity_trailers (names : list string) : result APIError (list string) :=
  match names with
  | [] => Ok []
  | name :: rest =>
      let name := ToLower (TrimSpace name) in
      if negb (bool_decide (name ∈ supportedChecksums)) || bool_decide (name = "content-md5") then Err errNotImplemented
      else let* out := integrity_trailers rest in Ok (name :: out)
  end.

(** The two headers that declare an algorithm. *)
Fixpoint declared_algorithms (algos : list string) (i : integrity) : result APIError unit :=
  match algos with
  | [] => Ok tt
  | algo :: rest =>
      if bool_decide (algo = "") then declared_algorithms rest i
      else
        let name := "x-amz-checksum-" +:+ ToLower algo in
        if negb (bool_decide (name ∈ supportedChecksums)) then Err errNotImplemented
        else if negb (bool_decide (name ∈ (in_expected i).*1)) && negb (bool_decide (name ∈ in_trailers i))
        then Err (errInvalidRequest "declared checksum algorithm has no checksum")
        else declared_algorithms rest i
  end.

Definition newIntegrity (h : values) : result APIError integrity :=
  let* expected := integrity_headers h [] in
  let declared := header_Get h "x-amz-trailer" in
  let* trailers := if bool_decide (declared = "") then Ok [] else integrity_trailers (Split declared ",") in
  let i := mkIntegrity expected trailers in
  let* _ := declared_algorithms [header_Get h "x-amz-sdk-checksum-algorithm"; header_Get h "x-amz-checksum-algorithm"] i in
  Ok i.

Definition expectedChecksum (i : integrity) : option Checksum :=
  match find (fun e => bool_decide (e.1 <> "content-md5")) (in_expected i) with
  | Some (name, value) => Some (mkChecksum name value)
  | None => None
  end.

(** The values that arrived in trailers join those of the headers. *)
Fixpoint trailer_values (names : list string) (trailers : values) (expected : list (string * string)) : result APIError (list (string * string)) :=
  match names with
  | [] => Ok expected
  | name :: rest =>
      let value := header_Get trailers name in
      if bool_decide (value = "") then Err (errInvalidRequest ("missing checksum trailer " +:+ name))
      else trailer_values rest trailers (List.filter (fun e => bool_decide (e.1 <> name)) expected ++ [(name, value)])
  end.

Fixpoint verify_values (expected : list (string * string)) (body : bytes) : result APIError (list Checksum) :=
  match expected with
  | [] => Ok []
  | (name, want) :: rest =>
      match hasher name body with
      | None => Err errNotImplemented
      | Some sum =>
          let got := base64_encode sum in
          if bool_decide (got <> want)
          then Err (apiErr "BadDigest" ("The " +:+ name +:+ " you specified did not match the calculated checksum.") 400)
          else let* out := verify_values rest body in Ok (mkChecksum name got :: out)
      end
  end.

(** [verify] after the whole body went through the hashers. *)
Definition verify (i : integrity) (trailers : values) (body : bytes) : result APIError (list Checksum) :=
  let* expected := trailer_values (in_trailers i) trailers (in_expected i) in verify_values expected body.

(** The name of an algorithm, for the copy of a part. *)
Definition algorithmHasher (algorithm : string) : option string :=
  if bool_decide (algorithm ∈ ["CRC32"; "CRC32C"; "CRC64NVME"; "SHA1"; "SHA256"]) then Some ("x-amz-checksum-" +:+ ToLower algorithm) else None.

End Checksums.

(** ** Bodies *)

Definition ioChunk : Z := 256 * 2 ^ 10.

Definition streamingPayloads : list string :=
  ["STREAMING-UNSIGNED-PAYLOAD-TRAILER"; "STREAMING-AWS4-HMAC-SHA256-PAYLOAD"; "STREAMING-AWS4-HMAC-SHA256-PAYLOAD-TRAILER";
   "STREAMING-AWS4-ECDSA-P256-SHA256-PAYLOAD"; "STREAMING-AWS4-ECDSA-P256-SHA256-PAYLOAD-TRAILER"].

(** The reader of a body: as it arrives, or through the decoder of aws-chunked
    bodies with the length it declares. *)
Inductive payload := PlainBody | ChunkedBody (decodedLen : Z).

Definition chunk_failure (e : chunk_err) : option failure :=
  match e with
  | EndOfBody => None
  | IncompleteBody => Some (ApiFail errIncompleteBody)
  | BadDelimiter => Some (ApiFail (errInvalidRequest "invalid aws-chunked delimiter"))
  | LengthMismatch => Some (ApiFail (errInvalidRequest "aws-chunked body length does not match x-amz-decoded-content-length"))
  | ExceedsLength => Some (ApiFail (errInvalidRequest "aws-chunked body exceeds x-amz-decoded-content-length"))
  | LineTooLong => Some (ApiFail (errInvalidRequest "aws-chunked header line too long"))
  | BadChunkSize => Some (ApiFail (errInvalidRequest "invalid aws-chunked chunk size"))
  | BadChunkHeader => Some (ApiFail (errInvalidRequest "invalid aws-chunked chunk header"))
  | ChunkTooLarge => Some (ApiFail (errInvalidRequest "aws-chunked chunk exceeds 8 MiB"))
  | TrailersTooLong => Some (ApiFail (errInvalidRequest "aws-chunked trailers exceed 64 KiB"))
  | BadTrailer => Some (ApiFail (errInvalidRequest "invalid aws-chunked trailer"))
  end.

(** [http.Header.Add]. *)
Fixpoint header_Add (h : values) (name v : string) : values :=
  match h with
  | [] => [(CanonicalHeaderKey name, [v])]
  | (k, vs) :: h' => if bool_decide (k = CanonicalHeaderKey name) then (k, vs ++ [v]) :: h' else (k, vs) :: header_Add h' name v
  end.

(** A body read to its end: the bytes, how it ended, and the trailers. *)
Definition read_body (p : payload) (r : request) : bytes * option failure * values :=
  let w := rq_Body r in
  match p with
  | PlainBody => (wi_bytes w, if wi_cut w then Some UnexpectedEOF else None, rq_Trailer r)
  | ChunkedBody decodedLen =>
      match chunked_read_all (new_chunked (wi_bytes w) (wi_eager w) decodedLen) (replicate (S (length (wi_bytes w))) (ioChunk, wi_burst w)) with
      | Some (b, Some e, c) => (b, chunk_failure e, fold_left (fun h t => header_Add h t.1 t.2) (cb_trailer c) (rq_Trailer r))
      | Some (b, None, _) => (b, Some OtherFail, rq_Trailer r)
      | None => ([], Some OtherFail, rq_Trailer r)
      end
  end.

Definition decodedLength (r : request) : result APIError Z :=
  match ParseInt (header r "x-amz-decoded-content-length") with
  | Some n => if n <? 0 then Err (errInvalidRequest "invalid x-amz-decoded-content-length") else Ok n
  | None => Err (errInvalidRequest "invalid x-amz-decoded-content-length")
  end.

(** [stripAwsChunked], on the header of the request. *)
Definition encoding_parts (enc : string) : list string :=
  List.filter (fun part => bool_decide (part <> "") && negb (EqualFold part "aws-chunked")) (TrimSpace <$> Split enc ",").

Fixpoint join (sep : string) (l : list string) : string :=
  match l with [] => "" | [s] => s | s :: l' => s +:+ sep +:+ join sep l' end.

Definition contains (s sub : string) : bool := bool_decide (is_Some (Index s sub)).

Definition stripAwsChunked (h : values) : values :=
  let enc := header_Get h "Content-Encoding" in
  if negb (contains (ToLower enc) "aws-chunked") then h
  else match encoding_parts enc with
       | [] => header_Del h "Content-Encoding"
       | kept => header_Set h "Content-Encoding" (join "," kept)
       end.

Definition with_header (r : request) (h : values) : request :=
  mkRequest (rq_Method r) (rq_Path r) (rq_EscapedPath r) (rq_RawQuery r) (rq_Query r) h (rq_Trailer r) (rq_ContentLength r) (rq_Body r)
    (rq_Host r) (rq_TLS r).

(** [prepareBody]: the reader of the body and the request with its header. *)
Definition prepareBody (r : request) : result APIError (payload * request) :=
  let stripped := with_header r (stripAwsChunked (rq_Header r)) in
  let sha := header r "x-amz-content-sha256" in
  if negb (HasPrefix sha "STREAMING-") then Ok (PlainBody, stripped)
  else if negb (bool_decide (sha ∈ streamingPayloads)) then Err (errInvalidRequest "unsupported streaming payload type")
  else
    let* decoded := if bool_decide (header r "x-amz-decoded-content-length" = "") then Ok (-1) else decodedLength r in
    Ok (ChunkedBody decoded, stripped).

(** *** Uploads *)

Record uploadBody := mkUploadBody { ub_size : Z; ub_expectedSize : Z; ub_integrity : integrity }.

Definition prepareUploadBody (p : payload) (r : request) : result APIError uploadBody :=
  let* i := newIntegrity (rq_Header r) in
  match p with
  | ChunkedBody decodedLen =>
      if decodedLen <? 0 then Err (errInvalidRequest "invalid x-amz-decoded-content-length") else Ok (mkUploadBody decodedLen decodedLen i)
  | PlainBody =>
      let v := header r "x-amz-decoded-content-length" in
      let expected :=
        if bool_decide (v = "") then rq_ContentLength r
        else match ParseInt v with Some n => if 0 <=? n then n else rq_ContentLength r | None => rq_ContentLength r end in
      Ok (mkUploadBody (rq_ContentLength r) expected i)
  end.

Record ingestInput := mkIngest { ig_opts : WriteOptions; ig_body : uploadBody }.

Definition bad_condition : APIError := errInvalidRequest "unsupported conditional PUT".

Definition put_condition (r : request) : result APIError Precondition :=
  match putCondition (header r) with Ok p => Ok p | Err _ => Err bad_condition end.

Definition write_options (p : Precondition) (meta : option (list string)) (ct encoding : string) (c : option Checksum) (expected : Z) : WriteOptions :=
  mkWriteOptions p meta ct encoding None c (match c with Some _ => "FULL_OBJECT" | None => "" end) None false (NormalPublication "") None expected.

Definition prepareIngest (p : payload) (r : request) : result APIError ingestInput :=
  let* _ := validateWriteHeaders r in
  let* meta := parseMetadata (rq_Header r) in
  let* ct := contentType (header r "Content-Type") in
  let* cond := put_condition r in
  let* body := prepareUploadBody p r in
  Ok (mkIngest (write_options cond (Some meta) ct (header r "Content-Encoding") (expectedChecksum (ub_integrity body))
        (Z.max (ub_expectedSize body) 0)) body).

(** [readInlineBody] of a body of a declared length: the rest is read and
    thrown away. *)
Definition readInlineBody (contentLength : Z) (b : bytes) (ended : option failure) : result failure bytes :=
  if zlen b <? contentLength then Err (default UnexpectedEOF ended)
  else match ended with Some e => Err e | None => Ok (slice b 0 contentLength) end.
