(* ===== verification/S3Text.v ===== *)
(** * Names and metadata in requests

    What clients write and what the server makes of it: sources of copies in
    [x-amz-copy-source], and user metadata from the headers of a write to the
    headers of a read. *)

From stdpp Require Import gmap sorting.
From S2P Require Import Prelude GoStrings Ns Ranges Utf8 Listing Http S3Request.

(** ** Copy sources *)

Definition other_than (sep c : ascii) : bool := negb (bool_decide (c = sep)).

Lemma PathUnescape_plain a s t : all_bytes (other_than "%") a = true -> PathUnescape s = Some t -> PathUnescape (a +:+ s) = Some (a +:+ t).
Proof.
  intros Ha Hs. induction a as [|c a IH]; [done |]. cbn [all_bytes] in Ha. apply andb_true_iff in Ha as [Hc%negb_true_iff%bool_decide_eq_false Ha].
  rewrite !sapp_cons. cbn [PathUnescape]. case_decide; [done |]. by rewrite (IH Ha).
Qed.

Lemma Cut_skip sep a s : all_bytes (other_than sep) a = true -> Cut (a +:+ s) sep = match Cut s sep with Some (x, y) => Some (a +:+ x, y) | None => None end.
Proof.
  intros Ha. induction a as [|c a IH]; [rewrite sapp_nil_l; by destruct (Cut s sep) as [[]|] |]. cbn [all_bytes] in Ha.
  apply andb_true_iff in Ha as [Hc%negb_true_iff%bool_decide_eq_false Ha]. rewrite sapp_cons. cbn [Cut]. case_decide; [done |]. rewrite (IH Ha).
  by destruct (Cut s sep) as [[]|].
Qed.

(** The bytes of a bucket are neither separators nor escapes. *)
Lemma name_other name sep : ValidName name = true -> name_byte sep = false -> all_bytes (other_than sep) name = true.
Proof.
  unfold ValidName. destruct (_ || _); [done |]. intros Hn Hs. revert Hn. apply all_bytes_impl. intros c Hc. unfold other_than.
  case_bool_decide; [congruence | done].
Qed.

Lemma trim_lead lead bucket s : lead = "" \/ lead = "/" -> ValidName bucket = true -> TrimPrefix (lead +:+ bucket +:+ s) "/" = bucket +:+ s.
Proof.
  intros [->| ->] Hv; [| unfold TrimPrefix; by rewrite CutPrefix_app].
  pose proof (name_other bucket "/"%char Hv eq_refl) as Hb. rewrite sapp_nil_l. destruct bucket as [|c bucket]; [done |].
  cbn [all_bytes] in Hb. apply andb_true_iff in Hb as [Hc%negb_true_iff%bool_decide_eq_false _]. rewrite sapp_cons. unfold TrimPrefix, CutPrefix, HasPrefix. cbn [String.prefix].
  destruct (ascii_dec "/" c); [congruence | done].
Qed.

(** C40: the source of a copy.  A source in a header is the bucket and the key,
    percent-encoded the way clients encode keys, with or without a leading
    slash.  A key without a question mark names itself; a key with one is cut
    there although it was encoded, so that the copy reads another object. *)
Theorem copy_source_named (lead bucket key dflt : string) (slash : bool) (Hlead : lead = "" \/ lead = "/") (Hv : ValidName bucket = true) :
  let src := lead +:+ bucket +:+ "/" +:+ awsEncode key slash in
  (key <> "" -> Cut key "?" = None -> parseCopySource src dflt = Ok (bucket, key)) /\
  (forall a b, a <> "" -> Cut key "?" = Some (a, b) -> parseCopySource src dflt = Ok (bucket, a)).
Proof.
  intros src.
  assert (forall k, k <> "" -> match Cut key "?" with Some (a, _) => a | None => key end = k -> parseCopySource src dflt = Ok (bucket, k)) as Hk.
  { intros k Hne Hcut. unfold parseCopySource.
    assert (PathUnescape src = Some (lead +:+ bucket +:+ "/" +:+ key)) as Hd.
    { unfold src. apply PathUnescape_plain; [by destruct Hlead as [->| ->] |]. apply PathUnescape_plain; [by apply name_other |].
      apply PathUnescape_plain; [done | apply PathUnescape_awsEncode]. }
    assert (src <> "") as Hs by (intros E; unfold src in E; destruct Hlead as [->| ->]; [destruct bucket |]; done).
    rewrite bool_decide_false, Hd by done.
    assert (match Cut (lead +:+ bucket +:+ "/" +:+ key) "?" with Some (a, _) => a | None => lead +:+ bucket +:+ "/" +:+ key end =
      lead +:+ bucket +:+ "/" +:+ k) as ->.
    { rewrite !Cut_skip; [| done | by apply name_other | by destruct Hlead as [->| ->]]. subst k. by destruct (Cut key "?") as [[]|]. }
    rewrite trim_lead by done. unfold cut_slash. change ("/" +:+ k) with (String "/" k). rewrite Cut_app by (by apply name_other).
    rewrite bool_decide_false by done. cbn. unfold validateBucketName. by rewrite Hv. }
  split.
  - intros Hne Hc. apply Hk; [done |]. by rewrite Hc.
  - intros a b Ha Hc. apply Hk; [done |]. by rewrite Hc.
Qed.

(** The object of the witness is called [a?b], and the object [a] is copied. *)
Lemma copy_source_named_witness :
  parseCopySource "/photos/a%3Fb" "photos" = Ok ("photos", "a") /\ parseCopySource "photos/cat%20one" "" = Ok ("photos", "cat one").
Proof.
  split.
  - apply (copy_source_named "/" "photos" "a?b" "photos" true (or_intror eq_refl) eq_refl) with (b := "b"); done.
  - apply (copy_source_named "" "photos" "cat one" "" true (or_introl eq_refl) eq_refl); done.
Defined.

(** ** User metadata *)

Definition meta_prefix : string := "x-amz-meta-".

Lemma byte_cases c :
  lower_byte (upper_byte c) = lower_byte c /\ lower_byte (lower_byte c) = lower_byte c /\ upper_byte (lower_byte c) = upper_byte c /\
  field_byte (lower_byte c) = field_byte c /\ bool_decide (lower_byte c = "-"%char) = bool_decide (c = "-"%char) /\
  (meta_byte c = true -> field_byte c = true /\ lower_byte c = c).
Proof. destruct c as [[] [] [] [] [] [] [] []]; vm_compute; by repeat split. Qed.

Lemma lower_canonical up s : ToLower (canonical_loop up s) = ToLower s.
Proof.
  revert up. induction s as [|c s IH]; intros up; [done |]. cbn. unfold ToLower in IH. rewrite IH. f_equal.
  destruct (byte_cases c) as (H1 & H2 & _). by destruct up.
Qed.

Lemma canonical_lower up s : canonical_loop up (ToLower s) = canonical_loop up s.
Proof.
  revert up. induction s as [|c s IH]; intros up; [done |]. cbn. unfold ToLower in IH. rewrite IH.
  destruct (byte_cases c) as (_ & H2 & H3 & _ & H5 & _). rewrite H2, H3, H5. done.
Qed.

Lemma field_lower s : all_bytes field_byte (ToLower s) = all_bytes field_byte s.
Proof. induction s as [|c s IH]; [done |]. cbn. unfold ToLower in IH. rewrite IH. destruct (byte_cases c) as (_ & _ & _ & H4 & _). by rewrite H4. Qed.

Lemma CanonicalHeaderKey_lower s : all_bytes field_byte (ToLower s) = true -> CanonicalHeaderKey (ToLower s) = CanonicalHeaderKey s.
Proof. intros Hf. unfold CanonicalHeaderKey. rewrite Hf, <- field_lower, Hf. apply canonical_lower. Qed.

Lemma meta_name_field k : validMetaName k = true -> all_bytes field_byte (meta_prefix +:+ k) = true /\ ToLower (meta_prefix +:+ k) = meta_prefix +:+ k.
Proof.
  intros Hk. split.
  - rewrite all_bytes_app. change (all_bytes field_byte meta_prefix) with true. revert Hk. apply all_bytes_impl. intros c Hc. by apply (byte_cases c).
  - change (ToLower (meta_prefix +:+ k)) with (meta_prefix +:+ ToLower k). f_equal. induction k as [|c k IH]; [done |]. cbn in Hk.
    apply andb_true_iff in Hk as [Hc Hk]. cbn. unfold ToLower in IH. rewrite (IH Hk). f_equal. by apply (byte_cases c).
Qed.

Lemma canonical_meta_inj k k' : validMetaName k = true -> validMetaName k' = true ->
  CanonicalHeaderKey (meta_prefix +:+ k) = CanonicalHeaderKey (meta_prefix +:+ k') -> k = k'.
Proof.
  intros Hk Hk' E. destruct (meta_name_field k Hk) as [Hf Hl]. destruct (meta_name_field k' Hk') as [Hf' Hl'].
  unfold CanonicalHeaderKey in E. rewrite Hf, Hf' in E. apply (f_equal ToLower) in E. rewrite !lower_canonical, Hl, Hl' in E. by apply sapp_inj_l in E.
Qed.

(** The pairs of a header. *)
Definition meta_of (e : string * list string) : list (string * string) :=
  if HasPrefix (ToLower e.1) meta_prefix then (fun v => (TrimPrefix (ToLower e.1) meta_prefix, v)) <$> e.2 else [].

Definition valid_meta (e : string * list string) : Prop :=
  HasPrefix (ToLower e.1) meta_prefix = true -> validMetaName (TrimPrefix (ToLower e.1) meta_prefix) = true.

Lemma meta_values_ok key vs pairs total out : meta_values key vs pairs total = Ok out -> out.1 = pairs ++ ((fun v => (key, v)) <$> vs).
Proof.
  revert pairs total. induction vs as [|v vs IH]; intros pairs total; cbn [meta_values]; [intros [= <-]; by rewrite app_nil_r |].
  destruct (control_bytes v); [done |]. destruct (_ || _); [done |]. intros Hr. rewrite (IH _ _ Hr), <- app_assoc. done.
Qed.

Lemma meta_pairs_ok h pairs total out : meta_pairs h pairs total = Ok out -> out = pairs ++ concat (meta_of <$> h) /\ Forall valid_meta h.
Proof.
  revert pairs total. induction h as [|[name vs] h IH]; intros pairs total; cbn [meta_pairs]; [intros [= <-]; by rewrite app_nil_r |].
  cbn [fmap list_fmap concat]. unfold meta_of at 1, valid_meta at 1. cbn [fst snd]. change "x-amz-meta-" with meta_prefix.
  destruct (HasPrefix (ToLower name) meta_prefix) eqn:Ep; cbn [negb].
  - destruct (_ || _ || _) eqn:Ev; [done |]. apply orb_false_iff in Ev as [_ Ev%negb_false_iff].
    destruct (meta_values _ vs pairs total) as [st|] eqn:Em; [| done]. cbn [rbind]. intros [-> Hf]%IH.
    rewrite (meta_values_ok _ _ _ _ _ Em), <- app_assoc. split; [done | constructor; [| done]]. intros _. exact Ev.
  - intros [-> Hf]%IH. split; [done | constructor; [| done]]. unfold valid_meta. cbn [fst]. by rewrite Ep.
Qed.

#[local] Instance pair_le_total : Total pair_le.
Proof.
  intros a b. unfold pair_le. rewrite (bool_decide_ext (b.1 = a.1) (a.1 = b.1)) by done. case_bool_decide.
  - destruct (slt_total a.2 b.2) as [E|[E|E]]; [left; by apply slt_asym | left; rewrite E; apply slt_irrefl | right; by apply slt_asym].
  - destruct (slt_total a.1 b.1) as [E|[E|E]]; [by left | done | by right].
Qed.

Lemma not_slt_trans a b c : slt b a = false -> slt c b = false -> slt c a = false.
Proof.
  intros H1 H2. destruct (slt_total a b) as [E|[->|E]]; [| done | congruence]. destruct (slt_total b c) as [E'|[->|E']]; [| done | congruence].
  apply slt_asym. by eapply slt_trans.
Qed.

#[local] Instance pair_le_trans : Transitive pair_le.
Proof.
  intros a b c. unfold pair_le. repeat case_bool_decide; try congruence.
  - apply not_slt_trans.
  - intros Hab Hbc. exfalso. replace (c.1) with (a.1) in Hbc by done. by rewrite (slt_asym _ _ Hab) in Hbc.
  - apply slt_trans.
Qed.

Lemma pair_le_antisymm a b : pair_le a b -> pair_le b a -> a = b.
Proof.
  unfold pair_le. rewrite (bool_decide_ext (b.1 = a.1) (a.1 = b.1)) by done. case_bool_decide as E; intros H1 H2.
  - destruct a, b; cbn in *; subst. f_equal. destruct (slt_total s0 s2) as [E|[E|E]]; congruence.
  - by rewrite (slt_asym _ _ H1) in H2.
Qed.

(** What the pairs set, in the order of the list. *)
Definition set_pair (m : gmap string string) (kv : string * string) : gmap string string := <[CanonicalHeaderKey (meta_prefix +:+ kv.1) := kv.2]> m.

Lemma metadata_headers_pairs l m : metadata_headers (flatten_pairs l) m = foldl set_pair m l.
Proof. revert m. induction l as [|[k v] l IH]; intros m; [done |]. cbn. apply IH. Qed.

(** The greatest pair of a name is the one that stays. *)
Lemma set_pairs_greatest l m kv : StronglySorted pair_le l -> kv ∈ l ->
  (forall q, q ∈ l -> CanonicalHeaderKey (meta_prefix +:+ q.1) = CanonicalHeaderKey (meta_prefix +:+ kv.1) -> pair_le q kv) ->
  foldl set_pair m l !! CanonicalHeaderKey (meta_prefix +:+ kv.1) = Some kv.2.
Proof.
  induction l as [|q l IH] using rev_ind; intros Hs Hin Hmax; [by apply elem_of_nil in Hin |]. rewrite foldl_app. cbn [foldl]. unfold set_pair at 1.
  assert (kv ∈ l -> pair_le kv q) as Hlast by (intros Hl; eapply StronglySorted_app_1_elem_of; [exact Hs | done | by left]).
  destruct (decide (CanonicalHeaderKey (meta_prefix +:+ q.1) = CanonicalHeaderKey (meta_prefix +:+ kv.1))) as [E|E].
  - rewrite E, lookup_insert_eq. do 2 f_equal. apply elem_of_app in Hin as [Hl|Hl%list_elem_of_singleton]; [| done].
    apply pair_le_antisymm; [| by apply Hlast]. apply Hmax; [set_solver | done].
  - rewrite lookup_insert_ne by done. apply elem_of_app in Hin as [Hl|Hl%list_elem_of_singleton]; [| by subst].
    apply IH; [by eapply StronglySorted_app_1_l | done |]. intros q' Hq'. apply Hmax. set_solver.
Qed.

Lemma set_pairs_other l m k : (forall q, q ∈ l -> CanonicalHeaderKey (meta_prefix +:+ q.1) <> k) -> foldl set_pair m l !! k = m !! k.
Proof.
  revert m. induction l as [|q l IH]; intros m Hq; [done |]. cbn [foldl]. rewrite IH by (intros q' Hq'; apply Hq; by right).
  unfold set_pair. apply lookup_insert_ne, Hq. by left.
Qed.

Lemma greatest_value (vs : list string) : vs <> [] -> exists v, v ∈ vs /\ Forall (fun u => slt v u = false) vs.
Proof.
  induction vs as [|u vs IH]; [done |]. intros _. destruct (decide (vs = [])) as [->|Hne].
  { exists u. split; [by left |]. repeat constructor. apply slt_irrefl. }
  destruct (IH Hne) as (v & Hv & Hall). destruct (slt v u) eqn:E.
  - exists u. split; [by left |]. constructor; [apply slt_irrefl |]. eapply Forall_impl; [exact Hall |]. intros x Hx. eapply not_slt_trans; [exact Hx |].
    by apply slt_asym.
  - exists v. split; [by right |]. by constructor.
Qed.

(** A pair comes from one header; the names in it are the name of the header. *)
Lemma meta_source h q : Forall valid_meta h -> q ∈ concat (meta_of <$> h) -> exists name vs, (name, vs) ∈ h /\ HasPrefix (ToLower name) meta_prefix = true /\
  ToLower name = meta_prefix +:+ q.1 /\ validMetaName q.1 = true /\ q.2 ∈ vs /\ CanonicalHeaderKey (meta_prefix +:+ q.1) = CanonicalHeaderKey name.
Proof.
  intros Hval Hq. apply list_elem_of_In, in_concat in Hq as (l & Hl & Hq). apply list_elem_of_In in Hl, Hq.
  apply list_elem_of_fmap in Hl as ([name vs] & -> & Hin). unfold meta_of in Hq. cbn [fst snd] in Hq.
  destruct (HasPrefix (ToLower name) meta_prefix) eqn:Ep; [| by apply elem_of_nil in Hq].
  apply list_elem_of_fmap in Hq as (v & -> & Hv). rewrite Forall_forall in Hval. specialize (Hval _ Hin Ep). cbn [fst snd] in *.
  assert (ToLower name = meta_prefix +:+ TrimPrefix (ToLower name) meta_prefix) as Hn.
  { destruct (HasPrefix_inv _ _ Ep) as [s ->]. unfold TrimPrefix. by rewrite CutPrefix_app. }
  exists name, vs. do 5 (split; [done |]). rewrite <- Hn. apply CanonicalHeaderKey_lower. rewrite Hn. by apply meta_name_field.
Qed.

Lemma meta_target h name vs v : (name, vs) ∈ h -> HasPrefix (ToLower name) meta_prefix = true -> v ∈ vs ->
  (TrimPrefix (ToLower name) meta_prefix, v) ∈ concat (meta_of <$> h).
Proof.
  intros Hin Hp Hv. apply list_elem_of_In, in_concat. exists (meta_of (name, vs)). split; apply list_elem_of_In; [by apply list_elem_of_fmap_2 |].
  unfold meta_of. cbn [fst snd]. rewrite Hp. by apply (list_elem_of_fmap_2 (fun v => (TrimPrefix (ToLower name) meta_prefix, v))).
Qed.

(** C34: user metadata survive.  Metadata accepted with a write set, on a read,
    the header of every name to its value; of a name given several values only
    the greatest is returned.  Other headers are left as they are.  The headers
    of a request have one entry per name, whatever its case. *)
Theorem metadata_round_trip (h : values) (pairs : list string) (base : gmap string string)
    (Hkeys : NoDup (ToLower <$> h.*1)) (Hparse : parseMetadata h = Ok pairs) :
  (forall name vs, (name, vs) ∈ h -> HasPrefix (ToLower name) "x-amz-meta-" = true -> vs <> [] ->
     exists v, v ∈ vs /\ Forall (fun u => slt v u = false) vs /\ metadata_headers pairs base !! CanonicalHeaderKey name = Some v) /\
  (forall k, (forall name vs, (name, vs) ∈ h -> HasPrefix (ToLower name) "x-amz-meta-" = true -> CanonicalHeaderKey name <> k) ->
     metadata_headers pairs base !! k = base !! k).
Proof.
  unfold parseMetadata in Hparse. destruct (meta_pairs h [] 0) as [l|] eqn:El; [| done]. injection Hparse as <-.
  apply meta_pairs_ok in El as [-> Hval]. rewrite metadata_headers_pairs. cbn [app]. set (l := concat (meta_of <$> h)).
  assert (forall q, q ∈ merge_sort pair_le l <-> q ∈ l) as Hperm by (intros q; by rewrite merge_sort_Permutation). change "x-amz-meta-" with meta_prefix. split.
  - intros name vs Hin Hp Hne. destruct (greatest_value vs Hne) as (v & Hv & Hmax). exists v. split; [done |]. split; [done |].
    pose proof (meta_target _ _ _ _ Hin Hp Hv) as Hq. destruct (meta_source h _ Hval Hq) as (n' & vs' & Hin' & _ & Hn' & Hvalid & _ & Hc).
    cbn [fst snd] in *. assert (forall n w, (n, w) ∈ h -> ToLower n = ToLower name -> w = vs /\ n = name) as Huniq.
    { intros n w Hnw En. destruct (list_elem_of_lookup_1 _ _ Hnw) as [i Hi]. destruct (list_elem_of_lookup_1 _ _ Hin) as [j Hj].
      assert (i = j) as -> by (eapply NoDup_lookup; [exact Hkeys | by rewrite !list_lookup_fmap, Hi | rewrite !list_lookup_fmap, Hj; cbn [fmap option_fmap option_map fst]; by rewrite En]).
      rewrite Hi in Hj. by injection Hj as -> ->. }
    assert (ToLower name = meta_prefix +:+ TrimPrefix (ToLower name) meta_prefix) as Hname.
    { destruct (HasPrefix_inv _ _ Hp) as [s ->]. unfold TrimPrefix. by rewrite CutPrefix_app. }
    destruct (Huniq n' vs' Hin') as [-> ->]; [congruence |]. rewrite <- Hc.
    apply (set_pairs_greatest _ _ (TrimPrefix (ToLower name) meta_prefix, v)); [apply StronglySorted_merge_sort; apply _ | by apply Hperm |].
    intros q Hq' Ec. apply Hperm in Hq'. destruct (meta_source h _ Hval Hq') as (n2 & vs2 & Hin2 & _ & Hn2 & Hvalid2 & Hv2 & _).
    apply canonical_meta_inj in Ec; [| done | done]. destruct (Huniq n2 vs2 Hin2) as [-> ->]; [rewrite Hn2, Ec; done |].
    unfold pair_le. cbn [fst snd]. rewrite bool_decide_true by done. rewrite Forall_forall in Hmax. by apply Hmax.
  - intros k Hk. apply set_pairs_other. intros q Hq%Hperm. destruct (meta_source h _ Hval Hq) as (n & vs & Hin & Hp & _ & _ & _ & ->). by eapply Hk.
Qed.

Definition sample_meta : values := [("X-Amz-Meta-Color", ["red"]); ("Content-Type", ["text/plain"]); ("X-Amz-Meta-Day", ["mon"; "tue"])].

(** Of the two days of the witness the second is returned. *)
Lemma metadata_round_trip_witness : exists pairs, parseMetadata sample_meta = Ok pairs /\
  metadata_headers pairs ∅ !! "X-Amz-Meta-Color" = Some "red" /\ metadata_headers pairs ∅ !! "Content-Type" = None.
Proof.
  eexists. split; [vm_compute; reflexivity |].
  match goal with |- metadata_headers ?l _ !! _ = _ /\ _ => destruct (metadata_round_trip sample_meta l ∅) as [Hm Ho] end.
  - apply (bool_decide_unpack _). vm_compute. exact I.
  - vm_compute. reflexivity.
  - split.
    + destruct (Hm "X-Amz-Meta-Color" ["red"]) as (v & Hv & _ & E); [by left | reflexivity | discriminate |].
      apply list_elem_of_singleton in Hv as ->. exact E.
    + rewrite Ho; [reflexivity |]. intros name vs Hin Hp E. unfold sample_meta in Hin.
      rewrite !elem_of_cons, elem_of_nil in Hin. destruct Hin as [[= -> ->]|[[= -> ->]|[[= -> ->]|[]]]]; vm_compute in Hp, E; discriminate.
Defined.
