(* ===== verification/S3Server.v ===== *)
(** * The S3 server

    Models the handlers and routes of [internal/s3/object.go] and
    [internal/s3/server.go].  A handler is a program over the calls it makes to
    the backend of a bucket and to the store ([s3_call]), whose answers are any
    values of their types.  A handler sets headers and returns a reply or an
    error, which [fail] turns into a response that keeps the headers.  The body
    of a request is read to its end before it is written.

    A request sees one choice of backends for all its calls, as
    [selectedBackend] remembers it: [origins] says which buckets have a tier.
    The texts of times are a parameter ([Clocks]), and so is the decoding of the
    two XML documents requests carry ([XmlBodies]).  A listing reads at most
    [pages] pages from its backend. *)

From stdpp Require Import gmap.
From S2P Require Import Prelude GoStrings Ns Ranges Utf8 Precond Blocks Chunked Tables Objects Origin Tier Listing Http S3Request.

Class Clocks := { iso_time : Z -> string; http_time : Z -> string }.

Record completePartXML := mkCompletePart {
  cp_PartNumber : Z; cp_ETag : string; cp_CRC32 : string; cp_CRC32C : string; cp_CRC64NVME : string; cp_SHA1 : string; cp_SHA256 : string
}.

Class XmlBodies := {
  unmarshal_delete : bytes -> option (bool * list string);
  unmarshal_complete : bytes -> option (list completePartXML)
}.

(** ** Calls *)

(** [None]: the store; [Some t]: the tier [t]. *)
Abbreviation backend := (option nat).

(** What a request knows of an object: of its parts only their number, and
    their ends. *)
Record readHead := mkHead { rh_Info : ObjectInfo; rh_Parts : option nat; rh_PartEnds : option (list Z); rh_Hit : bool }.

(** Metadata a request holds are known by a number; an open body is a range of
    what they describe. *)
Record opened := mkOpened { od_Result : ReadResult; od_Meta : nat; od_Range : ByteRange }.

Record PartInfo := mkPartInfo { pi_Number : Z; pi_Size : Z; pi_Checksum : option Checksum }.
Record UploadPartInfo := mkUploadPart { ui_Number : Z; ui_Size : Z; ui_ETag : string; ui_Checksum : option Checksum; ui_LastModified : Z }.

Inductive BucketDeletion := BucketDeleted | BucketNotEmpty | BucketNotFound.

Inductive s3_call :=
| Now
| BHead (b : backend) (bucket key : string)
| BOpen (b : backend) (bucket key : string) (rng : ByteRange) (cond : option ReadCondition)
| BRead (meta : nat) (rng : ByteRange)
| BList (b : backend) (bucket prefix after : string) (limit : Z)
| BPutInline (bucket key : string) (data : bytes) (opts : WriteOptions)
| BStart (bucket key : string) (opts : WriteOptions)
| BFinish (bucket key : string) (data : bytes) (checks : list Checksum) (opts : WriteOptions)
| BUpload (t : nat) (bucket key : string) (data : bytes) (ended : option failure) (opts : Tier.UploadOptions) (valid : result APIError unit)
| BCopy (b : backend) (srcBucket srcKey dstBucket dstKey : string) (opts : CopyOptions)
| BDeleteMany (b : backend) (bucket : string) (keys : list string)
| BDelete (b : backend) (bucket key : string)
| BCreateUpload (b : backend) (bucket key : string) (opts : Objects.UploadOptions)
| BStartPart (b : backend) (id bucket key : string) (no expectedSize : Z)
| BFinishPart (b : backend) (id bucket key : string) (no : Z) (data : bytes) (checks : list Checksum) (expectedSize : Z)
| BListParts (b : backend) (id bucket key : string) (max marker : Z)
| BComplete (b : backend) (id bucket key : string) (listed : list ListedPart) (opts : WriteOptions)
| BAbort (b : backend) (id bucket key : string)
| BListUploads (b : backend) (bucket prefix bound keyMarker uploadMarker : string) (max : Z)
| SCopyPart (id bucket key srcBucket srcKey : string) (no : Z)
| SAttributes (bucket key : string)
| SList (bucket prefix after : string) (limit : Z)
| SExists (bucket : string)
| SCreate (bucket : string)
| SClone (src dst : string)
| SDrop (bucket : string) (force : bool)
| SBuckets
| CMeta (name key : string)
| CBody (meta : nat) (rng : ByteRange)
| CPut (name key : string) (data : bytes)
| CDel (name key : string).

Definition s3_answer (c : s3_call) : Type :=
  match c with
  | Now => Z
  | BHead _ _ _ => result failure readHead
  | BOpen _ _ _ _ _ => result (failure * option ObjectInfo) opened
  | BRead _ _ => sent
  | BList _ _ _ _ _ | SList _ _ _ _ => result failure (list Listed)
  | BPutInline _ _ _ _ | BFinish _ _ _ _ _ | BUpload _ _ _ _ _ _ _ | CPut _ _ _ => result failure string
  | BStart _ _ _ | BDelete _ _ _ | SCreate _ | SClone _ _ | CDel _ _ => result failure unit
  | BCopy _ _ _ _ _ _ => result failure (string * Z)
  | BDeleteMany _ _ _ => result failure (list (string * bool))
  | BCreateUpload _ _ _ _ => result failure string
  | BStartPart _ _ _ _ _ _ => result failure string
  | BFinishPart _ _ _ _ _ _ _ _ => result failure (string * option Checksum)
  | BListParts _ _ _ _ _ _ => result failure (list UploadPartInfo * bool * Z)
  | BComplete _ _ _ _ _ _ => result failure Completed
  | BAbort _ _ _ _ => result failure bool
  | BListUploads _ _ _ _ _ _ _ => result failure (list UploadInfo * bool)
  | SCopyPart _ _ _ _ _ _ => result failure (option string)
  | SAttributes _ _ => result failure (readHead * list PartInfo)
  | SExists _ => result failure bool
  | SDrop _ _ => result failure BucketDeletion
  | SBuckets => result failure (list (string * Z))
  | CMeta _ _ => result failure (ObjectInfo * nat)
  | CBody _ _ => result failure opened
  end.

(** ** Programs *)

Inductive s3prog (A : Type) : Type :=
| SRet (a : A)
| SCall (c : s3_call) (k : s3_answer c -> s3prog A).
Arguments SRet {A}.
Arguments SCall {A}.

(** A handler: it may set headers, fail, or return. *)
Definition handler (A : Type) : Type := gmap string string -> s3prog (result failure A * gmap string string).

Fixpoint sbind {A B} (p : s3prog A) (f : A -> s3prog B) : s3prog B :=
  match p with
  | SRet a => f a
  | SCall c k => SCall c (fun x => sbind (k x) f)
  end.

Definition hret {A} (a : A) : handler A := fun h => SRet (Ok a, h).
Definition fails {A} (f : failure) : handler A := fun h => SRet (Err f, h).
Definition refuse {A} (e : APIError) : handler A := fails (ApiFail e).
Definition hbind {A B} (c : handler A) (f : A -> handler B) : handler B :=
  fun h => sbind (c h) (fun '(r, h) => match r with Ok a => f a h | Err e => SRet (Err e, h) end).
#[global] Instance handler_ret : MRet handler := fun A a => hret a.
#[global] Instance handler_bind : MBind handler := fun A B f c => hbind c f.

(** A call with its answer, and a call that may fail. *)
Definition call (c : s3_call) : handler (s3_answer c) := fun h => SCall c (fun x => SRet (Ok x, h)).
Definition try {A} (r : result failure A) : handler A := match r with Ok a => hret a | Err e => fails e end.
Definition checked {A} (r : result APIError A) : handler A := match r with Ok a => hret a | Err e => refuse e end.
Definition setHeader (name v : string) : handler unit := fun h => SRet (Ok tt, <[CanonicalHeaderKey name := v]> h).
Definition requires (b : bool) (e : APIError) : handler unit := if b then hret tt else refuse e.

Definition reply : Type := Z * content.

(** [writeXML]. *)
Definition writeXML (d : document) : handler reply := setHeader "Content-Type" "application/xml";; hret (StatusOK, Doc d).

Section Server.
Context `{Digests, Hashes, Mime, Clocks, XmlBodies}.
Context (readOnly : bool) (origins : string -> backend) (pages : nat).

(** [backendIsOrigin] *)
Definition isOrigin (b : backend) : bool := match b with Some _ => true | None => false end.

(** ** Buckets *)

Definition requireCatalogBucket (bucket : string) : handler unit :=
  r ← call (SExists bucket); found ← try r; requires found errNoSuchBucket.

Definition requireNativeBucket (bucket : string) : handler unit :=
  if isOrigin (origins bucket) then hret tt else requireCatalogBucket bucket.

Definition requireOriginBucket (bucket : string) : handler unit :=
  if isOrigin (origins bucket) then requireCatalogBucket bucket else hret tt.

Definition headBucket (bucket : string) : handler reply :=
  requireNativeBucket bucket;; setHeader "x-amz-bucket-region" "us-east-1";; hret (StatusOK, NoContent).

Definition createBucket (r : request) (bucket : string) : handler reply :=
  requires (negb (EqualFold (TrimSpace (header r "x-amz-bucket-object-lock-enabled")) "true")) errNotImplemented;;
  checked (validateWriteHeaders r);;
  let src := TrimPrefix (TrimSpace (header r "x-amz-copy-source")) "/" in
  let src := if bool_decide (src = "") then TrimPrefix (TrimSpace (Get (rq_Query r) "clone")) "/" else src in
  (if bool_decide (src <> "") then
     checked (validateBucketName src);;
     requires (negb (isOrigin (origins src))) errNotImplemented;;
     x ← call (SClone src bucket); try x
   else x ← call (SCreate bucket); try x);;
  setHeader "Location" ("/" +:+ bucket);;
  hret (StatusOK, NoContent).

Definition deleteBucket (r : request) (bucket : string) : handler reply :=
  let q := Get (rq_Query r) "force" in
  let force := bool_decide (q ∈ ["true"; "1"]) || EqualFold (header r "x-amz-force-delete") "true" in
  x ← call (SDrop bucket force);
  res ← try x;
  match res with
  | BucketDeleted => hret (StatusNoContent, NoContent)
  | BucketNotEmpty => refuse errBucketNotEmpty
  | BucketNotFound => refuse errNoSuchBucket
  end.

Definition listBuckets : handler reply :=
  x ← call SBuckets; buckets ← try x; writeXML (BucketsDoc ((fun b => (b.1, iso_time b.2)) <$> buckets)).

Definition getBucketLocation : handler reply := writeXML (LocationDoc "us-east-1").

(** ** Reading objects *)

Definition inferred_type (ct key : string) : string :=
  let inferred := mime_type (path_Ext key) in
  let ct := if bool_decide (ct ∈ [""; "application/octet-stream"; "application/x-www-form-urlencoded"]) && bool_decide (inferred <> "")
            then inferred else ct in
  if bool_decide (ct = "") then "application/octet-stream" else ct.

Definition checksumHeaderName (name : string) : string :=
  let lower := ToLower name in if HasPrefix lower "x-amz-checksum-" then lower else "x-amz-checksum-" +:+ lower.

Definition setMetadata (pairs : list string) : handler unit := fun h => SRet (Ok tt, metadata_headers pairs h).

Definition setObjectInfoHeaders (i : ObjectInfo) (key : string) : handler unit :=
  setHeader "Accept-Ranges" "bytes";;
  setHeader "ETag" (quoteETag (oi_ETag i));;
  setHeader "Content-Type" (inferred_type (oi_ContentType i) key);;
  (if bool_decide (oi_ChecksumName i <> "") && bool_decide (oi_ChecksumValue i <> "")
   then setHeader (checksumHeaderName (oi_ChecksumName i)) (oi_ChecksumValue i) else hret tt);;
  (if bool_decide (oi_ContentEncoding i <> "") then setHeader "Content-Encoding" (oi_ContentEncoding i) else hret tt);;
  (if bool_decide (LastModified i = time_of None) then hret tt else setHeader "Last-Modified" (http_time (LastModified i)));;
  setMetadata (oi_UserMetadata i).

Definition without_checksum (i : ObjectInfo) : ObjectInfo :=
  mkInfo (oi_Size i) (oi_ETag i) (oi_OriginETag i) (oi_ContentType i) (oi_ContentEncoding i) "" "" "" (oi_UserMetadata i) (oi_CreatedAt i) (oi_OriginModified i).

Definition setCacheHeader (hit : bool) : handler unit := setHeader "X-Cache" (if hit then "HIT" else "MISS").

Definition setReadHeaders (res : ReadResult) (key : string) (cacheHeader : bool) : handler unit :=
  setObjectInfoHeaders (if rr_Ranged res then without_checksum (rr_Info res) else rr_Info res) key;;
  (if cacheHeader then setCacheHeader (rr_Hit res) else hret tt);;
  setHeader "Content-Length" (FormatInt (ContentLength res)).

Definition content_range (start stop size : Z) : string := "bytes " +:+ FormatInt start +:+ "-" +:+ FormatInt stop +:+ "/" +:+ FormatInt size.
Definition no_range (size : Z) : string := "bytes */" +:+ FormatInt size.

(** [serveReadResult]; a response to [HEAD] has no body. *)
Definition serveReadResult (r : request) (key : string) (res : ReadResult) (body : option opened) (cacheHeader : bool) : handler reply :=
  setReadHeaders res key cacheHeader;;
  (if rr_Ranged res then setHeader "Content-Range" (content_range (rr_Start res) (rr_End res) (oi_Size (rr_Info res))) else hret tt);;
  let status := if rr_Ranged res then StatusPartialContent else StatusOK in
  match body with
  | Some o =>
      if bool_decide (rq_Method r = "HEAD") then hret (status, NoContent)
      else b ← call (BRead (od_Meta o) (od_Range o)); hret (status, ObjectBytes b)
  | None => hret (status, NoContent)
  end.

Definition notModified (etag : string) : handler reply := setHeader "ETag" (quoteETag etag);; hret (StatusNotModified, NoContent).

(** The metadata of a part, of which only sizes and ends matter. *)
Definition head_meta (hd : readHead) : Meta :=
  mkMeta (rh_Info hd) [] None 0 ((fun n => replicate n 0) <$> rh_Parts hd) (rh_PartEnds hd) None 0.

(** [partBounds]; the index panic of a manifest without ends answers as an
    internal error. *)
Definition part_bounds (hd : readHead) (part : Z) : handler (Z * Z) :=
  match partBounds (head_meta hd) part with
  | Some (Some b) => hret b
  | Some None => refuse errInvalidPartNumber
  | None => fails OtherFail
  end.

Definition part_number (r : request) : handler (Z * bool) :=
  match parsePartNumber (if Has (rq_Query r) "partNumber" then Some (Get (rq_Query r) "partNumber") else None) with
  | Ok x => hret x
  | Err _ => refuse (errInvalidRequest "invalid partNumber")
  end.

(** A key that ends in a slash stands for its index if it is not there. *)
Definition index_of (key : string) : string := key +:+ "index.html".
Definition missing (f : failure) : bool := match f with StoreFail ErrNotFound | TierFail (StoreErr ErrNotFound) => true | _ => false end.
Definition HasSuffix (s suffix : string) : bool := HasPrefix (srev s) (srev suffix).

Definition head_or_index (b : backend) (bucket key : string) : handler (readHead * string) :=
  x ← call (BHead b bucket key);
  match x with
  | Ok hd => hret (hd, key)
  | Err e => if missing e && HasSuffix key "/" then x ← call (BHead b bucket (index_of key)); hd ← try x; hret (hd, index_of key) else fails e
  end.

Definition headObject (r : request) (bucket key : string) : handler reply :=
  let b := origins bucket in
  '(hd, key) ← head_or_index b bucket key;
  '(part, hasPart) ← part_number r;
  let size := oi_Size (rh_Info hd) in
  length ← (if hasPart : bool then
              requires (negb (bool_decide (rh_Parts hd = None) && isOrigin b)) errNotImplemented;;
              '(start, stop) ← part_bounds hd part;
              setHeader "Content-Range" (content_range start stop size);;
              hret (Z.max (stop - start + 1) 0)
            else hret size);
  match readCondition (header r) (oi_ETag (rh_Info hd)) with
  | Some ErrNotModified => notModified (oi_ETag (rh_Info hd))
  | Some _ => refuse errPreconditionFailed
  | None =>
      setObjectInfoHeaders (rh_Info hd) key;;
      match rh_Parts hd with Some n => setHeader "x-amz-mp-parts-count" (FormatInt (Z.of_nat n)) | None => hret tt end;;
      (if isOrigin b then setCacheHeader (rh_Hit hd) else hret tt);;
      setHeader "Content-Length" (FormatInt length);;
      hret (StatusOK, NoContent)
  end.

(** Only the store checks conditions before it opens a body. *)
Definition open_condition (b : backend) (r : request) : option ReadCondition :=
  match b with None => Some (headerReadCondition (header r)) | Some _ => None end.

Definition open_or_index (b : backend) (bucket key : string) (rng : ByteRange) (cond : option ReadCondition)
    : handler (result (failure * option ObjectInfo) opened * string) :=
  x ← call (BOpen b bucket key rng cond);
  match x with
  | Err (e, _) => if missing e && HasSuffix key "/" then x ← call (BOpen b bucket (index_of key) rng cond); hret (x, index_of key) else hret (x, key)
  | Ok _ => hret (x, key)
  end.

Definition invalid_range (size : Z) : handler reply := setHeader "Content-Range" (no_range size);; refuse errInvalidRange.

(** The range of the request or of its part, and the number of parts. *)
Definition requested_range (r : request) (b : backend) (bucket key : string) : handler (ByteRange * Z) :=
  '(part, hasPart) ← part_number r;
  match parseRange (header r "Range") with
  | Err _ => refuse errInvalidRange
  | Ok rng =>
      if hasPart : bool then
        requires (negb (isOrigin b)) errNotImplemented;;
        requires (negb (br_Requested rng)) (errInvalidRequest "partNumber and Range are mutually exclusive");;
        x ← call (BHead b bucket key);
        hd ← try x;
        '(start, stop) ← part_bounds hd part;
        hret (Range start stop (-1), partsCount (head_meta hd))
      else hret (rng, 0)
  end.

Definition getObject (r : request) (bucket key : string) : handler reply :=
  let b := origins bucket in
  '(rng, partCount) ← requested_range r b bucket key;
  '(res, key) ← open_or_index b bucket key rng (open_condition b r);
  match res with
  | Err (ErrNotModifiedF, info) => notModified (match info with Some i => oi_ETag i | None => "" end)
  | Err (StoreFail ErrPreconditionFailed, _) => refuse errPreconditionFailed
  | Err ((ErrInvalidRangeF | TierFail RangeErr), _) =>
      x ← call (BHead b bucket key); invalid_range (match x with Ok hd => oi_Size (rh_Info hd) | Err _ => 0 end)
  | Err (e, _) => fails e
  | Ok o =>
      let res := od_Result o in
      if br_Requested rng && (oi_Size (rr_Info res) =? 0) then invalid_range 0
      else
        match (if isOrigin b then readCondition (header r) (oi_ETag (rr_Info res)) else None) with
        | Some ErrNotModified => notModified (oi_ETag (rr_Info res))
        | Some _ => refuse errPreconditionFailed
        | None =>
            (if 0 <? partCount then setHeader "x-amz-mp-parts-count" (FormatInt partCount) else hret tt);;
            serveReadResult r key res (Some o) (isOrigin b)
        end
  end.

(** ** Writing objects *)

Definition with_expected (o : WriteOptions) (n : Z) : WriteOptions :=
  mkWriteOptions (wo_Precondition o) (wo_UserMetadata o) (wo_ContentType o) (wo_ContentEncoding o) (wo_OriginModified o) (wo_Checksum o)
    (wo_ChecksumType o) (wo_ExpiresAt o) (wo_KeepTTL o) (wo_Publication o) (wo_lock o) n.

Definition full_checksum (o : WriteOptions) (checks : list Checksum) : WriteOptions :=
  match wo_Checksum o, FirstObjectChecksum checks with
  | None, Some c => mkWriteOptions (wo_Precondition o) (wo_UserMetadata o) (wo_ContentType o) (wo_ContentEncoding o) (wo_OriginModified o) (Some c)
      "FULL_OBJECT" (wo_ExpiresAt o) (wo_KeepTTL o) (wo_Publication o) (wo_lock o) (wo_ExpectedSize o)
  | _, _ => o
  end.

(** [localBackend.Put]: the bytes of the body and how it ended are known once it
    was read; [validate] then says whether they are what was declared. *)
Definition local_Put (bucket key : string) (data : bytes) (ended : option failure) (contentLength : Z) (opts : WriteOptions)
    (validate : result APIError (list Checksum)) : handler string :=
  let opts := if 0 <=? contentLength then with_expected opts contentLength else opts in
  if (0 <=? contentLength) && (contentLength <=? MaxInlineBytes) then
    inline ← try (readInlineBody contentLength data ended);
    checks ← checked validate;
    x ← call (BPutInline bucket key inline (full_checksum opts checks));
    try x
  else
    x ← call (BStart bucket key opts);
    try x;;
    match ended with
    | Some e => fails e
    | None =>
        checks ← checked validate;
        x ← call (BFinish bucket key data checks opts);
        try x
    end.

(** [originBackend.Put] *)
Definition origin_Put (t : nat) (bucket key : string) (data : bytes) (ended : option failure) (size : Z) (opts : WriteOptions)
    (validate : result APIError (list Checksum)) : handler string :=
  x ← call (BUpload t bucket key data ended
    (mkTierUpload size (default [] (wo_UserMetadata opts)) (wo_ContentType opts) (wo_ContentEncoding opts) (wo_Checksum opts) (wo_ChecksumType opts)
      (wo_Precondition opts) true) (let* _ := validate in Ok tt));
  try x.

Definition backend_Put (b : backend) (bucket key : string) (data : bytes) (ended : option failure) (size : Z) (opts : WriteOptions)
    (validate : result APIError (list Checksum)) : handler string :=
  match b with
  | None => local_Put bucket key data ended size opts validate
  | Some t => origin_Put t bucket key data ended size opts validate
  end.

Fixpoint setChecksumHeaders (checks : list Checksum) : handler unit :=
  match checks with
  | [] => hret tt
  | c :: rest => (if bool_decide (cs_Name c = "content-md5") then hret tt else setHeader (cs_Name c) (cs_Value c));; setChecksumHeaders rest
  end.

Definition putObject (p : payload) (r : request) (bucket key : string) : handler reply :=
  ing ← checked (prepareIngest p r);
  let '(data, ended, trailers) := read_body p r in
  let checks := verify (ub_integrity (ig_body ing)) trailers data in
  etag ← backend_Put (origins bucket) bucket key data ended (ub_size (ig_body ing)) (ig_opts ing) checks;
  setHeader "ETag" (quoteETag etag);;
  setChecksumHeaders (match checks with Ok cs => cs | Err _ => [] end);;
  hret (StatusOK, NoContent).

Definition deleteObject (r : request) (bucket key : string) : handler reply :=
  requires (negb (Has (rq_Query r) "versionId" ||
    existsb (present_header r) ["If-Match"; "x-amz-if-match-size"; "x-amz-if-match-last-modified-time"])) errNotImplemented;;
  x ← call (BDelete (origins bucket) bucket key);
  try x;;
  hret (StatusNoContent, NoContent).

(** [io.ReadAll(io.LimitReader(r.Body, n))]. *)
Definition read_limited (p : payload) (r : request) (n : Z) : handler bytes :=
  let '(data, ended, _) := read_body p r in
  match ended with
  | Some e => if zlen data <? n then fails (bodyError e) else hret (slice data 0 n)
  | None => hret (slice data 0 n)
  end.

Definition deleteObjects (p : payload) (r : request) (bucket : string) : handler reply :=
  requires (negb (present_header r "x-amz-bypass-governance-retention")) errNotImplemented;;
  body ← read_limited p r (2 * 2 ^ 20);
  let want := header r "Content-MD5" in
  requires (bool_decide (want = "") || bool_decide (base64_encode (md5 body) = want))
    (apiErr "BadDigest" "The Content-MD5 you specified did not match the request body." 400);;
  match unmarshal_delete body with
  | None => refuse (errInvalidRequest "malformed Delete XML")
  | Some (quiet, keys) =>
      requires (negb (bool_decide (keys = [])) && (zlen keys <=? 1000)) (errInvalidRequest "Delete must contain between 1 and 1000 objects");;
      requires (forallb (fun k => bool_decide (k <> "") && (slen k <=? 1024)) keys) (errInvalidRequest "invalid object key");;
      x ← call (BDeleteMany (origins bucket) bucket keys);
      outcomes ← try x;
      writeXML (DeleteDoc (if quiet then [] else (List.filter (fun o => snd o) outcomes).*1) (List.filter (fun o => negb (snd o)) outcomes).*1)
  end.

(** ** Copies *)

Definition copyObject (r : request) (bucket key : string) : handler reply :=
  checked (validateWriteHeaders r);;
  '(srcBucket, srcKey) ← checked (parseCopySource (header r "x-amz-copy-source") bucket);
  (if bool_decide (srcBucket <> bucket) then requireOriginBucket srcBucket else hret tt);;
  let replace := EqualFold (header r "x-amz-metadata-directive") "REPLACE" in
  '(meta, ct) ← (if replace then meta ← checked (parseMetadata (rq_Header r)); ct ← checked (contentType (header r "Content-Type")); hret (meta, ct)
                 else hret ([], ""));
  dest ← checked (put_condition r);
  let cond := copySourceCondition (header r) in
  let encoding := header r "Content-Encoding" in
  let opts := mkCopyOptions replace meta ct encoding None cond dest in
  let src := origins srcBucket in
  let dst := origins bucket in
  if bool_decide (src = dst) then
    x ← call (BCopy dst srcBucket srcKey bucket key opts);
    out ← try x;
    writeXML (CopyObjectDoc (quoteETag out.1) (iso_time out.2))
  else
    x ← call (BOpen src srcBucket srcKey WholeObjectRange None);
    match x with
    | Err (e, _) => fails e
    | Ok o =>
        let i := rr_Info (od_Result o) in
        requires (ReadCondition_Allows cond true (oi_ETag i)) errPreconditionFailed;;
        let '(meta, ct, encoding) := if replace then (meta, ct, encoding) else (oi_UserMetadata i, oi_ContentType i, oi_ContentEncoding i) in
        body ← call (BRead (od_Meta o) (od_Range o));
        let '(data, ended) := match body with Whole b => (b, None) | Broken => ([], Some OtherFail) end in
        etag ← backend_Put dst bucket key data ended (ContentLength (od_Result o)) (write_options dest (Some meta) ct encoding None 0) (Ok []);
        now ← call Now;
        writeXML (CopyObjectDoc (quoteETag etag) (iso_time now))
    end.

(** ** Multipart uploads *)

Definition createMultipartUpload (r : request) (bucket key : string) : handler reply :=
  checked (validateWriteHeaders r);;
  meta ← checked (parseMetadata (rq_Header r));
  ct ← checked (contentType (header r "Content-Type"));
  let alg := nullif (header r "x-amz-checksum-algorithm") in
  x ← call (BCreateUpload (origins bucket) bucket key (mkUploadOptions (Some meta) ct (header r "Content-Encoding") alg));
  id ← try x;
  writeXML (InitiateDoc bucket key id).

Definition upload_part_number (r : request) : handler Z :=
  match ParseInt (Get (rq_Query r) "partNumber") with
  | Some n => if (1 <=? n) && (n <=? 10000) then hret n else refuse errInvalidPart
  | None => refuse errInvalidPart
  end.

Definition uploadPart (p : payload) (r : request) (bucket key : string) : handler reply :=
  checked (validateWriteHeaders r);;
  partNo ← upload_part_number r;
  body ← checked (prepareUploadBody p r);
  let b := origins bucket in
  let id := Get (rq_Query r) "uploadId" in
  x ← call (BStartPart b id bucket key partNo (ub_expectedSize body));
  try x;;
  let '(data, ended, trailers) := read_body p r in
  match ended with
  | Some e => fails (bodyError e)
  | None =>
      checks ← checked (verify (ub_integrity body) trailers data);
      x ← call (BFinishPart b id bucket key partNo data checks (ub_expectedSize body));
      pub ← try x;
      setHeader "ETag" (quoteETag pub.1);;
      match pub.2 with Some c => setHeader (cs_Name c) (cs_Value c) | None => hret tt end;;
      hret (StatusOK, NoContent)
  end.

(** The one checksum a listed part may have. *)
Definition part_checksums (p : completePartXML) : list Checksum :=
  (fun x => mkChecksum x.1 x.2) <$> List.filter (fun x => bool_decide (x.2 <> ""))
    [("CRC32", cp_CRC32 p); ("CRC32C", cp_CRC32C p); ("CRC64NVME", cp_CRC64NVME p); ("SHA1", cp_SHA1 p); ("SHA256", cp_SHA256 p)].

Fixpoint listed_parts (parts : list completePartXML) : result APIError (list ListedPart) :=
  match parts with
  | [] => Ok []
  | p :: rest =>
      if (cp_PartNumber p <? 1) || (10000 <? cp_PartNumber p) || bool_decide (cp_ETag p = "") then Err errInvalidPart
      else match part_checksums p with
           | _ :: _ :: _ => Err (errInvalidRequest "a part may carry only one checksum")
           | cs => let* out := listed_parts rest in Ok (mkListedPart (cp_PartNumber p) (stripETag (cp_ETag p)) (head cs) :: out)
           end
  end.

Definition completeMultipartUpload (p : payload) (r : request) (bucket key : string) : handler reply :=
  requireNativeBucket bucket;;
  checked (validateWriteHeaders r);;
  body ← read_limited p r (4 * 2 ^ 20);
  match unmarshal_complete body with
  | None => refuse (errInvalidRequest "malformed CompleteMultipartUpload XML")
  | Some parts =>
      cond ← checked (put_condition r);
      listed ← checked (listed_parts parts);
      x ← call (BComplete (origins bucket) (Get (rq_Query r) "uploadId") bucket key listed (write_options cond None "" "" None 0));
      c ← try x;
      let scheme := if rq_TLS r then "https" else "http" in
      writeXML (CompleteDoc (scheme +:+ "://" +:+ rq_Host r +:+ "/" +:+ bucket +:+ "/" +:+ cm_Key c) bucket (cm_Key c) (quoteETag (cm_ETag c)))
  end.

Definition abortMultipartUpload (r : request) (bucket key : string) : handler reply :=
  requireNativeBucket bucket;;
  x ← call (BAbort (origins bucket) (Get (rq_Query r) "uploadId") bucket key);
  aborted ← try x;
  requires aborted errNoSuchUpload;;
  hret (StatusNoContent, NoContent).

(** *** Copies of parts *)

Definition no_condition : ReadCondition := mkReadCondition "" "".
#[local] Instance ReadCondition_eq_dec : EqDecision ReadCondition.
Proof. solve_decision. Defined.

Definition copy_part_reply (etag : string) : handler reply :=
  setHeader "ETag" (quoteETag etag);; now ← call Now; writeXML (CopyPartDoc (quoteETag etag) (iso_time now)).

(** [tryFastPartCopy]: the entity tag of a part that shares the file. *)
Definition tryFastPartCopy (r : request) (bucket key srcBucket srcKey : string) (partNo : Z) : handler (option string) :=
  if present_header r "x-amz-copy-source-range" || negb (bool_decide (copySourceCondition (header r) = no_condition)) || isOrigin (origins srcBucket)
  then hret None
  else x ← call (SCopyPart (Get (rq_Query r) "uploadId") bucket key srcBucket srcKey partNo); try x.

Definition openPartCopySource (r : request) (srcBucket srcKey : string) : handler opened :=
  let v := header r "x-amz-copy-source-range" in
  rng ← (if bool_decide (v = "") then hret WholeObjectRange
         else match parseRange v with
              | Ok rng => if br_Last rng <? 0 then refuse errInvalidRange else hret rng
              | Err _ => refuse errInvalidRange
              end);
  x ← call (BOpen (origins srcBucket) srcBucket srcKey rng None);
  match x with
  | Err (e, _) =>
      if missing e then refuse errNoSuchKey
      else match e with ErrInvalidRangeF | TierFail RangeErr => refuse errInvalidRange | _ => refuse errInternal end
  | Ok o => requires (ReadCondition_Allows (copySourceCondition (header r)) true (oi_ETag (rr_Info (od_Result o)))) errPreconditionFailed;; hret o
  end.

(** [partCopyReader] and [partCopyChecksums]. *)
Definition partCopyChecksums (algorithm : string) (data : bytes) : option (list Checksum) :=
  if bool_decide (algorithm = "") then Some []
  else name ← algorithmHasher algorithm; sum ← hasher name data; Some [mkChecksum name (base64_encode sum)].

Definition uploadPartCopy (r : request) (bucket key : string) : handler reply :=
  partNo ← upload_part_number r;
  '(srcBucket, srcKey) ← checked (parseCopySource (header r "x-amz-copy-source") bucket);
  (if bool_decide (srcBucket <> bucket) then requireOriginBucket srcBucket else hret tt);;
  let b := origins bucket in
  let id := Get (rq_Query r) "uploadId" in
  fast ← (if isOrigin b then hret None else tryFastPartCopy r bucket key srcBucket srcKey partNo);
  match fast with
  | Some etag => copy_part_reply etag
  | None =>
      o ← openPartCopySource r srcBucket srcKey;
      let expectedSize := ContentLength (od_Result o) in
      x ← call (BStartPart b id bucket key partNo expectedSize);
      algorithm ← try x;
      body ← call (BRead (od_Meta o) (od_Range o));
      match body with
      | Broken => if bool_decide (partCopyChecksums algorithm [] = None) then refuse errNotImplemented else fails (bodyError OtherFail)
      | Whole data =>
          match partCopyChecksums algorithm data with
          | None => refuse errNotImplemented
          | Some checks =>
              x ← call (BFinishPart b id bucket key partNo data checks expectedSize);
              pub ← try x;
              copy_part_reply pub.1
          end
      end
  end.

(** ** Attributes and listings *)

Definition storedChecksumXML (name value typ : string) : option checksumXML :=
  if bool_decide (name = "") || bool_decide (value = "") then None
  else
    let alg := TrimPrefix (ToLower name) "x-amz-checksum-" in
    if bool_decide (alg ∈ ["crc32"; "crc32c"; "crc64nvme"; "sha1"; "sha256"; "sha512"])
    then Some (mkChecksumXML alg value (if bool_decide (typ = "") then "FULL_OBJECT" else typ)) else None.

(** [setPartChecksum] *)
Definition part_checksum (c : option Checksum) : option (string * string) :=
  match c with Some c => if bool_decide (cs_Name c ∈ algorithms) then Some (cs_Name c, cs_Value c) else None | None => None end.

(** The loop over the parts of [getObjectAttributes]. *)
Fixpoint attribute_parts (max marker : Z) (parts : list PartInfo) (acc : list partXML) : list partXML * bool * Z :=
  match parts with
  | [] => (acc, false, 0)
  | p :: rest =>
      if pi_Number p <=? marker then attribute_parts max marker rest acc
      else if max <=? zlen acc then (acc, true, match last acc with Some x => px_PartNumber x | None => 0 end)
      else attribute_parts max marker rest (acc ++ [mkPartXML (pi_Number p) "" "" (pi_Size p) (part_checksum (pi_Checksum p))])
  end.

Definition number_header (r : request) (name : string) (dflt : Z) : handler Z :=
  let v := header r name in
  if bool_decide (v = "") then hret dflt
  else match Atoi v with
       | Some n => if n <? 0 then refuse (errInvalidRequest ("invalid " +:+ name)) else hret n
       | None => refuse (errInvalidRequest ("invalid " +:+ name))
       end.

Definition requested_attributes (r : request) : list string :=
  List.filter (fun a => bool_decide (a <> "")) (TrimSpace <$> Split (header r "x-amz-object-attributes") ",").

Definition getObjectAttributes (r : request) (bucket key : string) : handler reply :=
  let requested := requested_attributes r in
  let wants a := bool_decide (a ∈ requested) in
  requires (negb (bool_decide (requested = []))) (errInvalidRequest "x-amz-object-attributes is required");;
  match origins bucket with
  | Some t =>
      x ← call (BHead (Some t) bucket key);
      hd ← try x;
      requires (negb (wants "Checksum" || (wants "ObjectParts" && bool_decide (rh_Parts hd <> None)))) errNotImplemented;;
      setHeader "Last-Modified" (http_time (LastModified (rh_Info hd)));;
      writeXML (AttributesDoc (if wants "ETag" then quoteETag (oi_ETag (rh_Info hd)) else "") None None (if wants "StorageClass" then "STANDARD" else "")
        (if wants "ObjectSize" then Some (oi_Size (rh_Info hd)) else None))
  | None =>
      x ← call (SAttributes bucket key);
      '(hd, parts) ← try x;
      n ← number_header r "x-amz-max-parts" 1000;
      let maxParts := Z.min (Z.max n 1) 1000 in
      marker ← number_header r "x-amz-part-number-marker" 0;
      let i := rh_Info hd in
      let objectParts :=
        if wants "ObjectParts" && bool_decide (rh_Parts hd <> None) then
          let '(ps, truncated, next) := attribute_parts maxParts marker parts [] in
          Some (mkObjectPartsXML truncated maxParts next marker (zlen parts) ps)
        else None in
      setHeader "Last-Modified" (http_time (LastModified i));;
      writeXML (AttributesDoc (if wants "ETag" then quoteETag (oi_ETag i) else "")
        (if wants "Checksum" then storedChecksumXML (oi_ChecksumName i) (oi_ChecksumValue i) (oi_ChecksumType i) else None)
        objectParts (if wants "StorageClass" then "STANDARD" else "") (if wants "ObjectSize" then Some (oi_Size i) else None))
  end.

(** A number in the query, at most a thousand. *)
Definition limit_param (r : request) (name : string) : handler Z :=
  let v := Get (rq_Query r) name in
  if bool_decide (v = "") then hret 1000
  else match Atoi v with
       | Some n => if n <? 0 then refuse (errInvalidRequest ("invalid " +:+ name)) else hret (Z.min n 1000)
       | None => refuse (errInvalidRequest ("invalid " +:+ name))
       end.

Definition listParts (r : request) (bucket key : string) : handler reply :=
  requireNativeBucket bucket;;
  let id := Get (rq_Query r) "uploadId" in
  max ← limit_param r "max-parts";
  let v := Get (rq_Query r) "part-number-marker" in
  marker ← (if bool_decide (v = "") then hret 0
            else match ParseInt v with
                 | Some n => if (n <? 0) || (2 ^ 31 <=? n) then refuse (errInvalidRequest "invalid part-number-marker") else hret n
                 | None => refuse (errInvalidRequest "invalid part-number-marker")
                 end);
  x ← call (BListParts (origins bucket) id bucket key max marker);
  '(parts, truncated, next) ← try x;
  writeXML (PartsDoc bucket key id marker (if truncated : bool then next else 0) max truncated
    ((fun p => mkPartXML (ui_Number p) (iso_time (ui_LastModified p)) (quoteETag (ui_ETag p)) (ui_Size p) (part_checksum (ui_Checksum p))) <$> parts)).

(** [listMultipartUploads] of a page of uploads. *)
Definition uploads_page (prefix delimiter keyMarker uploadMarker : string) (max : Z) (rows : list UploadInfo) (truncated : bool) : uploadsPage :=
  let seen :=
    match CutPrefix keyMarker prefix with
    | Some _ => match virtualPrefix keyMarker prefix delimiter with Some cp => {[cp]} | None => ∅ end
    | None => ∅
    end in
  let '(ups, cps, trunc, lastKey, lastID) := fold_uploads prefix delimiter max seen [] [] truncated keyMarker uploadMarker rows in
  mkUploadsPage ups cps trunc (if trunc then lastKey else "") (if trunc then lastID else "").

Definition list_uploads (r : request) (bucket : string) : handler reply :=
  requireNativeBucket bucket;;
  let q := Get (rq_Query r) in
  let prefix := q "prefix" in
  max ← limit_param r "max-uploads";
  x ← call (BListUploads (origins bucket) bucket prefix (prefixEnd prefix) (q "key-marker") (q "upload-id-marker") max);
  '(rows, truncated) ← try x;
  writeXML (UploadsDoc bucket prefix (q "key-marker") (q "upload-id-marker") (q "delimiter") max
    (uploads_page prefix (q "delimiter") (q "key-marker") (q "upload-id-marker") max rows truncated)).

(** [foldList] over one page of rows: [inl] when it stops, [inr] when it wants
    more. *)
Fixpoint fold_page (req : listRequest) (seen : gset string) (after : string) (page : listPage) (rows : list Listed)
    : listPage + (gset string * string * listPage) :=
  match rows with
  | [] => inr (seen, after, page)
  | row :: rows' =>
      match virtualPrefix (ls_Key row) (lq_prefix req) (lq_delimiter req) with
      | Some cp =>
          if bool_decide (cp ∈ seen) then fold_page req seen (ls_Key row) page rows'
          else if lq_maxKeys req <=? page_count page then inl (mkListPage (lp_contents page) (lp_commonPrefixes page) true after)
          else fold_page req ({[cp]} ∪ seen) (ls_Key row) (add_prefix page cp) rows'
      | None =>
          if lq_maxKeys req <=? page_count page then inl (mkListPage (lp_contents page) (lp_commonPrefixes page) true after)
          else fold_page req seen (ls_Key row) (add_entry page (entry_of row)) rows'
      end
  end.

(** [iterListed] and [foldList]: pages are read while they are full and wanted. *)
Fixpoint list_loop (fuel : nat) (b : backend) (bucket : string) (req : listRequest) (from : string) (seen : gset string) (after : string) (page : listPage)
    : handler listPage :=
  match fuel with
  | O => fails OtherFail
  | S fuel =>
      x ← call (BList b bucket (lq_prefix req) from listPageSize);
      rows ← try x;
      match fold_page req seen after page rows with
      | inl page => hret page
      | inr (seen, after, page) =>
          if zlen rows <? listPageSize then hret page
          else list_loop fuel b bucket req (match last rows with Some row => ls_Key row | None => from end) seen after page
      end
  end.

Definition listObjectsV2 (r : request) (bucket : string) : handler reply :=
  match parseListRequest (Get (rq_Query r)) with
  | Err BadMaxKeys => refuse (errInvalidRequest "invalid max-keys")
  | Err _ => refuse (errInvalidRequest "unsupported encoding-type")
  | Ok req =>
      page ← (if lq_maxKeys req <=? 0 then hret empty_page
              else list_loop pages (origins bucket) bucket req (lq_after req) (seen_before req) (lq_after req) empty_page);
      writeXML (ListDoc (listView req bucket page))
  end.

Definition versionParams (r : request) : handler (Z * string * string) :=
  requires (negb (bool_decide (Get (rq_Query r) "delimiter" <> ""))) errNotImplemented;;
  n ← limit_param r "max-keys";
  hret (n, Get (rq_Query r) "prefix", Get (rq_Query r) "key-marker").

(** [writeVersionList] *)
Definition version_list (r : request) (bucket : string) (maxKeys : Z) (prefix keyMarker : string) (rows : list Listed) : listVersionsResult :=
  let truncated := maxKeys <? zlen rows in
  let rows := if truncated then take (Z.to_nat maxKeys) rows else rows in
  let nextKey := if truncated then match last rows with Some row => ls_Key row | None => "" end else "" in
  let url := bool_decide (Get (rq_Query r) "encoding-type" = "url") in
  let enc s := if url then awsEncode s true else s in
  mkVersions bucket (enc prefix) (enc keyMarker) (Get (rq_Query r) "version-id-marker") (enc nextKey) (if truncated then "null" else "") maxKeys truncated
    ((fun row => mkVersionXML (enc (ls_Key row)) (iso_time (oi_CreatedAt (ls_Info row))) (quoteETag (oi_ETag (ls_Info row))) (oi_Size (ls_Info row))) <$> rows)
    (if url then "url" else "").

Definition listObjectVersions (r : request) (bucket : string) : handler reply :=
  '(maxKeys, prefix, keyMarker) ← versionParams r;
  requireNativeBucket bucket;;
  x ← call (SList bucket prefix keyMarker (maxKeys + 1));
  rows ← try x;
  writeXML (VersionsDoc (version_list r bucket maxKeys prefix keyMarker rows)).

Definition listOriginObjectVersions (r : request) (bucket : string) : handler reply :=
  '(maxKeys, prefix, keyMarker) ← versionParams r;
  x ← call (BList (origins bucket) bucket prefix keyMarker (maxKeys + 1));
  rows ← try x;
  writeXML (VersionsDoc (version_list r bucket maxKeys prefix keyMarker rows)).

Definition getOrListBucket (r : request) (bucket : string) : handler reply :=
  if bool_decide (rq_RawQuery r = "") && negb (present_header r "Authorization") && negb (present_header r "x-amz-date") then
    x ← call (BHead (origins bucket) bucket "index.html");
    match x with
    | Ok _ => getObject r bucket "index.html"
    | Err _ => listObjectsV2 r bucket
    end
  else listObjectsV2 r bucket.

(** ** Cached values over HTTP *)

Definition CachePrefix : string := "/_cache/".

Definition readCached (r : request) (name key : string) : handler reply :=
  match parseRange (header r "Range") with
  | Err _ => refuse errInvalidRange
  | Ok rng =>
      x ← call (CMeta name key);
      '(i, meta) ← try x;
      requires (negb (IsDeleted (ParseCacheVersion (oi_OriginETag i)))) errNoSuchKey;;
      match ReadCondition_Check (headerReadCondition (header r)) true (oi_ETag i) with
      | Some ErrNotModified => notModified (oi_ETag i)
      | Some _ => refuse errPreconditionFailed
      | None =>
          if bool_decide (rq_Method r = "HEAD") then
            match Resolve rng (oi_Size i) with
            | Ok span =>
                if br_Requested rng && ((oi_Size i =? 0) || (sp_End span <? sp_Start span)) then invalid_range (oi_Size i)
                else serveReadResult r key (mkReadResult i (sp_Start span) (sp_End span) (br_Requested rng) false) None false
            | Err _ => invalid_range (oi_Size i)
            end
          else
            x ← call (CBody meta rng);
            o ← try x;
            let res := od_Result o in
            if br_Requested rng && (rr_End res <? rr_Start res) then invalid_range (oi_Size (rr_Info res))
            else serveReadResult r key res (Some o) false
      end
  end.

Definition serveCacheHTTP (p : payload) (r : request) : handler reply :=
  let rest := TrimPrefix (rq_EscapedPath r) CachePrefix in
  let '(name, key, found) := cut_slash rest in
  requires (found && bool_decide (key <> "")) errNoSuchKey;;
  match PathUnescape key with
  | None => refuse (errInvalidRequest "invalid cache key")
  | Some key =>
      let m := rq_Method r in
      requires (negb (readOnly && negb (bool_decide (m ∈ ["GET"; "HEAD"])))) (errAccessDenied "gateway is read-only");;
      if bool_decide (m ∈ ["GET"; "HEAD"]) then readCached r name key
      else if bool_decide (m = "PUT") then
        data ← read_limited p r (InlineMax Cache + 1);
        x ← call (CPut name key data);
        etag ← try x;
        setHeader "ETag" (quoteETag etag);;
        hret (StatusOK, NoContent)
      else if bool_decide (m = "DELETE") then
        x ← call (CDel name key); try x;; hret (StatusNoContent, NoContent)
      else refuse errMethodNotAllowed
  end.

(** ** Routes *)

Record route := mkRoute { rt_method : string; rt_query : string; rt_query2 : string; rt_header : string; rt_run : handler reply }.

Definition route_matches (rt : route) (r : request) : bool :=
  (bool_decide (rt_method rt = "") || bool_decide (rt_method rt = rq_Method r)) &&
  (bool_decide (rt_query rt = "") || Has (rq_Query r) (rt_query rt)) &&
  (bool_decide (rt_query2 rt = "") || Has (rq_Query r) (rt_query2 rt)) &&
  (bool_decide (rt_header rt = "") || present_header r (rt_header rt)).

Definition selectRoute (table : list route) (r : request) : option route := find (fun rt => route_matches rt r) table.

Definition dispatch (table : list route) (r : request) : handler reply :=
  match selectRoute table r with Some rt => rt_run rt | None => refuse errMethodNotAllowed end.

Definition bucketRoutes (p : payload) (r : request) (bucket : string) : list route :=
  [mkRoute "PUT" "" "" "" (createBucket r bucket);
   mkRoute "DELETE" "" "" "" (deleteBucket r bucket);
   mkRoute "HEAD" "" "" "" (headBucket bucket);
   mkRoute "GET" "location" "" "" getBucketLocation;
   mkRoute "GET" "versions" "" "" (listObjectVersions r bucket);
   mkRoute "GET" "uploads" "" "" (list_uploads r bucket);
   mkRoute "POST" "delete" "" "" (deleteObjects p r bucket);
   mkRoute "GET" "" "" "" (getOrListBucket r bucket)].

Definition objectRoutes (p : payload) (r : request) (bucket key : string) : list route :=
  [mkRoute "HEAD" "" "" "" (headObject r bucket key);
   mkRoute "GET" "attributes" "" "" (getObjectAttributes r bucket key);
   mkRoute "GET" "uploadId" "" "" (listParts r bucket key);
   mkRoute "GET" "" "" "" (getObject r bucket key);
   mkRoute "PUT" "partNumber" "uploadId" "x-amz-copy-source" (uploadPartCopy r bucket key);
   mkRoute "PUT" "partNumber" "uploadId" "" (uploadPart p r bucket key);
   mkRoute "PUT" "" "" "x-amz-copy-source" (copyObject r bucket key);
   mkRoute "PUT" "" "" "" (putObject p r bucket key);
   mkRoute "POST" "uploads" "" "" (createMultipartUpload r bucket key);
   mkRoute "POST" "uploadId" "" "" (completeMultipartUpload p r bucket key);
   mkRoute "DELETE" "uploadId" "" "" (abortMultipartUpload r bucket key);
   mkRoute "DELETE" "" "" "" (deleteObject r bucket key)].

Definition catalogRoute (bucket : string) (run : handler reply) : handler reply := requireOriginBucket bucket;; run.

Definition originBucketRoutes (p : payload) (r : request) (bucket : string) : list route :=
  [mkRoute "HEAD" "" "" "" (catalogRoute bucket (headBucket bucket));
   mkRoute "GET" "location" "" "" getBucketLocation;
   mkRoute "GET" "versions" "" "" (catalogRoute bucket (listOriginObjectVersions r bucket));
   mkRoute "GET" "uploads" "" "" (catalogRoute bucket (list_uploads r bucket));
   mkRoute "GET" "" "" "" (catalogRoute bucket (listObjectsV2 r bucket));
   mkRoute "PUT" "" "" "x-amz-copy-source" (refuse errNotImplemented);
   mkRoute "PUT" "" "" "" (createBucket r bucket);
   mkRoute "DELETE" "" "" "" (refuse errNotImplemented);
   mkRoute "POST" "delete" "" "" (catalogRoute bucket (deleteObjects p r bucket))].

Definition objectRequest (p : payload) (r : request) (bucket key : string) : handler reply :=
  requires (slen key <=? 1024) (errInvalidRequest "object key exceeds 1024 bytes");;
  requires (negb (Has (rq_Query r) "renameObject" || present_header r "x-amz-rename-source" || present_header r "x-amz-write-offset-bytes")) errNotImplemented;;
  match selectRoute (objectRoutes p r bucket key) r with
  | None => refuse errMethodNotAllowed
  | Some rt => requireOriginBucket bucket;; rt_run rt
  end.

Definition serve (r : request) : handler reply :=
  '(p, r) ← checked (prepareBody r);
  if HasPrefix (rq_EscapedPath r) CachePrefix then serveCacheHTTP p r
  else match splitPath (rq_EscapedPath r) with
       | None => refuse (errInvalidRequest "invalid object path")
       | Some (bucket, key) =>
           (if bool_decide (bucket <> "") then checked (validateBucketName bucket) else hret tt);;
           requires (negb (readOnly && negb (bool_decide (rq_Method r ∈ ["GET"; "HEAD"])))) (errAccessDenied "gateway is read-only");;
           if bool_decide (bucket = "") then if bool_decide (rq_Method r = "GET") then listBuckets else refuse errMethodNotAllowed
           else if bool_decide (key = "") then
             if isOrigin (origins bucket) then dispatch (originBucketRoutes p r bucket) r else dispatch (bucketRoutes p r bucket) r
           else objectRequest p r bucket key
       end.

Definition PresignRejection : string :=
  "presigned URLs are not supported: pgvs3 does not authenticate requests and must run behind network-level access control".

(** [fail] and [writeError]. *)
Definition write_error (r : request) (id : string) (f : failure) (h : gmap string string) : response :=
  let e := apiError f in
  let h := if bool_decide (ae_Code e = "SlowDown") then <["Retry-After" := "1"]> h else h in
  if bool_decide (rq_Method r = "HEAD") then mkResponse (ae_Status e) h NoContent
  else mkResponse (ae_Status e) (<["Content-Type" := "application/xml"]> h) (Doc (ErrorDoc (ae_Code e) (ae_Message e) (rq_Path r) id)).

(** [ServeHTTP] once a request is admitted, under its identifier. *)
Definition ServeHTTP (id : string) (r : request) : s3prog response :=
  let h : gmap string string := {[ "X-Amz-Request-Id" := id ]} in
  if Presigned (rq_Query r).*1 then SRet (write_error r id (ApiFail (errInvalidRequest PresignRejection)) h)
  else sbind (serve r h) (fun '(x, h) => SRet match x with Ok (status, c) => mkResponse status h c | Err f => write_error r id f h end).

End Server.
