(* ===== verification/S3List.v ===== *)
(** * Listings through the server

    The handler of [ListObjectsV2] asks its backend for pages and folds them as
    they come.  Over a backend whose pages are a function of what is asked, it
    answers what [Listing.listObjectsV2] computes from the whole sequence of
    rows, of which [Listing.list_pages] says that the pages of a listing are
    the objects of the bucket. *)

From stdpp Require Import gmap.
From S2P Require Import Prelude GoStrings Ns Ranges Utf8 Listing Http S3Request S3Server.

(** A program run against answers that depend on the calls only. *)
Fixpoint answered {A} (o : forall c, s3_answer c) (p : s3prog A) : A :=
  match p with
  | SRet a => a
  | SCall c k => answered o (k (o c))
  end.

Lemma answered_bind {A B} o (p : s3prog A) (f : A -> s3prog B) : answered o (sbind p f) = answered o (f (answered o p)).
Proof. induction p as [a|c k IH]; [done |]. apply IH. Qed.

Lemma answered_hbind {A B} o (m : handler A) (k : A -> handler B) h :
  answered o ((m ≫= k) h) = match answered o (m h) with (Ok a, h') => answered o (k a h') | (Err e, h') => (Err e, h') end.
Proof. etrans; [apply answered_bind |]. by destruct (answered o (m h)) as [[a|e] h']. Qed.

(** What the fold makes of a page and its token. *)
Definition finished (out : listPage * string) : listPage :=
  if lp_truncated out.1 then mkListPage (lp_contents out.1) (lp_commonPrefixes out.1) true out.2 else out.1.

(** Folding a page of rows is the beginning of folding all rows. *)
Lemma fold_page_rows req seen after page rows rest : lp_truncated page = false ->
  match fold_page req seen after page rows with
  | inl done => exists out, fold_rows req seen after page ((Ok <$> rows) ++ rest) = Ok out /\ finished out = done
  | inr (seen', after', page') =>
      fold_rows req seen after page ((Ok <$> rows) ++ rest) = fold_rows req seen' after' page' rest /\ lp_truncated page' = false
  end.
Proof.
  revert seen after page. induction rows as [|row rows IH]; intros seen after page Hp; [done |]. cbn [fold_page fmap list_fmap app fold_rows].
  destruct (virtualPrefix _ _ _) as [cp|].
  - destruct (bool_decide (cp ∈ seen)); [by apply IH |].
    destruct (lq_maxKeys req <=? page_count page); [by eexists | by apply IH].
  - destruct (lq_maxKeys req <=? page_count page); [by eexists | by apply IH].
Qed.

Section Listed.
Context (origins : string -> backend) (o : forall c, s3_answer c) (bucket : string) (source : string -> string -> Z -> list Listed).
Context (Hsource : forall prefix after limit, o (BList (origins bucket) bucket prefix after limit) = Ok (source prefix after limit)).

Lemma list_loop_folds fuel req from seen after page h rows out : lp_truncated page = false ->
  iterListed fuel (fun a n => Ok (source (lq_prefix req) a n)) from = Some rows -> fold_rows req seen after page rows = Ok out ->
  answered o (list_loop fuel (origins bucket) bucket req from seen after page h) = (Ok (finished out), h).
Proof.
  revert from seen after page rows. induction fuel as [|fuel IH]; intros from seen after page rows Hp Hi Hf; [done |]. cbn [list_loop].
  rewrite answered_hbind. cbn [call answered]. rewrite Hsource. cbn [iterListed] in Hi. set (got := source (lq_prefix req) from listPageSize) in *.
  rewrite answered_hbind. cbn [try hret answered]. pose proof (fold_page_rows req seen after page got) as Hfold.
  assert (zlen got <? listPageSize = true -> fold_rows req seen after page (Ok <$> got) = Ok out) as Hshort.
  { intros Hl. destruct (last got) as [row|] eqn:El; [rewrite Hl in Hi; by injection Hi as <- |].
    apply last_None in El. rewrite El. injection Hi as <-. exact Hf. }
  destruct (zlen got <? listPageSize) eqn:El.
  - specialize (Hshort eq_refl). specialize (Hfold [] Hp). rewrite app_nil_r in Hfold. destruct (fold_page _ _ _ _ _) as [pg|[[seen' after'] page']].
    + destruct Hfold as (out' & Hf' & <-). rewrite Hshort in Hf'. by injection Hf' as <-.
    + destruct Hfold as [Hf' Hp']. rewrite Hshort in Hf'. cbn in Hf'. injection Hf' as ->. unfold finished. cbn. by rewrite Hp'.
  - destruct (last got) as [row|] eqn:Er; [| apply last_None in Er; by rewrite Er in El].
    destruct (iterListed fuel _ (ls_Key row)) as [more|] eqn:Em; [| done]. injection Hi as <-. specialize (Hfold more Hp).
    destruct (fold_page _ _ _ _ _) as [pg|[[seen' after'] page']].
    + destruct Hfold as (out' & Hf' & <-). rewrite Hf in Hf'. by injection Hf' as <-.
    + destruct Hfold as [Hf' Hp']. eapply IH; [done | exact Em | by rewrite <- Hf'].
Qed.

(** The handler answers the reference listing. *)
Lemma listing_served pages (r : request) h res :
  Listing.listObjectsV2 pages (fun prefix a n => Ok (source prefix a n)) bucket (Get (rq_Query r)) = Some (Ok res) ->
  answered o (listObjectsV2 origins pages r bucket h) = (Ok (StatusOK, Doc (ListDoc res)), <["Content-Type" := "application/xml"]> h).
Proof.
  unfold Listing.listObjectsV2, listObjectsV2. destruct (parseListRequest _) as [req|]; [| done].
  destruct (iterListed pages _ (lq_after req)) as [rows|] eqn:Ei; [| done]. cbn [mbind option_bind]. unfold foldList.
  destruct (lq_maxKeys req <=? 0); [by intros [= <-] |]. destruct (fold_rows _ _ _ _ rows) as [out|] eqn:Ef; [| done]. destruct out as [page after].
  cbn [rbind]. intros [= <-]. rewrite answered_hbind. erewrite list_loop_folds; [| reflexivity | exact Ei | exact Ef]. done.
Qed.
End Listed.

(** The page of uploads the handler makes is the reference page. *)
Lemma uploads_page_listed uploads prefix bound delimiter keyMarker uploadMarker max :
  uploads_page prefix delimiter keyMarker uploadMarker max (ListUploads uploads prefix bound keyMarker uploadMarker max).1
    (ListUploads uploads prefix bound keyMarker uploadMarker max).2 =
  listMultipartUploads uploads prefix bound delimiter keyMarker uploadMarker max.
Proof.
  unfold uploads_page, listMultipartUploads. destruct (ListUploads _ _ _ _ _ _) as [rows truncated]. cbn [fst snd].
  assert (match CutPrefix keyMarker prefix with
          | Some _ => match virtualPrefix keyMarker prefix delimiter with Some cp => {[cp]} | None => ∅ end
          | None => ∅
          end =@{gset string}
          if bool_decide (delimiter <> "") then
            match CutPrefix keyMarker prefix with
            | Some rest => match Index rest delimiter with Some idx => {[prefix +:+ stake (idx + String.length delimiter) rest]} | None => ∅ end
            | None => ∅
            end
          else ∅) as ->; [| done].
  unfold virtualPrefix. destruct (CutPrefix keyMarker prefix) as [rest|] eqn:Ec.
  - unfold TrimPrefix. rewrite Ec. repeat case_bool_decide; try done. by destruct (Index rest delimiter).
  - by destruct (bool_decide _).
Qed.
