(* ===== verification/S3Safe.v ===== *)
(** * What requests may do

    Every call a request makes to the store and to the tiers, whatever they
    answer: [walks] holds of a program all of whose calls have a property, for
    all answers.  Requests change only what their path names ([confined]) and
    publish only bodies that agree with the checksums they declare
    ([vouches]). *)

From stdpp Require Import gmap.
From S2P Require Import Prelude GoStrings Ns Ranges Utf8 Precond Blocks Chunked Tables Objects Origin Tier Listing Http S3Request S3Server.

(** ** Programs and their calls *)

Fixpoint calls {A} (P : s3_call -> Prop) (p : s3prog A) : Prop :=
  match p with
  | SRet _ => True
  | SCall c k => P c /\ forall x, calls P (k x)
  end.

Definition walks {A} (P : s3_call -> Prop) (m : handler A) : Prop := forall h, calls P (m h).

Lemma calls_bind {A B} P (p : s3prog A) (f : A -> s3prog B) : calls P p -> (forall a, calls P (f a)) -> calls P (sbind p f).
Proof. intros Hp Hf. induction p as [a|c k IH]; [apply Hf |]. destruct Hp as [Hc Hk]. split; [exact Hc | intros x; apply IH, Hk]. Qed.

Lemma calls_mono {A} (P Q : s3_call -> Prop) (p : s3prog A) : (forall c, P c -> Q c) -> calls P p -> calls Q p.
Proof. intros HPQ. induction p as [a|c k IH]; [done |]. intros [Hc Hk]. split; [by apply HPQ | intros x; by apply IH]. Qed.

Section Walks.
Context (P : s3_call -> Prop).

Lemma walks_bind {A B} (m : handler A) (k : A -> handler B) : walks P m -> (forall a, walks P (k a)) -> walks P (m ≫= k).
Proof. intros Hm Hk h. apply calls_bind; [apply Hm |]. intros [[a|e] h']; [apply Hk | done]. Qed.

Lemma walks_ret {A} (a : A) : walks P (hret a).
Proof. done. Qed.

Lemma walks_fails {A} f : walks P (fails f : handler A).
Proof. done. Qed.

Lemma walks_refuse {A} e : walks P (refuse e : handler A).
Proof. done. Qed.

Lemma walks_call c : P c -> walks P (call c).
Proof. intros Hc h. by split. Qed.

(** What a step before the rest leaves for the rest. *)
Lemma walks_call_bind {B} c (k : s3_answer c -> handler B) : P c -> (forall x, walks P (k x)) -> walks P (call c ≫= k).
Proof. intros Hc Hk. apply walks_bind; [by apply walks_call | exact Hk]. Qed.

Lemma walks_try_bind {A B} (r : result failure A) (k : A -> handler B) : (forall a, r = Ok a -> walks P (k a)) -> walks P (try r ≫= k).
Proof. intros Hk h. destruct r as [a|e]; [by apply Hk | done]. Qed.

Lemma walks_checked_bind {A B} (r : result APIError A) (k : A -> handler B) : (forall a, r = Ok a -> walks P (k a)) -> walks P (checked r ≫= k).
Proof. intros Hk h. destruct r as [a|e]; [by apply Hk | done]. Qed.

Lemma walks_requires_bind {B} b e (k : unit -> handler B) : (b = true -> walks P (k tt)) -> walks P (requires b e ≫= k).
Proof. intros Hk h. destruct b; [by apply Hk | done]. Qed.

Lemma walks_try {A} (r : result failure A) : walks P (try r).
Proof. by destruct r. Qed.

Lemma walks_checked {A} (r : result APIError A) : walks P (checked r).
Proof. by destruct r. Qed.

Lemma walks_requires b e : walks P (requires b e).
Proof. by destruct b. Qed.

Lemma walks_set n v : walks P (setHeader n v).
Proof. done. Qed.

Lemma walks_meta pairs : walks P (setMetadata pairs).
Proof. done. Qed.

Lemma walks_checksums checks : walks P (setChecksumHeaders checks).
Proof.
  induction checks as [|c checks IH]; [apply walks_ret |]. cbn [setChecksumHeaders].
  apply walks_bind; [| intros _; exact IH]. by destruct (bool_decide _).
Qed.

(** The route that answers a request matches it. *)
Lemma walks_dispatch (table : list route) (r : request) :
  Forall (fun rt => route_matches rt r = true -> walks P (rt_run rt)) table -> walks P (dispatch table r).
Proof.
  intros Ht. unfold dispatch, selectRoute. destruct (find _ _) as [rt|] eqn:E; [| apply walks_refuse].
  apply find_some in E as [Hin Hm]. rewrite Forall_forall in Ht. by apply Ht; [apply list_elem_of_In |].
Qed.

End Walks.

Create HintDb walks.
#[export] Hint Resolve walks_ret walks_fails walks_refuse walks_try walks_checked walks_requires walks_set walks_meta walks_checksums : walks.

(** One step of a handler. *)
Ltac walk_step :=
  lazymatch goal with
  | |- forall _, _ => intros ?
  | |- walks _ (call _ ≫= _) => apply walks_call_bind
  | |- walks _ (try _ ≫= _) => apply walks_try_bind; intros ? ?
  | |- walks _ (checked _ ≫= _) => apply walks_checked_bind; intros ? ?
  | |- walks _ (requires _ _ ≫= _) => apply walks_requires_bind; intros ?
  | |- walks _ (mbind _ _) => apply walks_bind
  | |- walks _ (call _) => apply walks_call
  | |- walks _ (match ?x with _ => _ end) => destruct x eqn:?
  | |- walks _ (let '(_, _) := ?x in _) => destruct x eqn:?
  | |- walks _ _ => solve [auto with walks]
  end.
Ltac walk := repeat (cbn beta iota; walk_step).

(** ** What a call changes *)

Inductive target :=
| OneKey (b : backend) (bucket key : string)
| ManyKeys (b : backend) (bucket : string) (keys : list string)
| WholeBucket (bucket : string)
| CacheKey (name key : string).

Definition changes (c : s3_call) : option target :=
  match c with
  | BPutInline bucket key _ _ | BStart bucket key _ | BFinish bucket key _ _ _ | SCopyPart _ bucket key _ _ _ => Some (OneKey None bucket key)
  | BUpload t bucket key _ _ _ _ => Some (OneKey (Some t) bucket key)
  | BCopy b _ _ bucket key _ | BDelete b bucket key | BCreateUpload b bucket key _ | BStartPart b _ bucket key _ _
  | BFinishPart b _ bucket key _ _ _ _ | BComplete b _ bucket key _ _ | BAbort b _ bucket key => Some (OneKey b bucket key)
  | BDeleteMany b bucket keys => Some (ManyKeys b bucket keys)
  | SCreate bucket | SClone _ bucket | SDrop bucket _ => Some (WholeBucket bucket)
  | CPut name key _ | CDel name key => Some (CacheKey name key)
  | _ => None
  end.

(** The buckets a call names. *)
Definition buckets_of (c : s3_call) : list string :=
  match c with
  | BHead _ b _ | BOpen _ b _ _ _ | BList _ b _ _ _ | BPutInline b _ _ _ | BStart b _ _ | BFinish b _ _ _ _ | BUpload _ b _ _ _ _ _
  | BDeleteMany _ b _ | BDelete _ b _ | BCreateUpload _ b _ _ | BStartPart _ _ b _ _ _ | BFinishPart _ _ b _ _ _ _ _ | BListParts _ _ b _ _ _
  | BComplete _ _ b _ _ _ | BAbort _ _ b _ | BListUploads _ b _ _ _ _ _ | SAttributes b _ | SList b _ _ _ | SExists b | SCreate b | SDrop b _ => [b]
  | BCopy _ a _ b _ _ | SClone a b => [a; b]
  | SCopyPart _ b _ a _ _ => [a; b]
  | Now | BRead _ _ | SBuckets | CMeta _ _ | CBody _ _ | CPut _ _ _ | CDel _ _ => []
  end.

(** The bytes a call makes the content of an object or a part; an upload to a
    tier publishes them if its body ended well and was found valid. *)
Definition published (c : s3_call) : option bytes :=
  match c with
  | BPutInline _ _ data _ | BFinish _ _ data _ _ | BFinishPart _ _ _ _ _ data _ _ | BUpload _ _ _ data None _ (Ok _) => Some data
  | _ => None
  end.

Section Confined.
Context (readOnly : bool) (origins : string -> backend).

(** What a request names: the object of its path, the keys of a body of keys,
    its bucket, or the cached value of its path. *)
Definition addressed (r : request) (t : target) : Prop :=
  let path := rq_EscapedPath r in
  match t with
  | OneKey b bucket key =>
      HasPrefix path CachePrefix = false /\ splitPath path = Some (bucket, key) /\ key <> "" /\ slen key <= 1024 /\ b = origins bucket
  | ManyKeys b bucket keys =>
      HasPrefix path CachePrefix = false /\ splitPath path = Some (bucket, "") /\ rq_Method r = "POST" /\ Has (rq_Query r) "delete" = true /\
      1 <= zlen keys <= 1000 /\ Forall (fun k => k <> "" /\ slen k <= 1024) keys /\ b = origins bucket
  | WholeBucket bucket =>
      HasPrefix path CachePrefix = false /\ splitPath path = Some (bucket, "") /\ (rq_Method r = "PUT" \/ rq_Method r = "DELETE")
  | CacheKey name key =>
      HasPrefix path CachePrefix = true /\ (rq_Method r = "PUT" \/ rq_Method r = "DELETE") /\
      exists escaped, cut_slash (TrimPrefix path CachePrefix) = (name, escaped, true) /\ escaped <> "" /\ PathUnescape escaped = Some key
  end.

Definition confined (r : request) (c : s3_call) : Prop :=
  Forall (fun b => ValidName b = true) (buckets_of c) /\
  match changes c with
  | None => True
  | Some t => readOnly = false /\ rq_Method r <> "GET" /\ rq_Method r <> "HEAD" /\ addressed r t
  end.

End Confined.

(** ** What a body must agree with *)

Section Vouched.
Context `{Digests, Hashes}.

(** The trailers a request announces. *)
Definition announced (h : values) : list string :=
  let declared := header_Get h "x-amz-trailer" in
  if bool_decide (declared = "") then [] else (fun name => ToLower (TrimSpace name)) <$> Split declared ",".

(** Every checksum in a header, unless a trailer replaces it, and every
    announced trailer is the checksum of the body. *)
Definition vouched (h trailers : values) (body : bytes) : Prop :=
  (forall name vs, (name, vs) ∈ h -> checksum_name (ToLower name) = true -> ToLower name <> "x-amz-checksum-type" -> ToLower name ∉ announced h ->
     exists sum, hasher (ToLower name) body = Some sum /\ vs = [base64_encode sum]) /\
  (forall name, name ∈ announced h -> exists sum, hasher name body = Some sum /\ header_Get trailers name = base64_encode sum).

(** What [net/http] promises of a body: no more bytes than the declared length,
    and reads that get at least a byte. *)
Definition wire_ok (r : request) : Prop :=
  1 <= wi_burst (rq_Body r) /\ (0 <= rq_ContentLength r -> zlen (wi_bytes (rq_Body r)) <= rq_ContentLength r).

(** A call publishes nothing but the whole body of the request, which arrived
    and agrees with what was declared. *)
Definition vouches (p : payload) (r : request) (c : s3_call) : Prop :=
  match published c with
  | None => True
  | Some data => exists trailers, read_body p r = (data, None, trailers) /\ vouched (rq_Header r) trailers data
  end.

(** Lists of checksums against a body. *)
Lemma verify_values_all expected body checks : verify_values expected body = Ok checks ->
  Forall (fun e => exists sum, hasher e.1 body = Some sum /\ e.2 = base64_encode sum) expected.
Proof.
  revert checks. induction expected as [|[name want] expected IH]; intros checks; [by constructor |]. cbn [verify_values].
  destruct (hasher name body) as [sum|] eqn:Es; [| done]. destruct (bool_decide _) eqn:Eb; [done |].
  apply bool_decide_eq_false, dec_stable in Eb. destruct (verify_values expected body) as [out|] eqn:Ev; [| done]. intros _.
  constructor; [by exists sum | by eapply IH].
Qed.

Lemma integrity_headers_all h expected out : integrity_headers h expected = Ok out ->
  expected ⊆ out /\
  forall name vs, (name, vs) ∈ h -> checksum_name (ToLower name) = true -> ToLower name <> "x-amz-checksum-type" ->
    exists v, vs = [v] /\ (ToLower name, v) ∈ out.
Proof.
  revert expected. induction h as [|[name vs] h IH]; intros expected; cbn [integrity_headers].
  { intros [= <-]. split; [done |]. intros ? ? Hin. by apply elem_of_nil in Hin. }
  assert (forall l, integrity_headers h l = Ok out -> expected ⊆ l ->
    (checksum_name (ToLower name) = true -> ToLower name <> "x-amz-checksum-type" -> exists v, vs = [v] /\ (ToLower name, v) ∈ l) ->
    expected ⊆ out /\ forall n w, (n, w) ∈ (name, vs) :: h -> checksum_name (ToLower n) = true -> ToLower n <> "x-amz-checksum-type" ->
      exists v, w = [v] /\ (ToLower n, v) ∈ out) as Hstep.
  { intros l Hl Hsub Hhead. destruct (IH l Hl) as [Hlo Hall]. split; [set_solver |].
    intros n w [[= -> ->]|Hin]%elem_of_cons Hc Ht; [| by apply Hall]. destruct (Hhead Hc Ht) as (v & -> & Hv). exists v. split; [done | by apply Hlo]. }
  destruct (bool_decide (ToLower name = _)) eqn:Et.
  { apply bool_decide_eq_true in Et. destruct vs as [|v [|? ?]]; [done | | done]. destruct (bool_decide (v ∈ _)); [| done].
    intros Hr. by eapply Hstep. }
  destruct (checksum_name (ToLower name)) eqn:Ec; [| intros Hr; by eapply Hstep].
  destruct (negb _); [done |]. destruct vs as [|v [|? ?]]; [done | | done].
  intros Hr. eapply Hstep; [exact Hr | set_solver |]. intros _ _. exists v. split; [done | set_solver].
Qed.

Lemma integrity_trailers_all names out : integrity_trailers names = Ok out -> out = (fun name => ToLower (TrimSpace name)) <$> names.
Proof.
  revert out. induction names as [|name names IH]; intros out; cbn [integrity_trailers]; [by intros [= <-] |].
  destruct (_ || _); [done |]. destruct (integrity_trailers names) as [rest|] eqn:E; [| done]. intros [= <-]. cbn. f_equal. by apply IH.
Qed.

Lemma trailer_values_all names trailers expected out : trailer_values names trailers expected = Ok out ->
  (forall name v, (name, v) ∈ expected -> name ∉ names -> (name, v) ∈ out) /\
  (forall name, name ∈ names -> (name, header_Get trailers name) ∈ out).
Proof.
  revert expected. induction names as [|name names IH]; intros expected; cbn [trailer_values].
  { intros [= <-]. split; [done |]. intros ? Hin. by apply elem_of_nil in Hin. }
  destruct (bool_decide _); [done |]. intros Hr. destruct (IH _ Hr) as [He Ht]. split.
  - intros n v Hn Hnot. apply He; [| set_solver]. apply elem_of_app. left. apply elem_of_lfilter. split; [done |]. apply bool_decide_eq_true. cbn. set_solver.
  - intros n [->|Hn]%elem_of_cons; [| by apply Ht]. destruct (decide (name ∈ names)); [by apply Ht |].
    apply He; [set_solver | done].
Qed.

Lemma verify_vouched h i trailers body checks : newIntegrity h = Ok i -> verify i trailers body = Ok checks -> vouched h trailers body.
Proof.
  unfold newIntegrity, verify. destruct (integrity_headers h []) as [expected|] eqn:Ee; [| done]. cbn [rbind].
  destruct (if bool_decide _ then _ else _) as [names|] eqn:En; [| done]. cbn [rbind].
  destruct (declared_algorithms _ _); [| done]. intros [= <-]. cbn [in_trailers in_expected].
  destruct (trailer_values names trailers expected) as [all|] eqn:Et; [| done]. cbn [rbind]. intros Hv.
  assert (announced h = names) as Ha.
  { revert En. unfold announced. destruct (bool_decide _); [by intros [= <-] |]. intros En. by rewrite (integrity_trailers_all _ _ En). }
  apply verify_values_all in Hv. rewrite Forall_forall in Hv. apply integrity_headers_all in Ee as [_ Ee]. apply trailer_values_all in Et as [He Ht].
  rewrite <- Ha in *. split.
  - intros name vs Hin Hc Hty Hn. destruct (Ee name vs Hin Hc Hty) as (v & -> & Hv'). destruct (Hv _ (He _ _ Hv' Hn)) as (sum & Hs & Hw).
    exists sum. cbn in *. by rewrite Hw.
  - intros name Hn. destruct (Hv _ (Ht _ Hn)) as (sum & Hs & Hw). by exists sum.
Qed.

End Vouched.

(** ** Handlers *)

Section Handlers.
Context `{Digests, Hashes, Mime, Clocks, XmlBodies}.
Context (readOnly : bool) (origins : string -> backend) (pages : nat).
Context (p : payload) (r : request).

Definition proper (c : s3_call) : Prop :=
  confined readOnly origins r c /\ (header r "x-amz-copy-source" = "" -> wire_ok r -> vouches p r c).

Lemma proper_read c : changes c = None -> Forall (fun b => ValidName b = true) (buckets_of c) -> proper c.
Proof.
  intros Hc Hb. split; [split; [exact Hb | by rewrite Hc] |]. intros _ _. unfold vouches. by destruct c.
Qed.

(** A request that may change what it names. *)
Definition writable : Prop := readOnly = false /\ rq_Method r <> "GET" /\ rq_Method r <> "HEAD".

Definition names_key (bucket key : string) : Prop :=
  HasPrefix (rq_EscapedPath r) CachePrefix = false /\ splitPath (rq_EscapedPath r) = Some (bucket, key) /\ key <> "" /\ slen key <= 1024.

Lemma confined_key c b bucket key : writable -> names_key bucket key -> changes c = Some (OneKey b bucket key) -> b = origins bucket ->
  Forall (fun b => ValidName b = true) (buckets_of c) -> confined readOnly origins r c.
Proof. intros (? & ? & ?) (? & ? & ? & ?) Hc Hb Hv. split; [exact Hv |]. rewrite Hc. by repeat split. Qed.

Lemma proper_key c b bucket key : writable -> names_key bucket key -> changes c = Some (OneKey b bucket key) -> published c = None -> b = origins bucket ->
  Forall (fun b => ValidName b = true) (buckets_of c) -> proper c.
Proof. intros Hw Hk Hc Hp Hb Hv. split; [by eapply confined_key |]. intros _ _. unfold vouches. by rewrite Hp. Qed.

(** A copy publishes what it read. *)
Lemma proper_copy c b bucket key : present_header r "x-amz-copy-source" = true -> writable -> names_key bucket key ->
  changes c = Some (OneKey b bucket key) -> b = origins bucket -> Forall (fun b => ValidName b = true) (buckets_of c) -> proper c.
Proof.
  intros Hp Hw Hk Hc Hb Hv. split; [by eapply confined_key |]. intros He. unfold present_header in Hp. rewrite He in Hp. by apply bool_decide_eq_true in Hp.
Qed.

Lemma proper_bucket c bucket : writable -> HasPrefix (rq_EscapedPath r) CachePrefix = false -> splitPath (rq_EscapedPath r) = Some (bucket, "") ->
  rq_Method r = "PUT" \/ rq_Method r = "DELETE" -> changes c = Some (WholeBucket bucket) -> published c = None ->
  Forall (fun b => ValidName b = true) (buckets_of c) -> proper c.
Proof.
  intros (? & ? & ?) ? ? ? Hc Hp Hv. split; [split; [exact Hv | rewrite Hc; by repeat split] |]. intros _ _. unfold vouches. by rewrite Hp.
Qed.

End Handlers.

Ltac valid_names := repeat constructor; assumption.
Ltac reads := apply proper_read; [reflexivity | valid_names].
Ltac writes_key := eapply proper_key; [eassumption | eassumption | reflexivity | reflexivity | first [reflexivity | congruence] | valid_names].
Ltac writes_copy := eapply proper_copy; [eassumption | eassumption | eassumption | reflexivity | first [reflexivity | congruence] | valid_names].
Ltac writes_bucket := eapply proper_bucket; [eassumption | eassumption | eassumption | eauto | reflexivity | reflexivity | valid_names].

Section Reading.
Context `{Digests, Hashes, Mime, Clocks, XmlBodies}.
Context (readOnly : bool) (origins : string -> backend) (pages : nat).
Context (p : payload) (r : request).
Abbreviation P := (proper readOnly origins p r).

Lemma walks_catalog bucket : ValidName bucket = true -> walks P (requireCatalogBucket bucket).
Proof. intros Hv. unfold requireCatalogBucket. walk. reads. Qed.

Lemma walks_native bucket : ValidName bucket = true -> walks P (requireNativeBucket origins bucket).
Proof. intros Hv. unfold requireNativeBucket. destruct (isOrigin _); [apply walks_ret | by apply walks_catalog]. Qed.

Lemma walks_origin bucket : ValidName bucket = true -> walks P (requireOriginBucket origins bucket).
Proof. intros Hv. unfold requireOriginBucket. destruct (isOrigin _); [by apply walks_catalog | apply walks_ret]. Qed.

Lemma walks_xml d : walks P (writeXML d).
Proof. unfold writeXML. walk. Qed.
End Reading.
#[export] Hint Resolve walks_catalog walks_native walks_origin walks_xml : walks.

Section ReadHandlers.
Context `{Digests, Hashes, Mime, Clocks, XmlBodies}.
Context (readOnly : bool) (origins : string -> backend) (pages : nat).
Context (p : payload) (r : request).
Abbreviation P := (proper readOnly origins p r).

Lemma walks_info i key : walks P (setObjectInfoHeaders i key).
Proof. unfold setObjectInfoHeaders. walk. Qed.

Lemma walks_served res key body hit : walks P (serveReadResult r key res body hit).
Proof. unfold serveReadResult, setReadHeaders, setCacheHeader. walk; try apply walks_info. reads. Qed.

Lemma walks_part_bounds hd part : walks P (part_bounds hd part).
Proof. unfold part_bounds. walk. Qed.

Lemma walks_part_number : walks P (part_number r).
Proof. unfold part_number. walk. Qed.

Lemma walks_upload_part_number : walks P (upload_part_number r).
Proof. unfold upload_part_number. walk. Qed.

Lemma walks_limit name : walks P (limit_param r name).
Proof. unfold limit_param. walk. Qed.

Lemma walks_read_limited n : walks P (read_limited p r n).
Proof. unfold read_limited. walk. Qed.
End ReadHandlers.
#[export] Hint Resolve walks_info walks_served walks_part_bounds walks_part_number walks_upload_part_number walks_limit walks_read_limited : walks.

Section GetHandlers.
Context `{Digests, Hashes, Mime, Clocks, XmlBodies}.
Context (readOnly : bool) (origins : string -> backend) (pages : nat).
Context (p : payload) (r : request).
Abbreviation P := (proper readOnly origins p r).

Lemma walks_headObject bucket key : ValidName bucket = true -> walks P (headObject origins r bucket key).
Proof. intros Hv. unfold headObject, head_or_index, notModified, setCacheHeader. walk; reads. Qed.

Lemma walks_getObject bucket key : ValidName bucket = true -> walks P (getObject origins r bucket key).
Proof. intros Hv. unfold getObject, requested_range, open_or_index, invalid_range, notModified. walk; reads. Qed.

Lemma walks_attributes bucket key : ValidName bucket = true -> walks P (getObjectAttributes origins r bucket key).
Proof. intros Hv. unfold getObjectAttributes, number_header. walk; reads. Qed.

Lemma walks_listParts bucket key : ValidName bucket = true -> walks P (listParts origins r bucket key).
Proof. intros Hv. unfold listParts. walk. reads. Qed.

Lemma walks_list_uploads bucket : ValidName bucket = true -> walks P (list_uploads origins r bucket).
Proof. intros Hv. unfold list_uploads. walk. reads. Qed.

Lemma walks_list_loop fuel b bucket req from seen after page : ValidName bucket = true -> walks P (list_loop fuel b bucket req from seen after page).
Proof.
  intros Hv. revert from seen after page. induction fuel as [|fuel IH]; intros from seen after page; [apply walks_fails |]. cbn [list_loop]. walk. reads.
Qed.

Lemma walks_listObjectsV2 bucket : ValidName bucket = true -> walks P (listObjectsV2 origins pages r bucket).
Proof. intros Hv. unfold listObjectsV2. walk. by apply walks_list_loop. Qed.

Lemma walks_versions bucket : ValidName bucket = true -> walks P (listObjectVersions origins r bucket).
Proof. intros Hv. unfold listObjectVersions, versionParams. walk. reads. Qed.

Lemma walks_origin_versions bucket : ValidName bucket = true -> walks P (listOriginObjectVersions origins r bucket).
Proof. intros Hv. unfold listOriginObjectVersions, versionParams. walk. reads. Qed.

Lemma walks_getOrList bucket : ValidName bucket = true -> walks P (getOrListBucket origins pages r bucket).
Proof. intros Hv. unfold getOrListBucket. walk; [reads | by apply walks_getObject | by apply walks_listObjectsV2 ..]. Qed.

Lemma walks_headBucket bucket : ValidName bucket = true -> walks P (headBucket origins bucket).
Proof. intros Hv. unfold headBucket. walk. Qed.

Lemma walks_listBuckets : walks P listBuckets.
Proof. unfold listBuckets. walk. reads. Qed.

Lemma walks_readCached name key : walks P (readCached r name key).
Proof. unfold readCached, invalid_range, notModified. walk; reads. Qed.
End GetHandlers.
#[export] Hint Resolve walks_headObject walks_getObject walks_attributes walks_listParts walks_list_uploads walks_listObjectsV2 walks_versions
  walks_origin_versions walks_getOrList walks_headBucket walks_listBuckets walks_readCached : walks.

(** ** Bodies *)

Lemma upload_body p r b : prepareUploadBody p r = Ok b ->
  newIntegrity (rq_Header r) = Ok (ub_integrity b) /\
  match p with PlainBody => ub_size b = rq_ContentLength r | ChunkedBody n => 0 <= n /\ ub_size b = n end.
Proof.
  unfold prepareUploadBody. destruct (newIntegrity _) as [i|]; [| done]. cbn [rbind]. destruct p as [|n]; [by intros [= <-] |].
  destruct (n <? 0) eqn:En; [done |]. intros [= <-]. cbn. split; [done | lia].
Qed.

Lemma ingest_body p r ing : prepareIngest p r = Ok ing -> prepareUploadBody p r = Ok (ig_body ing).
Proof.
  unfold prepareIngest. destruct (validateWriteHeaders r); [| done]. cbn [rbind]. destruct (parseMetadata _); [| done]. cbn [rbind].
  destruct (contentType _); [| done]. cbn [rbind]. destruct (put_condition r); [| done]. cbn [rbind].
  destruct (prepareUploadBody p r); [| done]. by intros [= <-].
Qed.

(** No more bytes arrive than the size of the body. *)
Lemma body_bound p r b data ended trailers : wire_ok r -> prepareUploadBody p r = Ok b -> read_body p r = (data, ended, trailers) -> 0 <= ub_size b ->
  zlen data <= ub_size b.
Proof.
  intros [Hburst Hlen] [_ Hb]%upload_body. unfold read_body. destruct p as [|n]; [intros [= <- _ _]; rewrite Hb; exact Hlen |].
  destruct Hb as [Hn ->]. intros Hr _.
  destruct (chunked_read_all_counts (new_chunked (wi_bytes (rq_Body r)) (wi_eager (rq_Body r)) n)
    (replicate (S (length (wi_bytes (rq_Body r)))) (ioChunk, wi_burst (rq_Body r)))) as (got & e & c & E & Ht & Hc & Hd & _).
  { apply Forall_replicate. cbn. unfold ioChunk. lia. }
  { unfold counts_ok. cbn. lia || (repeat split; try done; lia). }
  rewrite E in Hr. destruct Hc as (_ & H2 & H3 & _). rewrite Hd in H3. cbn in *. destruct e; injection Hr as <- _ _; lia.
Qed.

Lemma inline_whole n data ended inline : readInlineBody n data ended = Ok inline -> zlen data <= n -> inline = data /\ ended = None.
Proof.
  unfold readInlineBody. destruct (zlen data <? n) eqn:E; [done |]. destruct ended; [done |]. intros [= <-] Hn. split; [| done].
  by apply slice_full.
Qed.

Section WriteHandlers.
Context `{Digests, Hashes, Mime, Clocks, XmlBodies}.
Context (readOnly : bool) (origins : string -> backend) (pages : nat).
Context (p : payload) (r : request) (bucket key : string).
Context (Hw : writable readOnly r) (Hk : names_key r bucket key) (Hv : ValidName bucket = true).
Abbreviation P := (proper readOnly origins p r).

(** A write of bytes that are found valid only if they are the body and agree
    with what was declared. *)
Lemma walks_put data ended size opts validate :
  (header r "x-amz-copy-source" = "" -> wire_ok r -> (0 <= size -> zlen data <= size) /\
     (forall checks, validate = Ok checks -> ended = None -> exists tr, read_body p r = (data, None, tr) /\ vouched (rq_Header r) tr data)) ->
  walks P (backend_Put (origins bucket) bucket key data ended size opts validate).
Proof.
  intros Hd. unfold backend_Put, local_Put, origin_Put.
  assert (forall c b, changes c = Some (OneKey b bucket key) -> b = origins bucket -> Forall (fun b => ValidName b = true) (buckets_of c) ->
    (header r "x-amz-copy-source" = "" -> wire_ok r -> vouches p r c) -> P c) as Hkey.
  { intros c b Hc Hb Hf Hvo. split; [by eapply confined_key | exact Hvo]. }
  destruct (origins bucket) as [t|] eqn:Eo.
  - walk. eapply Hkey; [reflexivity | done | valid_names |]. intros Hnc Hok. destruct (Hd Hnc Hok) as [_ Hdata]. unfold vouches, published.
    destruct ended; [done |]. destruct validate as [checks|]; [| done]. by eapply Hdata.
  - destruct ((0 <=? size) && (size <=? MaxInlineBytes)) eqn:Es.
    + walk. eapply Hkey; [reflexivity | done | valid_names |]. intros Hnc Hok. destruct (Hd Hnc Hok) as [Hn Hdata]. unfold vouches, published.
      edestruct inline_whole as [-> He]; [eassumption | apply Hn; lia |]. by eapply Hdata.
    + walk; (eapply Hkey; [reflexivity | done | valid_names |]); intros Hnc Hok; [done |]. destruct (Hd Hnc Hok) as [_ Hdata]. by eapply Hdata.
Qed.

Lemma walks_putObject : walks P (putObject origins p r bucket key).
Proof.
  unfold putObject. apply walks_checked_bind. intros ing Hi. pose proof (ingest_body _ _ _ Hi) as Hb. destruct (upload_body _ _ _ Hb) as [Hint _].
  destruct (read_body p r) as [[data ended] trailers] eqn:Er. apply walks_bind; [| walk].
  apply walks_put. intros _ Hok. split; [by eapply body_bound |]. intros checks Hc ->. exists trailers. split; [done |]. by eapply verify_vouched.
Qed.

Lemma walks_uploadPart : walks P (uploadPart origins p r bucket key).
Proof.
  unfold uploadPart. walk; [writes_key |]. match goal with Hb : prepareUploadBody _ _ = Ok _ |- _ => destruct (upload_body _ _ _ Hb) as [Hint _] end.
  split; [eapply confined_key; [done | done | reflexivity | done | valid_names] |]. intros _ _. eexists. split; [eassumption | by eapply verify_vouched].
Qed.

Lemma copy_source_valid v dflt src : parseCopySource v dflt = Ok src -> ValidName src.1 = true.
Proof.
  unfold parseCopySource, validateBucketName. destruct (bool_decide _); [done |]. destruct (PathUnescape v); [| done]. cbv zeta.
  destruct (cut_slash _) as [[b k] found]. destruct (if _ || _ then _ else _) as [b' k']. destruct (ValidName b') eqn:E; [| done]. by intros [= <-].
Qed.

Lemma walks_copyObject : present_header r "x-amz-copy-source" = true -> walks P (copyObject origins r bucket key).
Proof.
  intros Hh. unfold copyObject. walk.
  all: match goal with Hs : parseCopySource _ _ = Ok _ |- _ => pose proof (copy_source_valid _ _ _ Hs); cbn in * end.
  all: try reads; try writes_copy; auto with walks.
  all: apply walks_put; intros Hn; unfold present_header in Hh; rewrite Hn in Hh; by apply bool_decide_eq_true in Hh.
Qed.

Lemma walks_uploadPartCopy : present_header r "x-amz-copy-source" = true -> walks P (uploadPartCopy origins r bucket key).
Proof.
  intros Hh. unfold uploadPartCopy, tryFastPartCopy, openPartCopySource, copy_part_reply. walk.
  all: match goal with Hs : parseCopySource _ _ = Ok _ |- _ => pose proof (copy_source_valid _ _ _ Hs); cbn in * end.
  all: try reads; try writes_copy; auto with walks.
  destruct (origins bucket) eqn:Eo; [done |]. eapply proper_key; [done | done | reflexivity | reflexivity | done | valid_names].
Qed.

Lemma walks_createUpload : walks P (createMultipartUpload origins r bucket key).
Proof. unfold createMultipartUpload. walk. writes_key. Qed.

Lemma walks_complete : walks P (completeMultipartUpload origins p r bucket key).
Proof. unfold completeMultipartUpload. walk. writes_key. Qed.

Lemma walks_abort : walks P (abortMultipartUpload origins r bucket key).
Proof. unfold abortMultipartUpload. walk. writes_key. Qed.

Lemma walks_deleteObject : walks P (deleteObject origins r bucket key).
Proof. unfold deleteObject. walk. writes_key. Qed.

End WriteHandlers.

Ltac each_route H :=
  unfold bucketRoutes, originBucketRoutes, objectRoutes;
  repeat lazymatch goal with |- Forall _ (_ :: _) => apply Forall_cons_2 | |- Forall _ [] => apply Forall_nil_2 end; intros H; cbn [rt_run].

Section BucketHandlers.
Context `{Digests, Hashes, Mime, Clocks, XmlBodies}.
Context (readOnly : bool) (origins : string -> backend) (pages : nat).
Context (p : payload) (r : request) (bucket : string).
Context (Hw : readOnly = true -> rq_Method r = "GET" \/ rq_Method r = "HEAD").
Context (Hc : HasPrefix (rq_EscapedPath r) CachePrefix = false) (Hs : splitPath (rq_EscapedPath r) = Some (bucket, "")).
Context (Hv : ValidName bucket = true).
Abbreviation P := (proper readOnly origins p r).

(** A method that is neither [GET] nor [HEAD] may write. *)
Lemma may_write m : rq_Method r = m -> m <> "GET" -> m <> "HEAD" -> writable readOnly r.
Proof. intros Hm Hg Hh. repeat split; [| by rewrite Hm ..]. destruct readOnly; [| done]. destruct (Hw eq_refl) as [E|E]; by rewrite Hm in E. Qed.

Lemma bucket_valid name u : validateBucketName name = Ok u -> ValidName name = true.
Proof. unfold validateBucketName. by destruct (ValidName name). Qed.

Lemma walks_createBucket : rq_Method r = "PUT" -> walks P (createBucket origins r bucket).
Proof.
  intros Hm. pose proof (may_write _ Hm ltac:(done) ltac:(done)) as Hwr. unfold createBucket. walk; [| writes_bucket].
  match goal with Hb : validateBucketName _ = Ok _ |- _ => apply bucket_valid in Hb end. writes_bucket.
Qed.

Lemma walks_deleteBucket : rq_Method r = "DELETE" -> walks P (deleteBucket r bucket).
Proof. intros Hm. pose proof (may_write _ Hm ltac:(done) ltac:(done)) as Hwr. unfold deleteBucket. walk. writes_bucket. Qed.

Lemma walks_deleteObjects : rq_Method r = "POST" -> Has (rq_Query r) "delete" = true -> walks P (deleteObjects origins p r bucket).
Proof.
  intros Hm Hq. pose proof (may_write _ Hm ltac:(done) ltac:(done)) as Hwr. unfold deleteObjects. walk. split; [| done].
  split; [valid_names |]. cbn. destruct Hwr as (? & ? & ?). do 7 (split; [done |]).
  match goal with Hn : negb (bool_decide (?l = [])) && _ = true, Hf : forallb _ ?l = true |- _ => rename Hn into Hlen; rename Hf into Hkeys end.
  apply andb_true_iff in Hlen as [Hne Hmax]. split; [split; [| lia] | split; [| done]].
  - apply negb_true_iff, bool_decide_eq_false in Hne. match goal with |- 1 <= zlen ?l => destruct l; [done |]; rewrite zlen_cons; pose proof (zlen_nonneg l); lia end.
  - apply Forall_forall. intros k Hk. rewrite forallb_forall in Hkeys. specialize (Hkeys k (proj1 (list_elem_of_In _ _) Hk)).
    apply andb_true_iff in Hkeys as [Hke Hkl]. apply bool_decide_eq_true in Hke. split; [done | lia].
Qed.

(** What a matching route says of the request. *)
Lemma route_method rt : route_matches rt r = true -> rt_method rt <> "" -> rq_Method r = rt_method rt.
Proof.
  unfold route_matches. rewrite !andb_true_iff, !orb_true_iff, !bool_decide_eq_true. intros [[[[|] _] _] _]; congruence.
Qed.

Lemma route_query rt : route_matches rt r = true -> rt_query rt <> "" -> Has (rq_Query r) (rt_query rt) = true.
Proof. unfold route_matches. rewrite !andb_true_iff, !orb_true_iff, !bool_decide_eq_true. intros [[[_ [|]] _] _]; congruence. Qed.

Lemma route_header rt : route_matches rt r = true -> rt_header rt <> "" -> present_header r (rt_header rt) = true.
Proof. unfold route_matches. rewrite !andb_true_iff, !orb_true_iff, !bool_decide_eq_true. intros [_ [|]]; congruence. Qed.

Lemma walks_catalogRoute run : walks P run -> walks P (catalogRoute origins bucket run).
Proof. intros Hr. unfold catalogRoute. apply walks_bind; [by apply walks_origin | by intros _]. Qed.

Lemma walks_bucketRoutes : walks P (dispatch (bucketRoutes origins pages p r bucket) r).
Proof.
  apply walks_dispatch. each_route Hm; try (by auto with walks).
  - apply walks_createBucket, (route_method _ Hm). done.
  - apply walks_deleteBucket, (route_method _ Hm). done.
  - apply walks_deleteObjects; [apply (route_method _ Hm); done | apply (route_query _ Hm); done].
Qed.

Lemma walks_originBucketRoutes : walks P (dispatch (originBucketRoutes origins pages p r bucket) r).
Proof.
  apply walks_dispatch. each_route Hm; try (by auto using walks_catalogRoute with walks).
  - apply walks_createBucket, (route_method _ Hm). done.
  - apply walks_catalogRoute, walks_deleteObjects; [apply (route_method _ Hm); done | apply (route_query _ Hm); done].
Qed.

End BucketHandlers.

(** ** Requests *)

Section Requests.
Context `{Digests, Hashes, Mime, Clocks, XmlBodies}.
Context (readOnly : bool) (origins : string -> backend) (pages : nat).

Section Served.
Context (p : payload) (r : request).
Abbreviation P := (proper readOnly origins p r).

Lemma read_only_methods :
  negb (readOnly && negb (bool_decide (rq_Method r ∈ ["GET"; "HEAD"]))) = true -> readOnly = true -> rq_Method r = "GET" \/ rq_Method r = "HEAD".
Proof. intros Hn ->. cbn in Hn. rewrite negb_involutive in Hn. apply bool_decide_eq_true in Hn. set_solver. Qed.

Lemma proper_cache c name escaped key found : HasPrefix (rq_EscapedPath r) CachePrefix = true ->
  cut_slash (TrimPrefix (rq_EscapedPath r) CachePrefix) = (name, escaped, found) -> found && bool_decide (escaped <> "") = true ->
  PathUnescape escaped = Some key -> bool_decide (rq_Method r ∈ ["GET"; "HEAD"]) = false -> negb (readOnly && negb false) = true ->
  (rq_Method r = "PUT" \/ rq_Method r = "DELETE") -> changes c = Some (CacheKey name key) -> buckets_of c = [] -> published c = None -> P c.
Proof.
  intros Hp Hcut [-> Hne]%andb_true_iff Hu Hg Hro Hm Hc Hb Hpub. apply bool_decide_eq_true in Hne. apply bool_decide_eq_false in Hg.
  split; [split; [by rewrite Hb |] | intros _ _; unfold vouches; by rewrite Hpub].
  rewrite Hc. split; [by destruct readOnly |]. split; [set_solver |]. split; [set_solver |]. split; [done |]. split; [done |]. by exists escaped.
Qed.

Lemma walks_cache : HasPrefix (rq_EscapedPath r) CachePrefix = true -> walks P (serveCacheHTTP readOnly p r).
Proof.
  intros Hp. unfold serveCacheHTTP. destruct (cut_slash _) as [[name escaped] found] eqn:Ec.
  walk; (eapply proper_cache; [done | done | done | eassumption | done | done | | reflexivity | reflexivity | reflexivity]).
  - left. by eapply bool_decide_eq_true.
  - right. by eapply bool_decide_eq_true.
Qed.

Lemma walks_objectRequest bucket key : (readOnly = true -> rq_Method r = "GET" \/ rq_Method r = "HEAD") ->
  HasPrefix (rq_EscapedPath r) CachePrefix = false -> splitPath (rq_EscapedPath r) = Some (bucket, key) -> key <> "" -> ValidName bucket = true ->
  walks P (objectRequest origins p r bucket key).
Proof.
  intros Hw Hc Hs Hne Hv. unfold objectRequest. walk_step. walk_step.
  assert (names_key r bucket key) as Hk by (repeat split; [done .. | lia]).
  assert (walks P (dispatch (objectRoutes origins p r bucket key) r)) as Hd.
  { apply walks_dispatch. each_route Hm; try (by auto with walks).
    all: pose proof (may_write _ _ Hw _ (route_method _ _ Hm ltac:(done)) ltac:(done) ltac:(done)) as Hwr.
    - apply walks_uploadPartCopy; [done .. |]. by apply (route_header _ _ Hm).
    - by apply walks_uploadPart.
    - apply walks_copyObject; [done .. |]. by apply (route_header _ _ Hm).
    - by apply walks_putObject.
    - by apply walks_createUpload.
    - by apply walks_complete.
    - by apply walks_abort.
    - by apply walks_deleteObject. }
  unfold dispatch in Hd. destruct (selectRoute _ r); [| apply walks_refuse]. apply walks_bind; [by apply walks_origin | by intros _].
Qed.

End Served.

Lemma walks_serve r p r' : prepareBody r = Ok (p, r') -> walks (proper readOnly origins p r') (serve readOnly origins pages r).
Proof.
  intros Hb. unfold serve. rewrite Hb. apply walks_checked_bind. intros ? [= <-]. destruct (HasPrefix (rq_EscapedPath r') CachePrefix) eqn:Ec; [by apply walks_cache |].
  destruct (splitPath (rq_EscapedPath r')) as [[bucket key]|] eqn:Es; [| apply walks_refuse].
  destruct (bool_decide (bucket <> "")) eqn:Eb.
  - apply walks_checked_bind. intros [] Hv%bucket_valid. apply walks_requires_bind. intros Hro. pose proof (read_only_methods _ Hro) as Hw.
    apply bool_decide_eq_true in Eb. rewrite bool_decide_false by done. destruct (bool_decide (key = "")) eqn:Ek.
    + apply bool_decide_eq_true in Ek as ->. destruct (isOrigin _); [by apply walks_originBucketRoutes | by apply walks_bucketRoutes].
    + apply bool_decide_eq_false in Ek. by apply walks_objectRequest.
  - apply bool_decide_eq_false, dec_stable in Eb as ->. apply walks_bind; [apply walks_ret |]. intros []. apply walks_requires_bind. intros _.
    rewrite bool_decide_true by done. destruct (bool_decide _); auto with walks.
Qed.

(** All calls of a request. *)
Lemma serve_calls id r (P : s3_call -> Prop) :
  (forall p r', prepareBody r = Ok (p, r') -> forall c, proper readOnly origins p r' c -> P c) -> calls P (ServeHTTP readOnly origins pages id r).
Proof.
  intros HP. unfold ServeHTTP. destruct (Presigned _); [done |]. apply calls_bind; [| by intros [[[]|] ?]].
  destruct (prepareBody r) as [[p r']|] eqn:Eb; [| unfold serve; by rewrite Eb].
  eapply calls_mono; [by eapply HP | by apply walks_serve].
Qed.

Lemma prepared r p r' : prepareBody r = Ok (p, r') -> r' = with_header r (stripAwsChunked (rq_Header r)).
Proof.
  unfold prepareBody. destruct (negb (HasPrefix _ _)); [by intros [= _ <-] |]. destruct (negb _); [done |].
  destruct (if bool_decide _ then _ else _); [| done]. by intros [= _ <-].
Qed.

(** Only the header of the encoding changes. *)
Lemma values_of_del h k name : k <> CanonicalHeaderKey name -> values_of (header_Del h name) k = values_of h k.
Proof.
  intros Hk. unfold header_Del. induction h as [|[n vs] h IH]; [done |]. cbn [List.filter values_of fst]. case_bool_decide as En; cbn [values_of].
  - by rewrite IH.
  - subst n. by rewrite bool_decide_false by congruence.
Qed.

Lemma strip_Get h name : CanonicalHeaderKey name <> "Content-Encoding" -> header_Get (stripAwsChunked h) name = header_Get h name.
Proof.
  intros Hn. unfold stripAwsChunked. destruct (negb _); [done |]. unfold header_Get, Get.
  destruct (encoding_parts _); unfold header_Set; cbn [values_of]; [by rewrite values_of_del |].
  rewrite bool_decide_false by (intros E; by rewrite <- E in Hn). by rewrite values_of_del.
Qed.

Lemma strip_keeps h name vs : (name, vs) ∈ h -> name <> "Content-Encoding" -> (name, vs) ∈ stripAwsChunked h.
Proof.
  intros Hin Hn. assert ((name, vs) ∈ header_Del h "Content-Encoding") as Hd by (apply elem_of_lfilter; split; [done |]; by apply bool_decide_eq_true).
  unfold stripAwsChunked. destruct (negb _); [done |]. destruct (encoding_parts _); [done |]. unfold header_Set. by right.
Qed.

Lemma vouched_strip h trailers body : vouched (stripAwsChunked h) trailers body -> vouched h trailers body.
Proof.
  intros [Hh Ht]. assert (announced (stripAwsChunked h) = announced h) as Ha by (unfold announced; by rewrite strip_Get). rewrite Ha in *.
  split; [| exact Ht]. intros name vs Hin Hc. apply Hh; [| done]. apply strip_keeps; [done |]. by intros ->.
Qed.

End Requests.

(** C8: a request changes only what it names.  Whatever the store and the tiers
    answer, every call of a request that changes something is a call of a
    gateway that is not read-only, for a method other than [GET] and [HEAD],
    and for the object, the listed keys, the bucket or the cached value of the
    path of the request, at the backend of its bucket; and every bucket that
    reaches the store has a valid name. *)
Theorem requests_confined `{Digests, Hashes, Mime, Clocks, XmlBodies} (readOnly : bool) (origins : string -> backend) (pages : nat)
    (id : string) (r : request) :
  calls (confined readOnly origins r) (ServeHTTP readOnly origins pages id r).
Proof. apply serve_calls. intros p r' Hp c [Hc _]. by rewrite (prepared _ _ _ Hp) in Hc. Qed.


#[local] Instance sample_digests : Digests := { sha256 b := b; md5 b := rev b }.
#[local] Instance sample_hashes : Hashes := { crc32 b := b; crc32c b := b; sha1 b := b; sha512 b := b }.
#[local] Instance sample_mime : Mime := fun _ => "".
#[local] Instance sample_clocks : Clocks := { iso_time _ := ""; http_time _ := "" }.
#[local] Instance sample_xml : XmlBodies := { unmarshal_delete _ := None; unmarshal_complete _ := None }.

Definition sample_put : request :=
  mkRequest "PUT" "/photos/cat" "/photos/cat" "" [] [("Content-Md5", [base64_encode (bytes_of_string "tac")])] [] 3
    (mkWire (bytes_of_string "cat") false false 2) "localhost" false.

